(* ===== verification/_CoqProject ===== *)
-Q . S2P
Prelude.v
RustStr.v
ArchiveRead.v
RefTable.v
Citations.v
Json.v
Ids.v
A2aTypes.v
Broadcaster.v
TaskSession.v
TaskStore.v
Semiotic.v
Interceptor.v
SemioticGate.v
SessionPool.v
EventDelivery.v
Dispatcher.v
IngressInbox.v
Callbacks.v
EffectBus.v
Router.v
Sse.v
Errors.v
ToolNames.v
StepExecutor.v
ToolSessions.v
SandboxWire.v
SandboxHost.v
SandboxSessions.v
ExternalPolicy.v
Signature.v
Render.v
PromptProjection.v
ConversationView.v
DurableRefs.v
RefHydrator.v
Compaction.v
PlanExtraction.v
HandleOps.v
SessionPlan.v
PlanSafety.v
PlanDedup.v
PlanAnswers.v
ToolRegistry.v
RegistryFacts.v
ActionIdentity.v
ContentHash.v
Repository.v
Lineage.v
ToolSnapshots.v
McpSnapshots.v
Deployment.v
AgentRunner.v
RunnerFacts.v
Cluster.v
Retry.v
AutoStatus.v
StreamCollect.v
A2aResponses.v
ChatStream.v
A2aRequests.v
LiveTurns.v
TaskUpdates.v
