(* ===== verification/Prelude.v ===== *)
(** * Agentium OS: verification of the runtime's core logic

    Agentium OS (the Rust workspace under [src/crates]) runs LLM agents as
    long-lived services.  A host receives events and A2A requests, routes
    them to agents, lets the agents call tools behind an interceptor, runs
    untrusted tools in pooled sandboxes, records everything in a provenance
    graph, and keeps the agents' prompts small with numbered references,
    citations and compaction.  Agents are packages published to a repository
    of versions and lineage.  This library models the parts that carry that
    logic as executable definitions translated from the source and proves what
    makes them correct.

    ** Parts and files

    - Base.  [Prelude] (this file): [Result] and panicking computations,
      machine integers with wrap-around and saturation, shared list and option
      lemmas.  [RustStr]: strings as UTF-8 bytes with the operations of [str]
      the code uses, decimal printing and parsing.  [Json]: [serde_json]
      values and accessors.  [Errors] ([baml-rt-core/src/error.rs],
      [tool_error_classify.rs], [tool_fsm.rs]): the runtime's errors, their
      dispositions and classification.
    - References and citations.  [ArchiveRead] ([baml-rt-tools/src/archive_read]):
      refs, rendered content, grep and paging.  [Render]
      ([archive_read/render.rs]): results as lines.  [RefTable]
      ([archive_refs.rs], [virtual_source.rs], [read_resolve.rs]): the [#N] and
      [@N] tables of a conversation, live and replayed.  [Citations]
      ([baml-rt-citation], [baml-rt-tools/src/citations.rs]): parsing, scanning
      and resolving citations against such a table.
    - Prompts.  [PromptProjection] ([prompt_projection.rs], [history_text.rs]):
      conversation rows as the numbered history an agent reads.
      [ConversationView] ([baml-rt-conversation]: [view.rs], [operational.rs],
      [planning.rs], [projection.rs]): the rows and which of them an agent sees.
      [DurableRefs] ([surreal_store/history_ref.rs], [archive_ref.rs]): the
      registries of numbers that all runtimes share.  [RefHydrator]
      ([ref_table_hydrator.rs], [projecting_provider.rs],
      [context_compaction/render.rs]): the table of a turn rebuilt from the
      registries, the prompt of the turn and the text compaction measures.
    - Tasks.  [Ids] ([baml-rt-core/src/ids.rs], node ids, the anchor counter of
      [baml-rt-provenance/src/events.rs]), [A2aTypes] ([baml-rt-a2a]: wire
      types, statuses, previews), [Broadcaster] ([task_update_broadcaster.rs]),
      [TaskSession] (the update session that replays a task and then follows
      it), [TaskStore] ([task_subgraph_store.rs]), [AutoStatus]
      ([auto_status.rs], [live_stream_working_relay.rs]: what a tool call shows
      to the clients of a task).
    - Live streams.  [StreamCollect] ([baml-rt-quickjs/src/a2a_stream.rs],
      [stream_completion.rs]): the collector of what an agent yields.
      [ChatStream] ([stream_collector.rs], the chunk normalizer of [a2a.rs]): the
      yields normalized, stored, numbered and forwarded.  [A2aResponses]
      ([response.rs], [error_mapping.rs]): envelopes, stream results and the error
      every failure is reported as.  [A2aRequests] ([wire.rs], [a2a.rs], the drain
      of [a2a_transport.rs]): from a JSON-RPC value to a scoped request, and from
      the messages of a run to the frames of a client.  [LiveTurns]
      ([a2a_transport.rs], [live_stream.rs]): clients, handlers and sessions of an
      agent with their turns.  [TaskUpdates] ([result_pipeline.rs] and its helpers,
      [task_update_drain.rs], [handlers.rs]): the way of a chunk into the task
      store, and of its updates to the clients that subscribe to a task.
    - The step loop.  [ToolNames] (tool and phase-function names),
      [StepExecutor] ([baml-rt-quickjs/src/step_executor.rs] and its helpers):
      one hop after the other, each narrowed to what the phase allows.
      [PlanExtraction] ([tool_extraction.rs], [tool_invocation_plan.rs],
      [open_input_schema.rs]): from a model's answer to a plan.  [SessionPlan]
      ([tool_session_plan.rs], [tool_dispatch.rs], [tool_execution.rs]): a plan
      run against the tool sessions, with [PlanSafety], [PlanDedup] and
      [PlanAnswers] for its theorems.  [ToolSessions]
      ([tool_session_handle.rs], [tool_sessions.rs]): the session handle, its
      effects and its retries; [HandleOps] has what every operation of the
      handle keeps.  [Signature]: the identity of a Send.
    - The tool registry.  [ToolRegistry] ([baml-rt-tools/src/tools.rs],
      [tool_fsm.rs]): registration, allowlists, sessions and single calls, with
      [RegistryFacts] for its theorems.  [ActionIdentity]: the text that names a
      call in prompts.
    - Tool safety.  [Semiotic] (schema, tiers, gate, phrase detection, linting
      and postconditions of [baml-rt-semiotic]), [Interceptor] and
      [SemioticGate] (its stores and the interceptor around every tool call).
    - Sandboxes.  [SandboxWire] ([baml-sandbox-protocol], [baml-sandbox-adapter]):
      frames and envelopes over byte streams and the adapter that serves a tool
      inside a sandbox.  [SandboxHost] ([external_tools/sandbox/invoker.rs],
      [spec.rs], [external_tools/invoker.rs]): the host's cache of sandboxes and
      its calls.  [SandboxSessions] ([sandbox/session_invoker.rs],
      [session_handler.rs], the session halves of protocol and adapter): tool
      sessions that live in a sandbox.  [SessionPool] ([session_pool.rs]): a
      key's bounded pool with every task in it.  [ExternalPolicy] ([policy.rs],
      [drift.rs], [handler.rs]): slots, quarantine and the schema check around
      every call.
    - Host events.  [EventDelivery] ([event_subscription.rs],
      [event_producer.rs], [dispatch.rs], [host_poll_lineage.rs],
      [event_delivery.rs], [agent_routing/keys.rs] of [baml-rt-core]),
      [Dispatcher] (the runner's dispatch loop and producer cursors),
      [IngressInbox] (durable webhook intake with leases and retries),
      [Callbacks] (scheduled callbacks).
    - Runner.  [Deployment] ([deployment_restore.rs], records),
      [AgentRunner] ([baml-agent-runner/src/runner.rs]: deploys and undeploys as
      tasks over the runner's maps) and [RunnerFacts] (records against agents,
      restarts, races).
    - Cluster.  [Cluster] ([cluster.rs], [cluster_heartbeat.rs]: placements,
      heartbeats and where a request goes), [Router] (forwarding of A2A
      requests, the address filter), [Sse] (decoding of server-sent events and
      forwarded answers).  [Retry] ([backoff.rs], [retry_after.rs] and the
      Slack client that uses them).
    - Effects.  [EffectBus] ([baml-rt-core/src/bus.rs] and the timeout policy
      of [baml-rt-quickjs/src/quickjs_bridge/eval.rs]).
    - Compaction.  [Compaction] ([baml-rt-provenance/src/context_compaction],
      budgets of [baml-rt-llm-config]) over the rows of [ConversationView]; it
      validates summaries with [Citations] and [RefTable].
    - Packages.  [ContentHash] ([baml-rt-hash], the hexadecimal codec),
      [Repository] (publish and fork over the store of
      [baml-rt-repository]), [Lineage] (lineage walks and search).
      [ToolSnapshots] and [McpSnapshots]: the registries of imported external
      tools and MCP servers in the same store, with approvals and digests.

    ** How code becomes definitions

    A pure function is a function; [Result] is [result]; a computation that can
    panic returns [outcome].  Stateful code passes its state explicitly, in
    [TaskStore], [ToolSessions] and [SessionPlan] through a state monad.  Code
    whose point is concurrency is a step relation: a state holds the shared
    memory and a program counter per task or thread, every atomic access or
    section under a lock is one step, and theorems are about all reachable
    states ([Ids.Anchor], [RefTable.HistoryRace], [SessionPool], [EffectBus],
    [TaskSession], [Callbacks], [IngressInbox], [Repository], [AgentRunner],
    [ExternalPolicy], [LiveTurns];
    in [DurableRefs] a step is one statement of the database).  Channels of
    [Broadcaster] are cells of a shared store, since the registry, writers and
    receivers alias them; so are the tables of [RefTable].

    Components meet at interfaces, and a client's theorems are proved against
    the interface: [TaskGraph] with [TaskGraphLaws] between the task store and
    the provenance graph ([MemGraph] is an instance); [ToolEnv] between the
    session handle and the registry, interceptors, bus and archive, and
    [PlanEnv] between plans and tool metadata, archive store and engines
    ([RegistryFacts.registry_env] discharges [ToolEnv] with the registry;
    [SessionPlan.world_env] discharges its archive with [RefTable] and
    [Render]); [ForeignSessions] and [Uuids] between the registry and the
    sessions and identifiers of other crates; [FreshIds], the law that the
    registry issues a session id once; [SandboxHost.Provider] and
    [SandboxSessions.Backend] between the host and the sandbox provider, with
    the laws [runs_adapter] and [serves_sessions] that the process at the other
    end is the adapter of [SandboxWire] around a tool; [RunnerEnv] between the runner and
    repository, package loader and state store; [HopEnv] with [GrowingConversation] between the step loop
    and the runtime manager.  Code outside the repository (the regex engine,
    hashing, JSON printing, the sandbox provider, the dispatch port, the graph
    database, the model) is an argument of the definitions that use it, with
    the behaviour relied on stated as hypotheses or class laws and an instance
    that satisfies them.

    ** What the theorems show

    - Invariants over every run or interleaving: task statuses follow the
      transition table and terminal ones stay, but for a reset through another
      context and [tasks.cancel], which the theorem names; every irreversible
      tool call spends an approval of its own, and no gated call passes without
      a live, covering, linted artifact; the pool stays within its cap, hands a
      sandbox to one task at a time and never hands out a dead one; a reference
      number newly allocated by a table is unused, unless [insert_at] put an
      entry there itself, and numbers of the shared registries and activity
      anchors are never issued twice, whatever statements conflict or fail;
      in-flight counters equal the outstanding effects, those of the tool
      sessions included; callbacks fire at most once per lease and cancelling is
      final; the package catalog keeps consecutive versions and acyclic lineage,
      whose edges end at later entries unless the publication was lost in a
      version race; the session handle and the registry agree on the sessions
      that are open; every sandbox a session checks out is given back once;
      external calls stay within their slots, none starts before its schema was
      checked, and a tool is quarantined exactly after a run of failures; one
      live session runs under a key, takes one turn at a time and loses none; a
      runner's maps agree, and every agent in them was booted from the artifact
      its hash names.
    - Safety of tool use: a Send whose result is still in the context's table is
      not executed again, a Send to a one-shot tool leaves no session behind, a
      blocked Send never reaches the tool, tearing down a scope closes its
      sessions, a tool outside the allowlist is never started, a single call
      runs once, the text that names a call does not depend on the secrets in it
      (alternatives of its schema included), forwarded requests reach only
      admitted addresses and a live host of the agent.  Requests by route key
      never reach an agent that drains; those of the internal router, of
      [invoke] and of the stdio loop can
      ([RunnerFacts.draining_agent_reached]).
    - Functional behaviour on every branch: the status gate, the semiotic gate
      and its monotonicity, event publication (one dispatch per due target, in
      discovery order) and its accounting, a prompt that only grows while the
      rows given to it only grow and whose numbers resolve to the rows they
      stand before, what an agent never sees of a session, what a compaction
      hides and when it runs, paging (listing every task or line exactly once),
      rate-limited requests, pattern matching, citation resolution and
      validation, what a publication makes visible, what a client of a live
      stream receives (the yields of the agent once and in order, numbered, each
      stored before it is sent, and which endings there are) or of a task's
      updates, that a recorded status waits for every subscriber and is passed
      on unless it was overtaken, and that the step loop goes on from every
      answer of a plan.
    - Refinement and equivalence: the sharded broadcaster over bounded channels
      implements mailboxes, lagging readers included; the registries of imported
      tools implement lists of versions with approvals; live and replayed reads
      agree; the adapter's loop is a server that answers each frame once and in
      order up to the first answer that does not fit into a frame, and an
      invocation through host, wire and adapter is one of the tool itself;
      server-sent events decode the same however they are cut into chunks;
      content hashes and signatures identify what they are of; lineage search is
      reachability; routing does not depend on the registry's order.
    - Round trips and bounds: a restarted runner's agents, refs, statuses, rendered content, stored archive entries, plans, tool
      names, previews cut at character boundaries; line-range arithmetic that
      neither under- nor overflows; wrapped lines.
    - Termination and progress: the step loop stops within its limit, deploys
      and undeploys served one after the other end and leave records that match
      the agents (if deletions of records succeed), a session of a task's
      updates comes to rest having returned every frame that was not overtaken,
      the inbox drains, an open turn can always end, a stored inbox item is
      marked delivered only after it was.
    - Error behaviour, as theorems with a concrete run: a cancelled task can be
      overwritten, concurrent status updates, history inserts and publications
      can race, a chunk is applied partially, a context reset crosses contexts,
      approvals cross contexts, a wake-up of the pool can be lost, a lost
      effect is counted for ever, a turn forgets the Sends made before it, a
      conflict leaves a history number unregistered, a late answer from a sandbox
      is taken for the next one, a tool error that reads like a transport error
      runs the tool twice, a read that waited runs under quarantine, a host retry meets the session the failure
      closed, an answer slower than the idle timeout ends the stream it resumes, a
      resumed turn has no relay, an update of a failure cannot be read back, a
      subscription that a task's end overtakes never ends, a frame committed
      during a replay can be overtaken and lost, an answer over the frame limit
      ends the adapter, a failed deletion leaves the record of an agent that is
      gone, what was yielded behind a question is lost, a
      prompt successor of a turn is refused, a late undeploy removes the successor of what it found, a runner
      that was swept stays hidden, a failed Send leaks its session, a search outside a session loses
      its flags, emergencies skip short conversations, and the two text
      scanners panic on multi-byte text.

    ** Bounds and fuel

    Machine integers are [Z] with explicit wrap-around ([wrap32], [wrap64]) or
    saturation; theorems that need it assume fewer than 2^32 (or 2^64)
    operations and say so.  Loops that are not structural carry a fuel equal to
    a length: the citation scanner and word splitting the text's, the pool's
    expiry sweep the number of entries (each round removes an entry or
    advances), the event decoder the bytes of the buffer, the sandbox adapter
    the bytes that have arrived plus one ([SandboxWire.adapter_loop_ends]), decimal printing the
    bit length, the lineage walk the number of edges plus one; [scan_loop_fuel],
    [dec_fuel_enough] and the theorems on these functions show that it is
    enough.  A deploy or undeploy takes at most 13 steps of its own
    ([RunnerFacts.finish_total]).  The step loop runs [max_steps] hops as the code does, a Send is
    retried [MAX_HOST_RETRIES] times.  Polling a tool has a fuel that stands
    for the time the tool keeps streaming: running out of it is the answer
    "still polling", not a result.

    ** Not modelled

    The SurrealDB queries (those of the reference registries apart) and the
    event normalizer behind [TaskGraph], episodes and graph export, booting
    and packaging of agents, the
    JavaScript and BAML engines, HTTP and MCP transports, the request router
    (but for the effects it announces), builders and derive macros, the CLI and metrics.  The runtime manager is the
    interface [HopEnv]; of the tool registry, metadata builders, schema exports
    and TypeScript declarations are left out.  Within
    modelled files: the adapter's swap of its standard output, the sandbox
    provider behind its interface, the time a session call waits for its
    channel, Unicode case folding beyond ASCII, the fan-out of effects
    to effect subscribers (their results are only logged), [f32]/[f64] rounding
    (scores are tenths, ratios a parameter), tracing.

    ** Plan

    Next: the text of episodes, the request router of
    [baml-rt-a2a], the runner's stdio requests, and the event normalizer against
    [TaskGraphLaws]. *)

From stdpp Require Import base gmap sets list strings option.
From Stdlib Require Import ZArith Lia.

(** ** Rust [Result], panics, and their monads *)

(** Rust's [Result<A, E>]. *)
Inductive result (A E : Type) : Type :=
| Ok (a : A)
| Err (e : E).
Arguments Ok {A E} _.
Arguments Err {A E} _.

(** A computation that may panic: an out-of-range slice, a failed [assert!],
    an [expect] on [None]. *)
Inductive outcome (A : Type) : Type :=
| Done (a : A)
| Panic.
Arguments Done {A} _.
Arguments Panic {A}.

#[global] Instance result_eq_dec {A E} `{EqDecision A, EqDecision E} :
  EqDecision (result A E).
Proof. solve_decision. Defined.

#[global] Instance outcome_eq_dec {A} `{EqDecision A} : EqDecision (outcome A).
Proof. solve_decision. Defined.

Definition result_bind {A B E} (c : result A E) (k : A -> result B E) : result B E :=
  match c with Ok a => k a | Err e => Err e end.

Definition outcome_bind {A B} (c : outcome A) (k : A -> outcome B) : outcome B :=
  match c with Done a => k a | Panic => Panic end.

Definition map_err {A E F} (f : E -> F) (c : result A E) : result A F :=
  match c with Ok a => Ok a | Err e => Err (f e) end.

Definition ok {A E} (c : result A E) : option A :=
  match c with Ok a => Some a | Err _ => None end.

Definition ok_or {A E} (o : option A) (e : E) : result A E :=
  match o with Some a => Ok a | None => Err e end.

Definition is_ok {A E} (c : result A E) : bool :=
  match c with Ok _ => true | Err _ => false end.

Declare Scope agentium_scope.
Delimit Scope agentium_scope with agentium.

Notation "'let?' x ':=' c 'in' k" :=
  (result_bind c (fun x => k))
  (at level 10, x pattern, c at level 100, k at level 200) : agentium_scope.

Notation "'let!' x ':=' c 'in' k" :=
  (outcome_bind c (fun x => k))
  (at level 10, x pattern, c at level 100, k at level 200) : agentium_scope.

Open Scope agentium_scope.

(** ** Machine integers *)

Definition u8_max : Z := 255.
Definition u32_max : Z := 4294967295.
Definition u64_max : Z := 18446744073709551615.
(** [usize] on the 64-bit targets the runner is deployed on. *)
Definition usize_max : Z := u64_max.

Definition wrap32 (z : Z) : Z := z mod 4294967296.
Definition wrap64 (z : Z) : Z := z mod 18446744073709551616.

Definition sat_add (max a b : Z) : Z := Z.min (a + b) max.
Definition sat_sub (a b : Z) : Z := Z.max 0 (a - b).
Definition sat_mul (max a b : Z) : Z := Z.min (a * b) max.

Definition is_u32 (z : Z) : Prop := (0 <= z <= u32_max)%Z.
Definition is_u64 (z : Z) : Prop := (0 <= z <= u64_max)%Z.

#[global] Instance is_u32_dec z : Decision (is_u32 z).
Proof. unfold is_u32. apply _. Defined.
#[global] Instance is_u64_dec z : Decision (is_u64 z).
Proof. unfold is_u64. apply _. Defined.

Lemma wrap32_small z : is_u32 z -> wrap32 z = z.
Proof. unfold is_u32, u32_max, wrap32. intros. apply Z.mod_small. lia. Qed.

Lemma wrap32_range z : is_u32 (wrap32 z).
Proof.
  unfold is_u32, u32_max, wrap32.
  pose proof (Z.mod_pos_bound z 4294967296). lia.
Qed.

Lemma wrap64_small z : is_u64 z -> wrap64 z = z.
Proof. unfold is_u64, u64_max, wrap64. intros. apply Z.mod_small. lia. Qed.

Lemma sat_add_spec max a b :
  (0 <= a -> 0 <= b -> 0 <= max -> 0 <= sat_add max a b <= max)%Z.
Proof. unfold sat_add. lia. Qed.

(** ** Automation *)

Create HintDb agentium.
#[export] Hint Resolve wrap32_range wrap32_small wrap64_small : agentium.

(** Split every [match] and [if] on the goal or in a hypothesis, keeping the
    equations, then simplify. *)
Ltac split_matches :=
  repeat (case_match; simplify_eq/=).

(** Destruct a boolean conjunction or disjunction in the hypotheses. *)
Ltac destr_bool :=
  repeat match goal with
  | H : _ && _ = true |- _ => apply andb_true_iff in H; destruct H
  | H : _ || _ = false |- _ => apply orb_false_iff in H; destruct H
  | H : negb _ = true |- _ => apply negb_true_iff in H
  | H : negb _ = false |- _ => apply negb_false_iff in H
  end.

(** ** Options and lists *)

Definition opt_filter {A} (p : A -> bool) (o : option A) : option A :=
  match o with Some a => if p a then Some a else None | None => None end.

Definition opt_or {A} (a b : option A) : option A :=
  match a with Some _ => a | None => b end.

Definition is_some {A} (o : option A) : bool :=
  match o with Some _ => true | None => false end.

Lemma is_some_spec {A} (o : option A) : is_some o = true <-> is_Some o.
Proof. destruct o; simpl; split; intros; try done; by destruct H. Qed.

Lemma existsb_exists_elem {A} (p : A -> bool) l :
  existsb p l = true <-> exists x, x ∈ l /\ p x = true.
Proof.
  rewrite existsb_exists. split; intros (x & Hin & Hp); exists x; split; auto.
  - by apply list_elem_of_In.
  - by apply list_elem_of_In.
Qed.

Lemma forallb_forall_elem {A} (p : A -> bool) l :
  forallb p l = true <-> forall x, x ∈ l -> p x = true.
Proof.
  rewrite forallb_forall. split; intros H x Hin; apply H; by apply list_elem_of_In.
Qed.

(** Position-preserving [enumerate]: [enumerate_from i l] pairs each element
    with its index, the first with [i]. *)
Fixpoint enumerate_from {A} (i : nat) (l : list A) : list (nat * A) :=
  match l with
  | [] => []
  | x :: r => (i, x) :: enumerate_from (S i) r
  end.

Lemma enumerate_from_lookup {A} (l : list A) i k :
  enumerate_from i l !! k = (fun x => (i + k, x)%nat) <$> (l !! k).
Proof.
  revert i k. induction l as [|x r IH]; intros i k; simpl; [done|].
  destruct k; simpl; [by rewrite Nat.add_0_r|].
  rewrite IH. by replace (S i + k)%nat with (i + S k)%nat by lia.
Qed.

Lemma enumerate_from_length {A} (l : list A) i : length (enumerate_from i l) = length l.
Proof. revert i. induction l; intros; simpl; auto. Qed.

Lemma elem_of_enumerate_from {A} (l : list A) i j x :
  (j, x) ∈ enumerate_from i l <-> (i <= j)%nat /\ l !! (j - i)%nat = Some x.
Proof.
  rewrite list_elem_of_lookup. split.
  - intros [k Hk]. rewrite enumerate_from_lookup in Hk.
    destruct (l !! k) eqn:E; simplify_eq/=. split; [lia|].
    by replace (i + k - i)%nat with k by lia.
  - intros [Hle Hl]. exists (j - i)%nat. rewrite enumerate_from_lookup, Hl. simpl.
    do 2 f_equal. lia.
Qed.

(** [&v[i..j]] on a slice or [Vec]. *)
Definition vec_slice {A} (l : list A) (i j : nat) : outcome (list A) :=
  if (i <=? j)%nat && (j <=? length l)%nat then Done (take (j - i) (drop i l)) else Panic.

Lemma vec_slice_ok {A} (l : list A) i j :
  (i <= j)%nat -> (j <= length l)%nat -> vec_slice l i j = Done (take (j - i) (drop i l)).
Proof.
  intros H1 H2. unfold vec_slice.
  by rewrite (proj2 (Nat.leb_le _ _) H1), (proj2 (Nat.leb_le _ _) H2).
Qed.

(** Sequencing of a computation that may panic over a list. *)
Fixpoint outcome_map {A B} (f : A -> outcome B) (l : list A) : outcome (list B) :=
  match l with
  | [] => Done []
  | x :: r => let! y := f x in let! ys := outcome_map f r in Done (y :: ys)
  end.

Lemma outcome_map_Done {A B} (f : A -> outcome B) (g : A -> B) l :
  (forall x, x ∈ l -> f x = Done (g x)) -> outcome_map f l = Done (g <$> l).
Proof.
  induction l as [|x r IH]; intros H; simpl; [done|].
  rewrite H by set_solver. simpl. rewrite IH by (intros; apply H; set_solver). done.
Qed.
