(* ===== verification/RustStr.v ===== *)
(** * The part of Rust's [str] and integer formatting the runtime uses

    A Rust [String] is its UTF-8 byte sequence, a [string] of bytes here.
    Every operation below works on bytes the way the standard library does on
    valid UTF-8: equality, prefixes, substrings and splits at an ASCII
    character agree byte for byte with the character view, [trim] knows the
    multi-byte encodings of the Unicode [White_Space] characters, and slicing
    checks character boundaries.  [to_lowercase] folds ASCII letters and
    leaves the bytes of other characters alone. *)

From stdpp Require Import base list strings option sorting.
From Stdlib Require Import ZArith Lia Ascii.
From S2P Require Import Prelude.

(** ** Bytes and characters *)

Definition byte_of (a : ascii) : N := N_of_ascii a.

Definition is_ascii_digit (a : ascii) : bool :=
  (48 <=? byte_of a)%N && (byte_of a <=? 57)%N.

Definition is_ascii_upper (a : ascii) : bool :=
  (65 <=? byte_of a)%N && (byte_of a <=? 90)%N.

Definition is_ascii_lower (a : ascii) : bool :=
  (97 <=? byte_of a)%N && (byte_of a <=? 122)%N.

Definition is_ascii_alphanumeric (a : ascii) : bool :=
  is_ascii_digit a || is_ascii_upper a || is_ascii_lower a.

Definition is_ascii (a : ascii) : bool := (byte_of a <? 128)%N.

(** A UTF-8 continuation byte, [0b10xxxxxx]. *)
Definition is_continuation (a : ascii) : bool :=
  (128 <=? byte_of a)%N && (byte_of a <? 192)%N.

Definition ascii_lower (a : ascii) : ascii :=
  if is_ascii_upper a then ascii_of_N (byte_of a + 32) else a.

Fixpoint all_bytes (p : ascii -> bool) (s : string) : bool :=
  match s with
  | EmptyString => true
  | String a r => p a && all_bytes p r
  end.

Fixpoint any_byte (p : ascii -> bool) (s : string) : bool :=
  match s with
  | EmptyString => false
  | String a r => p a || any_byte p r
  end.

Definition ascii_only (s : string) : bool := all_bytes is_ascii s.

(** [str::contains] of a one-byte character. *)
Definition contains_char (c : ascii) (s : string) : bool :=
  any_byte (fun a => bool_decide (a = c)) s.

(** ** Prefixes, substrings, splits *)

Definition is_empty_str (s : string) : bool :=
  match s with EmptyString => true | _ => false end.

Fixpoint strip_prefix (p s : string) : option string :=
  match p, s with
  | EmptyString, _ => Some s
  | String a p', String b s' => if bool_decide (a = b) then strip_prefix p' s' else None
  | _, EmptyString => None
  end.

Definition strip_prefix_char (c : ascii) (s : string) : option string :=
  match s with
  | String a r => if bool_decide (a = c) then Some r else None
  | EmptyString => None
  end.

Definition starts_with (p s : string) : bool := is_some (strip_prefix p s).

(** [s.contains(p)] for a string pattern. *)
Fixpoint contains_str (p s : string) : bool :=
  starts_with p s ||
  match s with
  | EmptyString => false
  | String _ r => contains_str p r
  end.

(** [s.split_once(c)]: the parts before and after the first [c]. *)
Fixpoint split_once (c : ascii) (s : string) : option (string * string) :=
  match s with
  | EmptyString => None
  | String a r =>
      if bool_decide (a = c) then Some (EmptyString, r)
      else match split_once c r with
           | Some (x, y) => Some (String a x, y)
           | None => None
           end
  end.

(** [s.find(c)] *)
Fixpoint find_char (c : ascii) (s : string) : option nat :=
  match s with
  | EmptyString => None
  | String a r => if bool_decide (a = c) then Some 0%nat else S <$> find_char c r
  end.

(** [s.rfind(c)] *)
Fixpoint rfind_char (c : ascii) (s : string) : option nat :=
  match s with
  | EmptyString => None
  | String a r =>
      match rfind_char c r with
      | Some i => Some (S i)
      | None => if bool_decide (a = c) then Some 0%nat else None
      end
  end.

(** [s.split(c)]: always at least one piece. *)
Fixpoint split_char (c : ascii) (s : string) : list string :=
  match s with
  | EmptyString => [EmptyString]
  | String a r =>
      if bool_decide (a = c) then EmptyString :: split_char c r
      else match split_char c r with
           | x :: xs => String a x :: xs
           | [] => [String a EmptyString]
           end
  end.

(** [s.split(pred)] for a predicate on ASCII characters, a multi-byte
    character being a separator byte by byte. *)
Fixpoint split_when (p : ascii -> bool) (s : string) : list string :=
  match s with
  | EmptyString => [EmptyString]
  | String a r =>
      if p a then EmptyString :: split_when p r
      else match split_when p r with
           | x :: xs => String a x :: xs
           | [] => [String a EmptyString]
           end
  end.

(** Bytes [i..] of [s]. *)
Fixpoint str_drop (n : nat) (s : string) : string :=
  match n, s with
  | O, _ => s
  | S n', String _ r => str_drop n' r
  | S _, EmptyString => EmptyString
  end.

(** Bytes [..n] of [s]. *)
Fixpoint str_take (n : nat) (s : string) : string :=
  match n, s with
  | O, _ => EmptyString
  | S n', String a r => String a (str_take n' r)
  | S _, EmptyString => EmptyString
  end.

Fixpoint byte_at (n : nat) (s : string) : option ascii :=
  match n, s with
  | _, EmptyString => None
  | O, String a _ => Some a
  | S n', String _ r => byte_at n' r
  end.

(** [s.is_char_boundary(i)] *)
Definition is_char_boundary (s : string) (i : nat) : bool :=
  match i with
  | O => true
  | _ => if bool_decide (i = String.length s) then true
         else match byte_at i s with
              | Some a => negb (is_continuation a)
              | None => false
              end
  end.

(** [&s[i..j]]: panics unless [i <= j] and both are character boundaries. *)
Definition slice (s : string) (i j : nat) : outcome string :=
  if (i <=? j)%nat && is_char_boundary s i && is_char_boundary s j
  then Done (str_take (j - i) (str_drop i s))
  else Panic.

(** ** Case, trimming, words *)

Fixpoint map_bytes (f : ascii -> ascii) (s : string) : string :=
  match s with
  | EmptyString => EmptyString
  | String a r => String (f a) (map_bytes f r)
  end.

(** [str::to_lowercase] for the ASCII letters; the case mappings of the other
    scripts are not modelled, their bytes stay as they are. *)
Definition to_lowercase (s : string) : string := map_bytes ascii_lower s.

Definition eq_ignore_ascii_case (s t : string) : bool :=
  bool_decide (to_lowercase s = to_lowercase t).

(** The Unicode [White_Space] characters by the length of their encoding. *)
Definition ws1 (a : ascii) : bool :=
  ((9 <=? byte_of a)%N && (byte_of a <=? 13)%N) || (byte_of a =? 32)%N.

Definition ws2 (a b : ascii) : bool :=
  (byte_of a =? 194)%N && ((byte_of b =? 133)%N || (byte_of b =? 160)%N).

Definition ws3 (a b c : ascii) : bool :=
  ((byte_of a =? 225)%N && (byte_of b =? 154)%N && (byte_of c =? 128)%N) ||
  ((byte_of a =? 226)%N && (byte_of b =? 128)%N &&
     (((128 <=? byte_of c)%N && (byte_of c <=? 138)%N) ||
      (byte_of c =? 168)%N || (byte_of c =? 169)%N || (byte_of c =? 175)%N)) ||
  ((byte_of a =? 226)%N && (byte_of b =? 129)%N && (byte_of c =? 159)%N) ||
  ((byte_of a =? 227)%N && (byte_of b =? 128)%N && (byte_of c =? 128)%N).

(** The rest of [s] after one leading whitespace character. *)
Definition ws_head (s : string) : option string :=
  match s with
  | EmptyString => None
  | String a s1 =>
      if ws1 a then Some s1 else
      match s1 with
      | EmptyString => None
      | String b s2 =>
          if ws2 a b then Some s2 else
          match s2 with
          | EmptyString => None
          | String c s3 => if ws3 a b c then Some s3 else None
          end
      end
  end.

Fixpoint trim_start (s : string) : string :=
  match s with
  | EmptyString => EmptyString
  | String a s1 =>
      if ws1 a then trim_start s1 else
      match s1 with
      | EmptyString => s
      | String b s2 =>
          if ws2 a b then trim_start s2 else
          match s2 with
          | EmptyString => s
          | String c s3 => if ws3 a b c then trim_start s3 else s
          end
      end
  end.

(** [trim_start] on the reversed string: the bytes of a multi-byte character
    arrive last to first. *)
Fixpoint trim_start_rev (s : string) : string :=
  match s with
  | EmptyString => EmptyString
  | String a s1 =>
      if ws1 a then trim_start_rev s1 else
      match s1 with
      | EmptyString => s
      | String b s2 =>
          if ws2 b a then trim_start_rev s2 else
          match s2 with
          | EmptyString => s
          | String c s3 => if ws3 c b a then trim_start_rev s3 else s
          end
      end
  end.

Definition trim_end (s : string) : string := String.rev (trim_start_rev (String.rev s)).

Definition trim (s : string) : string := trim_end (trim_start s).

(** [s.split_whitespace()]: fuel is the byte length, one step per character. *)
Fixpoint words_go (fuel : nat) (cur s : string) : list string :=
  let flush := match cur with EmptyString => [] | _ => [String.rev cur] end in
  match fuel with
  | O => flush
  | S f =>
      match s with
      | EmptyString => flush
      | String a r =>
          match ws_head s with
          | Some rest => flush ++ words_go f EmptyString rest
          | None => words_go f (String a cur) r
          end
      end
  end.

Definition split_whitespace (s : string) : list string :=
  words_go (S (String.length s)) EmptyString s.

(** [s.trim_end_matches('\n')] *)
Fixpoint drop_while (p : ascii -> bool) (s : string) : string :=
  match s with
  | EmptyString => EmptyString
  | String a r => if p a then drop_while p r else s
  end.

Definition nl : ascii := "010"%char.
Definition cr : ascii := "013"%char.
Definition tab : ascii := "009"%char.
Definition nl_str : string := String nl EmptyString.

Definition trim_end_matches (c : ascii) (s : string) : string :=
  String.rev (drop_while (fun a => bool_decide (a = c)) (String.rev s)).

(** Drop one trailing ["\r"], as [str::lines] does per line. *)
Fixpoint strip_trailing_cr (s : string) : string :=
  match s with
  | EmptyString => EmptyString
  | String a EmptyString => if bool_decide (a = cr) then EmptyString else s
  | String a r => String a (strip_trailing_cr r)
  end.

(** [s.lines()]: split at line feeds, no piece after a final line feed, and a
    carriage return before a line feed is removed (only there). *)
Fixpoint lines_go (pieces : list string) : list string :=
  match pieces with
  | [] => []
  | [last] => match last with EmptyString => [] | _ => [last] end
  | x :: r => strip_trailing_cr x :: lines_go r
  end.

Definition str_lines (s : string) : list string := lines_go (split_char nl s).

(** [s.replace(c, by)] *)
Fixpoint replace_char (c : ascii) (by_ : string) (s : string) : string :=
  match s with
  | EmptyString => EmptyString
  | String a r =>
      if bool_decide (a = c) then by_ +:+ replace_char c by_ r
      else String a (replace_char c by_ r)
  end.

Fixpoint str_repeat (s : string) (n : nat) : string :=
  match n with O => EmptyString | S n' => s +:+ str_repeat s n' end.

(** [parts.join(sep)] *)
Fixpoint join (sep : string) (l : list string) : string :=
  match l with
  | [] => EmptyString
  | [x] => x
  | x :: r => x +:+ sep +:+ join sep r
  end.

(** Number of characters of a valid UTF-8 string. *)
Fixpoint chars_count (s : string) : nat :=
  match s with
  | EmptyString => 0
  | String a r => (if is_continuation a then 0 else 1) + chars_count r
  end.

(** ** Integers as text *)

Definition digit_char (d : N) : ascii := ascii_of_N (48 + d).

Fixpoint dec_go (fuel : nat) (n : N) (acc : string) : string :=
  match fuel with
  | O => acc
  | S f =>
      let acc' := String (digit_char (n mod 10)) acc in
      if (n / 10 =? 0)%N then acc' else dec_go f (n / 10) acc'
  end.

(** [n.to_string()] of an unsigned integer. *)
Definition dec (n : N) : string := dec_go (S (N.to_nat (N.log2 n))) n EmptyString.
Definition show_Z (z : Z) : string :=
  match z with
  | Zneg p => String "-" (dec (Npos p))
  | _ => dec (Z.to_N z)
  end.
Definition show_nat (n : nat) : string := dec (N.of_nat n).

(** The digit loop of [from_str_radix]: each step is a checked multiply and
    a checked add against [max]. *)
Fixpoint parse_digits (max : Z) (acc : Z) (s : string) : option Z :=
  match s with
  | EmptyString => Some acc
  | String a r =>
      if is_ascii_digit a then
        let acc' := (acc * 10 + Z.of_N (byte_of a - 48))%Z in
        if (acc' <=? max)%Z then parse_digits max acc' r else None
      else None
  end.

(** [s.parse::<uN>()]: an optional ["+"], then at least one digit. *)
Definition parse_uint (max : Z) (s : string) : option Z :=
  let body := match s with String a r => if bool_decide (a = "+"%char) then r else s
              | EmptyString => s end in
  match body with
  | EmptyString => None
  | _ => parse_digits max 0 body
  end.

Definition parse_u32 : string -> option Z := parse_uint u32_max.
Definition parse_u64 : string -> option Z := parse_uint u64_max.
Definition parse_usize : string -> option Z := parse_uint usize_max.

(** [{:>width$}] for a number. *)
Definition pad_left (width : nat) (s : string) : string :=
  str_repeat " " (width - String.length s) +:+ s.

(** ** Lemmas: concatenation and reversal *)

Lemma str_app_nil_l s : EmptyString +:+ s = s.
Proof. done. Qed.

Lemma str_app_cons a s t : String a s +:+ t = String a (s +:+ t).
Proof. done. Qed.

Lemma str_app_nil_r s : s +:+ EmptyString = s.
Proof. induction s; [done|]. by rewrite str_app_cons, IHs. Qed.

Lemma str_app_assoc s t u : (s +:+ t) +:+ u = s +:+ (t +:+ u).
Proof. induction s; [done|]. by rewrite !str_app_cons, IHs. Qed.

Lemma str_app_length s t : String.length (s +:+ t) = (String.length s + String.length t)%nat.
Proof. induction s; [done|]. rewrite str_app_cons. simpl. by rewrite IHs. Qed.

Lemma str_rev_app_spec s t : String.rev_app s t = String.rev s +:+ t.
Proof.
  revert t. induction s; intros t; [done|].
  unfold String.rev. simpl. rewrite IHs. rewrite (IHs (String a "")).
  by rewrite str_app_assoc.
Qed.

Lemma str_rev_cons a s : String.rev (String a s) = String.rev s +:+ String a EmptyString.
Proof. unfold String.rev at 1. simpl. apply str_rev_app_spec. Qed.

Lemma str_rev_app s t : String.rev (s +:+ t) = String.rev t +:+ String.rev s.
Proof.
  induction s; [by rewrite str_app_nil_l, str_app_nil_r|].
  rewrite str_app_cons, !str_rev_cons, IHs. by rewrite str_app_assoc.
Qed.

Lemma str_rev_involutive s : String.rev (String.rev s) = s.
Proof.
  induction s; [done|]. rewrite str_rev_cons, str_rev_app, IHs. done.
Qed.

Lemma all_bytes_app p s t : all_bytes p (s +:+ t) = all_bytes p s && all_bytes p t.
Proof.
  induction s; [done|]. rewrite str_app_cons. simpl. rewrite IHs. by rewrite andb_assoc.
Qed.

Lemma all_bytes_rev p s : all_bytes p (String.rev s) = all_bytes p s.
Proof.
  induction s; [done|]. rewrite str_rev_cons, all_bytes_app, IHs. simpl.
  rewrite andb_true_r. apply andb_comm.
Qed.

Lemma all_bytes_impl p q s :
  (forall a, p a = true -> q a = true) -> all_bytes p s = true -> all_bytes q s = true.
Proof.
  intros Hpq. induction s; simpl; [done|]. intros H. destr_bool.
  by rewrite Hpq, IHs.
Qed.

Lemma any_byte_app p s t : any_byte p (s +:+ t) = any_byte p s || any_byte p t.
Proof.
  induction s; [done|]. rewrite str_app_cons. simpl. rewrite IHs. by rewrite orb_assoc.
Qed.

Lemma any_byte_all p s : any_byte p s = false <-> all_bytes (fun a => negb (p a)) s = true.
Proof.
  induction s; simpl; [done|]. rewrite orb_false_iff, andb_true_iff, negb_true_iff, IHs. done.
Qed.

(** ** Lemmas: prefixes and splits *)

Lemma strip_prefix_app p s : strip_prefix p (p +:+ s) = Some s.
Proof.
  induction p; [done|]. rewrite str_app_cons. simpl.
  rewrite bool_decide_true by done. apply IHp.
Qed.

Lemma strip_prefix_Some p s r : strip_prefix p s = Some r <-> s = p +:+ r.
Proof.
  revert s. induction p; intros s; simpl.
  - split; [intros [= ->]|intros ->]; done.
  - destruct s; [split; [done|intros [=]]|].
    case_bool_decide; subst; rewrite ?IHp; split.
    + intros ->. done.
    + rewrite str_app_cons. by intros [= ->].
    + done.
    + rewrite str_app_cons. intros [= -> ->]. done.
Qed.

Lemma starts_with_spec p s : starts_with p s = true <-> exists r, s = p +:+ r.
Proof.
  unfold starts_with. rewrite is_some_spec. split.
  - intros [r H]. exists r. by apply strip_prefix_Some.
  - intros [r ->]. rewrite strip_prefix_app. eauto.
Qed.

Lemma contains_str_spec p s :
  contains_str p s = true <-> exists x y, s = x +:+ (p +:+ y).
Proof.
  induction s; simpl.
  - rewrite orb_false_r, starts_with_spec. split.
    + intros [r Hr]. exists EmptyString, r. by rewrite str_app_nil_l.
    + intros (x & y & Hxy). destruct x; [|rewrite str_app_cons in Hxy; done].
      rewrite str_app_nil_l in Hxy. eauto.
  - rewrite orb_true_iff, starts_with_spec, IHs. split.
    + intros [[r Hr]|(x & y & ->)].
      * exists EmptyString, r. by rewrite str_app_nil_l.
      * exists (String a x), y. by rewrite str_app_cons.
    + intros (x & y & Hxy). destruct x.
      * left. exists y. by rewrite str_app_nil_l in Hxy.
      * right. rewrite str_app_cons in Hxy. injection Hxy as -> ->. eauto.
Qed.

Lemma split_once_app c x y :
  contains_char c x = false -> split_once c (x +:+ String c y) = Some (x, y).
Proof.
  unfold contains_char. induction x; simpl; intros H.
  - by rewrite bool_decide_true.
  - apply orb_false_iff in H as [-> H]. by rewrite IHx.
Qed.

Lemma split_once_None c s : split_once c s = None <-> contains_char c s = false.
Proof.
  unfold contains_char. induction s; simpl; [done|].
  case_bool_decide; simpl; [done|]. rewrite <-IHs.
  destruct (split_once c s) as [[]|]; done.
Qed.

Lemma split_once_Some c s x y :
  split_once c s = Some (x, y) -> s = x +:+ String c y /\ contains_char c x = false.
Proof.
  unfold contains_char. revert x y. induction s; simpl; intros x y; [done|].
  case_bool_decide; [intros [= <- <-]; subst; done|].
  destruct (split_once c s) as [[x' y']|] eqn:E; [|done]. intros [= <- <-].
  destruct (IHs x' y' eq_refl) as [-> Hx]. split; [done|]. simpl.
  by rewrite bool_decide_false.
Qed.

(** ** Lemmas: trimming *)

(** An ASCII byte that is not whitespace. *)
Definition graphic (a : ascii) : bool := is_ascii a && negb (ws1 a).

Lemma ws2_ascii a b : is_ascii a = true -> ws2 a b = false.
Proof.
  unfold is_ascii, ws2. intros H%N.ltb_lt.
  destruct (N.eqb_spec (byte_of a) 194); [lia|done].
Qed.

Lemma ws3_ascii a b c : is_ascii a = true -> ws3 a b c = false.
Proof.
  unfold is_ascii, ws3. intros H%N.ltb_lt.
  destruct (N.eqb_spec (byte_of a) 225); [lia|].
  destruct (N.eqb_spec (byte_of a) 226); [lia|].
  destruct (N.eqb_spec (byte_of a) 227); [lia|]. done.
Qed.

Lemma trim_start_graphic s : all_bytes graphic s = true -> trim_start s = s.
Proof.
  destruct s as [|a s1]; simpl; [done|]. intros H. destr_bool.
  unfold graphic in *. destr_bool.
  match goal with H : ws1 a = false |- _ => rewrite H end.
  destruct s1 as [|b s2]; [done|]. rewrite ws2_ascii by done.
  destruct s2; [done|]. by rewrite ws3_ascii.
Qed.

Lemma trim_start_rev_graphic s : all_bytes graphic s = true -> trim_start_rev s = s.
Proof.
  destruct s as [|a s1]; simpl; [done|]. intros H. destr_bool.
  unfold graphic in *. destr_bool.
  match goal with H : ws1 a = false |- _ => rewrite H end.
  destruct s1 as [|b s2]; [done|]. simpl in *. destr_bool.
  rewrite ws2_ascii by done.
  destruct s2; [done|]. simpl in *. destr_bool. by rewrite ws3_ascii.
Qed.

Lemma trim_graphic s : all_bytes graphic s = true -> trim s = s.
Proof.
  intros H. unfold trim, trim_end. rewrite trim_start_graphic by done.
  rewrite trim_start_rev_graphic by by rewrite all_bytes_rev.
  apply str_rev_involutive.
Qed.

(** ** Lemmas: decimal text *)

Lemma byte_of_digit d : (d < 10)%N -> byte_of (digit_char d) = (48 + d)%N.
Proof. intros. unfold byte_of, digit_char. apply N_ascii_embedding. lia. Qed.

Lemma digit_char_is_digit d : (d < 10)%N -> is_ascii_digit (digit_char d) = true.
Proof.
  intros. unfold is_ascii_digit. rewrite byte_of_digit by done.
  apply andb_true_iff; split; apply N.leb_le; lia.
Qed.

Lemma is_ascii_digit_graphic a : is_ascii_digit a = true -> graphic a = true.
Proof.
  unfold is_ascii_digit, graphic, is_ascii, ws1. rewrite andb_true_iff, !N.leb_le.
  intros [H1 H2]. apply andb_true_iff; split; [apply N.ltb_lt; lia|].
  apply negb_true_iff, orb_false_iff; split.
  - apply andb_false_iff. right. apply N.leb_gt. lia.
  - apply N.eqb_neq. lia.
Qed.

Lemma is_ascii_digit_neq a c :
  is_ascii_digit a = true -> is_ascii_digit c = false -> a <> c.
Proof. intros H1 H2 ->. congruence. Qed.

Lemma dec_go_digits fuel n acc :
  all_bytes is_ascii_digit acc = true -> all_bytes is_ascii_digit (dec_go fuel n acc) = true.
Proof.
  revert n acc. induction fuel; intros n acc Hacc; simpl; [done|].
  assert (n mod 10 < 10)%N by (apply N.mod_lt; lia).
  case_match; [|apply IHfuel]; simpl; by rewrite digit_char_is_digit.
Qed.

Lemma dec_digits n : all_bytes is_ascii_digit (dec n) = true.
Proof. by apply dec_go_digits. Qed.

Lemma dec_go_nonempty fuel n acc : dec_go (S fuel) n acc <> EmptyString.
Proof.
  revert n acc. induction fuel; intros n acc; simpl; [by case_match|].
  case_match; [done|]. apply IHfuel.
Qed.

Lemma dec_nonempty n : dec n <> EmptyString.
Proof. apply dec_go_nonempty. Qed.

Lemma dec_graphic n : all_bytes graphic (dec n) = true.
Proof. eapply all_bytes_impl; [apply is_ascii_digit_graphic|apply dec_digits]. Qed.

Lemma dec_no_char c n : is_ascii_digit c = false -> contains_char c (dec n) = false.
Proof.
  intros Hc. unfold contains_char. apply any_byte_all.
  eapply all_bytes_impl; [|apply dec_digits]. intros a Ha. simpl.
  apply negb_true_iff, bool_decide_eq_false. by apply is_ascii_digit_neq.
Qed.

(** Reading back the digits of [n] from zero, then [acc], gives [n] and then
    the value of [acc]. *)
Lemma parse_dec_go max fuel n acc :
  (n < 2 ^ N.of_nat fuel)%N -> (Z.of_N n <= max)%Z ->
  parse_digits max 0 (dec_go fuel n acc) =
  match fuel with O => parse_digits max 0 acc | _ => parse_digits max (Z.of_N n) acc end.
Proof.
  revert n acc. induction fuel as [|fuel IH]; intros n acc Hn Hmax; [done|].
  pose proof (N.div_mod n 10 ltac:(lia)) as Hdm.
  assert (n mod 10 < 10)%N as Hm by (apply N.mod_lt; lia).
  assert (Hstep : forall k, (0 <= k)%Z -> (k * 10 + Z.of_N (n mod 10) <= max)%Z ->
    parse_digits max k (String (digit_char (n mod 10)) acc) =
    parse_digits max (k * 10 + Z.of_N (n mod 10)) acc).
  { intros k Hk Hle. simpl. rewrite digit_char_is_digit, byte_of_digit by done.
    rewrite (N.add_comm 48), N.add_sub. by rewrite (proj2 (Z.leb_le _ _)). }
  simpl dec_go. destruct (N.eqb_spec (n / 10) 0) as [H0|H0].
  - rewrite Hstep by lia. f_equal. lia.
  - destruct fuel as [|fuel].
    { exfalso. apply H0. apply N.div_small. change (2 ^ N.of_nat 1)%N with 2%N in Hn. lia. }
    assert (Z.of_N (n / 10) * 10 + Z.of_N (n mod 10) = Z.of_N n)%Z as Hz
      by (rewrite Hdm at 3; rewrite N2Z.inj_add, N2Z.inj_mul; lia).
    assert (n / 10 <= n)%N as Hle by (apply N.Div0.div_le_upper_bound; lia).
    apply N2Z.inj_le in Hle.
    rewrite IH; [rewrite Hstep by lia; by rewrite Hz| |lia].
    apply N.Div0.div_lt_upper_bound.
    rewrite Nat2N.inj_succ, N.pow_succ_r' in Hn. lia.
Qed.

Lemma dec_fuel_enough n : (n < 2 ^ N.of_nat (S (N.to_nat (N.log2 n))))%N.
Proof.
  rewrite Nat2N.inj_succ, N2Nat.id. destruct (N.eq_dec n 0) as [->|]; [done|].
  apply N.log2_spec. lia.
Qed.

(** Display then [parse] is the identity on every value that fits. *)
Lemma parse_uint_dec max n : (Z.of_N n <= max)%Z -> parse_uint max (dec n) = Some (Z.of_N n).
Proof.
  intros Hmax. unfold parse_uint.
  assert (Hbody : match dec n with String a r => if bool_decide (a = "+"%char) then r else dec n
                  | EmptyString => dec n end = dec n).
  { pose proof (dec_digits n) as Hd. destruct (dec n) as [|a r]; [done|].
    simpl in Hd. destr_bool. rewrite bool_decide_false; [done|].
    by apply is_ascii_digit_neq. }
  rewrite Hbody. pose proof (dec_nonempty n).
  destruct (dec n) as [|a r] eqn:E; [done|]. rewrite <-E. unfold dec.
  rewrite parse_dec_go; [done|apply dec_fuel_enough|done].
Qed.

Lemma parse_show_Z max z : (0 <= z <= max)%Z -> parse_uint max (show_Z z) = Some z.
Proof.
  intros H. destruct z; simpl; [..|lia].
  - by rewrite (parse_uint_dec max 0) by (simpl; lia).
  - rewrite parse_uint_dec by (simpl; lia). f_equal.
Qed.

Lemma parse_digits_range max acc s z :
  (0 <= acc <= max)%Z -> parse_digits max acc s = Some z -> (0 <= z <= max)%Z.
Proof.
  revert acc. induction s; simpl; intros acc Hacc; [by intros [= <-]|].
  case_match; [|done]. case_match eqn:E; [|done]. apply Z.leb_le in E.
  apply IHs. lia.
Qed.

Lemma parse_uint_range max s z : (0 <= max)%Z -> parse_uint max s = Some z -> (0 <= z <= max)%Z.
Proof.
  unfold parse_uint. intros Hmax. case_match; [done|].
  intros H'. eapply parse_digits_range; [|done]. lia.
Qed.

Lemma show_Z_nonneg z : (0 <= z)%Z -> show_Z z = dec (Z.to_N z).
Proof. destruct z; [done|done|lia]. Qed.

Lemma show_Z_graphic z : (0 <= z)%Z -> all_bytes graphic (show_Z z) = true.
Proof. intros. rewrite show_Z_nonneg by done. apply dec_graphic. Qed.

Lemma show_Z_no_char c z :
  (0 <= z)%Z -> is_ascii_digit c = false -> contains_char c (show_Z z) = false.
Proof. intros. rewrite show_Z_nonneg by done. by apply dec_no_char. Qed.

Lemma show_Z_nonempty z : (0 <= z)%Z -> is_empty_str (show_Z z) = false.
Proof.
  intros. rewrite show_Z_nonneg by done. pose proof (dec_nonempty (Z.to_N z)).
  by destruct (dec (Z.to_N z)).
Qed.

Lemma show_Z_inj x y : (0 <= x)%Z -> (0 <= y)%Z -> show_Z x = show_Z y -> x = y.
Proof.
  intros Hx Hy Heq.
  pose proof (parse_show_Z (Z.max x y) x ltac:(lia)) as H1.
  pose proof (parse_show_Z (Z.max x y) y ltac:(lia)) as H2.
  rewrite Heq in H1. congruence.
Qed.

Lemma show_nat_inj n m : show_nat n = show_nat m -> n = m.
Proof.
  intros He. assert (Hz : Z.of_nat n = Z.of_nat m); [|lia]. apply show_Z_inj; [lia..|].
  rewrite !show_Z_nonneg by lia. unfold show_nat in He. by rewrite <-!nat_N_Z, !N2Z.id.
Qed.

#[export] Hint Resolve show_Z_graphic show_Z_no_char show_Z_nonempty : agentium.

(** ** Valid UTF-8 *)

Definition byte_in (lo hi : N) (a : ascii) : bool :=
  (lo <=? byte_of a)%N && (byte_of a <=? hi)%N.

(** The byte sequences [core::str::from_utf8] accepts. *)
Fixpoint valid_utf8 (s : string) : bool :=
  match s with
  | EmptyString => true
  | String a s1 =>
      if is_ascii a then valid_utf8 s1 else
      match s1 with
      | EmptyString => false
      | String b s2 =>
          if byte_in 194 223 a then is_continuation b && valid_utf8 s2 else
          match s2 with
          | EmptyString => false
          | String c s3 =>
              if byte_in 224 239 a then
                (if (byte_of a =? 224)%N then byte_in 160 191 b
                 else if (byte_of a =? 237)%N then byte_in 128 159 b
                 else is_continuation b) && is_continuation c && valid_utf8 s3
              else match s3 with
              | EmptyString => false
              | String d s4 =>
                  if byte_in 240 244 a then
                    (if (byte_of a =? 240)%N then byte_in 144 191 b
                     else if (byte_of a =? 244)%N then byte_in 128 143 b
                     else is_continuation b) &&
                    is_continuation c && is_continuation d && valid_utf8 s4
                  else false
              end
          end
      end
  end.

(** The string does not begin inside a character. *)
Definition starts_clean (s : string) : bool :=
  match s with
  | EmptyString => true
  | String a _ => negb (is_continuation a)
  end.

Lemma is_ascii_not_continuation a : is_ascii a = true -> is_continuation a = false.
Proof.
  unfold is_ascii, is_continuation. intros H%N.ltb_lt.
  apply andb_false_iff. left. apply N.leb_gt. lia.
Qed.

Lemma byte_in_spec lo hi a : byte_in lo hi a = true <-> (lo <= byte_of a <= hi)%N.
Proof. unfold byte_in. rewrite andb_true_iff, !N.leb_le. done. Qed.

Lemma continuation_not_ascii a : is_continuation a = true -> is_ascii a = false.
Proof.
  intros H. destruct (is_ascii a) eqn:E; [|done].
  apply is_ascii_not_continuation in E. congruence.
Qed.

Lemma valid_utf8_starts_clean s : valid_utf8 s = true -> starts_clean s = true.
Proof.
  destruct s as [|a s]; [done|]. simpl. intros H. apply negb_true_iff.
  destruct (is_ascii a) eqn:Ea; [by apply is_ascii_not_continuation|].
  apply andb_false_iff. right. apply N.ltb_ge.
  repeat (case_match; try done);
    match goal with H : byte_in _ _ a = true |- _ => apply byte_in_spec in H end; lia.
Qed.

(** ** Lemmas: bytes at a position *)

Lemma str_drop_app p s : str_drop (String.length p) (p +:+ s) = s.
Proof. induction p; simpl; [done|]. apply IHp. Qed.

Lemma str_take_app p s : str_take (String.length p) (p +:+ s) = p.
Proof. induction p; simpl; [done|]. f_equal. apply IHp. Qed.

Lemma byte_at_app p s n : byte_at (String.length p + n) (p +:+ s) = byte_at n s.
Proof. induction p; simpl; [done|]. apply IHp. Qed.

Lemma str_take_plus p s k : str_take (String.length p + k) (p +:+ s) = p +:+ str_take k s.
Proof. induction p; simpl; [done|]. rewrite IHp. done. Qed.

Lemma str_drop_plus p s k : str_drop (String.length p + k) (p +:+ s) = str_drop k s.
Proof. induction p; simpl; [done|]. apply IHp. Qed.

(** The restricted ranges of a second byte lie inside the continuation
    range. *)
Lemma byte_in_continuation lo hi b :
  (128 <= lo)%N -> (hi <= 191)%N -> byte_in lo hi b = true -> is_continuation b = true.
Proof.
  intros ? ? [? ?]%byte_in_spec. unfold is_continuation.
  apply andb_true_iff. rewrite N.leb_le, N.ltb_lt. lia.
Qed.

(** [String a conts] encodes one character, whatever follows it. *)
Record utf8_char (a : ascii) (conts : string) : Prop := {
  char_tail : all_bytes is_continuation conts = true;
  char_lead : is_ascii a = false \/ conts = EmptyString;
  char_more : forall u, valid_utf8 (String a (conts +:+ u)) = valid_utf8 u
}.

(** Valid text is empty or a character followed by valid text. *)
Lemma valid_utf8_view s :
  valid_utf8 s = true ->
  s = EmptyString \/
  exists a conts r, s = String a (conts +:+ r) /\ utf8_char a conts /\ valid_utf8 r = true.
Proof.
  destruct s as [|a s1]; [by left|]. intros Hv. right. simpl in Hv.
  destruct (is_ascii a) eqn:Ea.
  { exists a, EmptyString, s1. split_and!; [done| |done]. constructor; simpl; try rewrite Ea; auto. }
  destruct s1 as [|b s2]; [done|]. destruct (byte_in 194 223 a) eqn:E2.
  { destr_bool. exists a, (String b EmptyString), s2. split_and!; [done| |done].
    constructor; [simpl; by rewrite andb_true_iff|by left|]. intros u. simpl. by rewrite Ea, E2, H. }
  destruct s2 as [|c s3]; [done|]. destruct (byte_in 224 239 a) eqn:E3.
  { destr_bool. exists a, (String b (String c EmptyString)), s3. split_and!; [done| |done].
    assert (is_continuation b = true).
    { repeat case_match; try done; by eapply byte_in_continuation; [| |done]. }
    constructor; [simpl; by rewrite !andb_true_iff|by left|].
    intros u. simpl. by rewrite Ea, E2, E3, H, H1. }
  destruct s3 as [|d s4]; [done|]. destruct (byte_in 240 244 a) eqn:E4; [|done].
  destr_bool. exists a, (String b (String c (String d EmptyString))), s4.
  split_and!; [done| |done].
  assert (is_continuation b = true).
  { repeat case_match; try done; by eapply byte_in_continuation; [| |done]. }
  constructor; [simpl; by rewrite !andb_true_iff|by left|].
  intros u. simpl. by rewrite Ea, E2, E3, E4, H, H1, H2.
Qed.

(** Induction on valid text, a character at a time. *)
Lemma valid_utf8_ind (P : string -> Prop) :
  P EmptyString ->
  (forall a conts r, utf8_char a conts -> valid_utf8 r = true -> P r -> P (String a (conts +:+ r))) ->
  forall s, valid_utf8 s = true -> P s.
Proof.
  intros H0 Hc s. remember (String.length s) as n eqn:Hn.
  revert s Hn. induction n as [n IH] using lt_wf_ind. intros s -> Hv.
  destruct (valid_utf8_view s Hv) as [->|(a & conts & r & -> & Hch & Hr)]; [done|].
  apply Hc; [done..|]. eapply IH; [|done|done]. simpl. rewrite str_app_length. lia.
Qed.

Lemma valid_utf8_app s t : valid_utf8 s = true -> valid_utf8 t = true -> valid_utf8 (s +:+ t) = true.
Proof.
  intros Hs Ht. revert s Hs. refine (valid_utf8_ind _ _ _); [done|].
  intros a conts r [_ _ Hmore] _ IH. rewrite str_app_cons, str_app_assoc. by rewrite Hmore.
Qed.

(** A run without the separator joins the first piece. *)
Lemma split_char_app_no c x s :
  contains_char c x = false ->
  exists p ps, split_char c s = p :: ps /\ split_char c (x +:+ s) = (x +:+ p) :: ps.
Proof.
  induction x as [|a x IH]; intros Hx.
  - destruct (split_char c s) as [|p ps] eqn:E; [|by exists p, ps].
    destruct s; simpl in E; [done|]. repeat case_match; done.
  - unfold contains_char in *. simpl in Hx. apply orb_false_iff in Hx as [Ha Hx].
    destruct (IH Hx) as (p & ps & E1 & E2). exists p, ps. split; [done|].
    simpl. rewrite E2. by rewrite Ha.
Qed.

Lemma continuations_no_ascii c x :
  is_ascii c = true -> all_bytes is_continuation x = true -> contains_char c x = false.
Proof.
  intros Hc Hx. apply any_byte_all. revert Hx. apply all_bytes_impl. intros a Ha.
  apply negb_true_iff, bool_decide_eq_false. intros ->. apply continuation_not_ascii in Ha. congruence.
Qed.

(** Splitting valid UTF-8 at an ASCII character gives valid pieces. *)
Lemma valid_utf8_split c s :
  is_ascii c = true -> valid_utf8 s = true -> Forall (fun x => valid_utf8 x = true) (split_char c s).
Proof.
  intros Hc Hv. revert s Hv. apply valid_utf8_ind; [by repeat constructor|].
  intros a conts r [Htail Hlead Hmore] Hr IH.
  destruct (split_char_app_no c conts r) as (p & ps & E1 & E2).
  { by apply continuations_no_ascii. }
  rewrite E1 in IH. apply Forall_cons in IH as [Hp Hps]. simpl. rewrite E2.
  case_bool_decide as Hac; [|constructor; [by rewrite Hmore|done]].
  destruct Hlead as [?| ->]; [congruence|]. by repeat constructor.
Qed.

(** Cutting valid UTF-8 at a character boundary leaves two valid texts. *)
Lemma valid_utf8_cut s n :
  valid_utf8 s = true -> is_char_boundary s n = true ->
  valid_utf8 (str_take n s) = true /\ valid_utf8 (str_drop n s) = true.
Proof.
  intros Hv. revert n. revert s Hv. refine (valid_utf8_ind _ _ _); [by intros []|].
  intros a conts r [Htail Hlead Hmore] Hr IH [|n] Hb;
    [split; [done|]; unfold str_drop; by rewrite Hmore|].
  destruct (decide (n < String.length conts)%nat) as [Hlt|Hge].
  - exfalso. unfold is_char_boundary in Hb. rewrite bool_decide_eq_false_2 in Hb
      by (simpl; rewrite str_app_length; lia). simpl in Hb.
    revert n Hlt Hb. clear -Htail. induction conts as [|x conts IH]; simpl; intros n Hlt; [lia|].
    simpl in Htail. destr_bool. destruct n; simpl; [by rewrite H|apply IH; [done|lia]].
  - replace n with (String.length conts + (n - String.length conts))%nat in * by lia.
    cbn [str_take str_drop]. rewrite str_take_plus, str_drop_plus, Hmore. apply IH.
    revert Hb. generalize (n - String.length conts)%nat as k. intros [|k]; [done|].
    unfold is_char_boundary. cbn [byte_at String.length]. rewrite str_app_length, byte_at_app.
    intros Hb. destruct (decide (S k = String.length r)) as [?|Hk];
      [by rewrite bool_decide_eq_true_2|].
    rewrite bool_decide_eq_false_2 in Hb by lia. by rewrite bool_decide_eq_false_2.
Qed.

(** A position where a clean string starts is a character boundary. *)
Lemma is_char_boundary_app p s :
  starts_clean s = true -> is_char_boundary (p +:+ s) (String.length p) = true.
Proof.
  intros Hs. unfold is_char_boundary. destruct (String.length p) eqn:E; [done|].
  rewrite <-E. case_bool_decide as Hl; [done|].
  pose proof (byte_at_app p s 0) as Hb. rewrite Nat.add_0_r in Hb. rewrite Hb.
  destruct s as [|a s]; simpl in *; [|done].
  exfalso. apply Hl. rewrite str_app_length. simpl. lia.
Qed.

Lemma slice_app p m s :
  starts_clean (m +:+ s) = true -> starts_clean s = true ->
  slice (p +:+ (m +:+ s)) (String.length p) (String.length p + String.length m) = Done m.
Proof.
  intros Hm Hs. unfold slice.
  rewrite (proj2 (Nat.leb_le _ _)) by lia.
  rewrite is_char_boundary_app by done.
  rewrite <-str_app_length, <-str_app_assoc, is_char_boundary_app by done.
  simpl. rewrite str_app_assoc, str_drop_app. f_equal.
  rewrite str_app_length. replace (_ + _ - _)%nat with (String.length m) by lia.
  apply str_take_app.
Qed.

(** ** [BTreeSet<String>] as a sorted list *)

(** [insert]: byte order of [String], no duplicates. *)
Fixpoint btree_insert (x : string) (l : list string) : list string :=
  match l with
  | [] => [x]
  | y :: r =>
      match String.compare x y with
      | Lt => x :: l
      | Eq => l
      | Gt => y :: btree_insert x r
      end
  end.

Lemma elem_of_btree_insert x l y : y ∈ btree_insert x l <-> y = x \/ y ∈ l.
Proof.
  induction l as [|z r IH]; simpl; [by rewrite elem_of_cons|].
  destruct (String.compare x z) eqn:E.
  - apply String.compare_eq_iff in E as ->. rewrite elem_of_cons. tauto.
  - by rewrite !elem_of_cons.
  - rewrite !elem_of_cons, IH. tauto.
Qed.

Definition str_lt (x y : string) : Prop := String.compare x y = Lt.

Lemma str_compare_antisym_lt x y : String.compare x y = Gt -> str_lt y x.
Proof. unfold str_lt. rewrite (String.compare_antisym y x). by intros ->. Qed.

Lemma btree_insert_sorted x l : Sorted str_lt l -> Sorted str_lt (btree_insert x l).
Proof.
  induction l as [|y r IH]; simpl; intros Hs; [by repeat constructor|].
  destruct (String.compare x y) eqn:E; [done|by constructor; [|constructor]|].
  apply Sorted_inv in Hs as [Hr Hhd]. constructor; [by apply IH|].
  destruct r as [|z r']; simpl; [constructor; by apply str_compare_antisym_lt|].
  destruct (String.compare x z); constructor;
    first [by apply str_compare_antisym_lt|by inversion Hhd].
Qed.

(** ** Slices of ASCII text *)

Lemma ascii_only_byte_at s i a : ascii_only s = true -> byte_at i s = Some a -> is_ascii a = true.
Proof.
  unfold ascii_only. revert i. induction s; intros i H Hb; [by destruct i|].
  simpl in H. destr_bool. destruct i; simpl in Hb; [by injection Hb as <-|eauto].
Qed.

Lemma byte_at_lt i s : (i < String.length s)%nat -> exists a, byte_at i s = Some a.
Proof.
  revert i. induction s; simpl; intros i Hi; [lia|]. destruct i; [eauto|].
  apply IHs. lia.
Qed.

Lemma ascii_only_boundary s i :
  ascii_only s = true -> (i <= String.length s)%nat -> is_char_boundary s i = true.
Proof.
  intros Hs Hi. unfold is_char_boundary. destruct i; [done|].
  case_bool_decide; [done|]. destruct (byte_at_lt (S i) s) as [a Ha]; [lia|].
  rewrite Ha. apply negb_true_iff, is_ascii_not_continuation. by eapply ascii_only_byte_at.
Qed.

Lemma ascii_only_slice s i j :
  ascii_only s = true -> (i <= j <= String.length s)%nat ->
  slice s i j = Done (str_take (j - i) (str_drop i s)).
Proof.
  intros Hs Hij. unfold slice. rewrite (proj2 (Nat.leb_le _ _)) by lia.
  by rewrite !ascii_only_boundary by (done || lia).
Qed.

Lemma str_take_drop n s : str_take n s +:+ str_drop n s = s.
Proof.
  revert n. induction s; intros [|n]; simpl; try done. by rewrite str_app_cons, IHs.
Qed.

Lemma slice_substring s i j t : slice s i j = Done t -> contains_str t s = true.
Proof.
  unfold slice. case_match; [|done]. intros [= <-]. apply contains_str_spec.
  exists (str_take i s), (str_drop (j - i) (str_drop i s)).
  by rewrite !str_take_drop.
Qed.

Lemma str_take_length n s : String.length (str_take n s) = Nat.min n (String.length s).
Proof. revert n. induction s; intros [|n]; simpl; try done. by rewrite IHs. Qed.

Lemma str_drop_length n s : String.length (str_drop n s) = (String.length s - n)%nat.
Proof. revert n. induction s; intros [|n]; simpl; try done. Qed.

Lemma to_lowercase_ascii s : ascii_only s = true -> ascii_only (to_lowercase s) = true.
Proof.
  unfold ascii_only, to_lowercase. induction s as [|a s IH]; simpl; [done|].
  intros [Ha Hs]%andb_true_iff. apply andb_true_iff. split; [|by apply IH].
  destruct a as [[] [] [] [] [] [] [] []]; vm_compute in Ha |- *; done.
Qed.

Lemma elem_of_fold_btree_insert l acc y :
  y ∈ fold_left (fun acc x => btree_insert x acc) l acc <-> y ∈ acc \/ y ∈ l.
Proof.
  revert acc. induction l as [|x l IH]; intros acc; simpl.
  - split; [by left|]. intros [?|H]; [done|by apply elem_of_nil in H].
  - rewrite IH, elem_of_btree_insert, elem_of_cons. tauto.
Qed.

(** ** Lemmas: one end of the string *)

Lemma contains_char_cons c a s : contains_char c (String a s) = bool_decide (a = c) || contains_char c s.
Proof. done. Qed.

Lemma trim_start_first a s : graphic a = true -> trim_start (String a s) = String a s.
Proof.
  intros [Ha Hw%negb_true_iff]%andb_true_iff. cbn [trim_start]. rewrite Hw. destruct s as [|b [|c s]]; [done|..].
  - by rewrite ws2_ascii.
  - by rewrite ws2_ascii, ws3_ascii.
Qed.

Lemma trim_start_rev_first a s : graphic a = true -> trim_start_rev (String a s) = String a s.
Proof.
  intros [Ha Hw%negb_true_iff]%andb_true_iff. cbn [trim_start_rev]. rewrite Hw. unfold is_ascii in Ha. apply N.ltb_lt in Ha.
  assert (H2 : forall b, ws2 b a = false).
  { intros b. unfold ws2. rewrite !(proj2 (N.eqb_neq (byte_of a) _)) by lia. by rewrite andb_false_r. }
  assert (H3 : forall b c, ws3 c b a = false).
  { intros b c. unfold ws3. rewrite !(proj2 (N.eqb_neq (byte_of a) _)) by lia. rewrite (proj2 (N.leb_gt 128 (byte_of a))) by lia.
    simpl. by rewrite !andb_false_r. }
  destruct s as [|b [|c s]]; [done|..]; by rewrite ?H2, ?H3.
Qed.

Lemma trim_end_last s b : graphic b = true -> trim_end (s +:+ String b EmptyString) = s +:+ String b EmptyString.
Proof.
  intros Hb. unfold trim_end. rewrite str_rev_app. change (String.rev (String b EmptyString)) with (String b EmptyString).
  rewrite str_app_cons, trim_start_rev_first by done. rewrite str_app_nil_l, str_rev_cons, str_rev_involutive. done.
Qed.

Lemma trim_end_matches_last c s b :
  b <> c -> trim_end_matches c (s +:+ String b EmptyString) = s +:+ String b EmptyString.
Proof.
  intros Hb. unfold trim_end_matches. rewrite str_rev_app. change (String.rev (String b EmptyString)) with (String b EmptyString).
  rewrite str_app_cons, str_app_nil_l. cbn [drop_while]. rewrite bool_decide_eq_false_2 by done.
  by rewrite str_rev_cons, str_rev_involutive.
Qed.

Lemma split_char_none c s : contains_char c s = false -> split_char c s = [s].
Proof.
  induction s as [|a s IH]; intros H; [done|]. rewrite contains_char_cons in H. apply orb_false_iff in H as [Ha H].
  cbn [split_char]. rewrite (IH H). by rewrite Ha.
Qed.

(** ** Ends, markers and cuts *)

(** [str::ends_with] *)
Definition ends_with (p s : string) : bool := starts_with (String.rev p) (String.rev s).

(** [str::strip_suffix] *)
Definition strip_suffix (p s : string) : option string :=
  String.rev <$> strip_prefix (String.rev p) (String.rev s).

(** [str::split_once] on a string pattern: before and after its first
    occurrence. *)
Fixpoint split_once_str (p s : string) : option (string * string) :=
  match strip_prefix p s with
  | Some r => Some (EmptyString, r)
  | None =>
      match s with
      | EmptyString => None
      | String a s' => prod_map (String a) id <$> split_once_str p s'
      end
  end.

(** [str::rsplit_once]: around the last occurrence. *)
Definition rsplit_once_str (p s : string) : option (string * string) :=
  (fun '(x, y) => (String.rev y, String.rev x)) <$> split_once_str (String.rev p) (String.rev s).

(** [chars().take(n)]. *)
Fixpoint take_chars (n : nat) (s : string) : string :=
  match s with
  | EmptyString => EmptyString
  | String a r =>
      if is_continuation a then String a (take_chars n r)
      else match n with O => EmptyString | S n' => String a (take_chars n' r) end
  end.

Lemma ends_with_spec p s : ends_with p s = true <-> exists q, s = q +:+ p.
Proof.
  unfold ends_with. rewrite starts_with_spec. split; intros [q Hq].
  - exists (String.rev q). apply (f_equal String.rev) in Hq. by rewrite str_rev_app, !str_rev_involutive in Hq.
  - exists (String.rev q). by rewrite Hq, str_rev_app.
Qed.

Lemma strip_suffix_Some p s r : strip_suffix p s = Some r <-> s = r +:+ p.
Proof.
  unfold strip_suffix. rewrite fmap_Some. setoid_rewrite strip_prefix_Some. split.
  - intros (x & Hx & ->). apply (f_equal String.rev) in Hx. by rewrite str_rev_app, !str_rev_involutive in Hx.
  - intros ->. exists (String.rev r). by rewrite str_rev_app, str_rev_involutive.
Qed.

Lemma split_once_str_Some p s x y : split_once_str p s = Some (x, y) -> s = x +:+ (p +:+ y).
Proof.
  revert x y. induction s as [|a s IH]; intros x y; cbn [split_once_str].
  - destruct (strip_prefix p "") eqn:E; [|done]. intros [= <- <-]. rewrite str_app_nil_l. by apply strip_prefix_Some.
  - destruct (strip_prefix p (String a s)) eqn:E.
    + intros [= <- <-]. rewrite str_app_nil_l. by apply strip_prefix_Some.
    + destruct (split_once_str p s) as [[x' y']|]; [|done]. intros [= <- <-].
      rewrite str_app_cons. f_equal. by apply IH.
Qed.

Lemma split_once_str_None p s : split_once_str p s = None <-> contains_str p s = false.
Proof.
  induction s as [|a s IH]; cbn [split_once_str contains_str]; unfold starts_with; destruct (strip_prefix p _); simpl; try done.
  rewrite <-IH. destruct (split_once_str p s) as [[]|]; done.
Qed.

Lemma rsplit_once_str_Some p s x y : rsplit_once_str p s = Some (x, y) -> s = x +:+ (p +:+ y).
Proof.
  unfold rsplit_once_str. destruct (split_once_str _ _) as [[u v]|] eqn:H; [|done]. intros [= <- <-].
  apply split_once_str_Some in H. apply (f_equal String.rev) in H.
  rewrite str_rev_involutive in H. rewrite H, !str_rev_app, !str_rev_involutive. by rewrite str_app_assoc.
Qed.

Lemma split_char_cons c x y : contains_char c x = false -> split_char c (x +:+ String c y) = x :: split_char c y.
Proof.
  induction x as [|a x IH]; intros H.
  - rewrite str_app_nil_l. cbn [split_char]. by rewrite bool_decide_true.
  - rewrite contains_char_cons in H. apply orb_false_iff in H as [Ha H].
    rewrite str_app_cons. cbn [split_char]. by rewrite Ha, (IH H).
Qed.

Lemma split_char_nonempty c s : split_char c s <> [].
Proof. destruct s; simpl; [done|]. case_bool_decide; [done|]. by destruct (split_char c s). Qed.

Lemma join_cons sep x l : l <> [] -> join sep (x :: l) = x +:+ sep +:+ join sep l.
Proof. by destruct l. Qed.

(** Joining what a split gives restores the string. *)
Lemma join_split_char c s : join (String c EmptyString) (split_char c s) = s.
Proof.
  induction s as [|a s IH]; [done|]. cbn [split_char]. case_bool_decide as Ha.
  - rewrite join_cons by apply split_char_nonempty. rewrite IH, Ha. done.
  - destruct (split_char c s) as [|p ps] eqn:E; [by destruct (split_char_nonempty c s)|].
    destruct ps as [|q ps]; simpl in *; by rewrite <-IH.
Qed.

Lemma split_once_str_app p x y :
  (forall u v, x = u +:+ v -> v <> EmptyString -> strip_prefix p (v +:+ (p +:+ y)) = None) ->
  split_once_str p (x +:+ (p +:+ y)) = Some (x, y).
Proof.
  induction x as [|a x IH]; intros H.
  - rewrite str_app_nil_l. pose proof (strip_prefix_app p y) as Hs. destruct (p +:+ y); cbn [split_once_str]; by rewrite Hs.
  - pose proof (H EmptyString (String a x) ltac:(done) ltac:(done)) as H0.
    rewrite str_app_cons in *. cbn [split_once_str]. rewrite H0.
    rewrite IH; [done|]. intros u v -> Hv. apply (H (String a u)); done.
Qed.
