(* ===== verification/ArchiveRead.v ===== *)
(** * Archive reads: refs, rendered content, grep and paging

    Models [baml-rt-tools/src/archive_read]: the newtypes of [types.rs]
    ([ShortRef], [HistoryRef], [PageLimit], [GrepPattern]), the single-buffer
    [RenderedContent] of [rendered.rs], [grep_paginate] of [grep.rs], the
    numbering of [cat_n.rs] and the session read body of
    [session_read_body.rs].  The [regex] crate is a parameter. *)

From stdpp Require Import base list strings option.
From Stdlib Require Import ZArith Lia Ascii.
From S2P Require Import Prelude RustStr.

(** ** [types.rs]: refs *)

Record ShortRef := mkShortRef { prefix : Z; local : Z }.

#[global] Instance ShortRef_eq_dec : EqDecision ShortRef.
Proof. solve_decision. Defined.

(** Both components are [u32]. *)
Definition ShortRef_wf (r : ShortRef) : Prop := is_u32 (prefix r) /\ is_u32 (local r).

Definition archive_cell_key (p l : Z) : Z := Z.lor (Z.shiftl p 32) l.

Definition ShortRef_new (l : Z) : ShortRef := mkShortRef 1 l.

Definition ShortRef_cell_key (r : ShortRef) : Z := archive_cell_key (prefix r) (local r).

Definition ShortRef_parse (s : string) : option ShortRef :=
  s ← strip_prefix_char "@" (trim s);
  match split_once "/" s with
  | Some (p, rest) =>
      pre ← parse_u32 p;
      loc ← parse_u32 rest;
      Some (mkShortRef pre loc)
  | None =>
      loc ← parse_u32 s;
      Some (mkShortRef 1 loc)
  end.

Definition ShortRef_parse_loose (s : string) : option ShortRef :=
  opt_or (ShortRef_parse (trim s))
    (let t := trim s in
     i ← rfind_char "@" t;
     ShortRef_parse (str_drop i t)).

Definition ShortRef_display (r : ShortRef) : string :=
  if (prefix r =? 1)%Z then "@" +:+ show_Z (local r)
  else "@" +:+ show_Z (prefix r) +:+ "/" +:+ show_Z (local r).

(** [HistoryRef] is a [u32]. *)
Definition HistoryRef_parse (s : string) : option Z :=
  r ← strip_prefix_char "#" s; parse_u32 r.

Definition HistoryRef_display (n : Z) : string := "#" +:+ show_Z n.

(** ** [types.rs]: page limit and grep pattern *)

Definition PageLimit_DEFAULT : nat := 200.
Definition PageLimit_MAX : nat := 500.

Definition PageLimit_new (n : nat) : nat := Nat.min n PageLimit_MAX.

Inductive GrepMode := Fixed | Regex.

#[global] Instance GrepMode_eq_dec : EqDecision GrepMode.
Proof. solve_decision. Defined.

(** A line with its 1-based position in the whole content. *)
Record LineWithPosition := mkLine { original_line_number : nat; text : string }.

#[global] Instance LineWithPosition_eq_dec : EqDecision LineWithPosition.
Proof. solve_decision. Defined.

Record GrepPage := mkGrepPage {
  page_lines : list LineWithPosition;
  total_matched : nat;
  has_more : bool;
  next_offset : nat;
}.

(** ** [rendered.rs] *)

Record RenderedContent := mkRendered { buf : string; line_ends : list nat }.

(** [push_str(segment); push('\n'); line_ends.push(buf.len())] *)
Definition push_segment (rc : RenderedContent) (segment : string) : RenderedContent :=
  let b := buf rc +:+ segment +:+ nl_str in
  mkRendered b (line_ends rc ++ [String.length b]).

Definition from_lines_step (rc : RenderedContent) (line : string) : RenderedContent :=
  match line with
  | EmptyString => push_segment rc EmptyString
  | _ => foldl push_segment rc (str_lines line)
  end.

Definition RenderedContent_from_lines (lines : list string) : RenderedContent :=
  foldl from_lines_step (mkRendered EmptyString []) lines.

Definition RenderedContent_line_count (rc : RenderedContent) : nat := length (line_ends rc).
Definition RenderedContent_byte_count (rc : RenderedContent) : nat := String.length (buf rc).
Definition RenderedContent_is_empty (rc : RenderedContent) : bool :=
  match line_ends rc with [] => true | _ => false end.

(** The iterator of [lines()]: each item is [&buf[start..end - 1]], a slice
    that panics off a character boundary. *)
Fixpoint lines_from (b : string) (start : nat) (ends : list nat) : outcome (list string) :=
  match ends with
  | [] => Done []
  | e :: rest =>
      let! line := slice b start (e - 1) in
      let! more := lines_from b e rest in
      Done (line :: more)
  end.

Definition RenderedContent_lines (rc : RenderedContent) : outcome (list string) :=
  lines_from (buf rc) 0 (line_ends rc).

(** [get_line]: [None] out of range. *)
Definition RenderedContent_get_line (rc : RenderedContent) (index : nat) : outcome (option string) :=
  if (length (line_ends rc) <=? index)%nat then Done None
  else
    let start := match index with
                 | O => Some 0%nat
                 | S i => line_ends rc !! i
                 end in
    match start, line_ends rc !! index with
    | Some st, Some e => let! s := slice (buf rc) st (e - 1) in Done (Some s)
    | _, _ => Panic
    end.

(** ** Grep, paging and session bodies, over the [regex] crate *)

Section WithRegex.

Context {regex : Type}.
(** [regex::Regex::new], with the error's display text. *)
Variable Regex_new : string -> result regex string.
(** [Regex::is_match] *)
Variable is_match : regex -> string -> bool.

Record GrepPattern := mkGrepPattern {
  gp_pattern : string;
  pattern_lower : option string;
  mode : GrepMode;
  case_insensitive : bool;
  compiled_regex : option regex;
}.

Definition is_flag_char (c : ascii) : bool :=
  bool_decide (c = "F"%char) || bool_decide (c = "E"%char) || bool_decide (c = "i"%char).

(** The [(flags, pattern)] split of [GrepPattern::parse]. *)
Definition split_flags (input : string) : result (string * string) string :=
  if starts_with "-" input && (1 <? String.length input)%nat then
    let space_pos := default (String.length input) (find_char " " input) in
    let flag_part := str_drop 1 (str_take space_pos input) in
    if all_bytes is_flag_char flag_part then
      let pat := trim (str_drop space_pos input) in
      if is_empty_str pat then Err "grep pattern is empty after flags"
      else Ok (flag_part, pat)
    else Ok (EmptyString, input)
  else Ok (EmptyString, input).

Definition GrepPattern_parse (input0 : string) : result GrepPattern string :=
  let input := trim input0 in
  if is_empty_str input then Err "grep pattern is empty" else
  let? (flags, pattern) := split_flags input in
  let m := if contains_char "E" flags then Regex else Fixed in
  let ci := contains_char "i" flags in
  let? re :=
    (match m with
     | Regex =>
         let re_pattern := if ci then "(?i)" +:+ pattern else pattern in
         match Regex_new re_pattern with
         | Ok r => Ok (Some r)
         | Err e => Err ("invalid regex: " +:+ e)
         end
     | Fixed => Ok None
     end) in
  let lower := match m with
               | Fixed => if ci then Some (to_lowercase pattern) else None
               | Regex => None
               end in
  Ok (mkGrepPattern pattern lower m ci re).

Definition GrepPattern_matches (g : GrepPattern) (haystack : string) : bool :=
  match mode g, compiled_regex g with
  | Regex, Some re => is_match re haystack
  | _, _ =>
      if case_insensitive g
      then contains_str (default EmptyString (pattern_lower g)) (to_lowercase haystack)
      else contains_str (gp_pattern g) haystack
  end.

(** [grep.is_none_or(|g| g.matches(line))] *)
Definition line_passes (grep : option GrepPattern) (line : string) : bool :=
  match grep with None => true | Some g => GrepPattern_matches g line end.

(** Every matched line with its original position. *)
Definition matched_lines (grep : option GrepPattern) (lines : list string) : list LineWithPosition :=
  (fun '(idx, line) => mkLine (idx + 1) line) <$>
    filter (fun p : nat * string => line_passes grep p.2 = true) (enumerate_from 0 lines).

Definition grep_paginate (content : RenderedContent) (grep : option GrepPattern)
    (offset limit : nat) : outcome GrepPage :=
  let! lines := RenderedContent_lines content in
  let matched := matched_lines grep lines in
  let total := length matched in
  let start := Nat.min offset total in
  let end_ := Nat.min (start + limit) total in
  let! page := vec_slice matched start end_ in
  Done (mkGrepPage page total (end_ <? total)%nat end_).

(** ** [cat_n.rs] *)

Definition MIN_WIDTH : nat := 6.

(** The digit-counting loop; [fuel] bounds the number of divisions. *)
Fixpoint count_digits (fuel : nat) (n : N) : nat :=
  match fuel with
  | O => 0
  | S f => if (n =? 0)%N then 0%nat else S (count_digits f (n / 10))
  end.

Definition line_number_width (max_line : nat) : nat :=
  let n := N.of_nat (Nat.max max_line 1) in
  Nat.max (count_digits (S (N.to_nat (N.log2 n))) n) MIN_WIDTH.

Definition max_line_number (lines : list LineWithPosition) : nat :=
  match lines with
  | [] => 1
  | _ => foldr Nat.max 0%nat (original_line_number <$> lines)
  end.

Definition cat_n_row (width : nat) (l : LineWithPosition) : string :=
  pad_left width (show_nat (original_line_number l)) +:+ String tab EmptyString +:+ text l +:+ nl_str.

Definition format_cat_n (lines : list LineWithPosition) : string :=
  match lines with
  | [] => EmptyString
  | _ =>
      let width := line_number_width (max_line_number lines) in
      foldl (fun out l => out +:+ cat_n_row width l) EmptyString lines
  end.

Definition format_cat_n_sequential (lines : list string) (start_line : nat) : string :=
  format_cat_n ((fun '(i, t) => mkLine (start_line + i) t) <$> enumerate_from 0 lines).

(** ** [session_read_body.rs] *)

Definition session_range_comment (page : GrepPage) (archive_ref : string) : string :=
  match page_lines page with
  | [] => EmptyString
  | f :: _ =>
      let first := original_line_number f in
      let last := match list.last (page_lines page) with
                  | Some l => original_line_number l | None => 1%nat end in
      if has_more page then
        let remaining := (total_matched page - next_offset page)%nat in
        let off := show_nat (next_offset page) in
        "  # More lines are not shown below — emit SearchRead (non-empty grep) to narrow "
          +:+ archive_ref +:+ ", or PageRead to continue " +:+ archive_ref
          +:+ " with offset=" +:+ off +:+ ". Window: lines " +:+ show_nat first
          +:+ "-" +:+ show_nat last +:+ " of " +:+ show_nat (total_matched page)
          +:+ " (" +:+ show_nat remaining +:+ " more — offset=" +:+ off
          +:+ " for next page)"
      else if (first =? 1)%nat && (last =? total_matched page)%nat then EmptyString
      else "  # lines " +:+ show_nat first +:+ "-" +:+ show_nat last +:+ " of "
             +:+ show_nat (total_matched page)
  end.

Definition session_read_command_line (archive_ref : string) (grep_raw : option string) : string :=
  match opt_filter (fun s => negb (is_empty_str s)) grep_raw with
  | Some pat => "grep -n '" +:+ pat +:+ "' " +:+ archive_ref
  | None => "cat -n " +:+ archive_ref
  end.

Definition format_grep_page_as_session_read_body (page : GrepPage) (archive_ref : string)
    (grep_raw : option string) : string :=
  let formatted := format_cat_n (page_lines page) in
  let cmd := session_read_command_line archive_ref grep_raw in
  match page_lines page with
  | [] => cmd +:+ nl_str +:+ "# no matches"
  | _ =>
      let range_comment := session_range_comment page archive_ref in
      let body :=
        if is_empty_str range_comment then cmd +:+ nl_str +:+ formatted
        else cmd +:+ nl_str +:+ range_comment +:+ nl_str +:+ formatted in
      trim_end_matches nl body
  end.

Definition format_session_read_body_from_rendered (rendered : RenderedContent)
    (archive_ref : string) (grep_raw : option string) (offset page_limit : nat) : outcome string :=
  let grep := s ← opt_filter (fun s => negb (is_empty_str s)) grep_raw; ok (GrepPattern_parse s) in
  let! page := grep_paginate rendered grep offset page_limit in
  Done (format_grep_page_as_session_read_body page archive_ref grep_raw).

End WithRegex.

Arguments mkGrepPattern {regex}.

(** ** Refs: round trips and keys *)

Lemma ShortRef_parse_body s :
  all_bytes graphic s = true ->
  ShortRef_parse ("@" +:+ s) =
  match split_once "/" s with
  | Some (p, rest) => pre ← parse_u32 p; loc ← parse_u32 rest; Some (mkShortRef pre loc)
  | None => loc ← parse_u32 s; Some (mkShortRef 1 loc)
  end.
Proof.
  intros Hs. unfold ShortRef_parse. rewrite trim_graphic; [done|].
  rewrite all_bytes_app. by rewrite Hs.
Qed.

Lemma ShortRef_parse_flat l : is_u32 l -> ShortRef_parse ("@" +:+ show_Z l) = Some (mkShortRef 1 l).
Proof.
  intros [H1 H2]. rewrite ShortRef_parse_body by auto with agentium.
  rewrite (proj2 (split_once_None _ _)) by auto with agentium.
  unfold parse_u32. by rewrite parse_show_Z.
Qed.

Lemma ShortRef_parse_composite p l :
  is_u32 p -> is_u32 l ->
  ShortRef_parse ("@" +:+ show_Z p +:+ "/" +:+ show_Z l) = Some (mkShortRef p l).
Proof.
  intros [H1 H2] [H3 H4]. rewrite ShortRef_parse_body.
  - change ("/" +:+ show_Z l) with (String "/" (show_Z l)).
    rewrite split_once_app by auto with agentium. unfold parse_u32.
    by rewrite !parse_show_Z.
  - rewrite !all_bytes_app, !show_Z_graphic by done. done.
Qed.

Lemma archive_cell_key_eq p l : is_u32 p -> is_u32 l -> archive_cell_key p l = (p * 2 ^ 32 + l)%Z.
Proof.
  unfold is_u32, u32_max, archive_cell_key. intros Hp Hl.
  assert (Hland : Z.land (Z.shiftl p 32) l = 0%Z).
  { rewrite <-(Z.mod_small l (2 ^ 32)) by lia. rewrite <-Z.land_ones by lia.
    rewrite (Z.land_comm l), Z.land_assoc, Z.land_ones, Z.shiftl_mul_pow2 by lia.
    by rewrite Z.mod_mul by lia. }
  pose proof (Z.add_lor_land (Z.shiftl p 32) l) as H. rewrite Hland in H.
  rewrite Z.shiftl_mul_pow2 in * by lia. lia.
Qed.

(** The two halves of a cell key, as [(key >> 32) as u32] and [key as u32]. *)
Definition key_prefix (key : Z) : Z := wrap32 (Z.shiftr key 32).
Definition key_local (key : Z) : Z := wrap32 key.

Lemma cell_key_split r :
  ShortRef_wf r ->
  mkShortRef (key_prefix (ShortRef_cell_key r)) (key_local (ShortRef_cell_key r)) = r.
Proof.
  intros [Hp Hl]. unfold ShortRef_cell_key, key_prefix, key_local.
  rewrite archive_cell_key_eq by done. destruct r as [p l]; simpl in *.
  unfold is_u32, u32_max, wrap32 in *. rewrite Z.shiftr_div_pow2 by lia. f_equal.
  - rewrite Z.div_add_l by lia. rewrite (Z.div_small l) by lia.
    rewrite Z.add_0_r. apply Z.mod_small. lia.
  - rewrite Z.add_comm. change 4294967296%Z with (2 ^ 32)%Z.
    rewrite Z.mod_add by lia. apply Z.mod_small. lia.
Qed.

Lemma cell_key_inj r1 r2 :
  ShortRef_wf r1 -> ShortRef_wf r2 -> ShortRef_cell_key r1 = ShortRef_cell_key r2 -> r1 = r2.
Proof.
  intros H1 H2 Heq. rewrite <-(cell_key_split r1), <-(cell_key_split r2) by done.
  by rewrite Heq.
Qed.

Lemma ShortRef_parse_wf s r : ShortRef_parse s = Some r -> ShortRef_wf r.
Proof.
  assert (Hu : forall x z, parse_u32 x = Some z -> is_u32 z).
  { intros x z Hz. apply parse_uint_range in Hz; done. }
  unfold ShortRef_parse. destruct (strip_prefix_char _ _); simpl; [|done].
  destruct (split_once _ _) as [[p rest]|]; simpl.
  - destruct (parse_u32 p) eqn:E1; [|done]. destruct (parse_u32 rest) eqn:E2; [|done].
    intros [= <-]. split; eauto.
  - destruct (parse_u32 s0) eqn:E1; [|done]. intros [= <-]. split; [done|eauto].
Qed.

(** ** Rendered content represents its segments *)

(** The segments [from_lines] stores for one input line. *)
Definition segments_of (line : string) : list string :=
  match line with EmptyString => [EmptyString] | _ => str_lines line end.

Definition render_segments (segs : list string) : string :=
  foldr (fun s acc => s +:+ (nl_str +:+ acc)) EmptyString segs.

Fixpoint ends_from (start : nat) (segs : list string) : list nat :=
  match segs with
  | [] => []
  | s :: r => let e := (start + String.length s + 1)%nat in e :: ends_from e r
  end.

Definition represents (rc : RenderedContent) (segs : list string) : Prop :=
  buf rc = render_segments segs /\ line_ends rc = ends_from 0 segs.

Lemma render_segments_app l1 l2 :
  render_segments (l1 ++ l2) = render_segments l1 +:+ render_segments l2.
Proof.
  induction l1 as [|s r IH]; simpl; [done|]. by rewrite IH, !str_app_assoc.
Qed.

Lemma ends_from_app start l1 l2 :
  ends_from start (l1 ++ l2) =
  ends_from start l1 ++ ends_from (start + String.length (render_segments l1)) l2.
Proof.
  revert start. induction l1 as [|s r IH]; intros start; simpl; [by rewrite Nat.add_0_r|].
  rewrite IH. do 3 f_equal. rewrite !str_app_length. simpl. lia.
Qed.

Lemma push_segment_represents rc segs s :
  represents rc segs -> represents (push_segment rc s) (segs ++ [s]).
Proof.
  intros [Hb He]. split; unfold push_segment; simpl.
  - by rewrite render_segments_app, Hb.
  - rewrite ends_from_app, He, Hb. simpl. do 2 f_equal.
    rewrite !str_app_length. simpl. lia.
Qed.

Lemma push_segments_represents rc segs more :
  represents rc segs -> represents (foldl push_segment rc more) (segs ++ more).
Proof.
  revert rc segs. induction more as [|s r IH]; intros rc segs H; simpl.
  - by rewrite app_nil_r.
  - replace (segs ++ s :: r) with ((segs ++ [s]) ++ r) by by rewrite <-app_assoc.
    apply IH. by apply push_segment_represents.
Qed.

Lemma from_lines_step_represents rc segs line :
  represents rc segs -> represents (from_lines_step rc line) (segs ++ segments_of line).
Proof.
  intros H. destruct line; [by apply push_segment_represents|].
  by apply push_segments_represents.
Qed.

Lemma from_lines_represents lines :
  represents (RenderedContent_from_lines lines) (flat_map segments_of lines).
Proof.
  unfold RenderedContent_from_lines.
  assert (H : forall rc segs, represents rc segs ->
    represents (foldl from_lines_step rc lines) (segs ++ flat_map segments_of lines)).
  { induction lines as [|l r IH]; intros rc segs H; simpl; [by rewrite app_nil_r|].
    rewrite app_assoc. apply IH. by apply from_lines_step_represents. }
  apply (H _ []). done.
Qed.

Lemma lines_from_represents pre segs :
  Forall (fun s => starts_clean s = true) segs ->
  lines_from (pre +:+ render_segments segs) (String.length pre)
    (ends_from (String.length pre) segs) = Done segs.
Proof.
  revert pre. induction segs as [|s r IH]; intros pre Hall; simpl; [done|].
  inversion Hall as [|? ? Hs Hr]; subst.
  replace (String.length pre + String.length s + 1 - 1)%nat
    with (String.length pre + String.length s)%nat by lia.
  rewrite slice_app; [|by destruct s|done]. simpl.
  specialize (IH (pre +:+ s +:+ nl_str) Hr).
  rewrite !str_app_assoc, !str_app_length in IH. simpl in IH.
  rewrite <-Nat.add_assoc. rewrite IH. done.
Qed.

Lemma represents_lines rc segs :
  represents rc segs -> Forall (fun s => starts_clean s = true) segs ->
  RenderedContent_lines rc = Done segs.
Proof.
  intros [Hb He] Hs. unfold RenderedContent_lines. rewrite Hb, He.
  apply (lines_from_represents EmptyString segs Hs).
Qed.

Lemma strip_trailing_cr_clean s : starts_clean s = true -> starts_clean (strip_trailing_cr s) = true.
Proof. destruct s as [|a [|b s]]; simpl; [done| |done]. by case_bool_decide. Qed.

Lemma segments_clean line :
  valid_utf8 line = true -> Forall (fun s => starts_clean s = true) (segments_of line).
Proof.
  intros Hv. destruct line as [|a l]; simpl; [by repeat constructor|].
  unfold str_lines.
  assert (Hp : Forall (fun s => starts_clean s = true) (split_char nl (String a l))).
  { eapply Forall_impl; [apply valid_utf8_starts_clean|by apply valid_utf8_split]. }
  induction (split_char nl (String a l)) as [|x xs IH]; [constructor|].
  inversion Hp; subst. destruct xs as [|y ys].
  - simpl. destruct x; by repeat constructor.
  - simpl. constructor; [by apply strip_trailing_cr_clean|]. by apply IH.
Qed.

(** What [lines()] returns for content built from valid text. *)
Lemma from_lines_lines lines :
  Forall (fun l => valid_utf8 l = true) lines ->
  RenderedContent_lines (RenderedContent_from_lines lines) = Done (flat_map segments_of lines).
Proof.
  intros Hv. apply represents_lines; [apply from_lines_represents|].
  induction Hv; simpl; [constructor|]. apply Forall_app. split; [by apply segments_clean|done].
Qed.

(** Content whose lines can be read: built by [from_lines] from valid text. *)
Definition rendered_wf (rc : RenderedContent) : Prop :=
  exists lines, Forall (fun l => valid_utf8 l = true) lines /\ rc = RenderedContent_from_lines lines.

Lemma rendered_wf_lines rc : rendered_wf rc -> exists ls, RenderedContent_lines rc = Done ls.
Proof. intros (lines & Hv & ->). eexists. by apply from_lines_lines. Qed.

Lemma lines_from_length b start ends ls :
  lines_from b start ends = Done ls -> length ls = length ends.
Proof.
  revert start ls. induction ends as [|e r IH]; intros start ls; simpl; [by intros [= <-]|].
  destruct (slice _ _ _); simpl; [|done].
  destruct (lines_from b e r) eqn:E; simpl; [|done]. intros [= <-]. simpl. f_equal. eauto.
Qed.

(** Random access agrees with iteration, and both agree on when they panic. *)
Lemma lines_from_lookup b start ends ls i e :
  lines_from b start ends = Done ls -> ends !! i = Some e ->
  exists st l, (match i with O => Some start | S j => ends !! j end) = Some st /\
    slice b st (e - 1) = Done l /\ ls !! i = Some l.
Proof.
  revert start ls i. induction ends as [|x r IH]; intros start ls i; simpl; [done|].
  destruct (slice _ _ _) as [l|] eqn:El; simpl; [|done].
  destruct (lines_from b x r) as [ls'|] eqn:E; simpl; [|done]. intros Hls Hi.
  injection Hls as <-.
  destruct i as [|i]; simpl in *.
  - injection Hi as ->. exists start, l. done.
  - destruct (IH x ls' i E Hi) as (st & l' & H1 & H2 & H3).
    exists st, l'. split; [|done]. destruct i; done.
Qed.

(** ** Grep and paging *)

Section PagingFacts.

Context {regex : Type} (is_match : regex -> string -> bool).
Implicit Types (g : option (GrepPattern (regex:=regex))).

Lemma grep_paginate_lines rc g offset limit ls :
  RenderedContent_lines rc = Done ls ->
  grep_paginate is_match rc g offset limit =
  let matched := matched_lines is_match g ls in
  let start := Nat.min offset (length matched) in
  let e := Nat.min (start + limit) (length matched) in
  Done (mkGrepPage (take (e - start) (drop start matched)) (length matched)
          (e <? length matched)%nat e).
Proof.
  intros Hl. unfold grep_paginate. rewrite Hl. simpl.
  rewrite vec_slice_ok by lia. done.
Qed.

Lemma elem_of_matched_lines g ls l :
  l ∈ matched_lines is_match g ls <->
  (1 <= original_line_number l)%nat /\
  ls !! (original_line_number l - 1)%nat = Some (text l) /\
  line_passes is_match g (text l) = true.
Proof.
  unfold matched_lines. rewrite list_elem_of_fmap. split.
  - intros ([i t] & -> & H). apply list_elem_of_filter in H as [Hp Hin].
    apply elem_of_enumerate_from in Hin as [_ Hin]. simpl in *.
    replace (i + 1 - 1)%nat with i by lia. rewrite Nat.sub_0_r in Hin.
    split; [lia|done].
  - destruct l as [n t]; simpl. intros (H1 & H2 & H3). exists ((n - 1)%nat, t).
    split; [f_equal; lia|]. apply list_elem_of_filter. split; [done|].
    apply elem_of_enumerate_from. rewrite Nat.sub_0_r. split; [lia|done].
Qed.

(** A client that follows [next_offset] while [has_more] holds. *)
Fixpoint read_pages (fuel : nat) (rc : RenderedContent) g (offset limit : nat)
    : outcome (list LineWithPosition) :=
  match fuel with
  | O => Panic
  | S f =>
      let! page := grep_paginate is_match rc g offset limit in
      if has_more page then
        let! rest := read_pages f rc g (next_offset page) limit in
        Done (page_lines page ++ rest)
      else Done (page_lines page)
  end.

Lemma read_pages_from rc g ls limit fuel offset :
  RenderedContent_lines rc = Done ls -> (1 <= limit)%nat ->
  (offset <= length (matched_lines is_match g ls))%nat ->
  (length (matched_lines is_match g ls) - offset < fuel)%nat ->
  read_pages fuel rc g offset limit = Done (drop offset (matched_lines is_match g ls)).
Proof.
  intros Hl Hlim. revert offset. induction fuel as [|f IH]; intros offset Ho Hf; [lia|].
  simpl. rewrite (grep_paginate_lines _ _ _ _ _ Hl). simpl.
  set (m := matched_lines is_match g ls) in *.
  rewrite (Nat.min_l offset) by lia.
  destruct (Nat.ltb_spec (Nat.min (offset + limit) (length m)) (length m)) as [Hlt|Hge].
  - rewrite IH by lia. simpl. f_equal. rewrite Nat.min_l by lia.
    replace (offset + limit - offset)%nat with limit by lia.
    rewrite <-drop_drop. apply take_drop.
  - f_equal. apply take_ge. rewrite length_drop. lia.
Qed.

End PagingFacts.

(** ** Line numbering *)

Lemma count_digits_dec fuel n acc :
  (n < 2 ^ N.of_nat fuel)%N -> (0 < n)%N ->
  String.length (dec_go fuel n acc) = (count_digits fuel n + String.length acc)%nat.
Proof.
  revert n acc. induction fuel as [|f IH]; intros n acc Hn Hpos.
  { change (2 ^ N.of_nat 0)%N with 1%N in Hn. lia. }
  simpl. destruct (N.eqb_spec n 0) as [|_]; [lia|].
  destruct (N.eqb_spec (n / 10) 0) as [H0|H0].
  - rewrite H0. simpl. destruct f; simpl; lia.
  - rewrite IH; [simpl; lia| |by apply N.neq_0_lt_0].
    apply N.Div0.div_lt_upper_bound. rewrite Nat2N.inj_succ, N.pow_succ_r' in Hn. lia.
Qed.

Lemma line_number_width_spec n :
  (1 <= n)%nat -> line_number_width n = Nat.max (String.length (show_nat n)) MIN_WIDTH.
Proof.
  intros Hn. unfold line_number_width, show_nat, dec. rewrite (Nat.max_l n 1) by lia.
  rewrite count_digits_dec; [simpl; lia|apply dec_fuel_enough|lia].
Qed.

Lemma count_digits_mono f f' a b :
  (a <= b)%N -> (b < 2 ^ N.of_nat f')%N -> (count_digits f a <= count_digits f' b)%nat.
Proof.
  revert f' a b. induction f as [|f IH]; intros f' a b Hab Hb; simpl; [lia|].
  destruct (N.eqb_spec a 0) as [|Ha]; [lia|].
  destruct f' as [|f']; [change (2 ^ N.of_nat 0)%N with 1%N in Hb; lia|]. simpl.
  destruct (N.eqb_spec b 0) as [|Hb0]; [lia|].
  apply le_n_S, IH; [by apply N.Div0.div_le_mono|].
  apply N.Div0.div_lt_upper_bound. rewrite Nat2N.inj_succ, N.pow_succ_r' in Hb. lia.
Qed.

Lemma max_line_number_ge lines l :
  l ∈ lines -> (original_line_number l <= max_line_number lines)%nat.
Proof.
  assert (H : forall ls, l ∈ ls ->
    (original_line_number l <= foldr Nat.max 0 (original_line_number <$> ls))%nat).
  { induction ls as [|y s IH]; [by rewrite elem_of_nil|].
    rewrite elem_of_cons. intros [->|H]; csimpl; [lia|]. specialize (IH H). lia. }
  destruct lines as [|x r]; [by rewrite elem_of_nil|]. apply (H (x :: r)).
Qed.

Lemma show_nat_length n :
  (1 <= n)%nat ->
  String.length (show_nat n) =
  count_digits (S (N.to_nat (N.log2 (N.of_nat n)))) (N.of_nat n).
Proof.
  intros. unfold show_nat, dec. rewrite count_digits_dec; [apply Nat.add_0_r|apply dec_fuel_enough|lia].
Qed.

Lemma str_repeat_length n : String.length (str_repeat " " n) = n.
Proof. induction n; simpl; [done|]. by f_equal. Qed.

(** ** Properties *)

(** Every archive ref printed by [Display] is read back by [parse], flat
    ([@N], prefix 1) and composite ([@p/k]) alike, also through
    [parse_loose]; and the map key of a ref determines it. *)
Theorem shortref_display_parse (r : ShortRef) :
  ShortRef_wf r ->
  ShortRef_parse (ShortRef_display r) = Some r /\
  ShortRef_parse_loose (ShortRef_display r) = Some r /\
  (forall r', ShortRef_wf r' -> ShortRef_cell_key r' = ShortRef_cell_key r -> r' = r).
Proof.
  intros Hwf. destruct r as [p l]. destruct Hwf as [Hp Hl]; simpl in *.
  assert (Hparse : ShortRef_parse (ShortRef_display (mkShortRef p l)) = Some (mkShortRef p l)).
  { unfold ShortRef_display; simpl. destruct (Z.eqb_spec p 1) as [->|_].
    - by apply ShortRef_parse_flat.
    - by apply ShortRef_parse_composite. }
  split; [done|]. split; [|intros r' Hr' Heq; apply cell_key_inj; done].
  unfold ShortRef_parse_loose.
  assert (trim (ShortRef_display (mkShortRef p l)) = ShortRef_display (mkShortRef p l)) as ->.
  { apply trim_graphic. unfold ShortRef_display; simpl. destruct Hp, Hl.
    case_match; rewrite !all_bytes_app, ?show_Z_graphic by done; done. }
  by rewrite Hparse.
Qed.

Lemma shortref_display_parse_witness :
  ShortRef_parse "@3/17" = Some (mkShortRef 3 17) /\ ShortRef_wf (mkShortRef 3 17).
Proof.
  assert (H : ShortRef_wf (mkShortRef 3 17)) by (split; unfold is_u32, u32_max; simpl; lia).
  split; [exact (proj1 (shortref_display_parse (mkShortRef 3 17) H))|exact H].
Defined.

(** Content built from valid UTF-8 lines is read back exactly: no slice
    of [lines()] or [get_line] panics, iteration yields the stored segments in
    order, [get_line i] is the [i]-th of them and [line_count] their number. *)
Theorem rendered_content_reads_back (lines : list string) :
  Forall (fun l => valid_utf8 l = true) lines ->
  let rc := RenderedContent_from_lines lines in
  let segs := flat_map segments_of lines in
  RenderedContent_lines rc = Done segs /\
  RenderedContent_line_count rc = length segs /\
  (forall i, RenderedContent_get_line rc i = Done (segs !! i)).
Proof.
  intros Hv rc segs. pose proof (from_lines_lines lines Hv) as Hl.
  fold rc segs in Hl.
  assert (Hlen : length segs = length (line_ends rc)) by by eapply lines_from_length.
  split; [done|]. split; [done|]. intros i.
  unfold RenderedContent_get_line. destruct (Nat.leb_spec (length (line_ends rc)) i) as [Hge|Hlt].
  - f_equal. symmetry. apply lookup_ge_None. lia.
  - destruct (line_ends rc !! i) as [e|] eqn:He; [|apply lookup_ge_None in He; lia].
    destruct (lines_from_lookup _ _ _ _ _ _ Hl He) as (st & l & Hst & Hs & Hi).
    rewrite Hst, Hs, Hi. done.
Qed.

Lemma rendered_content_reads_back_witness :
  RenderedContent_get_line (RenderedContent_from_lines ["a"; ""; "é"]) 2 = Done (Some "é").
Proof.
  exact (proj2 (proj2 (rendered_content_reads_back ["a"; ""; "é"]
    ltac:(repeat constructor))) 2%nat).
Defined.

(** Paging is complete: a reader that starts at offset 0 and follows
    [next_offset] while [has_more] holds receives every matching line exactly
    once, in order, with its original line number, for any limit of at least
    one line; every page respects the limit. *)
Theorem paging_is_complete {regex} (is_match : regex -> string -> bool)
    (rc : RenderedContent) (g : option GrepPattern) (ls : list string) (limit : nat) :
  RenderedContent_lines rc = Done ls -> (1 <= limit)%nat ->
  read_pages is_match (S (length ls)) rc g 0 limit = Done (matched_lines is_match g ls) /\
  (forall offset, exists page,
     grep_paginate is_match rc g offset limit = Done page /\
     (length (page_lines page) <= limit)%nat /\
     (forall l, l ∈ page_lines page ->
        ls !! (original_line_number l - 1)%nat = Some (text l) /\
        line_passes is_match g (text l) = true)).
Proof.
  intros Hl Hlim. split.
  - rewrite (read_pages_from is_match rc g ls) by (try done; try lia;
      unfold matched_lines; rewrite length_fmap;
      pose proof (length_filter (fun p : nat * string => line_passes is_match g p.2 = true)
        (enumerate_from 0 ls)); rewrite enumerate_from_length in *; lia).
    done.
  - intros offset. eexists. rewrite (grep_paginate_lines is_match rc g offset limit ls Hl).
    split; [done|]. cbn zeta; simpl. split; [rewrite length_take; lia|].
    intros l Hin. apply elem_of_take in Hin as (i & Hi & _).
    rewrite lookup_drop in Hi. apply list_elem_of_lookup_2 in Hi.
    by apply elem_of_matched_lines in Hi as (_ & ? & ?).
Qed.

Lemma paging_is_complete_witness :
  read_pages (fun (_ : unit) (_ : string) => true) 4
    (RenderedContent_from_lines ["x"; "y"; "z"]) None 0 2 =
  Done [mkLine 1 "x"; mkLine 2 "y"; mkLine 3 "z"].
Proof.
  exact (proj1 (paging_is_complete (fun (_ : unit) (_ : string) => true)
    (RenderedContent_from_lines ["x"; "y"; "z"]) None ["x"; "y"; "z"] 2
    eq_refl ltac:(lia))).
Defined.

(** A parsed grep pattern means what its flags say: with [E] it is the
    compiled regular expression (prefixed by [(?i)] under [i]), otherwise a
    substring test, both sides folded under [i]; the pattern text is never
    empty. *)
Theorem grep_pattern_meaning {regex} (Regex_new : string -> result regex string)
    (is_match : regex -> string -> bool) (input : string) (g : GrepPattern) :
  GrepPattern_parse Regex_new input = Ok g ->
  is_empty_str (gp_pattern g) = false /\
  forall h, match mode g with
  | Regex => exists re,
      Regex_new (if case_insensitive g then "(?i)" +:+ gp_pattern g else gp_pattern g) = Ok re /\
      GrepPattern_matches is_match g h = is_match re h
  | Fixed => GrepPattern_matches is_match g h =
      if case_insensitive g then contains_str (to_lowercase (gp_pattern g)) (to_lowercase h)
      else contains_str (gp_pattern g) h
  end.
Proof.
  unfold GrepPattern_parse. destruct (is_empty_str (trim input)) eqn:Ene; [done|].
  destruct (split_flags (trim input)) as [[flags pat]|e] eqn:Es; simpl; [|done].
  assert (Hpat : is_empty_str pat = false).
  { unfold split_flags in Es. repeat case_match; simplify_eq/=; congruence. }
  destruct (contains_char "E" flags).
  - destruct (Regex_new _) as [re|e] eqn:Er; simpl; [|done]. intros [= <-]. simpl.
    split; [done|]. intros h. exists re. done.
  - simpl. intros [= <-]. simpl. split; [done|]. intros h.
    unfold GrepPattern_matches. simpl. destruct (contains_char "i" flags); done.
Qed.

Lemma grep_pattern_meaning_witness :
  exists g, GrepPattern_parse (fun _ => Err "no regex" : result unit string) "-i Deploy" = Ok g /\
    GrepPattern_matches (fun _ _ => false) g "DEPLOY v2" = true.
Proof.
  eexists. split; [reflexivity|].
  etransitivity; [exact (proj2 (grep_pattern_meaning (fun _ => Err "no regex")
    (fun (_ : unit) _ => false) "-i Deploy" _ eq_refl) "DEPLOY v2")|].
  reflexivity.
Defined.

(** the number column of [format_cat_n] is aligned: every number of the
    block is padded to one common width of at least six, and no number is
    wider than it. *)
Theorem cat_n_column_aligned (lines : list LineWithPosition) (l : LineWithPosition) :
  l ∈ lines -> (1 <= original_line_number l)%nat ->
  let width := line_number_width (max_line_number lines) in
  String.length (pad_left width (show_nat (original_line_number l))) = width /\
  (MIN_WIDTH <= width)%nat.
Proof.
  intros Hin Hl width. pose proof (max_line_number_ge _ _ Hin) as Hle.
  assert (Hw : width = Nat.max (String.length (show_nat (max_line_number lines))) MIN_WIDTH)
    by (apply line_number_width_spec; lia).
  assert (String.length (show_nat (original_line_number l)) <= width)%nat.
  { rewrite Hw, !show_nat_length by lia.
    pose proof (count_digits_mono (S (N.to_nat (N.log2 (N.of_nat (original_line_number l)))))
      (S (N.to_nat (N.log2 (N.of_nat (max_line_number lines)))))
      (N.of_nat (original_line_number l)) (N.of_nat (max_line_number lines))
      ltac:(lia) (dec_fuel_enough _)). lia. }
  unfold pad_left. rewrite str_app_length, str_repeat_length. split; [lia|].
  rewrite Hw. lia.
Qed.

Lemma cat_n_column_aligned_witness :
  let lines := [mkLine 9 "a"; mkLine 1200 "b"] in
  String.length (pad_left (line_number_width (max_line_number lines)) (show_nat 9)) = 6%nat.
Proof.
  exact (proj1 (cat_n_column_aligned [mkLine 9 "a"; mkLine 1200 "b"] (mkLine 9 "a")
    ltac:(apply list_elem_of_here) ltac:(simpl; lia))).
Defined.
