(* ===== verification/RefTable.v ===== *)
(** * Ref tables: the [#N] / [@N] namespaces of one conversation context

    Models [baml-rt-tools/src/archive_refs.rs] (the [RefTable], its shared
    counter, the idempotent history refs, the replay inserts and the
    per-context tables), [archive_read/virtual_source.rs],
    [archive_read/read_resolve.rs] and the ref-table part of
    [session_read_body.rs].  A [DashMap] is a [gmap]; one operation runs at a
    time here, the interleaved runs of [insert_history] are in
    [HistoryRace]. *)

From stdpp Require Import base gmap sets list strings option sorting.
From Stdlib Require Import ZArith Lia Ascii.
From S2P Require Import Prelude RustStr ArchiveRead.

(** ** Entries *)

Record ArchiveEntry := mkArchiveEntry {
  content : RenderedContent;
  tool_name : string;
  summary : option string;
  action_identity : option string;
  line_count : nat;
  byte_count : nat;
  ae_activity_anchor : string;
  ae_source : string;
  send_signature : option string;
}.

(** [filter(|s| !s.trim().is_empty())] *)
Definition non_blank (o : option string) : option string :=
  opt_filter (fun s => negb (is_empty_str (trim s))) o.

Definition ArchiveEntry_new (c : RenderedContent) (tool : string) (summ : option string)
    (anchor source : string) : ArchiveEntry :=
  mkArchiveEntry c tool (non_blank summ) None
    (RenderedContent_line_count c) (RenderedContent_byte_count c) anchor source None.

Definition with_send_signature (e : ArchiveEntry) (sig : option string) : ArchiveEntry :=
  mkArchiveEntry (content e) (tool_name e) (summary e) (action_identity e)
    (line_count e) (byte_count e) (ae_activity_anchor e) (ae_source e) (non_blank sig).

Definition with_action_identity (e : ArchiveEntry) (ident : option string) : ArchiveEntry :=
  mkArchiveEntry (content e) (tool_name e) (summary e) (non_blank ident)
    (line_count e) (byte_count e) (ae_activity_anchor e) (ae_source e) (send_signature e).

(** [byte_count as f64 / 1024.0] printed with one decimal: the quotient is
    exact in binary, so the text is the nearest tenth, ties to even. *)
Definition kb_tenths (bytes : N) : N :=
  let q := (bytes * 10 / 1024)%N in
  let r := (bytes * 10 mod 1024)%N in
  if (512 <? r)%N || ((r =? 512)%N && N.odd q) then (q + 1)%N else q.

Definition size_str (bytes : nat) : string :=
  if (N.of_nat bytes <? 1024)%N then show_nat bytes +:+ "B"
  else let t := kb_tenths (N.of_nat bytes) in
       dec (t / 10) +:+ "." +:+ dec (t mod 10) +:+ "KB".

Definition display_header_parts (r : ShortRef) (tool : string) (action summ : option string)
    (lines bytes : nat) : string :=
  let tail := " · " +:+ show_nat lines +:+ "L · " +:+ size_str bytes in
  match action with
  | Some a => ShortRef_display r +:+ " · " +:+ tool +:+ ":" +:+ a +:+ tail
  | None =>
      match summ with
      | Some s => ShortRef_display r +:+ " · " +:+ String "034" EmptyString +:+ s
                    +:+ String "034" EmptyString +:+ tail
      | None => ShortRef_display r +:+ " · " +:+ tool +:+ tail
      end
  end.

Definition ArchiveEntry_display_header (e : ArchiveEntry) (r : ShortRef) : string :=
  display_header_parts r (tool_name e) (action_identity e) (summary e) (line_count e) (byte_count e).

Record HistoryEntry := mkHistoryEntry { activity_anchor : string; source : string }.

#[global] Instance HistoryEntry_eq_dec : EqDecision HistoryEntry.
Proof. solve_decision. Defined.

(** ** The table *)

Record RefTable := mkRefTable {
  next : Z;
  entries : gmap Z ArchiveEntry;
  history : gmap Z HistoryEntry;
  history_stable_key_to_n : gmap string Z;
  history_text_by_activity : gmap string string;
}.

Definition history_stable_key_parts (anchor source : string) : string :=
  anchor +:+ String "000" source.

Definition history_stable_key (e : HistoryEntry) : string :=
  history_stable_key_parts (activity_anchor e) (source e).

Definition RefTable_new : RefTable := mkRefTable 1 ∅ ∅ ∅ ∅.

Definition set_next (t : RefTable) (n : Z) : RefTable :=
  mkRefTable n (entries t) (history t) (history_stable_key_to_n t) (history_text_by_activity t).
Definition set_entries (t : RefTable) (m : gmap Z ArchiveEntry) : RefTable :=
  mkRefTable (next t) m (history t) (history_stable_key_to_n t) (history_text_by_activity t).
Definition set_history (t : RefTable) (m : gmap Z HistoryEntry) : RefTable :=
  mkRefTable (next t) (entries t) m (history_stable_key_to_n t) (history_text_by_activity t).
Definition set_stable (t : RefTable) (m : gmap string Z) : RefTable :=
  mkRefTable (next t) (entries t) (history t) m (history_text_by_activity t).
Definition set_texts (t : RefTable) (m : gmap string string) : RefTable :=
  mkRefTable (next t) (entries t) (history t) (history_stable_key_to_n t) m.

(** [self.next.fetch_add(1)] on an [AtomicU32]: wraps around. *)
Definition fetch_add_next (t : RefTable) : Z * RefTable :=
  (next t, set_next t (wrap32 (next t + 1))).

(** [self.next.fetch_max(n.saturating_add(1))] *)
Definition fetch_max_next (t : RefTable) (n : Z) : RefTable :=
  set_next t (Z.max (next t) (sat_add u32_max n 1)).

Definition RefTable_insert (t : RefTable) (e : ArchiveEntry) : RefTable * ShortRef :=
  let (n, t1) := fetch_add_next t in
  let r := ShortRef_new n in
  (set_entries t1 (<[ShortRef_cell_key r := e]> (entries t1)), r).

Definition RefTable_insert_at (t : RefTable) (r : ShortRef) (e : ArchiveEntry) : RefTable :=
  set_entries t (<[ShortRef_cell_key r := e]> (entries t)).

Definition RefTable_insert_history (t : RefTable) (e : HistoryEntry) (c : string) : RefTable * Z :=
  let key := history_stable_key_parts (activity_anchor e) (source e) in
  match history_stable_key_to_n t !! key with
  | Some n =>
      let t1 := set_texts t (<[activity_anchor e := c]> (history_text_by_activity t)) in
      let t2 := match history t1 !! n with
                | None => set_history t1 (<[n := e]> (history t1))
                | Some _ => t1
                end in
      (t2, n)
  | None =>
      let (n, t1) := fetch_add_next t in
      let t2 := set_stable t1 (<[key := n]> (history_stable_key_to_n t1)) in
      let t3 := set_texts t2 (<[activity_anchor e := c]> (history_text_by_activity t2)) in
      (set_history t3 (<[n := e]> (history t3)), n)
  end.

Definition history_text_for_activity (t : RefTable) (anchor : string) : option string :=
  history_text_by_activity t !! anchor.

Definition RefTable_get (t : RefTable) (r : ShortRef) : option ArchiveEntry :=
  entries t !! ShortRef_cell_key r.

Definition RefTable_get_history (t : RefTable) (n : Z) : option HistoryEntry := history t !! n.

(** The key back as a ref: [(key >> 32) as u32] and [key as u32]. *)
Definition ref_of_key (key : Z) : ShortRef := mkShortRef (key_prefix key) (key_local key).

(** Lexicographic order on [(prefix, local)], the sort key of the snapshots. *)
Definition ref_le (a b : ShortRef) : Prop :=
  (prefix a < prefix b \/ prefix a = prefix b /\ local a <= local b)%Z.

#[global] Instance ref_le_dec : RelDecision ref_le.
Proof. unfold ref_le. intros a b. apply _. Defined.

Definition row_le (a b : ShortRef * string) : Prop := ref_le a.1 b.1.

#[global] Instance row_le_dec : RelDecision row_le.
Proof. unfold row_le. intros a b. apply _. Defined.

Definition archive_headers_snapshot (t : RefTable) : list (ShortRef * string) :=
  merge_sort row_le
    ((fun '(k, e) => let r := ref_of_key k in (r, ArchiveEntry_display_header e r))
       <$> map_to_list (entries t)).

Definition find_by_send_signature (t : RefTable) (signature : string) : option (ShortRef * string) :=
  head (merge_sort row_le
    (omap (fun '(k, e) =>
       if bool_decide (send_signature e = Some signature)
       then let r := ref_of_key k in Some (r, ArchiveEntry_display_header e r)
       else None) (map_to_list (entries t)))).

Definition insert_virtual_archive (t : RefTable) (n : Z) (e : ArchiveEntry) : RefTable :=
  fetch_max_next
    (set_entries t (<[ShortRef_cell_key (ShortRef_new n) := e]> (entries t))) n.

Definition insert_virtual_archive_ref (t : RefTable) (r : ShortRef) (e : ArchiveEntry) : RefTable :=
  let t1 := set_entries t (<[ShortRef_cell_key r := e]> (entries t)) in
  if (prefix r =? 1)%Z then fetch_max_next t1 (local r) else t1.

(** The [assert_eq!] on an already mapped key panics. *)
Definition insert_virtual_history (t : RefTable) (n : Z) (e : HistoryEntry) (c : string)
    : outcome RefTable :=
  let key := history_stable_key_parts (activity_anchor e) (source e) in
  let finish (t1 : RefTable) :=
    let t2 := set_texts t1 (<[activity_anchor e := c]> (history_text_by_activity t1)) in
    let t3 := set_history t2 (<[n := e]> (history t2)) in
    Done (fetch_max_next t3 n) in
  match history_stable_key_to_n t !! key with
  | Some existing => if (existing =? n)%Z then finish t else Panic
  | None => finish (set_stable t (<[key := n]> (history_stable_key_to_n t)))
  end.

(** ** Per-context tables *)

(** The map holds an [Arc] per context; the tables themselves live in a heap
    of shared cells, so that every holder of the [Arc] sees every insert. *)
Record ContextRefTables := mkTables {
  ctx_cell : gmap string nat;
  heap : gmap nat RefTable;
  next_cell : nat;
}.

Definition get_ref_table (ts : ContextRefTables) (ctx : string) : option RefTable :=
  c ← ctx_cell ts !! ctx; heap ts !! c.

Definition get_or_create_ref_table (ts : ContextRefTables) (ctx : string)
    : ContextRefTables * nat :=
  match ctx_cell ts !! ctx with
  | Some c => (ts, c)
  | None =>
      let c := next_cell ts in
      (mkTables (<[ctx := c]> (ctx_cell ts)) (<[c := RefTable_new]> (heap ts)) (S c), c)
  end.

Definition invalidate_ref_table (ts : ContextRefTables) (ctx : string) : ContextRefTables :=
  mkTables (delete ctx (ctx_cell ts)) (heap ts) (next_cell ts).

(** ** [virtual_source.rs] and [read_resolve.rs] *)

Record VirtualHistoryRow := mkVHRow { vh_anchor : string; vh_source : string; vh_text : string }.

Record VirtualArchiveRow := mkVARow {
  va_anchor : string; va_tool : string; va_summary : option string;
  va_action : option string; va_content : RenderedContent;
}.

Definition VirtualArchiveRow_display_header (v : VirtualArchiveRow) (r : ShortRef) : string :=
  display_header_parts r (va_tool v) (va_action v) (va_summary v)
    (RenderedContent_line_count (va_content v)) (RenderedContent_byte_count (va_content v)).

(** The trait [VirtualArchiveSource]. *)
Class VirtualArchiveSource (S : Type) := {
  history_row : S -> Z -> option VirtualHistoryRow;
  archive_row : S -> ShortRef -> option VirtualArchiveRow;
}.

Definition RefTable_history_row (t : RefTable) (n : Z) : option VirtualHistoryRow :=
  e ← RefTable_get_history t n;
  txt ← history_text_for_activity t (activity_anchor e);
  Some (mkVHRow (activity_anchor e) (source e) txt).

Definition RefTable_archive_row (t : RefTable) (r : ShortRef) : option VirtualArchiveRow :=
  e ← RefTable_get t r;
  Some (mkVARow (ae_activity_anchor e) (tool_name e) (summary e) (action_identity e) (content e)).

#[global] Instance RefTable_virtual : VirtualArchiveSource RefTable := {|
  history_row := RefTable_history_row;
  archive_row := RefTable_archive_row;
|}.

Record ResolvedArchiveRead := mkResolved { ra_content : RenderedContent; header : string }.

Definition resolve_archive_for_read {S} `{VirtualArchiveSource S}
    (tables : option ContextRefTables) (context_id : string) (r : ShortRef)
    (virtual_fallback : option S) : option ResolvedArchiveRead :=
  let live := ts ← tables; t ← get_ref_table ts context_id; RefTable_get t r in
  match live with
  | Some e => Some (mkResolved (content e) (ArchiveEntry_display_header e r))
  | None =>
      v ← virtual_fallback;
      row ← archive_row v r;
      Some (mkResolved (va_content row) (VirtualArchiveRow_display_header row r))
  end.

(** [format_session_read_from_vtable]: [None] for a ref that does not parse or
    does not resolve. *)
Definition format_session_read_from_vtable {regex} (Regex_new : string -> result regex string)
    (is_match : regex -> string -> bool) (vtable : RefTable) (archive_ref_str : string)
    (grep_str : option string) (offset limit : nat) : outcome (option string) :=
  match (r ← ShortRef_parse_loose archive_ref_str; RefTable_get vtable r) with
  | None => Done None
  | Some e =>
      let! body := format_session_read_body_from_rendered Regex_new is_match
                     (content e) archive_ref_str grep_str offset (PageLimit_new limit) in
      Done (Some body)
  end.

(** ** Invariant of a table *)

Record refs_inv (t : RefTable) : Prop := {
  inv_next : (1 <= next t <= u32_max)%Z;
  inv_entries : forall r, ShortRef_wf r -> prefix r = 1%Z ->
    is_Some (RefTable_get t r) -> (local r < next t)%Z;
  inv_history : forall n, is_Some (history t !! n) -> (1 <= n < next t)%Z;
  inv_stable : forall k n, history_stable_key_to_n t !! k = Some n ->
    exists e, history t !! n = Some e /\ history_stable_key e = k;
  inv_slot : forall n e, history t !! n = Some e ->
    history_stable_key_to_n t !! history_stable_key e = Some n;
  inv_text : forall n e, history t !! n = Some e ->
    is_Some (history_text_for_activity t (activity_anchor e));
}.

(** One operation on a table, with the archive cells that were filled through
    [insert_at], which leaves the counter alone.  Numbers stay below the last
    [u32] and the counter is not exhausted where it is used; a replayed history
    insert that fails its assertion is no step. *)
Inductive ref_step : RefTable * gset Z -> RefTable * gset Z -> Prop :=
| step_insert t ex e : (next t < u32_max)%Z -> ref_step (t, ex) ((RefTable_insert t e).1, ex)
| step_insert_at t ex r e : ShortRef_wf r -> ref_step (t, ex) (RefTable_insert_at t r e, {[ShortRef_cell_key r]} ∪ ex)
| step_insert_history t ex e c : (next t < u32_max)%Z -> ref_step (t, ex) ((RefTable_insert_history t e c).1, ex)
| step_virtual_archive t ex n e :
    (1 <= n < u32_max)%Z -> ref_step (t, ex) (insert_virtual_archive t n e, ex)
| step_virtual_archive_ref t ex r e :
    ShortRef_wf r -> (local r < u32_max)%Z -> ref_step (t, ex) (insert_virtual_archive_ref t r e, ex)
| step_virtual_history t ex n e c t' :
    (1 <= n < u32_max)%Z -> insert_virtual_history t n e c = Done t' -> ref_step (t, ex) (t', ex).

(** What every operation keeps: the numbers in use are below the counter, but for
    the cells filled through [insert_at]. *)
Record numbers_inv (t : RefTable) (ex : gset Z) : Prop := {
  num_next : (1 <= next t <= u32_max)%Z;
  num_entries : forall r, ShortRef_wf r -> prefix r = 1%Z ->
    is_Some (RefTable_get t r) -> (local r < next t)%Z \/ ShortRef_cell_key r ∈ ex;
  num_history : forall n, is_Some (history t !! n) -> (1 <= n < next t)%Z;
  num_stable : forall k n, history_stable_key_to_n t !! k = Some n -> (1 <= n < next t)%Z
}.

(** The operations of a table that is filled from a registry which gives every
    activity a number of its own: a replayed history slot is free or holds the
    same entry. *)
Inductive steady_step (t : RefTable) : RefTable -> Prop :=
| steady_insert e : (next t < u32_max)%Z -> steady_step t (RefTable_insert t e).1
| steady_insert_at r e : ShortRef_wf r -> prefix r <> 1%Z -> steady_step t (RefTable_insert_at t r e)
| steady_insert_history e c : (next t < u32_max)%Z -> steady_step t (RefTable_insert_history t e c).1
| steady_virtual_archive n e :
    (1 <= n < u32_max)%Z -> steady_step t (insert_virtual_archive t n e)
| steady_virtual_archive_ref r e :
    ShortRef_wf r -> (local r < u32_max)%Z -> steady_step t (insert_virtual_archive_ref t r e)
| steady_virtual_history n e c t' :
    (1 <= n < u32_max)%Z -> (history t !! n = None \/ history t !! n = Some e) ->
    insert_virtual_history t n e c = Done t' -> steady_step t t'.

Lemma refs_inv_new : refs_inv RefTable_new.
Proof.
  split; simpl; unfold RefTable_get; simpl; intros; rewrite ?lookup_empty in *; try done;
    match goal with H : is_Some None |- _ => by apply is_Some_None in H end.
Qed.

(** Inserting one archive entry and raising the counter keeps the invariant,
    when the counter ends above the inserted flat ref. *)
Lemma refs_inv_archive t r e n :
  refs_inv t -> ShortRef_wf r -> (prefix r = 1%Z -> (local r < n)%Z) ->
  (next t <= n <= u32_max)%Z ->
  refs_inv (set_next (set_entries t (<[ShortRef_cell_key r := e]> (entries t))) n).
Proof.
  intros [Hn He Hh Hs Hsl Ht] Hr Hp Hle. split; simpl; try done.
  - lia.
  - intros r' Hr' Hp' Hin. unfold RefTable_get in Hin. simpl in Hin.
    destruct (decide (ShortRef_cell_key r = ShortRef_cell_key r')) as [Heq|Hne].
    + apply cell_key_inj in Heq; [subst r'|done|done]. auto.
    + rewrite lookup_insert_ne in Hin by done.
      specialize (He r' Hr' Hp' Hin). lia.
  - intros k Hk. specialize (Hh k Hk). lia.
Qed.

(** Registering a history entry at a slot that is free (or already its own)
    keeps the invariant. *)
Lemma refs_inv_history t n e c m :
  refs_inv t -> (1 <= n < m)%Z -> (next t <= m <= u32_max)%Z ->
  (history t !! n = None \/ history t !! n = Some e) ->
  (history_stable_key_to_n t !! history_stable_key e = None \/
   history_stable_key_to_n t !! history_stable_key e = Some n) ->
  refs_inv (mkRefTable m (entries t) (<[n := e]> (history t))
    (<[history_stable_key e := n]> (history_stable_key_to_n t))
    (<[activity_anchor e := c]> (history_text_by_activity t))).
Proof.
  intros [Hn He Hh Hs Hsl Ht] Hnm Hle Hslot Hkey. split; simpl.
  - lia.
  - intros r Hr Hp Hin. specialize (He r Hr Hp Hin). lia.
  - intros k. rewrite lookup_insert_is_Some. intros [<-|[Hne Hk]]; [lia|].
    specialize (Hh k Hk). lia.
  - intros k p. rewrite lookup_insert_Some. intros [[<- <-]|[Hne Hk]].
    + exists e. by rewrite lookup_insert_eq.
    + destruct (Hs k p Hk) as (e' & He' & Hke'). exists e'. split; [|done].
      destruct (decide (n = p)) as [<-|Hnp]; [|by rewrite lookup_insert_ne].
      exfalso. destruct Hslot as [Hslot|Hslot]; congruence.
  - intros p e'. rewrite lookup_insert_Some. intros [[<- <-]|[Hne Hp]].
    + by rewrite lookup_insert_eq.
    + specialize (Hsl p e' Hp).
      rewrite lookup_insert_ne; [done|]. intros Heq. rewrite <-Heq in Hsl.
      destruct Hkey as [Hkey|Hkey]; congruence.
  - unfold history_text_for_activity. simpl.
    intros p e'. rewrite lookup_insert_Some, lookup_insert_is_Some.
    intros [[<- <-]|[Hne Hp]]; [by left|].
    destruct (decide (activity_anchor e = activity_anchor e')) as [Heq|Hne']; [by left|].
    right. split; [done|]. by apply (Ht p).
Qed.

Lemma wrap32_succ t :
  refs_inv t -> (next t < u32_max)%Z -> wrap32 (next t + 1) = (next t + 1)%Z.
Proof. intros [H _ _ _ _ _] Hlt. apply wrap32_small. unfold is_u32. lia. Qed.

Lemma sat_add_succ n : (0 <= n < u32_max)%Z -> sat_add u32_max n 1 = (n + 1)%Z.
Proof. unfold sat_add. lia. Qed.

Lemma set_next_id t : set_next t (next t) = t.
Proof. by destruct t. Qed.

(** On a registered key, [insert_history] only refreshes the text. *)
Lemma insert_history_existing t e c n :
  refs_inv t -> history_stable_key_to_n t !! history_stable_key e = Some n ->
  RefTable_insert_history t e c =
  (set_texts t (<[activity_anchor e := c]> (history_text_by_activity t)), n).
Proof.
  intros Hinv Hk. unfold RefTable_insert_history.
  change (history_stable_key_parts _ _) with (history_stable_key e). rewrite Hk.
  destruct (inv_stable _ Hinv _ _ Hk) as (e' & He' & _). simpl. by rewrite He'.
Qed.

Lemma insert_history_fresh t e c :
  history_stable_key_to_n t !! history_stable_key e = None ->
  RefTable_insert_history t e c =
  (mkRefTable (wrap32 (next t + 1)) (entries t) (<[next t := e]> (history t))
     (<[history_stable_key e := next t]> (history_stable_key_to_n t))
     (<[activity_anchor e := c]> (history_text_by_activity t)), next t).
Proof.
  intros Hk. unfold RefTable_insert_history.
  change (history_stable_key_parts _ _) with (history_stable_key e). by rewrite Hk.
Qed.

Lemma history_next_free t : refs_inv t -> history t !! next t = None.
Proof.
  intros Hinv. destruct (history t !! next t) eqn:E; [|done].
  pose proof (inv_history _ Hinv (next t) ltac:(eauto)). lia.
Qed.

Lemma refs_inv_texts t anchor c :
  refs_inv t -> refs_inv (set_texts t (<[anchor := c]> (history_text_by_activity t))).
Proof.
  intros [Hn He Hh Hs Hsl Ht]. split; simpl; try done.
  unfold history_text_for_activity; simpl. intros n e Hne.
  rewrite lookup_insert_is_Some. destruct (decide (anchor = activity_anchor e)); [by left|].
  right. split; [done|]. by apply (Ht n).
Qed.

Lemma steady_step_inv t t' : refs_inv t -> steady_step t t' -> refs_inv t'.
Proof.
  intros Hinv Hst. pose proof (inv_next _ Hinv) as Hn.
  destruct Hst as [e Hlt|r e Hwf Hp|e c Hlt|n e Hr|r e Hwf Hl|n e c t' Hr Hslot Hv].
  - unfold RefTable_insert, fetch_add_next. simpl. rewrite wrap32_succ by done.
    apply (refs_inv_archive t (ShortRef_new (next t))); simpl; try lia; try done.
    split; unfold is_u32; simpl; unfold u32_max in *; lia.
  - unfold RefTable_insert_at. rewrite <-(set_next_id (set_entries _ _)). simpl.
    apply refs_inv_archive; simpl; [done|done|done|lia].
  - destruct (history_stable_key_to_n t !! history_stable_key e) as [n|] eqn:Ek.
    + rewrite (insert_history_existing _ _ _ n) by done. simpl. by apply refs_inv_texts.
    + rewrite insert_history_fresh by done. simpl. rewrite wrap32_succ by done.
      apply refs_inv_history; [done|lia|lia| |by left]. left. by apply history_next_free.
  - unfold insert_virtual_archive, fetch_max_next. simpl. rewrite sat_add_succ by lia.
    apply (refs_inv_archive t (ShortRef_new n)); simpl; try lia; try done.
    split; unfold is_u32; simpl; unfold u32_max in *; lia.
  - unfold insert_virtual_archive_ref. destruct (Z.eqb_spec (prefix r) 1) as [Hp|Hp].
    + unfold fetch_max_next. simpl. rewrite sat_add_succ by (destruct Hwf as [_ [? ?]]; lia).
      apply refs_inv_archive; simpl; try done; lia.
    + rewrite <-(set_next_id (set_entries _ _)). simpl.
      apply refs_inv_archive; simpl; [done|done|done|lia].
  - unfold insert_virtual_history in Hv.
    change (history_stable_key_parts _ _) with (history_stable_key e) in Hv.
    destruct (history_stable_key_to_n t !! history_stable_key e) as [m|] eqn:Ek.
    + destruct (Z.eqb_spec m n) as [->|]; [|done]. injection Hv as <-.
      unfold fetch_max_next, set_next, set_history, set_texts; simpl.
      rewrite sat_add_succ by lia. rewrite <-(insert_id (history_stable_key_to_n t) _ _ Ek) at 1.
      apply refs_inv_history; [done|lia|lia|done|by right].
    + injection Hv as <-.
      unfold fetch_max_next, set_next, set_history, set_texts, set_stable; simpl.
      rewrite sat_add_succ by lia. apply refs_inv_history; [done|lia|lia|done|by left].
Qed.

Lemma steady_inv t : rtc steady_step RefTable_new t -> refs_inv t.
Proof.
  intros H. remember RefTable_new as t0. assert (refs_inv t0) by (subst; apply refs_inv_new).
  clear Heqt0. induction H; eauto using steady_step_inv.
Qed.

(** *** Numbers *)

Lemma numbers_new : numbers_inv RefTable_new ∅.
Proof.
  split; simpl; unfold RefTable_get; simpl; intros; rewrite ?lookup_empty in *; try done;
    match goal with H : is_Some None |- _ => by apply is_Some_None in H end.
Qed.

(** An archive cell is filled: below the counter, or noted as explicit. *)
Lemma numbers_archive t ex ex' r e n :
  numbers_inv t ex -> ShortRef_wf r -> ex ⊆ ex' -> (prefix r = 1%Z -> (local r < n)%Z \/ ShortRef_cell_key r ∈ ex') ->
  (next t <= n <= u32_max)%Z ->
  numbers_inv (set_next (set_entries t (<[ShortRef_cell_key r := e]> (entries t))) n) ex'.
Proof.
  intros [Hn He Hh Hs] Hr Hx Hp Hle. split; simpl.
  - lia.
  - intros r' Hr' Hp' Hin. unfold RefTable_get in Hin. simpl in Hin.
    destruct (decide (ShortRef_cell_key r = ShortRef_cell_key r')) as [Heq|Hne].
    + apply cell_key_inj in Heq; [subst r'|done|done]. auto.
    + rewrite lookup_insert_ne in Hin by done. destruct (He r' Hr' Hp' Hin); [left; lia|right; set_solver].
  - intros k Hk. specialize (Hh k Hk). lia.
  - intros k m Hk. specialize (Hs k m Hk). lia.
Qed.

(** A history slot is filled below the counter. *)
Lemma numbers_history t ex m h st tx :
  numbers_inv t ex -> (next t <= m <= u32_max)%Z ->
  (forall n, is_Some (h !! n) -> (1 <= n < m)%Z) -> (forall k n, st !! k = Some n -> (1 <= n < m)%Z) ->
  numbers_inv (mkRefTable m (entries t) h st tx) ex.
Proof.
  intros [Hn He Hh Hs] Hm Hh' Hs'. split; simpl; [lia| |done|done].
  intros r Hr Hp Hin. destruct (He r Hr Hp Hin); [left; lia|by right].
Qed.

Lemma slot_below (h : gmap Z HistoryEntry) n e m k :
  (forall k, is_Some (h !! k) -> (1 <= k < m)%Z) -> (1 <= n < m)%Z -> is_Some (<[n := e]> h !! k) -> (1 <= k < m)%Z.
Proof. rewrite lookup_insert_is_Some. intros Hh Hn [<-|[_ Hk]]; [done|by apply Hh]. Qed.

Lemma numbers_insert_history t ex e c : numbers_inv t ex -> (next t < u32_max)%Z -> numbers_inv (RefTable_insert_history t e c).1 ex.
Proof.
  intros Hinv Hlt. pose proof Hinv as [Hn He Hh Hs].
  assert (Hw : wrap32 (next t + 1) = (next t + 1)%Z) by (apply wrap32_small; unfold is_u32; lia).
  destruct (history_stable_key_to_n t !! history_stable_key e) as [n|] eqn:Ek.
  - unfold RefTable_insert_history. change (history_stable_key_parts _ _) with (history_stable_key e). rewrite Ek. simpl.
    pose proof (Hs _ _ Ek). destruct (history t !! n); (apply (numbers_history t ex (next t)); [done|lia| |done]); [done|].
    intros k. by apply slot_below.
  - rewrite insert_history_fresh by done. simpl. rewrite Hw. apply (numbers_history t ex); [done|lia| |].
    + intros k. apply slot_below; [|lia]. intros k' Hk'. specialize (Hh k' Hk'). lia.
    + intros k m. rewrite lookup_insert_Some. intros [[<- <-]|[_ Hk]]; [lia|]. specialize (Hs _ _ Hk). lia.
Qed.

Lemma numbers_virtual_history t ex n e c t' :
  numbers_inv t ex -> (1 <= n < u32_max)%Z -> insert_virtual_history t n e c = Done t' -> numbers_inv t' ex.
Proof.
  intros Hinv Hr Hv. pose proof Hinv as [Hn He Hh Hs]. unfold insert_virtual_history in Hv.
  change (history_stable_key_parts _ _) with (history_stable_key e) in Hv.
  assert (forall k, is_Some (<[n := e]> (history t) !! k) -> (1 <= k < Z.max (next t) (n + 1))%Z) as Hslot.
  { intros k. apply slot_below; [|lia]. intros k' Hk'. specialize (Hh k' Hk'). lia. }
  destruct (history_stable_key_to_n t !! history_stable_key e) as [m|] eqn:Ek.
  - destruct (Z.eqb_spec m n) as [->|]; [|done]. injection Hv as <-.
    unfold fetch_max_next, set_next, set_history, set_texts; simpl. rewrite sat_add_succ by lia.
    apply (numbers_history t ex); [done|lia|done|]. intros k m Hk. specialize (Hs _ _ Hk). lia.
  - injection Hv as <-. unfold fetch_max_next, set_next, set_history, set_texts, set_stable; simpl. rewrite sat_add_succ by lia.
    apply (numbers_history t ex); [done|lia|done|].
    intros k m. rewrite lookup_insert_Some. intros [[<- <-]|[_ Hk]]; [lia|]. specialize (Hs _ _ Hk). lia.
Qed.

Lemma numbers_step x y : ref_step x y -> numbers_inv x.1 x.2 -> numbers_inv y.1 y.2.
Proof.
  intros Hst Hinv. pose proof (num_next _ _ Hinv) as Hn.
  destruct Hst as [t ex e Hlt|t ex r e Hwf|t ex e c Hlt|t ex n e Hr|t ex r e Hwf Hl|t ex n e c t' Hr Hv]; simpl in *.
  - unfold RefTable_insert, fetch_add_next. simpl. rewrite wrap32_small by (unfold is_u32; lia).
    apply (numbers_archive t ex ex (ShortRef_new (next t))); simpl; [done| |done|lia|lia].
    split; unfold is_u32; simpl; unfold u32_max in *; lia.
  - unfold RefTable_insert_at. rewrite <-(set_next_id (set_entries _ _)). simpl.
    apply (numbers_archive t ex); [done|done|set_solver|right; set_solver|lia].
  - by apply numbers_insert_history.
  - unfold insert_virtual_archive, fetch_max_next. simpl. rewrite sat_add_succ by lia.
    apply (numbers_archive t ex ex (ShortRef_new n)); simpl; [done| |done|left; lia|lia].
    split; unfold is_u32; simpl; unfold u32_max in *; lia.
  - unfold insert_virtual_archive_ref. destruct (Z.eqb_spec (prefix r) 1) as [Hp|Hp].
    + unfold fetch_max_next. simpl. rewrite sat_add_succ by (destruct Hwf as [_ [? ?]]; lia).
      apply (numbers_archive t ex ex); simpl; [done|done|done|left; lia|lia].
    + rewrite <-(set_next_id (set_entries _ _)). simpl. apply (numbers_archive t ex ex); [done|done|done|done|lia].
  - by eapply numbers_virtual_history.
Qed.

Lemma numbers_reachable t ex : rtc ref_step (RefTable_new, ∅) (t, ex) -> numbers_inv t ex.
Proof.
  intros H. remember (RefTable_new, ∅) as x eqn:Ex. remember (t, ex) as y eqn:Ey.
  assert (numbers_inv x.1 x.2) as Hx by (subst; apply numbers_new).
  assert (numbers_inv y.1 y.2) as Hy by (clear Ex Ey; induction H; eauto using numbers_step). by subst.
Qed.

(** ** Sorting of snapshots *)

#[global] Instance ref_le_total : Total row_le.
Proof. intros a b. unfold row_le, ref_le. lia. Qed.

#[global] Instance ref_le_trans : Transitive row_le.
Proof. intros a b c. unfold row_le, ref_le. lia. Qed.

Lemma merge_sort_head (l : list (ShortRef * string)) x :
  head (merge_sort row_le l) = Some x -> x ∈ l /\ forall y, y ∈ l -> row_le x y.
Proof.
  pose proof (Sorted_merge_sort row_le l) as Hs.
  pose proof (merge_sort_Permutation row_le l) as Hp.
  apply Sorted_StronglySorted in Hs; [|apply _].
  destruct (merge_sort row_le l) as [|z r]; [done|]. intros [= ->].
  split; [rewrite <-Hp; apply list_elem_of_here|].
  intros y. rewrite <-Hp, elem_of_cons. inversion Hs as [|? ? Hsr Hall]; subst.
  intros [->|Hy]; [unfold row_le, ref_le; lia|].
  rewrite Forall_forall in Hall. apply Hall; first [done|by apply list_elem_of_In].
Qed.

(** Entries whose stored counts are those of their content; what
    [ArchiveEntry::new] and the [with_] builders produce. *)
Definition entry_wf (e : ArchiveEntry) : Prop :=
  line_count e = RenderedContent_line_count (content e) /\
  byte_count e = RenderedContent_byte_count (content e).

Lemma header_rows_agree e r :
  entry_wf e ->
  VirtualArchiveRow_display_header
    (mkVARow (ae_activity_anchor e) (tool_name e) (summary e) (action_identity e) (content e)) r =
  ArchiveEntry_display_header e r.
Proof.
  intros [H1 H2]. unfold VirtualArchiveRow_display_header, ArchiveEntry_display_header. simpl.
  by rewrite H1, H2.
Qed.

(** ** Interleaved [insert_history]

    [insert_history] looks the key up, and only then takes a number and
    stores it: three separate accesses to shared maps.  Two callers with the
    same key can both miss. *)
Module HistoryRace.

(** Where a caller of [insert_history] is. *)
Inductive pc :=
| AtLookup                       (* about to read [history_stable_key_to_n] *)
| Missed                         (* read nothing, about to [fetch_add] *)
| Allocated (n : Z)              (* has a number, about to write the maps *)
| Returned (n : Z).

(** One shared access of the caller inserting [e] with text [c]. *)
Inductive access (e : HistoryEntry) (c : string) : RefTable * pc -> RefTable * pc -> Prop :=
| acc_hit t n :
    history_stable_key_to_n t !! history_stable_key e = Some n ->
    access e c (t, AtLookup) ((RefTable_insert_history t e c).1, Returned n)
| acc_miss t :
    history_stable_key_to_n t !! history_stable_key e = None ->
    access e c (t, AtLookup) (t, Missed)
| acc_alloc t :
    access e c (t, Missed) ((fetch_add_next t).2, Allocated (fetch_add_next t).1)
| acc_store t n :
    let t1 := set_stable t (<[history_stable_key e := n]> (history_stable_key_to_n t)) in
    let t2 := set_texts t1 (<[activity_anchor e := c]> (history_text_by_activity t1)) in
    access e c (t, Allocated n) (set_history t2 (<[n := e]> (history t2)), Returned n).

(** Two callers inserting the same entry, in any interleaving. *)
Inductive both (e : HistoryEntry) (c : string) : RefTable * pc * pc -> RefTable * pc * pc -> Prop :=
| left_moves t p p' q t' : access e c (t, p) (t', p') -> both e c (t, p, q) (t', p', q)
| right_moves t p q q' t' : access e c (t, q) (t', q') -> both e c (t, p, q) (t', p, q').

End HistoryRace.

(** ** Properties *)

(** C4: In every table reachable from a new one by its operations, a newly
    allocated number is unused: [insert] returns an [@N] whose number is no [#N],
    and [insert_history] of a new activity returns an unused [#N]; and that [@N],
    or the [@N] of the same number, resolves to nothing yet, unless it was put
    there by [insert_at], which does not advance the counter.  The counter has
    not reached its last value. *)
Theorem ref_numbers_never_collide (t : RefTable) (ex : gset Z) (a : ArchiveEntry) (e : HistoryEntry) (c : string) :
  rtc ref_step (RefTable_new, ∅) (t, ex) -> (next t < u32_max)%Z ->
  let r := (RefTable_insert t a).2 in
  let n := (RefTable_insert_history t e c).2 in
  RefTable_get_history t (local r) = None /\
  (RefTable_get t r = None \/ ShortRef_cell_key r ∈ ex) /\
  RefTable_get (RefTable_insert t a).1 r = Some a /\
  (history_stable_key_to_n t !! history_stable_key e = None ->
   RefTable_get_history t n = None /\
   (RefTable_get t (ShortRef_new n) = None \/ ShortRef_cell_key (ShortRef_new n) ∈ ex) /\
   RefTable_get_history (RefTable_insert_history t e c).1 n = Some e).
Proof.
  intros Hr Hlt r n. pose proof (numbers_reachable t ex Hr) as Hinv. pose proof (num_next _ _ Hinv) as Hn.
  assert (Hwf : ShortRef_wf (ShortRef_new (next t)))
    by (split; unfold is_u32, u32_max in *; simpl; lia).
  assert (Hfree : RefTable_get t (ShortRef_new (next t)) = None \/ ShortRef_cell_key (ShortRef_new (next t)) ∈ ex).
  { destruct (RefTable_get t _) eqn:E; [|by left].
    destruct (num_entries _ _ Hinv _ Hwf eq_refl ltac:(eauto)); [simpl in *; lia|by right]. }
  assert (Hslot : history t !! next t = None).
  { destruct (history t !! next t) eqn:E; [|done]. pose proof (num_history _ _ Hinv (next t) ltac:(eauto)). lia. }
  split; [done|]. split; [done|]. split; [apply lookup_insert_eq|]. intros Hk. unfold n.
  rewrite insert_history_fresh by done. simpl. split; [done|]. split; [done|]. apply lookup_insert_eq.
Qed.

Definition sample_entry : ArchiveEntry :=
  ArchiveEntry_new (RenderedContent_from_lines ["k: v"]) "t/tool" (Some "summary") "evt-1" "tool_result".

Lemma ref_numbers_never_collide_witness :
  let t := (RefTable_insert RefTable_new sample_entry).1 in
  RefTable_get_history (RefTable_insert_history t (mkHistoryEntry "evt-2" "message") "hi").1 2
  = Some (mkHistoryEntry "evt-2" "message").
Proof.
  assert (Hr : rtc ref_step (RefTable_new, ∅) ((RefTable_insert RefTable_new sample_entry).1, ∅))
    by (apply rtc_once, step_insert; done).
  exact (proj2 (proj2 (proj2 (proj2 (proj2 (ref_numbers_never_collide _ _ sample_entry
    (mkHistoryEntry "evt-2" "message") "hi" Hr eq_refl))) eq_refl))).
Defined.

(** The exception is real: a ref that was put into the table explicitly is hit, and
    its content replaced, by the next local allocation. *)
Lemma explicit_ref_overwritten :
  let t := RefTable_insert_at RefTable_new (ShortRef_new 1) sample_entry in
  rtc ref_step (RefTable_new, ∅) (t, {[ShortRef_cell_key (ShortRef_new 1)]} ∪ ∅) /\
  is_Some (RefTable_get t (ShortRef_new 1)) /\ (RefTable_insert t sample_entry).2 = ShortRef_new 1.
Proof.
  intros t. split; [|split; [by eexists|done]].
  apply rtc_once, step_insert_at. split; vm_compute; split; congruence.
Qed.

(** [insert_history] is idempotent per activity and source: a second
    insert returns the same [#N] without advancing the counter or changing
    the archive, and refreshes the text; distinct activities (anchors free of
    NUL) keep distinct numbers. *)
Theorem history_refs_idempotent (t : RefTable) (e : HistoryEntry) (c c' : string) :
  rtc steady_step RefTable_new t -> (next t < u32_max)%Z ->
  let (t1, n) := RefTable_insert_history t e c in
  let (t2, n') := RefTable_insert_history t1 e c' in
  n' = n /\ next t2 = next t1 /\ entries t2 = entries t1 /\ history t2 = history t1 /\
  history_text_for_activity t2 (activity_anchor e) = Some c' /\
  (forall e2, contains_char "000" (activity_anchor e) = false ->
     contains_char "000" (activity_anchor e2) = false ->
     history_stable_key_to_n t2 !! history_stable_key e2 = Some n -> e2 = e).
Proof.
  intros Hr Hlt.
  destruct (RefTable_insert_history t e c) as [t1 n] eqn:E1.
  assert (Hinv1 : refs_inv t1).
  { pose proof (steady_insert_history t e c Hlt) as Hst. rewrite E1 in Hst.
    eapply steady_step_inv; [by apply steady_inv|done]. }
  assert (Hk1 : history_stable_key_to_n t1 !! history_stable_key e = Some n).
  { destruct (history_stable_key_to_n t !! history_stable_key e) as [m|] eqn:Ek.
    - rewrite (insert_history_existing _ _ _ m) in E1 by (try done; by apply steady_inv).
      by injection E1 as <- <-.
    - rewrite insert_history_fresh in E1 by done. injection E1 as <- <-. simpl.
      apply lookup_insert_eq. }
  rewrite (insert_history_existing t1 e c' n) by done. simpl.
  repeat (split; [done|]). split; [apply lookup_insert_eq|].
  intros e2 Hz1 Hz2 Hk2.
  destruct (inv_stable _ Hinv1 _ _ Hk1) as (x & Hx & Hxk).
  destruct (inv_stable _ Hinv1 _ _ Hk2) as (y & Hy & Hyk).
  assert (history_stable_key e2 = history_stable_key e) as Heq by congruence.
  pose proof (split_once_app "000" (activity_anchor e) (source e) Hz1) as S1.
  pose proof (split_once_app "000" (activity_anchor e2) (source e2) Hz2) as S2.
  unfold history_stable_key, history_stable_key_parts in Heq. rewrite Heq, S1 in S2.
  destruct e, e2; simpl in *. by simplify_eq.
Qed.

Lemma history_refs_idempotent_witness :
  let t1 := (RefTable_insert_history RefTable_new (mkHistoryEntry "evt-1" "message") "a").1 in
  (RefTable_insert_history t1 (mkHistoryEntry "evt-1" "message") "b").2 = 1%Z.
Proof.
  exact (proj1 (history_refs_idempotent RefTable_new (mkHistoryEntry "evt-1" "message") "a" "b"
    (rtc_refl _ _) eq_refl)).
Defined.

(** duplicate suppression finds the first archive: the ref returned by
    [find_by_send_signature] carries that signature and its header, and no
    entry with the signature sorts before it; without such an entry the
    result is [None]. *)
Theorem find_by_send_signature_first (t : RefTable) (sig : string) :
  (forall r h, find_by_send_signature t sig = Some (r, h) ->
     (exists k e, entries t !! k = Some e /\ send_signature e = Some sig /\
        r = ref_of_key k /\ h = ArchiveEntry_display_header e r) /\
     (forall k' e', entries t !! k' = Some e' -> send_signature e' = Some sig ->
        ref_le r (ref_of_key k'))) /\
  (find_by_send_signature t sig = None <->
   forall k e, entries t !! k = Some e -> send_signature e <> Some sig).
Proof.
  unfold find_by_send_signature.
  set (f := fun '(k, e) => if bool_decide (send_signature e = Some sig)
    then let r := ref_of_key k in Some (r, ArchiveEntry_display_header e r) else None).
  assert (Hin : forall x, x ∈ omap f (map_to_list (entries t)) <->
    exists k e, entries t !! k = Some e /\ send_signature e = Some sig /\
      x = (ref_of_key k, ArchiveEntry_display_header e (ref_of_key k))).
  { intros x. rewrite list_elem_of_omap. split.
    - intros ([k e] & Hke & Hf). apply elem_of_map_to_list in Hke. simpl in Hf.
      case_bool_decide; [|done]. injection Hf as <-. eauto 10.
    - intros (k & e & Hk & Hs & ->). exists (k, e). rewrite elem_of_map_to_list.
      split; [done|]. simpl. by rewrite bool_decide_true. }
  split.
  - intros r h Hh. apply merge_sort_head in Hh as [Hx Hmin].
    apply Hin in Hx as (k & e & Hk & Hs & Heq). injection Heq as -> ->.
    split; [eauto 10|]. intros k' e' Hk' Hs'.
    apply (Hmin (ref_of_key k', ArchiveEntry_display_header e' (ref_of_key k'))).
    apply Hin. eauto 10.
  - pose proof (merge_sort_Permutation row_le (omap f (map_to_list (entries t)))) as Hp.
    destruct (merge_sort _ _) as [|x l]; simpl; (split; [|try done]).
    + intros _ k e Hk Hs. apply Permutation_nil in Hp.
      assert ((ref_of_key k, ArchiveEntry_display_header e (ref_of_key k)) ∈
        omap f (map_to_list (entries t))) as Hx by (apply Hin; eauto 10).
      rewrite Hp in Hx. by apply elem_of_nil in Hx.
    + done.
    + intros Hno. exfalso. assert (x ∈ omap f (map_to_list (entries t))) as Hx
        by (rewrite <-Hp; apply list_elem_of_here).
      apply Hin in Hx as (k & e & Hk & Hs & _). by eapply Hno.
Qed.

(** A read resolves the same body and header whether the row comes from
    the live table of the context or from a replay table holding the same
    rows; a live row wins over the replay table, and without either the ref
    does not resolve. *)
Theorem live_and_replay_reads_agree (ts : ContextRefTables) (ctx : string) (r : ShortRef)
    (t : RefTable) (v : option RefTable) :
  get_ref_table ts ctx = Some t ->
  (forall k e, entries t !! k = Some e -> entry_wf e) ->
  match RefTable_get t r with
  | Some _ =>
      resolve_archive_for_read (Some ts) ctx r v =
      resolve_archive_for_read None ctx r (Some t)
  | None =>
      resolve_archive_for_read (Some ts) ctx r v = resolve_archive_for_read None ctx r v
  end.
Proof.
  intros Ht Hwf. unfold resolve_archive_for_read. simpl. rewrite Ht. simpl.
  unfold RefTable_archive_row.
  destruct (RefTable_get t r) as [e|] eqn:E; simpl; [|done].
  rewrite header_rows_agree; [done|]. by eapply Hwf.
Qed.

Lemma live_and_replay_reads_agree_witness :
  let t := (RefTable_insert RefTable_new sample_entry).1 in
  let ts := mkTables {["ctx" := 0%nat]} {[0%nat := t]} 1 in
  resolve_archive_for_read (Some ts) "ctx" (ShortRef_new 1) (None : option RefTable) =
  resolve_archive_for_read None "ctx" (ShortRef_new 1) (Some t).
Proof.
  refine (live_and_replay_reads_agree
    (mkTables {["ctx" := 0%nat]} {[0%nat := (RefTable_insert RefTable_new sample_entry).1]} 1)
    "ctx" (ShortRef_new 1) (RefTable_insert RefTable_new sample_entry).1 None eq_refl _).
  intros k e H. simpl in H. apply lookup_insert_Some in H as [[_ <-]|[_ H]]; [done|].
  by rewrite lookup_empty in H.
Defined.

(** Under concurrent callers the idempotence of [insert_history] is lost:
    two callers inserting the same activity into a fresh table can return
    different refs, both stored. *)
Theorem insert_history_race :
  exists t, rtc (HistoryRace.both (mkHistoryEntry "evt-1" "message") "hi")
    (RefTable_new, HistoryRace.AtLookup, HistoryRace.AtLookup)
    (t, HistoryRace.Returned 1, HistoryRace.Returned 2) /\
  RefTable_get_history t 1 = Some (mkHistoryEntry "evt-1" "message") /\
  RefTable_get_history t 2 = Some (mkHistoryEntry "evt-1" "message").
Proof.
  eexists. split.
  - eapply rtc_l; [apply HistoryRace.left_moves, HistoryRace.acc_miss; reflexivity|].
    eapply rtc_l; [apply HistoryRace.right_moves, HistoryRace.acc_miss; reflexivity|].
    eapply rtc_l; [apply HistoryRace.left_moves, HistoryRace.acc_alloc|].
    eapply rtc_l; [apply HistoryRace.right_moves, HistoryRace.acc_alloc|].
    eapply rtc_l; [apply HistoryRace.left_moves, HistoryRace.acc_store|].
    eapply rtc_l; [apply HistoryRace.right_moves, HistoryRace.acc_store|].
    apply rtc_refl.
  - split; reflexivity.
Qed.
