(* ===== verification/Citations.v ===== *)
(** * Citations: parsing, scanning and resolving [#N] / [@N] references

    Models [baml-rt-citation/src/lib.rs] ([ParsedCitation::parse], line
    ranges, the free-text scanner) and [baml-rt-tools/src/citations.rs]
    (resolution against a ref table, validation modes). *)

From stdpp Require Import base gmap list strings option sorting.
From Stdlib Require Import ZArith Lia Ascii.
From S2P Require Import Prelude RustStr ArchiveRead RefTable.

(** ** [baml-rt-citation] *)

Inductive ParsedCitation :=
| History (n : Z) (negated : bool)
| Archive (prefix local : Z) (lines : option (Z * Z)) (negated : bool).

#[global] Instance ParsedCitation_eq_dec : EqDecision ParsedCitation.
Proof. solve_decision. Defined.

Definition quoted (s : string) : string := "'" +:+ s +:+ "'".

Definition parse_archive_ref_part (part : string) : result (Z * Z) string :=
  if is_empty_str part then Err "empty archive ref" else
  match split_once "/" part with
  | Some (prefix_raw, local_raw) =>
      if is_empty_str prefix_raw || is_empty_str local_raw
      then Err ("invalid composite archive ref: " +:+ quoted part) else
      let? p := ok_or (parse_u32 prefix_raw) ("bad archive prefix: " +:+ quoted prefix_raw) in
      let? l := ok_or (parse_u32 local_raw) ("bad archive local index: " +:+ quoted local_raw) in
      Ok (p, l)
  | None =>
      let? l := ok_or (parse_u32 part) ("bad archive ref number: " +:+ quoted part) in
      Ok (1%Z, l)
  end.

(** [s.strip_prefix('L').or_else(|| s.strip_prefix('l')).unwrap_or(s)] *)
Definition strip_line_mark (s : string) : string :=
  default s (opt_or (strip_prefix_char "L" s) (strip_prefix_char "l" s)).

Definition zero_line_error : string := "line numbers are 1-based; 0 is not valid".

Definition parse_line_range (s : string) : result (Z * Z) string :=
  let normalized := strip_line_mark s in
  match split_once "-" normalized with
  | Some (l1_raw, l2_raw) =>
      let l1 := strip_line_mark l1_raw in
      let l2 := strip_line_mark l2_raw in
      let? start := ok_or (parse_usize l1) ("bad start line: " +:+ quoted l1) in
      let? end_ := ok_or (parse_usize l2) ("bad end line: " +:+ quoted l2) in
      if (start =? 0)%Z || (end_ =? 0)%Z then Err zero_line_error
      else if (end_ <? start)%Z
      then Err ("start line " +:+ show_Z start +:+ " > end line " +:+ show_Z end_)
      else Ok (start, end_)
  | None =>
      let? l := ok_or (parse_usize normalized) ("bad line number: " +:+ quoted s) in
      if (l =? 0)%Z then Err zero_line_error else Ok (l, l)
  end.

Definition ParsedCitation_parse (s : string) : result ParsedCitation string :=
  let (negated, body) := match strip_prefix_char "!" s with
                         | Some inner => (true, inner)
                         | None => (false, s)
                         end in
  match strip_prefix_char "#" body with
  | Some rest =>
      let? n := ok_or (parse_u32 rest) ("invalid history ref: " +:+ quoted s) in
      Ok (History n negated)
  | None =>
      match strip_prefix_char "@" body with
      | Some rest =>
          let (ref_part, line_part) := match split_once ":" rest with
                                       | Some (a, b) => (a, Some b)
                                       | None => (rest, None)
                                       end in
          let? (p, l) := map_err (fun reason => "invalid archive ref in " +:+ quoted s +:+ ": " +:+ reason)
                           (parse_archive_ref_part ref_part) in
          let? lines :=
            (match line_part with
             | Some lp => match parse_line_range lp with
                          | Ok r => Ok (Some r)
                          | Err e => Err ("invalid line range in " +:+ quoted s +:+ ": " +:+ e)
                          end
             | None => Ok None
             end) in
          Ok (Archive p l lines negated)
      | None =>
          Err ("citation must start with '#' or '!#' (history) or '@' or '!@' (archive); got: "
                 +:+ quoted s)
      end
  end.

(** The validated newtype [Citation]. *)
Definition Citation_try_new (s : string) : result string string :=
  let t := trim s in
  let? _ := ParsedCitation_parse t in
  Ok t.

(** [Citation::parsed]: the [expect] on the re-parse. *)
Definition Citation_parsed (c : string) : outcome ParsedCitation :=
  match ParsedCitation_parse c with Ok p => Done p | Err _ => Panic end.

Definition is_negated (c : ParsedCitation) : bool :=
  match c with History _ n => n | Archive _ _ _ n => n end.

Fixpoint parse_citations (raw : list string) : list ParsedCitation * list string :=
  match raw with
  | [] => ([], [])
  | s :: r =>
      let (oks, errors) := parse_citations r in
      match ParsedCitation_parse s with
      | Ok c => (c :: oks, errors)
      | Err e => (oks, e :: errors)
      end
  end.

(** ** The free-text scanner *)

Definition is_citation_body_char (b : ascii) : bool :=
  is_ascii_digit b || bool_decide (b = "/"%char) || bool_decide (b = ":"%char)
  || bool_decide (b = "-"%char) || bool_decide (b = "L"%char) || bool_decide (b = "l"%char).

Definition is_valid_wire_citation_token (token : string) : bool := is_ok (ParsedCitation_parse token).

(** The [for end in (start + 2)..=max_end] loop, [best] carried along. *)
Fixpoint longest_loop (text : string) (start : nat) (ends : list nat) (best : option string)
    : outcome (option string) :=
  match ends with
  | [] => Done best
  | e :: rest =>
      let skip := match byte_at e text with
                  | Some b => is_citation_body_char b
                  | None => false
                  end in
      if skip then longest_loop text start rest best
      else
        let! candidate := slice text start e in
        longest_loop text start rest
          (if is_valid_wire_citation_token candidate then Some candidate else best)
  end.

Definition longest_citation_at (text : string) (start : nat) : outcome (option string) :=
  let max_end := Nat.min (start + 48) (String.length text) in
  longest_loop text start (seq (start + 2) (max_end + 1 - (start + 2))) None.

(** [citation_start] for an index inside the text. *)
Definition citation_start (text : string) (i : nat) : option nat :=
  match byte_at i text with
  | None => None
  | Some b =>
      if bool_decide (b = "!"%char) && (i + 1 <? String.length text)%nat then
        match byte_at (i + 1) text with
        | Some c => if bool_decide (c = "#"%char) || bool_decide (c = "@"%char) then Some i else None
        | None => None
        end
      else if bool_decide (b = "#"%char) || bool_decide (b = "@"%char) then Some i
      else None
  end.

(** The [while] loop: every iteration advances [i], so [fuel] equal to the
    text length is enough. *)
Fixpoint scan_loop (fuel : nat) (text : string) (i : nat) (found : list string)
    : outcome (list string) :=
  match fuel with
  | O => Done found
  | S f =>
      if (i <? String.length text)%nat then
        match citation_start text i with
        | Some start =>
            let! best := longest_citation_at text start in
            match best with
            | Some token =>
                scan_loop f text (start + Nat.max (String.length token) 1) (btree_insert token found)
            | None => scan_loop f text (i + 1) found
            end
        | None => scan_loop f text (i + 1) found
        end
      else Done found
  end.

Definition scan_wire_citations (text : string) : outcome (list string) :=
  scan_loop (String.length text) text 0 [].

(** ** [citations.rs]: resolution *)

Inductive CitationKind := KHistory | KArchive.

Record ResolvedCitation := mkResolvedCitation {
  rc_n : Z;
  rc_kind : CitationKind;
  rc_negated : bool;
  rc_activity_anchor : string;
  rc_source : string;
  rc_content : string;
  rc_lines : option (Z * Z);
}.

(** [range.end() - range.start() + 1] on [usize]. *)
Definition range_len (start end_ : Z) : outcome Z :=
  if (end_ <? start)%Z || (usize_max <? end_ - start + 1)%Z then Panic
  else Done (end_ - start + 1)%Z.

Definition resolve (c : ParsedCitation) (t : RefTable) : outcome (option ResolvedCitation) :=
  match c with
  | History n negated =>
      Done (e ← RefTable_get_history t n;
            txt ← history_text_for_activity t (activity_anchor e);
            Some (mkResolvedCitation n KHistory negated (activity_anchor e) (source e) txt None))
  | Archive p l lines negated =>
      match RefTable_get t (mkShortRef p l) with
      | None => Done None
      | Some e =>
          let! ls := RenderedContent_lines (content e) in
          let! body :=
            (match lines with
             | Some (start, end_) =>
                 let! len := range_len start end_ in
                 Done (join nl_str (take (Z.to_nat len) (drop (Z.to_nat (sat_sub start 1)) ls)))
             | None => Done (join nl_str ls)
             end) in
          Done (Some (mkResolvedCitation l KArchive negated (ae_activity_anchor e)
                        (ae_source e) body lines))
      end
  end.

Definition wire_citation_resolves (token : string) (t : RefTable) : outcome bool :=
  match ParsedCitation_parse token with
  | Err _ => Done false
  | Ok p => let! r := resolve p t in Done (is_some r)
  end.

Fixpoint filter_unresolved (tokens : list string) (t : RefTable) : outcome (list string) :=
  match tokens with
  | [] => Done []
  | x :: r =>
      let! ok_ := wire_citation_resolves x t in
      let! rest := filter_unresolved r t in
      Done (if ok_ then rest else x :: rest)
  end.

Definition unresolved_wire_citations (text : string) (t : RefTable) : outcome (list string) :=
  let! tokens := scan_wire_citations text in
  filter_unresolved tokens t.

(** ** Validation *)

Inductive CitationMode := Audit | Enforce.

Record CitationConfig := mkCitationConfig { cc_mode : CitationMode; require_at_least_one : bool }.

Record CitationValidation := mkCitationValidation {
  parsed : list ParsedCitation;
  format_errors : list string;
  missing_citations : bool;
}.

Definition CitationValidation_is_ok (v : CitationValidation) : bool :=
  match format_errors v with [] => negb (missing_citations v) | _ => false end.

Definition validate_citations (raw : list string) (config : CitationConfig)
    : result CitationValidation string :=
  let (ps, errs) := parse_citations raw in
  let missing := require_at_least_one config && match raw with [] => true | _ => false end in
  let v := mkCitationValidation ps errs missing in
  match cc_mode config with
  | Audit => Ok v
  | Enforce =>
      if CitationValidation_is_ok v then Ok v
      else
        let parts := (if missing then ["citations required but none provided"] else [])
          ++ (match errs with [] => [] | _ => ["format errors: " +:+ join "; " errs] end) in
        Err (join "; " parts)
  end.

(** ** Facts about parsing *)

Lemma parse_usize_range s z : parse_usize s = Some z -> (0 <= z <= usize_max)%Z.
Proof. intros H. by apply parse_uint_range in H. Qed.

Lemma parse_u32_range s z : parse_u32 s = Some z -> is_u32 z.
Proof. intros H. by apply parse_uint_range in H. Qed.

Lemma parse_line_range_ok s a b :
  parse_line_range s = Ok (a, b) -> (1 <= a <= b)%Z /\ (b <= usize_max)%Z.
Proof.
  unfold parse_line_range. destruct (split_once _ _) as [[l1 l2]|].
  - destruct (parse_usize (strip_line_mark l1)) as [x|] eqn:E1; simpl; [|done].
    destruct (parse_usize (strip_line_mark l2)) as [y|] eqn:E2; simpl; [|done].
    apply parse_usize_range in E1, E2.
    destruct (Z.eqb_spec x 0), (Z.eqb_spec y 0); simpl; try done.
    destruct (Z.ltb_spec y x); [done|]. intros [= <- <-]. lia.
  - destruct (parse_usize _) as [x|] eqn:E1; simpl; [|done].
    apply parse_usize_range in E1. destruct (Z.eqb_spec x 0); [done|].
    intros [= <- <-]. lia.
Qed.

Lemma parse_archive_ref_part_ok s p l :
  parse_archive_ref_part s = Ok (p, l) -> is_u32 p /\ is_u32 l.
Proof.
  unfold parse_archive_ref_part. case_match; [done|].
  destruct (split_once _ _) as [[a b]|].
  - case_match; [done|]. destruct (parse_u32 a) as [x|] eqn:E1; simpl; [|done].
    destruct (parse_u32 b) as [y|] eqn:E2; simpl; [|done].
    intros [= <- <-]. eauto using parse_u32_range.
  - destruct (parse_u32 s) as [x|] eqn:E1; simpl; [|done].
    intros [= <- <-]. split; [done|]. by eapply parse_u32_range.
Qed.

(** What a successful parse guarantees about its numbers. *)
Definition citation_wf (c : ParsedCitation) : Prop :=
  match c with
  | History n _ => is_u32 n
  | Archive p l lines _ => is_u32 p /\ is_u32 l /\
      match lines with Some (a, b) => (1 <= a <= b)%Z /\ (b <= usize_max)%Z | None => True end
  end.

Lemma parse_wf s c : ParsedCitation_parse s = Ok c -> citation_wf c.
Proof.
  unfold ParsedCitation_parse.
  destruct (match strip_prefix_char "!" s with Some inner => (true, inner) | None => (false, s) end)
    as [neg body].
  destruct (strip_prefix_char "#" body) as [rest|].
  - destruct (parse_u32 rest) eqn:E; simpl; [|done]. intros [= <-]. by apply parse_u32_range in E.
  - destruct (strip_prefix_char "@" body) as [rest|]; [|done].
    destruct (match split_once ":" rest with Some (a, b) => (a, Some b) | None => (rest, None) end)
      as [rp lp].
    destruct (parse_archive_ref_part rp) as [[p l]|] eqn:Er; simpl; [|done].
    apply parse_archive_ref_part_ok in Er as [Hp Hl].
    destruct lp as [lp|]; simpl.
    + destruct (parse_line_range lp) as [[a b]|] eqn:El; simpl; [|done].
      intros [= <-]. simpl. by apply parse_line_range_ok in El.
    + intros [= <-]. done.
Qed.

(** ** Facts about the scanner *)

Lemma longest_loop_ascii text start ends best :
  ascii_only text = true ->
  Forall (fun e => (start <= e <= String.length text)%nat) ends ->
  (forall t, best = Some t -> is_valid_wire_citation_token t = true /\ contains_str t text = true) ->
  exists r, longest_loop text start ends best = Done r /\
    (forall t, r = Some t -> is_valid_wire_citation_token t = true /\ contains_str t text = true).
Proof.
  intros Ha. revert best. induction ends as [|e r IH]; intros best Hall Hb; simpl; [eauto|].
  inversion Hall as [|? ? He Hr]; subst.
  case_match; [by apply IH|].
  rewrite ascii_only_slice by (done || lia). simpl. apply IH; [done|].
  intros t. destruct (is_valid_wire_citation_token _) eqn:Ev; [|by apply Hb].
  intros [= <-]. split; [done|]. eapply slice_substring. apply ascii_only_slice; done || lia.
Qed.

Lemma longest_citation_at_ascii text start :
  ascii_only text = true ->
  exists r, longest_citation_at text start = Done r /\
    (forall t, r = Some t -> is_valid_wire_citation_token t = true /\ contains_str t text = true).
Proof.
  intros Ha. apply longest_loop_ascii; [done| |done].
  apply Forall_forall. intros e He. apply elem_of_seq in He. lia.
Qed.

Lemma scan_loop_ascii fuel text i found :
  ascii_only text = true -> Sorted str_lt found ->
  (forall t, t ∈ found -> is_valid_wire_citation_token t = true /\ contains_str t text = true) ->
  exists l, scan_loop fuel text i found = Done l /\ Sorted str_lt l /\
    (forall t, t ∈ l -> is_valid_wire_citation_token t = true /\ contains_str t text = true).
Proof.
  intros Ha. revert i found. induction fuel as [|f IH]; intros i found Hs Hf; simpl; [eauto|].
  case_match; [|eauto]. destruct (citation_start text i) as [st|]; [|by apply IH].
  destruct (longest_citation_at_ascii text st Ha) as (r & Hr & Hrt). rewrite Hr. simpl.
  destruct r as [tok|]; [|by apply IH].
  apply IH; [by apply btree_insert_sorted|].
  intros t. rewrite elem_of_btree_insert. intros [->|Ht]; [by apply Hrt|by apply Hf].
Qed.

(** More fuel than the remaining text never changes the result. *)
Lemma scan_loop_fuel fuel fuel' text i found :
  (String.length text - i <= fuel)%nat -> (fuel <= fuel')%nat ->
  scan_loop fuel' text i found = scan_loop fuel text i found.
Proof.
  revert fuel' i found. induction fuel as [|f IH]; intros fuel' i found Hi Hle.
  - destruct fuel' as [|f']; [done|]. simpl.
    destruct (Nat.ltb_spec i (String.length text)); [lia|done].
  - destruct fuel' as [|f']; [lia|]. simpl.
    destruct (Nat.ltb_spec i (String.length text)); [|done].
    destruct (citation_start text i) as [st|] eqn:Es; [|apply IH; lia].
    assert (st = i) as ->.
    { unfold citation_start in Es. repeat case_match; congruence. }
    destruct (longest_citation_at text i) as [[tok|]|]; simpl; [| |done]; apply IH; lia.
Qed.

(** ** Properties *)

(** On ASCII text the scanner terminates without panicking and is sound:
    the tokens come back sorted and without duplicates, each is a substring of
    the text and parses as a citation; one step of fuel per byte is enough. *)
Theorem scan_sound_on_ascii (text : string) :
  ascii_only text = true ->
  exists l, scan_wire_citations text = Done l /\ Sorted str_lt l /\
    (forall t, t ∈ l -> (exists c, ParsedCitation_parse t = Ok c) /\ contains_str t text = true) /\
    (forall fuel, (String.length text <= fuel)%nat -> scan_loop fuel text 0 [] = Done l).
Proof.
  intros Ha.
  destruct (scan_loop_ascii (String.length text) text 0 [] Ha) as (l & Hl & Hs & Ht);
    [constructor|by intros t ?%elem_of_nil|].
  exists l. split; [done|]. split; [done|]. split.
  - intros t Hin. destruct (Ht t Hin) as [Hv Hc]. split; [|done].
    unfold is_valid_wire_citation_token in Hv. destruct (ParsedCitation_parse t); [eauto|done].
  - intros fuel Hf. rewrite (scan_loop_fuel (String.length text)) by lia. done.
Qed.

Lemma scan_sound_on_ascii_witness :
  exists l, scan_wire_citations "per @2/5 and !#3, not #x" = Done l.
Proof.
  destruct (scan_sound_on_ascii "per @2/5 and !#3, not #x" eq_refl) as (l & Hl & _).
  exists l. exact Hl.
Defined.

(** On valid UTF-8 text the scanner can panic: a ['#'] or ['@'] followed
    by a multi-byte character makes it slice inside that character, so the
    citation check of such a text panics for every ref table. *)
Theorem scan_panics_on_multibyte :
  valid_utf8 "# Übersicht" = true /\
  scan_wire_citations "# Übersicht" = Panic /\
  (forall t, unresolved_wire_citations "@é" t = Panic).
Proof.
  split; [reflexivity|]. split; [reflexivity|]. intros t. reflexivity.
Qed.

(** Resolving a parsed citation never panics on readable content, and a
    line range selects exactly the lines of the archive with 1-based numbers
    from its start to its end: the range arithmetic cannot underflow or
    overflow because parsing admits only [1 <= start <= end]. *)
Theorem resolve_selects_lines (s : string) (p l a b : Z) (neg : bool) (t : RefTable)
    (e : ArchiveEntry) (ls : list string) :
  ParsedCitation_parse s = Ok (Archive p l (Some (a, b)) neg) ->
  RefTable_get t (mkShortRef p l) = Some e ->
  RenderedContent_lines (content e) = Done ls ->
  exists sel, resolve (Archive p l (Some (a, b)) neg) t =
      Done (Some (mkResolvedCitation l KArchive neg (ae_activity_anchor e) (ae_source e)
                    (join nl_str sel) (Some (a, b)))) /\
    forall i : nat, sel !! i =
      if decide (Z.of_nat i <= b - a)%Z then ls !! (Z.to_nat (a - 1) + i)%nat else None.
Proof.
  intros Hp He Hl. apply parse_wf in Hp as (_ & _ & Hab & Hb).
  exists (take (Z.to_nat (b - a + 1)) (drop (Z.to_nat (sat_sub a 1)) ls)). split.
  - simpl. rewrite He, Hl. simpl. unfold range_len.
    rewrite (proj2 (Z.ltb_ge _ _)) by lia. rewrite (proj2 (Z.ltb_ge _ _)) by lia. done.
  - intros i. case_decide.
    + rewrite lookup_take_lt by lia. rewrite lookup_drop. f_equal. unfold sat_sub. lia.
    + apply lookup_take_ge. lia.
Qed.

Definition three_lines : ArchiveEntry :=
  ArchiveEntry_new (RenderedContent_from_lines ["one"; "two"; "three"]) "t" None "evt-1" "tool_result".

Lemma resolve_selects_lines_witness :
  exists sel, resolve (Archive 1 1 (Some (2%Z, 3%Z)) false) (RefTable_insert RefTable_new three_lines).1 =
    Done (Some (mkResolvedCitation 1 KArchive false "evt-1" "tool_result"
      (join nl_str sel) (Some (2%Z, 3%Z)))).
Proof.
  destruct (resolve_selects_lines "@1:L2-L3" 1 1 2 3 false
    (RefTable_insert RefTable_new three_lines).1 three_lines ["one"; "two"; "three"]
    eq_refl eq_refl eq_refl) as (sel & H & _).
  exists sel. exact H.
Defined.

(** Validation in [Enforce] mode succeeds exactly when every string parses
    and a required citation is present, and then returns all of them in
    order; in [Audit] mode it never rejects and reports one error per string
    that does not parse. *)
Theorem validate_citations_modes (raw : list string) (cfg : CitationConfig) :
  let bad := filter (fun s => is_ok (ParsedCitation_parse s) = false) raw in
  match cc_mode cfg with
  | Audit => exists v, validate_citations raw cfg = Ok v /\
      (length (format_errors v) = length bad)%nat /\
      (length (parsed v) + length (format_errors v) = length raw)%nat
  | Enforce =>
      (exists v, validate_citations raw cfg = Ok v /\
         Forall2 (fun s c => ParsedCitation_parse s = Ok c) raw (parsed v)) <->
      bad = [] /\ (require_at_least_one cfg = true -> raw <> [])
  end.
Proof.
  intros bad.
  assert (Hlen : (length (snd (parse_citations raw)) = length bad)%nat /\
    (length (fst (parse_citations raw)) + length (snd (parse_citations raw)) = length raw)%nat).
  { subst bad. induction raw as [|s r [IH1 IH2]]; simpl; [done|].
    destruct (parse_citations r) as [oks errs]; simpl in *.
    rewrite filter_cons. destruct (ParsedCitation_parse s); simpl; lia. }
  assert (Hall : bad = [] -> Forall2 (fun s c => ParsedCitation_parse s = Ok c) raw
                   (fst (parse_citations raw))).
  { clear Hlen. subst bad. induction raw as [|s r IH]; simpl; [constructor|].
    rewrite filter_cons. destruct (ParsedCitation_parse s) eqn:E; simpl; [|done].
    intros Hb. specialize (IH Hb). destruct (parse_citations r) as [oks errs]; simpl in *.
    by constructor. }
  unfold validate_citations. destruct (parse_citations raw) as [oks errs] eqn:Ep; simpl in *.
  destruct (cc_mode cfg); [eauto|].
  unfold CitationValidation_is_ok; simpl. split.
  - intros (v & Hv & _). destruct errs as [|x xs]; simpl in *; [|done].
    split; [apply length_zero_iff_nil; lia|]. intros Hreq ->. rewrite Hreq in Hv. done.
  - intros [Hb Hreq]. rewrite Hb in Hlen. destruct errs as [|x xs]; simpl in *; [|lia].
    destruct (require_at_least_one cfg); simpl; [destruct raw as [|y ys]; [by destruct Hreq|]|].
    + eexists. split; [done|]. by apply Hall.
    + eexists. split; [done|]. by apply Hall.
Qed.
