(* ===== verification/Json.v ===== *)
(** * JSON values as [serde_json::Value] holds them

    The data type and the accessors the runtime uses ([as_str], [as_array],
    [as_bool], [get], [as_u64]).  An object keeps its entries in order without duplicate
    keys; a number is an integer or, for a fractional one, the text it
    prints as.  The serializer itself is third-party code and stays a
    parameter of the definitions that call it. *)

From stdpp Require Import base list strings gmap.
From Stdlib Require Import ZArith Lia.
From S2P Require Import Prelude.

Inductive number :=
| NInt (z : Z)
| NFloat (repr : string).

Set Warnings "-register-all".

Inductive json :=
| JNull
| JBool (b : bool)
| JNum (n : number)
| JStr (s : string)
| JArr (xs : list json)
| JObj (fields : list (string * json)).

Definition as_str (v : json) : option string :=
  match v with JStr s => Some s | _ => None end.

Definition as_array (v : json) : option (list json) :=
  match v with JArr xs => Some xs | _ => None end.

Definition as_bool (v : json) : option bool :=
  match v with JBool b => Some b | _ => None end.

Definition as_object (v : json) : option (list (string * json)) :=
  match v with JObj fs => Some fs | _ => None end.

Definition as_u64 (v : json) : option Z :=
  match v with
  | JNum (NInt z) => if (0 <=? z)%Z && (z <=? u64_max)%Z then Some z else None
  | _ => None
  end.

Fixpoint field (k : string) (fs : list (string * json)) : option json :=
  match fs with
  | [] => None
  | (k', v) :: fs' => if String.eqb k k' then Some v else field k fs'
  end.

(** [Value::get]: [None] on anything but an object. *)
Definition jget (k : string) (v : json) : option json :=
  match v with JObj fs => field k fs | _ => None end.

Definition is_null (v : json) : bool := match v with JNull => true | _ => false end.
Definition is_object (v : json) : bool := match v with JObj _ => true | _ => false end.

(** ** Maps

    [serde_json] is built with [preserve_order]: an object is an insertion-ordered
    map.  [insert] replaces in place or appends; [remove] is [swap_remove]. *)

Definition contains_key (k : string) (fs : list (string * json)) : bool := is_some (field k fs).

Fixpoint map_insert (k : string) (v : json) (fs : list (string * json)) : list (string * json) :=
  match fs with
  | [] => [(k, v)]
  | (k', w) :: r => if String.eqb k k' then (k', v) :: r else (k', w) :: map_insert k v r
  end.

Definition map_swap_remove (k : string) (fs : list (string * json)) : list (string * json) :=
  match list_find (fun p => p.1 = k) fs with
  | None => fs
  | Some (i, _) =>
      match last fs with
      | Some l => if bool_decide (S i = length fs) then take i fs else <[i := l]> (take (length fs - 1) fs)
      | None => fs
      end
  end.

(** Equality of values: arrays element by element, objects as maps, whatever
    the order of their keys. *)
Definition number_eqb (m n : number) : bool :=
  match m, n with
  | NInt x, NInt y => (x =? y)%Z
  | NFloat x, NFloat y => String.eqb x y
  | _, _ => false
  end.

Fixpoint json_eqb (v w : json) {struct v} : bool :=
  match v, w with
  | JNull, JNull => true
  | JBool b, JBool c => Bool.eqb b c
  | JNum m, JNum n => number_eqb m n
  | JStr s, JStr t => String.eqb s t
  | JArr xs, JArr ys =>
      (fix go xs ys :=
         match xs, ys with
         | [], [] => true
         | x :: xs', y :: ys' => json_eqb x y && go xs' ys'
         | _, _ => false
         end) xs ys
  | JObj fs, JObj gs =>
      (length fs =? length gs)%nat &&
      (fix go fs :=
         match fs with
         | [] => true
         | (k, x) :: r => match field k gs with Some y => json_eqb x y | None => false end && go r
         end) fs
  | _, _ => false
  end.

(** Induction through arrays and objects. *)
Section JsonInd.
Context (P : json -> Prop).
Context (Hnull : P JNull) (Hbool : forall b, P (JBool b)) (Hnum : forall n, P (JNum n)) (Hstr : forall s, P (JStr s)).
Context (Harr : forall xs, Forall P xs -> P (JArr xs)).
Context (Hobj : forall fs, Forall (fun p => P p.2) fs -> P (JObj fs)).

Fixpoint json_nested_ind (v : json) : P v :=
  match v with
  | JNull => Hnull
  | JBool b => Hbool b
  | JNum n => Hnum n
  | JStr s => Hstr s
  | JArr xs => Harr xs ((fix go xs : Forall P xs :=
      match xs with [] => @List.Forall_nil _ P | x :: r => @List.Forall_cons _ P x r (json_nested_ind x) (go r) end) xs)
  | JObj fs => Hobj fs ((fix go fs : Forall (fun p => P p.2) fs :=
      match fs with [] => @List.Forall_nil _ (fun p => P p.2) | p :: r => @List.Forall_cons _ (fun p => P p.2) p r (json_nested_ind p.2) (go r) end) fs)
  end.
End JsonInd.

Lemma field_map_insert k v fs : field k (map_insert k v fs) = Some v.
Proof.
  induction fs as [|[k' w] fs IH]; simpl; [by rewrite String.eqb_refl|].
  destruct (String.eqb k k') eqn:E; simpl; rewrite E; done.
Qed.

Lemma field_map_insert_ne k k' v fs : k <> k' -> field k (map_insert k' v fs) = field k fs.
Proof.
  intros Hne. induction fs as [|[k2 w] fs IH]; simpl.
  - by rewrite (proj2 (String.eqb_neq k k')).
  - destruct (String.eqb k' k2) eqn:E; simpl; destruct (String.eqb k k2) eqn:E2; try done.
    apply String.eqb_eq in E, E2. congruence.
Qed.

(** No object holds a key twice. *)
Fixpoint json_wf (v : json) : Prop :=
  match v with
  | JArr xs => (fix go xs := match xs with [] => True | x :: r => json_wf x /\ go r end) xs
  | JObj fs => NoDup (fst <$> fs) /\ (fix go fs := match fs with [] => True | p :: r => json_wf p.2 /\ go r end) fs
  | _ => True
  end.

Lemma json_wf_arr xs : json_wf (JArr xs) <-> Forall json_wf xs.
Proof. induction xs as [|x xs IH]; [split; [constructor|done]|]. rewrite list.Forall_cons, <-IH. done. Qed.

Lemma json_wf_obj fs : json_wf (JObj fs) <-> NoDup (fst <$> fs) /\ Forall (fun p => json_wf p.2) fs.
Proof.
  simpl. f_equiv. induction fs as [|p fs IH]; [split; [constructor|done]|]. rewrite list.Forall_cons, <-IH. done.
Qed.

Lemma field_NoDup k v fs : NoDup (fst <$> fs) -> (k, v) ∈ fs -> field k fs = Some v.
Proof.
  induction fs as [|[k' w] fs IH]; intros Hnd Hin; [by apply elem_of_nil in Hin|].
  apply elem_of_cons in Hin as [[= <- <-]|Hin]; simpl; [by rewrite String.eqb_refl|].
  apply NoDup_cons in Hnd as [Hk Hnd]. destruct (String.eqb k k') eqn:E; [|by apply IH].
  apply String.eqb_eq in E. subst. destruct Hk. apply list_elem_of_fmap. by exists (k', v).
Qed.

Lemma json_eqb_refl v : json_wf v -> json_eqb v v = true.
Proof.
  induction v as [|b|n|s|xs IH|fs IH] using json_nested_ind; intros Hwf; simpl.
  - done.
  - by destruct b.
  - destruct n; simpl; [apply Z.eqb_refl|apply String.eqb_refl].
  - apply String.eqb_refl.
  - apply json_wf_arr in Hwf. induction xs as [|x xs IHx]; [done|].
    apply list.Forall_cons in IH as [Hx IH], Hwf as [Wx Wxs]. by rewrite Hx, IHx.
  - apply json_wf_obj in Hwf as [Hnd Hwf]. rewrite Nat.eqb_refl. simpl.
    assert (Hsub : forall k x, (k, x) ∈ fs -> field k fs = Some x /\ json_eqb x x = true).
    { intros k x Hin. split; [by apply field_NoDup|]. rewrite Forall_forall in IH, Hwf.
      apply (IH (k, x) Hin), (Hwf (k, x) Hin). }
    clear IH Hwf Hnd. revert Hsub. generalize fs at 1 4. intros gs. induction gs as [|[k x] gs IHg]; intros Hsub; [done|].
    destruct (Hsub k x) as [-> ->]; [by left|]. simpl. apply IHg. intros k' x' Hin. apply Hsub. by right.
Qed.
