(* ===== verification/Ids.v ===== *)
(** * Identifiers and activity anchors

    The typed identifiers of [baml-rt-core/src/ids.rs] (a newtype over the
    string it prints as), the node identifiers of the provenance graph
    ([baml-rt-provenance/src/metamodel/node_ids.rs]) and the process-wide
    anchor counter of [baml-rt-provenance/src/events.rs], the last as a step
    relation over interleaved threads. *)

From stdpp Require Import base list strings gmap relations.
From Stdlib Require Import ZArith Lia Ascii Sorted.
From S2P Require Import Prelude RustStr.

Open Scope string_scope.

(** [define_id_type!]: every identifier is a string newtype. *)
Definition TaskId := string.
Definition ContextId := string.
Definition MessageId := string.
Definition ArtifactId := string.
Definition AgentId := string.
Definition ActivityAnchorId := string.

(** ** Temporal and derived identifiers *)

(** [TemporalId::into_string]. *)
Definition TemporalId_into_string (prefix : string) (millis counter : Z) : string :=
  prefix +:+ "-" +:+ show_Z millis +:+ "-" +:+ show_Z counter.

(** [MonotonicId::into_string]. *)
Definition MonotonicId_into_string (prefix : string) (counter : Z) : string :=
  prefix +:+ "-" +:+ show_Z counter.

(** [DerivedId::from_parts]. *)
Definition DerivedId_from_parts (prefix : string) (parts : list string) : string :=
  fold_left (fun id part => id +:+ ":" +:+ part) parts prefix.

(** [ContextId::new]. *)
Definition ContextId_new (millis counter : Z) : ContextId :=
  TemporalId_into_string "ctx" millis counter.

(** [splitn(2, '-')]: the first piece and, when the separator occurs, the
    rest. *)
Definition splitn2 (c : ascii) (s : string) : string * option string :=
  match split_once c s with
  | Some (x, y) => (x, Some y)
  | None => (s, None)
  end.

(** [ContextId::parse_temporal]. *)
Definition ContextId_parse_temporal (raw : string) : option ContextId :=
  rest ← strip_prefix "ctx-" raw;
  let '(p1, p2) := splitn2 "-" rest in
  millis ← parse_u64 p1;
  c ← p2;
  counter ← parse_u64 c;
  Some (ContextId_new millis counter).

(** [TaskId::for_live_stream]. *)
Definition TaskId_for_live_stream (context_id : ContextId) (message_id : MessageId) : TaskId :=
  "live-task:" +:+ context_id +:+ ":" +:+ message_id.

(** [ContextId::for_a2a_child]. *)
Definition ContextId_for_a2a_child (caller : ContextId) (target_package target_instance_id : string)
    (child_task_id : TaskId) : ContextId :=
  "a2a:" +:+ caller +:+ ":" +:+ target_package +:+ "/" +:+ target_instance_id +:+ ":" +:+ child_task_id.

(** [ActivityAnchorId::from_counter] and [monotonic_counter_from_str]. *)
Definition ActivityAnchorId_from_counter (counter : Z) : ActivityAnchorId :=
  MonotonicId_into_string "prov" counter.

Definition monotonic_counter_from_str (raw : string) : result Z string :=
  match strip_prefix "prov-" raw with
  | None => Err raw
  | Some rest => match parse_u64 rest with Some n => Ok n | None => Err raw end
  end.

(** ** Graph node identifiers *)

Definition ContextNodeId := string.
Definition TaskNodeId := string.

(** [ContextNodeId::for_context_id] ("context:<id>"). *)
Definition ContextNodeId_for_context_id (ctx : ContextId) : ContextNodeId :=
  DerivedId_from_parts "context" [ctx].

(** [ContextNodeId::to_context_id]. *)
Definition to_context_id (raw : ContextNodeId) : ContextId :=
  let stripped := default raw (strip_prefix "context:" raw) in
  default stripped (ContextId_parse_temporal stripped).

(** [TaskNodeId::for_task_id] and [TaskNodeId::to_task_id]. *)
Definition TaskNodeId_for_task_id (task : TaskId) : TaskNodeId :=
  DerivedId_from_parts "task" [task].

Definition to_task_id (raw : TaskNodeId) : TaskId :=
  default raw (strip_prefix "task:" raw).

(** [ScopedTaskRef]: a task together with the context it is scoped to. *)
Record ScopedTaskRef := mkScoped { sr_ctx : ContextNodeId; sr_task : TaskNodeId }.

#[global] Instance ScopedTaskRef_eq_dec : EqDecision ScopedTaskRef.
Proof. solve_decision. Defined.

(** ** The anchor counter

    [next_activity_anchor_id] is a load, an optional compare-exchange that
    seeds the counter from the clock, and a fetch-add.  A thread's progress
    through the call is its program counter; each atomic access is one step,
    so every interleaving of any number of callers is a sequence of steps. *)
Module Anchor.

Inductive pc :=
| AtLoad
| AtSeed                       (** loaded 0, about to read the clock *)
| AtCas (seed : Z)             (** about to compare-exchange [(0, seed)] *)
| AtAdd (current : Z).         (** about to [fetch_add(1).max(current)] *)

Record state := mkState {
  event_counter : Z;           (** [EVENT_COUNTER] *)
  threads : gmap nat pc;
  issued : list Z              (** identifiers returned so far, newest first *)
}.

(** The clock value [seed_event_counter] returns: at least 1. *)
Definition seed_event_counter (nanos pid : Z) : Z :=
  Z.max (sat_add u64_max nanos (Z.land pid 65535)) 1.

Definition set_pc (s : state) (t : nat) (p : option pc) : state :=
  mkState (event_counter s) (partial_alter (fun _ => p) t (threads s)) (issued s).

(** One atomic access of thread [t]; [nanos] and [pid] are what the clock
    reads if this access is the clock. *)
Definition thread_step (t : nat) (nanos pid : Z) (s : state) : option state :=
  p ← threads s !! t;
  match p with
  | AtLoad =>
      let current := event_counter s in
      Some (set_pc s t (Some (if (current =? 0)%Z then AtSeed else AtAdd current)))
  | AtSeed => Some (set_pc s t (Some (AtCas (seed_event_counter nanos pid))))
  | AtCas seed =>
      if (event_counter s =? 0)%Z
      then Some (mkState seed (<[t := AtAdd seed]> (threads s)) (issued s))
      else Some (set_pc s t (Some (AtAdd (event_counter s))))
  | AtAdd current =>
      let old := event_counter s in
      Some (mkState (wrap64 (old + 1)) (delete t (threads s)) (Z.max old current :: issued s))
  end.

(** A thread enters the call, or one that is inside takes a step.  The clock
    stays below [max_nanos]. *)
Inductive step (max_nanos : Z) : state -> state -> Prop :=
| step_enter t s :
    threads s !! t = None ->
    step max_nanos s (set_pc s t (Some AtLoad))
| step_run t nanos pid s s' :
    (0 <= nanos <= max_nanos)%Z ->
    (0 <= pid)%Z ->
    thread_step t nanos pid s = Some s' ->
    step max_nanos s s'.

Definition init : state := mkState 0 ∅ [].

End Anchor.

(** ** Identifiers: lemmas and theorems *)

Lemma ContextId_parse_new millis counter :
  is_u64 millis -> is_u64 counter ->
  ContextId_parse_temporal (ContextId_new millis counter) = Some (ContextId_new millis counter).
Proof.
  intros Hm Hc. unfold ContextId_parse_temporal, ContextId_new, TemporalId_into_string, is_u64 in *.
  change ("ctx" +:+ "-" +:+ show_Z millis +:+ "-" +:+ show_Z counter)
    with ("ctx-" +:+ (show_Z millis +:+ String "-" (show_Z counter))).
  rewrite strip_prefix_app. cbn [mbind option_bind]. unfold splitn2.
  rewrite split_once_app by (apply show_Z_no_char; [lia|reflexivity]).
  unfold parse_u64. rewrite parse_show_Z by lia. cbn [mbind option_bind].
  by rewrite parse_show_Z by lia.
Qed.

Lemma to_context_id_for ctx :
  to_context_id (ContextNodeId_for_context_id ctx) = default ctx (ContextId_parse_temporal ctx).
Proof.
  unfold to_context_id.
  change (ContextNodeId_for_context_id ctx) with ("context:" +:+ ctx).
  by rewrite strip_prefix_app.
Qed.

(** A context identifier the runtime mints survives the trip through the
    graph: encoding it as a node identifier and decoding that node gives the
    identifier back; so does every identifier that does not parse as a
    temporal one, such as a delegated child context.  Task identifiers always
    survive. *)
Theorem node_ids_round_trip :
  (forall millis counter, is_u64 millis -> is_u64 counter ->
     to_context_id (ContextNodeId_for_context_id (ContextId_new millis counter))
     = ContextId_new millis counter) /\
  (forall ctx, ContextId_parse_temporal ctx = None ->
     to_context_id (ContextNodeId_for_context_id ctx) = ctx) /\
  (forall caller pkg inst child,
     let ctx := ContextId_for_a2a_child caller pkg inst child in
     to_context_id (ContextNodeId_for_context_id ctx) = ctx) /\
  (forall t, to_task_id (TaskNodeId_for_task_id t) = t).
Proof.
  split_and!.
  - intros. rewrite to_context_id_for. by rewrite ContextId_parse_new.
  - intros ctx H. by rewrite to_context_id_for, H.
  - intros. by rewrite to_context_id_for.
  - intros t. unfold to_task_id.
    change (TaskNodeId_for_task_id t) with ("task:" +:+ t). by rewrite strip_prefix_app.
Qed.

Lemma node_ids_round_trip_witness :
  to_context_id (ContextNodeId_for_context_id (ContextId_new 1700000000000 7))
  = ContextId_new 1700000000000 7.
Proof. apply (proj1 node_ids_round_trip); vm_compute; split; discriminate. Defined.

(** A caller-supplied context identifier that parses as a temporal one but
    is not in canonical form is rewritten by the trip through the graph: the
    task is written under one context and looked up under another. *)
Theorem node_ids_not_injective :
  exists ctx, to_context_id (ContextNodeId_for_context_id ctx) <> ctx.
Proof. exists "ctx-007-1". vm_compute. discriminate. Qed.

Lemma monotonic_counter_from_counter n :
  is_u64 n -> monotonic_counter_from_str (ActivityAnchorId_from_counter n) = Ok n.
Proof.
  intros H. unfold monotonic_counter_from_str, ActivityAnchorId_from_counter, MonotonicId_into_string.
  change ("prov" +:+ "-" +:+ show_Z n) with ("prov-" +:+ show_Z n).
  rewrite strip_prefix_app. unfold parse_u64, is_u64 in *. by rewrite parse_show_Z.
Qed.

(** ** The anchor counter: invariant *)
Section anchor_invariant.
Import Anchor.
Context (max_nanos : Z) (Hnanos : (0 <= max_nanos)%Z).

Definition pc_ok (c : Z) (p : pc) : Prop :=
  match p with
  | AtLoad | AtSeed => True
  | AtCas seed => (1 <= seed <= max_nanos + 65535)%Z
  | AtAdd current => (1 <= current <= c)%Z
  end.

Record anchor_inv (s : state) : Prop := {
  inv_range : (0 <= event_counter s <= max_nanos + 65535 + Z.of_nat (length (issued s)))%Z;
  inv_fresh : event_counter s = 0%Z -> issued s = [];
  inv_pcs : map_Forall (fun _ => pc_ok (event_counter s)) (threads s);
  inv_below : Forall (fun i => (0 < i < event_counter s)%Z) (issued s);
  inv_sorted : StronglySorted Z.gt (issued s)
}.

Lemma pc_ok_mono c c' p : (c <= c')%Z -> pc_ok c p -> pc_ok c' p.
Proof. destruct p; simpl; lia. Qed.

Lemma seed_range nanos pid :
  (0 <= nanos <= max_nanos)%Z -> (0 <= pid)%Z ->
  (1 <= seed_event_counter nanos pid <= max_nanos + 65535)%Z.
Proof.
  intros Hn Hp. unfold seed_event_counter, sat_add.
  assert (Hl : Z.land pid 65535 = (pid mod 2 ^ 16)%Z) by apply (Z.land_ones pid 16 ltac:(lia)).
  pose proof (Z.mod_pos_bound pid (2 ^ 16) ltac:(lia)). unfold u64_max. lia.
Qed.

Lemma set_pc_inv s t p :
  pc_ok (event_counter s) p -> anchor_inv s -> anchor_inv (set_pc s t (Some p)).
Proof.
  intros Hp [? ? Hpcs ? ?]. constructor; try done. simpl.
  change (map_Forall (fun _ => pc_ok (event_counter s)) (<[t := p]> (threads s))).
  by apply map_Forall_insert_2.
Qed.

Lemma thread_step_inv t nanos pid s s' :
  (0 <= nanos <= max_nanos)%Z -> (0 <= pid)%Z ->
  (max_nanos + 65535 + Z.of_nat (length (issued s')) <= u64_max)%Z ->
  thread_step t nanos pid s = Some s' -> anchor_inv s -> anchor_inv s'.
Proof.
  intros Hn Hpid Hbound Hstep Hinv. unfold thread_step in Hstep.
  destruct (threads s !! t) as [p|] eqn:Ht; simplify_eq/=.
  pose proof (inv_pcs s Hinv t p Ht) as Hp. pose proof (inv_range s Hinv).
  destruct p as [| |seed|current]; simplify_eq/=.
  - apply set_pc_inv; [|done]. destruct (Z.eqb_spec (event_counter s) 0); simpl; [done|lia].
  - apply set_pc_inv; [|done]. by apply seed_range.
  - destruct (Z.eqb_spec (event_counter s) 0) as [H0|]; simplify_eq.
    + destruct Hinv as [_ Hfresh Hpcs _ _]. specialize (Hfresh H0).
      constructor; simpl; rewrite ?Hfresh; [simpl; lia|lia| |by constructor..].
      apply map_Forall_insert_2; [simpl; lia|].
      eapply map_Forall_impl; [exact Hpcs|]. intros ? q. apply pc_ok_mono. lia.
    + apply set_pc_inv; [simpl; lia|done].
  - destruct Hinv as [_ Hfresh Hpcs Hbelow Hsorted]. rewrite Z.max_l in * by lia.
    rewrite wrap64_small in * by (unfold is_u64; simpl in Hbound; lia).
    constructor; simpl; try lia.
    + apply map_Forall_delete. eapply map_Forall_impl; [exact Hpcs|].
      intros ? q. apply pc_ok_mono. lia.
    + constructor; [lia|]. apply (Forall_impl _ _ _ Hbelow). simpl; lia.
    + constructor; [done|]. apply (Forall_impl _ _ _ Hbelow). simpl; lia.
Qed.

Lemma step_issued s s' :
  step max_nanos s s' -> (length (issued s) <= length (issued s'))%nat.
Proof.
  intros [t ?|t nanos pid ? ? _ _ H]; [done|]. unfold thread_step in H.
  destruct (threads s0 !! t) as [[]|]; simplify_eq/=; split_matches; lia.
Qed.

Lemma anchor_reachable_inv s :
  rtc (step max_nanos) init s ->
  (max_nanos + 65535 + Z.of_nat (length (issued s)) <= u64_max)%Z ->
  anchor_inv s.
Proof.
  intros Hr. revert s Hr. refine (rtc_ind_r _ _ _ _); [intros Hb|intros s s' _ Hstep IH Hb].
  - constructor; simpl; try done; try lia. constructor.
  - assert (anchor_inv s) as Hs by (apply IH; pose proof (step_issued _ _ Hstep); lia).
    destruct Hstep as [t s0 Hnone|]; [by apply set_pc_inv|by eapply thread_step_inv].
Qed.
End anchor_invariant.

(** C10: Activity anchors are unique and monotonic under every interleaving of
    concurrent callers: in any reachable state of any number of threads inside
    [next_activity_anchor_id], the identifiers handed out form a strictly
    increasing sequence in the order they were issued and print as distinct
    anchor strings, as long as the counter has room below [u64::MAX]. *)
Theorem anchors_unique_under_interleaving max_nanos s :
  (0 <= max_nanos)%Z ->
  rtc (Anchor.step max_nanos) Anchor.init s ->
  (max_nanos + 65535 + Z.of_nat (length (Anchor.issued s)) <= u64_max)%Z ->
  StronglySorted Z.gt (Anchor.issued s) /\
  NoDup (map ActivityAnchorId_from_counter (Anchor.issued s)).
Proof.
  intros Hn Hr Hb. pose proof (anchor_reachable_inv max_nanos Hn s Hr Hb) as [_ _ _ Hbelow Hsorted].
  split; [done|]. clear Hb Hr. induction Hsorted as [|i l Hs IH Hall]; simpl; [constructor|].
  apply Forall_cons in Hbelow as [Hi Hbelow]. constructor; [|by apply IH].
  rewrite list_elem_of_fmap. intros (j & Heq & Hj).
  rewrite Forall_forall in Hall, Hbelow. specialize (Hall j Hj). specialize (Hbelow j Hj).
  assert (i = j); [|lia]. apply show_Z_inj; [lia..|].
  unfold ActivityAnchorId_from_counter, MonotonicId_into_string in Heq.
  simpl in Heq. by injection Heq.
Qed.

Definition run_thread (t : nat) (nanos : Z) (s : Anchor.state) : Anchor.state :=
  default s (Anchor.thread_step t nanos 1 s).

(** Two threads race to seed the counter: both load 0, both read the clock,
    one compare-exchange wins. *)
Definition race_trace : Anchor.state :=
  let s0 := Anchor.set_pc (Anchor.set_pc Anchor.init 1 (Some Anchor.AtLoad)) 2 (Some Anchor.AtLoad) in
  fold_left (fun s '(t, n) => run_thread t n s)
    [(1, 0%Z); (2, 0%Z); (1, 500%Z); (2, 900%Z); (2, 0%Z); (1, 0%Z); (1, 0%Z); (2, 0%Z)]%nat s0.

Lemma run_all_rtc max_nanos (l : list (nat * Z)) s :
  Forall (fun tn => (0 <= snd tn <= max_nanos)%Z) l ->
  rtc (Anchor.step max_nanos) s (fold_left (fun s '(t, n) => run_thread t n s) l s).
Proof.
  intros Hl. revert s. induction Hl as [|[t n] l Hn _ IH]; intros s; simpl; [done|].
  unfold run_thread at 2. destruct (Anchor.thread_step t n 1 s) as [s'|] eqn:E; [|apply IH].
  eapply rtc_l; [|apply IH]. by apply (Anchor.step_run max_nanos t n 1 s s').
Qed.

Lemma anchors_unique_witness :
  Anchor.issued race_trace = [902; 901]%Z /\
  NoDup (map ActivityAnchorId_from_counter (Anchor.issued race_trace)).
Proof.
  split; [vm_compute; reflexivity|].
  apply (anchors_unique_under_interleaving 1000 race_trace); [lia| |vm_compute; discriminate].
  eapply rtc_l; [apply (Anchor.step_enter 1000 1); reflexivity|].
  eapply rtc_l; [apply (Anchor.step_enter 1000 2); reflexivity|].
  apply run_all_rtc. repeat constructor; simpl; lia.
Defined.
