(* ===== verification/A2aTypes.v ===== *)
(** * The A2A wire types and the task-status mapping

    The records of [baml-rt-a2a/src/a2a_types.rs], the typed status of
    [baml-rt-provenance/src/metamodel/events.rs] and the pure part of
    [baml-rt-a2a/src/a2a_store.rs]: status text to typed status and back,
    transcript text, provenance previews, chunk validation and the place the
    assistant message is read from.  The text of an [InvalidArgument] error
    is represented by the constructor of [InvalidArg] that names its site. *)

From stdpp Require Import base list strings gmap.
From Stdlib Require Import ZArith Lia Ascii.
From S2P Require Import Prelude RustStr Json Ids.

Open Scope string_scope.

(** ** Wire records *)

Inductive MessageRole := User | Agent.
Inductive TaskState := StateString (s : string) | StateInteger (z : Z).
Inductive NumberOrString := NSNumber (z : Z) | NSString (s : string).
Inductive MessageIdKind := Incoming | Outgoing.
Record A2aMessageId := mkMessageId { mid_id : MessageId; mid_kind : MessageIdKind }.

Record Part := mkPart {
  p_text : option string;
  p_data : option json;
  p_raw : option string;
  p_url : option string;
  p_filename : option string;
  p_media_type : option string;
  p_metadata : option (gmap string json);
  p_extra : gmap string json
}.

(** [..Default::default()] with only the text set. *)
Definition text_part (t : string) : Part := mkPart (Some t) None None None None None None ∅.

Record Message := mkMessage {
  m_message_id : A2aMessageId;
  m_role : MessageRole;
  m_parts : list Part;
  m_context_id : option ContextId;
  m_task_id : option TaskId;
  m_reference_task_ids : list TaskId;
  m_extensions : list string;
  m_metadata : option (gmap string json);
  m_extra : gmap string json
}.

Record Artifact := mkArtifact {
  a_artifact_id : option ArtifactId;
  a_name : option string;
  a_description : option string;
  a_parts : list Part;
  a_metadata : option (gmap string json);
  a_extensions : list string;
  a_extra : gmap string json
}.

(** [Artifact::default()]. *)
Definition Artifact_default : Artifact := mkArtifact None None None [] None [] ∅.

Record TaskStatus := mkTaskStatus {
  ts_state : option TaskState;
  ts_message : option Message;
  ts_timestamp : option string;
  ts_extra : gmap string json
}.

Record Task := mkTask {
  t_id : option TaskId;
  t_context_id : option ContextId;
  t_artifacts : list Artifact;
  t_history : list Message;
  t_status : option TaskStatus;
  t_metadata : option (gmap string json);
  t_extra : gmap string json
}.

Record TaskStatusUpdateEvent := mkStatusUpdate {
  su_context_id : option ContextId;
  su_task_id : option TaskId;
  su_status : option TaskStatus;
  su_metadata : option (gmap string json);
  su_extra : gmap string json
}.

Record TaskArtifactUpdateEvent := mkArtifactUpdate {
  au_context_id : option ContextId;
  au_task_id : option TaskId;
  au_last_chunk : option bool;
  au_append : option bool;
  au_artifact : option Artifact;
  au_metadata : option (gmap string json);
  au_extra : gmap string json
}.

Record StreamResponse := mkStreamResponse {
  sr_message : option Message;
  sr_task_payload : option Task;
  sr_status_update : option TaskStatusUpdateEvent;
  sr_artifact_update : option TaskArtifactUpdateEvent;
  sr_extra : gmap string json
}.

Record ListTasksRequest := mkListRequest {
  lq_context_id : option ContextId;
  lq_history_length : option NumberOrString;
  lq_include_artifacts : option bool;
  lq_page_size : option NumberOrString;
  lq_page_token : option string;
  lq_status : option TaskState
}.

Record ListTasksResponse := mkListResponse {
  lr_tasks : list Task;
  lr_next_page_token : option string;
  lr_total_size : option Z;
  lr_page_size : option Z
}.

Inductive TaskUpdateEvent :=
| UpdStatus (e : TaskStatusUpdateEvent)
| UpdArtifact (e : TaskArtifactUpdateEvent).

(** [NumberOrString::as_usize]. *)
Definition as_usize (v : NumberOrString) : option Z :=
  match v with
  | NSNumber value => if (0 <=? value)%Z then Some value else None
  | NSString value => parse_usize value
  end.

(** ** Typed status *)

(** [NonEmptyString]: constructible from text that is not blank. *)
Definition NonEmptyString := string.
Definition NonEmptyString_new (raw : string) : result NonEmptyString unit :=
  if is_empty_str (trim raw) then Err tt else Ok raw.

Inductive TaskStatusKind :=
| Submitted
| Working
| InputRequired (prompt : string)
| AuthRequired
| Completed
| Failed (reason : NonEmptyString)
| Canceled
| Rejected.

#[global] Instance TaskStatusKind_eq_dec : EqDecision TaskStatusKind.
Proof. solve_decision. Defined.

(** [TaskStatusKind::as_wire_str]. *)
Definition as_wire_str (k : TaskStatusKind) : string :=
  match k with
  | Submitted => "TASK_STATE_SUBMITTED"
  | Working => "TASK_STATE_WORKING"
  | InputRequired _ => "TASK_STATE_INPUT_REQUIRED"
  | AuthRequired => "TASK_STATE_AUTH_REQUIRED"
  | Completed => "TASK_STATE_COMPLETED"
  | Failed _ => "TASK_STATE_FAILED"
  | Canceled => "TASK_STATE_CANCELED"
  | Rejected => "TASK_STATE_REJECTED"
  end.

(** [TaskStatusKind::is_terminal]. *)
Definition kind_is_terminal (k : TaskStatusKind) : bool :=
  match k with
  | Completed | Failed _ | Canceled | Rejected => true
  | _ => false
  end.

Record A2ATaskStateProps := mkStateProps {
  st_task : TaskNodeId;
  st_new_status : TaskStatusKind;
  st_old_status : option TaskStatusKind;
  st_transitioned_at_ms : Z;
  st_activity_anchor : ActivityAnchorId
}.

Definition S_SUBMITTED := "TASK_STATE_SUBMITTED".
Definition S_WORKING := "TASK_STATE_WORKING".
Definition S_COMPLETED := "TASK_STATE_COMPLETED".
Definition S_FAILED := "TASK_STATE_FAILED".
Definition S_CANCELED := "TASK_STATE_CANCELED".
Definition S_REJECTED := "TASK_STATE_REJECTED".
Definition S_INPUT_REQUIRED := "TASK_STATE_INPUT_REQUIRED".
Definition S_AUTH_REQUIRED := "TASK_STATE_AUTH_REQUIRED".

Definition is_terminal_state (s : string) : bool :=
  String.eqb s S_COMPLETED || String.eqb s S_FAILED ||
  String.eqb s S_CANCELED || String.eqb s S_REJECTED.

(** ** Errors *)

Inductive InvalidArg :=
| MissingState
| InputRequiredNeedsText
| FailedNeedsReason
| FailedReasonEmpty
| UnsupportedState (raw : string)
| BadReplayCursor (anchor : string)
| ChunkNeedsTask
| ContextIdRequired (operation : string).

(** ** Status text to typed status ([a2a_store.rs]) *)

Definition status_to_string (status : TaskStatus) : option string :=
  match ts_state status with
  | Some (StateString value) => Some value
  | Some (StateInteger value) => Some (show_Z value)
  | None => None
  end.

(** The non-blank trimmed text of one part. *)
Definition part_line (part : Part) : option string :=
  opt_filter (fun t => negb (is_empty_str t)) (trim <$> p_text part).

Definition transcript_text_from_wire_status_message (msg : Message) : option string :=
  match omap part_line (m_parts msg) with
  | [] => None
  | lines => Some (join nl_str lines)
  end.

Definition reason_from_extra (extra : gmap string json) : option string :=
  let at_key key := opt_filter (fun t => negb (is_empty_str t))
                      (trim <$> (extra !! key ≫= as_str)) in
  opt_or (at_key "error_reason") (at_key "errorReason").

(** [WireFailedTaskStatus::try_parse]. *)
Definition WireFailedTaskStatus_try_parse (status : TaskStatus) : result NonEmptyString InvalidArg :=
  let from_extra := reason_from_extra (ts_extra status) in
  let from_message :=
    opt_filter (fun s => negb (is_empty_str s))
      (trim <$> (ts_message status ≫= transcript_text_from_wire_status_message)) in
  let? reason_str := ok_or (opt_or from_extra from_message) FailedNeedsReason in
  map_err (fun _ => FailedReasonEmpty) (NonEmptyString_new reason_str).

Definition parse_tag_only_task_status_kind (raw : string) : option TaskStatusKind :=
  let any := existsb (String.eqb raw) in
  if any [S_SUBMITTED; "submitted"] then Some Submitted
  else if any [S_WORKING; "working"] then Some Working
  else if any [S_AUTH_REQUIRED; "auth-required"; "auth_required"] then Some AuthRequired
  else if any [S_COMPLETED; "completed"] then Some Completed
  else if any [S_CANCELED; "canceled"; "cancelled"] then Some Canceled
  else if any [S_REJECTED; "rejected"] then Some Rejected
  else None.

Definition wire_status_to_kind (status : TaskStatus) : result TaskStatusKind InvalidArg :=
  let? raw := ok_or (status_to_string status) MissingState in
  if String.eqb raw S_INPUT_REQUIRED then
    let? prompt := ok_or (ts_message status ≫= transcript_text_from_wire_status_message)
                     InputRequiredNeedsText in
    Ok (InputRequired prompt)
  else if String.eqb raw S_FAILED then
    let? reason := WireFailedTaskStatus_try_parse status in
    Ok (Failed reason)
  else ok_or (parse_tag_only_task_status_kind raw) (UnsupportedState raw).

Definition should_strip_wire_task_id_for_message_send_stream (task : option Task) : bool :=
  match task with
  | None => true
  | Some t =>
      match t_status t ≫= status_to_string with
      | None => true
      | Some st => is_terminal_state st
      end
  end.

(** ** Typed status to wire status ([task_subgraph_store.rs]) *)

Section wire_status.
(** [DefaultHasher] over the task id and the prompt, printed in hexadecimal. *)
Context (hash_hex : TaskId -> string -> string).

Definition ir_transcript_external_id (task_id : TaskId) (prompt : string) : string :=
  task_id +:+ "-ir-" +:+ hash_hex task_id prompt.

Definition prompt_to_status_message (task_id : TaskId) (context_id : ContextId) (prompt : string)
    : Message :=
  mkMessage (mkMessageId (ir_transcript_external_id task_id prompt) Incoming) Agent
    [text_part prompt] (Some context_id) (Some task_id) [] [] None ∅.

Definition status_kind_to_wire_status (task_id : TaskId) (context_id : ContextId)
    (state : A2ATaskStateProps) : TaskStatus :=
  let st := Some (StateString (as_wire_str (st_new_status state))) in
  let at_ := Some (show_Z (st_transitioned_at_ms state)) in
  match st_new_status state with
  | InputRequired prompt =>
      mkTaskStatus st (Some (prompt_to_status_message task_id context_id prompt)) at_ ∅
  | Failed reason => mkTaskStatus st None at_ (<["error_reason" := JStr reason]> ∅)
  | _ => mkTaskStatus st None at_ ∅
  end.

Definition status_is_input_required (status : TaskStatus) : bool :=
  match ts_state status with
  | Some (StateString s) => String.eqb s S_INPUT_REQUIRED
  | _ => false
  end.

Definition input_required_transcript_message (task_id : TaskId) (context_id : ContextId)
    (status : TaskStatus) : option Message :=
  if negb (status_is_input_required status) then None else
  wire ← ts_message status;
  text ← transcript_text_from_wire_status_message wire;
  Some (prompt_to_status_message task_id context_id text).
End wire_status.

(** ** Previews for provenance ([a2a_store.rs]) *)

Definition STRUCTURED_PREVIEW_MAX_BYTES : nat := Z.to_nat 8192.

(** The UTF-8 encoding of the ellipsis character. *)
Definition ellipsis : string :=
  String (ascii_of_nat 226) (String (ascii_of_nat 128) (String (ascii_of_nat 166) EmptyString)).

(** [while end > 0 && !s.is_char_boundary(end) { end -= 1 }]. *)
Fixpoint back_to_boundary (s : string) (e : nat) : nat :=
  match e with
  | O => O
  | S e' => if is_char_boundary s e then e else back_to_boundary s e'
  end.

(** [String::truncate] panics off a character boundary. *)
Definition str_truncate (s : string) (n : nat) : outcome string :=
  if (String.length s <? n)%nat then Done s
  else if is_char_boundary s n then Done (str_take n s) else Panic.

Definition truncate_utf8_owned (s : string) (max_bytes : nat) : outcome string :=
  if (String.length s <=? max_bytes)%nat then Done s
  else
    let e := back_to_boundary s (max_bytes - 1) in
    let! t := str_truncate s e in
    Done (t +:+ ellipsis).

Definition file_part_preview (part : Part) : string :=
  let bits := (option_list ((fun u => "url=" +:+ u) <$> p_url part) ++
               option_list ((fun f => "file=" +:+ f) <$> p_filename part))%list in
  match bits with
  | [] => "[file part]"
  | _ => "[file part] " +:+ join " " bits
  end.

Section previews.
(** [serde_json::to_string] of a value. *)
Context (json_to_string : json -> string).

Definition json_preview_for_provenance (value : json) : outcome string :=
  truncate_utf8_owned (json_to_string value) STRUCTURED_PREVIEW_MAX_BYTES.

Definition raw_preview_for_provenance (raw : string) : outcome string :=
  truncate_utf8_owned raw STRUCTURED_PREVIEW_MAX_BYTES.

(** What one part contributes: nothing, or one entry. *)
Definition part_content (part : Part) : outcome (option string) :=
  match p_text part with
  | Some text =>
      Done (let trimmed := trim text in if is_empty_str trimmed then None else Some trimmed)
  | None =>
      match p_data part with
      | Some data => let! s := json_preview_for_provenance data in Done (Some s)
      | None =>
          if is_some (p_url part) || is_some (p_filename part)
          then Done (Some (file_part_preview part))
          else match p_raw part with
               | Some raw => let! s := raw_preview_for_provenance raw in Done (Some s)
               | None => Done None
               end
      end
  end.

Fixpoint parts_content (parts : list Part) : outcome (list string) :=
  match parts with
  | [] => Done []
  | part :: rest =>
      let! c := part_content part in
      let! cs := parts_content rest in
      Done (match c with Some s => s :: cs | None => cs end)
  end.

Definition validated_message_content (message : Message) : outcome (list string) :=
  parts_content (m_parts message).
End previews.

Definition metadata_string_map (metadata : gmap string json) : gmap string string :=
  omap as_str metadata.

Definition ensure_agent_id_in_metadata (metadata : option (gmap string json)) (agent_id : AgentId)
    : option (gmap string json) :=
  match metadata with
  | Some m => if is_some (m !! "agent_id") then Some m
              else Some (<["agent_id" := JStr agent_id]> m)
  | None => Some (<["agent_id" := JStr agent_id]> ∅)
  end.

Definition require_context_id (context_id : option ContextId) (operation : string)
    : result ContextId InvalidArg :=
  ok_or context_id (ContextIdRequired operation).

(** ** Chunks *)

(** [ValidatedTaskChunk::try_from(StreamResponse)]; the wrapper has one
    field, so a validated chunk is the stream response itself. *)
Definition ValidatedTaskChunk_try_from (stream : StreamResponse) : result StreamResponse InvalidArg :=
  if negb (is_some (sr_task_payload stream)) &&
     (is_some (sr_status_update stream) || is_some (sr_artifact_update stream))
  then Err ChunkNeedsTask
  else Ok stream.

Inductive ResolvedAssistantMessage :=
| TopLevel (m : Message)
| FromStatusUpdate (envelope : TaskStatusUpdateEvent) (m : Message)
| FromTaskStatus (envelope : Task) (m : Message)
| NoMessage.

Definition resolved_assistant_message (chunk : StreamResponse) : ResolvedAssistantMessage :=
  match sr_message chunk with
  | Some m => TopLevel m
  | None =>
      match sr_status_update chunk ≫= (fun su => (su,.) <$> (su_status su ≫= ts_message)) with
      | Some (su, m) => FromStatusUpdate su m
      | None =>
          match sr_task_payload chunk ≫= (fun t => (t,.) <$> (t_status t ≫= ts_message)) with
          | Some (t, m) => FromTaskStatus t m
          | None => NoMessage
          end
      end
  end.

Definition with_scope (m : Message) (ctx : option ContextId) (task : option TaskId) : Message :=
  mkMessage (m_message_id m) (m_role m) (m_parts m)
    (opt_or (m_context_id m) ctx) (opt_or (m_task_id m) task)
    (m_reference_task_ids m) (m_extensions m) (m_metadata m) (m_extra m).

Definition scoped_owned (r : ResolvedAssistantMessage) : option Message :=
  match r with
  | TopLevel m => Some m
  | FromStatusUpdate env m => Some (with_scope m (su_context_id env) (su_task_id env))
  | FromTaskStatus env m => Some (with_scope m (t_context_id env) (t_id env))
  | NoMessage => None
  end.

(** ** Theorems *)

(** A typed status the runtime can have stored: its payload is the trimmed,
    non-empty text the wire parser produces. *)
Definition kind_wf (k : TaskStatusKind) : Prop :=
  match k with
  | InputRequired p | Failed p => trim p = p /\ is_empty_str p = false
  | _ => True
  end.

#[global] Instance kind_wf_dec k : Decision (kind_wf k).
Proof. destruct k; simpl; apply _. Defined.

Lemma kind_terminal_wire k : is_terminal_state (as_wire_str k) = kind_is_terminal k.
Proof. by destruct k. Qed.

Lemma transcript_text_single p m :
  m_parts m = [text_part p] -> trim p = p -> is_empty_str p = false ->
  transcript_text_from_wire_status_message m = Some p.
Proof.
  intros Hm Ht He. unfold transcript_text_from_wire_status_message. rewrite Hm. csimpl.
  unfold part_line, text_part. simpl. by rewrite Ht, He.
Qed.

(** Storing a task status and reading it back loses nothing: the wire status
    the task store renders for a typed state parses to that same typed state,
    prompt and failure reason included. *)
Theorem status_wire_round_trip hash_hex task_id context_id state :
  kind_wf (st_new_status state) ->
  wire_status_to_kind (status_kind_to_wire_status hash_hex task_id context_id state)
  = Ok (st_new_status state).
Proof.
  unfold status_kind_to_wire_status. destruct (st_new_status state) as [| |p| | |r| |] eqn:E;
    simpl; intros Hwf; rewrite ?E; try reflexivity; destruct Hwf as [Ht He].
  - unfold wire_status_to_kind. simpl. by rewrite (transcript_text_single p).
  - unfold wire_status_to_kind, WireFailedTaskStatus_try_parse, reason_from_extra. simpl.
    rewrite lookup_insert_eq. simpl. rewrite Ht, He. simpl.
    unfold NonEmptyString_new. by rewrite Ht, He.
Qed.

Lemma status_wire_round_trip_witness :
  wire_status_to_kind (status_kind_to_wire_status (fun _ _ => "0") "t1" "ctx-1-1"
    (mkStateProps "task:t1" (InputRequired "which branch?") (Some Working) 5 "prov-9"))
  = Ok (InputRequired "which branch?").
Proof. apply status_wire_round_trip. vm_compute. done. Defined.

Lemma back_to_boundary_ok s e :
  (back_to_boundary s e <= e)%nat /\ is_char_boundary s (back_to_boundary s e) = true.
Proof.
  induction e as [|e [IH1 IH2]]; simpl; [done|]. case_match; [done|]. split; [lia|done].
Qed.

(** Truncating a preview never panics and never splits a character: the
    result is the text itself when it fits, and otherwise a valid prefix of it
    followed by an ellipsis, at most two bytes over the limit. *)
Theorem truncate_utf8_safe s max_bytes :
  valid_utf8 s = true ->
  exists t, truncate_utf8_owned s max_bytes = Done t /\ valid_utf8 t = true /\
    (t = s \/
     exists e, (e < String.length s)%nat /\ t = str_take e s +:+ ellipsis /\
       valid_utf8 (str_take e s) = true /\
       (String.length t <= Nat.max max_bytes 1 + 2)%nat).
Proof.
  intros Hv. unfold truncate_utf8_owned. case_match eqn:Hl; [by exists s; auto|].
  apply Nat.leb_gt in Hl.
  destruct (back_to_boundary_ok s (max_bytes - 1)) as [He Hb].
  set (e := back_to_boundary s (max_bytes - 1)) in *. unfold str_truncate.
  rewrite (proj2 (Nat.ltb_ge _ _)) by lia. rewrite Hb. simpl.
  destruct (valid_utf8_cut s e Hv Hb) as [Ht _].
  exists (str_take e s +:+ ellipsis). split_and!; [done| |right].
  - by apply valid_utf8_app.
  - exists e. split_and!; [lia|done|done|].
    rewrite str_app_length, str_take_length. simpl. lia.
Qed.

Lemma truncate_utf8_safe_witness :
  exists t, truncate_utf8_owned "hello" 4 = Done t /\ valid_utf8 t = true.
Proof. destruct (truncate_utf8_safe "hello" 4 eq_refl) as (t & H1 & H2 & _). by exists t. Defined.

(** The limit of [truncate_utf8_owned] is not kept: one byte is reserved for
    the ellipsis, which takes three, so a truncated preview can be two bytes
    longer than [max_bytes], and longer than the text it shortens. *)
Theorem truncate_exceeds_limit :
  exists s t, truncate_utf8_owned s 4 = Done t /\
    (String.length t = 4 + 2)%nat /\ (String.length s < String.length t)%nat.
Proof. exists "hello", ("hel" +:+ ellipsis). vm_compute. repeat split; lia. Qed.
