(* ===== verification/Broadcaster.v ===== *)
(** * Live task-update channels
    ([baml-rt-a2a/src/task_update_broadcaster.rs])

    A registry of broadcast channels keyed by (context, task), split over 16
    shards by the key's hash.  A channel is a cell of a shared store: the
    registry, the writers and the receivers hold its name, so a channel taken
    out of the registry lives on for the handles that still have it.

    Of the channel library the model keeps the documented behaviour the file
    relies on: a channel counts its senders and receivers; a send to a channel
    without receivers fails and stores nothing; the channel is a ring that
    keeps its last frames only, at least as many as the capacity asked for
    ([ring_size], a parameter: the library rounds capacities up); a receiver
    reads the frames sent after it subscribed, is told how many it missed when
    the ring has overwritten its next one ([Lagged]), and finds the channel
    closed when it has read everything and no sender is left. *)

From stdpp Require Import base list strings gmap.
From Stdlib Require Import ZArith Lia Ascii.
From S2P Require Import Prelude RustStr Json Ids A2aTypes.

Record TaskReplayCursor := mkCursor { cur_event_order : Z; cur_anchor : ActivityAnchorId }.

(** [TaskReplayCursor::from_anchor]. *)
Definition TaskReplayCursor_from_anchor (anchor : ActivityAnchorId) : result TaskReplayCursor string :=
  let? event_order := monotonic_counter_from_str anchor in
  Ok (mkCursor event_order anchor).

Record MessageRef := mkMessageRef { mr_context_id : ContextId; mr_message_id : MessageId }.
Record ArtifactRef := mkArtifactRef {
  ar_task_id : TaskId;
  ar_artifact_id : option ArtifactId;
  ar_artifact_type : option string
}.

Inductive TaskUpdateFrame :=
| StatusTransition (state : A2ATaskStateProps) (cursor : TaskReplayCursor)
| ArtifactGenerated (artifact : ArtifactRef) (cursor : TaskReplayCursor)
| MessageReceived (message : MessageRef) (cursor : TaskReplayCursor)
| MessageSent (message : MessageRef) (cursor : TaskReplayCursor).

Record TaskStreamKey := mkKey { k_ctx : ContextId; k_task : TaskId }.

#[global] Instance TaskStreamKey_eq_dec : EqDecision TaskStreamKey.
Proof. solve_decision. Defined.
#[global] Program Instance TaskStreamKey_countable : Countable TaskStreamKey :=
  inj_countable (fun k => (k_ctx k, k_task k)) (fun p => Some (mkKey (fst p) (snd p))) _.
Next Obligation. by intros []. Qed.

Definition SHARD_COUNT : nat := 16.
Definition DEFAULT_CAPACITY : Z := 256.

(** One broadcast channel: the frames sent so far, of which the ring keeps the
    last, its live receivers and its live senders. *)
Record Channel := mkChannel { ch_log : list TaskUpdateFrame; ch_receivers : nat; ch_senders : nat }.

Record Broadcaster := mkBroadcaster {
  b_shards : list (gmap TaskStreamKey nat);
  b_capacity : Z;
  b_channels : gmap nat Channel;
  b_next : nat
}.

(** A receiver remembers the channel and the position of its next frame. *)
Record Receiver := mkReceiver { r_chan : nat; r_next : nat }.
Record TaskStreamWriter := mkWriter { w_key : TaskStreamKey; w_sender : nat }.

(** What [Receiver::recv] has to report; with [GotNothing] it waits. *)
Inductive recv_result :=
| GotFrame (frame : TaskUpdateFrame)
| GotLagged (missed : nat)
| GotClosed
| GotNothing.

Definition set_channels (b : Broadcaster) (chs : gmap nat Channel) : Broadcaster :=
  mkBroadcaster (b_shards b) (b_capacity b) chs (b_next b).

(** Cloning and dropping a [Sender], dropping a [Receiver]. *)
Definition clone_sender (c : nat) (b : Broadcaster) : Broadcaster :=
  set_channels b (alter (fun ch => mkChannel (ch_log ch) (ch_receivers ch) (S (ch_senders ch))) c (b_channels b)).
Definition drop_sender (c : nat) (b : Broadcaster) : Broadcaster :=
  set_channels b (alter (fun ch => mkChannel (ch_log ch) (ch_receivers ch) (pred (ch_senders ch))) c (b_channels b)).
Definition drop_receiver (r : Receiver) (b : Broadcaster) : Broadcaster :=
  set_channels b (alter (fun ch => mkChannel (ch_log ch) (pred (ch_receivers ch)) (ch_senders ch)) (r_chan r) (b_channels b)).

Section broadcaster.
(** The key's [Hash] under [DefaultHasher], as an unsigned 64-bit value. *)
Context (hash : TaskStreamKey -> Z).

Definition with_capacity (capacity : Z) : Broadcaster :=
  mkBroadcaster (replicate SHARD_COUNT ∅) (Z.max capacity 1) ∅ 0.

Definition shard_index (key : TaskStreamKey) : nat :=
  Z.to_nat (Z.land (hash key) (Z.of_nat SHARD_COUNT - 1)).

Definition shard_for (b : Broadcaster) (key : TaskStreamKey) : gmap TaskStreamKey nat :=
  default ∅ (b_shards b !! shard_index key).

Definition set_shard (b : Broadcaster) (key : TaskStreamKey) (m : gmap TaskStreamKey nat)
    : list (gmap TaskStreamKey nat) :=
  <[shard_index key := m]> (b_shards b).

(** The channel of a key; a new one has the registry's sender. *)
Definition ensure_sender (b : Broadcaster) (key : TaskStreamKey) : Broadcaster * nat :=
  match shard_for b key !! key with
  | Some existing => (b, existing)
  | None =>
      let c := b_next b in
      (mkBroadcaster (set_shard b key (<[key := c]> (shard_for b key))) (b_capacity b)
         (<[c := mkChannel [] 0 1]> (b_channels b)) (S c), c)
  end.

(** [Inner::retire]: the removed entry drops its sender. *)
Definition retire (b : Broadcaster) (key : TaskStreamKey) : Broadcaster :=
  match shard_for b key !! key with
  | Some c => drop_sender c (mkBroadcaster (set_shard b key (delete key (shard_for b key))) (b_capacity b)
                               (b_channels b) (b_next b))
  | None => b
  end.

Definition subscribe (b : Broadcaster) (key : TaskStreamKey) : Broadcaster * Receiver :=
  let '(b1, c) := ensure_sender b key in
  let ch := default (mkChannel [] 0 0) (b_channels b1 !! c) in
  (set_channels b1 (<[c := mkChannel (ch_log ch) (S (ch_receivers ch)) (ch_senders ch)]> (b_channels b1)),
   mkReceiver c (length (ch_log ch))).

Definition writer (b : Broadcaster) (key : TaskStreamKey) : Broadcaster * TaskStreamWriter :=
  let '(b1, c) := ensure_sender b key in (clone_sender c b1, mkWriter key c).

(** [TaskStreamWriter::send]: the number of receivers, or the frame back. *)
Definition send (b : Broadcaster) (w : TaskStreamWriter) (frame : TaskUpdateFrame)
    : Broadcaster * result nat TaskUpdateFrame :=
  let ch := default (mkChannel [] 0 0) (b_channels b !! w_sender w) in
  match ch_receivers ch with
  | O => (b, Err frame)
  | n => (set_channels b (<[w_sender w := mkChannel ((ch_log ch ++ [frame])%list) n (ch_senders ch)]> (b_channels b)), Ok n)
  end.

Definition drop_writer (b : Broadcaster) (w : TaskStreamWriter) : Broadcaster := drop_sender (w_sender w) b.

(** [TaskStreamWriter::retire_task], which consumes the writer; the registry
    outlives its writers here. *)
Definition retire_task (b : Broadcaster) (w : TaskStreamWriter) : Broadcaster :=
  drop_writer (retire b (w_key w)) w.

(** [Receiver::recv] on a ring that keeps the last [size] frames. *)
Definition recv (size : nat) (b : Broadcaster) (r : Receiver) : recv_result * Receiver :=
  match b_channels b !! r_chan r with
  | Some ch =>
      let sent := length (ch_log ch) in
      if (r_next r + size <? sent)%nat
      then (GotLagged (sent - size - r_next r), mkReceiver (r_chan r) (sent - size))
      else match ch_log ch !! r_next r with
           | Some f => (GotFrame f, mkReceiver (r_chan r) (S (r_next r)))
           | None => (if (ch_senders ch =? 0)%nat then GotClosed else GotNothing, r)
           end
  | None => (GotClosed, r)
  end.

(** The frames a receiver has not read yet, those the ring has overwritten
    included. *)
Definition unread (b : Broadcaster) (r : Receiver) : list TaskUpdateFrame :=
  match b_channels b !! r_chan r with
  | Some ch => drop (r_next r) (ch_log ch)
  | None => []
  end.

(** [n] receives, one after the other. *)
Fixpoint recvs (size n : nat) (b : Broadcaster) (r : Receiver) : list recv_result :=
  match n with
  | O => []
  | S n => let '(a, r') := recv size b r in a :: recvs size n b r'
  end.

(** The registry as one flat map. *)
Definition channel_of (b : Broadcaster) (key : TaskStreamKey) : option nat :=
  shard_for b key !! key.

Lemma shard_index_lt k : (shard_index k < SHARD_COUNT)%nat.
Proof.
  unfold shard_index, SHARD_COUNT.
  pose proof (Z.land_ones (hash k) 4 ltac:(lia)) as H. change (Z.ones 4) with (Z.of_nat 16 - 1)%Z in H.
  rewrite H. pose proof (Z.mod_pos_bound (hash k) (2 ^ 4) ltac:(lia)). lia.
Qed.

(** Sharding is invisible: writing one shard is updating the flat map. *)
Lemma channel_of_set b cap chs n (f : gmap TaskStreamKey nat -> gmap TaskStreamKey nat) k k' :
  length (b_shards b) = SHARD_COUNT ->
  (forall m, k' <> k -> f m !! k' = m !! k') ->
  channel_of (mkBroadcaster (set_shard b k (f (shard_for b k))) cap chs n) k' =
  (if decide (k' = k) then f (shard_for b k) !! k else channel_of b k').
Proof.
  intros Hl Hf. unfold channel_of, set_shard. unfold shard_for at 1. simpl.
  pose proof (shard_index_lt k). destruct (decide (k' = k)) as [->|Hne].
  - by rewrite list_lookup_insert_eq by lia.
  - destruct (decide (shard_index k' = shard_index k)) as [Hs|Hs].
    + rewrite Hs, list_lookup_insert_eq by lia. simpl. rewrite Hf by done.
      unfold shard_for. by rewrite Hs.
    + by rewrite list_lookup_insert_ne by done.
Qed.

Lemma channel_of_new capacity k : channel_of (with_capacity capacity) k = None.
Proof.
  unfold channel_of, shard_for, with_capacity. cbn [b_shards].
  by rewrite (lookup_replicate_2 _ _ _ (shard_index_lt k)).
Qed.

Lemma channel_of_ensure b k k' :
  length (b_shards b) = SHARD_COUNT ->
  channel_of (ensure_sender b k).1 k' =
  (if decide (k' = k) then Some (ensure_sender b k).2 else channel_of b k').
Proof.
  intros Hwf. unfold ensure_sender. destruct (shard_for b k !! k) as [c|] eqn:E; simpl.
  - case_decide; [by subst|done].
  - rewrite (channel_of_set b _ _ _ (fun m => <[k := b_next b]> m) k k'); [|done|].
    + case_decide; [by rewrite lookup_insert_eq|done].
    + intros m Hne. by rewrite lookup_insert_ne.
Qed.

Lemma channel_of_retire b k k' :
  length (b_shards b) = SHARD_COUNT ->
  channel_of (retire b k) k' = if decide (k' = k) then None else channel_of b k'.
Proof.
  intros Hwf. unfold retire. destruct (shard_for b k !! k) as [c|] eqn:E.
  - unfold drop_sender. change (channel_of (set_channels ?x _) k') with (channel_of x k').
    rewrite (channel_of_set b _ _ _ (fun m => delete k m) k k'); [|done|].
    + case_decide; [by rewrite lookup_delete_eq|done].
    + intros m Hne. by rewrite lookup_delete_ne.
  - case_decide; [by subst|done].
Qed.
(** A receiver that is at most [size] frames behind reads all of them. *)
Lemma recvs_unread size b r :
  (length (unread b r) <= size)%nat -> recvs size (length (unread b r)) b r = GotFrame <$> unread b r.
Proof.
  unfold unread. destruct (b_channels b !! r_chan r) as [ch|] eqn:Hch; [|done].
  remember (drop (r_next r) (ch_log ch)) as l eqn:El. revert r Hch El.
  induction l as [|f l IH]; intros r Hch El Hle; [done|]. csimpl. unfold recv. rewrite Hch.
  assert (Hn : (length (f :: l) = length (ch_log ch) - r_next r)%nat) by (by rewrite El, length_drop).
  simpl in Hn, Hle. rewrite (proj2 (Nat.ltb_ge _ _)) by lia.
  assert (ch_log ch !! r_next r = Some f) as Hf by (rewrite <-(Nat.add_0_r (r_next r)), <-lookup_drop, <-El; done).
  rewrite Hf. f_equal. apply IH; [done| |lia]. simpl.
  rewrite (drop_S _ _ _ Hf) in El. by injection El.
Qed.

(** One that is further behind is told by how much. *)
Lemma recv_lagged size b r :
  (size < length (unread b r))%nat -> (recv size b r).1 = GotLagged (length (unread b r) - size).
Proof.
  unfold unread, recv. destruct (b_channels b !! r_chan r) as [ch|]; simpl; [|lia]. rewrite length_drop. intros Hlt.
  rewrite (proj2 (Nat.ltb_lt _ _)) by lia. simpl. f_equal. lia.
Qed.
End broadcaster.

(** ** Programs over the registry *)

Module Mailboxes.
Section mailboxes.
Context (hash : TaskStreamKey -> Z).
Notation subscribe := (subscribe hash).
Notation writer := (writer hash).
Notation retire := (retire hash).
Notation retire_task := (retire_task hash).
Notation channel_of := (channel_of hash).
Notation ensure_sender := (ensure_sender hash).

(** The registry with the writers and receivers handed out; [None] is a handle
    that was dropped. *)
Record host := mkHost {
  h_registry : Broadcaster;
  h_writers : list (option TaskStreamWriter);
  h_receivers : list (option Receiver)
}.

Inductive op :=
| OpSubscribe (k : TaskStreamKey)
| OpWriter (k : TaskStreamKey)
| OpSend (i : nat) (f : TaskUpdateFrame)
| OpDropWriter (i : nat)
| OpRetireTask (i : nat)
| OpRetire (k : TaskStreamKey)
| OpRecv (j : nat)
| OpDropReceiver (j : nat).

(** What an operation reports. *)
Inductive answer :=
| Made
| Sent (r : result nat TaskUpdateFrame)
| Received (r : recv_result)
| NoHandle.

Section programs.
(** The size of the ring made for a capacity. *)
Context (ring_size : Z -> nat).

Definition run_op (h : host) (o : op) : host * answer :=
  let b := h_registry h in
  match o with
  | OpSubscribe k =>
      let '(b1, r) := subscribe b k in (mkHost b1 (h_writers h) ((h_receivers h ++ [Some r])%list), Made)
  | OpWriter k =>
      let '(b1, w) := writer b k in (mkHost b1 ((h_writers h ++ [Some w])%list) (h_receivers h), Made)
  | OpSend i f =>
      match h_writers h !! i with
      | Some (Some w) => let '(b1, r) := send b w f in (mkHost b1 (h_writers h) (h_receivers h), Sent r)
      | _ => (h, NoHandle)
      end
  | OpDropWriter i =>
      match h_writers h !! i with
      | Some (Some w) => (mkHost (drop_writer b w) (<[i := None]> (h_writers h)) (h_receivers h), Made)
      | _ => (h, NoHandle)
      end
  | OpRetireTask i =>
      match h_writers h !! i with
      | Some (Some w) => (mkHost (retire_task b w) (<[i := None]> (h_writers h)) (h_receivers h), Made)
      | _ => (h, NoHandle)
      end
  | OpRetire k => (mkHost (retire b k) (h_writers h) (h_receivers h), Made)
  | OpRecv j =>
      match h_receivers h !! j with
      | Some (Some r) =>
          let '(a, r') := recv (ring_size (b_capacity b)) b r in
          (mkHost b (h_writers h) (<[j := Some r']> (h_receivers h)), Received a)
      | _ => (h, NoHandle)
      end
  | OpDropReceiver j =>
      match h_receivers h !! j with
      | Some (Some r) => (mkHost (drop_receiver r b) (h_writers h) (<[j := None]> (h_receivers h)), Made)
      | _ => (h, NoHandle)
      end
  end.

Fixpoint run (h : host) (ops : list op) : list answer :=
  match ops with
  | [] => []
  | o :: ops => let '(h', a) := run_op h o in a :: run h' ops
  end.
End programs.

(** ** The contract: mailboxes

    A stream is a key and the number of times the key was retired before.
    Writers and subscribers belong to the stream that was current when they
    were made; a frame goes to every mailbox of the writer's stream; a mailbox
    that holds more than [size] frames loses the oldest, and says how many; it
    is closed when it is empty, its stream was retired and no writer of it is
    left. *)
Definition stream : Type := TaskStreamKey * nat.

Record mailroom := mkMail {
  m_round : TaskStreamKey -> nat;
  m_writers : list (option stream);
  m_boxes : list (option (stream * list TaskUpdateFrame))
}.

Definition count {A} (p : A -> bool) (l : list A) : nat := length (List.filter p l).

Definition writes_to (st : stream) (o : option stream) : bool := bool_decide (o = Some st).
Definition box_of (st : stream) (o : option (stream * list TaskUpdateFrame)) : bool :=
  match o with Some (st', _) => bool_decide (st' = st) | None => false end.
Definition post (st : stream) (f : TaskUpdateFrame) (o : option (stream * list TaskUpdateFrame)) :=
  match o with
  | Some (st', l) => Some (st', if decide (st' = st) then (l ++ [f])%list else l)
  | None => None
  end.
Definition next_round (k : TaskStreamKey) (round : TaskStreamKey -> nat) : TaskStreamKey -> nat :=
  fun k' => if decide (k' = k) then S (round k) else round k'.
Definition over (st : stream) (m : mailroom) : bool :=
  negb (bool_decide (m_round m st.1 = st.2)) && (count (writes_to st) (m_writers m) =? 0)%nat.

(** Reading a mailbox of at most [size] frames. *)
Definition read_box (size : nat) (closed : bool) (l : list TaskUpdateFrame)
    : recv_result * list TaskUpdateFrame :=
  if (size <? length l)%nat then (GotLagged (length l - size), drop (length l - size) l)
  else match l with
       | f :: l' => (GotFrame f, l')
       | [] => (if closed then GotClosed else GotNothing, [])
       end.

Definition mail_op (size : nat) (m : mailroom) (o : op) : mailroom * answer :=
  match o with
  | OpSubscribe k => (mkMail (m_round m) (m_writers m) ((m_boxes m ++ [Some ((k, m_round m k), [])])%list), Made)
  | OpWriter k => (mkMail (m_round m) ((m_writers m ++ [Some (k, m_round m k)])%list) (m_boxes m), Made)
  | OpSend i f =>
      match m_writers m !! i with
      | Some (Some st) =>
          (mkMail (m_round m) (m_writers m) (post st f <$> m_boxes m),
           Sent (match count (box_of st) (m_boxes m) with O => Err f | n => Ok n end))
      | _ => (m, NoHandle)
      end
  | OpDropWriter i =>
      match m_writers m !! i with
      | Some (Some _) => (mkMail (m_round m) (<[i := None]> (m_writers m)) (m_boxes m), Made)
      | _ => (m, NoHandle)
      end
  | OpRetireTask i =>
      match m_writers m !! i with
      | Some (Some (k, _)) => (mkMail (next_round k (m_round m)) (<[i := None]> (m_writers m)) (m_boxes m), Made)
      | _ => (m, NoHandle)
      end
  | OpRetire k => (mkMail (next_round k (m_round m)) (m_writers m) (m_boxes m), Made)
  | OpRecv j =>
      match m_boxes m !! j with
      | Some (Some (st, l)) =>
          let '(a, l') := read_box size (over st m) l in
          (mkMail (m_round m) (m_writers m) (<[j := Some (st, l')]> (m_boxes m)), Received a)
      | _ => (m, NoHandle)
      end
  | OpDropReceiver j =>
      match m_boxes m !! j with
      | Some (Some _) => (mkMail (m_round m) (m_writers m) (<[j := None]> (m_boxes m)), Made)
      | _ => (m, NoHandle)
      end
  end.

Fixpoint mail_run (size : nat) (m : mailroom) (ops : list op) : list answer :=
  match ops with
  | [] => []
  | o :: ops => let '(m', a) := mail_op size m o in a :: mail_run size m' ops
  end.

(** ** The refinement *)

Lemma count_app {A} (p : A -> bool) l k : count p (l ++ k)%list = (count p l + count p k)%nat.
Proof. unfold count. by rewrite List.filter_app, length_app. Qed.

Lemma count_insert {A} (p : A -> bool) l i x y :
  l !! i = Some x ->
  (count p (<[i := y]> l) + (if p x then 1 else 0) = count p l + (if p y then 1 else 0))%nat.
Proof.
  intros Hi. rewrite insert_take_drop by (by eapply lookup_lt_Some).
  rewrite <-(take_drop_middle l i x Hi) at 3. rewrite !count_app. unfold count. simpl.
  destruct (p x), (p y); simpl; lia.
Qed.

Lemma count_none {A} (p : A -> bool) l : (forall x, x ∈ l -> p x = false) -> count p l = 0%nat.
Proof.
  induction l as [|x l IH]; intros Hp; [done|]. unfold count in *. simpl. rewrite Hp by constructor.
  apply IH. intros y Hy. apply Hp. by constructor.
Qed.

Lemma count_zero {A} (p : A -> bool) l x : count p l = 0%nat -> x ∈ l -> p x = false.
Proof.
  intros Hc Hx. destruct (p x) eqn:E; [|done]. exfalso.
  assert (x ∈ List.filter p l) as Hin by (apply list_elem_of_In, List.filter_In; split; [by apply list_elem_of_In|done]).
  unfold count in Hc. apply nil_length_inv in Hc. rewrite Hc in Hin. by apply elem_of_nil in Hin.
Qed.

Lemma count_Forall2 {A B} (R : A -> B -> Prop) (p : A -> bool) (q : B -> bool) l k :
  Forall2 R l k -> (forall x y, R x y -> p x = q y) -> count p l = count q k.
Proof.
  intros H Hpq. unfold count. induction H as [|x y l k Hxy H IH]; [done|]. simpl.
  rewrite (Hpq x y Hxy). destruct (q y); simpl; congruence.
Qed.

Definition sends_on (c : nat) (o : option TaskStreamWriter) : bool :=
  match o with Some w => (w_sender w =? c)%nat | None => false end.
Definition reads_on (c : nat) (o : option Receiver) : bool :=
  match o with Some r => (r_chan r =? c)%nat | None => false end.

Definition writer_ok (own : nat -> stream) (n : nat) (o : option TaskStreamWriter) (mo : option stream) : Prop :=
  match o, mo with
  | Some w, Some st => (w_sender w < n)%nat /\ own (w_sender w) = st /\ w_key w = st.1
  | None, None => True
  | _, _ => False
  end.
Definition box_ok (own : nat -> stream) (chs : gmap nat Channel) (o : option Receiver)
    (mo : option (stream * list TaskUpdateFrame)) : Prop :=
  match o, mo with
  | Some r, Some (st, l) =>
      own (r_chan r) = st /\
      exists ch, chs !! r_chan r = Some ch /\ (r_next r <= length (ch_log ch))%nat /\ drop (r_next r) (ch_log ch) = l
  | None, None => True
  | _, _ => False
  end.

(** [own] names the stream of every channel made so far. *)
Record sim (own : nat -> stream) (cap : Z) (h : host) (m : mailroom) : Prop := {
  sim_shards : length (b_shards (h_registry h)) = SHARD_COUNT;
  sim_cap : b_capacity (h_registry h) = cap;
  sim_alloc : forall c, is_Some (b_channels (h_registry h) !! c) <-> (c < b_next (h_registry h))%nat;
  sim_inj : forall c c', (c < b_next (h_registry h))%nat -> (c' < b_next (h_registry h))%nat ->
              own c = own c' -> c = c';
  sim_reg : forall k c, channel_of (h_registry h) k = Some c <->
              (c < b_next (h_registry h))%nat /\ own c = (k, m_round m k);
  sim_old : forall c, (c < b_next (h_registry h))%nat -> ((own c).2 <= m_round m (own c).1)%nat;
  sim_writers : Forall2 (writer_ok own (b_next (h_registry h))) (h_writers h) (m_writers m);
  sim_boxes : Forall2 (box_ok own (b_channels (h_registry h))) (h_receivers h) (m_boxes m);
  sim_receivers : forall c ch, b_channels (h_registry h) !! c = Some ch ->
              ch_receivers ch = count (reads_on c) (h_receivers h);
  sim_senders : forall c ch, b_channels (h_registry h) !! c = Some ch ->
              ch_senders ch = (count (sends_on c) (h_writers h) +
                               (if decide ((own c).2 = m_round m (own c).1) then 1 else 0))%nat
}.

Definition opened (capacity : Z) : host := mkHost (with_capacity capacity) [] [].
Definition empty_mail : mailroom := mkMail (fun _ => 0%nat) [] [].

Lemma sim_start capacity : sim (fun _ => (mkKey "" "", 0%nat)) (Z.max capacity 1) (opened capacity) empty_mail.
Proof.
  constructor; simpl; try done; try lia.
  - intros c. rewrite lookup_empty. split; [by intros []|lia].
  - intros k c. rewrite channel_of_new. split; [done|intros []; lia].
Qed.

(** Receivers of other channels, and of this one when the log stays, keep
    their mailboxes. *)
Lemma boxes_keep own own' chs chs' rs bs :
  Forall2 (box_ok own chs) rs bs ->
  (forall c ch, chs !! c = Some ch -> own' c = own c /\ exists ch', chs' !! c = Some ch' /\ ch_log ch' = ch_log ch) ->
  Forall2 (box_ok own' chs') rs bs.
Proof.
  intros H Hk. eapply Forall2_impl; [exact H|]. intros [r|] [[st l]|]; simpl; try done.
  intros (Ho & ch & Hch & Hle & Hd). destruct (Hk _ _ Hch) as (-> & ch' & Hch' & Hl).
  split; [done|]. exists ch'. by rewrite Hl.
Qed.

Lemma writers_keep own own' n n' ws ms :
  Forall2 (writer_ok own n) ws ms -> (forall c, (c < n)%nat -> own' c = own c) -> (n <= n')%nat ->
  Forall2 (writer_ok own' n') ws ms.
Proof.
  intros H Ho Hn. eapply Forall2_impl; [exact H|]. intros [w|] [st|]; simpl; try done.
  intros (Hlt & Hw & Hk). rewrite Ho by done. split_and!; [lia|done|done].
Qed.

Lemma Forall2_elem {A B} (R : A -> B -> Prop) l k x :
  Forall2 R l k -> x ∈ l -> exists y, y ∈ k /\ R x y.
Proof.
  intros H [i Hi]%list_elem_of_lookup. destruct (Forall2_lookup_l _ _ _ _ _ H Hi) as (y & Hy & Hr).
  exists y. split; [by eapply list_elem_of_lookup_2|done].
Qed.

Section Facts.
Context (own : nat -> stream) (cap : Z) (h : host) (m : mailroom) (Hs : sim own cap h m).

Lemma no_reader c : b_channels (h_registry h) !! c = None -> count (reads_on c) (h_receivers h) = 0%nat.
Proof.
  intros Hc. apply count_none. intros [r|] Hr; [|done].
  destruct (Forall2_elem _ _ _ _ (sim_boxes _ _ _ _ Hs) Hr) as ([[st l]|] & _ & Hok); [|done].
  destruct Hok as (_ & ch & Hch & _). simpl. apply Nat.eqb_neq. intros <-. congruence.
Qed.

Lemma no_sender c : (b_next (h_registry h) <= c)%nat -> count (sends_on c) (h_writers h) = 0%nat.
Proof.
  intros Hc. apply count_none. intros [w|] Hw; [|done].
  destruct (Forall2_elem _ _ _ _ (sim_writers _ _ _ _ Hs) Hw) as ([st|] & _ & Hok); [|done].
  destruct Hok as (Hlt & _). simpl. apply Nat.eqb_neq. lia.
Qed.

(** Handles counted by channel and by stream. *)
Lemma readers_of_stream c :
  (c < b_next (h_registry h))%nat -> count (reads_on c) (h_receivers h) = count (box_of (own c)) (m_boxes m).
Proof.
  intros Hc. eapply count_Forall2; [apply Hs|]. intros [r|] [[st l]|]; simpl; try done.
  intros (<- & ch & Hch & _). pose proof (proj1 (sim_alloc _ _ _ _ Hs _) (ex_intro _ ch Hch)).
  case_bool_decide as E; [|apply Nat.eqb_neq; congruence]. apply Nat.eqb_eq. by eapply sim_inj.
Qed.

Lemma senders_of_stream c :
  (c < b_next (h_registry h))%nat -> count (sends_on c) (h_writers h) = count (writes_to (own c)) (m_writers m).
Proof.
  intros Hc. eapply count_Forall2; [apply Hs|]. intros [w|] [st|]; simpl; try done.
  intros (Hlt & <- & _). unfold writes_to.
  case_bool_decide as E; [|apply Nat.eqb_neq; congruence]. injection E as E. apply Nat.eqb_eq. by eapply sim_inj.
Qed.
End Facts.

(** A channel for the current stream of [k]. *)
Lemma sim_ensure own cap b ws rs m k b1 c :
  sim own cap (mkHost b ws rs) m -> ensure_sender b k = (b1, c) ->
  exists own', sim own' cap (mkHost b1 ws rs) m /\ (c < b_next b1)%nat /\ own' c = (k, m_round m k).
Proof.
  intros Hs He. pose proof (sim_shards _ _ _ _ Hs) as Hsh. pose proof (channel_of_ensure hash b k) as Hch. rewrite He in Hch.
  unfold ensure_sender in He. destruct (shard_for hash b k !! k) as [c0|] eqn:E.
  { injection He as <- <-. exists own. split; [done|]. by apply (sim_reg _ _ _ _ Hs k c0). }
  injection He as <- <-. simpl in Hsh. set (c := b_next b) in *.
  set (own' := fun c' => if decide (c' = c) then (k, m_round m k) else own c').
  assert (Hold : forall c', (c' < c)%nat -> own' c' = own c') by (intros c' Hc'; unfold own'; case_decide; [lia|done]).
  assert (Hnew : own' c = (k, m_round m k)) by (unfold own'; by case_decide).
  assert (Hfree : b_channels b !! c = None).
  { apply eq_None_not_Some. rewrite (sim_alloc _ _ _ _ Hs c). simpl. unfold c. lia. }
  assert (Hk : forall c', (c' < c)%nat -> own c' <> (k, m_round m k)).
  { intros c' Hc' Ho. pose proof (proj2 (sim_reg _ _ _ _ Hs k c') (conj Hc' Ho)) as Hreg. unfold Broadcaster.channel_of in Hreg.
    simpl in Hreg. congruence. }
  exists own'. split_and!; [|simpl; lia|done]. constructor; simpl.
  - unfold set_shard. by rewrite length_insert.
  - apply Hs.
  - intros c'. rewrite lookup_insert_is_Some', (sim_alloc _ _ _ _ Hs c'). simpl. fold c. lia.
  - intros c1 c2 H1 H2 Heq.
    destruct (decide (c1 = c)) as [->|N1], (decide (c2 = c)) as [->|N2]; [done| | |].
    + rewrite Hnew, Hold in Heq by lia. symmetry in Heq. apply Hk in Heq; [done|lia].
    + rewrite Hnew, Hold in Heq by lia. apply Hk in Heq; [done|lia].
    + rewrite !Hold in Heq by lia. eapply sim_inj; [exact Hs| | |exact Heq]; simpl; lia.
  - intros k' c'. rewrite Hch by done. simpl. case_decide as Ek; [subst k'|].
    + split; [intros [= <-]; split; [lia|done]|]. intros [Hlt Ho]. destruct (decide (c' = c)) as [->|]; [done|].
      rewrite Hold in Ho by lia. apply Hk in Ho; [done|lia].
    + rewrite (sim_reg _ _ _ _ Hs k' c'). simpl. split; intros [Hlt Ho].
      * split; [lia|]. by rewrite Hold.
      * destruct (decide (c' = c)) as [->|]; [congruence|]. rewrite Hold in Ho by lia. split; [lia|done].
  - intros c' Hc'. destruct (decide (c' = c)) as [->|]; [by rewrite Hnew|]. rewrite Hold by lia. apply (sim_old _ _ _ _ Hs). simpl. lia.
  - eapply writers_keep; [apply Hs|by intros; apply Hold|simpl; lia].
  - eapply boxes_keep; [apply Hs|]. intros c' ch' Hc'. simpl in Hc'.
    pose proof (proj1 (sim_alloc _ _ _ _ Hs c') (ex_intro _ ch' Hc')) as Hlt. simpl in Hlt.
    split; [by apply Hold|]. exists ch'. split; [|done]. by rewrite lookup_insert_ne by lia.
  - intros c' ch'. rewrite lookup_insert_Some. intros [[<- <-]|[Hne Hc']]; [|by apply (sim_receivers _ _ _ _ Hs)].
    simpl. by rewrite (no_reader _ _ _ _ Hs).
  - intros c' ch'. rewrite lookup_insert_Some. intros [[<- <-]|[Hne Hc']].
    + rewrite (no_sender _ _ _ _ Hs) by (simpl; lia). rewrite Hnew. simpl. by rewrite decide_True.
    + pose proof (proj1 (sim_alloc _ _ _ _ Hs c') (ex_intro _ ch' Hc')) as Hlt. simpl in Hlt.
      rewrite Hold by done. by apply (sim_senders _ _ _ _ Hs).
Qed.

(** Replacing one channel, with the handles that changed along with it. *)
Lemma sim_update own cap b ws rs m c ch ch' ws' rs' mws' boxes' :
  sim own cap (mkHost b ws rs) m -> b_channels b !! c = Some ch ->
  Forall2 (writer_ok own (b_next b)) ws' mws' ->
  Forall2 (box_ok own (<[c := ch']> (b_channels b))) rs' boxes' ->
  (forall c', c' <> c -> count (reads_on c') rs' = count (reads_on c') rs) ->
  (forall c', c' <> c -> count (sends_on c') ws' = count (sends_on c') ws) ->
  ch_receivers ch' = count (reads_on c) rs' ->
  (ch_senders ch' + count (sends_on c) ws = ch_senders ch + count (sends_on c) ws')%nat ->
  sim own cap (mkHost (set_channels b (<[c := ch']> (b_channels b))) ws' rs') (mkMail (m_round m) mws' boxes').
Proof.
  intros Hs Hch Hw Hb Hr1 Hs1 Hr Hsnd. constructor; simpl; try done; try apply Hs.
  - intros c'. rewrite lookup_insert_is_Some', (sim_alloc _ _ _ _ Hs c'). simpl. split; [|tauto].
    intros [<-|?]; [|done]. apply (sim_alloc _ _ _ _ Hs c). eauto.
  - intros c' ch0. rewrite lookup_insert_Some. intros [[<- <-]|[Hne Hc]]; [done|].
    rewrite Hr1 by done. by apply (sim_receivers _ _ _ _ Hs).
  - intros c' ch0. pose proof (sim_senders _ _ _ _ Hs c ch Hch) as H0. simpl in H0.
    rewrite lookup_insert_Some. intros [[<- <-]|[Hne Hc]]; [lia|].
    rewrite Hs1 by done. by apply (sim_senders _ _ _ _ Hs).
Qed.

Lemma boxes_insert_log own chs c ch ch' rs bs :
  Forall2 (box_ok own chs) rs bs -> chs !! c = Some ch -> ch_log ch' = ch_log ch ->
  Forall2 (box_ok own (<[c := ch']> chs)) rs bs.
Proof.
  intros H Hch Hl. eapply boxes_keep; [exact H|]. intros c0 ch0 H0. split; [done|].
  destruct (decide (c0 = c)) as [->|]; [rewrite lookup_insert_eq|rewrite lookup_insert_ne by done; eauto].
  exists ch'. split; [done|]. congruence.
Qed.

Lemma alter_set_channels (f : Channel -> Channel) c ch b :
  b_channels b !! c = Some ch ->
  set_channels b (alter f c (b_channels b)) = set_channels b (<[c := f ch]> (b_channels b)).
Proof.
  intros Hc. unfold set_channels. f_equal. apply map_eq. intros i. destruct (decide (i = c)) as [->|].
  - by rewrite lookup_alter_eq, lookup_insert_eq, Hc.
  - by rewrite lookup_alter_ne, lookup_insert_ne by done.
Qed.

Lemma current_channel own cap b ws rs m c :
  sim own cap (mkHost b ws rs) m -> (c < b_next b)%nat -> exists ch, b_channels b !! c = Some ch.
Proof. intros Hs Hc. by apply (sim_alloc _ _ _ _ Hs c). Qed.

(** A retirement makes the key's channel nobody's current one. *)
Lemma sim_retire own cap b ws rs m k :
  sim own cap (mkHost b ws rs) m ->
  sim own cap (mkHost (retire b k) ws rs) (mkMail (next_round k (m_round m)) (m_writers m) (m_boxes m)).
Proof.
  intros Hs. pose proof (sim_shards _ _ _ _ Hs) as Hsh. simpl in Hsh.
  pose proof (fun k' => channel_of_retire hash b k k' Hsh) as Hch.
  assert (Hmono : forall k', (m_round m k' <= next_round k (m_round m) k')%nat)
    by (intros k'; unfold next_round; case_decide; [subst; lia|done]).
  assert (Hnext : b_next (retire b k) = b_next b) by (unfold Broadcaster.retire; by destruct (_ !! k)).
  assert (Hreg : forall k' c, channel_of (retire b k) k' = Some c <->
            (c < b_next b)%nat /\ own c = (k', next_round k (m_round m) k')).
  { intros k' c. rewrite Hch. unfold next_round. case_decide as Hk.
    - subst. split; [done|]. intros [Hlt Ho]. pose proof (sim_old _ _ _ _ Hs c Hlt) as Hle. rewrite Ho in Hle. simpl in Hle. lia.
    - apply (sim_reg _ _ _ _ Hs k' c). }
  assert (Hcur : forall c, (c < b_next b)%nat -> ((own c).2 = next_round k (m_round m) (own c).1 <->
            (own c).2 = m_round m (own c).1 /\ channel_of b k <> Some c)).
  { intros c Hc. pose proof (sim_old _ _ _ _ Hs c Hc) as Hle. rewrite (sim_reg _ _ _ _ Hs k c). unfold next_round.
    simpl. destruct (own c) as [k' g]. simpl in *. case_decide; [subst|].
    - split; [lia|]. intros [-> Hno]. by destruct Hno.
    - split; [intros ->; split; [done|]; intros [_ ?]; congruence|tauto]. }
  assert (Hchs : forall c ch', b_channels (retire b k) !! c = Some ch' -> exists ch, b_channels b !! c = Some ch /\
            ch_log ch' = ch_log ch /\ ch_receivers ch' = ch_receivers ch /\
            ch_senders ch' = if decide (channel_of b k = Some c) then pred (ch_senders ch) else ch_senders ch).
  { intros c ch'. unfold Broadcaster.retire, Broadcaster.channel_of. destruct (shard_for hash b k !! k) as [c0|] eqn:E; cbn [drop_sender set_channels b_channels].
    - destruct (decide (c0 = c)) as [->|Hne].
      + rewrite lookup_alter_eq. destruct (b_channels b !! c) as [ch|]; [|done]. intros [= <-]. exists ch.
        by rewrite decide_True.
      + rewrite lookup_alter_ne by done. intros Hc. exists ch'. rewrite decide_False by congruence. done.
    - intros Hc. exists ch'. by rewrite decide_False. }
  constructor; simpl; rewrite ?Hnext.
  - unfold Broadcaster.retire. destruct (_ !! k); [|done]. simpl. unfold set_shard. by rewrite length_insert.
  - rewrite <-(sim_cap _ _ _ _ Hs). unfold Broadcaster.retire. by destruct (_ !! k).
  - intros c. rewrite <-(sim_alloc _ _ _ _ Hs c). unfold Broadcaster.retire. destruct (_ !! k) as [c0|]; [|done]. simpl.
    by rewrite lookup_alter_is_Some.
  - apply Hs.
  - done.
  - intros c Hc. pose proof (sim_old _ _ _ _ Hs c Hc). specialize (Hmono (own c).1). simpl in *. lia.
  - apply Hs.
  - eapply boxes_keep; [apply Hs|]. simpl. intros c ch Hc. split; [done|].
    assert (is_Some (b_channels (retire b k) !! c)) as [ch' Hc'].
    { unfold Broadcaster.retire. destruct (_ !! k); [simpl; rewrite lookup_alter_is_Some|]; eauto. }
    exists ch'. destruct (Hchs c ch' Hc') as (ch0 & H0 & Hl & _). split; [done|]. congruence.
  - intros c ch' Hc'. destruct (Hchs c ch' Hc') as (ch & Hc & _ & -> & _). by apply (sim_receivers _ _ _ _ Hs).
  - intros c ch' Hc'. destruct (Hchs c ch' Hc') as (ch & Hc & _ & _ & ->).
    pose proof (sim_senders _ _ _ _ Hs c ch Hc) as Hsnd. simpl in Hsnd.
    assert (Hlt : (c < b_next b)%nat) by (apply (sim_alloc _ _ _ _ Hs c); eauto).
    specialize (Hcur c Hlt). pose proof (sim_reg _ _ _ _ Hs k c) as Hrk. simpl in Hrk.
    destruct (decide (channel_of b k = Some c)) as [Hk|Hk].
    + rewrite (decide_False (P := _ = next_round _ _ _)) by tauto. rewrite Hsnd.
      rewrite decide_True; [lia|]. apply Hrk in Hk as [_ ->]. done.
    + rewrite Hsnd. destruct (decide ((own c).2 = m_round m (own c).1)); [rewrite decide_True by tauto|rewrite decide_False by tauto]; done.
Qed.

Lemma set_channels_id b c ch : b_channels b !! c = Some ch -> set_channels b (<[c := ch]> (b_channels b)) = b.
Proof. intros Hc. unfold set_channels. rewrite insert_id by done. by destruct b. Qed.

Lemma count_snoc {A} (p : A -> bool) l x : count p (l ++ [x])%list = (count p l + if p x then 1 else 0)%nat.
Proof. rewrite count_app. unfold count at 2. simpl. by destruct (p x). Qed.

Section Operations.
Context (ring_size : Z -> nat) (own : nat -> stream) (cap : Z) (b : Broadcaster)
        (ws : list (option TaskStreamWriter)) (rs : list (option Receiver)) (m : mailroom)
        (Hs : sim own cap (mkHost b ws rs) m).

Lemma sim_subscribe k b1 r :
  subscribe b k = (b1, r) ->
  exists own', sim own' cap (mkHost b1 ws (rs ++ [Some r])%list)
                 (mkMail (m_round m) (m_writers m) (m_boxes m ++ [Some ((k, m_round m k), [])])%list).
Proof.
  unfold Broadcaster.subscribe. destruct (ensure_sender b k) as [b0 c] eqn:E.
  destruct (sim_ensure _ _ _ _ _ _ _ _ _ Hs E) as (own' & Hs' & Hc & Ho).
  destruct (current_channel _ _ _ _ _ _ _ Hs' Hc) as [ch Hch]. rewrite Hch. simpl. intros [= <- <-].
  exists own'. eapply sim_update; try done; simpl.
  - apply Hs'.
  - apply Forall2_app; [by eapply boxes_insert_log; [apply Hs'|done|]|]. constructor; [|constructor]. simpl.
    split; [done|]. eexists. rewrite lookup_insert_eq. split; [done|]. simpl. split; [done|]. apply drop_all.
  - intros c' Hne. rewrite count_snoc. simpl. destruct (Nat.eqb_spec c c'); [congruence|lia].
  - rewrite count_snoc. simpl. rewrite Nat.eqb_refl. pose proof (sim_receivers _ _ _ _ Hs' c ch Hch) as Hr. simpl in Hr. lia.
Qed.

Lemma sim_writer k b1 w :
  writer b k = (b1, w) ->
  exists own', sim own' cap (mkHost b1 (ws ++ [Some w])%list rs)
                 (mkMail (m_round m) (m_writers m ++ [Some (k, m_round m k)])%list (m_boxes m)).
Proof.
  unfold Broadcaster.writer. destruct (ensure_sender b k) as [b0 c] eqn:E.
  destruct (sim_ensure _ _ _ _ _ _ _ _ _ Hs E) as (own' & Hs' & Hc & Ho).
  destruct (current_channel _ _ _ _ _ _ _ Hs' Hc) as [ch Hch]. intros [= <- <-].
  exists own'. unfold clone_sender. rewrite (alter_set_channels _ _ ch) by done.
  eapply sim_update; try done; simpl.
  - apply Forall2_app; [apply Hs'|]. constructor; [|constructor]. simpl. by rewrite Ho.
  - by eapply boxes_insert_log; [apply Hs'|done|].
  - intros c' Hne. rewrite count_snoc. simpl. destruct (Nat.eqb_spec c c'); [congruence|lia].
  - by apply (sim_receivers _ _ _ _ Hs').
  - rewrite count_snoc. simpl. rewrite Nat.eqb_refl. lia.
Qed.

Lemma sim_handle i w st :
  ws !! i = Some (Some w) -> m_writers m !! i = Some st ->
  exists st', st = Some st' /\ (w_sender w < b_next b)%nat /\ own (w_sender w) = st' /\ w_key w = st'.1.
Proof.
  intros Hw Hm. pose proof (Forall2_lookup_lr _ _ _ _ _ _ (sim_writers _ _ _ _ Hs) Hw Hm) as Hok.
  destruct st as [st|]; [|done]. by exists st.
Qed.

Lemma sim_send i w st f b1 r :
  ws !! i = Some (Some w) -> m_writers m !! i = Some (Some st) -> send b w f = (b1, r) ->
  r = match count (box_of st) (m_boxes m) with O => Err f | n => Ok n end /\
  sim own cap (mkHost b1 ws rs) (mkMail (m_round m) (m_writers m) (post st f <$> m_boxes m)).
Proof.
  intros Hw Hm. destruct (sim_handle _ _ _ Hw Hm) as (? & [= <-] & Hc & Ho & _).
  destruct (current_channel _ _ _ _ _ _ _ Hs Hc) as [ch Hch].
  pose proof (sim_receivers _ _ _ _ Hs _ ch Hch) as Hr. simpl in Hr.
  pose proof (readers_of_stream _ _ _ _ Hs _ Hc) as Hrs. simpl in Hrs. rewrite Ho in Hrs.
  unfold send. rewrite Hch. simpl. rewrite <-Hrs, <-Hr. destruct (ch_receivers ch) as [|n] eqn:En; intros [= <- <-].
  - split; [done|].
    assert (post st f <$> m_boxes m = m_boxes m) as ->.
    { rewrite <-(list_fmap_id (m_boxes m)) at 2. apply list_fmap_ext. intros j o Hj. unfold post.
      destruct o as [[st' l]|]; [|done]. case_decide as Hst; [|done]. subst.
      rewrite <-Hr in Hrs. symmetry in Hrs.
      pose proof (count_zero _ _ _ Hrs (list_elem_of_lookup_2 _ _ _ Hj)) as Hf. simpl in Hf. by rewrite bool_decide_true in Hf. }
    by destruct m.
  - split; [done|]. eapply sim_update; try done; simpl; [apply Hs|].
    apply Forall2_fmap_r. eapply Forall2_impl; [apply (sim_boxes _ _ _ _ Hs)|].
    intros [r0|] [[st' l]|]; simpl; try done. intros (Ho' & ch0 & H0 & Hle & Hd). split; [done|].
    destruct (decide (r_chan r0 = w_sender w)) as [Heq|Hne].
    + rewrite Heq in *. rewrite lookup_insert_eq. eexists. split; [done|]. simplify_eq. simpl.
      rewrite length_app, drop_app_le by lia. rewrite decide_True by congruence. split; [lia|done].
    + rewrite lookup_insert_ne by done. exists ch0. split_and!; [done..|]. rewrite decide_False; [done|].
      intros ->. apply Hne. eapply sim_inj; [exact Hs| |done|congruence].
      apply (sim_alloc _ _ _ _ Hs). eauto.
Qed.

Lemma sim_drop_writer i w st :
  ws !! i = Some (Some w) -> m_writers m !! i = Some (Some st) ->
  sim own cap (mkHost (drop_writer b w) (<[i := None]> ws) rs) (mkMail (m_round m) (<[i := None]> (m_writers m)) (m_boxes m)).
Proof.
  intros Hw Hm. destruct (sim_handle _ _ _ Hw Hm) as (? & [= <-] & Hc & _ & _).
  destruct (current_channel _ _ _ _ _ _ _ Hs Hc) as [ch Hch].
  pose proof (fun c => count_insert (sends_on c) ws i (Some w) None Hw) as Hcount. simpl in Hcount.
  unfold drop_writer, drop_sender. rewrite (alter_set_channels _ _ ch) by done. eapply sim_update; try done; simpl.
  - by apply Forall2_insert; [apply Hs|].
  - by eapply boxes_insert_log; [apply Hs|done|].
  - intros c' Hne. specialize (Hcount c'). destruct (Nat.eqb_spec (w_sender w) c'); [congruence|lia].
  - by apply (sim_receivers _ _ _ _ Hs).
  - specialize (Hcount (w_sender w)). rewrite Nat.eqb_refl in Hcount.
    pose proof (sim_senders _ _ _ _ Hs _ ch Hch) as Hsn. simpl in Hsn. lia.
Qed.

Lemma sim_box j r mo :
  rs !! j = Some (Some r) -> m_boxes m !! j = Some mo ->
  exists ch, mo = Some (own (r_chan r), drop (r_next r) (ch_log ch)) /\ b_channels b !! r_chan r = Some ch /\
    (r_next r <= length (ch_log ch))%nat.
Proof.
  intros Hr Hm. pose proof (Forall2_lookup_lr _ _ _ _ _ _ (sim_boxes _ _ _ _ Hs) Hr Hm) as Hok.
  destruct mo as [[st l]|]; [|done]. destruct Hok as (<- & ch & Hch & Hle & <-). by exists ch.
Qed.

Lemma sim_drop_receiver j r :
  rs !! j = Some (Some r) ->
  sim own cap (mkHost (drop_receiver r b) ws (<[j := None]> rs)) (mkMail (m_round m) (m_writers m) (<[j := None]> (m_boxes m))).
Proof.
  intros Hr. destruct (Forall2_lookup_l _ _ _ _ _ (sim_boxes _ _ _ _ Hs) Hr) as (mo & Hm & _).
  destruct (sim_box _ _ _ Hr Hm) as (ch & _ & Hch & _).
  pose proof (fun c => count_insert (reads_on c) rs j (Some r) None Hr) as Hcount. simpl in Hcount.
  unfold drop_receiver. rewrite (alter_set_channels _ _ ch) by done. eapply sim_update; try done; simpl.
  - apply Hs.
  - apply Forall2_insert; [|done]. by eapply boxes_insert_log; [apply Hs|done|].
  - intros c' Hne. specialize (Hcount c'). destruct (Nat.eqb_spec (r_chan r) c'); [congruence|lia].
  - specialize (Hcount (r_chan r)). rewrite Nat.eqb_refl in Hcount.
    pose proof (sim_receivers _ _ _ _ Hs _ ch Hch) as Hsn. simpl in Hsn. lia.
Qed.
End Operations.

Lemma sim_recv own cap size b ws rs m j r st l a r' :
  sim own cap (mkHost b ws rs) m ->
  rs !! j = Some (Some r) -> m_boxes m !! j = Some (Some (st, l)) -> recv size b r = (a, r') ->
  exists l', read_box size (over st m) l = (a, l') /\
    sim own cap (mkHost b ws (<[j := Some r']> rs)) (mkMail (m_round m) (m_writers m) (<[j := Some (st, l')]> (m_boxes m))).
Proof.
  intros Hs Hr Hm. destruct (sim_box _ _ _ _ _ _ Hs _ _ _ Hr Hm) as (ch & [= -> ->] & Hch & Hle).
  assert (Hput : forall n, (n <= length (ch_log ch))%nat ->
    sim own cap (mkHost b ws (<[j := Some (mkReceiver (r_chan r) n)]> rs))
      (mkMail (m_round m) (m_writers m) (<[j := Some (own (r_chan r), drop n (ch_log ch))]> (m_boxes m)))).
  { intros n Hn. pose proof (fun c => count_insert (reads_on c) rs j _ (Some (mkReceiver (r_chan r) n)) Hr) as Hcount.
    simpl in Hcount. rewrite <-(set_channels_id b _ ch Hch) at 1. eapply sim_update; try done; simpl.
    - apply Hs.
    - rewrite insert_id by done. apply Forall2_insert; [apply Hs|]. simpl. eauto.
    - intros c' _. specialize (Hcount c'). lia.
    - rewrite (sim_receivers _ _ _ _ Hs _ ch Hch). simpl. specialize (Hcount (r_chan r)). lia. }
  unfold recv, read_box. rewrite Hch, length_drop, drop_drop.
  destruct (Nat.ltb_spec (r_next r + size) (length (ch_log ch))) as [Hlag|Hlag].
  { rewrite (proj2 (Nat.ltb_lt _ _)) by lia. intros [= <- <-]. eexists. split; [f_equal; f_equal; lia|].
    replace (r_next r + (length (ch_log ch) - r_next r - size))%nat with (length (ch_log ch) - size)%nat by lia.
    apply Hput. lia. }
  rewrite (proj2 (Nat.ltb_ge _ _)) by lia. destruct (ch_log ch !! r_next r) as [f|] eqn:Ef; intros [= <- <-].
  - rewrite (drop_S _ _ _ Ef). eexists. split; [done|]. apply Hput. apply lookup_lt_Some in Ef. lia.
  - apply lookup_ge_None in Ef. rewrite drop_ge by lia. eexists. split.
    + f_equal. rewrite (sim_senders _ _ _ _ Hs _ ch Hch). simpl. unfold over.
      rewrite <-(senders_of_stream _ _ _ _ Hs) by (apply (sim_alloc _ _ _ _ Hs); eauto). simpl.
      destruct (decide ((own (r_chan r)).2 = m_round m (own (r_chan r)).1)) as [Hd|Hd].
      * rewrite bool_decide_true by done. simpl. by rewrite (proj2 (Nat.eqb_neq _ _)) by lia.
      * rewrite bool_decide_false by done. simpl. by rewrite Nat.add_0_r.
    + specialize (Hput (r_next r) Hle). rewrite drop_ge in Hput by lia. by destruct r.
Qed.

(** One operation answers as the mailboxes do. *)
Lemma sim_op ring_size own cap h m o :
  sim own cap h m ->
  (run_op ring_size h o).2 = (mail_op (ring_size cap) m o).2 /\
  exists own', sim own' cap (run_op ring_size h o).1 (mail_op (ring_size cap) m o).1.
Proof.
  destruct h as [b ws rs]. intros Hs. pose proof (sim_cap _ _ _ _ Hs) as Hcap. simpl in Hcap.
  pose proof (Forall2_length _ _ _ (sim_writers _ _ _ _ Hs)) as Hlw. pose proof (Forall2_length _ _ _ (sim_boxes _ _ _ _ Hs)) as Hlb.
  simpl in Hlw, Hlb.
  assert (Hws : forall i, match ws !! i, m_writers m !! i with
                          | Some (Some _), Some (Some _) => True | Some (Some _), _ => False
                          | _, Some (Some _) => False | _, _ => True end).
  { intros i. pose proof (proj1 (Forall2_lookup _ _ _) (sim_writers _ _ _ _ Hs) i) as Hi. simpl in Hi.
    destruct Hi as [[w|] [st|] Hok|]; simpl in *; done. }
  assert (Hrs : forall j, match rs !! j, m_boxes m !! j with
                          | Some (Some _), Some (Some _) => True | Some (Some _), _ => False
                          | _, Some (Some _) => False | _, _ => True end).
  { intros j. pose proof (proj1 (Forall2_lookup _ _ _) (sim_boxes _ _ _ _ Hs) j) as Hi. simpl in Hi.
    destruct Hi as [[r|] [[st l]|] Hok|]; simpl in *; done. }
  destruct o as [k|k|i f|i|i|k|j|j]; simpl.
  - destruct (subscribe b k) as [b1 r] eqn:E. split; [done|]. by eapply sim_subscribe.
  - destruct (writer b k) as [b1 w] eqn:E. split; [done|]. by eapply sim_writer.
  - specialize (Hws i). destruct (ws !! i) as [[w|]|] eqn:Ew, (m_writers m !! i) as [[st|]|] eqn:Em; try done; try (split; [done|]; by exists own).
    destruct (send b w f) as [b1 r] eqn:E. destruct (sim_send _ _ _ _ _ _ Hs _ _ _ _ _ _ Ew Em E) as [-> Hs']. split; [done|]. by exists own.
  - specialize (Hws i). destruct (ws !! i) as [[w|]|] eqn:Ew, (m_writers m !! i) as [[st|]|] eqn:Em; try done; try (split; [done|]; by exists own).
    split; [done|]. exists own. by eapply sim_drop_writer.
  - specialize (Hws i). destruct (ws !! i) as [[w|]|] eqn:Ew, (m_writers m !! i) as [[[k g]|]|] eqn:Em; try done; try (split; [done|]; by exists own).
    split; [done|]. exists own. destruct (sim_handle _ _ _ _ _ _ Hs _ _ _ Ew Em) as (? & [= <-] & _ & _ & Hk). simpl in Hk.
    unfold Broadcaster.retire_task. rewrite Hk. simpl.
    exact (sim_drop_writer _ _ _ _ _ _ (sim_retire _ _ _ _ _ _ k Hs) i w (k, g) Ew Em).
  - split; [done|]. exists own. by apply sim_retire.
  - specialize (Hrs j). destruct (rs !! j) as [[r|]|] eqn:Er, (m_boxes m !! j) as [[[st l]|]|] eqn:Em; try done; try (split; [done|]; by exists own).
    destruct (recv (ring_size (b_capacity b)) b r) as [a r'] eqn:E. rewrite Hcap in E.
    destruct (sim_recv _ _ _ _ _ _ _ _ _ _ _ _ _ Hs Er Em E) as (l' & -> & Hs'). split; [done|]. by exists own.
  - specialize (Hrs j). destruct (rs !! j) as [[r|]|] eqn:Er, (m_boxes m !! j) as [[[st l]|]|] eqn:Em; try done; try (split; [done|]; by exists own).
    split; [done|]. exists own. by eapply sim_drop_receiver.
Qed.

Lemma sim_run ring_size own cap h m ops :
  sim own cap h m -> run ring_size h ops = mail_run (ring_size cap) m ops.
Proof.
  revert own h m. induction ops as [|o ops IH]; intros own h m Hs; [done|]. simpl.
  destruct (sim_op ring_size own cap h m o Hs) as [Ha [own' Hs']].
  destruct (run_op ring_size h o) as [h' a], (mail_op (ring_size cap) m o) as [m' a']. simpl in *. subst.
  f_equal. by eapply IH.
Qed.

End mailboxes.

Definition demo_frame (i : Z) : TaskUpdateFrame :=
  ArtifactGenerated (mkArtifactRef "t" None None) (mkCursor i (ActivityAnchorId_from_counter i)).

Definition demo_key : TaskStreamKey := mkKey "ctx-1-1" "t".

(** A subscriber of a channel of two frames is sent three; after it has read
    the last two, a retirement closes its channel but not that of a later
    subscriber of the key. *)
Definition demo_ops : list op :=
  [OpWriter demo_key; OpSubscribe demo_key; OpWriter (mkKey "ctx-1-2" "t"); OpSend 1 (demo_frame 9);
   OpSend 0 (demo_frame 1); OpSend 0 (demo_frame 2); OpSend 0 (demo_frame 3);
   OpRecv 0; OpRecv 0; OpRetireTask 0; OpRecv 0; OpRecv 0; OpSubscribe demo_key; OpRecv 1].

End Mailboxes.
