(* ===== verification/TaskSession.v ===== *)
(** * Replay-then-live task sessions

    [baml-rt-a2a/src/task_update_session.rs] with what it reads: the replay of
    [baml-rt-provenance/src/surreal_store/task_graph_reader_impl.rs] (three
    queries, one per kind of frame, sorted afterwards) and one channel of the
    broadcaster with its bounded buffer.  The system is a step relation:
    writers commit frames to the graph and later mirror them to the channel,
    the session runs its loop, each query and each receive being one step.
    Frames of one task stream are identified by their cursor, whose order is
    the event order of its anchor. *)

From stdpp Require Import base list sorting relations.
From Stdlib Require Import ZArith Lia.
From S2P Require Import Prelude.

Open Scope Z_scope.

(** ** Frames *)

(** [TaskReplayEvent]: the two message variants are replayed by one query and
    never mirrored. *)
Inductive kind := KMessage | KArtifact | KStatus.

#[global] Instance kind_eq_dec : EqDecision kind.
Proof. solve_decision. Defined.

Record frame := mkFrame { cursor : Z; frame_kind : kind }.

#[global] Instance frame_eq_dec : EqDecision frame.
Proof. solve_decision. Defined.

Definition mirrored (f : frame) : bool := match frame_kind f with KMessage => false | _ => true end.

Definition frame_le (a b : frame) : Prop := cursor a <= cursor b.

#[global] Instance frame_le_dec : RelDecision frame_le.
Proof. unfold RelDecision, frame_le. intros a b. apply _. Defined.

#[global] Instance frame_le_total : Total frame_le.
Proof. intros a b. unfold frame_le. lia. Qed.

#[global] Instance frame_le_trans : Transitive frame_le.
Proof. intros a b c. unfold frame_le. lia. Qed.

Definition after (since : option Z) (f : frame) : bool :=
  match since with None => true | Some c => c <? cursor f end.

(** [query_replay_messages], [query_replay_artifacts], [query_replay_statuses]:
    the committed frames of one kind after the cursor. *)
Definition query_replay (k : kind) (since : option Z) (graph : list frame) : list frame :=
  List.filter (fun f => bool_decide (frame_kind f = k) && after since f) graph.

(** ** The session *)

Inductive SessionState :=
| Querying (n : nat) (acc : list frame)   (** inside [replay_since], [n] queries done *)
| Replaying (stream : list frame)
| Live
| Closed.

Record session := mkSession {
  se_state : SessionState;
  se_pos : nat;                 (** next channel index to receive *)
  se_last : option Z;           (** [last_cursor] *)
  se_out : list frame           (** frames returned by [next] *)
}.

(** One task stream: committed frames, committed frames not mirrored yet, the
    channel's log, whether it was retired, and the session. *)
Record system := mkSystem {
  graph : list frame;
  unsent : list frame;
  chan : list frame;
  retired : bool;
  ses : session
}.

(** [TaskUpdateSession::open]: subscribe, then start the replay. *)
Definition session_open (since : option Z) (chan : list frame) : session :=
  mkSession (Querying 0 []) (length chan) since [].

Definition replay_kinds : list kind := [KMessage; KArtifact; KStatus].

(** [return Ok(Some(frame))]. *)
Definition deliver (f : frame) (st : SessionState) (pos : nat) (s : session) : session :=
  mkSession st pos (Some (cursor f)) (se_out s ++ [f]).

(** One step of the loop of [next]; [capacity] is the channel's buffer.  A
    receive with nothing to read waits. *)
Definition session_step (capacity : nat) (graph chan : list frame) (retired : bool) (s : session)
    : option session :=
  match se_state s with
  | Querying n acc =>
      match replay_kinds !! n with
      | Some k => Some (mkSession (Querying (S n) (acc ++ query_replay k (se_last s) graph)) (se_pos s)
                          (se_last s) (se_out s))
      | None => Some (mkSession (Replaying (merge_sort frame_le acc)) (se_pos s) (se_last s) (se_out s))
      end
  | Replaying (f :: rest) => Some (deliver f (Replaying rest) (se_pos s) s)
  | Replaying [] => Some (mkSession Live (se_pos s) (se_last s) (se_out s))
  | Live =>
      if (se_pos s + capacity <? length chan)%nat
      then (* [RecvError::Lagged] *)
        Some (mkSession (Querying 0 []) (length chan - capacity) (se_last s) (se_out s))
      else match chan !! se_pos s with
      | Some f =>
          if after (se_last s) f then Some (deliver f Live (S (se_pos s)) s)
          else Some (mkSession Live (S (se_pos s)) (se_last s) (se_out s))
      | None => if retired then Some (mkSession Closed (se_pos s) (se_last s) (se_out s)) else None
      end
  | Closed => None
  end.

(** The loop of [drain_replay] over what is left of the replay stream. *)
Fixpoint drain (rest : list frame) (s : session) : session :=
  match rest with
  | [] => mkSession Live (se_pos s) (se_last s) (se_out s)
  | f :: rest => drain rest (deliver f (Replaying rest) (se_pos s) s)
  end.

(** [drain_replay]: the frames it returns and the session it leaves. *)
Definition drain_replay (s : session) : list frame * session :=
  match se_state s with
  | Replaying rest => (rest, drain rest s)
  | _ => ([], s)
  end.

(** ** The system *)

Definition with_session (y : system) (s : session) : system :=
  mkSystem (graph y) (unsent y) (chan y) (retired y) s.

(** A writer commits a frame; frames other than messages are to be mirrored. *)
Definition commit (f : frame) (y : system) : system :=
  mkSystem (graph y ++ [f]) (if mirrored f then unsent y ++ [f] else unsent y) (chan y) (retired y) (ses y).

(** A writer sends the [i]-th frame it has not mirrored yet; a retired channel
    has no sender left. *)
Definition mirror_frame (i : nat) (y : system) : option system :=
  if retired y then None else
  f ← unsent y !! i;
  Some (mkSystem (graph y) (delete i (unsent y)) (chan y ++ [f]) (retired y) (ses y)).

(** Every interleaving.  A commit brings a new cursor, since anchors are never
    handed out twice; commits and mirrors come in any order, also between the
    queries of a replay.  The channel is retired when its last sender is gone. *)
Inductive step (capacity : nat) : system -> system -> Prop :=
| step_commit f y : Forall (fun g => cursor g <> cursor f) (graph y) -> step capacity y (commit f y)
| step_mirror i y y' : mirror_frame i y = Some y' -> step capacity y y'
| step_retire y : step capacity y (mkSystem (graph y) (unsent y) (chan y) true (ses y))
| step_session y s :
    session_step capacity (graph y) (chan y) (retired y) (ses y) = Some s ->
    step capacity y (with_session y s).

(** The runs with more order than the code enforces: frames are committed in the order of their cursors and not
    between a replay's queries, and are mirrored in the order they were
    committed. *)
Definition replay_open (s : session) : bool := match se_state s with Querying _ _ => true | _ => false end.

Inductive ordered_step (capacity : nat) : system -> system -> Prop :=
| ostep_commit f y :
    replay_open (ses y) = false -> Forall (fun g => cursor g < cursor f) (graph y) ->
    ordered_step capacity y (commit f y)
| ostep_mirror y y' : mirror_frame 0 y = Some y' -> ordered_step capacity y y'
| ostep_retire y : ordered_step capacity y (mkSystem (graph y) (unsent y) (chan y) true (ses y))
| ostep_session y s :
    session_step capacity (graph y) (chan y) (retired y) (ses y) = Some s ->
    ordered_step capacity y (with_session y s).

(** A session opened on a stream with frames [sent] already mirrored and
    [waiting] committed, among other committed frames. *)
Definition opened (since : option Z) (graph unsent chan : list frame) : system :=
  mkSystem graph unsent chan false (session_open since chan).

(** ** Invariant *)

Definition sorted (l : list frame) : Prop := StronglySorted (fun a b => cursor a < cursor b) l.

(** Everything mirrored up to the last cursor has been returned. *)
Definition caught_up (since : option Z) (y : system) : Prop :=
  forall f, f ∈ graph y -> mirrored f = true -> after since f = true ->
    after (se_last (ses y)) f = false -> f ∈ se_out (ses y).

(** What the state of the session says about the frames it has still to
    return. *)
Definition state_inv (since : option Z) (y : system) : Prop :=
  match se_state (ses y) with
  | Querying n acc =>
      (n <= 3)%nat /\ NoDup acc /\
      (forall f, f ∈ acc <-> f ∈ graph y /\ after (se_last (ses y)) f = true /\ frame_kind f ∈ take n replay_kinds)
  | Replaying rest =>
      sorted rest /\
      (forall f, f ∈ rest -> f ∈ graph y /\ after (se_last (ses y)) f = true) /\
      (forall f, f ∈ graph y -> after (se_last (ses y)) f = true ->
         f ∈ rest \/ forall g, g ∈ rest -> cursor g < cursor f) /\
      (forall i f, (i < se_pos (ses y))%nat -> chan y !! i = Some f -> after since f = true ->
         f ∈ se_out (ses y) \/ f ∈ rest)
  | Live =>
      forall i f, (i < se_pos (ses y))%nat -> chan y !! i = Some f -> after since f = true -> f ∈ se_out (ses y)
  | Closed =>
      retired y = true /\ forall f, f ∈ chan y -> after since f = true -> f ∈ se_out (ses y)
  end.

Record ses_inv (since : option Z) (y : system) : Prop := {
  s_graph : sorted (graph y);
  s_mirror : List.filter mirrored (graph y) = chan y ++ unsent y;
  s_out_sorted : sorted (se_out (ses y));
  s_out : forall f, f ∈ se_out (ses y) -> f ∈ graph y /\ after since f = true;
  s_last : se_last (ses y) = match list.last (se_out (ses y)) with Some f => Some (cursor f) | None => since end;
  s_pos : (se_pos (ses y) <= length (chan y))%nat;
  s_caught : caught_up since y;
  s_state : state_inv since y
}.

(** ** Lemmas *)

Lemma sorted_app_inv l k : sorted (l ++ k) -> sorted l /\ sorted k /\ forall f g, f ∈ l -> g ∈ k -> cursor f < cursor g.
Proof.
  unfold sorted. induction l as [|x l IH]; simpl; [intros H; split_and!; [constructor|done|by intros ? ? ?%elem_of_nil]|].
  intros H. apply StronglySorted_inv in H as [Hs Hx]. destruct (IH Hs) as (Hl & Hk & Hlk).
  rewrite Forall_forall in Hx. split_and!; [|done|].
  - constructor; [done|]. apply Forall_forall. intros y Hy. apply Hx, elem_of_app. by left.
  - intros f g [->|Hf]%elem_of_cons Hg; [|by apply Hlk]. apply Hx, elem_of_app. by right.
Qed.

Lemma sorted_snoc l f : sorted l -> (forall g, g ∈ l -> cursor g < cursor f) -> sorted (l ++ [f]).
Proof.
  unfold sorted. induction l as [|x l IH]; simpl; intros Hs Hf; [repeat constructor|].
  apply StronglySorted_inv in Hs as [Hs Hx]. constructor; [apply IH; [done|]; intros g Hg; apply Hf; by constructor|].
  apply Forall_app. split; [done|]. repeat constructor. apply Hf. constructor.
Qed.

Lemma sorted_inj l f g : sorted l -> f ∈ l -> g ∈ l -> cursor f = cursor g -> f = g.
Proof.
  unfold sorted. induction l as [|x l IH]; intros Hs; [by intros ?%elem_of_nil|].
  apply StronglySorted_inv in Hs as [Hs Hx]. rewrite Forall_forall in Hx.
  intros [->|Hf]%elem_of_cons [->|Hg]%elem_of_cons Heq; auto.
  - apply Hx in Hg. lia.
  - apply Hx in Hf. lia.
Qed.

Lemma sorted_filter (p : frame -> bool) l : sorted l -> sorted (List.filter p l).
Proof.
  unfold sorted. induction l as [|x l IH]; simpl; [done|]. intros [Hs Hx]%StronglySorted_inv.
  destruct (p x); [|by apply IH]. constructor; [by apply IH|]. apply Forall_forall. intros y Hy.
  rewrite Forall_forall in Hx. apply Hx. apply list_elem_of_In, List.filter_In in Hy as [Hy _].
  by apply list_elem_of_In.
Qed.

Lemma sorted_last_max l f g : sorted l -> list.last l = Some f -> g ∈ l -> cursor g <= cursor f.
Proof.
  intros Hs [l' ->]%last_Some. apply sorted_app_inv in Hs as (_ & _ & Hlt).
  intros [Hg| ->%list_elem_of_singleton]%elem_of_app; [|lia].
  specialize (Hlt g f Hg ltac:(constructor)). lia.
Qed.

(** One frame per cursor. *)
Definition distinct (l : list frame) : Prop := forall f g, f ∈ l -> g ∈ l -> cursor f = cursor g -> f = g.

Lemma sorted_distinct l : sorted l -> distinct l.
Proof. intros Hs f g. by apply sorted_inj. Qed.

(** Sorting distinct frames of the graph by cursor. *)
Lemma merge_sort_sorted gr l :
  distinct gr -> NoDup l -> (forall f, f ∈ l -> f ∈ gr) -> sorted (merge_sort frame_le l).
Proof.
  intros Hg Hnd Hin. pose proof (StronglySorted_merge_sort frame_le l) as Hs.
  pose proof (merge_sort_Permutation frame_le l) as Hp.
  assert (Hnd' : NoDup (merge_sort frame_le l)) by (by rewrite Hp).
  assert (Hin' : forall f, f ∈ merge_sort frame_le l -> f ∈ gr) by (intros f Hf; apply Hin; by rewrite <-Hp).
  clear Hp Hnd Hin. unfold sorted. induction Hs as [|x k Hk IH Hx]; [constructor|].
  apply NoDup_cons in Hnd' as [Hnx Hnd]. constructor; [apply IH; [done|]; intros f Hf; apply Hin'; by constructor|].
  rewrite Forall_forall in Hx |- *. intros y Hy. specialize (Hx y Hy). unfold frame_le in Hx.
  destruct (Z.eq_dec (cursor x) (cursor y)) as [He|]; [|lia]. exfalso. apply Hnx.
  rewrite (Hg x y); [done|apply Hin'; constructor|apply Hin'; by constructor|done].
Qed.

Section Facts.
Context (since : option Z) (y : system) (Hinv : ses_inv since y).

Lemma chan_in_graph i f : chan y !! i = Some f -> f ∈ graph y /\ mirrored f = true.
Proof.
  intros Hi. assert (Hf : f ∈ List.filter mirrored (graph y)).
  { rewrite (s_mirror _ _ Hinv). apply elem_of_app. left. by eapply list_elem_of_lookup_2. }
  apply list_elem_of_In, List.filter_In in Hf as [? ?]. split; [by apply list_elem_of_In|done].
Qed.

(** A mirrored frame before channel index [i] in the order of cursors. *)
Lemma before_in_chan i f g :
  chan y !! i = Some f -> g ∈ graph y -> mirrored g = true -> cursor g < cursor f ->
  exists j, (j < i)%nat /\ chan y !! j = Some g.
Proof.
  intros Hi Hg Hm Hlt.
  assert (Hs : sorted (chan y ++ unsent y)) by (rewrite <-(s_mirror _ _ Hinv); apply sorted_filter, Hinv).
  assert (Hgc : g ∈ chan y ++ unsent y).
  { rewrite <-(s_mirror _ _ Hinv). apply list_elem_of_In, List.filter_In. split; [by apply list_elem_of_In|done]. }
  rewrite <-(take_drop_middle _ _ _ Hi), <-app_assoc in Hs, Hgc.
  apply sorted_app_inv in Hs as (_ & Hs & _). apply elem_of_app in Hgc as [Hgc|Hgc].
  - apply list_elem_of_lookup in Hgc as [j Hj]. exists j. apply lookup_take_Some in Hj as [? ?]. done.
  - exfalso. simpl in Hs, Hgc. apply StronglySorted_inv in Hs as [_ Hall]. rewrite Forall_forall in Hall.
    apply elem_of_cons in Hgc as [->|Hgc]; [lia|]. apply Hall in Hgc. lia.
Qed.

Lemma after_last_since f : after (se_last (ses y)) f = true -> after since f = true.
Proof.
  rewrite (s_last _ _ Hinv). destruct (list.last (se_out (ses y))) as [g|] eqn:Hl; [|done].
  assert (Hg : g ∈ se_out (ses y)) by (apply last_Some in Hl as [l' ->]; apply elem_of_app; right; constructor).
  apply (s_out _ _ Hinv) in Hg as [_ Hg]. unfold after in *. destruct since as [c|]; [|done].
  apply Z.ltb_lt in Hg. rewrite !Z.ltb_lt. lia.
Qed.

Lemma out_before f g : after (se_last (ses y)) f = true -> g ∈ se_out (ses y) -> cursor g < cursor f.
Proof.
  intros Hf Hg. destruct (list.last (se_out (ses y))) as [l|] eqn:Hl.
  - pose proof (sorted_last_max _ _ _ (s_out_sorted _ _ Hinv) Hl Hg).
    rewrite (s_last _ _ Hinv), Hl in Hf. apply Z.ltb_lt in Hf. lia.
  - apply last_None in Hl. rewrite Hl in Hg. by apply elem_of_nil in Hg.
Qed.
End Facts.

(** ** Preservation *)

Lemma commit_inv since f y :
  ses_inv since y -> replay_open (ses y) = false -> Forall (fun g => cursor g < cursor f) (graph y) ->
  ses_inv since (commit f y).
Proof.
  intros Hinv Hopen Hf. rewrite Forall_forall in Hf.
  assert (Hnew : after since f = true -> after (se_last (ses y)) f = true).
  { rewrite (s_last _ _ Hinv). destruct (list.last (se_out (ses y))) as [g|] eqn:Hl; [|done]. intros _.
    apply last_Some in Hl as [l' Hl]. apply Z.ltb_lt, Hf.
    apply (s_out _ _ Hinv). rewrite Hl. apply elem_of_app. right. constructor. }
  constructor; simpl; try apply Hinv.
  - apply sorted_snoc; [apply Hinv|done].
  - rewrite List.filter_app, (s_mirror _ _ Hinv). simpl. destruct (mirrored f); [by rewrite app_assoc|by rewrite app_nil_r].
  - intros g Hg. destruct (s_out _ _ Hinv g Hg). split; [|done]. apply elem_of_app. by left.
  - intros g [Hg| ->%list_elem_of_singleton]%elem_of_app Hm Hs Hl; [by apply (s_caught _ _ Hinv)|].
    simpl in Hl. by rewrite Hnew in Hl.
  - pose proof (s_state _ _ Hinv) as Hst. unfold state_inv, replay_open in *. simpl.
    destruct (se_state (ses y)) as [n acc|rest| |]; [done| |done|done].
    destruct Hst as (Hs & Hr & Hg & Hp). split_and!; [done| | |done].
    + intros g Hgr. destruct (Hr g Hgr). split; [|done]. apply elem_of_app. by left.
    + intros g [Hgr| ->%list_elem_of_singleton]%elem_of_app Hl; [by apply Hg|].
      right. intros h Hh. apply Hf. by apply Hr.
Qed.

Lemma mirror_inv since y y' : ses_inv since y -> mirror_frame 0 y = Some y' -> ses_inv since y'.
Proof.
  unfold mirror_frame. intros Hinv Hm. destruct (retired y) eqn:Hret; [done|].
  apply bind_Some in Hm as (f & Hf & [= <-]). destruct (unsent y) as [|g u] eqn:Hu; [done|]. injection Hf as ->.
  pose proof (s_pos _ _ Hinv) as Hpos.
  constructor; simpl; try apply Hinv.
  - by rewrite (s_mirror _ _ Hinv), Hu, <-app_assoc.
  - rewrite length_app. lia.
  - pose proof (s_state _ _ Hinv) as Hst. unfold state_inv in *. simpl.
    destruct (se_state (ses y)) as [n acc|rest| |]; [done| | |destruct Hst; congruence].
    1: destruct Hst as (Hs & Hr & Hg & Hp); split_and!; [done..|].
    all: intros i g Hi; rewrite lookup_app_l by lia; eauto.
Qed.

Lemma elem_of_query k last gr f :
  f ∈ query_replay k last gr <-> f ∈ gr /\ frame_kind f = k /\ after last f = true.
Proof.
  unfold query_replay. rewrite !list_elem_of_In, List.filter_In, andb_true_iff, bool_decide_eq_true. tauto.
Qed.

Lemma NoDup_query k last gr : NoDup gr -> NoDup (query_replay k last gr).
Proof. unfold query_replay. rewrite !NoDup_ListNoDup. apply List.NoDup_filter. Qed.

Lemma sorted_NoDup l : sorted l -> NoDup l.
Proof.
  unfold sorted. induction 1 as [|x l Hl IH Hx]; constructor; [|done].
  rewrite Forall_forall in Hx. intros H. apply Hx in H. lia.
Qed.

(** The next query adds the frames of one kind. *)
Lemma query_fresh n k acc last gr :
  replay_kinds !! n = Some k -> NoDup gr -> NoDup acc ->
  (forall f, f ∈ acc -> frame_kind f ∈ take n replay_kinds) -> NoDup (acc ++ query_replay k last gr).
Proof.
  intros Hk Hgr Hnd Hacc. apply NoDup_app. split_and!; [done| |by apply NoDup_query].
  intros f Hf%Hacc (_ & Hfk & _)%elem_of_query. rewrite Hfk in Hf.
  apply list_elem_of_lookup in Hf as [j Hj]. apply lookup_take_Some in Hj as [Hj Hjn].
  assert (Hnk : NoDup replay_kinds) by (apply (bool_decide_unpack _); by vm_compute).
  pose proof (NoDup_lookup _ _ _ _ Hnk Hj Hk). lia.
Qed.

Lemma querying_inv since y n acc k :
  ses_inv since y -> se_state (ses y) = Querying n acc -> replay_kinds !! n = Some k ->
  ses_inv since (with_session y (mkSession (Querying (S n) (acc ++ query_replay k (se_last (ses y)) (graph y)))
                                   (se_pos (ses y)) (se_last (ses y)) (se_out (ses y)))).
Proof.
  intros Hinv Hst Hk. pose proof (s_state _ _ Hinv) as H. unfold state_inv in H. rewrite Hst in H.
  destruct H as (Hn & Hnd & Hacc). constructor; simpl; try apply Hinv.
  unfold state_inv. cbn [ses se_state se_last graph with_session]. apply lookup_lt_Some in Hk as Hlt. simpl in Hlt. split_and!; [lia| |].
  - apply (query_fresh n); [done|apply sorted_NoDup, Hinv|done|]. intros f Hf. by apply Hacc.
  - intros f. rewrite elem_of_app, Hacc, elem_of_query, (take_S_r _ _ _ Hk), elem_of_app, list_elem_of_singleton. tauto.
Qed.

Lemma replay_start_inv since y acc :
  ses_inv since y -> se_state (ses y) = Querying 3 acc ->
  ses_inv since (with_session y (mkSession (Replaying (merge_sort frame_le acc)) (se_pos (ses y))
                                   (se_last (ses y)) (se_out (ses y)))).
Proof.
  intros Hinv Hst. pose proof (s_state _ _ Hinv) as H. unfold state_inv in H. rewrite Hst in H.
  destruct H as (_ & Hnd & Hacc).
  assert (Hall : forall f, f ∈ acc <-> f ∈ graph y /\ after (se_last (ses y)) f = true).
  { intros f. rewrite Hacc. split; [tauto|]. intros [? ?]. split_and!; [done..|].
    apply (bool_decide_unpack _). by destruct (frame_kind f). }
  pose proof (merge_sort_Permutation frame_le acc) as Hp.
  constructor; simpl; try apply Hinv. unfold state_inv. simpl. split_and!.
  - apply (merge_sort_sorted (graph y)); [apply sorted_distinct, Hinv|done|]. intros f Hf. by apply Hall.
  - intros f. rewrite Hp. apply Hall.
  - intros f Hf Hl. left. rewrite Hp. by apply Hall.
  - intros i f _ Hi Hs. destruct (chan_in_graph _ _ Hinv _ _ Hi) as [Hg Hm].
    destruct (after (se_last (ses y)) f) eqn:Ha; [right; rewrite Hp; by apply Hall|].
    left. by apply (s_caught _ _ Hinv).
Qed.

(** What delivering a frame after the last one needs. *)
Lemma deliver_inv since y f st pos :
  ses_inv since y -> f ∈ graph y -> after (se_last (ses y)) f = true -> (pos <= length (chan y))%nat ->
  (forall g, g ∈ graph y -> mirrored g = true -> after (se_last (ses y)) g = true -> cursor g < cursor f ->
     g ∈ se_out (ses y)) ->
  state_inv since (with_session y (deliver f st pos (ses y))) ->
  ses_inv since (with_session y (deliver f st pos (ses y))).
Proof.
  intros Hinv Hf Ha Hpos Hbefore Hst. constructor; simpl; try apply Hinv; try done.
  - apply sorted_snoc; [apply Hinv|]. intros g Hg. by apply (out_before _ _ Hinv f g).
  - intros g [Hg| ->%list_elem_of_singleton]%elem_of_app; [by apply (s_out _ _ Hinv)|].
    split; [done|by apply (after_last_since _ _ Hinv)].
  - by rewrite last_snoc.
  - intros g Hg Hm Hs Hl. simpl in *. apply Z.ltb_ge in Hl. apply elem_of_app.
    destruct (after (se_last (ses y)) g) eqn:Hag; [|left; by apply (s_caught _ _ Hinv)].
    destruct (Z.eq_dec (cursor g) (cursor f)) as [He|].
    + right. rewrite (sorted_inj _ _ _ (s_graph _ _ Hinv) Hg Hf He). constructor.
    + left. apply Hbefore; try done. lia.
Qed.

Lemma replay_deliver_inv since y f rest :
  ses_inv since y -> se_state (ses y) = Replaying (f :: rest) ->
  ses_inv since (with_session y (deliver f (Replaying rest) (se_pos (ses y)) (ses y))).
Proof.
  intros Hinv Hst. pose proof (s_state _ _ Hinv) as H. unfold state_inv in H. rewrite Hst in H.
  destruct H as (Hs & Hr & Hg & Hp). apply StronglySorted_inv in Hs as [Hs Hx]. rewrite Forall_forall in Hx.
  destruct (Hr f ltac:(constructor)) as [Hf Ha].
  assert (Hmono : forall g, after (Some (cursor f)) g = true -> after (se_last (ses y)) g = true).
  { intros g. unfold after in *. destruct (se_last (ses y)); [|done]. rewrite !Z.ltb_lt in *. lia. }
  apply deliver_inv; try done; [apply Hinv| |].
  - intros g Hgg _ Hga Hlt. exfalso. destruct (Hg g Hgg Hga) as [[->|Hgr]%elem_of_cons|Hall]; [lia| |].
    + apply Hx in Hgr. lia.
    + specialize (Hall f ltac:(constructor)). lia.
  - unfold state_inv. cbn [ses se_state se_last se_out se_pos graph chan with_session deliver]. split_and!; [done| | |].
    + intros g Hgr. destruct (Hr g ltac:(by constructor)). split; [done|]. by apply Z.ltb_lt, Hx.
    + intros g Hgg Hga. apply Z.ltb_lt in Hga as Hlt.
      destruct (Hg g Hgg (Hmono g Hga)) as [[->|?]%elem_of_cons|Hall]; [lia|by left|].
      right. intros h Hh. apply Hall. by constructor.
    + intros i g Hi Hc Hsi. destruct (Hp i g Hi Hc Hsi) as [?|[->|?]%elem_of_cons].
      * left. apply elem_of_app. by left.
      * left. apply elem_of_app. right. constructor.
      * by right.
Qed.

Lemma live_deliver_inv since y f :
  ses_inv since y -> se_state (ses y) = Live -> chan y !! se_pos (ses y) = Some f ->
  after (se_last (ses y)) f = true ->
  ses_inv since (with_session y (deliver f Live (S (se_pos (ses y))) (ses y))).
Proof.
  intros Hinv Hst Hc Ha. pose proof (s_state _ _ Hinv) as H. unfold state_inv in H. rewrite Hst in H.
  destruct (chan_in_graph _ _ Hinv _ _ Hc) as [Hf _]. apply lookup_lt_Some in Hc as Hlt.
  apply deliver_inv; try done.
  - intros g Hg Hm Hga Hlt'. destruct (before_in_chan _ _ Hinv _ _ _ Hc Hg Hm Hlt') as (j & Hj & Hcj).
    apply (H j g Hj Hcj). by apply (after_last_since _ _ Hinv).
  - unfold state_inv. simpl. intros i g Hi Hci Hsi. apply elem_of_app.
    destruct (decide (i = se_pos (ses y))) as [->|]; [right; assert (g = f) as -> by congruence; constructor|].
    left. apply (H i g); [lia|done..].
Qed.

Lemma session_step_inv capacity since y s :
  ses_inv since y -> session_step capacity (graph y) (chan y) (retired y) (ses y) = Some s ->
  ses_inv since (with_session y s).
Proof.
  intros Hinv Hs. pose proof (s_state _ _ Hinv) as H. unfold session_step in Hs. unfold state_inv in H.
  destruct (se_state (ses y)) as [n acc|[|f rest]| |] eqn:Hst.
  - destruct (replay_kinds !! n) as [k|] eqn:Hk; injection Hs as <-; [by apply querying_inv|].
    apply lookup_ge_None in Hk. change (length replay_kinds) with 3%nat in Hk. destruct H as (Hn & _).
    assert (n = 3%nat) as -> by lia. by apply replay_start_inv.
  - injection Hs as <-. destruct H as (_ & _ & _ & Hp). constructor; simpl; try apply Hinv.
    unfold state_inv. simpl. intros i g Hi Hc Hsi. destruct (Hp i g Hi Hc Hsi) as [?|?%elem_of_nil]; done.
  - injection Hs as <-. by apply replay_deliver_inv.
  - destruct (_ <? _)%nat eqn:Hlag.
    { injection Hs as <-. constructor; simpl; try apply Hinv; [lia|]. unfold state_inv. simpl.
      split_and!; [lia|constructor|]. intros f. rewrite !elem_of_nil. tauto. }
    destruct (chan y !! se_pos (ses y)) as [f|] eqn:Hc.
    + destruct (after (se_last (ses y)) f) eqn:Ha; injection Hs as <-; [by apply live_deliver_inv|].
      apply lookup_lt_Some in Hc as Hlt. destruct (chan_in_graph _ _ Hinv _ _ Hc) as [Hf Hm].
      constructor; simpl; try apply Hinv; [lia|]. unfold state_inv. simpl. intros i g Hi Hci Hsi.
      destruct (decide (i = se_pos (ses y))) as [->|]; [|apply (H i g); [lia|done..]].
      assert (g = f) as -> by congruence. by apply (s_caught _ _ Hinv).
    + destruct (retired y) eqn:Hret; [|done]. injection Hs as <-. constructor; simpl; try apply Hinv.
      unfold state_inv. simpl. split; [done|]. intros f [i Hi]%list_elem_of_lookup.
      apply (H i f); [|done]. apply lookup_lt_Some in Hi. apply lookup_ge_None in Hc. lia.
  - done.
Qed.

Lemma ordered_step_inv capacity since y y' : ses_inv since y -> ordered_step capacity y y' -> ses_inv since y'.
Proof.
  intros Hinv Hst. revert Hinv. destruct Hst as [f y Ho Hf|y y' Hm|y|y s Hs]; intros Hinv.
  - by apply commit_inv.
  - by eapply mirror_inv.
  - constructor; simpl; try apply Hinv. pose proof (s_state _ _ Hinv) as H. unfold state_inv in *. simpl.
    destruct (se_state (ses y)); try done. by destruct H.
  - by eapply session_step_inv.
Qed.

Lemma opened_inv since gr un ch :
  sorted gr -> List.filter mirrored gr = ch ++ un -> ses_inv since (opened since gr un ch).
Proof.
  intros Hs Hm. constructor; simpl; try done; try (by intros ? ?%elem_of_nil); try constructor.
  - intros f _ _ Hs1 Hs2. simpl in Hs2. by rewrite Hs1 in Hs2.
  - lia.
  - split; [constructor|]. intros f. rewrite !elem_of_nil. tauto.
Qed.

Lemma ordered_run_inv capacity since gr un ch y :
  sorted gr -> List.filter mirrored gr = ch ++ un ->
  rtc (ordered_step capacity) (opened since gr un ch) y -> ses_inv since y.
Proof.
  intros Hs Hm Hr. pose proof (opened_inv since gr un ch Hs Hm) as H0. revert Hr H0.
  induction 1 as [|y1 y2 y3 Hst _ IH]; [done|]. intros Hinv. apply IH. by eapply ordered_step_inv.
Qed.

(** ** Every interleaving *)

(** What holds however commits and mirrors fall: of the channel the session has
    read everything up to its last cursor, or holds it in its replay. *)
Definition loose_state (y : system) : Prop :=
  let last := se_last (ses y) in
  match se_state (ses y) with
  | Querying n acc =>
      (n <= 3)%nat /\ NoDup acc /\
      (forall f, f ∈ acc -> f ∈ graph y /\ after last f = true /\ frame_kind f ∈ take n replay_kinds) /\
      (forall i f, (i < se_pos (ses y))%nat -> chan y !! i = Some f -> after last f = true ->
         frame_kind f ∈ take n replay_kinds -> f ∈ acc)
  | Replaying rest =>
      sorted rest /\ (forall f, f ∈ rest -> f ∈ graph y /\ after last f = true) /\
      (forall i f, (i < se_pos (ses y))%nat -> chan y !! i = Some f -> after last f = true -> f ∈ rest)
  | Live => forall i f, (i < se_pos (ses y))%nat -> chan y !! i = Some f -> after last f = false
  | Closed => retired y = true /\ forall f, f ∈ chan y -> after last f = false
  end.

Record loose_inv (since : option Z) (y : system) : Prop := {
  l_nodup : NoDup (graph y);
  l_distinct : distinct (graph y);
  l_sent : forall f, f ∈ chan y ++ unsent y -> f ∈ graph y;
  l_out_sorted : sorted (se_out (ses y));
  l_out : forall f, f ∈ se_out (ses y) -> f ∈ graph y /\ after since f = true;
  l_last : se_last (ses y) = match list.last (se_out (ses y)) with Some f => Some (cursor f) | None => since end;
  l_pos : (se_pos (ses y) <= length (chan y))%nat;
  l_state : loose_state y
}.

Lemma loose_commit since f y :
  loose_inv since y -> Forall (fun g => cursor g <> cursor f) (graph y) -> loose_inv since (commit f y).
Proof.
  intros Hinv Hf. rewrite Forall_forall in Hf.
  assert (Hmono : forall g, g ∈ graph y -> g ∈ graph y ++ [f]) by (intros; apply elem_of_app; by left).
  constructor; simpl; try apply Hinv.
  - apply NoDup_app. split_and!; [apply Hinv| |apply NoDup_singleton].
    intros g Hg ->%list_elem_of_singleton. by apply (Hf f Hg).
  - intros g h [Hg| ->%list_elem_of_singleton]%elem_of_app [Hh| ->%list_elem_of_singleton]%elem_of_app Heq; auto.
    + by apply (l_distinct _ _ Hinv).
    + by destruct (Hf g Hg).
    + by destruct (Hf h Hh).
  - intros g [Hg|Hg]%elem_of_app; [apply Hmono, (l_sent _ _ Hinv), elem_of_app; by left|].
    destruct (mirrored f); [apply elem_of_app in Hg as [Hg|Hg]|]; [| by apply elem_of_app; right|];
      apply Hmono, (l_sent _ _ Hinv), elem_of_app; by right.
  - intros g Hg. destruct (l_out _ _ Hinv g Hg). auto.
  - pose proof (l_state _ _ Hinv) as Hst. unfold loose_state in *. simpl.
    destruct (se_state (ses y)) as [n acc|rest| |]; [| |done|done].
    + destruct Hst as (Hn & Hnd & Hacc & Hc). split_and!; [done..| |done]. intros g Hg. destruct (Hacc g Hg). auto.
    + destruct Hst as (Hs & Hr & Hc). split_and!; [done| |done]. intros g Hg. destruct (Hr g Hg). auto.
Qed.

Lemma loose_mirror since i y y' : loose_inv since y -> mirror_frame i y = Some y' -> loose_inv since y'.
Proof.
  unfold mirror_frame. intros Hinv Hm. destruct (retired y) eqn:Hret; [done|].
  apply bind_Some in Hm as (f & Hf & [= <-]). pose proof (l_pos _ _ Hinv) as Hpos.
  pose proof (delete_Permutation _ _ _ Hf) as Hperm.
  constructor; simpl; try apply Hinv.
  - intros g Hg. apply (l_sent _ _ Hinv). rewrite Hperm. revert Hg. rewrite !elem_of_app, !elem_of_cons, elem_of_nil. tauto.
  - rewrite length_app. lia.
  - pose proof (l_state _ _ Hinv) as Hst. unfold loose_state in *. simpl.
    destruct (se_state (ses y)) as [n acc|rest| |]; [| | |destruct Hst; congruence].
    + destruct Hst as (Hn & Hnd & Hacc & Hc). split_and!; [done..|].
      intros j g Hj. rewrite lookup_app_l by lia. eauto.
    + destruct Hst as (Hs & Hr & Hc). split_and!; [done..|]. intros j g Hj. rewrite lookup_app_l by lia. eauto.
    + intros j g Hj. rewrite lookup_app_l by lia. eauto.
Qed.

Section LooseFacts.
Context (since : option Z) (y : system) (Hinv : loose_inv since y).

Lemma loose_after_since f : after (se_last (ses y)) f = true -> after since f = true.
Proof.
  rewrite (l_last _ _ Hinv). destruct (list.last (se_out (ses y))) as [g|] eqn:Hl; [|done].
  assert (Hg : g ∈ se_out (ses y)) by (apply last_Some in Hl as [l' ->]; apply elem_of_app; right; constructor).
  apply (l_out _ _ Hinv) in Hg as [_ Hg]. unfold after in *. destruct since as [c|]; [|done].
  apply Z.ltb_lt in Hg. rewrite !Z.ltb_lt. lia.
Qed.

Lemma loose_out_before f g : after (se_last (ses y)) f = true -> g ∈ se_out (ses y) -> cursor g < cursor f.
Proof.
  intros Hf Hg. destruct (list.last (se_out (ses y))) as [l|] eqn:Hl.
  - pose proof (sorted_last_max _ _ _ (l_out_sorted _ _ Hinv) Hl Hg).
    rewrite (l_last _ _ Hinv), Hl in Hf. apply Z.ltb_lt in Hf. lia.
  - apply last_None in Hl. rewrite Hl in Hg. by apply elem_of_nil in Hg.
Qed.

Lemma chan_committed i f : chan y !! i = Some f -> f ∈ graph y.
Proof. intros Hi. apply (l_sent _ _ Hinv), elem_of_app. left. by eapply list_elem_of_lookup_2. Qed.

(** A frame behind the session's cursor was returned, or a later one was. *)
Lemma overtaken f :
  f ∈ graph y -> after since f = true -> after (se_last (ses y)) f = false ->
  f ∈ se_out (ses y) \/ exists g, g ∈ se_out (ses y) /\ cursor f < cursor g.
Proof.
  intros Hf Hs Hl. rewrite (l_last _ _ Hinv) in Hl. destruct (list.last (se_out (ses y))) as [g|] eqn:Hg; [|congruence].
  assert (Hgo : g ∈ se_out (ses y)) by (apply last_Some in Hg as [l' ->]; apply elem_of_app; right; constructor).
  apply Z.ltb_ge in Hl. destruct (Z.eq_dec (cursor f) (cursor g)) as [He|]; [left|right; exists g; split; [done|lia]].
  destruct (l_out _ _ Hinv g Hgo) as [Hgg _]. by rewrite (l_distinct _ _ Hinv f g).
Qed.

Lemma loose_deliver f st pos :
  f ∈ graph y -> after (se_last (ses y)) f = true -> (pos <= length (chan y))%nat ->
  loose_state (with_session y (deliver f st pos (ses y))) -> loose_inv since (with_session y (deliver f st pos (ses y))).
Proof.
  intros Hf Ha Hpos Hst. constructor; simpl; try apply Hinv; try done.
  - apply sorted_snoc; [apply Hinv|]. intros g Hg. by apply loose_out_before.
  - intros g [Hg| ->%list_elem_of_singleton]%elem_of_app; [by apply (l_out _ _ Hinv)|].
    split; [done|by apply loose_after_since].
  - by rewrite last_snoc.
Qed.
End LooseFacts.

Lemma after_mono last f g :
  after last f = true -> after (Some (cursor f)) g = true -> after last g = true.
Proof. unfold after. destruct last; [|done]. rewrite !Z.ltb_lt. lia. Qed.

Lemma loose_query since y n acc k :
  loose_inv since y -> se_state (ses y) = Querying n acc -> replay_kinds !! n = Some k ->
  loose_inv since (with_session y (mkSession (Querying (S n) (acc ++ query_replay k (se_last (ses y)) (graph y)))
                                     (se_pos (ses y)) (se_last (ses y)) (se_out (ses y)))).
Proof.
  intros Hinv Hst Hk. pose proof (l_state _ _ Hinv) as H. unfold loose_state in H. rewrite Hst in H.
  destruct H as (Hn & Hnd & Hacc & Hc). apply lookup_lt_Some in Hk as Hlt. change (length replay_kinds) with 3%nat in Hlt.
  constructor; simpl; try apply Hinv. unfold loose_state. cbn [ses se_state se_last se_pos graph chan with_session].
  split_and!; [lia| | |].
  - apply (query_fresh n); [done|apply Hinv|done|]. intros f Hf. by apply Hacc.
  - intros f. rewrite elem_of_app, elem_of_query, (take_S_r _ _ _ Hk), elem_of_app, list_elem_of_singleton.
    intros [Hf|(? & ? & ?)]; [|tauto]. destruct (Hacc f Hf) as (? & ? & ?). tauto.
  - intros i f Hi Hci Ha. rewrite (take_S_r _ _ _ Hk), !elem_of_app, list_elem_of_singleton, elem_of_query.
    intros [Hkf|Hkf]; [left; by apply (Hc i f)|]. right. split_and!; [by eapply chan_committed|done..].
Qed.

Lemma loose_replay_start since y acc :
  loose_inv since y -> se_state (ses y) = Querying 3 acc ->
  loose_inv since (with_session y (mkSession (Replaying (merge_sort frame_le acc)) (se_pos (ses y))
                                     (se_last (ses y)) (se_out (ses y)))).
Proof.
  intros Hinv Hst. pose proof (l_state _ _ Hinv) as H. unfold loose_state in H. rewrite Hst in H.
  destruct H as (_ & Hnd & Hacc & Hc). pose proof (merge_sort_Permutation frame_le acc) as Hp.
  constructor; simpl; try apply Hinv. unfold loose_state. simpl. split_and!.
  - apply (merge_sort_sorted (graph y)); [apply Hinv|done|]. intros f Hf. by apply Hacc.
  - intros f. rewrite Hp. intros Hf. destruct (Hacc f Hf) as (? & ? & _). done.
  - intros i f Hi Hci Ha. rewrite Hp. apply (Hc i f); [done..|]. apply (bool_decide_unpack _). by destruct (frame_kind f).
Qed.

Lemma loose_session_step capacity since y s :
  loose_inv since y -> session_step capacity (graph y) (chan y) (retired y) (ses y) = Some s ->
  loose_inv since (with_session y s).
Proof.
  intros Hinv Hs. pose proof (l_state _ _ Hinv) as H. unfold session_step in Hs. unfold loose_state in H.
  destruct (se_state (ses y)) as [n acc|[|f rest]| |] eqn:Hst.
  - destruct (replay_kinds !! n) as [k|] eqn:Hk; injection Hs as <-; [by apply loose_query|].
    apply lookup_ge_None in Hk. change (length replay_kinds) with 3%nat in Hk. destruct H as (Hn & _).
    assert (n = 3%nat) as -> by lia. by apply loose_replay_start.
  - injection Hs as <-. destruct H as (_ & _ & Hp). constructor; simpl; try apply Hinv.
    unfold loose_state. simpl. intros i g Hi Hc. destruct (after _ g) eqn:Ha; [|done]. by apply (Hp i g), elem_of_nil in Ha.
  - injection Hs as <-. destruct H as (Hso & Hr & Hp). destruct (Hr f ltac:(constructor)) as [Hf Ha].
    apply StronglySorted_inv in Hso as [Hso Hx]. rewrite Forall_forall in Hx.
    apply loose_deliver; try done; [apply Hinv|]. unfold loose_state.
    cbn [ses se_state se_last se_out se_pos graph chan with_session deliver]. split_and!; [done| |].
    + intros g Hg. split; [apply Hr; by constructor|]. by apply Z.ltb_lt, Hx.
    + intros i g Hi Hc Hga. destruct (proj1 (elem_of_cons _ _ _) (Hp i g Hi Hc (after_mono _ _ _ Ha Hga))) as [->|?]; [|done].
      apply Z.ltb_lt in Hga. lia.
  - destruct (_ <? _)%nat eqn:Hlag.
    { injection Hs as <-. constructor; simpl; try apply Hinv; [lia|]. unfold loose_state. simpl.
      split_and!; [lia|constructor|by intros ? ?%elem_of_nil|by intros ? ? _ _ _ ?%elem_of_nil]. }
    destruct (chan y !! se_pos (ses y)) as [f|] eqn:Hc.
    + apply lookup_lt_Some in Hc as Hlt. destruct (after (se_last (ses y)) f) eqn:Ha; injection Hs as <-.
      * apply loose_deliver; try done; [by eapply chan_committed|]. unfold loose_state. simpl. intros i g Hi Hci.
        destruct (decide (i = se_pos (ses y))) as [->|]; [assert (g = f) as -> by congruence; apply Z.ltb_irrefl|].
        specialize (H i g ltac:(lia) Hci). destruct (cursor f <? cursor g) eqn:Hfg; [|done].
        by rewrite (after_mono _ f g Ha Hfg) in H.
      * constructor; simpl; try apply Hinv; [lia|]. unfold loose_state. simpl. intros i g Hi Hci.
        destruct (decide (i = se_pos (ses y))) as [->|]; [by assert (g = f) as -> by congruence|]. apply (H i g); [lia|done].
    + destruct (retired y) eqn:Hret; [|done]. injection Hs as <-. constructor; simpl; try apply Hinv.
      unfold loose_state. simpl. split; [done|]. intros f [i Hi]%list_elem_of_lookup.
      apply (H i f); [|done]. apply lookup_lt_Some in Hi. apply lookup_ge_None in Hc. lia.
  - done.
Qed.

Lemma loose_step capacity since y y' : loose_inv since y -> step capacity y y' -> loose_inv since y'.
Proof.
  intros Hinv Hst. revert Hinv. destruct Hst as [f y Hf|i y y' Hm|y|y s Hs]; intros Hinv.
  - by apply loose_commit.
  - by eapply loose_mirror.
  - constructor; simpl; try apply Hinv. pose proof (l_state _ _ Hinv) as H. unfold loose_state in *. simpl.
    destruct (se_state (ses y)); try done. by destruct H.
  - by eapply loose_session_step.
Qed.

Lemma opened_loose since gr un ch :
  NoDup (cursor <$> gr) -> (forall f, f ∈ ch ++ un -> f ∈ gr) -> loose_inv since (opened since gr un ch).
Proof.
  intros Hnd Hsub. constructor; simpl; try done; try (by intros ? ?%elem_of_nil); try constructor.
  - by apply NoDup_fmap_1 in Hnd.
  - intros f g [i Hi]%list_elem_of_lookup [j Hj]%list_elem_of_lookup Heq.
    assert (i = j) as ->; [|congruence]. eapply (NoDup_lookup _ _ _ (cursor f) Hnd); rewrite list_lookup_fmap.
    + by rewrite Hi.
    + by rewrite Hj, Heq.
  - lia.
  - split; [constructor|]. split; [by intros ? ?%elem_of_nil|]. by intros ? ? _ _ _ ?%elem_of_nil.
Qed.

Lemma loose_run capacity since y y' : rtc (step capacity) y y' -> loose_inv since y -> loose_inv since y'.
Proof. induction 1 as [|y1 y2 y3 Hst _ IH]; [done|]. intros Hinv. apply IH. by eapply loose_step. Qed.

(** ** A session left alone *)

Section Settling.
Context (capacity : nat) (gr ch : list frame) (ret : bool).

(** One iteration of the session's loop while nobody writes. *)
Definition turn (s s' : session) : Prop := session_step capacity gr ch ret s = Some s'.

(** The session reaches a state in which [next] waits or is closed. *)
Definition settles (s : session) : Prop := exists s', rtc turn s s' /\ session_step capacity gr ch ret s' = None.

Lemma turn_settles s s' : turn s s' -> settles s' -> settles s.
Proof. intros Ht (q & Hq & Hn). exists q. split; [by eapply rtc_l|done]. Qed.

Lemma live_settles s : se_state s = Live -> (length ch <= se_pos s + capacity)%nat -> settles s.
Proof.
  remember (length ch - se_pos s)%nat as n eqn:Hn. revert s Hn.
  induction n as [n IH] using lt_wf_ind. intros s Hn Hst Hlag.
  destruct (ch !! se_pos s) as [f|] eqn:Hc.
  - apply lookup_lt_Some in Hc as Hlt. assert (Hnext : exists s', turn s s' /\ se_state s' = Live /\ se_pos s' = S (se_pos s)).
    { unfold turn, session_step. rewrite Hst, Hc. rewrite (proj2 (Nat.ltb_ge _ _)) by lia.
      destruct (after _ _); eexists; split_and!; done. }
    destruct Hnext as (s' & Ht & Hs' & Hp'). apply (turn_settles s s' Ht).
    eapply (IH (length ch - se_pos s')%nat); [lia|done..|lia].
  - destruct ret eqn:Hret.
    + eapply turn_settles.
      { unfold turn, session_step. rewrite Hst, Hc, Hret. rewrite (proj2 (Nat.ltb_ge _ _)) by lia. reflexivity. }
      eexists. split; [apply rtc_refl|done].
    + exists s. split; [apply rtc_refl|]. unfold session_step. rewrite Hst, Hc, Hret.
      by rewrite (proj2 (Nat.ltb_ge _ _)) by lia.
Qed.

(** A replay ends live, at the channel position it started with. *)
Lemma replaying_turns rest s :
  se_state s = Replaying rest -> exists s', rtc turn s s' /\ se_state s' = Live /\ se_pos s' = se_pos s.
Proof.
  revert s. induction rest as [|f rest IH]; intros s Hst.
  - eexists. split_and!; [apply rtc_once; unfold turn, session_step; rewrite Hst; reflexivity|done..].
  - destruct (IH (deliver f (Replaying rest) (se_pos s) s) eq_refl) as (s' & Hr & Hl & Hp).
    exists s'. split_and!; [|done..]. eapply rtc_l; [|done]. unfold turn, session_step. by rewrite Hst.
Qed.

(** [drain_replay] is so many iterations of [next]: same cursor, same frames,
    and the session is live afterwards unless it was not replaying. *)
Lemma drain_replay_turns s :
  rtc turn s (drain_replay s).2 /\ se_out (drain_replay s).2 = se_out s ++ (drain_replay s).1 /\
  (forall rest, se_state (drain_replay s).2 <> Replaying rest).
Proof.
  unfold drain_replay. destruct (se_state s) as [n acc|rest| |] eqn:Hst; simpl;
    try (rewrite Hst, app_nil_r; split_and!; [apply rtc_refl|done|congruence]).
  revert s Hst. induction rest as [|f rest IH]; intros s Hst; simpl.
  - rewrite app_nil_r. split_and!; [|done..]. apply rtc_once. unfold turn, session_step. by rewrite Hst.
  - destruct (IH (deliver f (Replaying rest) (se_pos s) s) eq_refl) as (Hr & Ho & Hn).
    split_and!; [|by rewrite Ho; simpl; rewrite <-app_assoc|done].
    eapply rtc_l; [|exact Hr]. unfold turn, session_step. by rewrite Hst.
Qed.

Lemma querying_turns n acc s :
  se_state s = Querying n acc -> exists s', rtc turn s s' /\ se_state s' = Live /\ se_pos s' = se_pos s.
Proof.
  remember (3 - n)%nat as m eqn:Hm. revert n acc s Hm.
  induction m as [|m IH]; intros n acc s Hm Hst.
  - assert (Hk : replay_kinds !! n = None) by (apply lookup_ge_None; simpl; lia).
    destruct (replaying_turns (merge_sort frame_le acc)
                (mkSession (Replaying (merge_sort frame_le acc)) (se_pos s) (se_last s) (se_out s)) eq_refl)
      as (s' & Hr & Hl & Hp). exists s'. split_and!; [|done..]. eapply rtc_l; [|done].
    unfold turn, session_step. by rewrite Hst, Hk.
  - destruct (lookup_lt_is_Some_2 replay_kinds n ltac:(simpl; lia)) as [k Hk].
    destruct (IH (S n) (acc ++ query_replay k (se_last s) gr)
                (mkSession (Querying (S n) (acc ++ query_replay k (se_last s) gr)) (se_pos s) (se_last s) (se_out s))
                ltac:(lia) eq_refl) as (s' & Hr & Hl & Hp).
    exists s'. split_and!; [|done..]. eapply rtc_l; [|done]. unfold turn, session_step. by rewrite Hst, Hk.
Qed.

Lemma rtc_settles s s' : rtc turn s s' -> settles s' -> settles s.
Proof. intros Hr (q & Hq & Hn). exists q. split; [by etrans|done]. Qed.

(** Whatever the lag: a lagged receiver is repositioned within the buffer, so
    that it lags at most once. *)
Lemma all_live_settles s : se_state s = Live -> settles s.
Proof.
  intros Hst. destruct (se_pos s + capacity <? length ch)%nat eqn:Hlag.
  - eapply turn_settles; [unfold turn, session_step; rewrite Hst, Hlag; reflexivity|].
    edestruct (querying_turns 0 []) as (s' & Hr & Hl & Hp); [|eapply rtc_settles; [exact Hr|]]; [done|].
    apply live_settles; [done|]. rewrite Hp. simpl. lia.
  - apply live_settles; [done|]. apply Nat.ltb_ge in Hlag. lia.
Qed.

Lemma session_settles s : settles s.
Proof.
  destruct (se_state s) as [n acc|rest| |] eqn:Hst.
  - destruct (querying_turns _ _ _ Hst) as (s' & Hr & Hl & _). eapply rtc_settles, all_live_settles; done.
  - destruct (replaying_turns _ _ Hst) as (s' & Hr & Hl & _). eapply rtc_settles, all_live_settles; done.
  - by apply all_live_settles.
  - exists s. split; [apply rtc_refl|]. unfold session_step. by rewrite Hst.
Qed.

(** What the session's steps preserve, its turns do. *)
Lemma turns_inv (P : system -> Prop) y s :
  (forall y s, P y -> session_step capacity (graph y) (chan y) (retired y) (ses y) = Some s -> P (with_session y s)) ->
  graph y = gr -> chan y = ch -> retired y = ret -> P y -> rtc turn (ses y) s -> P (with_session y s).
Proof.
  intros HP Hg Hc Hr Hinv Ht. remember (ses y) as s0 eqn:Hs0. revert y Hg Hc Hr Hinv Hs0.
  induction Ht as [s|s1 s2 s3 Ht _ IH]; intros y Hg Hc Hr Hinv Hs0.
  - subst s. by destruct y.
  - subst s1. apply (IH (with_session y s2)); try done. apply HP; [done|].
    rewrite Hg, Hc, Hr. exact Ht.
Qed.
End Settling.

(** A settled session is past every frame of the channel. *)
Lemma settled_past capacity since y :
  loose_inv since y -> session_step capacity (graph y) (chan y) (retired y) (ses y) = None ->
  forall f, f ∈ chan y -> after (se_last (ses y)) f = false.
Proof.
  intros Hinv Hn f Hf. pose proof (l_state _ _ Hinv) as Hst. unfold session_step in Hn. unfold loose_state in Hst.
  destruct (se_state (ses y)) as [n acc|[|? ?]| |]; [by destruct (_ !! _)|done..| |by apply Hst].
  destruct (_ <? _)%nat; [done|]. destruct (chan y !! se_pos (ses y)) eqn:Hc; [by destruct (after _ _)|].
  apply lookup_ge_None in Hc. apply list_elem_of_lookup in Hf as [i Hi]. apply lookup_lt_Some in Hi as Hlt.
  apply (Hst i f); [lia|done..].
Qed.

(** A settled session has returned every frame of the channel. *)
Lemma settled_caught_up capacity since y :
  ses_inv since y -> session_step capacity (graph y) (chan y) (retired y) (ses y) = None ->
  forall f, f ∈ chan y -> after since f = true -> f ∈ se_out (ses y).
Proof.
  intros Hinv Hn f Hf Ha. pose proof (s_state _ _ Hinv) as Hst. unfold session_step in Hn. unfold state_inv in Hst.
  destruct (se_state (ses y)) as [n acc|[|? ?]| |]; [by destruct (_ !! _)|done..| |by apply Hst].
  destruct (_ <? _)%nat; [done|]. destruct (chan y !! se_pos (ses y)) eqn:Hc; [by destruct (after _ _)|].
  apply lookup_ge_None in Hc. apply list_elem_of_lookup in Hf as [i Hi]. apply lookup_lt_Some in Hi as Hlt.
  apply (Hst i f); [lia|done..].
Qed.

(** ** The session's contract *)

(** C11: Every frame has a cursor of its own and is committed before it is
    mirrored.  However commits, mirrors, lag, retirement and its own steps interleave,
    commits between the queries of a replay included, a session returns frames
    in strictly increasing cursor order (none twice), each committed and after
    the cursor it was opened with; and from any point, left alone, it stops
    after finitely many steps, and every mirrored frame after that cursor has
    then been returned or overtaken: a frame with a later cursor was returned
    before it.  Overtaken frames are lost for good ([replay_race_loses_frame]).
    None is overtaken in runs where frames are committed in the order of their
    cursors and not between a replay's queries, and mirrored in the order they
    were committed; the code does not enforce that order. *)
Theorem session_exactly_once capacity since gr un ch y :
  NoDup (cursor <$> gr) -> (forall f, f ∈ ch ++ un -> f ∈ gr) ->
  rtc (step capacity) (opened since gr un ch) y ->
  sorted (se_out (ses y)) /\
  (forall f, f ∈ se_out (ses y) -> f ∈ graph y /\ after since f = true) /\
  exists s, rtc (turn capacity (graph y) (chan y) (retired y)) (ses y) s /\
    session_step capacity (graph y) (chan y) (retired y) s = None /\
    (forall f, f ∈ chan y -> after since f = true ->
       f ∈ se_out s \/ exists g, g ∈ se_out s /\ cursor f < cursor g) /\
    (sorted gr -> List.filter mirrored gr = ch ++ un -> rtc (ordered_step capacity) (opened since gr un ch) y ->
     forall f, f ∈ chan y -> after since f = true -> f ∈ se_out s).
Proof.
  intros Hnd Hsub Hr. pose proof (loose_run _ since _ _ Hr (opened_loose since gr un ch Hnd Hsub)) as Hinv.
  split_and!; [apply Hinv|apply Hinv|].
  destruct (session_settles capacity (graph y) (chan y) (retired y) (ses y)) as (s & Ht & Hn).
  exists s. split_and!; [done..| |].
  - assert (Hs : loose_inv since (with_session y s)).
    { by apply (turns_inv capacity (graph y) (chan y) (retired y) (loose_inv since) y s (loose_session_step capacity since)). }
    intros f Hf Ha. apply (overtaken since (with_session y s) Hs); [|done|by apply (settled_past capacity since _ Hs)].
    apply (l_sent _ _ Hs), elem_of_app. by left.
  - intros Hso Hm Ho. apply (settled_caught_up capacity since (with_session y s)); [|done].
    apply (turns_inv capacity (graph y) (chan y) (retired y) (ses_inv since) y s (session_step_inv capacity since)); try done.
    by apply (ordered_run_inv capacity since gr un ch).
Qed.

Definition art (c : Z) : frame := mkFrame c KArtifact.
Definition sta (c : Z) : frame := mkFrame c KStatus.

(** [n] iterations of the loop. *)
Fixpoint turns (capacity n : nat) (y : system) : system :=
  match n with
  | O => y
  | S n =>
      match session_step capacity (graph y) (chan y) (retired y) (ses y) with
      | Some s => turns capacity n (with_session y s)
      | None => y
      end
  end.

Lemma turns_ordered capacity n y : rtc (ordered_step capacity) y (turns capacity n y).
Proof.
  revert y. induction n as [|n IH]; intros y; simpl; [apply rtc_refl|].
  destruct (session_step _ _ _ _ _) as [s|] eqn:Hs; [|apply rtc_refl].
  eapply rtc_l; [by apply ostep_session|apply IH].
Qed.

Lemma ordered_steps capacity y y' : rtc (ordered_step capacity) y y' -> rtc (step capacity) y y'.
Proof.
  intros Hr. eapply rtc_subrel; [|exact Hr]. intros a b Hst. destruct Hst as [f x Ho Hf|x x1 Hm|x|x s Hs].
  - apply step_commit. eapply Forall_impl; [exact Hf|]. intros g Hg. simpl in Hg. lia.
  - by eapply step_mirror.
  - apply step_retire.
  - by apply step_session.
Qed.

Lemma turns_steps capacity n y : rtc (step capacity) y (turns capacity n y).
Proof.
  revert y. induction n as [|n IH]; intros y; simpl; [apply rtc_refl|].
  destruct (session_step _ _ _ _ _) as [s|] eqn:Hs; [|apply rtc_refl].
  eapply rtc_l; [by apply step_session|apply IH].
Qed.

(** A session that replays two frames, then lags behind a channel that buffers
    one frame, and is left alone. *)
Lemma session_exactly_once_witness :
  exists y, se_state (ses y) = Live /\ chan y = [art 1; sta 2; art 3; sta 4] /\ se_out (ses y) = [art 1; sta 2] /\
  exists s, rtc (turn 1 (graph y) (chan y) (retired y)) (ses y) s /\
    session_step 1 (graph y) (chan y) (retired y) s = None /\
    forall f, f ∈ chan y -> after None f = true -> f ∈ se_out s.
Proof.
  set (y0 := opened None [art 1; sta 2] [sta 2] [art 1]).
  set (y1 := commit (sta 4) (commit (art 3) (turns 1 7 y0))).
  set (y2 := default y1 (mirror_frame 0 y1)). set (y3 := default y2 (mirror_frame 0 y2)). set (y4 := default y3 (mirror_frame 0 y3)).
  exists y4. split_and!; [by vm_compute..|].
  assert (Ho : rtc (ordered_step 1) y0 y4).
  { etrans; [apply (turns_ordered 1 7)|]. fold y0.
    eapply rtc_l; [apply (ostep_commit 1 (art 3)); [by vm_compute|vm_compute; repeat constructor]|].
    eapply rtc_l; [apply (ostep_commit 1 (sta 4)); [by vm_compute|vm_compute; repeat constructor]|]. fold y1.
    eapply rtc_l; [apply (ostep_mirror 1 y1 y2); by vm_compute|].
    eapply rtc_l; [apply (ostep_mirror 1 y2 y3); by vm_compute|].
    eapply rtc_l; [apply (ostep_mirror 1 y3 y4); by vm_compute|]. apply rtc_refl. }
  destruct (session_exactly_once 1 None [art 1; sta 2] [sta 2] [art 1] y4) as (_ & _ & s & Ht & Hn & _ & Hall).
  - apply (bool_decide_unpack _). vm_compute. exact I.
  - intros f Hf. exact Hf.
  - apply ordered_steps. exact Ho.
  - exists s. split; [exact Ht|]. split; [exact Hn|]. apply Hall; [repeat constructor|reflexivity|exact Ho].
Defined.

(** ** A commit between the queries of a replay *)

(** The session is past cursor [c]: nothing at or before it is pending. *)
Definition past (c : Z) (y : system) : Prop :=
  (exists l, se_last (ses y) = Some l /\ c <= l) /\
  match se_state (ses y) with
  | Querying _ l => Forall (fun f => c < cursor f) l
  | Replaying l => Forall (fun f => c < cursor f) l
  | _ => True
  end.

Lemma after_past c l f : c <= l -> after (Some l) f = true -> c < cursor f.
Proof. simpl. rewrite Z.ltb_lt. lia. Qed.

Lemma session_step_past capacity c y s f :
  past c y -> session_step capacity (graph y) (chan y) (retired y) (ses y) = Some s ->
  cursor f <= c -> f ∉ se_out (ses y) -> past c (with_session y s) /\ f ∉ se_out s.
Proof.
  unfold past, session_step. intros [(l & Hl & Hcl) Hst] Hs Hf Hout.
  destruct (se_state (ses y)) as [n acc|[|g rest]| |] eqn:Hse; simpl.
  - destruct (replay_kinds !! n); injection Hs as <-; simpl; (split; [|done]); (split; [by eauto|]).
    + apply Forall_app. split; [done|]. apply Forall_forall. intros g (_ & _ & Hg)%elem_of_query.
      rewrite Hl in Hg. by eapply after_past.
    + rewrite Forall_forall in Hst |- *. intros g. rewrite merge_sort_Permutation. apply Hst.
  - injection Hs as <-. simpl. eauto.
  - injection Hs as <-. simpl. apply Forall_cons in Hst as [Hg Hst]. split; [split; [eexists; split; [done|lia]|done]|].
    intros [?| ->%list_elem_of_singleton]%elem_of_app; [done|lia].
  - destruct (_ <? _)%nat; [injection Hs as <-; simpl; eauto|].
    destruct (chan y !! se_pos (ses y)) as [g|].
    + destruct (after _ _) eqn:Ha; injection Hs as <-; simpl; [|by eauto]. rewrite Hl in Ha.
      pose proof (after_past _ _ _ Hcl Ha). split; [split; [eexists; split; [done|lia]|done]|].
      intros [?| ->%list_elem_of_singleton]%elem_of_app; [done|lia].
    + destruct (retired y); [injection Hs as <-; simpl; eauto|done].
  - done.
Qed.

Lemma step_past capacity c y y' f :
  step capacity y y' -> cursor f <= c -> past c y /\ f ∉ se_out (ses y) -> past c y' /\ f ∉ se_out (ses y').
Proof.
  intros Hst Hf. destruct Hst as [g y _|i y y' Hm|y|y s Hs]; intros [Hp Ho].
  - by split.
  - unfold mirror_frame in Hm. destruct (retired y); [done|]. apply bind_Some in Hm as (g & _ & [= <-]). by split.
  - by split.
  - by eapply session_step_past.
Qed.

Lemma run_past capacity c y y' f :
  rtc (step capacity) y y' -> cursor f <= c -> past c y -> f ∉ se_out (ses y) -> f ∉ se_out (ses y').
Proof.
  intros Hr Hf Hp Ho. assert (H : past c y /\ f ∉ se_out (ses y)) by done. clear Hp Ho. revert H.
  induction Hr as [y|y1 y2 y3 Hst _ IH]; [tauto|]. intros H. apply IH. by eapply step_past.
Qed.

(** The replay reads the graph with one query per kind of frame, and
    nothing keeps a writer from committing between two of them.  With frames
    committed and mirrored in cursor order, an artifact committed after the
    artifacts were read and a status committed before the statuses are read
    give a replay holding the status alone; the session's cursor then passes
    the artifact, its live copy is skipped as an overlap, and no continuation
    of the run ever returns it. *)
Theorem replay_race_loses_frame c :
  exists y, rtc (step (S c)) (opened None [] [] []) y /\
    chan y = [art 1; sta 2] /\ unsent y = [] /\
    session_step (S c) (graph y) (chan y) (retired y) (ses y) = None /\
    se_out (ses y) = [sta 2] /\
    forall y', rtc (step (S c)) y y' -> art 1 ∉ se_out (ses y').
Proof.
  set (y1 := commit (sta 2) (commit (art 1) (turns (S c) 2 (opened None [] [] [])))).
  set (y2 := turns (S c) 4 y1). set (y3 := default y2 (mirror_frame 0 y2)). set (y4 := turns (S c) 1 y3).
  set (y5 := default y4 (mirror_frame 0 y4)). set (y6 := turns (S c) 1 y5).
  exists y6. split.
  { etrans; [apply (turns_steps (S c) 2)|]. eapply rtc_l; [apply (step_commit _ (art 1)); constructor|].
    eapply rtc_l; [apply (step_commit _ (sta 2)); vm_compute; repeat constructor; discriminate|]. fold y1. etrans; [apply (turns_steps (S c) 4)|]. fold y2.
    eapply rtc_l; [apply (step_mirror _ 0 y2 y3); reflexivity|]. etrans; [apply (turns_steps (S c) 1)|]. fold y4.
    eapply rtc_l; [apply (step_mirror _ 0 y4 y5); reflexivity|]. apply (turns_steps (S c) 1). }
  split_and!; [reflexivity..|]. intros y' Hr. apply (run_past (S c) 2 y6 y' (art 1) Hr).
  - vm_compute. congruence.
  - split; [exists 2; split; [reflexivity|lia]|]. exact I.
  - apply (bool_decide_unpack _). reflexivity.
Qed.
