(* ===== verification/TaskStore.v ===== *)
(** * The A2A task store ([baml-rt-a2a/src/task_subgraph_store.rs])

    Task lifecycle over the provenance graph: the transition table, the gate
    and the commit of a status update, artifact updates, the application of a
    stream chunk, reading, listing and cancelling tasks.  The graph is an
    interface ([TaskGraph], the operations of [TaskGraphReader] and of
    [ProvenanceWriter::add_event]) with the behaviour the store relies on as
    the laws of [TaskGraphLaws]; [MemGraph] is an in-memory graph that
    satisfies them.  Effects are a state-and-error monad over [Store]. *)

From stdpp Require Import base list strings gmap.
From Stdlib Require Import ZArith Lia Ascii.
From S2P Require Import Prelude RustStr Json Ids A2aTypes Broadcaster.

Open Scope string_scope.

(** ** The transition table *)

Definition is_allowed_transition (from to : string) : bool :=
  if String.eqb from to then true
  else if is_terminal_state from then false
  else
    existsb (fun '(a, b) => String.eqb from a && String.eqb to b)
      [(S_SUBMITTED, S_WORKING); (S_SUBMITTED, S_COMPLETED); (S_SUBMITTED, S_FAILED);
       (S_SUBMITTED, S_CANCELED); (S_SUBMITTED, S_REJECTED); (S_SUBMITTED, S_INPUT_REQUIRED);
       (S_SUBMITTED, S_AUTH_REQUIRED);
       (S_WORKING, S_INPUT_REQUIRED); (S_WORKING, S_AUTH_REQUIRED); (S_WORKING, S_COMPLETED);
       (S_WORKING, S_FAILED); (S_WORKING, S_CANCELED); (S_WORKING, S_REJECTED);
       (S_INPUT_REQUIRED, S_WORKING); (S_INPUT_REQUIRED, S_CANCELED);
       (S_INPUT_REQUIRED, S_REJECTED); (S_INPUT_REQUIRED, S_COMPLETED);
       (S_INPUT_REQUIRED, S_FAILED);
       (S_AUTH_REQUIRED, S_WORKING); (S_AUTH_REQUIRED, S_CANCELED);
       (S_AUTH_REQUIRED, S_REJECTED); (S_AUTH_REQUIRED, S_COMPLETED);
       (S_AUTH_REQUIRED, S_FAILED)].

(** ** Events and the graph interface *)

Inductive ProvEventData :=
| EvTaskExists
| EvTaskStatusChanged (old_status : option TaskStatusKind)
    (old_status_anchor : option ActivityAnchorId) (new_status : option TaskStatusKind)
| EvTaskArtifactGenerated (artifact_id : option ArtifactId) (artifact_type : option string).

Record ProvEvent := mkEvent {
  ev_id : ActivityAnchorId;
  ev_context_id : ContextId;
  ev_task_id : TaskId;
  ev_timestamp_ms : Z;
  ev_data : ProvEventData
}.

Record HydratedTask := mkHydrated {
  h_context_id : ContextId;
  h_task_id : TaskId;
  h_status : option A2ATaskStateProps;
  h_messages : list MessageRef;
  h_artifacts : list ArtifactRef
}.

Definition ProvenanceError := string.

Inductive BamlRtError :=
| InvalidArgument (why : InvalidArg)
| ProvenanceContextRead (source : ProvenanceError).

(** The graph as the store sees it: [TaskGraphReader] and [add_event], which
    commits one event in one transaction or fails. *)
Class TaskGraph (G : Type) := {
  resolve_scoped : G -> ContextId -> TaskId -> result (option ScopedTaskRef) ProvenanceError;
  resolve_by_task_id : G -> TaskId -> result (option ScopedTaskRef) ProvenanceError;
  hydrate : G -> ScopedTaskRef -> option Z -> result HydratedTask ProvenanceError;
  hydrate_batch : G -> list ScopedTaskRef -> option Z -> result (list HydratedTask) ProvenanceError;
  list_scoped : G -> ContextId -> result (list ScopedTaskRef) ProvenanceError;
  list_all : G -> result (list ScopedTaskRef) ProvenanceError;
  latest_state : G -> ScopedTaskRef -> result (option A2ATaskStateProps) ProvenanceError;
  add_event : G -> ProvEvent -> result G ProvenanceError
}.

(** The head state of a task in a context: what the gate reads. *)
Definition head_state {G} `{TaskGraph G} (g : G) (ctx : ContextId) (tid : TaskId)
    : result (option A2ATaskStateProps) ProvenanceError :=
  let? scoped := resolve_scoped g ctx tid in
  match scoped with
  | Some s => latest_state g s
  | None => Ok None
  end.

(** What the store relies on: the head state hangs off the task node, which all
    contexts of the task share; a committed status change re-points it, and
    nothing else moves it. *)
Class TaskGraphLaws (G : Type) `{TaskGraph G} : Prop := {
  law_status : forall g ev g' old anchor k,
    ev_data ev = EvTaskStatusChanged old anchor (Some k) -> add_event g ev = Ok g' ->
    exists p, head_state g' (ev_context_id ev) (ev_task_id ev) = Ok (Some p) /\
              st_new_status p = k;
  law_shared : forall g ev g' old anchor k ctx p,
    ev_data ev = EvTaskStatusChanged old anchor (Some k) -> add_event g ev = Ok g' ->
    head_state g ctx (ev_task_id ev) = Ok (Some p) ->
    exists p', head_state g' ctx (ev_task_id ev) = Ok (Some p') /\ st_new_status p' = k;
  law_one_head : forall g ctx ctx' tid p p',
    head_state g ctx tid = Ok (Some p) -> head_state g ctx' tid = Ok (Some p') -> p = p';
  law_other_task : forall g ev g' ctx tid,
    add_event g ev = Ok g' -> tid <> ev_task_id ev ->
    head_state g' ctx tid = head_state g ctx tid;
  law_not_status : forall g ev g' ctx tid p,
    add_event g ev = Ok g' -> (forall old anchor new, ev_data ev <> EvTaskStatusChanged old anchor new) ->
    head_state g ctx tid = Ok (Some p) -> head_state g' ctx tid = Ok (Some p)
}.

(** ** The store's state and its monad *)

Record Store (G : Type) := mkStore {
  s_graph : G;
  s_counter : Z;               (** the seeded [EVENT_COUNTER] *)
  s_now : Z;                   (** what the clock reads *)
  s_bcast : Broadcaster
}.
Arguments mkStore {G}.
Arguments s_graph {G}.
Arguments s_counter {G}.
Arguments s_now {G}.
Arguments s_bcast {G}.

Definition SM (G A : Type) : Type := Store G -> Store G * result A BamlRtError.

Definition sm_ret {G A} (a : A) : SM G A := fun s => (s, Ok a).
Definition sm_lift {G A} (r : Store G -> result A BamlRtError) : SM G A := fun s => (s, r s).
Definition sm_bind {G A B} (c : SM G A) (k : A -> SM G B) : SM G B :=
  fun s => match c s with
           | (s', Ok a) => k a s'
           | (s', Err e) => (s', Err e)
           end.
Definition sm_modify {G} (f : Store G -> Store G) : SM G unit := fun s => (f s, Ok tt).

Notation "'do' x '<-' c ';' k" := (sm_bind c (fun x => k))
  (at level 20, x pattern, c at level 100, k at level 200) : agentium_scope.

(** One call of [next_activity_anchor_id] on the seeded counter. *)
Definition next_activity_anchor {G} : SM G ActivityAnchorId :=
  fun s => (mkStore (s_graph s) (wrap64 (s_counter s + 1)) (s_now s) (s_bcast s),
            Ok (ActivityAnchorId_from_counter (s_counter s))).

Section store.
Context {G : Type} `{TaskGraph G}.
Context (hash : TaskStreamKey -> Z) (hash_hex : TaskId -> string -> string).

(** [self.writer.add_event(event).await.map_err(map_writer_err)]. *)
Definition write_event (ev : ProvEvent) : SM G unit :=
  fun s => match add_event (s_graph s) ev with
           | Ok g => (mkStore g (s_counter s) (s_now s) (s_bcast s), Ok tt)
           | Err e => (s, Err (ProvenanceContextRead e))
           end.

(** The [ProvEvent] constructors: allocate an anchor, read the clock. *)
Definition task_event (context_id : ContextId) (task_id : TaskId) (data : ProvEventData)
    : SM G ProvEvent :=
  do id <- next_activity_anchor;
  fun s => (s, Ok (mkEvent id context_id task_id (s_now s) data)).

Definition replay_cursor (ev : ProvEvent) : result TaskReplayCursor BamlRtError :=
  map_err (fun a => InvalidArgument (BadReplayCursor a)) (TaskReplayCursor_from_anchor (ev_id ev)).

(** [self.broadcaster.writer(key)] then [writer.send(frame)], then
    [retire_task] when asked; the writer is dropped either way. *)
Definition mirror (key : TaskStreamKey) (frame : TaskUpdateFrame) (retire_after : bool) : SM G unit :=
  sm_modify (fun s =>
    let '(b1, w) := writer hash (s_bcast s) key in
    let b2 := fst (send b1 w frame) in
    mkStore (s_graph s) (s_counter s) (s_now s)
      (if retire_after then retire_task hash b2 w else drop_writer b2 w)).

Definition status_timestamp_ms (status : TaskStatus) (now : Z) : Z :=
  match ts_timestamp status ≫= parse_u64 with
  | Some ms => ms
  | None => now
  end.

(** ** [record_status_update] *)

(** The first half: parse the status, read the head state, apply the table.
    [None] is a rejected transition. *)
Definition status_gate (task_id : TaskId) (context_id : ContextId) (status : TaskStatus) (g : G)
    : result (option (TaskStatusKind * option A2ATaskStateProps)) BamlRtError :=
  let? new_status_kind := map_err InvalidArgument (wire_status_to_kind status) in
  let new_state := as_wire_str new_status_kind in
  let? current_state := map_err ProvenanceContextRead (head_state g context_id task_id) in
  let allowed :=
    match (fun p => as_wire_str (st_new_status p)) <$> current_state with
    | None => String.eqb new_state S_SUBMITTED
    | Some current =>
        if is_terminal_state current then false else is_allowed_transition current new_state
    end in
  Ok (if allowed then Some (new_status_kind, current_state) else None).

(** The second half: write the event, mirror it to live subscribers. *)
Definition status_commit (task_id : TaskId) (context_id : ContextId) (status : TaskStatus)
    (new_status_kind : TaskStatusKind) (current_state : option A2ATaskStateProps)
    : SM G (option TaskUpdateEvent) :=
  do event <- task_event context_id task_id
       (EvTaskStatusChanged (st_new_status <$> current_state)
          (st_activity_anchor <$> current_state) (Some new_status_kind));
  do cursor <- sm_lift (fun _ => replay_cursor event);
  do _ <- write_event event;
  do now <- sm_lift (fun s => Ok (s_now s));
  let frame := StatusTransition
    (mkStateProps (TaskNodeId_for_task_id task_id) new_status_kind
       (st_new_status <$> current_state) (status_timestamp_ms status now) (cur_anchor cursor))
    cursor in
  do _ <- mirror (mkKey context_id task_id) frame (is_terminal_state (as_wire_str new_status_kind));
  sm_ret (Some (UpdStatus (mkStatusUpdate (Some context_id) (Some task_id) (Some status) None ∅))).

Definition record_status_update (task_id : TaskId) (context_id : ContextId) (status : TaskStatus)
    : SM G (option TaskUpdateEvent) :=
  do gate <- sm_lift (fun s => status_gate task_id context_id status (s_graph s));
  match gate with
  | None => sm_ret None
  | Some (new_status_kind, current_state) =>
      status_commit task_id context_id status new_status_kind current_state
  end.

(** ** [record_artifact_update] *)

Definition record_artifact_update (task_id : TaskId) (context_id : ContextId) (artifact : Artifact)
    (append last_chunk : option bool) : SM G (option TaskUpdateEvent) :=
  let artifact_type := (a_metadata artifact ≫= (fun m : gmap string json => m !! "artifact_type")) ≫= as_str in
  do event <- task_event context_id task_id
       (EvTaskArtifactGenerated (a_artifact_id artifact) artifact_type);
  do cursor <- sm_lift (fun _ => replay_cursor event);
  do _ <- write_event event;
  do _ <- mirror (mkKey context_id task_id)
       (ArtifactGenerated (mkArtifactRef task_id (a_artifact_id artifact) artifact_type) cursor) false;
  sm_ret (Some (UpdArtifact
    (mkArtifactUpdate (Some context_id) (Some task_id) last_chunk append (Some artifact) None ∅))).

(** ** [apply_task_chunk] *)

Definition option_to_list {A} (o : option A) : list A :=
  match o with Some a => [a] | None => [] end.

(** The artifacts of a task snapshot, recorded in order. *)
Fixpoint record_artifacts (task_id : TaskId) (context_id : ContextId) (artifacts : list Artifact)
    : SM G (list TaskUpdateEvent) :=
  match artifacts with
  | [] => sm_ret []
  | artifact :: rest =>
      do ev <- record_artifact_update task_id context_id artifact (Some false) (Some true);
      do evs <- record_artifacts task_id context_id rest;
      sm_ret (option_to_list ev ++ evs)%list
  end.

(** (task id, context id, state) of the status recorded from the snapshot. *)
Definition recorded_status := (option TaskId * option ContextId * string)%type.

(** [upsert] and [insert_message] write nothing: tasks and messages come into
    existence through provenance events. *)
Definition upsert (task : Task) : SM G (option Task) := sm_ret (Some task).
Definition insert_message (message : Message) : SM G unit := sm_ret tt.

(** The snapshot handed to [upsert]: status and artifacts are taken out. *)
Definition strip_snapshot (t : Task) : Task :=
  mkTask (t_id t) (t_context_id t) [] (t_history t) None (t_metadata t) (t_extra t).

(** The [if let Some(mut t) = task] block. *)
Definition apply_task (t : Task) : SM G (list TaskUpdateEvent * option recorded_status) :=
  do _ <- upsert (strip_snapshot t);
  do status_part <-
    match t_status t, t_id t, t_context_id t with
    | Some status, Some tid, Some cid =>
        do ev <- record_status_update tid cid status;
        match ev with
        | None => sm_ret ([], None)
        | Some e =>
            do kind <- sm_lift (fun _ => map_err InvalidArgument (wire_status_to_kind status));
            sm_ret ([e], Some (t_id t, t_context_id t, as_wire_str kind))
        end
    | _, _, _ => sm_ret ([], None)
    end;
  let '(status_events, recorded) := status_part in
  do artifact_events <-
    match t_id t, t_context_id t with
    | Some tid, Some cid => record_artifacts tid cid (t_artifacts t)
    | _, _ => sm_ret []
    end;
  sm_ret ((status_events ++ artifact_events)%list, recorded).

Definition is_duplicate_status (recorded : option recorded_status) (up : TaskStatusUpdateEvent)
    (state_str : string) : bool :=
  match recorded with
  | Some (tid, cid, s) =>
      bool_decide (tid = su_task_id up) && bool_decide (cid = su_context_id up) && String.eqb s state_str
  | None => false
  end.

(** The [status_update] block. *)
Definition apply_status_update (recorded : option recorded_status)
    (status_update : option TaskStatusUpdateEvent) : SM G (list TaskUpdateEvent) :=
  match status_update ≫= (fun up => (up,.) <$> su_status up) with
  | None => sm_ret []
  | Some (up, status) =>
      do kind <- sm_lift (fun _ => map_err InvalidArgument (wire_status_to_kind status));
      if is_duplicate_status recorded up (as_wire_str kind) then sm_ret []
      else match su_task_id up, su_context_id up with
           | Some tid, Some cid =>
               do ev <- record_status_update tid cid status;
               sm_ret (option_to_list ev)
           | _, _ => sm_ret []
           end
  end.

(** The [artifact_update] block. *)
Definition apply_artifact_update (artifact_update : option TaskArtifactUpdateEvent)
    : SM G (list TaskUpdateEvent) :=
  match artifact_update with
  | None => sm_ret []
  | Some up =>
      match au_task_id up, au_context_id up with
      | Some tid, Some cid =>
          do ev <- record_artifact_update tid cid (default Artifact_default (au_artifact up))
                     (au_append up) (au_last_chunk up);
          sm_ret (option_to_list ev)
      | _, _ => sm_ret []
      end
  end.

(** The transcript message of an input-required status, from the snapshot
    first, then from the status update. *)
Definition input_required_transcript (chunk : StreamResponse) : option Message :=
  let of_ids t c st :=
    match t, c, st with
    | Some tid, Some cid, Some st => input_required_transcript_message hash_hex tid cid st
    | _, _, _ => None
    end in
  opt_or (sr_task_payload chunk ≫= fun t => of_ids (t_id t) (t_context_id t) (t_status t))
         (sr_status_update chunk ≫= fun up => of_ids (su_task_id up) (su_context_id up) (su_status up)).

Definition apply_task_chunk (chunk : StreamResponse) : SM G (list TaskUpdateEvent) :=
  do tp <- match sr_task_payload chunk with
           | Some t => apply_task t
           | None => sm_ret ([], None)
           end;
  let '(out1, recorded) := tp in
  do _ <- match opt_or (sr_message chunk) (input_required_transcript chunk) with
          | Some msg => insert_message msg
          | None => sm_ret tt
          end;
  do out2 <- apply_status_update recorded (sr_status_update chunk);
  do out3 <- apply_artifact_update (sr_artifact_update chunk);
  sm_ret (out1 ++ out2 ++ out3)%list.

(** ** Repository operations *)

Definition ensure_task_exists (task_id : TaskId) (context_id : option ContextId) : SM G unit :=
  match context_id with
  | None => sm_ret tt
  | Some cid =>
      do event <- task_event cid task_id EvTaskExists;
      write_event event
  end.

Definition hydrated_to_wire_task (h : HydratedTask) (history_messages : list Message) : Task :=
  mkTask (Some (h_task_id h)) (Some (h_context_id h))
    ((fun aref => mkArtifact (ar_artifact_id aref) None None []
        ((fun t => <["artifact_type" := JStr t]> ∅) <$> ar_artifact_type aref) [] ∅) <$> h_artifacts h)
    history_messages
    (status_kind_to_wire_status hash_hex (h_task_id h) (h_context_id h) <$> h_status h)
    None ∅.

Definition get (g : G) (id : TaskId) (history_length : option Z) : option Task :=
  match resolve_by_task_id g id with
  | Ok (Some scoped) =>
      match hydrate g scoped history_length with
      | Ok h => Some (hydrated_to_wire_task h [])
      | Err _ => None
      end
  | _ => None
  end.

(** [tasks.cancel]: errors are logged and answered with [None]. *)
Definition cancel (id : TaskId) (s : Store G) : Store G * option Task :=
  match resolve_by_task_id (s_graph s) id with
  | Ok (Some scoped) =>
      let context_id := to_context_id (sr_ctx scoped) in
      let write := do event <- task_event context_id id
                                 (EvTaskStatusChanged None None (Some Canceled));
                   write_event event in
      match write s with
      | (s', Ok _) =>
          (s', match hydrate (s_graph s') scoped None with
               | Ok h => Some (hydrated_to_wire_task h [])
               | Err _ => None
               end)
      | (s', Err _) => (s', None)
      end
  | _ => (s, None)
  end.

Definition state_matches (s status : TaskState) : bool :=
  match s, status with
  | StateString a, StateString b => String.eqb a b
  | StateInteger a, StateInteger b => (a =? b)%Z
  | _, _ => false
  end.

Definition clear_artifacts (t : Task) : Task :=
  mkTask (t_id t) (t_context_id t) [] (t_history t) (t_status t) (t_metadata t) (t_extra t).

(** The rows of [tasks.list] before paging. *)
Definition list_rows (g : G) (request : ListTasksRequest) (scoped : list ScopedTaskRef) : list Task :=
  let history_limit := lq_history_length request ≫= as_usize in
  let hydrated := match hydrate_batch g scoped history_limit with Ok v => v | Err _ => [] end in
  let tasks := (fun h => hydrated_to_wire_task h []) <$> hydrated in
  let tasks := match lq_status request with
               | Some status =>
                   List.filter (fun t => match t_status t ≫= ts_state with
                                         | Some s => state_matches s status
                                         | None => false
                                         end) tasks
               | None => tasks
               end in
  if default false (lq_include_artifacts request) then tasks else clear_artifacts <$> tasks.

(** The page arithmetic: [start + page_size] on [usize] (checked in a build
    with overflow checks, wrapping in a release build), then the slice
    [tasks[start..end]]. *)
Definition page_bounds (overflow_checks : bool) (start page_size len : Z) : outcome (Z * Z) :=
  if (usize_max <? start + page_size)%Z && overflow_checks then Panic
  else
    let e := Z.min (wrap64 (start + page_size)) len in
    if (start <? len)%Z && (e <? start)%Z then Panic else Done (start, e).

Definition list_page (overflow_checks : bool) (request : ListTasksRequest) (tasks : list Task)
    : outcome ListTasksResponse :=
  let len := Z.of_nat (length tasks) in
  let page_size := default 50%Z (lq_page_size request ≫= as_usize) in
  let start := default 0%Z (lq_page_token request ≫= parse_usize) in
  let! bounds := page_bounds overflow_checks start page_size len in
  let '(start, e) := bounds in
  let page_tasks := if (start <? len)%Z
                    then take (Z.to_nat (e - start)) (drop (Z.to_nat start) tasks) else [] in
  let next_page_token := if (e <? len)%Z then Some (show_Z e) else None in
  Done (mkListResponse page_tasks next_page_token (Some len) (Some page_size)).

Definition list_tasks (overflow_checks : bool) (g : G) (request : ListTasksRequest)
    : outcome ListTasksResponse :=
  let scoped_result := match lq_context_id request with
                       | Some ctx => list_scoped g ctx
                       | None => list_all g
                       end in
  match scoped_result with
  | Ok scoped => list_page overflow_checks request (list_rows g request scoped)
  | Err _ => Done (mkListResponse [] None (Some 0%Z) None)
  end.
End store.

(** ** An in-memory graph

    A task's head state hangs off its task node, its scopes are edges to
    context nodes; every event writes the scope edge of the context it
    carries. *)

Record MemGraph := mkMem {
  mg_scope : list (ContextNodeId * TaskNodeId);      (** newest first *)
  mg_head : gmap TaskNodeId A2ATaskStateProps;
  mg_artifacts : list (TaskNodeId * ArtifactRef)
}.

Definition mg_empty : MemGraph := mkMem [] ∅ [].

Definition mg_scoped (g : MemGraph) (c : ContextNodeId) (t : TaskNodeId) : bool :=
  existsb (fun '(c', t') => String.eqb c c' && String.eqb t t') (mg_scope g).

Definition mg_hydrate (g : MemGraph) (s : ScopedTaskRef) : HydratedTask :=
  mkHydrated (to_context_id (sr_ctx s)) (to_task_id (sr_task s)) (mg_head g !! sr_task s) []
    (snd <$> List.filter (fun '(t, _) => String.eqb t (sr_task s)) (mg_artifacts g)).

Definition mg_add (g : MemGraph) (ev : ProvEvent) : MemGraph :=
  let c := ContextNodeId_for_context_id (ev_context_id ev) in
  let t := TaskNodeId_for_task_id (ev_task_id ev) in
  let scope := if mg_scoped g c t then mg_scope g else (c, t) :: mg_scope g in
  match ev_data ev with
  | EvTaskExists => mkMem scope (mg_head g) (mg_artifacts g)
  | EvTaskStatusChanged old _ None => mkMem scope (mg_head g) (mg_artifacts g)
  | EvTaskStatusChanged old _ (Some k) =>
      mkMem scope (<[t := mkStateProps t k old (ev_timestamp_ms ev) (ev_id ev)]> (mg_head g))
        (mg_artifacts g)
  | EvTaskArtifactGenerated aid ty =>
      mkMem scope (mg_head g) (mg_artifacts g ++ [(t, mkArtifactRef (ev_task_id ev) aid ty)])%list
  end.

#[global] Instance MemGraph_TaskGraph : TaskGraph MemGraph := {
  resolve_scoped g ctx tid :=
    let c := ContextNodeId_for_context_id ctx in
    let t := TaskNodeId_for_task_id tid in
    Ok (if mg_scoped g c t then Some (mkScoped c t) else None);
  resolve_by_task_id g tid :=
    let t := TaskNodeId_for_task_id tid in
    Ok ((fun e => mkScoped (fst e) t) <$>
        List.find (fun '(_, t') => String.eqb t t') (mg_scope g));
  hydrate g s _ := Ok (mg_hydrate g s);
  hydrate_batch g ss _ := Ok (mg_hydrate g <$> ss);
  list_scoped g ctx :=
    let c := ContextNodeId_for_context_id ctx in
    Ok ((fun e => mkScoped (fst e) (snd e)) <$>
        List.filter (fun '(c', _) => String.eqb c c') (mg_scope g));
  list_all g := Ok ((fun e => mkScoped (fst e) (snd e)) <$> mg_scope g);
  latest_state g s := Ok (mg_head g !! sr_task s);
  add_event g ev :=
    match ev_data ev with
    | EvTaskStatusChanged _ _ None => Err "task status transition is missing new_status"
    | _ => Ok (mg_add g ev)
    end
}.

Lemma mg_scoped_spec g c t : mg_scoped g c t = true <-> (c, t) ∈ mg_scope g.
Proof.
  unfold mg_scoped. rewrite existsb_exists_elem. split.
  - intros ([c' t'] & Hin & Heq). apply andb_true_iff in Heq as [->%String.eqb_eq ->%String.eqb_eq]. done.
  - intros Hin. exists (c, t). split; [done|]. by rewrite !String.eqb_refl.
Qed.

Lemma mg_scope_add g ev :
  let c := ContextNodeId_for_context_id (ev_context_id ev) in
  let t := TaskNodeId_for_task_id (ev_task_id ev) in
  forall c' t', (c', t') ∈ mg_scope (mg_add g ev) <-> (c', t') = (c, t) \/ (c', t') ∈ mg_scope g.
Proof.
  intros c t c' t'. unfold mg_add. fold c t. destruct (mg_scoped g c t) eqn:E.
  - apply mg_scoped_spec in E. destruct (ev_data ev) as [|? ? []|]; simpl; split; auto; intros [->|]; done.
  - destruct (ev_data ev) as [|? ? []|]; simpl; by rewrite elem_of_cons.
Qed.

Lemma TaskNodeId_inj x y : TaskNodeId_for_task_id x = TaskNodeId_for_task_id y -> x = y.
Proof.
  intros H. unfold TaskNodeId_for_task_id, DerivedId_from_parts in H. simpl in H. by injection H.
Qed.

Lemma mg_head_state g ctx tid :
  head_state g ctx tid = Ok (if mg_scoped g (ContextNodeId_for_context_id ctx) (TaskNodeId_for_task_id tid)
                             then mg_head g !! TaskNodeId_for_task_id tid else None).
Proof.
  unfold head_state. cbn [resolve_scoped latest_state MemGraph_TaskGraph result_bind].
  by destruct (mg_scoped g _ _).
Qed.

#[global] Instance MemGraph_laws : TaskGraphLaws MemGraph.
Proof.
  split.
  - intros g ev g' old anchor k Hd Hadd. simpl in Hadd. rewrite Hd in Hadd. simplify_eq.
    rewrite mg_head_state.
    rewrite (proj2 (mg_scoped_spec _ _ _)) by (apply mg_scope_add; by left).
    unfold mg_add. rewrite Hd. cbn [mg_head]. rewrite lookup_insert_eq. by eexists.
  - intros g ev g' old anchor k ctx p Hd Hadd Hp. simpl in Hadd. rewrite Hd in Hadd. simplify_eq.
    rewrite mg_head_state in Hp |- *. destruct (mg_scoped g _ _) eqn:E; [|done].
    rewrite (proj2 (mg_scoped_spec _ _ _)) by (apply mg_scope_add; right; by apply mg_scoped_spec).
    unfold mg_add. rewrite Hd. cbn [mg_head]. rewrite lookup_insert_eq. by eexists.
  - intros g ctx ctx' tid p p'. rewrite !mg_head_state. destruct (mg_scoped g _ _), (mg_scoped g _ _); congruence.
  - intros g ev g' ctx tid Hadd Hne. simpl in Hadd.
    assert (g' = mg_add g ev) as -> by (destruct (ev_data ev) as [|? ? []|]; by simplify_eq).
    rewrite !mg_head_state. f_equal.
    assert (Hn : TaskNodeId_for_task_id tid <> TaskNodeId_for_task_id (ev_task_id ev))
      by (intros ?%TaskNodeId_inj; done).
    assert (Hs : mg_scoped (mg_add g ev) (ContextNodeId_for_context_id ctx) (TaskNodeId_for_task_id tid)
                 = mg_scoped g (ContextNodeId_for_context_id ctx) (TaskNodeId_for_task_id tid)).
    { apply eq_true_iff_eq. rewrite !mg_scoped_spec, mg_scope_add. split; [|by right].
      intros [Heq|]; [|done]. by apply (f_equal snd) in Heq. }
    rewrite Hs. destruct (mg_scoped g _ _); [|done].
    unfold mg_add. destruct (ev_data ev) as [|? ? []|]; simpl; try done. by rewrite lookup_insert_ne.
  - intros g ev g' ctx tid p Hadd Hns. simpl in Hadd. rewrite !mg_head_state.
    assert (g' = mg_add g ev) as -> by (destruct (ev_data ev) as [|? ? []|]; by simplify_eq).
    assert (mg_head (mg_add g ev) = mg_head g) as ->.
    { unfold mg_add. destruct (ev_data ev) eqn:E; simpl; try done. by destruct (Hns _ _ _ eq_refl). }
    destruct (mg_scoped g _ _) eqn:E; [intros Hx|done].
    rewrite (proj2 (mg_scoped_spec _ _ _)); [done|].
    apply mg_scope_add. right. by apply mg_scoped_spec.
Qed.

(** ** The gate *)

(** The gate of a status update lets a transition through exactly when the
    status parses and the table allows it: a task without a state can only
    become SUBMITTED, a terminal task accepts nothing, any other state accepts
    itself and the table's successors. *)
Theorem status_gate_spec {G} `{TaskGraph G} task_id context_id status (g : G) cur k :
  head_state g context_id task_id = Ok cur ->
  status_gate task_id context_id status g = Ok (Some (k, cur)) <->
  wire_status_to_kind status = Ok k /\
  match cur with
  | None => k = Submitted
  | Some p =>
      kind_is_terminal (st_new_status p) = false /\
      is_allowed_transition (as_wire_str (st_new_status p)) (as_wire_str k) = true
  end.
Proof.
  intros Hh. unfold status_gate. destruct (wire_status_to_kind status) as [k'|e]; simpl;
    [|split; [done|by intros [? _]]].
  rewrite Hh. simpl. destruct cur as [p|]; simpl.
  - rewrite kind_terminal_wire. destruct (kind_is_terminal _); simpl;
      [split; [done|by intros (_ & ? & _)]|].
    destruct (is_allowed_transition _ (as_wire_str k')) eqn:E; split.
    + intros [= ->]. done.
    + intros ([= ->] & _). done.
    + done.
    + intros ([= ->] & _ & ?). congruence.
  - destruct (String.eqb_spec (as_wire_str k') S_SUBMITTED) as [E|E]; split.
    + intros [= ->]. split; [done|]. by destruct k.
    + intros ([= ->] & ->). done.
    + done.
    + intros ([= ->] & ->). done.
Qed.

(** ** The lifecycle *)

(** One step of a task's lifecycle, on typed statuses. *)
Inductive lifecycle : TaskStatusKind -> TaskStatusKind -> Prop :=
| lifecycle_step k k' :
    kind_is_terminal k = false ->
    is_allowed_transition (as_wire_str k) (as_wire_str k') = true ->
    lifecycle k k'.

Lemma lifecycle_terminal k k' : kind_is_terminal k = true -> rtc lifecycle k k' -> k' = k.
Proof.
  intros Ht Hr. destruct Hr as [|k k1 k2 [? ? Hn _] _]; [done|congruence].
Qed.

(** What moves a status: the table, a SUBMITTED that comes with another context of
    the task, and [tasks.cancel]. *)
Inductive transition (resets cancels : bool) : TaskStatusKind -> TaskStatusKind -> Prop :=
| transition_table k k' : lifecycle k k' -> transition resets cancels k k'
| transition_reset k : resets = true -> transition resets cancels k Submitted
| transition_cancel k : cancels = true -> transition resets cancels k Canceled.

Lemma transition_plain k k' : rtc (transition false false) k k' -> rtc lifecycle k k'.
Proof. induction 1 as [|x y z [? ? Hl|?|?] _ IH]; [done|by eapply rtc_l|done|done]. Qed.

Lemma transition_more r c r' c' k k' :
  (r = true -> r' = true) -> (c = true -> c' = true) -> rtc (transition r c) k k' -> rtc (transition r' c') k k'.
Proof.
  intros Hr Hc. induction 1 as [|x y z Ht _ IH]; [done|]. eapply rtc_l; [|exact IH].
  destruct Ht; [by apply transition_table|apply transition_reset|apply transition_cancel]; auto.
Qed.

Section lifecycle.
Context {G : Type} `{TaskGraphLaws G}.
Context (hash : TaskStreamKey -> Z) (resets cancels : bool).
Context (ctx : ContextId) (tid : TaskId).

(** The task's head state moved by such transitions. *)
Definition moves (g g' : G) : Prop :=
  forall p, head_state g ctx tid = Ok (Some p) ->
  exists p', head_state g' ctx tid = Ok (Some p') /\ rtc (transition resets cancels) (st_new_status p) (st_new_status p').

(** A computation whose every outcome, error or not, respects the lifecycle. *)
Definition safe {A} (m : SM G A) : Prop := forall s, moves (s_graph s) (s_graph (fst (m s))).

Lemma moves_refl g : moves g g.
Proof. intros p Hp. by exists p. Qed.

Lemma moves_trans g1 g2 g3 : moves g1 g2 -> moves g2 g3 -> moves g1 g3.
Proof.
  intros H12 H23 p Hp. destruct (H12 p Hp) as (p2 & Hp2 & R1).
  destruct (H23 p2 Hp2) as (p3 & Hp3 & R2). exists p3. split; [done|by etrans].
Qed.

Lemma safe_ret {A} (a : A) : safe (sm_ret a).
Proof. intros s. apply moves_refl. Qed.

Lemma safe_lift {A} (f : Store G -> result A BamlRtError) : safe (sm_lift f).
Proof. intros s. apply moves_refl. Qed.

Lemma safe_bind {A B} (m : SM G A) (k : A -> SM G B) :
  safe m -> (forall a, safe (k a)) -> safe (sm_bind m k).
Proof.
  intros Hm Hk s. unfold sm_bind. specialize (Hm s). destruct (m s) as [s' [a|e]]; simpl in *; [|done].
  by eapply moves_trans; [|apply Hk].
Qed.

Lemma safe_mirror key frame r : safe (mirror hash key frame r).
Proof. intros s. unfold mirror, sm_modify. simpl. destruct (writer _ _ _). apply moves_refl. Qed.

Lemma safe_task_event c t d : safe (task_event (G:=G) c t d).
Proof. intros s. apply moves_refl. Qed.
End lifecycle.

#[export] Hint Resolve safe_ret safe_lift safe_mirror safe_task_event safe_bind : agentium.

Section lifecycle_ops.
Context {G : Type} `{TaskGraphLaws G}.
Context (hash : TaskStreamKey -> Z) (resets cancels : bool).
Context (ctx : ContextId) (tid : TaskId).
Notation safe := (safe resets cancels ctx tid).
Notation moves := (moves resets cancels ctx tid).

Lemma write_event_safe ev :
  ev_task_id ev <> tid \/ (forall o a n, ev_data ev <> EvTaskStatusChanged o a n) ->
  safe (write_event ev).
Proof.
  intros Hev s. unfold write_event. destruct (add_event (s_graph s) ev) as [g|e] eqn:E; simpl;
    [|apply moves_refl].
  intros p Hp. exists p. split; [|done]. destruct Hev as [Hne|Hns].
  - by rewrite (law_other_task _ _ _ ctx tid E) by done.
  - by apply (law_not_status _ _ _ ctx tid p E).
Qed.

(** An artifact or existence event: allocate, then write. *)
Lemma emit_safe c t d :
  t <> tid \/ (forall o a n, d <> EvTaskStatusChanged o a n) ->
  safe (do event <- task_event c t d; write_event event).
Proof.
  intros Hd s. unfold sm_bind, task_event, next_activity_anchor. simpl.
  match goal with |- context [write_event ?ev ?s1] => exact (write_event_safe ev Hd s1) end.
Qed.

Lemma record_artifact_update_safe t c a ap l : safe (record_artifact_update hash t c a ap l).
Proof.
  intros s. unfold record_artifact_update, sm_bind, task_event, next_activity_anchor, sm_lift. simpl.
  destruct (replay_cursor _) as [cur|]; [|apply moves_refl].
  set (ev := mkEvent _ _ _ _ _). set (s1 := mkStore _ _ _ _).
  assert (Hw : safe (write_event ev)) by (apply write_event_safe; by right).
  specialize (Hw s1). destruct (write_event ev s1) as [s2 [[]|]]; [|done].
  unfold mirror, sm_modify. by destruct (writer _ _ _).
Qed.

Lemma record_artifacts_safe t c l : safe (record_artifacts hash t c l).
Proof.
  induction l as [|a l IH]; simpl; [apply safe_ret|].
  apply safe_bind; [apply record_artifact_update_safe|]. intros ev.
  apply safe_bind; [done|]. intros; apply safe_ret.
Qed.

(** The commit of a transition the gate let through, under any context. *)
Lemma status_commit_head t c st k cur s p :
  head_state (s_graph s) ctx t = Ok (Some p) ->
  transition resets cancels (st_new_status p) k ->
  exists p', head_state (s_graph (fst (status_commit hash t c st k cur s))) ctx t = Ok (Some p') /\
    rtc (transition resets cancels) (st_new_status p) (st_new_status p').
Proof.
  intros Hp Hl. unfold status_commit, sm_bind, task_event, next_activity_anchor, sm_lift. simpl.
  destruct (replay_cursor _) as [cursor|]; simpl; [|by exists p].
  unfold write_event. simpl. destruct (add_event _ _) as [g|] eqn:E; simpl; [|by exists p].
  eapply law_shared in E as (p' & Hp' & Hk); [|reflexivity|exact Hp]. simpl in Hp'.
  exists p'. split; [|rewrite Hk; by apply rtc_once].
  unfold mirror, sm_modify. simpl. by destruct (writer _ _ _).
Qed.

Lemma status_commit_other t c st k cur :
  t <> tid -> safe (status_commit hash t c st k cur).
Proof.
  intros Hne s. unfold status_commit, sm_bind, task_event, next_activity_anchor, sm_lift. simpl.
  destruct (replay_cursor _) as [cursor|]; simpl; [|apply moves_refl].
  set (ev := mkEvent _ _ _ _ _). set (s1 := mkStore _ _ _ _).
  assert (Hw : safe (write_event ev)) by (apply write_event_safe; by left).
  specialize (Hw s1). destruct (write_event ev s1) as [s2 [[]|]]; [|done].
  unfold mirror, sm_modify. simpl. by destruct (writer _ _ _).
Qed.

Lemma record_status_update_safe t c st :
  t <> tid \/ c = ctx \/ resets = true -> safe (record_status_update hash t c st).
Proof.
  intros Hscope s. unfold record_status_update, sm_bind, sm_lift. simpl.
  destruct (status_gate t c st (s_graph s)) as [[[k cur]|]|] eqn:Hg; simpl; [|apply moves_refl..].
  destruct (decide (t = tid)) as [->|Hne]; [|by apply status_commit_other].
  intros p Hp. apply status_commit_head; [done|].
  assert (exists cur', head_state (s_graph s) c tid = Ok cur') as [cur' Hc].
  { unfold status_gate in Hg. destruct (wire_status_to_kind st); [|done]. simpl in Hg.
    destruct (head_state _ _ _) as [cur'|]; [by exists cur'|done]. }
  assert (cur = cur') as ->.
  { unfold status_gate in Hg. destruct (wire_status_to_kind st); [|done]. simpl in Hg. rewrite Hc in Hg. simpl in Hg.
    case_match; by simplify_eq. }
  apply (status_gate_spec tid c st _ cur' k Hc) in Hg as [_ Hk]. destruct cur' as [q|].
  - rewrite (law_one_head _ _ _ _ _ _ Hp Hc). apply transition_table. by destruct Hk; constructor.
  - subst k. destruct Hscope as [?|[->|Hr]]; [done|congruence|by apply transition_reset].
Qed.

Lemma cancel_moves hash_hex t (s : Store G) :
  t <> tid \/ cancels = true -> moves (s_graph s) (s_graph (fst (cancel hash_hex t s))).
Proof.
  intros Hc p Hp. unfold cancel. destruct (resolve_by_task_id _ _) as [[scoped|]|]; [|by exists p..].
  unfold sm_bind, task_event, next_activity_anchor, write_event. simpl.
  destruct (add_event _ _) as [g|] eqn:E; simpl; [|by exists p].
  destruct (decide (t = tid)) as [->|Hne].
  - eapply law_shared in E as (p' & Hp' & Hk); [|reflexivity|exact Hp]. exists p'. split; [exact Hp'|].
    rewrite Hk. destruct Hc as [?|Hc]; [done|]. by apply rtc_once, transition_cancel.
  - exists p. split; [|done]. rewrite (law_other_task _ _ _ ctx tid E); [done|]. simpl. congruence.
Qed.
End lifecycle_ops.

(** ** Sequences of operations *)

Inductive store_op :=
| OpStatusUpdate (t : TaskId) (c : ContextId) (st : TaskStatus)
| OpArtifactUpdate (t : TaskId) (c : ContextId) (a : Artifact) (append last_chunk : option bool)
| OpEnsureExists (t : TaskId) (c : option ContextId)
| OpChunk (chunk : StreamResponse)
| OpCancel (t : TaskId).

(** The store after one operation, whether it succeeded or returned an
    error. *)
Definition run_op {G} `{TaskGraph G} (hash : TaskStreamKey -> Z) (hash_hex : TaskId -> string -> string)
    (s : Store G) (op : store_op) : Store G :=
  match op with
  | OpStatusUpdate t c st => fst (record_status_update hash t c st s)
  | OpArtifactUpdate t c a ap l => fst (record_artifact_update hash t c a ap l s)
  | OpEnsureExists t c => fst (ensure_task_exists t c s)
  | OpChunk chunk => fst (apply_task_chunk hash hash_hex chunk s)
  | OpCancel t => fst (cancel hash_hex t s)
  end.

(** A status for [tid] under another context than [ctx]. *)
Definition foreign_ids (ctx : ContextId) (tid : TaskId) (t : option TaskId) (c : option ContextId) : bool :=
  match t, c with
  | Some t, Some c => bool_decide (t = tid) && bool_decide (c <> ctx)
  | _, _ => false
  end.

Definition op_resets (ctx : ContextId) (tid : TaskId) (op : store_op) : bool :=
  match op with
  | OpStatusUpdate t c _ => foreign_ids ctx tid (Some t) (Some c)
  | OpChunk chunk =>
      match sr_task_payload chunk with Some t => foreign_ids ctx tid (t_id t) (t_context_id t) | None => false end ||
      match sr_status_update chunk with Some u => foreign_ids ctx tid (su_task_id u) (su_context_id u) | None => false end
  | _ => false
  end.

Definition op_cancels (tid : TaskId) (op : store_op) : bool := match op with OpCancel t => bool_decide (t = tid) | _ => false end.

Section sequences.
Context {G : Type} `{TaskGraphLaws G}.
Context (hash : TaskStreamKey -> Z) (hash_hex : TaskId -> string -> string) (resets cancels : bool).
Context (ctx : ContextId) (tid : TaskId).
Notation safe := (safe resets cancels ctx tid).
Notation moves := (moves resets cancels ctx tid).

Local Hint Resolve record_artifacts_safe record_artifact_update_safe : agentium.

Lemma update_ids_safe t c st : (foreign_ids ctx tid (Some t) (Some c) = true -> resets = true) ->
  safe (record_status_update hash t c st).
Proof.
  intros Hr. apply record_status_update_safe. simpl in Hr.
  destruct (decide (t = tid)); [|by left]. destruct (decide (c = ctx)); [by right; left|].
  right; right. apply Hr. rewrite !bool_decide_true by done. done.
Qed.

Lemma apply_task_safe t :
  (foreign_ids ctx tid (t_id t) (t_context_id t) = true -> resets = true) -> safe (apply_task hash t).
Proof.
  intros Hs. unfold apply_task. apply safe_bind; [apply safe_ret|]. intros _. apply safe_bind.
  - destruct (t_status t), (t_id t), (t_context_id t); auto with agentium.
    apply safe_bind; [by apply update_ids_safe|]. intros [e|]; auto with agentium.
  - intros [evs rec]. apply safe_bind; [|auto with agentium].
    destruct (t_id t), (t_context_id t); auto with agentium.
Qed.

Lemma apply_status_update_safe recorded su :
  (match su with Some u => foreign_ids ctx tid (su_task_id u) (su_context_id u) | None => false end = true -> resets = true) ->
  safe (apply_status_update hash recorded su).
Proof.
  intros Hs. unfold apply_status_update. destruct su as [u|]; simpl; [|auto with agentium].
  destruct (su_status u); simpl; [|auto with agentium]. apply safe_bind; [auto with agentium|].
  intros k. destruct (is_duplicate_status _ _ _); [auto with agentium|].
  destruct (su_task_id u), (su_context_id u); auto with agentium.
  apply safe_bind; [by apply update_ids_safe|auto with agentium].
Qed.

Lemma apply_artifact_update_safe au : safe (apply_artifact_update hash au).
Proof.
  unfold apply_artifact_update. destruct au as [u|]; [|auto with agentium].
  destruct (au_task_id u), (au_context_id u); auto with agentium.
Qed.

Lemma run_op_moves s op :
  (op_resets ctx tid op = true -> resets = true) -> (op_cancels tid op = true -> cancels = true) ->
  moves (s_graph s) (s_graph (run_op hash hash_hex s op)).
Proof.
  destruct op as [t c st|t c a ap l|t c|chunk|t]; cbn [op_resets op_cancels run_op]; intros Hr Hc.
  - by apply update_ids_safe.
  - apply record_artifact_update_safe.
  - unfold ensure_task_exists. destruct c; [|apply moves_refl]. apply emit_safe. by right.
  - unfold apply_task_chunk. revert s. apply safe_bind.
    + destruct (sr_task_payload chunk); [|apply safe_ret]. apply apply_task_safe. intros E. apply Hr. by rewrite E.
    + intros [evs rec]. apply safe_bind; [destruct (opt_or _ _); apply safe_ret|]. intros _.
      apply safe_bind; [apply apply_status_update_safe; intros E; apply Hr; rewrite E; apply orb_true_r|].
      intros evs2. apply safe_bind; [apply apply_artifact_update_safe|]. intros; apply safe_ret.
  - apply cancel_moves. destruct (decide (t = tid)); [right; apply Hc; by rewrite bool_decide_true|by left].
Qed.

Lemma run_ops_moves ops s :
  (existsb (op_resets ctx tid) ops = true -> resets = true) -> (existsb (op_cancels tid) ops = true -> cancels = true) ->
  moves (s_graph s) (s_graph (fold_left (run_op hash hash_hex) ops s)).
Proof.
  revert s. induction ops as [|op ops IH]; intros s Hr Hc; simpl in *; [apply moves_refl|].
  eapply moves_trans; [apply run_op_moves|apply IH]; intros E.
  - apply Hr. by rewrite E.
  - apply Hc. by rewrite E.
  - apply Hr. rewrite E. apply orb_true_r.
  - apply Hc. rewrite E. apply orb_true_r.
Qed.
End sequences.

(** C1: Over any graph that keeps the laws of the interface, after any sequence of
    status updates, artifact updates, existence events, stream chunks and
    cancellations, one after the other and failed ones included, a task's status
    was reached from its earlier one by transitions of the table, but for two
    exceptions: a status that comes with another context of the task can set it
    back to SUBMITTED, and [tasks.cancel] can set it to CANCELED.  Without such an
    operation a completed, failed, canceled or rejected task keeps its status. *)
Theorem task_lifecycle_respected {G} `{TaskGraphLaws G} hash hash_hex ctx tid ops (s : Store G) p :
  head_state (s_graph s) ctx tid = Ok (Some p) ->
  let resets := existsb (op_resets ctx tid) ops in
  let cancels := existsb (op_cancels tid) ops in
  exists p', head_state (s_graph (fold_left (run_op hash hash_hex) ops s)) ctx tid = Ok (Some p') /\
    rtc (transition resets cancels) (st_new_status p) (st_new_status p') /\
    (resets = false -> cancels = false -> rtc lifecycle (st_new_status p) (st_new_status p')) /\
    (resets = false -> cancels = false -> kind_is_terminal (st_new_status p) = true -> st_new_status p' = st_new_status p).
Proof.
  intros Hp resets cancels.
  destruct (run_ops_moves hash hash_hex resets cancels ctx tid ops s ltac:(done) ltac:(done) p Hp) as (p' & Hp' & Hr).
  exists p'. assert (resets = false -> cancels = false -> rtc lifecycle (st_new_status p) (st_new_status p')) as Hl.
  { intros E1 E2. rewrite E1, E2 in Hr. by apply transition_plain. }
  split_and!; [done..|]. intros E1 E2 Ht. by apply lifecycle_terminal, Hl.
Qed.

(** ** A concrete store *)

Definition hx0 : TaskId -> string -> string := fun _ _ => "0".

Definition wire_status (k : TaskStatusKind) : TaskStatus :=
  status_kind_to_wire_status hx0 "t" "ctx-1-1" (mkStateProps "task:t" k None 0 "").

Definition mem_store : Store MemGraph :=
  mkStore mg_empty 100 5000 (with_capacity 256).

Definition h0 : TaskStreamKey -> Z := fun _ => 0%Z.

Definition run_statuses (ks : list TaskStatusKind) : Store MemGraph :=
  fold_left (run_op h0 hx0) (map (fun k => OpStatusUpdate "t" "ctx-1-1" (wire_status k)) ks) mem_store.

Definition head_kind (s : Store MemGraph) (ctx : ContextId) : option TaskStatusKind :=
  match head_state (s_graph s) ctx "t" with
  | Ok (Some p) => Some (st_new_status p)
  | _ => None
  end.

Lemma task_lifecycle_witness :
  exists p', head_state (s_graph (fold_left (run_op h0 hx0)
      [OpStatusUpdate "t" "ctx-1-1" (wire_status Working);
       OpStatusUpdate "t" "ctx-1-1" (wire_status (Failed "late"))]
      (run_statuses [Submitted; Working; Completed]))) "ctx-1-1" "t" = Ok (Some p') /\
    st_new_status p' = Completed.
Proof.
  edestruct (task_lifecycle_respected h0 hx0 "ctx-1-1" "t"
    [OpStatusUpdate "t" "ctx-1-1" (wire_status Working);
     OpStatusUpdate "t" "ctx-1-1" (wire_status (Failed "late"))]
    (run_statuses [Submitted; Working; Completed])) as (p' & Hp' & _ & _ & Ht).
  - vm_compute. reflexivity.
  - exists p'. split; [exact Hp'|]. exact (Ht eq_refl eq_refl eq_refl).
Defined.

(** [tasks.cancel] does not pass the gate: it moves a COMPLETED task to
    CANCELED, a transition the table forbids, and does not tell the task's
    live subscribers. *)
Theorem cancel_bypasses_gate :
  exists s, head_kind s "ctx-1-1" = Some Completed /\
    is_allowed_transition S_COMPLETED S_CANCELED = false /\
    let s' := fst (cancel hx0 "t" s) in
    head_kind s' "ctx-1-1" = Some Canceled /\ s_bcast s' = s_bcast s.
Proof. exists (run_statuses [Submitted; Working; Completed]). vm_compute. done. Qed.

(** The gate and the write of a status update are separate graph accesses:
    when two updates of a WORKING task read its state before either writes,
    both pass the gate and the second write replaces a terminal status. *)
Theorem status_update_race :
  exists s k1 k2 c1 c2 st1 st2,
    status_gate "t" "ctx-1-1" st1 (s_graph s) = Ok (Some (k1, c1)) /\
    status_gate "t" "ctx-1-1" st2 (s_graph s) = Ok (Some (k2, c2)) /\
    let s1 := fst (status_commit h0 "t" "ctx-1-1" st1 k1 c1 s) in
    let s2 := fst (status_commit h0 "t" "ctx-1-1" st2 k2 c2 s1) in
    head_kind s1 "ctx-1-1" = Some Completed /\
    head_kind s2 "ctx-1-1" = Some (Failed "boom") /\
    ~ rtc lifecycle Completed (Failed "boom").
Proof.
  exists (run_statuses [Submitted; Working]), Completed, (Failed "boom").
  eexists _, _, (wire_status Completed), (wire_status (Failed "boom")).
  split; [vm_compute; reflexivity|]. split; [vm_compute; reflexivity|]. intros s1 s2.
  split; [vm_compute; reflexivity|]. split; [vm_compute; reflexivity|].
  intros Hr. by apply lifecycle_terminal in Hr.
Qed.

(** The context check of the gate treats a task of another context as a
    task without a state: an update that carries a different context and says
    SUBMITTED is accepted and resets the status of a COMPLETED task. *)
Theorem cross_context_reset :
  exists s st, head_kind s "ctx-1-1" = Some Completed /\
    let s' := fst (record_status_update h0 "t" "ctx-2-2" st s) in
    head_kind s' "ctx-1-1" = Some Submitted.
Proof.
  exists (run_statuses [Submitted; Working; Completed]), (wire_status Submitted).
  vm_compute. done.
Qed.

(** A stream chunk is not applied atomically: when its status update does
    not parse, the call returns an error and the status of its task snapshot
    has already been written. *)
Theorem chunk_not_atomic :
  exists chunk s e, let '(s', r) := apply_task_chunk h0 hx0 chunk s in
    r = Err (InvalidArgument e) /\ head_kind s "ctx-1-1" = Some Working /\
    head_kind s' "ctx-1-1" = Some Completed.
Proof.
  exists (mkStreamResponse None
    (Some (mkTask (Some "t") (Some "ctx-1-1") [] [] (Some (wire_status Completed)) None ∅))
    (Some (mkStatusUpdate (Some "ctx-1-1") (Some "t")
       (Some (mkTaskStatus (Some (StateString "done")) None None ∅)) None ∅)) None ∅).
  exists (run_statuses [Submitted; Working]), (UnsupportedState "done"). vm_compute. done.
Qed.

(** ** Paging *)

Definition with_token (request : ListTasksRequest) (token : option string) : ListTasksRequest :=
  mkListRequest (lq_context_id request) (lq_history_length request) (lq_include_artifacts request)
    (lq_page_size request) token (lq_status request).

(** A client that follows [next_page_token] until there is none. *)
Fixpoint follow_pages (fuel : nat) (overflow_checks : bool) (request : ListTasksRequest)
    (tasks : list Task) (token : option string) : option (list Task) :=
  match fuel with
  | O => None
  | S fuel' =>
      match list_page overflow_checks (with_token request token) tasks with
      | Panic => None
      | Done resp =>
          match lr_next_page_token resp with
          | None => Some (lr_tasks resp)
          | Some t => app (lr_tasks resp) <$> follow_pages fuel' overflow_checks request tasks (Some t)
          end
      end
  end.

Definition request_page_size (request : ListTasksRequest) : Z :=
  default 50%Z (lq_page_size request ≫= as_usize).

Lemma list_page_at oc request tasks token (start : nat) :
  let ps := request_page_size request in
  let len := Z.of_nat (length tasks) in
  default 0%Z (token ≫= parse_usize) = Z.of_nat start ->
  (0 <= ps)%Z -> (Z.of_nat start <= len)%Z -> (len + ps <= usize_max)%Z ->
  list_page oc (with_token request token) tasks =
  Done (mkListResponse (take (Z.to_nat ps) (drop start tasks))
          (if (Z.of_nat start + ps <? len)%Z then Some (show_Z (Z.of_nat start + ps)) else None)
          (Some len) (Some ps)).
Proof.
  intros ps len Htok Hps Hstart Hmax. unfold list_page. cbn [lq_page_size lq_page_token with_token].
  fold (request_page_size request). fold ps len. rewrite Htok. unfold page_bounds.
  rewrite (proj2 (Z.ltb_ge _ _)) by lia. cbn [andb].
  rewrite wrap64_small by (unfold is_u64, usize_max in *; lia).
  destruct (Z.ltb_spec (Z.of_nat start) len); cbn [andb outcome_bind].
  - rewrite (proj2 (Z.ltb_ge (Z.min _ _) (Z.of_nat start))) by lia. cbn [outcome_bind].
    rewrite (proj2 (Z.ltb_lt (Z.of_nat start) len)) by done. rewrite Nat2Z.id. f_equal.
    assert (Hend : forall x : Z, (Z.min x len <? len)%Z = (x <? len)%Z)
      by (intros; destruct (Z.ltb_spec x len); [apply Z.ltb_lt|apply Z.ltb_ge]; lia).
    rewrite Hend. f_equal.
    + destruct (Z.le_gt_cases (Z.of_nat start + ps) len).
      * rewrite Z.min_l by lia. f_equal. lia.
      * rewrite Z.min_r by lia. rewrite !take_ge by (rewrite length_drop; lia). done.
    + destruct (Z.ltb_spec (Z.of_nat start + ps) len); [|done]. by rewrite Z.min_l by lia.
  - rewrite (proj2 (Z.ltb_ge (Z.of_nat start) len)) by done.
    rewrite Z.min_r by lia. rewrite Z.ltb_irrefl. rewrite (proj2 (Z.ltb_ge (Z.of_nat start + ps) len)) by lia.
    by rewrite drop_ge, take_nil by lia.
Qed.

Lemma follow_pages_from oc request tasks fuel token (start : nat) :
  (1 <= request_page_size request)%Z ->
  (Z.of_nat (length tasks) + request_page_size request <= usize_max)%Z ->
  default 0%Z (token ≫= parse_usize) = Z.of_nat start -> (start <= length tasks)%nat ->
  (length tasks - start < fuel)%nat ->
  follow_pages fuel oc request tasks token = Some (drop start tasks).
Proof.
  intros Hps Hmax. set (ps := request_page_size request) in *. revert token start.
  induction fuel as [|fuel IH]; intros token start Htok Hs Hf; [lia|].
  simpl. rewrite (list_page_at oc request tasks token start) by (done || fold ps; lia).
  fold ps. cbn [lr_next_page_token lr_tasks].
  destruct (Z.ltb_spec (Z.of_nat start + ps) (Z.of_nat (length tasks))) as [Hlt|Hge].
  - rewrite (IH (Some _) (start + Z.to_nat ps)%nat) by
      (try lia; simpl; unfold parse_usize; rewrite parse_show_Z by lia; simpl; lia).
    simpl. f_equal. rewrite <-drop_drop. apply take_drop.
  - f_equal. apply take_ge. rewrite length_drop. lia.
Qed.

(** Listing is complete: a client that starts without a token and follows
    [next_page_token] reads every task of the listing exactly once and in
    order, in at most one call more than there are tasks, for every page size
    of at least one that does not overflow. *)
Theorem list_pages_complete oc request tasks :
  (1 <= request_page_size request)%Z ->
  (Z.of_nat (length tasks) + request_page_size request <= usize_max)%Z ->
  follow_pages (S (length tasks)) oc request tasks None = Some tasks.
Proof. intros. rewrite (follow_pages_from _ _ _ _ _ 0); [done|done|done|done|lia|lia]. Qed.

Definition demo_task (id : string) : Task := mkTask (Some id) None [] [] None None ∅.
Definition demo_request (page_size : option NumberOrString) (token : option string) : ListTasksRequest :=
  mkListRequest None None None page_size token None.

Lemma list_pages_complete_witness :
  follow_pages 4 true (demo_request (Some (NSNumber 2)) None)
    [demo_task "a"; demo_task "b"; demo_task "c"] None
  = Some [demo_task "a"; demo_task "b"; demo_task "c"].
Proof. apply list_pages_complete; vm_compute; discriminate. Defined.

(** A request can crash the listing: with two tasks, page token 1 and page
    size [u64::MAX], the end of the page wraps below its start and the slice
    panics in a release build, and the addition itself panics in a build with
    overflow checks. *)
Theorem list_page_panics oc :
  list_page oc (demo_request (Some (NSString "18446744073709551615")) (Some "1"))
    [demo_task "a"; demo_task "b"] = Panic.
Proof. destruct oc; vm_compute; reflexivity. Qed.

Lemma status_gate_witness :
  status_gate "t" "ctx-1-1" (wire_status Completed) (s_graph (run_statuses [Submitted; Working]))
  = Ok (Some (Completed, Some (mkStateProps "task:t" Working (Some Submitted) 5000 "prov-101"))).
Proof.
  apply (status_gate_spec "t" "ctx-1-1" (wire_status Completed)
           (s_graph (run_statuses [Submitted; Working]))); vm_compute; done.
Defined.
