(* ===== verification/Semiotic.v ===== *)
(** * The semiotic gate: artifacts, tiers and the gate policy
    ([baml-rt-semiotic/src]: [schema.rs], [tier.rs], [gate.rs], [trojan.rs],
    [lint.rs], [covers.rs], [config.rs], [postcondition.rs])

    Grounding artifacts and their anchors, the classification of a tool call
    into a tier, the ambiguity-aware gate, the detection of ambiguous
    ("trojan") phrases and the linting of an artifact.  Strengths and
    thresholds, which the source writes as one-digit [f32] literals and only
    compares, are kept in tenths.  The regex engine and the shell are
    parameters. *)

From stdpp Require Import base list strings gmap.
From Stdlib Require Import ZArith Lia Ascii.
From S2P Require Import Prelude RustStr Json.

Open Scope string_scope.

(** ** Schema *)

Inductive Template :=
| AgenticExecution | Delegation | CodeGeneration | ConsequentialContent | Research.

#[global] Instance Template_eq_dec : EqDecision Template.
Proof. solve_decision. Defined.

Definition Template_parse (s : string) : Template :=
  if String.eqb s "delegation" then Delegation
  else if String.eqb s "code_generation" then CodeGeneration
  else if String.eqb s "consequential_content" then ConsequentialContent
  else if String.eqb s "research" then Research
  else AgenticExecution.

Definition critical_nodes (template : Template) : list string :=
  match template with
  | AgenticExecution => ["ACTION"; "TARGET"; "SCOPE"]
  | Delegation => ["CRITERIA"; "GOAL"]
  | CodeGeneration => ["BEHAVIOR"; "INTERFACE"]
  | ConsequentialContent => ["AUDIENCE"; "OBJECTIVE"; "FACTS"]
  | Research => ["SUBJECT"; "SCOPE"]
  end.

Inductive AnchorSign := Symbol | Index | Icon | Verify | Free.

#[global] Instance AnchorSign_eq_dec : EqDecision AnchorSign.
Proof. solve_decision. Defined.

Definition AnchorSign_as_str (s : AnchorSign) : string :=
  match s with
  | Symbol => "symbol" | Index => "index" | Icon => "icon" | Verify => "verify" | Free => "free"
  end.

(** In tenths. *)
Definition SIGN_WEIGHTS : list (string * Z) :=
  [("symbol", 3); ("index", 8); ("icon", 9); ("verify", 10); ("free", 10)]%Z.

Definition sign_weight (sign : string) : Z :=
  match List.find (fun kw => String.eqb (fst kw) sign) SIGN_WEIGHTS with
  | Some (_, w) => w
  | None => 0%Z
  end.

Record Anchor := mkAnchor { an_sign : AnchorSign; an_content : string; an_source : string }.

Record Node := mkNode {
  n_name : string;
  n_anchors : list Anchor;
  n_interpretations : list string;
  n_trojan : option string
}.

Definition disambiguates (s : AnchorSign) : bool :=
  match s with Icon | Index | Verify => true | _ => false end.

Definition has_disambig (n : Node) : bool := existsb (fun a => disambiguates (an_sign a)) (n_anchors n).

(** [Node::strength]. *)
Definition anchor_weight (n : Node) (trojan_veto : bool) (a : Anchor) : Z :=
  if trojan_veto && is_some (n_trojan n) && bool_decide (an_sign a = Symbol) && negb (has_disambig n)
  then 0%Z
  else sign_weight (AnchorSign_as_str (an_sign a)).

Definition strength (n : Node) (trojan_veto : bool) : Z :=
  fold_left (fun best a => Z.max best (anchor_weight n trojan_veto a)) (n_anchors n) 0%Z.

Definition has_sign (n : Node) (sign : AnchorSign) : bool :=
  existsb (fun a => bool_decide (an_sign a = sign)) (n_anchors n).

Record Postcondition := mkPostcondition { pc_cmd : string; pc_desc : string }.

(** The fields of [ParseArtifact] the gate reads. *)
Record ParseArtifact := mkArtifact {
  art_instruction : string;
  art_template : string;
  art_nodes : list Node;
  art_covers : list string;
  art_postconditions : list Postcondition
}.

Definition template_kind (art : ParseArtifact) : Template := Template_parse (art_template art).

Definition art_node (art : ParseArtifact) (name : string) : option Node :=
  List.find (fun n => String.eqb (n_name n) name) (art_nodes art).

Definition coerce_trojan (v : option string) : option string :=
  opt_filter (fun s => negb (is_empty_str (trim s))) v.

(** ** Tiers *)

Inductive Tier := TRead | Routine | Mutating | Irreversible.

#[global] Instance Tier_eq_dec : EqDecision Tier.
Proof. solve_decision. Defined.

Definition tier_u8 (t : Tier) : Z :=
  match t with TRead => 0 | Routine => 1 | Mutating => 2 | Irreversible => 3 end%Z.

Definition tier_from_u8 (v : Z) : Tier :=
  if (v =? 0)%Z then TRead else if (v =? 1)%Z then Routine
  else if (v =? 2)%Z then Mutating else if (v =? 3)%Z then Irreversible else Mutating.

Inductive ToolAccess := AccRead | AccWrite | AccDelete.

Record ToolTierMeta := mkTierMeta {
  tm_access_level : ToolAccess;
  tm_tags : list string;
  tm_destructive_hint : option bool;
  tm_is_delegation : bool
}.

(** The tier a tag asks for, if it is a tier tag. *)
Definition tag_tier (tag : string) : option Tier :=
  rest ← strip_prefix "semiotic:tier=" tag;
  n ← parse_uint u8_max rest;
  Some (tier_from_u8 n).

Fixpoint first_tag_tier (tags : list string) : option Tier :=
  match tags with
  | [] => None
  | tag :: rest => match tag_tier tag with Some t => Some t | None => first_tag_tier rest end
  end.

Definition classify_tier (meta : ToolTierMeta) : Tier :=
  match first_tag_tier (tm_tags meta) with
  | Some t => t
  | None =>
      if tm_is_delegation meta then Mutating
      else match tm_destructive_hint meta with
           | Some true => Irreversible
           | _ => match tm_access_level meta with
                  | AccRead => TRead
                  | AccWrite => Mutating
                  | AccDelete => Irreversible
                  end
           end
  end.

(** ** The gate policy *)

Inductive GateAction := Execute | ExecuteFlagged | Ask | QueueForHuman.

Record GateDecision := mkDecision {
  gd_action : GateAction;
  gd_tier : Z;
  gd_score : Z;
  gd_requests : list string;
  gd_reason : list string          (** the names the reason text lists *)
}.

Record AmbiguityAwareGate := mkGate {
  gate_need : Tier -> Z;
  gate_supp_floor : Tier -> Z;
  gate_require_verify_t3 : bool
}.

Definition AmbiguityAwareGate_default : AmbiguityAwareGate :=
  mkGate (fun t => match t with TRead => 0 | Routine => 3 | Mutating => 8 | Irreversible => 8 end)%Z
         (fun _ => 0%Z) true.

Definition is_critical (art : ParseArtifact) (name : string) : bool :=
  existsb (String.eqb name) (critical_nodes (template_kind art)).

Definition ambiguous (n : Node) : bool :=
  is_some (n_trojan n) || (1 <? length (n_interpretations n))%nat.

(** What the gate asks of a node at a tier. *)
Definition node_need (g : AmbiguityAwareGate) (art : ParseArtifact) (tier : Tier) (n : Node) : Z :=
  if is_critical art (n_name n) || ambiguous n then gate_need g tier else gate_supp_floor g tier.

(** [ranked_requests]: critical nodes first, then the more ambiguous ones; the
    sort is stable. *)
Definition request_before (art : ParseArtifact) (a b : string) : bool :=
  let crit x := match art_node art x with Some n => is_critical art (n_name n) | None => false end in
  let interp x := match art_node art x with Some n => length (n_interpretations n) | None => 0%nat end in
  match crit a, crit b with
  | true, false => true
  | false, true => false
  | _, _ => (interp b <? interp a)%nat
  end.

(** Stable insertion: before the first element that must come later. *)
Fixpoint insert_ranked (before : string -> string -> bool) (x : string) (l : list string) : list string :=
  match l with
  | [] => [x]
  | y :: r => if before x y then x :: l else y :: insert_ranked before x r
  end.

Definition ranked_requests (art : ParseArtifact) (deficient : list string) : list string :=
  fold_left (fun acc x => insert_ranked (request_before art) x acc) deficient [].

Definition deficient_nodes (g : AmbiguityAwareGate) (art : ParseArtifact) (tier : Tier) : list string :=
  n_name <$> List.filter (fun n => (strength n true <? node_need g art tier n)%Z) (art_nodes art).

(** A tier-3 agentic execution whose CRITERION is present but not verified. *)
Definition unverified_criterion (g : AmbiguityAwareGate) (art : ParseArtifact) (tier : Tier) : bool :=
  bool_decide (tier = Irreversible) && gate_require_verify_t3 g &&
  bool_decide (template_kind art = AgenticExecution) &&
  match art_node art "CRITERION" with
  | Some cn => negb (has_sign cn Verify)
  | None => false
  end.

Definition gate_deficient (g : AmbiguityAwareGate) (art : ParseArtifact) (tier : Tier) : list string :=
  let deficient := deficient_nodes g art tier in
  if unverified_criterion g art tier && negb (existsb (String.eqb "CRITERION") deficient)
  then (deficient ++ ["CRITERION"])%list else deficient.

Definition gate_score (art : ParseArtifact) : Z :=
  fold_left (fun acc n => Z.min acc (strength n true))
    (List.filter (fun n => is_critical art (n_name n) || ambiguous n) (art_nodes art)) 10%Z.

Definition decide_gate (g : AmbiguityAwareGate) (art : ParseArtifact) (tier : Tier) : GateDecision :=
  let deficient := gate_deficient g art tier in
  match deficient with
  | [] => mkDecision (if (tier_u8 tier <=? 1)%Z then Execute else ExecuteFlagged)
            (tier_u8 tier) (gate_score art) [] []
  | _ => mkDecision (if bool_decide (tier = Irreversible) then QueueForHuman else Ask)
           (tier_u8 tier) (gate_score art) (ranked_requests art deficient) deficient
  end.

(** ** Policies *)

Inductive SemioticMode := DryRun | Enforce.

#[global] Instance SemioticMode_eq_dec : EqDecision SemioticMode.
Proof. solve_decision. Defined.

Record SemioticPolicy := mkPolicy {
  sp_enabled : bool;
  sp_mode : SemioticMode;
  sp_enforce_min_tier : Z;
  sp_require_postconditions_t3 : bool;
  sp_strict_citation_anchors : bool
}.

Definition should_enforce (p : SemioticPolicy) (tier : Z) : bool :=
  sp_enabled p && bool_decide (sp_mode p = Enforce) && (sp_enforce_min_tier p <=? tier)%Z.

Record SemioticConfig := mkConfig {
  sc_default : SemioticPolicy;
  sc_overrides : gmap string SemioticPolicy
}.

(** [SemioticConfig::resolve]. *)
Definition config_resolve (c : SemioticConfig) (agent_package : option string) : SemioticPolicy :=
  match agent_package ≫= (fun pkg => sc_overrides c !! pkg) with
  | Some policy => policy
  | None => sc_default c
  end.

(** ** Ambiguous phrases *)

Definition TROJANS : list string :=
  ["most recent"; "the latest"; "the right one"; "inactive"; "stale"; "clean up"; "cleanup";
   "tidy up"; "the team"; "the migration"; "best"; "soon"; "asap"; "production-ready";
   "small change"; "the usual"; "old"; "unused"; "duplicates"; "outdated"; "everyone";
   "the important ones"; "recent"; "active users"; "temporary"; "obsolete"].

(** The phrases of [found] that no longer phrase of [found] contains. *)
Definition maximal_phrases (found : list string) : list string :=
  List.filter (fun p => negb (existsb (fun q => negb (String.eqb p q) && contains_str p q) found)) found.

Section regex.
(** [Regex::new(r"\b{escaped p}\b").find(t)]: start and end of the first
    occurrence of [p] in [t] as whole words. *)
Context (find_word : string -> string -> option (nat * nat)).
(** [DEFUSERS.is_match]. *)
Context (defused : string -> bool).
(** [Regex::new(pat)] and [is_match]; [None] when the pattern does not
    compile. *)
Context (regex_match : string -> option (string -> bool)).
Context (json_to_string : json -> string).

(** The second loop of [detect]: the 60 bytes after the match are searched for
    a defusing phrase; the slice panics off a character boundary. *)
Fixpoint keep_armed (t : string) (found : list string) : outcome (list string) :=
  match found with
  | [] => Done []
  | p :: rest =>
      match find_word p t with
      | None => keep_armed t rest
      | Some (_, e) =>
          let! window := slice t e (Nat.min (String.length t) (e + 60)) in
          let! kept := keep_armed t rest in
          Done (if defused window then kept else p :: kept)
      end
  end.

(** [trojan::detect]. *)
Definition detect (text : string) : outcome (list string) :=
  let t := to_lowercase text in
  let found := List.filter (fun p => is_some (find_word p t)) TROJANS in
  let found := fold_left (fun acc p => btree_insert p acc) found [] in
  keep_armed t (maximal_phrases found).

(** [lint] of one node, given the phrases detected in the instruction. *)
Definition symbol_text (n : Node) : string :=
  join " " ((fun a => to_lowercase (an_content a)) <$>
            List.filter (fun a => bool_decide (an_sign a = Symbol)) (n_anchors n)).

Definition set_trojan (n : Node) (t : option string) : Node :=
  mkNode (n_name n) (n_anchors n) (n_interpretations n) t.

(** A declared phrase that the text defuses is dropped. *)
Definition drop_defused (text : string) (detected : list string) (n : Node) : Node :=
  match n_trojan n with
  | Some ph =>
      let ph_l := to_lowercase ph in
      if contains_str ph_l text && negb (existsb (String.eqb ph_l) detected) &&
         existsb (String.eqb ph_l) TROJANS
      then set_trojan n None else n
  | None => n
  end.

(** A detected phrase inside a symbol anchor of a node without disambiguating
    anchors marks the node. *)
Definition mark_detected (detected : list string) (n : Node) : Node :=
  match n_trojan n with
  | Some _ => n
  | None =>
      match List.find (fun ph => contains_str ph (symbol_text n) && negb (has_disambig n)) detected with
      | Some ph => set_trojan n (Some ph)
      | None => n
      end
  end.

Definition lint_node (text : string) (detected : list string) (n : Node) : Node :=
  mark_detected detected (drop_defused text detected n).

Definition lint (art : ParseArtifact) : outcome ParseArtifact :=
  let text := to_lowercase (art_instruction art) in
  let! detected := detect text in
  Done (mkArtifact (art_instruction art) (art_template art)
          (lint_node text detected <$> art_nodes art) (art_covers art) (art_postconditions art)).

(** [covers_match]. *)
Definition call_text (tool_name : string) (args : json) : string :=
  tool_name +:+ " " +:+ json_to_string args.

Definition covers_match (patterns : list string) (tool_name : string) (args : json) : bool :=
  let text := call_text tool_name args in
  existsb (fun pat => match regex_match pat with
                      | Some is_match => is_match text
                      | None => contains_str pat text
                      end) patterns.
End regex.

(** ** Postconditions *)

Inductive PostconditionKind := Pass | AssertionFailed | EnvError.

Record PostconditionResult := mkPcResult {
  pr_desc : string; pr_ok : bool; pr_kind : PostconditionKind; pr_detail : option string
}.

Record PostconditionRun := mkPcRun {
  run_results : list PostconditionResult;
  run_passed : bool;
  run_assertion_failures : Z;
  run_env_errors : Z
}.

(** How a shell command ended. *)
Inductive CommandEnd :=
| SpawnFailed (e : string)
| Exited (code : Z) (stdout stderr : string)
| TimedOut
| WaitFailed (e : string).

Definition foreign_path_roots (cmd : string) : bool :=
  contains_str "/etc/" cmd || contains_str "/usr/" cmd || contains_str "/var/" cmd || contains_str ".." cmd.

(** The classification at the end of [run_one]. *)
Definition run_one_result (cmd : string) (e : CommandEnd) : bool * PostconditionKind * option string :=
  match e with
  | SpawnFailed m => (false, EnvError, Some ("spawn failed: " +:+ m))
  | WaitFailed m => (false, EnvError, Some ("wait failed: " +:+ m))
  | TimedOut => (false, EnvError, Some "timed out after 30s")
  | Exited code out err =>
      let raw := if is_empty_str out then err else out in
      let detail := take_chars 200 (trim raw) in
      let detail := if is_empty_str detail then "exit " +:+ show_Z code else detail in
      if (code =? 0)%Z then (true, Pass, None)
      else if (code =? 126)%Z || (code =? 127)%Z || foreign_path_roots cmd
      then (false, EnvError, Some detail)
      else (false, AssertionFailed, Some detail)
  end.

Section postconditions.
Context (sh : string -> option string -> CommandEnd).

Definition pc_step (cwd : option string) (run : PostconditionRun) (pc : Postcondition) : PostconditionRun :=
  if is_empty_str (trim (pc_cmd pc)) then run
  else
    let desc := if is_empty_str (pc_desc pc) then pc_cmd pc else pc_desc pc in
    let '(ok, kind, detail) := run_one_result (pc_cmd pc) (sh (pc_cmd pc) cwd) in
    let af := match ok, kind with false, AssertionFailed => 1 | _, _ => 0 end%Z in
    let ee := match ok, kind with false, EnvError => 1 | _, _ => 0 end%Z in
    mkPcRun (run_results run ++ [mkPcResult desc ok kind detail])%list true
      (run_assertion_failures run + af) (run_env_errors run + ee).

Definition run_postconditions (postconditions : list Postcondition) (cwd : option string) : PostconditionRun :=
  let r := fold_left (pc_step cwd) postconditions (mkPcRun [] true 0 0) in
  mkPcRun (run_results r) ((run_assertion_failures r =? 0)%Z && (run_env_errors r =? 0)%Z)
    (run_assertion_failures r) (run_env_errors r).
End postconditions.

(** ** Theorems *)

Lemma anchor_weight_nonneg n v a : (0 <= anchor_weight n v a)%Z.
Proof. unfold anchor_weight. case_match; [lia|]. destruct (an_sign a); vm_compute; discriminate. Qed.

Lemma fold_max_ge (f : Anchor -> Z) l acc : (acc <= fold_left (fun b a => Z.max b (f a)) l acc)%Z.
Proof.
  revert acc. induction l as [|a l IH]; intros acc; simpl; [lia|].
  etrans; [|apply IH]. lia.
Qed.

Lemma fold_max_zero (f : Anchor -> Z) l :
  (forall a, a ∈ l -> f a = 0%Z) -> fold_left (fun b a => Z.max b (f a)) l 0%Z = 0%Z.
Proof.
  induction l as [|a l IH]; intros Hf; simpl; [done|].
  rewrite (Hf a (list_elem_of_here _ _)). apply IH. intros x Hx. apply Hf. by constructor.
Qed.

Lemma strength_nonneg n v : (0 <= strength n v)%Z.
Proof. apply fold_max_ge. Qed.

Lemma insert_ranked_nonempty b x l : insert_ranked b x l <> [].
Proof. destruct l; simpl; [done|]. by case_match. Qed.

Lemma ranked_requests_nil art l : ranked_requests art l = [] <-> l = [].
Proof.
  split; [|by intros ->]. unfold ranked_requests.
  destruct l as [|x l]; [done|]. simpl.
  assert (H : forall acc, acc <> [] ->
    fold_left (fun acc x => insert_ranked (request_before art) x acc) l acc <> []).
  { induction l as [|y l IH]; intros acc Hacc; simpl; [done|]. apply IH. apply insert_ranked_nonempty. }
  intros Hnil. by apply (H [x]) in Hnil.
Qed.

Lemma gate_deficient_nil g art tier :
  gate_deficient g art tier = [] <->
  (forall n, n ∈ art_nodes art -> (node_need g art tier n <= strength n true)%Z) /\
  unverified_criterion g art tier = false.
Proof.
  assert (Hdef : deficient_nodes g art tier = [] <->
            forall n, n ∈ art_nodes art -> (node_need g art tier n <= strength n true)%Z).
  { unfold deficient_nodes. induction (art_nodes art) as [|n l IH]; simpl.
    - split; [intros _ n Hn; by apply elem_of_nil in Hn|done].
    - destruct (Z.ltb_spec (strength n true) (node_need g art tier n)) as [Hlt|Hge]; simpl.
      + split; [done|]. intros Hall. specialize (Hall n (list_elem_of_here _ _)). lia.
      + rewrite IH. split.
        * intros Hall x [->|Hx]%elem_of_cons; [done|by apply Hall].
        * intros Hall x Hx. apply Hall. by constructor. }
  unfold gate_deficient. rewrite <-Hdef. destruct (unverified_criterion g art tier); simpl.
  - split; [|by intros [_ ?]]. case_match eqn:E; [by intros [_ ?]%app_nil|].
    intros Hnil. rewrite Hnil in E. done.
  - intuition.
Qed.

Lemma gate_clears_at art tier :
  gd_requests (decide_gate AmbiguityAwareGate_default art tier) = [] <->
  (forall n, n ∈ art_nodes art -> is_critical art (n_name n) = true \/ ambiguous n = true ->
     (gate_need AmbiguityAwareGate_default tier <= strength n true)%Z) /\
  unverified_criterion AmbiguityAwareGate_default art tier = false.
Proof.
  transitivity (gate_deficient AmbiguityAwareGate_default art tier = []).
  - unfold decide_gate. destruct (gate_deficient _ _ _) eqn:E; simpl; [done|].
    rewrite ranked_requests_nil. done.
  - rewrite gate_deficient_nil. split; intros [Hn Hu]; (split; [|done]); intros n Hin.
    + intros Hcrit. specialize (Hn n Hin). unfold node_need in Hn.
      rewrite (proj2 (orb_true_iff _ _) Hcrit) in Hn. done.
    + unfold node_need. destruct (is_critical art (n_name n) || ambiguous n) eqn:E.
      * apply Hn; [done|]. by apply orb_true_iff.
      * apply strength_nonneg.
Qed.

(** The gate clears an artifact exactly when every critical node and every
    ambiguous node is grounded strongly enough for the tier, and, for an
    irreversible agentic execution, its CRITERION is verified; clearance at a
    tier implies clearance at every lower tier. *)
Theorem gate_clears_iff_grounded art :
  (forall tier, gd_requests (decide_gate AmbiguityAwareGate_default art tier) = [] <->
     (forall n, n ∈ art_nodes art -> is_critical art (n_name n) = true \/ ambiguous n = true ->
        (gate_need AmbiguityAwareGate_default tier <= strength n true)%Z) /\
     unverified_criterion AmbiguityAwareGate_default art tier = false) /\
  (forall tier tier', (tier_u8 tier' <= tier_u8 tier)%Z ->
     gd_requests (decide_gate AmbiguityAwareGate_default art tier) = [] ->
     gd_requests (decide_gate AmbiguityAwareGate_default art tier') = []).
Proof.
  pose proof (gate_clears_at art) as Hiff.
  split; [done|]. intros tier tier' Hle H. apply Hiff in H as [Hn Hu]. apply Hiff. split.
  - intros n Hin Hc. etrans; [|by apply Hn]. by destruct tier, tier'.
  - unfold unverified_criterion in *. destruct (decide (tier' = Irreversible)) as [->|Hne].
    + assert (tier = Irreversible) as -> by (destruct tier; simpl in Hle; (lia || done)). done.
    + by rewrite bool_decide_eq_false_2.
Qed.

Lemma gate_clears_witness :
  let art := mkArtifact "delete branch" "agentic_execution"
    [mkNode "ACTION" [mkAnchor Icon "git branch -D x" "user"] [] None;
     mkNode "TARGET" [mkAnchor Index "x" "env"] [] None;
     mkNode "SCOPE" [mkAnchor Verify "1 branch" "env"] [] None;
     mkNode "CRITERION" [mkAnchor Verify "branch gone" "env"] [] None] [] [] in
  gd_requests (decide_gate AmbiguityAwareGate_default art Mutating) = [].
Proof.
  intros art. apply (proj2 (gate_clears_iff_grounded art) Irreversible Mutating);
    vm_compute; [discriminate|reflexivity].
Defined.

(** Linting catches an ambiguous phrase that hides in a symbol: a node
    grounded by symbols alone, one of which contains a phrase detected in the
    instruction, has strength zero afterwards and is deficient at every gated
    tier, whatever it was declared to be. *)
Theorem lint_vetoes_ambiguous_symbol text detected n ph tier art :
  ph ∈ detected ->
  contains_str ph (symbol_text n) = true ->
  Forall (fun a => an_sign a = Symbol) (n_anchors n) ->
  art_nodes art = [lint_node text detected n] ->
  (1 <= tier_u8 tier)%Z ->
  strength (lint_node text detected n) true = 0%Z /\
  gd_requests (decide_gate AmbiguityAwareGate_default art tier) <> [].
Proof.
  intros Hph Hsym Hanch Hart Htier. rewrite Forall_forall in Hanch.
  assert (Hdis : has_disambig n = false).
  { unfold has_disambig. apply not_true_is_false. rewrite existsb_exists_elem.
    intros (a & Ha & Hd). by rewrite (Hanch a Ha) in Hd. }
  assert (Hn : exists t, lint_node text detected n = set_trojan n (Some t)).
  { unfold lint_node, mark_detected.
    assert (Hd : drop_defused text detected n = n \/ drop_defused text detected n = set_trojan n None)
      by (unfold drop_defused; destruct (n_trojan n); [case_match|]; auto).
    assert (Hfind : is_Some (List.find (fun ph => contains_str ph (symbol_text n) && negb (has_disambig n)) detected)).
    { destruct (List.find _ _) eqn:E; [eauto|]. exfalso.
      apply list_elem_of_In in Hph. apply (List.find_none _ _ E) in Hph. by rewrite Hsym, Hdis in Hph. }
    destruct Hfind as [t Ht]. destruct Hd as [-> | ->]; simpl.
    - destruct n as [nm an ip [tr|]]; simpl in *; [by exists tr|]. rewrite Ht. by exists t.
    - unfold symbol_text, has_disambig in *. simpl. rewrite Ht. by exists t. }
  destruct Hn as [t Hn]. rewrite Hn in *.
  assert (H0 : strength (set_trojan n (Some t)) true = 0%Z).
  { apply fold_max_zero. intros a Ha. unfold anchor_weight. simpl in Ha.
    rewrite (bool_decide_eq_true_2 (an_sign a = Symbol)) by (by apply Hanch). simpl.
    unfold has_disambig in *. simpl. by rewrite Hdis. }
  split; [done|]. intros Hreq. apply gate_clears_at in Hreq as [Hreq _].
  assert (Hin : set_trojan n (Some t) ∈ art_nodes art) by (rewrite Hart; constructor).
  specialize (Hreq _ Hin (or_intror eq_refl)). rewrite H0 in Hreq.
  destruct tier; simpl in *; lia.
Qed.

Lemma lint_vetoes_witness :
  let n := mkNode "TARGET" [mkAnchor Symbol "the old branches" "user"] [] None in
  strength (lint_node "remove the old branches" ["old"] n) true = 0%Z.
Proof.
  intros n.
  apply (lint_vetoes_ambiguous_symbol "remove the old branches" ["old"] n "old" Mutating
           (mkArtifact "" "" [lint_node "remove the old branches" ["old"] n] [] []));
    [constructor|reflexivity|repeat constructor|reflexivity|vm_compute; discriminate].
Defined.

(** ** Detection on text outside ASCII *)

Definition word_char (a : ascii) : bool := is_ascii_alphanumeric a || bool_decide (a = "_"%char).

(** Whole-word search, for concrete runs: the position after [prev] holds [p]
    and neither neighbour is a word character. *)
Fixpoint find_word_from (p : string) (pos : nat) (prev : bool) (t : string) : option (nat * nat) :=
  match t with
  | EmptyString => None
  | String a r =>
      match strip_prefix p t with
      | Some rest =>
          if negb prev && match rest with String b _ => negb (word_char b) | EmptyString => true end
          then Some (pos, (pos + String.length p)%nat)
          else find_word_from p (S pos) (word_char a) r
      | None => find_word_from p (S pos) (word_char a) r
      end
  end.

Definition find_word_ascii (p t : string) : option (nat * nat) := find_word_from p 0 false t.

(** A search result lies inside the text and ends where the phrase ends. *)
Definition find_word_ok (find_word : string -> string -> option (nat * nat)) : Prop :=
  forall p t s e, find_word p t = Some (s, e) -> (s <= e <= String.length t)%nat.

(** A phrase, filler up to one byte before the end of its window, then a
    two-byte character. *)
Definition panic_text : string :=
  "old " +:+ str_repeat "x" 58 +:+ String (ascii_of_nat 195) (String (ascii_of_nat 169) "").

Lemma panic_text_valid : valid_utf8 panic_text = true.
Proof. vm_compute. reflexivity. Qed.

Lemma panic_text_panics : detect find_word_ascii (fun _ => false) panic_text = Panic.
Proof. vm_compute. reflexivity. Qed.

Lemma elem_of_candidates (q : string -> bool) phrases p :
  p ∈ maximal_phrases (fold_left (fun acc p => btree_insert p acc) (List.filter q phrases) []) ->
  p ∈ phrases.
Proof.
  unfold maximal_phrases. intros Hp. apply list_elem_of_In, List.filter_In in Hp as [Hp _].
  apply list_elem_of_In, elem_of_fold_btree_insert in Hp as [Hp|Hp]; [by apply elem_of_nil in Hp|].
  apply list_elem_of_In, List.filter_In in Hp as [Hp _]. by apply list_elem_of_In.
Qed.

(** Scanning ASCII text for ambiguous phrases never panics, for any search
    function that reports positions inside the text; on text outside ASCII it
    can: a phrase followed, sixty bytes later, by the middle of a multi-byte
    character makes the window slice panic. *)
Theorem detect_panics_only_outside_ascii :
  (forall find_word defused text, find_word_ok find_word -> ascii_only text = true ->
     exists found, detect find_word defused text = Done found /\
       forall p, p ∈ found -> p ∈ TROJANS) /\
  (exists text, valid_utf8 text = true /\ detect find_word_ascii (fun _ => false) text = Panic).
Proof.
  split.
  - intros fw df text Hok Hasc. unfold detect. set (t := to_lowercase text).
    assert (Ht : ascii_only t = true) by (by apply to_lowercase_ascii).
    set (l := maximal_phrases _).
    assert (Hl : forall p, p ∈ l -> p ∈ TROJANS).
    { intros p Hp. exact (elem_of_candidates _ TROJANS p Hp). }
    clearbody l. induction l as [|p l IH]; simpl; [by exists []; split; [|intros ? []%elem_of_nil]|].
    destruct IH as (found & Hf & Hin); [intros q Hq; apply Hl; by constructor|].
    destruct (fw p t) as [[b e]|] eqn:E; [|by exists found].
    apply Hok in E as [? ?]. rewrite ascii_only_slice by (done || lia). simpl. rewrite Hf. simpl.
    case_match; [by exists found|]. exists (p :: found). split; [done|].
    intros q [->|Hq]%elem_of_cons; [apply Hl; constructor|by apply Hin].
  - exists panic_text. split; [exact panic_text_valid|exact panic_text_panics].
Qed.

Lemma find_word_ascii_ok : find_word_ok find_word_ascii.
Proof.
  intros p t s e. unfold find_word_ascii.
  assert (H : forall t pos prev, find_word_from p pos prev t = Some (s, e) ->
            (s <= e <= pos + String.length t)%nat).
  { clear t. induction t as [|a t IH]; intros pos prev; simpl; [done|].
    destruct (strip_prefix p (String a t)) as [rest|] eqn:E.
    - apply strip_prefix_Some in E. case_match; [|intros Hr%IH; lia].
      intros [= <- <-]. apply (f_equal String.length) in E. rewrite str_app_length in E. simpl in E. lia.
    - intros Hr%IH. lia. }
  intros Hf. apply H in Hf. lia.
Qed.

Lemma detect_witness :
  exists found, detect find_word_ascii (fun _ => false) "Remove the OLD branches" = Done found /\
    forall p, p ∈ found -> p ∈ TROJANS.
Proof.
  apply (proj1 detect_panics_only_outside_ascii); [exact find_word_ascii_ok|reflexivity].
Defined.
