(* ===== verification/Interceptor.v ===== *)
(** * Scopes, calls and decisions

    What tool calls and the interceptors in front of them share: the runtime
    scope ([baml-rt-core/src/context.rs]), the context of a tool call and the
    decision of an interceptor ([baml-rt-interceptor/src/interceptor.rs]). *)

From stdpp Require Import base strings.
From S2P Require Import Prelude Json Ids.

Inductive RuntimeScope :=
| MessageScope (context_id : ContextId) (agent_id : AgentId) (message_id : MessageId)
| TaskScope (context_id : ContextId) (agent_id : AgentId) (message_id : MessageId) (task_id : TaskId).

#[global] Instance RuntimeScope_eq_dec : EqDecision RuntimeScope.
Proof. solve_decision. Defined.

Definition scope_context_id (s : RuntimeScope) : ContextId :=
  match s with MessageScope c _ _ | TaskScope c _ _ _ => c end.

Definition scope_agent_id (s : RuntimeScope) : AgentId :=
  match s with MessageScope _ a _ | TaskScope _ a _ _ => a end.

Definition scope_task_id_opt (s : RuntimeScope) : option TaskId :=
  match s with MessageScope _ _ _ => None | TaskScope _ _ _ t => Some t end.

Record ToolCallContext := mkCall {
  tc_tool_name : string;
  tc_args : json;
  tc_runtime_scope : RuntimeScope;
  tc_metadata : json;
  tc_agent_package : option string;
  tc_delegation_target : option string
}.

Inductive InterceptorDecision :=
| Allow
| Block (msg : string)
| RequireAuthorization (prompt : string)
| Substitute (v : json).
