(* ===== verification/SemioticGate.v ===== *)
(** * The semiotic gate: stores and the tool interceptor
    ([baml-rt-semiotic/src]: [store.rs], [pending_auth.rs],
    [gate_outcome.rs], [denied_recent.rs], [interceptor.rs], [global.rs])

    The process-wide stores of the gate (grounding artifacts, pending
    postconditions, pending authorizations, gate outcomes, recent denials) as
    one state, each operation under its lock one step, and the interceptor
    that runs before and after every tool call.  Time is milliseconds on the
    monotonic clock. *)

From stdpp Require Import base list strings gmap.
From Stdlib Require Import ZArith Lia Ascii.
From S2P Require Import Prelude RustStr Json Ids Semiotic Interceptor.

Open Scope string_scope.

(** ** Scopes *)

(** The key of every store: agent and task. *)
Definition scope_key (s : RuntimeScope) : string :=
  scope_agent_id s +:+ ":" +:+ default "" (scope_task_id_opt s).

(** ** State *)

Inductive GateReasonCode :=
| TierBelowGate | NoArtifact | StaleArtifact | CoversMismatch | DeficientNodes
| NoPostconditions | RequirementsMet | Tier3Authorization | DryRunRecorded | InternalError.

#[global] Instance GateReasonCode_eq_dec : EqDecision GateReasonCode.
Proof. solve_decision. Defined.

Definition reason_as_str (r : GateReasonCode) : string :=
  match r with
  | TierBelowGate => "tier_below_gate" | NoArtifact => "no_artifact"
  | StaleArtifact => "stale_artifact" | CoversMismatch => "covers_mismatch"
  | DeficientNodes => "deficient_nodes" | NoPostconditions => "no_postconditions"
  | RequirementsMet => "requirements_met" | Tier3Authorization => "tier3_authorization"
  | DryRunRecorded => "dry_run_recorded" | InternalError => "internal_error"
  end.

Record GroundingRecord := mkGrounding {
  gr_artifact : ParseArtifact;
  gr_submitted_at : Z;
  gr_consumed : bool;
  gr_plan_step_id : option string
}.

Record PendingPostconditions := mkPending {
  pp_postconditions : list Postcondition;
  pp_tier : Z;
  pp_cwd : option string
}.

Record PendingAuth := mkPendingAuth {
  pa_tool_name : string;
  pa_args_fingerprint : string;
  pa_granted : bool
}.

Record GateOutcome := mkOutcome {
  go_tool_name : string;
  go_tier : Z;
  go_decision : string;
  go_reason_code : string;
  go_deficient_nodes : list string;
  go_postcondition_passed : option bool;
  go_gate_authorization : option bool
}.

Definition GateOutcome_new (tool_name : string) (tier : Z) (decision : string) (reason : GateReasonCode)
    (deficient : list string) : GateOutcome :=
  mkOutcome tool_name tier decision (reason_as_str reason) deficient None None.

Record DeniedCall := mkDenied {
  dc_at : Z;
  dc_tool_class : string;
  dc_tier : Z;
  dc_tokens : list string      (** [BTreeSet]: sorted, no duplicates *)
}.

Record GateState := mkGateState {
  gs_grounding : gmap string GroundingRecord;
  gs_pending_post : gmap string PendingPostconditions;
  gs_pending_auth : gmap string PendingAuth;
  gs_outcomes : gmap string GateOutcome;
  gs_denied : gmap string (list DeniedCall)
}.

Definition gs_empty : GateState := mkGateState ∅ ∅ ∅ ∅ ∅.

Definition with_grounding (s : GateState) m := mkGateState m (gs_pending_post s) (gs_pending_auth s) (gs_outcomes s) (gs_denied s).
Definition with_pending_post (s : GateState) m := mkGateState (gs_grounding s) m (gs_pending_auth s) (gs_outcomes s) (gs_denied s).
Definition with_pending_auth (s : GateState) m := mkGateState (gs_grounding s) (gs_pending_post s) m (gs_outcomes s) (gs_denied s).
Definition with_outcomes (s : GateState) m := mkGateState (gs_grounding s) (gs_pending_post s) (gs_pending_auth s) m (gs_denied s).
Definition with_denied (s : GateState) m := mkGateState (gs_grounding s) (gs_pending_post s) (gs_pending_auth s) (gs_outcomes s) m.

(** ** Grounding store *)

Definition ARTIFACT_TTL : Z := 30 * 60 * 1000.

Definition submit (scope : RuntimeScope) (artifact : ParseArtifact) (plan_step_id : option string)
    (now : Z) (s : GateState) : GateState :=
  with_grounding s (<[scope_key scope := mkGrounding artifact now false plan_step_id]> (gs_grounding s)).

Definition get_live (scope : RuntimeScope) (max_age now : Z) (s : GateState) : option ParseArtifact :=
  rec ← gs_grounding s !! scope_key scope;
  if gr_consumed rec || (max_age <? now - gr_submitted_at rec)%Z then None
  else Some (gr_artifact rec).

Definition register_pending_postconditions (scope : RuntimeScope) (pcs : list Postcondition) (tier : Z)
    (cwd : option string) (s : GateState) : GateState :=
  with_pending_post s (<[scope_key scope := mkPending pcs tier cwd]> (gs_pending_post s)).

Definition take_pending_postconditions (scope : RuntimeScope) (s : GateState)
    : GateState * option PendingPostconditions :=
  (with_pending_post s (delete (scope_key scope) (gs_pending_post s)),
   gs_pending_post s !! scope_key scope).

Definition consume (scope : RuntimeScope) (s : GateState) : GateState :=
  match gs_grounding s !! scope_key scope with
  | Some rec =>
      with_grounding s (<[scope_key scope :=
        mkGrounding (gr_artifact rec) (gr_submitted_at rec) true (gr_plan_step_id rec)]> (gs_grounding s))
  | None => s
  end.

(** ** Pending authorizations *)

Inductive ResumeAction := NoPending | Granted | Denied.

Definition is_gate_denial (user_text : string) : bool :=
  let t := to_lowercase (trim user_text) in
  if is_empty_str t then false
  else starts_with "[gate-deny]" t || String.eqb t "deny" || String.eqb t "reject" ||
       starts_with "deny " t || starts_with "reject " t.

Definition resolve_on_resume (scope : RuntimeScope) (user_text : string) (s : GateState)
    : GateState * ResumeAction :=
  let key := scope_key scope in
  match gs_pending_auth s !! key with
  | None => (s, NoPending)
  | Some entry =>
      if is_gate_denial user_text
      then (with_pending_auth s (delete key (gs_pending_auth s)), Denied)
      else (with_pending_auth s
              (<[key := mkPendingAuth (pa_tool_name entry) (pa_args_fingerprint entry) true]> (gs_pending_auth s)),
            Granted)
  end.

(** ** Gate outcomes *)

Definition outcome_record (scope : RuntimeScope) (o : GateOutcome) (s : GateState) : GateState :=
  with_outcomes s (<[scope_key scope := o]> (gs_outcomes s)).

Definition outcome_take (scope : RuntimeScope) (s : GateState) : GateState * option GateOutcome :=
  (with_outcomes s (delete (scope_key scope) (gs_outcomes s)), gs_outcomes s !! scope_key scope).

(** ** Recent denials *)

Definition DENIED_TTL : Z := 30 * 60 * 1000.
Definition MAX_DENIED : nat := 8.

(** [rest.split("__").next()]: up to the first double underscore. *)
Fixpoint before_dunder (s : string) : string :=
  match s with
  | String a (String b r as t) =>
      if bool_decide (a = "_"%char) && bool_decide (b = "_"%char) then EmptyString
      else String a (before_dunder t)
  | _ => s
  end.

Definition tool_class (tool_name : string) : string :=
  if String.eqb tool_name "bash" || String.eqb tool_name "Bash" then "bash"
  else match strip_prefix "mcp__" tool_name with
       | Some rest => "mcp:" +:+ before_dunder rest
       | None => "other"
       end.

Definition token_char (a : ascii) : bool :=
  is_ascii_alphanumeric a || existsb (fun c => bool_decide (a = c)) ["_"; "."; "/"; ":"; "-"]%char.

(** [norm_tokens]: the set of maximal runs of token characters. *)
Definition norm_tokens (text : string) : list string :=
  fold_left (fun acc t => btree_insert t acc)
    (List.filter (fun t => negb (is_empty_str t)) (split_when (fun a => negb (token_char a)) (to_lowercase text)))
    [].

(** Sizes of intersection and union; the similarity is their quotient. *)
Definition inter_count (a b : list string) : Z :=
  Z.of_nat (length (List.filter (fun x => existsb (String.eqb x) b) a)).
Definition union_count (a b : list string) : Z :=
  Z.of_nat (length a) + Z.of_nat (length b) - inter_count a b.

(** [jaccard] as an exact fraction; two empty sets have similarity zero. *)
Record frac := mkFrac { f_num : Z; f_den : Z }.
Definition jaccard (a b : list string) : frac :=
  match a, b with
  | [], _ | _, [] => mkFrac 0 1
  | _, _ => mkFrac (inter_count a b) (union_count a b)
  end.
Definition frac_lt (x y : frac) : bool := (f_num x * f_den y <? f_num y * f_den x)%Z.
Definition RELATED : frac := mkFrac 35 100.
Definition MINOR : frac := mkFrac 70 100.
Definition IDENTICAL : frac := mkFrac 95 100.

Inductive TelemetryVerdict :=
| FrictionDenial (secs_to_retry : Z)
| PreventedError (diff : string) (secs_to_reground : Z).

Definition live_denials (now : Z) (items : list DeniedCall) : list DeniedCall :=
  List.filter (fun i => (now - dc_at i <? DENIED_TTL)%Z) items.

Section interceptor.
Context (find_word : string -> string -> option (nat * nat)) (defused : string -> bool).
Context (regex_match : string -> option (string -> bool)).
Context (json_to_string : json -> string).
Context (sh : string -> option string -> CommandEnd).
(** [serde_json::from_value::<Vec<String>>]: the strings of an array of
    strings. *)
Context (json_strings : json -> option (list string)).

Definition record_denied (scope : RuntimeScope) (tool_name : string) (args : json) (tier now : Z)
    (s : GateState) : GateState :=
  let key := scope_key scope in
  let items := live_denials now (default [] (gs_denied s !! key)) in
  let items := if (MAX_DENIED <=? length items)%nat then drop 1 items else items in
  let call := mkDenied now (tool_class tool_name) tier (norm_tokens (call_text json_to_string tool_name args)) in
  with_denied s (<[key := (items ++ [call])%list]> (gs_denied s)).

(** The loop of [match_executed]: index and score of the best item so far. *)
Fixpoint best_match (toks : list string) (tc : string) (idx : nat) (items : list DeniedCall)
    (best : frac * option nat) : frac * option nat :=
  match items with
  | [] => best
  | item :: rest =>
      let best' :=
        if negb (String.eqb (dc_tool_class item) tc) then best
        else let score := jaccard toks (dc_tokens item) in
             if frac_lt (fst best) score then (score, Some idx) else best in
      best_match toks tc (S idx) rest best'
  end.

Definition verdict_of (score : frac) (elapsed : Z) : TelemetryVerdict :=
  if frac_lt score IDENTICAL
  then PreventedError (if frac_lt score MINOR then "major" else "minor") elapsed
  else FrictionDenial elapsed.

Definition match_executed (scope : RuntimeScope) (tool_name : string) (args : json) (now : Z)
    (s : GateState) : GateState * option TelemetryVerdict :=
  let key := scope_key scope in
  match gs_denied s !! key with
  | None => (s, None)
  | Some items0 =>
      let items := live_denials now items0 in
      let s1 := with_denied s (<[key := items]> (gs_denied s)) in
      let '(score, idx) := best_match (norm_tokens (call_text json_to_string tool_name args))
                             (tool_class tool_name) 0 items (mkFrac 0 1, None) in
      match idx ≫= (fun i => (i,.) <$> items !! i) with
      | None => (s1, None)
      | Some (i, denied) =>
          if frac_lt score RELATED then (s1, None)
          else (with_denied s (<[key := delete i items]> (gs_denied s)),
                Some (verdict_of score (wrap32 ((now - dc_at denied) / 1000))))
      end
  end.

(** ** Tool calls *)

Definition fingerprint (tool_name : string) (args : json) : string :=
  tool_name +:+ ":" +:+ json_to_string args.

Definition set_pending (scope : RuntimeScope) (tool_name : string) (args : json) (s : GateState) : GateState :=
  with_pending_auth s
    (<[scope_key scope := mkPendingAuth tool_name (fingerprint tool_name args) false]> (gs_pending_auth s)).

Definition is_granted (scope : RuntimeScope) (tool_name : string) (args : json) (s : GateState)
    : GateState * bool :=
  let key := scope_key scope in
  match gs_pending_auth s !! key with
  | None => (s, false)
  | Some entry =>
      if negb (String.eqb (pa_tool_name entry) tool_name) ||
         negb (String.eqb (pa_args_fingerprint entry) (fingerprint tool_name args))
      then (s, false)
      else if negb (pa_granted entry) then (s, false)
      else (with_pending_auth s (delete key (gs_pending_auth s)), true)
  end.

Definition tool_meta_from_context (ctx : ToolCallContext) : ToolTierMeta :=
  let access := match jget "access_level" (tc_metadata ctx) ≫= as_str with
                | Some a => if String.eqb a "delete" then AccDelete
                            else if String.eqb a "write" then AccWrite else AccRead
                | None => AccWrite
                end in
  let tags := default [] (jget "tags" (tc_metadata ctx) ≫= json_strings) in
  mkTierMeta access tags None (is_some (tc_delegation_target ctx)).

Record GateVerdict := mkVerdict {
  gv_tier : Tier;
  gv_reason : GateReasonCode;
  gv_block_msg : option string
}.

Definition holds (tier : Tier) (why : string) : string :=
  "Gate holds (tier " +:+ show_Z (tier_u8 tier) +:+ ": " +:+ why.

(** [evaluate]; it panics when linting the artifact does. *)
Definition evaluate (ctx : ToolCallContext) (meta : ToolTierMeta) (policy : SemioticPolicy)
    (now : Z) (s : GateState) : outcome GateVerdict :=
  let tier := classify_tier meta in
  if (tier_u8 tier <=? 1)%Z then Done (mkVerdict tier TierBelowGate None)
  else match get_live (tc_runtime_scope ctx) ARTIFACT_TTL now s with
  | None =>
      Done (mkVerdict tier NoArtifact
        (Some (holds tier "no artifact). Submit grounding via submitGrounding. Deficient: all critical/ambiguous nodes")))
  | Some artifact_raw =>
      let! art := lint find_word defused artifact_raw in
      Done (
        if negb (covers_match regex_match json_to_string (art_covers art) (tc_tool_name ctx) (tc_args ctx))
        then mkVerdict tier CoversMismatch (Some (holds tier "covers mismatch). Fix covers patterns."))
        else
          let needs_postconditions :=
            (2 <=? tier_u8 tier)%Z &&
            (negb (bool_decide (tier = Irreversible)) || sp_require_postconditions_t3 policy) in
          if needs_postconditions && match art_postconditions art with [] => true | _ => false end
          then mkVerdict tier NoPostconditions (Some (holds tier "missing postconditions). Add postconditions."))
          else
            let decision := decide_gate AmbiguityAwareGate_default art tier in
            match gd_requests decision with
            | _ :: _ =>
                mkVerdict tier DeficientNodes
                  (Some (holds tier "deficient nodes). Ground: " +:+ join ", " (gd_requests decision)))
            | [] =>
                match gd_action decision with
                | QueueForHuman =>
                    mkVerdict tier Tier3Authorization (Some "Tier-3 grounded: human authorization required.")
                | _ => mkVerdict tier RequirementsMet None
                end
            end)
  end.

Definition decision_label (verdict : GateVerdict) (artifact_has_postconditions : bool) : string :=
  if negb (bool_decide (gv_reason verdict = RequirementsMet)) then "deny"
  else if bool_decide (gv_tier verdict = Irreversible) then "ask"
  else if artifact_has_postconditions then "pass_gated" else "pass".

Definition authorization_prompt (ctx : ToolCallContext) (tier now : Z) (s : GateState) : string :=
  let live := get_live (tc_runtime_scope ctx) ARTIFACT_TTL now s in
  let summary := default "Grounded tier-3 action" (art_instruction <$> live) in
  let post_count := default 0%nat ((fun a => length (art_postconditions a)) <$> live) in
  "Tier-" +:+ show_Z tier +:+ " authorization required." +:+ nl_str +:+ nl_str +:+
  "Grounded intent: " +:+ summary +:+ nl_str +:+ "Postconditions declared: " +:+ show_nat post_count +:+
  nl_str +:+ nl_str +:+ "Reply to approve and continue execution.".

Definition apply_policy (policy : SemioticPolicy) (verdict : GateVerdict) (ctx : ToolCallContext)
    (now : Z) (s : GateState) : GateState * InterceptorDecision :=
  let tier := tier_u8 (gv_tier verdict) in
  if bool_decide (gv_reason verdict = RequirementsMet) then
    if bool_decide (gv_tier verdict = Irreversible) && should_enforce policy tier then
      (set_pending (tc_runtime_scope ctx) (tc_tool_name ctx) (tc_args ctx) s,
       RequireAuthorization (authorization_prompt ctx tier now s))
    else (s, Allow)
  else if should_enforce policy tier then
    (record_denied (tc_runtime_scope ctx) (tc_tool_name ctx) (tc_args ctx) tier now s,
     Block (default (reason_as_str (gv_reason verdict)) (gv_block_msg verdict)))
  else (s, Allow).

Definition record_outcome (ctx : ToolCallContext) (verdict : GateVerdict) (label : string) (s : GateState)
    : GateState :=
  outcome_record (tc_runtime_scope ctx)
    (GateOutcome_new (tc_tool_name ctx) (tier_u8 (gv_tier verdict)) label (gv_reason verdict) []) s.

Definition register_postconditions_if_pass (ctx : ToolCallContext) (verdict : GateVerdict) (now : Z)
    (s : GateState) : GateState :=
  if negb (bool_decide (gv_reason verdict = RequirementsMet)) then s
  else match get_live (tc_runtime_scope ctx) ARTIFACT_TTL now s with
       | None => s
       | Some artifact =>
           match art_postconditions artifact with
           | [] => s
           | pcs => register_pending_postconditions (tc_runtime_scope ctx) pcs
                      (tier_u8 (gv_tier verdict)) (jget "cwd" (tc_metadata ctx) ≫= as_str) s
           end
       end.

(** [intercept_tool_call]. *)
Definition intercept_tool_call (config : SemioticConfig) (ctx : ToolCallContext) (now : Z) (s : GateState)
    : outcome (GateState * InterceptorDecision) :=
  let policy := config_resolve config (tc_agent_package ctx) in
  if negb (sp_enabled policy) then Done (s, Allow)
  else
    let '(s0, granted) := is_granted (tc_runtime_scope ctx) (tc_tool_name ctx) (tc_args ctx) s in
    if granted then
      let verdict := mkVerdict Irreversible RequirementsMet None in
      let s1 := record_outcome ctx verdict "pass_gated" s0 in
      Done (register_postconditions_if_pass ctx verdict now s1, Allow)
    else
      let meta := tool_meta_from_context ctx in
      let! verdict := evaluate ctx meta policy now s0 in
      Done (
        if (tier_u8 (gv_tier verdict) <=? 1)%Z then (s0, Allow)
        else
          let has_pcs := match get_live (tc_runtime_scope ctx) ARTIFACT_TTL now s0 with
                         | Some a => match art_postconditions a with [] => false | _ => true end
                         | None => false
                         end in
          let s1 := record_outcome ctx verdict (decision_label verdict has_pcs) s0 in
          let s2 := if bool_decide (gv_reason verdict = RequirementsMet)
                    then register_postconditions_if_pass ctx verdict now s1 else s1 in
          apply_policy policy verdict ctx now s2).

(** [on_tool_call_complete]; [ok] says whether the tool succeeded. *)
Definition on_tool_call_complete (config : SemioticConfig) (ctx : ToolCallContext) (ok : bool)
    (s : GateState) : GateState :=
  let policy := config_resolve config (tc_agent_package ctx) in
  let scope := tc_runtime_scope ctx in
  if negb (sp_enabled policy) then s
  else if negb ok then s
  else
    let '(s1, pending) := take_pending_postconditions scope s in
    match pending with
    | None => consume scope s1
    | Some p =>
        let run := run_postconditions sh (pp_postconditions p) (pp_cwd p) in
        let '(s2, taken) := outcome_take scope s1 in
        let o := default (GateOutcome_new (tc_tool_name ctx) (pp_tier p) "pass_gated" RequirementsMet []) taken in
        let o := mkOutcome (go_tool_name o) (go_tier o) (go_decision o) (go_reason_code o)
                   (go_deficient_nodes o) (Some (run_passed run)) (go_gate_authorization o) in
        consume scope (outcome_record scope o s2)
    end.
End interceptor.

(** ** Theorems *)

Section gate_theorems.
Context (find_word : string -> string -> option (nat * nat)) (defused : string -> bool).
Context (regex_match : string -> option (string -> bool)).
Context (json_to_string : json -> string).
Context (sh : string -> option string -> CommandEnd).
Context (json_strings : json -> option (list string)).

Local Abbreviation intercept := (intercept_tool_call find_word defused regex_match json_to_string json_strings).
Local Abbreviation complete := (on_tool_call_complete sh).

(** The call's tier as the interceptor classifies it. *)
Definition call_tier (ctx : ToolCallContext) : Tier :=
  classify_tier (tool_meta_from_context json_strings ctx).

(** The policy enforces the gate from tier 2 on. *)
Definition enforcing (policy : SemioticPolicy) : Prop :=
  sp_enabled policy = true /\ sp_mode policy = Enforce /\ (sp_enforce_min_tier policy <= 2)%Z.

(** A recorded approval of exactly this call. *)
Definition approved_call (ctx : ToolCallContext) (s : GateState) : Prop :=
  exists e, gs_pending_auth s !! scope_key (tc_runtime_scope ctx) = Some e /\
    pa_granted e = true /\ pa_tool_name e = tc_tool_name ctx /\
    pa_args_fingerprint e = fingerprint json_to_string (tc_tool_name ctx) (tc_args ctx).

(** A live artifact that covers the call, names postconditions and passes the
    gate at tier 2. *)
Definition grounded_call (ctx : ToolCallContext) (now : Z) (s : GateState) : Prop :=
  exists raw art, get_live (tc_runtime_scope ctx) ARTIFACT_TTL now s = Some raw /\
    lint find_word defused raw = Done art /\
    covers_match regex_match json_to_string (art_covers art) (tc_tool_name ctx) (tc_args ctx) = true /\
    art_postconditions art <> [] /\
    gd_requests (decide_gate AmbiguityAwareGate_default art Mutating) = [].

Lemma should_enforce_gated policy tier :
  enforcing policy -> (2 <= tier_u8 tier)%Z -> should_enforce policy (tier_u8 tier) = true.
Proof.
  intros (He & Hm & Hmin) Ht. unfold should_enforce. rewrite He, bool_decide_eq_true_2 by done.
  apply Z.leb_le. lia.
Qed.

(** What an evaluation that meets the requirements says about the artifact. *)
Lemma evaluate_requirements_met ctx policy now s v :
  evaluate find_word defused regex_match json_to_string ctx (tool_meta_from_context json_strings ctx)
    policy now s = Done v ->
  (2 <= tier_u8 (call_tier ctx))%Z ->
  gv_tier v = call_tier ctx /\
  (gv_reason v = RequirementsMet -> call_tier ctx = Mutating -> grounded_call ctx now s).
Proof.
  unfold evaluate. fold (call_tier ctx). intros Hev Ht.
  rewrite (proj2 (Z.leb_gt _ _)) in Hev by lia.
  destruct (get_live _ _ _ _) as [raw|] eqn:Hlive; [|by simplify_eq].
  destruct (lint _ _ raw) as [art|] eqn:Hlint; [|done]. simpl in Hev. simplify_eq.
  destruct (covers_match _ _ _ _ _) eqn:Hcov; [|done]. simpl.
  destruct (_ && match art_postconditions art with [] => true | _ => false end) eqn:Hpc; [done|].
  destruct (gd_requests _) as [|r rs] eqn:Hreq; [|done].
  split; [by destruct (gd_action _)|]. intros _ Hmut. exists raw, art. split_and!; try done.
  - intros Hnil. rewrite Hmut, Hnil in Hpc. done.
  - by rewrite Hmut in Hreq.
Qed.

Lemma is_granted_true ctx s s' :
  is_granted json_to_string (tc_runtime_scope ctx) (tc_tool_name ctx) (tc_args ctx) s = (s', true) ->
  approved_call ctx s /\
  s' = with_pending_auth s (delete (scope_key (tc_runtime_scope ctx)) (gs_pending_auth s)).
Proof.
  unfold is_granted. destruct (gs_pending_auth s !! _) as [e|] eqn:E; [|done].
  destruct (String.eqb_spec (pa_tool_name e) (tc_tool_name ctx)); [|done].
  destruct (String.eqb_spec (pa_args_fingerprint e)
    (fingerprint json_to_string (tc_tool_name ctx) (tc_args ctx))); [|done]. simpl.
  destruct (pa_granted e) eqn:Hg; [|done]. simpl. intros [= <-].
  split; [|done]. by exists e.
Qed.

Lemma is_granted_false ctx s s' :
  is_granted json_to_string (tc_runtime_scope ctx) (tc_tool_name ctx) (tc_args ctx) s = (s', false) -> s' = s.
Proof. unfold is_granted. repeat case_match; intros; simplify_eq; done. Qed.

Lemma register_pending_auth ctx v now s :
  gs_pending_auth (register_postconditions_if_pass ctx v now s) = gs_pending_auth s.
Proof.
  unfold register_postconditions_if_pass. repeat case_match; done.
Qed.

(** The three ways a gated call is answered under an enforcing policy, with
    what happens to the pending authorizations. *)
Lemma intercept_cases config ctx now s s' d :
  intercept config ctx now s = Done (s', d) ->
  enforcing (config_resolve config (tc_agent_package ctx)) ->
  (2 <= tier_u8 (call_tier ctx))%Z ->
  (d = Allow /\ approved_call ctx s /\
   gs_pending_auth s' = delete (scope_key (tc_runtime_scope ctx)) (gs_pending_auth s)) \/
  (d = Allow /\ call_tier ctx = Mutating /\ grounded_call ctx now s /\ gs_pending_auth s' = gs_pending_auth s) \/
  (d <> Allow /\
   (gs_pending_auth s' = gs_pending_auth s \/
    exists e, pa_granted e = false /\
      gs_pending_auth s' = <[scope_key (tc_runtime_scope ctx) := e]> (gs_pending_auth s))).
Proof.
  intros Hi Hen Ht. unfold intercept_tool_call in Hi. destruct Hen as (He & Hm & Hmin).
  rewrite He in Hi. cbn [negb] in Hi.
  destruct (is_granted _ _ _ _ s) as [s0 granted] eqn:Hg. destruct granted.
  { apply is_granted_true in Hg as [Happ ->]. simplify_eq. left. split_and!; [done..|].
    by rewrite register_pending_auth. }
  apply is_granted_false in Hg as ->.
  destruct (evaluate _ _ _ _ _ _ _ _ s) as [v|] eqn:Hev; [|done].
  destruct (evaluate_requirements_met _ _ _ _ _ Hev Ht) as [Htier Hmet].
  cbn [outcome_bind] in Hi. rewrite Htier in Hi. rewrite (proj2 (Z.leb_gt _ 1)) in Hi by lia.
  injection Hi as Hi.
  match type of Hi with apply_policy _ _ _ _ _ ?x = _ => set (s2 := x) in Hi end.
  assert (Hs2 : gs_pending_auth s2 = gs_pending_auth s).
  { unfold s2. case_match; [|done]. by rewrite register_pending_auth. }
  clearbody s2. right. unfold apply_policy in Hi. rewrite Htier in Hi.
  rewrite should_enforce_gated in Hi by (done || lia).
  destruct (decide (gv_reason v = RequirementsMet)) as [Hr|Hr].
  - rewrite bool_decide_eq_true_2 in Hi by done.
    destruct (decide (call_tier ctx = Irreversible)) as [Hirr|Hmut].
    + rewrite bool_decide_eq_true_2 in Hi by done. cbn [andb] in Hi. simplify_eq. right. split; [done|].
      right. eexists. split; [|unfold set_pending; cbn; by rewrite Hs2]. done.
    + rewrite bool_decide_eq_false_2 in Hi by done. cbn [andb] in Hi. simplify_eq. left.
      assert (call_tier ctx = Mutating) by (destruct (call_tier ctx); simpl in Ht; (lia || done)).
      split_and!; [done..|by apply Hmet|done].
  - rewrite bool_decide_eq_false_2 in Hi by done. simplify_eq. right. split; [done|]. left. done.
Qed.

(** ** Traces *)

Inductive gate_event :=
| EvCall (ctx : ToolCallContext) (now : Z)
| EvResume (scope : RuntimeScope) (user_text : string)
| EvSubmit (scope : RuntimeScope) (art : ParseArtifact) (step : option string) (now : Z)
| EvComplete (ctx : ToolCallContext) (ok : bool).

(** The gate's state with two counters: approvals given by users, and
    irreversible calls let through. *)
Record trace_state := mkTrace { tr_gate : GateState; tr_approvals : nat; tr_irreversible : nat }.

Definition trace_step (config : SemioticConfig) (t : trace_state) (ev : gate_event) : trace_state :=
  match ev with
  | EvCall ctx now =>
      match intercept config ctx now (tr_gate t) with
      | Done (s', d) =>
          mkTrace s' (tr_approvals t)
            (match d with
             | Allow => if bool_decide (call_tier ctx = Irreversible)
                        then S (tr_irreversible t) else tr_irreversible t
             | _ => tr_irreversible t
             end)
      | Panic => t
      end
  | EvResume scope text =>
      let '(s', a) := resolve_on_resume scope text (tr_gate t) in
      mkTrace s' (match a with Granted => S (tr_approvals t) | _ => tr_approvals t end) (tr_irreversible t)
  | EvSubmit scope art step now =>
      mkTrace (submit scope art step now (tr_gate t)) (tr_approvals t) (tr_irreversible t)
  | EvComplete ctx ok =>
      mkTrace (complete config ctx ok (tr_gate t)) (tr_approvals t) (tr_irreversible t)
  end.

(** How many recorded authorizations are granted and unused. *)
Definition open_grants (m : gmap string PendingAuth) : nat :=
  size (filter (fun kv => pa_granted (snd kv) = true) m).

Lemma open_grants_insert_false m k e : pa_granted e = false -> (open_grants (<[k := e]> m) <= open_grants m)%nat.
Proof.
  intros He. unfold open_grants. rewrite map_filter_insert_False by (simpl; congruence).
  apply map_subseteq_size, map_filter_subseteq_mono, delete_subseteq.
Qed.

Lemma open_grants_insert m k e : (open_grants (<[k := e]> m) <= S (open_grants m))%nat.
Proof.
  destruct (pa_granted e) eqn:He; [|pose proof (open_grants_insert_false m k e He); lia].
  unfold open_grants. rewrite map_filter_insert_True by done.
  destruct (decide (is_Some (filter (fun kv => pa_granted (snd kv) = true) m !! k))).
  - rewrite map_size_insert_Some by done. lia.
  - rewrite map_size_insert_None by (by apply eq_None_not_Some). done.
Qed.

Lemma open_grants_delete m k : (open_grants (delete k m) <= open_grants m)%nat.
Proof. apply map_subseteq_size, map_filter_subseteq_mono, delete_subseteq. Qed.

Lemma open_grants_delete_granted m k e :
  m !! k = Some e -> pa_granted e = true -> S (open_grants (delete k m)) = open_grants m.
Proof.
  intros Hk He. unfold open_grants. rewrite map_filter_delete, map_size_delete.
  assert (Hf : filter (fun kv => pa_granted (snd kv) = true) m !! k = Some e)
    by (by apply map_lookup_filter_Some).
  rewrite Hf. simpl.
  assert (size (filter (fun kv => pa_granted (snd kv) = true) m) <> 0%nat).
  { intros Hz. apply map_size_empty_inv in Hz. rewrite Hz in Hf. by rewrite lookup_empty in Hf. }
  lia.
Qed.

Lemma complete_pending_auth config ctx ok s :
  gs_pending_auth (complete config ctx ok s) = gs_pending_auth s.
Proof.
  unfold on_tool_call_complete, take_pending_postconditions, outcome_take. cbn.
  repeat case_match; try done; unfold consume; cbn; case_match; done.
Qed.

(** A call below the gate leaves the authorizations alone, or uses one. *)
Lemma intercept_open_grants config ctx now s s' d :
  intercept config ctx now s = Done (s', d) ->
  enforcing (config_resolve config (tc_agent_package ctx)) ->
  ((if bool_decide (call_tier ctx = Irreversible) then match d with Allow => 1 | _ => 0 end else 0)
   + open_grants (gs_pending_auth s') <= open_grants (gs_pending_auth s))%nat.
Proof.
  intros Hi Hen. destruct (decide (2 <= tier_u8 (call_tier ctx))%Z) as [Ht|Ht].
  - destruct (intercept_cases _ _ _ _ _ _ Hi Hen Ht)
      as [(-> & (e & He & Hg & _) & Hs)|[(-> & Hmut & _ & Hs)|(Hd & Hs)]].
    + rewrite Hs. pose proof (open_grants_delete_granted _ _ _ He Hg). case_match; lia.
    + rewrite Hs, Hmut. done.
    + assert (open_grants (gs_pending_auth s') <= open_grants (gs_pending_auth s))%nat.
      { destruct Hs as [->|(e & He & ->)]; [done|by apply open_grants_insert_false]. }
      destruct d; try done; case_match; lia.
  - rewrite bool_decide_eq_false_2 by (intros Hirr; rewrite Hirr in Ht; simpl in Ht; lia).
    unfold intercept_tool_call in Hi. destruct Hen as (He & _). rewrite He in Hi. cbn [negb] in Hi.
    destruct (is_granted _ _ _ _ s) as [s0 granted] eqn:Hg. destruct granted.
    + apply is_granted_true in Hg as [_ ->]. simplify_eq. rewrite register_pending_auth.
      apply open_grants_delete.
    + apply is_granted_false in Hg as ->. unfold evaluate in Hi. fold (call_tier ctx) in Hi.
      rewrite (proj2 (Z.leb_le _ 1)) in Hi by (destruct (call_tier ctx); simpl in *; lia).
      cbn [outcome_bind gv_tier] in Hi.
      rewrite (proj2 (Z.leb_le _ 1)) in Hi by (destruct (call_tier ctx); simpl in *; lia).
      simplify_eq. lia.
Qed.

Definition enforced_event (config : SemioticConfig) (ev : gate_event) : Prop :=
  match ev with
  | EvCall ctx _ => enforcing (config_resolve config (tc_agent_package ctx))
  | _ => True
  end.

Lemma trace_step_inv config t ev :
  enforced_event config ev ->
  (tr_irreversible t + open_grants (gs_pending_auth (tr_gate t)) <= tr_approvals t)%nat ->
  let t' := trace_step config t ev in
  (tr_irreversible t' + open_grants (gs_pending_auth (tr_gate t')) <= tr_approvals t')%nat.
Proof.
  intros Hev Hinv. destruct ev as [ctx now|scope text|scope art st now|ctx ok]; simpl.
  - destruct (intercept config ctx now (tr_gate t)) as [[s' d]|] eqn:E; [|done]. simpl.
    pose proof (intercept_open_grants _ _ _ _ _ _ E Hev). destruct d; case_match; simpl in *; lia.
  - unfold resolve_on_resume. destruct (gs_pending_auth (tr_gate t) !! _) as [e|]; [|done].
    destruct (is_gate_denial text); simpl.
    + pose proof (open_grants_delete (gs_pending_auth (tr_gate t)) (scope_key scope)). lia.
    + match goal with |- context [open_grants (<[?k := ?x]> ?m)] => pose proof (open_grants_insert m k x) end.
      lia.
  - done.
  - by rewrite complete_pending_auth.
Qed.
End gate_theorems.

(** C5: Under an enforcing policy a call of tier 2 or above is let through in
    two cases only: a user approved exactly this tool with exactly these
    arguments for this scope, and the approval is used up by it; or the call
    is of tier 2 and a live, unconsumed artifact covers it, names
    postconditions and passes the gate.  Nothing else opens the gate. *)
Theorem enforced_gate_is_sound find_word defused regex_match json_to_string json_strings config ctx now s s' :
  intercept_tool_call find_word defused regex_match json_to_string json_strings config ctx now s = Done (s', Allow) ->
  enforcing (config_resolve config (tc_agent_package ctx)) ->
  (2 <= tier_u8 (call_tier json_strings ctx))%Z ->
  (approved_call json_to_string ctx s /\ ~ approved_call json_to_string ctx s') \/
  (call_tier json_strings ctx = Mutating /\
   grounded_call find_word defused regex_match json_to_string ctx now s).
Proof.
  intros Hi Hen Ht. destruct (intercept_cases _ _ _ _ _ _ _ _ _ _ _ Hi Hen Ht)
    as [(_ & Happ & Hs)|[(_ & Hmut & Hgr & _)|(Hd & _)]]; [left|by right|done].
  split; [done|]. intros (e & He & _). rewrite Hs, lookup_delete_eq in He. done.
Qed.

(** C2: No irreversible call without its own approval: along any sequence of
    tool calls, user replies, submitted artifacts and completions under an
    enforcing configuration, the number of irreversible calls let through never exceeds the
    number of approvals users gave; a denial, a repeated call or a change of
    arguments never yields a second execution from one approval. *)
Theorem irreversible_calls_need_approvals
    find_word defused regex_match json_to_string sh json_strings config events :
  Forall (enforced_event config) events ->
  let t := fold_left (trace_step find_word defused regex_match json_to_string sh json_strings config)
             events (mkTrace gs_empty 0 0) in
  (tr_irreversible t <= tr_approvals t)%nat.
Proof.
  intros Hevs t.
  assert (H : (tr_irreversible t + open_grants (gs_pending_auth (tr_gate t)) <= tr_approvals t)%nat); [|lia].
  unfold t. clear t.
  assert (H0 : (tr_irreversible (mkTrace gs_empty 0 0)
    + open_grants (gs_pending_auth (tr_gate (mkTrace gs_empty 0 0))) <= tr_approvals (mkTrace gs_empty 0 0))%nat) by done.
  revert H0. generalize (mkTrace gs_empty 0 0).
  induction Hevs as [|ev evs Hev _ IH]; intros t0 H0; simpl; [done|].
  apply IH. by apply trace_step_inv.
Qed.

Lemma get_live_consume scope age now s : get_live scope age now (consume scope s) = None.
Proof.
  unfold get_live, consume. destruct (gs_grounding s !! scope_key scope) as [rec|] eqn:E; simpl.
  - by rewrite lookup_insert_eq.
  - by rewrite E.
Qed.

(** Grounding is single-use: once any tool call of a scope has completed
    successfully, no artifact submitted before is live in that scope, at any
    later time and whatever the tool's tier, and its pending postconditions
    have been taken. *)
Theorem grounding_single_use sh config ctx age now s :
  sp_enabled (config_resolve config (tc_agent_package ctx)) = true ->
  let s' := on_tool_call_complete sh config ctx true s in
  get_live (tc_runtime_scope ctx) age now s' = None /\
  gs_pending_post s' !! scope_key (tc_runtime_scope ctx) = None.
Proof.
  intros He s'. unfold s', on_tool_call_complete. rewrite He. cbn [negb].
  unfold take_pending_postconditions, outcome_take. cbn.
  destruct (gs_pending_post s !! _); (split; [apply get_live_consume|]);
    unfold consume; cbn; case_match; cbn; by rewrite lookup_delete_eq.
Qed.

(** ** Concrete runs *)

Definition enforce_all : SemioticConfig := mkConfig (mkPolicy true Enforce 2 true true) ∅.
Definition demo_scope (ctx : ContextId) : RuntimeScope := TaskScope ctx "agent" "m" "t".
Definition demo_call (ctx : ContextId) (access tool : string) : ToolCallContext :=
  mkCall tool (JObj []) (demo_scope ctx) (JObj [("access_level", JStr access)]) None None.
Definition demo_json (v : json) : string := "{}".
Definition demo_artifact : ParseArtifact :=
  mkArtifact "drop table x" "agentic_execution"
    [mkNode "ACTION" [mkAnchor Icon "DROP TABLE x" "user"] [] None;
     mkNode "TARGET" [mkAnchor Index "x" "env"] [] None;
     mkNode "SCOPE" [mkAnchor Verify "one table" "env"] [] None;
     mkNode "CRITERION" [mkAnchor Verify "x is gone" "env"] [] None]
    ["db"] [mkPostcondition "test -z" ""].

Definition demo_intercept := intercept_tool_call find_word_ascii (fun _ => false) (fun _ => None) demo_json (fun _ => None).
Definition demo_trace := trace_step find_word_ascii (fun _ => false) (fun _ => None) demo_json (fun _ _ => TimedOut) (fun _ => None) enforce_all.

Definition demo_events : list gate_event :=
  [EvSubmit (demo_scope "c1") demo_artifact None 0;
   EvCall (demo_call "c1" "delete" "db") 10; EvResume (demo_scope "c1") "go ahead";
   EvCall (demo_call "c1" "delete" "db") 20; EvCall (demo_call "c1" "delete" "db") 30].

Lemma enforced_gate_witness :
  let s := tr_gate (fold_left demo_trace (take 3 demo_events) (mkTrace gs_empty 0 0)) in
  exists s', demo_intercept enforce_all (demo_call "c1" "delete" "db") 20 s = Done (s', Allow) /\
    ((approved_call demo_json (demo_call "c1" "delete" "db") s /\
      ~ approved_call demo_json (demo_call "c1" "delete" "db") s') \/
     (call_tier (fun _ => None) (demo_call "c1" "delete" "db") = Mutating /\
      grounded_call find_word_ascii (fun _ => false) (fun _ => None) demo_json
        (demo_call "c1" "delete" "db") 20 s)).
Proof.
  intros s.
  assert (H : exists s', demo_intercept enforce_all (demo_call "c1" "delete" "db") 20 s = Done (s', Allow))
    by (eexists; vm_compute; reflexivity).
  destruct H as [s' H]. exists s'. split; [exact H|].
  refine (enforced_gate_is_sound _ _ _ _ _ _ _ _ _ _ H _ _);
    [split_and!; vm_compute; (reflexivity || discriminate)|vm_compute; discriminate].
Defined.

Lemma irreversible_calls_witness :
  let t := fold_left demo_trace demo_events (mkTrace gs_empty 0 0) in
  tr_irreversible t = 1%nat /\ (tr_irreversible t <= tr_approvals t)%nat.
Proof.
  intros t. split; [vm_compute; reflexivity|].
  apply irreversible_calls_need_approvals. repeat constructor; vm_compute; discriminate.
Defined.

Lemma grounding_single_use_witness :
  let s := submit (demo_scope "c1") demo_artifact None 0 gs_empty in
  get_live (demo_scope "c1") ARTIFACT_TTL 10 s = Some demo_artifact /\
  get_live (demo_scope "c1") ARTIFACT_TTL 10
    (on_tool_call_complete (fun _ _ => TimedOut) enforce_all (demo_call "c1" "read" "ls") true s) = None.
Proof.
  intros s. split; [vm_compute; reflexivity|].
  exact (proj1 (grounding_single_use (fun _ _ => TimedOut) enforce_all (demo_call "c1" "read" "ls")
           ARTIFACT_TTL 10 s eq_refl)).
Defined.

(** Authorizations are keyed by agent and task without the context: a
    user's approval given in one context lets the same call through in another
    context of the same agent that reuses the task identifier. *)
Theorem authorization_crosses_contexts :
  let t := fold_left demo_trace
    [EvSubmit (demo_scope "c1") demo_artifact None 0;
     EvCall (demo_call "c1" "delete" "db") 10; EvResume (demo_scope "c1") "go ahead"]
    (mkTrace gs_empty 0 0) in
  demo_scope "c1" <> demo_scope "c2" /\
  exists s', demo_intercept enforce_all (demo_call "c2" "delete" "db") 20 (tr_gate t) = Done (s', Allow).
Proof. intros t. split; [discriminate|]. eexists. vm_compute. reflexivity. Qed.

(** The ring of recent denials never holds more than eight calls, all within
    their time to live when the last one was recorded. *)
Lemma record_denied_bounded json_to_string scope tool args tier now s items :
  gs_denied (record_denied json_to_string scope tool args tier now s) !! scope_key scope = Some items ->
  (forall old, gs_denied s !! scope_key scope = Some old -> (length old <= MAX_DENIED)%nat) ->
  (length items <= MAX_DENIED)%nat /\ Forall (fun i => (now - dc_at i < DENIED_TTL)%Z) items.
Proof.
  unfold record_denied. cbn [gs_denied with_denied]. rewrite lookup_insert_eq. intros Heq Hold.
  apply (inj Some) in Heq as <-.
  set (l := live_denials now (default [] (gs_denied s !! scope_key scope))).
  assert (Hl : (length l <= MAX_DENIED)%nat /\ Forall (fun i => (now - dc_at i < DENIED_TTL)%Z) l).
  { unfold l, live_denials. split.
    - etrans; [apply List.filter_length_le|]. destruct (gs_denied s !! _) eqn:E; simpl; [by apply Hold|].
      unfold MAX_DENIED. lia.
    - apply Forall_forall. intros i Hi. apply list_elem_of_In, List.filter_In in Hi as [_ Hi].
      by apply Z.ltb_lt. }
  destruct Hl as [Hlen Hall].
  assert (Hd : (length (if (MAX_DENIED <=? length l)%nat then drop 1 l else l) < MAX_DENIED)%nat).
  { destruct (Nat.leb_spec MAX_DENIED (length l)); [rewrite length_drop|]; unfold MAX_DENIED in *; lia. }
  split; [rewrite length_app; change (length [_]) with 1%nat; lia|]. apply Forall_app. split.
  - case_match; [by apply Forall_drop|done].
  - constructor; [|constructor]. simpl. unfold DENIED_TTL. lia.
Qed.
