(* ===== verification/SessionPool.v ===== *)
(** * The sandbox session pool
    ([baml-rt-tools/src/external_tools/sandbox/session_pool.rs])

    One key's bounded pool of sandboxes with every task that uses it.  A task
    is a program counter inside [checkout], [cold_create], [release] or
    [drop_reservation]; each section under the pool lock, each provider call
    and each wake-up is one step, so the reachable states are those of every
    interleaving, including dropped futures, failed boots and timeouts.  Pools
    of different keys share nothing.  Sessions, reservations, waiters and
    sandbox handles are numbered from one counter of fresh names. *)

From stdpp Require Import base list gmap sets relations fin_sets.
From Stdlib Require Import ZArith Lia.
From S2P Require Import Prelude.

(** ** Data *)

(** [EntryState]; [Draining] is never constructed by the source. *)
Inductive EntryState :=
| Idle
| Live (session : nat)
| Reserving (id : nat)
| Draining.

#[global] Instance EntryState_eq_dec : EqDecision EntryState.
Proof. solve_decision. Defined.

Record PoolEntry := mkEntry { pe_handle : option nat; pe_state : EntryState }.

#[global] Instance PoolEntry_eq_dec : EqDecision PoolEntry.
Proof. solve_decision. Defined.

Inductive Release := ReturnIdle | Destroy.

#[global] Instance Release_eq_dec : EqDecision Release.
Proof. solve_decision. Defined.

(** Where a task is. *)
Inductive task :=
| TLoop                                   (** top of the [checkout] loop *)
| TSweep (expired : list nat)             (** tearing down expired idle sandboxes *)
| TBoot (reservation : nat)               (** [build_spec] and [provider.create] *)
| TPromote (reservation handle : nat)     (** created, about to take the lock *)
| TWait (waiter : nat)                    (** parked on its [Notify] *)
| TCancelWait (waiter : nat)              (** timed out, about to leave the queue *)
| THold (session handle : nat)            (** owns a [PooledSandbox] *)
| TRelease (session : nat) (d : Release)
| TDropReservation (reservation : nat) (handle : option nat)
| TTeardown (handle : nat)
| TExhausted                              (** returned [PoolError::Exhausted] *)
| TDone
| TPanicked.

#[global] Instance task_eq_dec : EqDecision task.
Proof. solve_decision. Defined.

Record pool := mkPool {
  entries : list PoolEntry;
  waiters : list nat;            (** FIFO of parked checkouts *)
  permits : gset nat;            (** [Notify]s that were notified *)
  tasks : gmap nat task;
  alive : gset nat;              (** sandboxes created and not torn down *)
  fresh : nat
}.

Definition pool_init : pool := mkPool [] [] ∅ ∅ ∅ 0.

(** ** [KeyPool] *)

Definition is_idle (e : PoolEntry) : bool := match pe_state e with Idle => true | _ => false end.

Fixpoint position {A} (p : A -> bool) (l : list A) : option nat :=
  match l with
  | [] => None
  | x :: r => if p x then Some 0%nat else S <$> position p r
  end.

Definition idle_index (l : list PoolEntry) : option nat := position is_idle l.
Definition count_active (l : list PoolEntry) : nat := length l.

(** [Vec::swap_remove]: the last element takes the place of element [i]. *)
Definition swap_remove {A} (i : nat) (l : list A) : list A :=
  match list.last l with
  | Some x => if bool_decide (S i = length l) then take i l else <[i := x]> (take (length l - 1) l)
  | None => l
  end.

(** [notify_one_waiter]: queue and permits afterwards. *)
Definition notify_one_waiter (ws : list nat) (ps : gset nat) : list nat * gset nat :=
  match ws with
  | [] => ([], ps)
  | w :: r => (r, {[w]} ∪ ps)
  end.

(** The [while idx < pool.entries.len()] loop: entries kept and handles of the
    expired idle ones.  Each round removes an entry or advances, so the
    length of the list bounds the rounds. *)
Fixpoint sweep (fuel : nat) (expired : nat -> bool) (idx : nat) (l : list PoolEntry) (hs : list nat)
    : list PoolEntry * list nat :=
  match fuel with
  | O => (l, hs)
  | S fuel' =>
      match l !! idx with
      | None => (l, hs)
      | Some e =>
          if is_idle e && match pe_handle e with Some h => expired h | None => true end
          then sweep fuel' expired idx (swap_remove idx l) (hs ++ option_list (pe_handle e))
          else sweep fuel' expired (S idx) l hs
      end
  end.

Definition is_live_of (session : nat) (e : PoolEntry) : bool :=
  bool_decide (pe_state e = Live session).
Definition is_reserving_of (id : nat) (e : PoolEntry) : bool :=
  bool_decide (pe_state e = Reserving id).

Definition set_task (s : pool) (t : nat) (p : task) : pool :=
  mkPool (entries s) (waiters s) (permits s) (<[t := p]> (tasks s)) (alive s) (fresh s).

(** ** Lock sections *)

(** One round of the [checkout] loop under the lock. *)
Definition checkout_round (cap : nat) (expired : nat -> bool) (t : nat) (s : pool) : pool :=
  let '(kept, hs) := sweep (length (entries s)) expired 0 (entries s) [] in
  match hs with
  | _ :: _ =>
      let '(ws, ps) := notify_one_waiter (waiters s) (permits s) in
      mkPool kept ws ps (<[t := TSweep hs]> (tasks s)) (alive s) (fresh s)
  | [] =>
      match idle_index kept ≫= (fun i => (i,.) <$> kept !! i) with
      | Some (i, e) =>
          let session := fresh s in
          mkPool (<[i := mkEntry (pe_handle e) (Live session)]> kept) (waiters s) (permits s)
            (<[t := match pe_handle e with Some h => THold session h | None => TPanicked end]> (tasks s))
            (alive s) (S (fresh s))
      | None =>
          if (count_active kept <? cap)%nat then
            let id := fresh s in
            mkPool (kept ++ [mkEntry None (Reserving id)]) (waiters s) (permits s)
              (<[t := TBoot id]> (tasks s)) (alive s) (S (fresh s))
          else
            let w := fresh s in
            mkPool kept (waiters s ++ [w]) (permits s) (<[t := TWait w]> (tasks s)) (alive s) (S (fresh s))
      end
  end.

(** The lock section of [cold_create]. *)
Definition promote (t reservation handle : nat) (s : pool) : pool :=
  match position (is_reserving_of reservation) (entries s) with
  | None => set_task s t (TDropReservation reservation (Some handle))
  | Some i =>
      let session := fresh s in
      mkPool (<[i := mkEntry (Some handle) (Live session)]> (entries s)) (waiters s) (permits s)
        (<[t := THold session handle]> (tasks s)) (alive s) (S (fresh s))
  end.

(** What is left to do once a lock section is over. *)
Definition teardown_opt (h : option nat) : task :=
  match h with Some h => TTeardown h | None => TDone end.

Definition drop_reservation (t reservation : nat) (handle : option nat) (s : pool) : pool :=
  let '(ws, ps) := notify_one_waiter (waiters s) (permits s) in
  mkPool (List.filter (fun e => negb (is_reserving_of reservation e)) (entries s)) ws ps
    (<[t := teardown_opt handle]> (tasks s)) (alive s) (fresh s).

Definition cancel_waiter (t w : nat) (s : pool) : pool :=
  mkPool (entries s) (List.filter (fun w' => negb (Nat.eqb w' w)) (waiters s)) (permits s)
    (<[t := TExhausted]> (tasks s)) (alive s) (fresh s).

Definition release (t session : nat) (d : Release) (s : pool) : pool :=
  match position (is_live_of session) (entries s) ≫= (fun i => (i,.) <$> entries s !! i) with
  | None => set_task s t TDone
  | Some (i, e) =>
      let '(ws, ps) := notify_one_waiter (waiters s) (permits s) in
      match d with
      | ReturnIdle =>
          mkPool (<[i := mkEntry (pe_handle e) Idle]> (entries s)) ws ps
            (<[t := TDone]> (tasks s)) (alive s) (fresh s)
      | Destroy =>
          mkPool (swap_remove i (entries s)) ws ps
            (<[t := match pe_handle e with Some h => TTeardown h | None => TPanicked end]> (tasks s))
            (alive s) (fresh s)
      end
  end.

(** ** Steps *)

(** What the environment decides for a step: which idle handles have expired,
    how a boot ends, whether the future is dropped at this await point, how a
    holder lets go.  Dropping the future abandons what it had left to do,
    except that a boot's [ReservationGuard] spawns [drop_reservation] and a
    dropped [PooledSandbox] spawns a [Destroy] release. *)
Record choice := mkChoice {
  ch_expired : nat -> bool;
  ch_boot_ok : bool;
  ch_dropped : bool;
  ch_release : Release
}.

(** Futures whose drop has no guard behind it. *)
Definition droppable (p : task) : bool :=
  match p with
  | TLoop | TSweep _ | TWait _ | TCancelWait _ | TRelease _ _ | TTeardown _ => true
  | _ => false
  end.

Definition task_step (cap : nat) (c : choice) (t : nat) (s : pool) : option pool :=
  p ← tasks s !! t;
  if ch_dropped c && droppable p then Some (set_task s t TDone) else
  match p with
  | TLoop => Some (checkout_round cap (ch_expired c) t s)
  | TSweep [] => Some (set_task s t TLoop)
  | TSweep (h :: hs) =>
      Some (mkPool (entries s) (waiters s) (permits s) (<[t := TSweep hs]> (tasks s))
              (alive s ∖ {[h]}) (fresh s))
  | TBoot r =>
      if ch_boot_ok c then
        let h := fresh s in
        Some (mkPool (entries s) (waiters s) (permits s) (<[t := TPromote r h]> (tasks s))
                ({[h]} ∪ alive s) (S (fresh s)))
      else Some (set_task s t (TDropReservation r None))
  | TPromote r h =>
      if ch_dropped c then Some (set_task s t (TDropReservation r (Some h)))
      else Some (promote t r h s)
  | TWait w =>
      if bool_decide (w ∈ permits s)
      then Some (mkPool (entries s) (waiters s) (permits s ∖ {[w]}) (<[t := TLoop]> (tasks s))
                   (alive s) (fresh s))
      else Some (set_task s t (TCancelWait w))
  | TCancelWait w => Some (cancel_waiter t w s)
  | THold session h => Some (set_task s t (TRelease session (ch_release c)))
  | TRelease session d => Some (release t session d s)
  | TDropReservation r h => Some (drop_reservation t r h s)
  | TTeardown h =>
      Some (mkPool (entries s) (waiters s) (permits s) (<[t := TDone]> (tasks s))
              (alive s ∖ {[h]}) (fresh s))
  | TExhausted | TDone | TPanicked => None
  end.

(** A wait may also time out although a permit has arrived: the timer and the
    notification race. *)
Inductive step (cap : nat) : pool -> pool -> Prop :=
| step_checkout t s :
    tasks s !! t = None -> step cap s (set_task s t TLoop)
| step_task t c s s' :
    task_step cap c t s = Some s' -> step cap s s'
| step_timeout t w s :
    tasks s !! t = Some (TWait w) -> step cap s (set_task s t (TCancelWait w)).

(** [self.config.default_pool_max.max(1)]. *)
Definition effective_cap (default_pool_max : nat) : nat := Nat.max default_pool_max 1.

(** ** List lemmas *)

Lemma position_spec {A} (p : A -> bool) l i :
  position p l = Some i -> exists x, l !! i = Some x /\ p x = true.
Proof.
  revert i. induction l as [|x l IH]; intros i; simpl; [done|].
  destruct (p x) eqn:E; [intros [= <-]; by exists x|].
  destruct (position p l) as [j|]; [|done]. intros [= <-]. by apply IH.
Qed.

Lemma position_none {A} (p : A -> bool) l x : position p l = None -> x ∈ l -> p x = false.
Proof.
  induction l as [|y l IH]; simpl; [by intros _ ?%elem_of_nil|].
  destruct (p y) eqn:E; [done|]. destruct (position p l); [done|].
  intros _ [->|Hx]%elem_of_cons; [done|by apply IH].
Qed.

Lemma swap_remove_perm {A} (l : list A) i x : l !! i = Some x -> l ≡ₚ x :: swap_remove i l.
Proof.
  intros Hi. destruct l as [|y l0 _] using rev_ind; [done|].
  unfold swap_remove. rewrite last_snoc, length_app. simpl.
  apply lookup_lt_Some in Hi as Hlt. rewrite length_app in Hlt. simpl in Hlt.
  destruct (decide (S i = (length l0 + 1)%nat)) as [He|Hne].
  - rewrite bool_decide_eq_true_2 by done. assert (i = length l0) as -> by lia.
    rewrite lookup_app_r, Nat.sub_diag in Hi by done. simpl in Hi. simplify_eq.
    rewrite take_app_length. by rewrite Permutation_app_comm.
  - rewrite bool_decide_eq_false_2 by done.
    rewrite lookup_app_l in Hi by lia.
    replace (length l0 + 1 - 1)%nat with (length l0) by lia. rewrite take_app_length.
    rewrite (insert_take_drop l0 i) by lia. rewrite <-(take_drop_middle l0 i x Hi) at 1.
    solve_Permutation.
Qed.

Definition handles (l : list PoolEntry) : list nat := omap pe_handle l.

Lemma handles_app l k : handles (l ++ k) = handles l ++ handles k.
Proof. apply omap_app. Qed.

#[global] Instance handles_proper : Proper ((≡ₚ) ==> (≡ₚ)) handles.
Proof. unfold handles. intros l k H. by rewrite H. Qed.

(** The sweep splits the entries into removed idle ones and the rest. *)
Lemma sweep_spec fuel expired idx l hs l' hs' :
  sweep fuel expired idx l hs = (l', hs') ->
  exists removed, l ≡ₚ removed ++ l' /\ Forall (fun e => is_idle e = true) removed /\
    hs' = hs ++ handles removed.
Proof.
  revert idx l hs. induction fuel as [|fuel IH]; intros idx l hs; simpl.
  { intros [= <- <-]. exists []. by rewrite app_nil_r. }
  destruct (l !! idx) as [e|] eqn:E; [|intros [= <- <-]; exists []; by rewrite app_nil_r].
  destruct (is_idle e) eqn:Hi; simpl; [case_match|]; intros Hs; try by apply (IH _ _ _ Hs).
  apply IH in Hs as (rem & Hp & Hall & ->). exists (e :: rem). split_and!.
  - rewrite (swap_remove_perm l idx e E). simpl. by rewrite Hp.
  - by constructor.
  - rewrite <-app_assoc. f_equal. unfold handles. simpl. by destruct (pe_handle e).
Qed.

(** Replacing entry [i]. *)
Lemma insert_perm l (i : nat) (e e' : PoolEntry) :
  l !! i = Some e -> exists k, l ≡ₚ e :: k /\ <[i := e']> l ≡ₚ e' :: k.
Proof.
  intros Hi. exists (take i l ++ drop (S i) l). apply lookup_lt_Some in Hi as Hlt. split.
  - rewrite <-(take_drop_middle l i e Hi) at 1. solve_Permutation.
  - rewrite (insert_take_drop l i e' Hlt). solve_Permutation.
Qed.

(** ** Invariant *)

(** Handles a task is responsible for outside the entries. *)
Definition out (p : task) : list nat :=
  match p with
  | TSweep hs => hs
  | TPromote _ h | TTeardown h | TDropReservation _ (Some h) => [h]
  | _ => []
  end.

Definition session_of (p : task) : option nat :=
  match p with THold s _ | TRelease s _ => Some s | _ => None end.

(** Only a reservation has no sandbox yet. *)
Definition entry_wf (e : PoolEntry) : Prop :=
  match pe_state e with Reserving _ => pe_handle e = None | _ => is_Some (pe_handle e) end.

Record pool_inv (cap : nat) (s : pool) : Prop := {
  i_cap : (length (entries s) <= cap)%nat;
  i_wf : Forall entry_wf (entries s);
  i_nodup : NoDup (handles (entries s));
  i_alive : forall h, h ∈ handles (entries s) -> h ∈ alive s;
  i_fresh : forall h, h ∈ alive s -> (h < fresh s)%nat;
  i_hold : forall t se h, tasks s !! t = Some (THold se h) -> mkEntry (Some h) (Live se) ∈ entries s;
  i_sess : forall t p se, tasks s !! t = Some p -> session_of p = Some se -> (se < fresh s)%nat;
  i_sess_inj : forall t t' p p' se, tasks s !! t = Some p -> tasks s !! t' = Some p' ->
    session_of p = Some se -> session_of p' = Some se -> t = t';
  i_out : forall t p h, tasks s !! t = Some p -> h ∈ out p ->
    (h ∉ handles (entries s)) /\ (h < fresh s)%nat;
  i_out_inj : forall t t' p p' h, tasks s !! t = Some p -> tasks s !! t' = Some p' ->
    h ∈ out p -> h ∈ out p' -> t = t';
  i_promote : forall t r h, tasks s !! t = Some (TPromote r h) -> h ∈ alive s;
  i_panic : forall t, tasks s !! t <> Some TPanicked
}.

Lemma pool_init_inv cap : pool_inv cap pool_init.
Proof.
  constructor; simpl; try done; try (intros *; by rewrite lookup_empty); try constructor; try lia.
  all: try (intros ? ?%elem_of_nil; done); set_solver.
Qed.

(** Task [t] moves to [p'] while the entries, the live sandboxes and the fresh
    counter change: what has to be checked. *)
Lemma inv_update cap s t p' l ws ps al n :
  pool_inv cap s ->
  (length l <= cap)%nat -> Forall entry_wf l -> NoDup (handles l) ->
  (forall h, h ∈ handles l -> h ∈ al) -> (forall h, h ∈ al -> (h < n)%nat) -> (fresh s <= n)%nat ->
  (forall t' se h, t' <> t -> tasks s !! t' = Some (THold se h) -> mkEntry (Some h) (Live se) ∈ l) ->
  (forall se h, p' = THold se h -> mkEntry (Some h) (Live se) ∈ l) ->
  (forall se, session_of p' = Some se -> (se < n)%nat /\
     forall t' p, t' <> t -> tasks s !! t' = Some p -> session_of p <> Some se) ->
  (forall h, h ∈ out p' -> (h ∉ handles l) /\ (h < n)%nat /\
     forall t' p, t' <> t -> tasks s !! t' = Some p -> h ∉ out p) ->
  (forall t' p h, t' <> t -> tasks s !! t' = Some p -> h ∈ out p -> h ∉ handles l) ->
  (forall t' r h, t' <> t -> tasks s !! t' = Some (TPromote r h) -> h ∈ al) ->
  (forall r h, p' = TPromote r h -> h ∈ al) ->
  p' <> TPanicked ->
  pool_inv cap (mkPool l ws ps (<[t := p']> (tasks s)) al n).
Proof.
  intros Hinv Hcap Hwf Hnd Hal Hfr Hn Hhold Hhold' Hsess Hout Hout' Hpr Hpr' Hpanic.
  constructor; simpl; auto.
  - intros t' se h. destruct (decide (t' = t)) as [->|Hne]; [rewrite lookup_insert_eq; intros [= ->]; auto|].
    rewrite lookup_insert_ne by done. eauto.
  - intros t' p se. destruct (decide (t' = t)) as [->|Hne].
    + rewrite lookup_insert_eq. intros [= <-] Hs. by apply Hsess.
    + rewrite lookup_insert_ne by done. intros Hp Hs. pose proof (i_sess _ _ Hinv _ _ _ Hp Hs). lia.
  - intros t1 t2 p1 p2 se. destruct (decide (t1 = t)) as [->|N1], (decide (t2 = t)) as [->|N2];
      rewrite ?lookup_insert_eq, ?lookup_insert_ne by done; [done| | |].
    + intros [= <-] Hp2 H1 H2. by destruct (Hsess se H1) as [_ Hx]; destruct (Hx t2 p2).
    + intros Hp1 [= <-] H1 H2. by destruct (Hsess se H2) as [_ Hx]; destruct (Hx t1 p1).
    + apply (i_sess_inj _ _ Hinv).
  - intros t' p h. destruct (decide (t' = t)) as [->|Hne].
    + rewrite lookup_insert_eq. intros [= <-] Hh. destruct (Hout h Hh) as (? & ? & _). done.
    + rewrite lookup_insert_ne by done. intros Hp Hh. split; [eauto|].
      pose proof (proj2 (i_out _ _ Hinv _ _ _ Hp Hh)). lia.
  - intros t1 t2 p1 p2 h. destruct (decide (t1 = t)) as [->|N1], (decide (t2 = t)) as [->|N2];
      rewrite ?lookup_insert_eq, ?lookup_insert_ne by done; [done| | |].
    + intros [= <-] Hp2 H1 H2. destruct (Hout h H1) as (_ & _ & Hx). by destruct (Hx t2 p2).
    + intros Hp1 [= <-] H1 H2. destruct (Hout h H2) as (_ & _ & Hx). by destruct (Hx t1 p1).
    + apply (i_out_inj _ _ Hinv).
  - intros t' r h. destruct (decide (t' = t)) as [->|Hne]; [rewrite lookup_insert_eq; intros [= ->]; eauto|].
    rewrite lookup_insert_ne by done. eauto.
  - intros t'. destruct (decide (t' = t)) as [->|Hne]; [rewrite lookup_insert_eq; congruence|].
    rewrite lookup_insert_ne by done. apply (i_panic _ _ Hinv).
Qed.

(** A task that ends up neither holding, promoting nor panicked. *)
Definition plain (p : task) : Prop :=
  match p with THold _ _ | TPromote _ _ | TPanicked => False | _ => True end.

Lemma inv_set_task cap s t p p' ws ps :
  pool_inv cap s -> tasks s !! t = Some p -> plain p' ->
  (forall h, h ∈ out p' -> h ∈ out p) ->
  (forall se, session_of p' = Some se -> session_of p = Some se) ->
  pool_inv cap (mkPool (entries s) ws ps (<[t := p']> (tasks s)) (alive s) (fresh s)).
Proof.
  intros Hinv Ht Hpl Hout Hs. eapply inv_update; try apply Hinv; try done; eauto using i_hold, i_out, i_promote.
  - by intros se h ->.
  - intros se Hse. split; [by eapply i_sess; eauto|]. intros t' q Hne Hq Hq'.
    apply Hne. by eapply i_sess_inj; eauto.
  - intros h Hh. destruct (i_out _ _ Hinv _ _ _ Ht (Hout h Hh)) as [? ?]. split_and!; [done..|].
    intros t' q Hne Hq Hq'. apply Hne. by eapply i_out_inj; eauto.
  - intros t' q h Hne Hq Hh. by eapply i_out; eauto.
  - by intros r h ->.
  - by intros ->.
Qed.

(** Tearing down a handle the task is responsible for. *)
Lemma inv_teardown cap s t p p' h :
  pool_inv cap s -> tasks s !! t = Some p -> plain p' -> h ∈ out p ->
  (forall h', h' ∈ out p' -> h' ∈ out p) -> session_of p' = None ->
  pool_inv cap (mkPool (entries s) (waiters s) (permits s) (<[t := p']> (tasks s)) (alive s ∖ {[h]}) (fresh s)).
Proof.
  intros Hinv Ht Hpl Hh Hout Hs. destruct (i_out _ _ Hinv _ _ _ Ht Hh) as [Hnot Hlt].
  eapply inv_update; try apply Hinv; try done; eauto using i_hold.
  - intros h' Hh'. apply (i_alive _ _ Hinv) in Hh' as Ha. apply elem_of_difference. split; [done|].
    intros ->%elem_of_singleton. done.
  - intros h' [Ha _]%elem_of_difference. by apply (i_fresh _ _ Hinv).
  - by intros se h' ->.
  - by intros se; rewrite Hs.
  - intros h' Hh'. destruct (i_out _ _ Hinv _ _ _ Ht (Hout h' Hh')) as [? ?]. split_and!; [done..|].
    intros t' q Hne Hq Hq'. apply Hne. by eapply i_out_inj; eauto.
  - intros t' q h' Hne Hq Hq'. by eapply i_out; eauto.
  - intros t' r h' Hne Hq. apply elem_of_difference. split; [by eapply i_promote; eauto|].
    intros ->%elem_of_singleton. apply Hne. eapply i_out_inj; eauto. simpl. constructor.
  - by intros r h' ->.
  - by intros ->.
Qed.

(** The order of the entries does not matter to the invariant. *)
Lemma inv_perm cap s l :
  pool_inv cap s -> entries s ≡ₚ l ->
  pool_inv cap (mkPool l (waiters s) (permits s) (tasks s) (alive s) (fresh s)).
Proof.
  intros Hinv Hp. destruct Hinv as [Hc Hw Hn Ha Hf Hh Hs Hsi Ho Hoi Hpr Hpa].
  constructor; simpl; auto.
  - by rewrite <-Hp.
  - by rewrite <-Hp.
  - by rewrite <-Hp.
  - intros h. rewrite <-Hp. auto.
  - intros t se h Ht. rewrite <-Hp. eauto.
  - intros t p h Ht Hh'. rewrite <-Hp. eauto.
Qed.

Lemma elem_of_handles h l : h ∈ handles l <-> exists e, e ∈ l /\ pe_handle e = Some h.
Proof. unfold handles. rewrite list_elem_of_omap. split; intros (e & ? & ?); by exists e. Qed.

(** Every handle of an entry is fresh-bounded and no task's out handle. *)
Lemma entry_handle_facts cap s h :
  pool_inv cap s -> h ∈ handles (entries s) ->
  (h < fresh s)%nat /\ forall t p, tasks s !! t = Some p -> h ∉ out p.
Proof.
  intros Hinv Hh. split; [by apply (i_fresh _ _ Hinv), (i_alive _ _ Hinv)|].
  intros t p Hp Ho. by destruct (i_out _ _ Hinv _ _ _ Hp Ho).
Qed.

Lemma sess_fresh_distinct cap s t p :
  pool_inv cap s -> tasks s !! t = Some p -> session_of p <> Some (fresh s).
Proof. intros Hinv Hp Hs. pose proof (i_sess _ _ Hinv _ _ _ Hp Hs). lia. Qed.

(** Task [t] takes an entry over: entry [i] becomes live with handle [h] under
    a fresh session. *)
Lemma inv_acquire cap s t i e h :
  pool_inv cap s -> entries s !! i = Some e ->
  (pe_state e = Idle \/ exists r, pe_state e = Reserving r) ->
  (pe_handle e = Some h \/ pe_handle e = None /\ (h ∈ alive s) /\ (h ∉ handles (entries s)) /\
     forall t' p, t' <> t -> tasks s !! t' = Some p -> h ∉ out p) ->
  pool_inv cap (mkPool (<[i := mkEntry (Some h) (Live (fresh s))]> (entries s)) (waiters s) (permits s)
                  (<[t := THold (fresh s) h]> (tasks s)) (alive s) (S (fresh s))).
Proof.
  intros Hinv Hi Hst Hh. destruct (insert_perm _ _ _ (mkEntry (Some h) (Live (fresh s))) Hi) as (k & Hk & Hk').
  assert (Hin : forall x, x ∈ handles (<[i := mkEntry (Some h) (Live (fresh s))]> (entries s)) <->
                          x = h \/ x ∈ handles (entries s)).
  { intros x. rewrite Hk', Hk. unfold handles. simpl. destruct Hh as [->|(-> & _)]; rewrite ?elem_of_cons; tauto. }
  assert (Hhal : h ∈ alive s).
  { destruct Hh as [He|(_ & ? & _)]; [|done]. apply (i_alive _ _ Hinv), elem_of_handles.
    exists e. split; [by eapply list_elem_of_lookup_2|done]. }
  assert (Hout : forall t' p x, t' <> t -> tasks s !! t' = Some p -> x ∈ out p ->
                   x ∉ handles (<[i := mkEntry (Some h) (Live (fresh s))]> (entries s))).
  { intros t' p x Hne Hp Hx. rewrite Hin. intros [->|Hx']; [|by eapply i_out; eauto].
    destruct Hh as [He|(_ & _ & _ & Ho)]; [|by apply (Ho t' p)].
    apply (i_out _ _ Hinv _ _ _ Hp Hx). apply elem_of_handles. exists e.
    split; [by eapply list_elem_of_lookup_2|done]. }
  eapply inv_update; try exact Hinv; try done; eauto using i_promote.
  - rewrite length_insert. apply Hinv.
  - rewrite Hk'. pose proof (i_wf _ _ Hinv) as Hwf. rewrite Hk in Hwf. inversion Hwf; subst.
    constructor; [by eexists|done].
  - pose proof (i_nodup _ _ Hinv) as Hnd. rewrite Hk'. rewrite Hk in Hnd. unfold handles in *. simpl in *.
    destruct Hh as [He|(He & _ & Hn & _)]; rewrite He in Hnd; [done|].
    constructor; [|done]. intros Hx. apply Hn. rewrite Hk. unfold handles. simpl. by rewrite He.
  - intros x [->|Hx]%Hin; [done|by apply (i_alive _ _ Hinv)].
  - intros x Hx. apply (i_fresh _ _ Hinv) in Hx. lia.
  - intros t' se x Hne Hp. apply (i_hold _ _ Hinv) in Hp. rewrite Hk in Hp. rewrite Hk'.
    apply elem_of_cons in Hp as [<-|Hp]; [|by constructor]. destruct Hst as [?|[r ?]]; done.
  - intros se x [= <- <-]. rewrite Hk'. constructor.
  - intros se [= <-]. split; [lia|]. intros. by eapply sess_fresh_distinct.
  - intros x Hx. by apply elem_of_nil in Hx.
Qed.

(** Task [t] drops entries; what it is left responsible for was in them or was
    already its own. *)
Lemma inv_shrink cap s t p p' l removed ws ps :
  pool_inv cap s -> tasks s !! t = Some p -> plain p' -> session_of p' = None ->
  entries s ≡ₚ removed ++ l ->
  (forall t' se h, t' <> t -> tasks s !! t' = Some (THold se h) -> mkEntry (Some h) (Live se) ∉ removed) ->
  (forall h, h ∈ out p' -> h ∈ handles removed \/ h ∈ out p) ->
  pool_inv cap (mkPool l ws ps (<[t := p']> (tasks s)) (alive s) (fresh s)).
Proof.
  intros Hinv Ht Hpl Hs Hp Hkeep Hout.
  assert (Hsub : forall h, h ∈ handles l -> h ∈ handles (entries s))
    by (intros h; rewrite Hp, handles_app, elem_of_app; by right).
  pose proof (i_nodup _ _ Hinv) as Hnd. rewrite Hp, handles_app in Hnd.
  apply NoDup_app in Hnd as (_ & Hdisj & Hnd).
  eapply inv_update; try exact Hinv; try done; eauto using i_promote, i_fresh, i_alive.
  - etrans; [|apply (i_cap _ _ Hinv)]. rewrite Hp, length_app. lia.
  - pose proof (i_wf _ _ Hinv) as Hwf. rewrite Hp in Hwf. by apply Forall_app in Hwf as [_ ?].
  - intros t' se h Hne Hq. pose proof (i_hold _ _ Hinv _ _ _ Hq) as Hin.
    rewrite Hp in Hin. apply elem_of_app in Hin as [Hin|Hin]; [|done]. by destruct (Hkeep _ _ _ Hne Hq).
  - by intros se h ->.
  - by intros se; rewrite Hs.
  - intros h Hh. destruct (Hout h Hh) as [Hr|Ho].
    + assert (He : h ∈ handles (entries s)) by (rewrite Hp, handles_app, elem_of_app; by left).
      destruct (entry_handle_facts _ _ _ Hinv He) as [? Hno]. split_and!; eauto.
    + destruct (i_out _ _ Hinv _ _ _ Ht Ho) as [Hno ?]. split_and!; [by intros ?%Hsub|done|].
      intros t' q Hne Hq Hq'. apply Hne. by eapply i_out_inj; eauto.
  - intros t' q h Hne Hq Hh Hl. by eapply i_out; eauto.
  - by intros r h ->.
  - by intros ->.
Qed.

Lemma filter_split {A} (p : A -> bool) (l : list A) :
  l ≡ₚ List.filter p l ++ List.filter (fun x => negb (p x)) l.
Proof.
  induction l as [|x l IH]; simpl; [done|]. destruct (p x); simpl; [by rewrite <-IH|].
  rewrite IH at 1. apply Permutation_middle.
Qed.

Lemma inv_checkout_round cap expired t s :
  pool_inv cap s -> tasks s !! t = Some TLoop -> pool_inv cap (checkout_round cap expired t s).
Proof.
  intros Hinv Ht. unfold checkout_round.
  destruct (sweep _ _ _ _ _) as [kept hs] eqn:Hsw. apply sweep_spec in Hsw as (rem & Hp & Hidle & ->).
  cbn [app]. destruct (handles rem) as [|h0 hs0] eqn:Hrem.
  - (* nothing expired: every idle entry carries a handle, so nothing was removed *)
    assert (rem = []) as ->.
    { destruct rem as [|e rem]; [done|]. exfalso. inversion Hidle; subst.
      pose proof (i_wf _ _ Hinv) as Hwf. rewrite Hp in Hwf. inversion Hwf as [|? ? He _]; subst.
      unfold entry_wf, is_idle in *. destruct (pe_state e); try done. destruct He as [h He].
      unfold handles in Hrem. simpl in Hrem. by rewrite He in Hrem. }
    apply (inv_perm _ _ kept) in Hinv; [|done]. set (s1 := mkPool kept _ _ _ _ _) in *.
    destruct (idle_index kept ≫= _) as [[i e]|] eqn:Hidx.
    + apply bind_Some in Hidx as (j & Hj & Hx). apply fmap_Some in Hx as (e' & He & [= <- <-]).
      apply position_spec in Hj as (e' & He' & Hid). assert (e' = e) as -> by congruence.
      pose proof (proj1 (Forall_lookup _ _) (i_wf _ _ Hinv) i e He') as Hwf.
      unfold is_idle in Hid. unfold entry_wf in Hwf. destruct (pe_state e) eqn:Hst; try done.
      destruct Hwf as [h Hh]. rewrite Hh.
      apply (inv_acquire cap s1 t i e h); auto.
    + destruct (Nat.ltb_spec (count_active kept) cap) as [Hlt|Hge].
      * eapply (inv_update cap s1 t (TBoot (fresh s))); try exact Hinv; try done; eauto using i_promote.
        -- simpl. rewrite length_app. unfold count_active in Hlt. simpl. lia.
        -- apply Forall_app. split; [apply (i_wf _ _ Hinv)|]. by repeat constructor.
        -- rewrite handles_app, app_nil_r. apply (i_nodup _ _ Hinv).
        -- rewrite handles_app, app_nil_r. apply (i_alive _ _ Hinv).
        -- intros h Hh. apply (i_fresh _ _ Hinv) in Hh. simpl in *. lia.
        -- intros t' se h _ Hq. apply elem_of_app. left. by apply (i_hold _ _ Hinv) in Hq.
        -- intros h Hh. by apply elem_of_nil in Hh.
        -- intros t' q h _ Hq Hh. rewrite handles_app, app_nil_r. by eapply (i_out _ _ Hinv); eauto.
        -- intros t' r h _ Hq. by apply (i_promote _ _ Hinv) in Hq.
      * eapply (inv_update cap s1 t (TWait (fresh s))); try exact Hinv; try apply Hinv; try done;
          eauto using i_promote, i_hold.
        -- intros h Hh. apply (i_fresh _ _ Hinv) in Hh. simpl in *. lia.
        -- intros t' se h _ Hq. by apply (i_hold _ _ Hinv) in Hq.
        -- intros h Hh. by apply elem_of_nil in Hh.
        -- intros t' q h _ Hq Hh. by eapply (i_out _ _ Hinv); eauto.
        -- intros t' r h _ Hq. by apply (i_promote _ _ Hinv) in Hq.
  - destruct (notify_one_waiter _ _) as [ws ps].
    eapply (inv_shrink cap s t TLoop _ kept rem); try done.
    + intros t' se h _ _ Hin. rewrite Forall_forall in Hidle. by apply Hidle in Hin.
    + intros h Hh. left. by rewrite Hrem.
Qed.

Lemma inv_release cap t se d s :
  pool_inv cap s -> tasks s !! t = Some (TRelease se d) -> pool_inv cap (release t se d s).
Proof.
  intros Hinv Ht. unfold release.
  destruct (position _ _ ≫= _) as [[i e]|] eqn:Hpos; [|by eapply inv_set_task; eauto].
  apply bind_Some in Hpos as (j & Hj & Hx). apply fmap_Some in Hx as (e' & He & [= <- <-]).
  apply position_spec in Hj as (e2 & He2 & Hlive). assert (e = e2) as -> by congruence.
  apply bool_decide_eq_true in Hlive.
  pose proof (proj1 (Forall_lookup _ _) (i_wf _ _ Hinv) i e2 He2) as Hwf. unfold entry_wf in Hwf.
  rewrite Hlive in Hwf. destruct Hwf as [h Hh].
  assert (Hother : forall t' se' h', t' <> t -> tasks s !! t' = Some (THold se' h') ->
                     mkEntry (Some h') (Live se') <> e2).
  { intros t' se' h' Hne Hq <-. simpl in Hlive. simplify_eq. apply Hne.
    by eapply (i_sess_inj _ _ Hinv); eauto. }
  destruct (notify_one_waiter _ _) as [ws ps]. destruct d.
  - destruct (insert_perm _ _ _ (mkEntry (pe_handle e2) Idle) He2) as (k & Hk & Hk').
    assert (Hsame : handles (<[i := mkEntry (pe_handle e2) Idle]> (entries s)) ≡ₚ handles (entries s)).
    { rewrite Hk', Hk. unfold handles. simpl. by rewrite Hh. }
    eapply inv_update; try exact Hinv; try done; eauto using i_promote, i_fresh.
    + rewrite length_insert. apply Hinv.
    + rewrite Hk'. pose proof (i_wf _ _ Hinv) as Hw. rewrite Hk in Hw. inversion Hw; subst.
      constructor; [by eexists|done].
    + rewrite Hsame. apply Hinv.
    + intros x. rewrite Hsame. apply (i_alive _ _ Hinv).
    + intros t' se' h' Hne Hq. pose proof (i_hold _ _ Hinv _ _ _ Hq) as Hin. rewrite Hk in Hin. rewrite Hk'.
      apply elem_of_cons in Hin as [Heq|Hin]; [|by constructor]. by destruct (Hother _ _ _ Hne Hq).
    + intros x Hx. by apply elem_of_nil in Hx.
    + intros t' q x _ Hq Hx. rewrite Hsame. by eapply (i_out _ _ Hinv); eauto.
  - rewrite Hh. eapply (inv_shrink cap s t _ _ _ [e2]); try done.
    + by apply swap_remove_perm.
    + intros t' se' h' Hne Hq Hin%list_elem_of_singleton. by destruct (Hother _ _ _ Hne Hq).
    + intros x Hx. left. unfold handles. simpl. by rewrite Hh.
Qed.

Lemma inv_drop_reservation cap t r ho s :
  pool_inv cap s -> tasks s !! t = Some (TDropReservation r ho) ->
  pool_inv cap (drop_reservation t r ho s).
Proof.
  intros Hinv Ht. unfold drop_reservation. destruct (notify_one_waiter _ _) as [ws ps].
  eapply (inv_shrink cap s t _ _ _ (List.filter (is_reserving_of r) (entries s))); try done.
  - by destruct ho.
  - by destruct ho.
  - apply filter_split.
  - intros t' se h _ _ Hin. apply list_elem_of_In, List.filter_In in Hin as [_ Hin].
    by apply bool_decide_eq_true in Hin.
  - intros h Hh. right. by destruct ho.
Qed.

Lemma inv_promote_step cap t r h s :
  pool_inv cap s -> tasks s !! t = Some (TPromote r h) -> pool_inv cap (promote t r h s).
Proof.
  intros Hinv Ht. unfold promote. destruct (position _ _) as [i|] eqn:Hpos; [|by eapply inv_set_task; eauto].
  apply position_spec in Hpos as (e & He & Hres). apply bool_decide_eq_true in Hres.
  apply (inv_acquire cap s t i e h); eauto. right.
  pose proof (proj1 (Forall_lookup _ _) (i_wf _ _ Hinv) i e He) as Hwf. unfold entry_wf in Hwf.
  rewrite Hres in Hwf.
  assert (Hh : h ∈ out (TPromote r h)) by constructor.
  destruct (i_out _ _ Hinv _ _ _ Ht Hh) as [Hn _]. split_and!; [done|by eapply i_promote; eauto|done|].
  intros t' p Hne Hp Hx. apply Hne. by eapply (i_out_inj _ _ Hinv); eauto.
Qed.

(** The provider returned a new sandbox for a reservation. *)
Lemma inv_boot cap t r s :
  pool_inv cap s -> tasks s !! t = Some (TBoot r) ->
  pool_inv cap (mkPool (entries s) (waiters s) (permits s) (<[t := TPromote r (fresh s)]> (tasks s))
                  ({[fresh s]} ∪ alive s) (S (fresh s))).
Proof.
  intros Hinv Ht.
  eapply inv_update; try exact Hinv; try apply Hinv; try done; eauto using i_hold.
  - intros h Hh. apply elem_of_union_r. by apply (i_alive _ _ Hinv).
  - intros h [->%elem_of_singleton|Hh]%elem_of_union; [lia|]. apply (i_fresh _ _ Hinv) in Hh. lia.
  - intros h ->%list_elem_of_singleton. split_and!; [|lia|].
    + intros Hh. apply (entry_handle_facts _ _ _ Hinv) in Hh as [? _]. lia.
    + intros t' p _ Hp Hh. pose proof (proj2 (i_out _ _ Hinv _ _ _ Hp Hh)). lia.
  - intros t' p h _ Hp Hh. by eapply (i_out _ _ Hinv); eauto.
  - intros t' r' h _ Hp. apply elem_of_union_r. by eapply i_promote.
  - intros r' h [= _ <-]. set_solver.
Qed.

(** Closes a step that only moves a task to a plain place. *)
Ltac move_task := eapply inv_set_task; eauto; try done; try (by intros ? ?%elem_of_nil).

Lemma task_step_inv cap c t s s' :
  pool_inv cap s -> task_step cap c t s = Some s' -> pool_inv cap s'.
Proof.
  intros Hinv [p [Ht Hs]]%bind_Some.
  destruct (ch_dropped c && droppable p) eqn:Hd.
  { injection Hs as <-. by move_task. }
  destruct p as [|[|h hs]|r|r h|w|w|se h|se d|r h|h| | |]; try done.
  - injection Hs as <-. by apply inv_checkout_round.
  - injection Hs as <-. by move_task.
  - injection Hs as <-. eapply inv_teardown; eauto; try done; [constructor|]. intros. by constructor.
  - destruct (ch_boot_ok c); injection Hs as <-; [by apply inv_boot|by move_task].
  - destruct (ch_dropped c); injection Hs as <-; [by move_task|by apply inv_promote_step].
  - case_bool_decide; injection Hs as <-; by move_task.
  - injection Hs as <-. by move_task.
  - injection Hs as <-. by move_task.
  - injection Hs as <-. by apply inv_release.
  - injection Hs as <-. by apply inv_drop_reservation.
  - injection Hs as <-. eapply inv_teardown; eauto; try done; [constructor|]. by intros ? ?%elem_of_nil.
Qed.

Lemma step_inv cap s s' : pool_inv cap s -> step cap s s' -> pool_inv cap s'.
Proof.
  intros Hinv Hst. revert Hinv. destruct Hst as [t s Ht|t c s s1 Hs|t w s Ht]; intros Hinv.
  - eapply inv_update; try exact Hinv; try apply Hinv; try done; eauto using i_hold, i_promote.
    + by intros h ?%elem_of_nil.
    + intros t' p h _ Hp Hh. by eapply (i_out _ _ Hinv); eauto.
  - by eapply task_step_inv.
  - by move_task.
Qed.

Lemma pool_reachable_inv cap s : rtc (step cap) pool_init s -> pool_inv cap s.
Proof.
  refine (rtc_ind_r (pool_inv cap) pool_init _ _ s); [apply pool_init_inv|].
  intros s1 s2 _ Hstep Hinv. by eapply step_inv.
Qed.

(** ** Scripts *)

Inductive event :=
| EvCheckout (t : nat)
| EvTask (t : nat) (c : choice).

Definition exec (cap : nat) (e : event) (s : pool) : option pool :=
  match e with
  | EvCheckout t => match tasks s !! t with None => Some (set_task s t TLoop) | Some _ => None end
  | EvTask t c => task_step cap c t s
  end.

Fixpoint run (cap : nat) (es : list event) (s : pool) : option pool :=
  match es with [] => Some s | e :: r => exec cap e s ≫= run cap r end.

Lemma run_steps cap es s s' : run cap es s = Some s' -> rtc (step cap) s s'.
Proof.
  revert s. induction es as [|e es IH]; intros s; simpl; [by intros [= ->]|].
  intros (s1 & He & Hr)%bind_Some. eapply rtc_l; [|by apply IH].
  destruct e as [t|t c]; simpl in He; [|by eapply step_task].
  destruct (tasks s !! t) eqn:Ht; [done|]. injection He as <-. by apply step_checkout.
Qed.

(** Everything goes well, the sandbox is returned; the future is dropped. *)
Definition go : choice := mkChoice (fun _ => false) true false ReturnIdle.
Definition cancelled : choice := mkChoice (fun _ => false) true true ReturnIdle.

(** Steps of the tasks that are already there. *)
Definition internal (cap : nat) (s s' : pool) : Prop :=
  (exists t c, task_step cap c t s = Some s') \/
  (exists t w, tasks s !! t = Some (TWait w) /\ s' = set_task s t (TCancelWait w)).

(** Waiting with the permit slot [w], or over without a sandbox. *)
Definition waiting_out (w : nat) (p : task) : Prop :=
  match p with TWait w' | TCancelWait w' => w' = w | TExhausted | TDone => True | _ => False end.

(** Task [t] waits for a permit nobody is left to give. *)
Definition starved (t w : nat) (s : pool) : Prop :=
  (w ∉ permits s) /\ (forall t' p, tasks s !! t' = Some p -> t' = t \/ p = TDone) /\
  exists p, tasks s !! t = Some p /\ waiting_out w p.

Lemma starved_set_task t w s p ws :
  starved t w s -> waiting_out w p ->
  starved t w (mkPool (entries s) ws (permits s) (<[t := p]> (tasks s)) (alive s) (fresh s)).
Proof.
  intros (Hw & Hall & _) Hp. split_and!; simpl; [done| |].
  - intros t' q. destruct (decide (t' = t)) as [->|Hne]; [by left|].
    rewrite lookup_insert_ne by done. apply Hall.
  - exists p. by rewrite lookup_insert_eq.
Qed.

Lemma starved_internal cap t w s s' : starved t w s -> internal cap s s' -> starved t w s'.
Proof.
  intros Hst Hstep. pose proof Hst as (Hw & Hall & p & Ht & Hwo).
  destruct Hstep as [(t' & c & (q & Hq & Hs)%bind_Some)|(t' & w' & Hq & ->)].
  - destruct (Hall _ _ Hq) as [-> | ->]; [|by rewrite andb_false_r in Hs].
    assert (q = p) as -> by congruence.
    destruct p; simpl in Hwo; subst; try done; simpl in Hs; rewrite ?andb_true_r, ?andb_false_r in Hs; try done.
    + rewrite bool_decide_eq_false_2 in Hs by done.
      destruct (ch_dropped c); injection Hs as <-; by apply starved_set_task.
    + destruct (ch_dropped c); injection Hs as <-; by apply starved_set_task.
  - destruct (Hall _ _ Hq) as [->|?]; [|done]. assert (p = TWait w') as -> by congruence.
    simpl in Hwo. subst. by apply starved_set_task.
Qed.

Lemma holders_bounded cap s (ts : list nat) :
  pool_inv cap s -> NoDup ts ->
  (forall t, t ∈ ts -> exists se h, tasks s !! t = Some (THold se h)) -> (length ts <= cap)%nat.
Proof.
  intros Hinv Hnd Hts. etrans; [|apply (i_cap _ _ Hinv)].
  set (f t := match tasks s !! t with Some (THold se h) => mkEntry (Some h) (Live se) | _ => mkEntry None Idle end).
  rewrite <-(length_fmap f). apply submseteq_length, NoDup_submseteq.
  - apply NoDup_fmap_2_strong; [|done]. intros t1 t2 H1 H2. unfold f.
    destruct (Hts _ H1) as (se1 & h1 & E1), (Hts _ H2) as (se2 & h2 & E2).
    rewrite E1, E2. intros [= <- <-]. by eapply (i_sess_inj _ _ Hinv); eauto.
  - intros e (t & -> & Ht)%list_elem_of_fmap. destruct (Hts _ Ht) as (se & h & E).
    unfold f. rewrite E. by eapply i_hold.
Qed.

Lemma holders_disjoint cap s t t' se se' h :
  pool_inv cap s -> tasks s !! t = Some (THold se h) -> tasks s !! t' = Some (THold se' h) -> t = t'.
Proof.
  intros Hinv Ht Ht'. pose proof (i_hold _ _ Hinv _ _ _ Ht) as H1.
  pose proof (i_hold _ _ Hinv _ _ _ Ht') as H2. pose proof (i_nodup _ _ Hinv) as Hnd.
  assert (Heq : mkEntry (Some h) (Live se) = mkEntry (Some h) (Live se')).
  { apply list_elem_of_lookup in H1 as [i Hi], H2 as [j Hj].
    destruct (decide (i = j)) as [->|Hne]; [congruence|]. exfalso.
    rewrite <-(take_drop_middle _ _ _ Hi), handles_app in Hnd. simpl in Hnd.
    apply NoDup_app in Hnd as (_ & Hd & Hnd). inversion Hnd as [|? ? Hnot _]; subst.
    destruct (decide (j < i)%nat).
    - apply (Hd h); [|constructor]. apply elem_of_handles. exists (mkEntry (Some h) (Live se')).
      split; [|done]. apply (list_elem_of_lookup_2 _ j). by rewrite lookup_take_lt by done.
    - apply Hnot. apply elem_of_handles. exists (mkEntry (Some h) (Live se')). split; [|done].
      apply (list_elem_of_lookup_2 _ (j - S i)). rewrite lookup_drop. by replace (S i + (j - S i))%nat with j by lia. }
  injection Heq as <-. by eapply (i_sess_inj _ _ Hinv); eauto.
Qed.

(** ** The promises *)

(** C3: Whatever the interleaving of checkouts, boots, failures, cancellations,
    time-outs and releases, a key's pool never exceeds its configured cap: at
    most [max default_pool_max 1] entries exist and at most that many tasks
    own a sandbox at once; two tasks never own the same sandbox; an owned
    sandbox has not been torn down; and none of the [expect]s on an entry's
    handle ever fails. *)
Theorem pool_safety default_pool_max s :
  rtc (step (effective_cap default_pool_max)) pool_init s ->
  (length (entries s) <= effective_cap default_pool_max)%nat /\
  (forall ts, NoDup ts -> (forall t, t ∈ ts -> exists se h, tasks s !! t = Some (THold se h)) ->
     (length ts <= effective_cap default_pool_max)%nat) /\
  (forall t t' se se' h, tasks s !! t = Some (THold se h) -> tasks s !! t' = Some (THold se' h) -> t = t') /\
  (forall t se h, tasks s !! t = Some (THold se h) -> h ∈ alive s) /\
  (forall t, tasks s !! t <> Some TPanicked).
Proof.
  intros Hinv%pool_reachable_inv. split_and!.
  - apply Hinv.
  - intros ts. by apply holders_bounded.
  - intros *. by apply (holders_disjoint _ _ _ _ _ _ _ Hinv).
  - intros t se h Ht%(i_hold _ _ Hinv). apply (i_alive _ _ Hinv), elem_of_handles. eauto.
  - apply Hinv.
Qed.

(** Task 0 boots a sandbox in a pool of one, tasks 1 and 2 park. *)
Definition two_parked : list event :=
  [EvCheckout 0; EvTask 0 go; EvTask 0 go; EvTask 0 go;
   EvCheckout 1; EvTask 1 go; EvCheckout 2; EvTask 2 go].

(** The pool of one after [two_parked]: one live entry, two waiters. *)
Lemma pool_safety_witness :
  exists s, run 1 two_parked pool_init = Some s /\ waiters s = [3; 4]%nat /\
    entries s = [mkEntry (Some 1) (Live 2)]%nat /\ (length (entries s) <= 1)%nat.
Proof.
  destruct (run 1 two_parked pool_init) as [s|] eqn:E; [|by vm_compute in E].
  exists s. split; [done|]. pose proof E as E'. vm_compute in E'. injection E' as E'.
  split_and!; [by rewrite <-E'..|].
  apply (pool_safety 0 s), (run_steps _ two_parked), E.
Defined.

(** A wake-up can be lost.  Task 1's [checkout] future is dropped while
    parked; nothing removes its [Notify] from the queue, so when task 0 returns
    its sandbox the one notification goes to task 1 and task 2 stays parked
    next to an idle sandbox: however the pool's tasks proceed, task 2 never
    gets it and ends in [Exhausted] or cancelled unless another checkout
    comes by. *)
Theorem lost_wakeup :
  exists s, run 1 (two_parked ++ [EvTask 1 cancelled; EvTask 0 go; EvTask 0 go]) pool_init = Some s /\
    idle_index (entries s) = Some 0%nat /\ tasks s !! 2%nat = Some (TWait 4) /\
    forall s', rtc (internal 1) s s' -> exists p, tasks s' !! 2%nat = Some p /\ waiting_out 4 p.
Proof.
  eexists. split; [vm_compute; reflexivity|]. split; [reflexivity|]. split; [reflexivity|].
  intros s' Hr. match type of Hr with rtc _ ?s0 _ => assert (Hst : starved 2 4 s0) end.
  { split_and!; [by vm_compute| |by exists (TWait 4)].  refine (bool_decide_unpack (map_Forall (fun t' p => t' = 2%nat \/ p = TDone) _) _).
    by vm_compute. }
  clear -Hr Hst. induction Hr as [s|s1 s2 s3 Hs _ IH]; [by apply Hst|].
  apply IH. by eapply starved_internal.
Qed.
