(* ===== verification/EventDelivery.v ===== *)
(** * Host events: poll lineage, subscriptions and delivery

    [baml-rt-core/src/event_subscription.rs], [event_producer.rs],
    [dispatch.rs], [host_poll_lineage.rs], [event_delivery.rs] and
    [agent_routing/keys.rs]: how a produced event gets stable identifiers,
    which running agents subscribe to it, and the fan-out that delivers it.
    The dispatch port and the provenance recorder are arguments that act on a
    world of any type; an error is the text it displays as. *)

From stdpp Require Import base list strings.
From Stdlib Require Import ZArith Lia Ascii.
From S2P Require Import Prelude RustStr Json Ids.

Open Scope string_scope.

(** ** Stable identifiers ([host_poll_lineage.rs]) *)

Definition FNV_OFFSET_BASIS : Z := 0xcbf29ce484222325.
Definition FNV_PRIME : Z := 0x00000100000001B3.
Definition HASH_PART_SEPARATOR : Z := 0x1f.

Definition byte_z (a : ascii) : Z := Z.of_N (byte_of a).

Definition fnv_byte (digest b : Z) : Z := wrap64 (Z.lxor digest b * FNV_PRIME).

Fixpoint fnv_bytes (digest : Z) (s : string) : Z :=
  match s with
  | EmptyString => digest
  | String a r => fnv_bytes (fnv_byte digest (byte_z a)) r
  end.

Definition hash_digest_extend (digest : Z) (part : string) : Z :=
  fnv_byte (fnv_bytes digest part) HASH_PART_SEPARATOR.

Definition hash_digest (parts : list string) : Z :=
  fold_left hash_digest_extend parts FNV_OFFSET_BASIS.

Inductive StableIdLane := Upper | Lower.
Definition lane_as_str (l : StableIdLane) : string :=
  match l with Upper => "upper" | Lower => "lower" end.

Definition hash_digest_with_namespace (namespace : string) (lane : StableIdLane) (parts : list string) : Z :=
  fold_left hash_digest_extend parts (hash_digest [namespace; lane_as_str lane]).

Definition stable_id_parts (namespace : string) (parts : list string) : Z * Z :=
  (Z.max (hash_digest_with_namespace namespace Upper parts) 1,
   Z.max (hash_digest_with_namespace namespace Lower parts) 1).

(** [format!("{digest:016x}")]. *)
Definition hex_digit (d : Z) : ascii :=
  ascii_of_N (Z.to_N (if (d <? 10)%Z then 48 + d else 87 + d)).
Fixpoint hex_go (n : nat) (z : Z) (acc : string) : string :=
  match n with
  | O => acc
  | S n' => hex_go n' (z / 16) (String (hex_digit (z mod 16)) acc)
  end.
Definition hex16 (z : Z) : string := hex_go 16 z EmptyString.

Definition hash_event_id (prefix : string) (parts : list string) : string :=
  prefix +:+ "-" +:+ hex16 (hash_digest parts).

Definition stable_external_id (namespace : string) (parts : list string) : string :=
  hash_event_id namespace parts.

Definition poll_batch_message_id (source_key source_cursor : string) (source_message_ts : list string) : string :=
  let first_ts := default "" (head source_message_ts) in
  let last_ts := default "" (list.last source_message_ts) in
  hash_event_id "td-poll-batch"
    [source_key; source_cursor; first_ts; last_ts; show_nat (length source_message_ts)].

Record PollLineageSeed := mkSeed {
  seed_kind : string;
  seed_key : string;
  seed_cursor : option string;
  seed_ts : list string
}.

Definition CorrelationId := string.

Record HostPollLineage := mkLineage {
  hpl_context_id : ContextId;
  hpl_correlation_id : CorrelationId;
  hpl_cursor : option string;
  hpl_ts : list string;
  hpl_batch_id : string
}.

Definition CorrelationId_new (millis counter : Z) : CorrelationId :=
  TemporalId_into_string "corr" millis counter.

Definition mint_host_poll_lineage (seed : PollLineageSeed) : option HostPollLineage :=
  cursor ← seed_cursor seed;
  let parts := [seed_kind seed; seed_key seed; cursor] in
  let '(upper, lower) := stable_id_parts "td-external-context" parts in
  let '(corr_upper, corr_lower) := stable_id_parts "td-external-correlation" parts in
  Some (mkLineage (ContextId_new upper lower) (CorrelationId_new corr_upper corr_lower) (Some cursor)
          (seed_ts seed) (poll_batch_message_id (seed_key seed) cursor (seed_ts seed))).

(** The identifiers the repository's own test pins. *)
Example pinned_lineage :
  mint_host_poll_lineage
    (mkSeed "slack" "slack:C123" (Some "slack:1735689600.000000:1735689700.000000:2")
       ["1735689600.000000"; "1735689700.000000"])
  = Some (mkLineage "ctx-7548386120284784534-8799862099676914443"
            "corr-6129901457429418597-2178675600574945132"
            (Some "slack:1735689600.000000:1735689700.000000:2")
            ["1735689600.000000"; "1735689700.000000"] "td-poll-batch-0297d83c9ea13c63").
Proof. vm_compute. reflexivity. Qed.

(** ** Subscriptions ([event_subscription.rs]) *)

Definition EventSchemaVersion := string.
Definition EventSourceKind := string.
Definition EventSourceKey := string.
Definition EventSourceKeyPrefix := string.

Definition parse_trimmed (value : string) : option string :=
  let trimmed := trim value in if is_empty_str trimmed then None else Some trimmed.
Definition parse_lowercased (value : string) : option string :=
  let trimmed := trim value in if is_empty_str trimmed then None else Some (to_lowercase trimmed).

Definition EventSchemaVersion_parse : string -> option EventSchemaVersion := parse_trimmed.
Definition EventSourceKind_parse : string -> option EventSourceKind := parse_lowercased.
Definition EventSourceKey_parse : string -> option EventSourceKey := parse_trimmed.
Definition EventSourceKeyPrefix_parse : string -> option EventSourceKeyPrefix := parse_trimmed.

Definition collect_parsed (values : list string) (parse : string -> option string) : list string :=
  omap parse values.

Record EventSubscription := mkSubscription {
  schema_versions : list EventSchemaVersion;
  source_kinds : list EventSourceKind;
  source_keys : list EventSourceKey;
  source_key_prefixes : list EventSourceKeyPrefix
}.

Record EventSubscriptionFilter := mkFilter {
  required_schema_versions : list EventSchemaVersion;
  required_source_kinds : list EventSourceKind
}.

Record PublishedEvent := mkPublished {
  pe_schema : EventSchemaVersion;
  pe_kind : EventSourceKind;
  pe_key : EventSourceKey
}.

Inductive PublishedEventBuildError := EmptySchemaVersion | EmptySourceKind | EmptySourceKey.

Definition PublishedEvent_try_new (schema_version source_kind source_key : string)
    : result PublishedEvent PublishedEventBuildError :=
  let? s := ok_or (EventSchemaVersion_parse schema_version) EmptySchemaVersion in
  let? k := ok_or (EventSourceKind_parse source_kind) EmptySourceKind in
  let? y := ok_or (EventSourceKey_parse source_key) EmptySourceKey in
  Ok (mkPublished s k y).

Definition is_nil {A} (l : list A) : bool := match l with [] => true | _ => false end.
Definition mem (x : string) (l : list string) : bool := bool_decide (x ∈ l).

Definition is_unconstrained (s : EventSubscription) : bool :=
  is_nil (schema_versions s) && is_nil (source_kinds s) && is_nil (source_keys s) &&
  is_nil (source_key_prefixes s).

Definition matches_filter (s : EventSubscription) (f : EventSubscriptionFilter) : bool :=
  (is_nil (required_schema_versions f) ||
   existsb (fun x => mem x (required_schema_versions f)) (schema_versions s)) &&
  (is_nil (required_source_kinds f) ||
   existsb (fun x => mem x (required_source_kinds f)) (source_kinds s)).

Definition matches_published_event (s : EventSubscription) (e : PublishedEvent) : bool :=
  if is_unconstrained s then false
  else
    (is_nil (schema_versions s) || mem (pe_schema e) (schema_versions s)) &&
    (is_nil (source_kinds s) || mem (pe_kind e) (source_kinds s)) &&
    (is_nil (source_keys s) || mem (pe_key e) (source_keys s)) &&
    (is_nil (source_key_prefixes s) ||
     existsb (fun p => starts_with p (pe_key e)) (source_key_prefixes s)).

Definition EventSubscriptionFilter_new (schemas kinds : list string) : EventSubscriptionFilter :=
  mkFilter (collect_parsed schemas EventSchemaVersion_parse) (collect_parsed kinds EventSourceKind_parse).

Definition filter_is_empty (f : EventSubscriptionFilter) : bool :=
  is_nil (required_schema_versions f) && is_nil (required_source_kinds f).

Definition subscriptions_match_filter (subs : list EventSubscription) (f : EventSubscriptionFilter) : bool :=
  if filter_is_empty f then true else existsb (fun s => matches_filter s f) subs.

Definition subscriptions_match_published_event (subs : list EventSubscription) (e : PublishedEvent) : bool :=
  existsb (fun s => matches_published_event s e) subs.

(** ** Routes ([agent_routing/keys.rs], [agent_routing/discovery.rs]) *)

Definition AgentPackageName := string.
Definition AgentInstanceId := string.

Definition is_valid_identifier (value : string) : bool :=
  all_bytes (fun c => is_ascii_alphanumeric c || bool_decide (c = "-"%char) || bool_decide (c = "_"%char)) value.

(** [AgentPackageName::parse] and [AgentInstanceId::parse]. *)
Definition identifier_parse (raw : string) : option string :=
  if is_empty_str (trim raw) || negb (bool_decide (raw = trim raw)) || negb (is_valid_identifier raw)
  then None else Some raw.
Definition AgentPackageName_parse : string -> option AgentPackageName := identifier_parse.
Definition AgentInstanceId_parse : string -> option AgentInstanceId := identifier_parse.

Record AgentRouteKey := mkRoute { agent_package : AgentPackageName; agent_instance_id : AgentInstanceId }.

Definition route_key_from_request (request : json) : result AgentRouteKey string :=
  let? params := ok_or (jget "params" request ≫= as_object) "params must be an object" in
  let? meta := ok_or (field "metadata" params ≫= as_object) "params.metadata required for routing" in
  let? target := ok_or (field "target" meta ≫= as_object) "params.metadata.target required" in
  let? package := ok_or (field "agent_package" target ≫= as_str)
                    "params.metadata.target.agent_package required" in
  let instance := default "default" (field "agent_instance_id" target ≫= as_str) in
  let? p := ok_or (AgentPackageName_parse package) ("invalid agent_package '" +:+ package +:+ "'") in
  let? i := ok_or (AgentInstanceId_parse instance) ("invalid agent_instance_id '" +:+ instance +:+ "'") in
  Ok (mkRoute p i).

(** The fields of [AgentDiscoveryEntry] and its card that delivery reads. *)
Record AgentDiscoveryEntry := mkDiscovery {
  de_package : string;
  de_instance : string;
  de_subscriptions : list EventSubscription
}.

(** ** Produced events and dispatch requests *)

Record ProducedEvent := mkProduced {
  ev_routing_key : string;
  ev_schema : EventSchemaVersion;
  ev_kind : EventSourceKind;
  ev_key : EventSourceKey;
  ev_messages : list json;
  ev_context_id : option ContextId;
  ev_task_id : option TaskId;
  ev_message_id : option string;
  ev_producer_key : option string;
  ev_metadata : option json
}.

Record AgentDispatchRequest := mkRequest {
  rq_routing_key : string;
  rq_message_type : EventSchemaVersion;
  rq_messages : list json;
  rq_context_id : option ContextId;
  rq_task_id : option TaskId;
  rq_message_id : option string;
  rq_source_kind : option EventSourceKind;
  rq_source_key : option EventSourceKey;
  rq_producer_key : option string;
  rq_metadata : option json
}.

Definition AgentDispatchRoutingKey_parse : string -> option string := parse_trimmed.

Definition as_published_event (e : ProducedEvent) : PublishedEvent :=
  mkPublished (ev_schema e) (ev_kind e) (ev_key e).

Definition into_dispatch_request (e : ProducedEvent) : AgentDispatchRequest :=
  mkRequest (ev_routing_key e) (ev_schema e) (ev_messages e) (ev_context_id e) (ev_task_id e)
    (ev_message_id e) (Some (ev_kind e)) (Some (ev_key e)) (ev_producer_key e) (ev_metadata e).

(** [ProducedEvent::host_source_records]; the routing key and the schema
    version are constants that parse. *)
Definition SOURCE_RECORDS_ROUTING_KEY : string := "event:intake".
Definition HOST_SOURCE_RECORDS_V1 : string := "host.source-records.v1".
Definition host_source_records (kind : EventSourceKind) (key : EventSourceKey) (payload : json)
    (message_id : option string) (metadata : option json) : result ProducedEvent string :=
  let? routing := ok_or (AgentDispatchRoutingKey_parse SOURCE_RECORDS_ROUTING_KEY)
                    ("invalid source-records routing key: " +:+ SOURCE_RECORDS_ROUTING_KEY) in
  let schema := default "" (EventSchemaVersion_parse HOST_SOURCE_RECORDS_V1) in
  Ok (mkProduced routing schema kind key [payload] None None message_id None metadata).

(** [ensure_dispatch_task_scope]. *)
Definition ensure_dispatch_task_scope (request : AgentDispatchRequest) (target : AgentRouteKey)
    : AgentDispatchRequest :=
  match rq_task_id request, rq_context_id request, rq_message_id request with
  | None, Some context_id, Some message_id =>
      let task := stable_external_id "host-event-dispatch"
        [context_id; message_id; rq_routing_key request; rq_message_type request;
         default "" (rq_source_kind request); default "" (rq_source_key request);
         agent_package target; agent_instance_id target] in
      mkRequest (rq_routing_key request) (rq_message_type request) (rq_messages request)
        (rq_context_id request) (Some task) (rq_message_id request) (rq_source_kind request)
        (rq_source_key request) (rq_producer_key request) (rq_metadata request)
  | _, _, _ => request
  end.

Inductive SubscriberDeliveryFailure := Rejected (detail : string) | Dispatch (detail : string).

Record SubscriberAcceptance := mkAcceptance {
  acc_package : string;
  acc_instance : string;
  acc_detail : string
}.

Record EventDeliveryOutcome := mkDelivery {
  subscribers_matched : nat;
  subscribers_accepted : nat;
  acceptances : list SubscriberAcceptance;
  failures : list (AgentRouteKey * SubscriberDeliveryFailure)
}.

(** The fields of [AgentDispatchAck] that delivery reads. *)
Record AgentDispatchAck := mkAck { accepted : bool; ack_detail : option string }.

Record DispatchTarget := mkTarget { dt_route : AgentRouteKey; dt_agent : option AgentId }.

(** ** Matching and fan-out ([event_delivery.rs]) *)

Definition entry_route (e : AgentDiscoveryEntry) : option AgentRouteKey :=
  match AgentPackageName_parse (de_package e), AgentInstanceId_parse (de_instance e) with
  | Some p, Some i => Some (mkRoute p i)
  | _, _ => None
  end.

Definition matching_subscriber_routes (entries : list AgentDiscoveryEntry) (event : PublishedEvent)
    : list AgentRouteKey :=
  omap entry_route
    (List.filter (fun e => subscriptions_match_published_event (de_subscriptions e) event) entries).

Section Delivery.
Context {W : Type}.
Variable dispatch : AgentRouteKey -> AgentDispatchRequest -> W -> result AgentDispatchAck string * W.

(** What one answer adds to the outcome. *)
Definition record_answer (target : AgentRouteKey) (answer : result AgentDispatchAck string)
    (o : EventDeliveryOutcome) : EventDeliveryOutcome :=
  match answer with
  | Ok ack =>
      if accepted ack then
        mkDelivery (subscribers_matched o) (S (subscribers_accepted o))
          (acceptances o ++ [mkAcceptance (agent_package target) (agent_instance_id target)
                               (default "accepted" (ack_detail ack))])
          (failures o)
      else
        mkDelivery (subscribers_matched o) (subscribers_accepted o) (acceptances o)
          (failures o ++ [(target, Rejected (default "rejected" (ack_detail ack)))])
  | Err err =>
      mkDelivery (subscribers_matched o) (subscribers_accepted o) (acceptances o)
        (failures o ++ [(target, Dispatch err)])
  end.

Fixpoint fan_out (request : AgentDispatchRequest) (targets : list AgentRouteKey)
    (o : EventDeliveryOutcome) (w : W) : EventDeliveryOutcome * W :=
  match targets with
  | [] => (o, w)
  | target :: rest =>
      let '(answer, w') := dispatch target (ensure_dispatch_task_scope request target) w in
      fan_out request rest (record_answer target answer o) w'
  end.

Definition deliver_to_subscribers (entries : list AgentDiscoveryEntry) (event : ProducedEvent) (w : W)
    : EventDeliveryOutcome * W :=
  let targets := matching_subscriber_routes entries (as_published_event event) in
  match targets with
  | [] => (mkDelivery 0 0 [] [], w)
  | _ => fan_out (into_dispatch_request event) targets (mkDelivery (length targets) 0 [] []) w
  end.

(** [HostIngressRecorder], the two calls publishing makes. *)
Record HostIngressRecorder := mkRecorder {
  record_source_poll : ProducedEvent -> W -> result unit string * W;
  record_dispatch_rejected :
    AgentDispatchRequest -> DispatchTarget -> string -> bool -> W -> result unit string * W
}.

Record HostPublishService := mkService {
  recorder : option HostIngressRecorder;
  deployed_agent_lookup : option (AgentRouteKey -> option AgentId)
}.

(** Transport failures go to the recorder; what it answers is only logged. *)
Fixpoint record_failures (r : HostIngressRecorder) (lookup : option (AgentRouteKey -> option AgentId))
    (request : AgentDispatchRequest) (fs : list (AgentRouteKey * SubscriberDeliveryFailure)) (w : W) : W :=
  match fs with
  | [] => w
  | (route, Dispatch detail) :: rest =>
      let agent_id := lookup ≫= (fun l => l route) in
      let w' := snd (record_dispatch_rejected r request (mkTarget route agent_id) detail true w) in
      record_failures r lookup request rest w'
  | (_, Rejected _) :: rest => record_failures r lookup request rest w
  end.

Definition publish (s : HostPublishService) (entries : list AgentDiscoveryEntry) (event : ProducedEvent) (w : W)
    : result EventDeliveryOutcome string * W :=
  let '(polled, w1) := match recorder s with
                       | Some r => record_source_poll r event w
                       | None => (Ok tt, w)
                       end in
  match polled with
  | Err e => (Err e, w1)
  | Ok _ =>
      let '(outcome, w2) := deliver_to_subscribers entries event w1 in
      let w3 := match recorder s with
                | Some r => record_failures r (deployed_agent_lookup s) (into_dispatch_request event)
                              (failures outcome) w2
                | None => w2
                end in
      (Ok outcome, w3)
  end.
End Delivery.

Arguments HostIngressRecorder : clear implicits.
Arguments HostPublishService : clear implicits.

(** ** Observed calls *)

Inductive call :=
| CPoll (event : ProducedEvent)
| CDispatch (target : AgentRouteKey) (request : AgentDispatchRequest)
| CRejected (request : AgentDispatchRequest) (target : DispatchTarget) (detail : string) (transport : bool).

Open Scope list_scope.

Section Observed.
Context {W : Type}.
Variable dispatch : AgentRouteKey -> AgentDispatchRequest -> W -> result AgentDispatchAck string * W.

(** The same world with the calls made so far. *)
Definition log_dispatch (t : AgentRouteKey) (r : AgentDispatchRequest) (w : W * list call)
    : result AgentDispatchAck string * (W * list call) :=
  let '(a, w') := dispatch t r (fst w) in (a, (w', snd w ++ [CDispatch t r])).

Definition log_recorder (r : HostIngressRecorder W) : HostIngressRecorder (W * list call) :=
  mkRecorder
    (fun e w => let '(a, w') := record_source_poll r e (fst w) in (a, (w', snd w ++ [CPoll e])))
    (fun q t d b w => let '(a, w') := record_dispatch_rejected r q t d b (fst w) in
                      (a, (w', snd w ++ [CRejected q t d b]))).

Definition log_service (s : HostPublishService W) : HostPublishService (W * list call) :=
  mkService (log_recorder <$> recorder s) (deployed_agent_lookup s).

(** Every target has an acceptance or a failure of its own. *)
Definition answered (o : EventDeliveryOutcome) (t : AgentRouteKey) : Prop :=
  (exists f, (t, f) ∈ failures o) \/
  (exists d, mkAcceptance (agent_package t) (agent_instance_id t) d ∈ acceptances o).

Definition dispatch_calls (request : AgentDispatchRequest) (targets : list AgentRouteKey) : list call :=
  (fun t => CDispatch t (ensure_dispatch_task_scope request t)) <$> targets.

Lemma record_answer_facts t a o :
  subscribers_matched (record_answer t a o) = subscribers_matched o /\
  (subscribers_accepted (record_answer t a o) + length (failures (record_answer t a o)) =
   S (subscribers_accepted o + length (failures o)))%nat /\
  (subscribers_accepted o = length (acceptances o) ->
   subscribers_accepted (record_answer t a o) = length (acceptances (record_answer t a o))) /\
  answered (record_answer t a o) t /\ (forall t', answered o t' -> answered (record_answer t a o) t').
Proof.
  unfold answered, record_answer. destruct a as [[[] d]|e]; simpl; rewrite ?length_app; simpl;
    split_and!; try done; try lia.
  1: right; eexists; apply elem_of_app; right; constructor.
  2,4: left; eexists; apply elem_of_app; right; constructor.
  all: intros t' [[f Hf]|[x Hx]]; [left; eexists|right; eexists];
    (eassumption || (apply elem_of_app; left; eassumption)).
Qed.

Lemma fan_out_spec request targets o w log :
  subscribers_accepted o = length (acceptances o) ->
  exists o' w', fan_out log_dispatch request targets o (w, log)
                = (o', (w', log ++ dispatch_calls request targets)) /\
    subscribers_matched o' = subscribers_matched o /\
    (subscribers_accepted o' + length (failures o') =
     subscribers_accepted o + length (failures o) + length targets)%nat /\
    subscribers_accepted o' = length (acceptances o') /\
    (forall t, t ∈ targets \/ answered o t -> answered o' t).
Proof.
  revert o w log. induction targets as [|t ts IH]; intros o w log Hacc; simpl.
  { exists o, w. rewrite app_nil_r. split_and!; try done; try lia.
    by intros t [?%elem_of_nil|?]. }
  destruct (log_dispatch t _ (w, log)) as [a [w1 l1]] eqn:Hd.
  destruct (record_answer_facts t a o) as (Hm & Hs & Ha & Ht & Hmono).
  destruct (IH (record_answer t a o) w1 l1 (Ha Hacc)) as (o' & w' & -> & Hm' & Hs' & Ha' & Hans).
  unfold log_dispatch in Hd. destruct (dispatch t _ _) as [a0 w0]. simpl in Hd. injection Hd as <- <- <-.
  exists o', w'. split_and!; [|congruence|lia|done|].
  - by rewrite <-app_assoc.
  - intros x [[->|Hx]%elem_of_cons|Hx]; auto.
Qed.

Lemma deliver_spec entries event w log :
  let targets := matching_subscriber_routes entries (as_published_event event) in
  exists o w', deliver_to_subscribers log_dispatch entries event (w, log)
               = (o, (w', log ++ dispatch_calls (into_dispatch_request event) targets)) /\
    subscribers_matched o = length targets /\
    (subscribers_accepted o + length (failures o) = length targets)%nat /\
    subscribers_accepted o = length (acceptances o) /\ Forall (answered o) targets.
Proof.
  unfold deliver_to_subscribers. simpl.
  destruct (matching_subscriber_routes entries (as_published_event event)) as [|t ts] eqn:E.
  { exists (mkDelivery 0 0 [] []), w. rewrite app_nil_r. by split_and!; [| | | |constructor]. }
  destruct (fan_out_spec (into_dispatch_request event) (t :: ts)
              (mkDelivery (length (t :: ts)) 0 [] []) w log eq_refl)
    as (o' & w' & -> & Hm & Hs & Ha & Hans).
  exists o', w'. split_and!; try done. apply Forall_forall. intros x Hx. apply Hans. by left.
Qed.

Definition rejected_calls (lookup : option (AgentRouteKey -> option AgentId)) (request : AgentDispatchRequest)
    (fs : list (AgentRouteKey * SubscriberDeliveryFailure)) : list call :=
  omap (fun '(route, f) => match f with
                           | Dispatch detail => Some (CRejected request (mkTarget route (lookup ≫= (fun l => l route))) detail true)
                           | Rejected _ => None
                           end) fs.

Lemma record_failures_log r lookup request fs w log :
  snd (record_failures (log_recorder r) lookup request fs (w, log)) = log ++ rejected_calls lookup request fs.
Proof.
  revert w log. induction fs as [|[route [d|d]] fs IH]; intros w log; simpl; [by rewrite app_nil_r|apply IH|].
  destruct (record_dispatch_rejected r _ _ _ _ w) as [a w']. simpl. by rewrite IH, <-app_assoc.
Qed.
End Observed.

(** What a subscription asks for: it names something, and each field it names
    is met. *)
Definition wants (s : EventSubscription) (e : PublishedEvent) : Prop :=
  s <> mkSubscription [] [] [] [] /\
  (schema_versions s = [] \/ pe_schema e ∈ schema_versions s) /\
  (source_kinds s = [] \/ pe_kind e ∈ source_kinds s) /\
  (source_keys s = [] \/ pe_key e ∈ source_keys s) /\
  (source_key_prefixes s = [] \/
   exists p rest, p ∈ source_key_prefixes s /\ pe_key e = p +:+ rest).

Lemma is_nil_spec {A} (l : list A) : is_nil l = true <-> l = [].
Proof. by destruct l. Qed.

Lemma existsb_prefix l key :
  existsb (fun p => starts_with p key) l = true <-> exists p rest, p ∈ l /\ key = p +:+ rest.
Proof.
  rewrite List.existsb_exists. setoid_rewrite <-list_elem_of_In. split.
  - intros (p & Hp & [rest ->]%starts_with_spec). eauto.
  - intros (p & rest & Hp & ->). exists p. split; [done|]. apply starts_with_spec. eauto.
Qed.

Lemma matches_published_event_spec s e : matches_published_event s e = true <-> wants s e.
Proof.
  unfold matches_published_event, wants, mem.
  assert (Hu : is_unconstrained s = true <-> s = mkSubscription [] [] [] []).
  { unfold is_unconstrained. rewrite !andb_true_iff, !is_nil_spec. destruct s; simpl. intuition congruence. }
  destruct (is_unconstrained s).
  - destruct (proj1 Hu eq_refl). split; [done|]. by intros [? _].
  - rewrite !andb_true_iff, !orb_true_iff, !is_nil_spec, !bool_decide_eq_true, existsb_prefix.
    assert (s <> mkSubscription [] [] [] []) by (intros Hs; by apply Hu in Hs). tauto.
Qed.

(** An entry that the event goes to: its package and instance are valid
    identifiers and one of its subscriptions wants the event. *)
Definition subscribes (event : PublishedEvent) (e : AgentDiscoveryEntry) (t : AgentRouteKey) : Prop :=
  AgentPackageName_parse (de_package e) = Some (agent_package t) /\
  AgentInstanceId_parse (de_instance e) = Some (agent_instance_id t) /\
  exists s, s ∈ de_subscriptions e /\ wants s event.

(** The agents an event is due to: one per subscribing entry, in the order
    of the entries. *)
Inductive due (event : PublishedEvent) : list AgentDiscoveryEntry -> list AgentRouteKey -> Prop :=
| due_nil : due event [] []
| due_skip e es ts : (forall t, ~ subscribes event e t) -> due event es ts -> due event (e :: es) ts
| due_take e es t ts : subscribes event e t -> due event es ts -> due event (e :: es) (t :: ts).

Lemma subscriptions_match_spec e event :
  subscriptions_match_published_event (de_subscriptions e) event = true <->
  exists s, s ∈ de_subscriptions e /\ wants s event.
Proof.
  unfold subscriptions_match_published_event. rewrite List.existsb_exists.
  setoid_rewrite <-list_elem_of_In. by setoid_rewrite matches_published_event_spec.
Qed.

Lemma entry_route_spec e t :
  entry_route e = Some t <->
  AgentPackageName_parse (de_package e) = Some (agent_package t) /\
  AgentInstanceId_parse (de_instance e) = Some (agent_instance_id t).
Proof.
  unfold entry_route. destruct t as [p i]. simpl.
  destruct (AgentPackageName_parse _), (AgentInstanceId_parse _); naive_solver.
Qed.

Lemma matching_routes_due event entries : due event entries (matching_subscriber_routes entries event).
Proof.
  unfold matching_subscriber_routes. induction entries as [|e es IH]; simpl; [constructor|].
  destruct (subscriptions_match_published_event _ _) eqn:Em; simpl.
  - apply subscriptions_match_spec in Em. destruct (entry_route e) as [t|] eqn:Er; simpl.
    + apply entry_route_spec in Er as []. by apply due_take.
    + apply due_skip; [|done]. intros t (H1 & H2 & _).
      by rewrite (proj2 (entry_route_spec e t)) in Er.
  - apply due_skip; [|done]. intros t (_ & _ & H).
    by rewrite (proj2 (subscriptions_match_spec e event) H) in Em.
Qed.

(** The list is determined by the event and the entries. *)
Lemma due_functional event entries ts ts' : due event entries ts -> due event entries ts' -> ts = ts'.
Proof.
  intros H. revert ts'. induction H as [|e es ts Hno H IH|e es t ts Hs H IH]; intros ts' H';
    inversion H' as [|? ? ? Hno' H2|? ? t' ? Hs' H2]; subst; try done; auto.
  - by destruct (Hno t').
  - by destruct (Hno' t).
  - f_equal; [|auto]. destruct Hs as (H1 & H3 & _), Hs' as (H1' & H3' & _), t, t'. simpl in *. congruence.
Qed.


Definition sample_event : ProducedEvent :=
  mkProduced "event:intake" "host.source-records.v1" "gmail" "inbox/a" [] None None None None None.

Definition sample_agents : list AgentDiscoveryEntry :=
  [ mkDiscovery "mail" "one" [mkSubscription [] ["gmail"] [] []];
    mkDiscovery "chat" "two" [mkSubscription [] ["slack"] [] []; mkSubscription [] [] [] []];
    mkDiscovery "log" "three" [mkSubscription [] [] ["other"] []; mkSubscription [] [] [] ["inbox/"]] ].


(** ** Digests *)

Open Scope Z_scope.

(** The inverse of the prime modulo 2^64. *)
Definition FNV_INVERSE : Z := 0xce965057aff6957b.

Lemma fnv_prime_inverse : (FNV_PRIME * FNV_INVERSE) mod 18446744073709551616 = 1.
Proof. reflexivity. Qed.

Lemma fnv_mul_inj x y :
  is_u64 x -> is_u64 y -> wrap64 (x * FNV_PRIME) = wrap64 (y * FNV_PRIME) -> x = y.
Proof.
  unfold is_u64, u64_max, wrap64. intros Hx Hy H.
  assert (Hinv : forall z, 0 <= z <= 18446744073709551615 ->
            ((z * FNV_PRIME) mod 18446744073709551616 * FNV_INVERSE) mod 18446744073709551616 = z).
  { intros z Hz. rewrite Z.mul_mod_idemp_l by lia. rewrite <-Z.mul_assoc, <-Z.mul_mod_idemp_r by lia.
    rewrite fnv_prime_inverse, Z.mul_1_r. apply Z.mod_small. lia. }
  rewrite <-(Hinv x Hx), <-(Hinv y Hy). by rewrite H.
Qed.

Lemma u64_lxor x y : is_u64 x -> is_u64 y -> is_u64 (Z.lxor x y).
Proof.
  unfold is_u64, u64_max. intros Hx Hy.
  assert (0 <= Z.lxor x y) by (apply Z.lxor_nonneg; lia). split; [done|].
  destruct (Z.eq_dec (Z.lxor x y) 0) as [->|Hne]; [lia|].
  assert (Z.log2 (Z.lxor x y) < 64); [|apply Z.log2_lt_pow2 in H0; change (2 ^ 64) with 18446744073709551616 in *; lia].
  pose proof (Z.log2_lxor x y ltac:(lia) ltac:(lia)).
  assert (forall z, 0 <= z <= 18446744073709551615 -> Z.log2 z < 64) as Hl.
  { intros z Hz. destruct (Z.eq_dec z 0) as [->|?]; [done|]. apply Z.log2_lt_pow2; lia. }
  pose proof (Hl x Hx). pose proof (Hl y Hy). lia.
Qed.

Lemma fnv_byte_u64 d b : is_u64 (fnv_byte d b).
Proof.
  unfold is_u64, u64_max, fnv_byte, wrap64.
  pose proof (Z.mod_pos_bound (Z.lxor d b * FNV_PRIME) 18446744073709551616 ltac:(lia)). lia.
Qed.

Lemma byte_z_u64 a : is_u64 (byte_z a).
Proof.
  unfold is_u64, u64_max, byte_z, byte_of. pose proof (N_ascii_bounded a). lia.
Qed.
#[local] Hint Resolve u64_lxor fnv_byte_u64 byte_z_u64 : core.

(** One step of the hash loses neither the digest nor the byte. *)
Lemma fnv_byte_inj d d' b b' :
  is_u64 d -> is_u64 d' -> is_u64 b -> is_u64 b' ->
  fnv_byte d b = fnv_byte d' b' -> Z.lxor d b = Z.lxor d' b'.
Proof. intros. apply fnv_mul_inj; auto. Qed.

Lemma lxor_cancel_r x y b : Z.lxor x b = Z.lxor y b -> x = y.
Proof.
  intros H. rewrite <-(Z.lxor_0_r x), <-(Z.lxor_0_r y), <-(Z.lxor_nilpotent b).
  by rewrite <-!Z.lxor_assoc, H.
Qed.

Lemma fnv_bytes_app d x y : fnv_bytes d (x +:+ y) = fnv_bytes (fnv_bytes d x) y.
Proof. revert d. induction x as [|a x IH]; intros d; [done|]. rewrite str_app_cons. simpl. apply IH. Qed.

Lemma fnv_bytes_u64 d s : is_u64 d -> is_u64 (fnv_bytes d s).
Proof. revert d. induction s as [|a s IH]; intros d Hd; simpl; auto. Qed.

Lemma fnv_bytes_inj s d d' : is_u64 d -> is_u64 d' -> fnv_bytes d s = fnv_bytes d' s -> d = d'.
Proof.
  revert d d'. induction s as [|a s IH]; intros d d' Hd Hd'; simpl; [done|].
  intros H%IH; auto. apply fnv_byte_inj in H; auto. by apply lxor_cancel_r in H.
Qed.

Lemma hash_digest_extend_u64 d s : is_u64 d -> is_u64 (hash_digest_extend d s).
Proof. unfold hash_digest_extend. auto using fnv_bytes_u64. Qed.

Lemma sep_u64 : is_u64 HASH_PART_SEPARATOR.
Proof. unfold is_u64, HASH_PART_SEPARATOR, u64_max. lia. Qed.

Lemma hash_digest_extend_inj s d d' :
  is_u64 d -> is_u64 d' -> hash_digest_extend d s = hash_digest_extend d' s -> d = d'.
Proof.
  unfold hash_digest_extend. intros Hd Hd' H%fnv_byte_inj; auto using fnv_bytes_u64, sep_u64.
  apply lxor_cancel_r in H. by apply fnv_bytes_inj in H.
Qed.

Lemma fold_extend_u64 parts d : is_u64 d -> is_u64 (fold_left hash_digest_extend parts d).
Proof. revert d. induction parts; intros d Hd; simpl; auto using hash_digest_extend_u64. Qed.

Lemma fold_extend_inj parts d d' :
  is_u64 d -> is_u64 d' ->
  fold_left hash_digest_extend parts d = fold_left hash_digest_extend parts d' -> d = d'.
Proof.
  revert d d'. induction parts as [|p ps IH]; intros d d' Hd Hd'; simpl; [done|].
  intros H%IH; auto using hash_digest_extend_u64. by apply hash_digest_extend_inj in H.
Qed.

(** Two part lists that differ in one byte of one part. *)
Definition one_byte_apart (ps qs : list string) : Prop :=
  exists pre post x y a b, a <> b /\
    ps = pre ++ (x +:+ String a y) :: post /\ qs = pre ++ (x +:+ String b y) :: post.

Lemma fold_extend_apart d ps qs :
  is_u64 d -> one_byte_apart ps qs ->
  fold_left hash_digest_extend ps d <> fold_left hash_digest_extend qs d.
Proof.
  intros Hd (pre & post & x & y & a & b & Hab & -> & ->). rewrite !fold_left_app. simpl.
  set (d0 := fold_left _ pre d). assert (Hd0 : is_u64 d0) by by apply fold_extend_u64.
  intros H%fold_extend_inj; auto using hash_digest_extend_u64.
  unfold hash_digest_extend in H. apply fnv_byte_inj in H; auto using fnv_bytes_u64, sep_u64.
  apply lxor_cancel_r in H. rewrite !fnv_bytes_app in H. simpl in H.
  apply fnv_bytes_inj in H; auto. apply fnv_byte_inj in H; auto using fnv_bytes_u64.
  rewrite !(Z.lxor_comm (fnv_bytes d0 x)) in H. apply lxor_cancel_r in H.
  apply Hab. unfold byte_z, byte_of in H. rewrite <-(ascii_N_embedding a), <-(ascii_N_embedding b).
  f_equal. lia.
Qed.

Lemma hash_basis_u64 : is_u64 FNV_OFFSET_BASIS.
Proof. unfold is_u64, FNV_OFFSET_BASIS, u64_max. lia. Qed.

Lemma namespace_digest_apart namespace lane ps qs :
  one_byte_apart ps qs ->
  hash_digest_with_namespace namespace lane ps <> hash_digest_with_namespace namespace lane qs.
Proof.
  apply fold_extend_apart. apply (fold_extend_u64 [namespace; lane_as_str lane]), hash_basis_u64.
Qed.

Lemma namespace_digest_u64 namespace lane ps : is_u64 (hash_digest_with_namespace namespace lane ps).
Proof. apply fold_extend_u64, (fold_extend_u64 [namespace; lane_as_str lane]), hash_basis_u64. Qed.

Lemma TemporalId_inj prefix m c m' c' :
  0 <= m -> 0 <= m' ->
  TemporalId_into_string prefix m c = TemporalId_into_string prefix m' c' -> m = m' /\ show_Z c = show_Z c'.
Proof.
  unfold TemporalId_into_string. intros Hm Hm' H.
  change (prefix +:+ "-" +:+ ?r) with (prefix +:+ String "-" r) in H.
  apply (f_equal (strip_prefix prefix)) in H. rewrite !strip_prefix_app in H.
  injection H as H. apply (f_equal (split_once "-")) in H.
  change ("-" +:+ ?r) with (String "-" r) in H.
  rewrite !split_once_app in H by (by apply show_Z_no_char). injection H as H1 H2.
  split; [by apply show_Z_inj|done].
Qed.

(** Poll windows do not share lineage by accident of a byte: two windows of
    one source whose kind, key or cursor differ in a single byte always get
    different digests in both lanes of the context and of the correlation id,
    hence different context ids (the digest 0 is bumped to 1, so the upper
    digests must not be 0). *)
Theorem poll_lineage_tells_windows_apart s s' c c' :
  seed_cursor s = Some c -> seed_cursor s' = Some c' ->
  one_byte_apart [seed_kind s; seed_key s; c] [seed_kind s'; seed_key s'; c'] ->
  hash_digest_with_namespace "td-external-context" Upper [seed_kind s; seed_key s; c] <> 0 ->
  hash_digest_with_namespace "td-external-context" Upper [seed_kind s'; seed_key s'; c'] <> 0 ->
  (forall namespace lane, hash_digest_with_namespace namespace lane [seed_kind s; seed_key s; c] <>
                          hash_digest_with_namespace namespace lane [seed_kind s'; seed_key s'; c']) /\
  exists l l', mint_host_poll_lineage s = Some l /\ mint_host_poll_lineage s' = Some l' /\
    hpl_context_id l <> hpl_context_id l'.
Proof.
  intros Hc Hc' Hap Hz Hz'. split; [intros; by apply namespace_digest_apart|].
  unfold mint_host_poll_lineage. rewrite Hc, Hc'. do 2 eexists. split_and!; [reflexivity..|].
  simpl. intros H. unfold ContextId_new in H.
  pose proof (namespace_digest_apart "td-external-context" Upper _ _ Hap).
  pose proof (namespace_digest_u64 "td-external-context" Upper [seed_kind s; seed_key s; c]).
  pose proof (namespace_digest_u64 "td-external-context" Upper [seed_kind s'; seed_key s'; c']).
  unfold is_u64 in *. apply TemporalId_inj in H as [H _]; lia.
Qed.

(** Two consecutive windows of one Slack channel. *)
Lemma poll_lineage_witness :
  exists l l',
    mint_host_poll_lineage (mkSeed "slack" "slack:C1" (Some "slack:10:19:2") []) = Some l /\
    mint_host_poll_lineage (mkSeed "slack" "slack:C1" (Some "slack:10:19:3") []) = Some l' /\
    hpl_context_id l <> hpl_context_id l'.
Proof.
  refine (proj2 (poll_lineage_tells_windows_apart
    (mkSeed "slack" "slack:C1" (Some "slack:10:19:2") []) (mkSeed "slack" "slack:C1" (Some "slack:10:19:3") [])
    "slack:10:19:2" "slack:10:19:3" eq_refl eq_refl _ _ _)).
  - exists ["slack"; "slack:C1"], [], "slack:10:19:", "", "2"%char, "3"%char. by split_and!.
  - by vm_compute.
  - by vm_compute.
Defined.

(** The separator is not escaped: a part that contains it hashes like two. *)
Lemma separator_not_escaped :
  hash_digest ["slack"; "a" +:+ String (ascii_of_N 31) "b"] = hash_digest ["slack"; "a"; "b"].
Proof. vm_compute. reflexivity. Qed.
