(* ===== verification/Dispatcher.v ===== *)
(** * The event dispatcher: producers, checkpoints and the poll cycle

    [baml-rt-tools/src/event_producer.rs] (the producer registry and its
    checkpoints), [baml-rt-a2a/src/event_dispatcher.rs] (polling producers and
    delivering their batches) and the cycle of [baml-agent-runner/src/lib.rs]
    that persists checkpoints.  Producers, publishing and the state store act
    on a world of any type; [EventDelivery.publish] is one instance of the
    publishing argument.  A checkpoint is the value its text encodes. *)

From stdpp Require Import base gmap list strings.
From Stdlib Require Import ZArith Lia.
From S2P Require Import Prelude RustStr EventDelivery.

Open Scope string_scope.

Definition CALLBACK_SOURCE_KIND : string := "system/callback".

Definition empty_outcome : EventDeliveryOutcome := mkDelivery 0 0 [] [].

Section Dispatch.
Context {W C : Type}.
(** [HostPublishService::publish] with the registry's agents and port. *)
Context (publish : ProducedEvent -> W -> result EventDeliveryOutcome string * W).

(** ** Producers and checkpoints *)

Record EventProducer := mkProducer {
  producer_key : string;
  producer_kinds : list EventSourceKind;
  producer_poll : option C -> W -> result (list ProducedEvent * option C) string * W
}.

Record ProducerRegistry := mkRegistry {
  producers : list EventProducer;
  checkpoints : gmap string (option C)
}.

Inductive RegisterError := NoSourceKinds | AlreadyRegistered.

Definition ProducerRegistry_new : ProducerRegistry := mkRegistry [] ∅.

Definition register_with_checkpoint (r : ProducerRegistry) (p : EventProducer) (checkpoint : option C)
    : result ProducerRegistry RegisterError :=
  match producer_kinds p with
  | [] => Err NoSourceKinds
  | _ =>
      if bool_decide (is_Some (checkpoints r !! producer_key p)) then Err AlreadyRegistered
      else Ok (mkRegistry (producers r ++ [p]) (<[producer_key p := checkpoint]> (checkpoints r)))
  end.

Definition checkpoint (r : ProducerRegistry) (key : string) : option C :=
  default None (checkpoints r !! key).

(** Only a checkpoint with a value moves a registered cursor. *)
Definition advance_checkpoint (r : ProducerRegistry) (key : string) (c : option C) : ProducerRegistry :=
  match checkpoints r !! key, c with
  | Some _, Some _ => mkRegistry (producers r) (<[key := c]> (checkpoints r))
  | _, _ => r
  end.

(** ** Delivering a batch *)

Definition with_producer_key (key : string) (e : ProducedEvent) : ProducedEvent :=
  mkProduced (ev_routing_key e) (ev_schema e) (ev_kind e) (ev_key e) (ev_messages e) (ev_context_id e)
    (ev_task_id e) (ev_message_id e)
    (match ev_producer_key e with None => Some key | Some k => Some k end) (ev_metadata e).

(** [deliver_event_with_producer_key]; the outcome is returned as it is. *)
Definition deliver_event (key : string) (e : ProducedEvent) (w : W) : result EventDeliveryOutcome string * W :=
  publish (with_producer_key key e) w.

Definition add_outcome (a o : EventDeliveryOutcome) : EventDeliveryOutcome :=
  mkDelivery (subscribers_matched a + subscribers_matched o) (subscribers_accepted a + subscribers_accepted o)
    (app (acceptances a) (acceptances o)) (app (failures a) (failures o)).

(** The loop over one poll's events: the sum of the outcomes, whether a
    callback found no subscriber, and the error that ended it early. *)
Fixpoint deliver_events (key : string) (kinds : list EventSourceKind) (events : list ProducedEvent)
    (agg : EventDeliveryOutcome) (blocked : bool) (w : W)
    : EventDeliveryOutcome * bool * option string * W :=
  match events with
  | [] => (agg, blocked, None, w)
  | e :: rest =>
      if bool_decide (ev_kind e ∈ kinds) then
        match deliver_event key e w with
        | (Ok o, w') =>
            let blocked := blocked || (bool_decide (key = CALLBACK_SOURCE_KIND) && (subscribers_matched o =? 0)%nat) in
            deliver_events key kinds rest (add_outcome agg o) blocked w'
        | (Err err, w') => (agg, blocked, Some err, w')
        end
      else (agg, blocked, Some "source kind mismatch", w)
  end.

(** ** One cycle *)

(** [poll_and_deliver] for one producer. *)
Definition poll_producer (p : EventProducer) (r : ProducerRegistry) (w : W)
    : result EventDeliveryOutcome string * ProducerRegistry * W :=
  let key := producer_key p in
  match producer_poll p (checkpoint r key) w with
  | (Err err, w1) => (Err err, r, w1)
  | (Ok ([], c), w1) => (Ok empty_outcome, advance_checkpoint r key c, w1)
  | (Ok (events, c), w1) =>
      let '(agg, blocked, short, w2) := deliver_events key (producer_kinds p) events empty_outcome false w1 in
      match short with
      | Some err => (Err err, r, w2)
      | None =>
          let r' := if is_nil (failures agg) && negb blocked then advance_checkpoint r key c else r in
          (Ok agg, r', w2)
      end
  end.

Fixpoint poll_all (ps : list EventProducer) (r : ProducerRegistry) (w : W)
    : list (string * result EventDeliveryOutcome string) * ProducerRegistry * W :=
  match ps with
  | [] => ([], r, w)
  | p :: rest =>
      let '(o, r1, w1) := poll_producer p r w in
      let '(os, r2, w2) := poll_all rest r1 w1 in
      ((producer_key p, o) :: os, r2, w2)
  end.

Definition poll_and_deliver (r : ProducerRegistry) (w : W) := poll_all (producers r) r w.

(** [run_event_poll_cycle]: what each producer that did not fail has reached is
    saved; a failed save is only logged. *)
Context (save : string -> C -> W -> W).

Fixpoint persist (r : ProducerRegistry) (os : list (string * result EventDeliveryOutcome string)) (w : W) : W :=
  match os with
  | [] => w
  | (key, Ok _) :: rest =>
      persist r rest (match checkpoint r key with Some c => save key c w | None => w end)
  | (_, Err _) :: rest => persist r rest w
  end.

Definition run_event_poll_cycle (r : ProducerRegistry) (w : W) : ProducerRegistry * W :=
  let '(os, r', w') := poll_and_deliver r w in (r', persist r' os w').

(** ** Lemmas *)

(** The outcomes of a batch that ran to its end, event by event. *)
Inductive published : string -> list ProducedEvent -> W -> list EventDeliveryOutcome -> W -> Prop :=
| published_nil key w : published key [] w [] w
| published_cons key e rest w o w1 os w2 :
    deliver_event key e w = (Ok o, w1) -> published key rest w1 os w2 ->
    published key (e :: rest) w (o :: os) w2.

Lemma deliver_events_spec key kinds events : forall agg blocked w agg' blocked' w',
  deliver_events key kinds events agg blocked w = (agg', blocked', None, w') ->
  exists os, published key events w os w' /\
    Forall (fun e => ev_kind e ∈ kinds) events /\
    failures agg' = app (failures agg) (concat (failures <$> os)) /\
    (blocked' = false -> blocked = false /\ (key = CALLBACK_SOURCE_KIND -> Forall (fun o => subscribers_matched o <> 0)%nat os)).
Proof.
  induction events as [|e events IH]; intros agg blocked w agg' blocked' w'; cbn [deliver_events].
  - intros [= <- <- <-]. exists []. split_and!; [constructor|constructor|by rewrite app_nil_r|]. intros ->. split; [done|]. intros _. constructor.
  - case_bool_decide as Hk; [|done]. destruct (deliver_event key e w) as [[o|err] w1] eqn:He; [|done].
    intros (os & Hp & Hks & Hf & Hb)%IH. exists (o :: os). split_and!.
    + by econstructor.
    + by constructor.
    + rewrite Hf. simpl. by rewrite app_assoc.
    + intros Hb'. apply Hb in Hb' as [[-> Ho]%orb_false_iff Hall]. split; [done|]. intros Hkey.
      constructor; [|by apply Hall]. rewrite bool_decide_eq_true_2 in Ho by done. by apply Nat.eqb_neq in Ho.
Qed.

Lemma deliver_events_inv key kinds (I : W -> Prop) :
  (forall e w, I w -> I (deliver_event key e w).2) ->
  forall events agg blocked w, I w -> I (deliver_events key kinds events agg blocked w).2.
Proof.
  intros Hd. induction events as [|e events IH]; intros agg blocked w Hw; cbn [deliver_events]; [done|].
  case_bool_decide; [|done]. specialize (Hd e w Hw). destruct (deliver_event key e w) as [[o|err] w1]; [by apply IH|done].
Qed.

Lemma advance_other r key key' c : key <> key' -> checkpoint (advance_checkpoint r key c) key' = checkpoint r key'.
Proof.
  intros Hne. unfold advance_checkpoint, checkpoint. destruct (checkpoints r !! key); [|done]. destruct c; [|done].
  simpl. by rewrite lookup_insert_ne.
Qed.

Lemma advance_same r key c :
  checkpoint (advance_checkpoint r key c) key = checkpoint r key \/
  exists v, c = Some v /\ checkpoint (advance_checkpoint r key c) key = Some v.
Proof.
  unfold advance_checkpoint, checkpoint. destruct (checkpoints r !! key) eqn:Hc; [|left; simpl; by rewrite ?Hc].
  destruct c as [v|]; [|left; simpl; by rewrite ?Hc]. right. exists v. simpl. by rewrite lookup_insert_eq.
Qed.

(** A batch that ended without a failure, or no batch at all. *)
Definition clean_batch (p : EventProducer) (events : list ProducedEvent) (w w' : W) : Prop :=
  exists os, published (producer_key p) events w os w' /\ Forall (fun o => failures o = []) os /\
    (producer_key p = CALLBACK_SOURCE_KIND -> Forall (fun o => subscribers_matched o <> 0)%nat os).

Lemma concat_nil_Forall (os : list EventDeliveryOutcome) :
  concat (failures <$> os) = [] -> Forall (fun o => failures o = []) os.
Proof. induction os as [|o os IH]; simpl; [constructor|]. intros [? ?]%app_eq_nil. constructor; auto. Qed.

(** Polling one producer moves the cursor of no other producer, and its
    own only to the checkpoint its poll returned, and only after every event
    of the poll was published with no subscriber failing (and, for callbacks,
    with at least one subscriber); a failed poll or delivery leaves every
    cursor where it was. *)
Theorem cursor_moves_after_clean_batch p r w o r' w' :
  poll_producer p r w = (o, r', w') ->
  (forall key, key <> producer_key p -> checkpoint r' key = checkpoint r key) /\
  (checkpoint r' (producer_key p) = checkpoint r (producer_key p) \/
   exists events c w1, producer_poll p (checkpoint r (producer_key p)) w = (Ok (events, Some c), w1) /\
     checkpoint r' (producer_key p) = Some c /\ clean_batch p events w1 w') /\
  (forall err, o = Err err -> r' = r).
Proof.
  unfold poll_producer. destruct (producer_poll p _ w) as [[[events c]|err] w1] eqn:Hp; [|by intros [= <- <- <-]; eauto].
  destruct events as [|e events].
  - intros [= <- <- <-]. split_and!; [intros key Hne; by apply advance_other| |done].
    destruct (advance_same r (producer_key p) c) as [?|(v & -> & Hv)]; [by left|]. right. eexists [], v, w1.
    split_and!; [done..|]. exists []. split_and!; [constructor|constructor|done].
  - destruct (deliver_events _ _ _ _ _ _) as [[[agg blocked] [err|]] w2] eqn:Hd; [by intros [= <- <- <-]; eauto|].
    apply deliver_events_spec in Hd as (os & Hpub & _ & Hf & Hb). simpl in Hf.
    destruct (is_nil (failures agg) && negb blocked) eqn:Hc; [|by intros [= <- <- <-]; eauto].
    apply andb_true_iff in Hc as [Hn Hbl]. intros [= <- <- <-]. split_and!; [intros key Hne; by apply advance_other| |done].
    destruct (advance_same r (producer_key p) c) as [?|(v & -> & Hv)]; [by left|]. right.
    eexists (e :: events), v, w1. split_and!; [done..|]. exists os. split_and!; [done| |].
    + apply concat_nil_Forall. rewrite <-Hf. by destruct (failures agg).
    + apply negb_true_iff in Hbl. by apply Hb.
Qed.
End Dispatch.

Arguments EventProducer : clear implicits.
Arguments ProducerRegistry : clear implicits.

(** A producer whose first batch is taken by one subscriber. *)
Definition sample_event : ProducedEvent :=
  mkProduced "event:intake" "host.source-records.v1" "slack" "slack:C1" [] None None (Some "m1") None None.

Definition sample_producer : EventProducer nat nat :=
  mkProducer "support/slack:inbox" ["slack"] (fun c w => (Ok ([sample_event], Some (S (default 0%nat c))), w)).

Lemma cursor_moves_after_clean_batch_witness :
  let r := mkRegistry [sample_producer] {[ "support/slack:inbox" := None ]} in
  let publish := fun (_ : ProducedEvent) (w : nat) => (@Ok EventDeliveryOutcome string (mkDelivery 1 1 [] []), S w) in
  exists o r' w', poll_producer publish sample_producer r 0%nat = (o, r', w') /\
    checkpoint r' "support/slack:inbox" = Some 1%nat /\
    forall err, o = Err err -> r' = r.
Proof.
  intros r publish. eexists _, _, _. split; [vm_compute; reflexivity|]. split; [vm_compute; reflexivity|].
  eapply (cursor_moves_after_clean_batch publish sample_producer r 0%nat). vm_compute. reflexivity.
Defined.
