(* ===== verification/IngressInbox.v ===== *)
(** * The durable ingress inbox and the producers that drain it

    [baml-rt-core/src/ingress_store.rs] (the contract), the inbox tables of
    [baml-agent-runner/src/deployment_state.rs], and the producers that poll
    it: [baml-rt-tools/src/external_datasource.rs],
    [tools/grafana-alerts/src/producer.rs] and [tools/slack/src/producer.rs].
    The table is the list of its rows, each statement a function on it; a
    comparison with [NONE] is false, an [UPDATE] returns the rows it changed.
    Decoding of stored payloads is an argument of the producers.  The host
    model follows one producer; the others act on its rows only by requeueing
    stale ones between its cycles (producers are polled one after the other),
    so two raw datasources configured with one source kind, which would claim
    each other's rows, are outside it. *)

From stdpp Require Import base list strings sorting relations.
From Stdlib Require Import ZArith Lia Ascii.
From S2P Require Import Prelude RustStr Json Ids EventDelivery Dispatcher.

Open Scope Z_scope.
Open Scope list_scope.

(** ** Items and rows *)

Definition IngressId := string.

Definition IngressId_parse (value : string) : option IngressId :=
  let trimmed := trim value in if is_empty_str trimmed then None else Some trimmed.

Record IngressItem := mkItem {
  it_id : IngressId;
  it_kind : EventSourceKind;
  it_key : EventSourceKey;
  it_payload : string;
  it_enqueued : Z
}.

Inductive IngressStatus := Pending | Emitted | Delivered.

#[global] Instance IngressStatus_eq_dec : EqDecision IngressStatus.
Proof. solve_decision. Defined.

(** A row of [ingress_inbox]. *)
Record row := mkRow {
  r_id : string;
  r_kind : option string;
  r_key : string;
  r_payload : string;
  r_status : IngressStatus;
  r_enqueued : Z;
  r_emitted : option Z;
  r_delivered : option Z
}.

Inductive StoreError := OutOfRange | InvalidRow.

Definition i64_max : Z := 2 ^ 63 - 1.

Definition unix_ms_to_db_int (value : Z) : result Z StoreError :=
  if value <=? i64_max then Ok value else Err OutOfRange.

(** [parse_ingress_row]; a row without a kind takes the first segment of its
    source key. *)
Definition parse_ingress_row (r : row) : result IngressItem StoreError :=
  let? id := ok_or (IngressId_parse (r_id r)) InvalidRow in
  let? kind := match r_kind r with
               | Some k => ok_or (EventSourceKind_parse k) InvalidRow
               | None =>
                   let raw := default "unknown" (head (split_char ":"%char (r_key r))) in
                   Ok (default "unknown" (EventSourceKind_parse raw))
               end in
  let? key := ok_or (EventSourceKey_parse (r_key r)) InvalidRow in
  if r_enqueued r <? 0 then Err InvalidRow
  else Ok (mkItem id kind key (r_payload r) (r_enqueued r)).

Fixpoint parse_rows (rs : list row) : result (list IngressItem) StoreError :=
  match rs with
  | [] => Ok []
  | r :: rest => let? i := parse_ingress_row r in let? items := parse_rows rest in Ok (i :: items)
  end.

(** ** Statements *)

Definition set_status (st : IngressStatus) (em de : option Z) (r : row) : row :=
  mkRow (r_id r) (r_kind r) (r_key r) (r_payload r) st (r_enqueued r) em de.

(** [UPDATE .. SET .. WHERE ..]: the table afterwards and the rows changed. *)
Definition update (p : row -> bool) (f : row -> row) (db : list row) : list row * list row :=
  ((fun r => if p r then f r else r) <$> db, f <$> List.filter p db).

(** [created]: whether the [CREATE] statement took effect; its result is not
    looked at. *)
Definition enqueue_ingress_item (created : bool) (item : IngressItem) (db : list row) : result bool StoreError * list row :=
  if existsb (fun r => bool_decide (r_id r = it_id item)) db then (Ok false, db)
  else match unix_ms_to_db_int (it_enqueued item) with
       | Ok t => (Ok true, if created then db ++ [mkRow (it_id item) (Some (it_kind item)) (it_key item) (it_payload item) Pending t None None] else db)
       | Err e => (Err e, db)
       end.

(** [ORDER BY enqueued_at_unix_ms ASC, ingress_id ASC] *)
Definition row_le (a b : row) : Prop :=
  r_enqueued a < r_enqueued b \/ (r_enqueued a = r_enqueued b /\ String.leb (r_id a) (r_id b) = true).

#[global] Instance row_le_dec : RelDecision row_le.
Proof. unfold RelDecision, row_le. intros a b. apply _. Defined.

(** [source_kind INSIDE $source_kinds]; [NONE] is inside no list of strings. *)
Definition listable (kinds : list EventSourceKind) (r : row) : bool :=
  bool_decide (r_status r = Pending) && bool_decide (r_emitted r = None) &&
  match r_kind r with Some k => bool_decide (k ∈ kinds) | None => false end.

Definition list_pending_ingress_items (kinds : list EventSourceKind) (limit : nat) (db : list row)
    : result (list IngressItem) StoreError :=
  parse_rows (take limit (merge_sort row_le (List.filter (listable kinds) db))).

Definition requeue_stale_ingress (before : Z) (db : list row) : result nat StoreError * list row :=
  match unix_ms_to_db_int before with
  | Err e => (Err e, db)
  | Ok t =>
      let stale r := bool_decide (r_status r = Emitted) &&
                     match r_emitted r with Some e => e <=? t | None => false end in
      let '(db', changed) := update stale (fun r => set_status Pending None (r_delivered r) r) db in
      (Ok (length changed), db')
  end.

Definition mark_ingress_emitted (ids : list IngressId) (at_ : Z) (db : list row)
    : result (list IngressId) StoreError * list row :=
  match ids with
  | [] => (Ok [], db)
  | _ =>
      match unix_ms_to_db_int at_ with
      | Err e => (Err e, db)
      | Ok t =>
          let eligible r := bool_decide (r_id r ∈ ids) && bool_decide (r_status r = Pending) &&
                            bool_decide (r_emitted r = None) in
          let '(db', changed) := update eligible (fun r => set_status Emitted (Some t) (r_delivered r) r) db in
          (Ok (r_id <$> changed), db')
      end
  end.

Definition mark_ingress_delivered (ids : list IngressId) (at_ : Z) (db : list row) : result unit StoreError * list row :=
  match ids with
  | [] => (Ok tt, db)
  | _ =>
      match unix_ms_to_db_int at_ with
      | Err e => (Err e, db)
      | Ok t =>
          let open r := bool_decide (r_id r ∈ ids) &&
                        (bool_decide (r_status r = Pending) || bool_decide (r_status r = Emitted)) in
          (Ok tt, (update open (fun r => set_status Delivered (r_emitted r) (Some t) r) db).1)
      end
  end.

(** ** Polling the inbox *)

(** [delivered_ingress_ids] of the stored checkpoint. *)
Definition checkpoint_ids (c : option (list IngressId)) : list IngressId := default [] c.

Definition MAX_ITEMS_PER_POLL : nat := 100.
Definition RETRY_AFTER_MS : Z := 60000.

(** [now_ms.saturating_sub(RETRY_AFTER_MS)] *)
Definition retry_before (now : Z) : Z := Z.max 0 (now - RETRY_AFTER_MS).

(** The claimed items among the listed ones, in listing order. *)
Definition claimed_items (emitted : list IngressId) (pending : list IngressItem) : list IngressItem :=
  List.filter (fun i => bool_decide (it_id i ∈ emitted)) pending.

(** The checkpoint a poll returns. *)
Definition next_checkpoint (reconciled : bool) (delivered : list IngressId) : option (list IngressId) :=
  match delivered with
  | [] => if reconciled then Some [] else None
  | _ => Some delivered
  end.

Inductive PollError := PStore (e : StoreError) | PConvert (id : IngressId).

Section Poll.
(** The event an item's stored payload stands for, if it decodes. *)
Context (convert : IngressItem -> option ProducedEvent).

(** The loop of the Grafana and the raw datasource producers: an item that does
    not decode is marked delivered and left out. *)
Fixpoint convert_dropping (now : Z) (items : list IngressItem) (db : list row)
    : result (list (IngressId * ProducedEvent)) PollError * list row :=
  match items with
  | [] => (Ok [], db)
  | i :: rest =>
      match convert i with
      | Some e =>
          let '(res, db') := convert_dropping now rest db in
          (let? es := res in Ok ((it_id i, e) :: es), db')
      | None =>
          match mark_ingress_delivered [it_id i] now db with
          | (Ok _, db') => convert_dropping now rest db'
          | (Err e, db') => (Err (PStore e), db')
          end
      end
  end.

(** The loop of the Slack producer: an item that does not decode ends it. *)
Fixpoint convert_failing (items : list IngressItem) : result (list (IngressId * ProducedEvent)) PollError :=
  match items with
  | [] => Ok []
  | i :: rest =>
      match convert i with
      | Some e => let? es := convert_failing rest in Ok ((it_id i, e) :: es)
      | None => Err (PConvert (it_id i))
      end
  end.

(** [poll], common to the three producers up to the loop [convert_all]. *)
Definition inbox_poll (kinds : list EventSourceKind)
    (convert_all : list IngressItem -> list row -> result (list (IngressId * ProducedEvent)) PollError * list row)
    (now : Z) (c : option (list IngressId)) (db : list row)
    : result (list (IngressId * ProducedEvent) * option (list IngressId)) PollError * list row :=
  let reconciled := negb (is_nil (checkpoint_ids c)) in
  match mark_ingress_delivered (checkpoint_ids c) now db with
  | (Err e, db1) => (Err (PStore e), db1)
  | (Ok _, db1) =>
      match requeue_stale_ingress (retry_before now) db1 with
      | (Err e, db2) => (Err (PStore e), db2)
      | (Ok _, db2) =>
          match list_pending_ingress_items kinds MAX_ITEMS_PER_POLL db2 with
          | Err e => (Err (PStore e), db2)
          | Ok pending =>
              match mark_ingress_emitted (it_id <$> pending) now db2 with
              | (Err e, db3) => (Err (PStore e), db3)
              | (Ok emitted, db3) =>
                  let '(res, db4) := convert_all (claimed_items emitted pending) db3 in
                  (let? es := res in Ok (es, next_checkpoint reconciled (fst <$> es)), db4)
              end
          end
      end
  end.

Definition grafana_poll (kinds : list EventSourceKind) (now : Z) :=
  inbox_poll kinds (convert_dropping now) now.

Definition raw_datasource_poll (kinds : list EventSourceKind) (now : Z) :=
  inbox_poll kinds (convert_dropping now) now.

Definition slack_poll (kinds : list EventSourceKind) (now : Z) :=
  inbox_poll kinds (fun items db => (convert_failing items, db)) now.
End Poll.

(** ** The host around one producer *)

(** Where the poll cycle of the producer is: between cycles, after each store
    operation of [poll], while converting, while publishing the batch, before
    the cursor is saved. *)
Inductive pc :=
| Idle
| Reconciled (now : Z) (rec : bool)
| Requeued (now : Z) (rec : bool)
| Listed (now : Z) (rec : bool) (pending : list IngressItem)
| Converting (now : Z) (rec : bool) (todo : list IngressItem) (batch : list (IngressId * ProducedEvent))
| Publishing (rec : bool) (sent rest : list (IngressId * ProducedEvent)) (failed : bool)
| Saving.

Record host := mkHost {
  h_db : list row;
  h_mem : option (list IngressId);     (** the registry's cursor *)
  h_disk : option (list IngressId);    (** the saved cursor *)
  h_pc : pc;
  h_clock : Z;
  h_log : list (IngressId * EventDeliveryOutcome);   (** what publishing returned *)
  h_dropped : list IngressId;
  h_emissions : list (IngressId * Z)
}.

Definition set_db (h : host) (db : list row) : host :=
  mkHost db (h_mem h) (h_disk h) (h_pc h) (h_clock h) (h_log h) (h_dropped h) (h_emissions h).
Definition goto (h : host) (p : pc) : host :=
  mkHost (h_db h) (h_mem h) (h_disk h) p (h_clock h) (h_log h) (h_dropped h) (h_emissions h).

(** Items as the webhook intakes build them: parsed identifiers and keys. *)
Definition wf_item (i : IngressItem) : Prop :=
  IngressId_parse (it_id i) = Some (it_id i) /\ EventSourceKind_parse (it_kind i) = Some (it_kind i) /\
  EventSourceKey_parse (it_key i) = Some (it_key i) /\ 0 <= it_enqueued i.

(** Nothing was stored yet. *)
Definition host_start (clock : Z) : host := mkHost [] None None Idle clock [] [] [].

Section Host.
Context (convert : IngressItem -> option ProducedEvent).
(** What happens to an item that does not decode. *)
Context (dropping : bool).
Context (kinds : list EventSourceKind).

Inductive step : host -> host -> Prop :=
| step_enqueue created i h : wf_item i -> step h (set_db h (enqueue_ingress_item created i (h_db h)).2)
| step_tick t h : h_clock h <= t ->
    step h (mkHost (h_db h) (h_mem h) (h_disk h) (h_pc h) t (h_log h) (h_dropped h) (h_emissions h))
| step_other_producer h : h_pc h = Idle ->
    step h (set_db h (requeue_stale_ingress (retry_before (h_clock h)) (h_db h)).2)
| step_crash h :
    step h (mkHost (h_db h) (h_disk h) (h_disk h) Idle (h_clock h) (h_log h) (h_dropped h) (h_emissions h))
| step_reconcile h r db : h_pc h = Idle ->
    mark_ingress_delivered (checkpoint_ids (h_mem h)) (h_clock h) (h_db h) = (r, db) ->
    step h (goto (set_db h db)
      (match r with Ok _ => Reconciled (h_clock h) (negb (is_nil (checkpoint_ids (h_mem h)))) | Err _ => Idle end))
| step_requeue h now rec r db : h_pc h = Reconciled now rec ->
    requeue_stale_ingress (retry_before now) (h_db h) = (r, db) ->
    step h (goto (set_db h db) (match r with Ok _ => Requeued now rec | Err _ => Idle end))
| step_list h now rec : h_pc h = Requeued now rec ->
    step h (goto h (match list_pending_ingress_items kinds MAX_ITEMS_PER_POLL (h_db h) with
                    | Ok pending => Listed now rec pending | Err _ => Idle end))
| step_claim h now rec pending emitted db : h_pc h = Listed now rec pending ->
    mark_ingress_emitted (it_id <$> pending) now (h_db h) = (Ok emitted, db) ->
    step h (mkHost db (h_mem h) (h_disk h) (Converting now rec (claimed_items emitted pending) []) (h_clock h)
              (h_log h) (h_dropped h) (h_emissions h ++ ((fun id => (id, now)) <$> emitted)))
| step_claim_failed h now rec pending e db : h_pc h = Listed now rec pending ->
    mark_ingress_emitted (it_id <$> pending) now (h_db h) = (Err e, db) ->
    step h (goto (set_db h db) Idle)
| step_convert h now rec i todo batch e : h_pc h = Converting now rec (i :: todo) batch ->
    convert i = Some e ->
    step h (goto h (Converting now rec todo (batch ++ [(it_id i, e)])))
| step_drop h now rec i todo batch r db : h_pc h = Converting now rec (i :: todo) batch ->
    convert i = None -> dropping = true ->
    mark_ingress_delivered [it_id i] now (h_db h) = (r, db) ->
    step h (mkHost db (h_mem h) (h_disk h)
              (match r with Ok _ => Converting now rec todo batch | Err _ => Idle end) (h_clock h)
              (h_log h) (h_dropped h ++ [it_id i]) (h_emissions h))
| step_give_up h now rec i todo batch : h_pc h = Converting now rec (i :: todo) batch ->
    convert i = None -> dropping = false -> step h (goto h Idle)
| step_polled h now rec batch : h_pc h = Converting now rec [] batch ->
    step h (goto h (Publishing rec [] batch false))
| step_publish h rec sent id e rest failed o : h_pc h = Publishing rec sent ((id, e) :: rest) failed ->
    step h (mkHost (h_db h) (h_mem h) (h_disk h)
              (Publishing rec (sent ++ [(id, e)]) rest (failed || negb (is_nil (failures o)))) (h_clock h)
              (h_log h ++ [(id, o)]) (h_dropped h) (h_emissions h))
| step_publish_failed h rec sent x rest failed : h_pc h = Publishing rec sent (x :: rest) failed ->
    step h (goto h Idle)
| step_advance h rec sent failed : h_pc h = Publishing rec sent [] failed ->
    step h (mkHost (h_db h)
              (if failed then h_mem h else match next_checkpoint rec (fst <$> sent) with
                                           | Some c => Some c | None => h_mem h end)
              (h_disk h) Saving (h_clock h) (h_log h) (h_dropped h) (h_emissions h))
| step_save h : h_pc h = Saving ->
    step h (mkHost (h_db h) (h_mem h) (match h_mem h with Some c => Some c | None => h_disk h end) Idle (h_clock h)
              (h_log h) (h_dropped h) (h_emissions h))
| step_save_failed h : h_pc h = Saving -> step h (goto h Idle).

Definition reachable (clock : Z) (h : host) : Prop := rtc step (host_start clock) h.
End Host.

(** ** What the statements do to each row *)

(** The item a row stores never changes. *)
Definition same_item (r r' : row) : Prop :=
  r_id r' = r_id r /\ r_kind r' = r_kind r /\ r_key r' = r_key r /\ r_payload r' = r_payload r /\
  r_enqueued r' = r_enqueued r.

Definition to_delivered (ids : list IngressId) (r r' : row) : Prop :=
  r' = r \/ (r_id r ∈ ids /\ exists t, r' = set_status Delivered (r_emitted r) (Some t) r).

Definition to_pending (before : Z) (r r' : row) : Prop :=
  r' = r \/ (exists e, r_status r = Emitted /\ r_emitted r = Some e /\ e <= before /\
             r' = set_status Pending None (r_delivered r) r).

Definition to_emitted (emitted : list IngressId) (t : Z) (r r' : row) : Prop :=
  (r' = r /\ ~ (r_id r ∈ emitted)) \/
  (r_id r ∈ emitted /\ r_status r = Pending /\ r' = set_status Emitted (Some t) (r_delivered r) r).

Lemma Forall2_update (p : row -> bool) (f : row -> row) (T : row -> row -> Prop) db :
  (forall r, r ∈ db -> T r (if p r then f r else r)) -> Forall2 T db (update p f db).1.
Proof.
  simpl. induction db as [|r db IH]; intros H; simpl; constructor.
  - apply H. constructor.
  - apply IH. intros r' Hr. apply H. by constructor.
Qed.

Lemma Forall2_refl_rows (T : row -> row -> Prop) db : (forall r, T r r) -> Forall2 T db db.
Proof. intros H. induction db; constructor; auto. Qed.

Lemma mark_delivered_rows ids t db r db' :
  mark_ingress_delivered ids t db = (r, db') -> Forall2 (to_delivered ids) db db'.
Proof.
  assert (Hid : Forall2 (to_delivered ids) db db) by (apply Forall2_refl_rows; by left).
  unfold mark_ingress_delivered. destruct ids as [|id ids]; [by intros [= _ <-]|].
  destruct (unix_ms_to_db_int t) as [t'|]; [|by intros [= _ <-]].
  match goal with |- context [update ?p ?f db] => set (u := update p f db) end. intros [= _ <-].
  apply Forall2_update. intros x _. destruct (_ && _) eqn:Hp; [|by left].
  apply andb_true_iff in Hp as [Hin _]. apply bool_decide_eq_true in Hin. right. split; [done|by eexists].
Qed.

Lemma requeue_rows before db r db' :
  requeue_stale_ingress before db = (r, db') -> Forall2 (to_pending before) db db'.
Proof.
  unfold requeue_stale_ingress, unix_ms_to_db_int. destruct (before <=? i64_max); simpl.
  - intros [= _ <-]. apply (Forall2_update _ (fun r => set_status Pending None (r_delivered r) r)). intros x _.
    destruct (bool_decide (r_status x = Emitted)) eqn:Hs; simpl; [|by left].
    destruct (r_emitted x) as [e|] eqn:He; [|by left]. destruct (e <=? before) eqn:Hle; [|by left].
    right. exists e. apply bool_decide_eq_true in Hs. apply Z.leb_le in Hle. by split_and!.
  - intros [= _ <-]. apply Forall2_refl_rows. by left.
Qed.

Lemma mark_emitted_rows ids t db emitted db' :
  NoDup (r_id <$> db) -> mark_ingress_emitted ids t db = (Ok emitted, db') ->
  Forall2 (to_emitted emitted t) db db' /\ NoDup emitted.
Proof.
  intros Hnd. unfold mark_ingress_emitted. destruct ids as [|id0 ids0]; [intros [= <- <-]; split; [|constructor]|].
  { apply Forall2_refl_rows. intros r. left. split; [done|by intros ?%elem_of_nil]. }
  unfold unix_ms_to_db_int. destruct (t <=? i64_max); [|done]. set (ids := id0 :: ids0).
  set (p := fun r => bool_decide (r_id r ∈ ids) && bool_decide (r_status r = Pending) && bool_decide (r_emitted r = None)).
  set (f := fun r => set_status Emitted (Some t) (r_delivered r) r). intros [= <- <-].
  assert (Hids : r_id <$> (f <$> List.filter p db) = r_id <$> List.filter p db) by (rewrite <-list_fmap_compose; done).
  change (Forall2 (to_emitted (r_id <$> (f <$> List.filter p db)) t) db (update p f db).1 /\
          NoDup (r_id <$> (f <$> List.filter p db))). rewrite Hids. split.
  - apply Forall2_update. intros r Hr. destruct (p r) eqn:Hp.
    + right. split_and!.
      * apply list_elem_of_fmap. exists r. split; [done|]. apply list_elem_of_In, List.filter_In. split; [by apply list_elem_of_In|done].
      * unfold p in Hp. apply andb_true_iff in Hp as [[_ Hs]%andb_true_iff _]. by apply bool_decide_eq_true in Hs.
      * done.
    + left. split; [done|]. intros (r2 & Hid & Hr2)%list_elem_of_fmap.
      apply list_elem_of_In, List.filter_In in Hr2 as [Hr2 Hp2]. apply list_elem_of_In in Hr2.
      apply list_elem_of_lookup in Hr as [i Hi]. apply list_elem_of_lookup in Hr2 as [j Hj].
      assert (i = j) as ->.
      { eapply (NoDup_lookup (r_id <$> db)); [done|rewrite list_lookup_fmap, Hi; done|]. rewrite list_lookup_fmap, Hj. simpl. congruence. }
      congruence.
  - clear -Hnd. induction db as [|r db IH]; simpl in *; [constructor|]. apply NoDup_cons in Hnd as [Hn Hnd].
    destruct (p r); [|by apply IH]. simpl. constructor; [|by apply IH].
    intros (r2 & Hid & Hr2)%list_elem_of_fmap. apply Hn, list_elem_of_fmap. exists r2. split; [done|].
    apply list_elem_of_In, List.filter_In in Hr2 as [Hr2 _]. by apply list_elem_of_In.
Qed.

Lemma same_item_refl r : same_item r r.
Proof. by split_and!. Qed.

Lemma set_status_same st em de r : same_item r (set_status st em de r).
Proof. by split_and!. Qed.

Lemma to_delivered_same ids r r' : to_delivered ids r r' -> same_item r r'.
Proof. intros [->|(_ & t & ->)]; [apply same_item_refl|apply set_status_same]. Qed.

Lemma to_pending_same b r r' : to_pending b r r' -> same_item r r'.
Proof. intros [->|(e & _ & _ & _ & ->)]; [apply same_item_refl|apply set_status_same]. Qed.

Lemma to_emitted_same em t r r' : to_emitted em t r r' -> same_item r r'.
Proof. intros [[-> _]|(_ & _ & ->)]; [apply same_item_refl|apply set_status_same]. Qed.

Lemma same_item_parse r r' : same_item r r' -> parse_ingress_row r' = parse_ingress_row r.
Proof. intros (Hi & Hk & Hy & Hp & He). unfold parse_ingress_row. by rewrite Hi, Hk, Hy, Hp, He. Qed.

Lemma same_items_ids db db' : Forall2 same_item db db' -> r_id <$> db' = r_id <$> db.
Proof. induction 1 as [|r r' db db' [Hi _] _ IH]; [done|]. simpl. rewrite Hi. f_equal. exact IH. Qed.

Lemma Forall2_elem_r {A B} (T : A -> B -> Prop) l k y : Forall2 T l k -> y ∈ k -> exists x, x ∈ l /\ T x y.
Proof.
  intros H. induction H as [|a b l k Hab _ IH]; [by intros ?%elem_of_nil|].
  intros [->|Hy]%elem_of_cons; [exists a; split; [constructor|done]|].
  destruct (IH Hy) as (x & Hx & Hxy). exists x. split; [by constructor|done].
Qed.

Lemma Forall2_elem_l {A B} (T : A -> B -> Prop) l k x : Forall2 T l k -> x ∈ l -> exists y, y ∈ k /\ T x y.
Proof.
  intros H. induction H as [|a b l k Hab _ IH]; [by intros ?%elem_of_nil|].
  intros [->|Hy]%elem_of_cons; [exists b; split; [constructor|done]|].
  destruct (IH Hy) as (y & Hx & Hxy). exists y. split; [by constructor|done].
Qed.

(** ** Invariant *)

(** The item was published and no subscriber failed. *)
Definition clean (h : host) (id : IngressId) : Prop := exists o, (id, o) ∈ h_log h /\ failures o = [].

Definition item_of (db : list row) (i : IngressItem) : Prop := exists r, r ∈ db /\ parse_ingress_row r = Ok i.

(** The time by which a row pending now was due for a new attempt. *)
Definition due_by (p : pc) (clock : Z) : Z :=
  match p with Reconciled now _ | Requeued now _ | Listed now _ _ => now | _ => clock end.

Definition pc_items (p : pc) : list IngressItem :=
  match p with Listed _ _ pending => pending | Converting _ _ todo _ => todo | _ => [] end.

Definition sent_ok (h : host) (p : pc) : Prop :=
  match p with Publishing _ sent _ failed => failed = false -> forall x, x ∈ sent -> clean h x.1 | _ => True end.

(** Earlier emissions of an item, given where its row stands. *)
Definition emit_ok (db : list row) (em : list (IngressId * Z)) (due : Z) : Prop :=
  forall t r, r ∈ db -> (r_id r, t) ∈ em ->
    match r_status r with
    | Pending => t + RETRY_AFTER_MS <= due
    | Emitted => exists t', r_emitted r = Some t' /\ t <= t'
    | Delivered => True
    end.

Definition spaced (em : list (IngressId * Z)) : Prop :=
  forall i j id t1 t2, (i < j)%nat -> em !! i = Some (id, t1) -> em !! j = Some (id, t2) -> t1 + RETRY_AFTER_MS <= t2.

Definition wf_row (r : row) : Prop := exists i, wf_item i /\ parse_ingress_row r = Ok i /\ it_id i = r_id r.

Section Invariant.
Context (convert : IngressItem -> option ProducedEvent) (dropping : bool) (kinds : list EventSourceKind).

Record inv (h : host) : Prop := {
  i_nodup : NoDup (r_id <$> h_db h);
  i_rows : forall r, r ∈ h_db h -> wf_row r;
  i_due : RETRY_AFTER_MS <= due_by (h_pc h) (h_clock h) <= h_clock h;
  i_mem : forall id, id ∈ checkpoint_ids (h_mem h) -> clean h id;
  i_disk : forall id, id ∈ checkpoint_ids (h_disk h) -> clean h id;
  i_delivered : forall r, r ∈ h_db h -> r_status r = Delivered -> clean h (r_id r) \/ r_id r ∈ h_dropped h;
  i_dropped : forall id, id ∈ h_dropped h -> exists i, item_of (h_db h) i /\ it_id i = id /\ convert i = None;
  i_items : forall i, i ∈ pc_items (h_pc h) -> item_of (h_db h) i;
  i_sent : sent_ok h (h_pc h);
  i_emit : emit_ok (h_db h) (h_emissions h) (due_by (h_pc h) (h_clock h));
  i_spaced : spaced (h_emissions h);
  i_known : forall x, x ∈ h_emissions h -> x.1 ∈ r_id <$> h_db h
}.

(** *** Tables *)

Lemma item_of_same db db' i : Forall2 same_item db db' -> item_of db i -> item_of db' i.
Proof.
  intros HF (r & Hr & Hp). destruct (Forall2_elem_l _ _ _ _ HF Hr) as (r' & Hr' & Hs).
  exists r'. split; [done|]. by rewrite (same_item_parse _ _ Hs).
Qed.

Lemma wf_row_same r r' : same_item r r' -> wf_row r -> wf_row r'.
Proof. intros Hs (i & Hi & Hp & Hid). exists i. rewrite (same_item_parse _ _ Hs). destruct Hs as [-> _]. done. Qed.

Lemma emit_ok_mono db em d d' : d <= d' -> emit_ok db em d -> emit_ok db em d'.
Proof. intros Hd H t r Hr Ht. specialize (H t r Hr Ht). destruct (r_status r); [lia|done|done]. Qed.

Lemma emit_ok_delivered ids db db' em d :
  Forall2 (to_delivered ids) db db' -> emit_ok db em d -> emit_ok db' em d.
Proof.
  intros HF H t r' Hr' Ht. destruct (Forall2_elem_r _ _ _ _ HF Hr') as (r & Hr & [->|(_ & t' & ->)]); [by apply H|done].
Qed.

Lemma emit_ok_pending before db db' em d :
  before + RETRY_AFTER_MS <= d -> Forall2 (to_pending before) db db' -> emit_ok db em d -> emit_ok db' em d.
Proof.
  intros Hb HF H t r' Hr' Ht.
  destruct (Forall2_elem_r _ _ _ _ HF Hr') as (r & Hr & [->|(e & Hs & He & Hle & ->)]); [by apply H|].
  simpl in *. specialize (H t r Hr Ht). rewrite Hs, He in H. destruct H as (t' & [= <-] & Ht'). lia.
Qed.

Lemma emit_ok_claim emitted now db db' em d :
  Forall2 (to_emitted emitted now) db db' -> now <= d -> emit_ok db em now ->
  emit_ok db' (em ++ ((fun id => (id, now)) <$> emitted)) d.
Proof.
  intros HF Hd H t r' Hr' Ht.
  destruct (Forall2_elem_r _ _ _ _ HF Hr') as (r & Hr & [[-> Hn]|(Hin & Hs & ->)]).
  - apply elem_of_app in Ht as [Ht|Ht].
    + specialize (H t r Hr Ht). destruct (r_status r); [lia|done|done].
    + apply list_elem_of_fmap in Ht as (id & [= <- <-] & Hid). done.
  - simpl. exists now. split; [done|]. simpl in Ht. apply elem_of_app in Ht as [Ht|Ht].
    + specialize (H t r Hr Ht). rewrite Hs in H. unfold RETRY_AFTER_MS in H. lia.
    + apply list_elem_of_fmap in Ht as (id & [= <- <-] & Hid). lia.
Qed.

Lemma spaced_claim emitted now db db' em :
  Forall2 (to_emitted emitted now) db db' -> NoDup emitted ->
  (forall id, id ∈ emitted -> exists r, r ∈ db /\ r_id r = id /\ r_status r = Pending) ->
  emit_ok db em now -> spaced em -> spaced (em ++ ((fun id => (id, now)) <$> emitted)).
Proof.
  intros HF Hnd Hex He Hs i j id t1 t2 Hij Hi Hj.
  destruct (decide (j < length em)%nat) as [Hlt|Hge].
  { rewrite lookup_app_l in Hj by lia. rewrite lookup_app_l in Hi by lia. by apply (Hs i j id). }
  rewrite lookup_app_r in Hj by lia. rewrite list_lookup_fmap in Hj.
  destruct (emitted !! (j - length em)%nat) as [idj|] eqn:Hej; [|done]. injection Hj as -> <-.
  destruct (decide (i < length em)%nat) as [Hlt|Hge'].
  - rewrite lookup_app_l in Hi by lia. destruct (Hex id) as (r & Hr & Hid & Hst); [by eapply list_elem_of_lookup_2|].
    specialize (He t1 r Hr). rewrite Hid, Hst in He. apply He. by eapply list_elem_of_lookup_2.
  - rewrite lookup_app_r in Hi by lia. rewrite list_lookup_fmap in Hi.
    destruct (emitted !! (i - length em)%nat) as [idi|] eqn:Hei; [|done]. injection Hi as -> <-.
    pose proof (NoDup_lookup _ _ _ _ Hnd Hei Hej). lia.
Qed.

(** *** Steps *)

(** A step that changes rows and moves on, leaving the rest. *)
Lemma inv_table h db p (T : row -> row -> Prop) :
  inv h -> Forall2 T (h_db h) db -> (forall r r', T r r' -> same_item r r') ->
  (forall r, r ∈ db -> r_status r = Delivered -> clean h (r_id r) \/ r_id r ∈ h_dropped h) ->
  RETRY_AFTER_MS <= due_by p (h_clock h) <= h_clock h ->
  (forall i, i ∈ pc_items p -> item_of (h_db h) i) -> sent_ok h p ->
  emit_ok db (h_emissions h) (due_by p (h_clock h)) ->
  inv (goto (set_db h db) p).
Proof.
  intros Hinv HF HT Hdel Hdue Hitems Hsent Hemit.
  assert (Hsame : Forall2 same_item (h_db h) db) by (by eapply Forall2_impl).
  constructor; simpl; try apply Hinv; try done.
  - rewrite (same_items_ids _ _ Hsame). apply Hinv.
  - intros r' Hr'. destruct (Forall2_elem_r _ _ _ _ Hsame Hr') as (r & Hr & Hs).
    by eapply wf_row_same, (i_rows _ Hinv).
  - intros id Hid. destruct (i_dropped _ Hinv id Hid) as (i & Hi & Hii & Hc). exists i. split_and!; [|done..].
    by eapply item_of_same.
  - intros i Hi. eapply item_of_same; [done|]. by apply Hitems.
  - rewrite (same_items_ids _ _ Hsame). apply Hinv.
Qed.

Lemma inv_goto h p :
  inv h -> RETRY_AFTER_MS <= due_by p (h_clock h) <= h_clock h ->
  due_by (h_pc h) (h_clock h) <= due_by p (h_clock h) ->
  (forall i, i ∈ pc_items p -> item_of (h_db h) i) -> sent_ok h p -> inv (goto h p).
Proof.
  intros Hinv Hdue Hle Hitems Hsent. constructor; simpl; try apply Hinv; try done.
  eapply emit_ok_mono; [exact Hle|apply Hinv].
Qed.

Lemma delivered_clean h ids db db' :
  (forall r, r ∈ db -> r_status r = Delivered -> clean h (r_id r) \/ r_id r ∈ h_dropped h) ->
  (forall id, id ∈ ids -> clean h id \/ id ∈ h_dropped h) ->
  Forall2 (to_delivered ids) db db' ->
  forall r, r ∈ db' -> r_status r = Delivered -> clean h (r_id r) \/ r_id r ∈ h_dropped h.
Proof.
  intros H Hids HF r' Hr' Hs. destruct (Forall2_elem_r _ _ _ _ HF Hr') as (r & Hr & [->|(Hin & t & ->)]); [by apply H|].
  simpl. by apply Hids.
Qed.

Lemma reconcile_inv h r db :
  inv h -> h_pc h = Idle -> mark_ingress_delivered (checkpoint_ids (h_mem h)) (h_clock h) (h_db h) = (r, db) ->
  inv (goto (set_db h db)
      (match r with Ok _ => Reconciled (h_clock h) (negb (is_nil (checkpoint_ids (h_mem h)))) | Err _ => Idle end)).
Proof.
  intros Hinv Hpc Hm. apply mark_delivered_rows in Hm. pose proof (i_due _ Hinv) as Hdue. rewrite Hpc in Hdue. simpl in Hdue.
  eapply inv_table; [done|exact Hm|apply to_delivered_same| | | | |].
  - eapply delivered_clean; [apply Hinv| |done]. intros id Hid. left. by apply (i_mem _ Hinv).
  - destruct r; simpl; lia.
  - destruct r; simpl; by intros i ?%elem_of_nil.
  - by destruct r.
  - eapply emit_ok_mono, emit_ok_delivered; [|exact Hm|apply Hinv]. rewrite Hpc. destruct r; simpl; lia.
Qed.

(** [requeue_stale] for cut-off [retry_before now], by this producer or
    another. *)
Lemma requeue_inv h now r db p :
  inv h -> requeue_stale_ingress (retry_before now) (h_db h) = (r, db) ->
  RETRY_AFTER_MS <= now -> due_by (h_pc h) (h_clock h) <= now -> now <= due_by p (h_clock h) <= h_clock h ->
  (forall i, i ∈ pc_items p -> item_of (h_db h) i) -> sent_ok h p ->
  inv (goto (set_db h db) p).
Proof.
  intros Hinv Hm Hnow Hle Hdue Hitems Hsent. apply requeue_rows in Hm.
  eapply inv_table; [done|exact Hm|apply to_pending_same| | |done|done|].
  - intros r' Hr' Hs. destruct (Forall2_elem_r _ _ _ _ Hm Hr') as (r0 & Hr & [->|(e & _ & _ & _ & ->)]); [|done].
    by apply (i_delivered _ Hinv).
  - lia.
  - eapply emit_ok_mono, emit_ok_pending; [|reflexivity|exact Hm|eapply emit_ok_mono; [|apply Hinv]];
      unfold retry_before in *; lia.
Qed.

Lemma parse_rows_items db rs items :
  (forall r, r ∈ rs -> r ∈ db) -> parse_rows rs = Ok items -> forall i, i ∈ items -> item_of db i.
Proof.
  revert items. induction rs as [|r rs IH]; intros items Hin; simpl; [intros [= <-] i Hi; by apply elem_of_nil in Hi|].
  destruct (parse_ingress_row r) as [i0|] eqn:Hp; simpl; [|done]. destruct (parse_rows rs) as [is0|]; simpl; [|done].
  intros [= <-] i [->|Hi]%elem_of_cons; [exists r; split; [apply Hin; constructor|done]|].
  eapply IH; [|done..]. intros r' Hr'. apply Hin. by constructor.
Qed.

Lemma listed_items db limit items :
  list_pending_ingress_items kinds limit db = Ok items -> forall i, i ∈ items -> item_of db i.
Proof.
  apply parse_rows_items. intros r Hr. apply list_elem_of_lookup in Hr as [k Hk]. apply lookup_take_Some in Hk as [Hk _].
  apply list_elem_of_lookup_2 in Hk. rewrite merge_sort_Permutation in Hk.
  apply list_elem_of_In, List.filter_In in Hk as [Hk _]. by apply list_elem_of_In.
Qed.
Lemma wf_item_parse i t :
  wf_item i -> t = it_enqueued i ->
  parse_ingress_row (mkRow (it_id i) (Some (it_kind i)) (it_key i) (it_payload i) Pending t None None) = Ok i.
Proof.
  intros (Hid & Hk & Hy & Ht) ->. unfold parse_ingress_row. simpl. rewrite Hid, Hk, Hy. simpl.
  rewrite (proj2 (Z.ltb_ge _ _)) by lia. by destruct i.
Qed.

(** What enqueueing does: nothing, or a new pending row. *)
Lemma enqueue_cases c i db :
  (enqueue_ingress_item c i db).2 = db \/
  (it_id i ∉ r_id <$> db) /\
  (enqueue_ingress_item c i db).2 =
    db ++ [mkRow (it_id i) (Some (it_kind i)) (it_key i) (it_payload i) Pending (it_enqueued i) None None].
Proof.
  unfold enqueue_ingress_item, unix_ms_to_db_int. destruct (existsb _ db) eqn:He; [by left|].
  destruct (_ <=? i64_max); [|by left]. destruct c; [|by left]. right. split; [|done]. intros (r & Hid & Hr)%list_elem_of_fmap.
  apply not_true_iff_false in He. apply He, existsb_exists. exists r.
  split; [by apply list_elem_of_In|]. by apply bool_decide_eq_true.
Qed.

Lemma enqueue_inv h c i : inv h -> wf_item i -> inv (set_db h (enqueue_ingress_item c i (h_db h)).2).
Proof.
  intros Hinv Hi. destruct (enqueue_cases c i (h_db h)) as [->|[Hn ->]]; [by destruct h|].
  set (r := mkRow _ _ _ _ _ _ _ _). assert (Hp : parse_ingress_row r = Ok i) by (by apply wf_item_parse).
  assert (Hmono : forall j, item_of (h_db h) j -> item_of (h_db h ++ [r]) j).
  { intros j (r0 & Hr0 & Hj). exists r0. split; [|done]. apply elem_of_app. by left. }
  constructor; simpl; try apply Hinv.
  - rewrite fmap_app. apply NoDup_app. split_and!; [apply Hinv| |apply NoDup_singleton].
    intros x Hx ->%list_elem_of_singleton. done.
  - intros r0 [Hr0| ->%list_elem_of_singleton]%elem_of_app; [by apply (i_rows _ Hinv)|]. by exists i.
  - intros r0 [Hr0| ->%list_elem_of_singleton]%elem_of_app; [by apply (i_delivered _ Hinv)|done].
  - intros id Hid. destruct (i_dropped _ Hinv id Hid) as (j & Hj & ?). exists j. split; [by apply Hmono|done].
  - intros j Hj. by apply Hmono, (i_items _ Hinv).
  - intros t r0 [Hr0| ->%list_elem_of_singleton]%elem_of_app Ht; [by apply (i_emit _ Hinv)|].
    exfalso. apply Hn. by apply (i_known _ Hinv _ Ht).
  - intros x Hx. rewrite fmap_app. apply elem_of_app. left. by apply (i_known _ Hinv).
Qed.

Lemma to_emitted_source emitted t db db' :
  Forall2 (to_emitted emitted t) db db' -> (forall id, id ∈ emitted -> id ∈ r_id <$> db) ->
  forall id, id ∈ emitted -> exists r, r ∈ db /\ r_id r = id /\ r_status r = Pending.
Proof.
  intros HF Hin id Hid. destruct (proj1 (list_elem_of_fmap _ _ _) (Hin id Hid)) as (r & -> & Hr).
  destruct (Forall2_elem_l _ _ _ _ HF Hr) as (r' & _ & [[_ Hn]|(_ & Hs & _)]); [done|]. by exists r.
Qed.

Lemma mark_emitted_known ids t db emitted db' :
  mark_ingress_emitted ids t db = (Ok emitted, db') -> forall id, id ∈ emitted -> id ∈ r_id <$> db.
Proof.
  unfold mark_ingress_emitted. destruct ids as [|id0 ids]; [intros [= <- _] id Hid; by apply elem_of_nil in Hid|].
  destruct (unix_ms_to_db_int t); [|done]. intros [= <- _] id Hid. rewrite <-list_fmap_compose in Hid.
  apply list_elem_of_fmap in Hid as (r & -> & Hr). apply list_elem_of_In, List.filter_In in Hr as [Hr _].
  apply list_elem_of_fmap. exists r. split; [done|by apply list_elem_of_In].
Qed.

Lemma claim_inv h now rec pending emitted db :
  inv h -> h_pc h = Listed now rec pending ->
  mark_ingress_emitted (it_id <$> pending) now (h_db h) = (Ok emitted, db) ->
  inv (mkHost db (h_mem h) (h_disk h) (Converting now rec (claimed_items emitted pending) []) (h_clock h)
         (h_log h) (h_dropped h) (h_emissions h ++ ((fun id => (id, now)) <$> emitted))).
Proof.
  intros Hinv Hpc Hm. pose proof (mark_emitted_known _ _ _ _ _ Hm) as Hknown.
  apply mark_emitted_rows in Hm as [HF Hnd]; [|apply Hinv].
  pose proof (i_due _ Hinv) as Hdue. pose proof (i_emit _ Hinv) as Hemit. pose proof (i_items _ Hinv) as Hitems.
  rewrite Hpc in Hdue, Hemit, Hitems. simpl in Hdue, Hemit, Hitems.
  assert (Hsame : Forall2 same_item (h_db h) db) by (eapply Forall2_impl; [exact HF|apply to_emitted_same]).
  pose proof (same_items_ids _ _ Hsame) as Hids.
  constructor; simpl; try apply Hinv.
  - rewrite Hids. apply Hinv.
  - intros r' Hr'. destruct (Forall2_elem_r _ _ _ _ Hsame Hr') as (r & Hr & Hs). by eapply wf_row_same, (i_rows _ Hinv).
  - lia.
  - intros r' Hr' Hs. destruct (Forall2_elem_r _ _ _ _ HF Hr') as (r & Hr & [[-> _]|(_ & _ & ->)]); [|done].
    by apply (i_delivered _ Hinv).
  - intros id Hid. destruct (i_dropped _ Hinv id Hid) as (i & Hi & Hii & Hc). exists i. split_and!; [|done..].
    by eapply item_of_same.
  - intros i Hi. eapply item_of_same; [done|]. apply Hitems. unfold claimed_items in Hi.
    apply list_elem_of_In, List.filter_In in Hi as [Hi _]. by apply list_elem_of_In.
  - exact I.
  - eapply emit_ok_claim; [exact HF|lia|done].
  - eapply spaced_claim; [exact HF|done| |done|apply Hinv]. by eapply to_emitted_source.
  - rewrite Hids. intros x [Hx|Hx]%elem_of_app; [by apply (i_known _ Hinv)|].
    apply list_elem_of_fmap in Hx as (id & -> & Hid). by apply Hknown.
Qed.

Lemma item_of_id h i : inv h -> item_of (h_db h) i -> exists r, r ∈ h_db h /\ r_id r = it_id i.
Proof.
  intros Hinv (r & Hr & Hp). exists r. split; [done|]. destruct (i_rows _ Hinv r Hr) as (j & _ & Hj & Hid). congruence.
Qed.

Lemma drop_inv h now rec i todo batch r db :
  inv h -> h_pc h = Converting now rec (i :: todo) batch -> convert i = None ->
  mark_ingress_delivered [it_id i] now (h_db h) = (r, db) ->
  inv (mkHost db (h_mem h) (h_disk h) (match r with Ok _ => Converting now rec todo batch | Err _ => Idle end)
         (h_clock h) (h_log h) (h_dropped h ++ [it_id i]) (h_emissions h)).
Proof.
  intros Hinv Hpc Hc Hm. apply mark_delivered_rows in Hm.
  pose proof (i_due _ Hinv) as Hdue. pose proof (i_emit _ Hinv) as Hemit. pose proof (i_items _ Hinv) as Hitems.
  rewrite Hpc in Hdue, Hemit, Hitems. simpl in Hdue, Hemit, Hitems.
  set (h' := mkHost (h_db h) (h_mem h) (h_disk h) (h_pc h) (h_clock h) (h_log h) (h_dropped h ++ [it_id i]) (h_emissions h)).
  assert (Hinv' : inv h').
  { constructor; try apply Hinv.
    - intros x Hx Hs. destruct (i_delivered _ Hinv x Hx Hs) as [?|?]; [by left|]. right. apply elem_of_app. by left.
    - intros id [Hid| ->%list_elem_of_singleton]%elem_of_app; [by apply (i_dropped _ Hinv)|].
      exists i. split_and!; [|done..]. apply Hitems. constructor. }
  refine (inv_table h' db _ (to_delivered [it_id i]) Hinv' Hm (to_delivered_same _) _ _ _ _ _).
  - eapply delivered_clean; [apply Hinv'| |done]. intros id ->%list_elem_of_singleton. right.
    apply elem_of_app. right. constructor.
  - simpl. destruct r; simpl; lia.
  - destruct r; [|by intros j ?%elem_of_nil]. intros j Hj. apply Hitems. by constructor.
  - by destruct r.
  - simpl. eapply emit_ok_delivered; [exact Hm|]. by destruct r.
Qed.

Lemma clean_mono h db mem disk p clock x dr em id :
  clean h id -> clean (mkHost db mem disk p clock (h_log h ++ [x]) dr em) id.
Proof. intros (o & Ho & Hf). exists o. split; [|done]. apply elem_of_app. by left. Qed.

Lemma publish_inv h rec sent id e rest failed o :
  inv h -> h_pc h = Publishing rec sent ((id, e) :: rest) failed ->
  inv (mkHost (h_db h) (h_mem h) (h_disk h)
         (Publishing rec (sent ++ [(id, e)]) rest (failed || negb (is_nil (failures o)))) (h_clock h)
         (h_log h ++ [(id, o)]) (h_dropped h) (h_emissions h)).
Proof.
  intros Hinv Hpc. pose proof (i_due _ Hinv) as Hdue. pose proof (i_emit _ Hinv) as Hemit. pose proof (i_sent _ Hinv) as Hsent.
  rewrite Hpc in Hdue, Hemit, Hsent. constructor; simpl; try apply Hinv; try done.
  - intros x Hx. by apply clean_mono, (i_mem _ Hinv).
  - intros x Hx. by apply clean_mono, (i_disk _ Hinv).
  - intros r Hr Hs. destruct (i_delivered _ Hinv r Hr Hs); [left; by apply clean_mono|by right].
  - by intros i ?%elem_of_nil.
  - intros [-> Ho]%orb_false_iff x [Hx| ->%list_elem_of_singleton]%elem_of_app; [by apply clean_mono, Hsent|].
    exists o. split; [apply elem_of_app; right; constructor|]. simpl. apply negb_false_iff in Ho. by destruct (failures o).
Qed.

Lemma next_checkpoint_ids rec ids c : next_checkpoint rec ids = Some c -> c = ids.
Proof. unfold next_checkpoint. destruct ids; [destruct rec; congruence|congruence]. Qed.

Lemma advance_inv h rec sent failed :
  inv h -> h_pc h = Publishing rec sent [] failed ->
  inv (mkHost (h_db h)
         (if failed then h_mem h else match next_checkpoint rec (fst <$> sent) with
                                      | Some c => Some c | None => h_mem h end)
         (h_disk h) Saving (h_clock h) (h_log h) (h_dropped h) (h_emissions h)).
Proof.
  intros Hinv Hpc. pose proof (i_due _ Hinv) as Hdue. pose proof (i_emit _ Hinv) as Hemit. pose proof (i_sent _ Hinv) as Hsent.
  rewrite Hpc in Hdue, Hemit, Hsent. constructor; simpl; try apply Hinv; try done; [|by intros i ?%elem_of_nil].
  intros id Hid. destruct failed; [by apply (i_mem _ Hinv)|].
  destruct (next_checkpoint rec (fst <$> sent)) as [c|] eqn:Hc; [|by apply (i_mem _ Hinv)].
  apply next_checkpoint_ids in Hc. subst c. simpl in Hid. apply list_elem_of_fmap in Hid as (x & -> & Hx).
  by apply (Hsent eq_refl x).
Qed.

Lemma inbox_step_inv h h' : step convert dropping kinds h h' -> inv h -> inv h'.
Proof.
  intros Hst Hinv. pose proof (i_due _ Hinv) as Hdue. pose proof (i_items _ Hinv) as Hitems.
  destruct Hst as [i h Hi|t h Ht|h Hpc|h|h r db Hpc Hm|h now rec r db Hpc Hm|h now rec Hpc|h now rec pending emitted db Hpc Hm
    |h now rec pending e db Hpc Hm|h now rec i todo batch e Hpc Hc|h now rec i todo batch r db Hpc Hc _ Hm
    |h now rec i todo batch Hpc Hc _|h now rec batch Hpc|h rec sent id e rest failed o Hpc|h rec sent x rest failed Hpc
    |h rec sent failed Hpc|h Hpc|h Hpc];
    try (rewrite Hpc in Hdue, Hitems; simpl in Hdue, Hitems).
  - by apply enqueue_inv.
  - constructor; simpl; try apply Hinv.
    + destruct (h_pc h); simpl in *; lia.
    + eapply emit_ok_mono; [|apply Hinv]. destruct (h_pc h); simpl; lia.
  - destruct (requeue_stale_ingress (retry_before (h_clock h)) (h_db h)) as [r db] eqn:Hm. simpl.
    pose proof (requeue_inv h (h_clock h) r db Idle Hinv Hm) as HH.
    destruct h as [db0 mem disk p clock log dr em]; simpl in *. subst p. apply HH; simpl; try lia; try (by intros ? ?%elem_of_nil).
  - constructor; simpl; try apply Hinv.
    + destruct (h_pc h); simpl in *; lia.
    + by intros i ?%elem_of_nil.
    + done.
    + eapply emit_ok_mono; [|apply Hinv]. destruct (h_pc h); simpl in *; lia.
  - by apply reconcile_inv.
  - eapply (requeue_inv h now r db); [done|done|lia|rewrite Hpc; simpl; lia|destruct r; simpl; lia| |by destruct r].
    destruct r; by intros i ?%elem_of_nil.
  - destruct (list_pending_ingress_items kinds MAX_ITEMS_PER_POLL (h_db h)) as [pending|] eqn:Hl.
    + apply inv_goto; rewrite ?Hpc; simpl; try done; try lia. by eapply listed_items.
    + apply inv_goto; rewrite ?Hpc; simpl; try done; try lia; try (by intros ? ?%elem_of_nil).
  - by apply claim_inv.
  - assert (db = h_db h) as ->.
    { unfold mark_ingress_emitted in Hm. destruct (it_id <$> pending); [done|]. destruct (unix_ms_to_db_int now); [done|congruence]. }
    destruct h as [db0 mem disk p clock log dr em]; simpl in *. subst p.
    apply (inv_goto (mkHost db0 mem disk (Listed now rec pending) clock log dr em) Idle); simpl; try done; try lia; try (by intros ? ?%elem_of_nil).
  - apply inv_goto; rewrite ?Hpc; simpl; try done; try lia. intros j Hj. apply Hitems. by constructor.
  - by apply drop_inv.
  - apply inv_goto; rewrite ?Hpc; simpl; try done; try lia; try (by intros ? ?%elem_of_nil).
  - apply inv_goto; rewrite ?Hpc; simpl; try done; try lia; [by intros ? ?%elem_of_nil..|by intros _ ? ?%elem_of_nil].
  - by eapply publish_inv.
  - apply inv_goto; rewrite ?Hpc; simpl; try done; try lia; try (by intros ? ?%elem_of_nil).
  - by eapply advance_inv.
  - constructor; simpl; try apply Hinv; try done; try lia.
    + intros id. destruct (h_mem h) as [c|] eqn:Hmem; [|apply (i_disk _ Hinv)].
      pose proof (i_mem _ Hinv id) as HH. by rewrite Hmem in HH.
    + pose proof (i_emit _ Hinv) as He. by rewrite Hpc in He.
  - apply inv_goto; rewrite ?Hpc; simpl; try done; try lia; try (by intros ? ?%elem_of_nil).
Qed.

Lemma inbox_reachable_inv clock h : RETRY_AFTER_MS <= clock -> reachable convert dropping kinds clock h -> inv h.
Proof.
  intros Hc Hr. assert (H0 : inv (host_start clock)).
  { constructor; simpl; try (by intros ? ?%elem_of_nil); try (by constructor); try lia; try done.
    intros t r ?%elem_of_nil; done. }
  revert H0. unfold reachable in Hr. remember (host_start clock) as h0 eqn:Hh. clear Hh.
  induction Hr as [|h1 h2 h3 Hst _ IH]; [done|]. intros Hinv. apply IH. by eapply inbox_step_inv.
Qed.
End Invariant.

(** ** Rows are kept *)

(** A row keeps its item, and stays delivered once it is. *)
Definition kept (r r' : row) : Prop := same_item r r' /\ (r_status r = Delivered -> r_status r' = Delivered).

Lemma kept_refl r : kept r r.
Proof. split; [apply same_item_refl|done]. Qed.

Lemma kept_trans r1 r2 r3 : kept r1 r2 -> kept r2 r3 -> kept r1 r3.
Proof.
  intros [(H1 & H2 & H3 & H4 & H5) Hd] [(G1 & G2 & G3 & G4 & G5) Hd']. split; [|auto]. split_and!; congruence.
Qed.

Lemma to_delivered_kept ids r r' : to_delivered ids r r' -> kept r r'.
Proof. intros H. split; [by eapply to_delivered_same|]. destruct H as [->|(_ & t & ->)]; done. Qed.

Lemma to_pending_kept b r r' : to_pending b r r' -> kept r r'.
Proof. intros H. split; [by eapply to_pending_same|]. destruct H as [->|(e & Hs & _ & _ & ->)]; [done|congruence]. Qed.

Lemma to_emitted_kept em t r r' : to_emitted em t r r' -> kept r r'.
Proof. intros H. split; [by eapply to_emitted_same|]. destruct H as [[-> _]|(_ & Hs & ->)]; [done|congruence]. Qed.

(** Every row of [db] lives on in [db']. *)
Definition lives_on (db db' : list row) : Prop := forall r, r ∈ db -> exists r', r' ∈ db' /\ kept r r'.

Lemma lives_on_trans a b c : lives_on a b -> lives_on b c -> lives_on a c.
Proof.
  intros H1 H2 r Hr. destruct (H1 r Hr) as (r1 & Hr1 & K1). destruct (H2 r1 Hr1) as (r2 & Hr2 & K2).
  exists r2. split; [done|by eapply kept_trans].
Qed.

Lemma lives_on_refl a : lives_on a a.
Proof. intros r Hr. exists r. split; [done|apply kept_refl]. Qed.

Lemma lives_on_rows (T : row -> row -> Prop) db db' :
  (forall r r', T r r' -> kept r r') -> Forall2 T db db' -> lives_on db db'.
Proof.
  intros HT HF r Hr. destruct (Forall2_elem_l _ _ _ _ HF Hr) as (r' & Hr' & Ht). exists r'. split; [done|by apply HT].
Qed.

Lemma mark_delivered_lives ids t db r db' : mark_ingress_delivered ids t db = (r, db') -> lives_on db db'.
Proof. intros H%mark_delivered_rows. eapply lives_on_rows; [apply to_delivered_kept|exact H]. Qed.

Lemma requeue_lives b db r db' : requeue_stale_ingress b db = (r, db') -> lives_on db db'.
Proof. intros H%requeue_rows. eapply lives_on_rows; [apply to_pending_kept|exact H]. Qed.

(** Claiming, on any table: an eligible row is pending. *)
Lemma mark_emitted_lives ids t db r db' : mark_ingress_emitted ids t db = (r, db') -> lives_on db db'.
Proof.
  unfold mark_ingress_emitted. destruct ids as [|id0 ids]; [intros [= _ <-]; apply lives_on_refl|].
  destruct (unix_ms_to_db_int t) as [t'|]; [|intros [= _ <-]; apply lives_on_refl].
  match goal with |- context [update ?p ?f db] => set (pp := p); set (ff := f) end. intros [= _ <-].
  apply (lives_on_rows kept); [done|]. apply (Forall2_update pp ff). intros x _. destruct (pp x) eqn:Hp; [|apply kept_refl].
  split; [apply set_status_same|]. unfold pp in Hp. apply andb_true_iff in Hp as [[_ Hs]%andb_true_iff _].
  apply bool_decide_eq_true in Hs. congruence.
Qed.

Lemma enqueue_lives c i db : lives_on db (enqueue_ingress_item c i db).2.
Proof.
  destruct (enqueue_cases c i db) as [->|[_ ->]]; [apply lives_on_refl|].
  intros r Hr. exists r. split; [apply elem_of_app; by left|apply kept_refl].
Qed.

Lemma step_lives convert dropping kinds h h' : step convert dropping kinds h h' -> lives_on (h_db h) (h_db h').
Proof.
  intros Hst. destruct Hst; simpl; try apply lives_on_refl.
  - apply enqueue_lives.
  - destruct (requeue_stale_ingress _ _) eqn:Hm. by eapply requeue_lives.
  - by eapply mark_delivered_lives.
  - by eapply requeue_lives.
  - by eapply mark_emitted_lives.
  - by eapply mark_emitted_lives.
  - by eapply mark_delivered_lives.
Qed.

Lemma run_lives convert dropping kinds h h' :
  rtc (step convert dropping kinds) h h' -> lives_on (h_db h) (h_db h').
Proof.
  induction 1 as [|h1 h2 h3 Hst _ IH]; [apply lives_on_refl|]. eapply lives_on_trans; [by eapply step_lives|done].
Qed.

Lemma row_by_id db r r' : NoDup (r_id <$> db) -> r ∈ db -> r' ∈ db -> r_id r = r_id r' -> r = r'.
Proof.
  intros Hnd [i Hi]%list_elem_of_lookup [j Hj]%list_elem_of_lookup Heq.
  assert (i = j) as ->; [|congruence].
  eapply (NoDup_lookup (r_id <$> db)); [done|rewrite list_lookup_fmap, Hi; done|]. rewrite list_lookup_fmap, Hj. simpl. congruence.
Qed.

(** ** Delivery guarantees *)

(** C38: at least once, through crashes: in every reachable state of the host
    an inbox row is marked delivered only when its event was published and no
    subscriber failed, or when its payload does not decode and was dropped;
    an ingress id is stored once; and no later step loses a stored item or
    takes a delivered one back.  The clock starts at least [RETRY_AFTER_MS]
    after the epoch.  (An item whose [CREATE] fails silently is
    confirmed to the webhook but never stored.  The source kinds are those of
    one producer: other producers requeue stale rows of any kind, but do not
    claim these.) *)
Theorem inbox_at_least_once convert dropping kinds clock h :
  RETRY_AFTER_MS <= clock -> reachable convert dropping kinds clock h ->
  NoDup (r_id <$> h_db h) /\
  (forall r, r ∈ h_db h -> r_status r = Delivered ->
     clean h (r_id r) \/ exists i, parse_ingress_row r = Ok i /\ convert i = None) /\
  (forall h', rtc (step convert dropping kinds) h h' -> lives_on (h_db h) (h_db h')).
Proof.
  intros Hc Hr. pose proof (inbox_reachable_inv _ _ _ _ _ Hc Hr) as Hinv.
  split_and!; [apply Hinv| |intros h' Hr'; by eapply run_lives].
  intros r Hin Hs. destruct (i_delivered _ _ Hinv r Hin Hs) as [?|Hd]; [by left|]. right.
  destruct (i_dropped _ _ Hinv _ Hd) as (i & (r2 & Hr2 & Hp) & Hid & Hcv). exists i. split; [|done].
  destruct (i_rows _ _ Hinv r2 Hr2) as (j & _ & Hj & Hjid).
  assert (r = r2) as ->; [|done]. eapply row_by_id; [apply Hinv|done..|congruence].
Qed.

(** A stored item is put into a batch again at the earliest
    [RETRY_AFTER_MS] after it was put into one before, whichever producer
    requeued it and however often the host crashed in between. *)
Theorem inbox_retries_spaced convert dropping kinds clock h i j id t1 t2 :
  RETRY_AFTER_MS <= clock -> reachable convert dropping kinds clock h ->
  (i < j)%nat -> h_emissions h !! i = Some (id, t1) -> h_emissions h !! j = Some (id, t2) ->
  t1 + RETRY_AFTER_MS <= t2.
Proof. intros Hc Hr. apply (i_spaced _ _ (inbox_reachable_inv _ _ _ _ _ Hc Hr)). Qed.

(** ** Progress *)

Lemma parse_rows_ok rs :
  (forall r, r ∈ rs -> wf_row r) ->
  exists items, parse_rows rs = Ok items /\
    Forall2 (fun r i => parse_ingress_row r = Ok i /\ it_id i = r_id r) rs items.
Proof.
  induction rs as [|r rs IH]; intros Hw; [by exists []|]. destruct (Hw r ltac:(constructor)) as (i & _ & Hp & Hid).
  destruct IH as (items & Hps & HF); [intros r' Hr'; apply Hw; by constructor|].
  exists (i :: items). simpl. rewrite Hp, Hps. split; [done|]. constructor; done.
Qed.

Lemma in_filter_rows (p : row -> bool) db r : r ∈ List.filter p db <-> r ∈ db /\ p r = true.
Proof. by rewrite !list_elem_of_In, List.filter_In. Qed.

(** With at most a poll's worth of rows, the listing is every listable row. *)
Lemma list_pending_all kinds db :
  (forall r, r ∈ db -> wf_row r) -> (length db <= MAX_ITEMS_PER_POLL)%nat ->
  exists items, list_pending_ingress_items kinds MAX_ITEMS_PER_POLL db = Ok items /\
    forall r, r ∈ db -> listable kinds r = true -> exists i, i ∈ items /\ parse_ingress_row r = Ok i /\ it_id i = r_id r.
Proof.
  intros Hw Hlen. unfold list_pending_ingress_items.
  set (l := merge_sort row_le (List.filter (listable kinds) db)).
  assert (Hl : length l = length (List.filter (listable kinds) db)) by (unfold l; by rewrite merge_sort_Permutation).
  rewrite take_ge by (rewrite Hl; pose proof (List.filter_length_le (listable kinds) db); lia).
  assert (Hin : forall r, r ∈ l <-> r ∈ db /\ listable kinds r = true).
  { intros r. unfold l. rewrite merge_sort_Permutation. apply in_filter_rows. }
  destruct (parse_rows_ok l) as (items & Hp & HF); [intros r Hr; by apply Hw, Hin|].
  exists items. split; [done|]. intros r Hr Hl'. destruct (Forall2_elem_l _ _ _ r HF) as (i & Hi & Hpi); [by apply Hin|].
  exists i. tauto.
Qed.

Lemma db_int_ok t : t <= i64_max -> unix_ms_to_db_int t = Ok t.
Proof. intros H. unfold unix_ms_to_db_int. by rewrite (proj2 (Z.leb_le _ _)). Qed.

Lemma mark_delivered_ok ids t db :
  t <= i64_max -> exists db', mark_ingress_delivered ids t db = (Ok tt, db') /\
    forall r, r ∈ db' -> r_id r ∈ ids -> r_status r = Delivered.
Proof.
  intros Ht. unfold mark_ingress_delivered. destruct ids as [|id ids].
  { exists db. split; [done|]. by intros r _ ?%elem_of_nil. }
  rewrite (db_int_ok t Ht). eexists. split; [reflexivity|]. simpl.
  intros r (r0 & -> & Hr0)%list_elem_of_fmap Hid.
  destruct (bool_decide (r_id r0 ∈ id :: ids) && _) eqn:Hp in Hid |- *; simpl; rewrite ?Hp; simpl; [done|].
  rewrite bool_decide_eq_true_2 in Hp by done. simpl in Hp.
  apply orb_false_iff in Hp as [Hp1 Hp2]. apply bool_decide_eq_false in Hp1, Hp2. by destruct (r_status r0).
Qed.

(** Rows of a table reached by updates of a well-formed one. *)
Definition wf_table (db : list row) : Prop := NoDup (r_id <$> db) /\ forall r, r ∈ db -> wf_row r.

Lemma wf_table_rows (T : row -> row -> Prop) db db' :
  (forall r r', T r r' -> same_item r r') -> Forall2 T db db' -> wf_table db -> wf_table db'.
Proof.
  intros HT HF [Hnd Hw]. assert (Hs : Forall2 same_item db db') by (by eapply Forall2_impl). split.
  - by rewrite (same_items_ids _ _ Hs).
  - intros r' Hr'. destruct (Forall2_elem_r _ _ _ _ Hs Hr') as (r & Hr & Hsr). by eapply wf_row_same, Hw.
Qed.

Section Progress.
Context (convert : IngressItem -> option ProducedEvent) (kinds : list EventSourceKind).

(** The dropping loop succeeds, and every item is in the batch or dropped. *)
Lemma convert_dropping_ok now items : forall db,
  now <= i64_max -> exists es db', convert_dropping convert now items db = (Ok es, db') /\ lives_on db db' /\
    forall i, i ∈ items -> (it_id i ∈ fst <$> es) \/
      (forall r, r ∈ db -> r_id r = it_id i -> exists r', r' ∈ db' /\ kept r r' /\ r_status r' = Delivered).
Proof.
  induction items as [|i items IH]; intros db Hnow; cbn [convert_dropping].
  - exists [], db. split_and!; [done|apply lives_on_refl|by intros i ?%elem_of_nil].
  - destruct (convert i) as [e|].
    + destruct (IH db Hnow) as (es & db' & -> & Hl & Hall). exists ((it_id i, e) :: es), db'. split_and!; [done..|].
      intros j [->|Hj]%elem_of_cons; [left; constructor|]. destruct (Hall j Hj); [left; by constructor|by right].
    + destruct (mark_delivered_ok [it_id i] now db Hnow) as (db1 & Hm & Hdel). rewrite Hm.
      pose proof (mark_delivered_lives _ _ _ _ _ Hm) as Hl1. destruct (IH db1 Hnow) as (es & db' & -> & Hl & Hall).
      exists es, db'. split_and!; [done|by eapply lives_on_trans|].
      intros j [->|Hj]%elem_of_cons.
      * right. intros r Hr Hid. destruct (Hl1 r Hr) as (r1 & Hr1 & K1). destruct (Hl r1 Hr1) as (r2 & Hr2 & K2).
        exists r2. split_and!; [done|by eapply kept_trans|]. apply K2, Hdel; [done|].
        destruct K1 as [(Hid1 & _) _]. rewrite Hid1, Hid. constructor.
      * destruct (Hall j Hj) as [?|Hr]; [by left|]. right. intros r Hr0 Hid.
        destruct (Hl1 r Hr0) as (r1 & Hr1 & K1). destruct (Hr r1 Hr1) as (r2 & Hr2 & K2 & Hd).
        { destruct K1 as [(Hid1 & _) _]. congruence. }
        exists r2. split_and!; [done|by eapply kept_trans|done].
Qed.

Lemma convert_dropping_lives now items : forall db res db',
  convert_dropping convert now items db = (res, db') -> lives_on db db'.
Proof.
  induction items as [|i items IH]; intros db res db'; cbn [convert_dropping]; [intros [= _ <-]; apply lives_on_refl|].
  destruct (convert i).
  - destruct (convert_dropping convert now items db) as [res' db1] eqn:Hc. intros [= _ <-]. by eapply IH.
  - destruct (mark_ingress_delivered [it_id i] now db) as [[[]|e] db1] eqn:Hm.
    + intros H. eapply lives_on_trans; [by eapply mark_delivered_lives|by eapply IH].
    + intros [= _ <-]. by eapply mark_delivered_lives.
Qed.

(** After its reconciliation a poll keeps every row. *)
Lemma grafana_poll_reconciles now c db res db' :
  grafana_poll convert kinds now c db = (res, db') ->
  exists r db1, mark_ingress_delivered (checkpoint_ids c) now db = (r, db1) /\ lives_on db1 db'.
Proof.
  unfold grafana_poll, inbox_poll. destruct (mark_ingress_delivered _ now db) as [[[]|e] db1] eqn:H1; intros Hp;
    [|injection Hp as _ <-; eexists _, _; split; [done|apply lives_on_refl]].
  eexists _, db1. split; [done|]. destruct (requeue_stale_ingress _ db1) as [[n|e] db2] eqn:H2; apply requeue_lives in H2;
    [|by injection Hp as _ <-].
  destruct (list_pending_ingress_items _ _ db2) as [pending|]; [|by injection Hp as _ <-].
  destruct (mark_ingress_emitted _ now db2) as [[em|e] db3] eqn:H3; apply mark_emitted_lives in H3;
    [|injection Hp as _ <-; by eapply lives_on_trans].
  destruct (convert_dropping convert now _ db3) as [r db4] eqn:H4. apply convert_dropping_lives in H4.
  injection Hp as _ <-. by eauto using lives_on_trans.
Qed.

(** One poll: every listable row comes out with its id in the batch, or
    delivered. *)
Lemma grafana_poll_takes_all now c db :
  wf_table db -> (length db <= MAX_ITEMS_PER_POLL)%nat -> 0 <= now <= i64_max ->
  exists es db', grafana_poll convert kinds now c db =
      (Ok (es, next_checkpoint (negb (is_nil (checkpoint_ids c))) (fst <$> es)), db') /\
    forall r, r ∈ db -> listable kinds r = true ->
      exists r', r' ∈ db' /\ kept r r' /\ (r_status r' = Delivered \/ r_id r ∈ fst <$> es).
Proof.
  intros Hwf Hlen Hnow. unfold grafana_poll, inbox_poll.
  destruct (mark_delivered_ok (checkpoint_ids c) now db ltac:(lia)) as (db1 & H1 & _). rewrite H1.
  apply mark_delivered_rows in H1. pose proof (wf_table_rows _ _ _ (to_delivered_same _) H1 Hwf) as Hwf1.
  destruct (requeue_stale_ingress (retry_before now) db1) as [q db2] eqn:H2.
  assert (Hq : exists n, q = Ok n).
  { unfold requeue_stale_ingress in H2. rewrite db_int_ok in H2; [|unfold retry_before, RETRY_AFTER_MS; lia].
    injection H2 as <- _. by eexists. }
  destruct Hq as [n ->]. apply requeue_rows in H2. pose proof (wf_table_rows _ _ _ (to_pending_same _) H2 Hwf1) as Hwf2.
  assert (Hlen2 : length db2 = length db) by (apply Forall2_length in H1, H2; congruence).
  destruct (list_pending_all kinds db2) as (items & -> & Hitems); [apply Hwf2|lia|].
  assert (Hem : exists em db3, mark_ingress_emitted (it_id <$> items) now db2 = (Ok em, db3) /\
    forall r, r ∈ db2 -> listable kinds r = true -> r_id r ∈ em).
  { unfold mark_ingress_emitted. destruct (it_id <$> items) as [|id0 ids0] eqn:Hids.
    - eexists _, _. split; [done|]. intros r Hr Hl. destruct (Hitems r Hr Hl) as (i & Hi & _).
      destruct items; [by apply elem_of_nil in Hi|done].
    - rewrite (db_int_ok now) by lia. eexists _, _. split; [reflexivity|]. intros r Hr Hl. rewrite <-list_fmap_compose.
      apply list_elem_of_fmap. exists r. split; [done|]. apply in_filter_rows. split; [done|].
      destruct (Hitems r Hr Hl) as (i & Hi & _ & Hid). unfold listable in Hl. apply andb_true_iff in Hl as [Hl _].
      apply andb_true_iff in Hl as [-> ->]. rewrite !andb_true_r. apply bool_decide_eq_true. rewrite <-Hids, <-Hid.
      apply list_elem_of_fmap. by exists i. }
  destruct Hem as (em & db3 & H3 & Hem). rewrite H3. pose proof (mark_emitted_lives _ _ _ _ _ H3) as L3.
  destruct (convert_dropping_ok now (claimed_items em items) db3 ltac:(lia)) as (es & db4 & -> & L4 & Hall).
  exists es, db4. split; [done|]. intros r Hr Hl.
  destruct (Forall2_elem_l _ _ _ _ H1 Hr) as (r1 & Hr1 & T1). destruct (Forall2_elem_l _ _ _ _ H2 Hr1) as (r2 & Hr2 & T2).
  pose proof (to_delivered_kept _ _ _ T1) as K1. pose proof (to_pending_kept _ _ _ T2) as K2.
  destruct (L3 r2 Hr2) as (r3 & Hr3 & K3). destruct (L4 r3 Hr3) as (r4 & Hr4 & K4).
  assert (Hst : r_status r = Pending) by (unfold listable in Hl; destr_bool; by apply bool_decide_eq_true in H).
  destruct T1 as [->|(_ & t & ->)].
  - destruct T2 as [->|(e & He & _)]; [|congruence]. specialize (Hem r Hr2 Hl).
    destruct (Hitems r Hr2 Hl) as (i & Hi & _ & Hid).
    destruct (Hall i) as [Hin|Hdel].
    { unfold claimed_items. apply list_elem_of_In, List.filter_In. split; [by apply list_elem_of_In|].
      apply bool_decide_eq_true. by rewrite Hid. }
    + exists r4. split_and!; [done|by eauto using kept_trans|]. right. by rewrite <-Hid.
    + destruct (Hdel r3 Hr3) as (r' & Hr' & K' & Hd); [destruct K3 as [(Hk & _) _]; congruence|].
      exists r'. split_and!; [done|by eauto using kept_trans|by left].
  - exists r4. split_and!; [done|by eauto 10 using kept_trans|]. left. by apply K4, K3, K2.
Qed.
End Progress.

(** The inbox drains: with a backlog of at most one poll, a poll that
    drops what does not decode succeeds, and once its batch is published
    cleanly (which moves the cursor to the checkpoint it returned) the next
    poll leaves every item that was pending delivered. *)
Theorem inbox_drains convert kinds now now2 c db :
  wf_table db -> (length db <= MAX_ITEMS_PER_POLL)%nat -> 0 <= now <= i64_max -> 0 <= now2 <= i64_max ->
  exists es c' db', grafana_poll convert kinds now c db = (Ok (es, c'), db') /\
    forall res db'', grafana_poll convert kinds now2 (match c' with Some _ => c' | None => c end) db' = (res, db'') ->
      forall r, r ∈ db -> listable kinds r = true -> exists r', r' ∈ db'' /\ same_item r r' /\ r_status r' = Delivered.
Proof.
  intros Hwf Hlen Hnow Hnow2. destruct (grafana_poll_takes_all convert kinds now c db Hwf Hlen Hnow) as (es & db' & Hp & Hall).
  eexists es, _, db'. split; [done|]. intros res db'' Hp2 r Hr Hl. destruct (Hall r Hr Hl) as (r' & Hr' & K & Hcase).
  set (c2 := match next_checkpoint _ _ with Some _ => _ | None => c end) in Hp2.
  destruct (grafana_poll_reconciles _ _ _ _ _ _ _ Hp2) as (q & db1 & H1 & L).
  destruct (mark_delivered_ok (checkpoint_ids c2) now2 db' ltac:(lia)) as (db1' & H1' & Hdel).
  assert (db1' = db1) as -> by congruence.
  destruct (mark_delivered_lives _ _ _ _ _ H1 r' Hr') as (r1 & Hr1 & K1). destruct (L r1 Hr1) as (r2 & Hr2 & K2).
  exists r2. split_and!; [done| |].
  - by destruct (kept_trans _ _ _ K (kept_trans _ _ _ K1 K2)).
  - apply K2. destruct Hcase as [Hd|Hin]; [by apply K1|]. apply Hdel; [done|].
    assert (c2 = Some (fst <$> es)) as ->.
    { unfold c2, next_checkpoint. destruct (fst <$> es) eqn:He; [by apply elem_of_nil in Hin|done]. }
    destruct K1 as [(Hk1 & _) _], K as [(Hk & _) _]. simpl. by rewrite Hk1, Hk.
Qed.

(** ** A payload that does not decode, in the Slack inbox *)

Definition poison_row (st : IngressStatus) (em : option Z) : row :=
  mkRow "a" (Some "slack") "slack:C1" "not json" st 1 em None.
Definition good_row (st : IngressStatus) (em : option Z) : row :=
  mkRow "b" (Some "slack") "slack:C1" "{}" st 2 em None.
Definition poison_item : IngressItem := mkItem "a" "slack" "slack:C1" "not json" 1.

Section Slack.
Context (convert : IngressItem -> option ProducedEvent).

(** Polls at the given times; the cursor never moves. *)
Fixpoint slack_polls (nows : list Z) (db : list row)
    : list (result (list (IngressId * ProducedEvent) * option (list IngressId)) PollError) :=
  match nows with
  | [] => []
  | now :: rest => let '(res, db') := slack_poll convert ["slack"%string] now None db in res :: slack_polls rest db'
  end.

Definition pair_items : list IngressItem := [poison_item; mkItem "b" "slack" "slack:C1" "{}" 2].

(** What one poll does once both rows are pending. *)
Lemma slack_pair_claim now :
  convert poison_item = None -> now <= i64_max ->
  list_pending_ingress_items ["slack"%string] MAX_ITEMS_PER_POLL [poison_row Pending None; good_row Pending None] =
    Ok pair_items /\
  mark_ingress_emitted (it_id <$> pair_items) now [poison_row Pending None; good_row Pending None] =
    (Ok ["a"%string; "b"%string], [poison_row Emitted (Some now); good_row Emitted (Some now)]) /\
  convert_failing convert (claimed_items ["a"%string; "b"%string] pair_items) = Err (PConvert "a").
Proof.
  intros Hc Hnow. split_and!; [by vm_compute| |].
  - change (it_id <$> pair_items) with ["a"%string; "b"%string]. unfold mark_ingress_emitted.
    rewrite db_int_ok by lia. by vm_compute.
  - change (claimed_items ["a"%string; "b"%string] pair_items) with pair_items. cbn [convert_failing pair_items].
    by rewrite Hc.
Qed.

Lemma requeue_pair st em b :
  b <= i64_max -> (st = Pending /\ em = None) \/ (st = Emitted /\ exists t, em = Some t) ->
  exists n st' em', requeue_stale_ingress b [poison_row st em; good_row st em] =
    (Ok n, [poison_row st' em'; good_row st' em']) /\
    ((st' = Pending /\ em' = None) \/ (st' = Emitted /\ exists t, em' = Some t)).
Proof.
  intros Hb [[-> ->]|[-> [t ->]]]; unfold requeue_stale_ingress; rewrite db_int_ok by lia.
  - eexists _, Pending, None. split; [reflexivity|by left].
  - cbn. destruct (t <=? b); cbn.
    + eexists _, Pending, None. split; [reflexivity|by left].
    + eexists _, Emitted, (Some t). split; [reflexivity|right; eauto].
Qed.

(** The two rows are claimed together, fail together and are requeued
    together. *)
Lemma slack_poll_pair st em now :
  convert poison_item = None -> 0 <= now <= i64_max ->
  (st = Pending /\ em = None) \/ (st = Emitted /\ exists t, em = Some t) ->
  exists res st' em',
    slack_poll convert ["slack"%string] now None [poison_row st em; good_row st em] =
      (res, [poison_row st' em'; good_row st' em']) /\
    ((st' = Pending /\ em' = None) \/ (st' = Emitted /\ exists t, em' = Some t)) /\
    (res = Err (PConvert "a") \/ res = Ok ([], None)).
Proof.
  intros Hc Hnow Hst. unfold slack_poll, inbox_poll. cbn [checkpoint_ids default from_option mark_ingress_delivered].
  destruct (requeue_pair st em (retry_before now)) as (n & st' & em' & -> & Hst');
    [unfold retry_before, RETRY_AFTER_MS; lia|done|]. cbv beta iota.
  destruct Hst' as [[-> ->]|[-> [t ->]]].
  - destruct (slack_pair_claim now Hc ltac:(lia)) as (-> & Hm & Hf). cbv beta iota. rewrite Hm. cbv beta iota. rewrite Hf.
    eexists _, Emitted, (Some now). split; [reflexivity|]. split; [right; eauto|by left].
  - eexists _, Emitted, (Some t). split; [by vm_compute|]. split; [right; eauto|by right].
Qed.

(** One stored Slack payload that does not decode holds back the items it
    was claimed with for ever: the poll fails on it after claiming them all,
    they are requeued together after the retry time and fail again, so that at
    whatever times the inbox is polled no event of the batch is ever produced
    (the Grafana and raw producers drop such an item instead). *)
Theorem slack_poison_blocks nows :
  convert poison_item = None -> Forall (fun t => 0 <= t <= i64_max) nows ->
  forall es c, Ok (es, c) ∈ slack_polls nows [poison_row Pending None; good_row Pending None] -> es = [].
Proof.
  intros Hc Hn. assert (Hgen : forall st em, (st = Pending /\ em = None) \/ (st = Emitted /\ exists t, em = Some t) ->
    forall es c, Ok (es, c) ∈ slack_polls nows [poison_row st em; good_row st em] -> es = []).
  { induction Hn as [|now nows Hnow _ IH]; intros st em Hst es c; cbn [slack_polls]; [by intros ?%elem_of_nil|].
    destruct (slack_poll_pair st em now Hc Hnow Hst) as (res & st' & em' & -> & Hst' & Hres).
    intros [Heq|Hin]%elem_of_cons; [|by eapply IH]. destruct Hres as [-> | ->]; congruence. }
  apply Hgen. by left.
Qed.
End Slack.

Definition braces_only (i : IngressItem) : option ProducedEvent :=
  if bool_decide (it_payload i = "{}"%string) then Some sample_event else None.

Lemma slack_poison_blocks_witness :
  let polls := slack_polls braces_only [100000; 130000; 200000] [poison_row Pending None; good_row Pending None] in
  polls = [Err (PConvert "a"); Ok ([], None); Err (PConvert "a")] /\
  ~ (Ok ([("b"%string, sample_event)], Some ["b"%string]) ∈ polls).
Proof.
  split; [by vm_compute|]. intros H.
  assert (Hnil : [("b"%string, sample_event)] = []); [|done].
  eapply (slack_poison_blocks braces_only [100000; 130000; 200000]); [by vm_compute| |exact H].
  repeat constructor; vm_compute; congruence.
Defined.

(** ** Rows stored before the inbox had source kinds *)

Lemma same_items_trans a b c : Forall2 same_item a b -> Forall2 same_item b c -> Forall2 same_item a c.
Proof.
  intros H. revert c. induction H as [|x y a b (? & ? & ? & ? & ?) _ IH]; intros c Hc; inversion Hc as [|? z ? c' (? & ? & ? & ? & ?)]; subst;
    constructor; [split_and!; congruence|by apply IH].
Qed.

Lemma Forall2_keeps (T : row -> row -> Prop) db db' r :
  Forall2 T db db' -> r ∈ db -> (forall r', T r r' -> r' = r) -> r ∈ db'.
Proof. intros HF Hr HT. destruct (Forall2_elem_l _ _ _ _ HF Hr) as (r' & Hr' & H). by rewrite (HT r' H) in Hr'. Qed.

Lemma mark_delivered_other ids t db x db' r :
  mark_ingress_delivered ids t db = (x, db') -> ~ (r_id r ∈ ids) -> r ∈ db -> r ∈ db'.
Proof.
  intros HF%mark_delivered_rows Hn Hr. eapply Forall2_keeps; [exact HF|done|]. by intros r' [->|[? _]].
Qed.

Lemma mark_emitted_other ids t db x db' r :
  mark_ingress_emitted ids t db = (x, db') -> ~ (r_id r ∈ ids) -> r ∈ db -> r ∈ db'.
Proof.
  unfold mark_ingress_emitted. destruct ids as [|id0 ids]; [by intros [= _ <-]|].
  destruct (unix_ms_to_db_int t) as [t'|]; [|by intros [= _ <-]]. intros [= _ <-] Hn Hr.
  apply list_elem_of_fmap. exists r. split; [|done]. cbv beta.
  by rewrite (bool_decide_eq_false_2 (r_id r ∈ id0 :: ids)) by done.
Qed.

Lemma convert_dropping_other convert now items r : forall db x db',
  convert_dropping convert now items db = (x, db') -> ~ (r_id r ∈ it_id <$> items) -> r ∈ db -> r ∈ db'.
Proof.
  induction items as [|i items IH]; intros db x db'; cbn [convert_dropping]; [by intros [= _ <-]|].
  rewrite fmap_cons, elem_of_cons. intros Hc Hn Hr. destruct (convert i).
  - destruct (convert_dropping convert now items db) as [y db1] eqn:Hd. injection Hc as _ <-. eapply IH; [done| |done]. tauto.
  - destruct (mark_ingress_delivered [it_id i] now db) as [[[]|e] db1] eqn:Hm.
    + eapply IH; [exact Hc|tauto|]. eapply mark_delivered_other; [exact Hm| |done]. intros ?%list_elem_of_singleton. tauto.
    + injection Hc as _ <-. eapply mark_delivered_other; [exact Hm| |done]. intros ?%list_elem_of_singleton. tauto.
Qed.

(** The batch holds items of the poll only. *)
Lemma convert_dropping_ids convert now items : forall db es db',
  convert_dropping convert now items db = (Ok es, db') -> forall id, id ∈ fst <$> es -> id ∈ it_id <$> items.
Proof.
  induction items as [|i items IH]; intros db es db'; cbn [convert_dropping]; [intros [= <- _] id Hid; by apply elem_of_nil in Hid|].
  intros Hc id. rewrite fmap_cons, elem_of_cons. destruct (convert i).
  - destruct (convert_dropping convert now items db) as [[es1|] db1] eqn:Hd; simpl in Hc; [|done]. injection Hc as <- _.
    rewrite fmap_cons, elem_of_cons. simpl. intros [->|Hid]; [by left|]. right. by eapply IH.
  - destruct (mark_ingress_delivered [it_id i] now db) as [[[]|e] db1]; [|done]. intros Hid. right. by eapply IH.
Qed.

(** What is listed was stored with one of the kinds asked for. *)
Lemma listed_have_kind kinds limit db items :
  list_pending_ingress_items kinds limit db = Ok items -> forall i, i ∈ items ->
  exists r, r ∈ db /\ parse_ingress_row r = Ok i /\ is_Some (r_kind r).
Proof.
  unfold list_pending_ingress_items. intros Hp i Hi.
  destruct (parse_rows_items (take limit (merge_sort row_le (List.filter (listable kinds) db))) _ _ (fun r Hr => Hr) Hp i Hi)
    as (r & Hr & Hpr). exists r.
  apply list_elem_of_lookup in Hr as [k Hk]. apply lookup_take_Some in Hk as [Hk _]. apply list_elem_of_lookup_2 in Hk.
  rewrite merge_sort_Permutation in Hk. apply in_filter_rows in Hk as [Hk Hl]. split_and!; [done..|].
  unfold listable in Hl. apply andb_true_iff in Hl as [_ Hl]. by destruct (r_kind r).
Qed.

(** A pending row without a source kind is never listed, because the
    filter on kinds is false for it, so the kind that reading a row would fill
    in from its source key is never used: no poll of any producer of any kind
    emits or touches the row. *)
Theorem legacy_rows_stuck convert kinds now c db res db' r :
  NoDup (r_id <$> db) -> (forall x, x ∈ db -> IngressId_parse (r_id x) = Some (r_id x)) ->
  r ∈ db -> r_kind r = None -> r_status r = Pending -> ~ (r_id r ∈ checkpoint_ids c) ->
  grafana_poll convert kinds now c db = (res, db') ->
  r ∈ db' /\ forall es c', res = Ok (es, c') -> ~ (r_id r ∈ fst <$> es).
Proof.
  intros Hnd Hids Hr Hk Hs Hn. unfold grafana_poll, inbox_poll.
  destruct (mark_ingress_delivered (checkpoint_ids c) now db) as [[[]|e] db1] eqn:H1;
    pose proof (mark_delivered_other _ _ _ _ _ r H1 Hn Hr) as Hr1; [|by intros [= <- <-]].
  apply mark_delivered_rows in H1.
  destruct (requeue_stale_ingress (retry_before now) db1) as [q db2] eqn:H2. apply requeue_rows in H2.
  assert (Hr2 : r ∈ db2).
  { eapply Forall2_keeps; [exact H2|done|]. intros r' [->|(x & Hx & _)]; [done|congruence]. }
  destruct q as [n|e]; [|by intros [= <- <-]].
  assert (Hsame : Forall2 same_item db db2).
  { apply (same_items_trans _ db1).
    - eapply Forall2_impl; [exact H1|apply to_delivered_same].
    - eapply Forall2_impl; [exact H2|apply to_pending_same]. }
  destruct (list_pending_ingress_items kinds MAX_ITEMS_PER_POLL db2) as [items|] eqn:Hl; [|by intros [= <- <-]].
  assert (Hni : ~ (r_id r ∈ it_id <$> items)).
  { intros (i & Hid & Hi)%list_elem_of_fmap. destruct (listed_have_kind _ _ _ _ Hl i Hi) as (x & Hx & Hp & Hkx).
    destruct (Forall2_elem_r _ _ _ _ Hsame Hx) as (x0 & Hx0 & (Hxid & _)).
    assert (Hxi : it_id i = r_id x).
    { specialize (Hids x0 Hx0). rewrite <-Hxid in Hids. unfold parse_ingress_row in Hp. rewrite Hids in Hp. simpl in Hp.
      destruct (match r_kind x with Some k => _ | None => _ end) in Hp; [|done]. simpl in Hp.
      destruct (ok_or (EventSourceKey_parse (r_key x)) InvalidRow) in Hp; [|done]. simpl in Hp.
      destruct (r_enqueued x <? 0); [done|]. by injection Hp as <-. }
    assert (r = x) as <-; [|rewrite Hk in Hkx; by destruct Hkx].
    eapply (row_by_id db2); [by rewrite (same_items_ids _ _ Hsame)|done..|congruence]. }
  destruct (mark_ingress_emitted (it_id <$> items) now db2) as [[em|e] db3] eqn:H3;
    pose proof (mark_emitted_other _ _ _ _ _ r H3 Hni Hr2) as Hr3; [|by intros [= <- <-]].
  assert (Hnc : ~ (r_id r ∈ it_id <$> claimed_items em items)).
  { intros (i & Hid & Hi)%list_elem_of_fmap. apply Hni, list_elem_of_fmap. exists i. split; [done|].
    unfold claimed_items in Hi. apply list_elem_of_In, List.filter_In in Hi as [Hi _]. by apply list_elem_of_In. }
  destruct (convert_dropping convert now (claimed_items em items) db3) as [x db4] eqn:H4.
  pose proof (convert_dropping_other _ _ _ r _ _ _ H4 Hnc Hr3) as Hr4. intros [= <- <-]. split; [done|].
  intros es c' He. destruct x as [es0|]; [|done]. injection He as <- _. intros Hin. apply Hnc.
  by eapply convert_dropping_ids.
Qed.

(** ** A run: a batch that fails, a retry, and a clean delivery *)

Definition demo_convert (i : IngressItem) : option ProducedEvent := Some sample_event.
Definition demo_item : IngressItem := mkItem "b" "slack" "slack:C1" "{}" 2.
Definition failing_outcome : EventDeliveryOutcome :=
  mkDelivery 1 0 [] [(mkRoute "p" "i", Rejected "busy")].
Definition clean_outcome : EventDeliveryOutcome := mkDelivery 1 1 [mkAcceptance "p" "i" "accepted"] [].

Ltac settle := match goal with |- rtc ?R ?h _ => let h' := eval vm_compute in h in change h with h' end.
Ltac go c := eapply rtc_l; [eapply c; [vm_compute; reflexivity|]; vm_compute; reflexivity|]; settle.
Ltac go1 c := eapply rtc_l; [eapply c; vm_compute; reflexivity|]; settle.

Definition demo_db : list row := [mkRow "b" (Some "slack"%string) "slack:C1" "{}" Delivered 2 (Some 130000) (Some 130000)].

Lemma demo_run :
  exists h, reachable demo_convert true ["slack"%string] 70000 h /\
    h_emissions h = [("b"%string, 70000); ("b"%string, 130000)] /\ h_db h = demo_db /\
    h_log h = [("b"%string, failing_outcome); ("b"%string, clean_outcome)].
Proof.
  eexists. split.
  - unfold reachable. eapply rtc_l; [apply (step_enqueue _ _ _ true demo_item); repeat split; vm_compute; congruence|]. settle.
    go step_reconcile. go step_requeue. go1 step_list. go step_claim. go step_convert. go1 step_polled.
    eapply rtc_l; [eapply (step_publish _ _ _ _ _ _ _ _ _ _ failing_outcome); reflexivity|]. settle.
    go1 step_advance. go1 step_save.
    eapply rtc_l; [apply (step_tick _ _ _ 130000); vm_compute; congruence|]. settle.
    go step_reconcile. go step_requeue. go1 step_list. go step_claim. go step_convert. go1 step_polled.
    eapply rtc_l; [eapply (step_publish _ _ _ _ _ _ _ _ _ _ clean_outcome); reflexivity|]. settle.
    go1 step_advance. go1 step_save. go step_reconcile.
    apply rtc_refl.
  - split_and!; reflexivity.
Qed.

Lemma inbox_at_least_once_witness :
  exists h, h_db h = demo_db /\ NoDup (r_id <$> h_db h) /\
  (forall r, r ∈ h_db h -> r_status r = Delivered ->
     clean h (r_id r) \/ exists i, parse_ingress_row r = Ok i /\ demo_convert i = None) /\
  (forall h', rtc (step demo_convert true ["slack"%string]) h h' -> lives_on (h_db h) (h_db h')).
Proof.
  destruct demo_run as (h & Hr & _ & Hdb & _). exists h. split; [done|].
  apply (inbox_at_least_once demo_convert true ["slack"%string] 70000 h); [vm_compute; congruence|done].
Defined.

Lemma inbox_retries_spaced_witness :
  exists h, reachable demo_convert true ["slack"%string] 70000 h /\
    h_emissions h !! 0%nat = Some ("b"%string, 70000) /\ h_emissions h !! 1%nat = Some ("b"%string, 130000) /\
    70000 + RETRY_AFTER_MS <= 130000.
Proof.
  destruct demo_run as (h & Hr & He & _). exists h. split; [done|]. rewrite He. split; [done|]. split; [done|].
  eapply (inbox_retries_spaced demo_convert true ["slack"%string] 70000 h 0 1 "b"); [vm_compute; congruence|done|lia|by rewrite He..].
Defined.

Lemma inbox_drains_witness :
  exists es c' db', grafana_poll demo_convert ["slack"%string] 70000 None [good_row Pending None] = (Ok (es, c'), db') /\
    forall res db'', grafana_poll demo_convert ["slack"%string] 80000 (match c' with Some _ => c' | None => None end) db' = (res, db'') ->
      forall r, r ∈ [good_row Pending None] -> listable ["slack"%string] r = true ->
        exists r', r' ∈ db'' /\ same_item r r' /\ r_status r' = Delivered.
Proof.
  apply inbox_drains; try (vm_compute; split; congruence); [|vm_compute; lia]. split; [apply NoDup_singleton|].
  intros r ->%list_elem_of_singleton. exists demo_item. split_and!; [repeat split; vm_compute; congruence|by vm_compute..].
Defined.

Definition legacy_row : row := mkRow "z" None "slack:C1" "{}" Pending 1 None None.

Lemma legacy_rows_stuck_witness :
  let '(res, db') := grafana_poll demo_convert ["slack"%string] 70000 None [legacy_row] in
  legacy_row ∈ db' /\ forall es c', res = Ok (es, c') -> ~ (r_id legacy_row ∈ fst <$> es).
Proof.
  destruct (grafana_poll demo_convert ["slack"%string] 70000 None [legacy_row]) as [res db'] eqn:Hp.
  apply (legacy_rows_stuck demo_convert ["slack"%string] 70000 None [legacy_row] res db' legacy_row); try done.
  - apply NoDup_singleton.
  - intros x ->%list_elem_of_singleton. by vm_compute.
  - constructor.
  - by intros ?%elem_of_nil.
Defined.
