(* ===== verification/Callbacks.v ===== *)
(** * Scheduled callbacks

    The [system/callback] tool ([tools/system/src/callback_bundle.rs]), its
    durable table ([baml-agent-runner/src/deployment_state.rs], contract in
    [baml-rt-core/src/callback_store.rs]), the delivery gate
    ([baml-agent-runner/src/callback_delivery.rs]) and the producer that emits
    due callbacks ([tools/system/src/callback_producer.rs]).  The table is the
    list of its rows; the sections under [callback_lock] and the single
    statements are the steps of the host.  Payloads are the values their stored
    text encodes; identifiers minted from the clock or at random are
    arguments. *)

From stdpp Require Import base list strings sorting relations.
From Stdlib Require Import ZArith Lia Ascii.
From S2P Require Import Prelude RustStr Json Ids EventDelivery Dispatcher.

Open Scope Z_scope.
Open Scope list_scope.

(** ** Data *)

Record StoredCallback := mkCallback {
  callback_id : string;
  cb_source_key : string;
  cb_dedupe_key : option string;
  cb_payload : json;
  cb_scheduled_for : Z;
  cb_requested_at : Z;
  cb_context_id : option ContextId;
  cb_task_id : option TaskId;
  cb_scheduling_context_id : option ContextId;
  cb_scheduling_task_id : option TaskId;
  cb_requesting_agent_id : option string;
  cb_requesting_message_id : option MessageId
}.

(** [ScheduleCallbackRequest]: a callback without its identifier. *)
Record ScheduleCallbackRequest := mkScheduleRequest {
  sr_source_key : string;
  sr_dedupe_key : option string;
  sr_payload : json;
  sr_scheduled_for : Z;
  sr_requested_at : Z;
  sr_context_id : option ContextId;
  sr_task_id : option TaskId;
  sr_scheduling_context_id : option ContextId;
  sr_scheduling_task_id : option TaskId;
  sr_requesting_agent_id : option string;
  sr_requesting_message_id : option MessageId
}.

Inductive CancelCallbackSelector :=
| CallbackId (id : string)
| DedupeKey (source_key dedupe_key : string).

Inductive cb_status := CbPending | CbDelivered | CbCancelled.

#[global] Instance cb_status_eq_dec : EqDecision cb_status.
Proof. solve_decision. Defined.

(** A row of [scheduled_callbacks]; its two times are stored as [i64]. *)
Record cb_row := mkCbRow {
  cr_callback : StoredCallback;
  cr_status : cb_status;
  cr_emitted : option Z;
  cr_delivered : option Z;
  cr_cancelled : option Z
}.

Definition cr_id (r : cb_row) : string := callback_id (cr_callback r).

(** [value as i64] *)
Definition as_i64 (z : Z) : Z := if z <? 2 ^ 63 then z else z - 2 ^ 64.

Definition with_times (f : Z -> Z) (c : StoredCallback) : StoredCallback :=
  mkCallback (callback_id c) (cb_source_key c) (cb_dedupe_key c) (cb_payload c) (f (cb_scheduled_for c))
    (f (cb_requested_at c)) (cb_context_id c) (cb_task_id c) (cb_scheduling_context_id c)
    (cb_scheduling_task_id c) (cb_requesting_agent_id c) (cb_requesting_message_id c).

(** [parse_callback_row]: a negative time is read as zero. *)
Definition parse_callback_row (r : cb_row) : StoredCallback := with_times (Z.max 0) (cr_callback r).

(** ** Statements *)

(** [UPSERT .. WHERE callback_id = $callback_id] *)
Definition upsert_callback_row (c : StoredCallback) (status : cb_status) (em de ca : option Z) (db : list cb_row)
    : list cb_row :=
  let row := mkCbRow (with_times as_i64 c) status (as_i64 <$> em) (as_i64 <$> de) (as_i64 <$> ca) in
  if existsb (fun r => bool_decide (cr_id r = callback_id c)) db
  then (fun r => if bool_decide (cr_id r = callback_id c) then row else r) <$> db
  else db ++ [row].

(** Pending and not emitted: the rows dedupe and cancel look at. *)
Definition cancellable (r : cb_row) : bool :=
  bool_decide (cr_status r = CbPending) && bool_decide (cr_emitted r = None).

Definition find_pending_callback_by_id (id : string) (db : list cb_row) : option StoredCallback :=
  parse_callback_row <$> head (List.filter (fun r => bool_decide (cr_id r = id) && cancellable r) db).

Definition has_keys (source_key dedupe_key : string) (r : cb_row) : bool :=
  bool_decide (cb_source_key (cr_callback r) = source_key) &&
  bool_decide (cb_dedupe_key (cr_callback r) = Some dedupe_key).

Definition find_pending_callback_by_dedupe (source_key dedupe_key : string) (db : list cb_row) : option StoredCallback :=
  parse_callback_row <$> head (List.filter (fun r => has_keys source_key dedupe_key r && cancellable r) db).

Definition request_callback (id : string) (q : ScheduleCallbackRequest) : StoredCallback :=
  mkCallback id (sr_source_key q) (sr_dedupe_key q) (sr_payload q) (sr_scheduled_for q) (sr_requested_at q)
    (sr_context_id q) (sr_task_id q) (sr_scheduling_context_id q) (sr_scheduling_task_id q)
    (sr_requesting_agent_id q) (sr_requesting_message_id q).

(** [schedule_callback]: the callback and whether it was created; [id] is the
    random identifier. *)
Definition store_schedule_callback (id : string) (q : ScheduleCallbackRequest) (db : list cb_row)
    : (StoredCallback * bool) * list cb_row :=
  let create := ((request_callback id q, true), upsert_callback_row (request_callback id q) CbPending None None None db) in
  match sr_dedupe_key q with
  | Some dedupe_key =>
      match find_pending_callback_by_dedupe (sr_source_key q) dedupe_key db with
      | Some existing => ((existing, false), db)
      | None => create
      end
  | None => create
  end.

Definition store_cancel_callback (sel : CancelCallbackSelector) (now : Z) (db : list cb_row)
    : option StoredCallback * list cb_row :=
  let found := match sel with
               | CallbackId id => find_pending_callback_by_id id db
               | DedupeKey source_key dedupe_key => find_pending_callback_by_dedupe source_key dedupe_key db
               end in
  match found with
  | None => (None, db)
  | Some c => (Some c, upsert_callback_row c CbCancelled None None (Some now) db)
  end.

(** [ORDER BY scheduled_for_unix_ms ASC, callback_id ASC] *)
Definition cb_le (a b : cb_row) : Prop :=
  cb_scheduled_for (cr_callback a) < cb_scheduled_for (cr_callback b) \/
  (cb_scheduled_for (cr_callback a) = cb_scheduled_for (cr_callback b) /\ String.leb (cr_id a) (cr_id b) = true).

#[global] Instance cb_le_dec : RelDecision cb_le.
Proof. unfold RelDecision, cb_le. intros a b. apply _. Defined.

Definition due (now : Z) (r : cb_row) : bool :=
  bool_decide (cr_status r = CbPending) && (cb_scheduled_for (cr_callback r) <=? as_i64 now).

Definition list_due_callbacks (now : Z) (limit : nat) (db : list cb_row) : list StoredCallback :=
  parse_callback_row <$> take limit (merge_sort cb_le (List.filter (due now) db)).

Definition set_emitted (t : Z) (r : cb_row) : cb_row :=
  mkCbRow (cr_callback r) (cr_status r) (Some (as_i64 t)) (cr_delivered r) (cr_cancelled r).

(** [mark_callbacks_emitted]: every pending row asked for is eligible, a time
    is set on those that have none. *)
Definition mark_callbacks_emitted (ids : list string) (t : Z) (db : list cb_row) : list string * list cb_row :=
  match ids with
  | [] => ([], db)
  | _ =>
      let eligible := List.filter (fun r => bool_decide (cr_id r ∈ ids) && bool_decide (cr_status r = CbPending)) db in
      let first := cr_id <$> List.filter (fun r => bool_decide (cr_emitted r = None)) eligible in
      (cr_id <$> eligible,
       (fun r => if bool_decide (cr_id r ∈ first) && cancellable r then set_emitted t r else r) <$> db)
  end.

Definition set_delivered (t : Z) (r : cb_row) : cb_row :=
  mkCbRow (cr_callback r) CbDelivered (cr_emitted r) (Some (as_i64 t)) None.

Definition mark_callbacks_delivered (ids : list string) (t : Z) (db : list cb_row) : list cb_row :=
  match ids with
  | [] => db
  | _ => (fun r => if bool_decide (cr_id r ∈ ids) && bool_decide (cr_status r = CbPending) then set_delivered t r else r) <$> db
  end.

(** [purge_pre_cutover_pending_callbacks], when the store is opened. *)
Definition purge_pre_cutover_pending_callbacks (db : list cb_row) : list cb_row :=
  List.filter (fun r => negb (bool_decide (cr_status r = CbPending) &&
    (bool_decide (cb_scheduling_context_id (cr_callback r) = None) ||
     bool_decide (cb_scheduling_task_id (cr_callback r) = None)))) db.

(** ** The tool *)

Inductive CallbackContinuationMode := Detached | ResumeCurrentTask.

Record CallbackScheduleInput := mkScheduleInput {
  in_after_ms : Z;
  in_source_key : string;
  in_payload : json;
  in_dedupe_key : option string;
  in_continuation : option CallbackContinuationMode
}.

Record ToolSessionContext := mkSessionCtx { sc_context_id : ContextId; sc_task_id : option TaskId; sc_agent_id : string }.

Inductive CallbackToolError :=
| EmptyText (field : string) | NoTaskScope | ResumeNeedsDedupeKey | InvalidSourceKey
| BothSelectors | NeedsDedupeKey | NeedsSourceKey | NoSelector.

Definition normalize_source_key (raw : string) : result string CallbackToolError :=
  ok_or (EventSourceKey_parse raw) InvalidSourceKey.

Definition normalize_optional_text (raw : option string) (field_name : string) : result (option string) CallbackToolError :=
  match raw with
  | None => Ok None
  | Some value => let t := trim value in if is_empty_str t then Err (EmptyText field_name) else Ok (Some t)
  end.

(** The request the tool hands to the store; [now] and the minted dispatch scope
    are arguments. *)
Definition schedule_request (now : Z) (minted : ContextId * TaskId) (ctx : ToolSessionContext) (input : CallbackScheduleInput)
    : result ScheduleCallbackRequest CallbackToolError :=
  let scheduled_for := Z.min u64_max (now + in_after_ms input) in
  let? dedupe_key := normalize_optional_text (in_dedupe_key input) "dedupeKey" in
  let? task := ok_or (sc_task_id ctx) NoTaskScope in
  let? scope := match default Detached (in_continuation input) with
                | Detached => Ok minted
                | ResumeCurrentTask =>
                    match dedupe_key with
                    | None => Err ResumeNeedsDedupeKey
                    | Some _ => Ok (sc_context_id ctx, task)
                    end
                end in
  let? source_key := normalize_source_key (in_source_key input) in
  Ok (mkScheduleRequest source_key dedupe_key (in_payload input) scheduled_for now (Some (fst scope)) (Some (snd scope))
        (Some (sc_context_id ctx)) (Some task) (Some (sc_agent_id ctx)) None).

Definition schedule_callback (id : string) (now : Z) (minted : ContextId * TaskId) (ctx : ToolSessionContext)
    (input : CallbackScheduleInput) (db : list cb_row) : result (StoredCallback * bool) CallbackToolError * list cb_row :=
  match schedule_request now minted ctx input with
  | Err e => (Err e, db)
  | Ok q => let '(res, db') := store_schedule_callback id q db in (Ok res, db')
  end.

Record CallbackCancelInput := mkCancelInput {
  ci_callback_id : option string; ci_source_key : option string; ci_dedupe_key : option string
}.

Definition cancel_selector (input : CallbackCancelInput) : result CancelCallbackSelector CallbackToolError :=
  let? callback_id := normalize_optional_text (ci_callback_id input) "callbackId" in
  let? source_key := normalize_optional_text (ci_source_key input) "sourceKey" in
  let? dedupe_key := normalize_optional_text (ci_dedupe_key input) "dedupeKey" in
  match callback_id, source_key, dedupe_key with
  | Some id, None, None => Ok (CallbackId id)
  | Some _, _, _ => Err BothSelectors
  | None, Some _, None => Err NeedsDedupeKey
  | None, None, Some _ => Err NeedsSourceKey
  | None, Some s, Some d => let? s := normalize_source_key s in Ok (DedupeKey s d)
  | None, None, None => Err NoSelector
  end.

Definition cancel_callback (now : Z) (input : CallbackCancelInput) (db : list cb_row)
    : result (option StoredCallback) CallbackToolError * list cb_row :=
  match cancel_selector input with
  | Err e => (Err e, db)
  | Ok sel => let '(res, db') := store_cancel_callback sel now db in (Ok res, db')
  end.

(** ** The producer *)

Definition MAX_CALLBACKS_PER_POLL : nat := 100.
Definition CALLBACK_EVENT_SCHEMA_VERSION : string := "system.callback.v1".
Definition CALLBACK_EVENT_ROUTING_KEY : string := "system:callback".

Definition opt_str (o : option string) : json := match o with Some s => JStr s | None => JNull end.

Definition callback_to_event (now : Z) (c : StoredCallback) : option ProducedEvent :=
  match EventSourceKey_parse (cb_source_key c) with
  | None => None
  | Some source_key =>
      let metadata := match cb_scheduling_context_id c, cb_scheduling_task_id c with
                      | Some x, Some t => Some (JObj [("schedulingContextId", JStr x); ("schedulingTaskId", JStr t)])
                      | _, _ => None
                      end in
      let message := JObj [
        ("schema_version", JStr CALLBACK_EVENT_SCHEMA_VERSION);
        ("callback_id", JStr (callback_id c));
        ("source", JObj [("source_kind", JStr CALLBACK_SOURCE_KIND); ("source_key", JStr (cb_source_key c))]);
        ("scheduled_for_unix_ms", JNum (NInt (cb_scheduled_for c)));
        ("requested_at_unix_ms", JNum (NInt (cb_requested_at c)));
        ("emitted_at_unix_ms", JNum (NInt now));
        ("dedupe_key", opt_str (cb_dedupe_key c));
        ("payload", cb_payload c);
        ("request", JObj [("context_id", opt_str (cb_context_id c)); ("task_id", opt_str (cb_task_id c));
           ("scheduling_context_id", opt_str (cb_scheduling_context_id c));
           ("scheduling_task_id", opt_str (cb_scheduling_task_id c));
           ("requesting_agent_id", opt_str (cb_requesting_agent_id c));
           ("requesting_message_id", opt_str (cb_requesting_message_id c))])] in
      Some (mkProduced CALLBACK_EVENT_ROUTING_KEY CALLBACK_EVENT_SCHEMA_VERSION CALLBACK_SOURCE_KIND source_key [message]
              (cb_context_id c) (cb_task_id c) (Some ("system/callback:" +:+ callback_id c)%string) None metadata)
  end.

Definition has_scheduling_scope (c : StoredCallback) : bool :=
  negb (bool_decide (cb_scheduling_context_id c = None) || bool_decide (cb_scheduling_task_id c = None)).

(** [RunnerCallbackDeliveryGate::can_emit_callback], over the runner's view of
    which turns are in flight. *)
Definition can_emit_callback (in_flight : string -> ContextId -> TaskId -> bool) (c : StoredCallback) : bool :=
  match cb_requesting_agent_id c with
  | None => true
  | Some agent =>
      match cb_scheduling_context_id c, cb_scheduling_task_id c with
      | Some x, Some t => negb (in_flight agent x t)
      | _, _ => false
      end
  end.

(** The due callbacks the poll goes on with; no gate lets all pass. *)
Definition deliverable (gate : option (StoredCallback -> bool)) (cs : list StoredCallback) : list StoredCallback :=
  let scoped := List.filter has_scheduling_scope cs in
  match gate with Some g => List.filter g scoped | None => scoped end.

Fixpoint callbacks_to_events (now : Z) (cs : list StoredCallback) : option (list (string * ProducedEvent)) :=
  match cs with
  | [] => Some []
  | c :: rest =>
      e ← callback_to_event now c; es ← callbacks_to_events now rest; Some ((callback_id c, e) :: es)
  end.

Definition checkpoint_ids (c : option (list string)) : list string := default [] c.

Definition next_checkpoint (reconciled : bool) (delivered : list string) : option (list string) :=
  match delivered with
  | [] => if reconciled then Some [] else None
  | _ => Some delivered
  end.

Definition claimed (emitted : list string) (cs : list StoredCallback) : list StoredCallback :=
  List.filter (fun c => bool_decide (callback_id c ∈ emitted)) cs.

(** [CallbackEventProducer::poll], with one reading standing for its several
    readings of the clock; the host below lets them differ. *)
Definition callback_poll (gate : option (StoredCallback -> bool)) (now : Z) (c : option (list string)) (db : list cb_row)
    : option (list (string * ProducedEvent) * option (list string)) * list cb_row :=
  let reconciled := negb (is_nil (checkpoint_ids c)) in
  let db1 := mark_callbacks_delivered (checkpoint_ids c) now db in
  let cs := deliverable gate (list_due_callbacks now MAX_CALLBACKS_PER_POLL db1) in
  let '(emitted, db2) := mark_callbacks_emitted (callback_id <$> cs) now db1 in
  (es ← callbacks_to_events now (claimed emitted cs); Some (es, next_checkpoint reconciled (fst <$> es)), db2).

(** ** The host *)

Inductive cb_pc :=
| CIdle
| CReconciled (rec : bool)
| CListed (rec : bool) (cs : list StoredCallback)
| CPublishing (rec : bool) (sent rest : list (string * ProducedEvent)) (bad : bool)
| CSaving.

Record cb_host := mkCbHost {
  ch_db : list cb_row;
  ch_mem : option (list string);
  ch_disk : option (list string);
  ch_pc : cb_pc;
  ch_log : list (string * EventDeliveryOutcome);   (** what publishing returned *)
  ch_emissions : list string;                      (** ids put into a batch *)
  ch_used : list string                            (** identifiers minted so far *)
}.

Definition cb_set (h : cb_host) (db : list cb_row) (p : cb_pc) : cb_host :=
  mkCbHost db (ch_mem h) (ch_disk h) p (ch_log h) (ch_emissions h) (ch_used h).

(** A batch element that keeps the cursor where it is: a subscriber failed, or
    there was none. *)
Definition undelivered (o : EventDeliveryOutcome) : bool :=
  negb (is_nil (failures o)) || (subscribers_matched o =? 0)%nat.

Inductive cb_step : cb_host -> cb_host -> Prop :=
| cb_schedule h id q : id ∉ ch_used h ->
    cb_step h (mkCbHost (store_schedule_callback id q (ch_db h)).2 (ch_mem h) (ch_disk h) (ch_pc h)
                 (ch_log h) (ch_emissions h) (ch_used h ++ [id]))
| cb_cancel h sel now :
    cb_step h (cb_set h (store_cancel_callback sel now (ch_db h)).2 (ch_pc h))
| cb_restart h :
    cb_step h (mkCbHost (purge_pre_cutover_pending_callbacks (ch_db h)) (ch_disk h) (ch_disk h) CIdle
                 (ch_log h) (ch_emissions h) (ch_used h))
| cb_reconcile h now : ch_pc h = CIdle ->
    cb_step h (cb_set h (mark_callbacks_delivered (checkpoint_ids (ch_mem h)) now (ch_db h))
                 (CReconciled (negb (is_nil (checkpoint_ids (ch_mem h))))))
| cb_list h rec gate now : ch_pc h = CReconciled rec ->
    cb_step h (cb_set h (ch_db h) (CListed rec (deliverable gate (list_due_callbacks now MAX_CALLBACKS_PER_POLL (ch_db h)))))
| cb_claim h rec cs now emitted db : ch_pc h = CListed rec cs ->
    mark_callbacks_emitted (callback_id <$> cs) now (ch_db h) = (emitted, db) ->
    cb_step h (mkCbHost db (ch_mem h) (ch_disk h)
                 (match callbacks_to_events now (claimed emitted cs) with
                  | Some es => CPublishing rec [] es false
                  | None => CIdle
                  end) (ch_log h) (ch_emissions h ++ emitted) (ch_used h))
| cb_publish h rec sent id e rest bad o : ch_pc h = CPublishing rec sent ((id, e) :: rest) bad ->
    cb_step h (mkCbHost (ch_db h) (ch_mem h) (ch_disk h)
                 (CPublishing rec (sent ++ [(id, e)]) rest (bad || undelivered o))
                 (ch_log h ++ [(id, o)]) (ch_emissions h) (ch_used h))
| cb_publish_failed h rec sent x rest bad : ch_pc h = CPublishing rec sent (x :: rest) bad ->
    cb_step h (cb_set h (ch_db h) CIdle)
| cb_advance h rec sent bad : ch_pc h = CPublishing rec sent [] bad ->
    cb_step h (mkCbHost (ch_db h)
                 (if bad then ch_mem h else match next_checkpoint rec (fst <$> sent) with
                                            | Some c => Some c | None => ch_mem h end)
                 (ch_disk h) CSaving (ch_log h) (ch_emissions h) (ch_used h))
| cb_save h : ch_pc h = CSaving ->
    cb_step h (mkCbHost (ch_db h) (ch_mem h) (match ch_mem h with Some c => Some c | None => ch_disk h end) CIdle
                 (ch_log h) (ch_emissions h) (ch_used h))
| cb_save_failed h : ch_pc h = CSaving -> cb_step h (cb_set h (ch_db h) CIdle).

Definition cb_start : cb_host := mkCbHost [] None None CIdle [] [] [].
Definition cb_reachable (h : cb_host) : Prop := rtc cb_step cb_start h.

(** ** Invariant *)

(** Published to at least one subscriber, none of which failed. *)
Definition cb_clean (log : list (string * EventDeliveryOutcome)) (id : string) : Prop :=
  exists o, (id, o) ∈ log /\ failures o = [] /\ subscribers_matched o <> 0%nat.

Definition row_ok (log : list (string * EventDeliveryOutcome)) (em : list string) (r : cb_row) : Prop :=
  match cr_status r with
  | CbPending => cr_emitted r = None -> ~ (cr_id r ∈ em)
  | CbDelivered => cb_clean log (cr_id r)
  | CbCancelled => ~ (cr_id r ∈ em)
  end.

(** One cancellable row per source key and dedupe key. *)
Definition deduped (db : list cb_row) : Prop :=
  forall r1 r2 s d, r1 ∈ db -> r2 ∈ db -> cancellable r1 = true -> cancellable r2 = true ->
    has_keys s d r1 = true -> has_keys s d r2 = true -> r1 = r2.

Record cb_inv (h : cb_host) : Prop := {
  cbi_nodup : NoDup (cr_id <$> ch_db h);
  cbi_used : forall r, r ∈ ch_db h -> cr_id r ∈ ch_used h;
  cbi_em_used : forall id, id ∈ ch_emissions h -> id ∈ ch_used h;
  cbi_rows : forall r, r ∈ ch_db h -> row_ok (ch_log h) (ch_emissions h) r;
  cbi_mem : forall id, id ∈ checkpoint_ids (ch_mem h) -> cb_clean (ch_log h) id;
  cbi_disk : forall id, id ∈ checkpoint_ids (ch_disk h) -> cb_clean (ch_log h) id;
  cbi_sent : match ch_pc h with
             | CPublishing _ sent _ bad => bad = false -> forall x, x ∈ sent -> cb_clean (ch_log h) x.1
             | _ => True
             end;
  cbi_dedupe : deduped (ch_db h)
}.

Lemma cb_row_by_id db r r' : NoDup (cr_id <$> db) -> r ∈ db -> r' ∈ db -> cr_id r = cr_id r' -> r = r'.
Proof.
  intros Hnd [i Hi]%list_elem_of_lookup [j Hj]%list_elem_of_lookup Heq.
  assert (i = j) as ->; [|congruence].
  eapply (NoDup_lookup (cr_id <$> db)); [done|rewrite list_lookup_fmap, Hi; done|]. rewrite list_lookup_fmap, Hj. simpl. congruence.
Qed.

Lemma in_cb_filter (p : cb_row -> bool) db r : r ∈ List.filter p db <-> r ∈ db /\ p r = true.
Proof. by rewrite !list_elem_of_In, List.filter_In. Qed.

Lemma head_filter (p : cb_row -> bool) db r : head (List.filter p db) = Some r -> r ∈ db /\ p r = true.
Proof. intros H. apply in_cb_filter. destruct (List.filter p db); [done|]. injection H as ->. constructor. Qed.

Lemma head_filter_None (p : cb_row -> bool) db r : head (List.filter p db) = None -> r ∈ db -> p r = false.
Proof.
  intros H Hr. destruct (p r) eqn:Hp; [|done]. assert (Hin : r ∈ List.filter p db) by (by apply in_cb_filter).
  destruct (List.filter p db); [by apply elem_of_nil in Hin|done].
Qed.

(** A map over the rows that keeps identifiers and opens no row. *)
Lemma deduped_map (f : cb_row -> cb_row) db :
  NoDup (cr_id <$> db) ->
  (forall r, r ∈ db -> cr_id (f r) = cr_id r) -> (forall r, r ∈ db -> cancellable (f r) = true -> f r = r) ->
  deduped db -> NoDup (cr_id <$> (f <$> db)) /\ deduped (f <$> db).
Proof.
  intros Hnd Hid Hop Hd. split.
  - assert (cr_id <$> (f <$> db) = cr_id <$> db) as ->; [|done]. rewrite <-list_fmap_compose.
    apply list_fmap_ext. intros i r Hr. apply Hid. by eapply list_elem_of_lookup_2.
  - intros r1 r2 s d (x1 & -> & H1)%list_elem_of_fmap (x2 & -> & H2)%list_elem_of_fmap C1 C2 K1 K2.
    pose proof (Hop x1 H1 C1) as E1. pose proof (Hop x2 H2 C2) as E2. rewrite E1, E2 in *. by apply (Hd x1 x2 s d).
Qed.

Lemma upsert_existing c st em de ca db :
  (exists r, r ∈ db /\ cr_id r = callback_id c) ->
  upsert_callback_row c st em de ca db =
  (fun r => if bool_decide (cr_id r = callback_id c)
            then mkCbRow (with_times as_i64 c) st (as_i64 <$> em) (as_i64 <$> de) (as_i64 <$> ca) else r) <$> db.
Proof.
  intros (r & Hr & Hid). unfold upsert_callback_row.
  assert (Hex : existsb (fun r => bool_decide (cr_id r = callback_id c)) db = true); [|by rewrite Hex].
  apply existsb_exists. exists r. split; [by apply list_elem_of_In|by apply bool_decide_eq_true].
Qed.

Lemma upsert_fresh c st em de ca db :
  (forall r, r ∈ db -> cr_id r <> callback_id c) ->
  upsert_callback_row c st em de ca db =
  db ++ [mkCbRow (with_times as_i64 c) st (as_i64 <$> em) (as_i64 <$> de) (as_i64 <$> ca)].
Proof.
  intros Hf. unfold upsert_callback_row.
  assert (Hex : existsb (fun r => bool_decide (cr_id r = callback_id c)) db = false); [|by rewrite Hex].
  apply not_true_iff_false. rewrite existsb_exists. intros (r & Hr & Hid). apply list_elem_of_In in Hr.
  apply bool_decide_eq_true in Hid. by apply (Hf r Hr).
Qed.

(** What cancelling does: nothing, or one cancellable row becomes cancelled. *)
Lemma cancel_cases sel now db :
  store_cancel_callback sel now db = (None, db) \/
  exists r c, r ∈ db /\ cancellable r = true /\ callback_id c = cr_id r /\
    store_cancel_callback sel now db = (Some c, upsert_callback_row c CbCancelled None None (Some now) db).
Proof.
  assert (Hfind : forall p, (forall r, p r = true -> cancellable r = true) ->
    forall c, parse_callback_row <$> head (List.filter p db) = Some c ->
    exists r, r ∈ db /\ cancellable r = true /\ callback_id c = cr_id r).
  { intros p Hp c (r & Hh & ->)%fmap_Some. apply head_filter in Hh as [Hr Hpr]. exists r. split_and!; [done|by apply Hp|done]. }
  unfold store_cancel_callback. destruct sel as [id|s d].
  - unfold find_pending_callback_by_id. destruct (_ <$> _) as [c|] eqn:Hc; [|by left]. right.
    destruct (Hfind _ (fun r H => proj2 (proj1 (andb_true_iff _ _) H)) c Hc) as (r & Hr & Hca & Hid). by exists r, c.
  - unfold find_pending_callback_by_dedupe. destruct (_ <$> _) as [c|] eqn:Hc; [|by left]. right.
    destruct (Hfind _ (fun r H => proj2 (proj1 (andb_true_iff _ _) H)) c Hc) as (r & Hr & Hca & Hid). by exists r, c.
Qed.

(** The fields of the invariant that speak of the table. *)
Record table_ok (log : list (string * EventDeliveryOutcome)) (em used : list string) (db : list cb_row) : Prop := {
  to_nodup : NoDup (cr_id <$> db);
  to_used : forall r, r ∈ db -> cr_id r ∈ used;
  to_rows : forall r, r ∈ db -> row_ok log em r;
  to_dedupe : deduped db
}.

Lemma table_of_inv h : cb_inv h -> table_ok (ch_log h) (ch_emissions h) (ch_used h) (ch_db h).
Proof. intros []. by constructor. Qed.

(** A statement that rewrites rows in place. *)
Lemma table_map (f : cb_row -> cb_row) log em em' used db :
  table_ok log em used db ->
  (forall r, r ∈ db -> cr_id (f r) = cr_id r) -> (forall r, r ∈ db -> cancellable (f r) = true -> f r = r) ->
  (forall r, r ∈ db -> row_ok log em r -> row_ok log em' (f r)) ->
  table_ok log em' used (f <$> db).
Proof.
  intros [Hnd Hu Hr Hd] Hid Hop Hok. destruct (deduped_map f db Hnd Hid Hop Hd) as [Hnd' Hd'].
  constructor; [done| |  |done]; intros r (x & -> & Hx)%list_elem_of_fmap.
  - rewrite (Hid x Hx). by apply Hu.
  - apply Hok; [done|by apply Hr].
Qed.

Lemma row_ok_cancellable log em r : row_ok log em r -> cancellable r = true -> ~ (cr_id r ∈ em).
Proof.
  unfold cancellable, row_ok. intros H [Hs%bool_decide_eq_true He%bool_decide_eq_true]%andb_true_iff.
  rewrite Hs in H. by apply H.
Qed.

Lemma table_cancel sel now log em used db :
  table_ok log em used db -> table_ok log em used (store_cancel_callback sel now db).2.
Proof.
  intros Ht. destruct (cancel_cases sel now db) as [->|(r & c & Hr & Hc & Hid & ->)]; [done|]. simpl.
  rewrite upsert_existing by (by exists r). apply (table_map _ log em); [done| | |].
  - intros x Hx. case_bool_decide; [|done]. unfold cr_id. simpl. done.
  - intros x Hx. case_bool_decide; done.
  - intros x Hx Hok. case_bool_decide as Hxi; [|done]. unfold row_ok, cr_id. simpl. rewrite Hid.
    apply (row_ok_cancellable log); [by apply (to_rows _ _ _ _ Ht)|done].
Qed.

Lemma table_deliver ids now log em used db :
  (forall id, id ∈ ids -> cb_clean log id) -> table_ok log em used db ->
  table_ok log em used (mark_callbacks_delivered ids now db).
Proof.
  intros Hc Ht. unfold mark_callbacks_delivered. destruct ids as [|i ids]; [done|].
  apply (table_map _ log em); [done| | |].
  - intros x Hx. by destruct (_ && _).
  - intros x Hx. by destruct (_ && _).
  - intros x Hx Hok. destruct (_ && _) eqn:Hb; [|done]. apply andb_true_iff in Hb as [Hi%bool_decide_eq_true _].
    unfold row_ok. simpl. by apply Hc.
Qed.

Lemma table_purge log em used db :
  table_ok log em used db -> table_ok log em used (purge_pre_cutover_pending_callbacks db).
Proof.
  intros [Hnd Hu Hr Hd]. unfold purge_pre_cutover_pending_callbacks. constructor.
  - clear -Hnd. induction db as [|r db IH]; [done|]. rewrite fmap_cons in Hnd. apply NoDup_cons in Hnd as [Hn Hnd].
    simpl. destruct (negb _); [|by apply IH]. rewrite fmap_cons. apply NoDup_cons. split; [|by apply IH].
    intros (x & Hx & Hin)%list_elem_of_fmap. apply Hn. rewrite Hx. apply list_elem_of_fmap_2.
    by apply in_cb_filter in Hin as [? _].
  - intros r [Hin _]%in_cb_filter. by apply Hu.
  - intros r [Hin _]%in_cb_filter. by apply Hr.
  - intros r1 r2 s d [H1 _]%in_cb_filter [H2 _]%in_cb_filter. by apply Hd.
Qed.

(** Claiming: the identifiers handed out are pending rows of the table. *)
Lemma table_claim ids now log em used db emitted db' :
  mark_callbacks_emitted ids now db = (emitted, db') -> table_ok log em used db ->
  table_ok log (em ++ emitted) used db' /\ forall id, id ∈ emitted -> id ∈ used.
Proof.
  unfold mark_callbacks_emitted. intros Hm Ht. destruct ids as [|i ids].
  { injection Hm as <- <-. split; [by rewrite app_nil_r|by intros ? ?%elem_of_nil]. }
  injection Hm as <- <-. set (ids' := i :: ids). set (el := List.filter _ db).
  assert (Hel : forall r, r ∈ el <-> r ∈ db /\ cr_id r ∈ ids' /\ cr_status r = CbPending).
  { intros r. unfold el. rewrite in_cb_filter, andb_true_iff, !bool_decide_eq_true. tauto. }
  split; [|intros id (r & -> & Hr)%list_elem_of_fmap; apply Hel in Hr as [Hr _]; by apply (to_used _ _ _ _ Ht)].
  apply (table_map _ log em); [done| | |].
  - intros x Hx. by destruct (_ && _).
  - intros x Hx. destruct (_ && _); [|done]. unfold cancellable, set_emitted. simpl. by rewrite andb_false_r.
  - intros x Hx Hok.
    assert (Hrow : cr_id x ∈ cr_id <$> el -> x ∈ el).
    { intros (y & Hxy & Hy)%list_elem_of_fmap. pose proof Hy as [Hydb _]%Hel.
      by rewrite (cb_row_by_id db x y (to_nodup _ _ _ _ Ht) Hx Hydb Hxy). }
    destruct (_ && _) eqn:Hb.
    + apply andb_true_iff in Hb as [_ [Hs%bool_decide_eq_true _]%andb_true_iff]. unfold row_ok, set_emitted. simpl. by rewrite Hs.
    + unfold row_ok in *. destruct (cr_status x) eqn:Hs; [|done|].
      * intros He [Hin|Hin]%elem_of_app; [by apply Hok|]. apply Hrow in Hin.
        apply andb_false_iff in Hb as [Hb%bool_decide_eq_false|Hb].
        -- apply Hb. apply list_elem_of_fmap_2, in_cb_filter. by rewrite bool_decide_eq_true.
        -- unfold cancellable in Hb. by rewrite Hs, He in Hb.
      * intros [Hin|Hin]%elem_of_app; [by apply Hok|]. apply Hrow, Hel in Hin as (_ & _ & Hp). congruence.
Qed.

Lemma table_mono log log' em used used' db :
  (forall id, cb_clean log id -> cb_clean log' id) -> (forall id, id ∈ used -> id ∈ used') ->
  table_ok log em used db -> table_ok log' em used' db.
Proof.
  intros Hl Hu [H1 H2 H3 H4]. constructor; [done|by eauto| |done].
  intros r Hr. specialize (H3 r Hr). unfold row_ok in *. destruct (cr_status r); [done|by apply Hl|done].
Qed.

Lemma table_insert c log em used db :
  table_ok log em used db -> ~ (callback_id c ∈ used) -> (forall id, id ∈ em -> id ∈ used) ->
  (forall r d, r ∈ db -> cb_dedupe_key c = Some d -> has_keys (cb_source_key c) d r && cancellable r = false) ->
  table_ok log em (used ++ [callback_id c]) (upsert_callback_row c CbPending None None None db).
Proof.
  intros Ht Hfresh Hem Hk. pose proof Ht as [Hnd Hu Hr Hd].
  rewrite upsert_fresh by (intros r Hin He; apply Hfresh; rewrite <-He; by apply Hu). simpl.
  constructor.
  - rewrite fmap_app. apply NoDup_app. split_and!; [done| |apply NoDup_singleton].
    intros x (r & -> & Hin)%list_elem_of_fmap Heq%list_elem_of_singleton. apply Hfresh.
    change (callback_id c) with (cr_id (mkCbRow (with_times as_i64 c) CbPending None None None)).
    rewrite <-Heq. by apply Hu.
  - intros r [Hin| ->%list_elem_of_singleton]%elem_of_app; apply elem_of_app; [left; by apply Hu|right; by left].
  - intros r [Hin| ->%list_elem_of_singleton]%elem_of_app; [by apply Hr|]. unfold row_ok. simpl. intros _ Hin.
    apply Hfresh, Hem, Hin.
  - assert (Hnew : forall r s d, r ∈ db -> cancellable r = true -> has_keys s d r = true ->
      has_keys s d (mkCbRow (with_times as_i64 c) CbPending None None None) = true -> False).
    { intros r s d Hin Hc Hkr [<-%bool_decide_eq_true Hd'%bool_decide_eq_true]%andb_true_iff. simpl in *.
      specialize (Hk r d Hin Hd'). by rewrite Hkr, Hc in Hk. }
    intros r1 r2 s d [I1| ->%list_elem_of_singleton]%elem_of_app [I2| ->%list_elem_of_singleton]%elem_of_app C1 C2 K1 K2;
      [by apply (Hd r1 r2 s d)| | |done]; exfalso; eauto.
Qed.

Lemma table_schedule id q log em used db :
  table_ok log em used db -> ~ (id ∈ used) -> (forall id, id ∈ em -> id ∈ used) ->
  table_ok log em (used ++ [id]) (store_schedule_callback id q db).2.
Proof.
  intros Ht Hf Hem. unfold store_schedule_callback.
  assert (Hkeep : table_ok log em (used ++ [id]) db).
  { apply (table_mono log log em used); [done|intros i Hi; apply elem_of_app; by left|done]. }
  destruct (sr_dedupe_key q) as [d|] eqn:Hq.
  - destruct (find_pending_callback_by_dedupe _ _ _) eqn:Hfind; [done|].
    apply (table_insert (request_callback id q)); [done..|]. intros r d' Hin Hd'. simpl in *.
    assert (d' = d) as -> by congruence. unfold find_pending_callback_by_dedupe in Hfind. apply fmap_None in Hfind.
    exact (head_filter_None _ db r Hfind Hin).
  - apply (table_insert (request_callback id q)); [done..|]. intros r d' Hin Hd'. simpl in *. congruence.
Qed.

Lemma cb_clean_app log x id : cb_clean log id -> cb_clean (log ++ x) id.
Proof. intros (o & Hin & Ho). exists o. split; [|done]. apply elem_of_app. by left. Qed.

Lemma cb_step_inv h h' : cb_step h h' -> cb_inv h -> cb_inv h'.
Proof.
  intros Hs Hi. pose proof (table_of_inv h Hi) as Ht. destruct Hi as [_ _ Heu _ Hmem Hdisk Hsent _].
  destruct Hs as [h id q Hf|h sel now|h|h now Hpc|h rec gate now Hpc|h rec cs now em db Hpc Hm
    |h rec sent id e rest bad o Hpc|h rec sent x rest bad Hpc|h rec sent bad Hpc|h Hpc|h Hpc]; try rewrite Hpc in Hsent.
  - pose proof (table_schedule id q _ _ _ _ Ht Hf Heu) as []. constructor; simpl; try done.
    intros i Hin. apply elem_of_app. left. by apply Heu.
  - pose proof (table_cancel sel now _ _ _ _ Ht) as []. by constructor.
  - pose proof (table_purge _ _ _ _ Ht) as []. by constructor.
  - pose proof (table_deliver _ now _ _ _ _ Hmem Ht) as []. by constructor.
  - destruct Ht. by constructor.
  - destruct (table_claim _ _ _ _ _ _ _ _ Hm Ht) as [[] Hem]. constructor; simpl; try done.
    + intros i [Hin|Hin]%elem_of_app; [by apply Heu|by apply Hem].
    + destruct (callbacks_to_events _ _); [|done]. intros _ y []%elem_of_nil.
  - assert (Hl : forall i, cb_clean (ch_log h) i -> cb_clean (ch_log h ++ [(id, o)]) i) by (intros; by apply cb_clean_app).
    destruct (table_mono _ _ _ _ _ _ Hl (fun _ H => H) Ht). constructor; simpl; try done; try (intros i Hin; apply Hl; by auto).
    intros [Hb Ho]%orb_false_iff y [Hy| ->%list_elem_of_singleton]%elem_of_app; [by apply Hl, Hsent|]. simpl.
    exists o. apply orb_false_iff in Ho as [Hfl Hsub%Nat.eqb_neq]. split_and!; [apply elem_of_app; right; by left| |done].
    by destruct (failures o).
  - destruct Ht. by constructor.
  - destruct Ht. constructor; simpl; try done. destruct bad; [done|]. destruct (next_checkpoint _ _) as [l|] eqn:Hn; [|done].
    simpl. intros i Hin. unfold next_checkpoint in Hn. destruct (fst <$> sent) as [|y l'] eqn:Hl.
    { destruct rec; [|done]. injection Hn as <-. by apply elem_of_nil in Hin. }
    injection Hn as <-. rewrite <-Hl in Hin. apply list_elem_of_fmap in Hin as (z & -> & Hz). by apply Hsent.
  - destruct Ht. constructor; simpl; try done. by destruct (ch_mem h).
  - destruct Ht. by constructor.
Qed.

Lemma cb_start_inv : cb_inv cb_start.
Proof.
  constructor; simpl; try done; try (by intros ? ?%elem_of_nil); [constructor|].
  by intros ? ? ? ? ?%elem_of_nil.
Qed.

Lemma cb_reachable_inv h : cb_reachable h -> cb_inv h.
Proof. intros H. apply (rtc_ind_r (R := cb_step) cb_inv cb_start); [apply cb_start_inv| |done]. intros y z _ Hs Hi. by apply (cb_step_inv y). Qed.

(** ** Cancellation is final *)

Lemma callbacks_to_events_ids now cs es : callbacks_to_events now cs = Some es -> fst <$> es = callback_id <$> cs.
Proof.
  revert es. induction cs as [|c cs IH]; intros es H; [by injection H as <-|].
  simpl in H. apply bind_Some in H as (e & _ & H). apply bind_Some in H as (es' & Hes & H). injection H as <-.
  rewrite !fmap_cons. f_equal. by apply IH.
Qed.

(** Everything published was put into a batch first. *)
Record cb_published (h : cb_host) : Prop := {
  cbp_log : forall x, x ∈ ch_log h -> x.1 ∈ ch_emissions h;
  cbp_rest : match ch_pc h with CPublishing _ _ rest _ => forall x, x ∈ rest -> x.1 ∈ ch_emissions h | _ => True end
}.

Lemma cb_step_published h h' : cb_step h h' -> cb_published h -> cb_published h'.
Proof.
  intros Hs [Hl Hr].
  destruct Hs as [h id q Hf|h sel now|h|h now Hpc|h rec gate now Hpc|h rec cs now em db Hpc Hm
    |h rec sent id e rest bad o Hpc|h rec sent x rest bad Hpc|h rec sent bad Hpc|h Hpc|h Hpc];
    try rewrite Hpc in Hr; constructor; simpl; try done.
  - intros x Hx. apply elem_of_app. left. by apply Hl.
  - destruct (callbacks_to_events _ _) as [es|] eqn:Hes; [|done]. intros x Hx. apply elem_of_app. right.
    apply callbacks_to_events_ids in Hes.
    assert (Hin : x.1 ∈ callback_id <$> claimed em cs) by (rewrite <-Hes; by apply list_elem_of_fmap_2).
    apply list_elem_of_fmap in Hin as (c & -> & Hc). unfold claimed in Hc. apply list_elem_of_In, List.filter_In in Hc as [_ Hc].
    by apply bool_decide_eq_true in Hc.
  - intros x [Hx| ->%list_elem_of_singleton]%elem_of_app; [by apply Hl|]. apply (Hr (id, e)). by left.
  - intros x Hx. apply Hr. by right.
Qed.

Lemma cb_reachable_published h : cb_reachable h -> cb_published h.
Proof.
  intros H. apply (rtc_ind_r (R := cb_step) cb_published cb_start); [|intros y z _ Hs; by apply cb_step_published|done].
  constructor; simpl; [by intros ? ?%elem_of_nil|done].
Qed.

Definition is_cancelled (id : string) (db : list cb_row) : Prop :=
  exists r, r ∈ db /\ cr_id r = id /\ cr_status r = CbCancelled.

Lemma is_cancelled_map (f : cb_row -> cb_row) id db :
  (forall r, cr_status r = CbCancelled -> f r = r) -> is_cancelled id db -> is_cancelled id (f <$> db).
Proof. intros Hf (r & Hr & Hid & Hs). exists r. split_and!; [|done..]. rewrite <-(Hf r Hs). by apply list_elem_of_fmap_2. Qed.

Lemma cancelled_not_pending r : cr_status r = CbCancelled -> cancellable r = false.
Proof. intros H. unfold cancellable. by rewrite H. Qed.

Lemma cb_step_cancelled h h' id : cb_step h h' -> cb_inv h -> is_cancelled id (ch_db h) -> is_cancelled id (ch_db h').
Proof.
  intros Hs Hi Hc.
  destruct Hs as [h i q Hf|h sel now|h|h now Hpc|h rec gate now Hpc|h rec cs now em db Hpc Hm
    |h rec sent i e rest bad o Hpc|h rec sent x rest bad Hpc|h rec sent bad Hpc|h Hpc|h Hpc]; simpl; try done.
  - unfold store_schedule_callback.
    assert (Hins : is_cancelled id (upsert_callback_row (request_callback i q) CbPending None None None (ch_db h))).
    { rewrite upsert_fresh by (intros r Hr He; apply Hf; simpl in He; rewrite <-He; by apply (cbi_used h)).
      destruct Hc as (r & Hr & Hrest). exists r. split; [|done]. apply elem_of_app. by left. }
    destruct (sr_dedupe_key q); [|done]. by destruct (find_pending_callback_by_dedupe _ _ _).
  - destruct (cancel_cases sel now (ch_db h)) as [->|(r & c & Hr & Hca & Hid & ->)]; [done|]. simpl.
    rewrite upsert_existing by (by exists r). destruct Hc as (x & Hx & Hxi & Hxs). exists x. split_and!; [|done..].
    apply list_elem_of_fmap. exists x. split; [|done]. case_bool_decide as Heq; [|done]. exfalso.
    assert (x = r) as -> by (apply (cb_row_by_id (ch_db h)); [apply Hi|done..|congruence]).
    apply cancelled_not_pending in Hxs. congruence.
  - destruct Hc as (r & Hr & Hid & Hst). exists r. split_and!; [|done..]. apply in_cb_filter. split; [done|]. by rewrite Hst.
  - unfold mark_callbacks_delivered. destruct (checkpoint_ids _); [done|]. apply is_cancelled_map; [|done].
    intros r Hr. rewrite Hr. by rewrite andb_false_r.
  - unfold mark_callbacks_emitted in Hm. destruct (callback_id <$> cs); injection Hm as <- <-; [done|].
    apply is_cancelled_map; [|done]. intros r Hr. by rewrite cancelled_not_pending, andb_false_r.
Qed.

Lemma cb_steps_cancelled h h' id :
  rtc cb_step h h' -> cb_reachable h -> is_cancelled id (ch_db h) -> cb_reachable h' /\ is_cancelled id (ch_db h').
Proof.
  induction 1 as [h|h h1 h' Hs _ IH]; intros Hr Hc; [done|]. apply IH; [by eapply rtc_r|].
  apply (cb_step_cancelled h); [done|by apply cb_reachable_inv|done].
Qed.

(** A poll that nothing interleaves with is three steps of the host. *)
Lemma callback_poll_steps h gate now :
  ch_pc h = CIdle ->
  exists h', rtc cb_step h h' /\ ch_db h' = (callback_poll gate now (ch_mem h) (ch_db h)).2 /\
    match (callback_poll gate now (ch_mem h) (ch_db h)).1 with
    | Some (es, _) => exists rec, ch_pc h' = CPublishing rec [] es false
    | None => ch_pc h' = CIdle
    end.
Proof.
  intros Hpc. unfold callback_poll.
  set (db1 := mark_callbacks_delivered _ _ _). set (cs := deliverable _ _).
  destruct (mark_callbacks_emitted _ _ _) as [em db2] eqn:Hm.
  eexists. split; [|split; [|]].
  - eapply rtc_l; [by apply (cb_reconcile h now)|]. eapply rtc_l; [by eapply (cb_list _ _ gate now)|].
    apply rtc_once. by eapply (cb_claim _ _ cs now em db2).
  - done.
  - simpl. destruct (callbacks_to_events _ _); simpl; [by eexists|done].
Qed.

(** In every reachable state of the host, with scheduling, cancelling,
    polling, publishing, failed saves and restarts interleaved in any way,
    callback identifiers are unique, at most one callback per source key and
    dedupe key is still cancellable, a callback recorded as delivered was
    published to at least one subscriber with no failure, and one recorded as
    cancelled was never put into a batch. *)
Theorem callbacks_safe h :
  cb_reachable h ->
  NoDup (cr_id <$> ch_db h) /\ deduped (ch_db h) /\
  forall r, r ∈ ch_db h ->
    (cr_status r = CbDelivered -> cb_clean (ch_log h) (cr_id r)) /\
    (cr_status r = CbCancelled -> ~ (cr_id r ∈ ch_emissions h)).
Proof.
  intros H%cb_reachable_inv. split_and!; [apply H|apply H|]. intros r Hr. pose proof (cbi_rows h H r Hr) as Hok.
  unfold row_ok in Hok. split; intros Hs; by rewrite Hs in Hok.
Qed.

(** A cancellation that reports a callback is final: whatever the host does
    afterwards, restarts included, that callback is never put into a batch and
    never published. *)
Theorem cancel_is_final h sel now c h' :
  cb_reachable h ->
  (store_cancel_callback sel now (ch_db h)).1 = Some c ->
  rtc cb_step (cb_set h (store_cancel_callback sel now (ch_db h)).2 (ch_pc h)) h' ->
  ~ (callback_id c ∈ ch_emissions h') /\ forall o, ~ ((callback_id c, o) ∈ ch_log h').
Proof.
  intros Hr Hc Hs. set (h1 := cb_set _ _ _) in Hs.
  assert (Hr1 : cb_reachable h1) by (eapply rtc_r; [exact Hr|apply cb_cancel]).
  assert (Hcan : is_cancelled (callback_id c) (ch_db h1)).
  { unfold h1. simpl. destruct (cancel_cases sel now (ch_db h)) as [He|(r & c' & Hin & _ & Hid & He)]; rewrite He in *; [done|].
    simpl in *. injection Hc as ->. rewrite upsert_existing by (by exists r).
    exists (mkCbRow (with_times as_i64 c) CbCancelled None None (Some (as_i64 now))). split_and!; [|done..].
    apply list_elem_of_fmap. exists r. split; [|done]. by rewrite bool_decide_eq_true_2. }
  destruct (cb_steps_cancelled h1 h' _ Hs Hr1 Hcan) as [Hr' (r & Hin & Hid & Hst)].
  assert (Hem : ~ (callback_id c ∈ ch_emissions h')).
  { pose proof (cbi_rows h' (cb_reachable_inv h' Hr') r Hin) as Hok. unfold row_ok in Hok. by rewrite Hst, Hid in Hok. }
  split; [done|]. intros o Ho. apply Hem. by apply (cbp_log h' (cb_reachable_published h' Hr') _ Ho).
Qed.

(** A delay of [2^63] milliseconds or more makes the callback due at once:
    the saturated due time does not fit the signed column, the stored value is
    negative, and every later poll lists the row as due. *)
Theorem huge_delay_fires_now id now minted ctx input db c db' :
  0 <= now -> 2 ^ 63 <= in_after_ms input ->
  schedule_callback id now minted ctx input db = (Ok (c, true), db') ->
  exists r, r ∈ db' /\ cr_id r = id /\ cb_scheduled_for (cr_callback r) < 0 /\
    forall later, 0 <= later < 2 ^ 63 -> due later r = true.
Proof.
  intros Hnow Hafter. unfold schedule_callback. destruct (schedule_request now minted ctx input) as [q|e] eqn:Hq; [|done].
  assert (Hsf : as_i64 (sr_scheduled_for q) < 0).
  { unfold schedule_request in Hq. cbn zeta in Hq.
    destruct (normalize_optional_text _ _) as [dk|]; [|done]. destruct (sc_task_id ctx); [|done]. simpl in Hq.
    destruct (match default Detached _ with Detached => _ | _ => _ end) as [sc|]; [|done]. simpl in Hq.
    destruct (normalize_source_key _); [|done]. simpl in Hq. injection Hq as <-. unfold as_i64, u64_max. simpl.
    destruct (Z.ltb_spec (Z.min 18446744073709551615 (now + in_after_ms input)) (2 ^ 63)); lia. }
  destruct (store_schedule_callback id q db) as [res d] eqn:Hst. intros H. injection H as -> ->.
  assert (Hdb : db' = upsert_callback_row (request_callback id q) CbPending None None None db).
  { unfold store_schedule_callback in Hst. destruct (sr_dedupe_key q); [|congruence].
    destruct (find_pending_callback_by_dedupe _ _ _); congruence. }
  exists (mkCbRow (with_times as_i64 (request_callback id q)) CbPending None None None). split_and!; [|done|done|].
  - rewrite Hdb. unfold upsert_callback_row. destruct (existsb _ db) eqn:Hex; [|apply elem_of_app; right; by left].
    apply existsb_exists in Hex as (r & Hr & He). apply list_elem_of_fmap. exists r. rewrite He.
    split; [done|by apply list_elem_of_In].
  - intros later Hl. unfold due. simpl. unfold as_i64 at 2. destruct (Z.ltb_spec later (2 ^ 63)); [|lia]. apply Z.leb_le. lia.
Qed.

(** ** A run: two callbacks, one cancelled, one published *)

Definition sample_request (dk : option string) : ScheduleCallbackRequest :=
  mkScheduleRequest "reports" dk JNull 10 5 (Some "c") (Some "t") (Some "c") (Some "t") (Some "agent") None.

Definition sample_outcome : EventDeliveryOutcome := mkDelivery 1 1 [] [].

Definition host_scheduled : cb_host :=
  mkCbHost (store_schedule_callback "b" (sample_request None) (store_schedule_callback "a" (sample_request (Some "k")) []).2).2
    None None CIdle [] [] ["a"; "b"].

Lemma host_scheduled_reachable : cb_reachable host_scheduled.
Proof.
  eapply rtc_l; [apply (cb_schedule cb_start "a" (sample_request (Some "k"))); apply not_elem_of_nil|].
  apply rtc_once. match goal with |- cb_step ?h _ => refine (cb_schedule h "b" (sample_request None) _) end.
  simpl. by intros ?%list_elem_of_singleton.
Qed.

Definition sample_selector : CancelCallbackSelector := DedupeKey "reports" "k".

Definition host_cancelled : cb_host :=
  cb_set host_scheduled (store_cancel_callback sample_selector 7 (ch_db host_scheduled)).2 CIdle.

(** From there a poll at time 20 claims and publishes the other callback, and the
    next poll records it as delivered. *)
Definition host_claimed_db : list cb_row := (callback_poll None 20 None (ch_db host_cancelled)).2.

Definition host_published : cb_host :=
  mkCbHost (mark_callbacks_delivered ["b"] 30 host_claimed_db) (Some ["b"]) (Some ["b"]) (CReconciled true)
    [("b", sample_outcome)] ["b"] ["a"; "b"].

Lemma host_published_steps : rtc cb_step host_cancelled host_published.
Proof.
  eapply rtc_l; [by apply (cb_reconcile _ 20)|]. eapply rtc_l; [by eapply (cb_list _ _ None 20)|].
  eapply rtc_l; [eapply (cb_claim _ _ _ 20); [reflexivity|vm_compute; reflexivity]|].
  eapply rtc_l; [eapply (cb_publish _ _ _ _ _ _ _ sample_outcome); vm_compute; reflexivity|].
  eapply rtc_l; [eapply cb_advance; vm_compute; reflexivity|].
  eapply rtc_l; [by apply cb_save|]. apply rtc_once.
  match goal with |- cb_step ?h _ => pose proof (cb_reconcile h 30 eq_refl) as Hs end.
  vm_compute in Hs |- *. exact Hs.
Qed.

Lemma callbacks_safe_witness :
  cb_reachable host_published /\ (cr_id <$> ch_db host_published) = ["a"; "b"] /\
  (cr_status <$> ch_db host_published) = [CbCancelled; CbDelivered] /\ NoDup (cr_id <$> ch_db host_published).
Proof.
  assert (Hr : cb_reachable host_published).
  { unfold cb_reachable. transitivity host_scheduled; [apply host_scheduled_reachable|]. eapply rtc_l; [apply (cb_cancel _ sample_selector 7)|].
    exact host_published_steps. }
  split; [exact Hr|]. split; [vm_compute; reflexivity|]. split; [vm_compute; reflexivity|].
  apply (callbacks_safe _ Hr).
Defined.

Lemma cancel_is_final_witness :
  ~ ("a" ∈ ch_emissions host_published) /\ forall o, ~ (("a", o) ∈ ch_log host_published).
Proof.
  apply (cancel_is_final host_scheduled sample_selector 7
           (parse_callback_row (mkCbRow (request_callback "a" (sample_request (Some "k"))) CbPending None None None))).
  - apply host_scheduled_reachable.
  - vm_compute. reflexivity.
  - exact host_published_steps.
Defined.

Definition sample_ctx : ToolSessionContext := mkSessionCtx "c" (Some "t") "agent".

Lemma huge_delay_fires_now_witness :
  exists r, r ∈ (schedule_callback "a" 1000 ("c2", "t2") sample_ctx (mkScheduleInput (2 ^ 63) "reports" JNull None None) []).2 /\
    cr_id r = "a" /\ cb_scheduled_for (cr_callback r) < 0 /\ forall later, 0 <= later < 2 ^ 63 -> due later r = true.
Proof.
  eapply (huge_delay_fires_now "a" 1000 ("c2", "t2") sample_ctx (mkScheduleInput (2 ^ 63) "reports" JNull None None) []).
  - lia.
  - vm_compute. discriminate.
  - vm_compute. reflexivity.
Defined.
