(* ===== verification/EffectBus.v ===== *)
(** * The effect bus: in-flight effects and what waits on them

    [baml-rt-core/src/bus.rs] (effect events, start tokens and the per-context
    in-flight counters of [BusWithEffects]) and the consumer of the counters,
    [EffectGatedTimeoutPolicy] of [baml-rt-quickjs/src/quickjs_bridge/eval.rs].
    A state keeps the counters and the start tokens alive in the program; a
    step is one [emit] with the answers of the envelope subscribers, or the
    drop of a token; the commands the request router announces itself
    ([request_router.rs]) are accounted like tokens.  The fan-out to effect subscribers, whose results are
    only logged, is not modelled. *)

From stdpp Require Import base list strings gmap relations.
From Stdlib Require Import ZArith Lia.
From S2P Require Import Prelude RustStr Json Ids.

Open Scope Z_scope.

(** ** Events *)

Inductive EffectKind := Tool | Llm | A2a.
Inductive A2aLivenessRole := Command | Effect.

Inductive ToolNameResolution :=
| FromManifest (s : string)
| FromPayload (s : string)
| NotApplicable.

Record ToolEffectMetadata := mkToolMeta {
  tm_tool_name : string;
  tm_function_name : option string;
  tm_args : json;
  tm_metadata : json;
  tm_delegation_target : option string;
  tm_backend : option string;
  tm_digest : option string
}.

Record LlmEffectMetadata := mkLlmMeta {
  lm_client : string;
  lm_model : string;
  lm_function_name : string;
  lm_prompt : json;
  lm_metadata : json;
  lm_tool_name : ToolNameResolution
}.

Record A2aEffectMetadata := mkA2aMeta {
  am_agent_id : AgentId;
  am_method : string;
  am_request_id : option string;
  am_role : A2aLivenessRole;
  am_metadata : json
}.

(** [EffectEvent]; of the events that move no counter only the context is
    kept. *)
Inductive EffectEvent :=
| ToolStarted (c : ContextId) (m : ToolEffectMetadata)
| ToolCompleted (c : ContextId) (m : ToolEffectMetadata)
| LlmStarted (c : ContextId) (m : LlmEffectMetadata)
| LlmCompleted (c : ContextId) (m : LlmEffectMetadata) (result_payload : option json)
| A2aStarted (c : ContextId) (m : A2aEffectMetadata)
| A2aCompleted (c : ContextId) (m : A2aEffectMetadata)
| IntentResolved (c : ContextId)
| PlanGenerated (c : ContextId)
| PlanStepStatusChanged (c : ContextId)
| ToolStreamChunk (c : ContextId)
| ToolSessionStep (c : ContextId)
| ContextHistorySettled (c : ContextId).

Definition event_context (e : EffectEvent) : ContextId :=
  match e with
  | ToolStarted c _ | ToolCompleted c _ | ToolStreamChunk c | ToolSessionStep c
  | LlmStarted c _ | LlmCompleted c _ _ | A2aStarted c _ | A2aCompleted c _
  | ContextHistorySettled c | IntentResolved c | PlanGenerated c | PlanStepStatusChanged c => c
  end.

Definition event_kind (e : EffectEvent) : EffectKind :=
  match e with
  | ToolStarted _ _ | ToolCompleted _ _ | ToolStreamChunk _ | ToolSessionStep _ => Tool
  | LlmStarted _ _ | LlmCompleted _ _ _ => Llm
  | A2aStarted _ _ | A2aCompleted _ _ | ContextHistorySettled _ | IntentResolved _
  | PlanGenerated _ | PlanStepStatusChanged _ => A2a
  end.

(** ** Counters *)

Record InFlightCounts := mkCounts { n_tool : Z; n_llm : Z; n_a2a : Z; n_a2a_command : Z }.

Definition no_counts : InFlightCounts := mkCounts 0 0 0 0.

Definition counts_any (c : InFlightCounts) : bool :=
  (0 <? n_tool c) || (0 <? n_llm c) || (0 <? n_a2a c) || (0 <? n_a2a_command c).

Definition has_progress_effects (c : InFlightCounts) : bool :=
  (0 <? n_tool c) || (0 <? n_llm c) || (0 <? n_a2a c).

Definition inc (n : Z) : Z := sat_add u32_max n 1.
Definition dec1 (n : Z) : Z := sat_sub n 1.

(** The [match event] of [process_effect_inner]. *)
Definition count_event (e : EffectEvent) (c : InFlightCounts) : InFlightCounts :=
  match e with
  | ToolStarted _ _ => mkCounts (inc (n_tool c)) (n_llm c) (n_a2a c) (n_a2a_command c)
  | LlmStarted _ _ => mkCounts (n_tool c) (inc (n_llm c)) (n_a2a c) (n_a2a_command c)
  | A2aStarted _ m =>
      match am_role m with
      | Command => mkCounts (n_tool c) (n_llm c) (n_a2a c) (inc (n_a2a_command c))
      | Effect => mkCounts (n_tool c) (n_llm c) (inc (n_a2a c)) (n_a2a_command c)
      end
  | ToolCompleted _ _ => mkCounts (dec1 (n_tool c)) (n_llm c) (n_a2a c) (n_a2a_command c)
  | LlmCompleted _ _ _ => mkCounts (n_tool c) (dec1 (n_llm c)) (n_a2a c) (n_a2a_command c)
  | A2aCompleted _ m =>
      match am_role m with
      | Command => mkCounts (n_tool c) (n_llm c) (n_a2a c) (dec1 (n_a2a_command c))
      | Effect => mkCounts (n_tool c) (n_llm c) (dec1 (n_a2a c)) (n_a2a_command c)
      end
  | IntentResolved _ | PlanGenerated _ | PlanStepStatusChanged _ | ToolStreamChunk _
  | ToolSessionStep _ | ContextHistorySettled _ => c
  end.

Abbreviation counters := (gmap ContextId InFlightCounts).

(** The section of [process_effect_inner] under the counter lock. *)
Definition process_counts (e : EffectEvent) (m : counters) : counters :=
  let entry := count_event e (default no_counts (m !! event_context e)) in
  if counts_any entry then <[event_context e := entry]> m else delete (event_context e) m.

Definition in_flight (m : counters) (c : ContextId) : InFlightCounts := default no_counts (m !! c).

(** [Bus::emit]: the first envelope subscriber that fails ends it. *)
Fixpoint bus_emit (answers : list bool) : bool :=
  match answers with
  | [] => true
  | a :: rest => if a then bus_emit rest else false
  end.

(** [EffectEmitter::emit] of [BusWithEffects]: the counters move first. *)
Definition effect_emit (answers : list bool) (e : EffectEvent) (m : counters) : bool * counters :=
  (bus_emit answers, process_counts e m).

(** ** Tokens *)

Inductive EffectStartMetadata :=
| MTool (m : ToolEffectMetadata)
| MLlm (m : LlmEffectMetadata)
| MA2a (m : A2aEffectMetadata).

Record token := mkToken { tok_context : ContextId; tok_meta : EffectStartMetadata }.

Definition started_event (t : token) : EffectEvent :=
  match tok_meta t with
  | MTool m => ToolStarted (tok_context t) m
  | MLlm m => LlmStarted (tok_context t) m
  | MA2a m => A2aStarted (tok_context t) m
  end.

(** [extract_tool_name]. *)
Definition extract_tool_name (payload : json) : option string :=
  obj ← as_object payload;
  match field "tool_name" obj ≫= as_str with
  | Some name => Some name
  | None =>
      match field "step" obj ≫= (fun s => jget "tool_name" s ≫= as_str) with
      | Some name => Some name
      | None => match obj with
                | [(_, inner)] => jget "tool_name" inner ≫= as_str
                | _ => None
                end
      end
  end.

(** The metadata an LLM completion carries. *)
Definition resolve_tool_name (m : LlmEffectMetadata) (payload : option json) : LlmEffectMetadata :=
  match lm_tool_name m, payload ≫= extract_tool_name with
  | NotApplicable, Some name =>
      mkLlmMeta (lm_client m) (lm_model m) (lm_function_name m) (lm_prompt m) (lm_metadata m) (FromPayload name)
  | _, _ => m
  end.

(** [EffectStartToken::complete]. *)
Definition completed_event (t : token) (payload : option json) : EffectEvent :=
  match tok_meta t with
  | MTool m => ToolCompleted (tok_context t) m
  | MLlm m => LlmCompleted (tok_context t) (resolve_tool_name m payload) payload
  | MA2a m => A2aCompleted (tok_context t) m
  end.

(** ** Steps *)

(** [open]: tokens callers still hold, and the commands the request router is
    serving, which it announces without a token; [lost]: those dropped without
    being completed; [started]: starts so far. *)
Record state := mkState { counts : counters; open : list token; lost : list token; started : Z }.

Definition init : state := mkState ∅ [] [] 0.

(** [start_tool], [start_llm], [start_a2a]: when the emission fails the token
    goes out of scope. *)
Definition start (answers : list bool) (t : token) (s : state) : state :=
  let '(sent, m) := effect_emit answers (started_event t) (counts s) in
  if sent then mkState m (open s ++ [t]) (lost s) (started s + 1)
  else mkState m (open s) (lost s ++ [t]) (started s + 1).

(** The request router brackets a chat command with raw [A2aStarted] and
    [A2aCompleted] events.  A failed emission is only logged: the command runs
    all the same and its end is announced. *)
Definition route_command (answers : list bool) (c : ContextId) (m : A2aEffectMetadata) (s : state) : state :=
  mkState (snd (effect_emit answers (A2aStarted c m) (counts s))) (open s ++ [mkToken c (MA2a m)]) (lost s) (started s + 1).

Definition complete (answers : list bool) (i : nat) (payload : option json) (s : state) : option state :=
  t ← open s !! i;
  Some (mkState (snd (effect_emit answers (completed_event t payload) (counts s)))
          (delete i (open s)) (lost s) (started s)).

(** [Drop for EffectStartToken] only logs. *)
Definition drop_token (i : nat) (s : state) : option state :=
  t ← open s !! i;
  Some (mkState (counts s) (delete i (open s)) (lost s ++ [t]) (started s)).

(** Events that are neither a start nor a completion. *)
Definition informational (e : EffectEvent) : bool :=
  match e with
  | ToolStarted _ _ | ToolCompleted _ _ | LlmStarted _ _ | LlmCompleted _ _ _
  | A2aStarted _ _ | A2aCompleted _ _ => false
  | _ => true
  end.

Inductive step : state -> state -> Prop :=
| step_start answers t s : step s (start answers t s)
| step_route answers c m s : am_role m = Command -> step s (route_command answers c m s)
| step_complete answers i payload s s' : complete answers i payload s = Some s' -> step s s'
| step_drop i s s' : drop_token i s = Some s' -> step s s'
| step_inform answers e s :
    informational e = true ->
    step s (mkState (snd (effect_emit answers e (counts s))) (open s) (lost s) (started s)).

(** ** The timeout policy ([eval.rs]) *)

Record EffectGatedTimeoutPolicy := mkPolicy {
  po_context : ContextId;
  po_idle_timeout_attempts : Z;
  po_max_attempts : Z
}.

Definition EffectGatedTimeoutPolicy_new (context_id : ContextId) (idle_timeout_ms max_attempts_ms : Z)
    : EffectGatedTimeoutPolicy :=
  mkPolicy context_id (wrap32 idle_timeout_ms) (wrap32 max_attempts_ms).

Definition timeout_attempts (p : EffectGatedTimeoutPolicy) (m : counters) : Z :=
  if has_progress_effects (in_flight m (po_context p)) then po_max_attempts p
  else po_idle_timeout_attempts p.

(** ** Counters and tokens *)

Open Scope list_scope.

(** The counter a token is accounted in. *)
Inductive slot := STool | SLlm | SA2a | SCommand.

#[global] Instance slot_eq_dec : EqDecision slot.
Proof. solve_decision. Defined.

Definition slot_of (t : token) : slot :=
  match tok_meta t with
  | MTool _ => STool
  | MLlm _ => SLlm
  | MA2a m => match am_role m with Command => SCommand | Effect => SA2a end
  end.

Definition get (sl : slot) (c : InFlightCounts) : Z :=
  match sl with STool => n_tool c | SLlm => n_llm c | SA2a => n_a2a c | SCommand => n_a2a_command c end.

Definition is_of (c : ContextId) (sl : slot) (t : token) : bool :=
  bool_decide (tok_context t = c) && bool_decide (slot_of t = sl).

Definition tally (c : ContextId) (sl : slot) (ts : list token) : Z :=
  Z.of_nat (length (List.filter (is_of c sl) ts)).

Lemma tally_app c sl ts us : tally c sl (ts ++ us) = tally c sl ts + tally c sl us.
Proof. unfold tally. rewrite List.filter_app, length_app. lia. Qed.

Lemma tally_cons c sl t ts : tally c sl (t :: ts) = (if is_of c sl t then 1 else 0) + tally c sl ts.
Proof. unfold tally. simpl. destruct (is_of c sl t); simpl; lia. Qed.

Lemma tally_nil c sl : tally c sl [] = 0.
Proof. done. Qed.

Lemma tally_nonneg c sl ts : 0 <= tally c sl ts.
Proof. unfold tally. lia. Qed.

Lemma tally_le_length c sl ts : tally c sl ts <= Z.of_nat (length ts).
Proof. induction ts as [|t ts IH]; [done|]. rewrite tally_cons. simpl. destruct (is_of c sl t); lia. Qed.

Lemma tally_delete c sl ts (i : nat) t :
  ts !! i = Some t -> tally c sl ts = (if is_of c sl t then 1 else 0) + tally c sl (delete i ts).
Proof.
  intros Hi. rewrite <-(take_drop_middle ts i t Hi) at 1. rewrite delete_take_drop, !tally_app, tally_cons. lia.
Qed.

Lemma tally_pos c sl ts t : t ∈ ts -> is_of c sl t = true -> 0 < tally c sl ts.
Proof.
  intros [i Hi]%list_elem_of_lookup Ht. rewrite (tally_delete c sl ts i t Hi), Ht.
  pose proof (tally_nonneg c sl (delete i ts)). lia.
Qed.

Lemma get_started t sl c :
  get sl (count_event (started_event t) c) = if bool_decide (slot_of t = sl) then inc (get sl c) else get sl c.
Proof.
  destruct t as [x [m|m|m]]; unfold slot_of, started_event; simpl; [| |destruct (am_role m)];
    destruct sl; reflexivity.
Qed.

Lemma get_completed t payload sl c :
  get sl (count_event (completed_event t payload) c)
  = if bool_decide (slot_of t = sl) then dec1 (get sl c) else get sl c.
Proof.
  destruct t as [x [m|m|m]]; unfold slot_of, completed_event; simpl; [| |destruct (am_role m)];
    destruct sl; reflexivity.
Qed.

Lemma count_informational e c : informational e = true -> count_event e c = c.
Proof. by destruct e. Qed.

Lemma started_context t : event_context (started_event t) = tok_context t.
Proof. by destruct t as [x [m|m|m]]. Qed.

Lemma completed_context t payload : event_context (completed_event t payload) = tok_context t.
Proof. by destruct t as [x [m|m|m]]. Qed.

Lemma counts_any_false c : counts_any c = false -> (forall sl, 0 <= get sl c) -> c = no_counts.
Proof.
  unfold counts_any. rewrite !orb_false_iff, !Z.ltb_ge. intros [[[H1 H2] H3] H4] Hn.
  pose proof (Hn STool). pose proof (Hn SLlm). pose proof (Hn SA2a). pose proof (Hn SCommand).
  destruct c. unfold no_counts. simpl in *. f_equal; lia.
Qed.

Lemma count_event_nonneg e c sl : (forall sl, 0 <= get sl c) -> 0 <= get sl (count_event e c).
Proof.
  intros H. pose proof (H STool). pose proof (H SLlm). pose proof (H SA2a). pose proof (H SCommand).
  unfold count_event, inc, dec1, sat_add, sat_sub, u32_max.
  destruct e; try destruct (am_role m); destruct sl; simpl in *; lia.
Qed.

Lemma in_flight_process e m c :
  (forall sl, 0 <= get sl (in_flight m (event_context e))) ->
  in_flight (process_counts e m) c
  = if decide (event_context e = c) then count_event e (in_flight m c) else in_flight m c.
Proof.
  intros Hn. unfold process_counts. fold (in_flight m (event_context e)).
  destruct (counts_any _) eqn:Hany; destruct (decide _) as [<-|Hne]; unfold in_flight at 1.
  - by rewrite lookup_insert_eq.
  - by rewrite lookup_insert_ne by done.
  - rewrite lookup_delete_eq. symmetry. apply counts_any_false; [done|].
    intros sl. by apply count_event_nonneg.
  - by rewrite lookup_delete_ne by done.
Qed.

Record bus_inv (s : state) : Prop := {
  b_counts : forall c sl, get sl (in_flight (counts s) c) = tally c sl (open s ++ lost s);
  b_started : Z.of_nat (length (open s ++ lost s)) <= started s;
  b_entries : map_Forall (fun _ e => counts_any e = true) (counts s)
}.

Lemma process_entries e m :
  map_Forall (fun _ e => counts_any e = true) m ->
  map_Forall (fun _ e => counts_any e = true) (process_counts e m).
Proof.
  intros H. unfold process_counts. destruct (counts_any _) eqn:E.
  - by apply map_Forall_insert_2.
  - by apply map_Forall_delete.
Qed.

Lemma is_of_split c sl t : is_of c sl t = bool_decide (tok_context t = c) && bool_decide (slot_of t = sl).
Proof. done. Qed.

(** A start adds its token to the tally, wherever the token ends up. *)
Lemma start_counts t s c sl :
  bus_inv s -> started s + 1 <= u32_max ->
  get sl (in_flight (process_counts (started_event t) (counts s)) c)
  = (if is_of c sl t then 1 else 0) + tally c sl (open s ++ lost s).
Proof.
  intros Hinv Hmax. rewrite in_flight_process, started_context.
  2: { intros. rewrite (b_counts _ Hinv). apply tally_nonneg. }
  pose proof (tally_le_length c sl (open s ++ lost s)). pose proof (b_started _ Hinv).
  pose proof (tally_nonneg c sl (open s ++ lost s)).
  rewrite is_of_split. destruct (decide (tok_context t = c)) as [Hc|Hc].
  - rewrite get_started, (b_counts _ Hinv), (bool_decide_eq_true_2 _ Hc). simpl.
    unfold inc, sat_add. case_bool_decide; lia.
  - rewrite (b_counts _ Hinv), (bool_decide_eq_false_2 _ Hc). done.
Qed.

Lemma complete_counts answers i payload s s' :
  bus_inv s -> complete answers i payload s = Some s' -> bus_inv s'.
Proof.
  intros Hinv [t [Ht [= <-]]]%bind_Some. constructor; simpl.
  - intros c sl. rewrite in_flight_process, completed_context.
    2: { intros. rewrite (b_counts _ Hinv). apply tally_nonneg. }
    pose proof (tally_delete c sl _ _ _ Ht) as Hd.
    pose proof (tally_nonneg c sl (delete i (open s))). pose proof (tally_nonneg c sl (lost s)).
    rewrite tally_app. rewrite is_of_split in Hd. destruct (decide (tok_context t = c)) as [Hc|Hc].
    + rewrite get_completed, (b_counts _ Hinv), tally_app. rewrite (bool_decide_eq_true_2 _ Hc) in Hd.
      simpl in Hd. unfold dec1, sat_sub. case_bool_decide; lia.
    + rewrite (b_counts _ Hinv), tally_app. rewrite (bool_decide_eq_false_2 _ Hc) in Hd. simpl in Hd. lia.
  - pose proof (b_started _ Hinv) as Hs. rewrite length_app in *. rewrite length_delete by by eexists.
    apply lookup_lt_Some in Ht. lia.
  - apply process_entries, Hinv.
Qed.

Lemma drop_counts i s s' : bus_inv s -> drop_token i s = Some s' -> bus_inv s'.
Proof.
  intros Hinv [t [Ht [= <-]]]%bind_Some. constructor; simpl.
  - intros c sl. rewrite (b_counts _ Hinv), !tally_app, tally_cons, tally_nil, (tally_delete c sl _ _ _ Ht). lia.
  - pose proof (b_started _ Hinv) as Hs. rewrite !length_app in *. rewrite length_delete by by eexists.
    apply lookup_lt_Some in Ht. simpl. lia.
  - apply Hinv.
Qed.

Lemma start_inv answers t s : bus_inv s -> started s + 1 <= u32_max -> bus_inv (start answers t s).
Proof.
  intros Hinv Hmax. unfold start, effect_emit. destruct (bus_emit answers); constructor; simpl;
    try apply process_entries, Hinv;
    try (pose proof (b_started _ Hinv) as Hs; rewrite !length_app in *; simpl; lia);
    intros c sl; rewrite start_counts by done; rewrite !tally_app, tally_cons, tally_nil; lia.
Qed.

Lemma route_inv answers c m s : bus_inv s -> started s + 1 <= u32_max -> bus_inv (route_command answers c m s).
Proof.
  intros Hinv Hmax. constructor; simpl.
  - intros c' sl. rewrite (start_counts (mkToken c (MA2a m))), !tally_app, tally_cons, tally_nil by done. lia.
  - pose proof (b_started _ Hinv) as Hs. rewrite !length_app in *. simpl. lia.
  - apply process_entries, Hinv.
Qed.

Lemma step_started s s' : step s s' -> started s <= started s'.
Proof.
  intros [answers t s0|answers c m s0 Hm|answers i payload s0 s1 Hc|i s0 s1 Hc|answers e s0 He].
  - unfold start, effect_emit. destruct (bus_emit answers); simpl; lia.
  - simpl. lia.
  - apply bind_Some in Hc as (t & _ & [= <-]). done.
  - apply bind_Some in Hc as (t & _ & [= <-]). done.
  - done.
Qed.

Lemma bus_step_inv s s' : step s s' -> started s' <= u32_max -> bus_inv s -> bus_inv s'.
Proof.
  intros Hst. destruct Hst as [answers t s|answers c m s Hm|answers i payload s s' Hc|i s s' Hc|answers e s He]; intros Hmax Hinv.
  - apply start_inv; [done|]. unfold start, effect_emit in Hmax. destruct (bus_emit answers); done.
  - by apply route_inv.
  - by eapply complete_counts.
  - by eapply drop_counts.
  - constructor; simpl; [|apply Hinv|apply process_entries, Hinv].
    intros c sl. rewrite in_flight_process, count_informational by (try done; intros; rewrite (b_counts _ Hinv); apply tally_nonneg).
    destruct (decide _); apply (b_counts _ Hinv).
Qed.

Lemma bus_reachable_inv s : rtc step init s -> started s <= u32_max -> bus_inv s.
Proof.
  refine (rtc_ind_r (fun s => started s <= u32_max -> bus_inv s) init _ _ s).
  - intros _. constructor; simpl; [by intros c []|done|apply map_Forall_empty].
  - intros s1 s2 _ Hst IH Hmax. pose proof (step_started _ _ Hst). eapply bus_step_inv; [done..|]. apply IH. lia.
Qed.

Lemma lost_mono s s' t : rtc step s s' -> t ∈ lost s -> t ∈ lost s'.
Proof.
  induction 1 as [|s1 s2 s3 Hst _ IH]; [done|]. intros Hl. apply IH. clear IH.
  destruct Hst as [answers u s|answers c m s Hm|answers i payload s s' Hc|i s s' Hc|answers e s He].
  - unfold start, effect_emit. destruct (bus_emit answers); simpl; [done|]. apply elem_of_app. by left.
  - done.
  - by apply bind_Some in Hc as (u & _ & [= <-]).
  - apply bind_Some in Hc as (u & _ & [= <-]). simpl. apply elem_of_app. by left.
  - done.
Qed.

Lemma progress_spec c m :
  has_progress_effects (in_flight m c) = true <->
  exists sl, sl <> SCommand /\ 0 < get sl (in_flight m c).
Proof.
  unfold has_progress_effects. rewrite !orb_true_iff, !Z.ltb_lt. split.
  - intros [[H|H]|H]; [exists STool|exists SLlm|exists SA2a]; done.
  - intros (sl & Hsl & H). destruct sl; simpl in H; tauto.
Qed.

Lemma tally_pos_inv c sl ts : 0 < tally c sl ts -> exists t, t ∈ ts /\ is_of c sl t = true.
Proof.
  unfold tally. destruct (List.filter (is_of c sl) ts) as [|t r] eqn:E; [done|]. intros _.
  exists t. rewrite list_elem_of_In, <-List.filter_In, E. by left.
Qed.

Lemma progress_tokens s c :
  bus_inv s ->
  has_progress_effects (in_flight (counts s) c) = true <->
  exists t, t ∈ open s ++ lost s /\ tok_context t = c /\ slot_of t <> SCommand.
Proof.
  intros Hinv. rewrite progress_spec. split.
  - intros (sl & Hsl & H). rewrite (b_counts _ Hinv) in H. apply tally_pos_inv in H as (t & Ht & Hof).
    apply andb_true_iff in Hof as [Hc%bool_decide_eq_true Hs%bool_decide_eq_true]. subst. by exists t.
  - intros (t & Ht & Hc & Hsl). exists (slot_of t). split; [done|]. rewrite (b_counts _ Hinv).
    apply (tally_pos _ _ _ t); [done|]. unfold is_of. by rewrite !bool_decide_eq_true_2.
Qed.

(** C8: The in-flight counters are exact.  However starts, the router's
    commands, completions, drops and other events of any number of contexts
    interleave, each counter of a context equals the number of its tokens and
    commands that were started and not completed (saturation apart: fewer than 2^32 starts); a context without
    such tokens has no entry; and the promise poller of a context uses its
    long limit exactly when a tool, model or progress-capable A2A effect of
    that context is outstanding, so it never times out as idle while such an
    effect runs. *)
Theorem in_flight_counts_exact s :
  rtc step init s -> started s <= u32_max ->
  (forall c sl, get sl (in_flight (counts s) c) = tally c sl (open s) + tally c sl (lost s)) /\
  (forall c, is_some (counts s !! c) = true <-> exists t, t ∈ open s ++ lost s /\ tok_context t = c) /\
  (forall p, po_idle_timeout_attempts p <> po_max_attempts p ->
     timeout_attempts p (counts s) = po_max_attempts p <->
     exists t, t ∈ open s ++ lost s /\ tok_context t = po_context p /\ slot_of t <> SCommand).
Proof.
  intros Hr Hmax. pose proof (bus_reachable_inv s Hr Hmax) as Hinv. split_and!.
  - intros c sl. by rewrite (b_counts _ Hinv), tally_app.
  - intros c. split.
    + intros [e He]%is_some_spec. pose proof (b_entries _ Hinv c e He) as Hany.
      assert (exists sl, 0 < get sl (in_flight (counts s) c)) as [sl Hsl].
      { unfold in_flight. rewrite He. simpl. unfold counts_any in Hany.
        rewrite !orb_true_iff, !Z.ltb_lt in Hany.
        destruct Hany as [[[H|H]|H]|H]; [exists STool|exists SLlm|exists SA2a|exists SCommand]; done. }
      rewrite (b_counts _ Hinv) in Hsl. apply tally_pos_inv in Hsl as (t & Ht & Hof).
      apply andb_true_iff in Hof as [Hc%bool_decide_eq_true _]. by exists t.
    + intros (t & Ht & <-). destruct (counts s !! tok_context t) eqn:He; [done|]. exfalso.
      assert (Hpos : 0 < get (slot_of t) (in_flight (counts s) (tok_context t))).
      { rewrite (b_counts _ Hinv). apply (tally_pos _ _ _ t); [done|]. unfold is_of. by rewrite !bool_decide_eq_true_2. }
      unfold in_flight in Hpos. rewrite He in Hpos. by destruct (slot_of t).
  - intros p Hne. rewrite <-progress_tokens by done. unfold timeout_attempts.
    destruct (has_progress_effects _); done.
Qed.

Definition demo_tool (c : ContextId) : token :=
  mkToken c (MTool (mkToolMeta "calc" None JNull JNull None None None)).

(** Two contexts, one effect each; the first completes. *)
Lemma in_flight_counts_witness :
  exists s, rtc step init s /\ n_tool (in_flight (counts s) "b") = 1 /\ counts s !! "a" = None /\
    get STool (in_flight (counts s) "b") = tally "b" STool (open s) + tally "b" STool (lost s).
Proof.
  set (s2 := start [] (demo_tool "b") (start [true] (demo_tool "a") init)).
  destruct (complete [false] 0 None s2) as [s|] eqn:E; [|by vm_compute in E].
  assert (Hr : rtc step init s).
  { eapply rtc_l; [apply (step_start [true] (demo_tool "a"))|].
    eapply rtc_l; [apply (step_start [] (demo_tool "b"))|].
    eapply rtc_l; [by eapply step_complete|apply rtc_refl]. }
  exists s. pose proof E as E'. vm_compute in E'. injection E' as E'.
  split_and!; [done|by rewrite <-E'|by rewrite <-E'|].
  apply (in_flight_counts_exact s Hr). rewrite <-E'. done.
Defined.

(** A lost effect is never given back.  A token that is dropped without
    being completed, or whose start emission failed after the counters moved,
    keeps its context's counter up for good: in every later state the context
    reports progress and its promise poller uses the long limit, so idle
    contexts are no longer detected there. *)
Theorem lost_effect_never_idle s s' t p :
  rtc step init s -> rtc step s s' -> started s' <= u32_max ->
  t ∈ lost s -> slot_of t <> SCommand -> po_context p = tok_context t ->
  has_progress_effects (in_flight (counts s') (tok_context t)) = true /\
  timeout_attempts p (counts s') = po_max_attempts p.
Proof.
  intros Hr Hr' Hmax Ht Hsl Hp.
  assert (Hinv : bus_inv s') by (apply bus_reachable_inv; [by etrans|done]).
  assert (Hprog : has_progress_effects (in_flight (counts s') (tok_context t)) = true).
  { apply progress_tokens; [done|]. exists t. split; [|done]. apply elem_of_app. right. by eapply lost_mono. }
  split; [done|]. unfold timeout_attempts. by rewrite Hp, Hprog.
Qed.

(** One envelope subscriber refuses the start of a tool effect. *)
Lemma lost_effect_witness :
  timeout_attempts (EffectGatedTimeoutPolicy_new "a" 5000 1800000)
    (counts (start [true; false] (demo_tool "a") init)) = 1800000 /\
  open (start [true; false] (demo_tool "a") init) = [].
Proof.
  split; [|done].
  apply (lost_effect_never_idle (start [true; false] (demo_tool "a") init)
    (start [true; false] (demo_tool "a") init) (demo_tool "a") (EffectGatedTimeoutPolicy_new "a" 5000 1800000)).
  - apply rtc_once, step_start.
  - apply rtc_refl.
  - by vm_compute.
  - simpl. constructor.
  - done.
  - done.
Defined.
