(* ===== verification/Router.v ===== *)
(** * Cluster router: endpoint validation, forwarding targets, control auth

    [baml-rt-router/src/ssrf.rs] (which endpoints a runner may call),
    [forward.rs] (the URL and the pinned addresses of a forwarded request, the
    capped body reads) and [auth.rs] (the token check of the control
    endpoints).  The [url] crate is the interface [UrlApi] with its laws
    [UrlLaws] and a record instance, the resolver and SHA-256 are parameters;
    addresses are 32- and 128-bit integers, their octets and segments taken
    out by shifts and masks. *)

From stdpp Require Import base list strings option.
From Stdlib Require Import ZArith Lia Ascii.
From S2P Require Import Prelude RustStr A2aTypes.

Open Scope Z_scope.

(** ** Addresses ([std::net]) *)

Inductive IpAddr := V4 (a : Z) | V6 (a : Z).

#[global] Instance IpAddr_eq_dec : EqDecision IpAddr.
Proof. solve_decision. Defined.

Definition wf_ip (ip : IpAddr) : Prop :=
  match ip with V4 a => 0 <= a < 2 ^ 32 | V6 a => 0 <= a < 2 ^ 128 end.

Record SocketAddr := mkSocketAddr { sa_ip : IpAddr; sa_port : Z }.

Inductive Host := Domain (d : string) | HostV4 (a : Z) | HostV6 (a : Z).

(** [Ipv4Addr::octets], [Ipv6Addr::segments]. *)
Definition octet (i : Z) (a : Z) : Z := Z.land (Z.shiftr a (24 - 8 * i)) 255.
Definition segment (i : Z) (a : Z) : Z := Z.land (Z.shiftr a (112 - 16 * i)) 65535.

Definition is_loopback (ip : IpAddr) : bool :=
  match ip with V4 a => octet 0 a =? 127 | V6 a => a =? 1 end.

Definition is_unspecified (ip : IpAddr) : bool :=
  match ip with V4 a => a =? 0 | V6 a => a =? 0 end.

(** [Display] of addresses. *)
Definition v4_to_string (a : Z) : string :=
  join "." (map (fun i => show_Z (octet i a)) [0; 1; 2; 3]).

Definition hex_digit (d : Z) : ascii :=
  ascii_of_N (Z.to_N (if d <? 10 then 48 + d else 87 + d)).

Fixpoint hex_go (fuel : nat) (n : Z) (acc : string) : string :=
  match fuel with
  | O => acc
  | S fuel => let acc := String (hex_digit (n mod 16)) acc in if n / 16 =? 0 then acc else hex_go fuel (n / 16) acc
  end.

Definition hex16 (n : Z) : string := hex_go 4 n EmptyString.

(** The scan for the longest run of zero segments: index, current run (start,
    length), longest run so far. *)
Fixpoint longest_zeroes (i : nat) (cur best : nat * nat) (l : list Z) : nat * nat :=
  match l with
  | [] => best
  | s :: r =>
      if s =? 0 then
        let cur := ((if (snd cur =? 0)%nat then i else fst cur), S (snd cur)) in
        longest_zeroes (S i) cur (if (snd best <? snd cur)%nat then cur else best) r
      else longest_zeroes (S i) (O, O) best r
  end.

Definition v6_to_string (a : Z) : string :=
  let segs := map (fun i => segment i a) [0; 1; 2; 3; 4; 5; 6; 7] in
  if Z.shiftr a 32 =? 65535 then "::ffff:" +:+ v4_to_string (Z.land a (2 ^ 32 - 1))
  else
    let '(start, len) := longest_zeroes 0 (O, O) (O, O) segs in
    if (1 <? len)%nat
    then join ":" (hex16 <$> take start segs) +:+ "::" +:+ join ":" (hex16 <$> drop (start + len) segs)
    else join ":" (hex16 <$> segs).

(** ** The [url] crate *)

(** What a URL shows of itself. *)
Record UrlView := mkUrlView {
  v_scheme : string;
  v_host : option Host;
  v_host_str : option string;
  v_port : option Z;               (** [port_or_known_default] *)
  v_username : string;
  v_password : option string;
  v_path : option (list string);   (** [None]: cannot be a base *)
  v_query : option string;
  v_fragment : option string
}.

Definition with_credentials (name : string) (password : option string) (v : UrlView) : UrlView :=
  mkUrlView (v_scheme v) (v_host v) (v_host_str v) (v_port v) name password (v_path v) (v_query v) (v_fragment v).
Definition with_query (q : option string) (v : UrlView) : UrlView :=
  mkUrlView (v_scheme v) (v_host v) (v_host_str v) (v_port v) (v_username v) (v_password v) (v_path v) q (v_fragment v).
Definition with_fragment (f : option string) (v : UrlView) : UrlView :=
  mkUrlView (v_scheme v) (v_host v) (v_host_str v) (v_port v) (v_username v) (v_password v) (v_path v) (v_query v) f.
Definition with_path (p : list string) (v : UrlView) : UrlView :=
  mkUrlView (v_scheme v) (v_host v) (v_host_str v) (v_port v) (v_username v) (v_password v) (Some p) (v_query v) (v_fragment v).

Class UrlApi (Url : Type) := {
  url_parse : string -> option Url;
  view : Url -> UrlView;
  set_username : string -> Url -> option Url;
  set_password : option string -> Url -> option Url;
  set_query : option string -> Url -> Url;
  set_fragment : option string -> Url -> Url;
  (** [path_segments_mut()?.clear()] and the pushes that follow. *)
  replace_path : list string -> Url -> option Url
}.

Definition web_scheme (s : string) : bool := bool_decide (s = "http") || bool_decide (s = "https").

(** [PathSegmentsMut] leaves the segments "." and ".." out. *)
Definition pushed (p : list string) : list string :=
  List.filter (fun seg => negb (bool_decide (seg = ".") || bool_decide (seg = ".."))) p.

(** The documented behaviour of the accessors and mutators that the router
    relies on. *)
Class UrlLaws (Url : Type) `{UrlApi Url} := {
  parse_host_wf raw u : url_parse raw = Some u ->
    match v_host (view u) with
    | Some (HostV4 a) => wf_ip (V4 a) | Some (HostV6 a) => wf_ip (V6 a) | _ => True
    end;
  host_str_host u : v_host_str (view u) = None <-> v_host (view u) = None;
  set_username_ok n u : web_scheme (v_scheme (view u)) = true -> is_Some (v_host (view u)) ->
    exists u', set_username n u = Some u' /\ view u' = with_credentials n (v_password (view u)) (view u);
  set_password_ok p u : web_scheme (v_scheme (view u)) = true -> is_Some (v_host (view u)) ->
    exists u', set_password p u = Some u' /\ view u' = with_credentials (v_username (view u)) p (view u);
  view_set_query q u : view (set_query q u) = with_query q (view u);
  view_set_fragment f u : view (set_fragment f u) = with_fragment f (view u);
  replace_path_ok p u : web_scheme (v_scheme (view u)) = true ->
    exists u', replace_path p u = Some u' /\ view u' = with_path (pushed p) (view u)
}.

(** ** Address filter *)

Inductive EndpointError :=
| NonAscii | InvalidUrl | BadScheme | NoHost | BlockedHost
| LoopbackAddress | UnspecifiedAddress | LinkLocalOrMetadata | CloudMetadata
| DnsFailed | NoAddresses.

Definition is_link_local_or_metadata (ip : IpAddr) : bool :=
  match ip with
  | V4 a => (octet 0 a =? 169) && (octet 1 a =? 254)
  | V6 a => Z.land (segment 0 a) 65472 =? 65152
  end.

Definition is_cloud_metadata_ip (ip : IpAddr) : bool :=
  match ip with
  | V4 a => (octet 0 a =? 100) && (octet 1 a =? 100) && (octet 2 a =? 100) && (octet 3 a =? 200)
  | V6 a => (segment 0 a =? 64768) && (segment 1 a =? 3778)
  end.

Definition reject_dangerous_ip (ip : IpAddr) : result unit EndpointError :=
  if is_loopback ip then Err LoopbackAddress
  else if is_unspecified ip then Err UnspecifiedAddress
  else if is_link_local_or_metadata ip then Err LinkLocalOrMetadata
  else if is_cloud_metadata_ip ip then Err CloudMetadata
  else Ok tt.


Definition blocked_hostnames : list string :=
  ["localhost"; "metadata.google.internal"; "metadata.aws.internal"; "metadata.azure.internal"].

Definition host_blocked (host : string) : bool :=
  existsb (fun blocked => bool_decide (to_lowercase host = blocked) || ends_with ("." +:+ blocked) (to_lowercase host))
    blocked_hostnames.

(** ** Validation and forwarding *)

Record ForwardTarget (Url : Type) := mkForwardTarget { ft_url : Url; ft_host : string; ft_addrs : list SocketAddr }.
Arguments mkForwardTarget {Url}. Arguments ft_url {Url}. Arguments ft_host {Url}. Arguments ft_addrs {Url}.

Inductive ForwardError := EndpointRejected (e : EndpointError) | UsernameStuck | PasswordStuck | NoPathSegments.

(** What [reqwest::Client::builder()] is told. *)
Record Client := mkClient { cl_timeout : Z; cl_redirects : bool; cl_host : string; cl_addrs : list SocketAddr }.

Inductive PeerError := PeerRejected (e : EndpointError) | PeerNoHost | PeerNotBase | PeerClientBuild.

Definition bare_host (h : Host) : string :=
  match h with Domain d => d | HostV4 a => v4_to_string a | HostV6 a => v6_to_string a end.

Section Endpoints.
Context {Url : Type} `{UrlApi Url}.
(** [tokio::net::lookup_host]: the addresses or a resolver error. *)
Context (lookup_host : string -> option (list SocketAddr)).

Definition validate_cluster_endpoint (raw : string) : result Url EndpointError :=
  if negb (ascii_only raw) then Err NonAscii else
  let? parsed := ok_or (url_parse raw) InvalidUrl in
  if negb (web_scheme (v_scheme (view parsed))) then Err BadScheme else
  let? host := ok_or (v_host_str (view parsed)) NoHost in
  if host_blocked host then Err BlockedHost else
  let? _ := match v_host (view parsed) with Some (HostV4 a) => reject_dangerous_ip (V4 a) | _ => Ok tt end in
  let? _ := match v_host (view parsed) with Some (HostV6 a) => reject_dangerous_ip (V6 a) | _ => Ok tt end in
  Ok parsed.

Fixpoint reject_dangerous_all (l : list SocketAddr) : result unit EndpointError :=
  match l with
  | [] => Ok tt
  | a :: r => let? _ := reject_dangerous_ip (sa_ip a) in reject_dangerous_all r
  end.

Definition resolve_and_validate_cluster_endpoint (raw : string) : result (Url * list SocketAddr) EndpointError :=
  let? parsed := validate_cluster_endpoint raw in
  let host := default EmptyString (v_host_str (view parsed)) in
  let port := default 80 (v_port (view parsed)) in
  match v_host (view parsed) with
  | Some (HostV4 a) => Ok (parsed, [mkSocketAddr (V4 a) port])
  | Some (HostV6 a) => Ok (parsed, [mkSocketAddr (V6 a) port])
  | _ =>
      let? ips := ok_or (lookup_host (host +:+ ":" +:+ show_Z port)) DnsFailed in
      if bool_decide (length ips = 0%nat) then Err NoAddresses else
      let? _ := reject_dangerous_all ips in
      Ok (parsed, ips)
  end.

Definition origin_url (u : Url) : string :=
  v_scheme (view u) +:+ "://" +:+ default EmptyString (v_host_str (view u)) +:+ ":" +:+
  show_Z (default 80 (v_port (view u))).

Definition build_a2a_forward_url (validated : Url) (agent_package agent_instance_id : string)
    : result Url ForwardError :=
  let? u := ok_or (set_username EmptyString validated) UsernameStuck in
  let? u := ok_or (set_password None u) PasswordStuck in
  let u := set_query None u in
  let u := set_fragment None u in
  ok_or (replace_path ["agents"; agent_package; agent_instance_id; "a2a"] u) NoPathSegments.

Definition resolve_forward_target (endpoint agent_package agent_instance_id : string)
    : result (ForwardTarget Url) ForwardError :=
  let? (validated, addrs) := map_err EndpointRejected (resolve_and_validate_cluster_endpoint endpoint) in
  let? forward_url := build_a2a_forward_url validated agent_package agent_instance_id in
  let host := match v_host (view validated) with Some h => bare_host h | None => EmptyString end in
  Ok (mkForwardTarget forward_url host addrs).

(** [builds]: whether [ClientBuilder::build] accepts the configuration. *)
Definition build_validated_peer_client (builds : Client -> bool) (endpoint path_segment : string) (timeout : Z)
    : result (Client * Url) PeerError :=
  let? (validated, addrs) := map_err PeerRejected (resolve_and_validate_cluster_endpoint endpoint) in
  let? h := ok_or (v_host (view validated)) PeerNoHost in
  let u := set_fragment None (set_query None validated) in
  let? u := ok_or (replace_path [path_segment] u) PeerNotBase in
  let client := mkClient timeout false (bare_host h) addrs in
  if builds client then Ok (client, u) else Err PeerClientBuild.
End Endpoints.

(** ** Response bodies *)

(** What [resp.chunk()] yields until the body ends. *)
Inductive chunk_read := Chunk (bytes : string) | ReadFailed.

Definition MAX_RESPONSE_BYTES : Z := 50 * 1024 * 1024.

Inductive BodyError := OverCap | TransportFailed.

Fixpoint read_body_capped_go (max_bytes total : Z) (buf : string) (resp : list chunk_read) : result string BodyError :=
  match resp with
  | [] => Ok buf
  | Chunk c :: rest =>
      let total := Z.min usize_max (total + Z.of_nat (String.length c)) in
      if max_bytes <? total then Err OverCap else read_body_capped_go max_bytes total (buf +:+ c) rest
  | ReadFailed :: _ => Err TransportFailed
  end.

Definition read_body_capped (resp : list chunk_read) (max_bytes : Z) : result string BodyError :=
  read_body_capped_go max_bytes 0 EmptyString resp.

(** The bytes [read_body_lossy] keeps, before [from_utf8_lossy]. *)
Fixpoint read_body_lossy_go (max_bytes total : Z) (buf : string) (resp : list chunk_read) : string :=
  match resp with
  | Chunk c :: rest =>
      let total := Z.min usize_max (total + Z.of_nat (String.length c)) in
      if max_bytes <? total then buf else read_body_lossy_go max_bytes total (buf +:+ c) rest
  | _ => buf
  end.

(** [str::floor_char_boundary] is the same walk back as in the previews. *)
Definition floor_char_boundary (s : string) (n : nat) : nat :=
  if (String.length s <=? n)%nat then String.length s else back_to_boundary s n.

Definition truncate_body (text : string) (max_bytes : nat) : outcome string :=
  if (String.length text <=? max_bytes)%nat then Done text
  else let! truncated := slice text 0 (floor_char_boundary text max_bytes) in
       Done (truncated +:+ "...[truncated]").

(** ** Control-endpoint authentication *)

Inductive ClusterMode := Standalone | Cluster.

#[global] Instance ClusterMode_eq_dec : EqDecision ClusterMode.
Proof. solve_decision. Defined.

Inductive AuthProblem := InvalidToken | TokenNotConfigured.

Record ClusterAuthConfig := mkAuthConfig { runner_token : option string; cluster_mode : ClusterMode }.

(** [ClusterAuthLayer::new] asserts. *)
Definition ClusterAuthLayer_new (c : ClusterAuthConfig) : outcome ClusterAuthConfig :=
  if bool_decide (runner_token c = Some EmptyString) then Panic else Done c.

Section Auth.
(** SHA-256. *)
Context (digest : string -> string).

Definition tokens_match (provided expected : string) : bool :=
  bool_decide (digest provided = digest expected).

Definition check_control_auth (token : option string) (mode : ClusterMode) (provided : string) : result unit AuthProblem :=
  match token with
  | Some expected => if tokens_match provided expected then Ok tt else Err InvalidToken
  | None => if bool_decide (mode = Cluster) then Err TokenNotConfigured else Ok tt
  end.

(** [ClusterAuthService::call] over an inner service; the header is absent, not
    text ([Some None]), or text. *)
Definition auth_call {Resp : Type} (c : ClusterAuthConfig) (inner : Resp) (refuse : AuthProblem -> Resp)
    (header : option (option string)) : Resp :=
  let provided := match header with Some (Some s) => s | _ => EmptyString end in
  match check_control_auth (runner_token c) (cluster_mode c) provided with
  | Ok _ => inner
  | Err p => refuse p
  end.
End Auth.

(** ** Specification: the blocks an endpoint must not lie in *)

(** [base/len] among addresses of [bits] bits. *)
Definition in_block (bits : Z) (a : Z) (block : Z * Z) : bool :=
  Z.shiftr a (bits - snd block) =? Z.shiftr (fst block) (bits - snd block).

Definition quad (a b c d : Z) : Z := ((a * 256 + b) * 256 + c) * 256 + d.
Definition pair16 (a b : Z) : Z := (a * 65536 + b) * 2 ^ 96.

(** 127.0.0.0/8, 0.0.0.0/32, 169.254.0.0/16, 100.100.100.200/32 *)
Definition blocks_v4 : list (Z * Z) :=
  [(quad 127 0 0 0, 8); (quad 0 0 0 0, 32); (quad 169 254 0 0, 16); (quad 100 100 100 200, 32)].

(** ::1/128, ::/128, fe80::/10, fd00:ec2::/32 *)
Definition blocks_v6 : list (Z * Z) :=
  [(1, 128); (0, 128); (pair16 65152 0, 10); (pair16 64768 3778, 32)].

Definition dangerous (ip : IpAddr) : bool :=
  match ip with V4 a => existsb (in_block 32 a) blocks_v4 | V6 a => existsb (in_block 128 a) blocks_v6 end.

(** ::ffff:a.b.c.d *)
Definition mapped (a : Z) : Z := 65535 * 2 ^ 32 + a.

(** ** Lemmas: octets, segments and prefixes *)

Lemma octet_div i a : 0 <= i <= 3 -> octet i a = (a / 2 ^ (24 - 8 * i)) mod 256.
Proof.
  intros Hi. unfold octet. rewrite Z.shiftr_div_pow2 by lia. change 255 with (Z.ones 8). by rewrite Z.land_ones.
Qed.

Lemma segment_div i a : 0 <= i <= 7 -> segment i a = (a / 2 ^ (112 - 16 * i)) mod 65536.
Proof.
  intros Hi. unfold segment. rewrite Z.shiftr_div_pow2 by lia. change 65535 with (Z.ones 16). by rewrite Z.land_ones.
Qed.

(** The mask of a /10 prefix on a 16-bit segment. *)
Lemma land_ffc0 s : 0 <= s < 65536 -> Z.land s 65472 = s / 64 * 64.
Proof.
  intros Hs. change 65472 with (Z.shiftl (Z.ones 10) 6).
  transitivity (Z.shiftl (Z.land (Z.shiftr s 6) (Z.ones 10)) 6).
  - apply Z.bits_inj'. intros n Hn. rewrite Z.land_spec, !Z.shiftl_spec by lia.
    destruct (Z_lt_le_dec n 6); [rewrite !(Z.testbit_neg_r _ (n - 6)) by lia; apply andb_false_r|].
    rewrite Z.land_spec, Z.shiftr_spec by lia. by replace (n - 6 + 6) with n by lia.
  - rewrite Z.land_ones by lia. rewrite Z.shiftr_div_pow2, Z.shiftl_mul_pow2 by lia.
    change (2 ^ 6) with 64. change (2 ^ 10) with 1024. rewrite Z.mod_small by (Z.div_mod_to_equations; lia). done.
Qed.

Lemma reject_bool ip :
  reject_dangerous_ip ip = Ok tt <->
  is_loopback ip || is_unspecified ip || is_link_local_or_metadata ip || is_cloud_metadata_ip ip = false.
Proof. unfold reject_dangerous_ip. by destruct (is_loopback ip), (is_unspecified ip), (is_link_local_or_metadata ip), (is_cloud_metadata_ip ip). Qed.

Lemma octets_prefixes a : 0 <= a < 2 ^ 32 ->
  octet 0 a = a / 2 ^ 24 /\ octet 0 a * 256 + octet 1 a = a / 2 ^ 16 /\
  quad (octet 0 a) (octet 1 a) (octet 2 a) (octet 3 a) = a /\
  (forall i, 0 <= i <= 3 -> 0 <= octet i a < 256).
Proof.
  intros Ha. pose proof (fun i Hi => eq_sym (octet_div i a Hi)) as Ho.
  pose proof (Ho 0 ltac:(lia)) as H0. pose proof (Ho 1 ltac:(lia)) as H1.
  pose proof (Ho 2 ltac:(lia)) as H2. pose proof (Ho 3 ltac:(lia)) as H3.
  change (2 ^ (24 - 8 * 0)) with 16777216 in H0. change (2 ^ (24 - 8 * 1)) with 65536 in H1.
  change (2 ^ (24 - 8 * 2)) with 256 in H2. change (2 ^ (24 - 8 * 3)) with 1 in H3.
  rewrite <-H0, <-H1, <-H2, <-H3. unfold quad.
  change (2 ^ 24) with 16777216. change (2 ^ 16) with 65536. change (2 ^ 32) with 4294967296 in Ha.
  split; [|split; [|split]]; [Z.div_mod_to_equations; lia..|].
  intros i Hi. rewrite octet_div by lia. apply Z.mod_pos_bound. lia.
Qed.

Lemma eqb_bool (x y x' y' : Z) : (x = y <-> x' = y') -> (x =? y) = (x' =? y').
Proof. intros H. apply eq_true_iff_eq. rewrite !Z.eqb_eq. done. Qed.

Lemma v4_filter a : 0 <= a < 2 ^ 32 ->
  is_loopback (V4 a) || is_unspecified (V4 a) || is_link_local_or_metadata (V4 a) || is_cloud_metadata_ip (V4 a)
  = dangerous (V4 a).
Proof.
  intros Ha. destruct (octets_prefixes a Ha) as (H0 & H1 & Hq & Hr).
  pose proof (Hr 0 ltac:(lia)). pose proof (Hr 1 ltac:(lia)). pose proof (Hr 2 ltac:(lia)). pose proof (Hr 3 ltac:(lia)).
  cbn [dangerous existsb blocks_v4 is_loopback is_unspecified is_link_local_or_metadata is_cloud_metadata_ip].
  unfold in_block. cbn [fst snd]. rewrite !Z.shiftr_div_pow2 by lia.
  change (32 - 8) with 24. change (32 - 16) with 16. change (32 - 32) with 0. rewrite <-H0, <-H1, !Z.div_1_r.
  change (quad 127 0 0 0 / 2 ^ 24) with 127. change (quad 169 254 0 0 / 2 ^ 16) with (169 * 256 + 254).
  rewrite orb_false_r, !orb_assoc. f_equal; [f_equal|].
  - apply eq_true_iff_eq. rewrite andb_true_iff, !Z.eqb_eq. lia.
  - apply eq_true_iff_eq. rewrite !andb_true_iff, !Z.eqb_eq. rewrite <-Hq at 5. unfold quad. lia.
Qed.

Lemma segments_prefixes a : 0 <= a < 2 ^ 128 ->
  0 <= segment 0 a < 65536 /\ 0 <= segment 1 a < 65536 /\
  segment 0 a / 64 = a / 2 ^ 118 /\ segment 0 a * 65536 + segment 1 a = a / 2 ^ 96.
Proof.
  intros Ha. rewrite !segment_div by lia. change (112 - 16 * 0) with 112. change (112 - 16 * 1) with 96.
  assert (Hlt : a / 2 ^ 112 < 65536) by (apply Z.div_lt_upper_bound; [lia|]; change (2 ^ 112 * 65536) with (2 ^ 128); lia).
  pose proof (Z.div_pos a (2 ^ 112) ltac:(lia) ltac:(lia)) as Hge.
  rewrite (Z.mod_small (a / 2 ^ 112)) by lia.
  split_and!; try lia; try (apply Z.mod_pos_bound; lia).
  - rewrite Z.div_div by lia. done.
  - change (2 ^ 112) with (2 ^ 96 * 65536). rewrite <-Z.div_div by lia.
    pose proof (Z.div_mod (a / 2 ^ 96) 65536). lia.
Qed.

Lemma v6_filter a : 0 <= a < 2 ^ 128 ->
  is_loopback (V6 a) || is_unspecified (V6 a) || is_link_local_or_metadata (V6 a) || is_cloud_metadata_ip (V6 a)
  = dangerous (V6 a).
Proof.
  intros Ha. destruct (segments_prefixes a Ha) as (H0 & H1 & Hp & Hq).
  cbn [dangerous existsb blocks_v6 is_loopback is_unspecified is_link_local_or_metadata is_cloud_metadata_ip].
  unfold in_block. cbn [fst snd]. rewrite !Z.shiftr_div_pow2 by lia.
  change (128 - 128) with 0. change (128 - 10) with 118. change (128 - 32) with 96. rewrite <-Hp, <-Hq, !Z.div_1_r.
  change (pair16 65152 0 / 2 ^ 118) with 1018. change (pair16 64768 3778 / 2 ^ 96) with (64768 * 65536 + 3778).
  rewrite land_ffc0 by lia. rewrite orb_false_r, !orb_assoc. f_equal; [f_equal|].
  - apply eqb_bool. lia.
  - apply eq_true_iff_eq. rewrite andb_true_iff, !Z.eqb_eq. lia.
Qed.

Lemma reject_spec ip : wf_ip ip -> reject_dangerous_ip ip = Ok tt <-> dangerous ip = false.
Proof. intros Hw. rewrite reject_bool. destruct ip; [by rewrite v4_filter|by rewrite v6_filter]. Qed.

Lemma reject_all_spec l :
  Forall (fun a => wf_ip (sa_ip a)) l ->
  reject_dangerous_all l = Ok tt <-> Forall (fun a => dangerous (sa_ip a) = false) l.
Proof.
  induction 1 as [|a l Ha Hl IH]; simpl; [by split|].
  rewrite list.Forall_cons.
  rewrite <-IH.
  pose proof (reject_spec _ Ha) as Hr. simpl in Hr.
  rewrite <-Hr.
  destruct (reject_dangerous_ip (sa_ip a)) as [[]|]; simpl; [tauto|]. split; [done|by intros [? _]].
Qed.

(** A host passes unless it is a blocked name or below one, in any case. *)
Definition host_allowed (host : string) : Prop :=
  forall b, b ∈ blocked_hostnames ->
    to_lowercase host <> b /\ ~ exists q, to_lowercase host = q +:+ "." +:+ b.

Lemma host_blocked_spec host : host_blocked host = false <-> host_allowed host.
Proof.
  unfold host_blocked, host_allowed. rewrite <-not_true_iff_false, existsb_exists. split.
  - intros H b Hb. split; intros Hc; apply H; exists b; (split; [by apply list_elem_of_In|]); apply orb_true_iff.
    + left. by apply bool_decide_eq_true.
    + right. by apply ends_with_spec.
  - intros H (b & Hb & Hc). apply list_elem_of_In in Hb. destruct (H b Hb) as [Hn Hq].
    apply orb_true_iff in Hc as [Hc|Hc]; [by apply bool_decide_eq_true in Hc|by apply Hq, ends_with_spec].
Qed.

(** ** Which endpoints are admitted *)

Section Admission.
Context {Url : Type} `{UrlLaws Url}.
Context (lookup_host : string -> option (list SocketAddr)).
(** Resolved addresses are addresses. *)
Hypothesis lookup_wf : forall q l, lookup_host q = Some l -> Forall (fun a => wf_ip (sa_ip a)) l.

(** The addresses a request to [u] is pinned to: the literal one, or what the
    resolver answers for its host and port. *)
Definition pinned_to (u : Url) (addrs : list SocketAddr) : Prop :=
  let port := default 80 (v_port (view u)) in
  match v_host (view u) with
  | Some (HostV4 a) => addrs = [mkSocketAddr (V4 a) port]
  | Some (HostV6 a) => addrs = [mkSocketAddr (V6 a) port]
  | _ => lookup_host (default EmptyString (v_host_str (view u)) +:+ ":" +:+ show_Z port) = Some addrs
  end.

(** What the file's comments promise of an accepted endpoint. *)
Record admitted (raw : string) (u : Url) (addrs : list SocketAddr) : Prop := {
  ad_ascii : ascii_only raw = true;
  ad_parse : url_parse raw = Some u;
  ad_scheme : web_scheme (v_scheme (view u)) = true;
  ad_host : exists h, v_host_str (view u) = Some h /\ host_allowed h;
  ad_pinned : pinned_to u addrs;
  ad_some : addrs <> [];
  ad_safe : Forall (fun a => dangerous (sa_ip a) = false) addrs
}.

Definition literal_ip (h : option Host) : option IpAddr :=
  match h with Some (HostV4 a) => Some (V4 a) | Some (HostV6 a) => Some (V6 a) | _ => None end.

Lemma literal_ip_wf raw u ip : url_parse raw = Some u -> literal_ip (v_host (view u)) = Some ip -> wf_ip ip.
Proof.
  intros Hp Hl. pose proof (parse_host_wf _ _ Hp) as Hw. destruct (v_host (view u)) as [[d|a|a]|]; try done;
  injection Hl as <-; exact Hw.
Qed.

(** The two checks of a literal address are one. *)
Lemma literal_checks (check : IpAddr -> result unit EndpointError) (host : option Host) (v u : Url) :
  (let? _ := match host with Some (HostV4 a) => check (V4 a) | _ => Ok tt end in
   let? _ := match host with Some (HostV6 a) => check (V6 a) | _ => Ok tt end in Ok v) = Ok u <->
  v = u /\ forall ip, literal_ip host = Some ip -> check ip = Ok tt.
Proof.
  destruct host as [[d|a|a]|]; simpl; try (split; [by intros [= ->]|by intros [-> _]]).
  - destruct (check (V4 a)) as [[]|] eqn:Hc; simpl; split.
    + intros [= ->]. split; [done|]. by intros ip [= <-].
    + by intros [-> _].
    + done.
    + intros [_ H']. rewrite (H' _ eq_refl) in Hc. done.
  - destruct (check (V6 a)) as [[]|] eqn:Hc; simpl; split.
    + intros [= ->]. split; [done|]. by intros ip [= <-].
    + by intros [-> _].
    + done.
    + intros [_ H']. rewrite (H' _ eq_refl) in Hc. done.
Qed.

Lemma validate_spec raw u :
  validate_cluster_endpoint raw = Ok u <->
  ascii_only raw = true /\ url_parse raw = Some u /\ web_scheme (v_scheme (view u)) = true /\
  (exists h, v_host_str (view u) = Some h /\ host_allowed h) /\
  (forall ip, literal_ip (v_host (view u)) = Some ip -> dangerous ip = false).
Proof.
  unfold validate_cluster_endpoint. destruct (ascii_only raw) eqn:Ha; simpl; [|split; [done|by intros [? _]]].
  destruct (url_parse raw) as [v|] eqn:Hp; simpl; [|split; [done|by intros (_ & ? & _)]].
  destruct (web_scheme _) eqn:Hs; simpl; [|split; [done|]; intros (_ & [= ->] & Hs' & _); congruence].
  destruct (v_host_str (view v)) as [h|] eqn:Hh; simpl; [|split; [done|]; intros (_ & [= ->] & _ & (? & Hh' & _) & _); congruence].
  destruct (host_blocked h) eqn:Hb.
  { split; [done|]. intros (_ & [= ->] & _ & (h' & Hh' & Hal) & _). assert (h' = h) as -> by congruence.
    apply host_blocked_spec in Hal. congruence. }
  apply host_blocked_spec in Hb. rewrite literal_checks. split.
  - intros [-> Hc]. split; [reflexivity|]. split; [reflexivity|]. split; [exact Hs|]. split; [by exists h|].
    intros ip Hip. apply (reject_spec ip (literal_ip_wf _ _ _ Hp Hip)). by apply Hc.
  - intros (_ & [= ->] & _ & _ & Hc). split; [reflexivity|].
    intros ip Hip. apply (reject_spec ip (literal_ip_wf _ _ _ Hp Hip)). by apply Hc.
Qed.

Lemma resolve_spec raw u addrs :
  resolve_and_validate_cluster_endpoint lookup_host raw = Ok (u, addrs) <-> admitted raw u addrs.
Proof.
  split.
  - unfold resolve_and_validate_cluster_endpoint. intros Hr.
    destruct (validate_cluster_endpoint raw) as [v|] eqn:Hv; simpl in Hr; [|done].
    assert (v = u) as ->.
    { destruct (v_host (view v)) as [[d|a|a]|]; [|congruence..|];
      destruct (lookup_host _); simpl in Hr; try done; case_bool_decide; try done;
      destruct (reject_dangerous_all _) in Hr; simpl in Hr; congruence. }
    apply validate_spec in Hv as (Ha & Hp & Hs & Hh & Hd).
    assert (Hlit : forall ip port, literal_ip (v_host (view u)) = Some ip -> Forall (fun a => dangerous (sa_ip a) = false) [mkSocketAddr ip port]).
    { intros ip port Hl. constructor; [by apply Hd|constructor]. }
    unfold pinned_to in *. constructor; try done; unfold pinned_to.
    all: destruct (v_host (view u)) as [[d|a|a]|]; try (injection Hr as <-); try done; try (by apply Hlit).
    all: destruct (lookup_host _) as [ips|] eqn:Hl in Hr; simpl in Hr; [|done].
    all: case_bool_decide as Hlen; [done|]; destruct (reject_dangerous_all ips) as [[]|] eqn:Hra in Hr; simpl in Hr; [|done].
    all: injection Hr as <-; try done; try (by intros ->).
    all: apply reject_all_spec in Hra; [done|by eapply lookup_wf].
  - intros Had. unfold resolve_and_validate_cluster_endpoint.
    assert (Hv : validate_cluster_endpoint raw = Ok u).
    { apply validate_spec. destruct Had as [Ha Hp Hs Hh Hpin _ Hd]. repeat (split; [done|]). intros ip Hl. unfold pinned_to in Hpin.
      destruct (v_host (view u)) as [[d|a|a]|]; try done; injection Hl as <-; subst addrs; by inversion Hd. }
    rewrite Hv. simpl. pose proof (ad_pinned _ _ _ Had) as Hpin. unfold pinned_to in Hpin.
    destruct (v_host (view u)) as [[d|a|a]|]; try (by subst addrs).
    all: rewrite Hpin; simpl; rewrite bool_decide_eq_false_2 by (intros ?%nil_length_inv; by apply (ad_some _ _ _ Had)).
    all: rewrite (proj2 (reject_all_spec addrs (lookup_wf _ _ Hpin)) (ad_safe _ _ _ Had)); done.
Qed.

(** The forwarding URL of a validated endpoint. *)
Lemma forward_url_ok u pkg inst :
  web_scheme (v_scheme (view u)) = true -> is_Some (v_host (view u)) ->
  exists u', build_a2a_forward_url u pkg inst = Ok u' /\
    view u' = mkUrlView (v_scheme (view u)) (v_host (view u)) (v_host_str (view u)) (v_port (view u))
                EmptyString None (Some (pushed ["agents"; pkg; inst; "a2a"])) None None.
Proof.
  intros Hs Hh. unfold build_a2a_forward_url.
  destruct (set_username_ok EmptyString u Hs Hh) as (u1 & -> & V1). simpl.
  destruct (set_password_ok None u1) as (u2 & -> & V2); [by rewrite V1..|]. simpl.
  edestruct (replace_path_ok ["agents"; pkg; inst; "a2a"]) as (u3 & Hu3 & V3); [|rewrite Hu3; exists u3; split; [done|]].
  - by rewrite view_set_fragment, view_set_query, V2, V1.
  - by rewrite V3, view_set_fragment, view_set_query, V2, V1.
Qed.

(** C37: a request is forwarded exactly to admitted endpoints: ASCII, http or
    https, a host that is no blocked name or subdomain of one in any letter
    case, and at least one address, every one of which (the literal address or
    all the resolver's answers, which the client is pinned to) lies outside the
    loopback, unspecified, link-local and metadata blocks; the URL it is sent
    to keeps scheme, host and port and nothing else of the endpoint: no
    credentials, query or fragment, and the agent's path only (without "." and
    ".." segments, which identifiers never are). *)
Theorem forward_targets_confined endpoint pkg inst :
  (forall t, resolve_forward_target lookup_host endpoint pkg inst = Ok t ->
     exists u h, admitted endpoint u (ft_addrs t) /\ v_host (view u) = Some h /\ ft_host t = bare_host h /\
       view (ft_url t) = mkUrlView (v_scheme (view u)) (Some h) (v_host_str (view u)) (v_port (view u))
                           EmptyString None (Some (pushed ["agents"; pkg; inst; "a2a"])) None None) /\
  (forall u addrs, admitted endpoint u addrs ->
     exists t, resolve_forward_target lookup_host endpoint pkg inst = Ok t /\ ft_addrs t = addrs).
Proof.
  assert (Hfwd : forall u addrs, admitted endpoint u addrs -> is_Some (v_host (view u))).
  { intros u addrs [_ _ _ (h & Hh & _) _ _ _]. destruct (v_host (view u)) eqn:Hn; [done|].
    apply host_str_host in Hn. congruence. }
  unfold resolve_forward_target. split.
  - intros t Ht. destruct (resolve_and_validate_cluster_endpoint lookup_host endpoint) as [[u addrs]|] eqn:Hr; [|done].
    apply resolve_spec in Hr as Had. destruct (Hfwd _ _ Had) as [h Hh]. simpl in Ht.
    destruct (forward_url_ok u pkg inst (ad_scheme _ _ _ Had) (Hfwd _ _ Had)) as (u' & Hu & Hv).
    rewrite Hu in Ht. simpl in Ht. injection Ht as <-. exists u, h. simpl. rewrite Hh in *. split_and!; done.
  - intros u addrs Had. destruct (forward_url_ok u pkg inst (ad_scheme _ _ _ Had) (Hfwd _ _ Had)) as (u' & Hu & _).
    rewrite (proj2 (resolve_spec _ _ _) Had). simpl. rewrite Hu. by eexists.
Qed.
End Admission.

(** ** The record instance of the interface *)

Definition display_host (h : Host) : string :=
  match h with HostV6 a => "[" +:+ v6_to_string a +:+ "]" | _ => bare_host h end.

Definition normal_view (v : UrlView) : UrlView :=
  mkUrlView (v_scheme v) (v_host v) (display_host <$> v_host v) (v_port v) (v_username v) (v_password v)
    (v_path v) (v_query v) (v_fragment v).

(** URLs as their components, parsed by a table. *)
Definition table_url : UrlView :=
  mkUrlView "http" (Some (Domain "runner-0.runner.svc")) None (Some 18080) "u" (Some "p")
    (Some ["internal"]) (Some "q=1") None.

Definition table_parse (raw : string) : option UrlView :=
  if bool_decide (raw = "http://u:p@runner-0.runner.svc:18080/internal?q=1") then Some table_url
  else if bool_decide (raw = "http://[::ffff:a9fe:a9fe]/") then
    Some (mkUrlView "http" (Some (HostV6 (mapped (quad 169 254 169 254)))) None (Some 80) EmptyString None (Some []) None None)
  else None.

#[local] Instance table_api : UrlApi UrlView := {
  url_parse := table_parse;
  view := normal_view;
  set_username n v := if web_scheme (v_scheme v) && bool_decide (is_Some (v_host v))
                      then Some (with_credentials n (v_password v) v) else None;
  set_password p v := if web_scheme (v_scheme v) && bool_decide (is_Some (v_host v))
                      then Some (with_credentials (v_username v) p v) else None;
  set_query := with_query;
  set_fragment := with_fragment;
  replace_path p v := if web_scheme (v_scheme v) then Some (with_path (pushed p) v) else None
}.

#[local] Instance table_laws : UrlLaws UrlView.
Proof.
  constructor.
  - simpl. unfold table_parse. intros raw u Hp. case_bool_decide; [injection Hp as <-; exact I|].
    case_bool_decide; [|done]. injection Hp as <-. simpl. vm_compute. by split.
  - intros u. simpl. by destruct (v_host u).
  - simpl. intros n u -> Hh. rewrite bool_decide_eq_true_2 by done. by eexists.
  - simpl. intros n u -> Hh. rewrite bool_decide_eq_true_2 by done. by eexists.
  - done.
  - done.
  - simpl. intros p u ->. by eexists.
Defined.

Definition table_lookup (q : string) : option (list SocketAddr) :=
  if bool_decide (q = "runner-0.runner.svc:18080") then Some [mkSocketAddr (V4 (quad 10 96 0 1)) 18080] else None.

Lemma forward_targets_confined_witness :
  exists t, resolve_forward_target table_lookup "http://u:p@runner-0.runner.svc:18080/internal?q=1" "pkg" "inst" = Ok t /\
  exists u h, admitted table_lookup "http://u:p@runner-0.runner.svc:18080/internal?q=1" u (ft_addrs t) /\
    v_host (view u) = Some h /\ ft_host t = bare_host h /\
    view (ft_url t) = mkUrlView (v_scheme (view u)) (Some h) (v_host_str (view u)) (v_port (view u))
                        EmptyString None (Some (pushed ["agents"; "pkg"; "inst"; "a2a"])) None None.
Proof.
  eexists. split; [vm_compute; reflexivity|].
  eapply (forward_targets_confined table_lookup); [|vm_compute; reflexivity].
  unfold table_lookup. intros q l Hq. case_bool_decide; [|done]. injection Hq as <-.
  repeat constructor; vm_compute; congruence.
Defined.

(** The address filter compares an IPv6 address with IPv6 blocks alone:
    every IPv4 address written in its mapped form, ::ffff:a.b.c.d, passes it,
    also when the address itself is refused, so that an endpoint such as
    http://[::ffff:169.254.169.254]/ is accepted and pinned to the metadata
    service. *)
Theorem mapped_addresses_pass :
  (forall a, 0 <= a < 2 ^ 32 -> reject_dangerous_ip (V6 (mapped a)) = Ok tt) /\
  reject_dangerous_ip (V4 (quad 169 254 169 254)) = Err LinkLocalOrMetadata /\
  (exists u, resolve_and_validate_cluster_endpoint table_lookup "http://[::ffff:a9fe:a9fe]/" =
     Ok (u, [mkSocketAddr (V6 (mapped (quad 169 254 169 254))) 80])).
Proof.
  split_and!; [|reflexivity|eexists; vm_compute; reflexivity].
  intros a Ha. apply reject_bool. unfold mapped.
  assert (Hs : forall i, 0 <= i <= 1 -> segment i (65535 * 2 ^ 32 + a) = 0).
  { intros i Hi. rewrite segment_div by lia. rewrite Z.div_small; [done|]. split; [lia|].
    apply Z.lt_le_trans with (2 ^ 96); [lia|]. apply Z.pow_le_mono_r; lia. }
  cbn [is_loopback is_unspecified is_link_local_or_metadata is_cloud_metadata_ip].
  rewrite !Hs by lia. rewrite !(proj2 (Z.eqb_neq _ _)) by lia. done.
Qed.

(** ** Bodies and tokens *)

Definition chunk_bytes (r : chunk_read) : string := match r with Chunk c => c | ReadFailed => EmptyString end.
Definition body (resp : list chunk_read) : string := foldr (fun r acc => chunk_bytes r +:+ acc) EmptyString resp.

(** A capped read returns the whole body or an error: never a part of it. *)
Lemma read_body_capped_go_spec max resp : forall total buf b,
  0 <= total -> max < usize_max -> total <= max ->
  read_body_capped_go max total buf resp = Ok b <->
  (ReadFailed ∉ resp) /\ b = buf +:+ body resp /\ total + Z.of_nat (String.length (body resp)) <= max.
Proof.
  induction resp as [|[c|] resp IH]; intros total buf b Ht Hm Htm; simpl.
  - rewrite str_app_nil_r. split; [intros [= ->]; split_and!; [by intros ?%elem_of_nil|done|lia]|by intros (_ & -> & _)].
  - rewrite str_app_length, Nat2Z.inj_add, elem_of_cons.
    destruct (max <? Z.min usize_max (total + Z.of_nat (String.length c))) eqn:Hc.
    + apply Z.ltb_lt in Hc. split; [done|]. intros (_ & _ & Hle). lia.
    + apply Z.ltb_ge in Hc. rewrite IH by lia. rewrite Z.min_r by lia. rewrite str_app_assoc.
      split; intros (Hn & -> & Hle); split_and!; try done; try lia; [by intros [?|?]|tauto].
  - split; [done|]. intros (Hn & _). exfalso. apply Hn. constructor.
Qed.

Lemma read_body_capped_spec max resp b :
  0 <= max < usize_max ->
  read_body_capped resp max = Ok b <->
  (ReadFailed ∉ resp) /\ b = body resp /\ Z.of_nat (String.length (body resp)) <= max.
Proof. intros Hm. unfold read_body_capped. rewrite read_body_capped_go_spec by lia. simpl. done. Qed.

(** Cutting an error body never panics and stays near the limit. *)
Lemma truncate_body_safe text max :
  exists t, truncate_body text max = Done t /\ (String.length t <= max + 14 \/ t = text)%nat.
Proof.
  unfold truncate_body, floor_char_boundary. destruct (String.length text <=? max)%nat eqn:Hl; [eauto|].
  destruct (back_to_boundary_ok text max) as [He Hb]. unfold slice. simpl. rewrite Hb. simpl. eexists. split; [done|].
  left. rewrite str_app_length. rewrite Nat.sub_0_r. change (String.length "...[truncated]") with 14%nat.
  enough (String.length (str_take (back_to_boundary text max) text) <= max)%nat by lia.
  rewrite str_take_length. lia.
Qed.

(** The control endpoints of a cluster fail closed: a layer that could be
    built lets a request through only with a token whose digest is that of the
    configured, non-empty token. *)
Lemma cluster_auth_fails_closed digest (Resp : Type) c c' (inner : Resp) refuse header :
  ClusterAuthLayer_new c = Done c' -> cluster_mode c = Cluster ->
  (forall p, refuse p <> inner) ->
  auth_call digest c' inner refuse header = inner ->
  exists expected, runner_token c = Some expected /\ expected <> EmptyString /\
    digest (match header with Some (Some s) => s | _ => EmptyString end) = digest expected.
Proof.
  unfold ClusterAuthLayer_new, auth_call, check_control_auth. intros Hn Hm Hne. case_bool_decide as Ht; [done|].
  injection Hn as <-. rewrite Hm. destruct (runner_token c) as [e|]; [|by intros ?%Hne].
  unfold tokens_match. case_bool_decide as Hd; [|by intros ?%Hne]. intros _. exists e. split_and!; [done|congruence|done].
Qed.
