(* ===== verification/Sse.v ===== *)
(** * Server-sent events between cluster nodes

    [baml-rt-core/src/a2a_sse.rs]: the incremental decoder and the full-body
    parser; [baml-rt-router/src/forward.rs]: what [forward_request] and
    [forward_stream_request] make of a response body; and the frames
    [baml-rt-api/src/handlers.rs] writes ([post_a2a]).  Bodies are byte
    strings; [serde_json] is a parameter of the definitions that call it. *)

From stdpp Require Import base list strings.
From Stdlib Require Import ZArith Lia Ascii.
From S2P Require Import Prelude RustStr Json Router.

Open Scope nat_scope.
Open Scope list_scope.

Inductive A2aSseParseError := MissingDataLines | Utf8 | Json.

(** ** Framing *)

(** The loop of [find_event_delimiter] from index [i], over the bytes left. *)
Fixpoint find_from (i : nat) (s : string) : option (nat * nat) :=
  match s with
  | String a ((String b r) as s1) =>
      if bool_decide (a = nl) && bool_decide (b = nl) then Some (i, 2)
      else if bool_decide (a = cr) && bool_decide (b = nl) &&
              match r with
              | String c (String d _) => bool_decide (c = cr) && bool_decide (d = nl)
              | _ => false
              end then Some (i, 4)
      else find_from (S i) s1
  | _ => None
  end.

Definition find_event_delimiter (buf : string) : option (nat * nat) := find_from 0 buf.

(** [s.replace("\r\n", "\n")] *)
Fixpoint replace_crlf (s : string) : string :=
  match s with
  | String a ((String b r) as s1) =>
      if bool_decide (a = cr) && bool_decide (b = nl) then String nl (replace_crlf r) else String a (replace_crlf s1)
  | _ => s
  end.

Definition data_line (line : string) : option string :=
  match strip_prefix "data:" (trim_end_matches cr line) with
  | Some rest => Some (trim_start rest)
  | None => None
  end.

Definition parse_sse_event_payload (raw_event : string) : option string :=
  let raw_event := trim (replace_crlf raw_event) in
  if is_empty_str raw_event then None
  else match omap data_line (str_lines raw_event) with
       | [] => None
       | data_lines => Some (join nl_str data_lines)
       end.

Section Decoder.
(** [serde_json::from_str] and [serde_json::to_string] *)
Context (from_str : string -> option json).

Definition parse_sse_event_bytes (event_bytes : string) : result (option json) A2aSseParseError :=
  if valid_utf8 event_bytes then
    match parse_sse_event_payload event_bytes with
    | Some payload => let? v := ok_or (from_str payload) Json in Ok (Some v)
    | None => Ok None
    end
  else Err Utf8.

(** The loop of [drain_complete_events]: what it decoded and the bytes left in
    [pending].  An event and its delimiter take two bytes at least, so the
    number of bytes is fuel enough. *)
Fixpoint drain_go (fuel : nat) (pending : string) : result (list json) A2aSseParseError * string :=
  match fuel with
  | 0 => (Ok [], pending)
  | S fuel =>
      match find_event_delimiter pending with
      | None => (Ok [], pending)
      | Some (event_end, delimiter_len) =>
          let event_bytes := str_take event_end pending in
          let pending := str_drop delimiter_len (str_drop event_end pending) in
          match parse_sse_event_bytes event_bytes with
          | Err e => (Err e, pending)
          | Ok v =>
              let '(res, remaining) := drain_go fuel pending in
              (let? vs := res in Ok (option_list v ++ vs), remaining)
          end
      end
  end.

Definition drain (pending : string) : result (list json) A2aSseParseError * string :=
  drain_go (S (String.length pending)) pending.

Definition feed (pending bytes : string) : result (list json) A2aSseParseError * string :=
  drain (pending +:+ bytes).

Definition finish (pending : string) : result (list json) A2aSseParseError :=
  let '(res, remaining) := drain pending in
  let? vs := res in
  if is_empty_str remaining then Ok vs
  else let? v := parse_sse_event_bytes remaining in Ok (vs ++ option_list v).

(** A decoder fed with the chunks one after the other and finished. *)
Fixpoint decode_chunks (pending : string) (chunks : list string) : result (list json) A2aSseParseError :=
  match chunks with
  | [] => finish pending
  | c :: rest =>
      match feed pending c with
      | (Err e, _) => Err e
      | (Ok vs, pending) => let? ws := decode_chunks pending rest in Ok (vs ++ ws)
      end
  end.

Definition parse_a2a_sse_json_rpc_chunks (body : string) : result (list json) A2aSseParseError :=
  let? out := decode_chunks EmptyString [body] in
  match out with
  | [] =>
      let trimmed := trim body in
      if negb (is_empty_str trimmed) && (starts_with "{" trimmed || starts_with "[" trimmed)
      then Err MissingDataLines else Ok out
  | _ => Ok out
  end.

(** ** Reading a forwarded response *)

Inductive ForwardError := BodyFailed (e : BodyError) | BodyNotUtf8 | SseFailed (e : A2aSseParseError).

(** The end of [forward_request_inner], once the status is a success. *)
Definition forward_body (resp : list chunk_read) : result (list json) ForwardError :=
  let? text := map_err BodyFailed (read_body_capped resp MAX_RESPONSE_BYTES) in
  if valid_utf8 text then map_err SseFailed (parse_a2a_sse_json_rpc_chunks text) else Err BodyNotUtf8.

(** [tx.send] for each event; [open n] tells whether the receiver still takes
    the [n]-th one.  The flag is false once a send failed. *)
Fixpoint send_events (open : nat -> bool) (sent events : list json) : list json * bool :=
  match events with
  | [] => (sent, true)
  | v :: rest => if open (length sent) then send_events open (sent ++ [v]) rest else (sent, false)
  end.

(** The reader task of [forward_stream_request]: what it sent into the stream
    before closing it, and the label it only hands to the metrics. *)
Fixpoint forward_stream (open : nat -> bool) (pending : string) (total : Z) (sent : list json) (resp : list chunk_read)
    : list json * string :=
  match resp with
  | Chunk c :: rest =>
      let total := Z.min usize_max (total + Z.of_nat (String.length c)) in
      if (MAX_RESPONSE_BYTES <? total)%Z then (sent, "invalid_argument"%string)
      else match feed pending c with
           | (Ok events, pending) =>
               let '(sent, ok) := send_events open sent events in
               if ok then forward_stream open pending total sent rest else (sent, "success"%string)
           | (Err _, _) => (sent, "parse_error"%string)
           end
  | [] =>
      match finish pending with
      | Ok events => ((send_events open sent events).1, "success"%string)
      | Err _ => (sent, "parse_error"%string)
      end
  | ReadFailed :: _ => (sent, "transport_error"%string)
  end.
End Decoder.

(** The frames of [post_a2a]: [Event::default().data(text)] for a text of one
    line, and the comment of [KeepAlive::default()]. *)
Definition sse_frame (data : string) : string := "data: " +:+ data +:+ nl_str +:+ nl_str.
Definition keep_alive_frame : string := ":" +:+ nl_str +:+ nl_str.

(** A response body: values with keep-alive comments ([None]) between them. *)
Definition sse_body (to_string : json -> string) (frames : list (option json)) : string :=
  foldr (fun f rest => match f with Some v => sse_frame (to_string v) | None => keep_alive_frame end +:+ rest)
    EmptyString frames.

(** ** The decoder *)

(** The delimiter the bytes start with. *)
Definition delim_at (s : string) : option nat :=
  match s with
  | String a (String b r) =>
      if bool_decide (a = nl) && bool_decide (b = nl) then Some 2
      else if bool_decide (a = cr) && bool_decide (b = nl) &&
              match r with
              | String c (String d _) => bool_decide (c = cr) && bool_decide (d = nl)
              | _ => false
              end then Some 4
      else None
  | _ => None
  end.

Lemma find_from_cons i a s :
  find_from i (String a s) = match delim_at (String a s) with Some n => Some (i, n) | None => find_from (S i) s end.
Proof. destruct s as [|b r]; [done|]. cbn [find_from delim_at]. by destruct (_ && _); [|destruct (_ && _ && _)]. Qed.

Lemma delim_at_app s t n : delim_at s = Some n -> delim_at (s +:+ t) = Some n.
Proof.
  destruct s as [|a [|b r]]; [done..|]. rewrite ?str_app_cons; cbn [delim_at]. destruct (bool_decide (a = nl) && bool_decide (b = nl)); [done|].
  destruct (bool_decide (a = cr) && bool_decide (b = nl)); [|done]. by destruct r as [|c [|d r]].
Qed.

(** More bytes start no delimiter in front of one already there. *)
Lemma delim_at_None a s t i x :
  delim_at (String a s) = None -> find_from i s = Some x -> delim_at (String a s +:+ t) = None.
Proof.
  destruct s as [|b r]; [done|]. rewrite ?str_app_cons; cbn [delim_at]. destruct (bool_decide (a = nl) && bool_decide (b = nl)); [done|].
  destruct (bool_decide (a = cr) && bool_decide (b = nl)) eqn:Hab; [|done]. cbn [andb].
  destruct r as [|c [|d r]]; [done| |done]. intros _. rewrite find_from_cons. cbn [delim_at].
  rewrite andb_false_r. destruct (bool_decide (b = nl) && bool_decide (c = nl)) eqn:Hbc; [|done]. intros _.
  apply andb_true_iff in Hbc as [_ ->%bool_decide_eq_true]. by destruct t.
Qed.

(** A delimiter found stays where it is when more bytes arrive. *)
Lemma find_from_app s t : forall i x, find_from i s = Some x -> find_from i (s +:+ t) = Some x.
Proof.
  induction s as [|a s IH]; intros i x; [done|]. rewrite str_app_cons, !find_from_cons, <-!str_app_cons.
  destruct (delim_at (String a s)) as [n|] eqn:Hd; [by rewrite (delim_at_app _ _ _ Hd)|].
  intros H. rewrite (delim_at_None _ _ _ _ _ Hd H). by apply IH.
Qed.

Lemma find_from_Some s : forall i j n, find_from i s = Some (j, n) ->
  exists p d t, s = p +:+ d +:+ t /\ j = i + String.length p /\ n = String.length d /\ valid_utf8 d = true /\ 2 <= n.
Proof.
  induction s as [|a s IH]; intros i j n; [done|]. destruct s as [|b r]; [done|]. cbn [find_from].
  destruct (bool_decide (a = nl) && bool_decide (b = nl)) eqn:H1.
  { apply andb_true_iff in H1 as [->%bool_decide_eq_true ->%bool_decide_eq_true]. intros [= <- <-].
    exists EmptyString, (String nl (String nl EmptyString)), r. by rewrite Nat.add_0_r. }
  destruct (bool_decide (a = cr) && bool_decide (b = nl) && _) eqn:H2.
  { apply andb_true_iff in H2 as [[->%bool_decide_eq_true ->%bool_decide_eq_true]%andb_true_iff H2].
    destruct r as [|c [|d r]]; [done..|]. apply andb_true_iff in H2 as [->%bool_decide_eq_true ->%bool_decide_eq_true].
    intros [= <- <-]. exists EmptyString, (String cr (String nl (String cr (String nl EmptyString)))), r.
    rewrite Nat.add_0_r. split_and!; [done..|]. simpl. lia. }
  intros (p & d & t & Heq & -> & Hn)%IH. exists (String a p), d, t. rewrite Heq. split_and!; [done|simpl; lia|apply Hn..].
Qed.

(** The next complete event of the buffer and the bytes behind its delimiter. *)
Definition next_event (s : string) : option (string * string) :=
  match find_event_delimiter s with
  | Some (e, d) => Some (str_take e s, str_drop d (str_drop e s))
  | None => None
  end.

Lemma next_event_spec s ev rest : next_event s = Some (ev, rest) ->
  exists d, s = ev +:+ d +:+ rest /\ valid_utf8 d = true /\ 2 <= String.length d.
Proof.
  unfold next_event, find_event_delimiter. destruct (find_from 0 s) as [[j n]|] eqn:Hf; [|done].
  apply find_from_Some in Hf as (p & d & t & -> & -> & -> & Hd & Hn). intros [= <- <-]. exists d.
  simpl. rewrite str_take_app, str_drop_app, str_drop_app. done.
Qed.

Lemma next_event_app s t ev rest : next_event s = Some (ev, rest) -> next_event (s +:+ t) = Some (ev, rest +:+ t).
Proof.
  intros H. pose proof H as (d & Hs & _)%next_event_spec. unfold next_event, find_event_delimiter in *.
  destruct (find_from 0 s) as [[j n]|] eqn:Hf; [|done]. rewrite (find_from_app _ t _ _ Hf).
  apply find_from_Some in Hf as (p & d' & u & -> & -> & -> & _). simpl in *.
  injection H as <- <-. by rewrite !str_app_assoc, !str_take_app, !str_drop_app.
Qed.

Section DecoderLemmas.
Context (from_str : string -> option json).
Abbreviation parse := (parse_sse_event_bytes from_str).
Abbreviation drain := (drain from_str).
Abbreviation finish := (finish from_str).

Lemma drain_go_fuel fuel : forall fuel' s, String.length s < fuel -> String.length s < fuel' ->
  drain_go from_str fuel s = drain_go from_str fuel' s.
Proof.
  induction fuel as [|fuel IH]; intros [|fuel'] s H H'; [lia..|]. cbn [drain_go].
  destruct (find_event_delimiter s) as [[j n]|] eqn:Hf; [|done].
  destruct (parse _) as [v|e]; [|done]. rewrite (IH fuel'); [done|..].
  all: assert (Hne : next_event s = Some (str_take j s, str_drop n (str_drop j s))) by (unfold next_event; by rewrite Hf).
  all: apply next_event_spec in Hne as (d & Hs & _ & Hd).
  all: apply (f_equal String.length) in Hs; rewrite !str_app_length in Hs; lia.
Qed.

Lemma drain_unfold s :
  drain s = match next_event s with
            | None => (Ok [], s)
            | Some (ev, rest) =>
                match parse ev with
                | Err e => (Err e, rest)
                | Ok v => let '(res, remaining) := drain rest in (let? vs := res in Ok (option_list v ++ vs), remaining)
                end
            end.
Proof.
  unfold Sse.drain at 1. cbn [drain_go].
  destruct (find_event_delimiter s) as [[j n]|] eqn:Hf; unfold next_event; rewrite Hf; [|done].
  destruct (parse _) as [v|e]; [|done]. unfold Sse.drain.
  assert (Hne : next_event s = Some (str_take j s, str_drop n (str_drop j s))) by (unfold next_event; by rewrite Hf).
  apply next_event_spec in Hne as (d & Hs & _ & Hd). apply (f_equal String.length) in Hs. rewrite !str_app_length in Hs.
  rewrite (drain_go_fuel (String.length s) (S (String.length (str_drop n (str_drop j s))))) by lia. done.
Qed.

(** Induction along the events of a buffer. *)
Lemma events_ind (P : string -> Prop) :
  (forall s, next_event s = None -> P s) ->
  (forall s ev rest, next_event s = Some (ev, rest) -> P rest -> P s) -> forall s, P s.
Proof.
  intros H0 H1 s. induction s as [s IH] using (well_founded_induction (well_founded_ltof _ String.length)).
  destruct (next_event s) as [[ev rest]|] eqn:Hn; [|by apply H0]. apply (H1 s ev rest Hn), IH.
  apply next_event_spec in Hn as (d & -> & _ & Hd). unfold ltof. rewrite !str_app_length. lia.
Qed.

Lemma drain_app s t :
  drain (s +:+ t) = match drain s with
                    | (Err e, p) => (Err e, p +:+ t)
                    | (Ok vs, p) => let '(res, q) := drain (p +:+ t) in (let? ws := res in Ok (vs ++ ws), q)
                    end.
Proof.
  induction s as [s Hn|s ev rest Hn IH] using events_ind.
  - rewrite (drain_unfold s), Hn. by destruct (drain (s +:+ t)) as [[ws|e] q].
  - rewrite (drain_unfold (s +:+ t)), (next_event_app _ t _ _ Hn), (drain_unfold s), Hn.
    destruct (parse ev) as [v|e]; [|done]. rewrite IH. destruct (drain rest) as [[vs|e] p]; [|done]. simpl.
    destruct (drain (p +:+ t)) as [[ws|e] q]; simpl; by rewrite ?app_assoc.
Qed.

(** What is left holds no complete event. *)
Lemma drain_remaining s vs p : drain s = (Ok vs, p) -> drain p = (Ok [], p).
Proof.
  revert vs. induction s as [s Hn|s ev rest Hn IH] using events_ind; intros vs; rewrite drain_unfold, Hn.
  - intros [= <- <-]. by rewrite drain_unfold, Hn.
  - destruct (parse ev) as [v|e]; [|done]. destruct (drain rest) as [[ws|e] q] eqn:Hd; [|done].
    intros [= <- <-]. by eapply IH.
Qed.

Lemma drain_shrinks s res p : drain s = (res, p) -> String.length p <= String.length s.
Proof.
  revert res. induction s as [s Hn|s ev rest Hn IH] using events_ind; intros res; rewrite drain_unfold, Hn.
  - by intros [= _ <-].
  - apply next_event_spec in Hn as (d & -> & _ & _). rewrite !str_app_length.
    destruct (parse ev); [|intros [= _ <-]; lia]. destruct (drain rest) as [r q]. intros [= _ <-].
    specialize (IH _ eq_refl). lia.
Qed.

Lemma finish_app s t vs p : drain s = (Ok vs, p) -> finish (s +:+ t) = (let? ws := finish (p +:+ t) in Ok (vs ++ ws)).
Proof.
  intros Hd. unfold Sse.finish. rewrite drain_app, Hd. destruct (drain (p +:+ t)) as [[ws|e] q]; [|done]. simpl.
  destruct (is_empty_str q); [done|]. destruct (parse q) as [v|e]; simpl; by rewrite ?app_assoc.
Qed.

Definition str_concat (chunks : list string) : string := foldr (fun c rest => c +:+ rest) EmptyString chunks.

Lemma decode_chunks_concat chunks : forall p,
  drain p = (Ok [], p) -> decode_chunks from_str p chunks = finish (p +:+ str_concat chunks).
Proof.
  induction chunks as [|c chunks IH]; intros p Hp; cbn [decode_chunks str_concat foldr]; [by rewrite str_app_nil_r|].
  fold (str_concat chunks). unfold feed. destruct (drain (p +:+ c)) as [[vs|e] q] eqn:Hd.
  - rewrite (IH q) by (by eapply drain_remaining). rewrite <-str_app_assoc, (finish_app _ _ _ _ Hd). done.
  - unfold Sse.finish. rewrite <-str_app_assoc, drain_app, Hd. done.
Qed.
End DecoderLemmas.

(** C40: How a body is cut into chunks does not matter: feeding the chunks one
    after the other and finishing gives the values, or the error, of the whole
    body at once; and a decoder between two chunks holds no complete event
    back. *)
Theorem sse_chunking_independent from_str chunks :
  decode_chunks from_str EmptyString chunks = finish from_str (str_concat chunks) /\
  forall pending c vs pending', feed from_str pending c = (Ok vs, pending') -> find_event_delimiter pending' = None.
Proof.
  split.
  - rewrite decode_chunks_concat; [done|]. by rewrite drain_unfold.
  - intros p c vs p' H. apply drain_remaining in H. destruct (find_event_delimiter p') as [[j n]|] eqn:Hf; [|done].
    assert (Hn : next_event p' = Some (str_take j p', str_drop n (str_drop j p'))) by (unfold next_event; by rewrite Hf).
    rewrite drain_unfold, Hn in H. destruct (parse_sse_event_bytes _ _) as [v|]; [|done].
    destruct (drain _ _) as [[ws|e] q] eqn:Hq; [|done]. apply next_event_spec in Hn as (d & Hp & _ & Hd).
    assert (Hle : String.length q <= String.length (str_drop n (str_drop j p'))) by (by apply drain_shrinks in Hq).
    injection H as _ ->. apply (f_equal String.length) in Hp. rewrite !str_app_length in Hp. lia.
Qed.

(** ** The two readers of a forwarded response *)

Section Forward.
Context (from_str : string -> option json).
Abbreviation stream := (forward_stream from_str (fun _ => true)).

Lemma send_events_open events : forall sent, send_events (fun _ => true) sent events = (sent ++ events, true).
Proof. induction events as [|v events IH]; intros sent; cbn [send_events]; [by rewrite app_nil_r|]. by rewrite IH, <-app_assoc. Qed.

Lemma stream_chunk p total sent c rest :
  (0 <= total)%Z -> (total + Z.of_nat (String.length c) <= MAX_RESPONSE_BYTES)%Z ->
  stream p total sent (Chunk c :: rest) =
  match feed from_str p c with
  | (Ok vs, q) => stream q (total + Z.of_nat (String.length c))%Z (sent ++ vs) rest
  | (Err _, _) => (sent, "parse_error"%string)
  end.
Proof.
  intros H0 Hm. cbn [forward_stream]. rewrite Z.min_r by (unfold usize_max, u64_max, MAX_RESPONSE_BYTES in *; lia).
  rewrite (proj2 (Z.ltb_ge _ _)) by done. destruct (feed from_str p c) as [[vs|e] q]; [|done]. by rewrite send_events_open.
Qed.

Lemma stream_spec resp : forall p total sent out,
  drain from_str p = (Ok [], p) -> (0 <= total <= MAX_RESPONSE_BYTES)%Z ->
  stream p total sent resp = (out, "success"%string) <->
  ~ (ReadFailed ∈ resp) /\ (total + Z.of_nat (String.length (body resp)) <= MAX_RESPONSE_BYTES)%Z /\
  exists vs, finish from_str (p +:+ body resp) = Ok vs /\ out = sent ++ vs.
Proof.
  induction resp as [|[c|] resp IH]; intros p total sent out Hp Ht.
  - cbn [forward_stream body foldr]. rewrite str_app_nil_r. simpl. destruct (finish from_str p) as [vs|e].
    + rewrite send_events_open. simpl. split.
      * intros [= <-]. split_and!; [by intros ?%elem_of_nil|lia|by exists vs].
      * by intros (_ & _ & ws & [= <-] & ->).
    + split; [done|]. by intros (_ & _ & ws & ? & _).
  - simpl body. rewrite str_app_length, Nat2Z.inj_add, elem_of_cons, <-str_app_assoc.
    destruct (Z.le_gt_cases (total + Z.of_nat (String.length c)) MAX_RESPONSE_BYTES) as [Hle|Hgt].
    + rewrite stream_chunk by lia. unfold feed. destruct (drain from_str (p +:+ c)) as [[vs|e] q] eqn:Hd.
      * rewrite IH by (lia || by eapply drain_remaining). rewrite (finish_app _ _ _ _ _ Hd).
        destruct (finish from_str (q +:+ body resp)) as [ws|e]; simpl.
        -- split; intros (Hn & Hl & us & Hus & ->); (split_and!; [intuition congruence|lia|]).
           ++ injection Hus as <-. eexists. split; [done|]. by rewrite app_assoc.
           ++ injection Hus as <-. eexists. split; [done|]. by rewrite app_assoc.
        -- split; intros (_ & _ & us & ? & _); done.
      * split; [done|]. intros (_ & _ & us & Hus & _). unfold finish in Hus. rewrite drain_app, Hd in Hus. done.
    + cbn [forward_stream]. rewrite (proj2 (Z.ltb_lt _ _)) by (unfold usize_max, u64_max, MAX_RESPONSE_BYTES in *; lia).
      split; [done|]. intros (_ & Hl & _). lia.
  - split; [done|]. intros (Hn & _). exfalso. apply Hn. constructor.
Qed.

Lemma parse_utf8 ev v : parse_sse_event_bytes from_str ev = Ok v -> valid_utf8 ev = true.
Proof. unfold parse_sse_event_bytes. by destruct (valid_utf8 ev). Qed.

Lemma drain_utf8 s vs p : drain from_str s = (Ok vs, p) -> valid_utf8 p = true -> valid_utf8 s = true.
Proof.
  revert vs. induction s as [s Hn|s ev rest Hn IH] using events_ind; intros vs; rewrite drain_unfold, Hn.
  - by intros [= <- <-].
  - destruct (parse_sse_event_bytes from_str ev) as [v|e] eqn:Hp; [|done].
    destruct (drain from_str rest) as [[ws|e] q]; [|done]. intros [= <- <-] Hq.
    apply next_event_spec in Hn as (d & -> & Hd & _). apply parse_utf8 in Hp.
    apply valid_utf8_app; [done|]. apply valid_utf8_app; [done|]. by eapply IH.
Qed.

Lemma finish_utf8 s vs : finish from_str s = Ok vs -> valid_utf8 s = true.
Proof.
  unfold finish. destruct (drain from_str s) as [[ws|e] p] eqn:Hd; [|done]. simpl.
  destruct (is_empty_str p) eqn:He; [destruct p; [|done]|destruct (parse_sse_event_bytes from_str p) eqn:Hp; [|done]];
    intros _; eapply drain_utf8; [done..|done|]. by eapply parse_utf8.
Qed.

Lemma parse_not_missing ev : parse_sse_event_bytes from_str ev <> Err MissingDataLines.
Proof.
  unfold parse_sse_event_bytes. destruct (valid_utf8 ev); [|done]. destruct (parse_sse_event_payload ev) as [p|]; [|done].
  by destruct (from_str p).
Qed.

Lemma drain_not_missing s : (drain from_str s).1 <> Err MissingDataLines.
Proof.
  induction s as [s Hn|s ev rest Hn IH] using events_ind; rewrite drain_unfold, Hn; [done|].
  destruct (parse_sse_event_bytes from_str ev) as [v|e] eqn:Hp.
  - destruct (drain from_str rest) as [[ws|e] q]; [done|]. done.
  - intros [= ->]. by apply parse_not_missing in Hp.
Qed.

Lemma finish_not_missing s : finish from_str s <> Err MissingDataLines.
Proof.
  unfold finish. pose proof (drain_not_missing s) as Hd. destruct (drain from_str s) as [[ws|e] p]; [|done]. simpl.
  destruct (is_empty_str p); [done|]. destruct (parse_sse_event_bytes from_str p) as [v|e] eqn:Hp; [done|].
  intros [= ->]. by apply parse_not_missing in Hp.
Qed.

Lemma body_app r1 r2 : body (r1 ++ r2) = body r1 +:+ body r2.
Proof. induction r1 as [|x r1 IH]; [done|]. simpl. by rewrite IH, str_app_assoc. Qed.

Lemma stream_failed resp : forall p total sent vs q,
  (0 <= total)%Z -> ~ (ReadFailed ∈ resp) -> (total + Z.of_nat (String.length (body resp)) <= MAX_RESPONSE_BYTES)%Z ->
  drain from_str p = (Ok [], p) -> drain from_str (p +:+ body resp) = (Ok vs, q) ->
  stream p total sent (resp ++ [ReadFailed]) = (sent ++ vs, "transport_error"%string).
Proof.
  induction resp as [|[c|] resp IH]; intros p total sent vs q Ht Hn Hm Hp Hd.
  - simpl in *. rewrite str_app_nil_r, Hp in Hd. injection Hd as <- <-. by rewrite app_nil_r.
  - rewrite elem_of_cons in Hn. simpl body in *. rewrite str_app_length, Nat2Z.inj_add in Hm. rewrite <-str_app_assoc in Hd.
    rewrite <-app_comm_cons, stream_chunk by lia. unfold feed. rewrite drain_app in Hd.
    destruct (drain from_str (p +:+ c)) as [[us|e] q1] eqn:Hd1; [|done].
    destruct (drain from_str (q1 +:+ body resp)) as [[ws|e] q2] eqn:Hd2; [|done]. injection Hd as <- <-.
    rewrite (IH q1 _ _ ws q2); [by rewrite app_assoc|lia|tauto|lia|by eapply drain_remaining|done].
  - exfalso. apply Hn. constructor.
Qed.

(** The streaming reader and the buffering one agree on every response:
    with a consumer that stays, the stream is closed as a success exactly when
    the request would return its values, and these are the values sent, except
    that a bare JSON body, which the request refuses, is an empty stream. *)
Theorem stream_agrees_with_request resp out :
  stream EmptyString 0%Z [] resp = (out, "success"%string) <->
  forward_body from_str resp = Ok out \/
  (out = [] /\ forward_body from_str resp = Err (SseFailed MissingDataLines)).
Proof.
  assert (Hcap : (0 <= MAX_RESPONSE_BYTES < usize_max)%Z) by (vm_compute; split; congruence).
  rewrite stream_spec by (by rewrite drain_unfold || lia). change (EmptyString +:+ body resp) with (body resp). simpl.
  pose proof (decode_chunks_concat from_str [body resp] EmptyString ltac:(by rewrite drain_unfold)) as Hdec.
  cbn [str_concat foldr] in Hdec. rewrite str_app_nil_r, str_app_nil_l in Hdec.
  unfold forward_body. destruct (read_body_capped resp MAX_RESPONSE_BYTES) as [b|e] eqn:Hb; simpl.
  - apply read_body_capped_spec in Hb as (Hn & -> & Hl); [|lia]. unfold parse_a2a_sse_json_rpc_chunks. rewrite Hdec.
    destruct (finish from_str (body resp)) as [vs|e] eqn:Hf; simpl.
    + rewrite (finish_utf8 _ _ Hf). transitivity (out = vs).
      { split; [intros (_ & _ & ws & He & ->); congruence|]. intros ->. split_and!; [done|lia|by exists vs]. }
      destruct vs as [|v vs]; simpl; [destruct (_ && _); simpl|]; split.
      all: try (intros ->; by left); try (intros ->; by right); by intros [[= <-]|[-> ?]].
    + split; [by intros (_ & _ & ws & ? & _)|]. destruct (valid_utf8 (body resp)); simpl; intros [?|[_ He]]; try done.
      injection He as ->. by apply finish_not_missing in Hf.
  - split; [|by intros [?|[_ ?]]]. intros (Hn & Hl & _). exfalso.
    assert (read_body_capped resp MAX_RESPONSE_BYTES = Ok (body resp)) as Hok by (apply read_body_capped_spec; [lia|done]).
    congruence.
Qed.
End Forward.

(** ** Frames *)

(** What the compact printer of [serde_json] writes: one line of UTF-8 that
    neither starts nor ends with a space. *)
Record wire_text (t : string) : Prop := {
  wt_nl : contains_char nl t = false;
  wt_cr : contains_char cr t = false;
  wt_utf8 : valid_utf8 t = true;
  wt_first : exists a r, t = String a r /\ graphic a = true;
  wt_last : exists r b, t = r +:+ String b EmptyString /\ graphic b = true
}.

Lemma find_no_delim p t : forall i,
  contains_char nl p = false -> contains_char cr p = false ->
  find_from i (p +:+ nl_str +:+ nl_str +:+ t) = Some (i + String.length p, 2).
Proof.
  induction p as [|a p IH]; intros i Hn Hc; [by rewrite str_app_nil_l, Nat.add_0_r|].
  rewrite contains_char_cons in Hn, Hc. apply orb_false_iff in Hn as [Ha Hn]. apply orb_false_iff in Hc as [Ha' Hc].
  rewrite str_app_cons, find_from_cons.
  assert (delim_at (String a (p +:+ nl_str +:+ nl_str +:+ t)) = None) as ->.
  { unfold delim_at. rewrite Ha, Ha'. by destruct (p +:+ _). }
  rewrite IH by done. simpl. do 2 f_equal. lia.
Qed.

Lemma replace_crlf_id s : contains_char cr s = false -> replace_crlf s = s.
Proof.
  induction s as [|a s IH]; intros H; [done|]. rewrite contains_char_cons in H. apply orb_false_iff in H as [Ha H].
  destruct s as [|b r]; [done|]. cbn [replace_crlf] in *. rewrite Ha. cbn [andb]. by rewrite IH.
Qed.


Lemma frame_payload t : wire_text t -> parse_sse_event_payload ("data: " +:+ t) = Some t.
Proof.
  intros [Hn Hc _ (a & r & Hf & Ha) (r' & b & Hl & Hb)]. unfold parse_sse_event_payload.
  assert (Hnl : contains_char nl ("data: " +:+ t) = false) by (rewrite !str_app_cons, !contains_char_cons; done).
  assert (Hcr : contains_char cr ("data: " +:+ t) = false) by (rewrite !str_app_cons, !contains_char_cons; done).
  assert (Hlast : "data: " +:+ t = ("data: " +:+ r') +:+ String b EmptyString) by (by rewrite str_app_assoc, <-Hl).
  rewrite replace_crlf_id by done.
  assert (trim ("data: " +:+ t) = "data: " +:+ t) as ->.
  { unfold trim. change ("data: " +:+ t) with (String "d" ("ata: " +:+ t)). rewrite trim_start_first by done.
    change (String "d" ("ata: " +:+ t)) with ("data: " +:+ t). rewrite Hlast. by apply trim_end_last. }
  change (is_empty_str ("data: " +:+ t)) with false. cbv iota. unfold str_lines. rewrite split_char_none by done.
  change (lines_go ["data: " +:+ t]) with ["data: " +:+ t]. cbn [omap list_omap].
  assert (data_line ("data: " +:+ t) = Some t) as ->; [|done].
  unfold data_line. rewrite Hlast, trim_end_matches_last, <-Hlast by (intros ->; done).
  change ("data: " +:+ t) with ("data:" +:+ String " " t). rewrite strip_prefix_app.
  cbn [trim_start]. change (ws1 " ") with true. cbv iota. rewrite Hf. by rewrite trim_start_first.
Qed.

Lemma next_event_frame p t :
  contains_char nl p = false -> contains_char cr p = false ->
  next_event ((p +:+ nl_str +:+ nl_str) +:+ t) = Some (p, t).
Proof.
  intros Hn Hc. unfold next_event, find_event_delimiter. rewrite !str_app_assoc, find_no_delim by done.
  rewrite Nat.add_0_l, str_take_app, str_drop_app. done.
Qed.

Section RoundTrip.
Context (from_str : string -> option json) (to_string : json -> string).

(** The printer and the parser fit together on this value. *)
Definition prints (v : json) : Prop := from_str (to_string v) = Some v /\ wire_text (to_string v).

Lemma frame_parses v : prints v -> parse_sse_event_bytes from_str ("data: " +:+ to_string v) = Ok (Some v).
Proof.
  intros [Hv Hw]. unfold parse_sse_event_bytes. rewrite valid_utf8_app by (done || apply Hw).
  rewrite frame_payload by done. by rewrite Hv.
Qed.

Lemma drain_body frames :
  Forall prints (omap id frames) -> drain from_str (sse_body to_string frames) = (Ok (omap id frames), EmptyString).
Proof.
  induction frames as [|[v|] frames IH]; intros H; [by rewrite drain_unfold| |].
  - cbn [omap list_omap id] in *. apply list.Forall_cons in H as [Hv H]. pose proof Hv as [_ Hw].
    change (sse_body to_string (Some v :: frames)) with (sse_frame (to_string v) +:+ sse_body to_string frames).
    unfold sse_frame. rewrite <-(str_app_assoc "data: "), drain_unfold, next_event_frame.
    + rewrite frame_parses by done. by rewrite IH.
    + change (contains_char nl (to_string v) = false). apply Hw.
    + change (contains_char cr (to_string v) = false). apply Hw.
  - change (sse_body to_string (None :: frames)) with (keep_alive_frame +:+ sse_body to_string frames).
    unfold keep_alive_frame. rewrite drain_unfold, next_event_frame by done.
    change (parse_sse_event_bytes from_str ":") with (Ok (E := A2aSseParseError) (@None json)). cbv iota.
    rewrite IH by done. done.
Qed.

(** Values written by the API as server-sent events, with keep-alives
    anywhere between them, reach the other node: however the body is cut into
    chunks, the stream carries exactly these values and the buffered request
    returns them. *)
Theorem forwarded_stream_round_trip frames resp :
  Forall prints (omap id frames) -> ~ (ReadFailed ∈ resp) -> body resp = sse_body to_string frames ->
  (Z.of_nat (String.length (body resp)) <= MAX_RESPONSE_BYTES)%Z ->
  forward_stream from_str (fun _ => true) EmptyString 0 [] resp = (omap id frames, "success"%string) /\
  (omap id frames <> [] -> forward_body from_str resp = Ok (omap id frames)).
Proof.
  intros Hp Hn Hb Hm. pose proof (drain_body frames Hp) as Hd.
  assert (Hf : finish from_str (body resp) = Ok (omap id frames)) by (unfold finish; rewrite Hb, Hd; done).
  split.
  - apply stream_spec; [by rewrite drain_unfold|unfold MAX_RESPONSE_BYTES in *; lia|]. split_and!; [done|lia|].
    exists (omap id frames). by rewrite str_app_nil_l.
  - intros Hne. unfold forward_body.
    assert (read_body_capped resp MAX_RESPONSE_BYTES = Ok (body resp)) as ->.
    { apply read_body_capped_spec; [vm_compute; split; congruence|done]. }
    simpl. rewrite (finish_utf8 _ _ _ Hf). unfold parse_a2a_sse_json_rpc_chunks.
    rewrite decode_chunks_concat by (by rewrite drain_unfold). cbn [str_concat foldr].
    rewrite str_app_nil_r, str_app_nil_l, Hf. simpl. by destruct (omap id frames).
Qed.

(** A read error in the middle of a stream is not told to the consumer: the
    stream ends like a complete one, where the buffered request fails. *)
Lemma stream_truncation_silent frames resp :
  Forall prints (omap id frames) -> ~ (ReadFailed ∈ resp) -> body resp = sse_body to_string frames ->
  (Z.of_nat (String.length (body resp)) <= MAX_RESPONSE_BYTES)%Z ->
  (forward_stream from_str (fun _ => true) EmptyString 0 [] (resp ++ [ReadFailed])).1 =
  (forward_stream from_str (fun _ => true) EmptyString 0 [] resp).1 /\
  is_ok (forward_body from_str (resp ++ [ReadFailed])) = false.
Proof.
  intros Hp Hn Hb Hm. pose proof (drain_body frames Hp) as Hd. split.
  - rewrite (stream_failed from_str resp EmptyString 0 [] (omap id frames) EmptyString);
      [|lia|done|lia|by rewrite drain_unfold|by rewrite str_app_nil_l, Hb].
    assert (Hs : forward_stream from_str (fun _ => true) EmptyString 0 [] resp = (omap id frames, "success"%string)); [|by rewrite Hs].
    apply stream_spec; [by rewrite drain_unfold|unfold MAX_RESPONSE_BYTES in *; lia|]. split_and!; [done|lia|].
    exists (omap id frames). rewrite str_app_nil_l, Hb. unfold finish. by rewrite Hd.
  - unfold forward_body. destruct (read_body_capped (resp ++ [ReadFailed]) MAX_RESPONSE_BYTES) as [b|] eqn:Hr; [|done].
    apply read_body_capped_spec in Hr as (Hr & _); [|vm_compute; split; congruence]. exfalso. apply Hr, elem_of_app. right. by left.
Qed.
End RoundTrip.

Definition null_parser (s : string) : option json := if String.eqb s "null" then Some JNull else None.

Lemma forwarded_stream_round_trip_witness :
  let resp := [Chunk "data: nu"; Chunk ("ll" +:+ nl_str); Chunk (nl_str +:+ ":" +:+ nl_str); Chunk nl_str] in
  forward_stream null_parser (fun _ => true) EmptyString 0 [] resp = ([JNull], "success"%string) /\
  forward_body null_parser resp = Ok [JNull].
Proof.
  intros resp.
  destruct (forwarded_stream_round_trip null_parser (fun _ => "null") [Some JNull; None] resp) as [H1 H2].
  - repeat constructor; try done.
    + exists "n"%char, "ull". done.
    + exists "nul", "l"%char. done.
  - unfold resp. by rewrite !elem_of_cons, elem_of_nil; intros [?|[?|[?|[?|?]]]].
  - reflexivity.
  - vm_compute. discriminate.
  - split; [exact H1|]. by apply H2.
Defined.
