(* ===== verification/Errors.v ===== *)
(** * Errors and their classification

    [baml-rt-core/src/error.rs] (the error type, its dispositions and codes),
    [baml-rt-tools/src/tool_error_classify.rs] (host retry and per-session
    classification) and the failures of [baml-rt-tools/src/tool_fsm.rs].
    Sources and free-text payloads of errors are strings; the text [Display]
    gives an error is an argument of the definitions that show it. *)

From stdpp Require Import base list strings.
From Stdlib Require Import ZArith.
From S2P Require Import Prelude.

Inductive ErrorDisposition := HostRetriable | LlmCorrectable | InformAndContinue | Fatal.
Inductive Retryability := Retryable | Permanent.

#[global] Instance ErrorDisposition_eq_dec : EqDecision ErrorDisposition.
Proof. solve_decision. Defined.

Record ClassifiedToolError := mkClassified {
  code : string;
  disposition : ErrorDisposition;
  message : string;
  hint : option string;
  retry_after_ms : option Z
}.

Definition host_retryability (c : ClassifiedToolError) : Retryability :=
  match disposition c with HostRetriable => Retryable | _ => Permanent end.

Inductive SessionLifecycleError :=
| ToolSessionNotFound (session_id : string)
| ToolSessionClosed (session_id : string)
| StreamSessionNotFound (stream_session_id : Z)
| StreamSessionClosed (stream_session_id : Z)
| InvocationContextMissing
| InvocationCancelled.

Definition lifecycle_code (e : SessionLifecycleError) : string :=
  match e with
  | ToolSessionNotFound _ => "tool_session_not_found"
  | ToolSessionClosed _ => "tool_session_closed"
  | StreamSessionNotFound _ => "stream_session_not_found"
  | StreamSessionClosed _ => "stream_session_closed"
  | InvocationContextMissing => "invocation_context_missing"
  | InvocationCancelled => "invocation_cancelled"
  end.

(** Machine keys of the plan mistakes a model can correct. *)
Inductive StepPlanViolationCode :=
| MissingArchiveRefPageRead | MissingArchiveRefSearchRead | MissingSearchReadGrep | InvalidSearchReadGrep
| PageReadGrepForbidden | LegacyReadOpRemoved | ToolSessionStepMissingOp | ToolSessionPlanStepNotObject
| SendMissingInput | SendInputNull | UnknownToolSessionOp | InvalidPlanInputJson.

#[global] Instance StepPlanViolationCode_eq_dec : EqDecision StepPlanViolationCode.
Proof. solve_decision. Defined.

Definition violation_as_str (c : StepPlanViolationCode) : string :=
  match c with
  | MissingArchiveRefPageRead => "missing_archive_ref_page_read"
  | MissingArchiveRefSearchRead => "missing_archive_ref_search_read"
  | MissingSearchReadGrep => "missing_search_read_grep"
  | InvalidSearchReadGrep => "invalid_search_read_grep"
  | PageReadGrepForbidden => "page_read_grep_forbidden"
  | LegacyReadOpRemoved => "legacy_read_op_removed"
  | ToolSessionStepMissingOp => "tool_session_step_missing_op"
  | ToolSessionPlanStepNotObject => "tool_session_plan_step_not_object"
  | SendMissingInput => "send_missing_input"
  | SendInputNull => "send_input_null"
  | UnknownToolSessionOp => "unknown_tool_session_op"
  | InvalidPlanInputJson => "invalid_plan_input_json"
  end.

Record StepPlanRecovery := mkRecovery {
  recovery_code : StepPlanViolationCode;
  recovery_disposition : ErrorDisposition;
  recovery_mistake : string;
  recovery_invariant : string;
  recovery_fix_steps : list string
}.

Inductive BamlRtError :=
| BamlRuntime (m : string)
| ProvenanceContextRead (source : string)
| QuickJs (m : string)
| QuickJsWithSource (context source : string)
| TypeConversion (m : string)
| FunctionNotFound (m : string)
| AgentNotFound (m : string)
| AgentDraining (m : string)
| InvalidArgument (m : string)
| StepPlanCorrectable (r : StepPlanRecovery)
| Conflict (m : string)
| InvalidArgumentWithSource (m source : string)
| Io (source : string)
| JsonError (source : string)
| JsonWithRaw (source : string) (raw_length : Z) (raw_prefix : string)
| InvalidOpenInput (source : string)
| ToolExecution (m : string)
| GateAuthorizationRequired (prompt : string)
| ToolClassified (c : ClassifiedToolError)
| ToolRegistration (m : string)
| SchemaLoading (m : string)
| Configuration (m : string)
| Initialization (m : string)
| SessionLifecycle (e : SessionLifecycleError)
| ExecutionFailed (source : string)
| ParsedResultFailed (source : string)
| RequestBuildFailed (source : string)
| ClientRegistryBuild (source : string)
| RuntimeLoadFailed (source : string)
| FunctionStreamCreation (source : string)
| ClusterHeartbeat (kind m : string).

Definition baml_error_disposition (err : BamlRtError) : ErrorDisposition :=
  match err with
  | InvalidArgument _ | InvalidArgumentWithSource _ _ | InvalidOpenInput _ | JsonError _ | JsonWithRaw _ _ _
  | FunctionNotFound _ | TypeConversion _ => LlmCorrectable
  | StepPlanCorrectable r => recovery_disposition r
  | AgentNotFound _ => InformAndContinue
  | AgentDraining _ => HostRetriable
  | Conflict _ => HostRetriable
  | SessionLifecycle (ToolSessionNotFound _ | ToolSessionClosed _) => InformAndContinue
  | SessionLifecycle (StreamSessionNotFound _ | StreamSessionClosed _ | InvocationContextMissing) => InformAndContinue
  | SessionLifecycle InvocationCancelled => HostRetriable
  | ToolClassified c => disposition c
  | GateAuthorizationRequired _ => InformAndContinue
  | ToolExecution _ => InformAndContinue
  | ExecutionFailed _ | ParsedResultFailed _ => InformAndContinue
  | Io _ | QuickJs _ | QuickJsWithSource _ _ | ProvenanceContextRead _ | ClusterHeartbeat _ _ => HostRetriable
  | RequestBuildFailed _ => LlmCorrectable
  | ClientRegistryBuild _ | RuntimeLoadFailed _ | FunctionStreamCreation _ | BamlRuntime _ | Initialization _
  | Configuration _ | SchemaLoading _ | ToolRegistration _ => Fatal
  end.

Definition retryability_for_a2a (err : BamlRtError) : Retryability :=
  match baml_error_disposition err with
  | HostRetriable => Retryable
  | LlmCorrectable | InformAndContinue | Fatal => Permanent
  end.

Definition code_for_classified (err : BamlRtError) (d : ErrorDisposition) : string :=
  match err with
  | InvalidArgument _ | InvalidArgumentWithSource _ _ | InvalidOpenInput _ | JsonError _ | JsonWithRaw _ _ _
  | FunctionNotFound _ | TypeConversion _ => "invalid_argument"
  | StepPlanCorrectable r => violation_as_str (recovery_code r)
  | ToolExecution _ => match d with HostRetriable => "transient_tool_execution" | _ => "tool_execution" end
  | ExecutionFailed _ | ParsedResultFailed _ =>
      match d with HostRetriable => "transient_execution" | _ => "execution_failed" end
  | Io _ => "io_error"
  | QuickJs _ | QuickJsWithSource _ _ => "quickjs"
  | SessionLifecycle _ => "session_lifecycle"
  | Conflict _ => "conflict"
  | _ => "runtime_error"
  end.

Section Classify.
(** [Display for BamlRtError] *)
Context (show : BamlRtError -> string).

(** [ClassifiedToolError::from_baml_error] *)
Definition from_baml_error (err : BamlRtError) : ClassifiedToolError :=
  match err with
  | ToolClassified c => c
  | _ => let d := baml_error_disposition err in mkClassified (code_for_classified err d) d (show err) None None
  end.

Definition should_host_retry (c : ClassifiedToolError) : bool := bool_decide (disposition c = HostRetriable).
Definition should_host_retry_baml_error (err : BamlRtError) : bool :=
  bool_decide (baml_error_disposition err = HostRetriable).

Definition classify_for_session (classifier : option (BamlRtError -> ClassifiedToolError)) (err : BamlRtError)
    : ClassifiedToolError :=
  match err with
  | ToolClassified c => c
  | _ => match classifier with Some f => f err | None => from_baml_error err end
  end.

(** ** Tool failures *)

Inductive ToolFailureKind := InvalidInput | FExecutionFailed | NotAuthorized | RateLimited | Cancelled | Unknown.

Record ToolFailure := mkFailure {
  f_kind : ToolFailureKind;
  f_message : string;
  f_retryability : Retryability;
  f_classified : ClassifiedToolError
}.

Definition tool_failure_kind_from (err : BamlRtError) : ToolFailureKind :=
  match err with
  | InvalidArgument _ | InvalidArgumentWithSource _ _ => InvalidInput
  | QuickJs _ | QuickJsWithSource _ _ => FExecutionFailed
  | ToolExecution _ => FExecutionFailed
  | ToolClassified c =>
      match disposition c with
      | HostRetriable => RateLimited
      | LlmCorrectable => InvalidInput
      | InformAndContinue | Fatal => FExecutionFailed
      end
  | _ => Unknown
  end.

Definition from_classified (c : ClassifiedToolError) (err : BamlRtError) : ToolFailure :=
  mkFailure (tool_failure_kind_from err) (message c) (host_retryability c) c.

Definition from_error (err : BamlRtError) : ToolFailure := from_classified (from_baml_error err) err.

Definition from_error_in_session (classifier : option (BamlRtError -> ClassifiedToolError)) (err : BamlRtError)
    : ToolFailure := from_classified (classify_for_session classifier err) err.

Definition invalid_input (m : string) : ToolFailure :=
  let c := mkClassified "invalid_input" LlmCorrectable m None None in
  mkFailure InvalidInput m (host_retryability c) c.

Definition execution_failed (m : string) : ToolFailure :=
  let c := mkClassified "execution_failed" Fatal m None None in
  mkFailure FExecutionFailed m (host_retryability c) c.

Definition tool_failure_to_baml_tool_execution_error (f : ToolFailure) : BamlRtError := ToolClassified (f_classified f).

Lemma from_baml_error_disposition err : disposition (from_baml_error err) = baml_error_disposition err.
Proof. by destruct err. Qed.

(** Every failure built from an error carries the retry hint of its own
    classification. *)
Lemma from_classified_retryability c err : f_retryability (from_classified c err) = host_retryability c.
Proof. done. Qed.

(** A classification made once survives the error boundary: turning an
    error into a tool failure in a session, back into a runtime error and into
    a tool failure of any other session keeps code, disposition, message and
    retry hint, whatever classifiers the sessions install; and where no
    classifier intervenes the A2A retry hint and the host's retry decision are
    those of the original error. *)
Theorem classification_survives_boundary cl1 cl2 err :
  let f := from_error_in_session cl1 err in
  let err' := tool_failure_to_baml_tool_execution_error f in
  f_classified (from_error_in_session cl2 err') = f_classified f /\
  f_message (from_error_in_session cl2 err') = f_message f /\
  f_retryability (from_error_in_session cl2 err') = f_retryability f /\
  retryability_for_a2a err' = f_retryability f /\
  should_host_retry_baml_error err' = should_host_retry (f_classified f) /\
  (cl1 = None -> retryability_for_a2a err' = retryability_for_a2a err /\
                 should_host_retry_baml_error err' = should_host_retry_baml_error err).
Proof.
  intros f err'. split_and!; [done..|].
  intros ->. unfold err', f, tool_failure_to_baml_tool_execution_error, from_error_in_session. simpl.
  assert (Hc : classify_for_session None err = from_baml_error err) by (by destruct err). rewrite Hc.
  unfold retryability_for_a2a, should_host_retry_baml_error. simpl. by rewrite !from_baml_error_disposition.
Qed.
End Classify.
