(* ===== verification/ToolNames.v ===== *)
(** * Tool names and generated function names

    [ToolName] and its slug ([baml-rt-tools/src/tools.rs]), the step shapes of
    [baml-rt-tools/src/phase_step_json.rs] and the names of the generated phase
    functions ([BamlFunctionId] of [baml-rt-core/src/function_id.rs]).  A tool
    name is checked when it is parsed, so every value of the type is valid; a
    function name is split into the prompt and the phase of the step executor. *)

From stdpp Require Import base list strings.
From Stdlib Require Import ZArith Lia Ascii.
From S2P Require Import Prelude RustStr Json Errors.

(** ** Tool names *)

Definition bundle_char (c : ascii) : bool :=
  is_ascii_lower c || is_ascii_digit c || bool_decide (c = "_"%char) || bool_decide (c = "-"%char).
Definition local_char (c : ascii) : bool :=
  is_ascii_alphanumeric c || bool_decide (c = "_"%char) || bool_decide (c = "-"%char).

Definition is_valid_bundle_identifier_component (s : string) : bool :=
  match s with
  | EmptyString => false
  | String c r => is_ascii_lower c && all_bytes bundle_char r
  end.

Definition is_valid_local_tool_identifier_component (s : string) : bool :=
  match s with
  | EmptyString => false
  | String c r => is_ascii_lower c && all_bytes local_char r
  end.

Definition bundle_name_new (name : string) : result string BamlRtError :=
  if is_valid_bundle_identifier_component name then Ok name
  else Err (InvalidArgument ("Bundle name '" +:+ name +:+
         "' must match ^[a-z][a-z0-9_-]*$ (ASCII lowercase letters, digits, '_' or '-')")).

Definition local_tool_name_new (name : string) : result string BamlRtError :=
  if is_valid_local_tool_identifier_component name then Ok name
  else Err (InvalidArgument ("Tool name '" +:+ name +:+
         "' must match ^[a-z][A-Za-z0-9_-]*$ (ASCII letters, digits, '_' or '-', starting with lowercase)")).

Record ToolName := mkToolName { tn_bundle : string; tn_local : string }.

#[global] Instance ToolName_eq_dec : EqDecision ToolName.
Proof. solve_decision. Defined.

Definition tool_name_parse (name : string) : result ToolName BamlRtError :=
  match split_char "/" name with
  | [p0; p1; p2] =>
      if bool_decide (p0 = "mcp") then
        let? bundle := bundle_name_new ("mcp_" +:+ p1) in
        let? local := local_tool_name_new p2 in
        Ok (mkToolName bundle local)
      else Err (InvalidArgument ("Tool name '" +:+ name +:+ "' must be formatted as interface/tool"))
  | [p0; p1] =>
      let? bundle := bundle_name_new p0 in
      let? local := local_tool_name_new p1 in
      Ok (mkToolName bundle local)
  | _ => Err (InvalidArgument ("Tool name '" +:+ name +:+ "' must be formatted as interface/tool"))
  end.

(** [Display]: the three-part form for imported tools. *)
Definition tool_name_display (t : ToolName) : string :=
  match strip_prefix "mcp_" (tn_bundle t) with
  | Some server => "mcp/" +:+ server +:+ "/" +:+ tn_local t
  | None => tn_bundle t +:+ "/" +:+ tn_local t
  end.

Definition normalize_slug_component (s : string) : string := replace_char "-" "_" s.

Definition slug (t : ToolName) : string :=
  normalize_slug_component (tn_bundle t) +:+ "_" +:+ normalize_slug_component (tn_local t).

(** ** Step shapes *)

Definition is_send_op (step_obj : list (string * json)) : bool :=
  match field "op" step_obj ≫= as_str with
  | Some s => eq_ignore_ascii_case s "send"
  | None => false
  end.

Definition unwrap_session_plan_step_shape_for_phase_output (v : json) : json :=
  match v with
  | JObj map =>
      if contains_key "op" map then JObj map
      else
        match field "step" map with
        | None => JObj map
        | Some step_val =>
            let map := map_swap_remove "step" map in
            match step_val with
            | JObj step_obj =>
                if negb (contains_key "op" step_obj) then JObj (map_insert "step" (JObj step_obj) map)
                else
                  match field "citations" map with
                  | Some cites =>
                      if is_send_op step_obj && negb (contains_key "citations" step_obj)
                      then JObj (map_insert "citations" cites step_obj)
                      else JObj step_obj
                  | None => JObj step_obj
                  end
            | _ => JObj (map_insert "step" step_val map)
            end
        end
  | _ => v
  end.

(** ** Function names *)

Inductive VariantPhase :=
| VEntry
| VActive (tool_slug : string)
| VSelect
| VAct (tool_slug : string)
| VConsume (tool_slug : string)
| VContinue (tool_slug : string).

Definition suffix (p : VariantPhase) : string :=
  match p with
  | VEntry => "__entry"
  | VActive tool_slug => "__active__" +:+ tool_slug
  | VSelect => "__select"
  | VAct tool_slug => "__act__" +:+ tool_slug
  | VConsume tool_slug => "__consume__" +:+ tool_slug
  | VContinue tool_slug => "__continue__" +:+ tool_slug
  end.

Record BamlFunctionId := mkFunctionId { fid_base : string; fid_phase : option VariantPhase }.

Definition fid_variant (base : string) (phase : VariantPhase) : BamlFunctionId := mkFunctionId base (Some phase).
Definition fid_of_base (name : string) : BamlFunctionId := mkFunctionId name None.

(** One attempt of [parse]: a suffix with a non-empty base, or a marker with a
    non-empty base and slug around its first occurrence. *)
Definition try_suffix (raw marker : string) (phase : VariantPhase) : option BamlFunctionId :=
  match strip_suffix marker raw with
  | Some base => if is_empty_str base then None else Some (fid_variant base phase)
  | None => None
  end.

Definition try_marker (raw marker : string) (phase : string -> VariantPhase) : option BamlFunctionId :=
  match split_once_str marker raw with
  | Some (base, slug) =>
      if is_empty_str base || is_empty_str slug then None else Some (fid_variant base (phase slug))
  | None => None
  end.

Definition or_else {A} (x : option A) (y : option A) : option A := match x with Some _ => x | None => y end.

Definition fid_parse (raw : string) : BamlFunctionId :=
  default (fid_of_base raw)
    (or_else (try_suffix raw "__entry" VEntry)
    (or_else (try_marker raw "__active__" VActive)
    (or_else (try_suffix raw "__select" VSelect)
    (or_else (try_marker raw "__act__" VAct)
    (or_else (try_marker raw "__consume__" VConsume)
             (try_marker raw "__continue__" VContinue)))))).

Definition full_name (id : BamlFunctionId) : string :=
  match fid_phase id with
  | None => fid_base id
  | Some phase => fid_base id +:+ suffix phase
  end.

(** ** Lemmas *)

Lemma lower_bundle_char c : is_ascii_lower c = true -> bundle_char c = true.
Proof. unfold bundle_char. by intros ->. Qed.

Lemma valid_bundle_bytes s : is_valid_bundle_identifier_component s = true -> all_bytes bundle_char s = true.
Proof. destruct s; simpl; [done|]. intros H. destr_bool. by rewrite lower_bundle_char. Qed.

Lemma valid_local_bytes s : is_valid_local_tool_identifier_component s = true -> all_bytes local_char s = true.
Proof.
  destruct s; simpl; [done|]. intros H. destr_bool. unfold local_char, is_ascii_alphanumeric. rewrite H, !orb_true_r. done.
Qed.

Lemma no_slash p s : (forall a, p a = true -> a <> "/"%char) -> all_bytes p s = true -> contains_char "/" s = false.
Proof.
  intros Hp Hs. unfold contains_char. apply any_byte_all. eapply all_bytes_impl; [|exact Hs].
  intros a Ha%Hp. by rewrite bool_decide_false.
Qed.

Lemma valid_bundle_no_slash s : is_valid_bundle_identifier_component s = true -> contains_char "/" s = false.
Proof. intros H%valid_bundle_bytes. revert H. apply no_slash. intros a Ha ->. done. Qed.

Lemma valid_local_no_slash s : is_valid_local_tool_identifier_component s = true -> contains_char "/" s = false.
Proof. intros H%valid_local_bytes. revert H. apply no_slash. intros a Ha ->. done. Qed.

Definition tool_name_valid (t : ToolName) : Prop :=
  is_valid_bundle_identifier_component (tn_bundle t) = true /\ is_valid_local_tool_identifier_component (tn_local t) = true.

Lemma build_tool_name b l t :
  (let? bundle := bundle_name_new b in let? local := local_tool_name_new l in Ok (mkToolName bundle local)) = Ok t <->
  t = mkToolName b l /\ tool_name_valid t.
Proof.
  unfold bundle_name_new, local_tool_name_new, tool_name_valid. split.
  - destruct (is_valid_bundle_identifier_component b) eqn:Hb; [|done]. simpl.
    destruct (is_valid_local_tool_identifier_component l) eqn:Hl; [|done]. simpl. by intros [= <-].
  - intros [-> [Hb Hl]]. simpl in *. by rewrite Hb; simpl; rewrite Hl.
Qed.

(** What a name parses to. *)
Lemma tool_name_parse_spec raw t :
  tool_name_parse raw = Ok t ->
  tool_name_valid t /\
  (raw = tn_bundle t +:+ "/" +:+ tn_local t \/
   exists server, tn_bundle t = "mcp_" +:+ server /\ raw = "mcp/" +:+ server +:+ "/" +:+ tn_local t).
Proof.
  unfold tool_name_parse. pose proof (join_split_char "/" raw) as Hj.
  destruct (split_char "/" raw) as [|p0 [|p1 [|p2 [|]]]]; try done.
  - intros [-> Hv]%build_tool_name. simpl in *. eauto.
  - case_bool_decide; [|done]. intros [-> Hv]%build_tool_name. split; [done|]. right. exists p1. subst. done.
Qed.

Lemma display_parses t : tool_name_valid t -> tool_name_parse (tool_name_display t) = Ok t.
Proof.
  intros Hv. pose proof Hv as [Hb Hl]. unfold tool_name_display, tool_name_parse.
  pose proof (valid_bundle_no_slash _ Hb) as Nb. pose proof (valid_local_no_slash _ Hl) as Nl.
  destruct (strip_prefix "mcp_" (tn_bundle t)) as [server|] eqn:E.
  - apply strip_prefix_Some in E. assert (Ns : contains_char "/" server = false).
    { revert Nb. unfold contains_char. rewrite E, any_byte_app. by intros [_ ?]%orb_false_iff. }
    change ("mcp/" +:+ server +:+ "/" +:+ tn_local t) with ("mcp" +:+ String "/" (server +:+ "/" +:+ tn_local t)).
    rewrite split_char_cons by done. change ("/" +:+ tn_local t) with (String "/" (tn_local t)).
    rewrite split_char_cons, split_char_none by done. rewrite bool_decide_true by done.
    apply build_tool_name. rewrite <-E. by destruct t.
  - change ("/" +:+ tn_local t) with (String "/" (tn_local t)).
    rewrite split_char_cons, split_char_none by done. apply build_tool_name. by destruct t.
Qed.

(** Parsing a tool name is total on its canonical form and lossless: a
    parsed name has valid components, printing and parsing it again gives the
    same name, and the printed form is the text parsed, except for the
    two-part spelling of an imported tool, which prints as [mcp/server/tool]. *)
Theorem tool_name_round_trip raw t :
  tool_name_parse raw = Ok t ->
  tool_name_valid t /\ tool_name_parse (tool_name_display t) = Ok t /\
  (tool_name_display t = raw \/
   exists server, tn_bundle t = "mcp_" +:+ server /\ raw = tn_bundle t +:+ "/" +:+ tn_local t).
Proof.
  intros H. destruct (tool_name_parse_spec _ _ H) as [Hv Hr]. split; [done|]. split; [by apply display_parses|].
  unfold tool_name_display. destruct Hr as [->|(server & Hb & ->)].
  - destruct (strip_prefix "mcp_" (tn_bundle t)) as [server|] eqn:E; [|by left].
    apply strip_prefix_Some in E. eauto.
  - left. by rewrite Hb, strip_prefix_app.
Qed.

Lemma tool_name_round_trip_witness :
  tool_name_parse "mcp/github/create-issue" = Ok (mkToolName "mcp_github" "create-issue") /\
  tool_name_parse (tool_name_display (mkToolName "mcp_github" "create-issue")) = Ok (mkToolName "mcp_github" "create-issue").
Proof.
  split; [reflexivity|].
  apply (tool_name_round_trip "mcp/github/create-issue" (mkToolName "mcp_github" "create-issue")). reflexivity.
Defined.

(** Slugs are not injective: the separator is an identifier character. *)
Lemma slug_collision :
  exists t u, tool_name_parse "a_b/c" = Ok t /\ tool_name_parse "a/b-c" = Ok u /\ t <> u /\ slug t = slug u.
Proof. do 2 eexists. split_and!; [reflexivity..|done|reflexivity]. Qed.

(** Whatever phase a name is split into, its parts make up the name. *)
Lemma try_suffix_full raw marker phase id :
  suffix phase = marker -> try_suffix raw marker phase = Some id -> full_name id = raw.
Proof.
  unfold try_suffix. intros Hs. destruct (strip_suffix marker raw) as [b|] eqn:E; [|done].
  apply strip_suffix_Some in E. destruct (is_empty_str b); [done|]. intros [= <-]. unfold full_name. simpl. by rewrite Hs.
Qed.

Lemma try_marker_full raw marker phase id :
  (forall s, suffix (phase s) = marker +:+ s) -> try_marker raw marker phase = Some id -> full_name id = raw.
Proof.
  unfold try_marker. intros Hs. destruct (split_once_str marker raw) as [[b s]|] eqn:E; [|done].
  apply split_once_str_Some in E. destruct (_ || _); [done|]. intros [= <-]. unfold full_name. simpl. by rewrite Hs.
Qed.

Lemma fid_parse_full raw : full_name (fid_parse raw) = raw.
Proof.
  unfold fid_parse, or_else.
  repeat match goal with
  | |- context [match try_suffix raw ?m ?p with _ => _ end] =>
      destruct (try_suffix raw m p) as [?|] eqn:?; [by apply (try_suffix_full raw m p)|]
  | |- context [match try_marker raw ?m ?p with _ => _ end] =>
      destruct (try_marker raw m p) as [?|] eqn:?; [by apply (try_marker_full raw m p)|]
  end.
  destruct (try_marker raw "__continue__" VContinue) as [id|] eqn:E; [|done].
  by apply (try_marker_full raw "__continue__" VContinue).
Qed.

(** A base without a double underscore has no marker starting inside it. *)
Lemma marker_not_inside a m base v y :
  a <> "_"%char -> contains_str "__" base = false -> (exists u, base = u +:+ v) -> v <> EmptyString ->
  strip_prefix (String "_" (String "_" (String a m))) (v +:+ (String "_" (String "_" (String a m)) +:+ y)) = None.
Proof.
  intros Ha Hb [u ->] Hv. destruct v as [|c v]; [done|].
  rewrite !str_app_cons. cbn [strip_prefix]. case_bool_decide as Hc; [|done]. subst c.
  destruct v as [|d v].
  - rewrite str_app_nil_l. cbn [strip_prefix]. rewrite bool_decide_true by done. by rewrite bool_decide_false.
  - rewrite str_app_cons. cbn [strip_prefix]. case_bool_decide as Hd; [|done]. subst d.
    exfalso. apply not_true_iff_false in Hb. apply Hb. apply contains_str_spec. exists u, v. done.
Qed.

Lemma no_marker a m base :
  contains_str "__" base = false -> contains_str (String "_" (String "_" (String a m))) base = false.
Proof.
  rewrite <-!not_true_iff_false. intros Hb H. apply Hb. apply contains_str_spec in H as (x & y & ->).
  apply contains_str_spec. by exists x, (String a m +:+ y).
Qed.

Lemma try_suffix_none raw marker phase : ends_with marker raw = false -> try_suffix raw marker phase = None.
Proof.
  intros H. unfold try_suffix. destruct (strip_suffix marker raw) eqn:E; [|done].
  apply strip_suffix_Some in E. apply not_true_iff_false in H. destruct H. apply ends_with_spec. eauto.
Qed.

Lemma base_parses base : contains_str "__" base = false -> fid_parse base = fid_of_base base.
Proof.
  intros Hb. unfold fid_parse.
  assert (Hs : forall p a m, ends_with (String "_" (String "_" (String a m))) p = true -> contains_str "__" p = true).
  { intros p a m [q ->]%ends_with_spec. apply contains_str_spec. by exists q, (String a m). }
  rewrite !try_suffix_none by (apply not_true_iff_false; intros H; apply Hs in H; by rewrite Hb in H).
  unfold try_marker. rewrite !(proj2 (split_once_str_None _ base)) by (by apply no_marker). done.
Qed.

Lemma entry_parses base : base <> EmptyString -> fid_parse (base +:+ "__entry") = fid_variant base VEntry.
Proof.
  intros Hb. unfold fid_parse, try_suffix at 1. rewrite (proj2 (strip_suffix_Some "__entry" _ base)) by done.
  by destruct base.
Qed.

Lemma active_parses base tool_slug :
  base <> EmptyString -> tool_slug <> EmptyString -> contains_str "__" base = false ->
  ends_with "__entry" (base +:+ ("__active__" +:+ tool_slug)) = false ->
  fid_parse (base +:+ ("__active__" +:+ tool_slug)) = fid_variant base (VActive tool_slug).
Proof.
  intros Hb Hs Hu He. unfold fid_parse. rewrite try_suffix_none by done. unfold or_else, try_marker.
  rewrite split_once_str_app; [by destruct base, tool_slug|].
  intros u v -> Hv. eapply marker_not_inside; [done|exact Hu|by exists u|done].
Qed.

(** Function names split without loss and the executor's own names split
    as they were built: every name is its prompt followed by the suffix of the
    phase it parses to; an entry name, a base name and an active name parse back
    to the identity they came from, provided the prompt has no double
    underscore and an active name does not itself end like an entry name. *)
Theorem function_names_round_trip :
  (forall raw, full_name (fid_parse raw) = raw) /\
  (forall base, base <> EmptyString -> fid_parse (full_name (fid_variant base VEntry)) = fid_variant base VEntry) /\
  (forall base, contains_str "__" base = false -> fid_parse (full_name (fid_of_base base)) = fid_of_base base) /\
  (forall base tool_slug, base <> EmptyString -> tool_slug <> EmptyString -> contains_str "__" base = false ->
     let id := fid_variant base (VActive tool_slug) in
     ends_with "__entry" (full_name id) = false -> fid_parse (full_name id) = id).
Proof.
  split_and!; [apply fid_parse_full|apply entry_parses|apply base_parses|]. intros base tool_slug ??? id He.
  by apply active_parses.
Qed.

(** A tool whose name ends in [__entry] is split wrongly: its active phase
    reads as the entry phase of another prompt. *)
Lemma active_name_misread :
  exists t, tool_name_parse "jobs/new__entry" = Ok t /\
    fid_parse (full_name (fid_variant "ExecuteStep" (VActive (slug t)))) = fid_variant "ExecuteStep__active__jobs_new" VEntry.
Proof. eexists. split; [reflexivity|]. vm_compute. reflexivity. Qed.
