(* ===== verification/StepExecutor.v ===== *)
(** * The step executor

    [run_step_executor_loop] ([baml-rt-quickjs/src/step_executor_loop.rs]) calls
    a model function hop after hop, narrowed to what the session's phase allows,
    and advances the phase by the status each hop answers.  Between hops it
    reads the conversation and keeps the lines the graph has not shown yet
    ([baml/intra_turn.rs]); the result crosses to JavaScript as a
    [StepExecutorOutcome] ([step_executor_outcome_bridge.rs],
    [baml-rt-core/src/step_executor_outcome.rs]).  The runtime manager (the
    model call, the conversation read and the function table) is the interface
    [HopEnv]. *)

From stdpp Require Import base list strings.
From Stdlib Require Import ZArith Lia Ascii.
From S2P Require Import Prelude RustStr Json Errors ToolNames.

(** ** Statuses, phases and the context of the last step *)

Inductive StepStatus := SOpen | SDone | SFinished | SAborted | SSent | SStreaming | SSuspended | SDuplicate.

#[global] Instance StepStatus_eq_dec : EqDecision StepStatus.
Proof. solve_decision. Defined.

Definition status_parse (s : string) : option StepStatus :=
  if String.eqb s "open" then Some SOpen
  else if String.eqb s "done" then Some SDone
  else if String.eqb s "finished" then Some SFinished
  else if String.eqb s "aborted" then Some SAborted
  else if String.eqb s "sent" then Some SSent
  else if String.eqb s "streaming" then Some SStreaming
  else if String.eqb s "suspended" then Some SSuspended
  else if String.eqb s "error" then Some SDone
  else if String.eqb s "duplicate" then Some SDuplicate
  else None.

Definition status_as_str (s : StepStatus) : string :=
  match s with
  | SOpen => "open"
  | SDone | SSent | SStreaming | SSuspended => "done"
  | SFinished => "finished"
  | SAborted => "aborted"
  | SDuplicate => "duplicate"
  end.

Inductive TerminalReason := TFinished | TAborted | TMaxStepsExhausted | TMissingStatus.

Record ToolBinding := mkBinding { tb_name : ToolName; tb_slug : string }.

Inductive Phase :=
| PEntry
| PActive (tool : ToolBinding) (has_done : bool)
| PTerminal (r : TerminalReason).

Definition is_terminal (p : Phase) : bool := match p with PTerminal _ => true | _ => false end.
Definition is_entry (p : Phase) : bool := match p with PEntry => true | _ => false end.
Definition is_session_open (p : Phase) : bool := match p with PActive _ _ => true | _ => false end.
Definition selected_tool (p : Phase) : option ToolName :=
  match p with PActive tool _ => Some (tb_name tool) | _ => None end.

Inductive SessionStatus := AwaitingOpen | JustOpened | ResultReady | SessDone.

Definition session_status_str (s : SessionStatus) : string :=
  match s with
  | AwaitingOpen => "awaiting_open"
  | JustOpened => "just_opened"
  | ResultReady => "result_ready"
  | SessDone => "done"
  end.

Record LastStepContext := mkLast {
  lc_op : option string;
  lc_status : option string;
  lc_archive_ref : option string;
  lc_output_header : option string;
  lc_completion : option string
}.

Definition last_step_default : LastStepContext := mkLast None None None None None.

Record ArchiveLedgerEntry := mkEntry { le_ref : string; le_header : string }.

Definition SESSION_CONTEXT_ARCHIVE_LEDGER_CAP : nat := 30.
Definition SESSION_CONTEXT_ARCHIVE_HEADER_CAP : nat := 240.

Definition session_status_for_phase (phase : Phase) : SessionStatus :=
  match phase with
  | PEntry => AwaitingOpen
  | PActive _ false => JustOpened
  | PActive _ true | PTerminal _ => SessDone
  end.

(** ** The session context a hop is given *)

Definition sep : string := " · ".

Definition looks_like_size (tail : string) : bool :=
  ends_with "B" tail || ends_with "KB" tail || ends_with "MB" tail.

Definition strip_archive_header_for_ledger (header : string) : string :=
  let without_ref := match split_once_str sep header with Some (_, rest) => rest | None => header end in
  let without_size :=
    match rsplit_once_str sep without_ref with
    | Some (prefix, tail) =>
        if looks_like_size tail then
          match rsplit_once_str sep prefix with Some (prefix', _) => prefix' | None => without_ref end
        else without_ref
    | None => without_ref
    end in
  if (SESSION_CONTEXT_ARCHIVE_HEADER_CAP <? chars_count without_size)%nat
  then take_chars SESSION_CONTEXT_ARCHIVE_HEADER_CAP without_size +:+ "…"
  else without_size.

Definition opt_is (o : option string) (s : string) : bool :=
  match o with Some x => String.eqb x s | None => false end.

Definition status_for_context (phase : Phase) (last_step : LastStepContext) : SessionStatus :=
  if is_entry phase && (opt_is (lc_op last_step) "send" || opt_is (lc_op last_step) "duplicate_send")
     && (opt_is (lc_status last_step) "done" || opt_is (lc_status last_step) "duplicate")
  then ResultReady
  else session_status_for_phase phase.

Definition opt_field (k : string) (o : option string) : list (string * json) :=
  match o with Some s => [(k, JStr s)] | None => [] end.

Definition ledger_json (e : ArchiveLedgerEntry) : json :=
  JObj [("archive_ref", JStr (le_ref e)); ("header", JStr (le_header e))].

Definition build_session_context (phase : Phase) (last_step : LastStepContext) (archives : list ArchiveLedgerEntry) : json :=
  JObj ([("contract_version", JStr "session_context_v3");
         ("session_open", JBool (is_session_open phase));
         ("status", JStr (session_status_str (status_for_context phase last_step)))]
        ++ opt_field "last_step_op" (lc_op last_step)
        ++ opt_field "last_step_status" (lc_status last_step)
        ++ opt_field "last_archive_ref" (lc_archive_ref last_step)
        ++ opt_field "last_output_header" (lc_output_header last_step)
        ++ opt_field "last_completion" (lc_completion last_step)
        ++ match archives with [] => [] | _ => [("archives", JArr (ledger_json <$> archives))] end).

(** ** Reading a hop's answer *)

Definition has_key (k : string) (v : json) : bool := is_some (jget k v).
Definition get_str (k : string) (v : json) : option string := jget k v ≫= as_str.

Definition infer_op (phase_before_hop : Phase) (status : StepStatus) (result : json) : option string :=
  match phase_before_hop with
  | PEntry =>
      match status with
      | SOpen => Some "open"
      | SDuplicate => Some "duplicate_send"
      | SDone =>
          if has_key "has_more" result then Some "read"
          else if has_key "archive_ref" result then Some "send"
          else None
      | _ => None
      end
  | PActive _ false =>
      match status with
      | SDuplicate => Some "duplicate_send"
      | _ =>
          if has_key "archive_ref" result then Some "send"
          else if has_key "has_more" result then Some "read"
          else None
      end
  | PActive _ true =>
      match status with
      | SFinished => Some "finish"
      | SAborted => Some "abort"
      | SDuplicate => Some "duplicate_send"
      | _ =>
          if has_key "archive_ref" result then Some "send"
          else if has_key "has_more" result then Some "read"
          else None
      end
  | PTerminal _ => None
  end.

Definition infer_last_step_context (phase_before_hop : Phase) (status : StepStatus) (result : json) : LastStepContext := {|
  lc_op := infer_op phase_before_hop status result;
  lc_status := Some (status_as_str status);
  lc_archive_ref := get_str "archive_ref" result;
  lc_output_header := (fun s => default s (head (str_lines s))) <$> get_str "output" result;
  lc_completion := jget "result" result ≫= get_str "completion"
|}.

Definition update_archive_ledger (archives : list ArchiveLedgerEntry) (step : LastStepContext) : list ArchiveLedgerEntry :=
  match lc_archive_ref step, lc_output_header step with
  | Some archive_ref, Some header =>
      if existsb (fun e => String.eqb (le_ref e) archive_ref) archives then archives
      else
        let archives := archives ++ [mkEntry archive_ref (strip_archive_header_for_ledger header)] in
        if (SESSION_CONTEXT_ARCHIVE_LEDGER_CAP <? length archives)%nat
        then drop (length archives - SESSION_CONTEXT_ARCHIVE_LEDGER_CAP) archives
        else archives
  | _, _ => archives
  end.

Definition extract_status (result : json) : option StepStatus :=
  or_else (get_str "status" result) (jget "output" result ≫= get_str "status") ≫= status_parse.

Definition result_is_read_only_finish (result : json) : bool :=
  opt_is (get_str "op" result) "ReadOnlyFinish" || opt_is (jget "step" result ≫= get_str "op") "ReadOnlyFinish".

Definition llm_step_op (result : json) : option string :=
  or_else (get_str "op" result) (jget "step" result ≫= get_str "op").

Definition llm_step_input (result : json) : option json :=
  or_else (jget "input" result) (jget "step" result ≫= jget "input").

Definition is_done (s : option StepStatus) : bool := bool_decide (s = Some SDone).

Definition is_redundant_repeat_send (result : json) (last_step : LastStepContext) (steps : list json) : bool :=
  opt_is (llm_step_op result) "Send" && opt_is (lc_op last_step) "send" && opt_is (lc_status last_step) "done" &&
  match llm_step_input result with
  | None => false
  | Some current_input =>
      existsb (fun step =>
        opt_is (llm_step_op step) "Send" && is_done (extract_status step) &&
        match llm_step_input step with
        | Some prev_input => json_eqb prev_input current_input
        | None => false
        end) (reverse steps)
  end.

Definition unified_entry_status_fallback (result : json) : option StepStatus :=
  let v := match jget "output" result with
           | Some x => if is_null x then result else x
           | None => result
           end in
  if opt_is (get_str "action" v) "AskUser" then Some SDone
  else if has_key "goal" v && has_key "nodes" v then Some SFinished
  else None.

Definition phase_function_id (base : string) (phase : Phase) : BamlFunctionId :=
  match phase with
  | PEntry => fid_variant base VEntry
  | PActive tool _ => fid_variant base (VActive (tb_slug tool))
  | PTerminal _ => fid_of_base base
  end.

Definition binding_from_tool_name_str (raw : string) : option ToolBinding :=
  match tool_name_parse raw with
  | Ok name => Some (mkBinding name (slug name))
  | Err _ => None
  end.

Definition extract_tool_binding_inner (result : json) : option ToolBinding :=
  or_else (get_str "tool_name" result)
    (or_else (jget "step" result ≫= get_str "tool_name")
      (or_else (jget "output" result ≫= get_str "tool_name")
        ((jget "output" result ≫= jget "step") ≫= get_str "tool_name"))) ≫= binding_from_tool_name_str.

Definition extract_tool_binding (result : json) : option ToolBinding :=
  or_else (extract_tool_binding_inner result)
    (match result with
     | JObj map =>
         if contains_key "op" map || negb (contains_key "step" map) then None
         else extract_tool_binding_inner (unwrap_session_plan_step_shape_for_phase_output result)
     | _ => None
     end).

(** ** Lines of the conversation a hop added *)

Definition DEFAULT_LLM_CONTEXT_ITEM_CAP : nat := 40.

Definition json_mem (v : json) (l : list json) : bool := existsb (fun w => json_eqb w v) l.

Fixpoint take_prefix_growth (p_before p_after : list json) : option (list json) :=
  match p_before, p_after with
  | [], _ => Some p_after
  | b :: p_before', a :: p_after' => if json_eqb a b then take_prefix_growth p_before' p_after' else None
  | _ :: _, [] => None
  end.

Fixpoint json_list_eqb (xs ys : list json) : bool :=
  match xs, ys with
  | [], [] => true
  | x :: xs', y :: ys' => json_eqb x y && json_list_eqb xs' ys'
  | _, _ => false
  end.

Definition append_intra_lines_to_provider_then_cap (prov extra : list json) : list json :=
  let prov := foldl (fun prov line => if json_mem line prov then prov else prov ++ [line]) prov extra in
  if (DEFAULT_LLM_CONTEXT_ITEM_CAP <? length prov)%nat
  then drop (length prov - DEFAULT_LLM_CONTEXT_ITEM_CAP) prov
  else prov.

Definition hop_lines_from_provider_delta (p_before p_after : list json) (phase_function : BamlFunctionId)
    : result (list json) BamlRtError :=
  if json_list_eqb p_after p_before then Ok []
  else match take_prefix_growth p_before p_after with
       | Some suf => Ok suf
       | None =>
           let novel := List.filter (fun v => negb (json_mem v p_before)) p_after in
           match novel with
           | [] => Err (BamlRuntime ("step executor hop " +:+ full_name phase_function +:+
                     ": conversation_context is not a prefix extension and added no new line values vs the pre-step snapshot; graph reordered or suppressed only"))
           | _ => Ok novel
           end
       end.

Definition append_step_intra_deltas (supplement p_before p_after : list json) (phase_function : BamlFunctionId)
    : result (list json) BamlRtError :=
  let? deltas := hop_lines_from_provider_delta p_before p_after phase_function in
  Ok (supplement ++ deltas).

(** ** The loop *)

(** What the loop asks of the runtime manager. *)
Record HopEnv (E : Type) := mkHopEnv {
  get_function_signature : E -> string -> bool;
  read_provider_conversation_array : E -> string -> result (list json) BamlRtError * E;
  invoke_function_with_intra : E -> string -> json -> list json -> result json BamlRtError * E
}.
Arguments get_function_signature {E} _ _ _.
Arguments read_provider_conversation_array {E} _ _ _.
Arguments invoke_function_with_intra {E} _ _ _ _ _.

Record loop_state := mkLoop {
  ls_phase : Phase;
  ls_steps : list json;
  ls_last : json;
  ls_supplement : list json;
  ls_last_step : LastStepContext;
  ls_ledger : list ArchiveLedgerEntry;
  ls_prev_lines : option (list json)
}.

Definition loop_init : loop_state := mkLoop PEntry [] JNull [] last_step_default [] None.

(** How a pass through the loop body ends. *)
Inductive hop_end :=
| Continue (s : loop_state)
| Break (s : loop_state)
| Fail (e : BamlRtError).

Definition with_phase (p : Phase) (s : loop_state) : loop_state :=
  mkLoop p (ls_steps s) (ls_last s) (ls_supplement s) (ls_last_step s) (ls_ledger s) (ls_prev_lines s).

(** The status the loop acts on; [None] ends the session. *)
Definition hop_status (phase : Phase) (result : json) : option StepStatus :=
  match extract_status result with
  | Some s => Some s
  | None =>
      if result_is_read_only_finish result then Some SDone
      else if is_entry phase then unified_entry_status_fallback result
      else None
  end.

(** [last] keeps the newest answer with content. *)
Definition next_last (status : StepStatus) (result last : json) : json :=
  let has_content := has_key "output" result || has_key "message" result || has_key "reply" result in
  if bool_decide (status ∈ [SFinished; SAborted; SOpen]) || has_content || is_null last then result else last.

Definition next_step_context (phase : Phase) (status : StepStatus) (result : json) (last_step : LastStepContext) : LastStepContext :=
  let next :=
    if result_is_read_only_finish result then mkLast (Some "readonly_finish") (Some "finished") None None None
    else infer_last_step_context phase status result in
  if opt_is (lc_op next) "read" then
    mkLast (lc_op next) (lc_status next) (or_else (lc_archive_ref next) (lc_archive_ref last_step))
      (lc_output_header next) (or_else (lc_completion next) (lc_completion last_step))
  else next.

(** The phase after a hop: [Err] is a contract violation. *)
Definition advance (current_function : string) (phase : Phase) (status : StepStatus) (result : json) : Prelude.result Phase BamlRtError :=
  if result_is_read_only_finish result then Ok (PTerminal TFinished)
  else
    match phase with
    | PEntry =>
        match status with
        | SDone | SDuplicate => Ok PEntry
        | SFinished => Ok (PTerminal TFinished)
        | SAborted => Ok (PTerminal TAborted)
        | SOpen =>
            match extract_tool_binding result with
            | Some binding => Ok (PActive binding false)
            | None => Err (InvalidArgument ("step executor (" +:+ current_function +:+ "): Open hop yielded no tool_name"))
            end
        | SSent | SStreaming | SSuspended =>
            Err (InvalidArgument ("step executor contract violation (" +:+ current_function +:+
              "): expected ENTRY hop to yield status 'open', 'done', or unified terminal, got '" +:+ status_as_str status +:+ "'"))
        end
    | PActive tool has_done =>
        match status with
        | SFinished =>
            if has_done then Ok (PTerminal TFinished)
            else Err (InvalidArgument ("step executor contract violation (" +:+ current_function +:+
              "): Finish is invalid before any Send completed with status done — emit Send first"))
        | SAborted => Ok (PTerminal TAborted)
        | SOpen => Err (InvalidArgument ("step executor contract violation (" +:+ current_function +:+
              "): unexpected nested Open while session is active"))
        | SDone | SSent | SStreaming | SSuspended | SDuplicate =>
            let op := lc_op (infer_last_step_context (PActive tool has_done) status result) in
            let send_completed := opt_is op "send" || opt_is op "duplicate_send" in
            Ok (PActive tool (has_done || send_completed))
        end
    | PTerminal r => Ok (PTerminal r)
    end.

Section Loop.
Context {E : Type} (env : HopEnv E) (base : string) (base_args : json).

(** The conversation after a hop and the supplement it leaves. *)
Definition read_after (e : E) (status : StepStatus) (fid : BamlFunctionId) (supplement p_before : list json)
    : result (list json * list json) BamlRtError * E :=
  let '(r, e) := read_provider_conversation_array env e (full_name fid) in
  (match r with
   | Err err => Err err
   | Ok p_after =>
       if bool_decide (status = SOpen) then
         match append_step_intra_deltas supplement p_before p_after fid with
         | Ok supplement' => Ok (supplement', p_after)
         | Err _ => Ok (supplement, p_after)
         end
       else
         let? _ := hop_lines_from_provider_delta p_before p_after fid in
         let? supplement' := append_step_intra_deltas supplement p_before p_after fid in
         Ok (supplement', p_after)
   end, e).

(** The hop's answer, once it has a status and the conversation is read. *)
Definition absorb (s : loop_state) (fname : string) (status : StepStatus) (result : json)
    (supplement p_after : list json) : hop_end :=
  let last := next_last status result (ls_last s) in
  let steps := ls_steps s ++ [result] in
  let next := next_step_context (ls_phase s) status result (ls_last_step s) in
  if (1 <? length steps)%nat && is_redundant_repeat_send result (ls_last_step s) (ls_steps s)
  then Break (mkLoop (PTerminal TFinished) steps last supplement next (ls_ledger s) (Some p_after))
  else
    let ledger := update_archive_ledger (ls_ledger s) next in
    match advance fname (ls_phase s) status result with
    | Err err => Fail err
    | Ok phase =>
        let s' := mkLoop phase steps last supplement next ledger (Some p_after) in
        if is_terminal phase then Break s' else Continue s'
    end.

Definition hop_args (s : loop_state) : json :=
  let fs := match as_object base_args with Some fs => fs | None => [] end in
  JObj (map_insert "session_context" (build_session_context (ls_phase s) (ls_last_step s) (ls_ledger s)) fs).

Definition read_before (e : E) (s : loop_state) (fname : string) : result (list json) BamlRtError * E :=
  match ls_prev_lines s with
  | Some lines => (Ok lines, e)
  | None => read_provider_conversation_array env e fname
  end.

Definition hop (e : E) (s : loop_state) : hop_end * E :=
  if is_terminal (ls_phase s) then (Break s, e)
  else
    let fid := phase_function_id base (ls_phase s) in
    let fname := full_name fid in
    if negb (get_function_signature env e fname) then
      (Fail (InvalidArgument ("step executor: phase function '" +:+ fname +:+
         "' not found in agent schema. Rebuild the agent package to regenerate phase functions.")), e)
    else
      let '(rb, e) := read_before e s fname in
      match rb with
      | Err err => (Fail err, e)
      | Ok p_before =>
          let '(ri, e) := invoke_function_with_intra env e fname (hop_args s) (ls_supplement s) in
          match ri with
          | Err err => (Fail err, e)
          | Ok result =>
              match hop_status (ls_phase s) result with
              | None => (Break (with_phase (PTerminal TMissingStatus) s), e)
              | Some status =>
                  let '(ra, e) := read_after e status fid (ls_supplement s) p_before in
                  match ra with
                  | Err err => (Fail err, e)
                  | Ok (supplement, p_after) => (absorb s fname status result supplement p_after, e)
                  end
              end
          end
      end.

(** [for hop_idx in 0..max_steps] *)
Fixpoint hops (max_steps : nat) (e : E) (s : loop_state) : result loop_state BamlRtError * E :=
  match max_steps with
  | O => (Ok s, e)
  | S n =>
      match hop e s with
      | (Continue s', e') => hops n e' s'
      | (Break s', e') => (Ok s', e')
      | (Fail err, e') => (Err err, e')
      end
  end.

Record StepExecutorResult := mkStepResult {
  sr_last : json;
  sr_steps : list json;
  sr_session_context : json;
  sr_selected_tool : option ToolName
}.

Definition finish_loop (max_steps : nat) (s : loop_state) : StepExecutorResult :=
  let phase :=
    if negb (is_terminal (ls_phase s)) && (max_steps <=? length (ls_steps s))%nat
    then PTerminal TMaxStepsExhausted else ls_phase s in
  mkStepResult (ls_last s) (ls_steps s) (build_session_context phase (ls_last_step s) (ls_ledger s)) (selected_tool phase).

Definition run_step_executor_loop (max_steps : nat) (e : E) : result StepExecutorResult BamlRtError * E :=
  let '(r, e) := hops max_steps e loop_init in
  (match r with Ok s => Ok (finish_loop max_steps s) | Err err => Err err end, e).
End Loop.

(** ** Recovery payloads and the outcome *)

Definition MAX_STEP_PLAN_FIX_STEPS : nat := 4.

Definition recovery_new (code : StepPlanViolationCode) (mistake invariant : string) (fix_steps : list string) : StepPlanRecovery :=
  mkRecovery code LlmCorrectable mistake invariant
    (if (MAX_STEP_PLAN_FIX_STEPS <? length fix_steps)%nat then take MAX_STEP_PLAN_FIX_STEPS fix_steps else fix_steps).

Definition quote : string := String "034" EmptyString.

Definition hex_digit (n : N) : string :=
  String (if (n <? 10)%N then ascii_of_N (48 + n) else ascii_of_N (87 + n)) EmptyString.

(** [{:?}] of one byte of a string; bytes of non-ASCII characters are printed
    as they are. *)
Definition debug_byte (a : ascii) : string :=
  let n := byte_of a in
  if (n =? 9)%N then "\t"
  else if (n =? 10)%N then "\n"
  else if (n =? 13)%N then "\r"
  else if (n =? 34)%N then "\" +:+ quote
  else if (n =? 92)%N then "\\"
  else if (n =? 0)%N then "\0"
  else if (n <? 32)%N || (n =? 127)%N
  then "\u{" +:+ (if (n <? 16)%N then EmptyString else hex_digit (n / 16)%N) +:+ hex_digit (n mod 16)%N +:+ "}"
  else String a EmptyString.

Fixpoint debug_bytes (s : string) : string :=
  match s with EmptyString => EmptyString | String a r => debug_byte a +:+ debug_bytes r end.

Definition debug_str (s : string) : string := quote +:+ debug_bytes s +:+ quote.

Definition missing_archive_ref_page_read : StepPlanRecovery :=
  recovery_new MissingArchiveRefPageRead
    "PageRead was emitted without a visible archive reference (@N)."
    ("PageRead.input.archive_ref is required and must be a short ref like " +:+ quote +:+ "@1" +:+ quote +:+ " from a prior Send in this turn.")
    ["Locate the @N header from the last successful Send in conversation history.";
     "Re-emit PageRead with input.archive_ref set to that @N."].

Definition missing_archive_ref_search_read : StepPlanRecovery :=
  recovery_new MissingArchiveRefSearchRead
    "SearchRead was emitted without a visible archive reference (@N)."
    ("SearchRead.input.archive_ref is required and must be a short ref like " +:+ quote +:+ "@1" +:+ quote +:+ " from a prior Send in this turn.")
    ["Locate the @N header from the last successful Send in conversation history.";
     "Re-emit SearchRead with input.archive_ref set to that @N and a non-empty grep pattern."].

Definition missing_search_read_grep : StepPlanRecovery :=
  recovery_new MissingSearchReadGrep
    "SearchRead was emitted without a line-filter pattern."
    "SearchRead.input.grep is required (non-empty) — use PageRead when you need full page text without filtering."
    ["Provide a non-empty grep string matching lines to return."].

Definition invalid_search_read_grep (pattern detail : string) : StepPlanRecovery :=
  recovery_new InvalidSearchReadGrep
    ("SearchRead grep pattern is invalid (" +:+ debug_str pattern +:+ "): " +:+ detail)
    "SearchRead.input.grep must be a valid line filter accepted by the host."
    ["Fix the grep pattern syntax and retry."].

Definition page_read_grep_forbidden : StepPlanRecovery :=
  recovery_new PageReadGrepForbidden
    "PageRead included a grep field; PageRead is for full slices only."
    "PageRead must not set input.grep — use SearchRead for line filtering."
    ["Remove grep from PageRead, or switch the op to SearchRead with grep + archive_ref."].

Definition legacy_read_op_removed : StepPlanRecovery :=
  recovery_new LegacyReadOpRemoved
    ("Legacy op " +:+ quote +:+ "Read" +:+ quote +:+ " is not supported.")
    "Emit SearchRead (requires grep) or PageRead (no grep) for archive access."
    ["Replace Read with SearchRead or PageRead following the archive-read contract."].

Definition tool_session_step_missing_op : StepPlanRecovery :=
  recovery_new ToolSessionStepMissingOp
    "A tool session plan step was emitted without an `op` field."
    "Every session-plan step must include op: Open | Send | SearchRead | PageRead | Finish | Abort."
    ["Emit a valid op string for this hop."].

Definition tool_session_plan_step_not_object : StepPlanRecovery :=
  recovery_new ToolSessionPlanStepNotObject
    "ToolSessionPlan.step was not a JSON object."
    "ToolSessionPlan.step must be an object describing one session-plan hop."
    ["Emit step as an object with op and required fields."].

Definition send_missing_input : StepPlanRecovery :=
  recovery_new SendMissingInput
    "Send step was emitted without the required input object."
    "Send requires a non-null `input` object for the host tool session."
    ["Provide Send.input as a non-empty object."].

Definition send_input_null : StepPlanRecovery :=
  recovery_new SendInputNull
    "Send step input was null."
    "Send.input must not be null — provide a non-empty object."
    ["Populate Send.input before emitting Send."].

Definition unknown_tool_session_op (op : string) : StepPlanRecovery :=
  recovery_new UnknownToolSessionOp
    ("Unknown tool session op " +:+ debug_str op +:+ ".")
    "op must be one of the supported session-plan operations for this host."
    ["Emit a supported op for the current FSM phase."].

Definition invalid_plan_input_json (detail : string) : StepPlanRecovery :=
  recovery_new InvalidPlanInputJson
    ("Plan input JSON could not be parsed: " +:+ detail)
    "Plan inputs that are strings must contain valid JSON when parsed."
    ["Fix the JSON syntax in the plan input."].

Inductive StepExecutorOutcome :=
| Completed (last : json) (steps : list json) (session_context : json) (tool : option string)
| AgentCorrectable (recovery : StepPlanRecovery)
| FatalOutcome (message : string) (code : option string).

Definition SR_MISSING_REF : string :=
  "SearchRead step: missing required archive_ref (expected e.g. " +:+ quote +:+ "@1" +:+ quote +:+ ")".
Definition PR_MISSING_REF : string :=
  "PageRead step: missing required archive_ref (expected e.g. " +:+ quote +:+ "@1" +:+ quote +:+ ")".
Definition LEGACY_READ : string :=
  "Legacy op " +:+ quote +:+ "Read" +:+ quote +:+ " was removed; emit " +:+ quote +:+ "SearchRead" +:+ quote +:+
  " (requires grep) or " +:+ quote +:+ "PageRead" +:+ quote +:+ " (no grep) for archive access".

Definition legacy_step_plan_recovery (err : BamlRtError) : option StepPlanRecovery :=
  match err with
  | InvalidArgument msg =>
      if String.eqb msg SR_MISSING_REF then Some missing_archive_ref_search_read
      else if String.eqb msg PR_MISSING_REF then Some missing_archive_ref_page_read
      else if String.eqb msg "SearchRead step: grep is required (non-empty line filter pattern)" then Some missing_search_read_grep
      else if String.eqb msg "PageRead step: grep must be omitted or empty; use SearchRead for line filtering" then Some page_read_grep_forbidden
      else if String.eqb msg LEGACY_READ then Some legacy_read_op_removed
      else if String.eqb msg "ToolSessionPlan step missing op" then Some tool_session_step_missing_op
      else if String.eqb msg "Send step missing required input field" then Some send_missing_input
      else if String.eqb msg "Send step input must not be null — provide a non-empty object" then Some send_input_null
      else if String.eqb msg "ToolSessionPlan.step must be an object" then Some tool_session_plan_step_not_object
      else
        match strip_prefix "SearchRead step: invalid grep pattern " msg with
        | Some rest => Some (invalid_search_read_grep rest "rejected by host")
        | None =>
            match strip_prefix "Unknown tool session op " msg with
            | Some op => Some (unknown_tool_session_op op)
            | None =>
                match strip_prefix "Invalid plan input JSON: " msg with
                | Some detail => Some (invalid_plan_input_json detail)
                | None => None
                end
            end
        end
  | _ => None
  end.

Section Outcome.
(** [Display] of the runtime error. *)
Context (error_text : BamlRtError -> string).

Definition map_step_executor_error (e : BamlRtError) : StepExecutorOutcome :=
  match e with
  | StepPlanCorrectable r => AgentCorrectable r
  | _ =>
      match legacy_step_plan_recovery e with
      | Some r => AgentCorrectable r
      | None => FatalOutcome (error_text e) (Some "step_executor_fatal")
      end
  end.

Definition step_executor_outcome_from_loop_result (r : result StepExecutorResult BamlRtError) : StepExecutorOutcome :=
  match r with
  | Ok r => Completed (sr_last r) (sr_steps r) (sr_session_context r) (tool_name_display <$> sr_selected_tool r)
  | Err e => map_step_executor_error e
  end.

(** [__run_step_executor]: the options text bounds the hops, eight by default. *)
Definition max_steps_from_options (from_str : string -> option json) (options_json : option string) : nat :=
  match (options_json ≫= from_str) ≫= (fun v => jget "max_steps" v ≫= as_u64) with
  | Some n => Z.to_nat n
  | None => 8
  end.

Definition run_step_executor {E} (env : HopEnv E) (from_str : string -> option json)
    (function_name : string) (base_args : json) (options_json : option string) (e : E) : StepExecutorOutcome * E :=
  let '(r, e) := run_step_executor_loop env function_name base_args (max_steps_from_options from_str options_json) e in
  (step_executor_outcome_from_loop_result r, e).
End Outcome.

(** ** What a run asks of the model *)

(** The calls of a run, in order, with the state they were made in. *)
Inductive call (E : Type) :=
| CallRead (fname : string)
| CallInvoke (before : E) (fname : string) (args : json) (supplement : list json).
Arguments CallRead {E} _.
Arguments CallInvoke {E} _ _ _ _.

Definition logged {E} (env : HopEnv E) : HopEnv (E * list (call E)) := {|
  get_function_signature '(e, _) fname := get_function_signature env e fname;
  read_provider_conversation_array '(e, log) fname :=
    let '(r, e') := read_provider_conversation_array env e fname in (r, (e', log ++ [CallRead fname]));
  invoke_function_with_intra '(e, log) fname args supplement :=
    let '(r, e') := invoke_function_with_intra env e fname args supplement in
    (r, (e', log ++ [CallInvoke e fname args supplement]))
|}.

Definition invoked {E} (log : list (call E)) : list string :=
  omap (fun c => match c with CallInvoke _ fname _ _ => Some fname | CallRead _ => None end) log.

(** The functions a session may call: the entry function, then the active
    function of the one tool it opened. *)
Definition entry_fn (base : string) : string := full_name (fid_variant base VEntry).
Definition active_fn (base slug : string) : string := full_name (fid_variant base (VActive slug)).

Definition calls_from (base : string) (p : Phase) (fns : list string) : Prop :=
  match p with
  | PEntry => exists n m slug, fns = replicate n (entry_fn base) ++ replicate m (active_fn base slug)
  | PActive b _ => exists m, fns = replicate m (active_fn base (tb_slug b))
  | PTerminal _ => fns = []
  end.

Lemma calls_nil base p : calls_from base p [].
Proof.
  destruct p; simpl; [|by exists 0|done]. by exists 0, 0, EmptyString.
Qed.

(** A phase only moves forward, and keeps its tool. *)
Definition phase_follows (p q : Phase) : Prop :=
  match p, q with
  | PEntry, _ => True
  | PActive b _, PActive b' _ => b = b'
  | PActive _ _, PTerminal _ => True
  | PTerminal _, PTerminal _ => True
  | _, _ => False
  end.

Lemma advance_follows f p st r q : advance f p st r = Ok q -> phase_follows p q.
Proof.
  unfold advance. destruct (result_is_read_only_finish r); [by intros [= <-]; destruct p|].
  destruct p as [|b hd|]; [done| |by intros [= <-]]. destruct st, hd; try done; by intros [= <-].
Qed.

Lemma calls_cons base p q fns :
  is_terminal p = false -> phase_follows p q -> calls_from base q fns ->
  calls_from base p (full_name (phase_function_id base p) :: fns).
Proof.
  destruct p as [|b hd|]; [| |done]; intros _ Hf; destruct q as [|b' hd'|]; simpl in *; try done.
  - intros (n & m & s & ->). by exists (S n), m, s.
  - intros (m & ->). by exists 1, m, (tb_slug b').
  - intros ->. by exists 1, 0, EmptyString.
  - subst b'. intros (m & ->). by exists (S m).
  - intros ->. by exists 1.
Qed.

Section LoggedFacts.
Context {E : Type} (env : HopEnv E) (base : string) (base_args : json).
Implicit Types (s : loop_state) (log : list (call E)).

Lemma invoked_app (l1 l2 : list (call E)) : invoked (l1 ++ l2) = invoked l1 ++ invoked l2.
Proof. apply omap_app. Qed.

Lemma absorb_follows s f st r sup p h :
  is_terminal (ls_phase s) = false -> absorb s f st r sup p = h ->
  match h with
  | Continue s' => phase_follows (ls_phase s) (ls_phase s') /\ is_terminal (ls_phase s') = false /\ ls_steps s' = ls_steps s ++ [r]
  | Break s' => is_terminal (ls_phase s') = true /\ ls_steps s' = ls_steps s ++ [r]
  | Fail _ => True
  end.
Proof.
  intros Ht <-. unfold absorb. destruct (_ && _); [done|].
  destruct (advance f (ls_phase s) st r) as [p'|] eqn:Ha; [|done]. apply advance_follows in Ha.
  destruct (is_terminal p') eqn:Hp; simpl; done.
Qed.

(** One pass of the loop: at most one call, to the function of the phase. *)
Lemma hop_logged e log s h e' log' :
  hop (logged env) base base_args (e, log) s = (h, (e', log')) ->
  exists fns, invoked log' = invoked log ++ fns /\
    match h with
    | Continue s' => is_terminal (ls_phase s) = false /\ fns = [full_name (phase_function_id base (ls_phase s))] /\
        phase_follows (ls_phase s) (ls_phase s') /\ is_terminal (ls_phase s') = false /\
        length (ls_steps s') = S (length (ls_steps s))
    | Break s' => is_terminal (ls_phase s') = true /\ (length (ls_steps s') <= length (ls_steps s) + length fns)%nat /\
        (fns = [] \/ is_terminal (ls_phase s) = false /\ fns = [full_name (phase_function_id base (ls_phase s))])
    | Fail _ => fns = [] \/ is_terminal (ls_phase s) = false /\ fns = [full_name (phase_function_id base (ls_phase s))]
    end.
Proof.
  unfold hop. destruct (is_terminal (ls_phase s)) eqn:Ht.
  { intros [= <- <- <-]. exists []. rewrite app_nil_r. split; [done|]. split; [done|]. split; [lia|by left]. }
  set (fn := full_name _). simpl.
  destruct (get_function_signature env e fn); simpl.
  2:{ intros [= <- <- <-]. exists []. rewrite app_nil_r. eauto. }
  assert (Hb : exists rb e1 log1, read_before (logged env) (e, log) s fn = (rb, (e1, log1)) /\ invoked log1 = invoked log).
  { unfold read_before. destruct (ls_prev_lines s); [by do 3 eexists|]. simpl.
    destruct (read_provider_conversation_array env e fn) as [rb e1]. do 3 eexists. split; [done|].
    rewrite invoked_app. apply app_nil_r. }
  destruct Hb as (rb & e1 & log1 & -> & Hl1).
  destruct rb as [p_before|err]; [|intros [= <- <- <-]; exists []; rewrite app_nil_r; eauto].
  simpl. destruct (invoke_function_with_intra env e1 fn _ _) as [ri e2].
  assert (Hl2 : forall x y z, invoked (log1 ++ [CallInvoke x fn y z]) = invoked log ++ [fn]) by (intros; by rewrite invoked_app, Hl1).
  destruct ri as [r|err]; [|intros [= <- <- <-]; exists [fn]; split; [done|by right]].
  destruct (hop_status (ls_phase s) r) as [st|].
  2:{ intros [= <- <- <-]. exists [fn]. split; [done|]. simpl. split; [done|]. split; [lia|by right]. }
  unfold read_after. simpl. destruct (read_provider_conversation_array env e2 _) as [ra e3].
  set (ra' := match ra with Ok _ => _ | Err _ => _ end). destruct ra' as [[sup p_after]|err].
  - intros [= <- <- <-]. exists [fn]. split; [rewrite invoked_app, Hl2; apply app_nil_r|].
    pose proof (absorb_follows s fn st r sup p_after _ Ht eq_refl) as Hf.
    destruct (absorb s fn st r sup p_after) as [s'|s'|]; simpl in *.
    + destruct Hf as (Hf & Hn & Hs). rewrite Hs, length_app. simpl. split_and!; try done. lia.
    + destruct Hf as (Hn & Hs). rewrite Hs, length_app. simpl. split_and!; [done|lia|by right].
    + by right.
  - intros [= <- <- <-]. exists [fn]. split; [rewrite invoked_app, Hl2; apply app_nil_r|by right].
Qed.

Lemma hops_logged k e log s r e' log' :
  hops (logged env) base base_args k (e, log) s = (r, (e', log')) ->
  exists fns, invoked log' = invoked log ++ fns /\ calls_from base (ls_phase s) fns /\ (length fns <= k)%nat /\
    match r with
    | Ok s' => (length (ls_steps s') <= length (ls_steps s) + length fns)%nat /\
               (is_terminal (ls_phase s') = true \/ length (ls_steps s') = (length (ls_steps s) + k)%nat)
    | Err _ => True
    end.
Proof.
  revert e log s. induction k as [|k IH]; intros e log s; cbn [hops].
  { intros [= <- <- <-]. exists []. rewrite app_nil_r. split_and!; simpl; [done|apply calls_nil|lia..|]. right. lia. }
  destruct (hop (logged env) base base_args (e, log) s) as [h [e1 log1]] eqn:Hh.
  destruct (hop_logged _ _ _ _ _ _ Hh) as (fns & Hl & Hc).
  assert (Hone : fns = [] \/ is_terminal (ls_phase s) = false /\ fns = [full_name (phase_function_id base (ls_phase s))] ->
    calls_from base (ls_phase s) fns /\ (length fns <= S k)%nat).
  { intros [->|[Ht ->]]; simpl; split; [apply calls_nil|lia| |lia].
    eapply (calls_cons _ _ (PTerminal TFinished)); [done| |done]. by destruct (ls_phase s). }
  destruct h as [s1|s1|err].
  - destruct Hc as (Ht & -> & Hf & _ & Hs). intros H.
    destruct (IH _ _ _ H) as (fns & Hl2 & Hc2 & Hk & Hr). eexists. rewrite Hl2, Hl, <-app_assoc. split; [done|].
    split; [by eapply calls_cons|]. simpl. split; [lia|]. destruct r; [|done]. rewrite Hs in Hr. split; [lia|]. destruct Hr as [_ [?|Hr]]; [by left|right]. lia.
  - destruct Hc as (Ht & Hlen & Hd). intros [= <- <- <-]. destruct (Hone Hd). exists fns. split_and!; try done. by left.
  - intros [= <- <- <-]. destruct (Hone Hc). exists fns. done.
Qed.
(** Logging changes nothing. *)
Lemma hop_erases e log s h e' :
  hop env base base_args e s = (h, e') -> exists log', hop (logged env) base base_args (e, log) s = (h, (e', log')).
Proof.
  unfold hop. destruct (is_terminal (ls_phase s)); [intros [= <- <-]; eauto|]. set (fn := full_name _). simpl.
  destruct (get_function_signature env e fn); simpl; [|intros [= <- <-]; eauto].
  assert (Hb : exists log1, read_before (logged env) (e, log) s fn = ((read_before env e s fn).1, ((read_before env e s fn).2, log1))).
  { unfold read_before. destruct (ls_prev_lines s); [by eexists|]. simpl.
    destruct (read_provider_conversation_array env e fn) as [rb e1]. by eexists. }
  destruct Hb as [log1 ->]. destruct (read_before env e s fn) as [rb e1]. simpl.
  destruct rb as [p_before|err]; [|intros [= <- <-]; eauto]. simpl.
  destruct (invoke_function_with_intra env e1 fn _ _) as [ri e2]. destruct ri as [r|err]; [|intros [= <- <-]; eauto].
  destruct (hop_status (ls_phase s) r) as [st|]; [|intros [= <- <-]; eauto].
  unfold read_after. simpl. destruct (read_provider_conversation_array env e2 _) as [ra e3].
  set (ra' := match ra with Ok _ => _ | Err _ => _ end). destruct ra' as [[sup p_after]|err]; intros [= <- <-]; eauto.
Qed.

Lemma hops_erases k e log s r e' :
  hops env base base_args k e s = (r, e') -> exists log', hops (logged env) base base_args k (e, log) s = (r, (e', log')).
Proof.
  revert e log s. induction k as [|k IH]; intros e log s; cbn [hops]; [intros [= <- <-]; eauto|].
  destruct (hop env base base_args e s) as [h e1] eqn:Hh. destruct (hop_erases _ log _ _ _ Hh) as [log1 ->].
  destruct h as [s1|s1|err]; [apply IH|intros [= <- <-]; eauto..].
Qed.
End LoggedFacts.

(** C36: The step executor terminates within its bound and keeps the session's
    shape: a run calls the model at most [max_steps] times, first only the
    entry function, then only the active function of a single tool, never the
    unnarrowed base function; it records at most one step per call. *)
Theorem executor_bounded_and_narrowed {E} (env : HopEnv E) base base_args max_steps e r e' log :
  run_step_executor_loop (logged env) base base_args max_steps (e, []) = (r, (e', log)) ->
  exists n m slug,
    invoked log = replicate n (entry_fn base) ++ replicate m (active_fn base slug) /\
    (n + m <= max_steps)%nat /\
    (forall x, r = Ok x -> (length (sr_steps x) <= n + m)%nat).
Proof.
  unfold run_step_executor_loop. destruct (hops _ _ _ _ _ _) as [h [e1 log1]] eqn:H. intros [= Hr <- <-].
  destruct (hops_logged _ _ _ _ _ _ _ _ _ _ H) as (fns & Hl & (n & m & slug & ->) & Hk & Hs).
  rewrite length_app, !length_replicate in *. exists n, m, slug. split; [done|]. split; [lia|].
  intros x ->. destruct h as [s|]; [|done]. injection Hr as <-. simpl in *. lia.
Qed.

(** The result of a run never names a tool: every run that completes ends
    in a terminal phase, so the selected tool is absent, the session is
    reported closed and the status is the same ["done"] whether the session
    finished, was aborted, ran out of hops or answered without a status. *)
Theorem completed_run_hides_its_end {E} (env : HopEnv E) base base_args max_steps e x e' :
  run_step_executor_loop env base base_args max_steps e = (Ok x, e') ->
  sr_selected_tool x = None /\
  jget "session_open" (sr_session_context x) = Some (JBool false) /\
  jget "status" (sr_session_context x) = Some (JStr "done").
Proof.
  unfold run_step_executor_loop. destruct (hops env _ _ _ _ _) as [h e1] eqn:H.
  destruct (hops_erases _ _ _ _ _ [] _ _ _ H) as [log Hlog]. intros [= Hr _]. destruct h as [s|]; [|done]. injection Hr as <-.
  destruct (hops_logged _ _ _ _ _ _ _ _ _ _ Hlog) as (fns & _ & _ & _ & _ & Hs). simpl in Hs.
  unfold finish_loop. destruct Hs as [Ht| ->].
  - rewrite Ht. simpl. by destruct (ls_phase s).
  - rewrite Nat.leb_refl, andb_true_r. destruct (ls_phase s) eqn:Hp; simpl; done.
Qed.

(** ** Steps of a session *)

Definition opens (r : json) : Prop := extract_status r = Some SOpen /\ result_is_read_only_finish r = false.
Definition finishes (r : json) : Prop := extract_status r = Some SFinished /\ result_is_read_only_finish r = false.
Definition send_completed (r : json) : Prop := has_key "archive_ref" r = true \/ extract_status r = Some SDuplicate.

(** After an Open, a Finish comes only behind a completed Send. *)
Definition finish_after_send (steps : list json) : Prop :=
  forall i j a b, (i < j)%nat -> steps !! i = Some a -> steps !! j = Some b -> opens a -> finishes b ->
  exists k c, (i < k < j)%nat /\ steps !! k = Some c /\ send_completed c.

(** What the loop knows about the steps so far: which one opened the session,
    and that a Send has completed since once [has_done] is set. *)
Definition steps_inv (s : loop_state) : Prop :=
  match ls_phase s with
  | PEntry => forall i a, ls_steps s !! i = Some a -> ~ opens a
  | PActive _ hd => exists o, (o < length (ls_steps s))%nat /\
      (forall i a, ls_steps s !! i = Some a -> opens a -> i = o) /\
      (forall j b, ls_steps s !! j = Some b -> (o < j)%nat -> ~ finishes b) /\
      (hd = true -> exists k c, (o < k)%nat /\ ls_steps s !! k = Some c /\ send_completed c) /\
      (opt_is (lc_op (ls_last_step s)) "send" = true -> hd = true)
  | PTerminal _ => finish_after_send (ls_steps s)
  end.

Lemma finish_no_open steps b : (forall i a, steps !! i = Some a -> ~ opens a) -> finish_after_send (steps ++ [b]).
Proof.
  intros HF i j a b' Hij Ha Hb Hopen _. exfalso. apply lookup_lt_Some in Hb. rewrite length_app in Hb. simpl in Hb.
  rewrite lookup_app_l in Ha by lia. by eapply HF.
Qed.

Lemma finish_one_open steps b o :
  (forall i a, steps !! i = Some a -> opens a -> i = o) ->
  (forall j b, steps !! j = Some b -> (o < j)%nat -> ~ finishes b) ->
  (finishes b -> exists k c, (o < k)%nat /\ steps !! k = Some c /\ send_completed c) ->
  finish_after_send (steps ++ [b]).
Proof.
  intros Ho Hf Hb i j a b' Hij Ha Hb' Hopen Hfin. pose proof (lookup_lt_Some _ _ _ Hb') as Hlt. rewrite length_app in Hlt. simpl in Hlt.
  rewrite lookup_app_l in Ha by lia. pose proof (Ho _ _ Ha Hopen) as ->.
  destruct (decide (j < length steps)%nat) as [Hj|Hj].
  - rewrite lookup_app_l in Hb' by done. by destruct (Hf _ _ Hb' Hij).
  - assert (j = length steps) as -> by lia. rewrite list_lookup_middle in Hb' by done. injection Hb' as ->.
    destruct (Hb Hfin) as (k & c & Hk & Hc & Hs). pose proof (lookup_lt_Some _ _ _ Hc).
    exists k, c. rewrite lookup_app_l by done. done.
Qed.

Lemma opens_status p r st : hop_status p r = Some st -> opens r -> st = SOpen.
Proof. unfold hop_status. intros H [Ho _]. rewrite Ho in H. congruence. Qed.

Lemma finishes_status p r st : hop_status p r = Some st -> finishes r -> st = SFinished.
Proof. unfold hop_status. intros H [Ho _]. rewrite Ho in H. congruence. Qed.

(** The op of an active hop that counts as a completed Send. *)
Lemma active_send_completed tool hd st r :
  hop_status (PActive tool hd) r = Some st -> result_is_read_only_finish r = false -> st <> SFinished -> st <> SAborted ->
  let op := infer_op (PActive tool hd) st r in
  opt_is op "send" || opt_is op "duplicate_send" = true -> send_completed r.
Proof.
  unfold hop_status. intros H Hr. rewrite Hr in H. simpl in H.
  assert (He : extract_status r = Some st) by (destruct (extract_status r); congruence).
  unfold send_completed. destruct (has_key "archive_ref" r) eqn:Ha; [by left|].
  destruct hd, st; simpl; rewrite ?Ha; try done; try (by right); by destruct (has_key "has_more" r).
Qed.

Lemma lookup_snoc_cases {A} (l : list A) x i y :
  (l ++ [x]) !! i = Some y -> l !! i = Some y \/ (i = length l /\ y = x).
Proof.
  intros H. destruct (decide (i < length l)%nat) as [Hi|Hi]; [rewrite lookup_app_l in H by done; by left|].
  pose proof (lookup_lt_Some _ _ _ H) as Hl. rewrite length_app in Hl. simpl in Hl.
  assert (i = length l) as -> by lia. rewrite list_lookup_middle in H by done. injection H as ->. by right.
Qed.

Lemma next_op p st r last_step :
  result_is_read_only_finish r = false -> lc_op (next_step_context p st r last_step) = infer_op p st r.
Proof. unfold next_step_context. intros ->. simpl. by destruct (opt_is (infer_op p st r) "read"). Qed.

Lemma redundant_after_send r last_step steps : is_redundant_repeat_send r last_step steps = true -> opt_is (lc_op last_step) "send" = true.
Proof. unfold is_redundant_repeat_send. intros H. repeat (apply andb_true_iff in H as [H ?]). done. Qed.

Lemma absorb_entry s f st r sup p :
  ls_phase s = PEntry -> hop_status PEntry r = Some st -> steps_inv s ->
  match absorb s f st r sup p with Continue s' | Break s' => steps_inv s' | Fail _ => True end.
Proof.
  intros Hp Hst Hinv. unfold steps_inv in Hinv. rewrite Hp in Hinv. unfold absorb. rewrite Hp.
  destruct (_ && _); [by apply finish_no_open|].
  destruct (advance f PEntry st r) as [p'|] eqn:Ha; [|done]. unfold advance in Ha.
  destruct (result_is_read_only_finish r) eqn:Hr.
  { injection Ha as <-. unfold steps_inv. simpl. by apply finish_no_open. }
  assert (Hsame : st = SDone \/ st = SDuplicate -> forall i a, (ls_steps s ++ [r]) !! i = Some a -> ~ opens a).
  { intros Hs i a [Hi|[_ ->]]%lookup_snoc_cases; [by eapply Hinv|]. intros Ho%(opens_status _ _ _ Hst). subst. by destruct Hs. }
  destruct st; try discriminate; try (injection Ha as <-; simpl; unfold steps_inv; simpl; first [by apply finish_no_open|apply Hsame; tauto]).
  destruct (extract_tool_binding r) as [b|]; [|done]. injection Ha as <-. simpl. unfold steps_inv. simpl.
  exists (length (ls_steps s)). rewrite length_app. simpl. split; [lia|]. split_and!.
  - intros i a [Hi|[-> _]]%lookup_snoc_cases; [|done]. intros Ho. by destruct (Hinv _ _ Hi).
  - intros j b' Hj%lookup_lt_Some Hlt. rewrite length_app in Hj. simpl in Hj. lia.
  - done.
  - by rewrite next_op.
Qed.

Lemma absorb_active s f st r sup p tool hd :
  ls_phase s = PActive tool hd -> hop_status (PActive tool hd) r = Some st -> steps_inv s ->
  match absorb s f st r sup p with Continue s' | Break s' => steps_inv s' | Fail _ => True end.
Proof.
  intros Hp Hst Hinv. unfold steps_inv in Hinv. rewrite Hp in Hinv.
  destruct Hinv as (o & Ho & Hopen & Hfin & Hdone & Hsend). unfold absorb. rewrite Hp.
  assert (Hbreak : (finishes r -> hd = true) -> finish_after_send (ls_steps s ++ [r])).
  { intros Hf. apply (finish_one_open _ _ o); auto. }
  destruct ((1 <? _)%nat && is_redundant_repeat_send r _ _) eqn:Hred.
  { apply andb_true_iff in Hred as [_ Hred%redundant_after_send]. unfold steps_inv. simpl. apply Hbreak. auto. }
  destruct (advance f (PActive tool hd) st r) as [p'|] eqn:Ha; [|done]. unfold advance in Ha.
  destruct (result_is_read_only_finish r) eqn:Hr.
  { injection Ha as <-. unfold steps_inv. simpl. apply Hbreak. unfold finishes. by intros [_ ?]; congruence. }
  assert (Hcont : st <> SOpen -> st <> SFinished -> st <> SAborted -> forall hd',
    hd' = hd || (opt_is (infer_op (PActive tool hd) st r) "send" || opt_is (infer_op (PActive tool hd) st r) "duplicate_send") ->
    steps_inv (mkLoop (PActive tool hd') (ls_steps s ++ [r]) (next_last st r (ls_last s)) sup
      (next_step_context (PActive tool hd) st r (ls_last_step s))
      (update_archive_ledger (ls_ledger s) (next_step_context (PActive tool hd) st r (ls_last_step s))) (Some p))).
  { intros Hno Hnf Hna hd' ->. unfold steps_inv. simpl. exists o. rewrite length_app, next_op by done. simpl. split; [lia|]. split_and!.
    - intros i a [Hi|[-> ->]]%lookup_snoc_cases; [by apply Hopen|]. by intros ?%(opens_status _ _ _ Hst).
    - intros j b [Hj|[-> ->]]%lookup_snoc_cases; [by apply Hfin|]. by intros _ ?%(finishes_status _ _ _ Hst).
    - intros [Hh|Hs]%orb_true_iff.
      + destruct (Hdone Hh) as (k & c & ? & Hc & ?). exists k, c. split_and!; [done| |done]. by rewrite lookup_app_l by (by eapply lookup_lt_Some).
      + exists (length (ls_steps s)), r. split_and!; [done|by rewrite list_lookup_middle|]. by eapply active_send_completed.
    - intros ->. by rewrite orb_true_r. }
  destruct st; try discriminate; try (injection Ha as <-; by apply Hcont).
  - destruct hd; [|done]. injection Ha as <-. unfold steps_inv. simpl. by apply Hbreak.
  - injection Ha as <-. unfold steps_inv. simpl. apply Hbreak. by intros ?%(finishes_status _ _ _ Hst).
Qed.

Lemma absorb_steps_inv s f st r sup p :
  is_terminal (ls_phase s) = false -> hop_status (ls_phase s) r = Some st -> steps_inv s ->
  match absorb s f st r sup p with Continue s' | Break s' => steps_inv s' | Fail _ => True end.
Proof.
  destruct (ls_phase s) as [|tool hd|] eqn:Hp; [intros _; by apply absorb_entry|intros _; by eapply absorb_active|done].
Qed.

Lemma missing_status_inv s : is_terminal (ls_phase s) = false -> steps_inv s -> finish_after_send (ls_steps s).
Proof.
  unfold steps_inv. destruct (ls_phase s) as [|tool hd|]; [| |done]; intros _ Hinv i j a b Hij Ha Hb Hopen Hfin.
  - by destruct (Hinv _ _ Ha).
  - destruct Hinv as (o & _ & Ho & Hf & _). rewrite (Ho _ _ Ha Hopen) in Hij. by destruct (Hf _ _ Hb Hij).
Qed.

Lemma hop_steps_inv {E} (env : HopEnv E) base base_args e s h e' :
  steps_inv s -> hop env base base_args e s = (h, e') ->
  match h with Continue s' | Break s' => steps_inv s' | Fail _ => True end.
Proof.
  intros Hinv. unfold hop. destruct (is_terminal (ls_phase s)) eqn:Ht; [by intros [= <- <-]|].
  destruct (negb _); [by intros [= <- <-]|]. destruct (read_before env e s _) as [[pb|] e1]; [|by intros [= <- <-]].
  destruct (invoke_function_with_intra _ _ _ _ _) as [[r|] e2]; [|by intros [= <- <-]].
  destruct (hop_status (ls_phase s) r) as [st|] eqn:Hst.
  2:{ intros [= <- <-]. change (finish_after_send (ls_steps s)). by apply missing_status_inv. }
  destruct (read_after _ _ _ _ _ _) as [[[sup p]|] e3]; [|by intros [= <- <-]]. intros [= <- <-]. by apply absorb_steps_inv.
Qed.

Lemma hops_steps_inv {E} (env : HopEnv E) base base_args k e s s' e' :
  steps_inv s -> hops env base base_args k e s = (Ok s', e') -> steps_inv s'.
Proof.
  revert e s. induction k as [|k IH]; intros e s Hinv; cbn [hops]; [by intros [= <- <-]|].
  destruct (hop env base base_args e s) as [h e1] eqn:Hh. pose proof (hop_steps_inv _ _ _ _ _ _ _ Hinv Hh) as Hs.
  destruct h as [s1|s1|]; [by apply IH|by intros [= <- <-]|done].
Qed.

(** In a completed run no session is finished before it did its work:
    between the step that opened a session and a step that finishes it there
    is a Send that completed (or repeated one that had). *)
Theorem session_finish_needs_send {E} (env : HopEnv E) base base_args max_steps e x e' :
  run_step_executor_loop env base base_args max_steps e = (Ok x, e') -> finish_after_send (sr_steps x).
Proof.
  unfold run_step_executor_loop. destruct (hops env _ _ _ _ _) as [h e1] eqn:H. intros [= Hr _].
  destruct h as [s|]; [|done]. injection Hr as <-. simpl.
  assert (Hi : steps_inv loop_init) by (intros i a Hi; by destruct i).
  pose proof (hops_steps_inv _ _ _ _ _ _ _ _ Hi H) as Hs.
  destruct (is_terminal (ls_phase s)) eqn:Ht; [|by apply missing_status_inv].
  unfold steps_inv in Hs. by destruct (ls_phase s).
Qed.

(** ** The conversation a hop sees *)

Lemma take_prefix_growth_app p suf : Forall json_wf p -> take_prefix_growth p (p ++ suf) = Some suf.
Proof. induction 1 as [|x p Hx _ IH]; [done|]. simpl. by rewrite json_eqb_refl. Qed.

Lemma json_list_eqb_length xs ys : json_list_eqb xs ys = true -> length xs = length ys.
Proof. revert ys. induction xs as [|x xs IH]; intros [|y ys]; simpl; try done. intros [_ ?]%andb_true_iff. f_equal. auto. Qed.

Lemma delta_of_growth p suf fid : Forall json_wf p -> hop_lines_from_provider_delta p (p ++ suf) fid = Ok suf.
Proof.
  intros Hp. unfold hop_lines_from_provider_delta. destruct (json_list_eqb (p ++ suf) p) eqn:Heq.
  - apply json_list_eqb_length in Heq. rewrite length_app in Heq. destruct suf; [done|simpl in Heq; lia].
  - by rewrite take_prefix_growth_app.
Qed.

(** No two lines of a conversation are equal. *)
Definition lines_distinct (l : list json) : Prop :=
  forall i j a b, l !! i = Some a -> l !! j = Some b -> json_eqb a b = true -> i = j.

Definition last_lines (n : nat) (l : list json) : list json := drop (length l - n) l.

Definition add_line (prov : list json) (line : json) : list json := if json_mem line prov then prov else prov ++ [line].

Lemma json_mem_spec x l : json_mem x l = true <-> exists w, w ∈ l /\ json_eqb w x = true.
Proof. unfold json_mem. rewrite existsb_exists. setoid_rewrite <-list_elem_of_In. done. Qed.

Lemma add_present prov xs : Forall json_wf xs -> xs ⊆ prov -> foldl add_line prov xs = prov.
Proof.
  induction 1 as [|x xs Hx _ IH]; intros Hsub; [done|]. simpl. unfold add_line at 2.
  rewrite (proj2 (json_mem_spec x prov)).
  - apply IH. intros y Hy. apply Hsub. by right.
  - exists x. split; [apply Hsub; by left|by apply json_eqb_refl].
Qed.

Lemma add_new prov xs : lines_distinct (prov ++ xs) -> foldl add_line prov xs = prov ++ xs.
Proof.
  revert prov. induction xs as [|x xs IH]; intros prov Hd; simpl; [by rewrite app_nil_r|].
  unfold add_line at 2. destruct (json_mem x prov) eqn:Hm.
  - apply json_mem_spec in Hm as (w & [i Hi]%list_elem_of_lookup & He). pose proof (lookup_lt_Some _ _ _ Hi).
    assert (i = length prov); [|lia]. apply (Hd i _ w x); [by rewrite lookup_app_l|by apply list_lookup_middle|done].
  - rewrite IH; by rewrite <-app_assoc.
Qed.

(** Whatever part of the conversation the provider shows, merging the
    supplement completes it. *)
Lemma merge_completes p0 s1 s2 :
  Forall json_wf s1 -> lines_distinct (p0 ++ s1 ++ s2) ->
  append_intra_lines_to_provider_then_cap (p0 ++ s1) (s1 ++ s2) =
  last_lines DEFAULT_LLM_CONTEXT_ITEM_CAP (p0 ++ s1 ++ s2).
Proof.
  intros Hwf Hd. unfold append_intra_lines_to_provider_then_cap.
  change (fun prov line => if json_mem line prov then prov else prov ++ [line]) with add_line.
  assert (Hsub : s1 ⊆ p0 ++ s1) by (intros x Hx; apply elem_of_app; by right).
  rewrite foldl_app, (add_present (p0 ++ s1) s1), add_new by (done || by rewrite <-app_assoc). rewrite <-app_assoc. unfold last_lines. destruct (Nat.ltb_spec DEFAULT_LLM_CONTEXT_ITEM_CAP (length (p0 ++ s1 ++ s2))); [done|].
  replace (length (p0 ++ s1 ++ s2) - DEFAULT_LLM_CONTEXT_ITEM_CAP) with 0%nat by lia. done.
Qed.

(** The conversation only grows, by whole lines, and reading it changes
    nothing: what persisting a hop's rows before it returns promises. *)
Class GrowingConversation {E} (env : HopEnv E) (conversation : E -> list json) : Prop := {
  conversation_read e fname : read_provider_conversation_array env e fname = (Ok (conversation e), e);
  conversation_grows e fname args sup r e' :
    invoke_function_with_intra env e fname args sup = (r, e') -> conversation e `prefix_of` conversation e';
  conversation_wf e : Forall json_wf (conversation e)
}.

Section Growing.
Context {E : Type} (env : HopEnv E) (conversation : E -> list json) `{!GrowingConversation env conversation}.
Context (base : string) (base_args : json) (e0 : E).

(** The supplement is what the conversation gained since the run began. *)
Definition supplement_inv (e : E) (s : loop_state) : Prop :=
  conversation e0 ++ ls_supplement s = conversation e /\
  (ls_prev_lines s = Some (conversation e) \/ ls_prev_lines s = None).

Definition call_complete (c : call E) : Prop :=
  match c with
  | CallRead _ => True
  | CallInvoke e _ _ sup => conversation e0 ++ sup = conversation e
  end.

Lemma append_growth sup e1 e2 fid :
  conversation e0 ++ sup = conversation e1 -> conversation e1 `prefix_of` conversation e2 ->
  exists sup', append_step_intra_deltas sup (conversation e1) (conversation e2) fid = Ok sup' /\
    conversation e0 ++ sup' = conversation e2.
Proof.
  intros Hs [suf Hp]. unfold append_step_intra_deltas. rewrite Hp, delta_of_growth by apply conversation_wf. simpl.
  eexists. split; [done|]. by rewrite app_assoc, Hs.
Qed.

Lemma absorb_lines s f st r sup p :
  match absorb s f st r sup p with
  | Continue s' => ls_supplement s' = sup /\ ls_prev_lines s' = Some p
  | _ => True
  end.
Proof. unfold absorb. destruct (_ && _); [done|]. destruct (advance _ _ _ _) as [q|]; [|done]. by destruct (is_terminal q). Qed.

Lemma hop_growth e log s h e' log' :
  supplement_inv e s -> Forall call_complete log ->
  hop (logged env) base base_args (e, log) s = (h, (e', log')) ->
  Forall call_complete log' /\ match h with Continue s' => supplement_inv e' s' | _ => True end.
Proof.
  intros [Hs Hp] Hlog. unfold hop. destruct (is_terminal (ls_phase s)); [by intros [= <- <- <-]|].
  set (fn := full_name _). simpl. destruct (get_function_signature env e fn); simpl; [|by intros [= <- <- <-]].
  assert (Hb : exists log1, read_before (logged env) (e, log) s fn = (Ok (conversation e), (e, log1)) /\ Forall call_complete log1).
  { unfold read_before. destruct Hp as [->| ->]; [by exists log|]. simpl. rewrite conversation_read. eexists. split; [done|].
    apply Forall_app. split; [done|]. by repeat constructor. }
  destruct Hb as (log1 & -> & Hlog1). simpl. destruct (invoke_function_with_intra env e fn _ _) as [ri e2] eqn:Hi.
  assert (Hlog2 : Forall call_complete (log1 ++ [CallInvoke e fn (hop_args base_args s) (ls_supplement s)])).
  { apply Forall_app. split; [done|]. by repeat constructor. }
  destruct ri as [r|err]; [|by intros [= <- <- <-]]. destruct (hop_status (ls_phase s) r) as [st|]; [|by intros [= <- <- <-]].
  unfold read_after. simpl. rewrite conversation_read.
  pose proof (conversation_grows _ _ _ _ _ _ Hi) as Hg.
  destruct (append_growth _ _ _ (phase_function_id base (ls_phase s)) Hs Hg) as (sup' & Ha & Hs').
  assert (Hd : is_ok (hop_lines_from_provider_delta (conversation e) (conversation e2) (phase_function_id base (ls_phase s))) = true).
  { destruct Hg as [suf ->]. by rewrite delta_of_growth by apply conversation_wf. }
  assert (Hlog3 : Forall call_complete ((log1 ++ [CallInvoke e fn (hop_args base_args s) (ls_supplement s)]) ++ [CallRead fn])).
  { apply Forall_app. split; [done|]. by repeat constructor. }
  destruct (hop_lines_from_provider_delta _ _ _) as [d|]; [|done]. simpl. rewrite Ha. simpl.
  replace (if bool_decide (st = SOpen) then Ok (sup', conversation e2) else Ok (sup', conversation e2))
    with (Ok (E := BamlRtError) (sup', conversation e2)) by (by case_bool_decide).
  intros [= <- <- <-]. split; [done|]. pose proof (absorb_lines s fn st r sup' (conversation e2)) as Hl.
  destruct (absorb _ _ _ _ _ _); [|done..]. destruct Hl as [<- Hl]. split; [done|by left].
Qed.

Lemma hops_growth k e log s r e' log' :
  supplement_inv e s -> Forall call_complete log ->
  hops (logged env) base base_args k (e, log) s = (r, (e', log')) -> Forall call_complete log'.
Proof.
  revert e log s. induction k as [|k IH]; intros e log s Hs Hl; cbn [hops]; [by intros [= <- <- <-]|].
  destruct (hop (logged env) base base_args (e, log) s) as [h [e1 log1]] eqn:Hh.
  destruct (hop_growth _ _ _ _ _ _ Hs Hl Hh) as [Hl1 Hc].
  destruct h as [s1|s1|]; [by apply IH|by intros [= <- <- <-]..].
Qed.
End Growing.

(** Every hop is shown the whole conversation: where the conversation
    only grows and its lines are distinct, a hop's transcript, merged from any
    earlier state of the provider since the run began and the lines the loop
    carries, is the tail of the conversation as it stood at that hop. *)
Theorem hops_see_current_conversation {E} (env : HopEnv E) conversation `{!GrowingConversation env conversation}
    base base_args max_steps e0 r e' log :
  run_step_executor_loop (logged env) base base_args max_steps (e0, []) = (r, (e', log)) ->
  forall e fname args sup prov, CallInvoke e fname args sup ∈ log ->
  lines_distinct (conversation e) -> conversation e0 `prefix_of` prov -> prov `prefix_of` conversation e ->
  append_intra_lines_to_provider_then_cap prov sup = last_lines DEFAULT_LLM_CONTEXT_ITEM_CAP (conversation e).
Proof.
  unfold run_step_executor_loop. destruct (hops _ _ _ _ _ _) as [h [e1 log1]] eqn:H. intros [= _ _ <-].
  assert (Hi : supplement_inv conversation e0 e0 loop_init) by (split; [apply app_nil_r|by right]).
  pose proof (hops_growth env conversation base base_args e0 _ _ _ _ _ _ _ Hi (List.Forall_nil _) H) as Hall.
  intros e fname args sup prov Hin Hd [s1 ->] [s2 Hp].
  rewrite Forall_forall in Hall. pose proof (Hall _ Hin) as Hc. simpl in Hc.
  rewrite <-app_assoc in Hp. assert (sup = s1 ++ s2) as -> by (apply (app_inv_head (conversation e0)); by rewrite Hc, Hp).
  rewrite Hp in *. apply merge_completes; [|done].
  pose proof (conversation_wf (env := env) (conversation := conversation) e) as Hwf. rewrite Hp, !Forall_app in Hwf. tauto.
Qed.

(** ** The archive ledger *)

Definition ledger_ok (l : list ArchiveLedgerEntry) : Prop :=
  (length l <= SESSION_CONTEXT_ARCHIVE_LEDGER_CAP)%nat /\ NoDup (le_ref <$> l) /\
  Forall (fun e => (chars_count (le_header e) <= S SESSION_CONTEXT_ARCHIVE_HEADER_CAP)%nat) l.

Lemma chars_count_app s t : chars_count (s +:+ t) = (chars_count s + chars_count t)%nat.
Proof. induction s as [|a s IH]; [done|]. rewrite str_app_cons. simpl. rewrite IH. lia. Qed.

Lemma take_chars_count n s : (chars_count (take_chars n s) <= n)%nat.
Proof.
  revert n. induction s as [|a s IH]; intros n; simpl; [lia|]. destruct (is_continuation a) eqn:Ha; simpl.
  - rewrite Ha. apply IH.
  - destruct n; simpl; [lia|]. rewrite Ha. specialize (IH n). lia.
Qed.

Lemma ledger_header_bound h :
  (chars_count (strip_archive_header_for_ledger h) <= S SESSION_CONTEXT_ARCHIVE_HEADER_CAP)%nat.
Proof.
  unfold strip_archive_header_for_ledger. set (w := match rsplit_once_str _ _ with Some _ => _ | None => _ end).
  destruct (Nat.ltb_spec SESSION_CONTEXT_ARCHIVE_HEADER_CAP (chars_count w)); [|lia].
  rewrite chars_count_app. pose proof (take_chars_count SESSION_CONTEXT_ARCHIVE_HEADER_CAP w).
  change (chars_count "…") with 1%nat. lia.
Qed.

(** The ledger keeps the newest archives, each once, with short headers. *)
Lemma update_ledger_ok l step : ledger_ok l -> ledger_ok (update_archive_ledger l step).
Proof.
  intros (Hlen & Hnd & Hh). unfold update_archive_ledger.
  destruct (lc_archive_ref step) as [ref|], (lc_output_header step) as [hd|]; try done.
  destruct (existsb _ l) eqn:Hex; [done|]. set (l' := l ++ [_]).
  assert (Hok : NoDup (le_ref <$> l') /\ Forall (fun e => (chars_count (le_header e) <= S SESSION_CONTEXT_ARCHIVE_HEADER_CAP)%nat) l').
  { unfold l'. rewrite fmap_app, NoDup_app, Forall_app. split_and!; try done; try (by repeat constructor).
    - intros x [e [-> He]]%list_elem_of_fmap Hx%list_elem_of_singleton. simpl in Hx.
      rewrite <-not_true_iff_false, existsb_exists in Hex. apply Hex. exists e. split; [by apply list_elem_of_In|].
      by apply String.eqb_eq.
    - apply NoDup_singleton.
    - constructor; [apply ledger_header_bound|constructor]. }
  destruct Hok as [Hnd' Hh']. destruct (Nat.ltb_spec SESSION_CONTEXT_ARCHIVE_LEDGER_CAP (length l')) as [Hlt|Hle]; [|by split_and!].
  split_and!; [rewrite length_drop; lia| |by apply Forall_drop]. rewrite fmap_drop.
  rewrite <-(take_drop (length l' - SESSION_CONTEXT_ARCHIVE_LEDGER_CAP) (le_ref <$> l')), NoDup_app in Hnd'. tauto.
Qed.

(** ** A scripted run *)

(** A model that plays a list of answers; every call adds a line. *)
Definition script_line (n : nat) : json := JObj [("line", JNum (NInt (Z.of_nat n)))].
Definition script_lines (e : list json * nat) : list json := script_line <$> seq 0 e.2.

Definition scripted (functions : list string) : HopEnv (list json * nat) := {|
  get_function_signature _ fname := existsb (String.eqb fname) functions;
  read_provider_conversation_array e _ := (Ok (script_lines e), e);
  invoke_function_with_intra e _ _ _ :=
    match e.1 with
    | [] => (Err (BamlRuntime "script is over"), e)
    | a :: rest => (Ok a, (rest, S e.2))
    end
|}.

#[global] Instance scripted_growing fns : GrowingConversation (scripted fns) script_lines.
Proof.
  split.
  - done.
  - intros [[|a rest] n] f args sup r e'; simpl; intros [= <- <-]; [done|]. unfold script_lines. cbn [snd].
    exists [script_line n]. by rewrite seq_S, fmap_app.
  - intros e. apply Forall_fmap, Forall_true. intros n. simpl. split; [apply NoDup_singleton|done].
Qed.

Definition script_open : json := JObj [("status", JStr "open"); ("tool_name", JStr "support/calculate")].
Definition script_send : json :=
  JObj [("op", JStr "Send"); ("input", JObj [("x", JNum (NInt 1))]); ("status", JStr "done"); ("archive_ref", JStr "@1");
        ("output", JStr "@1 · calculate · 1L · 2B")].
Definition script_finish : json := JObj [("status", JStr "finished")].
Definition script_fns : list string := ["Execute__entry"; "Execute__active__support_calculate"].
Definition script_start : list json * nat := ([script_open; script_send; script_finish], 0%nat).


Lemma executor_bounded_and_narrowed_witness :
  let run := run_step_executor_loop (logged (scripted script_fns)) "Execute" JNull 8 (script_start, []) in
  is_ok run.1 = true /\
  exists n m slug, invoked run.2.2 = replicate n (entry_fn "Execute") ++ replicate m (active_fn "Execute" slug) /\
    (n + m <= 8)%nat /\ (forall x, run.1 = Ok x -> (length (sr_steps x) <= n + m)%nat).
Proof.
  split; [vm_compute; reflexivity|].
  apply (executor_bounded_and_narrowed (scripted script_fns) "Execute" JNull 8 script_start _
    (run_step_executor_loop (logged (scripted script_fns)) "Execute" JNull 8 (script_start, [])).2.1).
  vm_compute. reflexivity.
Defined.

Definition script_result : StepExecutorResult :=
  mkStepResult script_finish [script_open; script_send; script_finish]
    (build_session_context (PTerminal TFinished)
       (mkLast (Some "finish") (Some "finished") None None None) [mkEntry "@1" "calculate"]) None.

Lemma scripted_run : run_step_executor_loop (scripted script_fns) "Execute" JNull 8 script_start = (Ok script_result, ([], 3%nat)).
Proof. vm_compute. reflexivity. Qed.

Lemma completed_run_hides_its_end_witness :
  sr_selected_tool script_result = None /\
  jget "session_open" (sr_session_context script_result) = Some (JBool false) /\
  jget "status" (sr_session_context script_result) = Some (JStr "done").
Proof. exact (completed_run_hides_its_end _ _ _ _ _ _ _ scripted_run). Defined.

Lemma session_finish_needs_send_witness :
  opens script_open /\ finishes script_finish /\ finish_after_send (sr_steps script_result).
Proof.
  split; [by vm_compute|]. split; [by vm_compute|].
  exact (session_finish_needs_send _ _ _ _ _ _ _ scripted_run).
Defined.

Lemma script_lines_distinct e : lines_distinct (script_lines e).
Proof.
  intros i j a b. unfold script_lines. rewrite !list_lookup_fmap.
  intros (x & [-> _]%lookup_seq & ->)%fmap_Some (y & [-> _]%lookup_seq & ->)%fmap_Some.
  simpl. rewrite !andb_true_r. intros ?%Z.eqb_eq. lia.
Qed.

(** The third hop is called with the two lines the run added, whatever the
    provider shows by then. *)
Lemma hops_see_current_conversation_witness :
  let run := run_step_executor_loop (logged (scripted script_fns)) "Execute" JNull 8 (script_start, []) in
  exists args, CallInvoke ([script_finish], 2%nat) "Execute__active__support_calculate" args [script_line 0; script_line 1] ∈ run.2.2 /\
    append_intra_lines_to_provider_then_cap [script_line 0] [script_line 0; script_line 1] = [script_line 0; script_line 1].
Proof.
  intros run. exists (hop_args JNull (mkLoop (PActive (mkBinding (mkToolName "support" "calculate") "support_calculate") true) [] JNull []
    (mkLast (Some "send") (Some "done") (Some "@1") (Some "@1 · calculate · 1L · 2B") None) [mkEntry "@1" "calculate"] None)).
  assert (Hin : CallInvoke ([script_finish], 2%nat) "Execute__active__support_calculate"
    (hop_args JNull (mkLoop (PActive (mkBinding (mkToolName "support" "calculate") "support_calculate") true) [] JNull []
    (mkLast (Some "send") (Some "done") (Some "@1") (Some "@1 · calculate · 1L · 2B") None) [mkEntry "@1" "calculate"] None))
    [script_line 0; script_line 1] ∈ run.2.2).
  { apply list_elem_of_In. vm_compute. auto 20. }
  split; [exact Hin|].
  apply (hops_see_current_conversation (scripted script_fns) script_lines "Execute" JNull 8 script_start run.1 run.2.1 run.2.2
    ltac:(vm_compute; reflexivity) _ _ _ _ _ Hin).
  - apply script_lines_distinct.
  - by exists [script_line 0].
  - by exists [script_line 1].
Defined.

(** An entry hop that answers a legacy status is refused, with a message that
    quotes the status it expects. *)
Lemma legacy_status_refused_on_entry :
  run_step_executor_loop (scripted script_fns) "Execute" JNull 8 ([JObj [("status", JStr "streaming")]], 0%nat) =
  (Err (InvalidArgument "step executor contract violation (Execute__entry): expected ENTRY hop to yield status 'open', 'done', or unified terminal, got 'done'"), ([], 1%nat)).
Proof. vm_compute. reflexivity. Qed.
