(* ===== verification/ToolSessions.v ===== *)
(** * Tool sessions

    [baml-rt-quickjs/src/tool_session_handle.rs]: opening, sending to, reading
    from, finishing and aborting tool sessions, with the maps the handle shares
    between its clones (scopes, call states, effect tokens, reserved anchors);
    [baml-rt-quickjs/src/baml/tool_sessions.rs]: teardown of a context or a
    task; the Send step of [baml/tool_session_plan.rs] with its host retries.
    The tool registry, the interceptors, the archive and the subscribers of the
    effect bus are the interface [ToolEnv]; the counters are those of the effect
    bus.  One session is used by one caller at a time, as the executor does. *)

From stdpp Require Import base list strings gmap.
From Stdlib Require Import ZArith Lia.
From S2P Require Import Prelude RustStr Json Ids Interceptor EffectBus Errors.

Open Scope Z_scope.
Open Scope list_scope.

(** ** Data *)

Definition ToolSessionId := string.

Record ToolSessionScope := mkSessionScope { ss_tool : string; ss_scope : RuntimeScope; ss_open_input : json }.

Inductive Outcome := Success | Failure.

Inductive ToolStep :=
| Streaming (output : json)
| Suspended (output : json)
| Done (output : option json)
| StepError (error : ToolFailure).

(** What the handle calls.  [registry_read] is [None] when no chunk comes within
    the chunk timeout; [emit_answers] are the answers of the envelope subscribers
    to the next emission. *)
Class ToolEnv (E : Type) := {
  registry_open : string -> json -> RuntimeScope -> E -> result ToolSessionId BamlRtError * E;
  registry_send : ToolSessionId -> json -> E -> result unit BamlRtError * E;
  registry_read : ToolSessionId -> json -> E -> option (result ToolStep BamlRtError) * E;
  registry_finish : ToolSessionId -> E -> result unit BamlRtError * E;
  registry_abort : ToolSessionId -> option string -> E -> result unit BamlRtError * E;
  intercept_tool_call : ToolCallContext -> E -> result InterceptorDecision BamlRtError * E;
  notify_tool_call_complete : ToolCallContext -> result json BamlRtError -> E -> E;
  emit_answers : E -> list bool * E;
  allocate_anchor : E -> ActivityAnchorId * E;
  archive_result : ToolSessionId -> string -> json -> json -> ActivityAnchorId -> RuntimeScope -> E -> result (string * string) BamlRtError * E;
  agent_package : option string;
  (** pure code outside the handle: metadata maps, delegation targets, error text *)
  call_metadata : RuntimeScope -> string -> string -> json;
  with_reserved_anchor : ActivityAnchorId -> json -> json;
  delegation_target : string -> json -> option string;
  tool_backend : string -> option string;
  tool_digest : string -> option string;
  error_text : BamlRtError -> string
}.

Inductive registry_call := CallOpen (tool : string) | CallSend (id : ToolSessionId) | CallRead (id : ToolSessionId)
  | CallFinish (id : ToolSessionId) | CallAbort (id : ToolSessionId).

(** [ToolSessionExecutionHandle] and the counters of the bus it emits to.
    [lost] are the tokens that went out of scope uncompleted; [completed] and
    [calls] record what was done. *)
Record handle (E : Type) := mkHandle {
  h_env : E;
  has_emitter : bool;
  scopes : gmap ToolSessionId ToolSessionScope;
  call_states : gmap ToolSessionId ToolCallContext;
  tokens : gmap ToolSessionId token;
  anchors : gmap ToolSessionId ActivityAnchorId;
  counts : counters;
  lost : list token;
  n_started : Z;
  completed : list (token * Outcome);
  calls : list registry_call
}.
Arguments mkHandle {E}.
Arguments h_env {E}. Arguments has_emitter {E}. Arguments scopes {E}. Arguments call_states {E}. Arguments tokens {E}.
Arguments anchors {E}. Arguments counts {E}. Arguments lost {E}. Arguments n_started {E}. Arguments completed {E}. Arguments calls {E}.

(** Updates of one field. *)
Definition set_env {E} (e : E) (h : handle E) : handle E :=
  mkHandle e (has_emitter h) (scopes h) (call_states h) (tokens h) (anchors h) (counts h) (lost h) (n_started h) (completed h) (calls h).
Definition set_scopes {E} m (h : handle E) : handle E :=
  mkHandle (h_env h) (has_emitter h) m (call_states h) (tokens h) (anchors h) (counts h) (lost h) (n_started h) (completed h) (calls h).
Definition set_states {E} m (h : handle E) : handle E :=
  mkHandle (h_env h) (has_emitter h) (scopes h) m (tokens h) (anchors h) (counts h) (lost h) (n_started h) (completed h) (calls h).
Definition set_tokens {E} m l (h : handle E) : handle E :=
  mkHandle (h_env h) (has_emitter h) (scopes h) (call_states h) m (anchors h) (counts h) l (n_started h) (completed h) (calls h).
Definition set_anchors {E} m (h : handle E) : handle E :=
  mkHandle (h_env h) (has_emitter h) (scopes h) (call_states h) (tokens h) m (counts h) (lost h) (n_started h) (completed h) (calls h).
Definition set_bus {E} c l n d (h : handle E) : handle E :=
  mkHandle (h_env h) (has_emitter h) (scopes h) (call_states h) (tokens h) (anchors h) c l n d (calls h).
Definition log_call {E} c (h : handle E) : handle E :=
  mkHandle (h_env h) (has_emitter h) (scopes h) (call_states h) (tokens h) (anchors h) (counts h) (lost h) (n_started h) (completed h) (calls h ++ [c]).

(** ** Operations *)

Section Handle.
Context {E : Type} `{ToolEnv E}.

(** State passing over the handle. *)
Definition M (A : Type) : Type := handle E -> A * handle E.
Definition ret {A} (a : A) : M A := fun h => (a, h).
Definition bindM {A B} (m : M A) (k : A -> M B) : M B := fun h => let '(a, h') := m h in k a h'.
Definition get {A} (f : handle E -> A) : M A := fun h => (f h, h).
Definition modify (f : handle E -> handle E) : M unit := fun h => (tt, f h).
Definition env_op {A} (f : E -> A * E) : M A := fun h => let '(a, e) := f (h_env h) in (a, set_env e h).
Definition call {A} (c : registry_call) (f : E -> A * E) : M A := fun h => env_op f (log_call c h).

Notation "x <- m ;; k" := (bindM m (fun x => k)) (at level 100, m at next level, right associativity).
Notation "m ;;; k" := (bindM m (fun _ => k)) (at level 100, right associativity).

(** [start_tool]; a token whose start could not be emitted is dropped. *)
Definition start_tool (c : ContextId) (m : ToolEffectMetadata) : M (option token) :=
  answers <- env_op emit_answers ;;
  fun h =>
    let t := mkToken c (MTool m) in
    let '(sent, cs) := effect_emit answers (started_event t) (counts h) in
    if sent then (Some t, set_bus cs (lost h) (n_started h + 1) (completed h) h)
    else (None, set_bus cs (lost h ++ [t]) (n_started h + 1) (completed h) h).

(** [token.complete] *)
Definition complete_token (t : token) (o : Outcome) (payload : option json) : M unit :=
  answers <- env_op emit_answers ;;
  modify (fun h => set_bus (effect_emit answers (completed_event t payload) (counts h)).2 (lost h) (n_started h)
                     (completed h ++ [(t, o)]) h).

(** [if let Some((_, token)) = tokens.remove(id) && let Some(emitter) = ..] *)
Definition retire_token (id : ToolSessionId) (o : Outcome) (payload : option json) : M unit :=
  t <- get (fun h => tokens h !! id) ;;
  match t with
  | None => ret tt
  | Some t =>
      emitter <- get has_emitter ;;
      if emitter : bool then modify (fun h => set_tokens (delete id (tokens h)) (lost h) h) ;;; complete_token t o payload
      else modify (fun h => set_tokens (delete id (tokens h)) (lost h ++ [t]) h)
  end.

(** [tokens.insert(id, token)]: a token already there is dropped. *)
Definition insert_token (id : ToolSessionId) (t : token) : M unit :=
  modify (fun h => set_tokens (<[id := t]> (tokens h)) (lost h ++ option_list (tokens h !! id)) h).

(** [let _ = tokens.remove(id)] *)
Definition drop_session_token (id : ToolSessionId) : M unit :=
  modify (fun h => set_tokens (delete id (tokens h)) (lost h ++ option_list (tokens h !! id)) h).

Definition start_for (id : ToolSessionId) (c : ContextId) (m : ToolEffectMetadata) : M unit :=
  t <- start_tool c m ;;
  match t with Some t => insert_token id t | None => ret tt end.

(** [emit_gate_blocked_effect]: an effect that starts and fails at once. *)
Definition emit_failed_effect (c : ContextId) (m : ToolEffectMetadata) : M unit :=
  emitter <- get has_emitter ;;
  if emitter : bool then
    t <- start_tool c m ;;
    match t with Some t => complete_token t Failure None | None => ret tt end
  else ret tt.

Definition effect_metadata (tool : string) (args metadata : json) (target : option string) : ToolEffectMetadata :=
  mkToolMeta tool None args metadata target (tool_backend tool) (tool_digest tool).

(** The context of a call; it is also what is kept of [ToolCallSessionState]. *)
Definition call_context (tool : string) (args metadata : json) (scope : RuntimeScope) (target : option string) : ToolCallContext :=
  mkCall tool args scope metadata agent_package target.

Definition scope_not_found_error (id : ToolSessionId) : BamlRtError := SessionLifecycle (ToolSessionNotFound id).

Definition completion_error_from (err : BamlRtError) : BamlRtError :=
  match err with
  | SessionLifecycle l => SessionLifecycle l
  | StepPlanCorrectable r => StepPlanCorrectable r
  | _ => InvalidArgument (error_text err)
  end.

(** What the interceptors decide: [Ok] goes on, a blocked call is recorded as a
    failed effect. *)
Definition intercept (ctx : ToolCallContext) : M (result unit BamlRtError) :=
  d <- env_op (intercept_tool_call ctx) ;;
  let blocked := emit_failed_effect (scope_context_id (tc_runtime_scope ctx)) (effect_metadata (tc_tool_name ctx) (tc_args ctx) (tc_metadata ctx) None) in
  match d with
  | Ok (RequireAuthorization prompt) => blocked ;;; ret (Err (GateAuthorizationRequired prompt))
  | Ok (Allow | Substitute _) => ret (Ok tt)
  | Ok (Block m) => blocked ;;; ret (Err (ToolExecution ("Tool call blocked by interceptor: " +:+ m)))
  | Err e => ret (Err e)
  end.

Definition open_tool_session (scope : RuntimeScope) (tool_name : string) (open_input : json)
    : M (result ToolSessionId BamlRtError) :=
  let ctx := call_context tool_name open_input (call_metadata scope tool_name "open") scope (delegation_target tool_name open_input) in
  go <- intercept ctx ;;
  match go with
  | Err e => ret (Err e)
  | Ok _ =>
      r <- call (CallOpen tool_name) (registry_open tool_name open_input scope) ;;
      (match r with
       | Err _ => emit_failed_effect (scope_context_id scope) (effect_metadata tool_name open_input (tc_metadata ctx) (tc_delegation_target ctx))
       | Ok _ => ret tt
       end) ;;;
      env_op (fun e => (tt, notify_tool_call_complete ctx
        (match r with Ok _ => Ok JNull | Err e => Err (InvalidArgument (error_text e)) end) e)) ;;;
      match r with
      | Err e => ret (Err e)
      | Ok id =>
          modify (fun h => set_scopes (<[id := mkSessionScope tool_name scope open_input]> (scopes h)) h) ;;;
          ret (Ok id)
      end
  end.

Definition complete_session_lifecycle (id : ToolSessionId) (o : Outcome) (completion : result json BamlRtError) : M unit :=
  retire_token id o None ;;;
  st <- get (fun h => call_states h !! id) ;;
  match st with
  | Some ctx =>
      modify (fun h => set_states (delete id (call_states h)) h) ;;;
      env_op (fun e => (tt, notify_tool_call_complete ctx completion e))
  | None => ret tt
  end ;;;
  modify (fun h => set_scopes (delete id (scopes h)) h).

(** [entries] is the map in the order it happens to be iterated. *)
Definition find_existing_session_for_scope_and_tool (scope : RuntimeScope) (tool_name : string)
    (entries : list (ToolSessionId * ToolSessionScope)) : option ToolSessionId :=
  fst <$> head (List.filter (fun '(_, s) =>
    bool_decide (ss_tool s = tool_name) && bool_decide (scope_context_id (ss_scope s) = scope_context_id scope) &&
    match scope_task_id_opt scope with
    | Some t => bool_decide (scope_task_id_opt (ss_scope s) = Some t)
    | None => true
    end) entries).

Definition collect_session_ids_for_context (c : ContextId) (entries : list (ToolSessionId * ToolSessionScope))
    : list ToolSessionId :=
  fst <$> List.filter (fun '(_, s) => bool_decide (scope_context_id (ss_scope s) = c)) entries.

Definition collect_session_ids_for_task_scope (c : ContextId) (t : TaskId) (entries : list (ToolSessionId * ToolSessionScope))
    : list ToolSessionId :=
  fst <$> List.filter (fun '(_, s) =>
    bool_decide (scope_context_id (ss_scope s) = c) && bool_decide (scope_task_id_opt (ss_scope s) = Some t)) entries.

(** A state and a token for a send, unless one is in flight. *)
Definition send_begin (id : ToolSessionId) (sc : ToolSessionScope) (ctx : ToolCallContext) : M unit :=
  st <- get (fun h => call_states h !! id) ;;
  match st with
  | Some _ => ret tt
  | None =>
      modify (fun h => set_states (<[id := ctx]> (call_states h)) h) ;;;
      emitter <- get has_emitter ;;
      if emitter : bool then
        start_for id (scope_context_id (ss_scope sc))
          (effect_metadata (ss_tool sc) (tc_args ctx) (tc_metadata ctx) (tc_delegation_target ctx))
      else ret tt
  end.

Definition tool_session_send (id : ToolSessionId) (input : json) : M (result unit BamlRtError) :=
  sc <- get (fun h => scopes h !! id) ;;
  match sc with
  | None => ret (Err (scope_not_found_error id))
  | Some sc =>
      let ctx := call_context (ss_tool sc) input (call_metadata (ss_scope sc) (ss_tool sc) "send") (ss_scope sc)
                   (delegation_target (ss_tool sc) (ss_open_input sc)) in
      go <- intercept ctx ;;
      match go with
      | Err e => ret (Err e)
      | Ok _ =>
          send_begin id sc ctx ;;;
          r <- call (CallSend id) (registry_send id input) ;;
          match r with
          | Ok _ =>
              retire_token id Success (Some (JObj [("status"%string, JStr "sent")])) ;;; ret r
          | Err err =>
              st <- get (fun h => call_states h !! id) ;;
              modify (fun h => set_states (delete id (call_states h)) h) ;;;
              retire_token id Failure None ;;;
              env_op (fun e => (tt, notify_tool_call_complete (default ctx st) (Err (completion_error_from err)) e)) ;;;
              ret r
          end
      end
  end.

(** The first half of [tool_session_read]: a token and a state to complete. *)
Definition read_begin (id : ToolSessionId) (sc : ToolSessionScope) (input : json) : M unit :=
  t <- get (fun h => tokens h !! id) ;;
  match t with
  | Some _ => ret tt
  | None =>
      emitter <- get has_emitter ;;
      (if emitter : bool then
         a <- env_op allocate_anchor ;;
         modify (fun h => set_anchors (<[id := a]> (anchors h)) h) ;;;
         start_for id (scope_context_id (ss_scope sc))
           (effect_metadata (ss_tool sc) input (with_reserved_anchor a (call_metadata (ss_scope sc) (ss_tool sc) "read"))
              (delegation_target (ss_tool sc) (ss_open_input sc)))
       else ret tt) ;;;
      st <- get (fun h => call_states h !! id) ;;
      match st with
      | Some _ => ret tt
      | None =>
          modify (fun h => set_states (<[id := call_context (ss_tool sc) input (call_metadata (ss_scope sc) (ss_tool sc) "read")
                                              (ss_scope sc) (delegation_target (ss_tool sc) (ss_open_input sc))]> (call_states h)) h)
      end
  end.

(** The completion a read step carries, if it ends the call. *)
Definition read_completion (r : result ToolStep BamlRtError) : option (result json BamlRtError) :=
  match r with
  | Ok (Done output) => Some (Ok (default JNull output))
  | Ok (StepError f) => Some (Err (tool_failure_to_baml_tool_execution_error f))
  | Err e => Some (Err (completion_error_from e))
  | _ => None
  end.

Definition read_end (id : ToolSessionId) (r : result ToolStep BamlRtError) : M unit :=
  match read_completion r with
  | None => ret tt
  | Some completion =>
      st <- get (fun h => call_states h !! id) ;;
      match st with
      | None => ret tt
      | Some ctx =>
          modify (fun h => set_states (delete id (call_states h)) h) ;;;
          retire_token id (match completion with Ok _ => Success | Err _ => Failure end) (ok completion) ;;;
          a <- get (fun h => anchors h !! id) ;;
          a <- match a with
               | Some a => ret a
               | None => a <- env_op allocate_anchor ;; modify (fun h => set_anchors (<[id := a]> (anchors h)) h) ;;; ret a
               end ;;
          env_op (fun e => (tt, notify_tool_call_complete
            (call_context (tc_tool_name ctx) (tc_args ctx) (with_reserved_anchor a (tc_metadata ctx)) (tc_runtime_scope ctx) (tc_delegation_target ctx))
            completion e))
      end
  end.

(** [None]: no answer within the timeout, the read is dropped where it waits. *)
Definition tool_session_read (id : ToolSessionId) (input : json) : M (option (result ToolStep BamlRtError)) :=
  sc <- get (fun h => scopes h !! id) ;;
  match sc with
  | None => ret (Some (Err (scope_not_found_error id)))
  | Some sc =>
      read_begin id sc input ;;;
      r <- call (CallRead id) (registry_read id input) ;;
      match r with
      | None => ret None
      | Some r => read_end id r ;;; ret (Some r)
      end
  end.

Definition tool_session_finish (id : ToolSessionId) : M (result unit BamlRtError) :=
  sc <- get (fun h => scopes h !! id) ;;
  match sc with
  | None => ret (Err (scope_not_found_error id))
  | Some _ =>
      r <- call (CallFinish id) (registry_finish id) ;;
      complete_session_lifecycle id (match r with Ok _ => Success | Err _ => Failure end)
        (match r with Ok _ => Ok JNull | Err e => Err (completion_error_from e) end) ;;;
      ret r
  end.

Definition tool_session_abort (id : ToolSessionId) (reason : option string) : M (result unit BamlRtError) :=
  sc <- get (fun h => scopes h !! id) ;;
  match sc with
  | None => ret (Err (scope_not_found_error id))
  | Some _ =>
      r <- call (CallAbort id) (registry_abort id reason) ;;
      complete_session_lifecycle id Failure (Err (InvalidArgument (default "Tool session aborted" reason))) ;;;
      ret r
  end.

(** ** Blocking send *)

Record SendResult := mkSendResult { sr_archive_ref : string; sr_header : string; sr_output : json; sr_anchor : ActivityAnchorId }.

Inductive SendBlockingOutcome := Completed (r : SendResult) | ToolFailed (f : ToolFailure).

(** [emit_stream_chunk_static]: the event moves no counter. *)
Definition emit_stream_chunk (c : ContextId) : M unit :=
  emitter <- get has_emitter ;;
  if emitter : bool then
    answers <- env_op emit_answers ;;
    modify (fun h => set_bus (effect_emit answers (ToolStreamChunk c) (counts h)).2 (lost h) (n_started h) (completed h) h)
  else ret tt.

Definition chunk_timeout_error : BamlRtError := InvalidArgument "tool session send_blocking: no chunk received; aborting".

(** The polling loop; [None] while it still polls. *)
Fixpoint poll_until_done (fuel : nat) (id : ToolSessionId) (input : json) (plan_scope : RuntimeScope)
    : M (option (result SendBlockingOutcome BamlRtError)) :=
  match fuel with
  | O => ret None
  | S fuel =>
      r <- tool_session_read id (JObj []) ;;
      match r with
      | None => ret (Some (Err chunk_timeout_error))
      | Some (Err e) => ret (Some (Err e))
      | Some (Ok (Streaming _)) | Some (Ok (Suspended _)) =>
          emit_stream_chunk (scope_context_id plan_scope) ;;; poll_until_done fuel id input plan_scope
      | Some (Ok (Done output)) =>
          let v := default JNull output in
          tool <- get (fun h => default EmptyString (ss_tool <$> scopes h !! id)) ;;
          a <- get (fun h => anchors h !! id) ;;
          modify (fun h => set_anchors (delete id (anchors h)) h) ;;;
          a <- match a with Some a => ret a | None => env_op allocate_anchor end ;;
          ar <- env_op (archive_result id tool input v a plan_scope) ;;
          ret (Some (match ar with
                     | Ok (ref, header) => Ok (Completed (mkSendResult ref header v a))
                     | Err e => Err e
                     end))
      | Some (Ok (StepError f)) =>
          tool_session_abort id (Some (f_message f)) ;;; ret (Some (Ok (ToolFailed f)))
      end
  end.

Definition tool_session_send_blocking (fuel : nat) (id : ToolSessionId) (input : json) (plan_scope : RuntimeScope)
    : M (option (result SendBlockingOutcome BamlRtError)) :=
  r <- tool_session_send id input ;;
  match r with
  | Err e => ret (Some (Err e))
  | Ok _ =>
      modify (fun h => set_anchors (delete id (anchors h)) h) ;;;
      modify (fun h => set_states (delete id (call_states h)) h) ;;;
      drop_session_token id ;;;
      poll_until_done fuel id input plan_scope
  end.

(** ** Teardown *)

Fixpoint finish_all (ids : list ToolSessionId) : M unit :=
  match ids with
  | [] => ret tt
  | id :: rest => tool_session_finish id ;;; finish_all rest
  end.

(** [close_sessions_for_scope]; [order] is how the map is iterated. *)
Definition close_sessions_for_scope (order : gmap ToolSessionId ToolSessionScope -> list (ToolSessionId * ToolSessionScope))
    (c : ContextId) (task : option TaskId) : M unit :=
  ids <- get (fun h => match task with
                       | Some t => collect_session_ids_for_task_scope c t (order (scopes h))
                       | None => collect_session_ids_for_context c (order (scopes h))
                       end) ;;
  finish_all ids.

(** ** The Send step of a plan *)

(** With the session the outcome came from: recovery and reopening change it. *)
Inductive send_step_result := StepDone (id : ToolSessionId) (r : SendResult) | StepToolError (id : ToolSessionId) (f : ToolFailure).

Definition recover_stale_session (order : gmap ToolSessionId ToolSessionScope -> list (ToolSessionId * ToolSessionScope))
    (plan_scope : RuntimeScope) (tool : string) (stale : ToolSessionId) : M (result ToolSessionId BamlRtError) :=
  fresh <- get (fun h => find_existing_session_for_scope_and_tool plan_scope tool (order (scopes h))) ;;
  ret (match fresh with
       | Some id => if bool_decide (id = stale) then Err (scope_not_found_error stale) else Ok id
       | None => Err (scope_not_found_error stale)
       end).

Definition open_input_for_session (h : handle E) (id : ToolSessionId) : option json := ss_open_input <$> scopes h !! id.

Definition reopen_logical_session_after_stale_close (plan_scope : RuntimeScope) (tool : string) (stale : ToolSessionId)
    : M (result ToolSessionId BamlRtError) :=
  input <- get (fun h => default (JObj []) (open_input_for_session h stale)) ;;
  tool_session_finish stale ;;;
  open_tool_session plan_scope tool input.

Definition MAX_HOST_RETRIES : nat := 1.

(** The retry loop around a send outcome, with [attempts] retries left. *)
Fixpoint host_retry (fuel attempts : nat) (id : ToolSessionId) (input : json) (plan_scope : RuntimeScope) (tool : string)
    (out : option (result SendBlockingOutcome BamlRtError)) : M (option (result send_step_result BamlRtError)) :=
  match out with
  | None => ret None
  | Some (Ok (Completed r)) => ret (Some (Ok (StepDone id r)))
  | Some (Ok (ToolFailed f)) =>
      match attempts with
      | S attempts =>
          if should_host_retry (f_classified f) then
            r <- (if bool_decide (code (f_classified f) = "mcp_logical_session_closed"%string)
                  then reopen_logical_session_after_stale_close plan_scope tool id
                  else ret (Ok id)) ;;
            match r with
            | Err e => ret (Some (Err e))
            | Ok id =>
                out <- tool_session_send_blocking fuel id input plan_scope ;;
                host_retry fuel attempts id input plan_scope tool out
            end
          else ret (Some (match disposition (f_classified f) with
                          | Fatal => Err (tool_failure_to_baml_tool_execution_error f)
                          | _ => Ok (StepToolError id f)
                          end))
      | O => ret (Some (match disposition (f_classified f) with
                        | Fatal => Err (tool_failure_to_baml_tool_execution_error f)
                        | _ => Ok (StepToolError id f)
                        end))
      end
  | Some (Err e) =>
      match attempts with
      | S attempts =>
          if should_host_retry_baml_error e then
            out <- tool_session_send_blocking fuel id input plan_scope ;;
            host_retry fuel attempts id input plan_scope tool out
          else ret (Some (Err e))
      | O => ret (Some (Err e))
      end
  end.

Definition send_step order (fuel : nat) (id : ToolSessionId) (input : json) (plan_scope : RuntimeScope) (tool : string)
    : M (option (result send_step_result BamlRtError)) :=
  out <- tool_session_send_blocking fuel id input plan_scope ;;
  match out with
  | Some (Err (SessionLifecycle (ToolSessionNotFound _))) =>
      r <- recover_stale_session order plan_scope tool id ;;
      match r with
      | Err e => ret (Some (Err e))
      | Ok id =>
          out <- tool_session_send_blocking fuel id input plan_scope ;;
          host_retry fuel MAX_HOST_RETRIES id input plan_scope tool out
      end
  | _ => host_retry fuel MAX_HOST_RETRIES id input plan_scope tool out
  end.

(** ** The ledger of effects *)

Definition values (m : gmap ToolSessionId token) : list token := (map_to_list m).*2.

(** The bus as the handle sees it: the tokens in [ts] are in hand, the others
    are kept by sessions. *)
Definition ghost (ts : list token) (h : handle E) : EffectBus.state :=
  EffectBus.mkState (counts h) (ts ++ values (tokens h)) (lost h) (n_started h).

Definition ledger (ts : list token) (h : handle E) : Prop := n_started h <= u32_max -> bus_inv (ghost ts h).

(** Emissions never fail. *)
Definition reliable : Prop := forall e, bus_emit (emit_answers e).1 = true.

(** The fields the bus operations leave alone. *)
Record same_sessions (h h' : handle E) : Prop := {
  ss_scopes : scopes h' = scopes h;
  ss_states : call_states h' = call_states h;
  ss_emitter : has_emitter h' = has_emitter h;
  ss_calls : calls h' = calls h
}.
End Handle.

Lemma tally_perm c sl ts us : ts ≡ₚ us -> tally c sl ts = tally c sl us.
Proof. induction 1; rewrite ?tally_cons in *; lia. Qed.

Lemma bus_inv_perm cs ts us lo n :
  ts ≡ₚ us -> bus_inv (EffectBus.mkState cs ts lo n) -> bus_inv (EffectBus.mkState cs us lo n).
Proof.
  intros Hp [H1 H2 H3]. constructor; simpl in *; [|by rewrite <-Hp|done].
  intros c sl. rewrite H1. apply tally_perm. by rewrite Hp.
Qed.

(** Moving a token between the two lists of the bus. *)
Lemma bus_inv_move cs t ts lo n :
  bus_inv (EffectBus.mkState cs (t :: ts) lo n) -> bus_inv (EffectBus.mkState cs ts (lo ++ [t]) n).
Proof.
  intros [H1 H2 H3]. constructor; simpl in *; [|rewrite !length_app in *; simpl; lia|done].
  intros c sl. rewrite H1, tally_cons, !tally_app, tally_cons, tally_nil. lia.
Qed.

Lemma values_insert (m : gmap ToolSessionId token) id t : m !! id = None -> values (<[id := t]> m) ≡ₚ t :: values m.
Proof. intros Hn. unfold values. by rewrite map_to_list_insert. Qed.

Lemma values_delete (m : gmap ToolSessionId token) id t : m !! id = Some t -> t :: values (delete id m) ≡ₚ values m.
Proof. intros Hs. unfold values. by rewrite <-(map_to_list_delete m id t) by done. Qed.

Lemma values_replace (m : gmap ToolSessionId token) id t :
  option_list (m !! id) ++ values (<[id := t]> m) ≡ₚ t :: values m.
Proof.
  destruct (m !! id) as [u|] eqn:Hm; simpl; [|by apply values_insert].
  rewrite <-insert_delete_eq, values_insert by apply lookup_delete_eq. rewrite <-(values_delete m id u Hm). by constructor.
Qed.

Section Specs.
Context {E : Type} `{ToolEnv E}.
Implicit Types h : handle E.

Lemma same_sessions_refl h : same_sessions h h.
Proof. by constructor. Qed.

Lemma same_sessions_trans h1 h2 h3 : same_sessions h1 h2 -> same_sessions h2 h3 -> same_sessions h1 h3.
Proof. intros [] []. constructor; congruence. Qed.

Lemma start_tool_spec ts c m h :
  ledger ts h ->
  let h' := (start_tool c m h).2 in
  same_sessions h h' /\ tokens h' = tokens h /\ anchors h' = anchors h /\
  match (start_tool c m h).1 with
  | Some t => t = mkToken c (MTool m) /\ ledger (t :: ts) h' /\ lost h' = lost h
  | None => ledger ts h' /\ ~ reliable
  end.
Proof.
  intros Hl. unfold start_tool, bindM, env_op. destruct (emit_answers (h_env h)) as [answers e] eqn:He.
  unfold effect_emit. set (t := mkToken c (MTool m)).
  assert (Hs : forall n, n = n_started h + 1 -> n <= u32_max -> bus_inv (start answers t (ghost ts h))).
  { intros n -> Hn. apply start_inv; [apply Hl; lia|done]. }
  unfold start, effect_emit in Hs. simpl in Hs. simpl. destruct (bus_emit answers) eqn:Hb; simpl.
  - split_and!; [by constructor|done|done|done| |done]. intros Hmax. simpl in Hmax. specialize (Hs _ eq_refl Hmax).
    unfold ghost. simpl. eapply bus_inv_perm; [|exact Hs]. by rewrite Permutation_app_comm.
  - split_and!; [by constructor|done|done| |].
    + intros Hmax. simpl in Hmax. by specialize (Hs _ eq_refl Hmax).
    + intros Hr. specialize (Hr (h_env h)). rewrite He in Hr. simpl in Hr. congruence.
Qed.

Lemma complete_token_spec ts t o payload h :
  ledger (t :: ts) h ->
  let h' := (complete_token t o payload h).2 in
  same_sessions h h' /\ tokens h' = tokens h /\ anchors h' = anchors h /\ lost h' = lost h /\ ledger ts h'.
Proof.
  intros Hl. unfold complete_token, bindM, env_op, modify. destruct (emit_answers (h_env h)) as [answers e] eqn:He. simpl.
  split_and!; [by constructor|done..|]. intros Hmax. simpl in Hmax. specialize (Hl Hmax).
  by apply (complete_counts answers 0 payload (ghost (t :: ts) h) _ Hl).
Qed.

Lemma retire_token_spec ts id o payload h :
  ledger ts h -> (has_emitter h = false -> tokens h = ∅) ->
  let h' := (retire_token id o payload h).2 in
  same_sessions h h' /\ tokens h' = delete id (tokens h) /\ anchors h' = anchors h /\ lost h' = lost h /\ ledger ts h'.
Proof.
  intros Hl Hem. unfold retire_token, bindM, get, ret. simpl. destruct (tokens h !! id) as [t|] eqn:Ht; simpl.
  - destruct (has_emitter h) eqn:He; simpl; [|rewrite Hem in Ht by done; by rewrite lookup_empty in Ht].
    set (h1 := set_tokens (delete id (tokens h)) (lost h) h).
    assert (Hl1 : ledger (t :: ts) h1).
    { intros Hmax. specialize (Hl Hmax). eapply bus_inv_perm; [|exact Hl]. simpl.
      rewrite <-(values_delete (tokens h) id t Ht). by rewrite Permutation_middle. }
    destruct (complete_token_spec ts t o payload h1 Hl1) as ([] & Hs2 & Hs3 & Hs4 & Hs5). unfold bindM, modify. fold h1.
    split_and!; [by constructor|done..].
  - split_and!; [by constructor| |done..]. by rewrite delete_id.
Qed.

Lemma insert_token_spec ts id t h :
  ledger (t :: ts) h ->
  let h' := (insert_token id t h).2 in
  same_sessions h h' /\ tokens h' = <[id := t]> (tokens h) /\ anchors h' = anchors h /\
  lost h' = lost h ++ option_list (tokens h !! id) /\ ledger ts h'.
Proof.
  intros Hl. simpl. split_and!; [by constructor|done..|]. intros Hmax. specialize (Hl Hmax). unfold ghost in *. simpl in *.
  pose proof (values_replace (tokens h) id t) as Hp. destruct (tokens h !! id) as [u|]; simpl in *.
  - apply bus_inv_move. eapply bus_inv_perm; [|exact Hl]. simpl.
    rewrite !Permutation_middle, <-Hp. by rewrite <-!Permutation_middle.
  - rewrite app_nil_r. eapply bus_inv_perm; [|exact Hl]. rewrite Hp. by rewrite Permutation_middle.
Qed.

Lemma drop_token_spec ts id h :
  ledger ts h ->
  let h' := (drop_session_token id h).2 in
  same_sessions h h' /\ tokens h' = delete id (tokens h) /\ anchors h' = anchors h /\
  lost h' = lost h ++ option_list (tokens h !! id) /\ ledger ts h'.
Proof.
  intros Hl. simpl. split_and!; [by constructor|done..|]. intros Hmax. specialize (Hl Hmax). unfold ghost in *. simpl in *.
  destruct (tokens h !! id) as [u|] eqn:Hu; simpl.
  - apply bus_inv_move. eapply bus_inv_perm; [|exact Hl]. rewrite <-(values_delete _ _ _ Hu). by rewrite Permutation_middle.
  - by rewrite app_nil_r, delete_id.
Qed.

Lemma start_for_spec id c m h :
  ledger [] h ->
  let h' := (start_for id c m h).2 in
  same_sessions h h' /\ anchors h' = anchors h /\ ledger [] h' /\
  (tokens h' = tokens h \/ tokens h' = <[id := mkToken c (MTool m)]> (tokens h)) /\
  (reliable -> tokens h !! id = None -> lost h' = lost h).
Proof.
  intros Hl. unfold start_for, bindM. pose proof (start_tool_spec [] c m h Hl) as Hs. cbv zeta in Hs.
  destruct (start_tool c m h) as [[t|] h1]; simpl in *.
  - destruct Hs as (Hss & Ht & Ha & -> & Hl1 & Hlo).
    destruct (insert_token_spec [] id _ h1 Hl1) as (Hs2 & Ht2 & Ha2 & Hlo2 & Hl2). simpl in *.
    split_and!; [by eapply same_sessions_trans|congruence|done|right; by rewrite Ht|].
    intros _ Hn. rewrite Ht, Hn. simpl. rewrite app_nil_r. done.
  - destruct Hs as (Hss & Ht & Ha & Hl1 & Hr). split_and!; [done..|by left|]. intros Hrel. done.
Qed.

Lemma emit_failed_spec c m h :
  ledger [] h ->
  let h' := (emit_failed_effect c m h).2 in
  same_sessions h h' /\ tokens h' = tokens h /\ anchors h' = anchors h /\ ledger [] h' /\ (reliable -> lost h' = lost h).
Proof.
  intros Hl. unfold emit_failed_effect, bindM, get, ret. destruct (has_emitter h); [|by simpl; split_and!; [constructor|..]].
  pose proof (start_tool_spec [] c m h Hl) as Hs. cbv zeta in Hs. destruct (start_tool c m h) as [[t|] h1]; simpl in *.
  - destruct Hs as (Hss & Ht & Ha & -> & Hl1 & Hlo).
    destruct (complete_token_spec [] _ Failure None h1 Hl1) as (Hs2 & Ht2 & Ha2 & Hlo2 & Hl2).
    split_and!; [by eapply same_sessions_trans|congruence|congruence|done|congruence].
  - destruct Hs as (Hss & Ht & Ha & Hl1 & Hr). split_and!; [done..|]. intros Hrel. done.
Qed.

Lemma ledger_env ts h e : ledger ts (set_env e h) <-> ledger ts h.
Proof. done. Qed.

Lemma intercept_spec ctx h :
  ledger [] h ->
  let h' := (intercept ctx h).2 in
  same_sessions h h' /\ tokens h' = tokens h /\ anchors h' = anchors h /\ ledger [] h' /\ (reliable -> lost h' = lost h).
Proof.
  intros Hl. unfold intercept, bindM, env_op. destruct (intercept_tool_call ctx (h_env h)) as [d e].
  set (h1 := set_env e h). assert (Hl1 : ledger [] h1) by done.
  assert (Hs1 : same_sessions h h1) by (by constructor).
  pose proof (fun m => emit_failed_spec (scope_context_id (tc_runtime_scope ctx)) m h1 Hl1) as Hf. cbv zeta in Hf.
  assert (Hblock : forall m (r : result unit BamlRtError),
    let h' := ((let '(_, h2) := emit_failed_effect (scope_context_id (tc_runtime_scope ctx)) m h1 in ret r h2) : _ * _).2 in
    same_sessions h h' /\ tokens h' = tokens h /\ anchors h' = anchors h /\ ledger [] h' /\ (reliable -> lost h' = lost h)).
  { intros m r. specialize (Hf m). destruct (emit_failed_effect _ m h1) as [u h2]. simpl in *.
    destruct Hf as (? & ? & ? & ? & ?). split_and!; [by eapply same_sessions_trans|done..]. }
  destruct d as [[]|]; [| apply Hblock | apply Hblock | | ]; by simpl; split_and!; [constructor|..].
Qed.

Lemma stream_chunk_spec c h :
  ledger [] h ->
  let h' := (emit_stream_chunk c h).2 in
  same_sessions h h' /\ tokens h' = tokens h /\ anchors h' = anchors h /\ lost h' = lost h /\ ledger [] h'.
Proof.
  intros Hl. unfold emit_stream_chunk, bindM, get, env_op, modify, ret. destruct (has_emitter h); [|by simpl; split_and!; [constructor|..]].
  destruct (emit_answers (h_env h)) as [answers e]. simpl. split_and!; [by constructor|done..|].
  intros Hmax. specialize (Hl Hmax). apply (bus_step_inv (ghost [] h)); [|done|done].
  by apply (step_inform answers (ToolStreamChunk c) (ghost [] h)).
Qed.

(** ** The invariant of the handle *)

(** An effect in flight belongs to an open session with a call state, in the
    session's context; its ledger is exact. *)
Record wf h : Prop := {
  wf_tok : forall id t, tokens h !! id = Some t ->
    is_Some (call_states h !! id) /\
    exists sc, scopes h !! id = Some sc /\ tok_context t = scope_context_id (ss_scope sc) /\ slot_of t = STool;
  wf_state : forall id, is_Some (call_states h !! id) -> is_Some (scopes h !! id);
  wf_emitter : has_emitter h = false -> tokens h = ∅;
  wf_ledger : ledger [] h;
  wf_lost : reliable -> lost h = []
}.

(** A change to one session that stays open. *)
Lemma wf_upd id h h' :
  wf h -> scopes h' = scopes h -> has_emitter h' = has_emitter h -> ledger [] h' ->
  (reliable -> lost h' = lost h) ->
  (forall j, j <> id -> tokens h' !! j = tokens h !! j /\ call_states h' !! j = call_states h !! j) ->
  (forall t, tokens h' !! id = Some t -> is_Some (call_states h' !! id) /\
     exists sc, scopes h !! id = Some sc /\ tok_context t = scope_context_id (ss_scope sc) /\ slot_of t = STool) ->
  (is_Some (call_states h' !! id) -> is_Some (scopes h !! id)) ->
  (has_emitter h = false -> tokens h' !! id = None) -> wf h'.
Proof.
  intros [Ht Hs He Hl Hlo] Hsc Hem Hl' Hlo' Hj Htok Hst Hne. constructor; [| | |done|].
  - intros j t Hjt. rewrite Hsc. destruct (decide (j = id)) as [->|Hji]; [by apply Htok|].
    destruct (Hj j Hji) as [Ht' Hs']. rewrite Hs'. apply Ht. congruence.
  - intros j Hjs. rewrite Hsc. destruct (decide (j = id)) as [->|Hji]; [by apply Hst|].
    destruct (Hj j Hji) as [_ Hs']. apply Hs. by rewrite <-Hs'.
  - intros Hf. rewrite Hem in Hf. apply map_eq. intros j. rewrite lookup_empty.
    destruct (decide (j = id)) as [->|Hji]; [by apply Hne|]. destruct (Hj j Hji) as [-> _]. by rewrite He, lookup_empty.
  - intros Hr. rewrite Hlo' by done. by apply Hlo.
Qed.

(** Nothing but the environment, the counters and the anchors changed. *)
Lemma wf_frame h h' :
  wf h -> same_sessions h h' -> tokens h' = tokens h -> ledger [] h' -> (reliable -> lost h' = lost h) -> wf h'.
Proof.
  intros Hw [Hsc Hst Hem _] Ht Hl Hlo. pose proof Hw as [Hw1 Hw2 Hw3 _ Hw5].
  constructor; rewrite ?Hsc, ?Hst, ?Hem, ?Ht; try done. intros Hr. rewrite Hlo by done. by apply Hw5.
Qed.

Lemma wf_env e h : wf h -> wf (set_env e h).
Proof. intros Hw. apply (wf_frame h); [done|by constructor|done|apply Hw|done]. Qed.

Lemma wf_log c h : wf h -> wf (log_call c h).
Proof. intros [H1 H2 H3 H4 H5]. by constructor. Qed.

Lemma wf_anchors m h : wf h -> wf (set_anchors m h).
Proof. intros [H1 H2 H3 H4 H5]. by constructor. Qed.

Lemma wf_call {A} c (f : E -> A * E) h : wf h -> wf (call c f h).2.
Proof. intros Hw. unfold call, env_op. destruct (f _) as [a e]. simpl. by apply wf_env, wf_log. Qed.

(** A call to the registry touches nothing the handle keeps. *)
Lemma call_same {A} c (f : E -> A * E) h :
  let h' := (call c f h).2 in
  scopes h' = scopes h /\ call_states h' = call_states h /\ tokens h' = tokens h /\ has_emitter h' = has_emitter h /\
  anchors h' = anchors h /\ lost h' = lost h /\ (ledger [] h -> ledger [] h').
Proof. unfold call, env_op. destruct (f _) as [a e]. done. Qed.

Lemma wf_retire id o payload h : wf h -> wf (retire_token id o payload h).2.
Proof.
  intros Hw. destruct (retire_token_spec [] id o payload h (wf_ledger h Hw) (wf_emitter h Hw)) as ([Hsc Hst Hem _] & Ht & _ & Hlo & Hl).
  apply (wf_upd id h); [done|done|done|done|done| | | |].
  - intros j Hj. by rewrite Ht, Hst, lookup_delete_ne.
  - intros t. by rewrite Ht, lookup_delete_eq.
  - rewrite Hst. apply (wf_state h Hw).
  - intros _. by rewrite Ht, lookup_delete_eq.
Qed.

(** Forgetting a session altogether. *)
Lemma wf_forget id h h' :
  wf h -> scopes h' = delete id (scopes h) -> call_states h' = delete id (call_states h) -> tokens h' = delete id (tokens h) ->
  has_emitter h' = has_emitter h -> ledger [] h' -> (reliable -> lost h' = lost h) -> wf h'.
Proof.
  intros [H1 H2 H3 H4 H5] Hsc Hst Ht Hem Hl Hlo. constructor; [| | |done|].
  - intros j t Hj. rewrite Ht in Hj. apply lookup_delete_Some in Hj as [Hne Hj]. rewrite Hsc, Hst, !lookup_delete_ne by done. by apply H1.
  - intros j [c Hj]. rewrite Hst in Hj. apply lookup_delete_Some in Hj as [Hne Hj]. rewrite Hsc, lookup_delete_ne by done. apply H2. by exists c.
  - intros Hf. rewrite Hem in Hf. by rewrite Ht, H3, delete_empty.
  - intros Hr. rewrite Hlo by done. by apply H5.
Qed.

Lemma lifecycle_spec id o completion h :
  wf h ->
  let h' := (complete_session_lifecycle id o completion h).2 in
  wf h' /\ scopes h' = delete id (scopes h) /\ call_states h' = delete id (call_states h) /\ tokens h' = delete id (tokens h) /\
  lost h' = lost h.
Proof.
  intros Hw. unfold complete_session_lifecycle, bindM, get, modify, env_op, ret.
  pose proof (retire_token_spec [] id o None h (wf_ledger h Hw) (wf_emitter h Hw)) as Hs. cbv zeta in Hs.
  destruct (retire_token id o None h) as [u h1]. simpl in *. destruct Hs as ([Hsc Hst Hem _] & Ht & Ha & Hlo & Hl).
  assert (Hgo : forall h2, scopes h2 = delete id (scopes h1) -> call_states h2 = delete id (call_states h1) -> tokens h2 = tokens h1 ->
    has_emitter h2 = has_emitter h1 -> ledger [] h2 -> lost h2 = lost h1 ->
    wf h2 /\ scopes h2 = delete id (scopes h) /\ call_states h2 = delete id (call_states h) /\ tokens h2 = delete id (tokens h) /\ lost h2 = lost h).
  { intros h2 E1 E2 E3 E4 E5 E6. rewrite Hsc in E1. rewrite Hst in E2. rewrite Ht in E3. rewrite Hlo in E6.
    split_and!; [|done..]. apply (wf_forget id h); try done; congruence. }
  destruct (call_states h1 !! id) as [ctx|] eqn:Hc; refine (Hgo _ _ _ _ _ _ _); try done. simpl. by rewrite delete_id.
Qed.

(** An unknown session has no state and no token. *)
Lemma wf_unknown id h : wf h -> scopes h !! id = None -> call_states h !! id = None /\ tokens h !! id = None.
Proof.
  intros Hw Hn. split.
  - destruct (call_states h !! id) as [x|] eqn:Hx; [|done]. destruct (wf_state h Hw id) as [y Hy]; [by exists x|congruence].
  - destruct (tokens h !! id) as [t|] eqn:Ht; [|done]. destruct (wf_tok h Hw id t Ht) as (_ & sc & Hsc & _). congruence.
Qed.

(** What finishing and aborting leave of a session: nothing. *)
Definition forgotten id h h' : Prop :=
  wf h' /\ scopes h' = delete id (scopes h) /\ call_states h' = delete id (call_states h) /\ tokens h' = delete id (tokens h) /\
  lost h' = lost h.

Lemma forgotten_unknown id h : wf h -> scopes h !! id = None -> forgotten id h h.
Proof. intros Hw Hn. destruct (wf_unknown id h Hw Hn) as [H1 H2]. split_and!; [done|by rewrite delete_id..|done]. Qed.

Lemma forgotten_call {A} c (f : E -> A * E) id o completion h :
  wf h -> forgotten id h (complete_session_lifecycle id o completion (call c f h).2).2.
Proof.
  intros Hw. pose proof (wf_call c f h Hw) as Hw1. pose proof (call_same c f h) as Hc. cbv zeta in Hc.
  destruct (call c f h) as [r h1]. simpl in *. destruct Hc as (E1 & E2 & E3 & _ & _ & E6 & _).
  destruct (lifecycle_spec id o completion h1 Hw1) as (F1 & F2 & F3 & F4 & F5). unfold forgotten. split_and!; [done|congruence..].
Qed.

Lemma finish_spec id h : wf h -> forgotten id h (tool_session_finish id h).2.
Proof.
  intros Hw. unfold tool_session_finish, bindM, get, ret. destruct (scopes h !! id) eqn:Hsc; [|by apply forgotten_unknown].
  pose proof (fun o c => forgotten_call (CallFinish id) (registry_finish id) id o c h Hw) as Hf.
  destruct (call _ _ h) as [r h1]. simpl in Hf.
  match goal with |- context [complete_session_lifecycle id ?o ?c h1] => specialize (Hf o c); destruct (complete_session_lifecycle id o c h1) end.
  exact Hf.
Qed.

Lemma abort_spec id reason h : wf h -> forgotten id h (tool_session_abort id reason h).2.
Proof.
  intros Hw. unfold tool_session_abort, bindM, get, ret. destruct (scopes h !! id) eqn:Hsc; [|by apply forgotten_unknown].
  pose proof (fun o c => forgotten_call (CallAbort id) (registry_abort id reason) id o c h Hw) as Hf.
  destruct (call _ _ h) as [r h1]. simpl in Hf.
  match goal with |- context [complete_session_lifecycle id ?o ?c h1] => specialize (Hf o c); destruct (complete_session_lifecycle id o c h1) end.
  exact Hf.
Qed.

Lemma wf_send_begin id sc ctx h :
  wf h -> scopes h !! id = Some sc ->
  wf (send_begin id sc ctx h).2 /\ scopes (send_begin id sc ctx h).2 = scopes h.
Proof.
  intros Hw Hsc. unfold send_begin, bindM, modify, get, ret. destruct (call_states h !! id) as [st|] eqn:Hst; [done|].
  simpl. set (h1 := set_states (<[id := ctx]> (call_states h)) h).
  assert (Htn : tokens h !! id = None).
  { destruct (tokens h !! id) as [t|] eqn:Ht; [|done]. destruct (wf_tok h Hw id t Ht) as [[x Hx] _]. congruence. }
  assert (Hw1 : wf h1).
  { apply (wf_upd id h); [done|done|done|apply Hw|done| | |by eauto|done].
    - intros j Hj. simpl. by rewrite lookup_insert_ne.
    - intros t. simpl. congruence. }
  destruct (has_emitter h) eqn:Hem; [|done].
  destruct (start_for_spec id (scope_context_id (ss_scope sc))
    (effect_metadata (ss_tool sc) (tc_args ctx) (tc_metadata ctx) (tc_delegation_target ctx)) h1 (wf_ledger _ Hw1))
    as ([E1 E2 E3 _] & _ & Hl & Ht & Hlo).
  split; [|done]. apply (wf_upd id h1); [done|done|done|done| | | | |].
  - intros Hr. by apply Hlo.
  - intros j Hj. rewrite E2. split; [|done]. destruct Ht as [-> | ->]; [done|]. by rewrite lookup_insert_ne.
  - intros t Hjt. rewrite E2. simpl. rewrite lookup_insert_eq. split; [done|]. exists sc. split; [done|].
    destruct Ht as [Ht|Ht]; rewrite Ht in Hjt; simpl in Hjt; [congruence|]. rewrite lookup_insert_eq in Hjt. by injection Hjt as <-.
  - intros _. by exists sc.
  - intros Hf. simpl in Hf. congruence.
Qed.

Lemma send_spec id input h r h' :
  wf h -> tool_session_send id input h = (r, h') ->
  wf h' /\ scopes h' = scopes h /\ (r = Ok tt -> tokens h' !! id = None).
Proof.
  intros Hw. unfold tool_session_send. unfold bindM at 1, get at 1.
  destruct (scopes h !! id) as [sc|] eqn:Hsc; [|by intros [= <- <-]; split_and!].
  set (ctx := call_context _ _ _ _ _). unfold bindM at 1.
  pose proof (intercept_spec ctx h (wf_ledger h Hw)) as Hi. cbv zeta in Hi. destruct (intercept ctx h) as [[[]|e] h1].
  2: { intros [= <- <-]. simpl in *. destruct Hi as (Hss & Ht & _ & Hl & Hlo). split_and!; [by apply (wf_frame h)|apply Hss|done]. }
  simpl in Hi. destruct Hi as (Hss & Ht & Ha & Hl & Hlo). pose proof (wf_frame h h1 Hw Hss Ht Hl Hlo) as Hw1.
  assert (Hsc1 : scopes h1 !! id = Some sc) by (by rewrite (ss_scopes _ _ Hss)).
  unfold bindM at 1. pose proof (wf_send_begin id sc ctx h1 Hw1 Hsc1) as [Hw2 Hsc2].
  destruct (send_begin id sc ctx h1) as [[] h2]. simpl in Hw2, Hsc2. unfold bindM at 1.
  pose proof (wf_call (CallSend id) (registry_send id input) h2 Hw2) as Hw3.
  pose proof (call_same (CallSend id) (registry_send id input) h2) as Hc. cbv zeta in Hc.
  destruct (call (CallSend id) (registry_send id input) h2) as [[[]|err] h3]. all: simpl in Hw3, Hc.
  - destruct Hc as (Hs3 & _). unfold bindM.
    pose proof (wf_retire id Success (Some (JObj [("status"%string, JStr "sent")])) h3 Hw3) as Hw4.
    pose proof (retire_token_spec [] id Success (Some (JObj [("status"%string, JStr "sent")])) h3 (wf_ledger _ Hw3) (wf_emitter _ Hw3)) as Hr.
    cbv zeta in Hr. destruct (retire_token id Success _ h3) as [u h4]. simpl in *. destruct Hr as ([Hs4 _ _ _] & Ht4 & _).
    intros [= <- <-]. split_and!; [done| |intros _; by rewrite Ht4, lookup_delete_eq]. rewrite Hs4, Hs3, Hsc2. apply Hss.
  - destruct Hc as (Hs3 & _). unfold bindM, get, modify.
    set (h4 := set_states (delete id (call_states h3)) h3).
    pose proof (retire_token_spec [] id Failure None h4 (wf_ledger _ Hw3) (wf_emitter _ Hw3)) as Hr.
    cbv zeta in Hr. destruct (retire_token id Failure None h4) as [u h5]. simpl in Hr. destruct Hr as ([Hs5 Hst5 Hem5 _] & Ht5 & _ & Hlo5 & Hl5).
    unfold env_op, ret. simpl. intros [= <- <-]. split_and!; [|simpl; by rewrite Hs5; simpl; rewrite Hs3, Hsc2, (ss_scopes _ _ Hss)|done]. apply wf_env.
    apply (wf_upd id h3); [done|done|done|done|done| | | |].
    + intros j Hj. rewrite Ht5, Hst5. simpl. by rewrite !lookup_delete_ne.
    + intros t. by rewrite Ht5, lookup_delete_eq.
    + rewrite Hst5. simpl. rewrite lookup_delete_eq. by intros [].
    + intros _. by rewrite Ht5, lookup_delete_eq.
Qed.

Lemma wf_read_begin id sc input h :
  wf h -> scopes h !! id = Some sc ->
  wf (read_begin id sc input h).2 /\ scopes (read_begin id sc input h).2 = scopes h.
Proof.
  intros Hw Hsc. unfold read_begin, bindM, get, ret, modify, env_op.
  destruct (tokens h !! id) as [t|] eqn:Htok; [done|].
  set (ctx := call_context _ _ _ _ _).
  (** a token was started or not; then the state is ensured *)
  assert (Hgo : forall h1, scopes h1 = scopes h -> call_states h1 = call_states h -> has_emitter h1 = has_emitter h ->
    ledger [] h1 -> (reliable -> lost h1 = lost h) ->
    (tokens h1 = tokens h \/ has_emitter h = true /\ exists t, tokens h1 = <[id := t]> (tokens h) /\
       tok_context t = scope_context_id (ss_scope sc) /\ slot_of t = STool) ->
    forall h2, h2 = (match call_states h1 !! id with Some _ => h1 | None => set_states (<[id := ctx]> (call_states h1)) h1 end) ->
    wf h2 /\ scopes h2 = scopes h).
  { intros h1 E1 E2 E3 Hl Hlo Ht h2 Eh2.
    assert (F : scopes h2 = scopes h /\ has_emitter h2 = has_emitter h /\ ledger [] h2 /\ (reliable -> lost h2 = lost h) /\
      tokens h2 = tokens h1 /\ is_Some (call_states h2 !! id) /\ forall j, j <> id -> call_states h2 !! j = call_states h !! j).
    { rewrite Eh2, E2. destruct (call_states h !! id) eqn:Hst; [rewrite E2; split_and!; try done; by eexists|].
      simpl. split_and!; try done; [by rewrite lookup_insert_eq|]. intros j Hj. by rewrite lookup_insert_ne. }
    destruct F as (F1 & F2 & F3 & F4 & F5 & F6 & F7). split; [|done].
    apply (wf_upd id h); [done..| | | |].
    - intros j Hj. split; [|by apply F7]. rewrite F5. destruct Ht as [->|(_ & t & -> & _)]; [done|]. by rewrite lookup_insert_ne.
    - intros t Hjt. split; [done|]. exists sc. split; [done|]. rewrite F5 in Hjt.
      destruct Ht as [Ht|(_ & u & Ht & Hu)]; rewrite Ht in Hjt; [congruence|]. rewrite lookup_insert_eq in Hjt. by injection Hjt as <-.
    - intros _. by exists sc.
    - intros Hf. rewrite F5. destruct Ht as [->|(He & _)]; [done|congruence]. }
  destruct (has_emitter h) eqn:Hem.
  - destruct (allocate_anchor (h_env h)) as [a e]. set (h0 := set_anchors _ _).
    set (m := effect_metadata _ _ _ _). assert (Hl0 : ledger [] h0) by apply Hw.
    pose proof (start_for_spec id (scope_context_id (ss_scope sc)) m h0 Hl0) as Hs. cbv zeta in Hs.
    destruct (start_for id (scope_context_id (ss_scope sc)) m h0) as [[] h1]. simpl in Hs.
    destruct Hs as ([E1 E2 E3 _] & _ & Hl & Ht & Hlo). simpl.
    apply (Hgo h1); [done|done|by rewrite E3|done| | |by destruct (call_states h1 !! id)].
    + intros Hr. by apply Hlo.
    + destruct Ht as [Ht|Ht]; [by left|]. right. split; [done|]. eexists. split; [exact Ht|done].
  - apply (Hgo h); [done|done|done|apply Hw|done|by left|by destruct (call_states h !! id)].
Qed.

Lemma wf_read_end id r h : wf h -> wf (read_end id r h).2 /\ scopes (read_end id r h).2 = scopes h.
Proof.
  intros Hw. unfold read_end. destruct (read_completion r) as [completion|]; [|done].
  unfold bindM, get, modify, ret, env_op. destruct (call_states h !! id) as [ctx|] eqn:Hst; [|done].
  set (h1 := set_states (delete id (call_states h)) h).
  pose proof (fun o p => retire_token_spec [] id o p h1 (wf_ledger _ Hw) (wf_emitter _ Hw)) as Hr. cbv zeta in Hr.
  match goal with |- context [retire_token id ?o ?p h1] => specialize (Hr o p); destruct (retire_token id o p h1) as [u h2] end.
  simpl in Hr. destruct Hr as ([E1 E2 E3 _] & Ht & Ha & Hlo & Hl).
  assert (Hw2 : wf h2).
  { apply (wf_upd id h); [done..| | | |].
    - intros j Hj. rewrite Ht, E2. simpl. by rewrite !lookup_delete_ne.
    - intros t. by rewrite Ht, lookup_delete_eq.
    - rewrite E2. simpl. rewrite lookup_delete_eq. by intros [].
    - intros _. by rewrite Ht, lookup_delete_eq. }
  destruct (anchors h2 !! id); [simpl; split; [by apply wf_env|done]|].
  destruct (allocate_anchor (h_env h2)) as [a e]. simpl. split; [by apply wf_env, wf_anchors, wf_env|done].
Qed.

Lemma read_spec id input h r h' :
  wf h -> tool_session_read id input h = (r, h') -> wf h' /\ scopes h' = scopes h.
Proof.
  intros Hw. unfold tool_session_read. unfold bindM at 1, get at 1.
  destruct (scopes h !! id) as [sc|] eqn:Hsc; [|by intros [= <- <-]].
  unfold bindM at 1. destruct (wf_read_begin id sc input h Hw Hsc) as [Hw1 E1].
  destruct (read_begin id sc input h) as [[] h1]. simpl in Hw1, E1. unfold bindM at 1.
  pose proof (wf_call (CallRead id) (registry_read id input) h1 Hw1) as Hw2.
  pose proof (call_same (CallRead id) (registry_read id input) h1) as Hc. cbv zeta in Hc.
  destruct (call (CallRead id) _ h1) as [[res|] h2]; simpl in Hw2, Hc; destruct Hc as (E2 & _).
  - unfold bindM, ret. destruct (wf_read_end id res h2 Hw2) as [Hw3 E3]. destruct (read_end id res h2) as [u h3]. simpl in *.
    intros [= <- <-]. split; [done|congruence].
  - intros [= <- <-]. split; [done|congruence].
Qed.

Lemma open_spec scope tool input h r h' :
  wf h -> open_tool_session scope tool input h = (r, h') ->
  (forall id, r = Ok id -> scopes h !! id = None) ->
  wf h' /\ match r with
           | Ok id => scopes h' = <[id := mkSessionScope tool scope input]> (scopes h)
           | Err _ => scopes h' = scopes h
           end.
Proof.
  intros Hw. unfold open_tool_session. set (ctx := call_context _ _ _ _ _). unfold bindM at 1.
  pose proof (intercept_spec ctx h (wf_ledger h Hw)) as Hi. cbv zeta in Hi. destruct (intercept ctx h) as [[[]|e] h1].
  2: { intros [= <- <-] _. simpl in *. destruct Hi as (Hss & Ht & _ & Hl & Hlo). split; [by apply (wf_frame h)|apply Hss]. }
  simpl in Hi. destruct Hi as (Hss & Ht & Ha & Hl & Hlo). pose proof (wf_frame h h1 Hw Hss Ht Hl Hlo) as Hw1.
  pose proof (ss_scopes _ _ Hss) as E1. unfold bindM at 1.
  pose proof (wf_call (CallOpen tool) (registry_open tool input scope) h1 Hw1) as Hw2.
  pose proof (call_same (CallOpen tool) (registry_open tool input scope) h1) as Hc. cbv zeta in Hc.
  destruct (call (CallOpen tool) _ h1) as [[id|e] h2]; simpl in Hw2, Hc; destruct Hc as (E2 & _).
  - unfold bindM, ret, env_op, modify. intros [= <- <-] Hfresh. specialize (Hfresh id eq_refl).
    split; [|simpl; by rewrite E2, E1]. set (h3 := set_env _ h2).
    assert (Hw3 : wf h3) by (by apply wf_env). pose proof Hw3 as [W1 W2 W3 W4 W5].
    assert (Hn : scopes h3 !! id = None) by (simpl; by rewrite E2, E1).
    constructor; [| |done|done|done]; simpl.
    + intros j t Hj. destruct (W1 j t Hj) as [Hs (sc & Hsc & Hrest)]. split; [done|]. exists sc. split; [|done].
      rewrite lookup_insert_ne; [done|]. intros ->. simpl in *. congruence.
    + intros j Hj. destruct (decide (id = j)) as [->|Hne]; [by rewrite lookup_insert_eq|]. rewrite lookup_insert_ne by done. by apply W2.
  - unfold bindM, ret, env_op. set (m := effect_metadata _ _ _ _).
    pose proof (emit_failed_spec (scope_context_id scope) m h2 (wf_ledger _ Hw2)) as Hf. cbv zeta in Hf.
    destruct (emit_failed_effect (scope_context_id scope) m h2) as [u h3]. simpl in *. intros [= <- <-] _.
    destruct Hf as (Hs3 & Ht3 & _ & Hl3 & Hlo3). split; [|simpl; by rewrite (ss_scopes _ _ Hs3), E2, E1].
    apply wf_env. by apply (wf_frame h2).
Qed.

Lemma wf_env_op {A} (f : E -> A * E) h : wf h -> wf (env_op f h).2 /\ scopes (env_op f h).2 = scopes h.
Proof. intros Hw. unfold env_op. destruct (f _) as [a e]. split; [by apply wf_env|done]. Qed.

Lemma poll_spec id input ps fuel : forall h r h',
  wf h -> poll_until_done fuel id input ps h = (r, h') ->
  wf h' /\ match r with Some (Ok (ToolFailed _)) => scopes h' = delete id (scopes h) | _ => scopes h' = scopes h end.
Proof.
  induction fuel as [|fuel IH]; intros h r h' Hw; cbn [poll_until_done]; [by intros [= <- <-]|].
  unfold bindM at 1. destruct (tool_session_read id (JObj []) h) as [res h1] eqn:Hr.
  destruct (read_spec _ _ _ _ _ Hw Hr) as [Hw1 E1]. clear Hr.
  assert (Hchunk : forall c, bindM (emit_stream_chunk c) (fun _ => poll_until_done fuel id input ps) h1 = (r, h') ->
    wf h' /\ match r with Some (Ok (ToolFailed _)) => scopes h' = delete id (scopes h) | _ => scopes h' = scopes h end).
  { intros c. unfold bindM. pose proof (stream_chunk_spec c h1 (wf_ledger _ Hw1)) as Hs. cbv zeta in Hs.
    destruct (emit_stream_chunk c h1) as [u h2]. simpl in Hs. destruct Hs as (Hss & Ht & _ & Hlo & Hl).
    assert (Hw2 : wf h2) by (by apply (wf_frame h1)). rewrite <-E1, <-(ss_scopes _ _ Hss). by apply IH. }
  destruct res as [[[v|v|output|f]|e]|]; [by apply Hchunk|by apply Hchunk| | |by intros [= <- <-]|by intros [= <- <-]].
  - unfold bindM, get, modify, ret. set (h2 := set_anchors _ h1). assert (Hw2 : wf h2) by (by apply wf_anchors).
    assert (Hend : forall a h3, wf h3 -> scopes h3 = scopes h ->
      env_op (archive_result id (default ""%string (ss_tool <$> scopes h1 !! id)) input (default JNull output) a ps) h3
        = (env_op (archive_result id (default ""%string (ss_tool <$> scopes h1 !! id)) input (default JNull output) a ps) h3) ->
      (let '(ar, h4) := env_op (archive_result id (default ""%string (ss_tool <$> scopes h1 !! id)) input (default JNull output) a ps) h3 in
       (Some (match ar with Ok (ref, header) => Ok (Completed (mkSendResult ref header (default JNull output) a)) | Err e => Err e end), h4)) = (r, h') ->
      wf h' /\ match r with Some (Ok (ToolFailed _)) => scopes h' = delete id (scopes h) | _ => scopes h' = scopes h end).
    { intros a h3 Hw3 E3 _. destruct (wf_env_op (archive_result id (default ""%string (ss_tool <$> scopes h1 !! id)) input (default JNull output) a ps) h3 Hw3) as [Hw4 E4].
      destruct (env_op _ h3) as [ar h4]. simpl in *. intros [= <- <-]. split; [done|]. destruct ar as [[]|]; congruence. }
    destruct (anchors h1 !! id) as [a|].
    + apply Hend; [done|done|done].
    + destruct (wf_env_op allocate_anchor h2 Hw2) as [Hw3 E3]. destruct (env_op allocate_anchor h2) as [a h3]. simpl in *.
      apply Hend; [done|congruence|done].
  - unfold bindM, ret. pose proof (abort_spec id (Some (f_message f)) h1 Hw1) as Ha.
    destruct (tool_session_abort id (Some (f_message f)) h1) as [u h2]. simpl in Ha. destruct Ha as (Hw2 & E2 & _).
    intros [= <- <-]. split; [done|congruence].
Qed.

Lemma send_blocking_spec fuel id input ps h r h' :
  wf h -> tool_session_send_blocking fuel id input ps h = (r, h') ->
  wf h' /\ match r with Some (Ok (ToolFailed _)) => scopes h' = delete id (scopes h) | _ => scopes h' = scopes h end.
Proof.
  intros Hw. unfold tool_session_send_blocking. unfold bindM at 1.
  destruct (tool_session_send id input h) as [res h1] eqn:Hs. destruct (send_spec _ _ _ _ _ Hw Hs) as (Hw1 & E1 & Hok).
  destruct res as [[]|e]; [|by intros [= <- <-]]. specialize (Hok eq_refl). clear Hs.
  unfold bindM at 1, modify at 1. unfold bindM at 1, modify at 1. unfold bindM at 1.
  set (h2 := set_states _ _).
  assert (Hw2 : wf h2).
  { apply (wf_upd id h1); [done|done|done|apply Hw1|done| | | |].
    - intros j Hj. simpl. by rewrite lookup_delete_ne.
    - intros t. simpl. congruence.
    - simpl. rewrite lookup_delete_eq. by intros [].
    - done. }
  pose proof (drop_token_spec [] id h2 (wf_ledger _ Hw2)) as Hd. cbv zeta in Hd.
  destruct (drop_session_token id h2) as [u h3]. simpl in Hd. destruct Hd as ([E3 E4 E5 _] & Ht & _ & Hlo & Hl).
  assert (Hw3 : wf h3).
  { rewrite delete_id in Ht by done. apply (wf_upd id h2); [done|done|done|done| | | | |].
    - intros _. rewrite Hlo. simpl. rewrite Hok. simpl. by rewrite app_nil_r.
    - intros j Hj. by rewrite Ht, E4.
    - intros t. rewrite Ht. simpl. congruence.
    - rewrite E4. apply (wf_state h2 Hw2).
    - intros _. by rewrite Ht. }
  intros Hp. rewrite <-E1. change (scopes h1) with (scopes h2). rewrite <-E3. by eapply poll_spec.
Qed.

Lemma finish_all_spec ids : forall h,
  wf h ->
  let h' := (finish_all ids h).2 in
  wf h' /\ lost h' = lost h /\
  forall j, scopes h' !! j = (if decide (j ∈ ids) then None else scopes h !! j) /\
            call_states h' !! j = (if decide (j ∈ ids) then None else call_states h !! j) /\
            tokens h' !! j = (if decide (j ∈ ids) then None else tokens h !! j).
Proof.
  induction ids as [|id ids IH]; intros h Hw; cbn [finish_all].
  { split_and!; [done..|]. intros j. by destruct (decide (j ∈ [])) as [Hin%elem_of_nil|]. }
  unfold bindM. pose proof (finish_spec id h Hw) as Hf. destruct (tool_session_finish id h) as [r h1]. simpl in Hf.
  destruct Hf as (Hw1 & E1 & E2 & E3 & E4). destruct (IH h1 Hw1) as (Hw2 & E5 & Hj). split_and!; [done|congruence|].
  intros j. destruct (Hj j) as (-> & -> & ->). rewrite E1, E2, E3.
  destruct (decide (j ∈ ids)) as [Hin|Hin], (decide (j ∈ id :: ids)) as [Hin'|Hin']; rewrite elem_of_cons in Hin'; try done; try tauto.
  - destruct Hin' as [->|?]; [|done]. by rewrite !lookup_delete_eq.
  - by rewrite !lookup_delete_ne by (intros ->; tauto).
Qed.

(** ** Runs *)

Definition fresh_handle (e : E) (emitter : bool) : handle E := mkHandle e emitter ∅ ∅ ∅ ∅ ∅ [] 0 [] [].

(** What callers do with the handle; the registry mints session ids at random,
    so an opened session has a new one. *)
Inductive hstep : handle E -> handle E -> Prop :=
| hs_open scope tool input h r h' :
    open_tool_session scope tool input h = (r, h') -> (forall id, r = Ok id -> scopes h !! id = None) -> hstep h h'
| hs_send id input h : hstep h (tool_session_send id input h).2
| hs_read id input h : hstep h (tool_session_read id input h).2
| hs_finish id h : hstep h (tool_session_finish id h).2
| hs_abort id reason h : hstep h (tool_session_abort id reason h).2
| hs_send_blocking fuel id input ps h : hstep h (tool_session_send_blocking fuel id input ps h).2
| hs_close order c task h : hstep h (close_sessions_for_scope order c task h).2.

Lemma hstep_wf h h' : hstep h h' -> wf h -> wf h'.
Proof.
  intros Hs Hw. destruct Hs as [scope tool input h r h' Hop Hf|id input h|id input h|id h|id reason h|fuel id input ps h|order c task h].
  - by eapply open_spec.
  - destruct (tool_session_send id input h) eqn:Hop. by eapply send_spec.
  - destruct (tool_session_read id input h) eqn:Hop. by eapply read_spec.
  - by apply finish_spec.
  - by apply abort_spec.
  - destruct (tool_session_send_blocking fuel id input ps h) eqn:Hop. by eapply send_blocking_spec.
  - by apply finish_all_spec.
Qed.

Lemma fresh_wf e emitter : wf (fresh_handle e emitter).
Proof.
  constructor; simpl; try done; [by intros ? []|]. intros _. unfold ghost, values. simpl. rewrite map_to_list_empty.
  constructor; simpl; [by intros c []|done|apply map_Forall_empty].
Qed.

Lemma reachable_wf e emitter h : rtc hstep (fresh_handle e emitter) h -> wf h.
Proof.
  intros Hr. apply (rtc_ind_r (R := hstep) wf (fresh_handle e emitter)); [apply fresh_wf|intros y z _ Hs; by apply hstep_wf|done].
Qed.

(** No session of the context is open. *)
Definition context_closed (c : ContextId) h : Prop :=
  forall id sc, scopes h !! id = Some sc -> scope_context_id (ss_scope sc) <> c.

Lemma closed_idle c h :
  wf h -> n_started h <= u32_max -> reliable -> context_closed c h -> n_tool (in_flight (counts h) c) = 0.
Proof.
  intros Hw Hmax Hr Hc. pose proof (b_counts _ (wf_ledger h Hw Hmax) c STool) as Hn. simpl in Hn.
  rewrite (wf_lost h Hw Hr), app_nil_r in Hn. change (EffectBus.get STool ?x) with (n_tool x) in Hn. rewrite Hn.
  destruct (Z.eq_dec (tally c STool (values (tokens h))) 0) as [|Hne]; [done|]. exfalso.
  pose proof (tally_nonneg c STool (values (tokens h))).
  destruct (tally_pos_inv c STool (values (tokens h)) ltac:(lia)) as (t & Ht & Hof).
  apply list_elem_of_fmap in Ht as ([id u] & -> & Hu). apply elem_of_map_to_list in Hu. simpl in *.
  destruct (wf_tok h Hw id u Hu) as (_ & sc & Hsc & Hctx & _). apply andb_true_iff in Hof as [Hof%bool_decide_eq_true _].
  apply (Hc id sc Hsc). congruence.
Qed.

(** Effects of tool sessions are accounted for exactly.  However opens,
    sends, reads, blocking sends, timeouts, failures and teardowns follow each
    other, the tool counter of every context is the number of effects its
    sessions hold plus those lost to failed emissions; an effect in flight
    always belongs to an open session of that context with a call to complete;
    with a bus that accepts what it is sent nothing is lost, and a context
    without open sessions counts as idle. *)
Theorem session_effects_accounted e emitter h :
  rtc hstep (fresh_handle e emitter) h -> n_started h <= u32_max ->
  (forall c, n_tool (in_flight (counts h) c) = tally c STool (values (tokens h)) + tally c STool (lost h)) /\
  (forall id t, tokens h !! id = Some t ->
     is_Some (call_states h !! id) /\ exists sc, scopes h !! id = Some sc /\ tok_context t = scope_context_id (ss_scope sc)) /\
  (reliable -> lost h = []) /\
  (reliable -> forall c, context_closed c h -> n_tool (in_flight (counts h) c) = 0).
Proof.
  intros Hw%reachable_wf Hmax. split_and!.
  - intros c. pose proof (b_counts _ (wf_ledger h Hw Hmax) c STool) as Hn. simpl in Hn. by rewrite tally_app in Hn.
  - intros id t Ht. destruct (wf_tok h Hw id t Ht) as (Hs & sc & Hsc & Hctx & _). split; [done|]. by exists sc.
  - apply Hw.
  - intros Hr c. by apply closed_idle.
Qed.

(** Which sessions a teardown is for. *)
Definition in_teardown (c : ContextId) (task : option TaskId) (sc : ToolSessionScope) : bool :=
  bool_decide (scope_context_id (ss_scope sc) = c) &&
  match task with Some t => bool_decide (scope_task_id_opt (ss_scope sc) = Some t) | None => true end.

Lemma elem_of_teardown order c task h id :
  order (scopes h) ≡ₚ map_to_list (scopes h) ->
  id ∈ (match task with
        | Some t => collect_session_ids_for_task_scope c t (order (scopes h))
        | None => collect_session_ids_for_context c (order (scopes h))
        end) <-> exists sc, scopes h !! id = Some sc /\ in_teardown c task sc = true.
Proof.
  intros Hp. assert (Hf : forall p : ToolSessionId * ToolSessionScope -> bool,
    id ∈ fst <$> List.filter p (order (scopes h)) <-> exists sc, scopes h !! id = Some sc /\ p (id, sc) = true).
  { intros p. rewrite list_elem_of_fmap. split.
    - intros ([i sc] & -> & [Hin Hpp]%list_elem_of_In%List.filter_In). exists sc. split; [|done].
      apply elem_of_map_to_list. rewrite <-Hp. by apply list_elem_of_In.
    - intros (sc & Hsc & Hpp). exists (id, sc). split; [done|]. apply list_elem_of_In, List.filter_In. split; [|done].
      apply list_elem_of_In. rewrite Hp. by apply elem_of_map_to_list. }
  unfold collect_session_ids_for_task_scope, collect_session_ids_for_context, in_teardown.
  destruct task as [t|]; rewrite Hf; [done|]. split; intros (sc & Hsc & Hb); exists sc; by rewrite andb_true_r in *.
Qed.

(** Tearing down a context closes every session of it, tearing down a task
    exactly those of that task, whatever the tools answer and in whatever order
    the sessions are visited: their scopes, call states and effects are gone and
    the other sessions keep theirs; after the teardown of a context its tool
    counter is zero unless an emission had failed. *)
Theorem teardown_closes_scope e emitter order c task h h' :
  rtc hstep (fresh_handle e emitter) h -> order (scopes h) ≡ₚ map_to_list (scopes h) ->
  close_sessions_for_scope order c task h = (tt, h') ->
  (forall id sc, scopes h !! id = Some sc ->
     if in_teardown c task sc
     then scopes h' !! id = None /\ call_states h' !! id = None /\ tokens h' !! id = None
     else scopes h' !! id = Some sc /\ call_states h' !! id = call_states h !! id /\ tokens h' !! id = tokens h !! id) /\
  (task = None -> reliable -> n_started h' <= u32_max -> n_tool (in_flight (counts h') c) = 0).
Proof.
  intros Hw%reachable_wf Hp. unfold close_sessions_for_scope, bindM, get. set (ids := match task with Some _ => _ | None => _ end).
  intros Hop. pose proof (finish_all_spec ids h Hw) as Hf. cbv zeta in Hf. rewrite Hop in Hf. simpl in Hf.
  destruct Hf as (Hw' & _ & Hj). pose proof (fun id => elem_of_teardown order c task h id Hp) as Hin. fold ids in Hin. split.
  - intros id sc Hsc. destruct (Hj id) as (-> & -> & ->).
    destruct (decide (id ∈ ids)) as [Hi|Hi]; destruct (in_teardown c task sc) eqn:Ht; try done.
    + apply Hin in Hi as (sc' & Hsc' & Ht'). congruence.
    + exfalso. apply Hi, Hin. by exists sc.
  - intros -> Hr Hmax. apply closed_idle; [done..|]. intros id sc Hsc Hc. destruct (Hj id) as (Hs & _). rewrite Hsc in Hs.
    destruct (decide (id ∈ ids)) as [Hi|Hi]; [done|]. apply Hi, Hin. exists sc. split; [done|].
    unfold in_teardown. by rewrite bool_decide_eq_true_2.
Qed.

(** A call the interceptors block, hold for authorization or fail on does
    not reach the tool: the send fails, the registry is not called and no
    session, call state or effect of the handle changes. *)
Theorem blocked_send_reaches_no_tool e emitter h id sc input r h' :
  rtc hstep (fresh_handle e emitter) h -> scopes h !! id = Some sc ->
  let ctx := call_context (ss_tool sc) input (call_metadata (ss_scope sc) (ss_tool sc) "send") (ss_scope sc)
               (delegation_target (ss_tool sc) (ss_open_input sc)) in
  (forall v, (intercept_tool_call ctx (h_env h)).1 <> Ok (Substitute v)) -> (intercept_tool_call ctx (h_env h)).1 <> Ok Allow ->
  tool_session_send id input h = (r, h') ->
  is_ok r = false /\ calls h' = calls h /\ scopes h' = scopes h /\ call_states h' = call_states h /\ tokens h' = tokens h.
Proof.
  intros Hw%reachable_wf Hsc ctx Hsub Hall. unfold tool_session_send. unfold bindM at 1, get at 1. rewrite Hsc. fold ctx.
  unfold bindM at 1. pose proof (intercept_spec ctx h (wf_ledger h Hw)) as Hi. cbv zeta in Hi.
  assert (Herr : is_ok (intercept ctx h).1 = false).
  { unfold intercept, bindM, env_op. destruct (intercept_tool_call ctx (h_env h)) as [[[|m|m|v]|err] e1]; simpl in *; try done.
    - by destruct (emit_failed_effect _ _ _).
    - by destruct (emit_failed_effect _ _ _).
    - by specialize (Hsub v). }
  destruct (intercept ctx h) as [[[]|err] h1]; [done|]. simpl in Hi. destruct Hi as ([E1 E2 E3 E4] & Ht & _).
  intros [= <- <-]. done.
Qed.

Lemma send_closed fuel id input ps h :
  scopes h !! id = None -> tool_session_send_blocking fuel id input ps h = (Some (Err (scope_not_found_error id)), h).
Proof.
  intros Hn. unfold tool_session_send_blocking, tool_session_send, bindM, get, ret. by rewrite Hn.
Qed.

(** The host's retry of a failed send cannot succeed: a tool failure aborts
    the session, so when the failure is one to retry (and not the stale MCP
    session that is opened again) the retry finds no session, and the step ends
    with that error in place of the tool's own. *)
Theorem host_retry_hits_closed_session e emitter order fuel id input ps tool h f h1 :
  rtc hstep (fresh_handle e emitter) h ->
  tool_session_send_blocking fuel id input ps h = (Some (Ok (ToolFailed f)), h1) ->
  should_host_retry (f_classified f) = true -> code (f_classified f) <> "mcp_logical_session_closed"%string ->
  send_step order fuel id input ps tool h = (Some (Err (scope_not_found_error id)), h1).
Proof.
  intros Hw%reachable_wf Hs Hretry Hcode. destruct (send_blocking_spec _ _ _ _ _ _ _ Hw Hs) as [_ Hsc].
  unfold send_step, bindM. rewrite Hs. unfold MAX_HOST_RETRIES. cbn [host_retry]. rewrite Hretry, bool_decide_eq_false_2 by done.
  unfold bindM, ret. rewrite send_closed; [done|]. by rewrite Hsc, lookup_delete_eq.
Qed.
End Specs.

(** ** A scripted environment *)

(** The number of sessions opened and the answers to the coming reads. *)
Definition script : Type := nat * list (option (result ToolStep BamlRtError)).

#[local] Instance script_env : ToolEnv script := {
  registry_open _ _ _ e := (Ok ("s" +:+ show_nat e.1), (S e.1, e.2));
  registry_send _ _ e := (Ok tt, e);
  registry_read _ _ e := match e.2 with [] => (None, e) | r :: rest => (r, (e.1, rest)) end;
  registry_finish _ e := (Ok tt, e);
  registry_abort _ _ e := (Ok tt, e);
  intercept_tool_call ctx e := (if String.eqb (tc_tool_name ctx) "rm" && negb (is_null (tc_args ctx)) then Ok (Block "no") else Ok Allow, e);
  notify_tool_call_complete _ _ e := e;
  emit_answers e := ([], e);
  allocate_anchor e := ("prov-1"%string, e);
  archive_result _ _ _ _ _ _ e := (Ok ("@1"%string, "header"%string), e);
  agent_package := None;
  call_metadata _ _ _ := JObj [];
  with_reserved_anchor _ m := m;
  delegation_target _ _ := None;
  tool_backend _ := None;
  tool_digest _ := None;
  error_text _ := EmptyString
}.

Definition demo_scope : RuntimeScope := TaskScope "c" "agent" "m" "t".
Definition busy_failure : ToolFailure :=
  from_classified (mkClassified "rate_limited" HostRetriable "busy" None None) (ToolExecution "busy").

(** A session of tool [tool] was opened. *)
Definition demo_open (tool : string) (answers : list (option (result ToolStep BamlRtError))) : handle script :=
  (open_tool_session demo_scope tool JNull (fresh_handle (0%nat, answers) true)).2.

Lemma demo_open_reachable tool answers : rtc hstep (fresh_handle (0%nat, answers) true) (demo_open tool answers).
Proof.
  apply rtc_once. unfold demo_open. destruct (open_tool_session demo_scope tool JNull (fresh_handle (0%nat, answers) true)) as [r h'] eqn:Hop.
  eapply hs_open; [exact Hop|]. intros id _. apply lookup_empty.
Qed.

(** The session is being read and the tool streams. *)
Definition demo_reading : handle script :=
  (tool_session_read "s0" JNull (demo_open "calc" [Some (Ok (Streaming JNull))])).2.

Lemma demo_reading_reachable : rtc hstep (fresh_handle (0%nat, [Some (Ok (Streaming JNull))]) true) demo_reading.
Proof. eapply rtc_r; [apply demo_open_reachable|apply hs_read]. Qed.

Lemma session_effects_accounted_witness :
  n_tool (in_flight (counts demo_reading) "c") = 1 /\
  n_tool (in_flight (counts demo_reading) "c") = tally "c" STool (values (tokens demo_reading)) + tally "c" STool (lost demo_reading).
Proof.
  split; [vm_compute; reflexivity|].
  apply (session_effects_accounted _ _ _ demo_reading_reachable). vm_compute. discriminate.
Defined.

Lemma teardown_closes_scope_witness :
  let h' := (close_sessions_for_scope map_to_list "c" None demo_reading).2 in
  scopes demo_reading !! "s0"%string = Some (mkSessionScope "calc" demo_scope JNull) /\
  tokens h' !! "s0"%string = None /\ n_tool (in_flight (counts h') "c") = 0.
Proof.
  destruct (close_sessions_for_scope map_to_list "c" None demo_reading) as [[] h'] eqn:Hop.
  destruct (teardown_closes_scope _ _ map_to_list "c" None demo_reading h' demo_reading_reachable (Permutation_refl _) Hop) as [H1 H2].
  assert (Hs : scopes demo_reading !! "s0"%string = Some (mkSessionScope "calc" demo_scope JNull)) by (vm_compute; reflexivity).
  split; [exact Hs|]. specialize (H1 _ _ Hs). simpl in H1. split; [apply H1|]. apply H2; [reflexivity|by intros e|].
  apply (f_equal snd) in Hop. simpl in Hop. rewrite <-Hop. vm_compute. discriminate.
Defined.

Lemma blocked_send_reaches_no_tool_witness :
  let '(r, h') := tool_session_send "s0" (JBool true) (demo_open "rm" []) in
  is_ok r = false /\ calls h' = [CallOpen "rm"].
Proof.
  destruct (tool_session_send "s0" (JBool true) (demo_open "rm" [])) as [r h'] eqn:Hop.
  destruct (blocked_send_reaches_no_tool _ _ (demo_open "rm" []) "s0" (mkSessionScope "rm" demo_scope JNull) (JBool true) r h'
    (demo_open_reachable "rm" [])) as (H1 & H2 & _).
  - vm_compute. reflexivity.
  - vm_compute. discriminate.
  - vm_compute. discriminate.
  - exact Hop.
  - split; [exact H1|]. rewrite H2. vm_compute. reflexivity.
Defined.

Lemma host_retry_hits_closed_session_witness :
  (send_step map_to_list 5 "s0" JNull demo_scope "calc" (demo_open "calc" [Some (Ok (StepError busy_failure))])).1 =
  Some (Err (SessionLifecycle (ToolSessionNotFound "s0"))).
Proof.
  destruct (tool_session_send_blocking 5 "s0" JNull demo_scope (demo_open "calc" [Some (Ok (StepError busy_failure))])) as [r h1] eqn:Hop.
  assert (Hr : r = Some (Ok (ToolFailed busy_failure))) by (apply (f_equal fst) in Hop; vm_compute in Hop |- *; symmetry; exact Hop).
  subst r. rewrite (host_retry_hits_closed_session _ _ map_to_list 5 "s0" JNull demo_scope "calc" _ busy_failure h1
    (demo_open_reachable "calc" [Some (Ok (StepError busy_failure))]) Hop).
  - reflexivity.
  - reflexivity.
  - discriminate.
Defined.

(** A tool that sends no chunk in time: the send fails with an error that says
    it aborts, but the session stays open with its effect in flight. *)
Lemma hung_send_not_aborted :
  let '(r, h') := tool_session_send_blocking 5 "s0" JNull demo_scope (demo_open "calc" []) in
  r = Some (Err chunk_timeout_error) /\ is_Some (scopes h' !! "s0"%string) /\ ~ (CallAbort "s0" ∈ calls h') /\
  n_tool (in_flight (counts h') "c") = 1.
Proof.
  vm_compute. split_and!; [reflexivity|by eexists| |reflexivity].
  intros Hin. repeat (apply elem_of_cons in Hin as [?|Hin]; [discriminate|]). by apply elem_of_nil in Hin.
Qed.
