(* ===== verification/SandboxWire.v ===== *)
(** * The sandbox wire

    [baml-sandbox-protocol] ([codec.rs], [protocol.rs]: length-prefixed JSON
    frames and the JSON-RPC envelopes in them) and [baml-sandbox-adapter]
    ([lib.rs], [panic_catch.rs]: the loop that serves them inside a sandbox).

    A channel is the bytes that have arrived, how the incoming side stands
    behind them, the bytes written, and whether writes fail.  [serde_json] is
    the arguments [to_vec], [from_slice] and [serde_err] (the text of a decoding
    error); the decoding of structs is written out.  The tool is a record of
    operations over its own state. *)

From stdpp Require Import base list strings gmap.
From Stdlib Require Import ZArith Lia Ascii.
From S2P Require Import Prelude RustStr Json.

Open Scope string_scope.
Open Scope list_scope.
Open Scope Z_scope.

(** ** Frames *)

Definition MAX_FRAME_BYTES : Z := 64 * 1024 * 1024.

(** What [std::io::Error] is to this code: its kind and its text. *)
Inductive io_error := UnexpectedEof | OtherIo (text : string).

Definition io_text (e : io_error) : string :=
  match e with UnexpectedEof => "early eof" | OtherIo t => t end.

Inductive CodecError :=
| Serialize (source : string)
| Deserialize (source : string)
| Io (op : string) (source : io_error)
| FrameTooLarge (len max : Z).

Definition CodecError_display (e : CodecError) : string :=
  match e with
  | Serialize source => "failed to serialize TSRPC frame: " +:+ source
  | Deserialize source => "failed to parse TSRPC frame payload as JSON: " +:+ source
  | Io op source => "failed to " +:+ op +:+ " TSRPC frame: " +:+ io_text source
  | FrameTooLarge len max =>
      "TSRPC frame " +:+ show_Z len +:+ " bytes exceeds MAX_FRAME_BYTES " +:+ show_Z max
  end.

(** The errors below it, as [source()] gives them. *)
Definition codec_sources (e : CodecError) : list string :=
  match e with
  | Serialize source | Deserialize source => [source]
  | Io _ source => [io_text source]
  | FrameTooLarge _ _ => []
  end.

Definition be_byte (n : Z) (shift : Z) : ascii := ascii_of_N (Z.to_N (Z.shiftr n shift mod 256)).

(** [u32::to_be_bytes] and [u32::from_be_bytes]. *)
Definition to_be_bytes (n : Z) : string :=
  String (be_byte n 24) (String (be_byte n 16) (String (be_byte n 8) (String (be_byte n 0) EmptyString))).

Fixpoint be_value (acc : Z) (s : string) : Z :=
  match s with
  | EmptyString => acc
  | String a r => be_value (acc * 256 + Z.of_N (byte_of a)) r
  end.

Definition from_be_bytes (s : string) : Z := be_value 0 s.

(** Behind the bytes that arrived: more may come, the peer closed, or reads fail. *)
Inductive ending := Open | Closed | Failing (text : string).

Record channel := mkChannel {
  c_in : string;
  c_end : ending;
  c_out : string;
  c_broken : option string;
}.

Definition with_in (c : channel) (s : string) : channel := mkChannel s (c_end c) (c_out c) (c_broken c).
Definition with_out (c : channel) (s : string) : channel := mkChannel (c_in c) (c_end c) s (c_broken c).

(** A read that returned, failed, or waits for more bytes. *)
Inductive read (A : Type) := Got (a : A) | Failed (e : CodecError) | Waiting.
Arguments Got {A}. Arguments Failed {A}. Arguments Waiting {A}.

Definition str_len (s : string) : Z := Z.of_nat (String.length s).

Definition read_exact (n : Z) (op : string) (c : channel) : channel * read string :=
  if n <=? str_len (c_in c) then (with_in c (str_drop (Z.to_nat n) (c_in c)), Got (str_take (Z.to_nat n) (c_in c)))
  else match c_end c with
       | Open => (c, Waiting)
       | Closed => (with_in c EmptyString, Failed (Io op UnexpectedEof))
       | Failing t => (with_in c EmptyString, Failed (Io op (OtherIo t)))
       end.

(** [write_all]: a broken pipe fails the first write. *)
Definition write_all (op s : string) (c : channel) : channel * result unit CodecError :=
  match c_broken c with
  | Some t => (c, Err (Io op (OtherIo t)))
  | None => (with_out c (c_out c +:+ s), Ok tt)
  end.

Section Codec.
Variable to_vec : json -> string.
Variable from_slice : string -> result json string.

Definition send (v : json) (c : channel) : channel * result unit CodecError :=
  let bytes := to_vec v in
  if MAX_FRAME_BYTES <? str_len bytes then (c, Err (FrameTooLarge (str_len bytes) MAX_FRAME_BYTES))
  else
    let (c1, r1) := write_all "write length" (to_be_bytes (str_len bytes)) c in
    match r1 with
    | Err e => (c1, Err e)
    | Ok _ => write_all "write body" bytes c1
    end.

(** While the frame is incomplete the call waits and the bytes stay its own. *)
Definition recv (c : channel) : channel * read json :=
  let (c1, r1) := read_exact 4 "read length" c in
  match r1 with
  | Waiting => (c, Waiting)
  | Failed e => (c1, Failed e)
  | Got len_buf =>
      let len := from_be_bytes len_buf in
      if MAX_FRAME_BYTES <? len then (c1, Failed (FrameTooLarge len MAX_FRAME_BYTES))
      else
        let (c2, r2) := read_exact len "read body" c1 in
        match r2 with
        | Waiting => (c, Waiting)
        | Failed e => (c2, Failed e)
        | Got body =>
            match from_slice body with
            | Ok v => (c2, Got v)
            | Err source => (c2, Failed (Deserialize source))
            end
        end
  end.

End Codec.

(** ** Envelopes *)

Definition METHOD_DESCRIBE : string := "tool/describe".
Definition METHOD_SCHEMA : string := "tool/schema".
Definition METHOD_INVOKE : string := "tool/invoke".

Definition ERR_METHOD_NOT_FOUND : Z := -32601.
Definition ERR_PARSE_ERROR : Z := -32700.
Definition ERR_INTERNAL : Z := -32000.

Record JsonRpcRequest := mkRequest { rq_jsonrpc : string; rq_method : string; rq_id : Z; rq_params : json }.

Definition JsonRpcRequest_new (method : string) (id : Z) (params : json) : JsonRpcRequest :=
  mkRequest "2.0" method id params.

Record JsonRpcError := mkRpcError { re_code : Z; re_message : string; re_data : option json }.

Record JsonRpcResponse := mkResponse {
  rs_jsonrpc : string; rs_id : Z; rs_result : option json; rs_error : option JsonRpcError
}.

Inductive ErrorClass := ClsConfiguration | ClsInvalidArgument | ClsTransient | ClsPermission | ClsExecution.

Definition ErrorClass_to_json (c : ErrorClass) : json :=
  JStr match c with
       | ClsConfiguration => "configuration"
       | ClsInvalidArgument => "invalid_argument"
       | ClsTransient => "transient"
       | ClsPermission => "permission"
       | ClsExecution => "execution"
       end.

(** A unit variant is its name, or an object with the name and [null]. *)
Definition ErrorClass_from_json (v : json) : option ErrorClass :=
  let named s :=
    if String.eqb s "configuration" then Some ClsConfiguration
    else if String.eqb s "invalid_argument" then Some ClsInvalidArgument
    else if String.eqb s "transient" then Some ClsTransient
    else if String.eqb s "permission" then Some ClsPermission
    else if String.eqb s "execution" then Some ClsExecution
    else None in
  match v with
  | JStr s => named s
  | JObj [(s, JNull)] => named s
  | _ => None
  end.

(** The fields of a struct: an object, or an array with at least [required] and
    at most all of the fields in order. *)
Definition as_struct (names : list string) (required : nat) (v : json) : option (list (string * json)) :=
  match v with
  | JObj fs => Some fs
  | JArr xs =>
      if (required <=? length xs)%nat && (length xs <=? length names)%nat then Some (zip names xs) else None
  | _ => None
  end.

(** An [Option] field: missing or [null] is [None]. *)
Definition opt_field (k : string) (fs : list (string * json)) : option json :=
  match field k fs with Some JNull | None => None | Some v => Some v end.

Definition request_to_json (r : JsonRpcRequest) : json :=
  JObj [("jsonrpc", JStr (rq_jsonrpc r)); ("method", JStr (rq_method r)); ("id", JNum (NInt (rq_id r)));
        ("params", rq_params r)].

Definition request_from_json (v : json) : option JsonRpcRequest :=
  fs ← as_struct ["jsonrpc"; "method"; "id"; "params"] 4 v;
  j ← field "jsonrpc" fs ≫= as_str;
  m ← field "method" fs ≫= as_str;
  i ← field "id" fs ≫= as_u64;
  p ← field "params" fs;
  Some (mkRequest j m i p).

Definition rpc_error_to_json (e : JsonRpcError) : json :=
  JObj ([("code", JNum (NInt (re_code e))); ("message", JStr (re_message e))]
        ++ match re_data e with Some d => [("data", d)] | None => [] end).

Definition as_i32 (v : json) : option Z :=
  match v with JNum (NInt z) => if (-2147483648 <=? z) && (z <=? 2147483647) then Some z else None | _ => None end.

Definition rpc_error_from_json (v : json) : option JsonRpcError :=
  fs ← as_struct ["code"; "message"; "data"] 3 v;
  c ← field "code" fs ≫= as_i32;
  m ← field "message" fs ≫= as_str;
  Some (mkRpcError c m (opt_field "data" fs)).

Definition response_to_json (r : JsonRpcResponse) : json :=
  JObj ([("jsonrpc", JStr (rs_jsonrpc r)); ("id", JNum (NInt (rs_id r)))]
        ++ match rs_result r with Some v => [("result", v)] | None => [] end
        ++ match rs_error r with Some e => [("error", rpc_error_to_json e)] | None => [] end).

Definition response_from_json (v : json) : option JsonRpcResponse :=
  fs ← as_struct ["jsonrpc"; "id"; "result"; "error"] 4 v;
  j ← field "jsonrpc" fs ≫= as_str;
  i ← field "id" fs ≫= as_u64;
  e ← match opt_field "error" fs with
      | None => Some None
      | Some ev => Some <$> rpc_error_from_json ev
      end;
  Some (mkResponse j i (opt_field "result" fs) e).

Record ToolInvokeParams := mkInvokeParams {
  ip_invocation_id : string; ip_tool_name : string; ip_input : json;
  ip_secrets : list (string * json); ip_capabilities : json
}.

Definition invoke_params_to_json (p : ToolInvokeParams) : json :=
  JObj ([("invocation_id", JStr (ip_invocation_id p)); ("tool_name", JStr (ip_tool_name p)); ("input", ip_input p)]
        ++ match ip_secrets p with [] => [] | m => [("secrets", JObj m)] end
        ++ match ip_capabilities p with JNull => [] | v => [("capabilities", v)] end).

Definition invoke_params_from_json (v : json) : option ToolInvokeParams :=
  fs ← as_struct ["invocation_id"; "tool_name"; "input"; "secrets"; "capabilities"] 3 v;
  i ← field "invocation_id" fs ≫= as_str;
  t ← field "tool_name" fs ≫= as_str;
  inp ← field "input" fs;
  sec ← match field "secrets" fs with None => Some [] | Some s => as_object s end;
  Some (mkInvokeParams i t inp sec (default JNull (field "capabilities" fs))).

Record ToolInvokeResult := mkInvokeResult { ir_output : json; ir_done : bool }.

Definition invoke_result_to_json (r : ToolInvokeResult) : json :=
  JObj [("output", ir_output r); ("done", JBool (ir_done r))].

Definition invoke_result_from_json (v : json) : option ToolInvokeResult :=
  fs ← as_struct ["output"; "done"] 1 v;
  o ← field "output" fs;
  d ← match field "done" fs with None => Some false | Some b => as_bool b end;
  Some (mkInvokeResult o d).

Record ToolDescribeResult := mkDescribe {
  td_protocol_version : string; td_tool_name : string; td_supported_methods : list string;
  td_max_payload_bytes : option Z; td_schema_digest : option string; td_capabilities : option json
}.

Definition describe_to_json (d : ToolDescribeResult) : json :=
  JObj [("protocol_version", JStr (td_protocol_version d)); ("tool_name", JStr (td_tool_name d));
        ("supported_methods", JArr (JStr <$> td_supported_methods d));
        ("max_payload_bytes", from_option (fun z => JNum (NInt z)) JNull (td_max_payload_bytes d));
        ("schema_digest", from_option JStr JNull (td_schema_digest d));
        ("capabilities", default JNull (td_capabilities d))].

Record EventSchema := mkEventSchema { es_schema_version : string; es_name : option string; es_schema : json }.

Definition event_schema_to_json (e : EventSchema) : json :=
  JObj ([("schema_version", JStr (es_schema_version e))]
        ++ match es_name e with Some n => [("name", JStr n)] | None => [] end
        ++ [("schema", es_schema e)]).

Record ToolSchemaResult := mkSchema {
  ts_schema_version : Z; ts_tool_name : string; ts_content_type : string; ts_content_digest : string;
  ts_input : json; ts_output : json; ts_events : list EventSchema
}.

Definition schema_to_json (s : ToolSchemaResult) : json :=
  JObj ([("schema_version", JNum (NInt (ts_schema_version s))); ("tool_name", JStr (ts_tool_name s));
         ("content_type", JStr (ts_content_type s)); ("content_digest", JStr (ts_content_digest s))]
        ++ match ts_input s with JNull => [] | v => [("input", v)] end
        ++ match ts_output s with JNull => [] | v => [("output", v)] end
        ++ match ts_events s with [] => [] | es => [("events", JArr (event_schema_to_json <$> es))] end).

(** [Vec<T>] of what [f] decodes. *)
Definition vec_field {A} (f : json -> option A) (k : string) (fs : list (string * json)) : option (list A) :=
  match field k fs with None => Some [] | Some v => xs ← as_array v; mapM f xs end.

(** An [Option<T>] field with what [f] decodes. *)
Definition decode_opt {A} (f : json -> option A) (v : option json) : option (option A) :=
  match v with None => Some None | Some x => Some <$> f x end.

(** [schema_hash] is an alias of [schema_digest]; both at once are a duplicate. *)
Definition describe_from_json (v : json) : option ToolDescribeResult :=
  fs ← as_struct ["protocol_version"; "tool_name"; "supported_methods"; "max_payload_bytes"; "schema_digest"; "capabilities"] 2 v;
  p ← field "protocol_version" fs ≫= as_str;
  t ← field "tool_name" fs ≫= as_str;
  ms ← vec_field as_str "supported_methods" fs;
  mx ← decode_opt as_u64 (opt_field "max_payload_bytes" fs);
  if contains_key "schema_digest" fs && contains_key "schema_hash" fs then None
  else
    d ← decode_opt as_str (opt_or (opt_field "schema_digest" fs) (opt_field "schema_hash" fs));
    Some (mkDescribe p t ms mx d (opt_field "capabilities" fs)).

Definition event_schema_from_json (v : json) : option EventSchema :=
  fs ← as_struct ["schema_version"; "name"; "schema"] 3 v;
  ver ← field "schema_version" fs ≫= as_str;
  n ← decode_opt as_str (opt_field "name" fs);
  sc ← field "schema" fs;
  Some (mkEventSchema ver n sc).

Definition schema_from_json (v : json) : option ToolSchemaResult :=
  fs ← as_struct ["schema_version"; "tool_name"; "content_type"; "content_digest"; "input"; "output"; "events"] 4 v;
  ver ← field "schema_version" fs ≫= as_u64;
  t ← field "tool_name" fs ≫= as_str;
  ct ← match field "content_type" fs with None => Some "application/schema+json" | Some x => as_str x end;
  cd ← field "content_digest" fs ≫= as_str;
  es ← vec_field event_schema_from_json "events" fs;
  Some (mkSchema ver t ct cd (default JNull (field "input" fs)) (default JNull (field "output" fs)) es).

(** ** The adapter *)

Definition UNKNOWN_REQUEST_ID : Z := 0.

(** [chain] is what [source()] yields, outermost first. *)
Inductive AdapterError :=
| InvalidArgument (m : string)
| Configuration (m : string)
| Permission (m : string)
| Transient (message : string) (chain : list string)
| Execution (message : string) (chain : list string).

Definition AdapterError_display (e : AdapterError) : string :=
  match e with
  | InvalidArgument m => "invalid argument: " +:+ m
  | Configuration m => "configuration error: " +:+ m
  | Permission m => "permission denied: " +:+ m
  | Transient m _ => "transient failure: " +:+ m
  | Execution m _ => "execution failure: " +:+ m
  end.

Definition error_class (e : AdapterError) : ErrorClass :=
  match e with
  | InvalidArgument _ => ClsInvalidArgument
  | Configuration _ => ClsConfiguration
  | Permission _ => ClsPermission
  | Transient _ _ => ClsTransient
  | Execution _ _ => ClsExecution
  end.

Definition collect_source_chain (e : AdapterError) : list string :=
  match e with Transient _ chain | Execution _ chain => chain | _ => [] end.

Definition into_json_rpc (e : AdapterError) : JsonRpcError :=
  let data := [("error_class", ErrorClass_to_json (error_class e))] in
  mkRpcError ERR_INTERNAL (AdapterError_display e)
    (Some (JObj match collect_source_chain e with
                | [] => data
                | chain => map_insert "source" (JArr (JStr <$> chain)) data
                end)).

(** What a panic carries. *)
Inductive payload := PayloadString (s : string) | PayloadStr (s : string) | PayloadOther.

Definition panic_message (p : payload) : string :=
  match p with
  | PayloadString s | PayloadStr s => s
  | PayloadOther => "panic (non-string payload)"
  end.

Inductive invocation := Returned (r : result ToolInvokeResult AdapterError) | Panicked (p : payload).

(** [catch_tool_panic] *)
Definition catch_tool_panic (i : invocation) : result (result ToolInvokeResult AdapterError) string :=
  match i with Returned r => Ok r | Panicked p => Err (panic_message p) end.

Record SandboxTool (S : Type) := mkTool {
  describe : S -> ToolDescribeResult;
  schema : S -> option ToolSchemaResult;
  invoke : S -> ToolInvokeParams -> S * invocation;
}.
Arguments describe {S}. Arguments schema {S}. Arguments invoke {S}.

Definition success_response (id : Z) (res : json) : JsonRpcResponse := mkResponse "2.0" id (Some res) None.

Definition error_response (id code : Z) (message : string) (class : ErrorClass) : JsonRpcResponse :=
  mkResponse "2.0" id None
    (Some (mkRpcError code message (Some (JObj [("error_class", ErrorClass_to_json class)])))).

Inductive RecvFate := Eof | WireDesync (e : AdapterError) | ParseError (msg : string).

Definition classify_recv_error (err : CodecError) : RecvFate :=
  match err with
  | Io op UnexpectedEof =>
      if String.eqb op "read length" then Eof
      else WireDesync (Execution ("stdin " +:+ op +:+ " failed: " +:+ io_text UnexpectedEof) [io_text UnexpectedEof])
  | Io op source => WireDesync (Execution ("stdin " +:+ op +:+ " failed: " +:+ io_text source) [io_text source])
  | FrameTooLarge len max =>
      WireDesync (Execution ("inbound frame " +:+ show_Z len +:+ " bytes exceeds MAX_FRAME_BYTES " +:+ show_Z max) [])
  | Deserialize source => ParseError ("invalid JSON frame: " +:+ source)
  | Serialize source => ParseError ("unexpected serialize error on recv: " +:+ source)
  end.

Section Adapter.
Variable to_vec : json -> string.
Variable from_slice : string -> result json string.
(** The text of the error of [serde_json::from_value]. *)
Variable serde_err : json -> string.
Context {S : Type} (tool : SandboxTool S).

Definition dispatch_one (s : S) (req : JsonRpcRequest) : S * JsonRpcResponse :=
  if String.eqb (rq_method req) METHOD_DESCRIBE then
    (s, success_response (rq_id req) (describe_to_json (describe tool s)))
  else if String.eqb (rq_method req) METHOD_SCHEMA then
    (s, match schema tool s with
        | Some sc => success_response (rq_id req) (schema_to_json sc)
        | None => error_response (rq_id req) ERR_METHOD_NOT_FOUND ("unknown method '" +:+ rq_method req +:+ "'")
                    ClsInvalidArgument
        end)
  else if String.eqb (rq_method req) METHOD_INVOKE then
    match invoke_params_from_json (rq_params req) with
    | None => (s, error_response (rq_id req) ERR_PARSE_ERROR
                    ("invalid tool/invoke params: " +:+ serde_err (rq_params req)) ClsInvalidArgument)
    | Some params =>
        let (s', i) := invoke tool s params in
        (s', match catch_tool_panic i with
             | Ok (Ok r) => success_response (rq_id req) (invoke_result_to_json r)
             | Ok (Err e) => mkResponse "2.0" (rq_id req) None (Some (into_json_rpc e))
             | Err panic_msg => error_response (rq_id req) ERR_INTERNAL ("tool panicked: " +:+ panic_msg) ClsExecution
             end)
    end
  else
    (s, error_response (rq_id req) ERR_METHOD_NOT_FOUND ("unknown method '" +:+ rq_method req +:+ "'") ClsInvalidArgument).

(** What the loop does with a frame that was read. *)
Definition answer (s : S) (raw : json) : S * JsonRpcResponse :=
  match request_from_json raw with
  | None => (s, error_response UNKNOWN_REQUEST_ID ERR_PARSE_ERROR
                  ("invalid JSON-RPC request envelope: " +:+ serde_err raw) ClsInvalidArgument)
  | Some request =>
      if negb (String.eqb (rq_jsonrpc request) "2.0") then
        (s, error_response (rq_id request) ERR_INTERNAL
              ("unsupported JSON-RPC envelope version '" +:+ rq_jsonrpc request +:+ "': adapter requires '2.0'")
              ClsInvalidArgument)
      else dispatch_one s request
  end.

Definition send_or_terminate (response : JsonRpcResponse) (c : channel) : channel * result unit AdapterError :=
  let (c', r) := send to_vec (response_to_json response) c in
  (c', map_err (fun err => Execution ("failed to send response frame: " +:+ CodecError_display err)
                             (CodecError_display err :: codec_sources err)) r).

(** Where the loop stands when it can go no further. *)
Inductive loop_end := Blocked | Exited (r : result unit AdapterError).

(** One round: [None] when the loop goes on. *)
Definition serve_one (s : S) (c : channel) : S * channel * option loop_end :=
  let reply (s : S) (c : channel) (response : JsonRpcResponse) :=
    let (c', r) := send_or_terminate response c in
    (s, c', match r with Ok _ => None | Err e => Some (Exited (Err e)) end) in
  let (c1, got) := recv from_slice c in
  match got with
  | Waiting => (s, c1, Some Blocked)
  | Failed err =>
      match classify_recv_error err with
      | Eof => (s, c1, Some (Exited (Ok tt)))
      | WireDesync fatal => (s, c1, Some (Exited (Err fatal)))
      | ParseError msg => reply s c1 (error_response UNKNOWN_REQUEST_ID ERR_PARSE_ERROR msg ClsInvalidArgument)
      end
  | Got raw => let (s', response) := answer s raw in reply s' c1 response
  end.

(** Every round that goes on has read a frame, so the bytes that arrived bound
    the rounds; [None] is running out of [fuel]. *)
Fixpoint dispatch_loop (fuel : nat) (s : S) (c : channel) : option (S * channel * loop_end) :=
  match fuel with
  | O => None
  | Datatypes.S fuel' =>
      match serve_one s c with
      | (s', c', Some e) => Some (s', c', e)
      | (s', c', None) => dispatch_loop fuel' s' c'
      end
  end.

Definition run_adapter (s : S) (c : channel) : option (S * channel * loop_end) :=
  dispatch_loop (Datatypes.S (String.length (c_in c))) s c.

End Adapter.

(** ** Frames are read back *)

Lemma be_byte_value n k : 0 <= k -> Z.of_N (byte_of (be_byte n k)) = Z.shiftr n k mod 256.
Proof.
  intros Hk. unfold be_byte, byte_of. pose proof (Z.mod_pos_bound (Z.shiftr n k) 256 ltac:(lia)).
  rewrite N_ascii_embedding by lia. lia.
Qed.

Lemma be_round_trip n : is_u32 n -> from_be_bytes (to_be_bytes n) = n.
Proof.
  unfold is_u32, u32_max. intros H. unfold from_be_bytes, to_be_bytes. cbn [be_value].
  rewrite !be_byte_value by lia. rewrite !Z.shiftr_div_pow2 by lia. change (2 ^ 24) with 16777216.
  change (2 ^ 16) with 65536. change (2 ^ 8) with 256. change (2 ^ 0) with 1.
  pose proof (Z.div_mod n 256 ltac:(lia)). pose proof (Z.div_mod (n / 256) 256 ltac:(lia)) as H2.
  pose proof (Z.div_mod (n / 65536) 256 ltac:(lia)) as H3. rewrite Z.div_div in H2, H3 by lia.
  change (256 * 256) with 65536 in H2. change (65536 * 256) with 16777216 in H3.
  rewrite Z.div_1_r, (Z.mod_small (n / 16777216)); [lia|].
  split; [apply Z.div_pos; lia|]. apply Z.div_lt_upper_bound; lia.
Qed.

Definition frame_of (body : string) : string := to_be_bytes (str_len body) +:+ body.

(** Bodies that fit into a frame. *)
Definition fits (body : string) : Prop := str_len body <= MAX_FRAME_BYTES.

Fixpoint stream (bodies : list string) : string :=
  match bodies with [] => EmptyString | b :: r => frame_of b +:+ stream r end.

Lemma stream_app xs ys : stream (xs ++ ys) = stream xs +:+ stream ys.
Proof. induction xs as [|x xs IH]; [done|]. simpl. by rewrite IH, str_app_assoc. Qed.

Lemma str_len_app s t : str_len (s +:+ t) = str_len s + str_len t.
Proof. unfold str_len. rewrite str_app_length. lia. Qed.

Lemma read_exact_app body rest op c :
  c_in c = body +:+ rest -> read_exact (str_len body) op c = (with_in c rest, Got body).
Proof.
  intros E. unfold read_exact. rewrite E, str_len_app.
  rewrite (proj2 (Z.leb_le _ _)) by (unfold str_len; lia).
  unfold str_len. by rewrite Nat2Z.id, str_drop_app, str_take_app.
Qed.

Lemma with_in_in c s t : with_in (with_in c s) t = with_in c t.
Proof. done. Qed.

Lemma recv_frame from_slice body rest c :
  fits body -> c_in c = frame_of body +:+ rest ->
  recv from_slice c =
    (with_in c rest, match from_slice body with Ok v => Got v | Err e => Failed (Deserialize e) end).
Proof.
  intros Hf E. unfold recv. unfold frame_of in E. rewrite str_app_assoc in E.
  change 4 with (str_len (to_be_bytes (str_len body))) at 1. rewrite (read_exact_app _ (body +:+ rest)) by done.
  unfold fits, MAX_FRAME_BYTES in Hf. rewrite be_round_trip by (unfold is_u32, u32_max, str_len in *; lia).
  unfold MAX_FRAME_BYTES. rewrite (proj2 (Z.ltb_ge _ _)) by lia.
  rewrite (read_exact_app body rest) by done. rewrite with_in_in. by destruct (from_slice body).
Qed.

Lemma send_frame to_vec v c :
  fits (to_vec v) -> c_broken c = None ->
  send to_vec v c = (with_out c (c_out c +:+ frame_of (to_vec v)), Ok tt).
Proof.
  unfold fits. intros Hf Hb. unfold send. rewrite (proj2 (Z.ltb_ge _ _)) by lia. unfold write_all. rewrite Hb. simpl.
  rewrite Hb. unfold with_out. simpl. by rewrite str_app_assoc.
Qed.

(** ** The loop *)

Section Serving.
Variable to_vec : json -> string.
Variable from_slice : string -> result json string.
Variable serde_err : json -> string.
Context {S : Type} (tool : SandboxTool S).
#[local] Set Default Proof Using "Type".

(** The server the loop implements: bodies in, answers out. *)
Definition answer_body (s : S) (body : string) : S * JsonRpcResponse :=
  match from_slice body with
  | Ok raw => answer serde_err tool s raw
  | Err source =>
      (s, error_response UNKNOWN_REQUEST_ID ERR_PARSE_ERROR ("invalid JSON frame: " +:+ source) ClsInvalidArgument)
  end.

Fixpoint serve (s : S) (bodies : list string) : S * list JsonRpcResponse :=
  match bodies with
  | [] => (s, [])
  | b :: r =>
      let (s1, response) := answer_body s b in
      let (s2, more) := serve s1 r in
      (s2, response :: more)
  end.

(** The id a body asks to be answered under. *)
Definition body_id (body : string) : Z :=
  match ok (from_slice body) ≫= request_from_json with Some r => rq_id r | None => UNKNOWN_REQUEST_ID end.

Notation reply r := (to_vec (response_to_json r)).

Lemma serve_one_frame s c body rest :
  fits body -> c_in c = frame_of body +:+ rest ->
  serve_one to_vec from_slice serde_err tool s c =
    let (s', response) := answer_body s body in
    let (c', r) := send_or_terminate to_vec response (with_in c rest) in
    (s', c', match r with Ok _ => None | Err e => Some (Exited (Err e)) end).
Proof.
  intros Hf E. unfold serve_one. rewrite (recv_frame _ body rest) by done. unfold answer_body.
  destruct (from_slice body) as [v|e]; [|done]. by destruct (answer serde_err tool s v).
Qed.

Lemma send_or_terminate_ok response c :
  fits (reply response) -> c_broken c = None ->
  send_or_terminate to_vec response c = (with_out c (c_out c +:+ frame_of (reply response)), Ok tt).
Proof. intros Hf Hb. unfold send_or_terminate. by rewrite send_frame. Qed.

Lemma answer_body_id s body : rs_id (answer_body s body).2 = body_id body.
Proof.
  unfold answer_body, body_id. destruct (from_slice body) as [v|e]; [|done]. simpl. unfold answer.
  destruct (request_from_json v) as [r|]; [|done]. destruct (negb _); [done|]. unfold dispatch_one.
  repeat case_match; done.
Qed.

Lemma serve_ids s bodies : rs_id <$> (serve s bodies).2 = body_id <$> bodies.
Proof.
  revert s. induction bodies as [|b r IH]; intros s; [done|]. simpl.
  pose proof (answer_body_id s b) as Hid. destruct (answer_body s b) as [s1 x]. specialize (IH s1).
  destruct (serve s1 r) as [s2 xs]. simpl in *. by f_equal.
Qed.

(** The loop after the answers to [bodies]. *)
Lemma dispatch_bodies bodies fuel s c rest :
  Forall fits bodies -> Forall (fun r => fits (reply r)) (serve s bodies).2 -> c_broken c = None ->
  c_in c = stream bodies +:+ rest ->
  dispatch_loop to_vec from_slice serde_err tool (length bodies + fuel) s c =
    dispatch_loop to_vec from_slice serde_err tool fuel (serve s bodies).1
      (mkChannel rest (c_end c) (c_out c +:+ stream ((fun r => reply r) <$> (serve s bodies).2)) None).
Proof.
  revert s c. induction bodies as [|b r IH]; intros s c Hb Hr Hbr Hin.
  - simpl in *. rewrite str_app_nil_r. destruct c as [ci ce co cb]; simpl in *. by subst.
  - simpl in Hin. rewrite str_app_assoc in Hin. apply Forall_cons in Hb as [Hb1 Hb2].
    cbn [length Nat.add dispatch_loop]. rewrite (serve_one_frame s c b (stream r +:+ rest)) by done.
    simpl in Hr |- *. destruct (answer_body s b) as [s1 x] eqn:Ea. destruct (serve s1 r) as [s2 xs] eqn:Es.
    simpl in Hr |- *. apply Forall_cons in Hr as [Hr1 Hr2]. rewrite send_or_terminate_ok by done.
    rewrite (IH s1); simpl; [|done|by rewrite Es|done|done]. rewrite Es. simpl. by rewrite str_app_assoc.
Qed.

Lemma stream_length bodies : (length bodies <= String.length (stream bodies))%nat.
Proof. induction bodies as [|b r IH]; [done|]. simpl. unfold frame_of. rewrite !str_app_length. simpl. lia. Qed.

(** Too few bytes for a frame. *)
Definition incomplete (s : string) : Prop :=
  str_len s < 4 \/ from_be_bytes (str_take 4 s) <= MAX_FRAME_BYTES /\
                   str_len s < 4 + from_be_bytes (str_take 4 s).

(** What the loop makes of a stream that ends in [rest]. *)
Definition last_word (rest : string) (e : ending) : loop_end :=
  match e with
  | Open => Blocked
  | Closed => if str_len rest <? 4 then Exited (Ok tt)
              else Exited (Err (Execution "stdin read body failed: early eof" ["early eof"]))
  | Failing t =>
      Exited (Err (Execution ("stdin " +:+ (if str_len rest <? 4 then "read length" else "read body")
                              +:+ " failed: " +:+ t) [t]))
  end.

Lemma serve_one_incomplete s c :
  incomplete (c_in c) ->
  exists c', serve_one to_vec from_slice serde_err tool s c = (s, c', Some (last_word (c_in c) (c_end c))) /\
    c_out c' = c_out c.
Proof.
  intros Hi. unfold serve_one, recv, read_exact, last_word. destruct (Z.ltb_spec (str_len (c_in c)) 4) as [H4|H4].
  - rewrite (proj2 (Z.leb_gt _ _)) by done. destruct (c_end c); eexists; split; simpl; reflexivity.
  - destruct Hi as [?|[Hm Hl]]; [lia|]. rewrite (proj2 (Z.leb_le _ _)) by done. change (Z.to_nat 4) with 4%nat.
    rewrite (proj2 (Z.ltb_ge _ _)) by done. cbn [c_in with_in c_end].
    assert (str_len (str_drop 4 (c_in c)) = str_len (c_in c) - 4) as Hd
      by (unfold str_len in *; rewrite str_drop_length; lia).
    rewrite (proj2 (Z.leb_gt _ _)) by lia. destruct (c_end c); eexists; split; simpl; reflexivity.
Qed.

(** A round that goes on has read at least the length of a frame. *)
Lemma recv_shrinks c c' (r : read json) :
  recv from_slice c = (c', r) -> (exists v, r = Got v) \/ (exists e, r = Failed (Deserialize e)) ->
  (String.length (c_in c') + 4 <= String.length (c_in c))%nat.
Proof.
  unfold recv, read_exact. intros E Hr. destruct (Z.leb_spec 4 (str_len (c_in c))) as [H4|H4].
  2:{ destruct (c_end c); injection E as <- <-; destruct Hr as [[? ?]|[? ?]]; done. }
  cbn [c_in with_in c_end] in E. change (Z.to_nat 4) with 4%nat in E.
  destruct (MAX_FRAME_BYTES <? from_be_bytes (str_take 4 (c_in c))); [injection E as <- <-; by destruct Hr as [[? ?]|[? ?]]|].
  assert (String.length (str_drop 4 (c_in c)) = String.length (c_in c) - 4)%nat as Hd by apply str_drop_length.
  revert E Hd. generalize (str_drop 4 (c_in c)) (from_be_bytes (str_take 4 (c_in c))). intros d n E Hd.
  destruct (n <=? str_len d).
  - destruct (from_slice _); injection E as <- _; cbn [c_in with_in]; rewrite str_drop_length; unfold str_len in H4; lia.
  - destruct (c_end c); injection E as <- <-; destruct Hr as [[? ?]|[? ?]]; done.
Qed.

Lemma send_keeps_in response c c' r : send_or_terminate to_vec response c = (c', r) -> c_in c' = c_in c.
Proof.
  unfold send_or_terminate, send, write_all. intros E. destruct (_ <? _); [by injection E as <- _|].
  destruct (c_broken c) as [t|] eqn:Eb; simpl in E; [by injection E as <- _|]. rewrite Eb in E. by injection E as <- _.
Qed.

Lemma serve_one_shrinks s c s' c' :
  serve_one to_vec from_slice serde_err tool s c = (s', c', None) ->
  (String.length (c_in c') < String.length (c_in c))%nat.
Proof.
  unfold serve_one. destruct (recv from_slice c) as [c1 got] eqn:Er. intros E.
  assert (c_in c' = c_in c1 /\ ((exists v, got = Got v) \/ exists e, got = Failed (Deserialize e))) as [Hin Hgot].
  { destruct got as [v|e|]; [| |done].
    - destruct (answer serde_err tool s v) as [s1 x]. destruct (send_or_terminate to_vec x c1) as [c2 r] eqn:Es.
      injection E as <- <- _. split; [by eapply send_keeps_in|eauto].
    - destruct e as [src|src|op [|t]|len max]; simpl in E.
      + exfalso. revert Er. unfold recv, read_exact. repeat case_match; congruence.
      + destruct (send_or_terminate _ _ c1) as [c2 r] eqn:Es. injection E as <- <- _.
        split; [by eapply send_keeps_in|eauto].
      + by destruct (String.eqb op "read length").
      + done.
      + done. }
  rewrite Hin. pose proof (recv_shrinks _ _ _ Er Hgot). lia.
Qed.

Lemma dispatch_loop_total fuel s c :
  (String.length (c_in c) < fuel)%nat -> is_Some (dispatch_loop to_vec from_slice serde_err tool fuel s c).
Proof.
  revert s c. induction fuel as [|fuel IH]; intros s c Hf; [lia|]. simpl.
  destruct (serve_one _ _ _ tool s c) as [[s' c'] [e|]] eqn:E; [by eexists|].
  apply IH. apply serve_one_shrinks in E. lia.
Qed.

Lemma dispatch_loop_more fuel fuel' s c r :
  dispatch_loop to_vec from_slice serde_err tool fuel s c = Some r -> (fuel <= fuel')%nat ->
  dispatch_loop to_vec from_slice serde_err tool fuel' s c = Some r.
Proof.
  revert fuel' s c. induction fuel as [|fuel IH]; intros [|fuel'] s c E Hle; try done; [lia|]. simpl in *.
  destruct (serve_one _ _ _ tool s c) as [[s' c'] [e|]]; [done|]. apply IH; [done|lia].
Qed.

Lemma run_adapter_answers bodies rest s c :
  Forall fits bodies -> incomplete rest -> c_broken c = None -> c_in c = stream bodies +:+ rest ->
  Forall (fun r => fits (reply r)) (serve s bodies).2 ->
  exists c', run_adapter to_vec from_slice serde_err tool s c =
      Some ((serve s bodies).1, c', last_word rest (c_end c)) /\
    c_out c' = c_out c +:+ stream ((fun r => reply r) <$> (serve s bodies).2).
Proof.
  intros Hb Hi Hbr Hin Hr.
  pose proof (dispatch_bodies bodies 1 s c rest Hb Hr Hbr Hin) as E. simpl in E.
  edestruct (serve_one_incomplete (serve s bodies).1) as (c' & E' & Hout); [|rewrite E' in E]; [exact Hi|].
  exists c'. split; [|exact Hout]. unfold run_adapter. eapply dispatch_loop_more; [exact E|].
  rewrite Hin, str_app_length. pose proof (stream_length bodies). lia.
Qed.

(** The server with the limit of a frame: an answer that does not fit ends the
    service.  The answers written, and whether every body was answered. *)
Fixpoint serve_within (s : S) (bodies : list string) : S * list JsonRpcResponse * bool :=
  match bodies with
  | [] => (s, [], true)
  | b :: r =>
      let (s1, response) := answer_body s b in
      if str_len (reply response) <=? MAX_FRAME_BYTES
      then let '(s2, more, all) := serve_within s1 r in (s2, response :: more, all)
      else (s1, [], false)
  end.

Lemma serve_within_ids s bodies :
  rs_id <$> (serve_within s bodies).1.2 = take (length (serve_within s bodies).1.2) (body_id <$> bodies) /\
  ((serve_within s bodies).2 = true -> length (serve_within s bodies).1.2 = length bodies).
Proof.
  revert s. induction bodies as [|b r IH]; intros s; [done|]. simpl.
  pose proof (answer_body_id s b) as Hid. destruct (answer_body s b) as [s1 x]. specialize (IH s1).
  destruct (_ <=? _); [|done]. destruct (serve_within s1 r) as [[s2 xs] all]. simpl in *.
  destruct IH as [IH1 IH2]. split; [by f_equal|]. intros Ha. by rewrite IH2.
Qed.

Lemma dispatch_within bodies s c rest :
  Forall fits bodies -> incomplete rest -> c_broken c = None -> c_in c = stream bodies +:+ rest ->
  exists c' e, dispatch_loop to_vec from_slice serde_err tool (Datatypes.S (length bodies)) s c =
      Some ((serve_within s bodies).1.1, c', e) /\
    c_out c' = c_out c +:+ stream ((fun r => reply r) <$> (serve_within s bodies).1.2) /\
    if (serve_within s bodies).2 then e = last_word rest (c_end c) else exists err, e = Exited (Err err).
Proof.
  intros Hb Hi. revert s c Hb. induction bodies as [|b r IH]; intros s c Hb Hbr Hin.
  - simpl in Hin. destruct (serve_one_incomplete s c) as (c' & E & Ho); [by rewrite Hin|].
    exists c', (last_word rest (c_end c)). simpl. rewrite E, Ho, str_app_nil_r, Hin. done.
  - simpl in Hin. rewrite str_app_assoc in Hin. apply Forall_cons in Hb as [Hb1 Hb2].
    cbn [length]. remember (Datatypes.S (length r)) as fuel eqn:Hfuel. cbn [dispatch_loop].
    rewrite (serve_one_frame s c b (stream r +:+ rest)) by done.
    simpl. destruct (answer_body s b) as [s1 x] eqn:Ea. destruct (Z.leb_spec (str_len (reply x)) MAX_FRAME_BYTES) as [Hfit|Hbig].
    + rewrite send_or_terminate_ok by done.
      destruct (IH s1 (with_out (with_in c (stream r +:+ rest)) (c_out c +:+ frame_of (reply x)))) as (c' & e & E & Ho & He); [done..|].
      destruct (serve_within s1 r) as [[s2 xs] all]. simpl in *. subst fuel. exists c', e. rewrite E, Ho.
      split; [done|]. split; [by rewrite str_app_assoc|done].
    + unfold send_or_terminate, send. rewrite (proj2 (Z.ltb_lt _ _)) by lia. simpl.
      eexists _, _. split; [reflexivity|]. split; [by rewrite str_app_nil_r|eauto].
Qed.

Lemma run_within bodies rest s c :
  Forall fits bodies -> incomplete rest -> c_broken c = None -> c_in c = stream bodies +:+ rest ->
  exists c' e, run_adapter to_vec from_slice serde_err tool s c = Some ((serve_within s bodies).1.1, c', e) /\
    c_out c' = c_out c +:+ stream ((fun r => reply r) <$> (serve_within s bodies).1.2) /\
    if (serve_within s bodies).2 then e = last_word rest (c_end c) else exists err, e = Exited (Err err).
Proof.
  intros Hb Hi Hbr Hin. destruct (dispatch_within bodies s c rest) as (c' & e & E & H); [done..|].
  exists c', e. split; [|done]. unfold run_adapter. eapply dispatch_loop_more; [exact E|].
  rewrite Hin, str_app_length. pose proof (stream_length bodies). lia.
Qed.

End Serving.

(** ** Theorems *)

(** C24: The adapter implements a server of requests.  Whatever bodies of at most
    the frame limit arrive as frames, malformed ones included, on a pipe that can
    be written to, the loop comes to rest, having run the tool on the requests in
    their order and written one frame per body, in order and under the id the body
    asked for, up to the first answer that does not fit into a frame.  If all fit,
    every body was answered, and it waits if the pipe is open, leaves without
    error if it was closed between frames, and with one if it was closed inside a
    body.  At an answer that does not fit it writes nothing, leaves with an error
    and serves none of the bodies behind ([large_answer_ends_service]). *)
Theorem adapter_implements_server to_vec from_slice serde_err {S} (tool : SandboxTool S) bodies rest s c :
  Forall fits bodies -> incomplete rest -> c_broken c = None -> c_in c = stream bodies +:+ rest ->
  let '(s', answers, all) := serve_within to_vec from_slice serde_err tool s bodies in
  exists c' e, run_adapter to_vec from_slice serde_err tool s c = Some (s', c', e) /\
    c_out c' = c_out c +:+ stream ((fun r => to_vec (response_to_json r)) <$> answers) /\
    rs_id <$> answers = take (length answers) (body_id from_slice <$> bodies) /\
    if all then length answers = length bodies /\ e = last_word rest (c_end c) else exists err, e = Exited (Err err).
Proof.
  intros Hb Hi Hbr Hin.
  destruct (run_within to_vec from_slice serde_err tool bodies rest s c) as (c' & e & E & Ho & He); [done..|].
  destruct (serve_within_ids to_vec from_slice serde_err tool s bodies) as [Hids Hall].
  destruct (serve_within _ _ _ tool s bodies) as [[s' answers] all]. simpl in *.
  exists c', e. split_and!; try done. destruct all; [|done]. split; [by apply Hall|done].
Qed.

(** The adapter loop always comes to rest: on any bytes, whatever the tool
    and the printers do, it blocks for more input or exits. *)
Theorem adapter_loop_ends to_vec from_slice serde_err {S} (tool : SandboxTool S) s c :
  is_Some (run_adapter to_vec from_slice serde_err tool s c).
Proof. apply dispatch_loop_total. lia. Qed.

(** A panic of the tool is an answer, and the tool serves on. *)
Lemma panic_is_answered serde_err {S} (tool : SandboxTool S) s id params p s' q :
  invoke_params_from_json params = Some q -> invoke tool s q = (s', Panicked p) ->
  dispatch_one serde_err tool s (JsonRpcRequest_new METHOD_INVOKE id params) =
    (s', error_response id ERR_INTERNAL ("tool panicked: " +:+ panic_message p) ClsExecution).
Proof. intros Hq Hi. unfold dispatch_one. simpl. by rewrite Hq, Hi. Qed.

(** An answer that does not fit into a frame ends the service: nothing is
    written, not even an error, and the requests behind it are not served. *)
Lemma large_answer_ends_service to_vec from_slice serde_err {S} (tool : SandboxTool S) s c body rest s' response :
  fits body -> c_in c = frame_of body +:+ rest ->
  answer_body from_slice serde_err tool s body = (s', response) -> ~ fits (to_vec (response_to_json response)) ->
  exists e, run_adapter to_vec from_slice serde_err tool s c = Some (s', with_in c rest, Exited (Err e)).
Proof.
  intros Hf Hin Ha Hbig. unfold run_adapter. cbn [dispatch_loop]. rewrite (serve_one_frame _ _ _ _ s c body rest), Ha by done.
  unfold send_or_terminate, send, fits in *. rewrite (proj2 (Z.ltb_lt _ _)) by lia. simpl. eauto.
Qed.

(** A stream cut inside the length of a frame passes for a clean end. *)
Lemma cut_length_passes_for_end to_vec from_slice serde_err {S} (tool : SandboxTool S) s out :
  exists c', run_adapter to_vec from_slice serde_err tool s (mkChannel "AB" Closed out None) = Some (s, c', Exited (Ok tt)).
Proof. by eexists. Qed.

(** ** A run *)

Definition echo_tool : SandboxTool nat :=
  mkTool _ (fun _ => mkDescribe "1" "support/echo" [METHOD_DESCRIBE; METHOD_INVOKE] None None None) (fun _ => None)
    (fun n p => (S n, Returned (Ok (mkInvokeResult (ip_input p) true)))).

Definition echo_request : json :=
  request_to_json (JsonRpcRequest_new METHOD_INVOKE 7
    (invoke_params_to_json (mkInvokeParams "inv-1" "support/echo" (JStr "hello") [] JNull))).

(** One call, then a body that is not JSON. *)
Definition echo_slice (s : string) : result json string :=
  if String.eqb s "call" then Ok echo_request else Err "expected value".

Lemma adapter_implements_server_witness :
  exists c' rs, run_adapter (fun _ => "reply") echo_slice (fun _ => "bad") echo_tool 0%nat
      (mkChannel (stream ["call"; "noise"]) Closed EmptyString None) = Some (1%nat, c', Exited (Ok tt)) /\
    c_out c' = stream ["reply"; "reply"] /\ rs_id <$> rs = [7; UNKNOWN_REQUEST_ID].
Proof.
  destruct (adapter_implements_server (fun _ => "reply") echo_slice (fun _ => "bad") echo_tool ["call"; "noise"] EmptyString
    0%nat (mkChannel (stream ["call"; "noise"]) Closed EmptyString None)) as (c' & e & E & Ho & Hid & _ & He).
  - by repeat constructor.
  - by left.
  - reflexivity.
  - reflexivity.
  - exists c'. eexists. rewrite He in E. split; [exact E|]. split; [exact Ho|exact Hid].
Defined.
