(* ===== verification/SandboxHost.v ===== *)
(** * The host's side of the sandbox wire

    [baml-rt-tools/src/external_tools/sandbox/invoker.rs] (the cache of sandboxes
    and the single-shot invoker with its retry), [external_tools/invoker.rs]
    (requests and the classification of JSON-RPC errors) and the handle of
    [sandbox/spec.rs].

    The provider of sandboxes is a record of operations over a world [W], which
    contains the tools that run in them; [peer] lets the process at the other
    end of a channel act on what was written, until it rests or the time is up.
    Durations are milliseconds. *)

From stdpp Require Import base list strings gmap.
From Stdlib Require Import ZArith Lia Ascii.
From S2P Require Import Prelude RustStr Json SandboxWire Errors ToolNames.

Open Scope string_scope.
Open Scope list_scope.
Open Scope Z_scope.

(** ** Errors *)

(** [Display for BamlRtError] of the errors raised here; [show] prints the others. *)
Definition error_text (show : BamlRtError -> string) (err : BamlRtError) : string :=
  match err with
  | InvalidArgument m => "Invalid argument: " +:+ m
  | InvalidArgumentWithSource m _ => m
  | ToolClassified c => message c
  | _ => show err
  end.

Definition class_disposition (c : ErrorClass) : ErrorDisposition :=
  match c with
  | ClsConfiguration => Fatal
  | ClsInvalidArgument => LlmCorrectable
  | ClsTransient => HostRetriable
  | ClsPermission => Fatal
  | ClsExecution => InformAndContinue
  end.

Definition class_label (c : ErrorClass) : string :=
  match c with
  | ClsConfiguration => "configuration"
  | ClsInvalidArgument => "invalid_argument"
  | ClsTransient => "transient"
  | ClsPermission => "permission"
  | ClsExecution => "execution"
  end.

Definition map_jsonrpc_error (tool : ToolName) (err : JsonRpcError) : BamlRtError :=
  let class := default ClsExecution ((re_data err ≫= jget "error_class") ≫= ErrorClass_from_json) in
  ToolClassified (mkClassified
    ("external_" +:+ tool_name_display tool +:+ "_" +:+ class_label class)
    (class_disposition class) (re_message err) None
    ((re_data err ≫= jget "retry_after_ms") ≫= as_u64)).

Definition is_sandbox_transport_error (show : BamlRtError -> string) (err : BamlRtError) : bool :=
  let msg := error_text show err in
  contains_str "exec_stream" msg || contains_str "Broken pipe" msg
  || contains_str "failed to send TSRPC frame" msg || contains_str "failed to recv TSRPC frame" msg
  || contains_str "exec-to-channel adapter failed" msg || contains_str "has no live sandbox named" msg.

(** ** Sandboxes *)

Record SandboxHandle := mkHandle {
  sh_name : string; sh_created_at : Z; sh_last_used_at : Z; sh_guest_workdir : string;
  sh_policy_hash : option string; sh_idle_timeout : Z; sh_max_duration : Z
}.

(** [SystemTime::elapsed], an error when the clock is behind. *)
Definition past (now since bound : Z) : bool := (since <=? now) && (bound <=? now - since).

Definition is_expired (now : Z) (h : SandboxHandle) : bool :=
  past now (sh_created_at h) (sh_max_duration h) || past now (sh_last_used_at h) (sh_idle_timeout h).

Definition touch_handle (now : Z) (h : SandboxHandle) : SandboxHandle :=
  mkHandle (sh_name h) (sh_created_at h) now (sh_guest_workdir h) (sh_policy_hash h) (sh_idle_timeout h) (sh_max_duration h).

(** The fields of [SandboxSpec] that the invoker reads. *)
Inductive SandboxImageSource := Oci (image : string) | Bind (path : string).

Record SandboxSpec := mkSpec {
  spec_name : string; spec_image : SandboxImageSource; spec_guest_workdir : string; spec_policy_hash : option string
}.

Definition is_oci (i : SandboxImageSource) : bool := match i with Oci _ => true | Bind _ => false end.

Definition validate_reattach (now : Z) (h : SandboxHandle) (s : SandboxSpec) : bool :=
  if is_expired now h then false
  else if match sh_policy_hash h, spec_policy_hash s with Some a, Some b => negb (String.eqb a b) | _, _ => false end
  then false
  else String.eqb (sh_guest_workdir h) (spec_guest_workdir s).

(** [SandboxCacheKey]: agent, context, tool. *)
Definition SandboxCacheKey : Type := string * string * string.

(** The characters kept of a component; a multi-byte character counts once. *)
Fixpoint sanitized (s : string) : string :=
  match s with
  | EmptyString => EmptyString
  | String a r =>
      if is_continuation a then sanitized r
      else String (if is_ascii_alphanumeric a || bool_decide (a = "-"%char) || bool_decide (a = "_"%char) then a
                   else "_"%char) (sanitized r)
  end.

Definition sanitize_component (input : string) (max_len : nat) : string :=
  match str_take max_len (sanitized input) with EmptyString => "x" | out => out end.

Record Provider (W : Type) := mkProvider {
  now : W -> Z;
  create : W -> SandboxSpec -> W * result SandboxHandle BamlRtError;
  reattach : W -> string -> W * result SandboxHandle BamlRtError;
  teardown : W -> SandboxHandle -> W * result unit BamlRtError;
  rpc_channel : W -> SandboxHandle -> W * result channel BamlRtError;
  peer : W -> SandboxHandle -> channel -> W * channel;
}.
Arguments now {W}. Arguments create {W}. Arguments reattach {W}. Arguments teardown {W}.
Arguments rpc_channel {W}. Arguments peer {W}.

Record InvokeRequest := mkInvoke {
  iv_tool_name : ToolName; iv_invocation_id : string; iv_input : json;
  iv_secrets : list (string * json); iv_capabilities : json; iv_timeout : Z
}.

Record InvokeResponse := mkInvokeResponse { rsp_output : json; rsp_done : bool }.

Section Invoker.
Variable to_vec : json -> string.
Variable from_slice : string -> result json string.
Variable serde_err : json -> string.
Variable sha256_hex : string -> string.
(** [Debug for Duration] *)
Variable show_duration : Z -> string.
Variable show : BamlRtError -> string.
Context {W : Type} (P : Provider W).
Variable runner_id : string.
Variable build_spec : SandboxCacheKey -> result SandboxSpec BamlRtError.

(** The cache and the counter of request ids, with the world behind the provider. *)
Record host := mkHost { entries : gmap SandboxCacheKey SandboxHandle; next_id : Z; world : W }.

Definition set_world (s : host) (w : W) : host := mkHost (entries s) (next_id s) w.
Definition set_entries (s : host) (m : gmap SandboxCacheKey SandboxHandle) : host := mkHost m (next_id s) (world s).

Definition short_hash (input : string) : string := str_take 10 (sha256_hex input).

Definition encode_name (key : SandboxCacheKey) : string :=
  let '(agent_id, context_id, tool_name) := key in
  "baml:" +:+ sanitize_component runner_id 8 +:+ ":" +:+
    short_hash (runner_id +:+ "|" +:+ agent_id +:+ "|" +:+ context_id +:+ "|" +:+ tool_name).

(** The cold start at the end of [get_or_create]. *)
Definition cold_create (s : host) (key : SandboxCacheKey) (spec : SandboxSpec) : host * result SandboxHandle BamlRtError :=
  let (w, r) := create P (world s) spec in
  match r with
  | Ok handle => (mkHost (<[key := handle]> (entries s)) (next_id s) w, Ok handle)
  | Err e => (set_world s w, Err e)
  end.

Definition get_or_create (s : host) (key : SandboxCacheKey) (reattach_ok : bool)
    : host * result SandboxHandle BamlRtError :=
  match opt_filter (fun h => negb (is_expired (now P (world s)) h)) (entries s !! key) with
  | Some handle => (s, Ok handle)
  | None =>
      match build_spec key with
      | Err e => (s, Err e)
      | Ok spec =>
          let name := encode_name key in
          if negb (String.eqb (spec_name spec) name) then
            (s, Err (InvalidArgument ("SandboxSpec.name '" +:+ spec_name spec +:+ "' does not match encoded name '"
                                      +:+ name +:+ "'")))
          else if reattach_ok && is_oci (spec_image spec) then
            let (w1, r) := reattach P (world s) name in
            match r with
            | Ok existing =>
                if validate_reattach (now P w1) existing spec then
                  (mkHost (<[key := existing]> (entries s)) (next_id s) w1, Ok existing)
                else
                  let (w2, _) := teardown P w1 existing in cold_create (set_world s w2) key spec
            | Err _ => cold_create (set_world s w1) key spec
            end
          else cold_create s key spec
      end
  end.

Definition evict (s : host) (key : SandboxCacheKey) : host * option SandboxHandle :=
  (set_entries s (delete key (entries s)), entries s !! key).

Definition touch (s : host) (key : SandboxCacheKey) : host :=
  set_entries s (alter (touch_handle (now P (world s))) key (entries s)).

(** [rand_id] *)
Definition rand_id (s : host) : host * Z := (mkHost (entries s) (wrap64 (next_id s + 1)) (world s), next_id s).

Definition json_rpc_call_once (s : host) (tool : ToolName) (method : string) (params : json) (timeout : Z)
    (key : SandboxCacheKey) (allow_reattach : bool) : host * result json BamlRtError :=
  let (s1, got) := get_or_create s key allow_reattach in
  match got with
  | Err e => (s1, Err e)
  | Ok handle =>
      let (w2, opened) := rpc_channel P (world s1) handle in
      let s2 := set_world s1 w2 in
      match opened with
      | Err e => (s2, Err e)
      | Ok c0 =>
          let (s3, id) := rand_id s2 in
          let (c1, sent) := send to_vec (request_to_json (JsonRpcRequest_new method id params)) c0 in
          match sent with
          | Err e => (s3, Err (InvalidArgumentWithSource ("failed to send TSRPC frame for " +:+ method) (CodecError_display e)))
          | Ok _ =>
              let (w4, c2) := peer P (world s3) handle c1 in
              let s4 := set_world s3 w4 in
              match (recv from_slice c2).2 with
              | Waiting =>
                  (s4, Err (InvalidArgument ("sandbox invoke timed out after " +:+ show_duration timeout
                                             +:+ " for method " +:+ method)))
              | Failed e =>
                  (s4, Err (InvalidArgumentWithSource ("failed to recv TSRPC frame for " +:+ method) (CodecError_display e)))
              | Got value =>
                  match response_from_json value with
                  | None => (s4, Err (InvalidArgumentWithSource "failed to decode JSON-RPC response envelope" (serde_err value)))
                  | Some response =>
                      match rs_error response with
                      | Some err => (s4, Err (map_jsonrpc_error tool err))
                      | None =>
                          (touch s4 key, ok_or (rs_result response) (InvalidArgument "JSON-RPC response missing result"))
                      end
                  end
              end
          end
      end
  end.

Definition json_rpc_call (s : host) (tool : ToolName) (method : string) (params : json) (timeout : Z)
    (key : SandboxCacheKey) : host * result json BamlRtError :=
  let (s1, r1) := json_rpc_call_once s tool method params timeout key true in
  match r1 with
  | Ok value => (s1, Ok value)
  | Err err =>
      if is_sandbox_transport_error show err then
        let (s2, stale) := evict s1 key in
        let s3 := match stale with
                  | Some h => set_world s2 (teardown P (world s2) h).1
                  | None => s2
                  end in
        json_rpc_call_once s3 tool method params timeout key false
      else (s1, Err err)
  end.

(** [describe] and [schema]: the calls without a tool behind them. *)
Definition host_describe (s : host) (agent_id context_id : string) (tool : ToolName) (timeout describe_timeout : Z)
    : host * result ToolDescribeResult BamlRtError :=
  let (s1, r) := json_rpc_call s tool METHOD_DESCRIBE (JObj []) (Z.min timeout describe_timeout)
                   (agent_id, context_id, tool_name_display tool) in
  (s1, let? value := r in
       ok_or (describe_from_json value)
         (InvalidArgumentWithSource "failed to decode tool/describe result" (serde_err value))).

Definition host_schema (s : host) (agent_id context_id : string) (tool : ToolName) (timeout describe_timeout : Z)
    : host * result ToolSchemaResult BamlRtError :=
  let (s1, r) := json_rpc_call s tool METHOD_SCHEMA (JObj [("tool_name", JStr (tool_name_display tool))])
                   (Z.min timeout describe_timeout) (agent_id, context_id, tool_name_display tool) in
  (s1, let? value := r in
       ok_or (schema_from_json value)
         (InvalidArgumentWithSource "failed to decode tool/schema result" (serde_err value))).

Definition invoke (s : host) (agent_id context_id : string) (invoke_timeout : Z) (req : InvokeRequest)
    : host * result InvokeResponse BamlRtError :=
  let tool := iv_tool_name req in
  let params := invoke_params_to_json
    (mkInvokeParams (iv_invocation_id req) (tool_name_display tool) (iv_input req) (iv_secrets req) (iv_capabilities req)) in
  let (s1, r) := json_rpc_call s tool METHOD_INVOKE params (Z.min (iv_timeout req) invoke_timeout)
                   (agent_id, context_id, tool_name_display tool) in
  (s1, let? value := r in
       match invoke_result_from_json value with
       | Some parsed => Ok (mkInvokeResponse (ir_output parsed) (ir_done parsed))
       | None => Err (InvalidArgumentWithSource "failed to decode tool/invoke result" (serde_err value))
       end).

End Invoker.
Arguments entries {W}. Arguments next_id {W}. Arguments world {W}. Arguments mkHost {W}.

(** ** From the host to the tool and back *)

Lemma invoke_params_round_trip p : invoke_params_from_json (invoke_params_to_json p) = Some p.
Proof. by destruct p as [i t inp [|x sec] []]. Qed.

Lemma invoke_result_round_trip r : invoke_result_from_json (invoke_result_to_json r) = Some r.
Proof. by destruct r. Qed.

Lemma as_u64_ok z : is_u64 z -> as_u64 (JNum (NInt z)) = Some z.
Proof. intros [H1 H2]. simpl. by rewrite (proj2 (Z.leb_le _ _) H1), (proj2 (Z.leb_le _ _) H2). Qed.

Lemma request_round_trip r : is_u64 (rq_id r) -> request_from_json (request_to_json r) = Some r.
Proof.
  intros H. destruct r as [j m i p]. unfold request_to_json, request_from_json. cbn [as_struct mbind option_bind].
  change (field "id" _) with (Some (JNum (NInt i))). simpl in H. cbn [mbind option_bind field String.eqb Ascii.eqb Bool.eqb as_str].
  by rewrite as_u64_ok.
Qed.

(** A response as the adapter builds it: a result that is not [null], or an error. *)
Definition plain_response (r : JsonRpcResponse) : Prop :=
  rs_result r <> Some JNull /\
  match rs_error r with Some e => -2147483648 <= re_code e <= 2147483647 /\ re_data e <> Some JNull | None => True end.

Lemma opt_field_id (o : option json) : o <> Some JNull -> match o with Some JNull | None => None | Some v => Some v end = o.
Proof. by destruct o as [[]|]. Qed.

Lemma rpc_error_round_trip e :
  -2147483648 <= re_code e <= 2147483647 -> re_data e <> Some JNull -> rpc_error_from_json (rpc_error_to_json e) = Some e.
Proof.
  destruct e as [c m d]. simpl. intros [H1 H2] Hd. unfold rpc_error_from_json. cbn.
  rewrite (proj2 (Z.leb_le _ _) H1), (proj2 (Z.leb_le _ _) H2). cbn. by destruct d as [[]|].
Qed.

Lemma response_round_trip r : is_u64 (rs_id r) -> plain_response r -> response_from_json (response_to_json r) = Some r.
Proof.
  destruct r as [j i res err]. intros Hid [Hres Herr]. unfold response_from_json, response_to_json. cbn [rs_id rs_jsonrpc rs_result rs_error] in *.
  cbn [as_struct app mbind option_bind field String.eqb Ascii.eqb Bool.eqb as_str]. rewrite as_u64_ok by done. cbn [mbind option_bind].
  destruct err as [e|].
  - assert (rpc_error_from_json (rpc_error_to_json e) = Some e) as He by (apply rpc_error_round_trip; apply Herr).
    destruct res as [[]|]; try done; cbn -[rpc_error_from_json]; rewrite He; done.
  - by destruct res as [[]|].
Qed.

Section EndToEnd.
Variable to_vec : json -> string.
Variable from_slice : string -> result json string.
Variable serde_err : json -> string.
Variable sha256_hex : string -> string.
Variable show_duration : Z -> string.
Variable show : BamlRtError -> string.
Context {W S : Type} (P : Provider W) (tool : SandboxTool S).
Variable runner_id : string.
Variable build_spec : SandboxCacheKey -> result SandboxSpec BamlRtError.
(** Where the tool's state is in the world. *)
Variable get_tool : W -> S.
Variable put_tool : S -> W -> W.
#[local] Set Default Proof Using "Type".

Notation once := (json_rpc_call_once to_vec from_slice serde_err sha256_hex show_duration P runner_id build_spec).
Notation call := (json_rpc_call to_vec from_slice serde_err sha256_hex show_duration show P runner_id build_spec).
Notation host_invoke := (invoke to_vec from_slice serde_err sha256_hex show_duration show P runner_id build_spec).
Notation acquire := (get_or_create sha256_hex P runner_id build_spec).
Notation answered := (answer serde_err tool).

(** The adapter at the other end: it reads what the host wrote, and what it
    writes arrives; when it exits the pipe is closed. *)
Definition adapter_side (s : S) (c : channel) : S * channel :=
  match run_adapter to_vec from_slice serde_err tool s (mkChannel (c_out c) Open EmptyString None) with
  | Some (s', a, e) =>
      (s', mkChannel (c_in c +:+ c_out a) (match e with Blocked => c_end c | Exited _ => Closed end) EmptyString (c_broken c))
  | None => (s, c)
  end.

(** A provider whose sandboxes run the adapter on the tool. *)
Record runs_adapter : Prop := {
  ra_peer w h c : peer P w h c = let (s, c') := adapter_side (get_tool w) c in (put_tool s w, c');
  ra_get s w : get_tool (put_tool s w) = s;
}.

(** What the codec does with a value: it fits, and is read back. *)
Definition travels (v : json) : Prop := fits (to_vec v) /\ from_slice (to_vec v) = Ok v.

Definition fresh_channel : channel := mkChannel EmptyString Open EmptyString None.

Lemma adapter_side_answers s raw s' response :
  travels raw -> answered s raw = (s', response) -> travels (response_to_json response) ->
  adapter_side s (mkChannel EmptyString Open (frame_of (to_vec raw)) None) =
    (s', mkChannel (frame_of (to_vec (response_to_json response))) Open EmptyString None).
Proof.
  intros [Hf Hl] Ha [Hf' _]. unfold adapter_side.
  assert (serve from_slice serde_err tool s [to_vec raw] = (s', [response])) as Hs.
  { simpl. unfold answer_body. rewrite Hl. by rewrite Ha. }
  destruct (run_adapter_answers to_vec from_slice serde_err tool [to_vec raw] EmptyString s
    (mkChannel (frame_of (to_vec raw)) Open EmptyString None)) as (a & E & Hout).
  - by constructor.
  - by left.
  - done.
  - cbn [stream c_in]. by rewrite !str_app_nil_r.
  - rewrite Hs. by constructor.
  - rewrite Hs in E, Hout. simpl in E, Hout. rewrite str_app_nil_r in Hout. simpl. rewrite E, Hout. done.
Qed.

(** One exchange: the tool takes one step, and the host reads its answer. *)
Lemma once_answers (s s1 : host) nm method params timeout key reattach_ok h w2 t' response :
  runs_adapter -> acquire s key reattach_ok = (s1, Ok h) -> rpc_channel P (world s1) h = (w2, Ok fresh_channel) ->
  is_u64 (next_id s1) ->
  let req := request_to_json (JsonRpcRequest_new method (next_id s1) params) in
  travels req -> answered (get_tool w2) req = (t', response) ->
  is_u64 (rs_id response) -> plain_response response -> travels (response_to_json response) ->
  exists s', get_tool (world s') = t' /\ once s nm method params timeout key reattach_ok =
    (s', match rs_error response with
         | Some err => Err (map_jsonrpc_error nm err)
         | None => ok_or (rs_result response) (InvalidArgument "JSON-RPC response missing result")
         end).
Proof.
  intros [Hpeer Hget] Hacq Hch Hid req Hreq Ha Hrid Hplain Hresp. unfold json_rpc_call_once. rewrite Hacq, Hch.
  unfold rand_id. cbn [world set_world next_id]. fold req. rewrite send_frame; [|apply Hreq|done].
  cbn [with_out fresh_channel c_in c_end c_out c_broken]. rewrite str_app_nil_l, Hpeer.
  change (with_out fresh_channel ?x) with (mkChannel EmptyString Open x None).
  rewrite (adapter_side_answers _ _ _ _ Hreq Ha Hresp).
  rewrite (recv_frame from_slice (to_vec (response_to_json response)) EmptyString);
    [|apply Hresp|cbn [c_in]; by rewrite str_app_nil_r].
  rewrite (proj2 Hresp). cbn [snd]. rewrite response_round_trip by done.
  destruct (rs_error response) as [err|]; eexists; (split; [|reflexivity]); simpl; apply Hget.
Qed.

(** What the host makes of an invocation. *)
Definition invocation_outcome (nm : ToolName) (i : invocation) : result InvokeResponse BamlRtError :=
  let failed class text :=
    Err (ToolClassified (mkClassified ("external_" +:+ tool_name_display nm +:+ "_" +:+ class_label class)
                           (class_disposition class) text None None)) in
  match i with
  | Returned (Ok r) => Ok (mkInvokeResponse (ir_output r) (ir_done r))
  | Returned (Err e) => failed (error_class e) (AdapterError_display e)
  | Panicked p => failed ClsExecution ("tool panicked: " +:+ panic_message p)
  end.

(** The response the adapter gives to an invocation. *)
Definition invocation_response (id : Z) (i : invocation) : JsonRpcResponse :=
  match catch_tool_panic i with
  | Ok (Ok r) => success_response id (invoke_result_to_json r)
  | Ok (Err e) => mkResponse "2.0" id None (Some (into_json_rpc e))
  | Err panic_msg => error_response id ERR_INTERNAL ("tool panicked: " +:+ panic_msg) ClsExecution
  end.

Lemma answered_invoke t id p t' i :
  is_u64 id -> SandboxWire.invoke tool t p = (t', i) ->
  answered t (request_to_json (JsonRpcRequest_new METHOD_INVOKE id (invoke_params_to_json p))) =
    (t', invocation_response id i).
Proof.
  intros Hid Hi. unfold answer. rewrite request_round_trip by done. simpl negb. unfold dispatch_one.
  cbn [rq_method rq_params rq_id JsonRpcRequest_new]. rewrite invoke_params_round_trip, Hi. done.
Qed.

Lemma error_class_round_trip c : ErrorClass_from_json (ErrorClass_to_json c) = Some c.
Proof. by destruct c. Qed.

Lemma invocation_response_plain id i : plain_response (invocation_response id i) /\ rs_id (invocation_response id i) = id.
Proof. destruct i as [[r|e]|p]; simpl; (split; [|done]); split; try done; by unfold ERR_INTERNAL. Qed.

Lemma map_into_json_rpc nm e :
  map_jsonrpc_error nm (into_json_rpc e) =
    ToolClassified (mkClassified ("external_" +:+ tool_name_display nm +:+ "_" +:+ class_label (error_class e))
      (class_disposition (error_class e)) (AdapterError_display e) None None).
Proof. by destruct e as [m|m|m|m [|x xs]|m [|x xs]]. Qed.

(** The answer of an invocation, read by the host. *)
Lemma invocation_decoded nm id i :
  (let? value := match rs_error (invocation_response id i) with
                 | Some err => Err (map_jsonrpc_error nm err)
                 | None => ok_or (rs_result (invocation_response id i)) (InvalidArgument "JSON-RPC response missing result")
                 end in
   match invoke_result_from_json value with
   | Some parsed => Ok (mkInvokeResponse (ir_output parsed) (ir_done parsed))
   | None => Err (InvalidArgumentWithSource "failed to decode tool/invoke result" (serde_err value))
   end) = invocation_outcome nm i.
Proof.
  destruct i as [[[o d]|e]|p]; [done| |done]. unfold invocation_response. cbn [catch_tool_panic rs_error].
  rewrite map_into_json_rpc. done.
Qed.

Definition wire_params (req : InvokeRequest) : ToolInvokeParams :=
  mkInvokeParams (iv_invocation_id req) (tool_name_display (iv_tool_name req)) (iv_input req) (iv_secrets req)
    (iv_capabilities req).

(** C23: An invocation through the sandbox is an invocation of the tool, provided
    that a sandbox is acquired and its channel opened, that the sandbox runs the
    adapter and answers before the host's timeout, that the request and the
    answer fit into a frame and are read back by the codec as they were written,
    and that the tool's error, if it returns one, does not read like a transport
    failure.  Then the host's request crosses the codec, is served by the adapter
    and answered; the tool runs exactly once, on the parameters of the request,
    and the host returns its output, or the classification of its error, or, when
    it panicked, an execution failure with the panic's text.  Without the last
    proviso the tool can run twice ([transport_text_runs_twice]); an answer that
    does not fit ends the adapter ([SandboxWire.large_answer_ends_service]), and
    the host then tries once more. *)
Theorem sandbox_invoke_exact s s1 agent ctx limit req h w2 t' i :
  runs_adapter ->
  acquire s (agent, ctx, tool_name_display (iv_tool_name req)) true = (s1, Ok h) ->
  rpc_channel P (world s1) h = (w2, Ok fresh_channel) -> is_u64 (next_id s1) ->
  travels (request_to_json (JsonRpcRequest_new METHOD_INVOKE (next_id s1) (invoke_params_to_json (wire_params req)))) ->
  SandboxWire.invoke tool (get_tool w2) (wire_params req) = (t', i) ->
  travels (response_to_json (invocation_response (next_id s1) i)) ->
  (forall e, invocation_outcome (iv_tool_name req) i = Err e -> is_sandbox_transport_error show e = false) ->
  exists s', host_invoke s agent ctx limit req = (s', invocation_outcome (iv_tool_name req) i) /\
    get_tool (world s') = t'.
Proof.
  intros Hra Hacq Hch Hid Hreq Hi Hresp Htext. destruct (invocation_response_plain (next_id s1) i) as [Hplain Hrid].
  destruct (once_answers s s1 (iv_tool_name req) METHOD_INVOKE (invoke_params_to_json (wire_params req))
    (Z.min (iv_timeout req) limit) (agent, ctx, tool_name_display (iv_tool_name req)) true h w2 t'
    (invocation_response (next_id s1) i)) as (s' & Ht & Honce); [done..| |by rewrite Hrid|done|done|].
  { by apply answered_invoke. }
  exists s'. split; [|done]. unfold invoke, json_rpc_call. fold (wire_params req). rewrite Honce.
  pose proof (invocation_decoded (iv_tool_name req) (next_id s1) i) as Hdec.
  destruct (rs_error (invocation_response (next_id s1) i)) as [err|].
  - cbn [result_bind] in Hdec |- *. rewrite <-Hdec in Htext. rewrite (Htext _ eq_refl). by rewrite <-Hdec.
  - destruct (rs_result (invocation_response (next_id s1) i)) as [v|]; cbn [ok_or result_bind] in Hdec |- *.
    + by rewrite Hdec.
    + rewrite <-Hdec in Htext. rewrite (Htext _ eq_refl). by rewrite <-Hdec.
Qed.

End EndToEnd.

(** ** Runs *)

(** One sandbox, always there; the world is the state of its tool. *)
Definition local_provider {S} (act : S -> SandboxHandle -> channel -> S * channel) : Provider S :=
  let h := mkHandle "baml:runner:0123456789" 0 0 "/" None 300000 3600000 in
  mkProvider _ (fun _ => 1) (fun w _ => (w, Ok h)) (fun w _ => (w, Ok h)) (fun w _ => (w, Ok tt))
    (fun w _ => (w, Ok fresh_channel)) act.

Definition local_spec (_ : SandboxCacheKey) : result SandboxSpec BamlRtError :=
  Ok (mkSpec "baml:runner:0123456789" (Oci "scratch:latest") "/" None).

Definition local_hash (_ : string) : string := "0123456789abcdef".

Definition local_request : InvokeRequest :=
  mkInvoke (mkToolName "support" "echo") "inv-1" (JStr "hello") [] JNull 1000.

Definition wire_request (id : Z) : json :=
  request_to_json (JsonRpcRequest_new METHOD_INVOKE id (invoke_params_to_json (wire_params local_request))).

(** A printer that tells the requests and answers of the runs apart. *)
Definition local_vec (answer_of : Z -> json) (v : json) : string :=
  if json_eqb v (wire_request 1) then "q1" else if json_eqb v (wire_request 2) then "q2"
  else if json_eqb v (answer_of 1) then "a1" else if json_eqb v (answer_of 2) then "a2" else "other".

Definition local_slice (answer_of : Z -> json) (s : string) : result json string :=
  if String.eqb s "q1" then Ok (wire_request 1) else if String.eqb s "q2" then Ok (wire_request 2)
  else if String.eqb s "a1" then Ok (answer_of 1) else if String.eqb s "a2" then Ok (answer_of 2) else Err "unknown".

Definition local_peer {S} (answer_of : Z -> json) (tool : SandboxTool S) (w : S) (h : SandboxHandle) (c : channel)
    : S * channel := adapter_side (local_vec answer_of) (local_slice answer_of) (fun _ => "bad") tool w c.

Definition echo_answer (id : Z) : json :=
  response_to_json (invocation_response id (Returned (Ok (mkInvokeResult (JStr "hello") true)))).

Lemma sandbox_invoke_exact_witness :
  exists s', invoke (local_vec echo_answer) (local_slice echo_answer) (fun _ => "bad") local_hash show_Z (fun _ => "error")
      (local_provider (local_peer echo_answer echo_tool)) "runner" local_spec (mkHost ∅ 1 0%nat) "agent-a" "ctx-1" 1000
      local_request = (s', Ok (mkInvokeResponse (JStr "hello") true)) /\ world s' = 1%nat.
Proof.
  destruct (sandbox_invoke_exact (local_vec echo_answer) (local_slice echo_answer) (fun _ => "bad") local_hash show_Z
    (fun _ => "error") (local_provider (local_peer echo_answer echo_tool)) echo_tool "runner" local_spec (fun w => w)
    (fun s _ => s) (mkHost ∅ 1 0%nat)
    (mkHost {[("agent-a", "ctx-1", "support/echo") := mkHandle "baml:runner:0123456789" 0 0 "/" None 300000 3600000]} 1 0%nat)
    "agent-a" "ctx-1" 1000 local_request (mkHandle "baml:runner:0123456789" 0 0 "/" None 300000 3600000) 0%nat 1%nat
    (Returned (Ok (mkInvokeResult (JStr "hello") true)))) as (s' & E & Hw).
  - split; [|reflexivity]. intros w h c. unfold local_provider, local_peer. cbn [peer]. by destruct (adapter_side _ _ _ _ w c).
  - vm_compute. reflexivity.
  - reflexivity.
  - split; vm_compute; discriminate.
  - split; [vm_compute; discriminate|vm_compute; reflexivity].
  - reflexivity.
  - split; [vm_compute; discriminate|vm_compute; reflexivity].
  - discriminate.
  - exists s'. split; [exact E|exact Hw].
Defined.

(** A tool that fails with a text of its own, counting its calls. *)
Definition flaky_tool : SandboxTool nat :=
  mkTool _ (fun _ => mkDescribe "1" "support/echo" [] None None None) (fun _ => None)
    (fun n p => (S n, Returned (Err (Execution "upstream said: Broken pipe" [])))).

Definition flaky_answer (id : Z) : json :=
  response_to_json (invocation_response id (Returned (Err (Execution "upstream said: Broken pipe" [])))).

(** The tool's own words decide about the retry: an error that mentions a broken
    pipe is taken for a failure of the transport, the sandbox is torn down and
    the call is made again, although the tool has answered. *)
Lemma transport_text_runs_twice :
  exists s' c, invoke (local_vec flaky_answer) (local_slice flaky_answer) (fun _ => "bad") local_hash show_Z (fun _ => "error")
      (local_provider (local_peer flaky_answer flaky_tool)) "runner" local_spec (mkHost ∅ 1 0%nat) "agent-a" "ctx-1" 1000
      local_request = (s', Err (ToolClassified c)) /\ disposition c = InformAndContinue /\ world s' = 2%nat.
Proof. vm_compute. eauto. Qed.
