(* ===== verification/SandboxSessions.v ===== *)
(** * Tool sessions in sandboxes

    [baml-sandbox-protocol/src/session.rs] (the session methods on the wire),
    [baml-sandbox-adapter/src/session.rs] (their dispatch inside the sandbox),
    [external_tools/sandbox/session_invoker.rs] (the host: a pooled sandbox and a
    persistent channel per session) and [external_tools/session_handler.rs] (the
    tool session on top of it).

    The pool, the provider and the process at the other end of a channel are a
    record of operations over a world; the pool's own correctness is
    [SessionPool].  A session lives in a cell, since a reader keeps it while the
    table forgets it. *)

From stdpp Require Import base list strings gmap.
From Stdlib Require Import ZArith Lia Ascii.
From S2P Require Import Prelude RustStr Json SandboxWire Errors ToolNames ToolSessions SandboxHost.

Open Scope string_scope.
Open Scope list_scope.
Open Scope Z_scope.

(** ** The wire *)

Definition METHOD_SESSION_OPEN : string := "tool/session_open".
Definition METHOD_SESSION_SEND : string := "tool/session_send".
Definition METHOD_SESSION_READ : string := "tool/session_read".
Definition METHOD_SESSION_FINISH : string := "tool/session_finish".
Definition METHOD_SESSION_ABORT : string := "tool/session_abort".
Definition METHOD_SESSION_RESET : string := "tool/session_reset".

Inductive SessionDisposition := SdHostRetriable | SdInformAndContinue | SdLlmCorrectable | SdFatal.

Definition disposition_name (d : SessionDisposition) : string :=
  match d with
  | SdHostRetriable => "host_retriable"
  | SdInformAndContinue => "inform_and_continue"
  | SdLlmCorrectable => "llm_correctable"
  | SdFatal => "fatal"
  end.

Definition disposition_from_json (v : json) : option SessionDisposition :=
  s ← match v with JStr s => Some s | JObj [(s, JNull)] => Some s | _ => None end;
  head (List.filter (fun d => String.eqb (disposition_name d) s)
          [SdHostRetriable; SdInformAndContinue; SdLlmCorrectable; SdFatal]).

Record StepFailure := mkStepFailure {
  sf_code : string; sf_message : string; sf_disposition : SessionDisposition;
  sf_hint : option string; sf_retry_after_ms : option Z
}.

Inductive StepEnvelope :=
| EnvStreaming (output : json)
| EnvSuspended (output : json) (resume_token : string)
| EnvDone (output : option json)
| EnvError (error : StepFailure).

Definition opt_entry (k : string) (o : option json) : list (string * json) :=
  match o with Some v => [(k, v)] | None => [] end.

Definition step_failure_to_json (e : StepFailure) : json :=
  JObj ([("code", JStr (sf_code e)); ("message", JStr (sf_message e));
         ("disposition", JStr (disposition_name (sf_disposition e)))]
        ++ opt_entry "hint" (JStr <$> sf_hint e)
        ++ opt_entry "retry_after_ms" ((fun z => JNum (NInt z)) <$> sf_retry_after_ms e)).

Definition step_failure_from_json (v : json) : option StepFailure :=
  fs ← as_struct ["code"; "message"; "disposition"; "hint"; "retry_after_ms"] 3 v;
  c ← field "code" fs ≫= as_str;
  m ← field "message" fs ≫= as_str;
  d ← field "disposition" fs ≫= disposition_from_json;
  h ← decode_opt as_str (opt_field "hint" fs);
  r ← decode_opt as_u64 (opt_field "retry_after_ms" fs);
  Some (mkStepFailure c m d h r).

Definition step_to_json (e : StepEnvelope) : json :=
  match e with
  | EnvStreaming output => JObj [("step", JStr "streaming"); ("output", output)]
  | EnvSuspended output token => JObj [("step", JStr "suspended"); ("output", output); ("resume_token", JStr token)]
  | EnvDone output => JObj [("step", JStr "done"); ("output", default JNull output)]
  | EnvError error => JObj [("step", JStr "error"); ("error", step_failure_to_json error)]
  end.

(** The variant named by the tag, from the rest of the value. *)
Definition step_variant (tag : string) (rest : json) : option StepEnvelope :=
  if String.eqb tag "streaming" then
    fs ← as_struct ["output"] 1 rest; o ← field "output" fs; Some (EnvStreaming o)
  else if String.eqb tag "suspended" then
    fs ← as_struct ["output"; "resume_token"] 2 rest;
    o ← field "output" fs; t ← field "resume_token" fs ≫= as_str; Some (EnvSuspended o t)
  else if String.eqb tag "done" then
    fs ← as_struct ["output"] 0 rest; Some (EnvDone (opt_field "output" fs))
  else if String.eqb tag "error" then
    fs ← as_struct ["error"] 1 rest; e ← field "error" fs ≫= step_failure_from_json; Some (EnvError e)
  else None.

Definition step_from_json (v : json) : option StepEnvelope :=
  match v with
  | JObj fs => tag ← field "step" fs ≫= as_str; step_variant tag v
  | JArr (JStr tag :: rest) => step_variant tag (JArr rest)
  | _ => None
  end.

Record SessionOpenParams := mkOpenParams {
  op_invocation_id : string; op_tool_name : string; op_open_input : json;
  op_secrets : list (string * json); op_capabilities : json
}.

Definition secrets_entry (m : list (string * json)) : list (string * json) :=
  match m with [] => [] | _ => [("secrets", JObj m)] end.

Definition secrets_field (fs : list (string * json)) : option (list (string * json)) :=
  match field "secrets" fs with None => Some [] | Some s => as_object s end.

Definition open_params_to_json (p : SessionOpenParams) : json :=
  JObj ([("invocation_id", JStr (op_invocation_id p)); ("tool_name", JStr (op_tool_name p)); ("open_input", op_open_input p)]
        ++ secrets_entry (op_secrets p)
        ++ match op_capabilities p with JNull => [] | v => [("capabilities", v)] end).

Definition open_params_from_json (v : json) : option SessionOpenParams :=
  fs ← as_struct ["invocation_id"; "tool_name"; "open_input"; "secrets"; "capabilities"] 3 v;
  i ← field "invocation_id" fs ≫= as_str;
  t ← field "tool_name" fs ≫= as_str;
  inp ← field "open_input" fs;
  sec ← secrets_field fs;
  Some (mkOpenParams i t inp sec (default JNull (field "capabilities" fs))).

Record SessionOpenResult := mkOpenResult { or_session_id : string; or_initial_step : option StepEnvelope }.

Definition open_result_to_json (r : SessionOpenResult) : json :=
  JObj ([("session_id", JStr (or_session_id r))] ++ opt_entry "initial_step" (step_to_json <$> or_initial_step r)).

Definition open_result_from_json (v : json) : option SessionOpenResult :=
  fs ← as_struct ["session_id"; "initial_step"] 1 v;
  i ← field "session_id" fs ≫= as_str;
  st ← decode_opt step_from_json (opt_field "initial_step" fs);
  Some (mkOpenResult i st).

Record SessionSendParams := mkSendParams {
  sn_session_id : string; sn_input : json; sn_resume_token : option string; sn_secrets : list (string * json)
}.

Definition send_params_to_json (p : SessionSendParams) : json :=
  JObj ([("session_id", JStr (sn_session_id p)); ("input", sn_input p)]
        ++ opt_entry "resume_token" (JStr <$> sn_resume_token p) ++ secrets_entry (sn_secrets p)).

Definition send_params_from_json (v : json) : option SessionSendParams :=
  fs ← as_struct ["session_id"; "input"; "resume_token"; "secrets"] 2 v;
  i ← field "session_id" fs ≫= as_str;
  inp ← field "input" fs;
  t ← decode_opt as_str (opt_field "resume_token" fs);
  sec ← secrets_field fs;
  Some (mkSendParams i inp t sec).

(** The params that are a session id alone, and the acknowledgements without fields. *)
Definition id_params_to_json (session_id : string) : json := JObj [("session_id", JStr session_id)].

Definition id_params_from_json (v : json) : option string :=
  fs ← as_struct ["session_id"] 1 v; field "session_id" fs ≫= as_str.

Definition ack_to_json : json := JObj [].
Definition ack_from_json (v : json) : option unit := _ ← as_struct [] 0 v; Some tt.

Record SessionAbortParams := mkAbortParams { ab_session_id : string; ab_reason : option string }.

Definition abort_params_from_json (v : json) : option SessionAbortParams :=
  fs ← as_struct ["session_id"; "reason"] 1 v;
  i ← field "session_id" fs ≫= as_str;
  r ← decode_opt as_str (opt_field "reason" fs);
  Some (mkAbortParams i r).

Inductive SessionResetOutcome := ResetOk | ResetUnsupported.

Definition reset_result_to_json (o : SessionResetOutcome) : json :=
  JObj [("outcome", JStr match o with ResetOk => "ok" | ResetUnsupported => "unsupported" end)].

Definition reset_result_from_json (v : json) : option SessionResetOutcome :=
  fs ← as_struct ["outcome"] 0 v;
  match field "outcome" fs with
  | None => Some ResetOk
  | Some o =>
      s ← match o with JStr s => Some s | JObj [(s, JNull)] => Some s | _ => None end;
      if String.eqb s "ok" then Some ResetOk else if String.eqb s "unsupported" then Some ResetUnsupported else None
  end.

(** ** The adapter *)

Record SandboxSessionTool (S : Type) := mkSessionTool {
  st_open : S -> SessionOpenParams -> S * result SessionOpenResult AdapterError;
  st_send : S -> SessionSendParams -> S * result unit AdapterError;
  st_read : S -> string -> S * result StepEnvelope AdapterError;
  st_finish : S -> string -> S * result unit AdapterError;
  st_abort : S -> SessionAbortParams -> S * result unit AdapterError;
  st_on_reset : S -> S * result SessionResetOutcome AdapterError;
}.
Arguments st_open {S}. Arguments st_send {S}. Arguments st_read {S}. Arguments st_finish {S}.
Arguments st_abort {S}. Arguments st_on_reset {S}.

Definition to_response {R} (encode : R -> json) (id : Z) (outcome : result R AdapterError) : JsonRpcResponse :=
  match outcome with
  | Ok value => mkResponse "2.0" id (Some (encode value)) None
  | Err e => mkResponse "2.0" id None (Some (into_json_rpc e))
  end.

Definition unknown_method (id : Z) (method : string) : JsonRpcResponse :=
  error_response id ERR_METHOD_NOT_FOUND ("unknown session method '" +:+ method +:+ "'") ClsInvalidArgument.

Section SessionAdapter.
Variable serde_err : json -> string.
Context {S : Type} (tool : SandboxSessionTool S).

(** Parse the params and run the method, or answer with the parse error. *)
Definition with_params {Q R} (decode : json -> option Q) (encode : R -> json)
    (run : S -> Q -> S * result R AdapterError) (s : S) (req : JsonRpcRequest) : S * JsonRpcResponse :=
  match decode (rq_params req) with
  | None =>
      (s, error_response (rq_id req) ERR_PARSE_ERROR
            ("invalid " +:+ rq_method req +:+ " params: " +:+ serde_err (rq_params req)) ClsInvalidArgument)
  | Some p => let (s', r) := run s p in (s', to_response encode (rq_id req) r)
  end.

Definition dispatch_session_request (s : S) (req : JsonRpcRequest) : S * JsonRpcResponse :=
  let m := rq_method req in
  if String.eqb m METHOD_SESSION_OPEN then with_params open_params_from_json open_result_to_json (st_open tool) s req
  else if String.eqb m METHOD_SESSION_SEND then with_params send_params_from_json (fun _ => ack_to_json) (st_send tool) s req
  else if String.eqb m METHOD_SESSION_READ then with_params id_params_from_json step_to_json (st_read tool) s req
  else if String.eqb m METHOD_SESSION_FINISH then with_params id_params_from_json (fun _ => ack_to_json) (st_finish tool) s req
  else if String.eqb m METHOD_SESSION_ABORT then with_params abort_params_from_json (fun _ => ack_to_json) (st_abort tool) s req
  else if String.eqb m METHOD_SESSION_RESET then
    with_params id_params_from_json reset_result_to_json (fun s _ => st_on_reset tool s) s req
  else (s, unknown_method (rq_id req) m).

End SessionAdapter.

(** ** The host *)

Definition host_disposition (d : SessionDisposition) : ErrorDisposition :=
  match d with
  | SdHostRetriable => HostRetriable
  | SdInformAndContinue => InformAndContinue
  | SdLlmCorrectable => LlmCorrectable
  | SdFatal => Fatal
  end.

Definition step_envelope_to_tool_step (e : StepEnvelope) : ToolStep * option string :=
  match e with
  | EnvStreaming output => (Streaming output, None)
  | EnvSuspended output token => (Suspended output, Some token)
  | EnvDone output => (ToolSessions.Done output, None)
  | EnvError error =>
      let d := host_disposition (sf_disposition error) in
      let classified := mkClassified (sf_code error) d (sf_message error) (sf_hint error) (sf_retry_after_ms error) in
      let kind := match d with LlmCorrectable => InvalidInput | _ => FExecutionFailed end in
      let retry := match d with HostRetriable => Retryable | _ => Permanent end in
      (StepError (mkFailure kind (sf_message error) retry classified), None)
  end.

Definition session_error (code : string) (d : ErrorDisposition) (message : string) (hint : option string) (retry : option Z)
    : BamlRtError := ToolClassified (mkClassified code d message hint retry).

Definition unknown_session_error (session_id : string) : BamlRtError :=
  session_error "unknown_session" Fatal ("session '" +:+ session_id +:+ "' is not tracked by this invoker") None None.

Definition session_aborted_error (session_id : string) : BamlRtError :=
  session_error "evicted_by_operator" Fatal
    ("session '" +:+ session_id +:+ "' was aborted while session_read was in flight") None None.

Definition session_busy_error (session_id : string) : BamlRtError :=
  session_error "session_busy" HostRetriable ("session '" +:+ session_id +:+ "' already has an in-flight read")
    (Some "serialize session_read calls per session") (Some 20).

Record PooledSandbox := mkPooled { pd_session : nat; pd_handle : SandboxHandle }.

Record LiveSession := mkLive {
  ls_pooled : option PooledSandbox;
  ls_handle : SandboxHandle;       (* the sandbox the channel leads to *)
  ls_channel : channel;
  ls_read_inflight : bool;
  ls_cancelled : bool;
  ls_tool_name : ToolName;
}.

(** The calls made on the pool. *)
Inductive pool_call := CheckedOut (p : PooledSandbox) | Idled (p : PooledSandbox) | Destroyed (p : PooledSandbox).

Record Backend (W : Type) := mkBackend {
  checkout : W -> SandboxCacheKey -> W * result PooledSandbox BamlRtError;
  release_finish_idle : W -> PooledSandbox -> W;
  release_destroy : W -> PooledSandbox -> W;
  open_channel : W -> SandboxHandle -> W * result channel BamlRtError;
  respond : W -> SandboxHandle -> channel -> W * channel;
}.
Arguments checkout {W}. Arguments release_finish_idle {W}. Arguments release_destroy {W}.
Arguments open_channel {W}. Arguments respond {W}.

Record SessionOpenRequest := mkOpenRequest {
  sor_tool_name : ToolName; sor_invocation_id : string; sor_open_input : json;
  sor_secrets : list (string * json); sor_capabilities : json; sor_timeout : Z
}.

Record SessionOpenResponse := mkOpenResponse {
  sop_session_id : string; sop_initial_step : option ToolStep; sop_initial_resume_token : option string
}.

Section SessionInvoker.
Variable to_vec : json -> string.
Variable from_slice : string -> result json string.
Variable serde_err : json -> string.
Variable show_duration : Z -> string.
Variable show : BamlRtError -> string.
Context {W : Type} (B : Backend W).
Variable agent_id context_id : string.
Variable default_rpc_timeout reset_timeout : Z.
Variable reuse_after_session : bool.

Record invoker := mkInvoker {
  sessions : gmap string nat;
  cells : gmap nat LiveSession;
  next_rpc : Z;
  pool_world : W;
  pool_calls : list pool_call;
}.

Definition set_pool_world (s : invoker) (w : W) : invoker := mkInvoker (sessions s) (cells s) (next_rpc s) w (pool_calls s).
Definition set_cell (s : invoker) (k : nat) (l : LiveSession) : invoker :=
  mkInvoker (sessions s) (<[k := l]> (cells s)) (next_rpc s) (pool_world s) (pool_calls s).

Definition with_channel (l : LiveSession) (c : channel) : LiveSession :=
  mkLive (ls_pooled l) (ls_handle l) c (ls_read_inflight l) (ls_cancelled l) (ls_tool_name l).
Definition with_inflight (l : LiveSession) (b : bool) : LiveSession :=
  mkLive (ls_pooled l) (ls_handle l) (ls_channel l) b (ls_cancelled l) (ls_tool_name l).
Definition without_pooled (l : LiveSession) : LiveSession :=
  mkLive None (ls_handle l) (ls_channel l) (ls_read_inflight l) (ls_cancelled l) (ls_tool_name l).
Definition with_cancelled (l : LiveSession) : LiveSession :=
  mkLive (ls_pooled l) (ls_handle l) (ls_channel l) (ls_read_inflight l) true (ls_tool_name l).

Definition destroy (s : invoker) (p : PooledSandbox) : invoker :=
  mkInvoker (sessions s) (cells s) (next_rpc s) (release_destroy B (pool_world s) p) (pool_calls s ++ [Destroyed p]).

Definition give_back (s : invoker) (p : PooledSandbox) : invoker :=
  mkInvoker (sessions s) (cells s) (next_rpc s) (release_finish_idle B (pool_world s) p) (pool_calls s ++ [Idled p]).

(** [classify_timeout_error] *)
Definition classify_timeout_error (tool : ToolName) (method : string) (timeout : Z) : BamlRtError :=
  if String.eqb method METHOD_SESSION_READ then
    session_error "chunk_timeout" InformAndContinue
      ("session read for '" +:+ tool_name_display tool +:+ "' timed out after " +:+ show_duration timeout)
      (Some "retry session_read within the same session") (Some (Z.min timeout u64_max))
  else InvalidArgument ("session RPC '" +:+ method +:+ "' for '" +:+ tool_name_display tool +:+ "' timed out after "
                        +:+ show_duration timeout).

(** One exchange on a channel.  When the time is up the bytes that the
    abandoned read has taken are gone; what arrives later stays. *)
Definition call_one_rpc {R} (decode : json -> option R) (s : invoker) (tool : ToolName) (h : SandboxHandle) (c : channel)
    (method : string) (params : json) (timeout : Z) : invoker * channel * result R BamlRtError :=
  let id := next_rpc s in
  let s0 := mkInvoker (sessions s) (cells s) (wrap64 (next_rpc s + 1)) (pool_world s) (pool_calls s) in
  let (c1, sent) := send to_vec (request_to_json (JsonRpcRequest_new method id params)) c in
  match sent with
  | Err e => (s0, c1, Err (InvalidArgumentWithSource ("failed to send TSRPC frame for " +:+ method) (CodecError_display e)))
  | Ok _ =>
      let (w, c2) := respond B (pool_world s0) h c1 in
      let s1 := set_pool_world s0 w in
      let (c3, got) := recv from_slice c2 in
      match got with
      | Waiting => (s1, with_in c3 EmptyString, Err (classify_timeout_error tool method timeout))
      | Failed e =>
          (s1, c3, Err (InvalidArgumentWithSource ("failed to recv TSRPC frame for " +:+ method) (CodecError_display e)))
      | Got value =>
          (s1, c3,
           let? response := ok_or (response_from_json value)
             (InvalidArgumentWithSource ("failed to decode JSON-RPC response for " +:+ method) (serde_err value)) in
           match rs_error response with
           | Some err => Err (map_jsonrpc_error tool err)
           | None =>
               let? raw := ok_or (rs_result response)
                 (InvalidArgument ("JSON-RPC response for " +:+ method +:+ " missing result payload")) in
               ok_or (decode raw)
                 (InvalidArgumentWithSource ("failed to decode " +:+ method +:+ " result payload") (serde_err raw))
           end)
      end
  end.

(** A session nobody refers to any more gives its sandbox up
    ([Drop for PooledSandbox]). *)
Definition drop_cell (s : invoker) (k : nat) : invoker :=
  match cells s !! k with
  | Some l =>
      if bool_decide (map_Forall (fun _ k' => k' <> k) (sessions s)) && negb (ls_read_inflight l) then
        match ls_pooled l with
        | Some p => destroy (set_cell s k (without_pooled l)) p
        | None => s
        end
      else s
  | None => s
  end.

Definition session_open_once (s : invoker) (req : SessionOpenRequest) : invoker * result SessionOpenResponse BamlRtError :=
  let tool := sor_tool_name req in
  let (w, taken) := checkout B (pool_world s) (agent_id, context_id, tool_name_display tool) in
  match taken with
  | Err e => (set_pool_world s w, Err e)
  | Ok pooled =>
      let s1 := mkInvoker (sessions s) (cells s) (next_rpc s) w (pool_calls s ++ [CheckedOut pooled]) in
      let (w2, opened) := open_channel B (pool_world s1) (pd_handle pooled) in
      let s2 := set_pool_world s1 w2 in
      match opened with
      | Err e => (destroy s2 pooled, Err e)
      | Ok c0 =>
          let params := mkOpenParams (sor_invocation_id req) (tool_name_display tool) (sor_open_input req) (sor_secrets req)
                          (sor_capabilities req) in
          match call_one_rpc open_result_from_json s2 tool (pd_handle pooled) c0 METHOD_SESSION_OPEN
                  (open_params_to_json params) (Z.min (sor_timeout req) default_rpc_timeout) with
          | (s3, _, Err e) => (destroy s3 pooled, Err e)
          | (s3, c3, Ok r) =>
              let k := fresh (dom (cells s3)) in
              let old := sessions s3 !! or_session_id r in
              let s4 := mkInvoker (<[or_session_id r := k]> (sessions s3))
                          (<[k := mkLive (Some pooled) (pd_handle pooled) c3 false false tool]> (cells s3))
                          (next_rpc s3) (pool_world s3) (pool_calls s3) in
              let first := step_envelope_to_tool_step <$> or_initial_step r in
              (match old with Some k' => drop_cell s4 k' | None => s4 end,
               Ok (mkOpenResponse (or_session_id r) (fst <$> first) (first ≫= snd)))
          end
      end
  end.

Definition session_open (s : invoker) (req : SessionOpenRequest) : invoker * result SessionOpenResponse BamlRtError :=
  let (s1, r) := session_open_once s req in
  match r with
  | Ok response => (s1, Ok response)
  | Err e => if is_sandbox_transport_error show e then session_open_once s1 req else (s1, Err e)
  end.

Definition lookup_session (s : invoker) (session_id : string) : option (nat * LiveSession) :=
  k ← sessions s !! session_id; l ← cells s !! k; Some (k, l).

(** An exchange on the channel of a session in a cell. *)
Definition cell_rpc {R} (decode : json -> option R) (s : invoker) (k : nat) (l : LiveSession) (method : string)
    (params : json) (timeout : Z) : invoker * LiveSession * result R BamlRtError :=
  let '(s1, c, r) := call_one_rpc decode s (ls_tool_name l) (ls_handle l) (ls_channel l) method params timeout in
  (set_cell s1 k (with_channel l c), with_channel l c, r).

Definition session_send (s : invoker) (session_id : string) (input : json) (resume_token : option string)
    (secrets : list (string * json)) (timeout : Z) : invoker * result unit BamlRtError :=
  match lookup_session s session_id with
  | None => (s, Err (unknown_session_error session_id))
  | Some (k, l) =>
      let '(s1, _, r) := cell_rpc ack_from_json s k l METHOD_SESSION_SEND
        (send_params_to_json (mkSendParams session_id input resume_token secrets)) (Z.min timeout default_rpc_timeout) in
      (s1, r)
  end.

(** The start of [session_read]: the flag that keeps a second reader out. *)
Definition read_begin (s : invoker) (session_id : string) : invoker * result nat BamlRtError :=
  match lookup_session s session_id with
  | None => (s, Err (unknown_session_error session_id))
  | Some (k, l) =>
      if ls_read_inflight l then (s, Err (session_busy_error session_id))
      else (set_cell s k (with_inflight l true), Ok k)
  end.

(** The rest, once the channel is free; the flag falls in every case. *)
Definition read_end (s : invoker) (k : nat) (session_id : string) (chunk_timeout : Z)
    : invoker * result (ToolStep * option string) BamlRtError :=
  match cells s !! k with
  | None => (s, Err (unknown_session_error session_id))
  | Some l =>
      let done (s : invoker) (l : LiveSession) := drop_cell (set_cell s k (with_inflight l false)) k in
      if ls_cancelled l then (done s l, Err (session_aborted_error session_id))
      else
        let '(s1, c, r) := call_one_rpc step_from_json s (ls_tool_name l) (ls_handle l) (ls_channel l) METHOD_SESSION_READ
                             (id_params_to_json session_id) (Z.min chunk_timeout default_rpc_timeout) in
        (done s1 (with_channel l c), let? e := r in Ok (step_envelope_to_tool_step e))
  end.

Definition remove_session (s : invoker) (session_id : string) : invoker :=
  mkInvoker (delete session_id (sessions s)) (cells s) (next_rpc s) (pool_world s) (pool_calls s).

Definition run_reset_hook (s : invoker) (k : nat) (l : LiveSession) (session_id : string) : invoker * bool :=
  let '(s1, _, r) := cell_rpc reset_result_from_json s k l METHOD_SESSION_RESET (id_params_to_json session_id) reset_timeout in
  (s1, match r with Ok ResetOk => true | _ => false end).

Definition session_finish (s : invoker) (session_id : string) (timeout : Z) : invoker * result unit BamlRtError :=
  match lookup_session s session_id with
  | None => (s, Err (unknown_session_error session_id))
  | Some (k, l) =>
      let '(s1, l1, outcome) := cell_rpc ack_from_json (remove_session s session_id) k l METHOD_SESSION_FINISH
                                  (id_params_to_json session_id) (Z.min timeout default_rpc_timeout) in
      match ls_pooled l1 with
      | None => (s1, Err (InvalidArgument ("session '" +:+ session_id +:+ "' resources were already released")))
      | Some pooled =>
          let l2 := without_pooled l1 in
          let s2 := set_cell s1 k l2 in
          match outcome with
          | Ok _ =>
              if reuse_after_session then
                let (s3, reuse_ok) := run_reset_hook s2 k l2 session_id in
                (if reuse_ok then give_back s3 pooled else destroy s3 pooled, Ok tt)
              else (destroy s2 pooled, Ok tt)
          | Err e => (destroy s2 pooled, Err e)
          end
      end
  end.

Definition session_abort (s : invoker) (session_id : string) : invoker * result unit BamlRtError :=
  match lookup_session s session_id with
  | None => (s, Err (unknown_session_error session_id))
  | Some (k, l) =>
      let s1 := set_cell (remove_session s session_id) k (without_pooled (with_cancelled l)) in
      (match ls_pooled l with Some p => destroy s1 p | None => s1 end, Ok tt)
  end.

End SessionInvoker.
Arguments sessions {W}. Arguments cells {W}. Arguments next_rpc {W}. Arguments pool_world {W}. Arguments pool_calls {W}.
Arguments mkInvoker {W}.

(** ** Every sandbox is accounted for *)

Definition taken (cs : list pool_call) : list PooledSandbox := omap (fun c => match c with CheckedOut p => Some p | _ => None end) cs.
Definition given (cs : list pool_call) : list PooledSandbox :=
  omap (fun c => match c with Idled p | Destroyed p => Some p | CheckedOut _ => None end) cs.
Definition held (m : gmap nat LiveSession) : list PooledSandbox := omap (fun kl => ls_pooled kl.2) (map_to_list m).

Lemma held_insert m k l : m !! k = None -> held (<[k := l]> m) ≡ₚ option_list (ls_pooled l) ++ held m.
Proof. intros H. unfold held. rewrite map_to_list_insert by done. simpl. by destruct (ls_pooled l). Qed.

Lemma held_delete m k l : m !! k = Some l -> held m ≡ₚ option_list (ls_pooled l) ++ held (delete k m).
Proof.
  intros H. rewrite <-(insert_delete_id m k l H) at 1. apply held_insert. apply lookup_delete_eq.
Qed.

Lemma held_update m k l l' :
  m !! k = Some l -> held (<[k := l']> m) ≡ₚ option_list (ls_pooled l') ++ held (delete k m).
Proof. intros H. rewrite <-insert_delete_eq. apply held_insert. apply lookup_delete_eq. Qed.

Section Accounts.
Context {W : Type}.
#[local] Set Default Proof Using "Type".

(** What was checked out is what was given back, what sessions hold, and
    [extra]; a tracked session holds its sandbox and is not aborted, and a session
    that is not tracked, save [x], holds one only while it is read. *)
Record books (extra : list PooledSandbox) (x : option nat) (s : invoker (W:=W)) : Prop := {
  bk_balance : taken (pool_calls s) ≡ₚ given (pool_calls s) ++ extra ++ held (cells s);
  bk_tracked id k : sessions s !! id = Some k ->
    exists l p, cells s !! k = Some l /\ ls_pooled l = Some p /\ ls_cancelled l = false;
  bk_single id id' k : sessions s !! id = Some k -> sessions s !! id' = Some k -> id = id';
  bk_owned k l p : x <> Some k -> cells s !! k = Some l -> ls_pooled l = Some p ->
    (exists id, sessions s !! id = Some k) \/ ls_read_inflight l = true;
}.

Definition accounted (s : invoker (W:=W)) : Prop := books [] None s.

Lemma books_same e x s s' :
  books e x s -> sessions s' = sessions s -> cells s' = cells s -> pool_calls s' = pool_calls s -> books e x s'.
Proof. intros [H1 H2 H3 H4] E1 E2 E3. by split; rewrite ?E1, ?E2, ?E3. Qed.

Lemma taken_app cs ds : taken (cs ++ ds) = taken cs ++ taken ds.
Proof. apply omap_app. Qed.
Lemma given_app cs ds : given (cs ++ ds) = given cs ++ given ds.
Proof. apply omap_app. Qed.

Lemma books_calls e e' x s s' cs :
  books e x s -> sessions s' = sessions s -> cells s' = cells s -> pool_calls s' = pool_calls s ++ cs ->
  e ++ taken cs ≡ₚ given cs ++ e' -> books e' x s'.
Proof.
  intros [H1 H2 H3 H4] E1 E2 E3 Hp. split; rewrite ?E1, ?E2; try done.
  rewrite E3, taken_app, given_app, H1. rewrite <-!(assoc_L (++)). apply Permutation_app_head.
  rewrite (Permutation_app_comm (held _)), !(assoc_L (++)). apply Permutation_app_tail. by rewrite Hp.
Qed.

Lemma books_cell e x s k l l' :
  books e x s -> cells s !! k = Some l -> ls_pooled l' = ls_pooled l -> ls_cancelled l' = ls_cancelled l ->
  ls_read_inflight l' = ls_read_inflight l \/ x = Some k \/ ls_read_inflight l' = true ->
  books e x (set_cell s k l').
Proof.
  intros [H1 H2 H3 H4] Hl Hp Hc Hi. split; simpl; try done.
  - rewrite H1, (held_update _ _ l) by done. rewrite (held_delete (cells s) k l Hl), Hp. done.
  - intros id k' Hk'. destruct (H2 id k' Hk') as (l0 & p & Hl0 & Hp0 & Hc0). destruct (decide (k = k')) as [<-|Hne].
    + exists l', p. rewrite lookup_insert_eq. rewrite Hl in Hl0. injection Hl0 as <-. rewrite Hp, Hc. done.
    + exists l0, p. by rewrite lookup_insert_ne.
  - intros k' l0 p Hx Hl0 Hp0. destruct (decide (k = k')) as [<-|Hne].
    + rewrite lookup_insert_eq in Hl0. injection Hl0 as <-. destruct Hi as [Hi|[Hi|Hi]]; [|done|by right].
      rewrite Hi. apply (H4 k l p); [done|done|congruence].
    + rewrite lookup_insert_ne in Hl0 by done. by apply (H4 k' l0 p).
Qed.

(** A session that is no longer tracked hands its sandbox over. *)
Lemma books_take e s k l l' p :
  books e (Some k) s -> cells s !! k = Some l -> ls_pooled l = Some p -> ls_pooled l' = None ->
  (forall id, sessions s !! id <> Some k) -> books (p :: e) None (set_cell s k l').
Proof.
  intros [H1 H2 H3 H4] Hl Hp Hn Hu. split; simpl; try done.
  - rewrite H1, (held_update _ _ l) by done. rewrite (held_delete (cells s) k l Hl), Hp, Hn. simpl.
    apply Permutation_app_head. rewrite <-Permutation_middle. done.
  - intros id k' Hk'. destruct (H2 id k' Hk') as (l0 & p0 & Hl0 & Hp0 & Hc0).
    exists l0, p0. rewrite lookup_insert_ne; [done|]. intros <-. by eapply Hu.
  - intros k' l0 p0 _ Hl0 Hp0. destruct (decide (k = k')) as [<-|Hne].
    + rewrite lookup_insert_eq in Hl0. injection Hl0 as <-. congruence.
    + rewrite lookup_insert_ne in Hl0 by done. apply (H4 k' l0 p0); congruence.
Qed.

Lemma books_remove e s id k :
  books e None s -> sessions s !! id = Some k ->
  books e (Some k) (remove_session s id) /\ (forall id', sessions (remove_session s id) !! id' <> Some k).
Proof.
  intros [H1 H2 H3 H4] Hid. split.
  - split; simpl; try done.
    + intros id' k' Hk'. apply lookup_delete_Some in Hk' as [_ Hk']. by eapply H2.
    + intros i1 i2 k' Hi1 Hi2. apply lookup_delete_Some in Hi1 as [_ Hi1], Hi2 as [_ Hi2]. by eapply H3.
    + intros k' l p Hx Hl Hp. destruct (H4 k' l p) as [[id' Hid']|?]; [done..| |by right]. left. exists id'.
      apply lookup_delete_Some. split; [|done]. intros <-. congruence.
  - intros id'. simpl. intros [Hne Hid']%lookup_delete_Some. apply Hne. by eapply H3.
Qed.

(** A new session in a cell of its own; the session it displaces is loose. *)
Lemma books_track e s id k p l :
  books (p :: e) None s -> cells s !! k = None -> ls_pooled l = Some p -> ls_cancelled l = false ->
  books e (sessions s !! id)
    (mkInvoker (<[id := k]> (sessions s)) (<[k := l]> (cells s)) (next_rpc s) (pool_world s) (pool_calls s)).
Proof.
  intros [H1 H2 H3 H4] Hk Hp Hc.
  assert (forall id', sessions s !! id' <> Some k) as Hu.
  { intros id' Hid'. destruct (H2 _ _ Hid') as (l0 & _ & Hl0 & _). congruence. }
  split; simpl.
  - rewrite H1, held_insert, Hp by done. simpl. apply Permutation_app_head. apply Permutation_middle.
  - intros id' k' Hk'. apply lookup_insert_Some in Hk' as [[_ <-]|[_ Hk']].
    + exists l, p. by rewrite lookup_insert_eq.
    + destruct (H2 _ _ Hk') as (l0 & p0 & Hl0 & ?). exists l0, p0. rewrite lookup_insert_ne; [done|]. intros <-. by eapply Hu.
  - intros i1 i2 k' Hi1 Hi2. apply lookup_insert_Some in Hi1 as [[<- <-]|[? Hi1]], Hi2 as [[<- Hk2]|[? Hi2]]; try done.
    + exfalso. by eapply Hu.
    + subst k'. exfalso. by eapply Hu.
    + by eapply H3.
  - intros k' l0 p0 Hx Hl0 Hp0. apply lookup_insert_Some in Hl0 as [[<- <-]|[Hne Hl0]].
    + left. exists id. apply lookup_insert_eq.
    + destruct (H4 k' l0 p0) as [[id' Hid']|?]; [done..| |by right]. left. exists id'.
      rewrite lookup_insert_ne; [done|]. intros <-. by rewrite Hid' in Hx.
Qed.

Context (B : Backend W).

Lemma books_destroy e x s p : books (p :: e) x s -> books e x (destroy B s p).
Proof. intros H. eapply (books_calls _ _ _ _ _ [Destroyed p]); [exact H|done..|]. simpl. by rewrite app_nil_r. Qed.

Lemma books_give_back e x s p : books (p :: e) x s -> books e x (give_back B s p).
Proof. intros H. eapply (books_calls _ _ _ _ _ [Idled p]); [exact H|done..|]. simpl. by rewrite app_nil_r. Qed.

(** Dropping the last reference puts the books right. *)
Lemma books_drop e s k : books e (Some k) s -> books e None (drop_cell B s k).
Proof.
  intros H. unfold drop_cell. destruct (cells s !! k) as [l|] eqn:Hl.
  2:{ destruct H as [H1 H2 H3 H4]. split; try done. intros k' l p _ Hl' Hp. apply (H4 k' l p); [congruence|done..]. }
  assert ((exists id, sessions s !! id = Some k) \/ ls_read_inflight l = true \/ ls_pooled l = None -> books e None s) as Hfine.
  { intros Hor. destruct H as [H1 H2 H3 H4]. split; try done. intros k' l' p _ Hl' Hp.
    destruct (decide (k = k')) as [<-|Hne]; [|apply (H4 k' l' p); congruence].
    rewrite Hl in Hl'. injection Hl' as <-. destruct Hor as [?|[?|?]]; [by left|by right|congruence]. }
  destruct (decide (map_Forall (fun _ k' => k' <> k) (sessions s))) as [Hu|Hu].
  - rewrite bool_decide_true by done. simpl. destruct (ls_read_inflight l) eqn:Hi; simpl; [by apply Hfine; right; left|].
    destruct (ls_pooled l) as [p|] eqn:Hp; [|by apply Hfine; right; right].
    apply books_destroy. eapply books_take; [done..|]. intros id Hid. by apply (Hu id k).
  - rewrite bool_decide_false by done. simpl. apply Hfine. left.
    apply map_not_Forall in Hu as (id & k' & Hid & Hk'); [|apply _]. exists id. by apply dec_stable in Hk' as ->.
Qed.

End Accounts.

Section Preserved.
Variable to_vec : json -> string.
Variable from_slice : string -> result json string.
Variable serde_err : json -> string.
Variable show_duration : Z -> string.
Variable show : BamlRtError -> string.
Context {W : Type} (B : Backend W).
Variable agent_id context_id : string.
Variable default_rpc_timeout reset_timeout : Z.
Variable reuse_after_session : bool.
#[local] Set Default Proof Using "Type".

Notation rpc := (call_one_rpc to_vec from_slice serde_err show_duration B).
Notation open_once := (session_open_once to_vec from_slice serde_err show_duration B agent_id context_id default_rpc_timeout).
Notation open := (session_open to_vec from_slice serde_err show_duration show B agent_id context_id default_rpc_timeout).
Notation sends := (session_send to_vec from_slice serde_err show_duration B default_rpc_timeout).
Notation ends := (read_end to_vec from_slice serde_err show_duration B default_rpc_timeout).
Notation finishes := (session_finish to_vec from_slice serde_err show_duration B default_rpc_timeout reset_timeout reuse_after_session).
Notation aborts := (session_abort B).

(** An exchange touches neither table nor pool. *)
Lemma rpc_books {R} (decode : json -> option R) s tool h c method params timeout s' c' r :
  rpc decode s tool h c method params timeout = (s', c', r) ->
  sessions s' = sessions s /\ cells s' = cells s /\ pool_calls s' = pool_calls s.
Proof.
  unfold call_one_rpc. intros E. destruct (send to_vec _ c) as [c1 [u|e]]; [|by injection E as <- _ _].
  simpl in E. destruct (respond B _ h c1) as [w c2]. destruct (recv from_slice c2) as [c3 []]; by injection E as <- _ _.
Qed.

Lemma open_once_accounted s req : accounted s -> accounted (open_once s req).1.
Proof.
  intros H. unfold session_open_once. destruct (checkout B _ _) as [w [p|e]]; [|by eapply books_same].
  destruct (open_channel B _ _) as [w2 [c0|e]].
  - destruct (rpc open_result_from_json _ _ _ _ _ _ _) as [[s3 c3] [r|e]] eqn:E;
      apply rpc_books in E as (E1 & E2 & E3); simpl in E1, E2, E3.
    + assert (books [p] None s3) as Hb by (by eapply (books_calls [] _ _ s s3 [CheckedOut p])).
      eapply (books_track [] s3 (or_session_id r) _ p (mkLive (Some p) (pd_handle p) c3 false false (sor_tool_name req))) in Hb;
        [|apply not_elem_of_dom, is_fresh|done|done]. simpl.
      destruct (sessions s3 !! or_session_id r) as [k'|] eqn:Eo; [apply books_drop|]; exact Hb.
    + apply books_destroy. by eapply (books_calls [] _ _ s s3 [CheckedOut p]).
  - apply books_destroy. by eapply (books_calls [] _ _ s _ [CheckedOut p]).
Qed.

Lemma open_accounted s req : accounted s -> accounted (open s req).1.
Proof.
  intros H. unfold session_open. pose proof (open_once_accounted s req H) as H1. destruct (open_once s req) as [s1 [r|e]]; [done|].
  destruct (is_sandbox_transport_error show e); [by apply open_once_accounted|done].
Qed.

Lemma lookup_session_spec (s : invoker (W:=W)) id k l :
  lookup_session s id = Some (k, l) -> sessions s !! id = Some k /\ cells s !! k = Some l.
Proof.
  unfold lookup_session. destruct (sessions s !! id) as [k0|]; [|done]. simpl.
  destruct (cells s !! k0) as [l0|] eqn:E; [|done]. by intros [= -> ->].
Qed.

(** An exchange on a session's channel changes the channel. *)
Lemma cell_rpc_books {R} (decode : json -> option R) e x s k l method params timeout s' l' r :
  books e x s -> cells s !! k = Some l ->
  cell_rpc to_vec from_slice serde_err show_duration B decode s k l method params timeout = (s', l', r) ->
  books e x s' /\ sessions s' = sessions s /\ cells s' !! k = Some l' /\ ls_pooled l' = ls_pooled l.
Proof.
  intros H Hl E. unfold cell_rpc in E. destruct (rpc decode _ _ _ _ _ _ _) as [[s1 c] r1] eqn:Er.
  apply rpc_books in Er as (E1 & E2 & E3). injection E as <- <- _. split; [|split; [done|]].
  - eapply books_cell; [by eapply books_same|by rewrite E2|done|done|by left].
  - simpl. by rewrite lookup_insert_eq.
Qed.

Lemma send_accounted s id input token secrets timeout : accounted s -> accounted (sends s id input token secrets timeout).1.
Proof.
  intros H. unfold session_send. destruct (lookup_session s id) as [[k l]|] eqn:E; [|done].
  apply lookup_session_spec in E as [_ Hl]. destruct (cell_rpc _ _ _ _ _ _ _ _ _ _ _ _) as [[s1 l1] r] eqn:Er.
  by eapply cell_rpc_books in Er as [? _].
Qed.

Lemma read_begin_accounted (s : invoker (W:=W)) id : accounted s -> accounted (read_begin s id).1.
Proof.
  intros H. unfold read_begin. destruct (lookup_session s id) as [[k l]|] eqn:E; [|done].
  apply lookup_session_spec in E as [_ Hl]. destruct (ls_read_inflight l) eqn:Hi; [done|].
  eapply books_cell; [done|done|done|done|by right; right].
Qed.

Lemma read_done_accounted (s : invoker (W:=W)) k l l' :
  accounted s -> cells s !! k = Some l -> ls_pooled l' = ls_pooled l -> ls_cancelled l' = ls_cancelled l ->
  accounted (drop_cell B (set_cell s k (with_inflight l' false)) k).
Proof.
  intros [H1 H2 H3 H4] Hl Hp Hc. apply books_drop. eapply books_cell; [|done|done|done|by right; left].
  split; try done. intros k' l0 p _. by apply H4.
Qed.

Lemma read_end_accounted s k id timeout : accounted s -> accounted (ends s k id timeout).1.
Proof.
  intros H. unfold read_end. destruct (cells s !! k) as [l|] eqn:Hl; [|done]. destruct (ls_cancelled l).
  - by apply (read_done_accounted s k l l).
  - destruct (rpc step_from_json _ _ _ _ _ _ _) as [[s1 c] r] eqn:E. apply rpc_books in E as (E1 & E2 & E3).
    simpl. apply (read_done_accounted s1 k l (with_channel l c)); [by eapply books_same|by rewrite E2|done|done].
Qed.

Lemma finish_accounted s id timeout : accounted s -> accounted (finishes s id timeout).1.
Proof.
  intros H. unfold session_finish. destruct (lookup_session s id) as [[k l]|] eqn:E; [|done].
  apply lookup_session_spec in E as [Hs Hl]. destruct (books_remove _ _ _ _ H Hs) as [Hb Hu].
  destruct (bk_tracked _ _ _ H _ _ Hs) as (l0 & p & Hl0 & Hp & _). rewrite Hl in Hl0. injection Hl0 as <-.
  destruct (cell_rpc _ _ _ _ _ ack_from_json _ _ _ _ _ _) as [[s1 l1] r] eqn:Er.
  eapply cell_rpc_books in Er as (Hb1 & Es1 & Hl1 & Hp1); [|done|done]. rewrite Hp1, Hp.
  assert (books [p] None (set_cell s1 k (without_pooled l1))) as Hb2.
  { eapply books_take; [done|done|congruence|done|]. rewrite Es1. apply Hu. }
  destruct r as [u|e]; [|by apply books_destroy]. destruct reuse_after_session; [|by apply books_destroy].
  unfold run_reset_hook. destruct (cell_rpc _ _ _ _ _ reset_result_from_json _ _ _ _ _ _) as [[s3 l3] r3] eqn:Er3.
  eapply cell_rpc_books in Er3 as [Hb3 _]; [|done|simpl; by rewrite lookup_insert_eq].
  destruct r3 as [[]|]; [by apply books_give_back|by apply books_destroy..].
Qed.

Lemma abort_accounted s id : accounted s -> accounted (aborts s id).1.
Proof.
  intros H. unfold session_abort. destruct (lookup_session s id) as [[k l]|] eqn:E; [|done].
  apply lookup_session_spec in E as [Hs Hl]. destruct (books_remove _ _ _ _ H Hs) as [Hb Hu].
  destruct (bk_tracked _ _ _ H _ _ Hs) as (l0 & p & Hl0 & Hp & _). rewrite Hl in Hl0. injection Hl0 as <-. rewrite Hp.
  apply books_destroy. by eapply books_take.
Qed.

(** The calls an invoker gets. *)
Inductive session_op :=
| OpOpen (req : SessionOpenRequest)
| OpSend (session_id : string) (input : json) (resume_token : option string) (secrets : list (string * json)) (timeout : Z)
| OpReadBegin (session_id : string)
| OpReadEnd (cell : nat) (session_id : string) (chunk_timeout : Z)
| OpFinish (session_id : string) (timeout : Z)
| OpAbort (session_id : string).

Definition exec_op (s : invoker (W:=W)) (o : session_op) : invoker (W:=W) :=
  match o with
  | OpOpen req => (open s req).1
  | OpSend id input token secrets timeout => (sends s id input token secrets timeout).1
  | OpReadBegin id => (read_begin s id).1
  | OpReadEnd k id timeout => (ends s k id timeout).1
  | OpFinish id timeout => (finishes s id timeout).1
  | OpAbort id => (aborts s id).1
  end.

Lemma exec_accounted s o : accounted s -> accounted (exec_op s o).
Proof.
  destruct o; intros H; [by apply open_accounted|by apply send_accounted|by apply read_begin_accounted
    |by apply read_end_accounted|by apply finish_accounted|by apply abort_accounted].
Qed.

(** C25: Every sandbox is accounted for.  Whatever calls an invoker gets, in
    whatever order, and however the pool, the adapter and the channels behave: the
    sandboxes it checked out are those it gave back and those its sessions hold,
    each once; when no session is tracked and no read is running all of them are
    back; and if the pool hands no sandbox out twice, none is given back twice and
    none is given back while its session is tracked. *)
Theorem sandboxes_accounted ops n w :
  let s := foldl exec_op (mkInvoker ∅ ∅ n w []) ops in
  taken (pool_calls s) ≡ₚ given (pool_calls s) ++ held (cells s) /\
  (sessions s = ∅ -> map_Forall (fun _ l => ls_read_inflight l = false) (cells s) ->
     taken (pool_calls s) ≡ₚ given (pool_calls s)) /\
  (NoDup (taken (pool_calls s)) -> NoDup (given (pool_calls s)) /\
     forall id k l, sessions s !! id = Some k -> cells s !! k = Some l ->
     exists p, ls_pooled l = Some p /\ p ∉ given (pool_calls s)).
Proof.
  intros s. assert (accounted s) as Ha.
  { subst s. assert (accounted (mkInvoker ∅ ∅ n w [])) as H0.
    { split; simpl; [done| | |]; intros *; rewrite ?lookup_empty; done. }
    revert H0. generalize (mkInvoker (W:=W) ∅ ∅ n w []). induction ops as [|o ops IH]; intros s0 H0; [done|].
    simpl. apply IH. by apply exec_accounted. }
  destruct Ha as [H1 H2 H3 H4]. simpl in H1. split; [done|]. split.
  - intros Hs Hi. rewrite H1. replace (held (cells s)) with (@nil PooledSandbox); [by rewrite app_nil_r|].
    symmetry. unfold held. apply elem_of_nil_inv. intros p Hp. apply list_elem_of_omap in Hp as ([k l] & Hkl & Hp).
    apply elem_of_map_to_list in Hkl. destruct (H4 k l p) as [[id Hid]|Hr]; [done..| |].
    + by rewrite Hs, lookup_empty in Hid.
    + by rewrite (Hi k l Hkl) in Hr.
  - intros Hn. rewrite H1 in Hn. apply NoDup_app in Hn as (Hg & Hd & _). split; [done|].
    intros id k l Hid Hl. destruct (H2 id k Hid) as (l0 & p & Hl0 & Hp & _). rewrite Hl in Hl0. injection Hl0 as <-.
    exists p. split; [done|]. intros Hin. apply (Hd p Hin). unfold held. apply list_elem_of_omap.
    exists (k, l). split; [by apply elem_of_map_to_list|done].
Qed.

End Preserved.

(** ** The tool session on top *)

Inductive ExternalSecretScope := ScopeSend | ScopeSession.

Record external_session := mkExternal {
  ex_session_id : string;
  ex_pending_resume_token : option string;
  ex_initial_step : option ToolStep;
  ex_secrets : list (string * json);
  ex_secret_scope : ExternalSecretScope;
}.

Definition is_empty_payload (v : json) : bool :=
  match v with JNull => true | JObj [] => true | _ => false end.

Section Handler.
Variable to_vec : json -> string.
Variable from_slice : string -> result json string.
Variable serde_err : json -> string.
Variable show_duration : Z -> string.
Variable show : BamlRtError -> string.
Context {W : Type} (B : Backend W).
Variable agent_id context_id : string.
Variable default_rpc_timeout reset_timeout : Z.
Variable reuse_after_session : bool.

(** [ExternalSessionToolHandler::open_session] *)
Definition ext_open (s : invoker (W:=W)) (tool : ToolName) (invocation_id : string) (open_input : json)
    (secrets : list (string * json)) (scope : ExternalSecretScope) (capabilities : json) (open_timeout : Z)
    : invoker (W:=W) * result external_session BamlRtError :=
  let req := mkOpenRequest tool invocation_id open_input
               (match scope with ScopeSend => [] | ScopeSession => secrets end) capabilities open_timeout in
  let (s1, r) := session_open to_vec from_slice serde_err show_duration show B agent_id context_id default_rpc_timeout s req in
  (s1, let? response := r in
       Ok (mkExternal (sop_session_id response) (sop_initial_resume_token response) (sop_initial_step response) secrets scope)).

(** The token is taken out before the call, whatever becomes of it. *)
Definition ext_send (s : invoker (W:=W)) (e : external_session) (input : json) (timeout : Z)
    : invoker (W:=W) * external_session * result unit BamlRtError :=
  let e1 := mkExternal (ex_session_id e) None (ex_initial_step e) (ex_secrets e) (ex_secret_scope e) in
  let (s1, r) := session_send to_vec from_slice serde_err show_duration B default_rpc_timeout s (ex_session_id e) input
                   (ex_pending_resume_token e)
                   (match ex_secret_scope e with ScopeSend => ex_secrets e | ScopeSession => [] end) timeout in
  (s1, e1, r).

Definition ext_read (s : invoker (W:=W)) (e : external_session) (input : json) (chunk_timeout : Z)
    : invoker (W:=W) * external_session * result ToolStep BamlRtError :=
  if negb (is_empty_payload input) then
    (s, e, Err (InvalidArgument
      "external session tools require empty `read()` payloads; use `send(input)` then `read(())`"))
  else match ex_initial_step e with
       | Some step => (s, mkExternal (ex_session_id e) (ex_pending_resume_token e) None (ex_secrets e) (ex_secret_scope e), Ok step)
       | None =>
           let (s1, b) := read_begin s (ex_session_id e) in
           match b with
           | Err err => (s1, e, Err err)
           | Ok k =>
               let (s2, r) := read_end to_vec from_slice serde_err show_duration B default_rpc_timeout s1 k (ex_session_id e)
                                chunk_timeout in
               match r with
               | Err err => (s2, e, Err err)
               | Ok (step, token) =>
                   (s2, mkExternal (ex_session_id e) token None (ex_secrets e) (ex_secret_scope e), Ok step)
               end
           end
       end.

Definition ext_finish (s : invoker (W:=W)) (e : external_session) (timeout : Z) : invoker (W:=W) * result unit BamlRtError :=
  session_finish to_vec from_slice serde_err show_duration B default_rpc_timeout reset_timeout reuse_after_session s
    (ex_session_id e) timeout.

Definition ext_abort (s : invoker (W:=W)) (e : external_session) : invoker (W:=W) * result unit BamlRtError :=
  session_abort B s (ex_session_id e).

End Handler.

(** ** Answers *)

Lemma disposition_round_trip d : disposition_from_json (JStr (disposition_name d)) = Some d.
Proof. by destruct d. Qed.

(** Steps that survive the wire: a [null] output of [Done] is none. *)
Definition step_wf (e : StepEnvelope) : Prop :=
  match e with
  | EnvDone output => output <> Some JNull
  | EnvError f => from_option is_u64 True (sf_retry_after_ms f)
  | _ => True
  end.

Lemma step_failure_round_trip f :
  from_option is_u64 True (sf_retry_after_ms f) -> step_failure_from_json (step_failure_to_json f) = Some f.
Proof.
  destruct f as [c m d h r]. simpl. intros Hr. unfold step_failure_from_json, step_failure_to_json. cbn [as_struct mbind option_bind].
  destruct h as [h|], r as [r|]; cbn -[disposition_from_json disposition_name as_u64];
    rewrite ?disposition_round_trip; cbn -[as_u64]; first [done|by rewrite (as_u64_ok r Hr)].
Qed.

Lemma step_round_trip e : step_wf e -> step_from_json (step_to_json e) = Some e.
Proof.
  destruct e as [o|o t|o|f]; simpl; intros Hw; [done|done| |].
  - by destruct o as [[]|].
  - unfold step_variant. simpl. by rewrite step_failure_round_trip.
Qed.

Section Exchange.
Variable to_vec : json -> string.
Variable from_slice : string -> result json string.
Variable serde_err : json -> string.
Variable show_duration : Z -> string.
Context {W S : Type} (B : Backend W) (tool : SandboxSessionTool S).
Variable get_tool : W -> S.
Variable put_tool : S -> W -> W.
#[local] Set Default Proof Using "Type".

Notation rpc := (call_one_rpc to_vec from_slice serde_err show_duration B).
Notation travels := (travels to_vec from_slice).
Notation dispatched := (dispatch_session_request serde_err tool).

(** A sandbox that answers the request it was sent, in time. *)
Record serves_sessions : Prop := {
  ss_respond w h req s' r :
    travels (request_to_json req) -> dispatched (get_tool w) req = (s', r) ->
    respond B w h (mkChannel EmptyString Open (frame_of (to_vec (request_to_json req))) None) =
      (put_tool s' w, mkChannel (frame_of (to_vec (response_to_json r))) Open EmptyString None);
  ss_get s w : get_tool (put_tool s w) = s;
}.

(** On a quiet channel a call gets the answer to its own request, and leaves the
    channel quiet. *)
Lemma rpc_own_answer {R} (decode : json -> option R) s nm h method params timeout t' r :
  serves_sessions -> travels (request_to_json (JsonRpcRequest_new method (next_rpc s) params)) ->
  dispatched (get_tool (pool_world s)) (JsonRpcRequest_new method (next_rpc s) params) = (t', r) ->
  is_u64 (rs_id r) -> plain_response r -> travels (response_to_json r) ->
  exists s', rpc decode s nm h fresh_channel method params timeout =
      (s', fresh_channel,
       match rs_error r with
       | Some err => Err (map_jsonrpc_error nm err)
       | None =>
           let? raw := ok_or (rs_result r) (InvalidArgument ("JSON-RPC response for " +:+ method +:+ " missing result payload")) in
           ok_or (decode raw) (InvalidArgumentWithSource ("failed to decode " +:+ method +:+ " result payload") (serde_err raw))
       end) /\ get_tool (pool_world s') = t' /\ sessions s' = sessions s /\ cells s' = cells s.
Proof.
  intros [Hresp Hget] Hreq Hd Hid Hplain Hr. unfold call_one_rpc. rewrite send_frame; [|apply Hreq|done].
  change (with_out fresh_channel ?x) with (mkChannel EmptyString Open x None). cbn [fresh_channel c_out]. rewrite str_app_nil_l.
  cbn [pool_world]. rewrite (Hresp _ _ _ _ _ Hreq Hd).
  rewrite (recv_frame from_slice (to_vec (response_to_json r)) EmptyString);
    [|apply Hr|cbn [c_in]; by rewrite str_app_nil_r].
  rewrite (proj2 Hr). cbn [with_in c_end c_out c_broken]. rewrite response_round_trip by done. simpl.
  eexists. split; [reflexivity|]. split; [apply Hget|done].
Qed.

(** What a read of the tool is to the host. *)
Definition read_outcome (nm : ToolName) (r : result StepEnvelope AdapterError) : result (ToolStep * option string) BamlRtError :=
  match r with
  | Ok e => Ok (step_envelope_to_tool_step e)
  | Err e => Err (map_jsonrpc_error nm (into_json_rpc e))
  end.

Lemma dispatched_read t id session_id t' r :
  st_read tool t session_id = (t', r) ->
  dispatched t (JsonRpcRequest_new METHOD_SESSION_READ id (id_params_to_json session_id)) = (t', to_response step_to_json id r).
Proof. intros H. unfold dispatch_session_request. simpl. unfold with_params. simpl. by rewrite H. Qed.

Lemma read_response_plain id (r : result StepEnvelope AdapterError) :
  plain_response (to_response step_to_json id r) /\ rs_id (to_response step_to_json id r) = id.
Proof.
  destruct r as [e|e]; simpl; (split; [|done]); split; simpl; try done.
  by destruct e.
Qed.

Lemma drop_tracked (s : invoker (W:=W)) id k : sessions s !! id = Some k -> drop_cell B s k = s.
Proof.
  intros Hid. unfold drop_cell. destruct (cells s !! k) as [l|]; [|done].
  rewrite bool_decide_false; [done|]. intros Hf. by apply (Hf id k Hid).
Qed.

(** A read of a session is a read of the tool behind it.  On a tracked session
    whose channel is quiet and that nobody reads, a read asks the tool exactly
    once and returns the step it gave, with its resume token, or its classified
    error; the session is left as it was, its channel quiet and open to the next
    reader. *)
Theorem session_read_exact default_rpc_timeout s k id l timeout t' r :
  serves_sessions -> sessions s !! id = Some k -> cells s !! k = Some l ->
  ls_channel l = fresh_channel -> ls_cancelled l = false -> ls_read_inflight l = false -> is_u64 (next_rpc s) ->
  travels (request_to_json (JsonRpcRequest_new METHOD_SESSION_READ (next_rpc s) (id_params_to_json id))) ->
  st_read tool (get_tool (pool_world s)) id = (t', r) -> (forall e, r = Ok e -> step_wf e) ->
  travels (response_to_json (to_response step_to_json (next_rpc s) r)) ->
  exists s1 s2, read_begin s id = (s1, Ok k) /\
    read_end to_vec from_slice serde_err show_duration B default_rpc_timeout s1 k id timeout = (s2, read_outcome (ls_tool_name l) r) /\
    get_tool (pool_world s2) = t' /\ sessions s2 = sessions s /\ cells s2 = cells s.
Proof.
  intros Hserves Hid Hl Hq Hc Hi Hu Hreq Hread Hwf Hresp. destruct (read_response_plain (next_rpc s) r) as [Hplain Hrid].
  unfold read_begin, lookup_session. rewrite Hid. simpl. rewrite Hl. simpl. rewrite Hi.
  set (s1 := set_cell s k (with_inflight l true)). exists s1.
  destruct (rpc_own_answer step_from_json s1 (ls_tool_name l) (ls_handle l) METHOD_SESSION_READ (id_params_to_json id)
    (Z.min timeout default_rpc_timeout) t' (to_response step_to_json (next_rpc s) r)) as (s2 & E & Ht & Es & Ec);
    [done|done|by apply dispatched_read|by rewrite Hrid|done|done|].
  set (s3 := set_cell s2 k (with_inflight (with_channel (with_inflight l true) fresh_channel) false)).
  assert (sessions s3 !! id = Some k) as Hid3 by (simpl; by rewrite Es).
  exists s3. split; [done|]. split; [|split; [done|split; [done|]]].
  - unfold read_end. simpl cells at 1. rewrite lookup_insert_eq. cbn [ls_cancelled with_inflight]. rewrite Hc.
    cbn [ls_channel ls_tool_name ls_handle with_inflight]. rewrite Hq. rewrite E. fold s3. rewrite (drop_tracked _ _ _ Hid3).
    destruct r as [e|e]; [|done]. simpl. rewrite step_round_trip by (by apply Hwf). done.
  - simpl. rewrite Ec. simpl. rewrite insert_insert_eq. apply insert_id. rewrite Hl. f_equal.
    destruct l; simpl in *. by subst.
Qed.

End Exchange.

(** ** Runs *)

Definition demo_sandbox : SandboxHandle := mkHandle "baml:runner:0123456789" 0 0 "/" None 300000 3600000.
Definition weather : ToolName := mkToolName "support" "weather".

(** A tool that streams the number of the read. *)
Definition counting_tool : SandboxSessionTool nat :=
  mkSessionTool _ (fun n _ => (n, Ok (mkOpenResult "sess-1" None))) (fun n _ => (n, Ok tt))
    (fun n _ => (S n, Ok (EnvStreaming (JNum (NInt (Z.of_nat n)))))) (fun n _ => (n, Ok tt)) (fun n _ => (n, Ok tt))
    (fun n => (n, Ok ResetUnsupported)).

Definition read_request (id : Z) : json :=
  request_to_json (JsonRpcRequest_new METHOD_SESSION_READ id (id_params_to_json "sess-1")).
Definition read_answer : json := response_to_json (to_response step_to_json 5 (Ok (EnvStreaming (JNum (NInt 0))))).

(** A printer for the two values that cross the wire in the run. *)
Definition read_vec (v : json) : string := if json_eqb v (read_request 5) then "q" else if json_eqb v read_answer then "a" else "x".
Definition read_slice (s : string) : result json string :=
  if String.eqb s "q" then Ok (read_request 5) else if String.eqb s "a" then Ok read_answer else Err "unknown".

(** A backend that answers every request it is sent, whatever it is, in time. *)
Definition prompt_backend {S} (to_vec : json -> string) (tool : SandboxSessionTool S)
    (pending : string -> option JsonRpcRequest) : Backend S :=
  mkBackend _ (fun w _ => (w, Ok (mkPooled 0 demo_sandbox))) (fun w _ => w) (fun w _ => w) (fun w _ => (w, Ok fresh_channel))
    (fun w _ c => match pending (c_out c) with
                  | Some req =>
                      let (s', r) := dispatch_session_request (fun _ => "bad") tool w req in
                      (s', mkChannel (frame_of (to_vec (response_to_json r))) Open EmptyString None)
                  | None => (w, c)
                  end).

Definition read_pending (out : string) : option JsonRpcRequest :=
  ok (read_slice (str_drop 4 out)) ≫= request_from_json.

Lemma pending_travels req :
  travels read_vec read_slice (request_to_json req) -> read_pending (frame_of (read_vec (request_to_json req))) = Some req.
Proof.
  intros [_ Hl]. unfold read_pending, frame_of.
  change 4%nat with (String.length (to_be_bytes (str_len (read_vec (request_to_json req))))). rewrite str_drop_app, Hl. simpl.
  destruct req as [j m i p]. unfold read_slice in Hl.
  destruct (String.eqb _ "q"); [|destruct (String.eqb _ "a"); [|done]]; inversion Hl; subst; reflexivity.
Qed.

Definition tracked_session : LiveSession := mkLive (Some (mkPooled 0 demo_sandbox)) demo_sandbox fresh_channel false false weather.

Lemma session_read_exact_witness :
  exists s1 s2,
    read_begin (mkInvoker {["sess-1" := 0%nat]} {[0%nat := tracked_session]} 5 0%nat []) "sess-1" = (s1, Ok 0%nat) /\
    read_end read_vec read_slice (fun _ => "bad") show_Z (prompt_backend read_vec counting_tool read_pending) 30000 s1 0%nat "sess-1" 1000 =
      (s2, Ok (Streaming (JNum (NInt 0)), None)) /\ pool_world s2 = 1%nat.
Proof.
  destruct (session_read_exact read_vec read_slice (fun _ => "bad") show_Z (prompt_backend read_vec counting_tool read_pending)
    counting_tool (fun w => w) (fun s _ => s) 30000
    (mkInvoker {["sess-1" := 0%nat]} {[0%nat := tracked_session]} 5 0%nat []) 0%nat "sess-1" tracked_session 1000 1%nat
    (Ok (EnvStreaming (JNum (NInt 0))))) as (s1 & s2 & H1 & H2 & H3 & _).
  - split; [|reflexivity]. intros w h req s' r Ht Hd. cbn [prompt_backend respond c_out]. rewrite pending_travels by exact Ht.
    rewrite Hd. reflexivity.
  - reflexivity.
  - reflexivity.
  - reflexivity.
  - reflexivity.
  - reflexivity.
  - split; vm_compute; discriminate.
  - split; [vm_compute; discriminate|vm_compute; reflexivity].
  - reflexivity.
  - intros e [= <-]. exact I.
  - split; [vm_compute; discriminate|vm_compute; reflexivity].
  - exists s1, s2. split; [exact H1|]. split; [exact H2|exact H3].
Defined.

(** The answers of a sandbox to requests 1 to 5: open, read, read, send, read. *)
Definition late_answers (s : string) : result json string :=
  if String.eqb s "a1" then Ok (response_to_json (to_response open_result_to_json 1 (Ok (mkOpenResult "sess-1" None))))
  else if String.eqb s "a2" then Ok (response_to_json (to_response step_to_json 2 (Ok (EnvStreaming (JStr "one")))))
  else if String.eqb s "a3" then Ok (response_to_json (to_response step_to_json 3 (Ok (EnvStreaming (JStr "two")))))
  else if String.eqb s "a4" then
    Ok (response_to_json (to_response (fun _ : unit => ack_to_json) 4 (Err (SandboxWire.InvalidArgument "no such city"))))
  else Err "unknown".

(** The answer to request 2 comes when request 3 has been sent, all others in time. *)
Definition late_backend : Backend nat :=
  mkBackend _ (fun w _ => (w, Ok (mkPooled 0 demo_sandbox))) (fun w _ => w) (fun w _ => w) (fun w _ => (w, Ok fresh_channel))
    (fun w _ c => (S w, with_in c (c_in c +:+ stream match w with
                                                     | 0 => ["a1"]
                                                     | 1 => []
                                                     | 2 => ["a2"; "a3"]
                                                     | 3 => ["a4"]
                                                     | _ => []
                                                     end%nat))).

Notation late_open := (session_open (fun _ => "q") late_answers (fun _ => "bad") show_Z (fun _ => "error") late_backend "agent-a" "ctx-1" 30000).
Notation late_read := (read_end (fun _ => "q") late_answers (fun _ => "bad") show_Z late_backend 30000).
Notation late_send := (session_send (fun _ => "q") late_answers (fun _ => "bad") show_Z late_backend 30000).

(** After a read that timed out, answers are shifted for good, since no answer
    is matched with its request: the read that is tried again returns the step
    of the first one, a Send that the tool refused is acknowledged with the step
    of the second, and the refusal is the answer to the next read. *)
Lemma late_answer_shifts :
  let s0 := (late_open (mkInvoker ∅ ∅ 1 0%nat []) (mkOpenRequest weather "inv-1" JNull [] JNull 1000)).1 in
  let s1 := (read_begin s0 "sess-1").1 in
  let r2 := late_read s1 0%nat "sess-1" 1000 in
  let s3 := (read_begin r2.1 "sess-1").1 in
  let r3 := late_read s3 0%nat "sess-1" 1000 in
  let r4 := late_send r3.1 "sess-1" (JStr "Atlantis") None [] 1000 in
  let s5 := (read_begin r4.1 "sess-1").1 in
  let r5 := late_read s5 0%nat "sess-1" 1000 in
  (exists c, r2.2 = Err (ToolClassified c) /\ code c = "chunk_timeout") /\
  r3.2 = Ok (Streaming (JStr "one"), None) /\ r4.2 = Ok tt /\
  (exists c, r5.2 = Err (ToolClassified c) /\ message c = "invalid argument: no such city").
Proof. vm_compute. eauto 10. Qed.

(** A Send that fails has used the resume token up: the next one has none. *)
Lemma failed_send_loses_token to_vec from_slice serde_err show_duration {W} (B : Backend W) t s e input timeout s1 e1 r :
  ext_send to_vec from_slice serde_err show_duration B t s e input timeout = (s1, e1, r) -> ex_pending_resume_token e1 = None.
Proof. unfold ext_send. intros E. destruct (session_send _ _ _ _ _ _ _ _ _ _ _ _) as [s' r']. by injection E as _ <- _. Qed.

(** A token a read has brought is sent back with the next input. *)
Lemma read_keeps_token to_vec from_slice serde_err show_duration {W} (B : Backend W) t s e timeout s1 k s2 step token :
  ex_initial_step e = None -> read_begin s (ex_session_id e) = (s1, Ok k) ->
  read_end to_vec from_slice serde_err show_duration B t s1 k (ex_session_id e) timeout = (s2, Ok (step, token)) ->
  exists e', ext_read to_vec from_slice serde_err show_duration B t s e JNull timeout = (s2, e', Ok step) /\
    ex_pending_resume_token e' = token /\ ex_session_id e' = ex_session_id e.
Proof. intros Hi Hb He. unfold ext_read. simpl. rewrite Hi, Hb, He. eauto. Qed.
