(* ===== verification/ExternalPolicy.v ===== *)
(** * The policy of an external tool

    [baml-rt-tools/src/external_tools/policy.rs] (slots, failure counting and
    quarantine), [drift.rs] (the schema check before the first call) and the read
    of [ProcessToolSession] in [handler.rs] and of [SandboxToolSession] in
    [sandbox/handler.rs], which differ in the texts of their refusals.

    A handler is shared by all sessions of its tool: a read is a task whose steps
    are the sections under a lock, the waits, and the calls of the invoker, and
    tasks interleave.  What the invoker answers is chosen by the environment. *)

From stdpp Require Import base list strings gmap.
From Stdlib Require Import ZArith Lia.
From S2P Require Import Prelude RustStr Json Errors ToolNames.

Open Scope string_scope.
Open Scope list_scope.
Open Scope Z_scope.

Definition DEFAULT_MAX_CONCURRENT : nat := 10.
Definition DEFAULT_QUARANTINE_THRESHOLD : Z := 5.
Definition BACKOFF_SCHEDULE_MS : list Z := [1000; 2000; 4000; 8000; 16000; 30000].

Record ToolQuota := mkQuota { max_concurrent : nat; quarantine_threshold : Z }.

Definition ToolQuota_default : ToolQuota := mkQuota DEFAULT_MAX_CONCURRENT DEFAULT_QUARANTINE_THRESHOLD.

Inductive QuarantineState := Healthy | Quarantined (consecutive_failures : Z) (reason : string).

Definition is_quarantined (q : QuarantineState) : bool := match q with Healthy => false | Quarantined _ _ => true end.

Record InvocationState := mkState { consecutive_failures : Z; quarantine : QuarantineState }.

Definition InvocationState_new : InvocationState := mkState 0 Healthy.

Definition backoff_for (failures : Z) : Z :=
  default 0 (BACKOFF_SCHEDULE_MS !! Nat.min (Z.to_nat (sat_sub failures 1)) (length BACKOFF_SCHEDULE_MS - 1)).

Definition record_success (s : InvocationState) : InvocationState := mkState 0 (quarantine s).

Definition record_failure (quota : ToolQuota) (reason : string) (s : InvocationState) : InvocationState * Z :=
  let n := sat_add u32_max (consecutive_failures s) 1 in
  let q := match quarantine s with
           | Healthy => if quarantine_threshold quota <=? n then Quarantined n reason else Healthy
           | q => q
           end in
  (mkState n q, backoff_for n).

Definition lift_quarantine (s : InvocationState) : InvocationState := mkState 0 Healthy.

(** The refusals of the two handlers. *)
Inductive handler_kind := Process | Sandbox.

Inductive PolicyError := PolicyQuarantined (reason : string) | ConcurrencyExhausted.

Definition map_policy_error (kind : handler_kind) (tool : ToolName) (err : PolicyError) : BamlRtError :=
  let t := tool_name_display tool in
  let prefix := match kind with Process => "external_" | Sandbox => "sandbox_" end in
  let noun := match kind with Process => "tool '" | Sandbox => "sandbox tool '" end in
  match err with
  | PolicyQuarantined reason =>
      ToolClassified (mkClassified (prefix +:+ t +:+ "_quarantined") Fatal
        (noun +:+ t +:+ "' is quarantined: " +:+ reason)
        (Some match kind with
              | Process => "Tool is temporarily disabled after repeated failures; lift quarantine to resume invocations"
              | Sandbox => "Tool is temporarily disabled after repeated failures; lift quarantine to resume"
              end) None)
  | ConcurrencyExhausted =>
      ToolClassified (mkClassified (prefix +:+ t +:+ "_concurrency_exhausted") HostRetriable
        (noun +:+ t +:+ "' concurrency slot unavailable")
        (Some "Retry after another in-flight invocation completes") (Some 100))
  end.

Definition with_backoff_retry_after (show : BamlRtError -> string) (err : BamlRtError) (backoff : Z) : BamlRtError :=
  let c := match err with ToolClassified c => c | _ => from_baml_error show err end in
  ToolClassified match retry_after_ms c with
                 | None => mkClassified (code c) (disposition c) (message c) (hint c) (Some (Z.min backoff u64_max))
                 | Some _ => c
                 end.

(** ** Drift *)

Inductive Verdict := Verified | Drifted (observed : string).

Inductive lifecycle :=
| SchemaDrift (tool_name expected observed : string)
| QuarantineEvent (tool_name reason : string) (failures : Z).

Definition drift_error (tool : ToolName) (expected observed : string) : BamlRtError :=
  let t := tool_name_display tool in
  ToolClassified (mkClassified ("external_" +:+ t +:+ "_schema_drift") Fatal
    ("external tool '" +:+ t +:+ "' schema drift: approved snapshot digest " +:+ expected +:+ " but live tool reports "
     +:+ observed +:+ "; operator must refresh and re-approve the snapshot")
    (Some "The deployed tool's input/output schema no longer matches its approved snapshot. Run `agent-platform external-tool refresh <name>` and redeploy.")
    None).

Definition run_check (expected : string) (digest : json -> json -> string) (tool : ToolName) (input output : json)
    : Verdict * list lifecycle :=
  let observed := digest input output in
  if String.eqb observed expected then (Verified, [])
  else (Drifted observed, [SchemaDrift (tool_name_display tool) expected observed]).

(** ** Reads *)

(** The answer of a read. *)
Definition answer : Type := result (option json) BamlRtError.

Inductive pc :=
| Guard (input : json)                                   (* before [ensure_verified] *)
| Acquire (input : json)                                 (* before the quarantine check *)
| Queue (input : json)                                   (* waits for a slot *)
| Call (input : json)                                    (* holds a slot, the tool runs *)
| Succeeded (output : json)                              (* before [record_success] *)
| Failed (err : BamlRtError)                             (* before the first [current_state] *)
| Failing (was_quarantined : bool) (err : BamlRtError)   (* before [record_failure] *)
| Counted (was_quarantined : bool) (err : BamlRtError) (backoff : Z)
| Over (r : answer).

Definition holds_slot (p : pc) : bool :=
  match p with Call _ | Succeeded _ | Failed _ | Failing _ _ | Counted _ _ _ => true | _ => false end.

Record handler := mkHandler {
  state : InvocationState;
  free : nat;                         (* permits of the semaphore *)
  verdict : option Verdict;           (* the [OnceCell] of the drift guard *)
  events : list lifecycle;
  reads : gmap nat pc;
}.

Section Reads.
Variable show : BamlRtError -> string.
Variable kind : handler_kind.
Variable tool : ToolName.
Variable quota : ToolQuota.
(** The approved digest, when the tool comes from a snapshot. *)
Variable guard : option string.
Variable digest : json -> json -> string.

Definition with_read (h : handler) (i : nat) (p : pc) : handler :=
  mkHandler (state h) (free h) (verdict h) (events h) (<[i := p]> (reads h)).
Definition with_state (h : handler) (s : InvocationState) : handler :=
  mkHandler s (free h) (verdict h) (events h) (reads h).
Definition with_free (h : handler) (n : nat) : handler :=
  mkHandler (state h) n (verdict h) (events h) (reads h).

(** The verdict of the guard, for a read that waits for it. *)
Definition judged (expected : string) (v : Verdict) (input : json) : pc :=
  match v with
  | Verified => Acquire input
  | Drifted observed => Over (Err (drift_error tool expected observed))
  end.

(** A read that returns drops its permit. *)
Definition finish_read (h : handler) (i : nat) (r : answer) : handler := with_read (with_free h (S (free h))) i (Over r).

Inductive step : handler -> handler -> Prop :=
| step_read h i input : reads h !! i = None -> step h (with_read h i (Guard input))
| step_no_input h i : reads h !! i = None -> step h (with_read h i (Over (Ok None)))
| step_unguarded h i input : reads h !! i = Some (Guard input) -> guard = None -> step h (with_read h i (Acquire input))
| step_known h i input expected v : reads h !! i = Some (Guard input) -> guard = Some expected -> verdict h = Some v ->
    step h (with_read h i (judged expected v input))
| step_check h i input expected s_in s_out v evs : reads h !! i = Some (Guard input) -> guard = Some expected ->
    verdict h = None -> run_check expected digest tool s_in s_out = (v, evs) ->
    step h (with_read (mkHandler (state h) (free h) (Some v) (events h ++ evs) (reads h)) i (judged expected v input))
| step_check_failed h i input expected err : reads h !! i = Some (Guard input) -> guard = Some expected ->
    verdict h = None -> step h (with_read h i (Over (Err err)))
| step_refused h i input n reason : reads h !! i = Some (Acquire input) -> quarantine (state h) = Quarantined n reason ->
    step h (with_read h i (Over (Err (map_policy_error kind tool (PolicyQuarantined reason)))))
| step_admitted h i input : reads h !! i = Some (Acquire input) -> quarantine (state h) = Healthy ->
    step h (with_read h i (Queue input))
| step_slot h i input n : reads h !! i = Some (Queue input) -> free h = S n ->
    step h (with_read (with_free h n) i (Call input))
| step_ok h i input output : reads h !! i = Some (Call input) -> step h (with_read h i (Succeeded output))
| step_err h i input err : reads h !! i = Some (Call input) -> step h (with_read h i (Failed err))
| step_success h i output : reads h !! i = Some (Succeeded output) ->
    step h (finish_read (with_state h (record_success (state h))) i (Ok (Some output)))
| step_look h i err : reads h !! i = Some (Failed err) ->
    step h (with_read h i (Failing (is_quarantined (quarantine (state h))) err))
| step_count h i was err s backoff : reads h !! i = Some (Failing was err) ->
    record_failure quota (show err) (state h) = (s, backoff) ->
    step h (with_read (with_state h s) i (Counted was err backoff))
| step_report h i was err backoff evs : reads h !! i = Some (Counted was err backoff) ->
    evs = match quarantine (state h) with
          | Quarantined n reason => if was then [] else [QuarantineEvent (tool_name_display tool) reason n]
          | Healthy => []
          end ->
    step h (finish_read (mkHandler (state h) (free h) (verdict h) (events h ++ evs) (reads h)) i
              (Err (with_backoff_retry_after show err backoff)))
| step_lift h : step h (with_state h (lift_quarantine (state h)))
| step_cancel h i p : reads h !! i = Some p -> (forall r, p <> Over r) ->
    step h (mkHandler (state h) (if holds_slot p then S (free h) else free h) (verdict h) (events h) (delete i (reads h))).

Definition handler_new : handler := mkHandler InvocationState_new (max_concurrent quota) None [] ∅.

End Reads.

(** ** Slots *)

Definition busy (m : gmap nat pc) : nat := length (List.filter (fun kp => holds_slot kp.2) (map_to_list m)).
Definition slot (p : option pc) : nat := match p with Some p => if holds_slot p then 1 else 0 | None => 0 end.

Lemma filter_length_perm {A} (f : A -> bool) l k : l ≡ₚ k -> length (List.filter f l) = length (List.filter f k).
Proof. induction 1; simpl; repeat case_match; simpl; congruence. Qed.

Lemma busy_insert_new m i p : m !! i = None -> busy (<[i := p]> m) = (slot (Some p) + busy m)%nat.
Proof.
  intros H. unfold busy. rewrite (filter_length_perm _ _ _ (map_to_list_insert m i p H)). simpl. by destruct (holds_slot p).
Qed.

Lemma busy_delete m i p : m !! i = Some p -> (busy (delete i m) + slot (Some p) = busy m)%nat.
Proof.
  intros H. rewrite <-(insert_delete_id m i p H) at 2. rewrite busy_insert_new by apply lookup_delete_eq. lia.
Qed.

Lemma busy_insert m i p : (busy (<[i := p]> m) + slot (m !! i) = busy m + slot (Some p))%nat.
Proof.
  destruct (m !! i) as [q|] eqn:E; [|rewrite busy_insert_new by done; simpl; lia].
  rewrite <-insert_delete_eq, busy_insert_new by apply lookup_delete_eq. pose proof (busy_delete m i q E). lia.
Qed.

(** ** Invariants *)

(** A read that is past the guard. *)
Definition admitted (p : pc) : bool := match p with Guard _ | Over _ => false | _ => true end.

Section Invariants.
Variable show : BamlRtError -> string.
Variable kind : handler_kind.
Variable tool : ToolName.
Variable quota : ToolQuota.
Variable guard : option string.
Variable digest : json -> json -> string.
#[local] Set Default Proof Using "Type".

Notation step := (step show kind tool quota guard digest).

(** Failures counted, and what a quarantine says. *)
Definition state_wf (s : InvocationState) : Prop :=
  0 <= consecutive_failures s <= u32_max /\
  match quarantine s with
  | Healthy => consecutive_failures s < Z.max 1 (quarantine_threshold quota)
  | Quarantined n _ => 1 <= n <= u32_max /\ quarantine_threshold quota <= n
  end.

Record policy_inv (h : handler) : Prop := {
  pi_slots : (free h + busy (reads h) = max_concurrent quota)%nat;
  pi_verified i p : guard <> None -> reads h !! i = Some p -> admitted p = true -> verdict h = Some Verified;
  pi_state : state_wf (state h);
}.

Lemma record_failure_wf reason s : state_wf s -> state_wf (record_failure quota reason s).1.
Proof.
  unfold state_wf, record_failure, sat_add, u32_max. destruct s as [n q]. simpl. intros [Hn Hq].
  destruct q as [|m r]; [|split; [lia|done]]. destruct (Z.leb_spec (quarantine_threshold quota) (Z.min (n + 1) 4294967295)); split; lia.
Qed.

Lemma state_reset_wf q n : match q with Healthy => True | Quarantined n _ => 1 <= n <= u32_max /\ quarantine_threshold quota <= n end ->
  n = 0 -> state_wf (mkState n q).
Proof. intros Hq ->. split; simpl; [by unfold u32_max|]. destruct q; [lia|done]. Qed.

(** A read moves on: slots and admissions stay in order. *)
Lemma inv_move h i p q n s v evs :
  policy_inv h -> reads h !! i = p -> (n + slot (Some q) = free h + slot p)%nat -> state_wf s ->
  (v = verdict h \/ verdict h = None) ->
  (guard <> None -> admitted q = true -> v = Some Verified) ->
  policy_inv (mkHandler s n v evs (<[i := q]> (reads h))).
Proof.
  intros [H1 H2 H3] Hi Hn Hs Hv Hq. split; simpl; [| |done].
  - pose proof (busy_insert (reads h) i q) as Hb. rewrite Hi in Hb. lia.
  - intros j p' Hg Hj Ha. apply lookup_insert_Some in Hj as [[<- <-]|[Hne Hj]]; [by apply Hq|].
    pose proof (H2 j p' Hg Hj Ha) as Hver. destruct Hv as [->|Hv]; [done|congruence].
Qed.

Lemma step_policy_inv h h' : step h h' -> policy_inv h -> policy_inv h'.
Proof.
  intros Hstep Hinv. pose proof (pi_verified _ Hinv) as Hver. pose proof (pi_state _ Hinv) as Hs.
  destruct Hstep as [h i input Hi|h i Hi|h i input Hi Hg|h i input expected v Hi Hg Hv
    |h i input expected s_in s_out v evs Hi Hg Hv Hc|h i input expected err Hi Hg Hv|h i input n reason Hi Hq
    |h i input Hi Hq|h i input n Hi Hf|h i input output Hi|h i input err Hi|h i output Hi|h i err Hi
    |h i was err s backoff Hi Hr|h i was err backoff evs Hi He|h|h i p Hi Hp]; unfold finish_read, with_read, with_free, with_state; simpl.
  - eapply inv_move; [done|done| |done|by left|]; simpl; [lia|done].
  - eapply inv_move; [done|done| |done|by left|]; simpl; [lia|done].
  - eapply inv_move; [done|done| |done|by left|]; simpl; [lia|done].
  - eapply inv_move; [done|done| |done|by left|]; destruct v; simpl; [lia|lia|done|done].
  - eapply inv_move; [done|done| |done|by right|]; destruct v; simpl; [lia|lia|done|done].
  - eapply inv_move; [done|done| |done|by left|]; simpl; [lia|done].
  - eapply inv_move; [done|done| |done|by left|]; simpl; [lia|done].
  - eapply inv_move; [done|done| |done|by left|]; simpl; [lia|]. intros Hg _. by apply (Hver i (Acquire input)).
  - eapply inv_move; [done|done| |done|by left|]; simpl; [lia|]. intros Hg _. by apply (Hver i (Queue input)).
  - eapply inv_move; [done|done| |done|by left|]; simpl; [lia|]. intros Hg _. by apply (Hver i (Call input)).
  - eapply inv_move; [done|done| |done|by left|]; simpl; [lia|]. intros Hg _. by apply (Hver i (Call input)).
  - eapply inv_move; [done|done| | |by left|]; simpl; [lia| |done]. apply state_reset_wf; [|done].
    destruct Hs as [_ Hs]. by destruct (quarantine (state h)).
  - eapply inv_move; [done|done| |done|by left|]; simpl; [lia|]. intros Hg _. by apply (Hver i (Failed err)).
  - eapply inv_move; [done|done| | |by left|]; simpl; [lia| |].
    + pose proof (record_failure_wf (show err) _ Hs) as Hw. by rewrite Hr in Hw.
    + intros Hg _. by apply (Hver i (Failing was err)).
  - eapply inv_move; [done|done| |done|by left|]; simpl; [lia|done].
  - destruct Hinv as [H1 H2 H3]. split; simpl; [done|done|]. by apply state_reset_wf.
  - destruct Hinv as [H1 H2 H3]. split; simpl; [|intros j q Hg [_ Hj]%lookup_delete_Some; by apply (H2 j q)|done].
    pose proof (busy_delete _ _ _ Hi) as Hb. simpl in Hb. destruct (holds_slot p); lia.
Qed.

Lemma new_policy_inv : policy_inv (handler_new quota).
Proof.
  split; simpl; [unfold busy; rewrite map_to_list_empty; simpl; lia|by intros i p _; rewrite lookup_empty|].
  by apply state_reset_wf.
Qed.

Lemma reachable_policy_inv h : rtc step (handler_new quota) h -> policy_inv h.
Proof.
  intros Hr. apply (rtc_ind_r (R:=step) policy_inv (handler_new quota)); [apply new_policy_inv| |done].
  intros y z _ Hyz. by apply step_policy_inv.
Qed.

(** C26: An external tool stays within its policy.  However the reads of its
    sessions interleave, fail, are cancelled or lifted out of quarantine: at most
    [max_concurrent] of them hold a slot and every slot is returned; no call of a
    snapshot-backed tool starts unless its live schema was found to be the
    approved one; a handler that is not quarantined has seen fewer failures in a
    row than the threshold, and a quarantine was imposed at the threshold. *)
Theorem policy_safe h :
  rtc step (handler_new quota) h ->
  (busy (reads h) <= max_concurrent quota)%nat /\ (free h + busy (reads h) = max_concurrent quota)%nat /\
  (forall i input, guard <> None -> reads h !! i = Some (Call input) -> verdict h = Some Verified) /\
  match quarantine (state h) with
  | Healthy => consecutive_failures (state h) < Z.max 1 (quarantine_threshold quota)
  | Quarantined n _ => quarantine_threshold quota <= n
  end.
Proof.
  intros [H1 H2 [_ H3]]%reachable_policy_inv. split; [lia|]. split; [done|]. split.
  - intros i input Hg Hi. by apply (H2 i (Call input)).
  - destruct (quarantine (state h)); [done|apply H3].
Qed.

End Invariants.

(** ** When a quarantine is imposed *)

(** The outcomes of calls, in the order they are recorded. *)
Definition record (quota : ToolQuota) (s : InvocationState) (ok : bool) : InvocationState :=
  if ok then record_success s else (record_failure quota "failed" s).1.

(** Failures since the last success. *)
Definition trailing (os : list bool) : nat := foldl (fun n ok => if ok : bool then O else S n) O os.

Lemma trailing_snoc os b : trailing (os ++ [b]) = if b then O else S (trailing os).
Proof. unfold trailing. by rewrite foldl_app. Qed.

Lemma trailing_suffix os : exists pre, os = pre ++ replicate (trailing os) false.
Proof.
  induction os as [|b os [pre IH]] using rev_ind; [by exists []|]. rewrite trailing_snoc. destruct b.
  - exists (os ++ [true]). simpl. by rewrite app_nil_r.
  - exists pre. rewrite replicate_S_end, (assoc_L (++)). by rewrite <-IH.
Qed.

Lemma trailing_run pre n : (n <= trailing (pre ++ replicate n false))%nat.
Proof.
  induction n as [|n IH]; [lia|]. rewrite replicate_S_end, (assoc_L (++)), trailing_snoc. lia.
Qed.

(** [n] failures in a row, somewhere. *)
Definition has_run (n : nat) (os : list bool) : Prop := exists pre post, os = pre ++ replicate n false ++ post.

Lemma has_run_snoc n os b :
  has_run n (os ++ [b]) <-> has_run n os \/ (n <= trailing (os ++ [b]))%nat.
Proof.
  split.
  - intros (pre & post & E). destruct post as [|x post _] using rev_ind.
    + right. rewrite app_nil_r in E. rewrite E. apply trailing_run.
    + left. exists pre, post. rewrite !(assoc_L (++)) in E. apply app_inj_tail in E as [E _]. by rewrite E, <-!(assoc_L (++)).
  - intros [(pre & post & ->)|Hle].
    + exists pre, (post ++ [b]). by rewrite <-!(assoc_L (++)).
    + destruct (trailing_suffix (os ++ [b])) as [pre E]. exists (pre ++ replicate (trailing (os ++ [b]) - n) false), [].
      rewrite app_nil_r, <-(assoc_L (++)), <-replicate_add. rewrite E at 1. do 2 f_equal. lia.
Qed.

Lemma recorded_state quota os :
  Z.of_nat (length os) < u32_max -> 1 <= quarantine_threshold quota ->
  let s := foldl (record quota) InvocationState_new os in
  consecutive_failures s = Z.of_nat (trailing os) /\
  (is_quarantined (quarantine s) = true <-> has_run (Z.to_nat (quarantine_threshold quota)) os).
Proof.
  intros Hlen Ht. induction os as [|b os IH] using rev_ind.
  - split; [done|]. simpl. split; [done|]. intros (pre & post & E). symmetry in E. apply app_nil in E as [_ E].
    apply app_nil in E as [E _]. destruct (Z.to_nat (quarantine_threshold quota)) eqn:Hn; [lia|done].
  - rewrite length_app in Hlen. simpl in Hlen. destruct IH as [IHn IHq]; [lia|]. rewrite foldl_app. cbn [foldl].
    set (s := foldl (record quota) InvocationState_new os) in *. clearbody s. rewrite has_run_snoc, trailing_snoc, <-IHq.
    assert (trailing os <= length os)%nat as Hle.
    { destruct (trailing_suffix os) as [pre E]. rewrite E at 2. rewrite length_app, length_replicate. lia. }
    unfold record. destruct b; simpl.
    + split; [done|]. split; [by left|]. intros [?|?]; [done|lia].
    + unfold record_failure, sat_add. rewrite IHn. rewrite Z.min_l by (unfold u32_max in *; lia). simpl. split; [lia|].
      destruct (quarantine s) as [|m r]; simpl; [|split; [by left|done]].
      destruct (Z.leb_spec (quarantine_threshold quota) (Z.of_nat (trailing os) + 1)); simpl; split; try done; intros; [right; lia|].
      destruct H0 as [?|?]; [done|lia].
Qed.

(** C27: Quarantine is imposed for [threshold] failures in a row, and for nothing
    else.  Of any sequence of recorded outcomes, the tool ends up quarantined
    exactly if somewhere in it that many failures follow each other with no
    success between them: successes after it do not lift it. *)
Theorem quarantine_after_run quota os :
  Z.of_nat (length os) < u32_max -> 1 <= quarantine_threshold quota ->
  is_quarantined (quarantine (foldl (record quota) InvocationState_new os)) = true <->
  has_run (Z.to_nat (quarantine_threshold quota)) os.
Proof. intros H1 H2. by apply (recorded_state quota os). Qed.

Lemma quarantine_after_run_witness :
  is_quarantined (quarantine (foldl (record (mkQuota 10 2)) InvocationState_new [false; true; false; false; true])) = true /\
  has_run 2 [false; true; false; false; true].
Proof.
  assert (is_quarantined (quarantine (foldl (record (mkQuota 10 2)) InvocationState_new [false; true; false; false; true])) = true)
    as Hq by reflexivity.
  split; [exact Hq|].
  apply (proj1 (quarantine_after_run (mkQuota 10 2) [false; true; false; false; true] ltac:(vm_compute; reflexivity)
    ltac:(simpl; lia)) Hq).
Defined.

(** ** Runs *)

Definition one_slot : ToolQuota := mkQuota 1 1.
Definition demo_tool : ToolName := mkToolName "support" "echo".
Definition boom : BamlRtError := ToolExecution "boom".
Notation demo_step := (step (fun _ => "boom") Process demo_tool).

Tactic Notation "take" uconstr(c) := eapply rtc_l; [eapply c; first [reflexivity|eassumption|done]|].

(** A read that was admitted and waits for a slot starts its call under a
    quarantine imposed meanwhile. *)
Lemma queued_read_runs_quarantined :
  exists h n reason input, rtc (demo_step one_slot None (fun _ _ => "d")) (handler_new one_slot) h /\
    quarantine (state h) = Quarantined n reason /\ reads h !! 1%nat = Some (Call input).
Proof.
  eexists _, 1, "boom", (JStr "b"). split; [|split]; cycle 1.
  3:{ take (step_read _ _ _ _ _ _ _ 0%nat (JStr "a")). take (step_read _ _ _ _ _ _ _ 1%nat (JStr "b")).
      take (step_unguarded _ _ _ _ _ _ _ 0%nat). take (step_unguarded _ _ _ _ _ _ _ 1%nat).
      take (step_admitted _ _ _ _ _ _ _ 0%nat). take (step_admitted _ _ _ _ _ _ _ 1%nat).
      take (step_slot _ _ _ _ _ _ _ 0%nat). take (step_err _ _ _ _ _ _ _ 0%nat (JStr "a") boom).
      take (step_look _ _ _ _ _ _ _ 0%nat). take (step_count _ _ _ _ _ _ _ 0%nat).
      take (step_report _ _ _ _ _ _ _ 0%nat). take (step_slot _ _ _ _ _ _ _ 1%nat). apply rtc_refl. }
  all: reflexivity.
Qed.

(** Two failures at once report the quarantine twice. *)
Lemma quarantine_reported_twice :
  exists h, rtc (demo_step (mkQuota 2 1) None (fun _ _ => "d")) (handler_new (mkQuota 2 1)) h /\
    length (events h) = 2%nat /\ reads h !! 0%nat <> None /\
    Forall (fun e => exists n, e = QuarantineEvent "support/echo" "boom" n) (events h).
Proof.
  eexists. split; [|split; [|split]]; cycle 1.
  4:{ take (step_read _ _ _ _ _ _ _ 0%nat (JStr "a")). take (step_read _ _ _ _ _ _ _ 1%nat (JStr "b")).
      take (step_unguarded _ _ _ _ _ _ _ 0%nat). take (step_unguarded _ _ _ _ _ _ _ 1%nat).
      take (step_admitted _ _ _ _ _ _ _ 0%nat). take (step_admitted _ _ _ _ _ _ _ 1%nat).
      take (step_slot _ _ _ _ _ _ _ 0%nat). take (step_slot _ _ _ _ _ _ _ 1%nat).
      take (step_err _ _ _ _ _ _ _ 0%nat (JStr "a") boom). take (step_err _ _ _ _ _ _ _ 1%nat (JStr "b") boom).
      take (step_look _ _ _ _ _ _ _ 0%nat). take (step_look _ _ _ _ _ _ _ 1%nat).
      take (step_count _ _ _ _ _ _ _ 0%nat). take (step_count _ _ _ _ _ _ _ 1%nat).
      take (step_report _ _ _ _ _ _ _ 0%nat). take (step_report _ _ _ _ _ _ _ 1%nat). apply rtc_refl. }
  - reflexivity.
  - discriminate.
  - repeat constructor; by eexists.
Qed.

Lemma policy_safe_witness :
  exists h, rtc (demo_step one_slot (Some "d") (fun _ _ => "d")) (handler_new one_slot) h /\
    reads h !! 0%nat = Some (Call (JStr "a")) /\ verdict h = Some Verified /\ (busy (reads h) <= 1)%nat.
Proof.
  assert (exists h, rtc (demo_step one_slot (Some "d") (fun _ _ => "d")) (handler_new one_slot) h /\
    reads h !! 0%nat = Some (Call (JStr "a"))) as (h & Hr & Hc).
  { eexists. split.
    - take (step_read _ _ _ _ _ _ _ 0%nat (JStr "a")).
      take (step_check _ _ _ _ _ _ _ 0%nat (JStr "a") "d" JNull JNull). take (step_admitted _ _ _ _ _ _ _ 0%nat).
      take (step_slot _ _ _ _ _ _ _ 0%nat). apply rtc_refl.
    - reflexivity. }
  destruct (policy_safe (fun _ => "boom") Process demo_tool one_slot (Some "d") (fun _ _ => "d") h Hr) as (H1 & _ & H3 & _).
  exists h. split; [exact Hr|]. split; [exact Hc|]. split; [|exact H1]. apply (H3 0%nat (JStr "a")); [discriminate|exact Hc].
Defined.
