(* ===== verification/Signature.v ===== *)
(** * Send signatures

    [canonical_json] and [send_signature] of
    [baml-rt-quickjs/src/tool_session_handle.rs], which tell whether a Send
    repeats an earlier one (the reference table is searched by signature).
    [serde_json::to_string] is a parameter. *)

From stdpp Require Import base list strings sorting.
From Stdlib Require Import ZArith Lia.
From S2P Require Import Prelude RustStr Json.

Definition key_le (p q : string * json) : Prop := String.leb p.1 q.1 = true.

#[global] Instance key_le_dec : RelDecision key_le.
Proof. unfold RelDecision, key_le. intros p q. apply _. Defined.

Fixpoint canonical_json (value : json) : json :=
  match value with
  | JObj map => JObj (merge_sort key_le ((fun '(k, v) => (k, canonical_json v)) <$> map))
  | JArr items => JArr (canonical_json <$> items)
  | other => other
  end.

Section Signature.
Context (to_string : json -> string).

Definition send_signature (tool_name : string) (input : json) : string :=
  tool_name +:+ String Ascii.zero (to_string (canonical_json input)).
End Signature.

(** ** Equality up to the order of fields *)

Inductive json_eqv : json -> json -> Prop :=
| eqv_refl v : json_eqv v v
| eqv_sym v w : json_eqv v w -> json_eqv w v
| eqv_trans u v w : json_eqv u v -> json_eqv v w -> json_eqv u w
| eqv_arr_at xs x y ys : json_eqv x y -> json_eqv (JArr (xs ++ x :: ys)) (JArr (xs ++ y :: ys))
| eqv_obj_at fs k x y gs : json_eqv x y -> json_eqv (JObj (fs ++ (k, x) :: gs)) (JObj (fs ++ (k, y) :: gs))
| eqv_perm fs gs : fs ≡ₚ gs -> json_eqv (JObj fs) (JObj gs).

#[global] Instance json_eqv_equiv : Equivalence json_eqv.
Proof. split; [intros v; apply eqv_refl|intros v w; apply eqv_sym|intros u v w; apply eqv_trans]. Qed.

Lemma eqv_arr xs ys : Forall2 json_eqv xs ys -> json_eqv (JArr xs) (JArr ys).
Proof.
  intros HF. assert (Hgen : forall pre, json_eqv (JArr (pre ++ xs)) (JArr (pre ++ ys))); [|apply (Hgen [])].
  induction HF as [|x y xs ys Hxy _ IH]; intros pre; [apply eqv_refl|].
  eapply eqv_trans; [by apply eqv_arr_at|]. specialize (IH (pre ++ [y])). by rewrite <-!app_assoc in IH.
Qed.

Lemma eqv_obj fs gs : Forall2 (fun p q => p.1 = q.1 /\ json_eqv p.2 q.2) fs gs -> json_eqv (JObj fs) (JObj gs).
Proof.
  intros HF. assert (Hgen : forall pre, json_eqv (JObj (pre ++ fs)) (JObj (pre ++ gs))); [|apply (Hgen [])].
  induction HF as [|[k x] [k' y] fs gs [Hk Hxy] _ IH]; intros pre; [apply eqv_refl|]. simpl in *. subst k'.
  eapply eqv_trans; [by apply (eqv_obj_at pre k x y)|]. specialize (IH (pre ++ [(k, y)])). by rewrite <-!app_assoc in IH.
Qed.

(** Every value is equivalent to its canonical form. *)
Lemma canonical_eqv v : json_eqv v (canonical_json v).
Proof.
  induction v as [| | | |xs IH|fs IH] using json_nested_ind; try apply eqv_refl.
  - cbn [canonical_json]. apply eqv_arr. induction IH as [|x xs Hx _ IH]; [constructor|]. by constructor.
  - cbn [canonical_json]. eapply eqv_trans; [|apply eqv_perm; symmetry; apply merge_sort_Permutation].
    apply eqv_obj. induction IH as [|[k x] fs Hx _ IH]; [constructor|]. by constructor.
Qed.

(** ** Canonical forms are unique *)

Lemma str_leb_cons a s b t :
  String.leb (String a s) (String b t) =
  match N.compare (Ascii.N_of_ascii a) (Ascii.N_of_ascii b) with Lt => true | Eq => String.leb s t | Gt => false end.
Proof.
  unfold String.leb. cbn [String.compare]. unfold Ascii.compare. by destruct (N.compare _ _).
Qed.

Lemma str_leb_trans x y z : String.leb x y = true -> String.leb y z = true -> String.leb x z = true.
Proof.
  revert y z. induction x as [|a x IH]; intros [|b y] [|c z]; try done. rewrite !str_leb_cons.
  destruct (N.compare_spec (Ascii.N_of_ascii a) (Ascii.N_of_ascii b)) as [Hab|Hab|Hab]; [| |done];
    destruct (N.compare_spec (Ascii.N_of_ascii b) (Ascii.N_of_ascii c)) as [Hbc|Hbc|Hbc]; try done;
    destruct (N.compare_spec (Ascii.N_of_ascii a) (Ascii.N_of_ascii c)) as [Hac|Hac|Hac]; try done; try lia; by eauto.
Qed.

#[global] Instance key_le_trans : Transitive key_le.
Proof. intros p q r. apply str_leb_trans. Qed.

#[global] Instance key_le_total : Total key_le.
Proof. intros p q. apply String.leb_total. Qed.

Lemma merge_sort_unique fs gs :
  NoDup (fst <$> fs) -> fs ≡ₚ gs -> merge_sort key_le fs = merge_sort key_le gs.
Proof.
  intros Hnd Hp. apply (StronglySorted_unique_strong key_le).
  - intros [k1 x1] [k2 x2] H1 H2 H12 H21. rewrite merge_sort_Permutation in H1, H2. rewrite <-Hp in H2.
    assert (k1 = k2) as -> by (by apply String.leb_antisym).
    apply list_elem_of_lookup in H1 as [i Hi]. apply list_elem_of_lookup in H2 as [j Hj].
    assert (i = j) as ->; [|congruence].
    eapply (NoDup_lookup (fst <$> fs)); [done|by rewrite list_lookup_fmap, Hi|by rewrite list_lookup_fmap, Hj].
  - apply StronglySorted_merge_sort; apply _.
  - apply StronglySorted_merge_sort; apply _.
  - by rewrite !merge_sort_Permutation.
Qed.

Lemma canonical_fields_keys (fs : list (string * json)) : fst <$> ((fun '(k, v) => (k, canonical_json v)) <$> fs) = fst <$> fs.
Proof. rewrite <-list_fmap_compose. apply list_fmap_ext. by intros i [k v]. Qed.

(** Equivalent values have the same canonical form. *)
Lemma eqv_canonical v w :
  json_eqv v w -> (json_wf v <-> json_wf w) /\ (json_wf v -> canonical_json v = canonical_json w).
Proof.
  induction 1 as [v|v w _ [IHw IHc]|u v w _ [IHw1 IHc1] _ [IHw2 IHc2]|xs x y ys _ [IHw IHc]|fs k x y gs _ [IHw IHc]|fs gs Hp].
  - done.
  - split; [done|]. intros Hv. symmetry. apply IHc. tauto.
  - split; [tauto|]. intros Hv. rewrite IHc1 by done. apply IHc2. tauto.
  - rewrite !json_wf_arr, !Forall_app, !list.Forall_cons. split; [tauto|]. intros (_ & Hx & _).
    cbn [canonical_json]. rewrite !fmap_app, !fmap_cons. by rewrite IHc.
  - rewrite !json_wf_obj, !Forall_app, !list.Forall_cons, !fmap_app, !fmap_cons. simpl. split; [tauto|]. intros (_ & _ & Hx & _).
    cbn [canonical_json]. rewrite !fmap_app, !fmap_cons. by rewrite IHc.
  - rewrite !json_wf_obj. split; [by rewrite Hp|]. intros [Hnd _]. cbn [canonical_json]. f_equal.
    apply merge_sort_unique; [by rewrite canonical_fields_keys|by rewrite Hp].
Qed.

Section Signatures.
Context (to_string : json -> string).

Lemma signature_split t v t' w :
  contains_char Ascii.zero t = false -> contains_char Ascii.zero t' = false ->
  send_signature to_string t v = send_signature to_string t' w ->
  t = t' /\ to_string (canonical_json v) = to_string (canonical_json w).
Proof.
  unfold send_signature. intros Ht Ht' Heq. apply (f_equal (split_once Ascii.zero)) in Heq.
  rewrite !split_once_app in Heq by done. by injection Heq.
Qed.

(** Two Sends have the same signature exactly when they go to the same tool
    with inputs that differ in nothing but the order of object fields, at any
    depth: repeating a Send is recognised however its fields are ordered, and
    different Sends are never taken for each other (as long as the printer tells
    their two canonical forms apart). *)
Theorem send_signature_identifies t v t' w :
  (to_string (canonical_json v) = to_string (canonical_json w) -> canonical_json v = canonical_json w) ->
  contains_char Ascii.zero t = false -> contains_char Ascii.zero t' = false -> json_wf v -> json_wf w ->
  send_signature to_string t v = send_signature to_string t' w <-> t = t' /\ json_eqv v w.
Proof.
  intros Hinj Ht Ht' Hv Hw. split.
  - intros [-> Hc]%signature_split; [|done..]. split; [done|]. apply Hinj in Hc.
    rewrite (canonical_eqv v), Hc. symmetry. apply canonical_eqv.
  - intros [-> Heqv]. unfold send_signature. do 2 f_equal. f_equal. by apply eqv_canonical.
Qed.
End Signatures.

Definition sample_a : json := JObj [("b"%string, JNum (NInt 2)); ("a"%string, JArr [JStr "x"])].
Definition sample_b : json := JObj [("a"%string, JArr [JStr "x"]); ("b"%string, JNum (NInt 2))].

Lemma send_signature_identifies_witness :
  send_signature (fun v => match v with JObj _ => "object" | _ => "other" end) "tool" sample_a =
  send_signature (fun v => match v with JObj _ => "object" | _ => "other" end) "tool" sample_b.
Proof.
  apply (send_signature_identifies (fun v => match v with JObj _ => "object" | _ => "other" end) "tool" sample_a "tool" sample_b).
  - intros _. vm_compute. reflexivity.
  - reflexivity.
  - reflexivity.
  - split; [|vm_compute; tauto]. simpl. apply NoDup_cons. split; [by intros ?%list_elem_of_singleton|apply NoDup_singleton].
  - split; [|vm_compute; tauto]. simpl. apply NoDup_cons. split; [by intros ?%list_elem_of_singleton|apply NoDup_singleton].
  - split; [reflexivity|]. apply eqv_perm. apply Permutation_swap.
Defined.
