(* ===== verification/Render.v ===== *)
(** * Rendering tool results as lines

    [baml-rt-tools/src/archive_read/render.rs]: a JSON value becomes
    YAML-like lines that can be addressed, searched and cited one by one.  Long
    strings are wrapped at word boundaries.  The JSON printer of [serde_json]
    is a parameter. *)

From stdpp Require Import base list strings.
From Stdlib Require Import ZArith Lia Ascii.
From S2P Require Import Prelude RustStr Json ArchiveRead.

Open Scope string_scope.
Open Scope list_scope.

Definition BLOCK_SCALAR_THRESHOLD : nat := 80.
Definition WRAP_WIDTH : nat := 78.

(** ** Scalars *)

Definition dq : ascii := "034"%char.
Definition backslash : ascii := "092"%char.

Definition is_yaml_keyword (s : string) : bool :=
  existsb (String.eqb (to_lowercase s)) ["null"; "true"; "false"; "yes"; "no"; "on"; "off"; "~"].

Definition two (a b : ascii) : string := String a (String b EmptyString).

Definition escape_yaml_string (s : string) : string :=
  replace_char tab (two backslash "t")
    (replace_char nl (two backslash "n")
      (replace_char dq (two backslash dq)
        (replace_char backslash (two backslash backslash) s))).

(** First characters a plain YAML scalar cannot have. *)
Definition indicators : list ascii :=
  ["#"%char; "'"%char; dq; "{"%char; "["%char; "*"%char; "&"%char; "!"%char; "|"%char; ">"%char; "%"%char; "@"%char; "`"%char].

Definition starts_with_char (c : ascii) (s : string) : bool := is_some (strip_prefix_char c s).

Definition needs_quotes (s : string) : bool :=
  is_empty_str s || contains_str ": " s || contains_str " #" s || existsb (fun c => starts_with_char c s) indicators ||
  contains_char nl s || is_yaml_keyword s.

Definition quote_if_needed (s : string) : string :=
  if needs_quotes s then String dq (escape_yaml_string s +:+ String dq EmptyString) else s.

Definition needs_block_scalar (s : string) : bool :=
  (BLOCK_SCALAR_THRESHOLD <? String.length s)%nat || contains_char nl s.

(** ** Wrapping *)

(** The words of a paragraph, with the line being filled. *)
Fixpoint wrap_words (max_width : nat) (current_line : string) (words : list string) : list string :=
  match words with
  | [] => if is_empty_str current_line then [] else [current_line]
  | word :: rest =>
      if is_empty_str current_line then wrap_words max_width word rest
      else if (String.length current_line + 1 + String.length word <=? max_width)%nat
           then wrap_words max_width (current_line +:+ " " +:+ word) rest
           else current_line :: wrap_words max_width word rest
  end.

Definition wrap_paragraph (max_width : nat) (paragraph : string) : list string :=
  if is_empty_str paragraph then [EmptyString]
  else match split_whitespace paragraph with
       | [] => [EmptyString]
       | words => wrap_words max_width EmptyString words
       end.

Definition wrap_text (text : string) (max_width : nat) : list string :=
  concat (wrap_paragraph (Nat.max max_width 20) <$> split_char nl text).

(** ** Values *)

Definition spaces (n : nat) : string := str_repeat " " n.

Definition is_flat (v : json) : bool := match v with JObj _ | JArr _ => false | _ => true end.

Section WithPrinter.
Context (to_string : json -> string).

Definition render_scalar (v : json) : string :=
  match v with
  | JStr s => quote_if_needed s
  | JBool b => if b then "true" else "false"
  | JNull => "null"
  | _ => to_string v
  end.

(** A rendering of fields: prefix, key, value, indentation of what follows. *)
Notation field_renderer := (json -> string -> string -> nat -> list string).

Definition object_item (render_field : field_renderer) (base_indent : string) (continuation_indent : nat)
    : nat -> list (string * json) -> list string :=
  fix go (fi : nat) (fields : list (string * json)) : list string :=
    match fields with
    | [] => []
    | (key, val) :: rest =>
        let prefix := if (fi =? 0)%nat then base_indent +:+ "- " else base_indent +:+ "  " in
        render_field val prefix key continuation_indent ++ go (S fi) rest
    end.

Definition mapping_fields (render_field : field_renderer) (indent : nat) : list (string * json) -> list string :=
  fix go (fields : list (string * json)) : list string :=
    match fields with
    | [] => []
    | (key, val) :: rest => render_field val (spaces indent) key (indent + 2)%nat ++ go rest
    end.

Fixpoint render_field (val : json) (prefix key : string) (continuation_indent : nat) : list string :=
  match val with
  | JStr s =>
      if needs_block_scalar s then
        (prefix +:+ key +:+ ": >-") ::
        ((fun wrapped => spaces continuation_indent +:+ wrapped) <$> wrap_text s (WRAP_WIDTH - continuation_indent))
      else [prefix +:+ key +:+ ": " +:+ quote_if_needed s]
  | JObj fields => (prefix +:+ key +:+ ":") :: mapping_fields render_field continuation_indent fields
  | JArr [] => [prefix +:+ key +:+ ": []"]
  | JArr arr =>
      if forallb is_flat arr then
        let inline := prefix +:+ key +:+ ": [" +:+ join ", " (render_scalar <$> arr) +:+ "]" in
        if (String.length inline <=? BLOCK_SCALAR_THRESHOLD)%nat then [inline]
        else (prefix +:+ key +:+ ":") :: ((fun item => spaces continuation_indent +:+ "- " +:+ render_scalar item) <$> arr)
      else
        (prefix +:+ key +:+ ":") ::
        concat (map (fun item =>
          match item with
          | JObj obj => object_item render_field (spaces continuation_indent) (continuation_indent + 4) 0 obj
          | _ => [spaces continuation_indent +:+ "- " +:+ render_scalar item]
          end) arr)
  | _ => [prefix +:+ key +:+ ": " +:+ render_scalar val]
  end.

Definition render_object_item := object_item render_field.

Definition render_mapping (v : json) (indent : nat) : list string :=
  match v with
  | JObj fields => mapping_fields render_field indent fields
  | _ => [spaces indent +:+ render_scalar v]
  end.

Definition render_object_array (arr : list json) : list string :=
  concat ((fun obj => render_object_item EmptyString 2 0%nat (default [] (as_object obj))) <$> arr).

Definition render_lines (v : json) : list string :=
  match v with
  | JArr [] => ["(empty)"]
  | JArr arr => if forallb is_object arr then render_object_array arr else render_scalar <$> arr
  | JObj _ => render_mapping v 0
  | JNull => ["null"]
  | _ => [render_scalar v]
  end.

Definition render_to_lines (v : json) : RenderedContent := RenderedContent_from_lines (render_lines v).
End WithPrinter.

(** ** Wrapping keeps the words *)

Lemma join_snoc l w : l <> [] -> join " " (l ++ [w]) = join " " l +:+ " " +:+ w.
Proof.
  induction l as [|x l IH]; [done|]. intros _. destruct l as [|y l]; [done|].
  change ((x :: y :: l) ++ [w]) with (x :: ((y :: l) ++ [w])). rewrite !join_cons by done.
  rewrite IH by done. by rewrite !str_app_assoc.
Qed.

Lemma words_go_nonempty fuel cur s : Forall (fun w => w <> EmptyString) (words_go fuel cur s).
Proof.
  assert (Hf : forall cur, Forall (fun w => w <> EmptyString) (match cur with EmptyString => [] | _ => [String.rev cur] end)).
  { intros [|a c]; [constructor|]. constructor; [|constructor]. rewrite str_rev_cons. by destruct (String.rev c). }
  revert cur s. induction fuel as [|fuel IH]; intros cur s; cbn [words_go]; [apply Hf|].
  destruct s as [|a s]; [apply Hf|]. destruct (ws_head (String a s)); [|apply IH]. apply Forall_app. by split.
Qed.

(** A line is a run of words, and fits unless it is a single word. *)
Definition line_fits (max_width : nat) (ws : list string) : Prop :=
  (length ws <= 1)%nat \/ (String.length (join " " ws) <= max_width)%nat.

Lemma wrap_words_groups w cur words :
  Forall (fun x => x <> EmptyString) words -> Forall (fun x => x <> EmptyString) cur -> line_fits w cur ->
  exists groups, wrap_words w (join " " cur) words = join " " <$> groups /\ concat groups = cur ++ words /\ Forall (line_fits w) groups.
Proof.
  revert cur. induction words as [|x words IH]; intros cur Hw Hc Hf; cbn [wrap_words].
  - destruct (is_empty_str (join " " cur)) eqn:He.
    + exists []. destruct cur as [|c cur]; [done|]. exfalso. inversion_clear Hc.
      destruct cur; [by destruct c|]. rewrite join_cons in He by done. by destruct c.
    + exists [cur]. simpl. rewrite app_nil_r. split_and!; [done..|]. by constructor.
  - inversion_clear Hw as [|?? Hx Hws]. destruct (is_empty_str (join " " cur)) eqn:He.
    + destruct cur as [|c cur]; [|exfalso; inversion_clear Hc; destruct cur; [by destruct c|]; rewrite join_cons in He by done; by destruct c].
      destruct (IH [x] Hws) as (gs & Hg & Hcat & Hfit); [by constructor|left; simpl; lia|]. exists gs. split_and!; [exact Hg|done..].
    + assert (Hne : cur <> []) by (by intros ->).
      destruct (Nat.leb_spec (String.length (join " " cur) + 1 + String.length x) w) as [Hle|Hgt].
      * rewrite <-join_snoc by done. destruct (IH (cur ++ [x]) Hws) as (gs & Hg & Hcat & Hfit).
        -- apply Forall_app. split; [done|]. by constructor.
        -- right. rewrite join_snoc, !str_app_length by done. simpl. lia.
        -- exists gs. split_and!; [exact Hg|by rewrite Hcat, <-app_assoc|done].
      * destruct (IH [x] Hws) as (gs & Hg & Hcat & Hfit); [by constructor|left; simpl; lia|].
        exists (cur :: gs). simpl in *. rewrite Hg, Hcat. split_and!; [done..|]. by constructor.
Qed.

Lemma wrap_paragraph_groups w p :
  exists groups, wrap_paragraph w p = join " " <$> groups /\ concat groups = split_whitespace p /\ Forall (line_fits w) groups.
Proof.
  assert (Hblank : Forall (line_fits w) [[]]) by (constructor; [left; simpl; lia|constructor]).
  unfold wrap_paragraph. destruct (is_empty_str p) eqn:He; [destruct p; [|done]; by exists [[]]|].
  pose proof (words_go_nonempty (S (String.length p)) EmptyString p) as Hne. fold (split_whitespace p) in Hne.
  destruct (split_whitespace p) as [|x words]; [by exists [[]]|].
  destruct (wrap_words_groups w [] (x :: words)) as (gs & Hg & Hc & Hf); [done|constructor|left; simpl; lia|]. by exists gs.
Qed.

(** Wrapping a text changes nothing but its white space: every line is a
    run of consecutive words joined by single spaces, the lines together hold
    the words of the text in order, and a line is longer than the width only
    when it is a single word. *)
Theorem wrap_text_keeps_words text w :
  exists groups, wrap_text text w = join " " <$> groups /\
    concat groups = concat (split_whitespace <$> split_char nl text) /\
    Forall (line_fits (Nat.max w 20)) groups.
Proof.
  unfold wrap_text. induction (split_char nl text) as [|p ps IH]; [by exists []|].
  destruct IH as (gs & Hg & Hc & Hf). destruct (wrap_paragraph_groups (Nat.max w 20) p) as (gp & Hgp & Hcp & Hfp).
  exists (gp ++ gs). rewrite fmap_cons. simpl. rewrite Hgp, Hg, fmap_app, concat_app, Hcp, Hc. split_and!; [done..|].
  apply Forall_app. by split.
Qed.

(** ** Quoting is unambiguous *)

Definition esc (a : ascii) : string :=
  if bool_decide (a = backslash) then two backslash backslash
  else if bool_decide (a = dq) then two backslash dq
  else if bool_decide (a = nl) then two backslash "n"
  else if bool_decide (a = tab) then two backslash "t"
  else String a EmptyString.

Fixpoint escs (s : string) : string := match s with EmptyString => EmptyString | String a s => esc a +:+ escs s end.

Lemma replace_char_app c r s t : replace_char c r (s +:+ t) = replace_char c r s +:+ replace_char c r t.
Proof.
  induction s as [|a s IH]; [done|]. rewrite str_app_cons. cbn [replace_char]. rewrite IH.
  case_bool_decide; [by rewrite str_app_assoc|done].
Qed.

(** The four passes are one. *)
Lemma escape_escs s : escape_yaml_string s = escs s.
Proof.
  induction s as [|a s IH]; [done|]. cbn [escs]. rewrite <-IH. unfold escape_yaml_string.
  change (String a s) with (String a EmptyString +:+ s). rewrite !replace_char_app. f_equal. unfold esc.
  cbn [replace_char]. repeat (case_bool_decide; subst; simpl; try done).
Qed.

Lemma esc_inj a b x y : esc a +:+ x = esc b +:+ y -> a = b /\ x = y.
Proof.
  unfold esc, two. repeat case_bool_decide; subst; simpl; intros Heq; injection Heq; intros; subst; try done.
Qed.

Lemma escs_inj s t : escs s = escs t -> s = t.
Proof.
  revert t. induction s as [|a s IH]; intros [|b t]; cbn [escs]; [done|..].
  - unfold esc, two. by repeat case_bool_decide.
  - unfold esc, two. by repeat case_bool_decide.
  - intros [-> H]%esc_inj. f_equal. by apply IH.
Qed.

Lemma str_snoc_inj s t a : s +:+ String a EmptyString = t +:+ String a EmptyString -> s = t.
Proof.
  revert t. induction s as [|b s IH]; intros [|c t] H; [done| | |].
  - rewrite str_app_cons in H. injection H as _ H. by destruct t.
  - rewrite str_app_cons in H. injection H as _ H. by destruct s.
  - rewrite !str_app_cons in H. injection H as -> H. f_equal. by apply IH.
Qed.

Lemma dq_needs_quotes s : needs_quotes (String dq s) = true.
Proof. unfold needs_quotes. rewrite !orb_true_iff. left. left. right. done. Qed.

Lemma esc_no_nl a : contains_char nl (esc a) = false.
Proof. unfold esc, two. repeat case_bool_decide; subst; try done. unfold contains_char. simpl. by rewrite bool_decide_eq_false_2. Qed.

Lemma escs_no_nl s : contains_char nl (escs s) = false.
Proof.
  induction s as [|a s IH]; [done|]. cbn [escs]. unfold contains_char in *. rewrite any_byte_app, IH.
  pose proof (esc_no_nl a) as Ha. unfold contains_char in Ha. by rewrite Ha.
Qed.

(** The text of a string scalar determines the string, and takes one line:
    whatever is quoted or escaped, two different strings are never shown the
    same way and no line feed is left in either. *)
Theorem quoting_unambiguous s t :
  (quote_if_needed s = quote_if_needed t <-> s = t) /\ contains_char nl (quote_if_needed s) = false.
Proof.
  split.
  - split; [|by intros ->]. unfold quote_if_needed.
    destruct (needs_quotes s) eqn:Hs, (needs_quotes t) eqn:Ht; [| | |done].
    + intros [= H%str_snoc_inj]. rewrite !escape_escs in H. by apply escs_inj.
    + intros <-. by rewrite dq_needs_quotes in Ht.
    + intros ->. by rewrite dq_needs_quotes in Hs.
  - unfold quote_if_needed. destruct (needs_quotes s) eqn:Hs.
    + rewrite escape_escs, contains_char_cons, bool_decide_eq_false_2 by done. simpl.
      unfold contains_char in *. rewrite any_byte_app, orb_false_iff. split; [|done].
      apply escs_no_nl.
    + unfold needs_quotes in Hs. rewrite !orb_false_iff in Hs. tauto.
Qed.

(** ** What rendering loses *)

(** An empty object in an array leaves no line, while an empty array leaves one. *)
Lemma empty_objects_vanish to_string :
  render_lines to_string (JArr [JObj []; JObj []]) = [] /\ render_lines to_string (JArr []) = ["(empty)"].
Proof. done. Qed.

(** A string that looks like a number is shown like the number. *)
Lemma numeric_string_not_quoted : quote_if_needed "42" = "42".
Proof. reflexivity. Qed.

(** A top-level string is one line, however long. *)
Lemma top_level_string_one_line to_string s : render_lines to_string (JStr s) = [quote_if_needed s].
Proof. done. Qed.
