(* ===== verification/PromptProjection.v ===== *)
(** * Prompt projection

    [baml-rt-tools/src/prompt_projection.rs]: the rows of a conversation
    rendered into the history an agent reads, with the numbers [#N] taken from
    the context's [RefTable] and archived results read back through it;
    [baml-rt-core/src/history_text.rs]; the flattening of message content in
    [llm_request_display.rs]; the routing of descriptions in [tools.rs].

    The tool handlers' descriptions, the JSON printers and the regex engine
    are arguments.  The archive reader takes the table as it is at the call, so
    that a reader over the same shared table is one of its instances. *)

From stdpp Require Import base list strings gmap.
From Stdlib Require Import ZArith Lia Ascii.
From S2P Require Import Prelude RustStr ArchiveRead RefTable Json Errors ToolNames Render.

Open Scope string_scope.
Open Scope list_scope.
Open Scope nat_scope.

(** ** [history_text.rs] *)

Definition strip_history_notice_prefix (text : string) : string :=
  let trimmed := trim text in
  match strip_prefix_char "#" trimmed with
  | None => trimmed
  | Some rest =>
      match rest with
      | String d _ => if is_ascii_digit d then trim_start (drop_while is_ascii_digit rest) else trimmed
      | EmptyString => trimmed
      end
  end.

Definition is_history_infrastructure_notice (text : string) : bool :=
  let core := strip_history_notice_prefix text in
  starts_with "Calling model:" core || starts_with "Invoking tool:" core.

(** ** Content of one message as text ([llm_request_display.rs]) *)

(** The text of one part of an array; [None] stops the flattening. *)
Definition text_part (part : json) : option string :=
  obj ← as_object part;
  if contains_key "image_url" obj ||
     match field "type" obj ≫= as_str with Some ty => negb (String.eqb ty "text") | None => false end
  then None
  else field "text" obj ≫= as_str.

Definition flatten_message_content_value (content : json) : json :=
  match as_array content with
  | None => content
  | Some [] => JStr ""
  | Some arr =>
      match mapM text_part arr with
      | Some texts => JStr (join (nl_str +:+ nl_str) texts)
      | None => content
      end
  end.

(** ** Items *)

Inductive SessionStepProjection :=
| POpen
| PSendDone (archive_ref header : string)
| PSearchRead (archive_ref grep : string) (offset limit : nat)
| PPageRead (archive_ref : string) (offset limit : nat).

Record SessionStepPayload := mkStepPayload {
  sp_tool_name : string;
  sp_op : SessionStepProjection;
  send_done_replay_payload : option json;
  read_replay_lines : option (list string)
}.

Inductive PlanningProjectionKind :=
| PIntentResolved | PIntentRevised | PPlanCommitted | PPlanSuperseded | PPlanStepStatusChanged.

Definition PlanningProjectionKind_as_wire_str (k : PlanningProjectionKind) : string :=
  match k with
  | PIntentResolved => "intent_resolved"
  | PIntentRevised => "intent_revised"
  | PPlanCommitted => "plan_committed"
  | PPlanSuperseded => "plan_superseded"
  | PPlanStepStatusChanged => "plan_step_status_changed"
  end.

Record PlanningProjectionPayload := mkPlanningProjection {
  pp_kind : PlanningProjectionKind;
  pp_summary : string;
  pp_detail : option string;
  pp_intent_id : option string;
  pp_plan_id : option string;
  pp_step_id : option string;
  pp_old_status : option string;
  pp_new_status : option string
}.

Inductive PromptProjectionContent :=
| PMessage (text : string) (citations : list string)
| PToolCall (tool_name : string) (args : json)
| PToolResult (tool_name : string) (res : json)
| PToolError (tool_name : string) (error : json)
| PSessionStep (s : SessionStepPayload)
| PPlanning (plan : PlanningProjectionPayload)
| PCompactionSummary (summary : string) (covered_event_order_start covered_event_order_end : Z).

Record PromptProjectionItem := mkProjectionItem {
  pi_timestamp_ms : Z;
  pi_activity_anchor : string;
  pi_role : string;
  pi_content : PromptProjectionContent
}.

Inductive RenderedEntry :=
| Filtered
| One (content : string) (message_citations : option (list string)).

(** The role of a row is the role of its item; [read_line] has no caller. *)
Record ProjectedHistoryRow := mkRow {
  row_role : string;
  row_content : string;
  row_message_citations : option (list string)
}.

Record ProjectionRenderOptions := mkOpts {
  opt_tool_result : nat;
  opt_tool_error : nat;
  tool_call_fallback_json : bool
}.

Definition DEFAULT_TOOL_RESULT_INLINE_LINES : nat := 40.

Definition ProjectionRenderOptions_default : ProjectionRenderOptions :=
  mkOpts (PageLimit_new DEFAULT_TOOL_RESULT_INLINE_LINES) (PageLimit_new 10) false.

Definition episode_session_history_projection_options : ProjectionRenderOptions :=
  mkOpts (PageLimit_new DEFAULT_TOOL_RESULT_INLINE_LINES) (PageLimit_new DEFAULT_TOOL_RESULT_INLINE_LINES) true.

(** ** Vacuous citations *)

Definition is_vacuous_citations (k : string) (v : json) : bool :=
  String.eqb k "citations" && match v with JArr [] => true | _ => false end.

Fixpoint strip_vacuous_citation_fields (value : json) : json :=
  match value with
  | JObj m =>
      JObj ((fix go (m : list (string * json)) : list (string * json) :=
               match m with
               | [] => []
               | (k, v) :: r =>
                   if is_vacuous_citations k v then go r
                   else (k, strip_vacuous_citation_fields v) :: go r
               end) m)
  | JArr a => JArr (strip_vacuous_citation_fields <$> a)
  | _ => value
  end.

Definition projected_history_row_to_json (row : ProjectedHistoryRow) : json :=
  match row_message_citations row with
  | Some (c :: cs) =>
      JObj [("role", JStr (row_role row)); ("content", JStr (row_content row));
            ("citations", JArr (JStr <$> (c :: cs)))]
  | _ => JObj [("role", JStr (row_role row)); ("content", JStr (row_content row))]
  end.

(** ** Tool values *)

Definition inline_tool_result_range_comment (page : GrepPage) : string :=
  match page_lines page with
  | [] => EmptyString
  | f :: _ =>
      let first := original_line_number f in
      let last := from_option original_line_number 1 (list.last (page_lines page)) in
      if has_more page then
        let remaining := total_matched page - next_offset page in
        "  # lines " +:+ show_nat first +:+ "-" +:+ show_nat last +:+ " of " +:+ show_nat (total_matched page)
          +:+ " (" +:+ show_nat remaining +:+ " more not shown in this preview)"
      else if (first =? 1) && (last =? total_matched page) then EmptyString
      else "  # lines " +:+ show_nat first +:+ "-" +:+ show_nat last +:+ " of " +:+ show_nat (total_matched page)
  end.

(** [{"status": "sent" | "finished" | "aborted" | "opened"}] and nothing else. *)
Definition is_status_only (value : json) : bool :=
  match value with
  | JObj [(k, JStr s)] =>
      String.eqb k "status" && bool_decide (s ∈ ["sent"; "finished"; "aborted"; "opened"])
  | _ => false
  end.

(** ** Rendering *)

Section Projection.
Context {regex : Type}.
Variable Regex_new : string -> result regex string.
Variable is_match : regex -> string -> bool.
(** [serde_json]'s compact and pretty printers. *)
Variable to_string to_string_pretty : json -> string.
(** [ToolHandler::describe_invocation] of the tools registered under a name. *)
Variable handler : ToolName -> option (json -> string).

Definition extract_tool_name_from_payload (content : json) : option string :=
  obj ← as_object content;
  match field "tool_name" obj ≫= as_str with
  | Some name => Some name
  | None =>
      match obj with
      | [(_, inner)] => jget "tool_name" inner ≫= as_str
      | _ => None
      end
  end.

Definition describe_invocation_for (tool_name : string) (content : json) : option string :=
  parsed ← ok (tool_name_parse tool_name);
  h ← handler parsed;
  Some (h content).

Definition describe_invocation (content : json) : option string :=
  tool_name ← extract_tool_name_from_payload content;
  describe_invocation_for tool_name content.

Definition describe_invocation_with_hint (hint : option string) (content : json) : string :=
  match hint ≫= fun n => describe_invocation_for n content with
  | Some d => d
  | None => default EmptyString (describe_invocation content)
  end.

Definition ArchiveReader : Type := RefTable -> string -> option string -> nat -> nat -> outcome (option string).

Definition blank (s : string) : bool := is_empty_str (trim s).

Definition tool_value_to_rendered_entry (value : json) (tool_name : string) (is_error : bool) (page_limit : nat)
    : outcome RenderedEntry :=
  if is_status_only value then Done Filtered
  else
    let rendered := render_to_lines to_string (strip_vacuous_citation_fields value) in
    let! page := grep_paginate is_match rendered None 0 page_limit in
    let formatted := format_cat_n (page_lines page) in
    if blank formatted then Done Filtered
    else
      let range_comment := inline_tool_result_range_comment page in
      let base := if is_error then tool_name +:+ " [error]" else tool_name in
      let txt := if is_empty_str range_comment then base +:+ ":" +:+ nl_str +:+ formatted
                 else base +:+ ":" +:+ range_comment +:+ nl_str +:+ formatted in
      Done (One txt None).

Definition seed_send_done_replay_archive (t : RefTable) (item : PromptProjectionItem)
    (payload : SessionStepPayload) (archive_ref : string) : RefTable :=
  match send_done_replay_payload payload, ShortRef_parse archive_ref with
  | Some replay_payload, Some short_ref =>
      let rendered := render_to_lines to_string replay_payload in
      if RenderedContent_is_empty rendered then t
      else
        insert_virtual_archive_ref t short_ref
          (ArchiveEntry_new rendered (sp_tool_name payload)
             (Some (sp_tool_name payload +:+ " replayed result")) (pi_activity_anchor item) "tool_result")
  | _, _ => t
  end.

(** The body of a planning row. *)
Definition planning_body (plan : PlanningProjectionPayload) : string :=
  "[planning:" +:+ PlanningProjectionKind_as_wire_str (pp_kind plan) +:+ "] " +:+ pp_summary plan
    +:+ match pp_detail plan with
        | Some detail => if blank detail then EmptyString else " — " +:+ detail
        | None => EmptyString
        end
    +:+ match pp_step_id plan with Some s => " step=" +:+ s | None => EmptyString end
    +:+ match pp_new_status plan with Some s => " status=" +:+ s | None => EmptyString end.

Definition compaction_body (summary : string) (start_ end_ : Z) : string :=
  "[compaction summary " +:+ show_Z start_ +:+ ".." +:+ show_Z end_ +:+ "] " +:+ summary.

(** A row under its history number. *)
Definition numbered (t : RefTable) (item : PromptProjectionItem) (src body : string)
    (cits : option (list string)) : RefTable * RenderedEntry :=
  let (t', h) := RefTable_insert_history t (mkHistoryEntry (pi_activity_anchor item) src) body in
  (t', One (HistoryRef_display h +:+ " " +:+ body) cits).

(** An explicit read: the replayed window, else the table, else the reader,
    else the command alone. *)
Definition read_entry (t : RefTable) (archive_reader : option ArchiveReader) (s : SessionStepPayload)
    (archive_ref : string) (grep : option string) (offset limit : nat) : outcome RenderedEntry :=
  let cmd := session_read_command_line archive_ref grep in
  match read_replay_lines s with
  | Some (l :: ls) =>
      let rendered := RenderedContent_from_lines (List.filter (fun l => negb (is_empty_str l)) (l :: ls)) in
      let! out := format_session_read_body_from_rendered Regex_new is_match rendered archive_ref grep offset
                    (PageLimit_new limit) in
      Done (One out None)
  | _ =>
      let! from_table := format_session_read_from_vtable Regex_new is_match t archive_ref grep offset limit in
      match from_table with
      | Some output => Done (One output None)
      | None =>
          let! from_reader := match archive_reader with
                              | Some r => r t archive_ref grep offset limit
                              | None => Done None
                              end in
          match from_reader with
          | Some output => Done (One output None)
          | None => Done (One cmd None)
          end
      end
  end.

Definition render_projection_content (item : PromptProjectionItem) (t : RefTable)
    (archive_reader : option ArchiveReader) (opts : ProjectionRenderOptions) : outcome (RefTable * RenderedEntry) :=
  let quiet (e : outcome RenderedEntry) := let! r := e in Done (t, r) in
  match pi_content item with
  | PMessage text citations =>
      if blank text || is_history_infrastructure_notice text then Done (t, Filtered)
      else Done (numbered t item "message" text
                   (match citations with [] => None | _ => Some citations end))
  | PToolCall tool_name args0 =>
      let args := strip_vacuous_citation_fields args0 in
      let desc0 := describe_invocation_with_hint (Some tool_name) args in
      let desc := if blank desc0 && tool_call_fallback_json opts then to_string_pretty args else desc0 in
      if blank desc then Done (t, Filtered)
      else Done (numbered t item "tool_call" desc None)
  | PToolResult tool_name result_ => quiet (tool_value_to_rendered_entry result_ tool_name false (opt_tool_result opts))
  | PToolError tool_name error => quiet (tool_value_to_rendered_entry error tool_name true (opt_tool_error opts))
  | PPlanning plan =>
      if blank (pp_summary plan) then Done (t, Filtered)
      else Done (numbered t item "plan" (planning_body plan) None)
  | PCompactionSummary summary s e =>
      if blank summary then Done (t, Filtered)
      else Done (numbered t item "compaction" (compaction_body summary s e) None)
  | PSessionStep s =>
      match sp_op s with
      | POpen => Done (t, Filtered)
      | PSendDone archive_ref _ => Done (seed_send_done_replay_archive t item s archive_ref, Filtered)
      | PSearchRead archive_ref grep offset limit =>
          quiet (read_entry t archive_reader s archive_ref (Some grep) offset limit)
      | PPageRead archive_ref offset limit =>
          quiet (read_entry t archive_reader s archive_ref None offset limit)
      end
  end.

Definition project_projection_item_to_rows (item : PromptProjectionItem) (t : RefTable)
    (archive_reader : option ArchiveReader) (opts : ProjectionRenderOptions)
    : outcome (RefTable * list ProjectedHistoryRow) :=
  let! (t', e) := render_projection_content item t archive_reader opts in
  match e with
  | Filtered => Done (t', [])
  | One content message_citations => Done (t', [mkRow (pi_role item) content message_citations])
  end.

(** The loop over items, as rows. *)
Fixpoint project_rows (items : list PromptProjectionItem) (t : RefTable)
    (archive_reader : option ArchiveReader) (opts : ProjectionRenderOptions)
    : outcome (RefTable * list ProjectedHistoryRow) :=
  match items with
  | [] => Done (t, [])
  | item :: rest =>
      let! (t1, rows) := project_projection_item_to_rows item t archive_reader opts in
      let! (t2, more) := project_rows rest t1 archive_reader opts in
      Done (t2, rows ++ more)
  end.

Definition project_prompt_context (items : list PromptProjectionItem) (t : RefTable)
    (archive_reader : option ArchiveReader) : outcome (RefTable * json) :=
  let! (t', rows) := project_rows items t archive_reader ProjectionRenderOptions_default in
  Done (t', JArr (projected_history_row_to_json <$> rows)).

Definition projection_history_pairs (item : PromptProjectionItem) (t : RefTable)
    (archive_reader : option ArchiveReader) (opts : ProjectionRenderOptions)
    : outcome (RefTable * list (string * string)) :=
  let! (t', rows) := project_projection_item_to_rows item t archive_reader opts in
  Done (t', (fun r => (row_role r, row_content r)) <$> rows).

(** ** The transcript *)

Definition transcript_part (row : json) : option string :=
  obj ← as_object row;
  let role := default "unknown" (field "role" obj ≫= as_str) in
  let content :=
    match field "content" obj with
    | None => EmptyString
    | Some (JStr s) => s
    | Some (JArr a) => default (to_string (JArr a)) (as_str (flatten_message_content_value (JArr a)))
    | Some c => to_string c
    end in
  Some (role +:+ ": " +:+ content).

Definition format_conversation_history_transcript (rows : list json) : string :=
  join (nl_str +:+ nl_str) (omap transcript_part rows).

End Projection.

(** ** Stripping vacuous citations *)

Definition field_clean (clean : json -> bool) (p : string * json) : bool :=
  negb (is_vacuous_citations p.1 p.2) && clean p.2.

(** No object inside carries [citations: []]. *)
Fixpoint no_vacuous (v : json) : bool :=
  match v with
  | JObj m => forallb (field_clean no_vacuous) m
  | JArr a => forallb no_vacuous a
  | _ => true
  end.

Definition strip_fields : list (string * json) -> list (string * json) :=
  fix go m :=
    match m with
    | [] => []
    | (k, v) :: r =>
        if is_vacuous_citations k v then go r
        else (k, strip_vacuous_citation_fields v) :: go r
    end.

Lemma strip_vacuous_obj m : strip_vacuous_citation_fields (JObj m) = JObj (strip_fields m).
Proof. done. Qed.

(** Stripping turns no array into an empty one. *)
Lemma strip_keeps_vacuity k v :
  is_vacuous_citations k (strip_vacuous_citation_fields v) = is_vacuous_citations k v.
Proof. by destruct v as [| | | |[|x a]|]. Qed.

Lemma strip_no_vacuous v : no_vacuous (strip_vacuous_citation_fields v) = true.
Proof.
  induction v as [| | | |xs IH|fs IH] using json_nested_ind; try done.
  - simpl. apply forallb_forall. intros y Hy. apply in_map_iff in Hy as (x & <- & Hx).
    rewrite List.Forall_forall in IH. by apply IH.
  - rewrite strip_vacuous_obj. simpl. induction IH as [|[k v] r Hv _ IHr]; [done|]. simpl.
    destruct (is_vacuous_citations k v) eqn:E; [done|]. simpl. unfold field_clean at 1. simpl.
    simpl in Hv. rewrite strip_keeps_vacuity, E, Hv. exact IHr.
Qed.

Lemma strip_clean_id v : no_vacuous v = true -> strip_vacuous_citation_fields v = v.
Proof.
  induction v as [| | | |xs IH|fs IH] using json_nested_ind; try done.
  - simpl. intros H. f_equal. induction IH as [|x r Hx _ IHr]; [done|]. simpl in *.
    apply andb_prop in H as [H1 H2]. rewrite Hx by done. f_equal. by apply IHr.
  - rewrite strip_vacuous_obj. simpl. intros H. f_equal. induction IH as [|[k v] r Hv _ IHr]; [done|]. simpl in *.
    apply andb_prop in H as [H1 H2]. unfold field_clean in H1. simpl in H1. apply andb_prop in H1 as [Hk Hv'].
    apply negb_true_iff in Hk. rewrite Hk. simpl in Hv. rewrite Hv by done. f_equal. by apply IHr.
Qed.

Lemma strip_other_fields k m :
  k <> "citations" -> field k (strip_fields m) = strip_vacuous_citation_fields <$> field k m.
Proof.
  intros Hk. induction m as [|[k' v] r IH]; [done|]. simpl.
  destruct (is_vacuous_citations k' v) eqn:E.
  - unfold is_vacuous_citations in E. apply andb_prop in E as [->%String.eqb_eq _].
    destruct (String.eqb_spec k "citations"); [done|]. apply IH.
  - simpl. destruct (String.eqb k k'); [done|]. apply IH.
Qed.

(** Before a tool call or a tool result is shown, empty [citations] arrays
    are removed at every depth, and nothing else changes: a value that has none
    stays as it is and every other field of an object keeps its (stripped)
    value. *)
Theorem strip_vacuous_exact (v : json) :
  no_vacuous (strip_vacuous_citation_fields v) = true /\
  (no_vacuous v = true -> strip_vacuous_citation_fields v = v) /\
  (forall m k, v = JObj m -> k <> "citations" ->
     jget k (strip_vacuous_citation_fields v) = strip_vacuous_citation_fields <$> jget k v).
Proof.
  split; [apply strip_no_vacuous|]. split; [apply strip_clean_id|].
  intros m k -> Hk. rewrite strip_vacuous_obj. by apply strip_other_fields.
Qed.

(** ** A projection as numbering plus pure rendering *)

(** What the archive holds under a ref, and the number of a history key. *)
Definition archived (t : RefTable) (r : ShortRef) : option RenderedContent := RefTable.content <$> RefTable_get t r.
Definition number_of (t : RefTable) (anchor src : string) : option Z :=
  history_stable_key_to_n t !! history_stable_key_parts anchor src.

(** Every archived content can be read. *)
Definition archive_readable (t : RefTable) : Prop :=
  forall r c, archived t r = Some c -> rendered_wf c.

Section Facts.
#[local] Set Default Proof Using "Type".
Context {regex : Type}.
Variable Regex_new : string -> result regex string.
Variable is_match : regex -> string -> bool.
Variable to_string to_string_pretty : json -> string.
Variable handler : ToolName -> option (json -> string).
Variable opts : ProjectionRenderOptions.

Notation render := (render_projection_content Regex_new is_match to_string to_string_pretty handler).
Notation project := (project_rows Regex_new is_match to_string to_string_pretty handler).
Notation item_rows := (project_projection_item_to_rows Regex_new is_match to_string to_string_pretty handler).

(** The rows that take a number: source, text and citations. *)
Definition numbered_text (item : PromptProjectionItem) : option (string * string * option (list string)) :=
  match pi_content item with
  | PMessage text citations =>
      if blank text || is_history_infrastructure_notice text then None
      else Some ("message", text, match citations with [] => None | _ => Some citations end)
  | PToolCall tool_name args0 =>
      let args := strip_vacuous_citation_fields args0 in
      let desc0 := describe_invocation_with_hint handler (Some tool_name) args in
      let desc := if blank desc0 && tool_call_fallback_json opts then to_string_pretty args else desc0 in
      if blank desc then None else Some ("tool_call", desc, None)
  | PPlanning plan => if blank (pp_summary plan) then None else Some ("plan", planning_body plan, None)
  | PCompactionSummary summary s e =>
      if blank summary then None else Some ("compaction", compaction_body summary s e, None)
  | _ => None
  end.

(** The archived result a completed Send replays into the table. *)
Definition seed_of (item : PromptProjectionItem) : option (ShortRef * ArchiveEntry) :=
  match pi_content item with
  | PSessionStep s =>
      match sp_op s with
      | PSendDone archive_ref _ =>
          payload ← send_done_replay_payload s;
          r ← ShortRef_parse archive_ref;
          let rendered := render_to_lines to_string payload in
          if RenderedContent_is_empty rendered then None
          else Some (r, ArchiveEntry_new rendered (sp_tool_name s)
                          (Some (sp_tool_name s +:+ " replayed result")) (pi_activity_anchor item) "tool_result")
      | _ => None
      end
  | _ => None
  end.

Definition seed (t : RefTable) (item : PromptProjectionItem) : RefTable :=
  match seed_of item with Some (r, e) => insert_virtual_archive_ref t r e | None => t end.

(** The rows that take no number. *)
Definition unnumbered_entry (t : RefTable) (rd : option ArchiveReader) (item : PromptProjectionItem)
    : outcome RenderedEntry :=
  match pi_content item with
  | PToolResult n v => tool_value_to_rendered_entry is_match to_string v n false (opt_tool_result opts)
  | PToolError n v => tool_value_to_rendered_entry is_match to_string v n true (opt_tool_error opts)
  | PSessionStep s =>
      match sp_op s with
      | PSearchRead a g o l => read_entry Regex_new is_match t rd s a (Some g) o l
      | PPageRead a o l => read_entry Regex_new is_match t rd s a None o l
      | _ => Done Filtered
      end
  | _ => Done Filtered
  end.

Lemma render_split item t rd :
  render item t rd opts =
  match numbered_text item with
  | Some (src, body, cits) => Done (numbered t item src body cits)
  | None => let! e := unnumbered_entry t rd item in Done (seed t item, e)
  end.
Proof.
  unfold render_projection_content, numbered_text, unnumbered_entry, seed, seed_of.
  destruct (pi_content item) as [| | | |s| |]; simpl; try (by case_match); try done.
  destruct (sp_op s); simpl; try done. unfold seed_send_done_replay_archive.
  destruct (send_done_replay_payload s); simpl; [|done].
  destruct (ShortRef_parse _); simpl; [|done]. by case_match.
Qed.

Lemma archived_insert_history t e c r : archived (RefTable_insert_history t e c).1 r = archived t r.
Proof. unfold RefTable_insert_history. simpl. by repeat case_match. Qed.

Lemma numbering_insert_history t e c :
  history_stable_key_to_n t ⊆ history_stable_key_to_n (RefTable_insert_history t e c).1 /\
  history_stable_key_to_n (RefTable_insert_history t e c).1 !! history_stable_key e =
    Some (RefTable_insert_history t e c).2.
Proof.
  unfold RefTable_insert_history. change (history_stable_key_parts _ _) with (history_stable_key e).
  destruct (history_stable_key_to_n t !! history_stable_key e) eqn:E; simpl.
  - by case_match.
  - split; [by apply insert_subseteq|]. by rewrite lookup_insert_eq.
Qed.

Lemma numbering_seed t item : history_stable_key_to_n (seed t item) = history_stable_key_to_n t.
Proof. unfold seed. destruct (seed_of item) as [[r e]|]; [|done]. unfold insert_virtual_archive_ref. by case_match. Qed.

Lemma archived_virtual t r e r' :
  archived (insert_virtual_archive_ref t r e) r' =
  if bool_decide (ShortRef_cell_key r = ShortRef_cell_key r') then Some (RefTable.content e) else archived t r'.
Proof.
  unfold insert_virtual_archive_ref, archived, RefTable_get.
  destruct (prefix r =? 1)%Z; simpl; case_bool_decide as E.
  all: first [rewrite E, lookup_insert_eq|rewrite lookup_insert_ne by done]; done.
Qed.

(** The ref an explicit read asks for. *)
Definition read_ref (item : PromptProjectionItem) : option ShortRef :=
  match pi_content item with
  | PSessionStep s =>
      match sp_op s with
      | PSearchRead a _ _ _ | PPageRead a _ _ => ShortRef_parse_loose a
      | _ => None
      end
  | _ => None
  end.

(** A reader that depends on what the archive holds under the ref and on
    nothing else of the table. *)
Definition reader_ext (rd : option ArchiveReader) : Prop :=
  forall r t u a g o l, rd = Some r ->
    (forall x, ShortRef_parse_loose a = Some x -> archived t x = archived u x) -> r t a g o l = r u a g o l.

Lemma vtable_read_ext t u a g o l :
  (forall x, ShortRef_parse_loose a = Some x -> archived t x = archived u x) ->
  format_session_read_from_vtable Regex_new is_match t a g o l =
  format_session_read_from_vtable Regex_new is_match u a g o l.
Proof.
  intros Heq. unfold format_session_read_from_vtable. destruct (ShortRef_parse_loose a) as [r|]; [simpl|done].
  specialize (Heq r eq_refl). unfold archived in Heq.
  by destruct (RefTable_get t r), (RefTable_get u r); simplify_eq/=; rewrite ?Heq.
Qed.

Lemma unnumbered_ext t u rd item :
  reader_ext rd -> (forall x, read_ref item = Some x -> archived t x = archived u x) ->
  unnumbered_entry t rd item = unnumbered_entry u rd item.
Proof.
  intros Hrd Heq. unfold unnumbered_entry, read_ref in *. destruct (pi_content item) as [| | | |s| |]; try done.
  assert (forall a g o l, (forall x, ShortRef_parse_loose a = Some x -> archived t x = archived u x) ->
    read_entry Regex_new is_match t rd s a g o l = read_entry Regex_new is_match u rd s a g o l)
    as Hread; [|destruct (sp_op s); by auto].
  intros a g o l Ha. unfold read_entry. rewrite (vtable_read_ext t u) by done.
  destruct (read_replay_lines s) as [[|]|]; try done.
  all: destruct (format_session_read_from_vtable Regex_new is_match u a g o l) as [[|]|]; try done; simpl.
  all: destruct rd as [r|]; [|done]; by rewrite (Hrd r t u a g o l).
Qed.

(** *** Append-only *)

(** Two tables that agree on the archive stay in agreement when both take the
    same replayed result. *)
Lemma archived_seed t u item x : archived t x = archived u x -> archived (seed t item) x = archived (seed u item) x.
Proof.
  intros Heq. unfold seed. destruct (seed_of item) as [[r e]|]; [|done]. rewrite !archived_virtual. by case_bool_decide.
Qed.

Definition rows_of (item : PromptProjectionItem) (e : RenderedEntry) : list ProjectedHistoryRow :=
  match e with Filtered => [] | One c cits => [mkRow (pi_role item) c cits] end.

Lemma item_rows_split item t rd :
  item_rows item t rd opts =
  match numbered_text item with
  | Some (src, body, cits) =>
      let (t', n) := RefTable_insert_history t (mkHistoryEntry (pi_activity_anchor item) src) body in
      Done (t', [mkRow (pi_role item) (HistoryRef_display n +:+ " " +:+ body) cits])
  | None => let! e := unnumbered_entry t rd item in Done (seed t item, rows_of item e)
  end.
Proof.
  unfold project_projection_item_to_rows. rewrite render_split.
  destruct (numbered_text item) as [[[src body] cits]|]; simpl.
  - unfold numbered. by destruct (RefTable_insert_history _ _ _).
  - destruct (unnumbered_entry t rd item) as [[|]|]; done.
Qed.

Lemma item_rows_numbering item t rd t1 rows :
  item_rows item t rd opts = Done (t1, rows) -> history_stable_key_to_n t ⊆ history_stable_key_to_n t1.
Proof.
  rewrite item_rows_split. destruct (numbered_text item) as [[[src body] cits]|].
  - pose proof (numbering_insert_history t (mkHistoryEntry (pi_activity_anchor item) src) body) as [H _].
    destruct (RefTable_insert_history _ _ _) as [t' n]. by intros [= <- _].
  - destruct (unnumbered_entry t rd item); simpl; [|done]. intros [= <- _]. by rewrite numbering_seed.
Qed.

Lemma project_numbering items t rd t1 rows :
  project items t rd opts = Done (t1, rows) -> history_stable_key_to_n t ⊆ history_stable_key_to_n t1.
Proof.
  revert t t1 rows. induction items as [|item items IH]; simpl; intros t t1 rows; [by intros [= <- _]|].
  destruct (item_rows item t rd opts) as [[ta ra]|] eqn:E; simpl; [|done].
  destruct (project items ta rd opts) as [[tb rb]|] eqn:E2; simpl; [|done]. intros [= <- _].
  etrans; [by eapply item_rows_numbering|by eapply IH].
Qed.

(** One item on two tables that agree on its number and on what it reads. *)
Lemma item_rows_replay item t rd t1 rows u :
  reader_ext rd -> item_rows item t rd opts = Done (t1, rows) ->
  history_stable_key_to_n t1 ⊆ history_stable_key_to_n u ->
  (forall x, read_ref item = Some x -> archived u x = archived t x) ->
  exists u1, item_rows item u rd opts = Done (u1, rows) /\
    history_stable_key_to_n u ⊆ history_stable_key_to_n u1 /\
    (forall x, archived u x = archived t x -> archived u1 x = archived t1 x).
Proof.
  intros Hrd Hi Hn Ha. revert Hi. rewrite !item_rows_split.
  destruct (numbered_text item) as [[[src body] cits]|] eqn:En.
  - set (e := mkHistoryEntry (pi_activity_anchor item) src).
    pose proof (numbering_insert_history t e body) as [_ Ht].
    pose proof (numbering_insert_history u e body) as [Hsub Hu].
    pose proof (archived_insert_history t e body) as Hat. pose proof (archived_insert_history u e body) as Hau.
    destruct (RefTable_insert_history t e body) as [t' n], (RefTable_insert_history u e body) as [u' m]. simpl in *.
    intros [= <- <-]. exists u'.
    pose proof (lookup_weaken _ _ _ _ Ht (transitivity Hn Hsub)) as Hm. rewrite Hu in Hm. injection Hm as ->.
    split_and!; [done|done|]. intros x. by rewrite Hau, Hat.
  - rewrite (unnumbered_ext u t) by done. destruct (unnumbered_entry t rd item) as [e|]; simpl; [|done].
    intros [= <- <-]. exists (seed u item). split_and!; [done|by rewrite numbering_seed|].
    intros x Hx. by apply archived_seed.
Qed.

Definition same_reads (t u : RefTable) (items : list PromptProjectionItem) : Prop :=
  Forall (fun item => forall x, read_ref item = Some x -> archived u x = archived t x) items.

Lemma project_replay items t rd t1 rows u :
  reader_ext rd -> project items t rd opts = Done (t1, rows) ->
  history_stable_key_to_n t1 ⊆ history_stable_key_to_n u -> same_reads t u items ->
  exists u1, project items u rd opts = Done (u1, rows) /\ history_stable_key_to_n u ⊆ history_stable_key_to_n u1.
Proof.
  intros Hrd. revert t t1 rows u. induction items as [|item items IH]; simpl; intros t t1 rows u Hp Hn Ha.
  - injection Hp as <- <-. exists u. done.
  - destruct (item_rows item t rd opts) as [[ta ra]|] eqn:E; simpl in Hp; [|done].
    destruct (project items ta rd opts) as [[tb rb]|] eqn:E2; simpl in Hp; [|done]. injection Hp as <- <-.
    apply Forall_cons in Ha as [Ha1 Ha2]. pose proof (project_numbering _ _ _ _ _ E2) as Hab.
    destruct (item_rows_replay item t rd ta ra u) as (ua & Hr1 & Hr2 & Hr3); [done|done|by etrans|done|].
    destruct (IH ta tb rb ua) as (ub & Hb1 & Hb2); [done|by etrans| |].
    { eapply Forall_impl; [exact Ha2|]. simpl. auto. }
    exists ub. rewrite Hr1. simpl. rewrite Hb1. simpl. split; [done|by etrans].
Qed.

Lemma project_app items more t rd :
  project (items ++ more) t rd opts =
  let! (t1, rows) := project items t rd opts in
  let! (t2, rows') := project more t1 rd opts in Done (t2, rows ++ rows').
Proof.
  revert t. induction items as [|item items IH]; simpl; intros t.
  - by destruct (project more t rd opts) as [[]|].
  - destruct (item_rows item t rd opts) as [[ta ra]|]; simpl; [|done]. rewrite IH.
    destruct (project items ta rd opts) as [[tb rb]|]; simpl; [|done].
    destruct (project more tb rd opts) as [[tc rc]|]; simpl; [|done]. by rewrite app_assoc.
Qed.

(** *** No panic *)

(** The texts of an item are UTF-8, as every Rust string is. *)
Definition item_utf8 (item : PromptProjectionItem) : Prop :=
  match pi_content item with
  | PToolResult _ v | PToolError _ v =>
      Forall (fun l => valid_utf8 l = true) (render_lines to_string (strip_vacuous_citation_fields v))
  | PSessionStep s =>
      (forall v, send_done_replay_payload s = Some v -> Forall (fun l => valid_utf8 l = true) (render_lines to_string v)) /\
      (forall ls, read_replay_lines s = Some ls -> Forall (fun l => valid_utf8 l = true) ls)
  | _ => True
  end.

Definition reader_total (rd : option ArchiveReader) : Prop :=
  forall r t a g o l, rd = Some r -> archive_readable t -> exists out, r t a g o l = Done out.

Lemma rendered_wf_from_lines ls : Forall (fun l => valid_utf8 l = true) ls -> rendered_wf (RenderedContent_from_lines ls).
Proof. intros H. by exists ls. Qed.

Lemma grep_paginate_total c g o l : rendered_wf c -> exists page, grep_paginate is_match c g o l = Done page.
Proof. intros (ls & Hl)%rendered_wf_lines. eexists. by rewrite (grep_paginate_lines _ _ _ _ _ ls). Qed.

Lemma session_body_total c a g o l :
  rendered_wf c -> exists s, format_session_read_body_from_rendered Regex_new is_match c a g o l = Done s.
Proof.
  intros Hc. unfold format_session_read_body_from_rendered.
  match goal with |- context [grep_paginate is_match c ?g ?o ?l] => destruct (grep_paginate_total c g o l Hc) as [page ->] end.
  eexists. done.
Qed.

Lemma vtable_read_total t a g o l :
  archive_readable t -> exists out, format_session_read_from_vtable Regex_new is_match t a g o l = Done out.
Proof.
  intros Hr. unfold format_session_read_from_vtable. destruct (ShortRef_parse_loose a) as [r|]; simpl; [|by eexists].
  destruct (RefTable_get t r) as [e|] eqn:E; simpl; [|by eexists].
  assert (rendered_wf (RefTable.content e)) as Hwf by (apply (Hr r); unfold archived; by rewrite E).
  destruct (session_body_total (RefTable.content e) a g o (PageLimit_new l) Hwf) as [s ->]. simpl. eauto.
Qed.

Lemma unnumbered_total t rd item :
  archive_readable t -> reader_total rd -> item_utf8 item -> exists e, unnumbered_entry t rd item = Done e.
Proof.
  intros Hr Hrd Hu. unfold unnumbered_entry, item_utf8 in *. destruct (pi_content item) as [| | n v|n v|s| |]; try by eexists.
  1,2: unfold tool_value_to_rendered_entry; destruct (is_status_only v); [by eexists|];
    apply rendered_wf_from_lines in Hu; unfold render_to_lines;
    match goal with |- context [grep_paginate is_match ?c ?g ?o ?l] => destruct (grep_paginate_total c g o l Hu) as [page ->] end;
    simpl; repeat case_match; by eexists.
  assert (forall a g o l, exists e, read_entry Regex_new is_match t rd s a g o l = Done e) as Hread;
    [|destruct (sp_op s); eauto].
  intros a g o l. unfold read_entry. destruct Hu as [_ Hu].
  destruct (read_replay_lines s) as [[|x xs]|] eqn:E.
  2: { specialize (Hu _ eq_refl). assert (rendered_wf (RenderedContent_from_lines
         (List.filter (fun l => negb (is_empty_str l)) (x :: xs)))) as Hwf.
       { apply rendered_wf_from_lines. apply List.Forall_forall. intros y [Hy _]%List.filter_In.
         rewrite List.Forall_forall in Hu. by apply Hu. }
       destruct (session_body_total _ a g o (PageLimit_new l) Hwf) as [out ->]. simpl. eauto. }
  all: destruct (vtable_read_total t a g o l Hr) as [[out|] ->]; simpl; eauto.
  all: destruct rd as [r|]; simpl; [|by eexists].
  all: destruct (Hrd r t a g o l eq_refl Hr) as [[out|] ->]; simpl; eauto.
Qed.

Lemma readable_seed t item : archive_readable t -> item_utf8 item -> archive_readable (seed t item).
Proof.
  intros Hr Hu r c. unfold seed, seed_of, item_utf8 in *.
  destruct (pi_content item) as [| | | |s| |]; try apply Hr.
  destruct (sp_op s); try apply Hr.
  destruct (send_done_replay_payload s) as [v|]; simpl; [|apply Hr].
  destruct (ShortRef_parse _) as [r'|]; simpl; [|apply Hr].
  destruct (RenderedContent_is_empty _); [apply Hr|]. rewrite archived_virtual.
  case_bool_decide; [|apply Hr]. intros [= <-]. by apply rendered_wf_from_lines, (proj1 Hu).
Qed.

Lemma project_total items t rd :
  archive_readable t -> reader_total rd -> Forall item_utf8 items ->
  exists t' rows, project items t rd opts = Done (t', rows) /\ archive_readable t'.
Proof.
  intros Hr Hrd Hi. revert t Hr. induction Hi as [|item items Hu _ IH]; intros t Hr; simpl; [by eexists _, _|].
  rewrite item_rows_split. destruct (numbered_text item) as [[[src body] cits]|].
  - pose proof (archived_insert_history t (mkHistoryEntry (pi_activity_anchor item) src) body) as Ha.
    destruct (RefTable_insert_history _ _ _) as [ta n]. simpl in *.
    destruct (IH ta) as (t' & rows & -> & Hr'); [intros r c; rewrite Ha; apply Hr|]. simpl. eauto.
  - destruct (unnumbered_total t rd item) as [e ->]; try done. simpl.
    destruct (IH (seed t item)) as (t' & rows & -> & Hr'); [by apply readable_seed|]. simpl. eauto.
Qed.

(** *** Numbers resolve to what the row says *)

(** Anchors carry no NUL, so the key of a history entry determines it. *)
Definition plain (anchor : string) : Prop := contains_char "000" anchor = false.

Record hist_inv (t : RefTable) : Prop := {
  hi_refs : refs_inv t;
  hi_plain : forall n e, history t !! n = Some e -> plain (RefTable.activity_anchor e);
}.

Lemma stable_key_inj e e' :
  plain (RefTable.activity_anchor e) -> plain (RefTable.activity_anchor e') ->
  history_stable_key e = history_stable_key e' -> e = e'.
Proof.
  intros H1 H2 Heq. unfold history_stable_key, history_stable_key_parts in Heq.
  pose proof (split_once_app "000" _ (source e) H1) as S1. pose proof (split_once_app "000" _ (source e') H2) as S2.
  rewrite Heq, S2 in S1. destruct e, e'. simpl in *. by simplify_eq.
Qed.

(** The row of history number [n] as a citation of it resolves. *)
Definition resolves (t : RefTable) (n : Z) (anchor src body : string) : Prop :=
  RefTable_history_row t n = Some (mkVHRow anchor src body).

Lemma resolves_iff t n a s b :
  resolves t n a s b <-> history t !! n = Some (mkHistoryEntry a s) /\ history_text_by_activity t !! a = Some b.
Proof.
  unfold resolves, RefTable_history_row, RefTable_get_history, history_text_for_activity.
  destruct (history t !! n) as [[a' s']|]; simpl; [|by split; [|intros [? _]]].
  split.
  - destruct (history_text_by_activity t !! a') eqn:E; simpl; [|done]. by intros [= <- <- <-].
  - intros [[= <- <-] H2]. by rewrite H2.
Qed.

(** What one [insert_history] does to a table whose counter has room. *)
Lemma insert_history_effect t e c :
  hist_inv t -> plain (RefTable.activity_anchor e) -> (next t < u32_max)%Z ->
  let t' := (RefTable_insert_history t e c).1 in
  let n := (RefTable_insert_history t e c).2 in
  hist_inv t' /\ (next t' <= next t + 1)%Z /\ history t ⊆ history t' /\ history t' !! n = Some e /\
  history_text_by_activity t' = <[RefTable.activity_anchor e := c]> (history_text_by_activity t).
Proof.
  intros [Hinv Hpl] Hp Hn. simpl.
  assert (refs_inv (RefTable_insert_history t e c).1) as Hinv' by (by eapply steady_step_inv; [|by apply steady_insert_history]).
  destruct (history_stable_key_to_n t !! history_stable_key e) as [n|] eqn:E.
  - rewrite (insert_history_existing _ _ _ n) in Hinv' |- * by done. simpl in *.
    destruct (inv_stable _ Hinv _ _ E) as (e' & He' & Hk).
    rewrite (stable_key_inj e' e) in He' by (try done; by eapply Hpl).
    split_and!; [by split|lia|done|done|done].
  - rewrite insert_history_fresh in Hinv' |- * by done. simpl in *. rewrite wrap32_succ in * by done.
    pose proof (history_next_free t Hinv). split_and!; [|lia|by apply insert_subseteq|apply lookup_insert_eq|done].
    split; [done|]. simpl. intros n e'. rewrite lookup_insert_Some. intros [[_ <-]|[_ H']]; [done|by eapply Hpl].
Qed.

Definition seeds_below (b : Z) (item : PromptProjectionItem) : Prop :=
  forall r e, seed_of item = Some (r, e) -> (local r < b)%Z.

Lemma seed_effect t item b :
  hist_inv t -> seeds_below b item -> (next t <= b <= u32_max)%Z ->
  hist_inv (seed t item) /\ (next (seed t item) <= b)%Z /\ history (seed t item) = history t /\
  history_text_by_activity (seed t item) = history_text_by_activity t.
Proof.
  intros [Hinv Hpl] Hs Hb. unfold seed. destruct (seed_of item) as [[r e]|] eqn:E; [|by split_and!; [split|lia|..]].
  assert (ShortRef_wf r) as Hwf.
  { unfold seed_of in E. destruct (pi_content item) as [| | | |s| |]; try done. destruct (sp_op s); try done.
    destruct (send_done_replay_payload s); simpl in E; [|done].
    destruct (ShortRef_parse _) eqn:E2; simpl in E; [|done]. case_match; [done|]. injection E as <- _.
    by eapply ShortRef_parse_wf. }
  specialize (Hs r e E).
  assert (refs_inv (insert_virtual_archive_ref t r e)) as Hinv'
    by (eapply steady_step_inv; [done|apply steady_virtual_archive_ref; [done|lia]]).
  unfold insert_virtual_archive_ref in *. destruct (prefix r =? 1)%Z; simpl in *; split_and!; try done; try (by split); try lia.
  unfold sat_add. lia.
Qed.

Lemma item_rows_effect item t rd t1 rows b :
  hist_inv t -> seeds_below b item -> plain (pi_activity_anchor item) -> (next t <= b < u32_max)%Z ->
  item_rows item t rd opts = Done (t1, rows) ->
  hist_inv t1 /\ (next t1 <= b + 1)%Z /\ history t ⊆ history t1 /\
  (numbered_text item = None -> history_text_by_activity t1 = history_text_by_activity t) /\
  (forall src body cits, numbered_text item = Some (src, body, cits) ->
     history_text_by_activity t1 = <[pi_activity_anchor item := body]> (history_text_by_activity t) /\
  exists n, rows = [mkRow (pi_role item) (HistoryRef_display n +:+ " " +:+ body) cits] /\
  history t1 !! n = Some (mkHistoryEntry (pi_activity_anchor item) src)).
Proof.
  intros Hinv Hs Hp Hb. rewrite item_rows_split. destruct (numbered_text item) as [[[src body] cits]|].
  - destruct (insert_history_effect t (mkHistoryEntry (pi_activity_anchor item) src) body) as (H1 & H2 & H3 & H4 & H5);
      [done|done|lia|]. destruct (RefTable_insert_history _ _ _) as [t' n]. simpl in *.
    intros [= <- <-]. split_and!; [done|lia|done|done|]. intros ? ? ? [= <- <- <-]. eauto.
  - destruct (unnumbered_entry t rd item); simpl; [|done]. intros [= <- <-].
    destruct (seed_effect t item b) as (H1 & H2 & H3 & H4); [done|done|lia|].
    split_and!; [done|lia|by rewrite H3|done|done].
Qed.

Definition unnumbered_at (anchor : string) (item : PromptProjectionItem) : Prop :=
  numbered_text item = None \/ pi_activity_anchor item <> anchor.

(** The text of an activity after more rows: the last numbered row of it wins. *)
Fixpoint last_text (anchor body : string) (items : list PromptProjectionItem) : string :=
  match items with
  | [] => body
  | i :: items =>
      last_text anchor
        (match numbered_text i with
         | Some (_, c, _) => if decide (pi_activity_anchor i = anchor) then c else body
         | None => body
         end) items
  end.

Lemma project_effect items t rd t1 rows b :
  hist_inv t -> Forall (seeds_below b) items -> Forall (fun i => plain (pi_activity_anchor i)) items ->
  (next t <= b)%Z -> (b + Z.of_nat (length items) <= u32_max)%Z ->
  project items t rd opts = Done (t1, rows) ->
  hist_inv t1 /\ (next t1 <= b + Z.of_nat (length items))%Z /\
  (forall n a s c, resolves t n a s c -> resolves t1 n a s (last_text a c items)).
Proof.
  revert t t1 rows b. induction items as [|item items IH]; simpl; intros t t1 rows b Hinv Hs Hp Hb Hc.
  { intros [= <- _]. split_and!; [done|lia|done]. }
  apply Forall_cons in Hs as [Hs1 Hs2]. apply Forall_cons in Hp as [Hp1 Hp2].
  destruct (item_rows item t rd opts) as [[ta ra]|] eqn:E; simpl; [|done].
  destruct (project items ta rd opts) as [[tb rb]|] eqn:E2; simpl; [|done]. intros [= <- _].
  destruct (item_rows_effect item t rd ta ra b) as (H1 & H2 & H3 & H4 & H5); [done..|lia|done|].
  destruct (IH ta tb rb (b + 1)%Z) as (I1 & I2 & I3); [done| |done|lia|lia|done|].
  { eapply Forall_impl; [exact Hs2|]. intros i Hi r e He. specialize (Hi r e He). lia. }
  split_and!; [done|lia|]. intros n a s c Hr. apply I3.
  rewrite resolves_iff in *. destruct Hr as [Hr1 Hr2]. split; [by eapply lookup_weaken|].
  destruct (numbered_text item) as [[[src body] cits]|] eqn:En; [|by rewrite H4].
  destruct (H5 src body cits eq_refl) as [-> _]. case_decide as Ha; [by rewrite Ha, lookup_insert_eq|].
  by rewrite lookup_insert_ne.
Qed.

Lemma last_text_alone anchor body items : Forall (unnumbered_at anchor) items -> last_text anchor body items = body.
Proof.
  induction 1 as [|i items Hi _ IH]; [done|]. simpl. destruct Hi as [-> |Hi]; [done|].
  destruct (numbered_text i) as [[[src c] cits]|]; [by rewrite decide_False|done].
Qed.

End Facts.

(** ** Theorems *)

Lemma join_app_starts sep l1 l2 : starts_with (join sep l1) (join sep (l1 ++ l2)) = true.
Proof.
  apply starts_with_spec. induction l1 as [|x l1 IH]; [simpl; by eexists|]. destruct IH as [r Hr].
  destruct l1 as [|y l1].
  - destruct l2 as [|z l2]; [exists EmptyString; simpl; by rewrite str_app_nil_r|].
    exists (sep +:+ join sep (z :: l2)). simpl. done.
  - exists r. rewrite (join_cons sep x (y :: l1)) by done. cbn [app]. rewrite join_cons by done.
    cbn [app] in Hr. rewrite Hr. by rewrite !str_app_assoc.
Qed.

Section Theorems.
Context {regex : Type}.
Variable Regex_new : string -> result regex string.
Variable is_match : regex -> string -> bool.
Variable to_string to_string_pretty : json -> string.
Variable handler : ToolName -> option (json -> string).

Notation prompt := (project_prompt_context Regex_new is_match to_string to_string_pretty handler).

(** A later projection of more items, with any table that keeps the numbers of
    the first run and holds what it held under the refs that [items] read,
    starts with the rows of the first. *)
Lemma prompt_extends rd items more t t1 u rows :
  reader_ext rd -> reader_total rd ->
  prompt items t rd = Done (t1, JArr rows) ->
  history_stable_key_to_n t1 ⊆ history_stable_key_to_n u -> same_reads t u items ->
  archive_readable u -> Forall (item_utf8 to_string) (items ++ more) ->
  exists u1 rows',
    prompt (items ++ more) u rd = Done (u1, JArr (rows ++ rows')) /\
    starts_with (format_conversation_history_transcript to_string rows)
      (format_conversation_history_transcript to_string (rows ++ rows')) = true.
Proof.
  intros Hext Htot Hp Hn Ha Hr Hu. unfold project_prompt_context in *.
  destruct (project_rows _ _ _ _ _ items t rd _) as [[t' rs]|] eqn:E; simpl in Hp; [|done]. injection Hp as <- <-.
  destruct (project_replay Regex_new is_match to_string to_string_pretty handler _ items t rd t' rs u Hext E Hn Ha)
    as (u1 & Hu1 & _).
  destruct (project_total Regex_new is_match to_string to_string_pretty handler ProjectionRenderOptions_default
    (items ++ more) u rd Hr Htot Hu) as (u2 & rs2 & H2 & _).
  revert H2. rewrite project_app, Hu1. simpl.
  destruct (project_rows _ _ _ _ _ more u1 rd _) as [[u3 rs3]|]; simpl; [|done]. intros _.
  eexists u3, _. rewrite fmap_app. split; [done|].
  unfold format_conversation_history_transcript. rewrite omap_app. apply join_app_starts.
Qed.

(** C21: The number in front of a row is a number a citation resolves.  After a
    projection of rows whose anchors carry no NUL, into a table with room for
    them (no archive reference among the rows is numbered above it), the row of a message, tool call, plan event or summary reads [#N text],
    and looking [N] up in the table gives that row's activity and source, with the
    text of the last numbered row of the same activity: that row's own text when
    no later numbered row shares its activity, the later one's otherwise
    ([shared_activity_shares_text]). *)
Theorem projected_refs_resolve opts rd pre item post t t1 rows b src body cits :
  hist_inv t -> Forall (seeds_below to_string b) (pre ++ item :: post) ->
  Forall (fun i => plain (pi_activity_anchor i)) (pre ++ item :: post) ->
  (next t <= b)%Z -> (b + Z.of_nat (length (pre ++ item :: post)) <= u32_max)%Z ->
  numbered_text to_string_pretty handler opts item = Some (src, body, cits) ->
  project_rows Regex_new is_match to_string to_string_pretty handler (pre ++ item :: post) t rd opts = Done (t1, rows) ->
  exists n, mkRow (pi_role item) (HistoryRef_display n +:+ " " +:+ body) cits ∈ rows /\
    resolves t1 n (pi_activity_anchor item) src
      (last_text to_string_pretty handler opts (pi_activity_anchor item) body post) /\
    (Forall (unnumbered_at to_string_pretty handler opts (pi_activity_anchor item)) post ->
     resolves t1 n (pi_activity_anchor item) src body).
Proof.
  intros Hinv Hs Hp Hb Hc Hnum Hrun.
  apply Forall_app in Hs as [Hs1 [Hs2 Hs3]%Forall_cons]. apply Forall_app in Hp as [Hp1 [Hp2 Hp3]%Forall_cons].
  rewrite length_app in Hc. simpl in Hc. rewrite project_app in Hrun.
  destruct (project_rows _ _ _ _ _ pre t rd opts) as [[ta ra]|] eqn:E1; simpl in Hrun; [|done].
  destruct (project_projection_item_to_rows _ _ _ _ _ item ta rd opts) as [[tb rb]|] eqn:E2; simpl in Hrun; [|done].
  destruct (project_rows _ _ _ _ _ post tb rd opts) as [[tc rc]|] eqn:E3; simpl in Hrun; [|done]. injection Hrun as <- <-.
  destruct (project_effect Regex_new is_match to_string to_string_pretty handler opts pre t rd ta ra b)
    as (I1 & I2 & _); [done..|lia|done|].
  edestruct (item_rows_effect Regex_new is_match to_string to_string_pretty handler opts item ta rd tb rb
    (b + Z.of_nat (length pre))) as (J1 & J2 & _ & _ & J5); [done| |done|lia|done|].
  { intros r e He. specialize (Hs2 r e He). lia. }
  destruct (J5 _ _ _ Hnum) as (Htext & n & -> & Hn). exists n. split; [set_solver|].
  edestruct (project_effect Regex_new is_match to_string to_string_pretty handler opts post tb rd tc rc
    (b + Z.of_nat (length pre) + 1)%Z) as (_ & _ & K); [done| |done|lia|lia|done|].
  { eapply Forall_impl; [exact Hs3|]. intros i Hi r e He. specialize (Hi r e He). lia. }
  assert (resolves tc n (pi_activity_anchor item) src
            (last_text to_string_pretty handler opts (pi_activity_anchor item) body post)) as Hres.
  { apply K, resolves_iff. split; [done|]. by rewrite Htext, lookup_insert_eq. }
  split; [done|]. intros Hpost. by rewrite last_text_alone in Hres.
Qed.

End Theorems.

(** ** Instances and runs *)

(** The reader of the context provider: the table that is being projected into. *)
Definition table_reader {regex} (Regex_new : string -> result regex string) (is_match : regex -> string -> bool)
    : ArchiveReader :=
  fun t a g o l => format_session_read_from_vtable Regex_new is_match t a g o l.

Lemma table_reader_lawful {regex} (Regex_new : string -> result regex string) (is_match : regex -> string -> bool) :
  reader_ext (Some (table_reader Regex_new is_match)) /\ reader_total (Some (table_reader Regex_new is_match)).
Proof.
  split.
  - intros r t u a g o l [= <-] Heq. by apply vtable_read_ext.
  - intros r t a g o l [= <-] Hr. by apply vtable_read_total.
Qed.

(** A conversation: a message, a completed Send with its result, a page of it,
    and later a second message. *)
Definition demo_items : list PromptProjectionItem :=
  [mkProjectionItem 1 "evt-1" "user" (PMessage "hello" []);
   mkProjectionItem 2 "evt-2" "tool"
     (PSessionStep (mkStepPayload "support/notes" (PSendDone "@8" "") (Some (JStr "two pages")) None));
   mkProjectionItem 3 "evt-3" "tool" (PSessionStep (mkStepPayload "support/notes" (PPageRead "@8" 0 20) None None))].
Definition demo_more : list PromptProjectionItem :=
  [mkProjectionItem 4 "evt-4" "assistant" (PMessage "done" ["#1"; "@8"])].

Definition no_regex (s : string) : result unit string := Err s.
Definition no_handler (t : ToolName) : option (json -> string) := None.

(** The table a rebuild leaves for the first turn: the archived result is there. *)
Definition demo_table : RefTable :=
  insert_virtual_archive_ref RefTable_new (ShortRef_new 8)
    (ArchiveEntry_new (render_to_lines (fun _ => "") (JStr "two pages")) "support/notes" None "evt-2" "tool_result").

Notation demo_prompt := (project_prompt_context no_regex (fun _ _ => false) (fun _ => "") (fun _ => "") no_handler).
Notation demo_reader := (Some (table_reader no_regex (fun _ _ => false))).

Lemma demo_turn :
  exists t1, demo_prompt demo_items demo_table demo_reader =
    Done (t1, JArr [JObj [("role", JStr "user"); ("content", JStr "#9 hello")];
                    JObj [("role", JStr "tool"); ("content", JStr ("cat -n @8" +:+ nl_str +:+ "     1" +:+ String tab "two pages"))]]).
Proof. eexists. vm_compute. reflexivity. Qed.

Lemma hist_inv_new : hist_inv RefTable_new.
Proof. split; [apply refs_inv_new|]. intros n e. simpl. by rewrite lookup_empty. Qed.

Lemma projected_refs_resolve_witness :
  exists t1 rows n, project_rows no_regex (fun _ _ => false) (fun _ => "") (fun _ => "") no_handler
      (demo_items ++ demo_more) RefTable_new None ProjectionRenderOptions_default = Done (t1, rows) /\
    mkRow "user" (HistoryRef_display n +:+ " " +:+ "hello") None ∈ rows /\
    resolves t1 n "evt-1" "message" "hello".
Proof.
  destruct (project_total no_regex (fun _ _ => false) (fun _ => "") (fun _ => "") no_handler
    ProjectionRenderOptions_default (demo_items ++ demo_more) RefTable_new None) as (t1 & rows & H & _).
  - intros r c. unfold archived, RefTable_get. simpl. by rewrite lookup_empty.
  - done.
  - repeat (apply Forall_cons; split); try done; simpl.
    split; [intros v [= <-]; by repeat constructor|done].
  - exists t1, rows.
    destruct (projected_refs_resolve no_regex (fun _ _ => false) (fun _ => "") (fun _ => "") no_handler
      ProjectionRenderOptions_default None [] (mkProjectionItem 1 "evt-1" "user" (PMessage "hello" []))
      (tail demo_items ++ demo_more) RefTable_new t1 rows 100 "message" "hello" None) as (n & H1 & _ & H2).
    + exact hist_inv_new.
    + repeat (apply Forall_cons; split); try done; intros r e; vm_compute; try done. by intros [= <- <-].
    + by repeat constructor.
    + done.
    + done.
    + reflexivity.
    + exact H.
    + exists n. split; [exact H|]. split; [exact H1|]. apply H2. repeat (apply Forall_cons; split); try done; by right.
Defined.

(** Two rows of one activity have numbers of their own but share one text: the
    number of the message resolves to the text of the tool call. *)
Lemma shared_activity_shares_text :
  exists t1 rows,
    project_rows no_regex (fun _ _ => false) (fun _ => "") (fun _ => "{}") no_handler
      [mkProjectionItem 1 "evt-1" "assistant" (PMessage "hello" []);
       mkProjectionItem 2 "evt-1" "tool" (PToolCall "support/notes" (JObj []))]
      RefTable_new None episode_session_history_projection_options = Done (t1, rows) /\
    rows = [mkRow "assistant" "#1 hello" None; mkRow "tool" "#2 {}" None] /\
    resolves t1 1 "evt-1" "message" "{}" /\ resolves t1 2 "evt-1" "tool_call" "{}".
Proof. eexists _, _. vm_compute. by split_and!. Qed.
