(* ===== verification/ConversationView.v ===== *)
(** * The conversation view

    [baml-rt-conversation]: the typed rows of a conversation ([view.rs],
    [operational.rs], [planning.rs]), which of them reach an agent
    ([is_meaningful]), who speaks in them, and their conversion into the items
    of [PromptProjection] ([projection.rs]).  [Compaction] selects among these
    rows. *)

From stdpp Require Import base list strings gmap.
From Stdlib Require Import ZArith Lia Ascii.
From S2P Require Import Prelude RustStr ArchiveRead RefTable Json Ids Errors ToolNames Render PromptProjection.

Open Scope string_scope.
Open Scope list_scope.

(** ** Rows *)

(** [bus.rs]: one operation within a tool session. *)
Inductive SessionStepOp :=
| StepOpen
| StepSendDone (archive_ref header informed_by : string)
| StepSearchRead (archive_ref grep : string) (offset limit : nat)
| StepPageRead (archive_ref : string) (offset limit : nat).

Inductive ToolSessionPhase :=
| Execute | PhOpen | PhSend | PhRead | PhNext | PhFinish | PhAbort | Unknown (label : string).

(** [operational.rs] *)
Inductive OperationalEventKind :=
| DispatchRejected | DispatchTransportError | DispatchAccepted | SourcePollRecorded
| LlmCallFailed | PromptRejected | TaskStatusChanged.

Inductive OperationalEventSeverity := Info | Warning | SevError.

Record OperationalEventContent := mkOperational {
  op_kind : OperationalEventKind;
  op_severity : OperationalEventSeverity;
  op_summary : string;
  op_detail : option string;
  op_agent_package : option string;
  op_agent_instance_id : option string;
  op_failure_class : option string;
  op_failure_evidence : option string;
  op_old_status : option string;
  op_new_status : option string
}.

Definition operational_is_meaningful (o : OperationalEventContent) : bool :=
  negb (is_empty_str (trim (op_summary o))).

(** [planning.rs] *)
Inductive PlanningEventKind :=
| IntentResolved | IntentRevised | PlanCommitted | PlanSuperseded | PlanStepStatusChanged.

Record PlanningEventContent := mkPlanning {
  pl_kind : PlanningEventKind;
  pl_summary : string;
  pl_detail : option string;
  pl_intent_id : option string;
  pl_plan_id : option string;
  pl_step_id : option string;
  pl_old_status : option string;
  pl_new_status : option string
}.

Definition planning_is_meaningful (p : PlanningEventContent) : bool :=
  negb (is_empty_str (trim (pl_summary p))).

(** [view.rs] *)
Record ToolCallContent := mkToolCall { tc_tool_name : string; tc_args : json; tc_fsm_phase : ToolSessionPhase }.

Inductive ToolOutcome := OutResult (v : json) | OutError (v : json) | StatusOnly.

Record ToolResultContent := mkToolResult {
  tr_tool_name : string; tr_fsm_phase : ToolSessionPhase; tr_outcome : ToolOutcome }.

Record SessionStepContent := mkSessionStep {
  ss_tool_name : string;
  ss_op : SessionStepOp;
  ss_send_done_replay_payload : option json;
  ss_read_replay_lines : option (list string)
}.

Inductive ConversationItemContent :=
| Message (text : string) (citations : list string)
| ToolCall (tc : ToolCallContent)
| ToolResult (tr : ToolResultContent)
| SessionStep (ss : SessionStepContent)
| Operational (o : OperationalEventContent)
| Planning (p : PlanningEventContent)
| CompactionSummary (summary : string) (covered_event_order_start covered_event_order_end : Z).

Inductive UserSpeakerKind := Human | Relay | Ingress.

(** [ProvenanceConversationContextItem] *)
Record item := mkItem {
  timestamp_ms : Z;
  activity_anchor : ActivityAnchorId;
  role : string;
  content : ConversationItemContent;
  user_speaker_kind : option UserSpeakerKind
}.

Definition source_name (i : item) : string :=
  match content i with
  | Message _ _ => "message"
  | ToolCall _ => "tool_call"
  | ToolResult _ => "tool_result"
  | SessionStep _ => "session_step"
  | Operational _ => "operational_event"
  | Planning _ => "planning_event"
  | CompactionSummary _ _ _ => "compaction_summary"
  end.

(** ** Phases *)

Definition is_session_phase (p : ToolSessionPhase) : bool :=
  match p with Execute | Unknown _ => false | _ => true end.

Definition phase_from_metadata (metadata : json) : ToolSessionPhase :=
  let phase := default "unknown" (jget "phase" metadata ≫= as_str) in
  if String.eqb phase "execute" then Execute
  else if String.eqb phase "open" then PhOpen
  else if String.eqb phase "send" then PhSend
  else if bool_decide (phase ∈ ["read"; "search_read"; "page_read"]) then PhRead
  else if String.eqb phase "next" then PhNext
  else if String.eqb phase "finish" then PhFinish
  else if String.eqb phase "abort" then PhAbort
  else Unknown phase.

Definition phase_label (p : ToolSessionPhase) : string :=
  match p with
  | Execute => "execute"
  | PhOpen => "open"
  | PhSend => "send"
  | PhRead => "read"
  | PhNext => "next"
  | PhFinish => "finish"
  | PhAbort => "abort"
  | Unknown value => value
  end.

(** ** What is worth projecting *)

Definition is_fsm_opcode_message_noise (text : string) : bool :=
  let core := trim (strip_history_notice_prefix text) in
  bool_decide (core ∈ ["Open"; "Send"; "Finish"; "Abort"; "SearchRead"; "PageRead"]).

Fixpoint value_is_empty (value : json) : bool :=
  match value with
  | JNull => true
  | JBool _ | JNum _ => false
  | JStr s => is_empty_str (trim s)
  | JArr a => forallb value_is_empty a
  | JObj m => forallb (fun p => value_is_empty p.2) m
  end.

Definition session_tool_args_non_empty (args : json) : bool :=
  let step := default args (jget "step" args) in
  match jget "input" step with
  | Some input => negb (value_is_empty input)
  | None => negb (value_is_empty args)
  end.

Definition is_meaningful (c : ConversationItemContent) : bool :=
  match c with
  | Message text _ =>
      negb (is_empty_str (trim text)) && negb (is_history_infrastructure_notice text)
        && negb (is_fsm_opcode_message_noise text)
  | ToolCall tc =>
      if negb (is_session_phase (tc_fsm_phase tc)) then true
      else match tc_fsm_phase tc with PhSend => session_tool_args_non_empty (tc_args tc) | _ => false end
  | ToolResult tr =>
      match tr_outcome tr with
      | StatusOnly => false
      | _ => negb (is_session_phase (tr_fsm_phase tr))
      end
  | SessionStep ss => match ss_op ss with StepOpen => false | _ => true end
  | Operational o => operational_is_meaningful o
  | Planning p => planning_is_meaningful p
  | CompactionSummary summary _ _ => negb (is_empty_str (trim summary))
  end.

(** ** Speakers and roles *)

Definition UserSpeakerKind_as_wire_str (k : UserSpeakerKind) : string :=
  match k with Human => "human" | Relay => "relay" | Ingress => "ingress" end.

Definition UserSpeakerKind_from_wire_str (raw : string) : option UserSpeakerKind :=
  let r := trim raw in
  if String.eqb r "human" then Some Human
  else if String.eqb r "relay" then Some Relay
  else if String.eqb r "ingress" then Some Ingress
  else None.

Definition is_user_role (r : string) : bool :=
  eq_ignore_ascii_case r "ROLE_USER" || eq_ignore_ascii_case r "user".

Definition classify_user_speaker_kind (context_id : ContextId) (anchor : ActivityAnchorId)
    (metadata : option (gmap string string)) (role : string) : option UserSpeakerKind :=
  if negb (is_user_role (trim role)) then None
  else
    match (meta ← metadata; raw ← meta !! "user_speaker_kind"; UserSpeakerKind_from_wire_str raw) with
    | Some kind => Some kind
    | None =>
        if starts_with "ingress-poll-user:" anchor || starts_with "ingress-unit-user:" anchor then Some Ingress
        else if bool_decide ((m ← metadata; m !! "kind") = Some "agent-to-agent") then Some Relay
        else if starts_with "a2a:" context_id then Some Relay
        else Some Human
    end.

Definition conversation_history_role_for_message (a2a_role : string) : string :=
  let r := trim a2a_role in
  if is_empty_str r then EmptyString
  else if is_user_role r then "user"
  else if eq_ignore_ascii_case r "ROLE_AGENT" || eq_ignore_ascii_case r "assistant" || eq_ignore_ascii_case r "agent"
  then "assistant"
  else if eq_ignore_ascii_case r "ROLE_HOST" || eq_ignore_ascii_case r "host" then "host"
  else a2a_role.

(** ** [projection.rs] *)

Definition planning_projection_kind (k : PlanningEventKind) : PlanningProjectionKind :=
  match k with
  | IntentResolved => PIntentResolved
  | IntentRevised => PIntentRevised
  | PlanCommitted => PPlanCommitted
  | PlanSuperseded => PPlanSuperseded
  | PlanStepStatusChanged => PPlanStepStatusChanged
  end.

Definition projection_op (op : SessionStepOp) : SessionStepProjection :=
  match op with
  | StepOpen => POpen
  | StepSendDone r h _ => PSendDone r h
  | StepSearchRead r g o l => PSearchRead r g o l
  | StepPageRead r o l => PPageRead r o l
  end.

Definition projection_content (c : ConversationItemContent) : option PromptProjectionContent :=
  match c with
  | Message text citations => Some (PMessage text citations)
  | ToolCall tc => Some (PToolCall (tc_tool_name tc) (tc_args tc))
  | ToolResult tr =>
      match tr_outcome tr with
      | OutResult v => Some (PToolResult (tr_tool_name tr) v)
      | OutError v => Some (PToolError (tr_tool_name tr) v)
      | StatusOnly => None
      end
  | Operational _ => None
  | Planning p =>
      Some (PPlanning (mkPlanningProjection (planning_projection_kind (pl_kind p)) (pl_summary p) (pl_detail p)
              (pl_intent_id p) (pl_plan_id p) (pl_step_id p) (pl_old_status p) (pl_new_status p)))
  | CompactionSummary summary s e => Some (PCompactionSummary summary s e)
  | SessionStep ss =>
      Some (PSessionStep (mkStepPayload (ss_tool_name ss) (projection_op (ss_op ss))
              (ss_send_done_replay_payload ss) (ss_read_replay_lines ss)))
  end.

Definition provenance_item_to_projection_item (i : item) : option PromptProjectionItem :=
  if negb (is_meaningful (content i)) then None
  else
    c ← projection_content (content i);
    Some (mkProjectionItem (timestamp_ms i) (activity_anchor i) (role i) c).

Section Pipeline.
Context {regex : Type}.
Variable Regex_new : string -> result regex string.
Variable is_match : regex -> string -> bool.
Variable to_string to_string_pretty : json -> string.
Variable handler : ToolName -> option (json -> string).

Definition projection_pairs_for_conv_item (i : item) (t : RefTable) (rd : option ArchiveReader)
    (opts : ProjectionRenderOptions) : outcome (RefTable * option (list (string * string))) :=
  match provenance_item_to_projection_item i with
  | None => Done (t, None)
  | Some proj =>
      let! (t', pairs) := projection_history_pairs Regex_new is_match to_string to_string_pretty handler proj t rd opts in
      Done (t', Some pairs)
  end.

(** The rows an agent reads of one conversation row. *)
Definition agent_rows (i : item) (t : RefTable) (rd : option ArchiveReader) (opts : ProjectionRenderOptions)
    : outcome (RefTable * list ProjectedHistoryRow) :=
  project_rows Regex_new is_match to_string to_string_pretty handler
    (from_option (fun p => [p]) [] (provenance_item_to_projection_item i)) t rd opts.

End Pipeline.

(** ** What an agent sees *)

(** Rows that exist for the session machine, for the operator or for nobody. *)
Definition bookkeeping (c : ConversationItemContent) : bool :=
  match c with
  | Message text _ =>
      blank text || is_history_infrastructure_notice text || is_fsm_opcode_message_noise text
  | ToolCall tc => is_session_phase (tc_fsm_phase tc) && match tc_fsm_phase tc with PhSend => false | _ => true end
  | ToolResult tr => is_session_phase (tr_fsm_phase tr) || match tr_outcome tr with StatusOnly => true | _ => false end
  | SessionStep ss => match ss_op ss with StepOpen | StepSendDone _ _ _ => true | _ => false end
  | Operational _ => true
  | Planning p => blank (pl_summary p)
  | CompactionSummary summary _ _ => blank summary
  end.

(** Session output reaches an agent only through explicit reads.  Whatever the
    table, the options and the reader, raw results of session tools, session
    steps other than reads, status-only results, operator events, host notices
    and opcode labels contribute no row to the history of an agent. *)
Theorem bookkeeping_hidden {regex} (Regex_new : string -> result regex string) is_match to_string to_string_pretty
    handler (i : item) (t : RefTable) rd opts :
  bookkeeping (content i) = true ->
  exists t', agent_rows Regex_new is_match to_string to_string_pretty handler i t rd opts = Done (t', []).
Proof.
  intros Hb. unfold agent_rows, provenance_item_to_projection_item.
  destruct (content i) as [text cits|tc|tr|ss|o|p|s a b]; simpl in *.
  - replace (negb _ && negb _ && negb _) with false; [simpl; eauto|].
    unfold blank in Hb. symmetry. destruct (is_empty_str (trim text)), (is_history_infrastructure_notice text),
      (is_fsm_opcode_message_noise text); done.
  - destruct (tc_fsm_phase tc); simpl in *; try done; eauto.
  - destruct (tr_outcome tr), (tr_fsm_phase tr); simpl in *; try done; eauto.
  - destruct (ss_op ss); simpl in *; try done; eauto.
  - destruct (operational_is_meaningful o); simpl; eauto.
  - unfold planning_is_meaningful. unfold blank in Hb. rewrite Hb. simpl. eauto.
  - unfold blank in Hb. rewrite Hb. simpl. eauto.
Qed.

(** A raw result of a session tool that holds a secret page. *)
Definition raw_session_result : item :=
  mkItem 1 "evt-1" "tool" (ToolResult (mkToolResult "support/notes" PhSend (OutResult (JStr "secret page")))) None.

Lemma bookkeeping_hidden_witness :
  exists t', agent_rows no_regex (fun _ _ => false) (fun _ => "") (fun _ => "") no_handler raw_session_result
    RefTable_new None ProjectionRenderOptions_default = Done (t', []).
Proof. exact (bookkeeping_hidden _ _ _ _ _ raw_session_result RefTable_new None ProjectionRenderOptions_default eq_refl). Defined.

(** A plan event with a summary is a row of the agent's history. *)
Lemma planning_reaches_agent {regex} (Regex_new : string -> result regex string) is_match to_string to_string_pretty
    handler (i : item) p (t : RefTable) rd opts :
  content i = Planning p -> planning_is_meaningful p = true ->
  exists t' n rest, agent_rows Regex_new is_match to_string to_string_pretty handler i t rd opts =
    Done (t', [mkRow (role i) (HistoryRef_display n +:+ " [planning:" +:+ rest) None]).
Proof.
  intros Hc Hm. unfold agent_rows, provenance_item_to_projection_item. rewrite Hc. simpl. rewrite Hm. simpl.
  unfold project_projection_item_to_rows, render_projection_content. simpl.
  unfold planning_is_meaningful in Hm. apply negb_true_iff in Hm. unfold blank. rewrite Hm.
  unfold numbered. simpl. destruct (RefTable_insert_history _ _ _) as [t' n]. simpl. eauto.
Qed.

(** The rows that reach the agent keep order, role and activity of the view. *)
Lemma projection_keeps_identity i p :
  provenance_item_to_projection_item i = Some p ->
  pi_timestamp_ms p = timestamp_ms i /\ pi_activity_anchor p = activity_anchor i /\ pi_role p = role i /\
  is_meaningful (content i) = true.
Proof.
  unfold provenance_item_to_projection_item. destruct (is_meaningful (content i)); simpl; [|done].
  destruct (projection_content (content i)); simpl; [|done]. by intros [= <-].
Qed.

(** A trusted speaker is never inferred from a marked row: a user row counts as
    human only if its metadata say so, or nothing marks it as ingress or relay. *)
Lemma human_speaker_unmarked ctx anchor metadata r :
  classify_user_speaker_kind ctx anchor metadata r = Some Human ->
  is_user_role (trim r) = true /\
  ((meta ← metadata; raw ← meta !! "user_speaker_kind"; UserSpeakerKind_from_wire_str raw) = Some Human \/
   starts_with "ingress-poll-user:" anchor = false /\ starts_with "ingress-unit-user:" anchor = false /\
   (m ← metadata; m !! "kind") <> Some "agent-to-agent" /\ starts_with "a2a:" ctx = false).
Proof.
  unfold classify_user_speaker_kind. destruct (is_user_role (trim r)); simpl; [|done]. intros H. split; [done|].
  destruct (metadata ≫= _) as [k|] eqn:E; [left; congruence|]. right.
  destruct (starts_with "ingress-poll-user:" anchor) eqn:E1, (starts_with "ingress-unit-user:" anchor) eqn:E2; simpl in H; try done.
  case_bool_decide; [done|]. destruct (starts_with "a2a:" ctx) eqn:E4; done.
Qed.

Lemma phase_label_round_trip p :
  (forall l, p = Unknown l -> l ∉ ["execute"; "open"; "send"; "read"; "search_read"; "page_read"; "next"; "finish"; "abort"]) ->
  phase_from_metadata (JObj [("phase", JStr (phase_label p))]) = p.
Proof.
  intros Hu. destruct p as [| | | | | | |l]; try reflexivity. specialize (Hu l eq_refl).
  unfold phase_from_metadata. cbn [phase_label jget field]. rewrite String.eqb_refl. cbn [mbind option_bind as_str default].
  rewrite !(proj2 (String.eqb_neq l _)) by set_solver.
  rewrite bool_decide_false by set_solver. done.
Qed.

(** Canonical roles stay: mapping a role twice is mapping it once. *)
Lemma history_role_idempotent r :
  conversation_history_role_for_message (conversation_history_role_for_message r) = conversation_history_role_for_message r.
Proof.
  unfold conversation_history_role_for_message at 2 3.
  destruct (is_empty_str (trim r)) eqn:E1; [done|].
  destruct (is_user_role (trim r)) eqn:E2; [done|].
  destruct (_ || _ || eq_ignore_ascii_case (trim r) "agent") eqn:E3; [done|].
  destruct (_ || eq_ignore_ascii_case (trim r) "host") eqn:E4; [done|].
  unfold conversation_history_role_for_message. by rewrite E1, E2, E3, E4.
Qed.
