(* ===== verification/DurableRefs.v ===== *)
(** * Durable references

    The reference registries of the provenance store, as every runtime shares
    them: history numbers [#N] ([surreal_store/history_ref.rs]) and archived
    results [@N] ([surreal_store/archive_ref.rs]).  All rows carry the context,
    and contexts share nothing, so the state is that of one context.

    A statement is one step of the database; a call is a task with a program
    counter between statements, and tasks of any number of processes
    interleave.  The mutexes of one process only remove interleavings.  A
    statement may also fail (a transaction conflict, a lost connection).  A row
    with a unique index is inserted only if its key is free. *)

From stdpp Require Import base list strings gmap sorting.
From Stdlib Require Import ZArith Lia.
From S2P Require Import Prelude RustStr ArchiveRead RefTable Json Ids.

Open Scope string_scope.
Open Scope Z_scope.

(** [WRITE_CONFLICT_MAX_ATTEMPTS] *)
Definition WRITE_CONFLICT_MAX_ATTEMPTS : nat := 6.

Inductive ProvenanceError :=
| Contention (details : string)
| InvalidEvent (anchor reason : string)
| CorruptArchiveEntry (reason : string)
| Storage (details : string).

(** [u32::try_from] of a stored counter. *)
Definition as_ref_number (what : string) (n : Z) : result Z ProvenanceError :=
  if n <=? u32_max then Ok n else Err (InvalidEvent what "overflow").

(** ** History numbers *)
Module HistoryRefs.

(** [history_ref_registry] with its unique index on activity and source, and
    the counter record of [session_ref_counter]. *)
Record store := mkStore {
  registry : gmap (string * string) Z;
  counter : option Z;
}.

Definition empty_store : store := mkStore ∅ None.

(** Where a call of [history_ref_ensure] is. *)
Inductive pc :=
| Lookup                        (* SELECT of the key *)
| Update (attempt : nat)        (* UPDATE of the counter in [session_ref_next] *)
| Create (attempt : nat)        (* CREATE of the counter *)
| Insert (n : Z)                (* INSERT of the row *)
| Reread (n : Z)                (* SELECT after a failed INSERT *)
| Finished (r : result Z ProvenanceError).

Definition contention : pc := Finished (Err (Contention "session_ref_next: exhausted retries")).

(** The next round of the retry loop. *)
Definition retry (attempt : nat) : pc :=
  if (S attempt <? WRITE_CONFLICT_MAX_ATTEMPTS)%nat then Update (S attempt) else contention.

(** A number that was taken from the counter. *)
Definition taken (n : Z) : pc :=
  match as_ref_number "session_ref_counter" n with Ok n => Insert n | Err e => Finished (Err e) end.

(** One statement of the call for key [k].  [flaky] says whether the INSERT may
    fail for a reason other than a row with that key. *)
Inductive call (flaky : bool) (k : string * string) : store * pc -> store * pc -> Prop :=
| call_found st n : registry st !! k = Some n -> call flaky k (st, Lookup) (st, Finished (as_ref_number k.1 n))
| call_missed st : registry st !! k = None -> call flaky k (st, Lookup) (st, Update 0)
| call_update st a c : counter st = Some c ->
    call flaky k (st, Update a) (mkStore (registry st) (Some (c + 1)), taken (c + 1))
| call_no_counter st a : counter st = None -> call flaky k (st, Update a) (st, Create a)
| call_update_unread st a : call flaky k (st, Update a) (st, Create a)
| call_update_conflict st a : call flaky k (st, Update a) (st, retry a)
| call_create st a : counter st = None ->
    call flaky k (st, Create a) (mkStore (registry st) (Some 1), Insert 1)
| call_create_lost st a : call flaky k (st, Create a) (st, retry a)
| call_insert st n : registry st !! k = None ->
    call flaky k (st, Insert n) (mkStore (<[k := n]> (registry st)) (counter st), Finished (Ok n))
| call_duplicate st n : is_Some (registry st !! k) -> call flaky k (st, Insert n) (st, Reread n)
| call_insert_failed st n : flaky = true -> call flaky k (st, Insert n) (st, Reread n)
| call_reread st n m : registry st !! k = Some m -> call flaky k (st, Reread n) (st, Finished (as_ref_number k.1 m))
| call_reread_none st n : registry st !! k = None -> call flaky k (st, Reread n) (st, Finished (Ok n))
| call_broken st p e : (forall r, p <> Finished r) -> call flaky k (st, p) (st, Finished (Err (Storage e))).

(** The database with the calls that run on it. *)
Record world := mkWorld { db : store; tasks : gmap nat ((string * string) * pc) }.

Inductive step (flaky : bool) : world -> world -> Prop :=
| step_spawn w i k : tasks w !! i = None -> step flaky w (mkWorld (db w) (<[i := (k, Lookup)]> (tasks w)))
| step_call w i k p st p' : tasks w !! i = Some (k, p) -> call flaky k (db w, p) (st, p') ->
    step flaky w (mkWorld st (<[i := (k, p')]> (tasks w))).

Definition start : world := mkWorld empty_store ∅.

(** *** What the sequential call computes

    The function is the run of [call] in which no other call interferes and
    every statement takes effect ([ensure_is_a_run]); conflicts, lost inserts
    and other callers are runs of [call] and [step] only. *)

Definition session_ref_next (st : store) : store * result Z ProvenanceError :=
  let n := default 0 (counter st) + 1 in
  (mkStore (registry st) (Some n), as_ref_number "session_ref_counter" n).

Definition history_ref_ensure (st : store) (anchor source : string) : store * result Z ProvenanceError :=
  match registry st !! (anchor, source) with
  | Some n => (st, as_ref_number anchor n)
  | None =>
      let (st', r) := session_ref_next st in
      match r with
      | Ok n => (mkStore (<[(anchor, source) := n]> (registry st')) (counter st'), Ok n)
      | Err e => (st', Err e)
      end
  end.

(** [sync_history_refs_for_projection] *)
Fixpoint sync_history_refs_for_projection (st : store) (es : list (string * string))
    : store * result unit ProvenanceError :=
  match es with
  | [] => (st, Ok tt)
  | (anchor, source) :: rest =>
      let (st', r) := history_ref_ensure st anchor source in
      match r with Ok _ => sync_history_refs_for_projection st' rest | Err e => (st', Err e) end
  end.

Definition row_le (a b : string * string * Z) : Prop := a.2 <= b.2.

#[global] Instance row_le_dec : RelDecision row_le.
Proof. unfold row_le. intros a b. apply _. Defined.

(** [history_ref_list_for_context], rows in order of their number. *)
Definition history_ref_list_for_context (st : store) : result (list (string * string * Z)) ProvenanceError :=
  let rows := merge_sort row_le ((fun '((a, s), n) => (a, s, n)) <$> map_to_list (registry st)) in
  match list_find (fun r => (u32_max < r.2)%Z) rows with
  | Some (_, r) => Err (InvalidEvent r.1.1 "history_n overflow")
  | None => Ok rows
  end.

Ltac one_call := eapply rtc_l.

(** A call with nobody else around computes the function. *)
Lemma ensure_is_a_run st anchor source :
  exists st' r, history_ref_ensure st anchor source = (st', r) /\
    rtc (call false (anchor, source)) (st, Lookup) (st', Finished r).
Proof.
  unfold history_ref_ensure. destruct (registry st !! (anchor, source)) as [n|] eqn:E.
  { eexists _, _. split; [done|]. one_call; [by apply call_found|]. apply rtc_refl. }
  unfold session_ref_next. set (n := default 0 (counter st) + 1).
  set (st1 := mkStore (registry st) (Some n)).
  assert (rtc (call false (anchor, source)) (st, Lookup) (st1, taken n)) as Hrun.
  { one_call; [by apply call_missed|]. destruct (counter st) as [c|] eqn:Ec.
    - one_call; [by apply call_update|]. subst st1 n. simpl. apply rtc_refl.
    - one_call; [by apply call_no_counter|]. one_call; [by apply call_create|]. apply rtc_refl. }
  unfold taken in Hrun. destruct (as_ref_number "session_ref_counter" n) as [m|e] eqn:En; eexists _, _; (split; [done|]).
  - eapply rtc_r; [exact Hrun|]. by apply call_insert.
  - exact Hrun.
Qed.

(** *** Invariants of every interleaving *)

(** The number a call holds. *)
Definition number_of (p : pc) : option Z :=
  match p with Insert n | Reread n | Finished (Ok n) => Some n | _ => None end.

(** [k] has the number [n]: in its row, or in the hands of a call for it. *)
Definition holds (w : world) (k : string * string) (n : Z) : Prop :=
  registry (db w) !! k = Some n \/ exists i p, tasks w !! i = Some (k, p) /\ number_of p = Some n.

Record inv (w : world) : Prop := {
  inv_counter : 0 <= default 0 (counter (db w));
  inv_issued : forall k n, holds w k n -> 1 <= n <= default 0 (counter (db w));
  inv_owner : forall k k' n, holds w k n -> holds w k' n -> k = k';
}.

Lemma number_as_ref what n m : number_of (Finished (as_ref_number what n)) = Some m -> m = n.
Proof. unfold as_ref_number. case_match; simpl; congruence. Qed.

Lemma number_taken n m : number_of (taken n) = Some m -> m = n.
Proof. unfold taken, as_ref_number. case_match; simplify_eq/=; case_match; simplify_eq/=; congruence. Qed.

Lemma number_retry a : number_of (retry a) = None.
Proof. unfold retry, contention. by case_match. Qed.

(** What a statement does: rows stay, the counter never falls, and a number the
    call holds afterwards was its own, is in the row, or is newly taken. *)
Lemma hcall_effect flaky k st p st' p' :
  call flaky k (st, p) (st', p') -> 0 <= default 0 (counter st) ->
  registry st ⊆ registry st' /\ default 0 (counter st) <= default 0 (counter st') /\
  (forall k' n, registry st' !! k' = Some n -> registry st !! k' = Some n \/ k' = k /\ number_of p = Some n) /\
  (forall n, number_of p' = Some n ->
     number_of p = Some n \/ registry st !! k = Some n \/
     n = default 0 (counter st) + 1 /\ n <= default 0 (counter st')).
Proof.
  intros Hc H0. inversion Hc; subst; simpl in *; repeat match goal with H : counter _ = _ |- _ => rewrite H in * end; simpl in *;
    (split_and!; [try done|try lia|try (by auto)|]); try (by auto).
  all: try (intros m Hm; first [rewrite number_retry in Hm|apply number_as_ref in Hm|apply number_taken in Hm|simpl in Hm];
            simplify_eq; try done; auto; right; right; lia).
  all: try (by apply insert_subseteq).
  all: try (intros k' m; rewrite lookup_insert_Some; intros [[<- <-]|[_ ?]]; by auto).
  intros j Hj. pose proof (number_as_ref k.1 m j Hj). subst. auto.
Qed.

Lemma hinv_start : inv start.
Proof.
  split; unfold holds, start; simpl; [lia|..]; intros k.
  - intros n [H|(i & p & H & _)]; by rewrite lookup_empty in H.
  - intros k' n [H|(i & p & H & _)]; by rewrite lookup_empty in H.
Qed.

Lemma holds_spawn w i k k' n :
  tasks w !! i = None -> holds (mkWorld (db w) (<[i := (k, Lookup)]> (tasks w))) k' n -> holds w k' n.
Proof.
  intros Hi [H|(j & p & Hj & Hp)]; [by left|]. right. simpl in Hj.
  apply lookup_insert_Some in Hj as [[_ Heq]|[_ Hj]]; [by simplify_eq|]. eauto.
Qed.

(** After a statement, a key holds a number it held before or the caller's new one. *)
Lemma holds_call flaky w i k p st p' k' n :
  0 <= default 0 (counter (db w)) -> tasks w !! i = Some (k, p) -> call flaky k (db w, p) (st, p') ->
  holds (mkWorld st (<[i := (k, p')]> (tasks w))) k' n ->
  holds w k' n \/ k' = k /\ n = default 0 (counter (db w)) + 1 /\ n <= default 0 (counter st).
Proof.
  intros H0 Hi Hc Hh. destruct (hcall_effect _ _ _ _ _ _ Hc H0) as (_ & _ & E3 & E4).
  assert (forall m, number_of p = Some m -> holds w k m) as Hp by (intros m Hm; right; eauto).
  destruct Hh as [Hr|(j & q & Hj & Hq)]; simpl in *.
  - destruct (E3 _ _ Hr) as [?|[-> ?]]; left; [by left|auto].
  - apply lookup_insert_Some in Hj as [[_ Heq]|[_ Hj]]; [|left; right; eauto]. simplify_eq.
    destruct (E4 _ Hq) as [?|[?|?]]; [left; auto|left; by left|by right].
Qed.

Lemma hstep_inv flaky w w' : inv w -> step flaky w w' -> inv w'.
Proof.
  intros [H0 Hiss Hown] Hs. destruct Hs as [w i k Hi|w i k p st p' Hi Hc].
  { split; simpl; [done|..].
    - intros k' n Hh. by apply Hiss with k', (holds_spawn w i k).
    - intros k1 k2 n H1 H2. by apply Hown with n; apply (holds_spawn w i k). }
  destruct (hcall_effect _ _ _ _ _ _ Hc H0) as (_ & E2 & _ & _). split; simpl; [lia|..].
  - intros k' n Hh. destruct (holds_call _ _ _ _ _ _ _ _ _ H0 Hi Hc Hh) as [H|H]; [|lia].
    specialize (Hiss _ _ H). lia.
  - intros k1 k2 n H1 H2.
    destruct (holds_call _ _ _ _ _ _ _ _ _ H0 Hi Hc H1) as [G1|G1], (holds_call _ _ _ _ _ _ _ _ _ H0 Hi Hc H2) as [G2|G2].
    + by eapply Hown.
    + specialize (Hiss _ _ G1). lia.
    + specialize (Hiss _ _ G2). lia.
    + destruct G1 as [-> _], G2 as [-> _]. done.
Qed.

Lemma hreachable_inv flaky w : rtc (step flaky) start w -> inv w.
Proof.
  intros H. remember start as w0. assert (inv w0) by (subst; apply hinv_start).
  clear Heqw0. induction H; eauto using hstep_inv.
Qed.

(** Without failing INSERTs, a number that was returned is in its row. *)
Definition recorded (st : store) (k : string * string) (p : pc) : Prop :=
  match p with
  | Finished (Ok n) => registry st !! k = Some n
  | Reread _ => is_Some (registry st !! k)
  | _ => True
  end.

Lemma recorded_weaken st st' k p : registry st ⊆ registry st' -> recorded st k p -> recorded st' k p.
Proof.
  intros Hsub. unfold recorded. repeat case_match; try done; [|intros Hk; by eapply lookup_weaken].
  intros [m Hm]. exists m. by eapply lookup_weaken.
Qed.

Lemma recorded_as_ref st k what n : registry st !! k = Some n -> recorded st k (Finished (as_ref_number what n)).
Proof. intros H. unfold as_ref_number. by case_match. Qed.

Lemma recorded_taken st k n : recorded st k (taken n).
Proof. unfold taken, as_ref_number. case_match; [done|]. unfold recorded. by repeat case_match; simplify_eq. Qed.

Lemma recorded_retry st k a : recorded st k (retry a).
Proof. unfold retry. by case_match. Qed.

Lemma recorded_call k st p st' p' : call false k (st, p) (st', p') -> recorded st k p -> recorded st' k p'.
Proof.
  inversion 1; subst; intros Hr; auto using recorded_as_ref, recorded_taken, recorded_retry; simpl in *; try done.
  - by rewrite lookup_insert_eq.
  - destruct Hr. congruence.
Qed.

Definition all_recorded (w : world) : Prop := forall i k p, tasks w !! i = Some (k, p) -> recorded (db w) k p.

Lemma step_recorded w w' : inv w -> step false w w' -> all_recorded w -> all_recorded w'.
Proof.
  intros Hinv Hs Hr. destruct Hs as [w i k Hi|w i k p st p' Hi Hc]; intros j k' q; simpl.
  - rewrite lookup_insert_Some. intros [[_ [= <- <-]]|[_ Hj]]; [done|]. by eapply Hr.
  - rewrite lookup_insert_Some. intros [[_ [= <- <-]]|[_ Hj]]; [eapply recorded_call; eauto|].
    eapply recorded_weaken; [|by eapply Hr]. by eapply hcall_effect; [|apply inv_counter].
Qed.

Lemma reachable_recorded w : rtc (step false) start w -> all_recorded w.
Proof.
  intros H. remember start as w0 eqn:E.
  assert (all_recorded w0) as Hr by (subst; intros i k p Hi; simpl in Hi; by rewrite lookup_empty in Hi).
  assert (inv w0) as Hinv by (subst; apply hinv_start). clear E.
  induction H as [|w w' w'' Hs _ IH]; [done|]. apply IH; [by eapply step_recorded|by eapply hstep_inv].
Qed.

Lemma run_registry flaky w w' : inv w -> rtc (step flaky) w w' -> registry (db w) ⊆ registry (db w').
Proof.
  intros Hinv H. induction H as [|w w' w'' Hs _ IH]; [done|]. etrans; [|by apply IH; eapply hstep_inv].
  destruct Hs as [|w i k p st p' Hi Hc]; [done|]. by eapply hcall_effect; [|apply inv_counter].
Qed.

End HistoryRefs.

(** ** Stored archive entries *)

Definition opt_str (o : option string) : json := from_option JStr JNull o.

Definition entry_to_json (e : ArchiveEntry) : outcome json :=
  let! lines := RenderedContent_lines (content e) in
  Done (JObj [("tool_name", JStr (tool_name e)); ("summary", opt_str (summary e));
              ("action_identity", opt_str (action_identity e)); ("activity_anchor", JStr (ae_activity_anchor e));
              ("source", JStr (ae_source e)); ("rendered_lines", JArr (JStr <$> lines))]).

Definition entry_from_json (v : json) : result ArchiveEntry ProvenanceError :=
  let? tool := ok_or (jget "tool_name" v ≫= as_str) (CorruptArchiveEntry "missing tool_name") in
  let summ := non_blank (jget "summary" v ≫= as_str) in
  let ident := non_blank (jget "action_identity" v ≫= as_str) in
  let? anchor := ok_or (jget "activity_anchor" v ≫= as_str) (CorruptArchiveEntry "missing activity_anchor") in
  let src := default "tool_result" (jget "source" v ≫= as_str) in
  let? lines := ok_or (jget "rendered_lines" v ≫= as_array)
                  (CorruptArchiveEntry "missing or invalid rendered_lines array") in
  Ok (with_action_identity
        (ArchiveEntry_new (RenderedContent_from_lines (omap as_str lines)) tool summ anchor src) ident).

(** *** What is stored comes back *)

Lemma split_char_pieces c s : Forall (fun x => contains_char c x = false) (split_char c s).
Proof.
  induction s as [|a s IH]; simpl; [by repeat constructor|]. case_bool_decide as E; [by constructor|].
  destruct (split_char c s) as [|x r]; inversion IH; subst; constructor; try done.
  all: rewrite contains_char_cons, bool_decide_false by done; done.
Qed.

Lemma strip_trailing_cr_no_char c x : contains_char c x = false -> contains_char c (strip_trailing_cr x) = false.
Proof.
  induction x as [|a x IH]; [done|]. rewrite contains_char_cons. intros [Ha Hx]%orb_false_iff. specialize (IH Hx).
  destruct x as [|b x].
  - cbn [strip_trailing_cr]. destruct (bool_decide (a = cr)); [done|]. by rewrite contains_char_cons, Ha.
  - change (strip_trailing_cr (String a (String b x))) with (String a (strip_trailing_cr (String b x))).
    by rewrite contains_char_cons, Ha.
Qed.

Lemma segments_no_nl line : Forall (fun x => contains_char nl x = false) (segments_of line).
Proof.
  destruct line as [|a l]; simpl; [by repeat constructor|]. unfold str_lines.
  induction (split_char_pieces nl (String a l)) as [|x xs Hx _ IH]; [constructor|].
  destruct xs as [|y ys]; simpl; [destruct x; by repeat constructor|].
  constructor; [by apply strip_trailing_cr_no_char|done].
Qed.

Lemma segments_of_segment x : contains_char nl x = false -> segments_of x = [x].
Proof. intros H. destruct x as [|a x]; [done|]. unfold segments_of, str_lines. by rewrite split_char_none. Qed.

(** Content rebuilt from its own lines is the same content. *)
Lemma from_lines_segments lines :
  RenderedContent_from_lines (flat_map segments_of lines) = RenderedContent_from_lines lines.
Proof.
  destruct (from_lines_represents (flat_map segments_of lines)) as [H1 H2].
  destruct (from_lines_represents lines) as [G1 G2].
  assert (flat_map segments_of (flat_map segments_of lines) = flat_map segments_of lines) as Hid.
  { clear. induction lines as [|l r IH]; [done|]. simpl. rewrite flat_map_app, IH. f_equal.
    induction (segments_no_nl l) as [|x xs Hx _ IHx]; [done|]. simpl. rewrite segments_of_segment by done. by rewrite IHx. }
  rewrite Hid in *. destruct (RenderedContent_from_lines (flat_map _ _)), (RenderedContent_from_lines lines).
  simpl in *. congruence.
Qed.

Lemma omap_as_str (ls : list string) : omap as_str (JStr <$> ls) = ls.
Proof. induction ls as [|x ls IH]; [done|]. cbn. f_equal. exact IH. Qed.

Lemma non_blank_idemp o : non_blank (non_blank o) = non_blank o.
Proof. unfold non_blank, opt_filter. destruct o as [s|]; [|done]. by destruct (negb _) eqn:E; rewrite ?E. Qed.

Lemma opt_str_as_str o : as_str (opt_str o) = o.
Proof. by destruct o. Qed.

(** A stored archive entry comes back as it was, content, counts and header
    fields, except for its send signature, which is not stored. *)
Theorem archive_entry_round_trip (c : RenderedContent) (tool : string) (summ ident sig : option string) (anchor src : string) :
  rendered_wf c ->
  let e := with_send_signature (with_action_identity (ArchiveEntry_new c tool summ anchor src) ident) sig in
  exists v, entry_to_json e = Done v /\ entry_from_json v = Ok (with_send_signature e None).
Proof.
  intros (lines & Hv & ->). simpl. unfold entry_to_json. simpl. rewrite from_lines_lines by done. simpl.
  eexists. split; [done|]. unfold entry_from_json. cbn [jget field String.eqb Ascii.eqb Bool.eqb]. simpl.
  rewrite !opt_str_as_str, omap_as_str, from_lines_segments, !non_blank_idemp.
  unfold with_action_identity, ArchiveEntry_new, with_send_signature. simpl. by rewrite !non_blank_idemp.
Qed.

Lemma archive_entry_round_trip_witness :
  let e := with_send_signature (ArchiveEntry_new (RenderedContent_from_lines ["two pages"]) "support/notes" (Some "notes") "evt-2" "tool_result")
             (Some "support/notes {}") in
  exists v e', entry_to_json e = Done v /\ entry_from_json v = Ok e' /\ send_signature e' = None.
Proof.
  assert (rendered_wf (RenderedContent_from_lines ["two pages"])) as Hwf by (exists ["two pages"]; split; [by repeat constructor|done]).
  destruct (archive_entry_round_trip _ "support/notes" (Some "notes") None (Some "support/notes {}") "evt-2" "tool_result" Hwf)
    as (v & H1 & H2).
  exists v. eexists. split; [exact H1|]. split; [exact H2|reflexivity].
Defined.

(** ** Archived results *)
Module ArchiveRefs.

(** [archive_prefix_registry] (unique by agent and by prefix),
    [archive_local_counter], and [archive_body] (unique by ref and by activity);
    a body is its activity and the stored entry. *)
Record store := mkStore {
  prefixes : gmap string Z;
  locals : gmap Z Z;
  bodies : gmap (Z * Z) (string * json);
}.

Definition empty_store : store := mkStore ∅ ∅ ∅.

(** The largest prefix in use, [math::max] of the column. *)
Definition max_prefix (st : store) : Z := map_fold (fun _ p m => Z.max p m) 0 (prefixes st).

Definition prefix_free (st : store) (p : Z) : Prop := forall a, prefixes st !! a <> Some p.
Definition anchor_free (st : store) (anchor : string) : Prop := forall r e, bodies st !! r <> Some (anchor, e).

(** A call of [archive_allocate_and_put]: agent, activity, stored entry. *)
Record request := mkRequest { rq_agent : string; rq_anchor : string; rq_entry : json }.

Inductive pc :=
| Find                             (* SELECT by activity *)
| Prefix                           (* SELECT of the agent's prefix *)
| Max (attempt : nat)              (* SELECT math::max *)
| Claim (attempt : nat) (p : Z)    (* INSERT of the prefix *)
| Reprefix (attempt : nat)         (* SELECT after a failed INSERT *)
| Local (p : Z) (attempt : nat)    (* UPDATE of the local counter *)
| CreateLocal (p : Z) (attempt : nat)
| Put (r : Z * Z)                  (* UPSERT of the body *)
| FindDup                          (* SELECT by activity after a duplicate *)
| Finished (r : result (Z * Z) ProvenanceError).

Definition contention (what : string) : pc := Finished (Err (Contention what)).
Definition retry (k : nat -> pc) (what : string) (attempt : nat) : pc :=
  if (S attempt <? WRITE_CONFLICT_MAX_ATTEMPTS)%nat then k (S attempt) else contention what.

(** [checked_add(1)] of the largest prefix. *)
Definition claim_next (st : store) (attempt : nat) : pc :=
  if max_prefix st <? u32_max then Claim attempt (max_prefix st + 1)
  else Finished (Err (InvalidEvent "archive_prefix" "archive_prefix assignment would overflow u32")).

Definition taken (p n : Z) : pc :=
  match as_ref_number "archive_local" n with Ok n => Put (p, n) | Err e => Finished (Err e) end.

Inductive call (q : request) : store * pc -> store * pc -> Prop :=
| call_found st r e : bodies st !! r = Some (rq_anchor q, e) -> call q (st, Find) (st, Finished (Ok r))
| call_missed st : anchor_free st (rq_anchor q) -> call q (st, Find) (st, Prefix)
| call_prefix st p : prefixes st !! rq_agent q = Some p -> call q (st, Prefix) (st, Local p 0)
| call_no_prefix st : prefixes st !! rq_agent q = None -> call q (st, Prefix) (st, Max 0)
| call_max st a : call q (st, Max a) (st, claim_next st a)
| call_claim st a p : prefixes st !! rq_agent q = None -> prefix_free st p ->
    call q (st, Claim a p) (mkStore (<[rq_agent q := p]> (prefixes st)) (locals st) (bodies st), Local p 0)
| call_claim_lost st a p : call q (st, Claim a p) (st, Reprefix a)
| call_claim_conflict st a p : call q (st, Claim a p) (st, retry Max "archive_ensure_prefix" a)
| call_reprefix st a p : prefixes st !! rq_agent q = Some p -> call q (st, Reprefix a) (st, Local p 0)
| call_reprefix_none st a : prefixes st !! rq_agent q = None ->
    call q (st, Reprefix a) (st, retry Max "archive_ensure_prefix: exhausted retries" a)
| call_local st p a n : locals st !! p = Some n ->
    call q (st, Local p a) (mkStore (prefixes st) (<[p := n + 1]> (locals st)) (bodies st), taken p (n + 1))
| call_local_unread st p a : call q (st, Local p a) (st, CreateLocal p a)
| call_local_conflict st p a : call q (st, Local p a) (st, retry (Local p) "archive_next_local" a)
| call_create st p a : locals st !! p = None ->
    call q (st, CreateLocal p a) (mkStore (prefixes st) (<[p := 1]> (locals st)) (bodies st), Put (p, 1))
| call_create_lost st p a :
    call q (st, CreateLocal p a) (st, retry (Local p) "archive_next_local: exhausted retries" a)
| call_put st r : (forall r' e, r' <> r -> bodies st !! r' <> Some (rq_anchor q, e)) ->
    call q (st, Put r) (mkStore (prefixes st) (locals st) (<[r := (rq_anchor q, rq_entry q)]> (bodies st)), Finished (Ok r))
| call_put_duplicate st r r' e : r' <> r -> bodies st !! r' = Some (rq_anchor q, e) -> call q (st, Put r) (st, FindDup)
| call_dup_found st r e : bodies st !! r = Some (rq_anchor q, e) -> call q (st, FindDup) (st, Finished (Ok r))
| call_broken st p e : (forall r, p <> Finished r) -> call q (st, p) (st, Finished (Err (Storage e))).

Record world := mkWorld { db : store; tasks : gmap nat (request * pc) }.

Inductive step : world -> world -> Prop :=
| step_spawn w i q : tasks w !! i = None -> step w (mkWorld (db w) (<[i := (q, Find)]> (tasks w)))
| step_call w i q p st p' : tasks w !! i = Some (q, p) -> call q (db w, p) (st, p') ->
    step w (mkWorld st (<[i := (q, p')]> (tasks w))).

Definition start : world := mkWorld empty_store ∅.

(** *** Invariants of every interleaving *)

(** A ref in the hands of a call that is not in the table yet. *)
Definition pending (p : pc) : option (Z * Z) := match p with Put r => Some r | _ => None end.

Record inv (w : world) : Prop := {
  inv_agents : forall a b p, prefixes (db w) !! a = Some p -> prefixes (db w) !! b = Some p -> a = b;
  inv_bodies : forall r ae, bodies (db w) !! r = Some ae -> exists n, locals (db w) !! r.1 = Some n /\ (r.2 <= n)%Z;
  inv_anchors : forall r r' a e e', bodies (db w) !! r = Some (a, e) -> bodies (db w) !! r' = Some (a, e') -> r = r';
  inv_pending : forall i q p r, tasks w !! i = Some (q, p) -> pending p = Some r ->
    bodies (db w) !! r = None /\ exists n, locals (db w) !! r.1 = Some n /\ (r.2 <= n)%Z;
  inv_pending_once : forall i j q q' p p' r, tasks w !! i = Some (q, p) -> tasks w !! j = Some (q', p') ->
    pending p = Some r -> pending p' = Some r -> i = j;
  inv_done : forall i q r, tasks w !! i = Some (q, Finished (Ok r)) -> exists e, bodies (db w) !! r = Some (rq_anchor q, e);
  inv_entries : forall r a e, bodies (db w) !! r = Some (a, e) ->
    exists i q, fst <$> tasks w !! i = Some q /\ rq_anchor q = a /\ rq_entry q = e;
}.

(** What a statement can do. *)
Inductive effect (q : request) (st : store) (p : pc) : store -> pc -> Prop :=
| eff_quiet p' : pending p' = None ->
    (forall r, p' = Finished (Ok r) -> exists e, bodies st !! r = Some (rq_anchor q, e)) -> effect q st p st p'
| eff_claim x p' : prefixes st !! rq_agent q = None -> prefix_free st x -> pending p' = None ->
    (forall r, p' <> Finished (Ok r)) ->
    effect q st p (mkStore (<[rq_agent q := x]> (prefixes st)) (locals st) (bodies st)) p'
| eff_take x p' : let n := default 0 (locals st !! x) + 1 in
    (p' = Put (x, n) \/ exists e, p' = Finished (Err e)) ->
    effect q st p (mkStore (prefixes st) (<[x := n]> (locals st)) (bodies st)) p'
| eff_put r : p = Put r -> (forall r' e, r' <> r -> bodies st !! r' <> Some (rq_anchor q, e)) ->
    effect q st p (mkStore (prefixes st) (locals st) (<[r := (rq_anchor q, rq_entry q)]> (bodies st))) (Finished (Ok r)).

Lemma eff_retry q st p k what a :
  (forall n, pending (k n) = None) -> (forall n r, k n <> Finished r) -> effect q st p st (retry k what a).
Proof. intros H1 H2. unfold retry, contention. case_match; apply eff_quiet; try done. intros r H'. by apply H2 in H'. Qed.

Lemma acall_effect q st p st' p' : call q (st, p) (st', p') -> effect q st p st' p'.
Proof.
  inversion 1; subst; try (by apply eff_retry); try (by apply eff_quiet; [done|intros; simplify_eq; eauto]).
  - unfold claim_next. apply eff_quiet; case_match; done.
  - by apply eff_claim.
  - match goal with H : locals st !! ?x = Some ?n |- effect _ _ ?p _ _ => pose proof (eff_take q st p x (taken x (n + 1))) as He;
      rewrite H in He; simpl in He; apply He end.
    unfold taken, as_ref_number. case_match; simplify_eq/=; case_match; simplify_eq/=; eauto.
  - match goal with H : locals st !! ?x = None |- effect _ _ ?p _ _ => pose proof (eff_take q st p x (Put (x, 1))) as He;
      rewrite H in He; simpl in He; apply He; auto end.
  - by apply eff_put.
Qed.

Lemma ainv_start : inv start.
Proof. split; unfold start; simpl; intros *; rewrite ?lookup_empty; done. Qed.

Lemma ainv_spawn w i q : tasks w !! i = None -> inv w -> inv (mkWorld (db w) (<[i := (q, Find)]> (tasks w))).
Proof.
  intros Hi [I1 I2 I3 I4 I5 I6 I7]. split; simpl; try done.
  - intros j q' p r. rewrite lookup_insert_Some. intros [[_ [= <- <-]]|[_ Hj]]; [done|]. by eapply I4.
  - intros j k qj qk pj pk r. rewrite !lookup_insert_Some.
    intros [[_ [= <- <-]]|[_ Hj]]; [done|]. intros [[_ [= <- <-]]|[_ Hk]]; [done|]. by eapply I5.
  - intros j q' r. rewrite lookup_insert_Some. intros [[_ [=]]|[_ Hj]]. by eapply I6.
  - intros r a e Hr. destruct (I7 r a e Hr) as (j & q' & Hj & Ha & He). exists j, q'. split; [|done].
    rewrite lookup_insert_ne; [done|]. intros <-. by rewrite Hi in Hj.
Qed.

(** A task's old entry is replaced; every other task stays. *)
Lemma requests_stay (w : world) i q p p' j q' :
  tasks w !! i = Some (q, p) -> fst <$> tasks w !! j = Some q' -> fst <$> <[i := (q, p')]> (tasks w) !! j = Some q'.
Proof.
  intros Hi Hj. destruct (decide (i = j)) as [<-|]; [|by rewrite lookup_insert_ne].
  rewrite lookup_insert_eq. rewrite Hi in Hj. done.
Qed.

Lemma pending_elsewhere (m : gmap nat (request * pc)) i q p' j qj pj r :
  <[i := (q, p')]> m !! j = Some (qj, pj) -> pending pj = Some r -> pending p' <> Some r ->
  j <> i /\ m !! j = Some (qj, pj).
Proof. rewrite lookup_insert_Some. intros [[-> [= <- <-]]|[Hne Hj]]; done. Qed.

(** The counter of a prefix covers a ref. *)
Definition covered (st : store) (r : Z * Z) : Prop := exists n, locals st !! r.1 = Some n /\ r.2 <= n.

Lemma covered_take st x ps bs r :
  covered st r -> covered (mkStore ps (<[x := default 0 (locals st !! x) + 1]> (locals st)) bs) r.
Proof.
  intros (n & Hn & Hle). unfold covered. simpl. destruct (decide (x = r.1)) as [->|].
  - rewrite lookup_insert_eq, Hn. simpl. eexists. split; [done|lia].
  - rewrite lookup_insert_ne by done. eauto.
Qed.

Lemma uncovered_take st x : ~ covered st (x, default 0 (locals st !! x) + 1).
Proof. intros (n & Hn & Hle). simpl in *. rewrite Hn in Hle. simpl in Hle. lia. Qed.

Section Preservation.
Context (w : world) (i : nat) (q : request) (p : pc).
Hypothesis Hinv : inv w.
Hypothesis Hi : tasks w !! i = Some (q, p).

Lemma entries_stay p' r a e :
  bodies (db w) !! r = Some (a, e) ->
  exists j q', fst <$> <[i := (q, p')]> (tasks w) !! j = Some q' /\ rq_anchor q' = a /\ rq_entry q' = e.
Proof.
  intros Hr. destruct (inv_entries _ Hinv r a e Hr) as (j & q' & Hj & H). exists j, q'. split; [|done].
  by eapply requests_stay.
Qed.

Lemma ainv_quiet p' ps :
  (forall a b x, ps !! a = Some x -> ps !! b = Some x -> a = b) -> pending p' = None ->
  (forall r, p' = Finished (Ok r) -> exists e, bodies (db w) !! r = Some (rq_anchor q, e)) ->
  inv (mkWorld (mkStore ps (locals (db w)) (bodies (db w))) (<[i := (q, p')]> (tasks w))).
Proof.
  intros Hps Hp' Hf. destruct Hinv as [I1 I2 I3 I4 I5 I6 I7]. split; simpl; try done.
  - intros j qj pj r Hj Hp. eapply pending_elsewhere in Hj as [_ Hj]; [|done|congruence]. by eapply I4.
  - intros j k qj qk pj pk r Hj Hk Hp Hq. eapply pending_elsewhere in Hj as [_ Hj]; [|done|congruence].
    eapply pending_elsewhere in Hk as [_ Hk]; [|done|congruence]. by eapply I5.
  - intros j qj r. rewrite lookup_insert_Some. intros [[_ [= <- ->]]|[_ Hj]]; [by apply Hf|by eapply I6].
  - intros r a e. apply entries_stay.
Qed.

Lemma ainv_take x p' :
  let n := default 0 (locals (db w) !! x) + 1 in
  p' = Put (x, n) \/ (exists e, p' = Finished (Err e)) ->
  inv (mkWorld (mkStore (prefixes (db w)) (<[x := n]> (locals (db w))) (bodies (db w))) (<[i := (q, p')]> (tasks w))).
Proof.
  intros n Hp'. destruct Hinv as [I1 I2 I3 I4 I5 I6 I7].
  assert (forall r, pending p' = Some r -> r = (x, n)) as Hnew by (intros r; destruct Hp' as [->|[e ->]]; simpl; congruence).
  assert (bodies (db w) !! (x, n) = None) as Hfree.
  { apply eq_None_not_Some. intros [ae Hb]. by eapply uncovered_take, I2. }
  split; simpl; try done.
  - intros r ae Hr. by apply (covered_take (db w) x (prefixes (db w)) (bodies (db w))), (I2 r ae).
  - intros j qj pj r. rewrite lookup_insert_Some. intros [[_ [= <- <-]]|[_ Hj]] Hp.
    + apply Hnew in Hp as ->. split; [done|]. simpl. exists n. rewrite lookup_insert_eq. split; [done|lia].
    + destruct (I4 j qj pj r Hj Hp) as [H1 H2]. split; [done|].
      by apply (covered_take (db w) x (prefixes (db w)) (bodies (db w))).
  - assert (forall j qj pj, tasks w !! j = Some (qj, pj) -> pending pj <> Some (x, n)) as Hold.
    { intros j qj pj Hj Hp. by eapply uncovered_take, (I4 j qj pj _ Hj Hp). }
    intros j k qj qk pj pk r. rewrite !lookup_insert_Some.
    intros [[<- [= <- <-]]|[_ Hj]] [[<- [= <- <-]]|[_ Hk]] Hp Hq; try done; try (by eapply I5).
    + apply Hnew in Hp as ->. by destruct (Hold _ _ _ Hk Hq).
    + apply Hnew in Hq as ->. by destruct (Hold _ _ _ Hj Hp).
  - intros j qj r. rewrite lookup_insert_Some. intros [[_ [= <- ->]]|[_ Hj]]; [destruct Hp' as [|[]]; done|by eapply I6].
  - intros r a e. apply entries_stay.
Qed.

Lemma ainv_put r :
  p = Put r -> (forall r' e, r' <> r -> bodies (db w) !! r' <> Some (rq_anchor q, e)) ->
  inv (mkWorld (mkStore (prefixes (db w)) (locals (db w)) (<[r := (rq_anchor q, rq_entry q)]> (bodies (db w))))
         (<[i := (q, Finished (Ok r))]> (tasks w))).
Proof.
  intros Hput Hdup. assert (pending p = Some r) as Hpend by (by rewrite Hput).
  pose proof (fun e r0 a0 => entries_stay (Finished (Ok r)) r0 a0 e) as Hent.
  destruct Hinv as [I1 I2 I3 I4 I5 I6 I7].
  destruct (I4 i q _ r Hi Hpend) as [Hfree Hcov]. split; simpl; try done.
  - intros r' ae. rewrite lookup_insert_Some. intros [[<- _]|[_ Hr]]; [done|by eapply I2].
  - intros r1 r2 a e e'. rewrite !lookup_insert_Some.
    intros [[<- [= <- <-]]|[Hne1 H1]] [[<- [= Ha]]|[Hne2 H2]]; try done; [by apply Hdup in H2|subst a; by apply Hdup in H1|by eapply I3].
  - intros j qj pj r' Hj Hp. eapply pending_elsewhere in Hj as [Hne Hj]; [|done|done].
    destruct (I4 j qj pj r' Hj Hp) as [H1 H2]. split; [|done].
    rewrite lookup_insert_ne; [done|]. intros <-. apply Hne. by eapply I5.
  - intros j k qj qk pj pk r' Hj Hk Hp Hq. eapply pending_elsewhere in Hj as [_ Hj]; [|done|done].
    eapply pending_elsewhere in Hk as [_ Hk]; [|done|done]. by eapply I5.
  - intros j qj r'. rewrite lookup_insert_Some. intros [[_ [= <- <-]]|[_ Hj]]; [exists (rq_entry q); by rewrite lookup_insert_eq|].
    destruct (I6 j qj r' Hj) as [e He]. exists e. rewrite lookup_insert_ne; [done|]. intros <-. congruence.
  - intros r' a e. rewrite lookup_insert_Some. intros [[<- [= <- <-]]|[_ Hr]]; [|by eapply Hent].
    exists i, q. by rewrite lookup_insert_eq.
Qed.

End Preservation.

Lemma astep_inv w w' : inv w -> step w w' -> inv w'.
Proof.
  intros Hinv Hs. destruct Hs as [w i q Hi|w i q p st p' Hi Hc%acall_effect]; [by apply ainv_spawn|].
  destruct Hc as [p' Hp' Hf|x p' Ha Hfree Hp' Hf|x p' n Hp'|r Hp Hdup].
  - destruct (db w) as [ps ls bs] eqn:E. pose proof (ainv_quiet w i q p Hinv Hi p' (prefixes (db w))) as H. rewrite E in H.
    apply H; [|done|done]. pose proof (inv_agents _ Hinv) as I1. by rewrite E in I1.
  - apply (ainv_quiet w i q p); try done; [|by intros r ->; destruct (Hf r)].
    intros a b y. rewrite !lookup_insert_Some. intros [[<- <-]|[_ H1]] [[<- H2]|[_ H2]]; try done; [by apply Hfree in H2| |].
    + simplify_eq. by apply Hfree in H1.
    + by eapply inv_agents.
  - by apply (ainv_take w i q p).
  - by apply (ainv_put w i q p).
Qed.

Lemma areachable_inv w : rtc step start w -> inv w.
Proof.
  intros H. remember start as w0. assert (inv w0) by (subst; apply ainv_start).
  clear Heqw0. induction H; eauto using astep_inv.
Qed.

End ArchiveRefs.

(** ** Theorems *)

(** C20: History numbers are durable identities.  However the calls of any number
    of processes interleave, and whatever statements fail, no number is given to
    two history rows.  If an INSERT fails only on a row that is already there,
    every number returned is the one in the registry, so all callers for a row
    get the same number, for ever. *)
Theorem history_numbers_durable flaky w :
  rtc (HistoryRefs.step flaky) HistoryRefs.start w ->
  (forall i j k k' n, HistoryRefs.tasks w !! i = Some (k, HistoryRefs.Finished (Ok n)) ->
     HistoryRefs.tasks w !! j = Some (k', HistoryRefs.Finished (Ok n)) -> k = k') /\
  (flaky = false -> forall i k n, HistoryRefs.tasks w !! i = Some (k, HistoryRefs.Finished (Ok n)) ->
     HistoryRefs.registry (HistoryRefs.db w) !! k = Some n /\
     forall w', rtc (HistoryRefs.step flaky) w w' ->
     forall j m, HistoryRefs.tasks w' !! j = Some (k, HistoryRefs.Finished (Ok m)) -> m = n).
Proof.
  intros Hr. split.
  - intros i j k k' n Hi Hj. eapply HistoryRefs.inv_owner; [by eapply HistoryRefs.hreachable_inv| |]; right; eauto.
  - intros -> i k n Hi. pose proof (HistoryRefs.reachable_recorded w Hr i k _ Hi) as Hreg. split; [done|].
    intros w' Hr' j m Hj. pose proof (HistoryRefs.reachable_recorded w' (transitivity Hr Hr') j k _ Hj) as Hreg'.
    simpl in *. assert (HistoryRefs.registry (HistoryRefs.db w) ⊆ HistoryRefs.registry (HistoryRefs.db w')) as Hsub
      by (by eapply HistoryRefs.run_registry; [apply HistoryRefs.hreachable_inv in Hr|]).
    pose proof (lookup_weaken _ _ _ _ Hreg Hsub). congruence.
Qed.

(** Archive refs are durable identities.  However calls interleave and
    whatever fails, two finished allocations have the same ref exactly when they
    are for the same activity, and the body stored under a ref is what a call
    for that activity handed in; no body is ever replaced by another activity's. *)
Theorem archive_refs_durable w i j q q' r r' :
  rtc ArchiveRefs.step ArchiveRefs.start w ->
  ArchiveRefs.tasks w !! i = Some (q, ArchiveRefs.Finished (Ok r)) ->
  ArchiveRefs.tasks w !! j = Some (q', ArchiveRefs.Finished (Ok r')) ->
  (r = r' <-> ArchiveRefs.rq_anchor q = ArchiveRefs.rq_anchor q') /\
  exists e, ArchiveRefs.bodies (ArchiveRefs.db w) !! r = Some (ArchiveRefs.rq_anchor q, e) /\
    exists k q0, fst <$> ArchiveRefs.tasks w !! k = Some q0 /\
      ArchiveRefs.rq_anchor q0 = ArchiveRefs.rq_anchor q /\ ArchiveRefs.rq_entry q0 = e.
Proof.
  intros Hr Hi Hj. pose proof (ArchiveRefs.areachable_inv w Hr) as Hinv.
  destruct (ArchiveRefs.inv_done _ Hinv _ _ _ Hi) as [e He]. destruct (ArchiveRefs.inv_done _ Hinv _ _ _ Hj) as [e' He'].
  split; [split|].
  - intros <-. congruence.
  - intros Ha. rewrite <-Ha in He'. by eapply ArchiveRefs.inv_anchors.
  - exists e. split; [done|]. by apply (ArchiveRefs.inv_entries _ Hinv r).
Qed.

(** *** Runs *)

Lemma rtc_eq {A} (R : relation A) x y : x = y -> rtc R x y.
Proof. intros ->. apply rtc_refl. Qed.

Ltac spawn i k := eapply rtc_l; [apply (HistoryRefs.step_spawn _ _ i k); reflexivity|].
Ltac run i c := eapply rtc_l; [eapply (HistoryRefs.step_call _ _ i); [reflexivity|apply c; first [reflexivity|by eexists]]|].

Definition demo_key : string * string := ("evt-1", "message").

(** Two processes ask for the number of one row at the same time: both miss it
    and take a number, the second INSERT meets the row of the first. *)
Lemma race_run :
  exists st, rtc (HistoryRefs.step false) HistoryRefs.start
    (HistoryRefs.mkWorld st {[0%nat := (demo_key, HistoryRefs.Finished (Ok 1)); 1%nat := (demo_key, HistoryRefs.Finished (Ok 1))]}).
Proof.
  exists (HistoryRefs.mkStore {[demo_key := 1]} (Some 2)). spawn 0%nat demo_key. spawn 1%nat demo_key.
  run 0%nat HistoryRefs.call_missed. run 1%nat HistoryRefs.call_missed.
  run 0%nat HistoryRefs.call_no_counter. run 0%nat HistoryRefs.call_create. run 1%nat HistoryRefs.call_update.
  run 0%nat HistoryRefs.call_insert. run 1%nat HistoryRefs.call_duplicate. run 1%nat HistoryRefs.call_reread.
  apply rtc_eq. vm_compute. reflexivity.
Qed.

Lemma history_numbers_durable_witness :
  exists w, rtc (HistoryRefs.step false) HistoryRefs.start w /\
    HistoryRefs.registry (HistoryRefs.db w) !! demo_key = Some 1.
Proof.
  destruct race_run as [st H]. eexists. split; [exact H|].
  refine (proj1 (proj2 (history_numbers_durable false _ H) eq_refl 0%nat demo_key 1 _)). reflexivity.
Defined.

(** An INSERT that fails on a transaction conflict is not retried: the SELECT
    after it finds nothing and the call returns its number all the same.  The
    next call gives the row another number. *)
Lemma conflict_forgets_number :
  exists st, rtc (HistoryRefs.step true) HistoryRefs.start
    (HistoryRefs.mkWorld st {[0%nat := (demo_key, HistoryRefs.Finished (Ok 1)); 1%nat := (demo_key, HistoryRefs.Finished (Ok 2))]}) /\
    HistoryRefs.registry st !! demo_key = Some 2.
Proof.
  exists (HistoryRefs.mkStore {[demo_key := 2]} (Some 2)). split.
  - spawn 0%nat demo_key. run 0%nat HistoryRefs.call_missed.
    run 0%nat HistoryRefs.call_no_counter. run 0%nat HistoryRefs.call_create.
    run 0%nat HistoryRefs.call_insert_failed. run 0%nat HistoryRefs.call_reread_none.
    spawn 1%nat demo_key. run 1%nat HistoryRefs.call_missed. run 1%nat HistoryRefs.call_update. run 1%nat HistoryRefs.call_insert.
    apply rtc_eq. vm_compute. reflexivity.
  - vm_compute. reflexivity.
Qed.

Definition demo_request (body : string) : ArchiveRefs.request := ArchiveRefs.mkRequest "agent-a" "evt-2" (JStr body).

(** Two calls for the result of one activity. *)
Definition demo_world (st : ArchiveRefs.store) (p0 p1 : ArchiveRefs.pc) : ArchiveRefs.world :=
  ArchiveRefs.mkWorld st (<[0%nat := (demo_request "first", p0)]> {[1%nat := (demo_request "second", p1)]}).

Lemma demo_first st p0 p1 st' p0' :
  ArchiveRefs.call (demo_request "first") (st, p0) (st', p0') ->
  ArchiveRefs.step (demo_world st p0 p1) (demo_world st' p0' p1).
Proof.
  intros Hc. unfold demo_world. rewrite <-(insert_insert_eq {[1%nat := _]} 0%nat _ (demo_request "first", p0)).
  by eapply (ArchiveRefs.step_call (demo_world st p0 p1) 0%nat).
Qed.

Lemma demo_second st p0 p1 st' p1' :
  ArchiveRefs.call (demo_request "second") (st, p1) (st', p1') ->
  ArchiveRefs.step (demo_world st p0 p1) (demo_world st' p0 p1').
Proof.
  intros Hc. pose proof (ArchiveRefs.step_call (demo_world st p0 p1) 1%nat _ _ _ _ eq_refl Hc) as H.
  simpl in H. unfold demo_world. by rewrite insert_insert_ne, insert_singleton_eq in H.
Qed.

Ltac first_call c := eapply rtc_l; [eapply demo_first, c|].
Ltac second_call c := eapply rtc_l; [eapply demo_second, c|].

(** Two processes archive the result of one activity: the second body is
    refused by the index and its caller gets the ref of the first. *)
Lemma archive_race_run :
  exists st, rtc ArchiveRefs.step ArchiveRefs.start
    (demo_world st (ArchiveRefs.Finished (Ok (1, 1))) (ArchiveRefs.Finished (Ok (1, 1)))).
Proof.
  eexists.
  eapply rtc_l; [apply (ArchiveRefs.step_spawn _ 1%nat (demo_request "second")); reflexivity|].
  eapply rtc_l; [apply (ArchiveRefs.step_spawn _ 0%nat (demo_request "first")); reflexivity|].
  match goal with |- rtc _ ?w _ => change w with (demo_world ArchiveRefs.empty_store ArchiveRefs.Find ArchiveRefs.Find) end.
  first_call ArchiveRefs.call_missed; [intros r e; simpl; by rewrite lookup_empty|].
  second_call ArchiveRefs.call_missed; [intros r e; simpl; by rewrite lookup_empty|].
  first_call ArchiveRefs.call_no_prefix; [done|]. first_call ArchiveRefs.call_max.
  change (ArchiveRefs.claim_next ArchiveRefs.empty_store 0) with (ArchiveRefs.Claim 0 1).
  first_call ArchiveRefs.call_claim; [done|intros a; simpl; by rewrite lookup_empty|].
  second_call ArchiveRefs.call_prefix; [simpl; apply lookup_insert_eq|].
  first_call ArchiveRefs.call_local_unread. first_call ArchiveRefs.call_create; [done|].
  second_call ArchiveRefs.call_local; [simpl; apply lookup_insert_eq|].
  change (ArchiveRefs.taken 1 (1 + 1)) with (ArchiveRefs.Put (1, 2)).
  first_call ArchiveRefs.call_put; [intros r e _; simpl; by rewrite lookup_empty|].
  second_call (ArchiveRefs.call_put_duplicate); [|simpl; by apply lookup_insert_eq|]; [done|].
  second_call ArchiveRefs.call_dup_found; [simpl; by apply lookup_insert_eq|].
  apply rtc_refl.
Qed.

Lemma archive_refs_durable_witness :
  exists st e, rtc ArchiveRefs.step ArchiveRefs.start
      (demo_world st (ArchiveRefs.Finished (Ok (1, 1))) (ArchiveRefs.Finished (Ok (1, 1)))) /\
    ArchiveRefs.bodies st !! (1, 1) = Some ("evt-2", e).
Proof.
  destruct archive_race_run as [st Hrun]. exists st.
  destruct (archive_refs_durable _ 0%nat 1%nat (demo_request "first") (demo_request "second") (1, 1) (1, 1)
    Hrun eq_refl eq_refl) as (_ & e & He & _).
  exists e. exact (conj Hrun He).
Defined.
