(* ===== verification/RefHydrator.v ===== *)
(** * The ref table of a turn, and the prompt built on it

    [baml-rt-provenance/src/surreal_store/ref_table_hydrator.rs] (a [RefTable]
    rebuilt from the durable registries of [DurableRefs]),
    [baml-rt-a2a/src/conversation_context/projecting_provider.rs] (the prompt of
    a turn with a store) and [context_compaction/render.rs] (the text that
    compaction measures and summarises).  The rows of the conversation are an
    argument; the registries are the stores of [DurableRefs], run by one caller. *)

From stdpp Require Import base list strings gmap sorting.
From Stdlib Require Import ZArith Lia Ascii.
From S2P Require Import Prelude RustStr ArchiveRead RefTable Json Ids Errors ToolNames Render PromptProjection ConversationView DurableRefs.

Open Scope string_scope.
Open Scope list_scope.
Open Scope Z_scope.

Definition map_ok {A B E} (f : A -> B) (c : result A E) : result B E :=
  match c with Ok a => Ok (f a) | Err e => Err e end.

(** ** Hydration *)

(** [u32::try_from(z).unwrap_or(d)] *)
Definition u32_or (d z : Z) : Z := if (0 <=? z) && (z <=? u32_max) then z else d.

(** One row of [archive_body]: refs with local 0 and entries that do not decode
    are skipped. *)
Definition hydrate_body (t : RefTable) (row : (Z * Z) * (string * json)) : RefTable :=
  let '((p0, l0), (_, entry_json)) := row in
  let p := u32_or 1 p0 in
  let l := u32_or 0 l0 in
  if l =? 0 then t
  else match entry_from_json entry_json with
       | Ok entry => insert_virtual_archive_ref t (mkShortRef p l) entry
       | Err _ => t
       end.

Definition hydrate_archive_bodies (ast : ArchiveRefs.store) (t : RefTable) : RefTable :=
  foldl hydrate_body t (map_to_list (ArchiveRefs.bodies ast)).

(** The rows of the registry, each with the text the caller or the
    conversation has for its activity. *)
Fixpoint hydrate_history (texts : string -> string) (rows : list (string * string * Z)) (t : RefTable) : outcome RefTable :=
  match rows with
  | [] => Done t
  | (anchor, source, n) :: rest =>
      let! t' := insert_virtual_history t n (mkHistoryEntry anchor source) (texts anchor) in
      hydrate_history texts rest t'
  end.

(** The entries a projection will number: activity, source, text. *)
Fixpoint overlay_history (st : HistoryRefs.store) (es : list (string * string * string)) (t : RefTable)
    : HistoryRefs.store * outcome (result RefTable ProvenanceError) :=
  match es with
  | [] => (st, Done (Ok t))
  | (anchor, source, text) :: rest =>
      let (st', r) := HistoryRefs.history_ref_ensure st anchor source in
      match r with
      | Err e => (st', Done (Err e))
      | Ok n =>
          match insert_virtual_history t n (mkHistoryEntry anchor source) text with
          | Panic => (st', Panic)
          | Done t' => overlay_history st' rest t'
          end
      end
  end.

Section Hydrator.
Context {regex : Type}.
Variable Regex_new : string -> result regex string.
Variable is_match : regex -> string -> bool.
Variable to_string to_string_pretty : json -> string.
Variable handler : ToolName -> option (json -> string).

Definition conversation_item_history_text (i : item) : option string :=
  match ConversationView.content i with
  | Message text _ => if blank text then None else Some text
  | ToolCall tc => Some (tc_tool_name tc +:+ " " +:+ to_string (tc_args tc))
  | _ => None
  end.

(** [map.entry(anchor).or_insert(text)]: the first text of an activity stays. *)
Definition fallback_texts (items : list item) : gmap string string :=
  foldl (fun m i =>
    match conversation_item_history_text i with
    | Some text => match m !! ConversationView.activity_anchor i with
                   | None => <[ConversationView.activity_anchor i := text]> m
                   | Some _ => m
                   end
    | None => m
    end) ∅ items.

(** [conversation] is the read of the whole conversation, done only when some
    activity of the registry has no known text. *)
Definition hydrate_ref_table (st : HistoryRefs.store) (ast : ArchiveRefs.store)
    (conversation : result (list item) ProvenanceError) (known_text : gmap string string)
    : outcome (result RefTable ProvenanceError) :=
  match HistoryRefs.history_ref_list_for_context st with
  | Err e => Done (Err e)
  | Ok rows =>
      let needs_read := existsb (fun r => negb (bool_decide (is_Some (known_text !! r.1.1)))) rows in
      match (if needs_read then map_ok fallback_texts conversation else Ok ∅) with
      | Err e => Done (Err e)
      | Ok fallback =>
          let texts anchor := default EmptyString (opt_or (known_text !! anchor) (fallback !! anchor)) in
          let! t := hydrate_history texts rows RefTable_new in
          Done (Ok (hydrate_archive_bodies ast t))
      end
  end.

(** The history entry of one item, as the hydrator computes it. *)
Definition hydrated_entry (item : PromptProjectionItem) : option (string * string * string) :=
  let anchor := pi_activity_anchor item in
  match pi_content item with
  | PMessage text _ => if blank text then None else Some (anchor, "message", text)
  | PToolCall tool_name args =>
      let desc0 := describe_invocation_with_hint handler (Some tool_name) args in
      let desc := if blank desc0 then to_string_pretty args else desc0 in
      if blank desc then None else Some (anchor, "tool_call", desc)
  | PPlanning plan =>
      if blank (pp_summary plan) then None
      else Some (anchor, "plan",
        "[planning:" +:+ PlanningProjectionKind_as_wire_str (pp_kind plan) +:+ "] " +:+ pp_summary plan +:+
        match pp_detail plan with
        | Some detail => if blank detail then EmptyString else " — " +:+ detail
        | None => EmptyString
        end)
  | PCompactionSummary summary _ _ => if blank summary then None else Some (anchor, "compaction", summary)
  | _ => None
  end.

(** [collect] into a map: the last text of an activity wins. *)
Definition known_texts (es : list (string * string * string)) : gmap string string :=
  foldl (fun m e => <[e.1.1 := e.2]> m) ∅ es.

Definition prepare_ref_table_for_projection (st : HistoryRefs.store) (ast : ArchiveRefs.store)
    (conversation : result (list item) ProvenanceError) (items : list PromptProjectionItem)
    : HistoryRefs.store * outcome (result RefTable ProvenanceError) :=
  let history_entries := omap hydrated_entry items in
  let (st1, r) := HistoryRefs.sync_history_refs_for_projection st (fst <$> history_entries) in
  match r with
  | Err e => (st1, Done (Err e))
  | Ok _ =>
      match hydrate_ref_table st1 ast conversation (known_texts history_entries) with
      | Panic => (st1, Panic)
      | Done (Err e) => (st1, Done (Err e))
      | Done (Ok t) => overlay_history st1 history_entries t
      end
  end.

(** ** The prompt of a turn *)

(** What a turn reads and leaves: the registries and the tables of all contexts. *)
Record turn_state := mkTurn {
  ts_history : HistoryRefs.store;
  ts_archive : ArchiveRefs.store;
  ts_tables : option ContextRefTables;
}.

(** [tables.insert(context_id, prepared)]: the context gets a new cell. *)
Definition replace_table (tables : ContextRefTables) (ctx : string) (t : RefTable) : ContextRefTables :=
  mkTables (<[ctx := next_cell tables]> (ctx_cell tables)) (<[next_cell tables := t]> (heap tables)) (S (next_cell tables)).

(** [project_conversation_to_json] with a provenance store.  The archive reader
    looks the table of the context up in the shared map, where it is the table
    being projected into; without a map there is no reader. *)
Definition project_conversation_to_json (s : turn_state) (ctx : string)
    (rows : result (list item) ProvenanceError) (conversation : result (list item) ProvenanceError)
    : turn_state * outcome (result (option json) ProvenanceError) :=
  match rows with
  | Err e => (s, Done (Err e))
  | Ok items =>
      match omap provenance_item_to_projection_item items with
      | [] => (s, Done (Ok None))
      | projection_items =>
          let (st', prepared) := prepare_ref_table_for_projection (ts_history s) (ts_archive s) conversation projection_items in
          match prepared with
          | Panic => (mkTurn st' (ts_archive s) (ts_tables s), Panic)
          | Done (Err e) => (mkTurn st' (ts_archive s) (ts_tables s), Done (Err e))
          | Done (Ok t) =>
              let rd := match ts_tables s with Some _ => Some (table_reader Regex_new is_match) | None => None end in
              match project_prompt_context Regex_new is_match to_string to_string_pretty handler projection_items t rd with
              | Panic => (mkTurn st' (ts_archive s) ((fun ts => replace_table ts ctx t) <$> ts_tables s), Panic)
              | Done (t', history) =>
                  (mkTurn st' (ts_archive s) ((fun ts => replace_table ts ctx t') <$> ts_tables s), Done (Ok (Some history)))
              end
          end
      end
  end.

(** ** Text for compaction *)

Definition compaction_operational_line (i : item) : option string :=
  match ConversationView.content i with
  | Operational o =>
      if operational_is_meaningful o then Some (ConversationView.role i +:+ ": " +:+ op_summary o) else None
  | _ => None
  end.

Definition render_items_with_ref_table (items : list item) (t : RefTable) : outcome (RefTable * string) :=
  let ops := omap compaction_operational_line items in
  match omap provenance_item_to_projection_item items with
  | [] => Done (t, join nl_str ops)
  | projection_items =>
      let! (t', history) := project_prompt_context Regex_new is_match to_string to_string_pretty handler projection_items t None in
      let rendered := format_conversation_history_transcript to_string (default [] (as_array history)) in
      Done (t', join nl_str ((if blank rendered then [] else [rendered]) ++ ops))
  end.

Definition prepare_render_context (st : HistoryRefs.store) (ast : ArchiveRefs.store)
    (conversation : result (list item) ProvenanceError) (items : list item)
    : HistoryRefs.store * outcome (result (option RefTable) ProvenanceError) :=
  match items with
  | [] => (st, Done (Ok None))
  | _ =>
      match omap provenance_item_to_projection_item items with
      | [] => (st, Done (Ok (Some RefTable_new)))
      | projection_items =>
          let (st', r) := prepare_ref_table_for_projection st ast conversation projection_items in
          (st', let! r' := r in Done (map_ok Some r'))
      end
  end.

Definition render_items_for_context (st : HistoryRefs.store) (ast : ArchiveRefs.store)
    (conversation : result (list item) ProvenanceError) (items : list item)
    : HistoryRefs.store * outcome (result string ProvenanceError) :=
  let (st', r) := prepare_render_context st ast conversation items in
  (st', let! r' := r in
        match r' with
        | Err e => Done (Err e)
        | Ok None => Done (Ok EmptyString)
        | Ok (Some t) => let! (_, s) := render_items_with_ref_table items t in Done (Ok s)
        end).

Definition estimate_compaction_prompt_bytes (st : HistoryRefs.store) (ast : ArchiveRefs.store)
    (conversation : result (list item) ProvenanceError) (items : list item)
    : HistoryRefs.store * outcome (result Z ProvenanceError) :=
  let (st', r) := render_items_for_context st ast conversation items in
  (st', let! r' := r in Done (map_ok (fun s => Z.of_nat (String.length s)) r')).

End Hydrator.

(** ** The registry, run by one caller *)

(** Activities carry no NUL, numbers were issued by the counter. *)
Record registry_wf (st : HistoryRefs.store) : Prop := {
  rw_plain : forall a s n, HistoryRefs.registry st !! (a, s) = Some n -> plain a;
  rw_issued : forall k n, HistoryRefs.registry st !! k = Some n -> 1 <= n <= default 0 (HistoryRefs.counter st);
  rw_counter : 0 <= default 0 (HistoryRefs.counter st);
}.

Lemma as_ref_number_ok what n : n <= u32_max -> as_ref_number what n = Ok n.
Proof. intros H. unfold as_ref_number. by rewrite (proj2 (Z.leb_le n u32_max)). Qed.

Lemma ensure_spec st a s :
  registry_wf st -> plain a -> default 0 (HistoryRefs.counter st) < u32_max ->
  exists st' n, HistoryRefs.history_ref_ensure st a s = (st', Ok n) /\ registry_wf st' /\
    HistoryRefs.registry st ⊆ HistoryRefs.registry st' /\ HistoryRefs.registry st' !! (a, s) = Some n /\
    default 0 (HistoryRefs.counter st') <= default 0 (HistoryRefs.counter st) + 1 /\
    (is_Some (HistoryRefs.registry st !! (a, s)) -> st' = st).
Proof.
  intros Hwf Ha Hc. unfold HistoryRefs.history_ref_ensure.
  destruct (HistoryRefs.registry st !! (a, s)) as [n|] eqn:E.
  { rewrite as_ref_number_ok by (apply (rw_issued _ Hwf) in E; lia). exists st, n. split_and!; try done; lia. }
  unfold HistoryRefs.session_ref_next. rewrite as_ref_number_ok by lia. eexists _, _. split; [done|].
  destruct Hwf as [H1 H2 H3]. split_and!; simpl; [|by apply insert_subseteq|apply lookup_insert_eq|lia|by intros []].
  split; simpl; [| |lia].
  - intros a' s' n. rewrite lookup_insert_Some. intros [[[= <- <-] _]|[_ H]]; [done|]. by eapply H1.
  - intros k n. rewrite lookup_insert_Some. intros [[_ <-]|[_ H]]; [lia|]. specialize (H2 _ _ H). lia.
Qed.

(** The keys of entries that need a number. *)
Notation entry_keys es := (fst <$> (es : list (string * string * string))).

Lemma sync_spec es st :
  registry_wf st -> Forall (fun e => plain e.1) es ->
  default 0 (HistoryRefs.counter st) + Z.of_nat (length es) <= u32_max ->
  exists st', HistoryRefs.sync_history_refs_for_projection st es = (st', Ok tt) /\ registry_wf st' /\
    HistoryRefs.registry st ⊆ HistoryRefs.registry st' /\
    default 0 (HistoryRefs.counter st') <= default 0 (HistoryRefs.counter st) + Z.of_nat (length es) /\
    forall e, e ∈ es -> is_Some (HistoryRefs.registry st' !! e).
Proof.
  revert st. induction es as [|[a s] es IH]; intros st Hwf Hp Hc; simpl in *.
  { exists st. split_and!; try done; [lia|]. by intros e ?%not_elem_of_nil. }
  apply Forall_cons in Hp as [Ha Hp].
  destruct (ensure_spec st a s) as (st1 & n & -> & W1 & S1 & R1 & C1 & _); [done|done|lia|].
  destruct (IH st1) as (st2 & -> & W2 & S2 & C2 & R2); [done|done|lia|].
  exists st2. split_and!; [done|done|by etrans|lia|]. intros e [->|He]%elem_of_cons; [|by apply R2].
  exists n. by eapply lookup_weaken.
Qed.

(** ** The numbering of a hydrated table *)

(** Every number of the table is the registry's. *)
Definition agrees (reg : gmap (string * string) Z) (t : RefTable) : Prop :=
  forall k n, history_stable_key_to_n t !! k = Some n ->
    exists a s, k = history_stable_key_parts a s /\ plain a /\ reg !! (a, s) = Some n.

Lemma agrees_new reg : agrees reg RefTable_new.
Proof. intros k n. simpl. by rewrite lookup_empty. Qed.

Lemma parts_inj a s a' s' :
  plain a -> plain a' -> history_stable_key_parts a s = history_stable_key_parts a' s' -> a = a' /\ s = s'.
Proof.
  intros H1 H2 Heq. pose proof (stable_key_inj (mkHistoryEntry a s) (mkHistoryEntry a' s') H1 H2 Heq). by simplify_eq.
Qed.

Lemma insert_virtual_spec reg t a s n text :
  agrees reg t -> plain a -> reg !! (a, s) = Some n ->
  exists t', insert_virtual_history t n (mkHistoryEntry a s) text = Done t' /\ agrees reg t' /\
    history_stable_key_to_n t ⊆ history_stable_key_to_n t' /\
    history_stable_key_to_n t' !! history_stable_key_parts a s = Some n /\ entries t' = entries t.
Proof.
  intros Hag Ha Hn. unfold insert_virtual_history. simpl.
  destruct (history_stable_key_to_n t !! history_stable_key_parts a s) as [m|] eqn:E.
  - destruct (Hag _ _ E) as (a' & s' & Hk & Ha' & Hm). apply parts_inj in Hk as [<- <-]; [|done|done].
    rewrite Hm in Hn. injection Hn as ->. rewrite Z.eqb_refl. eexists. by split_and!.
  - eexists. split; [done|]. simpl. split_and!; [|by apply insert_subseteq|apply lookup_insert_eq|done].
    intros k p. simpl. rewrite lookup_insert_Some. intros [[<- <-]|[_ H]]; [eauto|by apply Hag].
Qed.

Lemma hydrate_history_spec reg texts rows t :
  agrees reg t -> Forall (fun r => plain r.1.1 /\ reg !! r.1 = Some r.2) rows ->
  exists t', hydrate_history texts rows t = Done t' /\ agrees reg t' /\ entries t' = entries t /\
    history_stable_key_to_n t ⊆ history_stable_key_to_n t' /\
    forall a s n, (a, s, n) ∈ rows -> history_stable_key_to_n t' !! history_stable_key_parts a s = Some n.
Proof.
  intros Hag Hr. revert t Hag. induction Hr as [|[[a s] n] rows [Hp Hn] _ IH]; intros t Hag; simpl in *.
  { exists t. split_and!; try done. by intros a s n ?%not_elem_of_nil. }
  destruct (insert_virtual_spec reg t a s n (texts a)) as (t1 & -> & A1 & S1 & K1 & E1); [done..|]. simpl.
  destruct (IH t1 A1) as (t2 & -> & A2 & E2 & S2 & K2). exists t2. split_and!; [done|done|congruence|by etrans|].
  intros a' s' n' [[= -> -> ->]|H]%elem_of_cons; [by eapply lookup_weaken|by apply K2].
Qed.

Lemma overlay_spec st es t :
  registry_wf st -> default 0 (HistoryRefs.counter st) < u32_max ->
  Forall (fun e => plain e.1.1 /\ is_Some (HistoryRefs.registry st !! e.1)) es ->
  agrees (HistoryRefs.registry st) t ->
  exists t', overlay_history st es t = (st, Done (Ok t')) /\ agrees (HistoryRefs.registry st) t' /\
    entries t' = entries t /\ history_stable_key_to_n t ⊆ history_stable_key_to_n t'.
Proof.
  intros Hwf Hc He. revert t. induction He as [|[[a s] text] es [Hp Hr] _ IH]; intros t Hag; simpl in *.
  { exists t. by split_and!. }
  destruct (ensure_spec st a s) as (st' & n & -> & _ & _ & R & _ & Hsame); [done|done|done|].
  rewrite (Hsame Hr) in *.
  destruct (insert_virtual_spec (HistoryRefs.registry st) t a s n text) as (t1 & -> & A1 & S1 & _ & E1); [done..|].
  destruct (IH t1 A1) as (t2 & -> & A2 & E2 & S2). exists t2. split_and!; [done|done|congruence|by etrans].
Qed.

(** ** The archive of a hydrated table *)

Definition hydrated_ref (row : (Z * Z) * (string * json)) : ShortRef := mkShortRef (u32_or 1 row.1.1) (u32_or 0 row.1.2).

Lemma hydrate_body_numbering t row : history_stable_key_to_n (hydrate_body t row) = history_stable_key_to_n t.
Proof.
  destruct row as [[p l] [a j]]. unfold hydrate_body. case_match; [done|]. case_match; [|done].
  unfold insert_virtual_archive_ref. by case_match.
Qed.

Lemma hydrate_bodies_numbering ast t : history_stable_key_to_n (hydrate_archive_bodies ast t) = history_stable_key_to_n t.
Proof.
  unfold hydrate_archive_bodies. revert t. induction (map_to_list (ArchiveRefs.bodies ast)) as [|row rows IH]; intros t; [done|].
  simpl. by rewrite IH, hydrate_body_numbering.
Qed.

(** What one stored body makes of the archive under a ref. *)
Definition body_content (row : (Z * Z) * (string * json)) : option RenderedContent :=
  if u32_or 0 row.1.2 =? 0 then None else RefTable.content <$> ok (entry_from_json row.2.2).

Lemma hydrate_body_archived t row r :
  archived (hydrate_body t row) r =
  match body_content row with
  | Some c => if bool_decide (ShortRef_cell_key (hydrated_ref row) = ShortRef_cell_key r) then Some c else archived t r
  | None => archived t r
  end.
Proof.
  destruct row as [[p l] [a j]]. unfold hydrate_body, body_content, hydrated_ref. simpl.
  destruct (u32_or 0 l =? 0); [done|]. destruct (entry_from_json j) as [e|]; simpl; [|done]. by rewrite archived_virtual.
Qed.

Lemma u32_or_wf d z : is_u32 d -> is_u32 (u32_or d z).
Proof. unfold u32_or, is_u32. intros Hd. case_match; lia. Qed.

Lemma u32_or_id d z : is_u32 z -> u32_or d z = z.
Proof. unfold is_u32. intros H. unfold u32_or. case_match; lia. Qed.

Lemma hydrated_ref_wf row : ShortRef_wf (hydrated_ref row).
Proof. split; apply u32_or_wf; unfold is_u32, u32_max; lia. Qed.

(** Stored refs are [u32] pairs. *)
Definition refs_u32 (ast : ArchiveRefs.store) : Prop :=
  forall p l b, ArchiveRefs.bodies ast !! (p, l) = Some b -> is_u32 p /\ is_u32 l.

Definition stored_content (ast : ArchiveRefs.store) (r : ShortRef) : option RenderedContent :=
  b ← ArchiveRefs.bodies ast !! (prefix r, local r); body_content ((prefix r, local r), b).

Lemma hydrate_bodies_archived ast t r :
  refs_u32 ast -> ShortRef_wf r -> entries t = ∅ ->
  archived (hydrate_archive_bodies ast t) r = stored_content ast r.
Proof.
  intros Hu Hr Ht. unfold hydrate_archive_bodies, stored_content.
  assert (forall rows t, NoDup rows.*1 -> (forall k b, (k, b) ∈ rows -> is_u32 k.1 /\ is_u32 k.2) ->
    archived (foldl hydrate_body t rows) r =
    match list_to_map (M := gmap (Z * Z) (string * json)) rows !! (prefix r, local r) ≫= (fun b => body_content ((prefix r, local r), b)) with
    | Some c => Some c | None => archived t r end) as Hfold.
  { induction rows as [|[[p l] b] rows IH]; intros t' Hnd Hk; [simpl; by rewrite lookup_empty|]. cbn [foldl]. rewrite list_to_map_cons.
    cbn [fmap list_fmap fst] in Hnd.
    apply NoDup_cons in Hnd as [Hnin Hnd]. rewrite IH by (try done; intros; apply (Hk k b0); by right). clear IH.
    destruct (Hk (p, l) b) as [Hp Hl]; [by left|]. cbn [fst snd] in Hp, Hl. rewrite hydrate_body_archived.
    unfold hydrated_ref. simpl. rewrite !u32_or_id by done.
    destruct (decide ((p, l) = (prefix r, local r))) as [Heq|Hne].
    - simplify_eq. rewrite lookup_insert_eq.
      rewrite (not_elem_of_list_to_map_1 rows (prefix r, local r)) by done. simpl.
      destruct (body_content (prefix r, local r, b)); [|done].
      rewrite bool_decide_true; [done|]. by destruct r.
    - rewrite lookup_insert_ne by done. destruct (list_to_map rows !! _ ≫= _); [done|].
      destruct (body_content (p, l, b)); [|done]. rewrite bool_decide_false; [done|].
      intros Heq. apply Hne. apply cell_key_inj in Heq; [|done|done]. by subst. }
  rewrite Hfold, list_to_map_to_list.
  - destruct (ArchiveRefs.bodies ast !! _) as [b|]; simpl; [|].
    all: unfold archived, RefTable_get; rewrite ?Ht, ?lookup_empty; simpl; try done. by case_match.
  - apply NoDup_fst_map_to_list.
  - intros [p l] b Hb. apply elem_of_map_to_list in Hb. by apply Hu in Hb.
Qed.

(** ** A prepared table *)

Lemma archived_entries t u r : entries t = entries u -> archived t r = archived u r.
Proof. unfold archived, RefTable_get. by intros ->. Qed.

Lemma history_list_spec st :
  registry_wf st -> default 0 (HistoryRefs.counter st) <= u32_max ->
  exists rows, HistoryRefs.history_ref_list_for_context st = Ok rows /\
    forall a s n, (a, s, n) ∈ rows <-> HistoryRefs.registry st !! (a, s) = Some n.
Proof.
  intros Hwf Hc. unfold HistoryRefs.history_ref_list_for_context.
  set (rows := merge_sort _ _).
  assert (forall a s n, (a, s, n) ∈ rows <-> HistoryRefs.registry st !! (a, s) = Some n) as Hin.
  { intros a s n. unfold rows. rewrite merge_sort_Permutation, list_elem_of_fmap. split.
    - intros ([[a' s'] n'] & [= -> -> ->] & H). by apply elem_of_map_to_list in H.
    - intros H. exists ((a, s), n). split; [done|]. by apply elem_of_map_to_list. }
  exists rows. split; [|done]. destruct (list_find _ rows) as [[i r]|] eqn:E; [|done]. exfalso.
  apply list_find_Some in E as (E1 & E2 & _). destruct r as [[a s] n]. apply list_elem_of_lookup_2 in E1.
  apply Hin, (rw_issued _ Hwf) in E1. simpl in E2. lia.
Qed.

Lemma hydrate_entries_ext ast t u :
  entries t = entries u -> entries (hydrate_archive_bodies ast t) = entries (hydrate_archive_bodies ast u).
Proof.
  unfold hydrate_archive_bodies. revert t u.
  induction (map_to_list (ArchiveRefs.bodies ast)) as [|[[p l] [a j]] rows IH]; intros t u H; [done|]. cbn [foldl]. apply IH.
  unfold hydrate_body. case_match; [done|]. case_match; [|done]. unfold insert_virtual_archive_ref. case_match; simpl; by rewrite H.
Qed.

(** Every stored entry was written from text. *)
Definition bodies_utf8 (ast : ArchiveRefs.store) : Prop :=
  forall k a j e, ArchiveRefs.bodies ast !! k = Some (a, j) -> entry_from_json j = Ok e -> rendered_wf (RefTable.content e).

Lemma hydrate_bodies_readable ast t :
  bodies_utf8 ast -> archive_readable t -> archive_readable (hydrate_archive_bodies ast t).
Proof.
  intros Hb. unfold hydrate_archive_bodies.
  assert (forall k b, (k, b) ∈ map_to_list (ArchiveRefs.bodies ast) -> ArchiveRefs.bodies ast !! k = Some b) as Hin
    by (intros k b; apply elem_of_map_to_list).
  revert t Hin. induction (map_to_list (ArchiveRefs.bodies ast)) as [|[k [a j]] rows IH]; intros t Hin Ht; [done|].
  cbn [foldl]. apply IH; [intros k' b' H; apply Hin; by right|].
  intros r c. rewrite hydrate_body_archived. unfold body_content. cbn [fst snd].
  destruct (_ =? 0); [apply Ht|]. destruct (entry_from_json j) as [e|] eqn:E; simpl; [|apply Ht].
  case_bool_decide; [|apply Ht]. intros [= <-]. eapply Hb; [apply Hin; by left|exact E].
Qed.

Section Prepared.
#[local] Set Default Proof Using "Type".
Context {regex : Type}.
Variable Regex_new : string -> result regex string.
Variable is_match : regex -> string -> bool.
Variable to_string to_string_pretty : json -> string.
Variable handler : ToolName -> option (json -> string).

Notation prepare := (prepare_ref_table_for_projection to_string to_string_pretty handler).
Notation hentry := (hydrated_entry to_string_pretty handler).

Lemma hydrated_entry_anchor item e : hentry item = Some e -> e.1.1 = pi_activity_anchor item.
Proof. unfold hydrated_entry. destruct (pi_content item); simpl; intros; repeat case_match; simplify_eq; done. Qed.

Lemma hydrated_plain items :
  Forall (fun i => plain (pi_activity_anchor i)) items -> Forall (fun e => plain e.1.1) (omap hentry items).
Proof.
  intros H. apply Forall_forall. intros e (i & Hi & He)%list_elem_of_omap.
  rewrite (hydrated_entry_anchor i e He). rewrite Forall_forall in H. by apply H.
Qed.

Lemma hydrate_ref_table_spec st ast conv known :
  registry_wf st -> default 0 (HistoryRefs.counter st) <= u32_max ->
  exists t, hydrate_ref_table to_string st ast (Ok conv) known = Done (Ok t) /\ agrees (HistoryRefs.registry st) t /\
    (forall a s n, HistoryRefs.registry st !! (a, s) = Some n ->
       history_stable_key_to_n t !! history_stable_key_parts a s = Some n) /\
    entries t = entries (hydrate_archive_bodies ast RefTable_new).
Proof.
  intros Hwf Hc. unfold hydrate_ref_table. destruct (history_list_spec st) as (rows & -> & Hrows); [done|lia|].
  set (read := existsb _ rows).
  assert (exists fb, (if read then map_ok (fallback_texts to_string) (Ok conv) else Ok ∅) =
    (Ok fb : result _ ProvenanceError)) as [fb ->] by (destruct read; simpl; eauto).
  destruct (hydrate_history_spec (HistoryRefs.registry st) (fun anchor => default EmptyString (opt_or (known !! anchor) (fb !! anchor)))
    rows RefTable_new) as (t & -> & A & E & _ & K).
  - apply agrees_new.
  - apply Forall_forall. intros [[a s] n] Hin%Hrows. split; [by eapply rw_plain|done].
  - simpl. exists (hydrate_archive_bodies ast t). split_and!; [done| | |by apply hydrate_entries_ext].
    + intros k n. rewrite hydrate_bodies_numbering. apply A.
    + intros a s n H%Hrows. rewrite hydrate_bodies_numbering. by apply K.
Qed.

(** What a prepared table is: the numbers are the registry's, the archive is
    the store's, and every entry to be numbered is registered. *)
Lemma prepare_spec st ast conv items :
  registry_wf st -> Forall (fun i => plain (pi_activity_anchor i)) items ->
  default 0 (HistoryRefs.counter st) + Z.of_nat (length items) < u32_max ->
  exists st' t, prepare st ast (Ok conv) items = (st', Done (Ok t)) /\ registry_wf st' /\
    HistoryRefs.registry st ⊆ HistoryRefs.registry st' /\ agrees (HistoryRefs.registry st') t /\
    (forall a s n, HistoryRefs.registry st' !! (a, s) = Some n ->
       history_stable_key_to_n t !! history_stable_key_parts a s = Some n) /\
    (forall e, e ∈ omap hentry items -> is_Some (HistoryRefs.registry st' !! e.1)) /\
    entries t = entries (hydrate_archive_bodies ast RefTable_new).
Proof.
  intros Hwf Hp Hc. unfold prepare_ref_table_for_projection.
  set (es := omap hentry items). pose proof (hydrated_plain items Hp) as Hpl. fold es in Hpl.
  assert (length es <= length items)%nat as Hlen by (subst es; clear; induction items as [|i r IH]; cbn; [lia|]; destruct (hentry i); cbn; lia).
  destruct (sync_spec (fst <$> es) st) as (st1 & -> & W1 & S1 & C1 & R1);
    [done|by apply Forall_fmap|rewrite length_fmap; lia|]. rewrite length_fmap in C1.
  destruct (hydrate_ref_table_spec st1 ast conv (known_texts es)) as (t1 & -> & A1 & K1 & E1); [done|lia|].
  destruct (overlay_spec st1 es t1) as (t2 & -> & A2 & E2 & S2); [done|lia| |done|].
  { apply Forall_forall. intros e He. split; [rewrite Forall_forall in Hpl; by apply Hpl|apply R1, list_elem_of_fmap; eauto]. }
  exists st1, t2. split_and!; try done; [|intros e He; apply R1, list_elem_of_fmap; eauto|congruence].
  intros a s n H. eapply lookup_weaken; [|exact S2]. by apply K1.
Qed.

End Prepared.

Section Turns.
#[local] Set Default Proof Using "Type".
Context {regex : Type}.
Variable Regex_new : string -> result regex string.
Variable is_match : regex -> string -> bool.
Variable to_string to_string_pretty : json -> string.
Variable handler : ToolName -> option (json -> string).

Notation prepare := (prepare_ref_table_for_projection to_string to_string_pretty handler).
Notation hentry := (hydrated_entry to_string_pretty handler).
Notation project := (project_rows Regex_new is_match to_string to_string_pretty handler).
Notation turn := (project_conversation_to_json Regex_new is_match to_string to_string_pretty handler).

(** What the pretty printer writes is never blank. *)
Definition pretty_prints : Prop := forall v, blank (to_string_pretty v) = false.

(** Every row that takes a number in the prompt is registered by the hydrator
    under the same activity and source. *)
Lemma numbered_is_hydrated item src body cits :
  pretty_prints ->
  numbered_text to_string_pretty handler ProjectionRenderOptions_default item = Some (src, body, cits) ->
  exists text, hentry item = Some (pi_activity_anchor item, src, text).
Proof.
  intros Hpp. unfold numbered_text, hydrated_entry. destruct (pi_content item) as [text c|n args| | | |plan|s x y]; try done.
  - destruct (blank text); [done|]. simpl. case_match; [done|]. intros [= <- <- _]. eauto.
  - simpl. rewrite andb_false_r. case_match; [done|]. intros [= <- _ _].
    destruct (blank (describe_invocation_with_hint handler (Some n) args)) eqn:E; rewrite ?Hpp, ?E; eauto.
  - destruct (blank (pp_summary plan)); [done|]. intros [= <- _ _]. eauto.
  - destruct (blank s); [done|]. intros [= <- _ _]. eauto.
Qed.

Definition all_numbered_in (t : RefTable) (items : list PromptProjectionItem) : Prop :=
  Forall (fun i => forall src body cits,
    numbered_text to_string_pretty handler ProjectionRenderOptions_default i = Some (src, body, cits) ->
    is_Some (history_stable_key_to_n t !! history_stable_key_parts (pi_activity_anchor i) src)) items.

(** A projection of registered rows takes no new number. *)
Lemma project_numbering_fixed items t rd t1 rows :
  all_numbered_in t items -> project items t rd ProjectionRenderOptions_default = Done (t1, rows) ->
  history_stable_key_to_n t1 = history_stable_key_to_n t.
Proof.
  revert t t1 rows. induction items as [|item items IH]; intros t t1 rows Ha; simpl; [by intros [= <- _]|].
  apply Forall_cons in Ha as [Hi Ha]. rewrite item_rows_split.
  destruct (numbered_text _ _ _ item) as [[[src body] cits]|] eqn:E.
  - destruct (Hi src body cits eq_refl) as [n Hn].
    assert (history_stable_key_to_n (RefTable_insert_history t (mkHistoryEntry (pi_activity_anchor item) src) body).1 =
      history_stable_key_to_n t) as Hs by (unfold RefTable_insert_history; simpl; rewrite Hn; simpl; by case_match).
    destruct (RefTable_insert_history _ _ _) as [ta m]. simpl in *.
    destruct (project items ta rd _) as [[tb rb]|] eqn:E2; simpl; [|done]. intros [= <- _].
    rewrite <-Hs. eapply IH; [|exact E2]. unfold all_numbered_in. by rewrite Hs.
  - destruct (unnumbered_entry _ _ _ _ t rd item); simpl; [|done].
    destruct (project items _ rd _) as [[tb rb]|] eqn:E2; simpl; [|done]. intros [= <- _].
    rewrite <-(numbering_seed to_string t item). eapply IH; [|exact E2]. unfold all_numbered_in. by rewrite numbering_seed.
Qed.

Lemma parse_loose_wf s r : ShortRef_parse_loose s = Some r -> ShortRef_wf r.
Proof.
  unfold ShortRef_parse_loose, opt_or. destruct (ShortRef_parse (trim s)) eqn:E; [intros [= <-]; by eapply ShortRef_parse_wf|].
  destruct (rfind_char _ _); simpl; [|done]. apply ShortRef_parse_wf.
Qed.

Lemma read_ref_wf item r : read_ref item = Some r -> ShortRef_wf r.
Proof. unfold read_ref. repeat case_match; try done; apply parse_loose_wf. Qed.

Definition turn_reader (s : turn_state) : option ArchiveReader :=
  match ts_tables s with Some _ => Some (table_reader Regex_new is_match) | None => None end.

Lemma turn_reader_lawful s : reader_ext (turn_reader s) /\ reader_total (turn_reader s).
Proof.
  unfold turn_reader. destruct (ts_tables s); [apply table_reader_lawful|]. by split; intros r ? **.
Qed.

(** The state a turn may start from. *)
Record turn_ok (s : turn_state) (items : list PromptProjectionItem) : Prop := {
  to_registry : registry_wf (ts_history s);
  to_room : default 0 (HistoryRefs.counter (ts_history s)) + Z.of_nat (length items) < u32_max;
  to_refs : refs_u32 (ts_archive s);
  to_bodies : bodies_utf8 (ts_archive s);
  to_anchors : Forall (fun i => plain (pi_activity_anchor i)) items;
  to_texts : Forall (item_utf8 to_string) items;
}.

(** A turn: the table is prepared from the stores, then projected into. *)
Lemma turn_spec s ctx items conv pis :
  pretty_prints -> omap provenance_item_to_projection_item items = pis -> pis <> [] -> turn_ok s pis ->
  exists s' t rows, turn s ctx (Ok items) (Ok conv) = (s', Done (Ok (Some (JArr rows)))) /\
    (exists t', project_prompt_context Regex_new is_match to_string to_string_pretty handler pis t (turn_reader s) =
       Done (t', JArr rows) /\ history_stable_key_to_n t' = history_stable_key_to_n t /\
       ts_tables s' = (fun ts => replace_table ts ctx t') <$> ts_tables s) /\
    agrees (HistoryRefs.registry (ts_history s')) t /\
    (forall a k n, HistoryRefs.registry (ts_history s') !! (a, k) = Some n ->
       history_stable_key_to_n t !! history_stable_key_parts a k = Some n) /\
    HistoryRefs.registry (ts_history s) ⊆ HistoryRefs.registry (ts_history s') /\
    (forall r, ShortRef_wf r -> archived t r = stored_content (ts_archive s) r) /\ archive_readable t /\
    entries t = entries (hydrate_archive_bodies (ts_archive s) RefTable_new).
Proof.
  intros Hpp Hpis Hne Hok. destruct (prepare_spec to_string to_string_pretty handler (ts_history s) (ts_archive s) conv pis)
    as (st' & t & Hprep & W & S & A & K & R & E); [apply Hok|apply Hok|apply Hok|].
  assert (archive_readable RefTable_new) as Hnew by (intros r c; unfold archived, RefTable_get; simpl; by rewrite lookup_empty).
  assert (archive_readable t) as Hread.
  { intros r c. rewrite (archived_entries t (hydrate_archive_bodies (ts_archive s) RefTable_new)) by done.
    by apply hydrate_bodies_readable; [apply Hok|]. }
  destruct (project_total Regex_new is_match to_string to_string_pretty handler ProjectionRenderOptions_default pis t (turn_reader s))
    as (t' & rows & Hp & _); [done|apply turn_reader_lawful|apply Hok|].
  assert (history_stable_key_to_n t' = history_stable_key_to_n t) as Hfix.
  { eapply project_numbering_fixed; [|exact Hp]. apply Forall_forall. intros i Hi src body cits Hn.
    destruct (numbered_is_hydrated i src body cits Hpp Hn) as [text Ht].
    destruct (R (pi_activity_anchor i, src, text)) as [n Hreg]; [apply list_elem_of_omap; eauto|]. exists n. by apply K. }
  assert (project_prompt_context Regex_new is_match to_string to_string_pretty handler pis t (turn_reader s) =
    Done (t', JArr (projected_history_row_to_json <$> rows))) as Hprompt by (unfold project_prompt_context; by rewrite Hp).
  unfold project_conversation_to_json. rewrite Hpis. destruct pis as [|i pis]; [done|]. rewrite Hprep.
  change (match ts_tables s with Some _ => _ | None => None end) with (turn_reader s).
  rewrite Hprompt. eexists _, t, _. split; [done|].
  split_and!; try done; [by exists t'|]. intros r Hr.
  rewrite (archived_entries t (hydrate_archive_bodies (ts_archive s) RefTable_new)) by done.
  by apply hydrate_bodies_archived; [apply Hok|..].
Qed.

(** C19: While the rows given to the projection only grow, the prompt is
    append-only.  Take a turn of a context that projects the rows [items], not
    all of them hidden, and a later turn of the same context over
    [items ++ more]; between them the registry keeps its rows (and may get
    others), the bodies that [items] read from the archive stay as they were, and
    the runtime's own table may be anything, or be there in neither turn.  Both
    start from well-formed stores with room for the numbers they need, with
    activities without NUL and texts that are UTF-8; the JSON printer prints
    nothing blank; and the statements that number rows succeed, without another
    caller in between.  Then both turns succeed, the later prompt starts with
    the rows of the earlier one, numbers included, and the earlier transcript is
    a prefix of the later one.  Rows taken from the front (the item cap of the
    transcript page) or replaced by a summary (a compaction) are outside: the
    later rows do not extend the earlier ones then. *)
Theorem prompt_append_only s1 s2 ctx items more conv1 conv2 s1' r1 :
  pretty_prints ->
  turn_ok s1 (omap provenance_item_to_projection_item items) ->
  turn_ok s2 (omap provenance_item_to_projection_item (items ++ more)) ->
  omap provenance_item_to_projection_item items <> [] ->
  turn s1 ctx (Ok items) (Ok conv1) = (s1', r1) ->
  HistoryRefs.registry (ts_history s1') ⊆ HistoryRefs.registry (ts_history s2) ->
  (forall i r, i ∈ omap provenance_item_to_projection_item items -> read_ref i = Some r ->
     stored_content (ts_archive s2) r = stored_content (ts_archive s1) r) ->
  (is_Some (ts_tables s1) <-> is_Some (ts_tables s2)) ->
  exists rows rows' s2',
    r1 = Done (Ok (Some (JArr rows))) /\
    turn s2 ctx (Ok (items ++ more)) (Ok conv2) = (s2', Done (Ok (Some (JArr (rows ++ rows'))))) /\
    starts_with (format_conversation_history_transcript to_string rows)
      (format_conversation_history_transcript to_string (rows ++ rows')) = true.
Proof.
  intros Hpp H1 H2 Hne Ht1 Hreg Hreads Htab.
  destruct (turn_spec s1 ctx items conv1 _ Hpp eq_refl Hne H1)
    as (s1'' & t & rows & Ht1' & (t' & Hp1 & Hfix1 & _) & A1 & _ & _ & Ar1 & _ & _).
  rewrite Ht1 in Ht1'. injection Ht1' as <- ->.
  destruct (turn_spec s2 ctx (items ++ more) conv2 _ Hpp eq_refl) as (s2' & u & rows2 & Ht2 & (u' & Hp2 & _) & _ & K2 & S2 & Ar2 & Rd2 & _);
    [rewrite omap_app; by intros [? _]%app_nil|done|].
  assert (turn_reader s2 = turn_reader s1) as Hrd.
  { unfold turn_reader. destruct (ts_tables s1), (ts_tables s2); try done.
    - destruct Htab as [Hab _]. by destruct Hab.
    - destruct Htab as [_ Hab]. by destruct Hab. }
  rewrite Hrd in Hp2. rewrite omap_app in Hp2.
  destruct (turn_reader_lawful s1) as [Hext Htot].
  destruct (prompt_extends Regex_new is_match to_string to_string_pretty handler (turn_reader s1)
    (omap provenance_item_to_projection_item items) (omap provenance_item_to_projection_item more) t t' u rows)
    as (u1 & rows' & Hp2' & Hst); try done.
  - rewrite Hfix1. apply map_subseteq_spec. intros k n Hk. destruct (A1 k n Hk) as (a & sr & -> & _ & Hn).
    apply K2. eapply lookup_weaken; [|exact S2]. by eapply lookup_weaken.
  - apply Forall_forall. intros i Hi r Hr. pose proof (read_ref_wf i r Hr). rewrite Ar2, Ar1 by done. by eapply Hreads.
  - rewrite <-omap_app. apply H2.
  - rewrite Hp2 in Hp2'. injection Hp2' as _ ->. exists rows, rows', s2'. by split_and!.
Qed.

(** No entry of a prepared table has a send signature. *)
Lemma hydrated_unsigned ast : map_Forall (fun _ e => send_signature e = None) (entries (hydrate_archive_bodies ast RefTable_new)).
Proof.
  unfold hydrate_archive_bodies. assert (map_Forall (fun _ e => send_signature e = None) (entries RefTable_new)) as H
    by apply map_Forall_empty. revert H. generalize RefTable_new.
  induction (map_to_list (ArchiveRefs.bodies ast)) as [|[[p l] [a j]] rows IH]; intros t H; [done|]. cbn [foldl]. apply IH.
  unfold hydrate_body. case_match; [done|]. destruct (entry_from_json j) as [e|] eqn:E; [|done].
  assert (send_signature e = None) as He.
  { unfold entry_from_json in E. repeat match type of E with context [ok_or ?x _] => destruct x; simpl in E; [|done] end.
    by injection E as <-. }
  unfold insert_virtual_archive_ref. by case_match; apply map_Forall_insert_2.
Qed.

Definition unsigned (t : RefTable) : Prop := map_Forall (fun _ e => send_signature e = None) (entries t).

Lemma unsigned_project items t rd t1 rows opts :
  unsigned t -> project items t rd opts = Done (t1, rows) -> unsigned t1.
Proof.
  revert t t1 rows. induction items as [|item items IH]; intros t t1 rows Hu; simpl; [by intros [= <- _]|].
  rewrite item_rows_split. destruct (numbered_text _ _ _ item) as [[[src body] cits]|].
  - assert (unsigned (RefTable_insert_history t (mkHistoryEntry (pi_activity_anchor item) src) body).1) as Ha
      by (unfold unsigned, RefTable_insert_history; simpl; by repeat case_match).
    destruct (RefTable_insert_history _ _ _) as [ta m]. simpl in *.
    destruct (project items ta rd _) as [[tb rb]|] eqn:E2; simpl; [|done]. intros [= <- _]. by eapply IH.
  - destruct (unnumbered_entry _ _ _ _ t rd item); simpl; [|done].
    destruct (project items _ rd _) as [[tb rb]|] eqn:E2; simpl; [|done]. intros [= <- _].
    eapply IH; [|exact E2]. unfold seed, seed_of. repeat case_match; try done.
    all: repeat match goal with H : context [_ ≫= _] |- _ => revert H end.
    all: destruct (send_done_replay_payload s); simpl; [|done]; destruct (ShortRef_parse archive_ref); simpl; [|done].
    all: case_match; [done|]; intros [= <- <-]; unfold unsigned, insert_virtual_archive_ref; case_match; simpl;
      by apply map_Forall_insert_2.
Qed.

Lemma unsigned_find t sig : unsigned t -> find_by_send_signature t sig = None.
Proof.
  intros Hu. unfold find_by_send_signature.
  match goal with |- head (merge_sort _ ?l) = None => assert (l = []) as -> end; [|done].
  assert (forall k e, (k, e) ∈ map_to_list (entries t) -> send_signature e = None) as Hin
    by (intros k e H; apply elem_of_map_to_list in H; exact (Hu k e H)).
  induction (map_to_list (entries t)) as [|[k e] l IH]; [done|]. cbn.
  rewrite (Hin k e) by (by left). rewrite bool_decide_false by done. apply IH. intros k' e' H. apply (Hin k' e'). by right.
Qed.

(** A turn forgets which calls were made.  After a prompt has been built from
    the store, the context's table is the rebuilt one, and a search for the
    signature of any earlier Send finds nothing: the duplicate suppression of
    plans, which relies on that search, does not see the calls made before the
    prompt. *)
Theorem turn_forgets_sends s ctx items conv ts :
  pretty_prints -> omap provenance_item_to_projection_item items <> [] ->
  turn_ok s (omap provenance_item_to_projection_item items) -> ts_tables s = Some ts ->
  exists s' t rows ts', turn s ctx (Ok items) (Ok conv) = (s', Done (Ok (Some (JArr rows)))) /\
    ts_tables s' = Some ts' /\ get_ref_table ts' ctx = Some t /\
    forall sig, find_by_send_signature t sig = None.
Proof.
  intros Hpp Hne Hok Hts.
  destruct (turn_spec s ctx items conv _ Hpp eq_refl Hne Hok) as (s' & t & rows & Ht & (t' & Hp & _ & Htab) & _ & _ & _ & _ & _ & E).
  rewrite Hts in Htab. exists s', t', rows, (replace_table ts ctx t'). split_and!; [done|done| |].
  - unfold get_ref_table, replace_table. simpl. rewrite lookup_insert_eq. simpl. by rewrite lookup_insert_eq.
  - intros sig. apply unsigned_find. unfold project_prompt_context in Hp.
    destruct (project _ t _ _) as [[t2 rs]|] eqn:E2; simpl in Hp; [|done]. injection Hp as <- _.
    eapply unsigned_project; [|exact E2]. unfold unsigned. rewrite E. apply hydrated_unsigned.
Qed.

End Turns.

(** ** Runs *)

Definition demo_say (n : Z) (text : string) : item :=
  mkItem n ("evt-" +:+ show_Z n) "user" (Message text []) None.

Definition demo_archive_entry : ArchiveEntry :=
  with_send_signature (ArchiveEntry_new (RenderedContent_from_lines ["two pages"]) "support/notes" None "evt-9" "tool_result")
    (Some "support/notes {}").

Definition demo_body : json := match entry_to_json demo_archive_entry with Done v => v | Panic => JNull end.

Definition demo_store : ArchiveRefs.store := ArchiveRefs.mkStore {["agent-a" := 1]} {[1 := 8]} {[(1, 8) := ("evt-9", demo_body)]}.

(** The runtime has just archived a Send: its table knows the signature. *)
Definition demo_tables : ContextRefTables :=
  mkTables {["ctx-1" := 0%nat]} {[0%nat := RefTable_insert_at RefTable_new (ShortRef_new 8) demo_archive_entry]} 1%nat.

Definition demo_state : turn_state := mkTurn HistoryRefs.empty_store demo_store (Some demo_tables).

Definition demo_read : item :=
  mkItem 3 "evt-3" "tool" (SessionStep (mkSessionStep "support/notes" (StepPageRead "@8" 0 20) None None)) None.

Notation demo_turn_of := (project_conversation_to_json no_regex (fun _ _ => false) (fun _ => "{}") (fun _ => "{}") no_handler).

Lemma demo_ok items :
  Forall (fun i => plain (pi_activity_anchor i)) items -> Forall (item_utf8 (fun _ => "{}")) items ->
  forall h tables, registry_wf h -> default 0 (HistoryRefs.counter h) + Z.of_nat (length items) < u32_max ->
  turn_ok (fun _ => "{}") (mkTurn h demo_store tables) items.
Proof.
  intros Hp Hu h tables Hw Hr. split; simpl; try done.
  - intros p l b. simpl. rewrite lookup_singleton_Some. intros [[= <- <-] _]. split; unfold is_u32, u32_max; lia.
  - intros k a j e. simpl. rewrite lookup_singleton_Some. intros [<- [= <- <-]]. vm_compute. intros [= <-].
    exists ["two pages"]. split; [by repeat constructor|done].
Qed.

Lemma empty_registry_wf : registry_wf HistoryRefs.empty_store.
Proof. split; simpl; [intros a s n|intros k n|done]; by rewrite lookup_empty. Qed.

Notation demo_pis l := (omap provenance_item_to_projection_item l).

Lemma demo_items_ok l h tables :
  l = [demo_say 1 "hello"; demo_read] \/ l = [demo_say 1 "hello"; demo_read] ++ [demo_say 4 "done"] ->
  registry_wf h -> default 0 (HistoryRefs.counter h) <= 1 ->
  turn_ok (fun _ => "{}") (mkTurn h demo_store tables) (demo_pis l).
Proof.
  intros Hl Hw Hc. apply demo_ok; [| |done|]; destruct Hl as [-> | ->].
  1,2: by repeat constructor.
  1,2: repeat (apply Forall_cons; split); done.
  - change (length (demo_pis [demo_say 1 "hello"; demo_read])) with 2%nat. unfold u32_max. lia.
  - change (length (demo_pis ([demo_say 1 "hello"; demo_read] ++ [demo_say 4 "done"]))) with 3%nat. unfold u32_max. lia.
Qed.

Lemma turn_forgets_sends_witness :
  is_Some (get_ref_table demo_tables "ctx-1" ≫= fun t => find_by_send_signature t "support/notes {}") /\
  exists s' t rows ts', demo_turn_of demo_state "ctx-1" (Ok [demo_say 1 "hello"; demo_read]) (Ok []) =
      (s', Done (Ok (Some (JArr rows)))) /\
    ts_tables s' = Some ts' /\ get_ref_table ts' "ctx-1" = Some t /\ forall sig, find_by_send_signature t sig = None.
Proof.
  split; [vm_compute; by eexists|].
  apply (turn_forgets_sends no_regex (fun _ _ => false) (fun _ => "{}") (fun _ => "{}") no_handler
    demo_state "ctx-1" [demo_say 1 "hello"; demo_read] [] demo_tables).
  - intros v. reflexivity.
  - discriminate.
  - apply demo_items_ok; [by left|apply empty_registry_wf|done].
  - reflexivity.
Defined.

Lemma prompt_append_only_witness :
  exists s1' rows rows' s2',
    demo_turn_of demo_state "ctx-1" (Ok [demo_say 1 "hello"; demo_read]) (Ok []) = (s1', Done (Ok (Some (JArr rows)))) /\
    demo_turn_of s1' "ctx-1" (Ok ([demo_say 1 "hello"; demo_read] ++ [demo_say 4 "done"])) (Ok []) =
      (s2', Done (Ok (Some (JArr (rows ++ rows'))))) /\ rows <> [] /\ rows' <> [].
Proof.
  destruct (demo_turn_of demo_state "ctx-1" (Ok [demo_say 1 "hello"; demo_read]) (Ok [])) as [s1' r1] eqn:E.
  assert (ts_archive s1' = demo_store /\ is_Some (ts_tables s1') /\
    ts_history s1' = HistoryRefs.mkStore {[("evt-1", "message") := 1]} (Some 1)) as (Ha & Ht & Hh)
    by (vm_compute in E; injection E as <- _; vm_compute; by eauto).
  destruct (prompt_append_only no_regex (fun _ _ => false) (fun _ => "{}") (fun _ => "{}") no_handler
    demo_state s1' "ctx-1" [demo_say 1 "hello"; demo_read] [demo_say 4 "done"] [] [] s1' r1) as (rows & rows' & s2' & -> & H2 & _).
  - intros v. reflexivity.
  - apply demo_items_ok; [left; reflexivity|apply empty_registry_wf|simpl; lia].
  - clear E Ht. destruct s1' as [h a ts]. simpl in Ha, Hh. subst h a. apply demo_items_ok; [right; reflexivity| |simpl; lia].
    split; simpl; [intros a s n|intros k n|lia]; rewrite lookup_singleton_Some; [by intros [[= <- _] _]|intros [_ <-]; lia].
  - discriminate.
  - exact E.
  - reflexivity.
  - intros i r _ _. rewrite Ha. reflexivity.
  - split; intros _; [exact Ht|eexists; reflexivity].
  - exists s1', rows, rows', s2'. split; [reflexivity|]. split; [exact H2|].
    vm_compute in E. injection E as <- Hrows. subst rows. vm_compute in H2. injection H2 as _ <-. split; discriminate.
Defined.
