(* ===== verification/Compaction.v ===== *)
(** * Context compaction

    [baml-rt-provenance/src/context_compaction/] (trigger, range, partition,
    digest, prepare, summarizer retry, compactor, projection and the attempt
    of subscriber.rs), the policy and budgets of
    [baml-rt-llm-config/src/model_budget.rs] and [compaction_policy.rs].  The
    rows are those of [ConversationView].  The store's contents, the
    transcript renderer, the digest of the [sha2] crate, the summarizer and
    the writer are arguments. *)

From stdpp Require Import base list strings gmap.
From Stdlib Require Import ZArith Lia Ascii.
From S2P Require Import Prelude RustStr Json Ids RefTable Citations ConversationView.

Open Scope string_scope.
Open Scope Z_scope.

(** ** Budgets and policy ([baml-rt-llm-config]) *)

Definition BYTES_PER_TOKEN_ESTIMATE : Z := 4.
Definition tokens_to_bytes (tokens : Z) : Z := sat_mul u64_max tokens BYTES_PER_TOKEN_ESTIMATE.
Definition bytes_to_tokens (bytes : Z) : Z := (bytes + 3) / BYTES_PER_TOKEN_ESTIMATE.

(** The fields of [ModelContextBudget] that trigger evaluation reads. *)
Record ModelContextBudget := mkBudget {
  context_window_tokens : Z;
  safe_prompt_tokens : Z;
  emergency_prompt_tokens : Z;
  output_reserve_tokens : Z
}.

Record CompactionTriggerPolicy := mkPolicy {
  budget : ModelContextBudget;
  item_threshold : nat;
  recent_tail_retention : nat;
  defer_while_in_flight : bool;
  defer_while_awaiting_input : bool
}.

Definition emergency_prompt_bytes (p : CompactionTriggerPolicy) : Z :=
  tokens_to_bytes (emergency_prompt_tokens (budget p)).

(** [apply_ratios]; [scale u r] stands for [((u as f64) * r) as u64] and
    [clamp] for [f64::clamp]. *)
Section Ratios.
Context {F : Type}.
Variable scale : Z -> F -> Z.
Variable clamp : F -> F -> F -> F.
Variables r01 r095 r099 : F.

Record ModelBudgetOverride := mkOverride {
  ov_context_window_tokens : option Z;
  ov_trigger_ratio : option F;
  ov_emergency_ratio : option F;
  ov_output_reserve_tokens : option Z
}.

(** The fields of [CompactionBudgetDefaults] that [apply_ratios] reads. *)
Record CompactionBudgetDefaults := mkDefaults {
  df_trigger_ratio : F;
  df_emergency_ratio : F;
  df_output_reserve_tokens : Z
}.

Definition apply_ratios (context_window : Z) (override_ : option ModelBudgetOverride)
    (defaults : CompactionBudgetDefaults) : Z * Z * Z :=
  let output_reserve := default (df_output_reserve_tokens defaults) (override_ ≫= ov_output_reserve_tokens) in
  let trigger_ratio := clamp (default (df_trigger_ratio defaults) (override_ ≫= ov_trigger_ratio)) r01 r095 in
  let emergency_ratio :=
    clamp (default (df_emergency_ratio defaults) (override_ ≫= ov_emergency_ratio)) trigger_ratio r099 in
  let usable := Z.max (sat_sub context_window output_reserve) 1024 in
  let safe := scale usable trigger_ratio in
  let emergency := scale usable emergency_ratio in
  (Z.max safe 1024, Z.max emergency safe, output_reserve).
End Ratios.

(** The built-in windows. *)
Definition known_models : list (string * Z) :=
  [("openai/gpt-4o", 128000); ("openai/gpt-4o-mini", 128000); ("openai/gpt-4.1", 1047576);
   ("openai/gpt-4.1-mini", 1047576); ("anthropic/claude-3.5-sonnet", 200000);
   ("anthropic/claude-3-7-sonnet", 200000); ("anthropic/claude-sonnet-4", 200000);
   ("google/gemini-2.0-flash", 1048576); ("google/gemini-2.5-pro", 1048576); ("x-ai/grok-3", 131072);
   ("x-ai/grok-4", 131072); ("meta-llama/llama-3.3-70b-instruct", 131072)].
Definition known_model_context_window (model_id : string) : option Z :=
  snd <$> List.find (fun m => bool_decide (to_lowercase model_id = fst m)) known_models.

(** ** Trigger ([trigger.rs]) *)

Inductive ContextCompactionTrigger := PostTurnThreshold | PreModelEmergency | ManualOperator.
Inductive CompactionSkipReason := BelowItemThreshold | BelowPromptThreshold | ManualWithoutForce.
Inductive CompactionDeferReason := InFlightTurn.
Inductive CompactionTriggerDecision :=
| Run (t : ContextCompactionTrigger)
| Skip (r : CompactionSkipReason)
| Defer (r : CompactionDeferReason).
Inductive CompactionTriggerSource := PostTurn | PreModel | Manual.

Record CompactionSafetySignals := mkSafety { in_flight : bool; awaiting_input : bool }.

Record CompactionTriggerInput := mkInput {
  source : CompactionTriggerSource;
  item_count : nat;
  prompt_bytes : Z;
  safety : CompactionSafetySignals;
  force : bool
}.

Definition estimated_prompt_tokens (i : CompactionTriggerInput) : Z := bytes_to_tokens (prompt_bytes i).

Definition apply_safety_gates (policy : CompactionTriggerPolicy) (i : CompactionTriggerInput)
    (trigger : ContextCompactionTrigger) (defer_on_in_flight : bool) : CompactionTriggerDecision :=
  if defer_while_in_flight policy && in_flight (safety i) && defer_on_in_flight then Defer InFlightTurn
  else if defer_while_in_flight policy && in_flight (safety i) &&
          match source i with PreModel => true | _ => false end
  then Defer InFlightTurn
  else Run trigger.

Definition evaluate_manual (policy : CompactionTriggerPolicy) (i : CompactionTriggerInput)
    : CompactionTriggerDecision :=
  if negb (force i) then Skip ManualWithoutForce
  else apply_safety_gates policy i ManualOperator false.

Definition evaluate_post_turn (policy : CompactionTriggerPolicy) (i : CompactionTriggerInput)
    : CompactionTriggerDecision :=
  if (item_count i <? item_threshold policy)%nat then Skip BelowItemThreshold
  else if (0 <? prompt_bytes i) && (estimated_prompt_tokens i <? safe_prompt_tokens (budget policy))
  then Skip BelowPromptThreshold
  else apply_safety_gates policy i PostTurnThreshold true.

Definition evaluate_pre_model (policy : CompactionTriggerPolicy) (i : CompactionTriggerInput)
    : CompactionTriggerDecision :=
  let threshold_met := (emergency_prompt_tokens (budget policy) <=? estimated_prompt_tokens i) ||
                       (emergency_prompt_bytes policy <=? prompt_bytes i) in
  if negb threshold_met then Skip BelowPromptThreshold
  else apply_safety_gates policy i PreModelEmergency false.

Definition evaluate_compaction_trigger (policy : CompactionTriggerPolicy) (i : CompactionTriggerInput)
    : CompactionTriggerDecision :=
  match source i with
  | Manual => evaluate_manual policy i
  | PostTurn => evaluate_post_turn policy i
  | PreModel => evaluate_pre_model policy i
  end.

(** ** Range and partition ([range.rs], [partition.rs]) *)

Record CompactableRange := mkRange {
  covered_event_order_start : Z;
  covered_event_order_end : Z;
  recent_tail_start_event_order : Z
}.

Definition select_compactable_range (items : list item) (policy : CompactionTriggerPolicy)
    : option CompactableRange :=
  if (length items <? item_threshold policy)%nat then None
  else
    let tail_keep := Nat.max (recent_tail_retention policy) 1 in
    if (length items <=? tail_keep)%nat then None
    else
      let split_at := (length items - tail_keep)%nat in
      let prefix_rows := take split_at items in
      let tail_rows := drop split_at items in
      match prefix_rows with
      | [] => None
      | _ =>
          let tail_start := from_option timestamp_ms u64_max (head tail_rows) in
          let covered_start := from_option timestamp_ms 0 (head prefix_rows) in
          let covered_end := from_option timestamp_ms covered_start (list.last prefix_rows) in
          Some (mkRange covered_start covered_end tail_start)
      end.

Definition item_is_live_planning_obligation (i : item) : bool :=
  match content i with
  | Planning plan =>
      match pl_kind plan with
      | PlanStepStatusChanged =>
          match pl_new_status plan with
          | Some s => negb (bool_decide (s = "completed")) && negb (bool_decide (s = "aborted"))
          | None => false
          end
      | IntentResolved | PlanCommitted | IntentRevised | PlanSuperseded => false
      end
  | _ => false
  end.

Definition partition_items_for_compaction (items : list item) (range : CompactableRange)
    : list item * list item :=
  (List.filter (fun i => (timestamp_ms i <=? covered_event_order_end range) &&
                         negb (item_is_live_planning_obligation i)) items,
   List.filter (fun i => (covered_event_order_end range <? timestamp_ms i) ||
                         item_is_live_planning_obligation i) items).

(** ** Digest ([digest.rs]) *)

(** [{:?}] of a kind. *)
Definition kind_debug (k : PlanningEventKind) : string :=
  match k with
  | IntentResolved => "IntentResolved" | IntentRevised => "IntentRevised"
  | PlanCommitted => "PlanCommitted" | PlanSuperseded => "PlanSuperseded"
  | PlanStepStatusChanged => "PlanStepStatusChanged"
  end.

Definition digest_line (i : item) : option string :=
  match content i with
  | Planning plan =>
      if planning_is_meaningful plan then
        let status := match pl_new_status plan with Some s => " status=" +:+ s | None => "" end in
        Some ("- " +:+ kind_debug (pl_kind plan) +:+ ": " +:+ pl_summary plan +:+ status)
      else None
  | _ => None
  end.

Definition format_planning_digest (prefix_items : list item) : option string :=
  match omap digest_line prefix_items with
  | [] => None
  | lines => Some (join nl_str lines)
  end.

(** ** Preparation ([types.rs], [prepare.rs]) *)

Record CompactionRequest := mkCRequest { cr_context_id : ContextId; cr_agent_id : AgentId }.

Record CompactionPrefixInput := mkPrefixInput {
  in_source_rendered : string;
  in_active_planning_digest : option string;
  in_recent_tail_preview : option string;
  in_ref_table : RefTable
}.

Record ContextCompactionRecord := mkRecord {
  rec_context_id : ContextId;
  rec_task_id : option TaskId;
  rec_covered_start : Z;
  rec_covered_end : Z;
  rec_covered_node_ids : list string;
  rec_summary_text : string;
  rec_trigger : ContextCompactionTrigger;
  rec_recent_tail_retention : nat;
  rec_pre_row_count : Z;
  rec_post_row_count : Z;
  rec_pre_prompt_bytes : Z;
  rec_post_prompt_bytes : Z;
  rec_source_render_hash : string;
  rec_excluded_unresolved : bool
}.

Record PreparedCompaction := mkPrepared {
  pr_input : CompactionPrefixInput;
  pr_record : ContextCompactionRecord;
  pr_source_rendered : string;
  pr_pre_prompt_bytes : Z;
  pr_covered_rows : Z
}.

(** What preparation reads: the rows of a context, and a ref table with the
    rendering over it ([prepare_render_context], [render_items]). *)
Record CompactionEnv := mkEnv {
  conversation_context : ContextId -> result (list item) string;
  render_context : ContextId -> list item -> result (option (RefTable * (list item -> string))) string;
  sha256_hex : string -> string
}.

Definition blank (s : string) : bool := is_empty_str (trim s).

Definition str_len (s : string) : Z := Z.of_nat (String.length s).

Definition prepare_compaction (env : CompactionEnv) (policy : CompactionTriggerPolicy)
    (request : CompactionRequest) (trigger : ContextCompactionTrigger)
    : result (option PreparedCompaction) string :=
  let? items := conversation_context env (cr_context_id request) in
  match select_compactable_range items policy with
  | None => Ok None
  | Some range =>
      let '(prefix_items, tail_items) := partition_items_for_compaction items range in
      match prefix_items with
      | [] => Ok None
      | _ =>
          let? rc := render_context env (cr_context_id request) items in
          match rc with
          | None => Ok None
          | Some (ref_table, render_items) =>
              let source_rendered := render_items prefix_items in
              if blank source_rendered then Ok None
              else
                let tail_preview := match tail_items with
                                    | [] => None
                                    | _ => opt_filter (fun s => negb (blank s)) (Some (render_items tail_items))
                                    end in
                let input := mkPrefixInput source_rendered (format_planning_digest prefix_items)
                               tail_preview ref_table in
                let pre_row_count := Z.of_nat (length items) in
                let tail_count := sat_sub pre_row_count (Z.of_nat (length prefix_items)) in
                let record := mkRecord (cr_context_id request) None (covered_event_order_start range)
                  (covered_event_order_end range) (activity_anchor <$> prefix_items) "" trigger
                  (recent_tail_retention policy) pre_row_count (tail_count + 1) (str_len source_rendered) 0
                  (sha256_hex env source_rendered) false in
                Ok (Some (mkPrepared input record source_rendered (str_len source_rendered)
                            (Z.of_nat (length prefix_items))))
          end
      end
  end.

(** ** Summaries ([compactor.rs], [summarizer.rs]) *)

Definition format_compaction_summary (prose_body : string) : string :=
  "[conversation summary]" +:+ nl_str +:+ trim prose_body.

Definition finalize_compaction_summary (prose : string) (t : RefTable) : outcome (result string string) :=
  let summary := format_compaction_summary prose in
  let! unresolved := unresolved_wire_citations summary t in
  match unresolved with
  | [] => Done (Ok summary)
  | _ => Done (Err ("compaction summary cites unresolved wire refs: " +:+ join ", " unresolved))
  end.

Definition build_compaction_record (r : ContextCompactionRecord) (summary_text : string)
    : ContextCompactionRecord :=
  mkRecord (rec_context_id r) (rec_task_id r) (rec_covered_start r) (rec_covered_end r)
    (rec_covered_node_ids r) summary_text (rec_trigger r) (rec_recent_tail_retention r)
    (rec_pre_row_count r) (rec_post_row_count r) (rec_pre_prompt_bytes r) (str_len summary_text)
    (rec_source_render_hash r) (rec_excluded_unresolved r).

Inductive CompactionSummarizeError :=
| LlmInvoke (msg : string)
| InvalidOutput (msg : string)
| Validation (msg : string).

Definition metric_label (e : CompactionSummarizeError) : string :=
  match e with
  | LlmInvoke _ => "llm_invoke" | InvalidOutput _ => "invalid_output" | Validation _ => "validation"
  end.

Definition COMPACTION_VALIDATION_RETRY_LIMIT : nat := 2.

(** ** Attempts ([summarizer.rs], [subscriber.rs]) *)

Inductive CompactionAttempt :=
| Skipped
| SummarizeFailed (reason : string)
| Succeeded (pre_prompt_bytes post_prompt_bytes covered_rows : Z).

Section Attempt.
Context {W : Type}.
Variable invoke : CompactionPrefixInput -> option string -> W -> result string CompactionSummarizeError * W.
Variable add_event : ContextCompactionRecord -> W -> result unit string * W.

(** The [for attempt in 0..LIMIT] loop with [left] attempts to go. *)
Fixpoint retry_loop (left : nat) (input : CompactionPrefixInput) (feedback : option string) (w : W)
    : result string CompactionSummarizeError * W :=
  match left with
  | O => (Err (Validation (default "compaction summary validation failed" feedback)), w)
  | S left' =>
      let '(answer, w') := invoke input feedback w in
      match answer with
      | Ok summary => (Ok summary, w')
      | Err (Validation msg) =>
          match left' with
          | O => (Err (Validation msg), w')
          | _ => retry_loop left' input (Some msg) w'
          end
      | Err err => (Err err, w')
      end
  end.

Definition summarize_with_validation_retry (input : CompactionPrefixInput) (w : W)
    : result string CompactionSummarizeError * W :=
  retry_loop COMPACTION_VALIDATION_RETRY_LIMIT input None w.

Definition try_compact_inner (env : CompactionEnv) (policy : CompactionTriggerPolicy)
    (request : CompactionRequest) (trigger : ContextCompactionTrigger) (w : W)
    : result CompactionAttempt unit * W :=
  match prepare_compaction env policy request trigger with
  | Err _ => (Err tt, w)
  | Ok None => (Ok Skipped, w)
  | Ok (Some prepared) =>
      let '(answer, w1) := summarize_with_validation_retry (pr_input prepared) w in
      match answer with
      | Err err => (Ok (SummarizeFailed (metric_label err)), w1)
      | Ok summary =>
          let '(written, w2) := add_event (build_compaction_record (pr_record prepared) summary) w1 in
          match written with
          | Err _ => (Err tt, w2)
          | Ok _ => (Ok (Succeeded (pr_pre_prompt_bytes prepared) (str_len summary) (pr_covered_rows prepared)), w2)
          end
      end
  end.

(** [evaluate_and_compact]; skips, deferrals and outcomes only reach metrics. *)
Definition evaluate_and_compact (env : CompactionEnv) (policy : CompactionTriggerPolicy)
    (request : CompactionRequest) (input : CompactionTriggerInput) (w : W) : W :=
  match evaluate_compaction_trigger policy input with
  | Run trigger => snd (try_compact_inner env policy request trigger w)
  | Skip _ | Defer _ => w
  end.
End Attempt.

(** ** Projection ([projection.rs]) *)

Inductive TranscriptProjectionProfile :=
| OperatorTimeline | AgentPromptIndex | AgentPromptCompacted | LiveStructuralDelta | ReplayFull | CompactionAudit.

Record ContextCompactionHead := mkHead {
  hd_activity_anchor : ActivityAnchorId;
  hd_covered_start : Z;
  hd_covered_end : Z;
  hd_summary_text : string;
  hd_trigger : ContextCompactionTrigger;
  hd_event_order : Z;
  hd_task_entity_id : option string
}.

Definition summary_item (h : ContextCompactionHead) : item :=
  mkItem (hd_event_order h) (hd_activity_anchor h) "system"
    (CompactionSummary (hd_summary_text h) (hd_covered_start h) (hd_covered_end h)) None.

Definition apply_agent_prompt_compaction (items : list item) (head : option ContextCompactionHead) : list item :=
  match head with
  | None => items
  | Some h =>
      summary_item h ::
      List.filter (fun i => (hd_covered_end h <? timestamp_ms i) || item_is_live_planning_obligation i) items
  end.

Definition enrich_operator_timeline (items : list item) (head : option ContextCompactionHead) : list item :=
  match head with
  | None => items
  | Some h =>
      mkItem (hd_event_order h) (hd_activity_anchor h) "system"
        (CompactionSummary
           ("[compaction marker] covered " +:+ show_Z (hd_covered_start h) +:+ ".." +:+
            show_Z (hd_covered_end h) +:+ " (" +:+ show_nat (String.length (hd_summary_text h)) +:+ " chars)")
           (hd_covered_start h) (hd_covered_end h)) None :: items
  end.

Definition apply_compaction_profile (profile : TranscriptProjectionProfile) (items : list item)
    (head : option ContextCompactionHead) : list item :=
  match profile with
  | ReplayFull | CompactionAudit => items
  | OperatorTimeline => enrich_operator_timeline items head
  | AgentPromptCompacted => apply_agent_prompt_compaction items head
  | AgentPromptIndex | LiveStructuralDelta => items
  end.

(** ** From a recorded compaction to the head ([context_compaction_index.rs]) *)

Definition trigger_as_wire_str (t : ContextCompactionTrigger) : string :=
  match t with
  | PostTurnThreshold => "post_turn_threshold"
  | PreModelEmergency => "pre_model_emergency"
  | ManualOperator => "manual_operator"
  end.

Definition parse_trigger (raw : string) : ContextCompactionTrigger :=
  if bool_decide (raw = "pre_model_emergency") then PreModelEmergency
  else if bool_decide (raw = "manual_operator") then ManualOperator
  else PostTurnThreshold.

(** The index row of a recorded compaction, read back as a head. *)
Definition head_of_record (anchor : ActivityAnchorId) (now : Z) (r : ContextCompactionRecord)
    : ContextCompactionHead :=
  mkHead anchor (rec_covered_start r) (rec_covered_end r) (rec_summary_text r)
    (parse_trigger (trigger_as_wire_str (rec_trigger r))) now
    ((fun t => "task:" +:+ t) <$> rec_task_id r).

(** ** Lemmas *)

Open Scope list_scope.

Lemma filter_neg_perm {A} (p q : A -> bool) (l : list A) :
  (forall x, q x = negb (p x)) -> l ≡ₚ List.filter p l ++ List.filter q l.
Proof.
  intros Hq. induction l as [|x l IH]; simpl; [done|]. rewrite Hq. destruct (p x); simpl; [by rewrite <-IH|].
  rewrite IH at 1. apply Permutation_middle.
Qed.

Lemma partition_perm items range prefix tail :
  partition_items_for_compaction items range = (prefix, tail) -> items ≡ₚ prefix ++ tail.
Proof.
  intros [= <- <-]. apply filter_neg_perm. intros x. rewrite negb_andb, negb_involutive. f_equal.
  destruct (Z.leb_spec (timestamp_ms x) (covered_event_order_end range)),
    (Z.ltb_spec (covered_event_order_end range) (timestamp_ms x)); lia || done.
Qed.

Lemma partition_live items range prefix tail i :
  partition_items_for_compaction items range = (prefix, tail) ->
  item_is_live_planning_obligation i = true -> (i ∈ items <-> i ∈ tail) /\ (i ∉ prefix).
Proof.
  intros [= <- <-] Hl. rewrite !list_elem_of_In, !List.filter_In, Hl, orb_true_r, andb_false_r.
  split; [tauto|]. by intros [_ ?].
Qed.

(** The end of the covered range is the order of the last row before the
    kept tail. *)
Lemma select_range_spec items policy range :
  select_compactable_range items policy = Some range ->
  let keep := Nat.max (recent_tail_retention policy) 1 in
  (item_threshold policy <= length items)%nat /\ (keep < length items)%nat /\
  exists last, items !! (length items - keep - 1)%nat = Some last /\
    covered_event_order_end range = timestamp_ms last.
Proof.
  unfold select_compactable_range. intros H. simpl.
  destruct (Nat.ltb_spec (length items) (item_threshold policy)); [done|].
  destruct (Nat.leb_spec (length items) (Nat.max (recent_tail_retention policy) 1)) as [|Hlt]; [done|].
  split; [done|]. split; [done|].
  set (n := (length items - Nat.max (recent_tail_retention policy) 1)%nat) in *.
  destruct (take n items) as [|x r] eqn:E; [done|]. injection H as <-. simpl.
  assert (Hlen : length (take n items) = n) by (rewrite length_take; lia).
  destruct (list.last (x :: r)) as [l|] eqn:Hl; [|by rewrite last_None in Hl].
  exists l. split; [|done].
  rewrite last_lookup, <-E, Hlen in Hl. replace (pred n) with (n - 1)%nat in Hl by lia.
  by rewrite lookup_take_lt in Hl by lia.
Qed.

(** With strictly increasing orders the kept tail stays out of the sealed
    prefix. *)
Lemma kept_rows_in_tail items policy range prefix tail i :
  select_compactable_range items policy = Some range ->
  partition_items_for_compaction items range = (prefix, tail) ->
  (forall j k a b, items !! j = Some a -> items !! k = Some b -> (j < k)%nat -> timestamp_ms a < timestamp_ms b) ->
  i ∈ drop (length items - Nat.max (recent_tail_retention policy) 1) items -> i ∈ tail.
Proof.
  intros Hs Hp Hord [j Hj]%list_elem_of_lookup. apply select_range_spec in Hs as (_ & Hlt & last & Hl & Hend).
  rewrite lookup_drop in Hj.
  pose proof (Hord _ _ _ _ Hl Hj ltac:(lia)) as Hts. injection Hp as <- <-.
  rewrite list_elem_of_In, List.filter_In. split; [by eapply list_elem_of_In, list_elem_of_lookup_2|].
  apply orb_true_iff. left. apply Z.ltb_lt. lia.
Qed.

Lemma prepare_inv env policy request trigger p items :
  conversation_context env (cr_context_id request) = Ok items ->
  prepare_compaction env policy request trigger = Ok (Some p) ->
  exists range prefix tail table render,
    select_compactable_range items policy = Some range /\
    partition_items_for_compaction items range = (prefix, tail) /\ prefix <> [] /\
    render_context env (cr_context_id request) items = Ok (Some (table, render)) /\
    in_source_rendered (pr_input p) = render prefix /\
    in_active_planning_digest (pr_input p) = format_planning_digest prefix /\
    in_ref_table (pr_input p) = table /\
    rec_covered_node_ids (pr_record p) = activity_anchor <$> prefix /\
    rec_covered_end (pr_record p) = covered_event_order_end range /\
    rec_covered_start (pr_record p) = covered_event_order_start range /\
    rec_post_row_count (pr_record p) = Z.of_nat (length tail) + 1.
Proof.
  intros Hi H. unfold prepare_compaction in H. rewrite Hi in H. cbn [result_bind] in H.
  destruct (select_compactable_range items policy) as [range|] eqn:Hr; [|done].
  destruct (partition_items_for_compaction items range) as [prefix tail] eqn:Hp.
  destruct prefix as [|x prefix]; [done|].
  destruct (render_context env (cr_context_id request) items) as [[[table render]|]|] eqn:Hc; [|done..].
  cbn [result_bind] in H. destruct (blank (render (x :: prefix))); [done|].
  apply partition_perm in Hp as Hperm. apply Permutation_length in Hperm. rewrite length_app in Hperm.
  injection H as <-. exists range, (x :: prefix), tail, table, render. simpl.
  split_and!; try done. unfold sat_sub. simpl in Hperm. lia.
Qed.

Lemma compacted_prompt items newer h range prefix tail :
  partition_items_for_compaction items range = (prefix, tail) ->
  hd_covered_end h = covered_event_order_end range ->
  Forall (fun i => covered_event_order_end range < timestamp_ms i) newer ->
  apply_compaction_profile AgentPromptCompacted (items ++ newer) (Some h) = summary_item h :: tail ++ newer.
Proof.
  intros [= <- <-] He Hn. simpl. rewrite He, List.filter_app. do 2 f_equal.
  induction Hn as [|x l Hx _ IH]; simpl; [done|].
  by rewrite (proj2 (Z.ltb_lt _ _) Hx), IH.
Qed.

(** ** The promises *)

(** C7: What a compaction hides is what it summarised.  When a compaction of a
    context is prepared from its rows, the rows split without loss into a
    non-empty sealed prefix and a tail: the rendered text given to the
    summarizer and the recorded node ids are those of the prefix, no live
    planning obligation is sealed, and, once the compaction is recorded, the
    agent's prompt is the summary followed by exactly the tail and the rows
    added later, its length being the recorded post-row count; the replay
    profile still shows every row.  With strictly increasing orders the last
    [max retention 1] rows stay verbatim. *)
Theorem compaction_hides_what_it_summarised env policy request trigger items p :
  conversation_context env (cr_context_id request) = Ok items ->
  prepare_compaction env policy request trigger = Ok (Some p) ->
  exists prefix tail table render,
    render_context env (cr_context_id request) items = Ok (Some (table, render)) /\
    items ≡ₚ prefix ++ tail /\ prefix <> [] /\
    in_source_rendered (pr_input p) = render prefix /\
    rec_covered_node_ids (pr_record p) = activity_anchor <$> prefix /\
    (forall i, item_is_live_planning_obligation i = true -> (i ∉ prefix) /\ (i ∈ items -> i ∈ tail)) /\
    (forall summary anchor now newer,
       let h := head_of_record anchor now (build_compaction_record (pr_record p) summary) in
       Forall (fun i => rec_covered_end (pr_record p) < timestamp_ms i) newer ->
       apply_compaction_profile AgentPromptCompacted (items ++ newer) (Some h)
         = summary_item h :: tail ++ newer /\
       Z.of_nat (length (apply_compaction_profile AgentPromptCompacted items (Some h)))
         = rec_post_row_count (build_compaction_record (pr_record p) summary) /\
       apply_compaction_profile ReplayFull (items ++ newer) (Some h) = items ++ newer) /\
    ((forall j k a b, items !! j = Some a -> items !! k = Some b -> (j < k)%nat -> timestamp_ms a < timestamp_ms b) ->
     forall i, i ∈ drop (length items - Nat.max (recent_tail_retention policy) 1) items -> i ∈ tail).
Proof.
  intros Hi Hprep. destruct (prepare_inv _ _ _ _ _ _ Hi Hprep)
    as (range & prefix & tail & table & render & Hs & Hp & Hne & Hrc & Hsrc & _ & _ & Hids & Hend & _ & Hpost).
  exists prefix, tail, table, render. split_and!; try done.
  - by eapply partition_perm.
  - intros i Hl. destruct (partition_live _ _ _ _ i Hp Hl). tauto.
  - intros summary anchor now newer h Hnew. rewrite Hend in Hnew. split_and!; [by eapply compacted_prompt| |done].
    rewrite <-(app_nil_r items) at 1.
    rewrite (compacted_prompt items [] h range prefix tail Hp Hend ltac:(constructor)).
    simpl. rewrite app_nil_r. unfold build_compaction_record. simpl. lia.
  - intros Hord i. by eapply kept_rows_in_tail.
Qed.

(** Six messages, compaction from four rows on, two kept. *)
Definition demo_policy : CompactionTriggerPolicy := mkPolicy (mkBudget 128000 80 100 4096) 4 2 true true.
Definition demo_items : list item :=
  (fun n => mkItem (Z.of_nat n * 10) ("a" +:+ show_nat n) "user" (Message ("m" +:+ show_nat n) []) None) <$> seq 1 6.
Definition demo_env (items : list item) : CompactionEnv :=
  mkEnv (fun _ => Ok items)
    (fun _ _ => Ok (Some (RefTable_new, fun l => join nl_str (activity_anchor <$> l)))) (fun s => s).
Definition demo_request : CompactionRequest := mkCRequest "ctx-1-1" "agent".

Lemma compaction_hides_witness :
  exists p, prepare_compaction (demo_env demo_items) demo_policy demo_request PostTurnThreshold = Ok (Some p) /\
    exists prefix tail, demo_items ≡ₚ prefix ++ tail /\ prefix <> [].
Proof.
  destruct (prepare_compaction (demo_env demo_items) demo_policy demo_request PostTurnThreshold)
    as [[p|]|] eqn:E; [|by vm_compute in E..].
  exists p. split; [done|].
  destruct (compaction_hides_what_it_summarised (demo_env demo_items) demo_policy demo_request PostTurnThreshold
              demo_items p eq_refl E)
    as (prefix & tail & _ & _ & _ & Hperm & Hne & _). by exists prefix, tail.
Defined.

(** Thresholds of the pre-model check: below saturation the byte test adds
    nothing to the token test. *)
Lemma emergency_threshold policy i :
  0 <= prompt_bytes i -> 0 <= emergency_prompt_tokens (budget policy) ->
  4 * emergency_prompt_tokens (budget policy) <= u64_max ->
  (emergency_prompt_tokens (budget policy) <=? estimated_prompt_tokens i) ||
  (emergency_prompt_bytes policy <=? prompt_bytes i)
  = (emergency_prompt_tokens (budget policy) <=? estimated_prompt_tokens i).
Proof.
  intros Hb He Hs. unfold emergency_prompt_bytes, tokens_to_bytes, sat_mul, estimated_prompt_tokens, bytes_to_tokens, BYTES_PER_TOKEN_ESTIMATE.
  set (E := emergency_prompt_tokens (budget policy)) in *. set (b := prompt_bytes i) in *.
  pose proof (Z.div_mod (b + 3) 4 ltac:(lia)). pose proof (Z.mod_pos_bound (b + 3) 4 ltac:(lia)).
  apply eq_true_iff_eq. rewrite orb_true_iff, !Z.leb_le. lia.
Qed.

(** When compaction runs.  A manual request runs exactly when forced; a
    post-turn evaluation runs exactly when there are enough rows, the prompt
    estimate is unknown (0) or at least the safe budget, and no turn is in
    flight (or deferral is off); a pre-model evaluation runs exactly when the
    token estimate reaches the emergency budget and no turn is in flight.
    Deferral is for turns in flight only: whether the agent awaits input, and
    the policy's [defer_while_awaiting_input], never matter. *)
Theorem trigger_decision_spec policy i :
  0 <= prompt_bytes i -> 0 <= emergency_prompt_tokens (budget policy) ->
  4 * emergency_prompt_tokens (budget policy) <= u64_max ->
  let held := defer_while_in_flight policy && in_flight (safety i) in
  let tokens := bytes_to_tokens (prompt_bytes i) in
  (forall t, evaluate_compaction_trigger policy i = Run t <->
     match source i with
     | Manual => t = ManualOperator /\ force i = true
     | PostTurn => t = PostTurnThreshold /\ (item_threshold policy <= item_count i)%nat /\
         (prompt_bytes i = 0 \/ safe_prompt_tokens (budget policy) <= tokens) /\ held = false
     | PreModel => t = PreModelEmergency /\ emergency_prompt_tokens (budget policy) <= tokens /\ held = false
     end) /\
  (forall r, evaluate_compaction_trigger policy i = Defer r ->
     held = true /\ source i <> Manual) /\
  (forall await defer_await,
     evaluate_compaction_trigger
       (mkPolicy (budget policy) (item_threshold policy) (recent_tail_retention policy)
          (defer_while_in_flight policy) defer_await)
       (mkInput (source i) (item_count i) (prompt_bytes i) (mkSafety (in_flight (safety i)) await) (force i))
     = evaluate_compaction_trigger policy i).
Proof.
  intros Hb He Hs held tokens.
  assert (Hpre : evaluate_pre_model policy i =
    if emergency_prompt_tokens (budget policy) <=? tokens
    then apply_safety_gates policy i PreModelEmergency false else Skip BelowPromptThreshold).
  { unfold evaluate_pre_model. rewrite emergency_threshold by done. unfold estimated_prompt_tokens.
    by destruct (_ <=? _). }
  split_and!.
  - intros t. unfold evaluate_compaction_trigger. rewrite Hpre.
    unfold evaluate_manual, evaluate_post_turn, apply_safety_gates, estimated_prompt_tokens.
    fold held tokens. destruct (source i) eqn:Hsrc, (force i), held; simpl;
      rewrite ?andb_true_r, ?andb_false_r;
      destruct (Nat.ltb_spec (item_count i) (item_threshold policy)),
        (Z.ltb_spec 0 (prompt_bytes i)), (Z.ltb_spec tokens (safe_prompt_tokens (budget policy))),
        (Z.leb_spec (emergency_prompt_tokens (budget policy)) tokens); simpl;
      (split; [intros Hx; (discriminate Hx || (injection Hx as <-; split_and!; (done || lia)))
              |intros Hx; destruct_and?; subst; (done || lia)]).
  - intros r. unfold evaluate_compaction_trigger. rewrite Hpre.
    unfold evaluate_manual, evaluate_post_turn, apply_safety_gates. fold held.
    destruct (source i), (force i), held; simpl; repeat case_match; done.
  - done.
Qed.

(** A 500 KB prompt against a budget of a hundred tokens. *)
Definition big_prompt : CompactionTriggerInput := mkInput PreModel 3 500000 (mkSafety false false) false.

Lemma trigger_decision_witness :
  evaluate_compaction_trigger demo_policy big_prompt = Run PreModelEmergency.
Proof.
  refine (proj2 (proj1 (trigger_decision_spec demo_policy big_prompt _ _ _) PreModelEmergency) _).
  - by vm_compute.
  - by vm_compute.
  - by vm_compute.
  - split_and!; [done|by vm_compute|done].
Defined.

Lemma few_rows_no_range items policy :
  (length items < item_threshold policy)%nat -> select_compactable_range items policy = None.
Proof. intros H. unfold select_compactable_range. by rewrite (proj2 (Nat.ltb_lt _ _) H). Qed.

(** An emergency does not compact a short conversation.  However large the
    prompt, when the context has fewer rows than the item threshold the
    pre-model emergency (and a forced manual compaction) is triggered but its
    attempt is skipped before anything is summarised or written, so the prompt
    stays over the model's emergency budget. *)
Theorem emergency_skips_short_conversations {W} invoke add_event env policy request items i (w : W) :
  conversation_context env (cr_context_id request) = Ok items ->
  (length items < item_threshold policy)%nat ->
  evaluate_compaction_trigger policy i = Run PreModelEmergency \/
    evaluate_compaction_trigger policy i = Run ManualOperator ->
  (forall t, try_compact_inner invoke add_event env policy request t w = (Ok Skipped, w)) /\
  evaluate_and_compact invoke add_event env policy request i w = w.
Proof.
  intros Hi Hlen Hrun.
  assert (Hskip : forall t, try_compact_inner invoke add_event env policy request t w = (Ok Skipped, w)).
  { intros t. unfold try_compact_inner, prepare_compaction. rewrite Hi. cbn [result_bind].
    by rewrite few_rows_no_range. }
  split; [done|]. unfold evaluate_and_compact. destruct Hrun as [-> | ->]; by rewrite Hskip.
Qed.

(** Three rows of a context whose prompt has 500 KB. *)
Lemma emergency_skips_witness :
  evaluate_compaction_trigger demo_policy big_prompt = Run PreModelEmergency /\
  evaluate_and_compact (fun _ _ w => (Ok "summary", w)) (fun _ w => (Ok tt, S w))
    (demo_env (take 3 demo_items)) demo_policy demo_request big_prompt 0%nat = 0%nat.
Proof.
  split; [by vm_compute|].
  apply (emergency_skips_short_conversations (fun _ _ w => (Ok "summary", w)) (fun _ w => (Ok tt, S w))
    (demo_env (take 3 demo_items)) demo_policy demo_request (take 3 demo_items) big_prompt 0%nat eq_refl).
  - simpl. lia.
  - left. by vm_compute.
Defined.

(** *** Attempts with their calls *)

Inductive ccall :=
| CInvoke (input : CompactionPrefixInput) (feedback : option string)
| CWrite (record : ContextCompactionRecord).

Section Calls.
Context {W : Type}.
Variable invoke : CompactionPrefixInput -> option string -> W -> result string CompactionSummarizeError * W.
Variable add_event : ContextCompactionRecord -> W -> result unit string * W.

Definition log_invoke (input : CompactionPrefixInput) (feedback : option string) (w : W * list ccall)
    : result string CompactionSummarizeError * (W * list ccall) :=
  let '(a, w') := invoke input feedback (fst w) in (a, (w', snd w ++ [CInvoke input feedback])).

Definition log_write (r : ContextCompactionRecord) (w : W * list ccall) : result unit string * (W * list ccall) :=
  let '(a, w') := add_event r (fst w) in (a, (w', snd w ++ [CWrite r])).

(** The answers of the two possible invocations decide the loop. *)
Lemma retry_calls input w :
  exists answer w' calls,
    summarize_with_validation_retry log_invoke input (w, []) = (answer, (w', calls)) /\
    (calls = [CInvoke input None] /\ (forall msg, answer <> Err (Validation msg)) \/
     exists msg, calls = [CInvoke input None; CInvoke input (Some msg)]).
Proof.
  unfold summarize_with_validation_retry, COMPACTION_VALIDATION_RETRY_LIMIT, log_invoke. simpl.
  destruct (invoke input None w) as [[s|[m|m|m]] w1]; simpl.
  - do 3 eexists. split; [done|]. left. done.
  - do 3 eexists. split; [done|]. left. done.
  - do 3 eexists. split; [done|]. left. done.
  - destruct (invoke input (Some m) w1) as [[s|[m'|m'|m']] w2]; simpl;
      (do 3 eexists; split; [done|]; right; by exists m).
Qed.
End Calls.

(** A compaction is written once and only with an accepted summary.  An
    attempt asks the summarizer at most twice, the second time with the
    validator's message and only after a validation failure; it writes nothing
    unless the summarizer answered, and then exactly one record, the prepared
    one with that summary and its size. *)
Theorem compaction_written_once {W} invoke add_event env policy request t (w : W) :
  match try_compact_inner (log_invoke invoke) (log_write add_event) env policy request t (w, []) with
  | (Ok Skipped, (w', calls)) => calls = [] /\ w' = w
  | (Ok (SummarizeFailed _), (_, calls)) =>
      exists input, (exists msg, calls = [CInvoke input None; CInvoke input (Some msg)]) \/ calls = [CInvoke input None]
  | (Ok (Succeeded _ post _), (_, calls)) =>
      exists p summary asked, prepare_compaction env policy request t = Ok (Some p) /\
        post = str_len summary /\
        calls = asked ++ [CWrite (build_compaction_record (pr_record p) summary)] /\
        (asked = [CInvoke (pr_input p) None] \/
         exists msg, asked = [CInvoke (pr_input p) None; CInvoke (pr_input p) (Some msg)])
  | (Err _, (_, calls)) =>
      calls = [] /\ is_ok (prepare_compaction env policy request t) = false \/
      exists p summary asked, prepare_compaction env policy request t = Ok (Some p) /\
        calls = asked ++ [CWrite (build_compaction_record (pr_record p) summary)]
  end.
Proof.
  unfold try_compact_inner. destruct (prepare_compaction env policy request t) as [[p|]|e] eqn:Hp.
  2: done. 2: by left.
  destruct (retry_calls invoke (pr_input p) w) as (answer & w1 & calls & -> & Hcalls).
  destruct answer as [summary|err].
  - unfold log_write. simpl. destruct (add_event _ w1) as [[[]|e] w2]; simpl.
    + exists p, summary, calls. split_and!; try done. destruct Hcalls as [[-> _]|[msg ->]]; [by left|right; by exists msg].
    + right. by exists p, summary, calls.
  - exists (pr_input p). destruct Hcalls as [[-> _]|[msg ->]]; [by right|left; by exists msg].
Qed.

(** With a usable window of 1024 tokens the emergency budget falls below the
    safe one: only the latter is raised to the 1024 floor.  Ratios in
    thousandths, products rounded down. *)
Example emergency_below_safe :
  apply_ratios (fun u r => u * r / 1000) (fun x lo hi => Z.min (Z.max x lo) hi) 100 950 990 4096 None
    (mkDefaults 700 900 4096)
  = (1024, 921, 4096).
Proof. reflexivity. Qed.
