(* ===== verification/PlanExtraction.v ===== *)
(** * From a model's answer to a plan

    [baml-rt-quickjs/src/baml/tool_extraction.rs] (session plans and one-shot
    tool calls read out of JSON), [tool_invocation_plan.rs] (which kind of
    invocation an answer is, and of which tool), [baml-rt-tools/src/open_input_schema.rs]
    and the fence stripping of [phase_step_json.rs].  The regex engine, the JSON
    parser and printer are parameters. *)

From stdpp Require Import base list strings gmap.
From Stdlib Require Import ZArith Lia.
From S2P Require Import Prelude RustStr ArchiveRead Json Errors ToolNames StepExecutor.

Open Scope string_scope.
Open Scope list_scope.

(** ** Tool metadata *)

Inductive ToolCapability := OneShot | StreamingCapability.
Inductive SessionPolicy := Strict | MultiSend.

#[global] Instance ToolCapability_eq_dec : EqDecision ToolCapability.
Proof. solve_decision. Defined.
#[global] Instance SessionPolicy_eq_dec : EqDecision SessionPolicy.
Proof. solve_decision. Defined.

(** Host tools are subject to the manifest's allowlist. *)
Inductive ToolOrigin := Host | Guest.
#[global] Instance ToolOrigin_eq_dec : EqDecision ToolOrigin.
Proof. solve_decision. Defined.

(** The fields of [ToolFunctionMetadata] that decide how a tool is registered
    and run; of the configuration, its default. *)
Record ToolFunctionMetadata := mkMetadata {
  md_name : ToolName;
  md_class_name : string;
  md_open_input_schema : json;
  md_input_schema : json;
  md_session_policy : SessionPolicy;
  md_capability : ToolCapability;
  md_origin : ToolOrigin;
  md_config : option json;
  md_config_bundle : option string
}.

(** ** Open-input schemas *)

Definition type_allows (fields : list (string * json)) : option bool :=
  match field "type" fields with
  | Some (JStr t) => if String.eqb t "null" then None else Some (String.eqb t "object")
  | Some (JArr types) => Some (existsb (fun v => match v with JStr t => String.eqb t "object" || String.eqb t "null" | _ => false end) types)
  | Some _ => Some false
  | None => Some (contains_key "properties" fields || contains_key "required" fields)
  end.

Definition structural (fields : list (string * json)) : bool :=
  existsb (fun k => contains_key k fields) ["type"; "properties"; "required"; "anyOf"; "oneOf"; "allOf"; "enum"].

(** The answers for the members of a field that holds an array. *)
Definition members (k : string) (answers : list (string * option (list bool))) : option (list bool) :=
  find (fun p => String.eqb p.1 k) answers ≫= snd.

Fixpoint schema_allows_empty_or_optional_open_input (schema : json) : bool :=
  match schema with
  | JNull => true
  | JObj fields =>
      let answers := map (fun '(k, v) => (k, match v with JArr xs => Some (map schema_allows_empty_or_optional_open_input xs) | _ => None end)) fields in
      if (length fields =? 0)%nat then true
      else if negb (structural fields) then true
      else if existsb id (default [] (members "anyOf" answers)) then true
      else if existsb id (default [] (members "oneOf" answers)) then true
      else if match members "allOf" answers with Some ((_ :: _) as l) => forallb id l | _ => false end then true
      else
        match type_allows fields with
        | None => true
        | Some false => false
        | Some true =>
            let has_required := match field "required" fields ≫= as_array with Some l => negb (length l =? 0)%nat | None => false end in
            if has_required then false
            else (default 0 (field "minProperties" fields ≫= as_u64) =? 0)%Z
        end
  | _ => false
  end.

Definition entry_send_eligible (m : ToolFunctionMetadata) : bool :=
  bool_decide (md_capability m = OneShot) && bool_decide (md_session_policy m = Strict) &&
  schema_allows_empty_or_optional_open_input (md_open_input_schema m).

(** ** One-shot tool calls *)

Definition tool_name_not_allowed : BamlRtError :=
  InvalidArgument "Tool call must not include tool_name; tool identity is derived from input schema".

Definition without_type (fields : list (string * json)) : json :=
  JObj (filter (fun p => p.1 <> "__type") fields).

Definition extract_tool_call (r : json) : result (option json) BamlRtError :=
  match as_object r with
  | None => Ok None
  | Some obj =>
      if contains_key "tool_name" obj then Err tool_name_not_allowed
      else if contains_key "__type" obj then Ok (Some (without_type obj))
      else
        match obj with
        | [(_, JObj inner)] =>
            if contains_key "tool_name" inner then Err tool_name_not_allowed else Ok (Some (without_type inner))
        | _ => Ok None
        end
  end.

Definition input_matches_schema (input schema : json) : bool :=
  match as_object input, as_object schema with
  | Some input_obj, Some schema_obj =>
      if match field "type" schema_obj with Some (JStr t) => negb (String.eqb t "object") | _ => false end then false
      else
        match field "required" schema_obj ≫= as_array with
        | Some required => forallb (fun req => match as_str req with Some k => contains_key k input_obj | None => true end) required
        | None => true
        end
  | _, _ => false
  end.

(** ** Session plans *)

Section WithEngines.
Context {regex : Type} (Regex_new : string -> result regex string).
Context (from_str : string -> result json string) (to_string : json -> string).
Notation GrepPattern := (GrepPattern (regex := regex)).

Inductive ToolSessionOp :=
| Open (initial_input : option json) (reason : option string)
| Send (input : json) (reason : option string)
| SearchRead (archive_ref : ShortRef) (offset limit : nat) (grep : GrepPattern) (reason : option string)
| PageRead (archive_ref : ShortRef) (offset limit : nat) (reason : option string)
| Finish (reason : option string)
| Abort (reason : option string).

Definition op_name (op : ToolSessionOp) : string :=
  match op with
  | Open _ _ => "Open"
  | Send _ _ => "Send"
  | SearchRead _ _ _ _ _ => "SearchRead"
  | PageRead _ _ _ _ => "PageRead"
  | Finish _ => "Finish"
  | Abort _ => "Abort"
  end.

Record ToolSessionPlan := mkPlan { pl_step : ToolSessionOp; pl_selected_tool : option ToolName }.

Definition is_archive_read (p : ToolSessionPlan) : bool :=
  match pl_step p with SearchRead _ _ _ _ _ | PageRead _ _ _ _ => true | _ => false end.

Definition correctable {A} (r : StepPlanRecovery) : result A BamlRtError := Err (StepPlanCorrectable r).

Definition get_nonempty (k : string) (input : json) : option string :=
  opt_filter (fun s => negb (is_empty_str s)) (jget k input ≫= as_str).

Definition get_offset (input : json) : nat := default 0%nat (Z.to_nat <$> (jget "offset" input ≫= as_u64)).
Definition get_limit (input : json) : nat :=
  default PageLimit_DEFAULT ((fun n => PageLimit_new (Z.to_nat n)) <$> (jget "limit" input ≫= as_u64)).

Definition extract_search_read (input : json) (reason : option string) : result ToolSessionOp BamlRtError :=
  match get_nonempty "archive_ref" input ≫= ShortRef_parse with
  | None => correctable missing_archive_ref_search_read
  | Some r =>
      match get_nonempty "grep" input with
      | None => correctable missing_search_read_grep
      | Some grep_raw =>
          match GrepPattern_parse Regex_new grep_raw with
          | Err e => correctable (invalid_search_read_grep grep_raw e)
          | Ok g => Ok (SearchRead r (get_offset input) (get_limit input) g reason)
          end
      end
  end.

Definition extract_page_read (input : json) (reason : option string) : result ToolSessionOp BamlRtError :=
  if is_some (get_nonempty "grep" input) then correctable page_read_grep_forbidden
  else
    match get_nonempty "archive_ref" input ≫= ShortRef_parse with
    | None => correctable missing_archive_ref_page_read
    | Some r => Ok (PageRead r (get_offset input) (get_limit input) reason)
    end.

Definition extract_op (op_str : string) (step_obj : list (string * json)) (reason : option string)
    : result ToolSessionOp BamlRtError :=
  if String.eqb op_str "open" then Ok (Open (field "initial_input" step_obj) reason)
  else if String.eqb op_str "send" then
    match field "input" step_obj with
    | None => correctable send_missing_input
    | Some v => if is_null v then correctable send_input_null else Ok (Send v reason)
    end
  else if String.eqb op_str "read" then correctable legacy_read_op_removed
  else if String.eqb op_str "searchread" then extract_search_read (default (JObj []) (field "input" step_obj)) reason
  else if String.eqb op_str "pageread" then extract_page_read (default (JObj []) (field "input" step_obj)) reason
  else if String.eqb op_str "finish" then Ok (Finish reason)
  else if String.eqb op_str "abort" then Ok (Abort reason)
  else correctable (unknown_tool_session_op op_str).

(** The object that holds the step: wrapped or flat. *)
Definition step_object (obj : list (string * json)) : result (option (list (string * json))) BamlRtError :=
  match field "step" obj with
  | Some step_value =>
      match as_object step_value with
      | Some step_obj => Ok (Some step_obj)
      | None => correctable tool_session_plan_step_not_object
      end
  | None => if contains_key "op" obj then Ok (Some obj) else Ok None
  end.

Definition extract_tool_session_plan (r : json) : result (option ToolSessionPlan) BamlRtError :=
  match as_object r with
  | None => Ok None
  | Some obj =>
      let? so := step_object obj in
      match so with
      | None => Ok None
      | Some step_obj =>
          let? selected_tool :=
            match field "tool_name" step_obj ≫= as_str with
            | Some s => let? t := tool_name_parse s in Ok (Some t)
            | None => Ok None
            end in
          match field "op" step_obj ≫= as_str with
          | None => correctable tool_session_step_missing_op
          | Some s =>
              let op_str := to_lowercase s in
              if String.eqb op_str "readonlyfinish" then Ok None
              else
                let? step := extract_op op_str step_obj (field "reason" step_obj ≫= as_str) in
                Ok (Some (mkPlan step selected_tool))
          end
      end
  end.

Definition normalize_plan_input (v : json) : result json BamlRtError :=
  match v with
  | JStr raw => match from_str raw with Ok w => Ok w | Err e => correctable (invalid_plan_input_json e) end
  | other => Ok other
  end.

(** ** Which tool an answer is for *)

Definition names_list (ms : list ToolName) : string := join ", " (tool_name_display <$> ms).

(** [SessionPlanTypeName::class_name]; a value always ends with ["SessionPlan"]. *)
Definition class_name_of (plan_type : string) : string := default EmptyString (strip_suffix "SessionPlan" plan_type).

Definition session_plan_type_new (name : string) : result string BamlRtError :=
  if ends_with "SessionPlan" name then Ok name
  else Err (InvalidArgument ("SessionPlanTypeName '" +:+ name +:+ "' must end with 'SessionPlan'")).

(** [registry]: the metadata in the order the map is iterated. *)
Definition resolve_tool_name_from_plan_type_with_registry (registry : list ToolFunctionMetadata) (plan_type : string)
    : result ToolName BamlRtError :=
  let class_name := class_name_of plan_type in
  match md_name <$> filter (fun m => md_class_name m = class_name) registry with
  | [t] => Ok t
  | [] => Err (InvalidArgument ("No registered tool has class_name " +:+ debug_str class_name +:+ " (from plan type " +:+
                plan_type +:+ "). Ensure the tool is registered."))
  | ms => Err (InvalidArgument ("Multiple tools match session plan class " +:+ debug_str class_name +:+ ": " +:+ names_list ms +:+ "."))
  end.

Definition resolve_tool_name_from_input_with_registry (registry : list ToolFunctionMetadata) (input : json)
    : result ToolName BamlRtError :=
  match md_name <$> filter (fun m => input_matches_schema input (md_input_schema m) = true) registry with
  | [t] => Ok t
  | [] => Err (InvalidArgument ("No tool input schema matched input: " +:+ to_string input))
  | ms => Err (InvalidArgument ("Multiple tools matched input schema: " +:+ names_list ms))
  end.

Inductive BamlToolInvocationPlan :=
| Passthrough (v : json)
| ArchiveReadPlan (plan : ToolSessionPlan)
| SessionPlan (tool : ToolName) (plan : ToolSessionPlan) (source_baml_function : option string)
| OneShotCall (tool : ToolName) (args : json).

Definition unresolved_tool : BamlRtError :=
  InvalidArgument "Session plan tool could not be resolved: no manifest entry for the invoking function, or polymorphic Open missing tool_name. Build the agent with the builder so session_plan_functions.json is present and up to date.".

(** The tool of a session plan; [scope_tool] is [handle.tool_name_for_scope]. *)
Definition plan_tool (registry : list ToolFunctionMetadata) (functions : option (gmap string (list string)))
    (source_baml_function : option string) (scope_tool : option ToolName) (plan : ToolSessionPlan) : option ToolName :=
  match source_baml_function, functions with
  | Some func_name, Some m =>
      match m !! func_name with
      | Some [single] => ok (resolve_tool_name_from_plan_type_with_registry registry single)
      | Some _ => or_else (pl_selected_tool plan) scope_tool
      | None => None
      end
  | _, _ => None
  end.

Definition resolve_baml_tool_invocation_plan (registry : list ToolFunctionMetadata) (functions : option (gmap string (list string)))
    (source_baml_function : option string) (scope_tool : option ToolName) (baml_result : json)
    : result BamlToolInvocationPlan BamlRtError :=
  let? plan_result := extract_tool_session_plan baml_result in
  match plan_result with
  | Some plan =>
      if is_archive_read plan then Ok (ArchiveReadPlan plan)
      else
        let? tool := ok_or (plan_tool registry functions source_baml_function scope_tool plan) unresolved_tool in
        Ok (SessionPlan tool plan source_baml_function)
  | None =>
      let? call := extract_tool_call baml_result in
      match call with
      | Some args =>
          let? tool := resolve_tool_name_from_input_with_registry registry args in
          Ok (OneShotCall tool args)
      | None => Ok (Passthrough baml_result)
      end
  end.

(** ** JSON in a model's text *)

Definition fence : string := "```".

Definition extract_json_value_from_llm_text (text : string) : option json :=
  let t := trim text in
  match from_str t with
  | Ok v => Some v
  | Err _ =>
      '(_, after) ← split_once_str fence t;
      let after := trim_start (default after (or_else (strip_prefix "json" after) (strip_prefix "JSON" after))) in
      '(inner, _) ← split_once_str fence after;
      ok (from_str (trim inner))
  end.
End WithEngines.

(** ** Plans round-trip *)

(** How a plan is written down, flat or wrapped in a [step] field. *)
Definition wraps (wrapped : bool) (fields : list (string * json)) : json :=
  if wrapped then JObj [("step", JObj fields)] else JObj fields.

Definition read_input (r : ShortRef) (offset limit : nat) (grep : option string) : json :=
  JObj ([("archive_ref", JStr (ShortRef_display r)); ("offset", JNum (NInt (Z.of_nat offset)));
         ("limit", JNum (NInt (Z.of_nat limit)))] ++ opt_field "grep" grep).

Section RoundTrip.
Context {regex : Type} (Regex_new : string -> result regex string).
Notation ToolSessionOp := (ToolSessionOp (regex := regex)).

Definition op_reason (op : ToolSessionOp) : option string :=
  match op with
  | Open _ r | Send _ r | SearchRead _ _ _ _ r | PageRead _ _ _ r | Finish r | Abort r => r
  end.

Definition op_fields (op : ToolSessionOp) (grep_raw : string) : list (string * json) :=
  match op with
  | Open (Some v) _ => [("initial_input", v)]
  | Send v _ => [("input", v)]
  | SearchRead r o l _ _ => [("input", read_input r o l (Some grep_raw))]
  | PageRead r o l _ => [("input", read_input r o l None)]
  | _ => []
  end.

Definition step_fields (spelled : string) (tool : option ToolName) (op : ToolSessionOp) (grep_raw : string) : list (string * json) :=
  ("op", JStr spelled) :: opt_field "tool_name" (tool_name_display <$> tool) ++ opt_field "reason" (op_reason op) ++ op_fields op grep_raw.

(** What the type [ToolSessionOp] promises of its fields. *)
Definition op_ok (op : ToolSessionOp) (grep_raw : string) : Prop :=
  match op with
  | Send v _ => v <> JNull
  | SearchRead r o l g _ =>
      ShortRef_wf r /\ (Z.of_nat o <= u64_max)%Z /\ (l <= PageLimit_MAX)%nat /\
      is_empty_str grep_raw = false /\ GrepPattern_parse Regex_new grep_raw = Ok g
  | PageRead r o l _ => ShortRef_wf r /\ (Z.of_nat o <= u64_max)%Z /\ (l <= PageLimit_MAX)%nat
  | _ => True
  end.

Lemma display_nonempty r : is_empty_str (ShortRef_display r) = false.
Proof. unfold ShortRef_display. by case_match. Qed.

Lemma read_input_fields r o l g :
  ShortRef_wf r -> (Z.of_nat o <= u64_max)%Z -> (l <= PageLimit_MAX)%nat ->
  let input := read_input r o l g in
  get_nonempty "archive_ref" input ≫= ShortRef_parse = Some r /\
  get_offset input = o /\ get_limit input = l /\ get_nonempty "grep" input = opt_filter (fun s => negb (is_empty_str s)) g.
Proof.
  intros Hr Ho Hl input. subst input.
  destruct (shortref_display_parse r Hr) as [Hp _]. unfold PageLimit_MAX in Hl.
  assert (Hl' : (Z.of_nat l <= 500)%Z) by lia.
  split_and!.
  - unfold get_nonempty, read_input. cbn -[ShortRef_display]. unfold opt_filter. by rewrite display_nonempty.
  - unfold get_offset, read_input. cbn -[Z.to_nat u64_max]. rewrite (proj2 (Z.leb_le 0 _)), (proj2 (Z.leb_le _ u64_max)) by lia.
    simpl. lia.
  - unfold get_limit, read_input. cbn -[Z.to_nat u64_max PageLimit_new].
    rewrite (proj2 (Z.leb_le 0 _)), (proj2 (Z.leb_le _ u64_max)) by (unfold u64_max; lia). simpl.
    unfold PageLimit_new, PageLimit_MAX. lia.
  - unfold get_nonempty, read_input. by destruct g.
Qed.

Lemma extract_op_encoded op tool spelled grep_raw :
  op_ok op grep_raw ->
  extract_op Regex_new (to_lowercase (op_name op)) (step_fields spelled tool op grep_raw) (op_reason op) = Ok op.
Proof.
  unfold step_fields. intros Hok. destruct op as [i r|v r|ref o l g r|ref o l r|r|r].
  - destruct i, tool, r; reflexivity.
  - unfold extract_op. cbn [to_lowercase op_name]. simpl. destruct tool, r; simpl; destruct v; done.
  - destruct Hok as (Hr & Ho & Hl & Hne & Hg). unfold extract_op. simpl.
    assert (Hf : field "input" (step_fields spelled tool (SearchRead ref o l g r) grep_raw) = Some (read_input ref o l (Some grep_raw)))
      by (destruct tool, r; reflexivity).
    unfold step_fields in Hf. simpl in Hf. rewrite Hf. simpl. unfold extract_search_read.
    destruct (read_input_fields ref o l (Some grep_raw) Hr Ho Hl) as (-> & -> & -> & ->). simpl. rewrite Hne. simpl. by rewrite Hg.
  - destruct Hok as (Hr & Ho & Hl). unfold extract_op. simpl.
    assert (Hf : field "input" (step_fields spelled tool (PageRead ref o l r) grep_raw) = Some (read_input ref o l None))
      by (destruct tool, r; reflexivity).
    unfold step_fields in Hf. simpl in Hf. rewrite Hf. simpl. unfold extract_page_read.
    destruct (read_input_fields ref o l None Hr Ho Hl) as (-> & -> & -> & ->). done.
  - done.
  - done.
Qed.

(** A plan that is written down is read back: whatever the step, in any
    spelling of the operation's case, flat or wrapped, with or without a tool
    name, extraction gives that step for that tool. *)
Theorem plan_round_trip wrapped spelled tool op grep_raw :
  to_lowercase spelled = to_lowercase (op_name op) -> op_ok op grep_raw ->
  (forall t, tool = Some t -> tool_name_valid t) ->
  extract_tool_session_plan Regex_new (wraps wrapped (step_fields spelled tool op grep_raw)) = Ok (Some (mkPlan op tool)).
Proof.
  intros Hs Hok Ht.
  assert (Hso : step_object (default [] (as_object (wraps wrapped (step_fields spelled tool op grep_raw)))) = Ok (Some (step_fields spelled tool op grep_raw))).
  { destruct wrapped; [done|]. unfold step_object, wraps, as_object, default. simpl.
    assert (field "step" (opt_field "tool_name" (tool_name_display <$> tool) ++ opt_field "reason" (op_reason op) ++ op_fields op grep_raw) = None) as ->
      by (destruct tool, op as [[] []| ? []| ? ? ? ? []| ? ? ? []|[]|[]]; reflexivity).
    done. }
  unfold extract_tool_session_plan. destruct (as_object (wraps wrapped _)) as [obj|] eqn:Ho; [|by destruct wrapped].
  simpl in Hso. rewrite Hso. cbn [result_bind].
  assert (Hn : field "tool_name" (step_fields spelled tool op grep_raw) = JStr <$> (tool_name_display <$> tool))
    by (unfold step_fields; destruct tool, op as [[] []| ? []| ? ? ? ? []| ? ? ? []|[]|[]]; reflexivity).
  assert (Hr : field "reason" (step_fields spelled tool op grep_raw) = JStr <$> op_reason op)
    by (unfold step_fields; destruct tool, op as [[] []| ? []| ? ? ? ? []| ? ? ? []|[]|[]]; reflexivity).
  assert (Hop : field "op" (step_fields spelled tool op grep_raw) = Some (JStr spelled)) by done.
  rewrite Hn, Hr, Hop.
  assert (Hp : match (JStr <$> (tool_name_display <$> tool)) ≫= as_str with
               | Some s => let? t := tool_name_parse s in Ok (Some t) | None => Ok None end = Ok (E := BamlRtError) tool).
  { destruct tool as [t|]; [|done]. simpl. by rewrite display_parses by (by apply Ht). }
  rewrite Hp. cbn [result_bind option_bind mbind as_str]. cbn. rewrite Hs.
  assert (String.eqb (to_lowercase (op_name op)) "readonlyfinish" = false) as -> by (by destruct op).
  assert ((JStr <$> op_reason op) ≫= as_str = op_reason op) as -> by (by destruct (op_reason op)).
  by rewrite (extract_op_encoded op tool spelled grep_raw Hok).
Qed.

Lemma extraction_error_cases v e :
  extract_tool_session_plan Regex_new v = Err e ->
  (exists r, e = StepPlanCorrectable r /\ recovery_disposition r = LlmCorrectable) \/ (exists s, tool_name_parse s = Err e).
Proof.
  unfold extract_tool_session_plan. destruct (as_object v) as [obj|]; [|done].
  assert (Hso : forall e, step_object obj = Err e -> exists r, e = StepPlanCorrectable r /\ recovery_disposition r = LlmCorrectable).
  { intros e'. unfold step_object, correctable. repeat case_match; try done. intros [= <-]. eauto. }
  destruct (step_object obj) as [so|e'] eqn:Hs; simpl; [|intros [= <-]; left; by apply Hso].
  destruct so as [step_obj|]; [|done].
  destruct (field "tool_name" step_obj ≫= as_str) as [s|].
  - destruct (tool_name_parse s) as [t|e'] eqn:Ht; simpl; [|intros [= <-]; eauto].
    destruct (field "op" step_obj ≫= as_str) as [op|]; [|intros [= <-]; eauto].
    destruct (String.eqb _ _); [done|]. unfold extract_op, extract_search_read, extract_page_read, correctable.
    repeat case_match; simpl; try done; intros [= <-]; eauto.
  - simpl. destruct (field "op" step_obj ≫= as_str) as [op|]; [|intros [= <-]; eauto].
    destruct (String.eqb _ _); [done|]. unfold extract_op, extract_search_read, extract_page_read, correctable.
    repeat case_match; simpl; try done; intros [= <-]; eauto.
Qed.
End RoundTrip.

(** A malformed plan never ends the run with a fatal error unless it names
    a malformed tool: every other failure of extraction reaches the model as a
    correction to make. *)
Theorem extraction_errors_correctable {regex} (Regex_new : string -> result regex string) error_text v e :
  extract_tool_session_plan Regex_new v = Err e ->
  (exists r, map_step_executor_error error_text e = AgentCorrectable r /\ recovery_disposition r = LlmCorrectable) \/
  (exists s, tool_name_parse s = Err e).
Proof. intros [(r & -> & Hd)|?]%extraction_error_cases; [left; by exists r|by right]. Qed.

(** ** Routing *)

Lemma singleton_perm {A B} (f : list A -> option B) (g : A -> B) l l' :
  l ≡ₚ l' -> (forall x, f [x] = Some (g x)) -> (forall l, length l <> 1%nat -> f l = None) -> f l = f l'.
Proof.
  intros Hp H1 H0. destruct (decide (length l = 1%nat)) as [Hl|Hl].
  - destruct l as [|x [|]]; try done. by apply Permutation_singleton_l in Hp as ->.
  - rewrite (H0 l Hl), (H0 l'); [done|]. by rewrite <-Hp.
Qed.

Section Routing.
Context {regex : Type} (Regex_new : string -> result regex string) (to_string : json -> string).

Lemma resolve_plan_type_perm reg reg' t :
  reg ≡ₚ reg' -> ok (resolve_tool_name_from_plan_type_with_registry reg t) = ok (resolve_tool_name_from_plan_type_with_registry reg' t).
Proof.
  intros Hp. unfold resolve_tool_name_from_plan_type_with_registry. set (P := fun m => md_class_name m = class_name_of t).
  apply (singleton_perm (fun l => ok (match l with [x] => Ok x | [] => Err _ | _ => Err _ end)) id); [by rewrite Hp|done|].
  by intros [|? [|]] ?.
Qed.

Lemma resolve_input_perm reg reg' v :
  reg ≡ₚ reg' -> ok (resolve_tool_name_from_input_with_registry to_string reg v) = ok (resolve_tool_name_from_input_with_registry to_string reg' v).
Proof.
  intros Hp. unfold resolve_tool_name_from_input_with_registry.
  apply (singleton_perm (fun l => ok (match l with [x] => Ok x | [] => Err _ | _ => Err _ end)) id); [by rewrite Hp|done|].
  by intros [|? [|]] ?.
Qed.

(** Which tool an answer runs does not depend on the order in which the
    tool registry is iterated: the plan an answer is classified as is the same
    for every order, and it exists for one exactly when it exists for all. *)
Theorem routing_order_independent reg reg' functions source scope_tool v :
  reg ≡ₚ reg' ->
  ok (resolve_baml_tool_invocation_plan Regex_new to_string reg functions source scope_tool v) =
  ok (resolve_baml_tool_invocation_plan Regex_new to_string reg' functions source scope_tool v).
Proof.
  intros Hp. unfold resolve_baml_tool_invocation_plan.
  destruct (extract_tool_session_plan Regex_new v) as [[plan|]|]; simpl; [| |done].
  - destruct (is_archive_read plan); [done|].
    assert (plan_tool reg functions source scope_tool plan = plan_tool reg' functions source scope_tool plan) as ->; [|done].
    unfold plan_tool. destruct source as [f|], functions as [m|]; try done. destruct (m !! f) as [[|t [|]]|]; try done.
    by apply resolve_plan_type_perm.
  - destruct (extract_tool_call v) as [[args|]|]; simpl; try done.
    pose proof (resolve_input_perm reg reg' args Hp) as He.
    destruct (resolve_tool_name_from_input_with_registry to_string reg args), (resolve_tool_name_from_input_with_registry to_string reg' args);
      simpl in *; congruence.
Qed.
End Routing.

(** ** Examples and witnesses *)

Definition no_regex (s : string) : result unit string := Err "no regex".

Lemma plan_round_trip_witness :
  extract_tool_session_plan no_regex
    (JObj [("step", JObj [("op", JStr "pageREAD"); ("tool_name", JStr "support/calculate"); ("reason", JStr "next page");
                          ("input", JObj [("archive_ref", JStr "@7"); ("offset", JNum (NInt 200)); ("limit", JNum (NInt 100))])])]) =
  Ok (Some (mkPlan (PageRead (mkShortRef 1 7) 200 100 (Some "next page")) (Some (mkToolName "support" "calculate")))).
Proof.
  apply (plan_round_trip no_regex true "pageREAD" (Some (mkToolName "support" "calculate"))
           (PageRead (mkShortRef 1 7) 200 100 (Some "next page")) EmptyString).
  - reflexivity.
  - split_and!; [split; split; vm_compute; discriminate|vm_compute; discriminate|unfold PageLimit_MAX; lia].
  - intros t [= <-]. split; reflexivity.
Defined.

Lemma extraction_errors_correctable_witness :
  exists e, extract_tool_session_plan no_regex (JObj [("op", JStr "Read")]) = Err e /\
    ((exists r, map_step_executor_error (fun _ => EmptyString) e = AgentCorrectable r /\ recovery_disposition r = LlmCorrectable) \/
     (exists s, tool_name_parse s = Err e)).
Proof.
  eexists. split; [reflexivity|]. by apply (extraction_errors_correctable no_regex (fun _ => EmptyString) (JObj [("op", JStr "Read")])).
Defined.

Definition demo_tool (bundle local class : string) (required : list string) : ToolFunctionMetadata :=
  mkMetadata (mkToolName bundle local) class (JObj []) (JObj [("type", JStr "object"); ("required", JArr (JStr <$> required))]) Strict OneShot Host None None.
Definition demo_registry : list ToolFunctionMetadata :=
  [demo_tool "support" "calculate" "SupportCalculate" ["left"]; demo_tool "support" "notify" "SupportNotify" ["message"]].

Lemma routing_order_independent_witness :
  let plan reg := resolve_baml_tool_invocation_plan no_regex (fun _ => EmptyString) reg (Some {["F" := ["SupportNotifySessionPlan"]]}) (Some "F") None
    (JObj [("op", JStr "Finish")]) in
  ok (plan demo_registry) = ok (plan (rev demo_registry)) /\ is_ok (plan demo_registry) = true.
Proof.
  split; [|vm_compute; reflexivity]. apply routing_order_independent. apply Permutation_rev.
Defined.

(** The step names one tool, a function with a single plan type runs another. *)
Lemma single_plan_type_ignores_named_tool :
  resolve_baml_tool_invocation_plan no_regex (fun _ => EmptyString) demo_registry (Some {["F" := ["SupportNotifySessionPlan"]]}) (Some "F") None
    (JObj [("op", JStr "Open"); ("tool_name", JStr "support/calculate")]) =
  Ok (SessionPlan (mkToolName "support" "notify") (mkPlan (Open None None) (Some (mkToolName "support" "calculate"))) (Some "F")).
Proof. vm_compute. reflexivity. Qed.

(** A wrapped read-only finish is not a plan, and its step is then taken for the
    arguments of a tool. *)
Lemma wrapped_finish_runs_tool :
  resolve_baml_tool_invocation_plan no_regex (fun _ => EmptyString) demo_registry None None None
    (JObj [("step", JObj [("op", JStr "ReadOnlyFinish"); ("message", JStr "bye")])]) =
  Ok (OneShotCall (mkToolName "support" "notify") (JObj [("op", JStr "ReadOnlyFinish"); ("message", JStr "bye")])).
Proof. vm_compute. reflexivity. Qed.
