(* ===== verification/HandleOps.v ===== *)
(** * What the operations of the session handle preserve

    A relation between handles that every single call keeps is kept by the
    handle's operations; the tactic [keeps_go] follows their structure. *)

From stdpp Require Import base list strings gmap relations.
From S2P Require Import Prelude Json Ids Interceptor EffectBus Errors ToolSessions.

Section Keeps.
Context {E : Type} (R : relation (handle E)) `{!PreOrder R}.
Notation M := (@M E).
Notation handle := (handle E).

Definition keeps {A} (m : M A) : Prop := forall h, R h (m h).2.

Lemma keeps_ret {A} (a : A) : keeps (ret a).
Proof. intros h. simpl. reflexivity. Qed.

Lemma keeps_get {A} (f : handle -> A) : keeps (get f).
Proof. intros h. simpl. reflexivity. Qed.

Lemma keeps_bind {A B} (m : M A) (k : A -> M B) : keeps m -> (forall a, keeps (k a)) -> keeps (bindM m k).
Proof.
  intros Hm Hk h. unfold bindM. specialize (Hm h). destruct (m h) as [a h1]. simpl in Hm. etransitivity; [exact Hm|apply Hk].
Qed.

Lemma keeps_env {A} (f : E -> A * E) : (forall h, R h (set_env (f (h_env h)).2 h)) -> keeps (env_op f).
Proof. intros Hf h. unfold env_op. specialize (Hf h). by destruct (f (h_env h)). Qed.
End Keeps.

(** Calls other than opening and closing sessions, and changes that leave the
    environment and the open sessions alone, keep [R]. *)
Record quiet {E} `{ToolEnv E} (R : relation (handle E)) : Prop := {
  q_frame (h h' : handle E) : h_env h' = h_env h -> scopes h' = scopes h -> R h h';
  q_send id i h : R h (set_env (registry_send id i (h_env h)).2 h);
  q_read id i h : R h (set_env (registry_read id i (h_env h)).2 h);
  q_intercept c h : R h (set_env (intercept_tool_call c (h_env h)).2 h);
  q_notify c r h : R h (set_env (notify_tool_call_complete c r (h_env h)) h);
  q_answers h : R h (set_env (emit_answers (h_env h)).2 h);
  q_anchor h : R h (set_env (allocate_anchor (h_env h)).2 h)
}.

(** So do the others. *)
Record tame {E} `{ToolEnv E} (R : relation (handle E)) : Prop := {
  t_quiet : quiet R;
  t_scopes s h : R h (set_scopes s h);
  t_open t i s h : R h (set_env (registry_open t i s (h_env h)).2 h);
  t_finish id h : R h (set_env (registry_finish id (h_env h)).2 h);
  t_abort id r h : R h (set_env (registry_abort id r (h_env h)).2 h)
}.

Section Rules.
Context {E : Type} `{ToolEnv E} (R : relation (handle E)) `{!PreOrder R} (Hq : quiet R).

Lemma keeps_modify f : (forall h, h_env (f h) = h_env h /\ scopes (f h) = scopes h) -> keeps R (modify f).
Proof. intros Hf h. destruct (Hf h). by apply Hq. Qed.

Lemma keeps_call {A} c (f : E -> A * E) : (forall h, R h (set_env (f (h_env h)).2 h)) -> keeps R (call c f).
Proof. intros Hf h. unfold call. etransitivity; [by apply (q_frame R Hq h (log_call c h))|]. by apply keeps_env. Qed.
End Rules.

(** A relation between environments, as one between handles. *)
Definition env_rel {E} (R : relation E) : relation (handle E) := fun h h' => R (h_env h) (h_env h').

#[global] Instance env_rel_preorder {E} (R : relation E) `{!PreOrder R} : PreOrder (env_rel R).
Proof. split; [intros h; unfold env_rel; reflexivity|intros h1 h2 h3 H1 H2; unfold env_rel in *; by etransitivity]. Qed.

Ltac keeps_step :=
  match goal with
  | |- keeps _ (ret _) => apply keeps_ret; exact _
  | |- keeps _ (get _) => apply keeps_get; exact _
  | Hq : quiet ?R |- keeps ?R (modify _) => apply (keeps_modify R Hq); intros ?; split; reflexivity
  | Ht : tame ?R |- keeps ?R (modify _) => intros ?; apply (t_scopes R Ht)
  | |- keeps _ (bindM _ _) => apply keeps_bind; [exact _| |intros ?]
  | Hq : quiet ?R |- keeps ?R (call _ _) => apply (keeps_call R Hq)
  | |- keeps _ (env_op _) => apply keeps_env
  | |- keeps _ (match ?x with _ => _ end) => destruct x
  | |- keeps _ (if ?x then _ else _) => destruct x
  | |- forall _, _ => intros ?
  | Hq : quiet ?R |- ?R _ _ => solve [apply (q_send R Hq)|apply (q_read R Hq)|apply (q_intercept R Hq)|apply (q_notify R Hq)|apply (q_answers R Hq)|apply (q_anchor R Hq)]
  | Ht : tame ?R |- ?R _ _ => solve [apply (t_open R Ht)|apply (t_finish R Ht)|apply (t_abort R Ht)]
  end.
Ltac keeps_go := repeat (first [solve [auto with nocore] | keeps_step]).

Section Quiet.
Context {E : Type} `{ToolEnv E} (R : relation (handle E)) `{!PreOrder R} (Hq : quiet R).
Notation keeps := (keeps R).

Lemma keeps_start_tool c m : keeps (start_tool c m).
Proof.
  unfold start_tool. apply keeps_bind; [exact _|keeps_go|]. intros answers h. by destruct (effect_emit _ _ _) as [[] cs]; apply Hq.
Qed.

Lemma keeps_complete t o p : keeps (complete_token t o p).
Proof. unfold complete_token. keeps_go. Qed.

Lemma keeps_retire id o p : keeps (retire_token id o p).
Proof. unfold retire_token. pose proof (fun t => keeps_complete t o p). keeps_go. Qed.

Lemma keeps_start_for id c m : keeps (start_for id c m).
Proof. unfold start_for, insert_token. pose proof (keeps_start_tool c m). keeps_go. Qed.

Lemma keeps_failed c m : keeps (emit_failed_effect c m).
Proof. unfold emit_failed_effect. pose proof (keeps_start_tool c m). pose proof keeps_complete. keeps_go. Qed.

Lemma keeps_intercept ctx : keeps (intercept ctx).
Proof. unfold intercept. pose proof keeps_failed. keeps_go. Qed.

Lemma keeps_notify ctx r : keeps (env_op (fun e => (tt, notify_tool_call_complete ctx r e))).
Proof. apply keeps_env. intros h. apply (q_notify R Hq). Qed.

(** What the end of a session does before its scope is removed. *)
Lemma lifecycle_keeps id o c h : exists h1, R h h1 /\ (complete_session_lifecycle id o c h).2 = set_scopes (delete id (scopes h1)) h1.
Proof.
  unfold complete_session_lifecycle, bindM, modify, get, env_op, ret. pose proof (keeps_retire id o None h) as Hr.
  destruct (retire_token id o None h) as [u h1]. simpl in Hr. destruct (call_states h1 !! id) as [ctx|]; [|by exists h1].
  eexists. split; [|reflexivity]. etransitivity; [exact Hr|]. etransitivity; [|apply (q_notify R Hq)]. by apply Hq.
Qed.

Lemma keeps_send id input : keeps (tool_session_send id input).
Proof.
  unfold tool_session_send, send_begin. pose proof keeps_intercept. pose proof keeps_start_for. pose proof keeps_retire. pose proof keeps_notify. keeps_go.
Qed.

Lemma keeps_read id input : keeps (tool_session_read id input).
Proof.
  unfold tool_session_read, read_begin, read_end. pose proof keeps_start_for. pose proof keeps_retire. pose proof keeps_notify. keeps_go.
Qed.

Lemma keeps_chunk c : keeps (emit_stream_chunk c).
Proof. unfold emit_stream_chunk. keeps_go. Qed.

Lemma keeps_recover order ps tool id : keeps (recover_stale_session order ps tool id).
Proof. unfold recover_stale_session. keeps_go. Qed.
End Quiet.

Section Tame.
Context {E : Type} `{ToolEnv E} (R : relation (handle E)) `{!PreOrder R} (Ht : tame R).
Notation keeps := (keeps R).

Lemma keeps_lifecycle id o c : keeps (complete_session_lifecycle id o c).
Proof.
  intros h. destruct (lifecycle_keeps R (t_quiet _ Ht) id o c h) as (h1 & Hr & ->). etransitivity; [exact Hr|apply (t_scopes R Ht)].
Qed.

Lemma keeps_open scope tool input : keeps (open_tool_session scope tool input).
Proof.
  unfold open_tool_session. pose proof (t_quiet _ Ht). pose proof (keeps_intercept R (t_quiet _ Ht)). pose proof (keeps_failed R (t_quiet _ Ht)).
  pose proof (keeps_notify R (t_quiet _ Ht)). keeps_go.
Qed.

Lemma keeps_finish id : keeps (tool_session_finish id).
Proof. unfold tool_session_finish. pose proof (t_quiet _ Ht). pose proof keeps_lifecycle. keeps_go. Qed.

Lemma keeps_abort id r : keeps (tool_session_abort id r).
Proof. unfold tool_session_abort. pose proof (t_quiet _ Ht). pose proof keeps_lifecycle. keeps_go. Qed.

Lemma keeps_reopen ps tool id : keeps (reopen_logical_session_after_stale_close ps tool id).
Proof. unfold reopen_logical_session_after_stale_close. pose proof keeps_finish. pose proof keeps_open. keeps_go. Qed.
End Tame.
