(* ===== verification/SessionPlan.v ===== *)
(** * Executing a session plan

    [baml-rt-quickjs/src/baml/tool_session_plan.rs]: one fragment of a plan
    (Open, Send, SearchRead, PageRead, Finish, Abort) run against the session
    handle, with synthetic opens for bare Sends, suppression of repeated Sends,
    and clean-up of one-shot sessions; the archiving of a completed Send in
    [tool_session_handle.rs]; [tool_dispatch.rs].  It composes [PlanExtraction],
    [ToolSessions], [RefTable], [ArchiveRead], [Render] and [Signature]. *)

From stdpp Require Import base list strings gmap.
From Stdlib Require Import ZArith Lia.
From S2P Require Import Prelude RustStr ArchiveRead RefTable Json Ids Interceptor EffectBus Errors ToolNames Signature Render StepExecutor PlanExtraction ToolSessions.

Open Scope Z_scope.
Open Scope string_scope.
Open Scope list_scope.

(** ** The world of a plan *)

(** The handle's environment with the reference tables of all contexts. *)
Record world (E : Type) := mkWorld { w_env : E; w_tables : ContextRefTables }.
Arguments mkWorld {E}. Arguments w_env {E}. Arguments w_tables {E}.

(** What a plan needs beyond the handle: tool metadata and descriptions, the
    archive store behind the tables if there is one, JSON and regex engines. *)
Class PlanEnv (E regex : Type) := {
  all_metadata : list ToolFunctionMetadata;
  registry_execute : string -> json -> ContextId -> AgentId -> E -> result json BamlRtError * E;
  describe_archive_action_for : string -> json -> option string;
  describe_invocation_with_hint : string -> json -> string;
  archive_ref_store : bool;
  archive_allocate_and_put : ContextId -> AgentId -> ActivityAnchorId -> ArchiveEntry -> E -> result ShortRef BamlRtError * E;
  archive_get_body : ContextId -> ShortRef -> E -> result (option ArchiveEntry) BamlRtError * E;
  current_correlation_id : option string;
  serde_to_string : json -> string;
  serde_from_str : string -> result json string;
  regex_new : string -> result regex string;
  regex_is_match : regex -> string -> bool
}.

(** [ToolRegistry::get_metadata] *)
Definition metadata_of (metadata : list ToolFunctionMetadata) (name : string) : option ToolFunctionMetadata :=
  t ← ok (tool_name_parse name);
  find (fun m => bool_decide (md_name m = t)) metadata.

Definition table_at (ts : ContextRefTables) (cell : nat) : RefTable := default RefTable_new (heap ts !! cell).
Definition set_table (ts : ContextRefTables) (cell : nat) (t : RefTable) : ContextRefTables :=
  mkTables (ctx_cell ts) (<[cell := t]> (heap ts)) (next_cell ts).

(** ** Archiving a completed Send *)

Section Archiving.
Context {E regex : Type} `{ToolEnv E} `{PlanEnv E regex}.

Definition send_entry (tool : string) (input output : json) (anchor : ActivityAnchorId) : ArchiveEntry :=
  let action_identity := describe_archive_action_for tool input in
  let summary :=
    match action_identity with
    | Some _ => None
    | None => Some (describe_invocation_with_hint tool (JObj [("op", JStr "Send"); ("input", input)]))
    end in
  with_send_signature
    (with_action_identity (ArchiveEntry_new (render_to_lines serde_to_string output) tool summary anchor "tool_result") action_identity)
    (Some (Signature.send_signature serde_to_string tool input)).

Definition header_of (t : RefTable) (r : ShortRef) (missing : string) : result (string * string) BamlRtError :=
  match RefTable_get t r with
  | Some e => Ok (ShortRef_display r, ArchiveEntry_display_header e r)
  | None => Err (InvalidArgument missing)
  end.

Definition archive_send_result (id : ToolSessionId) (tool : string) (input output : json) (anchor : ActivityAnchorId)
    (scope : RuntimeScope) (w : world E) : result (string * string) BamlRtError * world E :=
  let entry := send_entry tool input output anchor in
  let '(ts, cell) := get_or_create_ref_table (w_tables w) (scope_context_id scope) in
  if archive_ref_store then
    let '(r, e) := archive_allocate_and_put (scope_context_id scope) (scope_agent_id scope) anchor entry (w_env w) in
    match r with
    | Err err => (Err err, mkWorld e ts)
    | Ok r =>
        let t := RefTable_insert_at (table_at ts cell) r entry in
        (header_of t r "archive insert failed after Surreal allocate", mkWorld e (set_table ts cell t))
    end
  else
    let '(t, r) := RefTable_insert (table_at ts cell) entry in
    (header_of t r "archive insert failed (memory path)", mkWorld (w_env w) (set_table ts cell t)).

Definition lift {A} (f : E -> A * E) (w : world E) : A * world E :=
  let '(a, e) := f (w_env w) in (a, mkWorld e (w_tables w)).

(** The handle's environment, with this archive in place of the inner one. *)
#[global] Instance world_env : ToolEnv (world E) := {
  registry_open t i s := lift (registry_open t i s);
  registry_send id i := lift (registry_send id i);
  registry_read id i := lift (registry_read id i);
  registry_finish id := lift (registry_finish id);
  registry_abort id r := lift (registry_abort id r);
  intercept_tool_call c := lift (intercept_tool_call c);
  notify_tool_call_complete c r w := mkWorld (notify_tool_call_complete c r (w_env w)) (w_tables w);
  emit_answers := lift emit_answers;
  allocate_anchor := lift allocate_anchor;
  archive_result := archive_send_result;
  agent_package := agent_package;
  call_metadata := call_metadata;
  with_reserved_anchor := with_reserved_anchor;
  delegation_target := delegation_target;
  tool_backend := tool_backend;
  tool_digest := tool_digest;
  error_text := error_text
}.
End Archiving.

(** ** Answers *)

Definition archive_ref_not_found_tool_result (op : string) (r : ShortRef) : json :=
  JObj [("status", JStr "error"); ("op", JStr op); ("archive_ref", JStr (ShortRef_display r)); ("has_more", JBool false);
        ("next_offset", JNum (NInt 0));
        ("message", JStr ("Archive ref " +:+ ShortRef_display r +:+ " is not available in this session. Use an @N handle from a prior tool Send in the transcript (only after that Send completes). If the ref is stale or mistyped, pick the correct @N from the latest tool results and retry."));
        ("error", JObj [("kind", JStr "ArchiveRefNotFound"); ("code", JStr "archive_ref_not_found"); ("disposition", JStr "LlmCorrectable")])].

(** [{:?}] of the kind, serde's name of the disposition. *)
Definition failure_kind_debug (k : ToolFailureKind) : string :=
  match k with
  | InvalidInput => "InvalidInput"
  | FExecutionFailed => "ExecutionFailed"
  | NotAuthorized => "NotAuthorized"
  | RateLimited => "RateLimited"
  | Cancelled => "Cancelled"
  | Unknown => "Unknown"
  end.

Definition disposition_json (d : ErrorDisposition) : json :=
  JStr (match d with
        | HostRetriable => "host_retriable"
        | LlmCorrectable => "llm_correctable"
        | InformAndContinue => "inform_and_continue"
        | Fatal => "fatal"
        end).

Definition opt_json {A} (f : A -> json) (o : option A) : json := match o with Some a => f a | None => JNull end.

Definition plan_send_tool_error_value (tool : string) (id : ToolSessionId) (failure : ToolFailure) : json :=
  let c := f_classified failure in
  JObj [("status", JStr "error"); ("tool_name", JStr tool); ("session_id", JStr id);
        ("error", JObj [("kind", JStr (failure_kind_debug (f_kind failure))); ("message", JStr (f_message failure));
                        ("retryable", JBool (match f_retryability failure with Retryable => true | Permanent => false end));
                        ("disposition", disposition_json (disposition c)); ("code", JStr (code c));
                        ("hint", opt_json JStr (hint c)); ("retry_after_ms", opt_json (fun z => JNum (NInt z)) (retry_after_ms c))]);
        ("result", JNull)].

Definition send_unavailable_result (tool reason : string) : json :=
  JObj [("status", JStr "error"); ("tool_name", JStr tool); ("has_more", JBool false);
        ("message", JStr ("Could not run " +:+ tool +:+ ": " +:+ reason));
        ("error", JObj [("kind", JStr "ToolUnavailable"); ("code", JStr "tool_unavailable"); ("disposition", JStr "LlmCorrectable")]);
        ("result", JNull)].

Definition send_done_json (r : SendResult) : json :=
  JObj [("status", JStr "done"); ("output", JStr (sr_header r)); ("archive_ref", JStr (sr_archive_ref r)); ("result", sr_output r)].

Definition duplicate_send_json (r : ShortRef) (header : string) : json :=
  JObj [("status", JStr "duplicate"); ("op", JStr "DuplicateSend"); ("archive_ref", JStr (ShortRef_display r)); ("output", JStr header);
        ("duplicate", JBool true);
        ("message", JStr ("Identical Send already materialized as " +:+ ShortRef_display r +:+ "; read it instead of re-issuing."));
        ("result", JNull)].

Definition open_json (id : ToolSessionId) (tool : string) : json :=
  JObj [("status", JStr "open"); ("session_id", JStr id); ("tool_name", JStr tool)].

Definition finished_json : json := JObj [("status", JStr "finished")].
Definition aborted_json : json := JObj [("status", JStr "aborted")].

(** ** Steps *)

(** How an execution ends: it returns, a slice panics, or the tool still
    streams when the polls run out. *)
Inductive plan_end := PReturn (r : result json BamlRtError) | PPanic | PPolling.

Record plan_state := mkPS { ps_session : option ToolSessionId; ps_last : option json; ps_sent : bool }.

Inductive step_end := SNext (s : plan_state) | SStop (e : plan_end).

Definition with_last (v : json) (s : plan_state) : plan_state := mkPS (ps_session s) (Some v) (ps_sent s).

Definition unit_or_null_open (i : option json) : bool :=
  match i with None | Some JNull | Some (JObj []) => true | _ => false end.

Definition range_text (r : ShortRef) (next_step : string) (page : GrepPage) : string :=
  match page_lines page with
  | [] => EmptyString
  | f :: _ =>
      let last := match list.last (page_lines page) with Some l => original_line_number l | None => 1%nat end in
      let more :=
        if has_more page then
          let o := show_nat (next_offset page) in
          nl_str +:+ "--- Not all lines shown — next step: " +:+ next_step +:+ " " +:+ ShortRef_display r +:+ " with offset=" +:+ o +:+
          " (" +:+ show_nat (total_matched page - next_offset page) +:+ " more lines — use offset=" +:+ o +:+ " for next page) ---"
        else EmptyString in
      nl_str +:+ "lines " +:+ show_nat (original_line_number f) +:+ "-" +:+ show_nat last +:+ " of " +:+ show_nat (total_matched page) +:+ ":" +:+
      nl_str +:+ format_cat_n (page_lines page) +:+ more
  end.

Definition read_output_json (output : string) (page : GrepPage) : json :=
  JObj [("status", JStr "done"); ("output", JStr output); ("has_more", JBool (has_more page));
        ("next_offset", JNum (NInt (Z.of_nat (next_offset page))))].

Definition scope_message_id (s : RuntimeScope) : MessageId :=
  match s with MessageScope _ _ m | TaskScope _ _ m _ => m end.

Section Plans.
Context {E regex : Type} `{ToolEnv E} `{PlanEnv E regex}.
Context (order : gmap ToolSessionId ToolSessionScope -> list (ToolSessionId * ToolSessionScope)) (fuel : nat).
Context (scope : RuntimeScope).
Notation M := (@M (world E)).
Notation "x <- m ;; k" := (bindM m (fun x => k)) (at level 100, m at next level, right associativity).
Notation "m ;;; k" := (bindM m (fun _ => k)) (at level 100, right associativity).

Definition context_id : ContextId := scope_context_id scope.

Definition with_tables {A} (f : ContextRefTables -> A * ContextRefTables) : M A :=
  env_op (fun w : world E => let '(a, ts) := f (w_tables w) in (a, mkWorld (w_env w) ts)).

(** [emitter.emit(ToolSessionStep { .. })], its failure ignored. *)
Definition emit_session_step : M unit :=
  emitter <- get has_emitter ;;
  if emitter : bool then
    answers <- env_op emit_answers ;;
    modify (fun h => set_bus (effect_emit answers (ToolSessionStep context_id) (counts h)).2 (lost h) (n_started h) (completed h) h)
  else ret tt.

Definition build_metadata_map_with_phase (phase : option string) : json :=
  JObj (opt_field "correlation_id" current_correlation_id ++ [("message_id", JStr (scope_message_id scope))] ++
        opt_field "task_id" (scope_task_id_opt scope) ++ [("agent_id", JStr (scope_agent_id scope))] ++ opt_field "phase" phase).

(** The archive of an identical earlier Send of this context. *)
Definition find_duplicate (tool : string) (normalized : json) : M (option (ShortRef * string)) :=
  with_tables (fun ts =>
    let '(ts, cell) := get_or_create_ref_table ts context_id in
    (find_by_send_signature (table_at ts cell) (Signature.send_signature serde_to_string tool normalized), ts)).

Definition resolve_archive_entry (r : ShortRef) : M (result ArchiveEntry BamlRtError) :=
  t <- with_tables (fun ts => let '(ts, cell) := get_or_create_ref_table ts context_id in ((cell, RefTable_get (table_at ts cell) r), ts)) ;;
  let '(cell, found) := t in
  let missing := Err (InvalidArgument ("archive ref " +:+ ShortRef_display r +:+ " not found in session context")) in
  match found with
  | Some e => ret (Ok e)
  | None =>
      if archive_ref_store then
        remote <- env_op (lift (archive_get_body context_id r)) ;;
        match remote with
        | Err err => ret (Err err)
        | Ok (Some e) => with_tables (fun ts => (tt, set_table ts cell (RefTable_insert_at (table_at ts cell) r e))) ;;; ret (Ok e)
        | Ok None => ret missing
        end
      else ret missing
  end.

Definition open_step (tool : string) (auto_opened : bool) (initial_input : option json) (s : plan_state) : M step_end :=
  let open_fresh :=
    let open_input := default (JObj []) (opt_filter (fun v => negb (is_null v)) initial_input) in
    r <- open_tool_session scope tool open_input ;;
    match r with
    | Err e => ret (SStop (PReturn (if auto_opened then Ok (send_unavailable_result tool (error_text e)) else Err e)))
    | Ok id => emit_session_step ;;; ret (SNext (mkPS (Some id) (Some (open_json id tool)) (ps_sent s)))
    end in
  match ps_session s with
  | Some existing =>
      if unit_or_null_open initial_input then ret (SNext (with_last (open_json existing tool) s))
      else
        r <- tool_session_abort existing (Some "reopen requested by planner open with non-empty input") ;;
        match r with Err e => ret (SStop (PReturn (Err e))) | Ok _ => open_fresh end
  | None => open_fresh
  end.

Definition plan_send_step (tool : string) (input : json) (s : plan_state) : M step_end :=
  match ps_session s with
  | None => ret (SStop (PReturn (Err (InvalidArgument "send step before open: FSM requires Open before Send"))))
  | Some id =>
      match normalize_plan_input serde_from_str input with
      | Err e => ret (SStop (PReturn (Err e)))
      | Ok normalized =>
          dup <- find_duplicate tool normalized ;;
          match dup with
          | Some (r, header) => ret (SNext (mkPS (Some id) (Some (duplicate_send_json r header)) true))
          | None =>
              out <- send_step order fuel id normalized scope tool ;;
              match out with
              | None => ret (SStop PPolling)
              | Some (Err e) => ret (SStop (PReturn (Err e)))
              | Some (Ok (StepDone id' r)) => emit_session_step ;;; ret (SNext (mkPS (Some id') (Some (send_done_json r)) true))
              | Some (Ok (StepToolError id' f)) => ret (SNext (mkPS (Some id') (Some (plan_send_tool_error_value tool id' f)) (ps_sent s)))
              end
          end
      end
  end.

(** The effect a read starts and completes at once. *)
Definition emit_read_effect (tool phase : string) (args output : json) : M unit :=
  t <- start_tool context_id (mkToolMeta tool None args (build_metadata_map_with_phase (Some phase)) None None None) ;;
  match t with Some t => complete_token t Success (Some output) | None => ret tt end.

Definition read_step (tool op phase next_step : string) (r : ShortRef) (offset limit : nat) (grep : option (GrepPattern (regex := regex)))
    (s : plan_state) : M step_end :=
  e <- resolve_archive_entry r ;;
  match e with
  | Err (InvalidArgument _) => ret (SNext (with_last (archive_ref_not_found_tool_result op r) s))
  | Err err => ret (SStop (PReturn (Err err)))
  | Ok entry =>
      match grep_paginate regex_is_match (content entry) grep offset limit with
      | Panic => ret (SStop PPanic)
      | Prelude.Done page =>
          let output := read_output_json (ArchiveEntry_display_header entry r +:+ range_text r next_step page) page in
          let args := JObj ([("op", JStr op); ("archive_ref", JStr (ShortRef_display r))] ++ opt_field "grep" (gp_pattern <$> grep) ++
                            [("offset", JNum (NInt (Z.of_nat offset))); ("limit", JNum (NInt (Z.of_nat limit)))]) in
          emitter <- get has_emitter ;;
          (if emitter : bool then
             emit_read_effect tool phase args output ;;;
             match ps_session s with Some _ => emit_session_step | None => ret tt end
           else ret tt) ;;;
          ret (SNext (with_last output s))
      end
  end.

Definition search_read_step (tool : string) (r : ShortRef) (offset limit : nat) (grep : GrepPattern (regex := regex)) (s : plan_state) : M step_end :=
  read_step tool "SearchRead" "search_read" "SearchRead (grep) or PageRead" r offset limit (Some grep) s.

Definition page_read_step (tool : string) (r : ShortRef) (offset limit : nat) (s : plan_state) : M step_end :=
  read_step tool "PageRead" "page_read" "PageRead" r offset limit None s.

Definition last_is_done (s : plan_state) : bool :=
  match ps_last s with Some o => bool_decide (get_str "status" o = Some "done") | None => false end.

Definition finish_step (s : plan_state) : M step_end :=
  r <- match ps_session s with Some id => tool_session_finish id | None => ret (Ok tt) end ;;
  match r with
  | Err e => ret (SStop (PReturn (Err e)))
  | Ok _ => ret (SNext (mkPS None (if last_is_done s then ps_last s else Some finished_json) (ps_sent s)))
  end.

Definition abort_step (reason : option string) (s : plan_state) : M step_end :=
  r <- match ps_session s with Some id => tool_session_abort id reason | None => ret (Ok tt) end ;;
  match r with
  | Err e => ret (SStop (PReturn (Err e)))
  | Ok _ => ret (SNext (mkPS None (Some aborted_json) (ps_sent s)))
  end.

Definition plan_step (tool : string) (auto_opened : bool) (op : ToolSessionOp (regex := regex)) (s : plan_state) : M step_end :=
  match op with
  | Open initial_input _ => open_step tool auto_opened initial_input s
  | Send input _ => plan_send_step tool input s
  | SearchRead r offset limit grep _ => search_read_step tool r offset limit grep s
  | PageRead r offset limit _ => page_read_step tool r offset limit s
  | Finish _ => finish_step s
  | Abort reason => abort_step reason s
  end.

Fixpoint plan_steps (tool : string) (auto_opened : bool) (ops : list (ToolSessionOp (regex := regex))) (s : plan_state) : M step_end :=
  match ops with
  | [] => ret (SNext s)
  | op :: rest =>
      r <- plan_step tool auto_opened op s ;;
      match r with SNext s' => plan_steps tool auto_opened rest s' | SStop e => ret (SStop e) end
  end.

(** ** The plan *)

Definition no_output_error : BamlRtError :=
  InvalidArgument "Tool session plan produced no output; expected at least one step to yield a result. This is a runtime invariant violation — every plan execution must produce a non-null tool_result.".

(** One-shot strict sessions and failed synthetic ones are closed; what closing
    them answers is ignored. *)
Definition cleanup (auto_opened one_shot_strict : bool) (s : plan_state) : M unit :=
  let should_auto_finish := (auto_opened && one_shot_strict) || (negb auto_opened && one_shot_strict && ps_sent s) in
  match ps_session s with
  | Some id =>
      if auto_opened || should_auto_finish then
        if ps_sent s then
          if should_auto_finish then tool_session_finish id ;;; ret tt else ret tt
        else tool_session_abort id (Some "auto-abort after failed Send on auto-opened session") ;;; ret tt
      else ret tt
  | None => ret tt
  end.

Definition run_plan (tool : string) (auto_opened one_shot_strict : bool) (ops : list (ToolSessionOp (regex := regex)))
    (session : option ToolSessionId) : M plan_end :=
  r <- plan_steps tool auto_opened ops (mkPS session None false) ;;
  match r with
  | SStop e => ret e
  | SNext s => cleanup auto_opened one_shot_strict s ;;; ret (PReturn (ok_or (ps_last s) no_output_error))
  end.

Definition one_shot_strict (m : option ToolFunctionMetadata) : bool :=
  match m with Some m => bool_decide (md_capability m = OneShot) && bool_decide (md_session_policy m = Strict) | None => false end.

Definition is_send {regex} (op : ToolSessionOp (regex := regex)) : bool := match op with Send _ _ => true | _ => false end.

(** The session a fragment continues; entry Sends always start afresh. *)
Definition continued_session (tool : string) (op : ToolSessionOp (regex := regex)) (source : option string) : M (option ToolSessionId) :=
  let from_entry_phase := match source with Some name => ends_with "__entry" name | None => false end in
  if is_send op && from_entry_phase then ret None
  else get (fun h => find_existing_session_for_scope_and_tool scope tool (order (scopes h))).

Definition execute_tool_session_plan (tool_name : ToolName) (op : ToolSessionOp (regex := regex)) (source : option string) : M plan_end :=
  let tool := tool_name_display tool_name in
  let metadata := metadata_of all_metadata tool in
  let strict := one_shot_strict metadata in
  session <- continued_session tool op source ;;
  match op with
  | Send input _ =>
      match normalize_plan_input serde_from_str input with
      | Err e => ret (PReturn (Err e))
      | Ok normalized =>
          dup <- find_duplicate tool normalized ;;
          match dup with
          | Some (r, header) => ret (PReturn (Ok (duplicate_send_json r header)))
          | None =>
              match session with
              | None =>
                  let can_auto_open := match metadata with
                                       | Some m => schema_allows_empty_or_optional_open_input (md_open_input_schema m)
                                       | None => false
                                       end in
                  if negb can_auto_open then
                    ret (PReturn (Ok (send_unavailable_result tool "this tool requires configuration before use and cannot be invoked directly")))
                  else run_plan tool true strict [Open None (Some "auto-open for send fragment with no open session"); op] None
              | Some _ => run_plan tool false strict [op] session
              end
          end
      end
  | Finish _ => match session with None => ret (PReturn (Ok finished_json)) | Some _ => run_plan tool false strict [op] session end
  | Abort _ => match session with None => ret (PReturn (Ok aborted_json)) | Some _ => run_plan tool false strict [op] session end
  | _ => run_plan tool false strict [op] session
  end.

(** ** Reads outside a session *)

Definition execute_archive_read_step (op : string) (r : ShortRef) (offset limit : nat) (grep : option (GrepPattern (regex := regex))) : M plan_end :=
  e <- resolve_archive_entry r ;;
  match e with
  | Err (InvalidArgument _) => ret (PReturn (Ok (archive_ref_not_found_tool_result op r)))
  | Err err => ret (PReturn (Err err))
  | Ok entry =>
      let grep_raw := gp_pattern <$> grep in
      match grep_paginate regex_is_match (content entry) grep offset limit with
      | Panic => ret PPanic
      | Prelude.Done page =>
          match format_session_read_body_from_rendered regex_new regex_is_match (content entry) (ShortRef_display r) grep_raw offset limit with
          | Panic => ret PPanic
          | Prelude.Done body =>
              emit_session_step ;;;
              ret (PReturn (Ok (read_output_json (ArchiveEntry_display_header entry r +:+ nl_str +:+ body) page)))
          end
      end
  end.

Definition execute_archive_read_plan (op : ToolSessionOp (regex := regex)) : M plan_end :=
  match op with
  | SearchRead r offset limit grep _ => execute_archive_read_step "SearchRead" r offset limit (Some grep)
  | PageRead r offset limit _ => execute_archive_read_step "PageRead" r offset limit None
  | other => ret (PReturn (Err (InvalidArgument ("global archive read executor received non-read op " +:+ op_name other))))
  end.

(** ** Dispatch *)

(** [ToolExecutionContext::execute_tool]: a call outside any session. *)
Definition execute_tool (name : string) (args : json) : M (result json BamlRtError) :=
  let ctx := call_context name args (call_metadata scope name "execute") scope None in
  go <- intercept ctx ;;
  match go with
  | Err e => ret (Err e)
  | Ok _ =>
      emitter <- get has_emitter ;;
      t <- (if emitter : bool then start_tool context_id (effect_metadata name args (tc_metadata ctx) None) else ret None) ;;
      r <- env_op (lift (registry_execute name args context_id (scope_agent_id scope))) ;;
      (match t with
       | Some t => complete_token t (match r with Ok _ => Success | Err _ => Failure end) (ok r)
       | None => ret tt
       end) ;;;
      env_op (fun w => (tt, notify_tool_call_complete ctx r w)) ;;;
      ret r
  end.

(** [tool_name_for_scope] *)
Definition tool_name_for_scope (entries : list (ToolSessionId * ToolSessionScope)) : option ToolName :=
  find (fun p => bool_decide (ss_scope p.2 = scope)) entries ≫= fun p => ok (tool_name_parse (ss_tool p.2)).

Definition execute_tool_from_baml_result_or_value (functions : option (gmap string (list string))) (source : option string)
    (baml_result : json) : M plan_end :=
  scope_tool <- get (fun h => tool_name_for_scope (order (scopes h))) ;;
  match resolve_baml_tool_invocation_plan regex_new serde_to_string all_metadata functions source scope_tool baml_result with
  | Err e => ret (PReturn (Err e))
  | Ok (ArchiveReadPlan plan) => execute_archive_read_plan (pl_step plan)
  | Ok (SessionPlan tool plan src) => execute_tool_session_plan tool (pl_step plan) src
  | Ok (OneShotCall tool args) => r <- execute_tool (tool_name_display tool) args ;; ret (PReturn r)
  | Ok (Passthrough v) => ret (PReturn (Ok v))
  end.
End Plans.
