(* ===== verification/PlanSafety.v ===== *)
(** * What executing plans guarantees

    Theorems about [SessionPlan]: sessions opened for a bare Send do not stay
    behind, an identical Send is executed once per context, and every answer
    of a plan is one the step executor goes on from. *)

From stdpp Require Import base list strings gmap relations.
From Stdlib Require Import ZArith Lia.
From S2P Require Import Prelude RustStr ArchiveRead RefTable Json Ids Interceptor EffectBus Errors ToolNames Signature Render StepExecutor PlanExtraction ToolSessions HandleOps SessionPlan.

Open Scope string_scope.
Open Scope list_scope.

(** ** What every operation preserves *)

Section Preserve.
Context {E regex : Type} `{ToolEnv E} `{PlanEnv E regex}.
Notation M := (@M (world E)).
Notation handle := (handle (world E)).

(** One call of the environment. *)
Inductive env_step : relation E :=
| es_open t i s e : env_step e (registry_open t i s e).2
| es_send id i e : env_step e (registry_send id i e).2
| es_read id i e : env_step e (registry_read id i e).2
| es_finish id e : env_step e (registry_finish id e).2
| es_abort id r e : env_step e (registry_abort id r e).2
| es_intercept c e : env_step e (intercept_tool_call c e).2
| es_notify c r e : env_step e (notify_tool_call_complete c r e)
| es_answers e : env_step e (emit_answers e).2
| es_anchor e : env_step e (allocate_anchor e).2
| es_put c a n en e : env_step e (archive_allocate_and_put c a n en e).2
| es_body c r e : env_step e (archive_get_body c r e).2
| es_execute n a c g e : env_step e (registry_execute n a c g e).2.

(** A relation between worlds that single calls of the environment keep. *)
Lemma tame_calls (R : relation (world E)) `{!PreOrder R} :
  (forall w e', env_step (w_env w) e' -> R w (mkWorld e' (w_tables w))) -> tame (env_rel R).
Proof.
  intros Hc. assert (Hl : forall A (f : E -> A * E), (forall e, env_step e (f e).2) -> forall w, R w (lift f w).2).
  { intros A f Hf w. unfold lift. specialize (Hc w (f (w_env w)).2 (Hf _)). by destruct (f (w_env w)). }
  split; [split|..]; intros; unfold env_rel;
    cbn [registry_open registry_send registry_read registry_finish registry_abort intercept_tool_call notify_tool_call_complete emit_answers allocate_anchor world_env h_env set_env set_scopes];
    first [apply Hl; intros; constructor | apply Hc; constructor | reflexivity | idtac].
  match goal with Hh : h_env _ = h_env _ |- _ => rewrite Hh end. reflexivity.
Qed.
End Preserve.

Section SessionStep.
Context {E regex : Type} `{ToolEnv E} `{PlanEnv E regex}.
Context (R : relation (handle (world E))) `{HR : !PreOrder R} (Hq : quiet R).

Lemma keeps_session_step scope : keeps R (emit_session_step scope).
Proof. unfold emit_session_step. keeps_go. Qed.
End SessionStep.

(** Operations that may archive or touch the tables. *)
Section ArchivingOps.
Context {E regex : Type} `{ToolEnv E} `{PlanEnv E regex}.
Context (R : relation (handle (world E))) `{HR : !PreOrder R} (Ht : tame R).
Context (R_archive : forall id tool input v a s h, R h (set_env (archive_send_result id tool input v a s (h_env h)).2 h)).
Notation keeps := (keeps R).

Lemma keeps_poll fuel id input ps : keeps (poll_until_done fuel id input ps).
Proof.
  pose proof (t_quiet _ Ht) as Hq. pose proof (keeps_read R Hq). pose proof (keeps_abort R Ht). pose proof (keeps_chunk R Hq).
  induction fuel as [|fuel IH]; cbn [poll_until_done]; [keeps_go|].
  repeat (first [solve [auto with nocore] | keeps_step | apply R_archive]).
Qed.

Lemma keeps_send_blocking fuel id input ps : keeps (tool_session_send_blocking fuel id input ps).
Proof. unfold tool_session_send_blocking, drop_session_token. pose proof (t_quiet _ Ht) as Hq. pose proof (keeps_send R Hq). pose proof keeps_poll. keeps_go. Qed.

Lemma keeps_host_retry fuel attempts id input ps tool out : keeps (host_retry fuel attempts id input ps tool out).
Proof.
  pose proof keeps_send_blocking. pose proof (keeps_reopen R Ht).
  revert id out. induction attempts as [|n IH]; intros id out; cbn [host_retry]; keeps_go.
Qed.

Lemma keeps_send_step order fuel id input ps tool : keeps (send_step order fuel id input ps tool).
Proof.
  unfold send_step. pose proof keeps_send_blocking. pose proof keeps_host_retry. pose proof (keeps_recover R). keeps_go.
Qed.
End ArchivingOps.

(** ** Sessions of a handle *)

(** The worlds a computation can lead to. *)
Definition evolves {E regex} `{ToolEnv E} `{PlanEnv E regex} : relation (world E) := fun w w' => rtc env_step (w_env w) (w_env w').

#[global] Instance evolves_preorder {E regex} `{ToolEnv E} `{PlanEnv E regex} : PreOrder evolves.
Proof. split; [intros w; apply rtc_refl|intros u v w Huv Hvw; unfold evolves in *; by etrans]. Qed.

(** The registry never issues a session id twice. *)
Class FreshIds (E : Type) {regex} `{ToolEnv E} `{PlanEnv E regex} := {
  issued : E -> ToolSessionId -> Prop;
  issued_open t i s e id e' : registry_open t i s e = (Ok id, e') -> ~ issued e id /\ issued e' id;
  issued_kept e e' id : env_step e e' -> issued e id -> issued e' id
}.

Section Sessions.
Context {E regex : Type} `{ToolEnv E} `{PlanEnv E regex} `{!FreshIds E}.
Notation handle := (handle (world E)).
Implicit Types h : handle.

(** The invariant of the handle, and open sessions have issued ids. *)
Record ok_handle h : Prop := {
  ok_wf : wf h;
  ok_issued : forall id, is_Some (scopes h !! id) -> issued (w_env (h_env h)) id
}.

Lemma evolves_call (w : world E) e' : env_step (w_env w) e' -> evolves w (mkWorld e' (w_tables w)).
Proof. intros Hs. by apply rtc_once. Qed.

Lemma evolves_tame : tame (env_rel (@evolves E regex _ _)).
Proof. apply tame_calls; [exact _|apply evolves_call]. Qed.

Lemma evolves_archive id tool input v a s (w : world E) : evolves w (archive_send_result id tool input v a s w).2.
Proof.
  unfold evolves, archive_send_result. destruct (get_or_create_ref_table _ _) as [ts cell]. destruct archive_ref_store.
  - pose proof (es_put (scope_context_id s) (scope_agent_id s) a (send_entry tool input v a) (w_env w)) as Hs.
    destruct (archive_allocate_and_put _ _ _ _ _) as [[r|] e]; by apply rtc_once.
  - destruct (RefTable_insert _ _) as [t r]. apply rtc_refl.
Qed.

Lemma evolves_tables (w : world E) ts : evolves w (mkWorld (w_env w) ts).
Proof. apply rtc_refl. Qed.

Lemma issued_evolves (w w' : world E) id : evolves w w' -> issued (w_env w) id -> issued (w_env w') id.
Proof. unfold evolves. intros Hr. induction Hr as [|e e1 e2 Hs _ IH]; [done|]. intros Hi. apply IH. by eapply issued_kept. Qed.

(** Keeping the invariant: no session appears. *)
Lemma ok_shrink h h' :
  ok_handle h -> wf h' -> evolves (h_env h) (h_env h') -> (forall id, is_Some (scopes h' !! id) -> is_Some (scopes h !! id)) -> ok_handle h'.
Proof. intros [_ Hi] Hw He Hs. split; [done|]. intros id Hid. eapply issued_evolves; [done|]. by apply Hi, Hs. Qed.

Lemma ok_finish id h : ok_handle h -> ok_handle (tool_session_finish id h).2 /\ scopes (tool_session_finish id h).2 = delete id (scopes h).
Proof.
  intros Hok. destruct (finish_spec id h (ok_wf _ Hok)) as (Hw & Hs & _). split; [|done].
  apply (ok_shrink h); [done|done|apply keeps_finish; [apply _|apply evolves_tame]|].
  intros j. rewrite Hs. intros [x [_ Hx]%lookup_delete_Some]. by exists x.
Qed.

Lemma ok_abort id r h : ok_handle h -> ok_handle (tool_session_abort id r h).2 /\ scopes (tool_session_abort id r h).2 = delete id (scopes h).
Proof.
  intros Hok. destruct (abort_spec id r h (ok_wf _ Hok)) as (Hw & Hs & _). split; [|done].
  apply (ok_shrink h); [done|done|apply keeps_abort; [apply _|apply evolves_tame]|].
  intros j. rewrite Hs. intros [x [_ Hx]%lookup_delete_Some]. by exists x.
Qed.

Lemma ok_send_blocking fuel id input ps h out h' :
  ok_handle h -> tool_session_send_blocking fuel id input ps h = (out, h') ->
  ok_handle h' /\ match out with Some (Ok (ToolFailed _)) => scopes h' = delete id (scopes h) | _ => scopes h' = scopes h end.
Proof.
  intros Hok Hs. destruct (send_blocking_spec _ _ _ _ _ _ _ (ok_wf _ Hok) Hs) as [Hw Hsc]. split; [|done].
  apply (ok_shrink h); [done|done| |].
  - pose proof (keeps_send_blocking (env_rel evolves) evolves_tame (fun id tool input v a s h => evolves_archive id tool input v a s (h_env h)) fuel id input ps h) as Hk. by rewrite Hs in Hk.
  - intros j Hj. destruct out as [[[]|]|]; rewrite Hsc in Hj; try done. destruct Hj as [x [_ Hx]%lookup_delete_Some]. by exists x.
Qed.

(** The id of an opened session was not in use. *)
Lemma open_issues scope tool input h id h' :
  open_tool_session scope tool input h = (Ok id, h') ->
  exists e1 e2, rtc env_step (w_env (h_env h)) e1 /\ registry_open tool input scope e1 = (Ok id, e2) /\ rtc env_step e2 (w_env (h_env h')).
Proof.
  unfold open_tool_session. set (ctx := call_context _ _ _ _ _). unfold bindM at 1.
  pose proof (keeps_intercept (env_rel evolves) (t_quiet _ evolves_tame) ctx h) as Hi. destruct (intercept ctx h) as [[u|err] h1]; [|done]. simpl in Hi.
  unfold bindM at 1, call, env_op. cbn [registry_open world_env]. unfold lift. simpl.
  destruct (registry_open tool input scope (w_env (h_env h1))) as [[id'|err] e2] eqn:Ho.
  - unfold bindM, ret, env_op, modify. simpl. intros [= <- <-]. exists (w_env (h_env h1)), e2. split_and!; [exact Hi|done|]. simpl. apply rtc_once. constructor.
  - unfold bindM, ret, env_op. match goal with |- context [emit_failed_effect ?c ?m ?h0] => destruct (emit_failed_effect c m h0) end. done.
Qed.

Lemma ok_open scope tool input h r h' :
  ok_handle h -> open_tool_session scope tool input h = (r, h') ->
  ok_handle h' /\
  match r with
  | Ok id => scopes h !! id = None /\ scopes h' = <[id := mkSessionScope tool scope input]> (scopes h)
  | Err _ => scopes h' = scopes h
  end.
Proof.
  intros Hok Ho.
  assert (Hfresh : forall id, r = Ok id -> scopes h !! id = None /\ issued (w_env (h_env h')) id).
  { intros id ->. destruct (open_issues _ _ _ _ _ _ Ho) as (e1 & e2 & H1 & H2 & H3). destruct (issued_open _ _ _ _ _ _ H2) as [Hn Hi].
    split; [|by apply (issued_evolves (mkWorld e2 (w_tables (h_env h))))].
    destruct (scopes h !! id) as [sc|] eqn:Hs; [|done]. exfalso. apply Hn.
    apply (issued_evolves (h_env h) (mkWorld e1 (w_tables (h_env h)))); [done|]. apply Hok. by exists sc. }
  destruct (open_spec _ _ _ _ _ _ (ok_wf _ Hok) Ho) as [Hw Hsc]; [intros id Hr; by apply Hfresh|].
  pose proof (keeps_open (env_rel evolves) evolves_tame scope tool input h) as Hk. rewrite Ho in Hk. simpl in Hk.
  destruct r as [id|err].
  - destruct (Hfresh id eq_refl) as [Hn Hi]. split; [|done]. split; [done|]. intros j Hj. rewrite Hsc in Hj.
    destruct (decide (id = j)) as [<-|Hne]; [done|]. rewrite lookup_insert_ne in Hj by done. eapply issued_evolves; [exact Hk|]. by apply Hok.
  - split; [|done]. apply (ok_shrink h); [done..|]. by rewrite Hsc.
Qed.
End Sessions.

(** ** The Send step and its session *)

Section SendStep.
Context {E regex : Type} `{ToolEnv E} `{PlanEnv E regex} `{!FreshIds E}.
Notation handle := (handle (world E)).
Implicit Types h : handle.

(** The outcome names a session; forgetting it leaves what forgetting [id]
    would have left before. *)
Definition accounts_for (id : ToolSessionId) h (out : option (result send_step_result BamlRtError)) h' : Prop :=
  match out with
  | Some (Ok (StepDone id' _)) | Some (Ok (StepToolError id' _)) => delete id' (scopes h') = delete id (scopes h)
  | _ => True
  end.

Lemma host_retry_accounts fuel attempts input ps tool : forall id out h res h',
  ok_handle h -> host_retry fuel attempts id input ps tool out h = (res, h') -> ok_handle h' /\ accounts_for id h res h'.
Proof.
  induction attempts as [|n IH]; intros id out h res h' Hok; cbn [host_retry].
  - destruct out as [[[r|f]|e]|]; unfold ret; intros [= <- <-]; split; try done. by destruct (disposition _).
  - assert (Hagain : forall h1 id1, ok_handle h1 ->
      (forall j, delete id1 (scopes h1) = delete j (scopes h) -> bindM (tool_session_send_blocking fuel id1 input ps) (fun out => host_retry fuel n id1 input ps tool out) h1 = (res, h') ->
        ok_handle h' /\ accounts_for j h res h')).
    { intros h1 id1 Hok1 j Hd. unfold bindM. destruct (tool_session_send_blocking fuel id1 input ps h1) as [out1 h2] eqn:Hs.
      destruct (ok_send_blocking _ _ _ _ _ _ _ Hok1 Hs) as [Hok2 Hsc]. intros Hr. destruct (IH _ _ _ _ _ Hok2 Hr) as [Hok' Ha]. split; [done|].
      assert (Hd2 : delete id1 (scopes h2) = delete j (scopes h)).
      { rewrite <-Hd. destruct out1 as [[[]|]|]; rewrite Hsc; try done. apply delete_delete_eq. }
      unfold accounts_for in *. by rewrite Hd2 in Ha. }
    destruct out as [[[r|f]|e]|]; [unfold ret; by intros [= <- <-]| | |unfold ret; by intros [= <- <-]].
    + destruct (should_host_retry (f_classified f)).
      2: { unfold ret. intros [= <- <-]. split; [done|]. by destruct (disposition _). }
      case_bool_decide; [|unfold bindM at 1, ret; intros Hr; by apply (Hagain h id)].
      unfold bindM at 1, reopen_logical_session_after_stale_close. unfold bindM at 1, get at 1. unfold bindM at 1.
      destruct (ok_finish id h Hok) as [Hok1 Hs1]. destruct (tool_session_finish id h) as [u h1]. simpl in Hok1, Hs1.
      destruct (open_tool_session _ _ _ h1) as [[id2|err] h2] eqn:Ho; destruct (ok_open _ _ _ _ _ _ Hok1 Ho) as [Hok2 Hs2].
      * destruct Hs2 as [Hn Hs2]. intros Hr. apply (Hagain h2 id2); [done| |done].
        rewrite Hs2, Hs1. rewrite Hs1 in Hn. by rewrite delete_insert_eq, delete_id.
      * unfold ret. by intros [= <- <-].
    + destruct (should_host_retry_baml_error e); [intros Hr; by apply (Hagain h id)|unfold ret; by intros [= <- <-]].
Qed.

(** [order] lists the map. *)
Definition faithful (order : gmap ToolSessionId ToolSessionScope -> list (ToolSessionId * ToolSessionScope)) : Prop :=
  forall m, order m ≡ₚ map_to_list m.

(** A session [find_existing_session_for_scope_and_tool] can return. *)
Definition serves (scope : RuntimeScope) (tool : string) (s : ToolSessionScope) : Prop :=
  ss_tool s = tool /\ scope_context_id (ss_scope s) = scope_context_id scope /\
  match scope_task_id_opt scope with Some t => scope_task_id_opt (ss_scope s) = Some t | None => True end.

Lemma find_existing_serves order scope tool m id :
  faithful order -> find_existing_session_for_scope_and_tool scope tool (order m) = Some id ->
  exists s, m !! id = Some s /\ serves scope tool s.
Proof.
  intros Hf. unfold find_existing_session_for_scope_and_tool. set (l := List.filter _ _).
  destruct (head l) as [[j s]|] eqn:Hh; [|done]. simpl. intros [= ->].
  assert (Hin : (id, s) ∈ l) by (destruct l; [done|]; injection Hh as ->; by left).
  apply list_elem_of_In, filter_In in Hin as [Hin Hp]. apply list_elem_of_In in Hin. rewrite (Hf m), elem_of_map_to_list in Hin.
  exists s. split; [done|]. rewrite !andb_true_iff, !bool_decide_eq_true in Hp. destruct Hp as [[H1 H2] H3]. split_and!; [done..|].
  destruct (scope_task_id_opt scope); [|done]. by apply bool_decide_eq_true in H3.
Qed.

Lemma send_step_accounts order fuel id input scope tool h res h' :
  ok_handle h -> faithful order ->
  (forall j s, scopes h !! j = Some s -> serves scope tool s -> j = id) ->
  send_step order fuel id input scope tool h = (res, h') -> ok_handle h' /\ accounts_for id h res h'.
Proof.
  intros Hok Hf Honly. unfold send_step, bindM. destruct (tool_session_send_blocking fuel id input scope h) as [out h1] eqn:Hs.
  destruct (ok_send_blocking _ _ _ _ _ _ _ Hok Hs) as [Hok1 Hsc].
  assert (Hd : delete id (scopes h1) = delete id (scopes h)).
  { destruct out as [[[]|]|]; rewrite Hsc; try done. apply delete_delete_eq. }
  assert (Hretry : host_retry fuel MAX_HOST_RETRIES id input scope tool out h1 = (res, h') -> ok_handle h' /\ accounts_for id h res h').
  { intros Hr. destruct (host_retry_accounts _ _ _ _ _ _ _ _ _ _ Hok1 Hr) as [Hok' Ha]. split; [done|].
    unfold accounts_for in *. by rewrite Hd in Ha. }
  destruct out as [[o|e]|]; [exact Hretry| |exact Hretry]. destruct e; try exact Hretry. destruct e; try exact Hretry.
  unfold recover_stale_session, bindM, get, ret.
  destruct (find_existing_session_for_scope_and_tool scope tool (order (scopes h1))) as [j|] eqn:Hj.
  - destruct (find_existing_serves _ _ _ _ _ Hf Hj) as (s & Hjs & Hserves). rewrite Hsc in Hjs. rewrite (Honly _ _ Hjs Hserves).
    rewrite bool_decide_eq_true_2 by done. by intros [= <- <-].
  - by intros [= <- <-].
Qed.
End SendStep.

(** ** Plans *)

Section PlanFacts.
Context {E regex : Type} `{ToolEnv E} `{PlanEnv E regex} `{!FreshIds E}.
Context (order : gmap ToolSessionId ToolSessionScope -> list (ToolSessionId * ToolSessionScope)) (fuel : nat) (scope : RuntimeScope).
Notation handle := (handle (world E)).
Notation find_duplicate := (find_duplicate (E := E) scope).
Notation plan_send_step := (plan_send_step (E := E) order fuel scope).
Notation open_step := (open_step (E := E) scope).
Implicit Types h : handle.

Lemma ok_env h w : ok_handle h -> evolves (h_env h) w -> ok_handle (set_env w h).
Proof. intros Hok He. apply (ok_shrink h); [done|apply wf_env, Hok|done|done]. Qed.

Lemma ok_tables {A} (f : ContextRefTables -> A * ContextRefTables) h a h' :
  ok_handle h -> with_tables f h = (a, h') -> ok_handle h' /\ scopes h' = scopes h /\ calls h' = calls h.
Proof.
  intros Hok. unfold with_tables, env_op. destruct (f (w_tables (h_env h))) as [b ts]. intros [= <- <-].
  split; [|done]. apply ok_env; [done|apply evolves_tables].
Qed.

Lemma ok_find_duplicate tool norm h dup h' :
  ok_handle h -> find_duplicate tool norm h = (dup, h') -> ok_handle h' /\ scopes h' = scopes h /\ calls h' = calls h.
Proof. unfold SessionPlan.find_duplicate. apply ok_tables. Qed.

Lemma ok_session_step h u h' :
  ok_handle h -> emit_session_step scope h = (u, h') -> ok_handle h' /\ scopes h' = scopes h.
Proof.
  intros Hok. pose proof (keeps_session_step (env_rel evolves) (t_quiet _ evolves_tame) scope h) as Hk.
  unfold emit_session_step, bindM, get, env_op, modify, ret in *. destruct (has_emitter h); [|by intros [= <- <-]].
  destruct (emit_answers (h_env h)) as [answers w] eqn:He. simpl in *. intros [= <- <-]. split; [|done].
  apply (ok_shrink h); [done| |exact Hk|done].
  apply (wf_frame h); [apply Hok|by constructor|done| |done].
  intros Hmax. pose proof (wf_ledger h (ok_wf _ Hok) Hmax) as Hl.
  apply (bus_step_inv (ghost [] h)); [|done|done]. by apply (step_inform answers (ToolSessionStep (context_id scope)) (ghost [] h)).
Qed.

(** A synthetic open, from a state without a session. *)
Lemma auto_open_spec tool s h r h' :
  ok_handle h -> ps_session s = None -> open_step tool true None s h = (r, h') ->
  ok_handle h' /\
  match r with
  | SNext s' => exists id, s' = mkPS (Some id) (Some (open_json id tool)) (ps_sent s) /\ scopes h !! id = None /\
                  scopes h' = <[id := mkSessionScope tool scope (JObj [])]> (scopes h)
  | SStop e => scopes h' = scopes h /\ exists v, e = PReturn (Ok v)
  end.
Proof.
  intros Hok Hn. unfold open_step. rewrite Hn. simpl. unfold bindM at 1.
  destruct (open_tool_session scope tool (JObj []) h) as [[id|err] h1] eqn:Ho; destruct (ok_open _ _ _ _ _ _ Hok Ho) as [Hok1 Hs1].
  - unfold bindM. destruct (emit_session_step scope h1) as [u h2] eqn:He. destruct (ok_session_step _ _ _ Hok1 He) as [Hok2 Hs2].
    unfold ret. intros [= <- <-]. split; [done|]. exists id. rewrite Hs2. tauto.
  - unfold ret. intros [= <- <-]. split; [done|]. eauto.
Qed.

Lemma plan_send_spec tool input s id h r h' :
  ok_handle h -> faithful order -> ps_session s = Some id ->
  (forall j x, scopes h !! j = Some x -> serves scope tool x -> j = id) ->
  plan_send_step tool input s h = (r, h') ->
  ok_handle h' /\ match r with SNext s' => exists id', ps_session s' = Some id' /\ delete id' (scopes h') = delete id (scopes h) | SStop e => forall v, e <> PReturn (Ok v) end.
Proof.
  intros Hok Hf Hid Honly. unfold plan_send_step. rewrite Hid. destruct (normalize_plan_input _ input) as [norm|]; [|unfold ret; by intros [= <- <-]].
  unfold bindM at 1. destruct (find_duplicate tool norm h) as [dup h1] eqn:Hd. destruct (ok_find_duplicate _ _ _ _ _ Hok Hd) as (Hok1 & Hs1 & _).
  destruct dup as [[ref header]|].
  { unfold ret. intros [= <- <-]. split; [done|]. exists id. by rewrite Hs1. }
  unfold bindM at 1. destruct (send_step order fuel id norm scope tool h1) as [out h2] eqn:Hs.
  rewrite <-Hs1 in Honly. destruct (send_step_accounts _ _ _ _ _ _ _ _ _ Hok1 Hf Honly Hs) as [Hok2 Ha].
  destruct out as [[[id' res|id' f]|e]|]; unfold ret; [| |by intros [= <- <-]|by intros [= <- <-]].
  - unfold bindM. destruct (emit_session_step scope h2) as [u h3] eqn:He. destruct (ok_session_step _ _ _ Hok2 He) as [Hok3 Hs3].
    intros [= <- <-]. split; [done|]. exists id'. simpl in *. by rewrite Hs3, Ha, Hs1.
  - intros [= <- <-]. split; [done|]. exists id'. simpl in *. by rewrite Ha, Hs1.
Qed.

Lemma cleanup_strict s id h h' u :
  ok_handle h -> ps_session s = Some id -> cleanup true true s h = (u, h') -> ok_handle h' /\ scopes h' = delete id (scopes h).
Proof.
  intros Hok Hid. unfold cleanup. rewrite Hid. simpl. unfold bindM, ret. destruct (ps_sent s).
  - destruct (ok_finish id h Hok). destruct (tool_session_finish id h). by intros [= <- <-].
  - destruct (ok_abort id (Some "auto-abort after failed Send on auto-opened session") h Hok).
    destruct (tool_session_abort id _ h). by intros [= <- <-].
Qed.

(** A bare Send to a one-shot tool, answered: no session is left behind. *)
Lemma bare_send_spec tool op input reason h r h' :
  op = Send input reason -> ok_handle h -> faithful order ->
  (forall j x, scopes h !! j = Some x -> ~ serves scope tool x) ->
  run_plan order fuel scope tool true true [Open None (Some "auto-open for send fragment with no open session"); op] None h = (r, h') ->
  ok_handle h' /\ (forall v, r = PReturn (Ok v) -> scopes h' = scopes h).
Proof.
  intros -> Hok Hf Hnone. unfold run_plan. cbn [plan_steps plan_step]. unfold bindM at 1, bindM at 1.
  destruct (open_step tool true None _ h) as [o h1] eqn:Ho. destruct (auto_open_spec tool (mkPS None None false) _ _ _ Hok eq_refl Ho) as [Hok1 Hs1].
  destruct o as [s1|e]; [|unfold ret; intros [= <- <-]; split; [done|tauto]]. destruct Hs1 as (id & -> & Hn & Hs1).
  unfold bindM at 1. destruct (plan_send_step tool input _ h1) as [p h2] eqn:Hp.
  assert (Honly : forall j x, scopes h1 !! j = Some x -> serves scope tool x -> j = id).
  { intros j x. rewrite Hs1. intros [[-> _]|[_ Hx]]%lookup_insert_Some; [done|]. intros Hx'. by destruct (Hnone _ _ Hx). }
  destruct (plan_send_spec tool input (mkPS (Some id) (Some (open_json id tool)) false) id _ _ _ Hok1 Hf eq_refl Honly Hp) as [Hok2 Hs2].
  destruct p as [s2|e]; [|unfold ret; intros [= <- <-]; split; [done|]; intros v Hv; by destruct (Hs2 v)].
  destruct Hs2 as (id' & Hid' & Hs2). unfold bindM, ret. destruct (cleanup true true s2 h2) as [u h3] eqn:Hc.
  destruct (cleanup_strict _ _ _ _ _ Hok2 Hid' Hc) as [Hok3 Hs3]. intros [= <- <-]. split; [done|]. intros _ _.
  rewrite Hs3, Hs2, Hs1. by rewrite delete_insert_eq, delete_id.
Qed.
End PlanFacts.

(** Sends do not leave sessions behind: a Send to a one-shot tool that has
    no session open for it, from any phase, opens one, uses it and closes it
    before it answers; whatever the tool did (finished, failed, failed and was
    retried on a new session), the open sessions afterwards are those before. *)
Theorem bare_send_leaves_no_session {E regex} `{ToolEnv E} `{PlanEnv E regex} `{!FreshIds E} order fuel scope tool input reason source (h : handle (world E)) v h' :
  ok_handle h -> faithful order ->
  (forall id s, scopes h !! id = Some s -> ~ serves scope (tool_name_display tool) s) ->
  one_shot_strict (metadata_of all_metadata (tool_name_display tool)) = true ->
  execute_tool_session_plan order fuel scope tool (Send input reason) source h = (PReturn (Ok v), h') ->
  ok_handle h' /\ scopes h' = scopes h.
Proof.
  intros Hok Hf Hnone Hstrict. unfold execute_tool_session_plan. unfold bindM at 1.
  assert (Hc : continued_session order scope (tool_name_display tool) (Send (regex := regex) input reason) source h = (None, h)).
  { unfold continued_session. destruct (_ && _); [done|]. unfold get. f_equal.
    destruct (find_existing_session_for_scope_and_tool _ _ _) as [id|] eqn:Hx; [|done].
    destruct (find_existing_serves _ _ _ _ _ Hf Hx) as (s & Hs & Hsv). by destruct (Hnone _ _ Hs). }
  rewrite Hc. destruct (normalize_plan_input _ input) as [norm|]; [|done]. unfold bindM at 1.
  destruct (find_duplicate scope _ norm h) as [dup h1] eqn:Hd. destruct (ok_find_duplicate _ _ _ _ _ _ Hok Hd) as (Hok1 & Hs1 & _).
  destruct dup as [[r header]|]; [by intros [= <- <-]|]. destruct (negb _); [by intros [= <- <-]|]. rewrite Hstrict, <-Hs1.
  rewrite <-Hs1 in Hnone. intros Hr. destruct (bare_send_spec _ _ _ _ _ _ _ _ _ _ eq_refl Hok1 Hf Hnone Hr) as [Hok' Hsc].
  split; [done|]. by apply (Hsc v).
Qed.

(** ** A scripted environment *)

#[local] Existing Instance script_env.

(** A one-shot tool that opens without configuration; archives get one ref. *)
Definition calc_tool : ToolName := mkToolName "support" "calculate".
#[global] Instance script_plan_env : PlanEnv script unit := {
  all_metadata := demo_registry;
  registry_execute _ _ _ _ e := (Ok JNull, e);
  describe_archive_action_for _ _ := None;
  describe_invocation_with_hint _ _ := "call";
  archive_ref_store := true;
  archive_allocate_and_put _ _ _ _ e := (Ok (mkShortRef 2 7), e);
  archive_get_body _ _ e := (Ok None, e);
  current_correlation_id := None;
  serde_to_string v := match v with JObj _ => "object" | _ => "other" end;
  serde_from_str _ := Err "no JSON";
  regex_new := no_regex;
  regex_is_match _ _ := false
}.

Lemma script_id_inj n m : "s" +:+ show_nat n = "s" +:+ show_nat m -> n = m.
Proof. rewrite !str_app_cons, !str_app_nil_l. intros [= He]. by apply show_nat_inj. Qed.

#[global] Program Instance script_fresh : FreshIds script := {
  issued e id := exists n, (n < e.1)%nat /\ id = "s" +:+ show_nat n
}.
Next Obligation.
  intros t i s e id e' [= <- <-]. split; [|exists (e.1); simpl; split; [lia|done]].
  intros (n & Hn & He). apply script_id_inj in He. lia.
Qed.
Next Obligation.
  intros e e' id Hs (n & Hn & ->). exists n. split; [|done].
  assert (Hle : (e.1 <= e'.1)%nat); [|lia]. destruct Hs; simpl; try lia. by destruct (e.2).
Qed.

Definition demo_world (answers : list (option (result ToolStep BamlRtError))) : world script := mkWorld (0%nat, answers) (mkTables ∅ ∅ 0).
Definition demo_handle (answers : list (option (result ToolStep BamlRtError))) : handle (world script) := fresh_handle (demo_world answers) true.

Lemma demo_handle_ok answers : ok_handle (demo_handle answers).
Proof. split; [apply (reachable_wf (demo_world answers) true); apply rtc_refl|]. intros id [x Hx]. simpl in Hx. by rewrite lookup_empty in Hx. Qed.

Lemma map_to_list_faithful : faithful map_to_list.
Proof. intros m. done. Qed.

Definition demo_input : json := JObj [("left", JNum (NInt 1)); ("right", JNum (NInt 2))].
Definition demo_send (answers : list (option (result ToolStep BamlRtError))) : plan_end * handle (world script) :=
  execute_tool_session_plan map_to_list 5 demo_scope calc_tool (Send demo_input None) None (demo_handle answers).

Definition refused_input : ToolFailure :=
  from_classified (mkClassified "bad_input" LlmCorrectable "left must be a number" None None) (ToolExecution "bad").

(** The tool refuses the input, the host answers and the session is gone. *)
Lemma bare_send_leaves_no_session_witness :
  (exists v, (demo_send [Some (Ok (StepError refused_input))]).1 = PReturn (Ok v)) /\
  scopes (demo_send [Some (Ok (StepError refused_input))]).2 = ∅.
Proof.
  destruct (demo_send [Some (Ok (StepError refused_input))]) as [r h'] eqn:Hop.
  assert (Hr : exists v, r = PReturn (Ok v)) by (apply (f_equal fst) in Hop; vm_compute in Hop; rewrite <-Hop; by eexists).
  split; [exact Hr|]. destruct Hr as [v ->].
  apply (bare_send_leaves_no_session map_to_list 5 demo_scope calc_tool demo_input None None (demo_handle [Some (Ok (StepError refused_input))]) v h').
  - apply demo_handle_ok.
  - apply map_to_list_faithful.
  - intros id s Hs. simpl in Hs. by rewrite lookup_empty in Hs.
  - vm_compute. reflexivity.
  - exact Hop.
Defined.

(** When the Send ends in an error (here a tool that hangs) the session opened
    for it stays open. *)
Lemma failed_send_leaks_session :
  exists e, (demo_send []).1 = PReturn (Err e) /\ is_Some (scopes (demo_send []).2 !! "s0").
Proof. eexists. split; vm_compute; [reflexivity|by eexists]. Qed.
