(* ===== verification/PlanDedup.v ===== *)
(** * Repeated Sends

    The reference table of a context remembers the signature of every completed
    Send; while it does, an identical Send is answered from it.  The proof follows the
    table through the session handle: only archiving changes it. *)

From stdpp Require Import base list strings gmap sorting relations.
From Stdlib Require Import ZArith Lia.
From S2P Require Import Prelude RustStr ArchiveRead RefTable Json Ids Interceptor EffectBus Errors ToolNames Signature Render StepExecutor PlanExtraction ToolSessions HandleOps SessionPlan PlanSafety.

Open Scope string_scope.
Open Scope list_scope.

(** ** The table of a context *)

Definition ctx_table (ts : ContextRefTables) (c : string) : RefTable :=
  match ctx_cell ts !! c with Some cell => table_at ts cell | None => RefTable_new end.

Lemma get_or_create_table ts c ts' cell :
  get_or_create_ref_table ts c = (ts', cell) -> ctx_cell ts' !! c = Some cell /\ ctx_table ts' c = ctx_table ts c /\ table_at ts' cell = ctx_table ts c.
Proof.
  unfold get_or_create_ref_table, ctx_table. destruct (ctx_cell ts !! c) as [x|] eqn:Hc; intros [= <- <-]; [by rewrite Hc|].
  simpl. rewrite !lookup_insert_eq. unfold table_at. simpl. by rewrite lookup_insert_eq.
Qed.

Lemma ctx_table_set ts c cell t : ctx_cell ts !! c = Some cell -> ctx_table (set_table ts cell t) c = t.
Proof. intros Hc. unfold ctx_table, set_table, table_at. simpl. by rewrite Hc, lookup_insert_eq. Qed.

(** An entry with the signature is found when it is the only one. *)
Lemma signature_matches_None t sig :
  find_by_send_signature t sig = None -> map_Forall (fun _ e => RefTable.send_signature e <> Some sig) (entries t).
Proof.
  unfold find_by_send_signature. set (l := omap _ _). intros Hh k e Hk Hs.
  assert (Hin : (ref_of_key k, ArchiveEntry_display_header e (ref_of_key k)) ∈ merge_sort row_le l).
  { rewrite merge_sort_Permutation. apply list_elem_of_omap. exists (k, e). split; [by apply elem_of_map_to_list|].
    by rewrite bool_decide_eq_true_2. }
  destruct (merge_sort row_le l); [by apply elem_of_nil in Hin|done].
Qed.

Lemma find_only_signature t r e sig :
  entries t !! ShortRef_cell_key r = Some e -> RefTable.send_signature e = Some sig -> ref_of_key (ShortRef_cell_key r) = r ->
  (forall k x, entries t !! k = Some x -> RefTable.send_signature x = Some sig -> k = ShortRef_cell_key r) ->
  find_by_send_signature t sig = Some (r, ArchiveEntry_display_header e r).
Proof.
  intros He Hs Hr Honly. unfold find_by_send_signature. rewrite <-(insert_delete_id _ _ _ He).
  set (f := fun p : Z * ArchiveEntry => _).
  assert (Hp : omap f (map_to_list (<[ShortRef_cell_key r := e]> (delete (ShortRef_cell_key r) (entries t)))) ≡ₚ
               [(r, ArchiveEntry_display_header e r)]).
  { rewrite map_to_list_insert by apply lookup_delete_eq. cbn [omap list_omap]. unfold f at 1. rewrite bool_decide_eq_true_2, Hr by done.
    apply Permutation_cons; [done|].
    assert (Hnil : forall l, (forall x, x ∈ l -> f x = None) -> omap f l = []).
    { induction l as [|x l IH]; intros Hl; [done|]. cbn [omap list_omap]. rewrite (Hl x) by (by left). apply IH. intros y Hy. apply Hl. by right. }
    rewrite Hnil; [done|]. intros [k x] [Hk Hx]%elem_of_map_to_list%lookup_delete_Some. unfold f.
    rewrite bool_decide_eq_false_2; [done|]. intros Hsx. by destruct Hk; rewrite (Honly k x Hx Hsx). }
  assert (Hm : merge_sort row_le (omap f (map_to_list (<[ShortRef_cell_key r := e]> (delete (ShortRef_cell_key r) (entries t))))) =
               [(r, ArchiveEntry_display_header e r)]).
  { apply Permutation_singleton_r. by rewrite merge_sort_Permutation. }
  by rewrite Hm.
Qed.

(** Two tables with the same Sends of a signature. *)
Definition same_sends (sig : string) (t t' : RefTable) : Prop :=
  forall k e, RefTable.send_signature e = Some sig -> entries t !! k = Some e <-> entries t' !! k = Some e.

(** Archiving something else under a free reference keeps them. *)
Lemma same_sends_insert sig t t' k e :
  entries t !! k = None -> entries t' = <[k := e]> (entries t) -> RefTable.send_signature e <> Some sig -> same_sends sig t t'.
Proof.
  intros Hfree He Hne k' e' Hs. rewrite He, lookup_insert_Some. split.
  - intros Hk'. right. split; [|done]. intros ->. congruence.
  - intros [[_ <-]|[_ ?]]; [done|done].
Qed.

(** The entry put into a table that had no Send of its signature is found, in
    that table and in any other with the same Sends of the signature. *)
Lemma find_inserted_signature t t' t'' r e sig :
  find_by_send_signature t sig = None -> entries t' = <[ShortRef_cell_key r := e]> (entries t) ->
  RefTable.send_signature e = Some sig -> ref_of_key (ShortRef_cell_key r) = r -> same_sends sig t' t'' ->
  find_by_send_signature t'' sig = Some (r, ArchiveEntry_display_header e r).
Proof.
  intros Hn He Hs Hr Hsame. apply signature_matches_None in Hn.
  assert (Hin : entries t' !! ShortRef_cell_key r = Some e) by (rewrite He; apply lookup_insert_eq).
  apply find_only_signature; [by apply Hsame|done..|].
  intros k x Hx Hsx. apply (Hsame k x Hsx) in Hx. rewrite He, lookup_insert_Some in Hx.
  destruct Hx as [[<- _]|[_ Hx]]; [done|]. by destruct (Hn k x Hx).
Qed.

(** ** Signatures are never blank *)

Lemma trim_start_rev_keeps_last a : graphic a = true -> forall n s, (String.length s <= n)%nat -> trim_start_rev (s +:+ String a EmptyString) <> EmptyString.
Proof.
  intros Ha. apply andb_true_iff in Ha as [Hasc Hws]. apply negb_true_iff in Hws.
  induction n as [|n IH]; intros s Hn.
  { destruct s; [|simpl in Hn; lia]. simpl. by rewrite Hws. }
  destruct s as [|b [|c [|d s]]]; rewrite ?str_app_cons, ?str_app_nil_l; cbn [trim_start_rev].
  - by rewrite Hws.
  - rewrite Hws, ws2_ascii by done. by destruct (ws1 b).
  - rewrite Hws, ws3_ascii, (ws2_ascii a c) by done. destruct (ws1 b), (ws1 c), (ws2 c b); done.
  - simpl in Hn. destruct (ws1 b); [|destruct (ws2 c b); [|destruct (ws3 d c b); [|done]]].
    + apply (IH (String c (String d s))). simpl. lia.
    + apply (IH (String d s)). simpl. lia.
    + apply (IH s). lia.
Qed.

Lemma graphic_first_not_blank a s : graphic a = true -> is_empty_str (trim (String a s)) = false.
Proof.
  intros Ha. unfold trim. rewrite trim_start_first by done. unfold trim_end. rewrite str_rev_cons.
  pose proof (trim_start_rev_keeps_last a Ha _ (String.rev s) (Nat.le_refl _)) as Hn.
  destruct (trim_start_rev _) as [|b t]; [done|]. rewrite str_rev_cons. by destruct (String.rev t).
Qed.

Lemma display_starts_graphic t : tool_name_valid t -> exists a s, tool_name_display t = String a s /\ graphic a = true.
Proof.
  intros [Hb _]. unfold tool_name_display. destruct (strip_prefix "mcp_" (tn_bundle t)); [by eexists _, _|].
  destruct (tn_bundle t) as [|a s]; [done|]. eexists _, _. split; [done|].
  simpl in Hb. apply andb_true_iff in Hb as [Ha _]. unfold is_ascii_lower in Ha. apply andb_true_iff in Ha as [H1%N.leb_le H2%N.leb_le].
  unfold graphic, is_ascii, ws1. apply andb_true_iff; split; [apply N.ltb_lt; lia|].
  apply negb_true_iff, orb_false_iff; split; [apply andb_false_iff; right; apply N.leb_gt; lia|apply N.eqb_neq; lia].
Qed.

Lemma signature_not_blank to_string t v :
  tool_name_valid t ->
  non_blank (Some (Signature.send_signature to_string (tool_name_display t) v)) = Some (Signature.send_signature to_string (tool_name_display t) v).
Proof.
  intros (a & s & Hd & Ha)%display_starts_graphic. unfold non_blank, opt_filter, Signature.send_signature. rewrite Hd, str_app_cons.
  by rewrite graphic_first_not_blank.
Qed.

(** ** The table through a Send *)

Section Tables.
Context {E regex : Type} `{ToolEnv E} `{PlanEnv E regex} `{!FreshIds E}.
(** The store allocates refs of the two 32-bit parts they are made of. *)
Context (put_wf : forall c a n en (e : E) r e', archive_allocate_and_put c a n en e = (Ok r, e') -> ShortRef_wf r).
Context (scope : RuntimeScope) (tool : ToolName) (tool_ok : tool_name_valid tool) (input : json).
Notation handle := (handle (world E)).
Implicit Types h : handle.

Let name : string := tool_name_display tool.
Let sig : string := Signature.send_signature serde_to_string name input.

Definition table_of h : RefTable := ctx_table (w_tables (h_env h)) (scope_context_id scope).

(** The result [r] is the one entry with the signature that [t] lacked. *)
Definition archived (t : RefTable) (r : SendResult) h : Prop :=
  exists ref e, sr_archive_ref r = ShortRef_display ref /\ sr_header r = ArchiveEntry_display_header e ref /\ ShortRef_wf ref /\
    RefTable.send_signature e = Some sig /\ entries (table_of h) = <[ShortRef_cell_key ref := e]> (entries t).

(** Operations that do not archive leave all tables alone. *)
Definition same_tables : relation (world E) := fun w w' => w_tables w' = w_tables w.

#[local] Instance same_tables_preorder : PreOrder same_tables.
Proof. split; [by intros w|intros u v w Huv Hvw; unfold same_tables in *; congruence]. Qed.

Lemma same_tables_tame : tame (env_rel same_tables).
Proof. by apply tame_calls; [exact _|]. Qed.

Lemma same_table_of {A} (m : M A) h : keeps (env_rel same_tables) m -> table_of (m h).2 = table_of h.
Proof. intros Hk. unfold table_of. by rewrite (Hk h). Qed.

Lemma archive_table id v a h r h' t :
  table_of h = t -> is_u32 (next t) -> env_op (archive_send_result id name input v a scope) h = (r, h') ->
  match r with
  | Ok (d, hd) => archived t (mkSendResult d hd v a) h'
  | Err _ => table_of h' = t
  end.
Proof.
  intros Ht Hu. unfold env_op, archive_send_result. destruct (get_or_create_ref_table (w_tables (h_env h)) (scope_context_id scope)) as [ts cell] eqn:Hg.
  destruct (get_or_create_table _ _ _ _ Hg) as (Hc & Hct & Hat). fold (table_of h) in Hct, Hat. rewrite Ht in Hct, Hat.
  set (en := send_entry name input v a).
  assert (Hsig : RefTable.send_signature en = Some sig) by (apply signature_not_blank, tool_ok).
  destruct archive_ref_store.
  - destruct (archive_allocate_and_put _ _ _ en _) as [[ref|err] e] eqn:Hput.
    + rewrite Hat. unfold header_of, RefTable_insert_at, RefTable_get. simpl. rewrite lookup_insert_eq. intros [= <- <-].
      exists ref, en. split_and!; [done|done|by eapply put_wf|done|]. unfold table_of. simpl. by rewrite ctx_table_set.
    + intros [= <- <-]. exact Hct.
  - rewrite Hat. unfold RefTable_insert, fetch_add_next, header_of, RefTable_get. simpl. rewrite lookup_insert_eq. intros [= <- <-].
    exists (ShortRef_new (next t)), en. split_and!; [done|done|split; [split; by vm_compute|exact Hu]|done|].
    unfold table_of. simpl. by rewrite ctx_table_set.
Qed.

(** What a blocking send leaves. *)
Definition sent_table (t : RefTable) (out : option (result SendBlockingOutcome BamlRtError)) h : Prop :=
  match out with Some (Ok (ToolSessions.Completed r)) => archived t r h | _ => table_of h = t end.

Definition is_tool (h : handle) (id : ToolSessionId) : Prop := forall sc, scopes h !! id = Some sc -> ss_tool sc = name.

Lemma poll_table id fuel : forall h out h' t,
  wf h -> is_Some (scopes h !! id) -> is_tool h id -> table_of h = t -> is_u32 (next t) ->
  poll_until_done fuel id input scope h = (out, h') -> sent_table t out h'.
Proof.
  induction fuel as [|fuel IH]; intros h out h' t Hw Hid Htool Ht Hu; cbn [poll_until_done]; [by intros [= <- <-]|].
  unfold bindM at 1. destruct (tool_session_read id (JObj []) h) as [res h1] eqn:Hr.
  destruct (read_spec _ _ _ _ _ Hw Hr) as [Hw1 E1].
  pose proof (same_table_of _ h (keeps_read (env_rel same_tables) (t_quiet _ same_tables_tame) id (JObj []))) as Ht1. rewrite Hr, Ht in Ht1. simpl in Ht1.
  assert (Hchunk : forall c, bindM (emit_stream_chunk c) (fun _ => poll_until_done fuel id input scope) h1 = (out, h') -> sent_table t out h').
  { intros c. unfold bindM. pose proof (stream_chunk_spec c h1 (wf_ledger _ Hw1)) as Hs. cbv zeta in Hs.
    pose proof (same_table_of _ h1 (keeps_chunk (env_rel same_tables) (t_quiet _ same_tables_tame) c)) as Ht2.
    destruct (emit_stream_chunk c h1) as [u h2]. simpl in Hs, Ht2. destruct Hs as (Hss & Htk & _ & Hlo & Hl).
    pose proof (ss_scopes _ _ Hss) as E2.
    apply IH; [by apply (wf_frame h1)|by rewrite E2, E1|unfold is_tool; by rewrite E2, E1|congruence|done]. }
  destruct res as [[[v|v|output|f]|e]|]; [by apply Hchunk|by apply Hchunk| | |by intros [= <- <-]|by intros [= <- <-]].
  - unfold bindM, get, modify, ret. destruct Hid as [sc Hsc]. rewrite E1, Hsc. simpl. rewrite (Htool sc Hsc).
    set (h2 := set_anchors _ h1).
    assert (Hend : forall a h3, table_of h3 = t ->
      (let '(ar, h4) := env_op (archive_result id name input (default JNull output) a scope) h3 in
       (Some (match ar with Ok (ref, header) => Ok (ToolSessions.Completed (mkSendResult ref header (default JNull output) a)) | Err e => Err e end), h4)) = (out, h') ->
      sent_table t out h').
    { intros a h3 Ht3. destruct (env_op _ h3) as [ar h4] eqn:Ha. intros [= <- <-].
      pose proof (archive_table id _ _ _ _ _ t Ht3 Hu Ha) as Har. by destruct ar as [[]|]. }
    destruct (anchors h1 !! id) as [a|]; [by apply Hend|].
    pose proof (same_table_of (env_op (lift allocate_anchor)) h2) as Ht3. destruct (env_op (lift allocate_anchor) h2) as [a h3]. simpl in Ht3.
    apply Hend. rewrite Ht3; [done|]. apply keeps_env. intros w. unfold lift. by destruct (allocate_anchor _).
  - unfold bindM, ret. pose proof (same_table_of _ h1 (keeps_abort (env_rel same_tables) same_tables_tame id (Some (f_message f)))) as Ht2.
    destruct (tool_session_abort id _ h1) as [u h2]. simpl in Ht2. intros [= <- <-]. simpl. congruence.
Qed.

Lemma send_blocking_table fuel id h out h' t :
  wf h -> is_tool h id -> table_of h = t -> is_u32 (next t) ->
  tool_session_send_blocking fuel id input scope h = (out, h') -> sent_table t out h'.
Proof.
  intros Hw Htool Ht Hu. destruct (scopes h !! id) as [sc|] eqn:Hid; [|rewrite send_closed by done; by intros [= <- <-]].
  unfold tool_session_send_blocking. unfold bindM at 1.
  pose proof (same_table_of _ h (keeps_send (env_rel same_tables) (t_quiet _ same_tables_tame) id input)) as Ht1.
  destruct (tool_session_send id input h) as [res h1] eqn:Hs. destruct (send_spec _ _ _ _ _ Hw Hs) as (Hw1 & E1 & Hok). simpl in Ht1.
  destruct res as [[]|e]; [|intros [= <- <-]; simpl; congruence]. specialize (Hok eq_refl).
  unfold bindM at 1, modify at 1. unfold bindM at 1, modify at 1. unfold bindM at 1, drop_session_token, modify. set (h2 := set_tokens _ _ _).
  assert (Hw2 : wf h2).
  { apply (wf_upd id h1); [done|done|done| | | | | |].
    - apply (drop_token_spec [] id _ (wf_ledger _ Hw1)).
    - intros _. simpl. rewrite Hok. simpl. by rewrite app_nil_r.
    - intros j Hj. simpl. by rewrite !lookup_delete_ne.
    - intros x. simpl. by rewrite lookup_delete_eq.
    - simpl. rewrite lookup_delete_eq. by intros [].
    - intros _. simpl. by rewrite lookup_delete_eq. }
  apply poll_table; [done|simpl; rewrite E1; by exists sc|unfold is_tool; simpl; by rewrite E1|change (table_of h1 = t); congruence|done].
Qed.

(** What the Send step leaves. *)
Definition step_table (t : RefTable) (out : option (result send_step_result BamlRtError)) h : Prop :=
  match out with Some (Ok (StepDone _ r)) => archived t r h | _ => table_of h = t end.

Lemma is_tool_scopes h h' id : is_tool h id -> (forall sc, scopes h' !! id = Some sc -> scopes h !! id = Some sc) -> is_tool h' id.
Proof. intros Ht Hs sc Hsc. by apply Ht, Hs. Qed.

Lemma host_retry_table fuel attempts t : forall id out h res h',
  ok_handle h -> is_tool h id -> sent_table t out h -> is_u32 (next t) ->
  host_retry fuel attempts id input scope name out h = (res, h') -> step_table t res h'.
Proof.
  induction attempts as [|n IH]; intros id out h res h' Hok Htool Hsent Hu; cbn [host_retry].
  - destruct out as [[[r|f]|e]|]; unfold ret; intros [= <- <-]; try done. simpl in *. by destruct (disposition _).
  - assert (Hagain : forall h1 id1, ok_handle h1 -> is_tool h1 id1 -> table_of h1 = t ->
      bindM (tool_session_send_blocking fuel id1 input scope) (fun out => host_retry fuel n id1 input scope name out) h1 = (res, h') -> step_table t res h').
    { intros h1 id1 Hok1 Ht1 Htab. unfold bindM. destruct (tool_session_send_blocking fuel id1 input scope h1) as [out1 h2] eqn:Hs.
      destruct (ok_send_blocking _ _ _ _ _ _ _ Hok1 Hs) as [Hok2 Hsc]. apply IH; [done| |by eapply send_blocking_table; [apply Hok1|..]|done].
      apply (is_tool_scopes h1); [done|]. intros sc. destruct out1 as [[[]|]|]; rewrite Hsc; try done. by rewrite lookup_delete_eq. }
    destruct out as [[[r|f]|e]|]; [unfold ret; by intros [= <- <-]| | |unfold ret; by intros [= <- <-]].
    + simpl in Hsent. destruct (should_host_retry (f_classified f)).
      2: { unfold ret. intros [= <- <-]. simpl. by destruct (disposition _). }
      case_bool_decide; [|unfold bindM at 1, ret; by apply Hagain].
      unfold bindM at 1. pose proof (same_table_of _ h (keeps_reopen (env_rel same_tables) same_tables_tame scope name id)) as Htab.
      destruct (reopen_logical_session_after_stale_close scope name id h) as [ro h2] eqn:Hro. simpl in Htab.
      unfold reopen_logical_session_after_stale_close, bindM, get in Hro.
      destruct (ok_finish id h Hok) as [Hok1 Hs1]. destruct (tool_session_finish id h) as [u h1]. simpl in Hok1, Hs1.
      destruct (ok_open _ _ _ _ _ _ Hok1 Hro) as [Hok2 Hs2].
      destruct ro as [id2|err]; [|unfold ret; intros [= <- <-]; simpl; congruence].
      destruct Hs2 as [_ Hs2]. apply Hagain; [done| |congruence]. intros sc. rewrite Hs2, lookup_insert_eq. by intros [= <-].
    + simpl in Hsent. destruct (should_host_retry_baml_error e); [by apply Hagain|unfold ret; by intros [= <- <-]].
Qed.

Lemma send_step_table order fuel id h res h' t :
  ok_handle h -> faithful order -> is_tool h id -> table_of h = t -> is_u32 (next t) ->
  send_step order fuel id input scope name h = (res, h') -> step_table t res h'.
Proof.
  intros Hok Hf Htool Ht Hu. unfold send_step, bindM. destruct (tool_session_send_blocking fuel id input scope h) as [out h1] eqn:Hs.
  pose proof (send_blocking_table _ _ _ _ _ t (ok_wf _ Hok) Htool Ht Hu Hs) as Hsent.
  destruct (ok_send_blocking _ _ _ _ _ _ _ Hok Hs) as [Hok1 Hsc].
  assert (Htool1 : is_tool h1 id).
  { apply (is_tool_scopes h); [done|]. intros sc. destruct out as [[[]|]|]; rewrite Hsc; try done. by rewrite lookup_delete_eq. }
  assert (Hretry : host_retry fuel MAX_HOST_RETRIES id input scope name out h1 = (res, h') -> step_table t res h') by (by apply host_retry_table).
  destruct out as [[o|e]|]; [exact Hretry| |exact Hretry]. destruct e; try exact Hretry. destruct e; try exact Hretry. simpl in Hsent.
  unfold recover_stale_session, bindM, get, ret.
  destruct (find_existing_session_for_scope_and_tool scope name (order (scopes h1))) as [j|] eqn:Hj; [|by intros [= <- <-]].
  destruct (find_existing_serves _ _ _ _ _ Hf Hj) as (s & Hjs & Hserves & _). case_bool_decide; [by intros [= <- <-]|].
  destruct (tool_session_send_blocking fuel j input scope h1) as [out2 h2] eqn:Hs2.
  assert (Htool2 : is_tool h1 j) by (intros sc Hsc'; rewrite Hjs in Hsc'; by injection Hsc' as <-).
  destruct (ok_send_blocking _ _ _ _ _ _ _ Hok1 Hs2) as [Hok2 Hsc2]. apply host_retry_table; [done| | |done].
  - apply (is_tool_scopes h1); [done|]. intros sc. destruct out2 as [[[]|]|]; rewrite Hsc2; try done. by rewrite lookup_delete_eq.
  - by eapply send_blocking_table; [apply Hok1|..].
Qed.

(** ** The table through a plan *)

Lemma find_duplicate_table nm w h dup h' :
  find_duplicate scope nm w h = (dup, h') ->
  dup = find_by_send_signature (table_of h) (Signature.send_signature serde_to_string nm w) /\ table_of h' = table_of h /\
  scopes h' = scopes h /\ calls h' = calls h.
Proof.
  unfold find_duplicate, with_tables, env_op, context_id. destruct (get_or_create_ref_table _ _) as [ts cell] eqn:Hg.
  destruct (get_or_create_table _ _ _ _ Hg) as (Hc & Hct & Hat). intros [= <- <-]. rewrite Hat. split_and!; [done|exact Hct|done|done].
Qed.

Lemma session_step_table h u h' : emit_session_step scope h = (u, h') -> table_of h' = table_of h.
Proof. intros He. pose proof (same_table_of _ h (keeps_session_step (env_rel same_tables) (t_quiet _ same_tables_tame) scope)) as Hk. by rewrite He in Hk. Qed.

Lemma cleanup_table a b s h u h' : cleanup a b s h = (u, h') -> table_of h' = table_of h.
Proof.
  intros Hc. assert (Hk : keeps (env_rel same_tables) (cleanup (E := E) a b s)).
  { unfold cleanup. pose proof (keeps_finish (env_rel same_tables) same_tables_tame). pose proof (keeps_abort (env_rel same_tables) same_tables_tame). keeps_go. }
  pose proof (same_table_of _ h Hk) as Ht. by rewrite Hc in Ht.
Qed.

Lemma plan_send_table order fuel raw s id h s' v h' :
  ok_handle h -> faithful order -> is_u32 (next (table_of h)) -> normalize_plan_input serde_from_str raw = Ok input ->
  ps_session s = Some id -> is_tool h id ->
  plan_send_step order fuel scope name raw s h = (SNext s', h') -> ps_last s' = Some v -> get_str "status" v = Some "done" ->
  exists r, v = send_done_json r /\ archived (table_of h) r h'.
Proof.
  intros Hok Hf Hu Hn Hid Htool. unfold plan_send_step. rewrite Hid, Hn. unfold bindM at 1.
  destruct (find_duplicate scope name input h) as [dup h1] eqn:Hd. destruct (ok_find_duplicate _ _ _ _ _ _ Hok Hd) as (Hok1 & Hs1 & _).
  destruct (find_duplicate_table _ _ _ _ _ Hd) as (_ & Ht1 & _).
  destruct dup as [[ref hd]|]; [unfold ret; intros [= <- _] [= <-]; done|]. unfold bindM at 1.
  destruct (send_step order fuel id input scope name h1) as [out h2] eqn:Hs.
  assert (Htool1 : is_tool h1 id) by (unfold is_tool; by rewrite Hs1). rewrite <-Ht1 in *.
  pose proof (send_step_table _ _ _ _ _ _ _ Hok1 Hf Htool1 eq_refl Hu Hs) as Hst.
  destruct out as [[[id' r|id' f]|e]|]; unfold ret; [| |done|done].
  - unfold bindM. destruct (emit_session_step scope h2) as [u h3] eqn:He. intros [= <- <-] [= <-] _. exists r. split; [done|].
    unfold step_table, archived in *. by rewrite (session_step_table _ _ _ He).
  - intros [= <- _] [= <-]. done.
Qed.

Lemma send_plan_table order fuel raw reason source h v h' :
  ok_handle h -> faithful order -> is_u32 (next (table_of h)) -> normalize_plan_input serde_from_str raw = Ok input ->
  execute_tool_session_plan order fuel scope tool (Send raw reason) source h = (PReturn (Ok v), h') -> get_str "status" v = Some "done" ->
  find_by_send_signature (table_of h) sig = None /\ exists r, v = send_done_json r /\ archived (table_of h) r h'.
Proof.
  intros Hok Hf Hu Hn. unfold execute_tool_session_plan. unfold bindM at 1. fold name.
  destruct (continued_session order scope name (Send raw reason) source h) as [session h0] eqn:Hc.
  assert (Hsess : h0 = h /\ forall id, session = Some id -> is_tool h id).
  { unfold continued_session in Hc. destruct (_ && _); [by injection Hc as <- <-|]. injection Hc as <- <-. split; [done|].
    intros id Hid. destruct (find_existing_serves _ _ _ _ _ Hf Hid) as (x & Hx & Hsv & _). intros sc Hsc. rewrite Hx in Hsc. by injection Hsc as <-. }
  destruct Hsess as [-> Htool]. rewrite Hn. unfold bindM at 1.
  destruct (find_duplicate scope name input h) as [dup h1] eqn:Hd. destruct (ok_find_duplicate _ _ _ _ _ _ Hok Hd) as (Hok1 & Hs1 & _).
  destruct (find_duplicate_table _ _ _ _ _ Hd) as (Hdup & Ht1 & _).
  destruct dup as [[ref hd]|]; [unfold ret; intros [= <- _]; done|].
  assert (Hend : forall auto strict s' h2 vv hh, (exists r, ps_last s' = Some (send_done_json r) /\ archived (table_of h) r h2) \/ (ps_last s' = Some vv -> get_str "status" vv <> Some "done") ->
    bindM (cleanup (E := E) auto strict s') (fun _ => ret (PReturn (ok_or (ps_last s') no_output_error))) h2 = (PReturn (Ok vv), hh) ->
    get_str "status" vv = Some "done" -> exists r, vv = send_done_json r /\ archived (table_of h) r hh).
  { intros auto strict s' h2 vv hh Hor. unfold bindM, ret. destruct (cleanup auto strict s' h2) as [u h3] eqn:Hcl. intros [= Hlast <-] Hst.
    destruct (ps_last s') as [w|]; [|done]. injection Hlast as <-. destruct Hor as [(r & [= ->] & Ha)|Hno]; [|by destruct (Hno eq_refl)].
    exists r. split; [done|]. unfold archived in *. by rewrite (cleanup_table _ _ _ _ _ _ Hcl). }
  intros Hrun Hst. split; [done|]. revert Hrun Hst.
  assert (Hstep : forall auto strict s id h2 r2 h3 vv hh, ok_handle h2 -> table_of h2 = table_of h -> ps_session s = Some id -> is_tool h2 id ->
    plan_send_step order fuel scope name raw s h2 = (r2, h3) ->
    (match r2 with SNext s' => bindM (cleanup (E := E) auto strict s') (fun _ => ret (PReturn (ok_or (ps_last s') no_output_error))) | SStop e => ret e end) h3 = (PReturn (Ok vv), hh) ->
    get_str "status" vv = Some "done" -> exists r, vv = send_done_json r /\ archived (table_of h) r hh).
  { intros auto strict s id h2 r2 h3 vv hh Hok2 Ht2 Hid Hto Hp. destruct r2 as [s'|e].
    - intros Hfin Hst. eapply Hend; [|exact Hfin|exact Hst]. destruct (ps_last s') as [w|] eqn:Hl; [|by right].
      destruct (decide (get_str "status" w = Some "done")) as [Hw|Hw]; [|right; by intros [= <-]]. left.
      destruct (plan_send_table _ _ _ _ _ _ _ _ _ Hok2 Hf ltac:(by rewrite Ht2) Hn Hid Hto Hp Hl Hw) as (r & -> & Ha). exists r. by rewrite Ht2 in Ha.
    - unfold ret. intros [= -> <-]. exfalso. unfold plan_send_step in Hp. rewrite Hid, Hn in Hp. unfold bindM at 1 in Hp.
      destruct (find_duplicate scope name input h2) as [[[]|] h4]; [done|]. unfold bindM at 1 in Hp.
      destruct (send_step order fuel id input scope name h4) as [[[[]|]|] h5]; unfold ret, bindM in Hp; try done.
      by destruct (emit_session_step scope h5). }
  destruct session as [id|].
  - unfold run_plan. cbn [plan_steps plan_step]. unfold bindM at 1. unfold bindM at 1.
    destruct (plan_send_step order fuel scope name raw _ h1) as [r2 h3] eqn:Hp. intros Hrun.
    assert (Ht : is_tool h1 id) by (unfold is_tool; rewrite Hs1; by apply Htool).
    eapply (Hstep false _ (mkPS (Some id) None false) id h1 r2 h3); [done|done|done|done|exact Hp|]. destruct r2; exact Hrun.
  - destruct (negb _); [unfold ret; intros [= <- _]; done|].
    unfold run_plan. cbn [plan_steps plan_step]. unfold bindM at 1, bindM at 1.
    destruct (open_step scope name true None _ h1) as [o h2] eqn:Ho.
    assert (Ht2 : table_of h2 = table_of h1).
    { assert (Hk : keeps (env_rel same_tables) (open_step (E := E) scope name true None (mkPS None None false))).
      { unfold open_step. pose proof (keeps_open (env_rel same_tables) same_tables_tame). pose proof (keeps_session_step (env_rel same_tables) (t_quiet _ same_tables_tame)). simpl. keeps_go. }
      pose proof (same_table_of _ h1 Hk) as Ht. by rewrite Ho in Ht. }
    destruct (auto_open_spec scope name (mkPS None None false) _ _ _ Hok1 eq_refl Ho) as [Hok2 Hs2].
    destruct o as [s1|e].
    2: { unfold ret. intros [= -> _] Hst. exfalso. unfold open_step in Ho. simpl in Ho. unfold bindM at 1 in Ho.
         destruct (open_tool_session _ _ _ h1) as [[] h4]; unfold ret, bindM in Ho; [by destruct (emit_session_step scope h4)|]. injection Ho as <- _. done. }
    destruct Hs2 as (id & -> & _ & Hs2). unfold bindM at 1. destruct (plan_send_step order fuel scope name raw _ h2) as [r2 h3] eqn:Hp. intros Hrun.
    eapply (Hstep true _ (mkPS (Some id) (Some (open_json id name)) false) id h2 r2 h3); [done|congruence|done| |exact Hp|destruct r2; exact Hrun].
    intros sc. rewrite Hs2, lookup_insert_eq. by intros [= <-].
Qed.
End Tables.

(** C22: A repeated Send is answered from the archive.  When a Send of a plan
    completed, consider any later state in which the context's table still has
    the entry archived for it and no other Send of the same signature was
    archived.  A Send there to the same tool, in any scope of the context, whose
    input differs at most in the order of object fields, is answered as a
    duplicate with the reference and header of the first; the tool is not called
    and no session is opened or closed.  The state the first Send left is such a
    state, and archiving anything else keeps it so ([same_sends_insert]); a
    prompt rebuilt from the stores does not, the rebuilt table has no signatures
    ([RefHydrator.turn_forgets_sends]).  The store's references have parts below
    2^32, the tool name is valid, the counter of the table is a u32, the input
    repeats no field, the handle starts consistent and the registry never issues
    a session id twice. *)
Theorem repeated_send_suppressed {E regex} `{ToolEnv E} `{PlanEnv E regex} `{!FreshIds E} tool order fuel scope raw input reason source (h : handle (world E)) v h'
    order2 fuel2 scope2 raw2 input2 reason2 source2 (later : handle (world E)) :
  (forall c a n en (e : E) r e', archive_allocate_and_put c a n en e = (Ok r, e') -> ShortRef_wf r) ->
  tool_name_valid tool -> ok_handle h -> faithful order -> is_u32 (next (ctx_table (w_tables (h_env h)) (scope_context_id scope))) ->
  normalize_plan_input serde_from_str raw = Ok input ->
  execute_tool_session_plan order fuel scope tool (Send raw reason) source h = (PReturn (Ok v), h') -> get_str "status" v = Some "done" ->
  same_sends (Signature.send_signature serde_to_string (tool_name_display tool) input)
    (ctx_table (w_tables (h_env h')) (scope_context_id scope)) (ctx_table (w_tables (h_env later)) (scope_context_id scope)) ->
  scope_context_id scope2 = scope_context_id scope ->
  normalize_plan_input serde_from_str raw2 = Ok input2 -> json_wf input -> json_eqv input input2 ->
  exists w h2,
    execute_tool_session_plan order2 fuel2 scope2 tool (Send raw2 reason2) source2 later = (PReturn (Ok w), h2) /\
    get_str "status" w = Some "duplicate" /\ get_str "archive_ref" w = get_str "archive_ref" v /\ get_str "output" w = get_str "output" v /\
    calls h2 = calls later /\ scopes h2 = scopes later.
Proof.
  intros Hput Htool Hok Hf Hu Hn Hrun Hst Hsends Hctx Hn2 Hwf Heqv.
  destruct (send_plan_table Hput scope tool Htool input _ _ _ _ _ _ _ _ Hok Hf Hu Hn Hrun Hst) as (Hnone & r & -> & ref & e & Hr & Hh & Hwfr & Hsig & He).
  pose proof (find_inserted_signature _ _ _ ref e _ Hnone He Hsig (cell_key_split ref Hwfr) Hsends) as Hfind.
  unfold execute_tool_session_plan. unfold bindM at 1.
  assert (Hc : exists s, continued_session order2 scope2 (tool_name_display tool) (Send (regex := regex) raw2 reason2) source2 later = (s, later))
    by (unfold continued_session; destruct (_ && _); by eexists).
  destruct Hc as [s ->]. rewrite Hn2. unfold bindM. destruct (find_duplicate scope2 _ input2 later) as [dup h2] eqn:Hd.
  destruct (find_duplicate_table scope2 _ _ _ _ _ Hd) as (Hdup & _ & Hs2 & Hc2).
  assert (Hsame : Signature.send_signature serde_to_string (tool_name_display tool) input2 = Signature.send_signature serde_to_string (tool_name_display tool) input).
  { unfold Signature.send_signature. do 2 f_equal. f_equal. symmetry. by apply eqv_canonical. }
  unfold table_of in Hdup. rewrite Hctx, Hsame, Hfind in Hdup. subst dup. unfold ret.
  eexists _, _. split; [reflexivity|]. unfold send_done_json. rewrite Hr, Hh. by split_and!.
Qed.

(** ** Witness *)

#[local] Existing Instance script_env.

Definition swapped_input : json := JObj [("right", JNum (NInt 2)); ("left", JNum (NInt 1))].

Lemma repeated_send_suppressed_witness :
  let '(r, h') := demo_send [Some (Ok (ToolSessions.Done (Some (JStr "3"))))] in
  r = PReturn (Ok (send_done_json (mkSendResult "@2/7" (ArchiveEntry_display_header (send_entry "support/calculate" demo_input (JStr "3") "prov-1") (mkShortRef 2 7)) (JStr "3") "prov-1"))) /\
  exists w h2, execute_tool_session_plan map_to_list 5 demo_scope calc_tool (Send swapped_input None) None h' = (PReturn (Ok w), h2) /\
    get_str "archive_ref" w = Some "@2/7" /\ calls h2 = calls h'.
Proof.
  destruct (demo_send [Some (Ok (ToolSessions.Done (Some (JStr "3"))))]) as [r h'] eqn:Hop.
  match goal with |- r = ?v /\ _ => assert (Hr : r = v) by (apply (f_equal fst) in Hop; vm_compute in Hop |- *; symmetry; exact Hop) end.
  split; [exact Hr|]. subst r. change (Some "@2/7") with (get_str "archive_ref" (JObj [("archive_ref", JStr "@2/7")])).
  unfold demo_send in Hop.
  pose (h0 := demo_handle [Some (Ok (ToolSessions.Done (Some (JStr "3"))))]). fold h0 in Hop.
  match type of Hop with _ = (PReturn (Ok ?v), _) =>
    destruct (repeated_send_suppressed calc_tool map_to_list 5 demo_scope demo_input demo_input None None h0 v h'
                map_to_list 5 demo_scope swapped_input swapped_input None None h') as (w & h2 & H1 & _ & H3 & _ & H5 & _)
  end.
  - intros c a n en e x e' Hp. injection Hp as <- <-. split; unfold is_u32, u32_max; simpl; lia.
  - split; reflexivity.
  - apply demo_handle_ok.
  - apply map_to_list_faithful.
  - unfold is_u32, u32_max. vm_compute. split; discriminate.
  - reflexivity.
  - exact Hop.
  - reflexivity.
  - intros k e _. reflexivity.
  - reflexivity.
  - reflexivity.
  - split; [|vm_compute; tauto]. simpl. apply NoDup_cons. split; [by intros ?%list_elem_of_singleton|apply NoDup_singleton].
  - apply eqv_perm. apply Permutation_swap.
  - exists w, h2. split; [exact H1|]. split; [rewrite H3; reflexivity|exact H5].
Defined.
