(* ===== verification/PlanAnswers.v ===== *)
(** * Answers of plans in the step loop

    What [execute_tool_session_plan] answers is read back by the step executor;
    each answer has a status it understands and a phase to go on in. *)

From stdpp Require Import base list strings gmap.
From Stdlib Require Import ZArith Lia.
From S2P Require Import Prelude RustStr ArchiveRead RefTable Json Ids Interceptor EffectBus Errors ToolNames Signature Render StepExecutor PlanExtraction ToolSessions HandleOps SessionPlan PlanSafety.

Open Scope string_scope.
Open Scope list_scope.

(** The answers of each step. *)
Definition answers {regex} (tool : string) (op : ToolSessionOp (regex := regex)) (v : json) : Prop :=
  match op with
  | Open _ _ => exists id, v = open_json id tool
  | Send _ _ =>
      (exists r, v = send_done_json r) \/ (exists r hd, v = duplicate_send_json r hd) \/
      (exists id f, v = plan_send_tool_error_value tool id f) \/ (exists why, v = send_unavailable_result tool why)
  | SearchRead r _ _ _ _ => v = archive_ref_not_found_tool_result "SearchRead" r \/ exists text page, v = read_output_json text page
  | PageRead r _ _ _ => v = archive_ref_not_found_tool_result "PageRead" r \/ exists text page, v = read_output_json text page
  | Finish _ => v = finished_json
  | Abort _ => v = aborted_json
  end.

Section Answers.
Context {E regex : Type} `{ToolEnv E} `{PlanEnv E regex}.
Context (order : gmap ToolSessionId ToolSessionScope -> list (ToolSessionId * ToolSessionScope)) (fuel : nat) (scope : RuntimeScope).
Notation handle := (handle (world E)).
Implicit Types h : handle.

(** What a computation can end with, whatever its handle. *)
Definition yields {A} (m : @M (world E) A) (Q : A -> Prop) : Prop := forall h, Q (m h).1.

Lemma yields_ret {A} (a : A) (Q : A -> Prop) : Q a -> yields (ret a) Q.
Proof. by intros Hq h. Qed.

Lemma yields_bind {A B} (m : @M (world E) A) (k : A -> @M (world E) B) (Q : B -> Prop) : (forall a, yields (k a) Q) -> yields (bindM m k) Q.
Proof. intros Hk h. unfold bindM. destruct (m h) as [a h1]. apply Hk. Qed.

(** A step goes on with an answer of its operation or stops. *)
Definition step_answers (auto_opened : bool) tool (op : ToolSessionOp (regex := regex)) (r : step_end) : Prop :=
  match r with
  | SNext s => exists v, ps_last s = Some v /\ answers tool op v
  | SStop (PReturn (Ok v)) => auto_opened = true /\ exists why, v = send_unavailable_result tool why
  | SStop _ => True
  end.

Ltac yields_go :=
  repeat (match goal with
    | |- yields (ret _) _ => apply yields_ret
    | |- yields (bindM _ _) _ => apply yields_bind; intros ?
    | |- yields (let '(_, _) := ?x in _) _ => destruct x
    | |- yields (match ?x with _ => _ end) _ => destruct x
    end; cbn [step_answers with_last ps_last]).

Lemma answer_next auto tool op s v : ps_last s = Some v -> answers tool op v -> step_answers auto tool op (SNext s).
Proof. intros ? ?. by exists v. Qed.

Lemma read_answers tool op phase next_step r o l g s (Q : json -> Prop) :
  Q (archive_ref_not_found_tool_result op r) -> (forall text page, Q (read_output_json text page)) ->
  yields (read_step (E := E) scope tool op phase next_step r o l g s)
    (fun e => match e with SNext s' => exists v, ps_last s' = Some v /\ Q v | SStop (PReturn (Ok _)) => False | SStop _ => True end).
Proof. intros Hn Ho. unfold read_step. yields_go; simpl; eauto. Qed.

Lemma read_step_answers auto tool (op : ToolSessionOp (regex := regex)) e :
  match e with SNext s' => exists v, ps_last s' = Some v /\ answers tool op v | SStop (PReturn (Ok _)) => False | SStop _ => True end ->
  step_answers auto tool op e.
Proof. by destruct e as [|[[]| |]]. Qed.

Lemma plan_step_answers tool auto op s : (forall r, op = Finish r -> last_is_done s = false) ->
  yields (plan_step (E := E) order fuel scope tool auto op s) (step_answers auto tool op).
Proof.
  intros Hfin. destruct op as [i rs|i rs|r o l g rs|r o l rs|rs|rs]; cbn [plan_step].
  - unfold open_step. yields_go; simpl; eauto; destruct auto; eauto.
  - unfold plan_send_step. yields_go; simpl; eauto 10.
  - intros h. apply read_step_answers, read_answers; simpl; eauto.
  - intros h. apply read_step_answers, read_answers; simpl; eauto.
  - unfold finish_step. rewrite (Hfin rs eq_refl). apply yields_bind. intros [[]|e]; yields_go; simpl; eauto.
  - unfold abort_step. apply yields_bind. intros [[]|e]; yields_go; simpl; eauto.
Qed.

Definition returns (Q : json -> Prop) (r : plan_end) : Prop := match r with PReturn (Ok v) => Q v | _ => True end.

(** One operation continuing a session. *)
Lemma run_one_answers tool strict op session : yields (run_plan (E := E) order fuel scope tool false strict [op] session) (returns (answers tool op)).
Proof.
  unfold run_plan. intros h. cbn [plan_steps]. unfold bindM at 1. unfold bindM at 1.
  pose proof (plan_step_answers tool false op (mkPS session None false) ltac:(done) h) as Ha.
  destruct (plan_step order fuel scope tool false op _ h) as [[s'|e] h1]; simpl in Ha.
  - unfold ret at 1. destruct Ha as (v & Hl & Ha). rewrite Hl. unfold bindM. by destruct (cleanup false strict s' h1).
  - unfold ret. simpl. destruct e as [[v|]| |]; try done. by destruct Ha.
Qed.

(** A Send with its synthetic Open. *)
Lemma run_auto_answers tool strict why input reason session :
  yields (run_plan (E := E) order fuel scope tool true strict [Open None why; Send input reason] session) (returns (answers tool (Send (regex := regex) input reason))).
Proof.
  unfold run_plan. intros h. cbn [plan_steps]. unfold bindM at 1. unfold bindM at 1.
  pose proof (plan_step_answers tool true (Open None why) (mkPS session None false) ltac:(done) h) as Ha.
  destruct (plan_step order fuel scope tool true (Open None why) _ h) as [[s'|e] h1]; simpl in Ha.
  2: { unfold ret. simpl. destruct e as [[v|]| |]; try done. destruct Ha as [_ Hw]. simpl. eauto. }
  unfold bindM at 1. pose proof (plan_step_answers tool true (Send input reason) s' ltac:(done) h1) as Hb.
  destruct (plan_step order fuel scope tool true (Send input reason) s' h1) as [[s2|e] h2]; simpl in Hb.
  - unfold ret at 1. destruct Hb as (v & Hl & Hb). rewrite Hl. unfold bindM. by destruct (cleanup true strict s2 h2).
  - unfold ret. simpl. destruct e as [[v|]| |]; try done. destruct Hb as [_ Hw]. simpl. eauto.
Qed.

Lemma plan_answers tool op source : yields (execute_tool_session_plan (E := E) order fuel scope tool op source) (returns (answers (tool_name_display tool) op)).
Proof.
  unfold execute_tool_session_plan. apply yields_bind. intros session.
  destruct op as [i rs|i rs|r o l g rs|r o l rs|rs|rs]; try (destruct session; first [apply run_one_answers|by apply yields_ret]).
  destruct (normalize_plan_input _ i) as [norm|]; [|by apply yields_ret]. apply yields_bind. intros [[ref hd]|]; [apply yields_ret; simpl; eauto|].
  destruct session; [apply run_one_answers|]. destruct (negb _); [apply yields_ret; simpl; eauto|apply run_auto_answers].
Qed.
End Answers.

(** ** The step loop's reading of an answer *)

Lemma open_binds id tool : tool_name_valid tool -> extract_tool_binding (open_json id (tool_name_display tool)) = Some (mkBinding tool (slug tool)).
Proof.
  intros Hv. unfold extract_tool_binding, extract_tool_binding_inner, open_json. cbn -[binding_from_tool_name_str tool_name_display].
  unfold binding_from_tool_name_str. by rewrite display_parses.
Qed.

Definition is_open {regex} (op : ToolSessionOp (regex := regex)) : bool := match op with Open _ _ => true | _ => false end.
Definition is_finish {regex} (op : ToolSessionOp (regex := regex)) : bool := match op with Finish _ => true | _ => false end.

(** Whatever a tool session plan answers, the step loop goes on from it: the
    answer has a status of the protocol (a failed tool or a missing archive is
    an answer like any other), and the only answers the loop refuses are a
    second Open and a Finish before any Send completed, both inside an active
    session; on an entry hop it refuses none. *)
Theorem answers_continue_executor {E regex} `{ToolEnv E} `{PlanEnv E regex} order fuel scope tool op source (h : handle (world E)) v h' f p :
  tool_name_valid tool ->
  execute_tool_session_plan order fuel scope tool op source h = (PReturn (Ok v), h') ->
  exists st, hop_status p v = Some st /\
    ((exists q, advance f p st v = Ok q) \/
     (exists t hd, p = PActive t hd /\ is_open op = true) \/
     (exists t, p = PActive t false /\ is_finish op = true)).
Proof.
  intros Hv Hrun. pose proof (plan_answers order fuel scope tool op source h) as Ha. rewrite Hrun in Ha. simpl in Ha. clear Hrun.
  assert (Hgo : forall st, st = SDone \/ st = SDuplicate \/ st = SAborted -> exists q, advance f p st v = Ok q).
  { intros st Hst. unfold advance. destruct (result_is_read_only_finish v); [by eexists|]. destruct p; [..|by eexists]; destruct Hst as [->|[->| ->]]; by eexists. }
  destruct op as [i rs|i rs|r o l g rs|r o l rs|rs|rs]; simpl in Ha.
  - destruct Ha as [id ->]. exists SOpen. split; [done|]. destruct p as [|t hd|]; [|right; left; by eexists _, _|left; by eexists].
    left. unfold advance. rewrite open_binds by done. by eexists.
  - destruct Ha as [[r ->]|[(r & hd & ->)|[(id & fl & ->)|[why ->]]]]; eexists; (split; [reflexivity|left; apply Hgo; tauto]).
  - destruct Ha as [->|(text & page & ->)]; eexists; (split; [reflexivity|left; apply Hgo; tauto]).
  - destruct Ha as [->|(text & page & ->)]; eexists; (split; [reflexivity|left; apply Hgo; tauto]).
  - subst v. exists SFinished. split; [done|]. destruct p as [|t [|]|]; [left; by eexists..|right; right; by eexists|left; by eexists].
  - subst v. exists SAborted. split; [done|]. left. apply Hgo. tauto.
Qed.

#[local] Existing Instance script_env.

(** A tool that refuses its input, on an entry hop. *)
Lemma answers_continue_executor_witness :
  exists v, (demo_send [Some (Ok (StepError refused_input))]).1 = PReturn (Ok v) /\ exists st, hop_status PEntry v = Some st /\ is_ok (advance "f__entry" PEntry st v) = true.
Proof.
  destruct (demo_send [Some (Ok (StepError refused_input))]) as [r h'] eqn:Hop.
  assert (Hr : exists v, r = PReturn (Ok v)) by (apply (f_equal fst) in Hop; vm_compute in Hop; rewrite <-Hop; by eexists).
  destruct Hr as [v ->]. exists v. split; [reflexivity|].
  destruct (answers_continue_executor map_to_list 5 demo_scope calc_tool (Send demo_input None) None (demo_handle [Some (Ok (StepError refused_input))]) v h' "f__entry" PEntry)
    as (st & H1 & [[q H2]|[(t & hd & [=] & _)|(t & [=] & _)]]).
  - split; reflexivity.
  - exact Hop.
  - exists st. split; [exact H1|]. rewrite H2. reflexivity.
Defined.

(** ** Searching with flags *)

(** The output the tool gave, searched for [-i alpha] in the session and
    globally: only the first shows the line, since the global read parses the
    bare pattern again, without its flags. *)
Definition searched (read : GrepPattern -> @M (world script) plan_end) : bool :=
  match GrepPattern_parse no_regex "-i alpha" with
  | Ok g =>
      match (read g (demo_send [Some (Ok (ToolSessions.Done (Some (JStr "Alpha"))))]).2).1 with
      | PReturn (Ok v) => match get_str "output" v with Some text => contains_str "Alpha" text | None => false end
      | _ => false
      end
  | Err _ => false
  end.

Lemma global_search_drops_flags :
  searched (fun g => execute_tool_session_plan map_to_list 5 demo_scope calc_tool (SearchRead (mkShortRef 2 7) 0 100 g None) None) = true /\
  searched (fun g => execute_archive_read_plan demo_scope (SearchRead (mkShortRef 2 7) 0 100 g None)) = false.
Proof. vm_compute. split; reflexivity. Qed.
