(* ===== verification/ToolRegistry.v ===== *)
(** * The tool registry

    [ToolRegistry] of [baml-rt-tools/src/tools.rs]: registration under the
    manifest's allowlist, sessions of one-shot and multi-send tools, direct
    execution, and the typed session handle.  Tools in other crates (MCP,
    external processes, agents) have sessions of their own kind, behind the same
    trait.  The registry is the [ToolEnv] of the session handle. *)

From stdpp Require Import base list strings gmap.
From Stdlib Require Import ZArith Lia.
From S2P Require Import Prelude RustStr Json Ids Interceptor EffectBus Errors ToolNames PlanExtraction ToolSessions.

Open Scope string_scope.
Open Scope list_scope.

#[global] Instance ToolName_countable : Countable ToolName.
Proof. refine (inj_countable' (fun t => (tn_bundle t, tn_local t)) (fun p => mkToolName p.1 p.2) _). by intros []. Defined.

Inductive SessionPhase := PhaseOpen | PhaseClosed.
Definition is_closed (p : SessionPhase) : bool := match p with PhaseClosed => true | PhaseOpen => false end.

Inductive ToolSessionError := Transport (e : BamlRtError) | ToolError (f : ToolFailure).

Definition map_session_error (e : ToolSessionError) : BamlRtError :=
  match e with
  | Transport err => err
  | ToolError failure => tool_failure_to_baml_tool_execution_error failure
  end.

(** [ToolSessionContext] without the classifier, which is the handler's. *)
Record SessionContext := mkContext {
  cx_session : ToolSessionId;
  cx_tool : ToolName;
  cx_context : ContextId;
  cx_agent : AgentId;
  cx_config : option json;
  cx_config_version : option Z;
  cx_task : option TaskId
}.

(** A tool of typed inputs and outputs, acting on the world [X]: deserialisers
    give serde's error text, [tt_run] gives [None] when it does not return. *)
Record TypedTool (X : Type) := mkTyped {
  tt_input : Type;
  tt_output : Type;
  tt_parse_open : json -> result unit string;
  tt_parse_input : json -> result tt_input string;
  tt_run : SessionContext -> tt_input -> X -> option (result tt_output BamlRtError) * X;
  tt_to_value : tt_output -> result json string;
  tt_classify : BamlRtError -> ClassifiedToolError
}.
Arguments tt_input {X}. Arguments tt_output {X}. Arguments tt_parse_open {X}. Arguments tt_parse_input {X}.
Arguments tt_run {X}. Arguments tt_to_value {X}. Arguments tt_classify {X}.

Definition validate_open_input {X} (t : TypedTool X) (open_input : json) : result unit BamlRtError :=
  match tt_parse_open t open_input with
  | Ok _ => Ok tt
  | Err msg =>
      if contains_str "expected unit" msg && (match open_input with JNull | JObj [] => true | _ => false end)
      then Ok tt else Err (InvalidOpenInput msg)
  end.

(** The executor every [open_session] of a typed tool builds. *)
Definition executor {X} (t : TypedTool X) (ctx : SessionContext) (input : json) (x : X) : option (result json BamlRtError) * X :=
  match tt_parse_input t input with
  | Err e => (Some (Err (JsonError e)), x)
  | Ok parsed =>
      let '(r, x) := tt_run t ctx parsed x in
      (match r with
       | None => None
       | Some (Err e) => Some (Err e)
       | Some (Ok o) => Some (match tt_to_value t o with Ok v => Ok v | Err e => Err (JsonError e) end)
       end, x)
  end.

(** Sessions implemented outside this crate: their state and operations. *)
Class ForeignSessions (X F : Type) := {
  foreign_open : ToolName -> SessionContext -> json -> X -> result F BamlRtError * X;
  foreign_send : F -> json -> X -> result unit ToolSessionError * F * X;
  foreign_read : F -> json -> X -> option (result ToolStep ToolSessionError) * F * X;
  foreign_finish : F -> X -> result unit ToolSessionError * X;
  foreign_abort : F -> option string -> X -> result unit ToolSessionError * X;
  (** [Display] of an error *)
  error_display : BamlRtError -> string
}.

(** [ToolHandler], by the session it opens. *)
Inductive Handler (X : Type) :=
| OneShotTool (t : TypedTool X)
| MultiSendTool (t : TypedTool X)
| ForeignTool.
Arguments OneShotTool {X}. Arguments MultiSendTool {X}. Arguments ForeignTool {X}.

(** [Box<dyn ToolSession>] *)
Inductive Session (X F : Type) :=
| OneShotSession (t : TypedTool X) (ctx : SessionContext) (send_input : option json) (state : SessionPhase)
| MultiSendSession (t : TypedTool X) (ctx : SessionContext) (last_send : option json)
| ForeignSession (ctx : SessionContext) (f : F).
Arguments OneShotSession {X F}. Arguments MultiSendSession {X F}. Arguments ForeignSession {X F}.

Definition session_ctx {X F} (s : Session X F) : SessionContext :=
  match s with OneShotSession _ ctx _ _ | MultiSendSession _ ctx _ | ForeignSession ctx _ => ctx end.

(** Fields of the read's input override those of the Send. *)
Definition refine_input (base input : json) : json :=
  match base, input with
  | JObj base, JObj refine => JObj (foldl (fun fs '(k, v) => map_insert k v fs) base refine)
  | _, _ => base
  end.

(** Random version-4 identifiers. *)
Class Uuids (U : Type) := {
  random_id : U -> ToolSessionId * U;
  drawn : U -> ToolSessionId -> Prop;
  random_id_new u : ~ drawn u (random_id u).1;
  random_id_drawn u id : drawn (random_id u).2 id <-> id = (random_id u).1 \/ drawn u id
}.

Section Sessions.
Context {X F : Type} `{ForeignSessions X F}.
Notation Session := (Session X F).

Definition handler_open (h : Handler X) (ctx : SessionContext) (open_input : json) (x : X) : result Session BamlRtError * X :=
  match h with
  | OneShotTool t => (match validate_open_input t open_input with Ok _ => Ok (OneShotSession t ctx None PhaseOpen) | Err e => Err e end, x)
  | MultiSendTool t => (match validate_open_input t open_input with Ok _ => Ok (MultiSendSession t ctx None) | Err e => Err e end, x)
  | ForeignTool =>
      let '(r, x) := foreign_open (cx_tool ctx) ctx open_input x in
      (match r with Ok f => Ok (ForeignSession ctx f) | Err e => Err e end, x)
  end.

Definition session_send_op (s : Session) (input : json) (x : X) : result unit ToolSessionError * Session * X :=
  match s with
  | OneShotSession t ctx (Some i) st => (Err (ToolError (invalid_input "Tool session already has input")), OneShotSession t ctx (Some i) st, x)
  | OneShotSession t ctx None st => (Ok tt, OneShotSession t ctx (Some input) st, x)
  | MultiSendSession t ctx _ => (Ok tt, MultiSendSession t ctx (Some input), x)
  | ForeignSession ctx f => let '(r, f, x) := foreign_send f input x in (r, ForeignSession ctx f, x)
  end.

(** [None]: the tool does not answer. *)
Definition session_read_op (s : Session) (input : json) (x : X) : option (result ToolStep ToolSessionError) * Session * X :=
  match s with
  | OneShotSession t ctx i st =>
      if is_closed st then (Some (Ok (Done None)), s, x)
      else
        match i with
        | None => (Some (Err (ToolError (invalid_input ("Tool session " +:+ cx_session ctx +:+ " has no input")))), s, x)
        | Some send_input =>
            let '(r, x) := executor t ctx (refine_input send_input input) x in
            (match r with
             | None => None
             | Some (Ok v) => Some (Ok (Done (Some v)))
             | Some (Err e) => Some (Ok (StepError (from_error_in_session error_display (Some (tt_classify t)) e)))
             end, OneShotSession t ctx None st, x)
        end
  | MultiSendSession t ctx last_send =>
      let merged := refine_input (default (JObj []) last_send) input in
      let '(r, x) := executor t ctx merged x in
      (match r with
       | None => None
       | Some (Ok v) => Some (Ok (Done (Some v)))
       | Some (Err e) => Some (Err (ToolError (from_error_in_session error_display (Some (tt_classify t)) e)))
       end, s, x)
  | ForeignSession ctx f => let '(r, f, x) := foreign_read f input x in (r, ForeignSession ctx f, x)
  end.

Definition session_finish_op (s : Session) (x : X) : result unit ToolSessionError * X :=
  match s with ForeignSession _ f => foreign_finish f x | _ => (Ok tt, x) end.

Definition session_abort_op (s : Session) (reason : option string) (x : X) : result unit ToolSessionError * X :=
  match s with ForeignSession _ f => foreign_abort f reason x | _ => (Ok tt, x) end.
End Sessions.

(** ** The registry *)

Record registry (X F : Type) := mkRegistry {
  tools : gmap ToolName (ToolFunctionMetadata * Handler X);
  bundles : gset string;
  allowlist : option (gset ToolName);
  config_resolver : option (string -> X -> result (option (json * Z)) BamlRtError * X);
  sessions : gmap ToolSessionId (Session X F);
  session_config_version : gmap ToolSessionId Z
}.
Arguments mkRegistry {X F}. Arguments tools {X F}. Arguments bundles {X F}. Arguments allowlist {X F}.
Arguments config_resolver {X F}. Arguments sessions {X F}. Arguments session_config_version {X F}.

Definition registry_new {X F} : registry X F := mkRegistry ∅ ∅ None None ∅ ∅.
Definition set_tools {X F} t (r : registry X F) : registry X F := mkRegistry t (bundles r) (allowlist r) (config_resolver r) (sessions r) (session_config_version r).
Definition set_bundles {X F} b (r : registry X F) : registry X F := mkRegistry (tools r) b (allowlist r) (config_resolver r) (sessions r) (session_config_version r).
Definition set_allow {X F} a (r : registry X F) : registry X F := mkRegistry (tools r) (bundles r) a (config_resolver r) (sessions r) (session_config_version r).
Definition set_config_resolver {X F} c (r : registry X F) : registry X F := mkRegistry (tools r) (bundles r) (allowlist r) c (sessions r) (session_config_version r).
Definition set_sessions {X F} s v (r : registry X F) : registry X F := mkRegistry (tools r) (bundles r) (allowlist r) (config_resolver r) s v.

Section Registry.
Context {X F U : Type} `{ForeignSessions X F} `{Uuids U}.
Notation registry := (registry X F).

(** The registry, the source of identifiers and the world the tools act on. *)
Record rt := mkRt { rt_reg : registry; rt_ids : U; rt_world : X }.
Definition with_reg (r : registry) (e : rt) : rt := mkRt r (rt_ids e) (rt_world e).

Definition set_allowlist (names : gset ToolName) (r : registry) : registry := set_allow (Some names) r.
Definition clear_allowlist (r : registry) : registry := set_allow None r.

Fixpoint parse_all (names : list string) : result (gset ToolName) BamlRtError :=
  match names with
  | [] => Ok ∅
  | n :: rest => let? t := tool_name_parse n in let? ts := parse_all rest in Ok ({[t]} ∪ ts)
  end.

Definition set_allowlist_from_strings (names : list string) (r : registry) : result unit BamlRtError * registry :=
  match parse_all names with
  | Ok parsed => (Ok tt, set_allow (Some parsed) r)
  | Err e => (Err e, r)
  end.

(** What the allowlist says of a name. *)
Definition listed (r : registry) (t : ToolName) : bool :=
  match allowlist r with Some names => bool_decide (t ∈ names) | None => true end.
Definition not_declared (t : ToolName) : BamlRtError :=
  InvalidArgument ("Tool '" +:+ tool_name_display t +:+ "' is not declared in the manifest allowlist").
Definition already_registered (t : ToolName) : BamlRtError := InvalidArgument ("Tool '" +:+ tool_name_display t +:+ "' is already registered").

(** Only host tools answer to the allowlist. *)
Definition permitted (r : registry) (m : ToolFunctionMetadata) : bool :=
  negb (bool_decide (md_origin m = Host)) || listed r (md_name m).

(** [register]: the handler made by [create_tool_handler] is a one-shot tool of
    the bundle its type names. *)
Definition create_tool_handler (name : string) (bundle : string) (metadata : ToolName -> ToolFunctionMetadata) (t : TypedTool X)
    : result (ToolFunctionMetadata * Handler X) BamlRtError :=
  let? n := tool_name_parse name in
  let? expected := bundle_name_new bundle in
  if negb (bool_decide (tn_bundle n = expected)) then
    Err (InvalidArgument ("Tool '" +:+ tool_name_display n +:+ "' bundle '" +:+ tn_bundle n +:+ "' does not match Bundle type '" +:+ expected +:+ "'"))
  else Ok (metadata n, OneShotTool t).

Definition register (created : result (ToolFunctionMetadata * Handler X) BamlRtError) (r : registry) : result unit BamlRtError * registry :=
  match created with
  | Err e => (Err e, r)
  | Ok (m, h) =>
      if negb (listed r (md_name m)) then (Err (not_declared (md_name m)), r)
      else if bool_decide (is_Some (tools r !! md_name m)) then (Err (already_registered (md_name m)), r)
      else (Ok tt, set_tools (<[md_name m := (m, h)]> (tools r)) r)
  end.

Definition register_dynamic (m : ToolFunctionMetadata) (h : Handler X) (r : registry) : result unit BamlRtError * registry :=
  if negb (permitted r m) then (Err (not_declared (md_name m)), r)
  else if bool_decide (is_Some (tools r !! md_name m)) then (Err (already_registered (md_name m)), r)
  else (Ok tt, set_tools (<[md_name m := (m, h)]> (tools r)) r).

(** The loop of [register_bundle]; what it inserted stays when it fails. *)
Fixpoint register_functions (bundle : string) (functions : list (ToolFunctionMetadata * Handler X)) (r : registry) : result unit BamlRtError * registry :=
  match functions with
  | [] => (Ok tt, r)
  | (m, h) :: rest =>
      if negb (bool_decide (tn_bundle (md_name m) = bundle)) then
        (Err (InvalidArgument ("Tool '" +:+ tool_name_display (md_name m) +:+ "' does not match bundle '" +:+ bundle +:+ "'")), r)
      else
        match register_dynamic m h r with
        | (Err e, r) => (Err e, r)
        | (Ok _, r) => register_functions bundle rest r
        end
  end.

Definition register_bundle (bundle : string) (functions : list (ToolFunctionMetadata * Handler X)) (r : registry) : result unit BamlRtError * registry :=
  if bool_decide (bundle ∈ bundles r) then (Err (InvalidArgument ("Bundle '" +:+ bundle +:+ "' is already registered")), r)
  else
    match register_functions bundle functions r with
    | (Err e, r) => (Err e, r)
    | (Ok _, r) => (Ok tt, set_bundles ({[bundle]} ∪ bundles r) r)
    end.

(** ** Lookups *)

Definition get_metadata_by_name (r : registry) (t : ToolName) : option ToolFunctionMetadata := fst <$> tools r !! t.
Definition get_metadata (r : registry) (name : string) : option ToolFunctionMetadata := ok (tool_name_parse name) ≫= get_metadata_by_name r.
Definition get_handler (r : registry) (name : string) : option (Handler X) := t ← ok (tool_name_parse name); snd <$> tools r !! t.
Definition list_tools (r : registry) : list string := (fun p => tool_name_display p.1) <$> map_to_list (tools r).
Definition registry_all_metadata (r : registry) : list ToolFunctionMetadata := (fun p => p.2.1) <$> map_to_list (tools r).
Definition export_metadata (r : registry) : list ToolFunctionMetadata :=
  List.filter (fun m => bool_decide (md_origin m = Host)) (registry_all_metadata r).
Definition get_config_version_for_session (r : registry) (id : ToolSessionId) : option Z := session_config_version r !! id.

Definition validate_allowlist_registered (r : registry) : result unit BamlRtError :=
  match allowlist r with
  | None => Ok tt
  | Some names =>
      let missing := List.filter (fun t => negb (bool_decide (is_Some (tools r !! t)))) (elements names) in
      match missing with
      | [] => Ok tt
      | _ => Err (InvalidArgument ("Manifest tools missing from registry: " +:+ join ", " (tool_name_display <$> missing)))
      end
  end.

(** ** Sessions *)

Definition no_session (id : ToolSessionId) : BamlRtError := SessionLifecycle (ToolSessionNotFound id).
Definition not_found (t : ToolName) : BamlRtError := FunctionNotFound ("Tool '" +:+ tool_name_display t +:+ "' not found").

(** The configuration of a session and its version. *)
Definition resolve_config (r : registry) (m : ToolFunctionMetadata) (x : X) : option json * option Z * X :=
  match config_resolver r, md_config m, md_config_bundle m with
  | Some resolver, Some dflt, Some bundle =>
      let '(got, x) := resolver bundle x in
      let '(v, ver) := match got with Ok (Some p) => p | _ => (dflt, 0%Z) end in
      (Some v, Some ver, x)
  | _, config, _ => (config, None, x)
  end.

Definition open_session_scoped (name : string) (open_input : json) (c : ContextId) (a : AgentId) (task : option TaskId) (e : rt)
    : result ToolSessionId BamlRtError * rt :=
  match tool_name_parse name with
  | Err err => (Err err, e)
  | Ok parsed =>
      let r := rt_reg e in
      let '(id, ids) := random_id (rt_ids e) in
      match tools r !! parsed with
      | None => (Err (not_found parsed), mkRt r ids (rt_world e))
      | Some (m, h) =>
          if bool_decide (md_origin m = Host) && negb (listed r parsed) then (Err (not_declared parsed), mkRt r ids (rt_world e))
          else
            let '(config, version, x) := resolve_config r m (rt_world e) in
            let ctx := mkContext id (md_name m) c a config version task in
            let '(s, x) := handler_open h ctx open_input x in
            match s with
            | Err err => (Err err, mkRt r ids x)
            | Ok s =>
                let versions := match version with Some v => <[id := v]> (session_config_version r) | None => session_config_version r end in
                (Ok id, mkRt (set_sessions (<[id := s]> (sessions r)) versions r) ids x)
            end
      end
  end.

Definition open_session (name : string) (open_input : json) (c : ContextId) (a : AgentId) (e : rt) : result ToolSessionId BamlRtError * rt :=
  open_session_scoped name open_input c a None e.

Definition put_session (id : ToolSessionId) (s : Session X F) (x : X) (e : rt) : rt :=
  mkRt (set_sessions (<[id := s]> (sessions (rt_reg e))) (session_config_version (rt_reg e)) (rt_reg e)) (rt_ids e) x.

Definition drop_session (id : ToolSessionId) (x : X) (e : rt) : rt :=
  mkRt (set_sessions (delete id (sessions (rt_reg e))) (delete id (session_config_version (rt_reg e))) (rt_reg e)) (rt_ids e) x.

Definition map_err {A} (r : result A ToolSessionError) : result A BamlRtError :=
  match r with Ok a => Ok a | Err e => Err (map_session_error e) end.

Definition session_send (id : ToolSessionId) (input : json) (e : rt) : result unit BamlRtError * rt :=
  match sessions (rt_reg e) !! id with
  | None => (Err (no_session id), e)
  | Some s => let '(r, s, x) := session_send_op s input (rt_world e) in (map_err r, put_session id s x e)
  end.

Definition session_read (id : ToolSessionId) (input : json) (e : rt) : option (result ToolStep BamlRtError) * rt :=
  match sessions (rt_reg e) !! id with
  | None => (Some (Err (no_session id)), e)
  | Some s => let '(r, s, x) := session_read_op s input (rt_world e) in (map_err <$> r, put_session id s x e)
  end.

Definition session_finish (id : ToolSessionId) (e : rt) : result unit BamlRtError * rt :=
  match sessions (rt_reg e) !! id with
  | None => (Ok tt, drop_session id (rt_world e) e)
  | Some s => let '(r, x) := session_finish_op s (rt_world e) in (map_err r, drop_session id x e)
  end.

Definition session_abort (id : ToolSessionId) (reason : option string) (e : rt) : result unit BamlRtError * rt :=
  match sessions (rt_reg e) !! id with
  | None => (Ok tt, drop_session id (rt_world e) e)
  | Some s => let '(r, x) := session_abort_op s reason (rt_world e) in (map_err r, drop_session id x e)
  end.

(** A single call; [None] when the tool does not answer. *)
Definition execute (name : string) (args : json) (c : ContextId) (a : AgentId) (e : rt) : option (result json BamlRtError) * rt :=
  match tool_name_parse name with
  | Err err => (Some (Err err), e)
  | Ok parsed =>
      match tools (rt_reg e) !! parsed with
      | None => (Some (Err (not_found parsed)), e)
      | Some (m, _) =>
          if negb (bool_decide (md_capability m = OneShot)) then
            (Some (Err (InvalidArgument ("Tool '" +:+ tool_name_display parsed +:+ "' requires a streaming session; use open_session"))), e)
          else
            match open_session (tool_name_display parsed) (JObj []) c a e with
            | (Err err, e) => (Some (Err err), e)
            | (Ok id, e) =>
                match session_send id args e with
                | (Err err, e) => (Some (Err err), e)
                | (Ok _, e) =>
                    match session_read id JNull e with
                    | (None, e) => (None, e)
                    | (Some (Err err), e) => (Some (Err err), e)
                    | (Some (Ok (Streaming output)), e) | (Some (Ok (Suspended output)), e) =>
                        let '(r, e) := session_finish id e in (Some (let? _ := r in Ok output), e)
                    | (Some (Ok (Done output)), e) =>
                        let '(r, e) := session_finish id e in (Some (let? _ := r in Ok (default JNull output)), e)
                    | (Some (Ok (StepError f)), e) =>
                        let '(r, e) := session_abort id (Some (f_message f)) e in
                        (Some (let? _ := r in Err (map_session_error (ToolError f))), e)
                    end
                end
            end
      end
  end.

(** ** The typed handle *)

(** A handle that is dropped before its session is closed spawns an abort. *)
Definition dropped_abort (id : ToolSessionId) (e : rt) : rt := (session_abort id (Some "session dropped") e).2.

(** [ToolSessionHandle::<AwaitingInput>::send]: the old handle goes out of
    scope with the call, whatever it returns; the spawned abort then runs. *)
Definition typed_send (id : ToolSessionId) (input : json) (e : rt) : result ToolSessionId BamlRtError * rt :=
  let '(r, e) := session_send id input e in
  ((let? _ := r in Ok id), dropped_abort id e).
End Registry.
Arguments rt : clear implicits.
