(* ===== verification/RegistryFacts.v ===== *)
(** * What the tool registry guarantees

    Consistency of the registry over all its operations, the allowlist, single
    calls, and the registry as the environment of the session handle: the
    sessions the handle has open are those the registry holds. *)

From stdpp Require Import base list strings gmap relations.
From Stdlib Require Import ZArith Lia.
From S2P Require Import Prelude RustStr Json Ids Interceptor EffectBus Errors ToolNames PlanExtraction ToolSessions HandleOps ToolRegistry.

Open Scope string_scope.
Open Scope list_scope.

(** ** The registry's own invariant *)

Section Invariant.
Context {X F U : Type} `{ForeignSessions X F} `{Uuids U}.
Notation rt := (rt X F U).
Notation registry := (registry X F).
Implicit Types e : rt.

(** One operation; between them the tools' world may change by itself. *)
Inductive rstep : rt -> rt -> Prop :=
| rs_allow names e : rstep e (with_reg (set_allowlist names (rt_reg e)) e)
| rs_allow_strings names e : rstep e (with_reg (set_allowlist_from_strings names (rt_reg e)).2 e)
| rs_clear e : rstep e (with_reg (clear_allowlist (rt_reg e)) e)
| rs_resolver c e : rstep e (with_reg (set_config_resolver c (rt_reg e)) e)
| rs_register m e : rstep e (with_reg (register m (rt_reg e)).2 e)
| rs_dynamic m h e : rstep e (with_reg (register_dynamic m h (rt_reg e)).2 e)
| rs_bundle b fs e : rstep e (with_reg (register_bundle b fs (rt_reg e)).2 e)
| rs_open name input c a task e : rstep e (open_session_scoped name input c a task e).2
| rs_send id input e : rstep e (session_send id input e).2
| rs_read id input e : rstep e (session_read id input e).2
| rs_finish id e : rstep e (session_finish id e).2
| rs_abort id reason e : rstep e (session_abort id reason e).2
| rs_execute name args c a e : rstep e (execute name args c a e).2
| rs_typed id input e : rstep e (typed_send id input e).2
| rs_world x e : rstep e (mkRt (rt_reg e) (rt_ids e) x).

Record reg_inv e : Prop := {
  ri_key t m h : tools (rt_reg e) !! t = Some (m, h) -> md_name m = t;
  ri_session id s : sessions (rt_reg e) !! id = Some s ->
    drawn (rt_ids e) id /\ cx_session (session_ctx s) = id /\ is_Some (tools (rt_reg e) !! cx_tool (session_ctx s)) /\
    session_config_version (rt_reg e) !! id = cx_config_version (session_ctx s);
  ri_no_session id : sessions (rt_reg e) !! id = None -> session_config_version (rt_reg e) !! id = None
}.

Lemma reg_inv_new ids (x : X) : reg_inv (mkRt registry_new ids x).
Proof. split; simpl; intros *; rewrite !lookup_empty; done. Qed.

(** Registering only adds tools, under their own names. *)
Definition extends (r r' : registry) : Prop :=
  sessions r' = sessions r /\ session_config_version r' = session_config_version r /\
  (forall t p, tools r !! t = Some p -> tools r' !! t = Some p) /\
  (forall t m h, tools r' !! t = Some (m, h) -> tools r !! t = Some (m, h) \/ md_name m = t).

Lemma extends_refl r : extends r r.
Proof. split_and!; [done..|]. intros. by left. Qed.

Lemma extends_trans r1 r2 r3 : extends r1 r2 -> extends r2 r3 -> extends r1 r3.
Proof.
  intros (S1 & V1 & A1 & B1) (S2 & V2 & A2 & B2). split_and!; [congruence|congruence|auto|].
  intros t m h Ht. destruct (B2 _ _ _ Ht); [by apply B1|by right].
Qed.

Lemma extends_insert r m h : tools r !! md_name m = None -> extends r (set_tools (<[md_name m := (m, h)]> (tools r)) r).
Proof.
  intros Hn. split_and!; [done..| |].
  - intros t p Ht. simpl. rewrite lookup_insert_ne; [done|]. by intros <-; congruence.
  - intros t m' h'. simpl. intros [[<- [= <- <-]]|[_ Ht]]%lookup_insert_Some; [by right|by left].
Qed.

Lemma extends_register c r : extends r (register c r).2.
Proof.
  unfold register. destruct c as [[m h]|]; [|apply extends_refl]. destruct (negb _); [apply extends_refl|].
  case_bool_decide as Hb; [apply extends_refl|]. by apply extends_insert, eq_None_not_Some.
Qed.

Lemma extends_dynamic m h r : extends r (register_dynamic m h r).2.
Proof.
  unfold register_dynamic. destruct (negb _); [apply extends_refl|].
  case_bool_decide as Hb; [apply extends_refl|]. by apply extends_insert, eq_None_not_Some.
Qed.

Lemma extends_functions b fs : forall r, extends r (register_functions b fs r).2.
Proof.
  induction fs as [|[m h] fs IH]; intros r; cbn [register_functions]; [apply extends_refl|]. destruct (negb _); [apply extends_refl|].
  pose proof (extends_dynamic m h r) as Hd. destruct (register_dynamic m h r) as [[u|err] r1]; simpl in Hd; [|done].
  by eapply extends_trans.
Qed.

Lemma extends_bundle b fs r : extends r (register_bundle b fs r).2.
Proof.
  unfold register_bundle. case_bool_decide; [apply extends_refl|]. pose proof (extends_functions b fs r) as Hd.
  by destruct (register_functions b fs r) as [[u|err] r1].
Qed.

Lemma inv_extends r e : extends (rt_reg e) r -> reg_inv e -> reg_inv (with_reg r e).
Proof.
  intros (S & V & A & B) [Ik Is In]. split; simpl.
  - intros t m h Ht. destruct (B _ _ _ Ht); [by eapply Ik|done].
  - intros id s. rewrite S, V. intros Hs. destruct (Is _ _ Hs) as (? & ? & [p Hp] & ?). split_and!; eauto.
  - intros id. rewrite S, V. apply In.
Qed.

(** Sessions keep their context. *)
Lemma session_send_ctx s input x : session_ctx (session_send_op (X := X) (F := F) s input x).1.2 = session_ctx s.
Proof. destruct s as [t ctx [i|] st|t ctx l|ctx f]; simpl; try done. by destruct (foreign_send f input x) as [[]]. Qed.

Lemma session_read_ctx s input x : session_ctx (session_read_op (X := X) (F := F) s input x).1.2 = session_ctx s.
Proof.
  destruct s as [t ctx [i|] st|t ctx l|ctx f]; simpl; try (destruct (is_closed st)); try done.
  - by destruct (executor t ctx _ x).
  - by destruct (executor t ctx _ x).
  - by destruct (foreign_read f input x) as [[]].
Qed.

Lemma inv_put id s s' x e : sessions (rt_reg e) !! id = Some s -> session_ctx s' = session_ctx s -> reg_inv e -> reg_inv (put_session id s' x e).
Proof.
  intros Hs Hc [Ik Is In]. split; simpl; [done| |].
  - intros j s1 [[<- <-]|[_ Hj]]%lookup_insert_Some; [|by apply Is]. rewrite Hc. by apply Is.
  - intros j [Hj _]%lookup_insert_None. by apply In.
Qed.

Lemma inv_drop id x e : reg_inv e -> reg_inv (drop_session id x e).
Proof.
  intros [Ik Is In]. split; simpl; [done| |].
  - intros j s [Hj Hs]%lookup_delete_Some. rewrite lookup_delete_ne by done. by apply Is.
  - intros j. destruct (decide (id = j)) as [<-|Hj]; [by rewrite !lookup_delete_eq|]. rewrite !lookup_delete_ne by done. apply In.
Qed.

(** The result of an open, whatever the handler. *)
Lemma handler_open_ctx h ctx input x s x' : handler_open (F := F) h ctx input x = (Ok s, x') -> session_ctx s = ctx.
Proof.
  destruct h as [t|t|]; simpl.
  - destruct (validate_open_input t input); [by intros [= <- <-]|done].
  - destruct (validate_open_input t input); [by intros [= <- <-]|done].
  - destruct (foreign_open _ ctx input x) as [[f|] x1]; [by intros [= <- <-]|done].
Qed.

(** The tools an open may start. *)
Definition may_open (r : registry) (t : ToolName) : Prop :=
  exists m h, tools r !! t = Some (m, h) /\ (md_origin m = Host -> listed r t = true).

Lemma registry_open_spec name input c a task e r e' :
  reg_inv e -> open_session_scoped name input c a task e = (r, e') ->
  match r with
  | Ok id => exists t s x, tool_name_parse name = Ok t /\ may_open (rt_reg e) t /\ ~ drawn (rt_ids e) id /\
      cx_tool (session_ctx s) = t /\ cx_session (session_ctx s) = id /\ cx_context (session_ctx s) = c /\ cx_agent (session_ctx s) = a /\ cx_task (session_ctx s) = task /\
      sessions (rt_reg e) !! id = None /\ (forall j, drawn (rt_ids e') j <-> j = id \/ drawn (rt_ids e) j) /\
      rt_reg e' = set_sessions (<[id := s]> (sessions (rt_reg e)))
        (match cx_config_version (session_ctx s) with Some v => <[id := v]> (session_config_version (rt_reg e)) | None => session_config_version (rt_reg e) end) (rt_reg e) /\
      rt_world e' = x
  | Err _ => rt_reg e' = rt_reg e /\ (forall j, drawn (rt_ids e) j -> drawn (rt_ids e') j)
  end.
Proof.
  intros [Ik Is In]. unfold open_session_scoped. destruct (tool_name_parse name) as [t|err]; [|by intros [= <- <-]].
  pose proof (random_id_new (rt_ids e)) as Hnew. pose proof (random_id_drawn (rt_ids e)) as Hdr.
  destruct (random_id (rt_ids e)) as [id ids]. simpl in Hnew, Hdr.
  assert (Hmono : forall j, drawn (rt_ids e) j -> drawn ids j) by (intros j Hj; apply Hdr; by right).
  destruct (tools (rt_reg e) !! t) as [[m h]|] eqn:Ht; [|by intros [= <- <-]].
  destruct (bool_decide (md_origin m = Host) && negb (listed (rt_reg e) t)) eqn:Hal; [by intros [= <- <-]|].
  destruct (resolve_config (rt_reg e) m (rt_world e)) as [[config version] x]. set (ctx := mkContext id (md_name m) c a config version task).
  destruct (handler_open h ctx input x) as [[s|err] x'] eqn:Ho; [|by intros [= <- <-]].
  pose proof (handler_open_ctx _ _ _ _ _ _ Ho) as Hctx. intros [= <- <-].
  exists t, s, x'. rewrite Hctx. split_and!; try done.
  - exists m, h. split; [done|]. intros Ho'. rewrite bool_decide_eq_true_2 in Hal by done. by destruct (listed (rt_reg e) t).
  - by eapply Ik.
  - destruct (sessions (rt_reg e) !! id) as [s'|] eqn:Hs; [|done]. exfalso. by destruct (Is _ _ Hs).
Qed.

Lemma inv_open name input c a task e : reg_inv e -> reg_inv (open_session_scoped name input c a task e).2.
Proof.
  intros Hi. destruct (open_session_scoped name input c a task e) as [r e'] eqn:Ho. pose proof (registry_open_spec _ _ _ _ _ _ _ _ Hi Ho) as Hs.
  destruct Hi as [Ik Is In]. simpl. destruct r as [id|err].
  - destruct Hs as (t & s & x & _ & (m & h & Ht & _) & Hn & Hct & Hcs & _ & _ & _ & Hno & Hd & Hr & _).
    assert (Hv : forall j, j <> id -> session_config_version (rt_reg e') !! j = session_config_version (rt_reg e) !! j).
    { intros j Hj. rewrite Hr. simpl. destruct (cx_config_version _); [|done]. by rewrite lookup_insert_ne. }
    assert (Hvi : session_config_version (rt_reg e') !! id = cx_config_version (session_ctx s)).
    { rewrite Hr. simpl. destruct (cx_config_version _); [by rewrite lookup_insert_eq|]. by apply In. }
    split; rewrite Hr; simpl; [done| |]; rewrite Hr in Hv, Hvi; simpl in Hv, Hvi.
    + intros j s' [[<- <-]|[Hj Hs]]%lookup_insert_Some.
      * split_and!; [apply Hd; by left|done|rewrite Hct; by eexists|done].
      * destruct (Is _ _ Hs) as (? & ? & ? & ?). rewrite Hv by done. split_and!; [apply Hd; by right|done..].
    + intros j [Hj Hne]%lookup_insert_None. rewrite Hv by done. by apply In.
  - destruct Hs as [Hr Hm]. split; rewrite Hr; [done| |done]. intros id s Hs. destruct (Is _ _ Hs) as (? & ? & ? & ?). auto.
Qed.

Lemma inv_send id input e : reg_inv e -> reg_inv (session_send id input e).2.
Proof.
  intros Hi. unfold session_send. destruct (sessions (rt_reg e) !! id) as [s|] eqn:Hs; [|done].
  pose proof (session_send_ctx s input (rt_world e)) as Hc. destruct (session_send_op s input (rt_world e)) as [[r s'] x]. by eapply inv_put.
Qed.

Lemma inv_read id input e : reg_inv e -> reg_inv (session_read id input e).2.
Proof.
  intros Hi. unfold session_read. destruct (sessions (rt_reg e) !! id) as [s|] eqn:Hs; [|done].
  pose proof (session_read_ctx s input (rt_world e)) as Hc. destruct (session_read_op s input (rt_world e)) as [[r s'] x]. by eapply inv_put.
Qed.

Lemma inv_finish id e : reg_inv e -> reg_inv (session_finish id e).2.
Proof. intros Hi. unfold session_finish. destruct (sessions (rt_reg e) !! id) as [s|]; [destruct (session_finish_op s _)|]; by apply inv_drop. Qed.

Lemma inv_abort id reason e : reg_inv e -> reg_inv (session_abort id reason e).2.
Proof. intros Hi. unfold session_abort. destruct (sessions (rt_reg e) !! id) as [s|]; [destruct (session_abort_op s _ _)|]; by apply inv_drop. Qed.

Lemma inv_execute name args c a e : reg_inv e -> reg_inv (execute name args c a e).2.
Proof.
  intros Hi. unfold execute. destruct (tool_name_parse name) as [t|]; [|done]. destruct (tools (rt_reg e) !! t) as [[m h]|]; [|done].
  destruct (negb _); [done|]. unfold open_session. pose proof (inv_open (tool_name_display t) (JObj []) c a None e Hi) as Ho.
  destruct (open_session_scoped _ _ _ _ _ e) as [[id|err] e1]; [|done]. simpl in Ho.
  pose proof (inv_send id args e1 Ho) as Hs. destruct (session_send id args e1) as [[u|err] e2]; [|done]. simpl in Hs.
  pose proof (inv_read id JNull e2 Hs) as Hr. destruct (session_read id JNull e2) as [r e3]. simpl in Hr.
  pose proof (inv_finish id e3 Hr) as Hf. pose proof (fun f => inv_abort id (Some (f_message f)) e3 Hr) as Ha.
  destruct r as [[[o|o|o|f]|err]|]; try done.
  1-3: by destruct (session_finish id e3).
  specialize (Ha f). by destruct (session_abort id _ e3).
Qed.

Lemma rstep_inv e e' : rstep e e' -> reg_inv e -> reg_inv e'.
Proof.
  intros Hs Hi. destruct Hs as [names e|names e|e|c e|m e|m h e|b fs e|name input c a task e|id input e|id input e|id e|id reason e|name args c a e|id input e|x e].
  - apply inv_extends; [apply (extends_refl (rt_reg e))|done].
  - apply inv_extends; [|done]. unfold set_allowlist_from_strings. destruct (parse_all names); apply (extends_refl (rt_reg e)).
  - apply inv_extends; [apply (extends_refl (rt_reg e))|done].
  - apply inv_extends; [apply (extends_refl (rt_reg e))|done].
  - apply inv_extends; [apply extends_register|done].
  - apply inv_extends; [apply extends_dynamic|done].
  - apply inv_extends; [apply extends_bundle|done].
  - by apply inv_open.
  - by apply inv_send.
  - by apply inv_read.
  - by apply inv_finish.
  - by apply inv_abort.
  - by apply inv_execute.
  - unfold typed_send. pose proof (inv_send id input e Hi) as H1. destruct (session_send id input e) as [r e1]. by apply inv_abort.
  - by destruct Hi.
Qed.

(** In every run of the registry each tool is stored under its own name, each
    open session has an identifier drawn for it alone, belongs to a registered
    tool and carries the configuration version recorded for it, and no version
    is kept of a session that is closed. *)
Theorem registry_consistent ids (x : X) e : rtc rstep (mkRt registry_new ids x) e -> reg_inv e.
Proof.
  intros Hr. apply (rtc_ind_r (R := rstep) reg_inv (mkRt registry_new ids x)); [apply reg_inv_new|intros y z _ Hs; by apply rstep_inv|done].
Qed.
End Invariant.

(** ** The allowlist *)

Section Calls.
Context {X F U : Type} `{ForeignSessions X F} `{Uuids U}.
Notation rt := (rt X F U).
Implicit Types e : rt.

Lemma open_refused name t m h input c a task e :
  tool_name_parse name = Ok t -> tools (rt_reg e) !! t = Some (m, h) -> md_origin m = Host -> listed (rt_reg e) t = false ->
  open_session_scoped name input c a task e = (Err (not_declared t), mkRt (rt_reg e) (random_id (rt_ids e)).2 (rt_world e)).
Proof.
  intros Hp Ht Ho Hl. unfold open_session_scoped. rewrite Hp, Ht, Hl. destruct (random_id (rt_ids e)) as [id ids].
  by rewrite bool_decide_eq_true_2.
Qed.

(** A host tool the manifest does not declare is never started, by a session
    or by a single call, even if it was registered before the allowlist was
    set: the call fails, no session is created, and nothing of the tools' world
    is touched. *)
Theorem allowlist_enforced name t m h names e :
  tool_name_parse name = Ok t -> tools (rt_reg e) !! t = Some (m, h) -> md_origin m = Host ->
  allowlist (rt_reg e) = Some names -> t ∉ names ->
  (forall input c a task, exists ids, open_session_scoped name input c a task e = (Err (not_declared t), mkRt (rt_reg e) ids (rt_world e))) /\
  (forall args c a, exists err ids, execute name args c a e = (Some (Err err), mkRt (rt_reg e) ids (rt_world e))).
Proof.
  intros Hp Ht Ho Ha Hn. assert (Hl : listed (rt_reg e) t = false) by (unfold listed; rewrite Ha; by apply bool_decide_eq_false_2).
  split; [intros; eexists; by eapply open_refused|]. intros args c a. unfold execute. rewrite Hp, Ht.
  destruct (negb _); [destruct e; by eexists _, _|]. unfold open_session.
  rewrite (open_refused (tool_name_display t) t m h) by (try done; apply display_parses; by eapply tool_name_parse_spec). by eexists _, _.
Qed.

(** ** Single calls *)

Lemma refine_null v : refine_input v JNull = v.
Proof. by destruct v. Qed.

(** What a typed tool's own error becomes. *)
Definition call_error (tt : TypedTool X) (err : BamlRtError) : BamlRtError := ToolClassified (classify_for_session error_display (Some (tt_classify tt)) err).

(** A single call of a one-shot tool runs it exactly once, on the given
    arguments and the configuration resolved for it, answers what it answers
    (an error in its classified form), and leaves the registry as it was. *)
Theorem single_call_runs_once name t m tt args c a e cfg version x1 r x2 :
  reg_inv e -> tool_name_parse name = Ok t -> tools (rt_reg e) !! t = Some (m, OneShotTool tt) -> md_capability m = OneShot ->
  permitted (rt_reg e) m = true -> validate_open_input tt (JObj []) = Ok Datatypes.tt ->
  resolve_config (rt_reg e) m (rt_world e) = (cfg, version, x1) ->
  executor tt (mkContext (random_id (rt_ids e)).1 t c a cfg version None) args x1 = (Some r, x2) ->
  execute name args c a e =
    (Some (match r with Ok v => Ok v | Err err => Err (call_error tt err) end), mkRt (rt_reg e) (random_id (rt_ids e)).2 x2).
Proof.
  intros Hi Hp Ht Hcap Hperm Hopen Hcfg Hex. pose proof (ri_key _ Hi _ _ _ Ht) as Hname. unfold execute. rewrite Hp, Ht, Hcap. simpl.
  unfold open_session, open_session_scoped.
  rewrite display_parses by (by eapply tool_name_parse_spec). pose proof (random_id_new (rt_ids e)) as Hnew.
  destruct (random_id (rt_ids e)) as [id ids]. simpl in Hnew, Hex |- *. rewrite Ht.
  assert (Hal : bool_decide (md_origin m = Host) && negb (listed (rt_reg e) t) = false).
  { unfold permitted in Hperm. rewrite Hname in Hperm. by destruct (bool_decide _), (listed _ _). }
  rewrite Hal, Hcfg. simpl. rewrite Hopen, Hname.
  assert (Hno : sessions (rt_reg e) !! id = None).
  { destruct (sessions (rt_reg e) !! id) as [s|] eqn:Hs; [|done]. by destruct (ri_session _ Hi _ _ Hs). }
  unfold session_send. simpl. rewrite lookup_insert_eq. simpl. unfold session_read. simpl. rewrite lookup_insert_eq. simpl.
  rewrite refine_null, Hex.
  assert (Hdrop : forall s1 s2 s3 ver,
    delete id (<[id := s3]> (<[id := s2]> (<[id := s1]> (sessions (rt_reg e))))) = sessions (rt_reg e) /\
    delete id (match ver with Some v => <[id := v]> (session_config_version (rt_reg e)) | None => session_config_version (rt_reg e) end) = session_config_version (rt_reg e)).
  { intros s1 s2 s3 ver. split; [by rewrite !insert_insert_eq, delete_insert_eq, delete_id|].
    pose proof (ri_no_session _ Hi _ Hno). destruct ver; [by rewrite delete_insert_eq, delete_id|by rewrite delete_id]. }
  destruct r as [v|err]; simpl; [unfold session_finish|unfold session_abort]; simpl; rewrite lookup_insert_eq; simpl; unfold drop_session, put_session; simpl;
    do 2 f_equal; destruct (Hdrop (OneShotSession tt (mkContext id t c a cfg version None) None PhaseOpen)
      (OneShotSession tt (mkContext id t c a cfg version None) (Some args) PhaseOpen)
      (OneShotSession tt (mkContext id t c a cfg version None) None PhaseOpen) version) as [-> ->]; by destruct (rt_reg e).
Qed.

(** The typed handle's [send] closes the session it hands on. *)
Lemma typed_send_closes id input e : sessions (rt_reg (typed_send id input e).2) !! id = None.
Proof.
  unfold typed_send, dropped_abort, session_abort. destruct (session_send id input e) as [r e1]. simpl.
  destruct (sessions (rt_reg e1) !! id) as [s|]; [destruct (session_abort_op s _ _)|]; simpl; apply lookup_delete_eq.
Qed.
End Calls.

(** ** The registry behind the session handle *)

Section Env.
Context {X F U : Type} `{ForeignSessions X F} `{Uuids U} `{ToolEnv X}.
Notation rt := (rt X F U).

Definition on_world {A} (f : X -> A * X) (e : rt) : A * rt :=
  let '(a, x) := f (rt_world e) in (a, mkRt (rt_reg e) (rt_ids e) x).

(** The environment of the handle, with this registry in place of the inner
    one. *)
#[global] Instance registry_env : ToolEnv rt := {
  registry_open t i s := open_session_scoped t i (scope_context_id s) (scope_agent_id s) (scope_task_id_opt s);
  registry_send := session_send;
  registry_read := session_read;
  registry_finish := session_finish;
  registry_abort := session_abort;
  intercept_tool_call c := on_world (intercept_tool_call c);
  notify_tool_call_complete c r e := mkRt (rt_reg e) (rt_ids e) (notify_tool_call_complete c r (rt_world e));
  emit_answers := on_world emit_answers;
  allocate_anchor := on_world allocate_anchor;
  archive_result id t i o a s := on_world (archive_result id t i o a s);
  agent_package := agent_package;
  call_metadata := call_metadata;
  with_reserved_anchor := with_reserved_anchor;
  delegation_target := delegation_target;
  tool_backend := tool_backend;
  tool_digest := tool_digest;
  error_text := error_text
}.

Implicit Types h : handle rt.

(** The contexts of the registry's open sessions. *)
Definition held (e : rt) (id : ToolSessionId) : option SessionContext := session_ctx <$> sessions (rt_reg e) !! id.

Definition for_scope (sc : ToolSessionScope) (ctx : SessionContext) : Prop :=
  tool_name_parse (ss_tool sc) = Ok (cx_tool ctx) /\ cx_context ctx = scope_context_id (ss_scope sc) /\
  cx_agent ctx = scope_agent_id (ss_scope sc) /\ cx_task ctx = scope_task_id_opt (ss_scope sc).

(** What the handle and the registry know of a session. *)
Definition together (sc : option ToolSessionScope) (ctx : option SessionContext) : Prop :=
  match sc, ctx with Some sc, Some ctx => for_scope sc ctx | None, None => True | _, _ => False end.

Record agree h : Prop := {
  ag_inv : reg_inv (h_env h);
  ag_together id : together (scopes h !! id) (held (h_env h) id)
}.

(** Operations that neither open nor close sessions. *)
Definition idle : relation (handle rt) := fun h h' =>
  scopes h' = scopes h /\ (forall id, held (h_env h') id = held (h_env h) id) /\ (reg_inv (h_env h) -> reg_inv (h_env h')).

#[local] Instance idle_preorder : PreOrder idle.
Proof.
  split; [by intros h|]. intros h1 h2 h3 (S1 & H1' & I1) (S2 & H2' & I2). split_and!; [congruence| |auto]. intros id. by rewrite H2', H1'.
Qed.

Lemma idle_world x h : idle h (set_env (mkRt (rt_reg (h_env h)) (rt_ids (h_env h)) x) h).
Proof. split_and!; [done..|]. intros [Ik Is In]. by split. Qed.

Lemma held_put id s s' x e j : sessions (rt_reg e) !! id = Some s -> session_ctx s' = session_ctx s -> held (put_session id s' x e) j = held e j.
Proof.
  intros Hs Hc. unfold held. simpl. destruct (decide (id = j)) as [<-|Hj]; [rewrite lookup_insert_eq, Hs; simpl; by rewrite Hc|by rewrite lookup_insert_ne].
Qed.

Lemma idle_on_world {A} (f : X -> A * X) h : idle h (set_env (on_world f (h_env h)).2 h).
Proof. unfold on_world. destruct (f _) as [a x]. apply idle_world. Qed.

Lemma idle_quiet : quiet idle.
Proof.
  split; intros; cbn [registry_send registry_read intercept_tool_call notify_tool_call_complete emit_answers allocate_anchor registry_env];
    try apply idle_on_world; try apply idle_world.
  - rename H2 into He, H3 into Hs. split_and!; [done|by rewrite He|by rewrite He].
  - split_and!; [done| |apply inv_send]. intros j. unfold session_send. simpl. destruct (sessions (rt_reg (h_env h)) !! id) as [s|] eqn:Hs; [|done].
    pose proof (session_send_ctx s i (rt_world (h_env h))) as Hc. destruct (session_send_op s i _) as [[r s'] x]. by apply (held_put id s).
  - split_and!; [done| |apply inv_read]. intros j. unfold session_read. simpl. destruct (sessions (rt_reg (h_env h)) !! id) as [s|] eqn:Hs; [|done].
    pose proof (session_read_ctx s i (rt_world (h_env h))) as Hc. destruct (session_read_op s i _) as [[r s'] x]. by apply (held_put id s).
Qed.

Lemma agree_idle h h' : agree h -> idle h h' -> agree h'.
Proof. intros [Hi Ht] (Hs & Hh & Hi'). split; [auto|]. intros id. rewrite Hs, Hh. apply Ht. Qed.

(** Closing a session on both sides. *)
Lemma agree_close id (f : rt -> result unit BamlRtError * rt) o c k h :
  (forall e, exists x, (f e).2 = drop_session id x e) -> (forall e, reg_inv e -> reg_inv (f e).2) ->
  agree h -> agree (complete_session_lifecycle id o c (call k f h).2).2.
Proof.
  intros Hf Hinv [Hi Ht]. unfold call, env_op. simpl. destruct (Hf (h_env h)) as [x Hx]. specialize (Hinv _ Hi).
  destruct (f (h_env h)) as [r e']. simpl in Hx, Hinv |- *. subst e'. set (h0 := set_env _ _).
  destruct (lifecycle_keeps idle idle_quiet id o c h0) as (h1 & (S1 & H1' & I1) & ->). split; [by apply I1|].
  intros j. cbn [set_scopes scopes h_env]. rewrite H1', S1. unfold h0, held. simpl.
  destruct (decide (id = j)) as [<-|Hj]; [by rewrite !lookup_delete_eq|]. rewrite !lookup_delete_ne by done. apply Ht.
Qed.

Lemma agree_finish id h : agree h -> agree (tool_session_finish id h).2.
Proof.
  intros Ha. unfold tool_session_finish, bindM, get, ret. destruct (scopes h !! id); [|done].
  pose proof (fun o c => agree_close id (session_finish id) o c (CallFinish id) h) as Hc. cbn [registry_finish registry_env].
  destruct (call _ _ h) as [r h1]. simpl in Hc. match goal with |- context [complete_session_lifecycle id ?o ?c h1] => specialize (Hc o c); destruct (complete_session_lifecycle id o c h1) end.
  apply Hc; [|apply inv_finish|done]. intros e. unfold session_finish. destruct (sessions _ !! id) as [s|]; [destruct (session_finish_op s _)|]; by eexists.
Qed.

Lemma agree_abort id reason h : agree h -> agree (tool_session_abort id reason h).2.
Proof.
  intros Ha. unfold tool_session_abort, bindM, get, ret. destruct (scopes h !! id); [|done].
  pose proof (fun o c => agree_close id (session_abort id reason) o c (CallAbort id) h) as Hc. cbn [registry_abort registry_env].
  destruct (call _ _ h) as [r h1]. simpl in Hc. match goal with |- context [complete_session_lifecycle id ?o ?c h1] => specialize (Hc o c); destruct (complete_session_lifecycle id o c h1) end.
  apply Hc; [|intros e; apply inv_abort|done]. intros e. unfold session_abort. destruct (sessions _ !! id) as [s|]; [destruct (session_abort_op s _ _)|]; by eexists.
Qed.

Lemma agree_poll id input ps fuel : forall h, agree h -> agree (poll_until_done fuel id input ps h).2.
Proof.
  induction fuel as [|fuel IH]; intros h Ha; cbn [poll_until_done]; [done|]. unfold bindM at 1.
  pose proof (keeps_read idle idle_quiet id (JObj []) h) as Hr. destruct (tool_session_read id (JObj []) h) as [res h1]. simpl in Hr.
  pose proof (agree_idle _ _ Ha Hr) as Ha1.
  assert (Hchunk : forall c, agree (bindM (emit_stream_chunk c) (fun _ => poll_until_done fuel id input ps) h1).2).
  { intros c. unfold bindM. pose proof (keeps_chunk idle idle_quiet c h1) as Hc. destruct (emit_stream_chunk c h1) as [u h2].
    apply IH. by eapply agree_idle. }
  destruct res as [[[v|v|output|f]|e]|]; [by apply Hchunk|by apply Hchunk| | |done|done].
  - match goal with |- agree (?m h1).2 => assert (Hk : keeps idle m) end.
    { pose proof idle_quiet as Hq. keeps_go. apply idle_on_world. }
    by eapply agree_idle.
  - unfold bindM, ret. pose proof (agree_abort id (Some (f_message f)) h1 Ha1) as Hb. by destruct (tool_session_abort id _ h1).
Qed.

Lemma agree_send_blocking fuel id input ps h : agree h -> agree (tool_session_send_blocking fuel id input ps h).2.
Proof.
  intros Ha. unfold tool_session_send_blocking. unfold bindM at 1. pose proof (keeps_send idle idle_quiet id input h) as Hs.
  destruct (tool_session_send id input h) as [[u|e] h1]; simpl in Hs; pose proof (agree_idle _ _ Ha Hs) as Ha1; [|done].
  unfold bindM, drop_session_token, modify. apply agree_poll. by apply (agree_idle h1).
Qed.

Lemma agree_finish_all ids : forall h, agree h -> agree (finish_all ids h).2.
Proof.
  induction ids as [|id ids IH]; intros h Ha; cbn [finish_all]; [done|]. unfold bindM.
  pose proof (agree_finish id h Ha) as Hf. destruct (tool_session_finish id h). by apply IH.
Qed.

(** An opened session is new to the handle and known to both afterwards. *)
Lemma agree_open scope tool input h r h' :
  agree h -> open_tool_session scope tool input h = (r, h') -> agree h' /\ (forall id, r = Ok id -> scopes h !! id = None).
Proof.
  intros Ha. unfold open_tool_session. set (ctx := call_context _ _ _ _ _). unfold bindM at 1.
  pose proof (keeps_intercept idle idle_quiet ctx h) as Hi. destruct (intercept ctx h) as [[u|err] h1]; simpl in Hi; pose proof (agree_idle _ _ Ha Hi) as [Hinv Ht].
  2: { intros [= <- <-]. split; [by split|done]. }
  unfold bindM at 1, call, env_op. cbn [registry_open registry_env]. simpl.
  destruct (open_session_scoped tool input _ _ _ (h_env h1)) as [r0 e2] eqn:Ho. pose proof (inv_open tool input (scope_context_id scope) (scope_agent_id scope) (scope_task_id_opt scope) _ Hinv) as Hinv2.
  rewrite Ho in Hinv2. simpl in Hinv2. pose proof (registry_open_spec _ _ _ _ _ _ _ _ Hinv Ho) as Hs. destruct Hi as (Esc & Eh & _).
  destruct r0 as [id|err].
  - destruct Hs as (t & s & x & Hp & _ & _ & Ect & _ & Ecx & Eca & Eck & Hno & _ & Hr & _).
    assert (Hnew : scopes h !! id = None).
    { specialize (Ht id). unfold held in Ht. rewrite Hno, Esc in Ht. by destruct (scopes h !! id). }
    unfold bindM, ret, env_op, modify. simpl. intros [= <- <-]. split; [|by intros ? [= <-]]. split.
    + simpl. destruct Hinv2. by split.
    + intros j. unfold held. simpl. rewrite Hr. simpl. destruct (decide (id = j)) as [<-|Hj].
      * rewrite !lookup_insert_eq. simpl. split_and!; [by rewrite Ect|done..].
      * rewrite !lookup_insert_ne by done. apply Ht.
  - destruct Hs as [Hr _]. unfold bindM at 1. match goal with |- context [emit_failed_effect ?c ?m ?h0] => pose proof (keeps_failed idle idle_quiet c m h0) as Hf; destruct (emit_failed_effect c m h0) as [u2 h3] end.
    unfold bindM, ret, env_op. simpl. intros [= <- <-]. split; [|done]. apply (agree_idle h3); [|apply (q_notify idle idle_quiet)].
    eapply agree_idle; [|exact Hf]. split; [done|]. intros j. unfold held. simpl. rewrite Hr. apply Ht.
Qed.

Lemma hstep_agree h h' : hstep h h' -> agree h -> agree h'.
Proof.
  intros Hs Ha. destruct Hs as [scope tool input h r h' Hop Hf|id input h|id input h|id h|id reason h|fuel id input ps h|order c task h].
  - by eapply agree_open.
  - by eapply agree_idle; [|apply (keeps_send idle idle_quiet)].
  - by eapply agree_idle; [|apply (keeps_read idle idle_quiet)].
  - by apply agree_finish.
  - by apply agree_abort.
  - by apply agree_send_blocking.
  - by apply agree_finish_all.
Qed.

(** C28: The sessions the handle has open are the sessions the registry holds, in
    every run: neither side keeps a session the other has closed, a session
    runs the tool and carries the context, agent and task of the scope it was
    opened in, and the next session to be opened is new to both. *)
Theorem handle_and_registry_agree e emitter h :
  reg_inv e -> sessions (rt_reg e) = ∅ -> rtc hstep (fresh_handle e emitter) h ->
  (forall id, is_Some (scopes h !! id) <-> is_Some (sessions (rt_reg (h_env h)) !! id)) /\
  (forall id sc s, scopes h !! id = Some sc -> sessions (rt_reg (h_env h)) !! id = Some s -> for_scope sc (session_ctx s)) /\
  (forall scope tool input id h', open_tool_session scope tool input h = (Ok id, h') -> scopes h !! id = None).
Proof.
  intros Hi He Hr. assert (Ha : agree h).
  { apply (rtc_ind_r (R := hstep) agree (fresh_handle e emitter)); [|intros y z _ Hs; by apply hstep_agree|done].
    split; [done|]. intros id. unfold held. simpl. by rewrite He, !lookup_empty. }
  destruct Ha as [Hinv Ht]. split_and!.
  - intros id. specialize (Ht id). unfold held, together in Ht.
    destruct (scopes h !! id), (sessions (rt_reg (h_env h)) !! id); simpl in Ht; try done; split; by intros [].
  - intros id sc s Hsc Hs. specialize (Ht id). unfold held in Ht. by rewrite Hsc, Hs in Ht.
  - intros scope tool input id h' Ho. by eapply agree_open; [..|done].
Qed.
End Env.

(** ** Examples and witnesses *)

#[local] Existing Instance script_env.

#[global] Program Instance nat_uuids : Uuids nat := {
  random_id n := ("s" +:+ show_nat n, S n);
  drawn n id := exists k, (k < n)%nat /\ id = "s" +:+ show_nat k
}.
Next Obligation. intros u (k & Hk & He). rewrite !str_app_cons, !str_app_nil_l in He. injection He as He. apply show_nat_inj in He. lia. Qed.
Next Obligation.
  intros u id. split.
  - intros (k & Hk & ->). destruct (decide (k = u)) as [->|Hne]; [by left|]. right. exists k. split; [simpl in Hk; lia|done].
  - intros [->|(k & Hk & ->)]; [exists u; simpl; split; [lia|done]|exists k; simpl; split; [lia|done]].
Qed.

#[global] Instance no_foreign_sessions : ForeignSessions script unit := {
  foreign_open _ _ _ x := (Err (ToolExecution "not available"), x);
  foreign_send f _ x := (Ok tt, f, x);
  foreign_read f _ x := (None, f, x);
  foreign_finish _ x := (Ok tt, x);
  foreign_abort _ _ x := (Ok tt, x);
  error_display _ := "error"
}.

(** A tool that wants a field [left] and echoes it. *)
Definition echo_left : TypedTool script :=
  mkTyped script json json (fun v => match v with JObj [] => Ok tt | _ => Err "expected unit" end)
    (fun v => match jget "left" v with Some l => Ok l | None => Err "missing field left" end)
    (fun _ l x => (Some (match l with JNull => Err (InvalidArgument "left is null") | _ => Ok l end), (S x.1, x.2)))
    Ok (fun _ => mkClassified "bad_left" LlmCorrectable "left must not be null" None None).

Definition calc : ToolName := mkToolName "support" "calculate".
Definition calc_metadata : ToolFunctionMetadata := demo_tool "support" "calculate" "SupportCalculate" ["left"].
Definition boot (h : Handler script) : rt script unit nat := mkRt (register_dynamic calc_metadata h registry_new).2 0%nat (0%nat, []).

Lemma boot_reachable h : rtc rstep (mkRt registry_new 0%nat (0%nat, [])) (boot h).
Proof. apply rtc_once. apply (rs_dynamic calc_metadata h (mkRt registry_new 0%nat (0%nat, []))). Qed.

(** A session was opened. *)
Definition calc_open : rt script unit nat := (open_session_scoped "support/calculate" (JObj []) "c" "agent" (Some "t") (boot (OneShotTool echo_left))).2.

Lemma registry_consistent_witness :
  is_Some (sessions (rt_reg calc_open) !! "s0") /\ reg_inv calc_open.
Proof.
  split; [vm_compute; by eexists|]. apply (registry_consistent 0%nat (0%nat, [])).
  eapply rtc_r; [apply (boot_reachable (OneShotTool echo_left))|apply rs_open].
Defined.

Lemma allowlist_enforced_witness :
  let e := with_reg (set_allowlist {[mkToolName "support" "notify"]} (rt_reg (boot (OneShotTool echo_left)))) (boot (OneShotTool echo_left)) in
  exists ids, open_session_scoped "support/calculate" (JObj []) "c" "agent" None e = (Err (not_declared calc), mkRt (rt_reg e) ids (rt_world e)).
Proof.
  intros e. apply (allowlist_enforced "support/calculate" calc calc_metadata (OneShotTool echo_left) {[mkToolName "support" "notify"]} e).
  - reflexivity.
  - reflexivity.
  - reflexivity.
  - reflexivity.
  - intros Hin%elem_of_singleton. discriminate.
Defined.

Lemma single_call_runs_once_witness :
  execute "support/calculate" (JObj [("left", JNull)]) "c" "agent" (boot (OneShotTool echo_left)) =
    (Some (Err (ToolClassified (mkClassified "bad_left" LlmCorrectable "left must not be null" None None))), mkRt (rt_reg (boot (OneShotTool echo_left))) 1%nat (1%nat, [])).
Proof.
  etransitivity; [apply (single_call_runs_once "support/calculate" calc calc_metadata echo_left (JObj [("left", JNull)]) "c" "agent" (boot (OneShotTool echo_left)) None None (0%nat, [])
    (Err (InvalidArgument "left is null")) (1%nat, []))|reflexivity].
  - apply (rstep_inv (mkRt registry_new 0%nat (0%nat, []))); [apply (rs_dynamic calc_metadata (OneShotTool echo_left) (mkRt registry_new 0%nat (0%nat, [])))|apply reg_inv_new].
  - reflexivity.
  - reflexivity.
  - reflexivity.
  - reflexivity.
  - reflexivity.
  - reflexivity.
  - reflexivity.
Defined.

Definition calc_handle (h : Handler script) : handle (rt script unit nat) :=
  (open_tool_session demo_scope "support/calculate" (JObj []) (fresh_handle (boot h) true)).2.

Lemma handle_and_registry_agree_witness :
  is_Some (scopes (calc_handle (OneShotTool echo_left)) !! "s0") /\ is_Some (sessions (rt_reg (h_env (calc_handle (OneShotTool echo_left)))) !! "s0").
Proof.
  assert (Hs : is_Some (scopes (calc_handle (OneShotTool echo_left)) !! "s0")) by (vm_compute; by eexists).
  split; [exact Hs|].
  apply (handle_and_registry_agree (boot (OneShotTool echo_left)) true (calc_handle (OneShotTool echo_left))); [| | |exact Hs].
  - apply (rstep_inv (mkRt registry_new 0%nat (0%nat, []))); [apply (rs_dynamic calc_metadata (OneShotTool echo_left) (mkRt registry_new 0%nat (0%nat, [])))|apply reg_inv_new].
  - reflexivity.
  - apply rtc_once. unfold calc_handle.
    destruct (open_tool_session demo_scope "support/calculate" (JObj []) (fresh_handle (boot (OneShotTool echo_left)) true)) as [r h'] eqn:Ho.
    eapply hs_open; [exact Ho|]. intros id _. apply lookup_empty.
Defined.

(** A single call of a failing multi-send tool leaves its session open: the
    failure comes back as an error of the read, which returns early. *)
Lemma failing_call_leaks_session :
  let e := (execute "support/calculate" (JObj [("left", JNull)]) "c" "agent" (boot (MultiSendTool echo_left))).2 in
  is_Some (sessions (rt_reg e) !! "s0").
Proof. vm_compute. by eexists. Qed.

(** The same failure is an answer from a one-shot tool and a hard error from a
    multi-send tool. *)
Lemma multi_send_failure_is_error :
  (exists f, (tool_session_send_blocking 5 "s0" (JObj [("left", JNull)]) demo_scope (calc_handle (OneShotTool echo_left))).1 = Some (Ok (ToolFailed f))) /\
  (exists err, (tool_session_send_blocking 5 "s0" (JObj [("left", JNull)]) demo_scope (calc_handle (MultiSendTool echo_left))).1 = Some (Err err)).
Proof. split; eexists; vm_compute; reflexivity. Qed.

(** A bundle that fails half-way leaves its first tools registered. *)
Lemma bundle_registers_partially :
  let stray := demo_tool "crm" "lookup" "CrmLookup" [] in
  let '(r, reg) := register_bundle "support" [(calc_metadata, OneShotTool echo_left); (stray, OneShotTool echo_left)] (registry_new (F := unit)) in
  is_ok r = false /\ is_Some (tools reg !! calc) /\ bundles reg = ∅.
Proof. vm_compute. split_and!; [reflexivity|by eexists|reflexivity]. Qed.
