(* ===== verification/ActionIdentity.v ===== *)
(** * Action identities of archive headers

    The compact [Send(field="value" ..)] text by which a prompt tells archived
    results apart ([baml-rt-tools/src/tools.rs]): which fields appear, how values
    are shortened and secrets redacted, and how the whole is cut to length. *)

From stdpp Require Import base list strings.
From Stdlib Require Import ZArith Lia.
From S2P Require Import Prelude RustStr Json StepExecutor.

Open Scope string_scope.
Open Scope list_scope.

Definition ARCHIVE_ACTION_MAX_VALUE_CHARS : nat := 32.
Definition ARCHIVE_ACTION_MAX_TOTAL_CHARS : nat := 96.
Definition ARCHIVE_ACTION_MAX_IDENTITY_FIELDS : nat := 3.

(** The comparisons ignore ASCII case. *)
Definition is_sensitive_archive_field (name : string) : bool :=
  let n := to_lowercase name in
  existsb (String.eqb n) ["authorization"; "password"; "secret"; "api_key"; "apikey"; "token"] ||
  ends_with "_key" n || ends_with "_token" n || contains_str "secret" n.

Definition truncate_archive_string (s : string) (max : nat) : string :=
  if (chars_count s <=? max)%nat then s else take_chars max s +:+ "…".

Definition show_number (n : number) : string := match n with NInt z => show_Z z | NFloat repr => repr end.
Definition show_bool (b : bool) : string := if b then "true" else "false".

(** How a value is shown; [None] for those that are left out. *)
Definition shown_value (v : json) : option string :=
  match v with
  | JNull => None
  | JStr s => if is_empty_str s then None else Some (debug_str (truncate_archive_string s ARCHIVE_ACTION_MAX_VALUE_CHARS))
  | JNum n => Some (show_number n)
  | JBool b => Some (show_bool b)
  | JArr a => Some ("[" +:+ show_nat (length a) +:+ " items]")
  | JObj _ => Some "{...}"
  end.

Definition archive_value_to_token (f : string) (v : json) : option string :=
  if is_null v then None
  else if is_sensitive_archive_field f then Some (f +:+ "=<redacted>")
  else (fun t => f +:+ "=" +:+ t) <$> shown_value v.

Definition schema_default_for (schema : option json) (f : string) : option json :=
  s ← schema; p ← jget "properties" s; d ← jget f p; jget "default" d.

(** The token a field adds to the list. *)
Definition field_token (input : list (string * json)) (schema : option json) (f : string) : option string :=
  v ← field f input;
  if (match schema_default_for schema f with Some d => json_eqb d v | None => false end) then None
  else archive_value_to_token f v.

Definition push_archive_field_token (tokens : list string) (input : list (string * json)) (schema : option json) (f : string) : list string :=
  tokens ++ option_list (field_token input schema f).

Definition schema_property_order (schema : option json) : list string :=
  match (s ← schema; p ← jget "properties" s; as_object p) with Some props => props.*1 | None => [] end.

(** The field of a branch whose constant the input has. *)
Fixpoint discriminator (input props : list (string * json)) : option (string * string) :=
  match props with
  | [] => None
  | (name, spec) :: rest =>
      match (c ← jget "const" spec; as_str c) with
      | Some c => if bool_decide ((v ← field name input; as_str v) = Some c) then Some (name, c) else discriminator input rest
      | None => discriminator input rest
      end
  end.

Definition required_fields (branch : json) : list string :=
  match (r ← jget "required" branch; as_array r) with Some l => omap as_str l | None => [] end.

Definition branch_tokens (input : list (string * json)) (branch : json) (disc action : string) : list string :=
  let tokens := foldl (fun ts f => if String.eqb f disc then ts else push_archive_field_token ts input (Some branch) f) [action] (required_fields branch) in
  foldl (fun ts f =>
    if negb (String.eqb f disc) && negb (existsb (starts_with (f +:+ "=")) ts)
    then push_archive_field_token ts input (Some branch) f else ts) tokens (schema_property_order (Some branch)).

Fixpoint first_branch (input : list (string * json)) (branches : list json) : option (list string) :=
  match branches with
  | [] => None
  | b :: rest =>
      match (p ← jget "properties" b; as_object p) with
      | None => first_branch input rest
      | Some props =>
          match discriminator input props with
          | Some (disc, action) => Some (branch_tokens input b disc action)
          | None => first_branch input rest
          end
      end
  end.

Definition tagged_one_of_archive_tokens (input : list (string * json)) (schema : option json) : option (list string) :=
  s ← schema; o ← jget "oneOf" s; branches ← as_array o; first_branch input branches.

(** [op(tokens)], cut to the total length. *)
Definition wrap_identity (op : string) (tokens : list string) : string :=
  match tokens with
  | [] => op
  | _ =>
      let budget := (ARCHIVE_ACTION_MAX_TOTAL_CHARS - (chars_count op + 2))%nat in
      let inner := join " " tokens in
      if (chars_count inner <=? budget)%nat then op +:+ "(" +:+ inner +:+ ")"
      else op +:+ "(" +:+ truncate_archive_string inner (budget - 1) +:+ ")"
  end.

(** The loop over the given fields, with the number rendered so far. *)
Fixpoint part_tokens (rendered : nat) (fields : list (string * json)) : list string :=
  match fields with
  | [] => []
  | (f, v) :: rest =>
      match archive_value_to_token f v with
      | None => part_tokens rendered rest
      | Some token =>
          if (ARCHIVE_ACTION_MAX_IDENTITY_FIELDS <=? rendered)%nat then ["…"]
          else token :: part_tokens (S rendered) rest
      end
  end.

Definition project_archive_action_identity_from_parts (op : string) (action_name : option string) (fields : list (string * json)) : string :=
  wrap_identity op (option_list (opt_filter (fun n => negb (is_empty_str n)) action_name) ++ part_tokens 0 fields).

(** The fields of the schema, then those only the input has. *)
Definition identity_fields (schema : option json) (input : list (string * json)) : list string :=
  foldl (fun fs k => if existsb (String.eqb k) fs then fs else fs ++ [k]) (schema_property_order schema) (input.*1).

Definition identity_tokens (input : json) (schema : option json) : list string :=
  match input with
  | JObj obj =>
      match tagged_one_of_archive_tokens obj schema with
      | Some tagged => tagged
      | None => foldl (fun ts f => push_archive_field_token ts obj schema f) [] (identity_fields schema obj)
      end
  | JNull => []
  | JStr s => ["value=" +:+ debug_str (truncate_archive_string s ARCHIVE_ACTION_MAX_VALUE_CHARS)]
  | JNum n => ["value=" +:+ show_number n]
  | JBool b => ["value=" +:+ show_bool b]
  | JArr a => ["value=[" +:+ show_nat (length a) +:+ " items]"]
  end.

Definition project_archive_action_identity (op : string) (input : json) (schema : option json) : string :=
  wrap_identity op (identity_tokens input schema).

(** ** Length *)

Lemma truncate_count s max : (chars_count (truncate_archive_string s max) <= S max)%nat.
Proof.
  unfold truncate_archive_string. destruct (Nat.leb_spec (chars_count s) max); [lia|].
  rewrite chars_count_app. pose proof (take_chars_count max s). simpl. lia.
Qed.

Lemma wrap_identity_spec op tokens :
  (chars_count op + 3 <= ARCHIVE_ACTION_MAX_TOTAL_CHARS)%nat ->
  (chars_count (wrap_identity op tokens) <= ARCHIVE_ACTION_MAX_TOTAL_CHARS)%nat /\
  (wrap_identity op tokens = op \/ exists inner, wrap_identity op tokens = op +:+ "(" +:+ inner +:+ ")").
Proof.
  intros Hop. unfold wrap_identity. destruct tokens as [|t ts]; [split; [lia|by left]|]. set (inner := join " " (t :: ts)).
  assert (Hlen : forall x, (chars_count x <= ARCHIVE_ACTION_MAX_TOTAL_CHARS - (chars_count op + 2))%nat ->
    (chars_count (op +:+ "(" +:+ x +:+ ")") <= ARCHIVE_ACTION_MAX_TOTAL_CHARS)%nat).
  { intros x Hx. rewrite !chars_count_app. change (chars_count "(") with 1%nat. change (chars_count ")") with 1%nat. lia. }
  destruct (Nat.leb_spec (chars_count inner) (ARCHIVE_ACTION_MAX_TOTAL_CHARS - (chars_count op + 2))); (split; [apply Hlen|right; eauto]); [done|].
  pose proof (truncate_count inner (ARCHIVE_ACTION_MAX_TOTAL_CHARS - (chars_count op + 2) - 1)). lia.
Qed.

(** The loop in one piece: the first fields with something to show, and a mark
    when there are more. *)
Definition shown_fields (fields : list (string * json)) : list string :=
  omap (fun '(f, v) => archive_value_to_token f v) fields.

Lemma part_tokens_spec n fields : (n <= ARCHIVE_ACTION_MAX_IDENTITY_FIELDS)%nat ->
  part_tokens n fields =
  take (ARCHIVE_ACTION_MAX_IDENTITY_FIELDS - n) (shown_fields fields) ++
  (if (ARCHIVE_ACTION_MAX_IDENTITY_FIELDS - n <? length (shown_fields fields))%nat then ["…"] else []).
Proof.
  revert n. induction fields as [|[f v] fields IH]; intros n Hn; cbn [part_tokens shown_fields omap list_omap].
  { rewrite take_nil. simpl. by destruct (ARCHIVE_ACTION_MAX_IDENTITY_FIELDS - n)%nat. }
  destruct (archive_value_to_token f v) as [t|]; [|by apply IH].
  destruct (Nat.leb_spec ARCHIVE_ACTION_MAX_IDENTITY_FIELDS n) as [Hge|Hlt].
  { replace (ARCHIVE_ACTION_MAX_IDENTITY_FIELDS - n)%nat with 0%nat by lia. done. }
  rewrite (IH (S n)) by lia. replace (ARCHIVE_ACTION_MAX_IDENTITY_FIELDS - n)%nat with (S (ARCHIVE_ACTION_MAX_IDENTITY_FIELDS - S n)) by lia.
  done.
Qed.

(** C39: For an operation name of at most 93 characters, an action identity never
    exceeds 96 characters, however large the input: it is the operation alone or
    the operation with its text in parentheses.  The text of chosen parts is made
    of the action's name, if it has one, and the first three fields that have
    something to show, with the mark for those left out exactly when there are
    more than three; it is shortened when it is too long. *)
Theorem identity_bounded op :
  (chars_count op + 3 <= ARCHIVE_ACTION_MAX_TOTAL_CHARS)%nat ->
  (forall input schema, let s := project_archive_action_identity op input schema in
    (chars_count s <= ARCHIVE_ACTION_MAX_TOTAL_CHARS)%nat /\ (s = op \/ exists inner, s = op +:+ "(" +:+ inner +:+ ")")) /\
  (forall action fields, let s := project_archive_action_identity_from_parts op action fields in
    (chars_count s <= ARCHIVE_ACTION_MAX_TOTAL_CHARS)%nat /\ (s = op \/ exists inner, s = op +:+ "(" +:+ inner +:+ ")") /\
    s = wrap_identity op
          (option_list (opt_filter (fun n => negb (is_empty_str n)) action) ++ take 3 (shown_fields fields) ++
           (if (3 <? length (shown_fields fields))%nat then ["…"] else []))).
Proof.
  intros Hop. split; intros.
  - by apply wrap_identity_spec.
  - destruct (wrap_identity_spec op (option_list (opt_filter (fun n => negb (is_empty_str n)) action) ++ part_tokens 0 fields) Hop).
    split_and!; [done..|]. unfold s, project_archive_action_identity_from_parts.
    by rewrite part_tokens_spec by (unfold ARCHIVE_ACTION_MAX_IDENTITY_FIELDS; lia).
Qed.

Lemma identity_bounded_witness :
  (chars_count (project_archive_action_identity "Send" (JObj [("query", JStr (str_repeat "long " 40)); ("page", JNum (NInt 3))]) None) <= 96)%nat /\
  project_archive_action_identity_from_parts "Send" None
    [("a", JNum (NInt 1)); ("b", JNum (NInt 2)); ("c", JNull); ("d", JNum (NInt 4)); ("e", JNum (NInt 5))] = "Send(a=1 b=2 d=4 …)".
Proof.
  destruct (identity_bounded "Send") as [H1 H2]; [vm_compute; lia|]. split; [apply H1|].
  destruct (H2 None [("a", JNum (NInt 1)); ("b", JNum (NInt 2)); ("c", JNull); ("d", JNum (NInt 4)); ("e", JNum (NInt 5))]) as (_ & _ & ->).
  reflexivity.
Defined.

(** ** Secrets *)

(** The schemas whose defaults a call's fields are compared with: the schema and
    its alternatives. *)
Definition one_of (schema : option json) : list json :=
  default [] (s ← schema; o ← jget "oneOf" s; as_array o).
Definition alternatives (schema : option json) : list (option json) := schema :: (Some <$> one_of schema).

(** No alternative is chosen by the value of a sensitive field. *)
Definition plain_tags (schema : option json) : Prop :=
  forall branch props name spec c, branch ∈ one_of schema -> (p ← jget "properties" branch; as_object p) = Some props ->
    (name, spec) ∈ props -> (k ← jget "const" spec; as_str k) = Some c -> is_sensitive_archive_field name = false.

(** The inputs differ in secrets only: at sensitive fields both have a value,
    and not the default of any of [schemas]. *)
Definition differ_in_secrets (schemas : list (option json)) (p q : string * json) : Prop :=
  p.1 = q.1 /\
  (p.2 = q.2 \/
   is_sensitive_archive_field p.1 = true /\ is_null p.2 = false /\ is_null q.2 = false /\
   forall schema d, schema ∈ schemas -> schema_default_for schema p.1 = Some d -> json_eqb d p.2 = false /\ json_eqb d q.2 = false).

Lemma secret_token schemas schema fs gs f :
  Forall2 (differ_in_secrets schemas) fs gs -> schema ∈ schemas -> field_token fs schema f = field_token gs schema f.
Proof.
  intros Hf Hin. unfold field_token. induction Hf as [|[k v] [k' w] fs gs [Hk Hv] _ IH]; [done|]. simpl in Hk, Hv. subst k'. cbn [field].
  destruct (String.eqb_spec f k) as [->|_]; [|done]. destruct Hv as [->|(Hs & Hnv & Hnw & Hd)]; [done|]. simpl.
  unfold archive_value_to_token. rewrite Hs, Hnv, Hnw. destruct (schema_default_for schema k) as [d|] eqn:Ed; [|done].
  by destruct (Hd schema d Hin Ed) as [-> ->].
Qed.

Lemma secret_keys schemas fs gs : Forall2 (differ_in_secrets schemas) fs gs -> fs.*1 = gs.*1.
Proof. induction 1 as [|[k v] [k' w] fs gs [Hk _] _ IH]; [done|]. rewrite !fmap_cons, IH. simpl in *. by rewrite Hk. Qed.

Lemma plain_field schemas fs gs f :
  Forall2 (differ_in_secrets schemas) fs gs -> is_sensitive_archive_field f = false -> field f fs = field f gs.
Proof.
  intros Hf Hs. induction Hf as [|[k v] [k' w] fs gs [Hk Hv] _ IH]; [done|]. simpl in Hk, Hv. subst k'. cbn [field].
  destruct (String.eqb_spec f k) as [->|_]; [|done]. destruct Hv as [->|(Hs' & _)]; [done|congruence].
Qed.

Lemma foldl_push_ext (fs gs : list (string * json)) schema l : (forall f, field_token fs schema f = field_token gs schema f) ->
  forall ts, foldl (fun ts f => push_archive_field_token ts fs schema f) ts l = foldl (fun ts f => push_archive_field_token ts gs schema f) ts l.
Proof. intros Ht. induction l as [|f l IH]; intros ts; [done|]. simpl. unfold push_archive_field_token at 2 4. by rewrite Ht, IH. Qed.

(** The tokens of an alternative do not depend on the secrets. *)
Lemma branch_tokens_ext fs gs branch disc action :
  (forall f, field_token fs (Some branch) f = field_token gs (Some branch) f) ->
  branch_tokens fs branch disc action = branch_tokens gs branch disc action.
Proof.
  intros Ht. unfold branch_tokens, push_archive_field_token.
  assert (Hl : forall (c : list string -> string -> bool) l ts,
    foldl (fun ts f => if c ts f then ts ++ option_list (field_token fs (Some branch) f) else ts) ts l =
    foldl (fun ts f => if c ts f then ts ++ option_list (field_token gs (Some branch) f) else ts) ts l).
  { intros c l. induction l as [|f l IH]; intros ts; [done|]. simpl. by rewrite Ht, IH. }
  assert (Hr : forall l ts,
    foldl (fun ts f => if String.eqb f disc then ts else ts ++ option_list (field_token fs (Some branch) f)) ts l =
    foldl (fun ts f => if String.eqb f disc then ts else ts ++ option_list (field_token gs (Some branch) f)) ts l).
  { induction l as [|f l IH]; intros ts; [done|]. simpl. by rewrite Ht, IH. }
  by rewrite Hr, (Hl (fun ts f => negb (String.eqb f disc) && negb (existsb (starts_with (f +:+ "=")) ts))).
Qed.

Lemma discriminator_ext schemas fs gs props :
  Forall2 (differ_in_secrets schemas) fs gs ->
  (forall name spec c, (name, spec) ∈ props -> (k ← jget "const" spec; as_str k) = Some c -> is_sensitive_archive_field name = false) ->
  discriminator fs props = discriminator gs props.
Proof.
  intros Hf. induction props as [|[name spec] props IH]; intros Hp; [done|]. cbn [discriminator].
  assert (IH' : discriminator fs props = discriminator gs props) by (apply IH; intros n s c Hn; apply (Hp n s c); by right).
  destruct (k ← jget "const" spec; as_str k) as [c|] eqn:Ec; [|done].
  rewrite (plain_field _ _ _ name Hf), IH' by (apply (Hp name spec c); [by left|done]). done.
Qed.

Lemma tagged_ext schema fs gs :
  plain_tags schema -> Forall2 (differ_in_secrets (alternatives schema)) fs gs ->
  tagged_one_of_archive_tokens fs schema = tagged_one_of_archive_tokens gs schema.
Proof.
  intros Hp Hf. unfold tagged_one_of_archive_tokens, plain_tags, alternatives, one_of in *.
  destruct schema as [s|]; [|done]. simpl in *. destruct (jget "oneOf" s) as [o|]; [|done]. simpl in *.
  destruct (as_array o) as [branches|]; [|done]. simpl in *.
  assert (Hsub : forall l, (forall b, b ∈ l -> b ∈ branches) -> first_branch fs l = first_branch gs l); [|by apply Hsub].
  induction l as [|b l IH]; intros Hl; [done|]. cbn [first_branch].
  assert (Hb : b ∈ branches) by (apply Hl; by left). assert (IH' : first_branch fs l = first_branch gs l) by (apply IH; intros x Hx; apply Hl; by right).
  destruct (p ← jget "properties" b; as_object p) as [props|] eqn:Ep; [|done].
  rewrite (discriminator_ext _ fs gs props Hf), IH' by (intros n sp c; by apply (Hp b props n sp c)).
  destruct (discriminator gs props) as [[disc action]|]; [|done]. f_equal. apply branch_tokens_ext.
  intros f. eapply secret_token; [exact Hf|]. right. by apply list_elem_of_fmap_2.
Qed.


Definition tagged_schema : json :=
  JObj [("oneOf", JArr [JObj [("properties", JObj [("action", JObj [("const", JStr "login")]); ("api_token", JObj [])]);
                              ("required", JArr [JStr "action"; JStr "api_token"])]])].


(** A plain string is shown whatever it is. *)
Lemma plain_input_shown : project_archive_action_identity "Send" (JStr "hunter2") None = "Send(value=" +:+ debug_str "hunter2" +:+ ")".
Proof. vm_compute. reflexivity. Qed.
