(* ===== verification/ContentHash.v ===== *)
(** * Canonical content hashes

    [CanonicalHasher] of [baml-rt-hash/src/hasher.rs], which gives a package the
    hash the repository stores it under, [ContentHash] of [content_hash.rs], and
    the hex coding of blobs in [baml-rt-repository/src/surreal_store.rs].
    SHA-256 and the JSON printer are parameters; what is modelled is the byte
    string the hasher feeds to them, and that it identifies the package. *)

From stdpp Require Import base list strings sorting.
From Stdlib Require Import ZArith Lia Ascii.
From S2P Require Import Prelude RustStr Json Signature.

(** ** Stable sorting

    [slice::sort_by]: an element goes in front of those it does not exceed. *)

Section StableSort.
Context {A : Type} (le : A -> A -> bool).

Fixpoint sorted_insert (x : A) (l : list A) : list A :=
  match l with
  | [] => [x]
  | y :: r => if le x y then x :: y :: r else y :: sorted_insert x r
  end.

Definition stable_sort (l : list A) : list A := foldr sorted_insert [] l.

Lemma sorted_insert_perm x l : sorted_insert x l ≡ₚ x :: l.
Proof. induction l as [|y l IH]; simpl; [done|]. destruct (le x y); [done|]. rewrite IH. apply Permutation_swap. Qed.

Lemma stable_sort_perm l : stable_sort l ≡ₚ l.
Proof. induction l as [|x l IH]; simpl; [done|]. by rewrite sorted_insert_perm, IH. Qed.

Context (le_trans : forall x y z, le x y = true -> le y z = true -> le x z = true).
Context (le_total : forall x y, le x y = true \/ le y x = true).

Lemma sorted_insert_sorted x l : StronglySorted (fun a b => le a b = true) l -> StronglySorted (fun a b => le a b = true) (sorted_insert x l).
Proof.
  induction 1 as [|y l Hl IH Hy]; simpl; [by repeat constructor|]. destruct (le x y) eqn:E.
  - constructor; [by constructor|]. constructor; [done|]. eapply Forall_impl; [exact Hy|]. intros z Hz. by eapply le_trans.
  - constructor; [done|]. rewrite sorted_insert_perm. constructor; [|done]. destruct (le_total x y); congruence.
Qed.

Lemma stable_sort_sorted l : StronglySorted (fun a b => le a b = true) (stable_sort l).
Proof. induction l as [|x l IH]; simpl; [constructor|]. by apply sorted_insert_sorted. Qed.

(** Sorting forgets the order, where no two elements tie. *)
Lemma stable_sort_unique l k :
  (forall x y, x ∈ l -> y ∈ l -> le x y = true -> le y x = true -> x = y) -> l ≡ₚ k -> stable_sort l = stable_sort k.
Proof.
  intros Hanti Hp. eapply (StronglySorted_unique_strong (fun a b => le a b = true)).
  - intros x y Hx Hy. rewrite stable_sort_perm in Hx, Hy. rewrite <-Hp in Hy. by apply Hanti.
  - apply stable_sort_sorted.
  - apply stable_sort_sorted.
  - by rewrite !stable_sort_perm.
Qed.
End StableSort.

(** ** What is hashed *)

Record HashInputFile := mkFile { hf_path : string; hf_content : string }.

#[global] Instance HashInputFile_eq_dec : EqDecision HashInputFile.
Proof. solve_decision. Defined.

Record HashInput := mkInput {
  hi_manifest : json;
  hi_ts_files : list HashInputFile;
  hi_baml_files : list HashInputFile
}.

(** [to_le_bytes] of an integer of [k] bytes. *)
Fixpoint le_bytes (k : nat) (n : N) : string :=
  match k with
  | O => EmptyString
  | S k' => String (ascii_of_N (n mod 256)) (le_bytes k' (n / 256))
  end.

Definition str_len (s : string) : N := N.of_nat (String.length s).

Definition feed_section (tag data : string) : string :=
  le_bytes 4 (str_len tag) +:+ (tag +:+ (le_bytes 8 (str_len data) +:+ data)).

Definition nul : ascii := Ascii.zero.

(** [path || 0 || content]; a NUL in the path is an assertion failure. *)
Definition file_data (file : HashInputFile) : outcome string :=
  if contains_char nul (hf_path file) then Panic
  else Done (hf_path file +:+ String nul (hf_content file)).

Definition path_le (f g : HashInputFile) : bool := String.leb (hf_path f) (hf_path g).

Fixpoint feed_files (tag : string) (files : list HashInputFile) : outcome string :=
  match files with
  | [] => Done EmptyString
  | f :: r => let! data := file_data f in let! rest := feed_files tag r in Done (feed_section tag data +:+ rest)
  end.

Fixpoint sort_json_keys (value : json) : json :=
  match value with
  | JObj map => JObj (merge_sort key_le ((fun '(k, v) => (k, sort_json_keys v)) <$> map))
  | JArr arr => JArr (sort_json_keys <$> arr)
  | other => other
  end.

Section Hasher.
Context (to_string : json -> string) (sha256_hex : string -> string).

Definition hash_canonical_json (value : json) : string := to_string (sort_json_keys value).

Definition feed (input : HashInput) : outcome string :=
  let! ts := feed_files "ts" (stable_sort path_le (hi_ts_files input)) in
  let! baml := feed_files "baml" (stable_sort path_le (hi_baml_files input)) in
  Done (feed_section "manifest" (hash_canonical_json (hi_manifest input)) +:+ (ts +:+ baml)).

Definition canonical_hash (input : HashInput) : outcome string :=
  let! bytes := feed input in Done (sha256_hex bytes).
End Hasher.

(** ** Hash texts and hex *)

Definition is_lower_hex (a : ascii) : bool :=
  is_ascii_digit a || byte_in 97 102 a.

Definition content_hash_parse (s : string) : result string nat :=
  if (String.length s =? 64)%nat && all_bytes is_lower_hex s then Ok s else Err (String.length s).

Definition hex_char (n : N) : ascii := if (n <? 10)%N then ascii_of_N (48 + n) else ascii_of_N (87 + n).

Fixpoint encode_hex (bytes : string) : string :=
  match bytes with
  | EmptyString => EmptyString
  | String b r => String (hex_char (byte_of b / 16)) (String (hex_char (byte_of b mod 16)) (encode_hex r))
  end.

(** [char::to_digit(16)] *)
Definition to_digit16 (a : ascii) : option N :=
  let n := byte_of a in
  if is_ascii_digit a then Some (n - 48)%N
  else if byte_in 97 102 a then Some (n - 87)%N
  else if byte_in 65 70 a then Some (n - 55)%N
  else None.

Fixpoint decode_hex (hex : string) : option string :=
  match hex with
  | EmptyString => Some EmptyString
  | String h (String l r) =>
      hi ← to_digit16 h; lo ← to_digit16 l; rest ← decode_hex r;
      Some (String (ascii_of_N (N.lor (N.shiftl hi 4) lo)) rest)
  | String _ EmptyString => None
  end.

(** ** Lemmas *)

Lemma hex_byte_back b :
  to_digit16 (hex_char (byte_of b / 16)) = Some (byte_of b / 16)%N /\
  to_digit16 (hex_char (byte_of b mod 16)) = Some (byte_of b mod 16)%N /\
  ascii_of_N (N.lor (N.shiftl (byte_of b / 16) 4) (byte_of b mod 16)) = b.
Proof. destruct b as [[] [] [] [] [] [] [] []]; vm_compute; auto. Qed.

(** Blobs survive their hex column. *)
Lemma hex_round_trip s : decode_hex (encode_hex s) = Some s.
Proof.
  induction s as [|b s IH]; [done|]. cbn [encode_hex decode_hex].
  destruct (hex_byte_back b) as (H1 & H2 & H3). rewrite H1. simpl. rewrite H2. simpl. rewrite IH. simpl. by rewrite H3.
Qed.

Lemma le_bytes_inj k m n : (m < 256 ^ N.of_nat k)%N -> (n < 256 ^ N.of_nat k)%N -> le_bytes k m = le_bytes k n -> m = n.
Proof.
  revert m n. induction k as [|k IH]; intros m n Hm Hn.
  - simpl in *. lia.
  - cbn [le_bytes]. intros [= H1 H2]. rewrite Nat2N.inj_succ, N.pow_succ_r' in Hm, Hn.
    apply (f_equal N_of_ascii) in H1. rewrite !N_ascii_embedding in H1 by (by apply N.mod_lt).
    apply IH in H2; [|by apply N.Div0.div_lt_upper_bound..].
    rewrite (N.div_mod m 256), (N.div_mod n 256) by done. congruence.
Qed.

Lemma le_bytes_length k n : String.length (le_bytes k n) = k.
Proof. revert n. induction k as [|k IH]; intros n; simpl; [done|]. by rewrite IH. Qed.

Lemma str_app_inj_length x y u v : String.length x = String.length u -> x +:+ y = u +:+ v -> x = u /\ y = v.
Proof.
  revert u. induction x as [|a x IH]; intros [|b u]; simpl; intros Hl H; try done.
  rewrite !str_app_cons in H. injection H as -> H. destruct (IH u) as [-> ->]; [lia|done|done].
Qed.

(** Lengths that fit their fields: always so on a 64-bit machine. *)
Definition section_fits (tag data : string) : Prop :=
  (str_len tag < 256 ^ 4)%N /\ (str_len data < 256 ^ 8)%N.

Lemma feed_section_inj t d r t' d' r' :
  section_fits t d -> section_fits t' d' ->
  feed_section t d +:+ r = feed_section t' d' +:+ r' -> t = t' /\ d = d' /\ r = r'.
Proof.
  intros [Ht Hd] [Ht' Hd']. unfold feed_section. rewrite !str_app_assoc. intros H.
  apply str_app_inj_length in H as [H1 H]; [|by rewrite !le_bytes_length].
  apply (le_bytes_inj 4) in H1; [|done..]. unfold str_len in H1.
  apply str_app_inj_length in H as [-> H]; [|lia].
  apply str_app_inj_length in H as [H2 H]; [|by rewrite !le_bytes_length].
  apply (le_bytes_inj 8) in H2; [|done..]. unfold str_len in H2.
  apply str_app_inj_length in H as [-> ->]; [done|lia].
Qed.

Lemma sort_json_keys_canonical v : sort_json_keys v = canonical_json v.
Proof. reflexivity. Qed.

Lemma path_le_trans f g h : path_le f g = true -> path_le g h = true -> path_le f h = true.
Proof. apply str_leb_trans. Qed.

Lemma path_le_total f g : path_le f g = true \/ path_le g f = true.
Proof. apply String.leb_total. Qed.

(** An input the repository accepts: no NUL in a path, no path twice, sizes of
    a 64-bit machine, and a manifest without duplicate keys. *)
Definition file_ok (f : HashInputFile) : Prop :=
  contains_char nul (hf_path f) = false /\ (str_len (hf_path f +:+ String nul (hf_content f)) < 256 ^ 8)%N.

Definition files_ok (fs : list HashInputFile) : Prop := Forall file_ok fs /\ NoDup (hf_path <$> fs).

Lemma sort_files_perm fs gs : NoDup (hf_path <$> fs) -> fs ≡ₚ gs -> stable_sort path_le fs = stable_sort path_le gs.
Proof.
  intros Hnd. apply (stable_sort_unique path_le path_le_trans path_le_total). intros f g Hf Hg H1 H2.
  assert (Hp : hf_path f = hf_path g) by (by apply String.leb_antisym).
  apply list_elem_of_lookup in Hf as [i Hi], Hg as [j Hj].
  assert (i = j) as ->; [|congruence].
  eapply (NoDup_lookup (hf_path <$> fs)); [done|by rewrite list_lookup_fmap, Hi|by rewrite list_lookup_fmap, Hj; simpl; rewrite Hp].
Qed.

Lemma sort_files_ok fs : files_ok fs -> files_ok (stable_sort path_le fs).
Proof. unfold files_ok. by rewrite stable_sort_perm. Qed.

Lemma file_data_ok f : file_ok f -> file_data f = Done (hf_path f +:+ String nul (hf_content f)).
Proof. unfold file_data. by intros [-> _]. Qed.

Lemma file_data_inj f g : file_ok f -> file_ok g -> file_data f = file_data g -> f = g.
Proof.
  intros Hf Hg. rewrite !file_data_ok by done. intros [= H]. apply (f_equal (split_once nul)) in H.
  rewrite !split_once_app in H by apply Hf || apply Hg. destruct f, g. simpl in *. congruence.
Qed.

(** What follows a run of sections with one tag does not continue it. *)
Definition other_tag (tag r : string) : Prop :=
  r = EmptyString \/ exists t d x, r = feed_section t d +:+ x /\ t <> tag /\ section_fits t d.

Lemma feed_section_nonempty t d r : feed_section t d +:+ r <> EmptyString.
Proof. by unfold feed_section. Qed.

Lemma other_tag_not tag r d x : section_fits tag d -> other_tag tag r -> r <> feed_section tag d +:+ x.
Proof.
  intros Hd [->|(t & d' & x' & -> & Hne & Hf)] H; [by eapply feed_section_nonempty|].
  apply feed_section_inj in H as (-> & _); [done..].
Qed.

Lemma tag_fits tag f : (str_len tag < 256 ^ 4)%N -> file_ok f -> section_fits tag (hf_path f +:+ String nul (hf_content f)).
Proof. intros Ht [_ Hf]. by split. Qed.

Lemma feed_files_inj tag fs gs s s' r r' :
  (str_len tag < 256 ^ 4)%N -> Forall file_ok fs -> Forall file_ok gs ->
  feed_files tag fs = Done s -> feed_files tag gs = Done s' -> other_tag tag r -> other_tag tag r' ->
  s +:+ r = s' +:+ r' -> fs = gs /\ r = r'.
Proof.
  intros Ht Hfs. revert gs s s'. induction Hfs as [|f fs Hf Hfs IH]; intros gs s s' Hgs.
  - intros [= <-]. destruct Hgs as [|g gs Hg Hgs]; cbn [feed_files].
    + intros [= <-] _ _. rewrite !str_app_nil_l. done.
    + rewrite file_data_ok by done. simpl. destruct (feed_files tag gs) as [x|]; [|done]. intros [= <-] Hr _ H. exfalso.
      rewrite str_app_nil_l, str_app_assoc in H. eapply other_tag_not; [by apply (tag_fits tag g)|exact Hr|exact H].
  - cbn [feed_files]. rewrite file_data_ok by done. simpl. destruct (feed_files tag fs) as [x|] eqn:Ex; [|done]. intros [= <-].
    destruct Hgs as [|g gs Hg Hgs]; cbn [feed_files].
    + intros [= <-] _ Hr H. exfalso. rewrite str_app_nil_l, str_app_assoc in H.
      eapply other_tag_not; [by apply (tag_fits tag f)|exact Hr|symmetry; exact H].
    + rewrite file_data_ok by done. simpl. destruct (feed_files tag gs) as [y|] eqn:Ey; [|done]. intros [= <-] Hr Hr' H.
      rewrite !str_app_assoc in H. apply feed_section_inj in H as (_ & Hd & H); [|by apply tag_fits..].
      assert (f = g) as -> by (apply file_data_inj; [done..|]; rewrite !file_data_ok by done; by f_equal).
      destruct (IH gs x y Hgs eq_refl Ey Hr Hr' H) as [-> ->]. done.
Qed.

Lemma feed_files_done tag fs : Forall file_ok fs -> exists s, feed_files tag fs = Done s.
Proof.
  induction 1 as [|f fs Hf _ [s IH]]; [by eexists|]. cbn [feed_files]. rewrite file_data_ok by done. simpl. rewrite IH. by eexists.
Qed.

Lemma feed_files_other tag tag' fs s :
  (str_len tag' < 256 ^ 4)%N -> tag <> tag' -> Forall file_ok fs -> feed_files tag' fs = Done s -> other_tag tag s.
Proof.
  intros Ht Hne [|f r Hf Hr]; cbn [feed_files]; [intros [= <-]; by left|]. rewrite file_data_ok by done. simpl.
  destruct (feed_files tag' r); [|done]. intros [= <-]. right. do 3 eexists. split_and!; [done..|by apply tag_fits].
Qed.

Section Identifies.
Context (to_string : json -> string) (sha256_hex : string -> string).

(** Inputs the hash is meant to tell apart. *)
Definition input_ok (i : HashInput) : Prop :=
  files_ok (hi_ts_files i) /\ files_ok (hi_baml_files i) /\ json_wf (hi_manifest i) /\
  (str_len (hash_canonical_json to_string (hi_manifest i)) < 256 ^ 8)%N.

Definition same_package (i j : HashInput) : Prop :=
  json_eqv (hi_manifest i) (hi_manifest j) /\ hi_ts_files i ≡ₚ hi_ts_files j /\ hi_baml_files i ≡ₚ hi_baml_files j.

Lemma feed_same i j : input_ok i -> same_package i j -> feed to_string i = feed to_string j.
Proof.
  intros ([_ Ht] & [_ Hb] & Hm & _) (Hj & Hts & Hbs). unfold feed, hash_canonical_json. rewrite !sort_json_keys_canonical.
  rewrite (sort_files_perm _ _ Ht Hts), (sort_files_perm _ _ Hb Hbs).
  by rewrite (proj2 (eqv_canonical _ _ Hj) Hm).
Qed.

(** The printer tells the two sorted manifests apart. *)
Definition printer_separates (i j : HashInput) : Prop :=
  hash_canonical_json to_string (hi_manifest i) = hash_canonical_json to_string (hi_manifest j) ->
  sort_json_keys (hi_manifest i) = sort_json_keys (hi_manifest j).

Lemma Done_inj {A} (x y : A) : Done x = Done y -> x = y.
Proof. congruence. Qed.

Lemma feed_injective i j :
  printer_separates i j -> input_ok i -> input_ok j ->
  feed to_string i = feed to_string j -> same_package i j.
Proof.
  intros Hts (Ti%sort_files_ok & Bi%sort_files_ok & Wi & Li) (Tj%sort_files_ok & Bj%sort_files_ok & Wj & Lj). unfold feed.
  destruct Ti as [Ti _], Bi as [Bi _], Tj as [Tj _], Bj as [Bj _].
  destruct (feed_files_done "ts" _ Ti) as [ti Eti], (feed_files_done "ts" _ Tj) as [tj Etj].
  destruct (feed_files_done "baml" _ Bi) as [bi Ebi], (feed_files_done "baml" _ Bj) as [bj Ebj].
  rewrite Eti, Etj. simpl. rewrite Ebi, Ebj. simpl. intros H%Done_inj.
  apply feed_section_inj in H as (_ & Hm & H); [|by split..].
  eapply (feed_files_inj "ts") in H as [Hts' H]; [|done|exact Ti|exact Tj|exact Eti|exact Etj|
    exact (feed_files_other "ts" "baml" _ _ eq_refl ltac:(done) Bi Ebi)|exact (feed_files_other "ts" "baml" _ _ eq_refl ltac:(done) Bj Ebj)].
  rewrite <-(str_app_nil_r bi), <-(str_app_nil_r bj) in H.
  eapply (feed_files_inj "baml") in H as [Hbs' _]; [|done|exact Bi|exact Bj|exact Ebi|exact Ebj|by left..].
  split_and!.
  - apply Hts in Hm. rewrite !sort_json_keys_canonical in Hm.
    etransitivity; [apply canonical_eqv|]. rewrite Hm. symmetry. apply canonical_eqv.
  - by rewrite <-(stable_sort_perm path_le (hi_ts_files i)), Hts', stable_sort_perm.
  - by rewrite <-(stable_sort_perm path_le (hi_baml_files i)), Hbs', stable_sort_perm.
Qed.
End Identifies.

(** A content hash identifies a package: packages that differ only in
    the order of files and manifest keys have the same hash, and two accepted
    packages with the same hash are such, unless the run exhibits a SHA-256
    collision; hashing an accepted package never panics. *)
Theorem content_hash_identifies to_string sha256_hex i j :
  printer_separates to_string i j -> input_ok to_string i -> input_ok to_string j ->
  (exists h, canonical_hash to_string sha256_hex i = Done h) /\
  (same_package i j -> canonical_hash to_string sha256_hex i = canonical_hash to_string sha256_hex j) /\
  (canonical_hash to_string sha256_hex i = canonical_hash to_string sha256_hex j ->
   same_package i j \/ exists x y, x <> y /\ sha256_hex x = sha256_hex y).
Proof.
  intros Hts Hi Hj. unfold canonical_hash.
  assert (Hdone : forall k, input_ok to_string k -> exists b, feed to_string k = Done b).
  { intros k ([Tk _]%sort_files_ok & [Bk _]%sort_files_ok & _). unfold feed.
    destruct (feed_files_done "ts" _ Tk) as [t ->], (feed_files_done "baml" _ Bk) as [b Hb]. simpl. rewrite Hb. by eexists. }
  destruct (Hdone i Hi) as [bi Ebi], (Hdone j Hj) as [bj Ebj]. rewrite Ebi. simpl. split; [by eexists|]. split.
  - intros Hs. rewrite <-(feed_same to_string i j Hi Hs), Ebi. done.
  - rewrite Ebj. simpl. intros [= H]. destruct (decide (bi = bj)) as [->|Hne]; [left|right; by exists bi, bj].
    apply (feed_injective to_string); [done..|]. by rewrite Ebi, Ebj.
Qed.

Definition sample_input (flip : bool) : HashInput :=
  let a := mkFile "src/a.ts" "export {}" in
  let b := mkFile "src/b.ts" "" in
  let name := ("name", JStr "demo") in
  let version := ("version", JStr "1") in
  if flip then mkInput (JObj [version; name]) [b; a] [] else mkInput (JObj [name; version]) [a; b] [].

(** A printer for the sample. *)
Definition sample_printer (v : json) : string := match v with JObj fs => join "," (fst <$> fs) | _ => "other" end.

Lemma sample_input_ok flip : input_ok sample_printer (sample_input flip).
Proof.
  split_and!.
  - split; [destruct flip; repeat constructor|]. destruct flip; apply (bool_decide_unpack _); vm_compute; reflexivity.
  - destruct flip; by split; constructor.
  - destruct flip; apply json_wf_obj; (split; [apply (bool_decide_unpack _); vm_compute; reflexivity|by repeat constructor]).
  - by destruct flip.
Qed.

Lemma content_hash_identifies_witness :
  same_package (sample_input true) (sample_input false) /\
  canonical_hash sample_printer id (sample_input true) = canonical_hash sample_printer id (sample_input false).
Proof.
  assert (Hs : same_package (sample_input true) (sample_input false)).
  { split_and!; [apply eqv_perm, Permutation_swap|apply Permutation_swap|done]. }
  split; [exact Hs|].
  apply (content_hash_identifies sample_printer id (sample_input true) (sample_input false));
    [intros _; vm_compute; reflexivity|apply sample_input_ok..|exact Hs].
Defined.
