(* ===== verification/Repository.v ===== *)
(** * The package repository

    [baml-rt-repository]: identifiers ([ids.rs]), entries and source bundles
    ([entry.rs]), lineage ([lineage.rs]), the service's publish and fork
    ([service.rs]) over the tables of the store ([surreal_store.rs]), lineage
    walks and search.  A table is the list of its rows in insertion order and an
    SQL statement the list operation it names; a [UNIQUE] index makes a
    [CREATE] fail.  SHA-256, the JSON printer, new UUIDs and the clock are
    parameters, and so is whether awaiting a query reports a failed statement
    ([surfaces]): the driver reports it inside the response, which the store
    does not inspect. *)

From stdpp Require Import base list strings sorting.
From Stdlib Require Import ZArith Lia Ascii.
From S2P Require Import Prelude RustStr Json Signature ContentHash.

(** ** Identifiers *)

Definition agent_name_char (c : ascii) : bool :=
  is_ascii_lower c || is_ascii_digit c || bool_decide (c = "-"%char).

Definition agent_name_parse (s : string) : result string string :=
  if is_empty_str s then Err "name must not be empty"
  else if starts_with "-" s || ends_with "-" s then Err "name must not start or end with a hyphen"
  else if negb (all_bytes agent_name_char s) then Err "name must be lowercase alphanumeric with hyphens only"
  else Ok s.

Definition version_new (value : Z) : result Z Z := if (value =? 0)%Z then Err value else Ok value.
Definition version_next (v : Z) : Z := wrap32 (v + 1).
Definition version_display (v : Z) : string := "v" +:+ show_Z v.
Definition version_parse (s : string) : result Z Z :=
  let digits := match strip_prefix "v" s with Some r => r | None => s end in
  match parse_u32 digits with
  | Some value => version_new value
  | None => Err 0%Z
  end.

Definition generation_root : Z := 0.
Definition generation_increment (g : Z) : Z := wrap32 (g + 1).

Record VersionRef := mkVersionRef { vr_name : string; vr_version : Z }.
Definition version_ref_display (r : VersionRef) : string := vr_name r +:+ "@" +:+ version_display (vr_version r).

(** Texts that must not be blank. *)
Definition edge_description_new (s : string) : option string := if is_empty_str (trim s) then None else Some s.
Definition change_rationale_new (s : string) : option string := if is_empty_str (trim s) then None else Some s.

Definition source_path_new (s : string) : result string string :=
  if is_empty_str s then Err "path must not be empty"
  else if starts_with "/" s then Err "path must be relative (no leading slash)"
  else if contains_char nul s then Err "path must not contain NUL bytes"
  else if contains_str ".." s then Err "path must not contain '..' components"
  else Ok s.

(** ** Source bundles *)

Record SourceBundle := mkBundle {
  sb_manifest : json;
  sb_ts_sources : list HashInputFile;
  sb_baml_sources : list HashInputFile
}.

Definition string_list (v : option json) : list string :=
  match v ≫= as_array with Some arr => omap as_str arr | None => [] end.

Definition manifest_name (m : json) : option string := jget "name" m ≫= as_str.
Definition manifest_version (m : json) : option string := jget "version" m ≫= as_str.
Definition manifest_tools (m : json) : list string := string_list (jget "tools" m).
Definition manifest_tags_of (m : json) : list string := string_list (jget "tags" m).
Definition manifest_capabilities (m : json) : list string := string_list (jget "discovery" m ≫= jget "capabilities").
Definition manifest_description (m : json) : option string := (jget "discovery" m ≫= jget "description") ≫= as_str.

(** [value["version"] = ...]: a null becomes an object, anything else that is
    not one panics. *)
Definition with_version (m : json) (version : Z) : outcome json :=
  match m with
  | JObj fs => Done (JObj (map_insert "version" (JStr (show_Z version)) fs))
  | JNull => Done (JObj [("version", JStr (show_Z version))])
  | _ => Panic
  end.

Definition with_manifest_version (b : SourceBundle) (version : Z) : outcome SourceBundle :=
  let! m := with_version (sb_manifest b) version in Done (mkBundle m (sb_ts_sources b) (sb_baml_sources b)).

(** ** Lineage *)

Inductive LineageKind := Fork | Influence.

#[global] Instance LineageKind_eq_dec : EqDecision LineageKind.
Proof. solve_decision. Defined.

Record LineageEdge := mkEdge {
  ed_id : string;
  ed_source : string;
  ed_target : string;
  ed_kind : LineageKind;
  ed_description : string
}.

Record InfluenceRef := mkInfluence { in_source : string; in_description : string }.

Inductive Parentage :=
| Original
| Forked (parent description : string)
| Synthesized (influences : list InfluenceRef).

(** ** Entries, rows and the store *)

Record NewEntry := mkNewEntry {
  ne_name : string;
  ne_source : SourceBundle;
  ne_parentage : Parentage;
  ne_generation : Z;
  ne_rationale : string;
  ne_tags : list string
}.

Record RepositoryEntry := mkRepoEntry {
  re_hash : string;
  re_version_ref : VersionRef;
  re_source : SourceBundle;
  re_parentage : Parentage;
  re_generation : Z;
  re_rationale : string;
  re_created_at : string;
  re_tags : list string
}.

Record RepositoryEntryHeader := mkHeader {
  hd_hash : string;
  hd_version_ref : VersionRef;
  hd_parentage : Parentage;
  hd_generation : Z;
  hd_rationale : string;
  hd_created_at : string;
  hd_tags : list string;
  hd_description : option string;
  hd_tools : list string;
  hd_capabilities : list string
}.

(** A row of [entries]. *)
Record entry_row := mkRow {
  row_hash : string;
  row_name : string;
  row_version : Z;
  row_generation : Z;
  row_parentage : Parentage;
  row_source : SourceBundle;
  row_rationale : string;
  row_created_at : string
}.

Record store := mkStore {
  st_entries : list entry_row;
  st_tags : list (string * string);
  st_edges : list LineageEdge;
  st_blobs : list (string * string);
  st_uuids : nat
}.

Definition empty_store : store := mkStore [] [] [] [] 0.

Inductive RepositoryError :=
| EntryNotFoundByHash (hash : string)
| DuplicateHash (hash existing_name : string) (existing_version : Z)
| ForkParentNotFound (parent_hash : string)
| InfluenceSourceNotFound (source_hash : string)
| StorageWrite
| StorageRead (m : string).

Definition decode_err (m : string) : RepositoryError := StorageRead m.

(** ** Reading rows *)

Definition row_by_hash (s : store) (hash : string) : option entry_row :=
  list_find (fun r => row_hash r = hash) (st_entries s) ≫= fun '(_, r) => Some r.

Definition tags_for_hash (s : store) (hash : string) : list string :=
  stable_sort String.leb (snd <$> filter (fun t => t.1 = hash) (st_tags s)).

Definition header_from_row (s : store) (r : entry_row) : result RepositoryEntryHeader RepositoryError :=
  let? hash := map_err (fun _ => decode_err "invalid hash") (content_hash_parse (row_hash r)) in
  let? name := map_err (fun e => decode_err ("invalid agent_name: invalid agent name: " +:+ e)) (agent_name_parse (row_name r)) in
  let? version := map_err (fun _ => decode_err "invalid version") (version_new (row_version r)) in
  let? rationale := ok_or (change_rationale_new (row_rationale r)) (decode_err "entries.change_rationale empty") in
  Ok (mkHeader hash (mkVersionRef name version) (row_parentage r) (row_generation r) rationale (row_created_at r)
        (tags_for_hash s hash) (manifest_description (sb_manifest (row_source r)))
        (manifest_tools (sb_manifest (row_source r))) (manifest_capabilities (sb_manifest (row_source r)))).

Definition entry_from_row (s : store) (r : entry_row) : result RepositoryEntry RepositoryError :=
  let? h := header_from_row s r in
  Ok (mkRepoEntry (hd_hash h) (hd_version_ref h) (row_source r) (hd_parentage h) (hd_generation h) (hd_rationale h)
        (hd_created_at h) (hd_tags h)).

Definition opt_result {A B E} (f : A -> result B E) (o : option A) : result (option B) E :=
  match o with None => Ok None | Some a => let? b := f a in Ok (Some b) end.

Fixpoint results {A B E} (f : A -> result B E) (l : list A) : result (list B) E :=
  match l with [] => Ok [] | a :: r => let? b := f a in let? bs := results f r in Ok (b :: bs) end.

Definition get_by_hash (s : store) (hash : string) : result (option RepositoryEntry) RepositoryError :=
  opt_result (entry_from_row s) (row_by_hash s hash).

(** [WHERE agent_name = $name ORDER BY version DESC] *)
Definition version_desc (r r' : entry_row) : bool := (row_version r' <=? row_version r)%Z.
Definition rows_of (s : store) (name : string) : list entry_row := filter (fun r => row_name r = name) (st_entries s).
Definition rows_desc (s : store) (name : string) : list entry_row := stable_sort version_desc (rows_of s name).

Definition get_latest (s : store) (name : string) : result (option RepositoryEntry) RepositoryError :=
  opt_result (entry_from_row s) (head (rows_desc s name)).

Definition get_by_version (s : store) (name : string) (version : Z) : result (option RepositoryEntry) RepositoryError :=
  opt_result (entry_from_row s) (head (filter (fun r => row_version r = version) (rows_of s name))).

Definition list_versions (s : store) (name : string) : result (list RepositoryEntryHeader) RepositoryError :=
  results (header_from_row s) (rows_desc s name).

Definition next_version_for_agent (s : store) (name : string) : result Z RepositoryError :=
  let? prev := get_latest s name in
  Ok (match prev with Some p => sat_add u32_max (vr_version (re_version_ref p)) 1 | None => 1%Z end).

Definition resolve_hash (s : store) (vref : VersionRef) : result (option string) RepositoryError :=
  opt_result (fun r => map_err (fun _ => decode_err "invalid stored hash") (content_hash_parse (row_hash r)))
    (head (filter (fun r => row_version r = vr_version vref) (rows_of s (vr_name vref)))).

Definition list_agents (s : store) : result (list string) RepositoryError :=
  let? names := results (fun n => map_err (fun e => decode_err ("invalid stored agent name: invalid agent name: " +:+ e)) (agent_name_parse n))
                  (remove_dups (row_name <$> st_entries s)) in
  Ok (stable_sort String.leb names).

(** ** Blobs and tags *)

Definition put_blob (s : store) (hash data : string) : store :=
  mkStore (st_entries s) (st_tags s) (st_edges s)
    ((hash, encode_hex data) :: filter (fun b => b.1 <> hash) (st_blobs s)) (st_uuids s).

Definition get_blob (s : store) (hash : string) : option string :=
  list_find (fun b => b.1 = hash) (st_blobs s) ≫= fun '(_, b) => decode_hex b.2.

Definition with_entries (l : list entry_row) (s : store) : store := mkStore l (st_tags s) (st_edges s) (st_blobs s) (st_uuids s).
Definition with_tags (l : list (string * string)) (s : store) : store := mkStore (st_entries s) l (st_edges s) (st_blobs s) (st_uuids s).

(** [CREATE tags]: the index on entry and tag is unique. *)
Definition create_tag (hash tag : string) (s : store) : store :=
  if bool_decide ((hash, tag) ∈ st_tags s) then s else with_tags (st_tags s ++ [(hash, tag)]) s.

Definition add_tag (s : store) (hash tag : string) : result unit RepositoryError * store :=
  match get_by_hash s hash with
  | Err e => (Err e, s)
  | Ok None => (Err (EntryNotFoundByHash hash), s)
  | Ok (Some _) => (Ok tt, create_tag hash tag s)
  end.

Definition remove_tag (s : store) (hash tag : string) : store := with_tags (filter (fun t => t <> (hash, tag)) (st_tags s)) s.

(** ** Publishing *)

Inductive PublishOrigin :=
| OOriginal
| OIteration
| OInfluenced (influences : list InfluenceRef).

Record PublishCommand := mkPublish { pc_name : string; pc_source : SourceBundle; pc_rationale : string; pc_origin : PublishOrigin }.

Record ForkCommand := mkFork {
  fc_source_hash : string;
  fc_new_name : string;
  fc_source : SourceBundle;
  fc_rationale : string;
  fc_description : string;
  fc_tags : list string
}.

Record PublishResult := mkPublished { pr_hash : string; pr_version_ref : VersionRef; pr_generation : Z }.

(** An edge before its target is known. *)
Record edge_descriptor := mkDescriptor { dsc_source : string; dsc_kind : LineageKind; dsc_description : string }.

(** The influences must exist; the newest generation among them counts. *)
Fixpoint check_influences (s : store) (max_gen : Z) (influences : list InfluenceRef)
    : result (Z * list edge_descriptor) RepositoryError :=
  match influences with
  | [] => Ok (max_gen, [])
  | inf :: rest =>
      let? source_entry := get_by_hash s (in_source inf) in
      match source_entry with
      | None => Err (InfluenceSourceNotFound (in_source inf))
      | Some e =>
          let? p := check_influences s (if (max_gen <? re_generation e)%Z then re_generation e else max_gen) rest in
          Ok (p.1, mkDescriptor (in_source inf) Influence (in_description inf) :: p.2)
      end
  end.

(** The draft of a publication: what [publish] works out before the insert. *)
Definition plan_publish (s : store) (cmd : PublishCommand) : result (NewEntry * list edge_descriptor) RepositoryError :=
  let draft parentage generation :=
    mkNewEntry (pc_name cmd) (pc_source cmd) parentage generation (pc_rationale cmd) (manifest_tags_of (sb_manifest (pc_source cmd))) in
  match pc_origin cmd with
  | OOriginal => Ok (draft Original generation_root, [])
  | OIteration =>
      let? prev := get_latest s (pc_name cmd) in
      match prev with
      | Some prev =>
          let desc := "Iteration from " +:+ version_ref_display (re_version_ref prev) in
          Ok (draft (Forked (re_hash prev) desc) (re_generation prev), [mkDescriptor (re_hash prev) Fork desc])
      | None => Ok (draft Original generation_root, [])
      end
  | OInfluenced influences =>
      let? p := check_influences s generation_root influences in
      Ok (draft (Synthesized influences) (generation_increment p.1), p.2)
  end.

Definition plan_fork (s : store) (cmd : ForkCommand) : result (NewEntry * list edge_descriptor) RepositoryError :=
  let? source_entry := get_by_hash s (fc_source_hash cmd) in
  match source_entry with
  | None => Err (ForkParentNotFound (fc_source_hash cmd))
  | Some e =>
      Ok (mkNewEntry (fc_new_name cmd) (fc_source cmd) (Forked (fc_source_hash cmd) (fc_description cmd))
            (generation_increment (re_generation e)) (fc_rationale cmd) (fc_tags cmd),
          [mkDescriptor (fc_source_hash cmd) Fork (fc_description cmd)])
  end.

(** The first statement of [insert_entry]: the version the entry will get. *)
Definition insert_version (s : store) (name : string) : Z :=
  match head (rows_desc s name) with
  | Some r => wrap32 (wrap32 (row_version r) + 1)
  | None => 1
  end.

(** [CREATE entries]: unique hash, unique name and version. *)
Definition index_free (s : store) (row : entry_row) : bool :=
  forallb (fun r => negb (bool_decide (row_hash r = row_hash row)) &&
                    negb (bool_decide (row_name r = row_name row /\ row_version r = row_version row))) (st_entries s).

Section Service.
Context (to_string : json -> string) (sha256_hex : string -> string) (new_v4 : nat -> string) (surfaces : bool).

Definition compute_hash (b : SourceBundle) : outcome string :=
  canonical_hash to_string sha256_hex (mkInput (sb_manifest b) (sb_ts_sources b) (sb_baml_sources b)).

(** Does awaiting a statement that failed give an error? *)
Definition awaited (succeeded : bool) : bool := succeeded || negb surfaces.

(** The rest of [insert_entry], once the version is chosen. *)
Definition insert_commit (now : string) (s : store) (entry : NewEntry) (next_version : Z)
    : outcome (result RepositoryEntry RepositoryError * store) :=
  let! source := with_manifest_version (ne_source entry) next_version in
  let! hash := compute_hash source in
  Done (
    match row_by_hash s hash with
    | Some r =>
        (match agent_name_parse (row_name r) with
         | Err e => Err (decode_err ("invalid existing agent_name: invalid agent name: " +:+ e))
         | Ok existing_name =>
             match version_new (row_version r) with
             | Err _ => Err (decode_err "invalid existing version")
             | Ok existing_version => Err (DuplicateHash hash existing_name existing_version)
             end
         end, s)
    | None =>
        match version_new next_version with
        | Err _ => (Err (decode_err "invalid version"), s)
        | Ok version =>
            let row := mkRow hash (ne_name entry) next_version (ne_generation entry) (ne_parentage entry) source (ne_rationale entry) now in
            let free := index_free s row in
            let s := if free then with_entries (st_entries s ++ [row]) s else s in
            if awaited free then
              (Ok (mkRepoEntry hash (mkVersionRef (ne_name entry) version) source (ne_parentage entry) (ne_generation entry)
                     (ne_rationale entry) now (ne_tags entry)),
               foldl (fun s tag => create_tag hash tag s) s (ne_tags entry))
            else (Err StorageWrite, s)
        end
    end).

Definition insert_entry (now : string) (s : store) (entry : NewEntry) : outcome (result RepositoryEntry RepositoryError * store) :=
  insert_commit now s entry (insert_version s (ne_name entry)).

(** [record_edges]: the edge ids are fresh UUIDs under a unique index. *)
Definition create_edge (hash : string) (d : edge_descriptor) (s : store) : bool * store :=
  let e := mkEdge (new_v4 (st_uuids s)) (dsc_source d) hash (dsc_kind d) (dsc_description d) in
  let free := negb (bool_decide (ed_id e ∈ (ed_id <$> st_edges s))) in
  (free, mkStore (st_entries s) (st_tags s) (if free then st_edges s ++ [e] else st_edges s) (st_blobs s) (S (st_uuids s))).

Fixpoint record_edges (s : store) (hash : string) (ds : list edge_descriptor) : result unit RepositoryError * store :=
  match ds with
  | [] => (Ok tt, s)
  | d :: rest =>
      let '(free, s) := create_edge hash d s in
      if awaited free then record_edges s hash rest else (Err StorageWrite, s)
  end.

Definition insert_and_link (now : string) (s : store) (plan : result (NewEntry * list edge_descriptor) RepositoryError)
    : outcome (result PublishResult RepositoryError * store) :=
  match plan with
  | Err e => Done (Err e, s)
  | Ok (entry, descriptors) =>
      let! p := insert_entry now s entry in
      Done (match p with
            | (Err e, s) => (Err e, s)
            | (Ok stored, s) =>
                match record_edges s (re_hash stored) descriptors with
                | (Err e, s) => (Err e, s)
                | (Ok _, s) => (Ok (mkPublished (re_hash stored) (re_version_ref stored) (re_generation stored)), s)
                end
            end)
  end.

Definition publish (now : string) (s : store) (cmd : PublishCommand) : outcome (result PublishResult RepositoryError * store) :=
  insert_and_link now s (plan_publish s cmd).

Definition fork (now : string) (s : store) (cmd : ForkCommand) : outcome (result PublishResult RepositoryError * store) :=
  insert_and_link now s (plan_fork s cmd).
End Service.

(** ** Concurrent publications

    Every request is a task of its own; between two statements other tasks
    run. *)

Inductive task :=
| TPublish (cmd : PublishCommand)
| TFork (cmd : ForkCommand)
| TInsert (entry : NewEntry) (ds : list edge_descriptor)
| TCommit (entry : NewEntry) (next_version : Z) (ds : list edge_descriptor)
| TEdges (r : PublishResult) (ds : list edge_descriptor)
| TEnd (r : outcome (result PublishResult RepositoryError)).

Section Tasks.
Context (to_string : json -> string) (sha256_hex : string -> string) (new_v4 : nat -> string) (surfaces : bool).

Definition planned (plan : result (NewEntry * list edge_descriptor) RepositoryError) : task :=
  match plan with Err e => TEnd (Done (Err e)) | Ok (entry, ds) => TInsert entry ds end.

Definition task_step (now : string) (s : store) (t : task) : task * store :=
  match t with
  | TPublish cmd => (planned (plan_publish s cmd), s)
  | TFork cmd => (planned (plan_fork s cmd), s)
  | TInsert entry ds => (TCommit entry (insert_version s (ne_name entry)) ds, s)
  | TCommit entry v ds =>
      match insert_commit to_string sha256_hex surfaces now s entry v with
      | Panic => (TEnd Panic, s)
      | Done (Err e, s') => (TEnd (Done (Err e)), s')
      | Done (Ok stored, s') => (TEdges (mkPublished (re_hash stored) (re_version_ref stored) (re_generation stored)) ds, s')
      end
  | TEdges r [] => (TEnd (Done (Ok r)), s)
  | TEdges r (d :: ds) =>
      let '(free, s') := create_edge new_v4 (pr_hash r) d s in
      if awaited surfaces free then (TEdges r ds, s') else (TEnd (Done (Err StorageWrite)), s')
  | TEnd r => (TEnd r, s)
  end.

Record system := mkSystem { sys_store : store; sys_tasks : list task }.

Inductive step : system -> system -> Prop :=
| step_publish s ts cmd : step (mkSystem s ts) (mkSystem s (ts ++ [TPublish cmd]))
| step_fork s ts cmd : step (mkSystem s ts) (mkSystem s (ts ++ [TFork cmd]))
| step_task s ts i t t' s' now :
    ts !! i = Some t -> task_step now s t = (t', s') -> step (mkSystem s ts) (mkSystem s' (<[i := t']> ts))
| step_add_tag s ts hash tag : step (mkSystem s ts) (mkSystem (add_tag s hash tag).2 ts)
| step_remove_tag s ts hash tag : step (mkSystem s ts) (mkSystem (remove_tag s hash tag) ts)
| step_put_blob s ts hash data : step (mkSystem s ts) (mkSystem (put_blob s hash data) ts).

Inductive reachable : system -> Prop :=
| reach_init : reachable (mkSystem empty_store [])
| reach_step x y : reachable x -> step x y -> reachable y.

(** ** What the catalog promises *)

Definition row_sound (r : entry_row) : Prop :=
  compute_hash to_string sha256_hex (row_source r) = Done (row_hash r) /\
  manifest_version (sb_manifest (row_source r)) = Some (show_Z (row_version r)).

(** An edge starts at a stored entry that is older than any entry with the
    target's hash; see [edge_linked] for whether there is one. *)
Definition edge_forward (rows : list entry_row) (src tgt : string) : Prop :=
  exists i r, rows !! i = Some r /\ row_hash r = src /\ forall j r', rows !! j = Some r' -> row_hash r' = tgt -> (i < j)%nat.

Record catalog_ok (s : store) : Prop := {
  cat_hashes : NoDup (row_hash <$> st_entries s);
  cat_versions name : row_version <$> rows_of s name = seqZ 1 (Z.of_nat (length (rows_of s name)));
  cat_sound : Forall row_sound (st_entries s);
  cat_edges : Forall (fun e => edge_forward (st_entries s) (ed_source e) (ed_target e)) (st_edges s)
}.

Definition sources_stored (s : store) (ds : list edge_descriptor) : Prop :=
  Forall (fun d => dsc_source d ∈ (row_hash <$> st_entries s)) ds.

Definition task_ok (s : store) (t : task) : Prop :=
  match t with
  | TInsert _ ds => sources_stored s ds
  | TCommit entry v ds => sources_stored s ds /\ (1 <= v <= Z.of_nat (length (rows_of s (ne_name entry))) + 1)%Z
  | TEdges r ds => Forall (fun d => edge_forward (st_entries s) (dsc_source d) (pr_hash r)) ds
  | TPublish _ | TFork _ | TEnd _ => True
  end.
End Tasks.

(** *** Rows and versions *)

Lemma head_max name s r :
  head (rows_desc s name) = Some r -> r ∈ rows_of s name /\ forall r', r' ∈ rows_of s name -> (row_version r' <= row_version r)%Z.
Proof.
  unfold rows_desc. intros H.
  pose proof (stable_sort_sorted version_desc ltac:(unfold version_desc; intros ???; lia) ltac:(unfold version_desc; intros ??; lia) (rows_of s name)) as Hs.
  pose proof (stable_sort_perm version_desc (rows_of s name)) as Hp.
  destruct (stable_sort version_desc (rows_of s name)) as [|h l]; [done|]. injection H as ->.
  apply StronglySorted_inv in Hs as [_ Hall]. rewrite Forall_forall in Hall. split; [rewrite <-Hp; by left|].
  intros r' Hr'. rewrite <-Hp in Hr'. apply elem_of_cons in Hr' as [->|Hr']; [lia|]. apply Hall in Hr'. unfold version_desc in Hr'. lia.
Qed.

Lemma insert_version_spec s name :
  row_version <$> rows_of s name = seqZ 1 (Z.of_nat (length (rows_of s name))) ->
  (Z.of_nat (length (st_entries s)) < u32_max)%Z ->
  insert_version s name = (Z.of_nat (length (rows_of s name)) + 1)%Z.
Proof.
  intros Hv Hb. unfold insert_version. assert (Hlen : (length (rows_of s name) <= length (st_entries s))%nat) by apply length_filter.
  destruct (head (rows_desc s name)) as [r|] eqn:Hh.
  - apply head_max in Hh as [Hin Hmax].
    assert (Hr : (1 <= row_version r <= Z.of_nat (length (rows_of s name)))%Z).
    { assert (H : row_version r ∈ row_version <$> rows_of s name) by (apply list_elem_of_fmap; eauto). rewrite Hv in H. apply elem_of_seqZ in H. lia. }
    assert (Hn : Z.of_nat (length (rows_of s name)) ∈ row_version <$> rows_of s name).
    { rewrite Hv. apply elem_of_seqZ. lia. }
    apply list_elem_of_fmap in Hn as (r' & Hn & Hr'). apply Hmax in Hr'.
    unfold u32_max in Hb. rewrite !wrap32_small; unfold is_u32, u32_max; rewrite ?wrap32_small; unfold is_u32, u32_max; lia.
  - unfold rows_desc in Hh. pose proof (stable_sort_perm version_desc (rows_of s name)) as Hp.
    destruct (stable_sort _ _); [|done]. apply Permutation_nil_l in Hp. by rewrite <-Hp.
Qed.

Lemma row_by_hash_None s h : row_by_hash s h = None -> h ∉ row_hash <$> st_entries s.
Proof.
  unfold row_by_hash. destruct (list_find _ _) as [[i r]|] eqn:E; [done|]. apply list_find_None in E. intros _ Hin.
  apply list_elem_of_fmap in Hin as (r & -> & Hr). rewrite Forall_forall in E. by apply (E r).
Qed.

Lemma row_by_hash_Some s h r : row_by_hash s h = Some r -> r ∈ st_entries s /\ row_hash r = h.
Proof.
  unfold row_by_hash. destruct (list_find _ _) as [[i r']|] eqn:E; [|done]. intros [= ->].
  apply list_find_Some in E as (Hi & Hh & _). split; [by eapply list_elem_of_lookup_2|done].
Qed.

Lemma index_free_spec s row :
  index_free s row = true <->
  forall r, r ∈ st_entries s -> row_hash r <> row_hash row /\ ~ (row_name r = row_name row /\ row_version r = row_version row).
Proof.
  unfold index_free. rewrite forallb_forall. setoid_rewrite <-list_elem_of_In.
  setoid_rewrite andb_true_iff. setoid_rewrite negb_true_iff. setoid_rewrite bool_decide_eq_false. done.
Qed.

Lemma create_tag_entries h t s : st_entries (create_tag h t s) = st_entries s /\ st_edges (create_tag h t s) = st_edges s.
Proof. unfold create_tag. by case_bool_decide. Qed.

Lemma fold_tags_entries h tags s :
  st_entries (foldl (fun s tag => create_tag h tag s) s tags) = st_entries s /\
  st_edges (foldl (fun s tag => create_tag h tag s) s tags) = st_edges s.
Proof.
  revert s. induction tags as [|t tags IH]; intros s; [done|]. simpl. destruct (IH (create_tag h t s)) as [-> ->]. apply create_tag_entries.
Qed.

Lemma rows_of_entries s s' name : st_entries s' = st_entries s -> rows_of s' name = rows_of s name.
Proof. unfold rows_of. by intros ->. Qed.

Lemma with_version_sound m v m' : with_version m v = Done m' -> manifest_version m' = Some (show_Z v).
Proof.
  unfold with_version, manifest_version. destruct m; try done; intros [= <-]; [done|]. simpl. by rewrite field_map_insert.
Qed.

Section CatalogFacts.
Context (to_string : json -> string) (sha256_hex : string -> string) (new_v4 : nat -> string) (surfaces : bool).
Notation insert_commit := (insert_commit to_string sha256_hex surfaces).
Notation row_sound := (row_sound to_string sha256_hex).
Notation catalog_ok := (catalog_ok to_string sha256_hex).
Notation task_step := (task_step to_string sha256_hex new_v4 surfaces).

(** What a commit does to the tables: nothing, or one new row. *)
Lemma insert_commit_shape now s entry v r s' :
  insert_commit now s entry v = Done (r, s') ->
  st_edges s' = st_edges s /\
  (st_entries s' = st_entries s \/
   exists row, st_entries s' = st_entries s ++ [row] /\ index_free s row = true /\ row_sound row /\
     row_name row = ne_name entry /\ row_version row = v) /\
  (forall stored, r = Ok stored ->
     re_hash stored ∉ row_hash <$> st_entries s /\
     (st_entries s' = st_entries s \/ exists row, st_entries s' = st_entries s ++ [row] /\ row_hash row = re_hash stored)).
Proof.
  unfold Repository.insert_commit. destruct (with_manifest_version _ v) as [src|] eqn:Hsrc; [|done]. simpl.
  destruct (compute_hash to_string sha256_hex src) as [h|] eqn:Hh; [|done]. simpl. intros H%Done_inj.
  destruct (row_by_hash s h) as [r0|] eqn:Hr0.
  { injection H as <- <-. split; [done|]. split; [by left|]. intros stored. destruct (agent_name_parse _); [|done]. by destruct (version_new _). }
  apply row_by_hash_None in Hr0.
  destruct (version_new v) eqn:Hv; [|injection H as <- <-; split_and!; [done|by left|done]].
  destruct (index_free s _) eqn:Hf.
  - unfold awaited in H. simpl in H. injection H as <- <-. match goal with |- context [foldl _ ?x _] => destruct (fold_tags_entries h (ne_tags entry) x) as [He Hd] end.
    rewrite He, Hd. split; [done|]. split; [|intros stored [= <-]; split; [done|right; by eexists]]. right. eexists. split; [done|].
    split; [done|]. split; [|done]. split; [done|]. simpl. unfold with_manifest_version in Hsrc.
    destruct (with_version _ v) as [m|] eqn:Hm; [|done]. injection Hsrc as <-. simpl. by eapply with_version_sound.
  - destruct (awaited surfaces false).
    + injection H as <- <-. destruct (fold_tags_entries h (ne_tags entry) s) as [-> ->]. split; [done|]. split; [by left|].
      intros stored [= <-]. split; [done|by left].
    + injection H as <- <-. split_and!; [done|by left|done].
Qed.

Lemma edge_forward_grow rows row src tgt : edge_forward rows src tgt -> edge_forward (rows ++ [row]) src tgt.
Proof.
  intros (i & r & Hi & Hs & Hf). exists i, r. pose proof (lookup_lt_Some _ _ _ Hi) as Hlt.
  rewrite lookup_app_l by done. split_and!; [done..|]. intros j r' Hj Ht. destruct (decide (j < length rows)%nat).
  - rewrite lookup_app_l in Hj by done. by eapply Hf.
  - lia.
Qed.

(** Growing the table keeps what tasks rely on. *)
Lemma task_ok_grow s s' t :
  (st_entries s' = st_entries s \/ exists row, st_entries s' = st_entries s ++ [row]) -> task_ok s t -> task_ok s' t.
Proof.
  intros Hg. assert (Hin : forall h, h ∈ row_hash <$> st_entries s -> h ∈ row_hash <$> st_entries s').
  { destruct Hg as [->|(row & ->)]; [done|]. intros h Hh. rewrite fmap_app. apply elem_of_app. by left. }
  assert (Hsrc : forall ds, sources_stored s ds -> sources_stored s' ds).
  { intros ds Hds. eapply Forall_impl; [exact Hds|]. intros d. apply Hin. }
  assert (Hlen : forall n, (length (rows_of s n) <= length (rows_of s' n))%nat).
  { intros n. unfold rows_of. destruct Hg as [->|(row & ->)]; [done|]. rewrite filter_app, length_app. lia. }
  destruct t; simpl; [done|done|apply Hsrc| | |done].
  - intros [Hd Hv]. split; [by apply Hsrc|]. specialize (Hlen (ne_name entry)). lia.
  - intros Hds. eapply Forall_impl; [exact Hds|]. intros d. destruct Hg as [->|(row & ->)]; [done|]. apply edge_forward_grow.
Qed.

Lemma catalog_entries s s' : st_entries s' = st_entries s -> st_edges s' = st_edges s -> catalog_ok s -> catalog_ok s'.
Proof.
  intros He Hd [H1 H2 H3 H4]. split; rewrite ?He, ?Hd; try done. intros name. by rewrite (rows_of_entries s s' name He).
Qed.

(** A new row keeps the catalog in order when its version is at most the next
    one: an older version would clash with the index. *)
Lemma catalog_new_row s s' row :
  catalog_ok s -> st_entries s' = st_entries s ++ [row] -> st_edges s' = st_edges s -> index_free s row = true -> row_sound row ->
  (1 <= row_version row <= Z.of_nat (length (rows_of s (row_name row))) + 1)%Z -> catalog_ok s'.
Proof.
  intros [H1 H2 H3 H4] He Hd Hf Hs Hv. rewrite index_free_spec in Hf. split.
  - rewrite He, fmap_app. apply NoDup_app. split_and!; [done| |apply NoDup_singleton].
    intros h (r & -> & Hr)%list_elem_of_fmap Hh%list_elem_of_singleton. by destruct (Hf r Hr) as [Hne _], Hne.
  - intros name. unfold rows_of. rewrite He, filter_app. fold (rows_of s name). rewrite fmap_app, length_app, H2.
    destruct (decide (row_name row = name)) as [<-|Hne].
    + assert (Hnext : row_version row = (Z.of_nat (length (rows_of s (row_name row))) + 1)%Z).
      { destruct (decide (row_version row <= Z.of_nat (length (rows_of s (row_name row))))%Z); [|lia]. exfalso.
        assert (Hin : row_version row ∈ row_version <$> rows_of s (row_name row)) by (rewrite H2; apply elem_of_seqZ; lia).
        apply list_elem_of_fmap in Hin as (r & Hr & Hin). apply list_elem_of_filter in Hin as [Hn Hin].
        destruct (Hf r Hin) as [_ Hno]. apply Hno. by rewrite Hn, Hr. }
      rewrite filter_cons_True, filter_nil by done. simpl. rewrite Nat2Z.inj_add, seqZ_app by lia. f_equal. simpl.
      rewrite Hnext. unfold seqZ. simpl. f_equal. lia.
    + rewrite filter_cons_False, filter_nil by done. simpl. by rewrite app_nil_r, Nat.add_0_r.
  - rewrite He. apply Forall_app. split; [done|]. constructor; [done|constructor].
  - rewrite He, Hd. eapply Forall_impl; [exact H4|]. intros e. apply edge_forward_grow.
Qed.

Lemma index_hash_sources (s : store) (ds : list edge_descriptor) (hash : string) (s' : store) :
  sources_stored s ds -> hash ∉ row_hash <$> st_entries s ->
  (st_entries s' = st_entries s \/ exists row, st_entries s' = st_entries s ++ [row] /\ row_hash row = hash) ->
  Forall (fun d => edge_forward (st_entries s') (dsc_source d) hash) ds.
Proof.
  intros Hds Hno Hg. eapply Forall_impl; [exact Hds|]. intros d (r & Hr & [i Hi]%list_elem_of_lookup)%list_elem_of_fmap.
  exists i, r. pose proof (lookup_lt_Some _ _ _ Hi) as Hlt.
  assert (Habs : forall j r', st_entries s !! j = Some r' -> row_hash r' <> hash).
  { intros j r' Hj <-. apply Hno, list_elem_of_fmap. exists r'. split; [done|]. by eapply list_elem_of_lookup_2. }
  destruct Hg as [->|(row & -> & Hrow)].
  - split_and!; [done..|]. intros j r' Hj Ht. by destruct (Habs j r' Hj).
  - rewrite lookup_app_l by done. split_and!; [done..|]. intros j r' Hj Ht.
    destruct (decide (j < length (st_entries s))%nat); [|lia]. rewrite lookup_app_l in Hj by done. by destruct (Habs j r' Hj).
Qed.

Lemma get_by_hash_stored s h e : get_by_hash s h = Ok (Some e) -> h ∈ row_hash <$> st_entries s.
Proof.
  unfold get_by_hash, opt_result. destruct (row_by_hash s h) as [r|] eqn:Hr; [|done]. intros _.
  apply row_by_hash_Some in Hr as [Hr <-]. apply list_elem_of_fmap. eauto.
Qed.

Lemma get_latest_stored s name e : get_latest s name = Ok (Some e) -> re_hash e ∈ row_hash <$> st_entries s.
Proof.
  unfold get_latest, opt_result. destruct (head (rows_desc s name)) as [r|] eqn:Hr; [|done].
  apply head_max in Hr as [[_ Hr]%list_elem_of_filter _]. unfold entry_from_row, header_from_row, content_hash_parse.
  destruct (_ && _); [|done]. simpl. destruct (agent_name_parse _); [|done]. simpl. destruct (version_new _); [|done]. simpl.
  destruct (change_rationale_new _); [|done]. simpl. intros [= <-]. simpl. apply list_elem_of_fmap. eauto.
Qed.

Lemma check_influences_stored s m infs p : check_influences s m infs = Ok p -> sources_stored s p.2.
Proof.
  revert m p. induction infs as [|inf infs IH]; intros m p; cbn [check_influences]; [intros [= <-]; constructor|].
  destruct (get_by_hash s (in_source inf)) as [[e|]|] eqn:Hg; [|done..]. simpl. destruct (check_influences s _ infs) as [q|] eqn:Hc; [|done].
  simpl. intros [= <-]. constructor; [by eapply get_by_hash_stored|by eapply IH].
Qed.

Lemma plan_publish_sources s cmd entry ds : plan_publish s cmd = Ok (entry, ds) -> sources_stored s ds.
Proof.
  unfold plan_publish. destruct (pc_origin cmd) as [| |infs].
  - intros [= <- <-]. constructor.
  - destruct (get_latest s (pc_name cmd)) as [[e|]|] eqn:Hg; [| |done]; simpl; intros [= <- <-]; [|constructor].
    constructor; [by eapply get_latest_stored|constructor].
  - destruct (check_influences s _ infs) as [p|] eqn:Hc; [|done]. simpl. intros [= <- <-]. by eapply check_influences_stored.
Qed.

Lemma plan_fork_sources s cmd entry ds : plan_fork s cmd = Ok (entry, ds) -> sources_stored s ds.
Proof.
  unfold plan_fork. destruct (get_by_hash s _) as [[e|]|] eqn:Hg; [|done..]. simpl. intros [= <- <-].
  constructor; [by eapply get_by_hash_stored|constructor].
Qed.

(** One step of a task keeps the catalog in order and the task consistent. *)
Lemma task_step_ok now s t t' s' :
  (Z.of_nat (length (st_entries s)) < u32_max)%Z -> catalog_ok s -> task_ok s t -> task_step now s t = (t', s') ->
  catalog_ok s' /\ task_ok s' t' /\ (st_entries s' = st_entries s \/ exists row, st_entries s' = st_entries s ++ [row]).
Proof.
  intros Hb Hc Ht. destruct t as [cmd|cmd|entry ds|entry v ds|r ds|r]; cbn [Repository.task_step].
  - intros [= <- <-]. split; [done|]. split; [|by left]. unfold planned. destruct (plan_publish s cmd) as [[e ds]|] eqn:Hp; [|done].
    by eapply plan_publish_sources.
  - intros [= <- <-]. split; [done|]. split; [|by left]. unfold planned. destruct (plan_fork s cmd) as [[e ds]|] eqn:Hp; [|done].
    by eapply plan_fork_sources.
  - intros [= <- <-]. split; [done|]. split; [|by left]. split; [done|]. rewrite insert_version_spec by (done || apply Hc). lia.
  - destruct Ht as [Hds Hv]. destruct (insert_commit now s entry v) as [[r s1]|] eqn:Hi; [|intros [= <- <-]; by split_and!; [|done|left]].
    destruct (insert_commit_shape _ _ _ _ _ _ Hi) as (Hd & Hg & Hst).
    assert (Hc' : catalog_ok s1).
    { destruct Hg as [He|(row & He & Hf & Hsound & Hn & Hver)]; [by eapply catalog_entries|].
      eapply catalog_new_row; [done|exact He|done..|]. rewrite Hver, Hn. lia. }
    assert (Hgrow : st_entries s1 = st_entries s \/ exists row, st_entries s1 = st_entries s ++ [row]).
    { destruct Hg as [?|(row & ? & _)]; [by left|right; eauto]. }
    destruct r as [stored|e]; intros [= <- <-]; [|by split_and!].
    split; [done|]. split; [|done]. simpl. destruct (Hst stored eq_refl) as [Hno Hrow]. by eapply index_hash_sources.
  - destruct ds as [|d ds]; [intros [= <- <-]; by split_and!; [|done|left]|].
    unfold create_edge. simpl. set (free := negb _). apply Forall_cons in Ht as [Hd Hds].
    intros H. assert (Hcat : catalog_ok (mkStore (st_entries s) (st_tags s)
      (if free then st_edges s ++ [mkEdge (new_v4 (st_uuids s)) (dsc_source d) (pr_hash r) (dsc_kind d) (dsc_description d)] else st_edges s)
      (st_blobs s) (S (st_uuids s)))).
    { destruct Hc as [H1 H2 H3 H4]. split; simpl; [done|done|done|]. destruct free; [|done]. apply Forall_app. split; [done|].
      constructor; [done|constructor]. }
    destruct (awaited surfaces free); injection H as <- <-; by split_and!; [|done|left].
  - intros [= <- <-]. by split_and!; [|done|left].
Qed.

Definition system_ok (x : system) : Prop :=
  catalog_ok (sys_store x) /\ Forall (task_ok (sys_store x)) (sys_tasks x).

Lemma step_ok x y :
  (Z.of_nat (length (st_entries (sys_store x))) < u32_max)%Z -> system_ok x ->
  step to_string sha256_hex new_v4 surfaces x y -> system_ok y.
Proof.
  intros Hb [Hc Ht]. destruct 1 as [s ts cmd|s ts cmd|s ts i t t' s' now Hi Hstep|s ts h tag|s ts h tag|s ts h data]; simpl in *.
  - split; [done|]. apply Forall_app. split; [done|]. constructor; [done|constructor].
  - split; [done|]. apply Forall_app. split; [done|]. constructor; [done|constructor].
  - destruct (task_step_ok now s t t' s' Hb Hc) as (Hc' & Ht' & Hg); [by eapply Forall_lookup_1|done|].
    split; [done|]. simpl. apply Forall_insert; [|done]. eapply Forall_impl; [exact Ht|]. intros u. by apply task_ok_grow.
  - assert (He : st_entries (add_tag s h tag).2 = st_entries s /\ st_edges (add_tag s h tag).2 = st_edges s).
    { unfold add_tag. destruct (get_by_hash s h) as [[e|]|]; [|done..]. apply create_tag_entries. }
    destruct He as [He Hd]. split; [by apply (catalog_entries s)|]. simpl. eapply Forall_impl; [exact Ht|]. intros u. apply task_ok_grow. by left.
  - split; [by apply (catalog_entries s)|]. simpl. eapply Forall_impl; [exact Ht|]. intros u. apply task_ok_grow. by left.
  - split; [by apply (catalog_entries s)|]. simpl. eapply Forall_impl; [exact Ht|]. intros u. apply task_ok_grow. by left.
Qed.

Lemma step_entries_grow x y :
  step to_string sha256_hex new_v4 surfaces x y -> (length (st_entries (sys_store x)) <= length (st_entries (sys_store y)))%nat.
Proof.
  destruct 1 as [s ts cmd|s ts cmd|s ts i t t' s' now Hi Hstep|s ts h tag|s ts h tag|s ts h data]; simpl; try done.
  - destruct t as [cmd|cmd|entry ds|entry v ds|r ds|r]; cbn [Repository.task_step] in Hstep; try (injection Hstep as <- <-; done).
    + destruct (insert_commit now s entry v) as [[r s1]|] eqn:Hc; [|by injection Hstep as <- <-].
      destruct (insert_commit_shape _ _ _ _ _ _ Hc) as (_ & Hg & _).
      assert (Hle : (length (st_entries s) <= length (st_entries s1))%nat).
      { destruct Hg as [->|(row & -> & _)]; [done|]. rewrite length_app. lia. }
      by destruct r; injection Hstep as <- <-.
    + destruct ds; [by injection Hstep as <- <-|]. unfold create_edge in Hstep. simpl in Hstep.
      by destruct (awaited _ _); injection Hstep as <- <-.
  - unfold add_tag. destruct (get_by_hash s h) as [[e|]|]; simpl; [|done..]. by rewrite (proj1 (create_tag_entries h tag s)).
Qed.
End CatalogFacts.

(** The catalog's order makes its lineage acyclic. *)
Lemma edge_forward_irreflexive rows h : ~ edge_forward rows h h.
Proof. intros (i & r & Hi & Hh & Hf). specialize (Hf i r Hi Hh). lia. Qed.

Lemma reachable_catalog to_string sha256_hex new_v4 surfaces x :
  reachable to_string sha256_hex new_v4 surfaces x ->
  (Z.of_nat (length (st_entries (sys_store x))) < u32_max)%Z ->
  catalog_ok to_string sha256_hex (sys_store x).
Proof.
  intros Hr Hb. enough (Hok : system_ok to_string sha256_hex x) by apply Hok. revert Hb. induction Hr as [|x y Hx IH Hs]; intros Hb.
  - split; [|constructor]. split; simpl; [constructor|done|constructor..].
  - pose proof (step_entries_grow _ _ _ _ _ _ Hs). eapply step_ok; [|apply IH|exact Hs]; lia.
Qed.

(** *** Publishing and reading back *)

Definition decodable (name rationale : string) : Prop :=
  agent_name_parse name = Ok name /\ change_rationale_new rationale = Some rationale.

Lemma find_row_app rows row h :
  h ∉ row_hash <$> rows -> row_hash row = h ->
  list_find (fun r => row_hash r = h) (rows ++ [row]) = Some (length rows, row).
Proof.
  intros Hno Hh. apply list_find_Some. split_and!; [by apply list_lookup_middle|done|].
  intros j y Hj Hlt Hy. rewrite lookup_app_l in Hj by done. apply Hno, list_elem_of_fmap. exists y.
  split; [done|by eapply list_elem_of_lookup_2].
Qed.

Section ReadBack.
Context (to_string : json -> string) (sha256_hex : string -> string) (new_v4 : nat -> string) (surfaces : bool).
Context (sha_hex : forall x, content_hash_parse (sha256_hex x) = Ok (sha256_hex x)).
Notation catalog_ok := (catalog_ok to_string sha256_hex).
Notation insert_commit := (insert_commit to_string sha256_hex surfaces).
Notation record_edges := (record_edges new_v4 surfaces).

Lemma record_edges_entries s h ds r s' : record_edges s h ds = (r, s') -> st_entries s' = st_entries s /\ st_tags s' = st_tags s.
Proof.
  revert s. induction ds as [|d ds IH]; intros s; cbn [Repository.record_edges]; [by intros [= <- <-]|].
  unfold create_edge. simpl. destruct (awaited _ _); [|by intros [= <- <-]]. intros H%IH. done.
Qed.

(** In a catalog in order the next version is free. *)
Lemma insert_free s name row :
  catalog_ok s -> (Z.of_nat (length (st_entries s)) < u32_max)%Z ->
  row_name row = name -> row_version row = insert_version s name -> row_hash row ∉ row_hash <$> st_entries s -> index_free s row = true.
Proof.
  intros Hc Hb Hn Hv Hno. apply index_free_spec. intros r Hr. split.
  - intros Hh. apply Hno. rewrite <-Hh. apply list_elem_of_fmap. eauto.
  - intros [Hn' Hv']. rewrite insert_version_spec in Hv by (done || apply Hc).
    assert (Hin : row_version r ∈ row_version <$> rows_of s name).
    { apply list_elem_of_fmap. exists r. split; [done|]. apply list_elem_of_filter. split; [congruence|done]. }
    rewrite (cat_versions _ _ _ Hc) in Hin. apply elem_of_seqZ in Hin. lia.
Qed.

(** The commit of a sequential insert, spelled out. *)
Lemma insert_entry_stores now s entry stored s' :
  catalog_ok s -> (Z.of_nat (length (st_entries s)) < u32_max)%Z ->
  insert_entry to_string sha256_hex surfaces now s entry = Done (Ok stored, s') ->
  exists src, with_manifest_version (ne_source entry) (insert_version s (ne_name entry)) = Done src /\
    compute_hash to_string sha256_hex src = Done (re_hash stored) /\
    re_hash stored ∉ row_hash <$> st_entries s /\
    st_entries s' = st_entries s ++ [mkRow (re_hash stored) (ne_name entry) (insert_version s (ne_name entry))
      (ne_generation entry) (ne_parentage entry) src (ne_rationale entry) now] /\
    re_version_ref stored = mkVersionRef (ne_name entry) (insert_version s (ne_name entry)) /\
    re_generation stored = ne_generation entry.
Proof.
  intros Hc Hb. unfold insert_entry, Repository.insert_commit. set (v := insert_version s (ne_name entry)).
  assert (Hv : version_new v = Ok v).
  { unfold version_new. replace (v =? 0)%Z with false; [done|]. symmetry. apply Z.eqb_neq.
    unfold v. rewrite insert_version_spec by (done || apply Hc). lia. }
  destruct (with_manifest_version _ v) as [src|] eqn:Hsrc; [|done]. simpl.
  destruct (compute_hash to_string sha256_hex src) as [h|] eqn:Hh; [|done]. simpl. intros H%Done_inj.
  destruct (row_by_hash s h) as [r0|] eqn:Hr0.
  { injection H as H _. destruct (agent_name_parse (row_name r0)); [|done]. by destruct (version_new (row_version r0)). }
  apply row_by_hash_None in Hr0. rewrite Hv in H.
  rewrite (insert_free s (ne_name entry) (mkRow h (ne_name entry) v (ne_generation entry) (ne_parentage entry) src (ne_rationale entry) now)
    Hc Hb eq_refl eq_refl Hr0) in H. unfold awaited in H. simpl in H. injection H as <- <-.
  exists src. simpl. split_and!; try done.
  match goal with |- context [foldl _ ?x _] => destruct (fold_tags_entries h (ne_tags entry) x) as [He _] end. by rewrite He.
Qed.

Lemma stored_row_reads s h row :
  row_by_hash s h = Some row -> (exists x, h = sha256_hex x) -> decodable (row_name row) (row_rationale row) -> row_version row <> 0%Z ->
  exists e, get_by_hash s h = Ok (Some e) /\ re_hash e = h /\ re_source e = row_source row /\
    re_version_ref e = mkVersionRef (row_name row) (row_version row) /\ re_generation e = row_generation row /\
    re_parentage e = row_parentage row.
Proof.
  intros Hr [x Hx] [Hn Hrat] Hv. unfold get_by_hash. rewrite Hr. simpl. unfold entry_from_row, header_from_row.
  apply row_by_hash_Some in Hr as [_ Hh]. rewrite Hh, Hx, sha_hex. simpl. rewrite Hn. simpl.
  unfold version_new. rewrite (proj2 (Z.eqb_neq _ _) Hv). simpl. rewrite Hrat. simpl. by eexists.
Qed.
End ReadBack.

(** The newest row of a name. *)
Lemma head_newest s s' name row :
  row_version <$> rows_of s name = seqZ 1 (Z.of_nat (length (rows_of s name))) ->
  rows_of s' name = rows_of s name ++ [row] -> row_version row = (Z.of_nat (length (rows_of s name)) + 1)%Z ->
  head (rows_desc s' name) = Some row.
Proof.
  intros Hv Hr Hrow. assert (Hold : forall r, r ∈ rows_of s name -> (row_version r <= Z.of_nat (length (rows_of s name)))%Z).
  { intros r Hin. assert (H : row_version r ∈ row_version <$> rows_of s name) by (apply list_elem_of_fmap; eauto).
    rewrite Hv in H. apply elem_of_seqZ in H. lia. }
  destruct (head (rows_desc s' name)) as [h|] eqn:Hh.
  - apply head_max in Hh as [Hin Hmax]. rewrite Hr in Hin, Hmax. specialize (Hmax row ltac:(apply elem_of_app; right; by left)).
    apply elem_of_app in Hin as [Hin|Hin%list_elem_of_singleton]; [apply Hold in Hin; lia|congruence].
  - unfold rows_desc in Hh. pose proof (stable_sort_perm version_desc (rows_of s' name)) as Hp.
    destruct (stable_sort _ _); [|done]. apply Permutation_nil_l in Hp. rewrite Hr in Hp. by destruct (rows_of s name).
Qed.

Lemma announced_version s name v :
  row_version <$> rows_of s name = seqZ 1 (Z.of_nat (length (rows_of s name))) ->
  (Z.of_nat (length (st_entries s)) < u32_max)%Z ->
  next_version_for_agent s name = Ok v -> v = (Z.of_nat (length (rows_of s name)) + 1)%Z.
Proof.
  intros Hv Hb. assert (Hlen : (length (rows_of s name) <= length (st_entries s))%nat) by apply length_filter.
  pose proof (insert_version_spec s name Hv Hb) as Hi. unfold insert_version in Hi.
  unfold next_version_for_agent, get_latest, opt_result. destruct (head (rows_desc s name)) as [r|] eqn:Hh; [|simpl; intros [= <-]; done].
  apply head_max in Hh as [Hin _]. assert (Hr : row_version r ∈ row_version <$> rows_of s name) by (apply list_elem_of_fmap; eauto).
  rewrite Hv in Hr. apply elem_of_seqZ in Hr. unfold u32_max in Hb.
  rewrite !wrap32_small in Hi by (unfold is_u32, u32_max; rewrite ?wrap32_small; unfold is_u32, u32_max; lia).
  unfold entry_from_row, header_from_row. destruct (content_hash_parse _); [|done]. simpl. destruct (agent_name_parse _); [|done]. simpl.
  unfold version_new. destruct (Z.eqb_spec (row_version r) 0); [done|]. simpl. destruct (change_rationale_new _); [|done]. simpl.
  intros [= <-]. unfold sat_add, u32_max. lia.
Qed.

(** A publication that succeeds can be read back: in a catalog in order,
    the entry is stored under the returned hash with the next version of its
    name (the one [next_version_for_agent] announced), its source is the
    published one with that version in the manifest, and it is the newest entry
    of its name. *)
Theorem publish_reads_back to_string sha256_hex new_v4 surfaces now s cmd r s' :
  (forall x, content_hash_parse (sha256_hex x) = Ok (sha256_hex x)) ->
  catalog_ok to_string sha256_hex s -> (Z.of_nat (length (st_entries s)) < u32_max)%Z ->
  decodable (pc_name cmd) (pc_rationale cmd) ->
  publish to_string sha256_hex new_v4 surfaces now s cmd = Done (Ok r, s') ->
  exists e v, pr_version_ref r = mkVersionRef (pc_name cmd) v /\
    v = (Z.of_nat (length (rows_of s (pc_name cmd))) + 1)%Z /\
    (forall announced, next_version_for_agent s (pc_name cmd) = Ok announced -> announced = v) /\
    get_by_hash s' (pr_hash r) = Ok (Some e) /\ re_version_ref e = pr_version_ref r /\
    with_manifest_version (pc_source cmd) v = Done (re_source e) /\
    get_latest s' (pc_name cmd) = Ok (Some e).
Proof.
  intros Hsha Hc Hb Hdec. unfold publish, insert_and_link.
  destruct (plan_publish s cmd) as [[entry ds]|] eqn:Hp; [|done].
  assert (Hentry : ne_name entry = pc_name cmd /\ ne_source entry = pc_source cmd /\ ne_rationale entry = pc_rationale cmd).
  { unfold plan_publish in Hp. destruct (pc_origin cmd) as [| |infs]; [by injection Hp as <- <-| |].
    - destruct (get_latest s (pc_name cmd)) as [[?|]|]; [| |done]; by injection Hp as <- <-.
    - destruct (check_influences s _ infs); [|done]. by injection Hp as <- <-. }
  destruct Hentry as (Hn & Hs & Hrat).
  destruct (insert_entry to_string sha256_hex surfaces now s entry) as [[[stored|] s1]|] eqn:Hi; [|done..]. simpl.
  destruct (insert_entry_stores _ _ _ _ _ _ _ _ Hc Hb Hi) as (src & Hsrc & Hh & Hno & He & Hvr & Hg).
  rewrite Hn, Hs, Hrat in *. rewrite (insert_version_spec s (pc_name cmd) (cat_versions _ _ _ Hc _) Hb) in *.
  destruct (record_edges new_v4 surfaces s1 (re_hash stored) ds) as [[[]|] s2] eqn:Hr; intros H%Done_inj; [|done].
  injection H as <- <-. apply record_edges_entries in Hr as [He2 _]. rewrite He in He2. simpl.
  set (row := mkRow (re_hash stored) (pc_name cmd) _ _ _ _ _ _) in He2.
  assert (Hby : row_by_hash s2 (re_hash stored) = Some row).
  { unfold row_by_hash. rewrite He2, find_row_app by done. done. }
  assert (Hx : exists x, re_hash stored = sha256_hex x).
  { unfold compute_hash, canonical_hash in Hh. destruct (feed _ _) as [b|]; [|done]. injection Hh as <-. by exists b. }
  destruct (stored_row_reads sha256_hex Hsha s2 _ row Hby Hx Hdec ltac:(simpl; lia)) as (e & Hget & Heh & Hes & Hev & _).
  exists e, (Z.of_nat (length (rows_of s (pc_name cmd))) + 1)%Z. split; [done|]. split; [done|].
  split; [intros a; by apply announced_version, Hb; apply Hc|]. split; [done|]. split; [by rewrite Hev, Hvr|]. split; [by rewrite Hes|].
  unfold get_latest. rewrite (head_newest s s2 (pc_name cmd) row).
  - unfold get_by_hash in Hget. rewrite Hby in Hget. done.
  - apply Hc.
  - unfold rows_of. rewrite He2, filter_app. by rewrite filter_cons_True.
  - done.
Qed.

(** ** Runs *)

Section Runs.
Context (to_string : json -> string) (sha256_hex : string -> string) (new_v4 : nat -> string) (surfaces : bool).

(** Run the tasks named by a schedule, one statement each. *)
Fixpoint exec (now : string) (schedule : list nat) (x : system) : system :=
  match schedule with
  | [] => x
  | i :: rest =>
      match sys_tasks x !! i with
      | None => exec now rest x
      | Some t =>
          let '(t', s') := task_step to_string sha256_hex new_v4 surfaces now (sys_store x) t in
          exec now rest (mkSystem s' (<[i := t']> (sys_tasks x)))
      end
  end.

Lemma exec_reachable now schedule x :
  reachable to_string sha256_hex new_v4 surfaces x -> reachable to_string sha256_hex new_v4 surfaces (exec now schedule x).
Proof.
  revert x. induction schedule as [|i rest IH]; intros x Hx; [done|]. cbn [exec].
  destruct (sys_tasks x !! i) as [t|] eqn:Hi; [|by apply IH].
  destruct (task_step _ _ _ _ _ _ _) as [t' s'] eqn:Hs. apply IH. eapply reach_step; [exact Hx|]. destruct x as [s ts]. by eapply step_task.
Qed.

Fixpoint spawn (cmds : list PublishCommand) (x : system) : system :=
  match cmds with [] => x | c :: rest => spawn rest (mkSystem (sys_store x) (sys_tasks x ++ [TPublish c])) end.

Lemma spawn_reachable cmds x :
  reachable to_string sha256_hex new_v4 surfaces x -> reachable to_string sha256_hex new_v4 surfaces (spawn cmds x).
Proof.
  revert x. induction cmds as [|c cmds IH]; intros x Hx; [done|]. simpl. apply IH. eapply reach_step; [exact Hx|]. destruct x. constructor.
Qed.

(** What a publication has reported, or will. *)
Definition reported (t : task) : option PublishResult :=
  match t with TEdges r _ | TEnd (Done (Ok r)) => Some r | _ => None end.

(** The version a publication was given belongs to an entry already. *)
Definition taken (s : store) (v : VersionRef) : Prop :=
  exists r, r ∈ st_entries s /\ row_name r = vr_name v /\ row_version r = vr_version v.

(** A reported publication is stored or, unless failed statements are
    reported, lost to another one of the same version. *)
Definition stored_or_lost (s : store) (r : PublishResult) : Prop :=
  pr_hash r ∈ row_hash <$> st_entries s \/ surfaces = false /\ taken s (pr_version_ref r).

(** The target of an edge is stored, or the edge is of a reported publication. *)
Definition target_accounted (x : system) (e : LineageEdge) : Prop :=
  ed_target e ∈ row_hash <$> st_entries (sys_store x) \/
  surfaces = false /\ exists t r, t ∈ sys_tasks x /\ reported t = Some r /\ pr_hash r = ed_target e.

Definition accounted (x : system) : Prop :=
  Forall (fun t => forall r, reported t = Some r -> stored_or_lost (sys_store x) r) (sys_tasks x) /\
  Forall (target_accounted x) (st_edges (sys_store x)).

(** What an edge of the catalog means: both its ends are entries, the source
    the older one; or its target is a publication that reported success and
    lost the race for its version, so that it has no entry. *)
Definition edge_linked (rows : list entry_row) (e : LineageEdge) : Prop :=
  exists i j r r', (i < j)%nat /\ rows !! i = Some r /\ row_hash r = ed_source e /\ rows !! j = Some r' /\ row_hash r' = ed_target e.

Definition edge_of_lost (x : system) (e : LineageEdge) : Prop :=
  ed_source e ∈ row_hash <$> st_entries (sys_store x) /\ ed_target e ∉ row_hash <$> st_entries (sys_store x) /\
  exists t r, t ∈ sys_tasks x /\ reported t = Some r /\ pr_hash r = ed_target e /\ taken (sys_store x) (pr_version_ref r).
End Runs.

Lemma elem_of_hashes_grow (rows rows' : list entry_row) h :
  (rows' = rows \/ exists row, rows' = rows ++ [row]) -> h ∈ row_hash <$> rows -> h ∈ row_hash <$> rows'.
Proof. intros [->|(row & ->)]; [done|]. rewrite fmap_app. intros Hh. apply elem_of_app. by left. Qed.

Definition grown (s s' : store) : Prop :=
  st_entries s' = st_entries s \/ exists row, st_entries s' = st_entries s ++ [row].

Lemma taken_grown s s' v : grown s s' -> taken s v -> taken s' v.
Proof.
  intros Hg (r & Hr & H). exists r. split; [|done]. destruct Hg as [->|(row & ->)]; [done|]. apply elem_of_app. by left.
Qed.

Section Accounts.
Context (to_string : json -> string) (sha256_hex : string -> string) (new_v4 : nat -> string) (surfaces : bool).
Notation insert_commit := (insert_commit to_string sha256_hex surfaces).
Notation task_step := (task_step to_string sha256_hex new_v4 surfaces).
Notation stored_or_lost := (stored_or_lost surfaces).
Notation target_accounted := (target_accounted surfaces).
Notation accounted := (accounted surfaces).

Lemma stored_or_lost_grown s s' r : grown s s' -> stored_or_lost s r -> stored_or_lost s' r.
Proof.
  intros Hg [H|[Hs H]]; [left; by eapply elem_of_hashes_grow|right]. split; [done|by eapply taken_grown].
Qed.

Lemma insert_commit_grown now s entry v r s' : insert_commit now s entry v = Done (r, s') -> grown s s'.
Proof.
  intros H. destruct (insert_commit_shape _ _ _ _ _ _ _ _ _ H) as (_ & [?|(row & ? & _)] & _); [by left|right; eauto].
Qed.

(** A commit that confirms an entry has stored it, or found its version taken. *)
Lemma commit_stores_or_loses now s entry v stored s' :
  insert_commit now s entry v = Done (Ok stored, s') ->
  stored_or_lost s' (mkPublished (re_hash stored) (re_version_ref stored) (re_generation stored)).
Proof.
  unfold Repository.insert_commit. destruct (with_manifest_version _ v) as [src|]; [|done]. simpl.
  destruct (compute_hash _ _ src) as [h|]; [|done]. simpl. intros H%Done_inj. destruct (row_by_hash s h) as [r0|] eqn:Hr0.
  { injection H as H _. destruct (agent_name_parse _); [|done]. by destruct (version_new _). }
  apply row_by_hash_None in Hr0. destruct (version_new v) as [v'|] eqn:Hv; [|done].
  assert (v' = v) as -> by (unfold version_new in Hv; by destruct (v =? 0)%Z; [|injection Hv as <-]).
  unfold awaited in H. destruct (index_free s _) eqn:Hf.
  - simpl in H. injection H as <- <-. left. simpl.
    match goal with |- context [foldl _ ?x _] => destruct (fold_tags_entries h (ne_tags entry) x) as [-> _] end. simpl.
    rewrite fmap_app. apply elem_of_app. right. by left.
  - destruct (false || negb surfaces) eqn:Ha; [|done]. injection H as <- <-. right. split; [by destruct surfaces|].
    apply not_true_iff_false in Hf. unfold taken. simpl. destruct (fold_tags_entries h (ne_tags entry) s) as [-> _].
    unfold index_free in Hf. rewrite forallb_forall in Hf.
    destruct (decide (Exists (fun r => row_name r = ne_name entry /\ row_version r = v) (st_entries s))) as [Hx|Hx].
    + apply Exists_exists in Hx as (r & Hr & H1 & H2). eauto.
    + destruct Hf. intros r Hr%list_elem_of_In. simpl. rewrite !bool_decide_eq_false_2; [done| |].
      * intros Hno. apply Hx, Exists_exists. eauto.
      * intros <-. apply Hr0, list_elem_of_fmap. eauto.
Qed.

(** What one step of a task does to what it reports and to the edges. *)
Lemma task_step_accounted now s t t' s' :
  (forall r, reported t = Some r -> stored_or_lost s r) -> task_step now s t = (t', s') ->
  grown s s' /\ (forall r, reported t' = Some r -> stored_or_lost s' r) /\
  (forall r, reported t = Some r -> surfaces = false -> reported t' = Some r) /\
  (forall e, e ∈ st_edges s' -> e ∈ st_edges s \/ exists r, reported t = Some r /\ pr_hash r = ed_target e).
Proof.
  intros Ht. destruct t as [cmd|cmd|entry ds|entry v ds|r ds|r]; cbn [Repository.task_step].
  - intros [= <- <-]. unfold planned. destruct (plan_publish s cmd) as [[]|]; split_and!; (by left) || naive_solver.
  - intros [= <- <-]. unfold planned. destruct (plan_fork s cmd) as [[]|]; split_and!; (by left) || naive_solver.
  - intros [= <- <-]. split_and!; (by left) || naive_solver.
  - destruct (insert_commit now s entry v) as [[r s1]|] eqn:Hc; [|intros [= <- <-]; split_and!; (by left) || naive_solver].
    pose proof (insert_commit_grown _ _ _ _ _ _ Hc) as Hg. destruct (insert_commit_shape _ _ _ _ _ _ _ _ _ Hc) as (Hd & _ & _).
    destruct r as [stored|]; intros [= <- <-]; rewrite Hd; (split_and!; [done| |done|by left]); [|done].
    intros r [= <-]. by eapply commit_stores_or_loses.
  - destruct ds as [|d ds]; [intros [= <- <-]; split_and!; (by left) || naive_solver|]. unfold create_edge. simpl.
    set (free := negb _). intros H.
    assert (Hs' : s' = mkStore (st_entries s) (st_tags s) (if free then st_edges s ++ [mkEdge (new_v4 (st_uuids s)) (dsc_source d)
      (pr_hash r) (dsc_kind d) (dsc_description d)] else st_edges s) (st_blobs s) (S (st_uuids s))).
    { by destruct (awaited surfaces free); injection H as <- <-. }
    split; [left; by subst s'|]. split.
    { assert (Hok : stored_or_lost s' r) by (subst s'; by apply Ht). destruct (awaited _ _); injection H as <- _; intros r' [= <-]. done. }
    split.
    { intros r' [= <-] Hf. unfold awaited in H. rewrite Hf, orb_true_r in H. by injection H as <- _. }
    subst s'. simpl. intros e. destruct free; [|by left]. rewrite elem_of_app, list_elem_of_singleton. intros [?| ->]; [by left|right; by exists r].
  - intros [= <- <-]. split_and!; (by left) || naive_solver.
Qed.

(** The tables a step that is not a task's leaves alone. *)
Lemma accounted_tasks s s' ts ts' :
  st_entries s' = st_entries s -> st_edges s' = st_edges s -> (forall t, t ∈ ts -> t ∈ ts') ->
  Forall (fun t => t ∈ ts \/ reported t = None) ts' -> accounted (mkSystem s ts) -> accounted (mkSystem s' ts').
Proof.
  intros He Hd Hin Hnew [Ht Hx]. unfold accounted, target_accounted, stored_or_lost, taken in *. simpl in *. rewrite He, Hd. split.
  - rewrite Forall_forall in Hnew, Ht |- *. intros t Hts r Hr. destruct (Hnew t Hts) as [?|Hno]; [by eapply Ht|by rewrite Hno in Hr].
  - eapply Forall_impl; [exact Hx|]. intros e [?|(Hs & t & r & Hr & H)]; [by left|right]. split; [done|]. exists t, r. auto.
Qed.

Lemma step_accounted x y : accounted x -> step to_string sha256_hex new_v4 surfaces x y -> accounted y.
Proof.
  intros Hx Hs. destruct Hs as [s ts cmd|s ts cmd|s ts i t t' s' now Hi Hstep|s ts h tag|s ts h tag|s ts h data].
  - eapply accounted_tasks; [done..| | |exact Hx]; [intros u ?; apply elem_of_app; by left|].
    apply Forall_app. split; [apply Forall_forall; auto|]. constructor; [by right|constructor].
  - eapply accounted_tasks; [done..| | |exact Hx]; [intros u ?; apply elem_of_app; by left|].
    apply Forall_app. split; [apply Forall_forall; auto|]. constructor; [by right|constructor].
  - destruct Hx as [Ht Hx]. unfold accounted. simpl in *. pose proof (Forall_lookup_1 _ _ _ _ Ht Hi) as Hti. simpl in Hti.
    destruct (task_step_accounted now s t t' s' Hti Hstep) as (Hg & Ht' & Hkeep & Hed). split.
    + apply Forall_insert; [|done]. eapply Forall_impl; [exact Ht|]. intros u Hu r Hr. by eapply stored_or_lost_grown, Hu.
    + assert (Hi' : t' ∈ <[i:=t']> ts).
      { apply (list_elem_of_lookup_2 _ i), list_lookup_insert_eq. by eapply lookup_lt_Some. }
      apply Forall_forall. intros e He. rewrite Forall_forall in Hx. unfold target_accounted. simpl. destruct (Hed e He) as [Hold|(r & Hr & Hh)].
      * destruct (Hx e Hold) as [Hin|(Hsf & u & r & Hu & Hr & Hh)]; [left; by eapply elem_of_hashes_grow|right]. split; [done|].
        apply list_elem_of_lookup in Hu as [j Hj]. simpl in Hj. destruct (decide (i = j)) as [->|Hne].
        -- exists t', r. rewrite Hj in Hi. injection Hi as ->. split_and!; [done|by apply Hkeep|done].
        -- exists u, r. split; [|done]. apply (list_elem_of_lookup_2 _ j). by rewrite list_lookup_insert_ne.
      * destruct (Hti r Hr) as [Hin|[Hsf _]]; [left; rewrite <-Hh; by eapply elem_of_hashes_grow|right]. split; [done|].
        exists t', r. split_and!; [done|by apply Hkeep|done].
  - assert (He : st_entries (add_tag s h tag).2 = st_entries s /\ st_edges (add_tag s h tag).2 = st_edges s).
    { unfold add_tag. destruct (get_by_hash s h) as [[e|]|]; [|done..]. apply create_tag_entries. }
    eapply accounted_tasks; [apply He..|done| |exact Hx]. apply Forall_forall. auto.
  - eapply accounted_tasks; [done..| |exact Hx]. apply Forall_forall. auto.
  - eapply accounted_tasks; [done..| |exact Hx]. apply Forall_forall. auto.
Qed.

Lemma reachable_accounted x : reachable to_string sha256_hex new_v4 surfaces x -> accounted x.
Proof. induction 1 as [|x y _ IH Hs]; [split; constructor|by eapply step_accounted]. Qed.

(** An edge that goes forward ends at a later entry once its target is one. *)
Lemma edge_forward_linked rows e :
  edge_forward rows (ed_source e) (ed_target e) -> ed_target e ∈ row_hash <$> rows -> edge_linked rows e.
Proof.
  intros (i & r & Hi & Hr & Hf) (r' & Hr' & [j Hj]%list_elem_of_lookup)%list_elem_of_fmap. exists i, j, r, r'.
  split_and!; [|done..]. by eapply Hf.
Qed.

Lemma edge_forward_source rows src tgt : edge_forward rows src tgt -> src ∈ row_hash <$> rows.
Proof. intros (i & r & Hi & <- & _). apply list_elem_of_fmap. exists r. split; [done|by eapply list_elem_of_lookup_2]. Qed.
End Accounts.

(** C34: However publications, forks and tag updates interleave, the catalog
    stays consistent as long as it has fewer than [u32_max] entries: no hash
    and no version of a name is stored twice, the versions of every name are
    1, 2, 3, ... without a gap, and every entry is stored under the hash of its
    own source, whose manifest carries its version.  Every lineage edge
    connects two entries, the source being the older one; the one exception,
    possible only where awaiting a query does not report a failed statement, is
    an edge of a publication that reported success but lost the race for its
    version: its source is an entry, its target has none, and the version it
    was given belongs to another entry. *)
Theorem catalog_consistent to_string sha256_hex new_v4 surfaces x :
  reachable to_string sha256_hex new_v4 surfaces x ->
  (Z.of_nat (length (st_entries (sys_store x))) < u32_max)%Z ->
  catalog_ok to_string sha256_hex (sys_store x) /\
  Forall (fun e => edge_linked (st_entries (sys_store x)) e \/ surfaces = false /\ edge_of_lost x e) (st_edges (sys_store x)).
Proof.
  intros Hr Hb. pose proof (reachable_catalog _ _ _ _ _ Hr Hb) as Hc. split; [done|].
  destruct (reachable_accounted _ _ _ _ _ Hr) as [Ht He]. pose proof (cat_edges _ _ _ Hc) as Hf. rewrite Forall_forall in He. rewrite Forall_forall in Hf.
  apply Forall_forall. intros e Hin. specialize (Hf e Hin). destruct (decide (ed_target e ∈ row_hash <$> st_entries (sys_store x))) as [Hs|Hs].
  { left. by apply edge_forward_linked. }
  right. destruct (He e Hin) as [?|(Hsf & t & r & Htin & Hrep & Hh)]; [done|]. split; [done|].
  split; [by eapply edge_forward_source|]. split; [done|]. exists t, r. split_and!; [done..|].
  apply (proj1 (Forall_forall _ _) Ht t Htin r) in Hrep as [Hst|[_ Htk]]; [|done]. by rewrite Hh in Hst.
Qed.

(** Sample parameters: a printer, a hash with 64 hex digits, ids. *)
Definition toy_sha (s : string) : string := str_take 64 (String.rev (encode_hex s) +:+ str_repeat "0" 64).
Definition toy_v4 (n : nat) : string := show_nat n.
Definition toy_cmd (content : string) : PublishCommand :=
  mkPublish "demo" (mkBundle (JObj [("name", JStr "demo")]) [mkFile "src/index.ts" content] []) "first" OOriginal.

Lemma all_bytes_take p n s : all_bytes p s = true -> all_bytes p (str_take n s) = true.
Proof. revert n. induction s as [|a s IH]; intros [|n]; simpl; try done. intros [-> H]%andb_true_iff. by apply IH. Qed.

Lemma hex_char_lower b : is_lower_hex (hex_char (byte_of b / 16)) = true /\ is_lower_hex (hex_char (byte_of b mod 16)) = true.
Proof. destruct b as [[] [] [] [] [] [] [] []]; vm_compute; auto. Qed.

Lemma encode_hex_lower s : all_bytes is_lower_hex (encode_hex s) = true.
Proof. induction s as [|b s IH]; [done|]. cbn [encode_hex all_bytes]. destruct (hex_char_lower b) as [-> ->]. done. Qed.

Lemma toy_sha_hex x : content_hash_parse (toy_sha x) = Ok (toy_sha x).
Proof.
  unfold content_hash_parse, toy_sha. rewrite str_take_length, str_app_length.
  replace (Nat.min 64 _) with 64%nat by (change (String.length (str_repeat "0" 64)) with 64%nat; lia).
  rewrite Nat.eqb_refl, andb_true_l, all_bytes_take; [done|]. rewrite all_bytes_app, all_bytes_rev, encode_hex_lower. vm_compute. reflexivity.
Qed.

(** Two publications of one name can run side by side so that both report
    success and one of them is lost: both read the same next version, the
    second insert violates the unique index, and the store does not look at the
    statement's result.  (Were the failure reported, a success would always be
    stored.) *)
Theorem concurrent_publish_lost :
  (exists x r, reachable sample_printer toy_sha toy_v4 false x /\ sys_tasks x !! 1%nat = Some (TEnd (Done (Ok r))) /\
     vr_version (pr_version_ref r) = 1%Z /\ row_by_hash (sys_store x) (pr_hash r) = None) /\
  (forall to_string sha256_hex new_v4 x i r, reachable to_string sha256_hex new_v4 true x ->
     sys_tasks x !! i = Some (TEnd (Done (Ok r))) -> pr_hash r ∈ row_hash <$> st_entries (sys_store x)).
Proof.
  split.
  - pose (x := exec sample_printer toy_sha toy_v4 false "0" [0; 1; 0; 1; 0; 1; 0; 1]%nat
      (spawn [toy_cmd "one"; toy_cmd "two"] (mkSystem empty_store []))).
    assert (Hr : reachable sample_printer toy_sha toy_v4 false x) by (apply exec_reachable, spawn_reachable, reach_init).
    exists x. eexists. split; [exact Hr|]. split_and!; vm_compute; reflexivity.
  - intros to_string sha256_hex new_v4 x i r Hx Hi.
    destruct (Forall_lookup_1 _ _ _ _ (proj1 (reachable_accounted _ _ _ _ _ Hx)) Hi r eq_refl) as [?|[? _]]; done.
Qed.

Definition toy_iteration (content : string) : PublishCommand :=
  mkPublish "demo" (pc_source (toy_cmd content)) "next" OIteration.

(** A run with two publications one after the other, the second an iteration. *)
Definition sample_system : system :=
  exec sample_printer toy_sha toy_v4 false "0" [0; 0; 0; 0; 1; 1; 1; 1; 1]%nat
    (spawn [toy_cmd "one"; toy_iteration "two"] (mkSystem empty_store [])).

Lemma catalog_consistent_witness :
  (row_version <$> st_entries (sys_store sample_system)) = [1; 2]%Z /\ length (st_edges (sys_store sample_system)) = 1%nat /\
  catalog_ok sample_printer toy_sha (sys_store sample_system) /\
  Forall (fun e => edge_linked (st_entries (sys_store sample_system)) e \/ false = false /\ edge_of_lost sample_system e)
    (st_edges (sys_store sample_system)).
Proof.
  split; [vm_compute; reflexivity|]. split; [vm_compute; reflexivity|].
  apply (catalog_consistent sample_printer toy_sha toy_v4 false sample_system).
  - apply exec_reachable, spawn_reachable, reach_init.
  - vm_compute. reflexivity.
Defined.

(** Two iterations side by side: the one that loses its version still records
    its edge, whose target has no entry. *)
Definition racing_iterations : system :=
  exec sample_printer toy_sha toy_v4 false "0" [0; 0; 0; 0; 1; 2; 1; 2; 1; 2; 1; 2]%nat
    (spawn [toy_cmd "one"; toy_iteration "two"; toy_iteration "three"] (mkSystem empty_store [])).

Example lost_iteration_records_edge :
  length (st_entries (sys_store racing_iterations)) = 2%nat /\
  (row_by_hash (sys_store racing_iterations) <$> (ed_target <$> st_edges (sys_store racing_iterations))) !! 1%nat = Some None.
Proof. split; vm_compute; reflexivity. Qed.

Lemma sample_catalog : catalog_ok sample_printer toy_sha empty_store.
Proof. split; simpl; [constructor|done|constructor..]. Qed.

Definition sample_publish : outcome (result PublishResult RepositoryError * store) :=
  publish sample_printer toy_sha toy_v4 false "0" empty_store (toy_cmd "one").

Definition published_of (o : outcome (result PublishResult RepositoryError * store)) : PublishResult * store :=
  match o with
  | Done (Ok r, s) => (r, s)
  | _ => (mkPublished "" (mkVersionRef "" 0) 0, empty_store)
  end.

Lemma publish_reads_back_witness :
  let '(r, s') := published_of sample_publish in
  exists e v, pr_version_ref r = mkVersionRef "demo" v /\ v = 1%Z /\
    (forall announced, next_version_for_agent empty_store "demo" = Ok announced -> announced = v) /\
    get_by_hash s' (pr_hash r) = Ok (Some e) /\ re_version_ref e = pr_version_ref r /\
    with_manifest_version (pc_source (toy_cmd "one")) v = Done (re_source e) /\
    get_latest s' "demo" = Ok (Some e).
Proof.
  destruct (published_of sample_publish) as [r s'] eqn:E.
  apply (publish_reads_back sample_printer toy_sha toy_v4 false "0" empty_store (toy_cmd "one") r s' toy_sha_hex sample_catalog).
  - reflexivity.
  - split; reflexivity.
  - assert (H : sample_publish = Done (Ok (published_of sample_publish).1, (published_of sample_publish).2)) by (vm_compute; reflexivity).
    rewrite E in H. exact H.
Defined.
