(* ===== verification/Lineage.v ===== *)
(** * Lineage walks and search

    The read side of the repository store ([surreal_store.rs]): adjacency and
    breadth-first search over lineage edges, parents, children, ancestors and
    the local subgraph, and the structured search ([search.rs]).  A hash set is
    the list of its members in insertion order. *)

From stdpp Require Import base list strings gmap sorting.
From Stdlib Require Import ZArith Lia Ascii.
From S2P Require Import Prelude RustStr Json Signature ContentHash Repository.

(** ** Adjacency *)

Notation adjacency := (gmap string (list (string * LineageKind))).

(** [entry(k).or_default().push(v)] *)
Definition push_entry (k : string) (v : string * LineageKind) (m : adjacency) : adjacency :=
  <[k := default [] (m !! k) ++ [v]]> m.

Fixpoint adjacency_go (edges : list LineageEdge) (d a : adjacency) : adjacency * adjacency :=
  match edges with
  | [] => (d, a)
  | e :: rest =>
      adjacency_go rest (push_entry (ed_source e) (ed_target e, ed_kind e) d)
                        (push_entry (ed_target e) (ed_source e, ed_kind e) a)
  end.

Definition build_lineage_adjacency (edges : list LineageEdge) : adjacency * adjacency := adjacency_go edges ∅ ∅.

(** ** Breadth-first search *)

Definition kind_allowed (kind : option LineageKind) (k : LineageKind) : bool :=
  match kind with Some k' => bool_decide (k = k') | None => true end.

Definition deep_enough (max_depth : option nat) (depth : nat) : bool :=
  match max_depth with Some m => (m <=? depth)%nat | None => false end.

(** The inner loop: unseen neighbours join the set and the queue. *)
Fixpoint visit (kind : option LineageKind) (depth : nat) (nexts : list (string * LineageKind))
    (seen : list string) (q : list (string * nat)) : list string * list (string * nat) :=
  match nexts with
  | [] => (seen, q)
  | (next, k) :: rest =>
      if negb (kind_allowed kind k) then visit kind depth rest seen q
      else if bool_decide (next ∈ seen) then visit kind depth rest seen q
      else visit kind depth rest (seen ++ [next]) (q ++ [(next, S depth)])
  end.

Fixpoint bfs_go (fuel : nat) (adj : adjacency) (kind : option LineageKind) (max_depth : option nat)
    (seen : list string) (q : list (string * nat)) : option (list string) :=
  match q with
  | [] => Some seen
  | (cur, depth) :: q' =>
      match fuel with
      | O => None
      | S fuel =>
          if deep_enough max_depth depth then bfs_go fuel adj kind max_depth seen q'
          else
            let '(seen, q'') := visit kind depth (default [] (adj !! cur)) seen q' in
            bfs_go fuel adj kind max_depth seen q''
      end
  end.

(** Every turn of the loop takes one node off the queue, and a node joins it
    at most once: the number of edges bounds the turns. *)
Definition all_targets (adj : adjacency) : list string := fst <$> concat (snd <$> map_to_list adj).
Definition adjacency_size (adj : adjacency) : nat := length (all_targets adj).

Definition bfs_reachable (start : string) (adj : adjacency) (kind : option LineageKind) (max_depth : option nat) : option (list string) :=
  bfs_go (S (adjacency_size adj)) adj kind max_depth [] [(start, 0%nat)].

(** ** The lineage store *)

Record AncestryNode := mkNode { an_hash : string; an_generation : Z; an_parentage : Parentage }.

Record LineageSubgraph := mkSubgraph {
  sg_root : string;
  sg_ancestors : list AncestryNode;
  sg_descendants : list AncestryNode;
  sg_edges : list LineageEdge
}.

Definition node_for_hash (s : store) (hash : string) : result (option AncestryNode) RepositoryError :=
  opt_result (fun r => let? h := header_from_row s r in Ok (mkNode (hd_hash h) (hd_generation h) (hd_parentage h))) (row_by_hash s hash).

Fixpoint nodes_for (s : store) (hashes : list string) : result (list AncestryNode) RepositoryError :=
  match hashes with
  | [] => Ok []
  | h :: rest =>
      let? n := node_for_hash s h in
      let? ns := nodes_for s rest in
      Ok (match n with Some n => n :: ns | None => ns end)
  end.

Definition parents (s : store) (hash : string) : result (list AncestryNode) RepositoryError :=
  nodes_for s (ed_source <$> filter (fun e => ed_target e = hash) (st_edges s)).

Definition children (s : store) (hash : string) : result (list AncestryNode) RepositoryError :=
  nodes_for s (ed_target <$> filter (fun e => ed_source e = hash) (st_edges s)).

Definition influenced_by (s : store) (hash : string) : result (list AncestryNode) RepositoryError :=
  nodes_for s (ed_target <$> filter (fun e => ed_source e = hash /\ ed_kind e = Influence) (st_edges s)).

Definition generation_le (a b : AncestryNode) : bool := (an_generation a <=? an_generation b)%Z.

Definition ancestors (s : store) (hash : string) (max_depth : nat) : result (list AncestryNode) RepositoryError :=
  let adj := (build_lineage_adjacency (st_edges s)).2 in
  let? nodes := nodes_for s (default [] (bfs_reachable hash adj None (Some max_depth))) in
  Ok (stable_sort generation_le nodes).

Definition subgraph (s : store) (hash : string) (ancestor_depth : nat) : result LineageSubgraph RepositoryError :=
  let? ancestors := ancestors s hash ancestor_depth in
  let? descendants := children s hash in
  let node_hashes := (an_hash <$> ancestors) ++ (an_hash <$> descendants) ++ [hash] in
  Ok (mkSubgraph hash ancestors descendants
        (filter (fun e => ed_source e ∈ node_hashes /\ ed_target e ∈ node_hashes) (st_edges s))).

(** ** Search *)

Inductive LineageRelation :=
| DescendantOf (ancestor : string) (kind : option LineageKind)
| AncestorOf (descendant : string) (kind : option LineageKind).

Inductive SearchOrder := Newest | Oldest | Relevance.

Record SearchQuery := mkQuery {
  sq_text : option string;
  sq_name : option string;
  sq_capabilities : list string;
  sq_tools : list string;
  sq_tags : list string;
  sq_generation : option (option Z * option Z);
  sq_lineage : option LineageRelation;
  sq_limit : option nat;
  sq_order : SearchOrder
}.

Definition build_manifest_text (b : SourceBundle) : string :=
  let m := sb_manifest b in
  join nl_str
    (option_list (manifest_name m) ++ option_list (manifest_version m) ++ option_list (manifest_description m)
     ++ manifest_tools m ++ manifest_capabilities m ++ manifest_tags_of m).

Definition file_text (f : HashInputFile) : list string := [hf_path f; hf_content f].

Definition build_source_text (b : SourceBundle) : string :=
  join nl_str (concat (file_text <$> sb_ts_sources b) ++ concat (file_text <$> sb_baml_sources b)).

Definition row_contains_text (r : entry_row) (needle : string) : bool :=
  contains_str needle (to_lowercase (build_manifest_text (row_source r) +:+ nl_str +:+ build_source_text (row_source r))).

Definition text_matches (q : SearchQuery) (r : entry_row) : bool :=
  match sq_text q with Some text => row_contains_text r (to_lowercase text) | None => true end.

Definition name_matches (q : SearchQuery) (h : RepositoryEntryHeader) : bool :=
  match sq_name q with Some name => String.eqb (vr_name (hd_version_ref h)) name | None => true end.

Definition all_in (wanted have : list string) : bool := forallb (fun w => bool_decide (w ∈ have)) wanted.

Definition generation_matches (q : SearchQuery) (h : RepositoryEntryHeader) : bool :=
  match sq_generation q with
  | None => true
  | Some (lo, hi) =>
      match lo with Some m => (m <=? hd_generation h)%Z | None => true end &&
      match hi with Some m => (hd_generation h <=? m)%Z | None => true end
  end.

Definition relation_hashes (s : store) (r : LineageRelation) : list string :=
  let '(descendants_map, ancestors_map) := build_lineage_adjacency (st_edges s) in
  default [] (match r with
              | DescendantOf ancestor kind => bfs_reachable ancestor descendants_map kind None
              | AncestorOf descendant kind => bfs_reachable descendant ancestors_map kind None
              end).

Definition lineage_matches (s : store) (q : SearchQuery) (h : RepositoryEntryHeader) : bool :=
  match sq_lineage q with Some r => bool_decide (hd_hash h ∈ relation_hashes s r) | None => true end.

Definition header_matches (s : store) (q : SearchQuery) (h : RepositoryEntryHeader) : bool :=
  name_matches q h && all_in (sq_tags q) (hd_tags h) && all_in (sq_tools q) (hd_tools h) &&
  all_in (sq_capabilities q) (hd_capabilities h) && generation_matches q h && lineage_matches s q h.

Definition created_desc (a b : RepositoryEntryHeader) : bool := String.leb (hd_created_at b) (hd_created_at a).
Definition created_asc (a b : RepositoryEntryHeader) : bool := String.leb (hd_created_at a) (hd_created_at b).

Definition apply_order (q : SearchQuery) (hs : list RepositoryEntryHeader) : list RepositoryEntryHeader :=
  match sq_order q with
  | Newest | Relevance => stable_sort created_desc hs
  | Oldest => stable_sort created_asc hs
  end.

Definition apply_limit (q : SearchQuery) (hs : list RepositoryEntryHeader) : list RepositoryEntryHeader :=
  match sq_limit q with Some n => take n hs | None => hs end.

Definition search (s : store) (q : SearchQuery) : result (list RepositoryEntryHeader) RepositoryError :=
  let rows := List.filter (text_matches q) (st_entries s) in
  let? headers := results (header_from_row s) rows in
  Ok (apply_limit q (apply_order q (List.filter (header_matches s q) headers))).

(** ** The walk is exact *)

(** One step along an allowed edge, and walks of a given length. *)
Definition succ (adj : adjacency) (kind : option LineageKind) (x y : string) : Prop :=
  exists k, (y, k) ∈ default [] (adj !! x) /\ kind_allowed kind k = true.

Inductive walk (adj : adjacency) (kind : option LineageKind) (x : string) : nat -> string -> Prop :=
| walk_0 : walk adj kind x 0 x
| walk_S n y z : walk adj kind x n y -> succ adj kind y z -> walk adj kind x (S n) z.

Definition within (max_depth : option nat) (n : nat) : Prop :=
  match max_depth with Some m => (n <= m)%nat | None => True end.

Lemma deep_enough_within m d : deep_enough m d = false -> within m (S d).
Proof. destruct m as [m|]; simpl; [|done]. intros H%Nat.leb_gt. lia. Qed.

Lemma visit_spec kind d nexts seen q seen' q' :
  visit kind d nexts seen q = (seen', q') -> NoDup seen ->
  exists new, seen' = seen ++ new /\ q' = q ++ ((fun y => (y, S d)) <$> new) /\ NoDup seen' /\
    (forall y, y ∈ new -> exists k, (y, k) ∈ nexts /\ kind_allowed kind k = true) /\
    (forall y k, (y, k) ∈ nexts -> kind_allowed kind k = true -> y ∈ seen').
Proof.
  revert seen q. induction nexts as [|[y k] nexts IH]; intros seen q; cbn [visit].
  { intros [= <- <-] Hnd. exists []. rewrite !app_nil_r. split_and!; [done..| |]; [by intros ? ?%elem_of_nil|by intros ? ? ?%elem_of_nil]. }
  assert (Hskip : kind_allowed kind k = false \/ y ∈ seen -> visit kind d nexts seen q = (seen', q') -> NoDup seen ->
    exists new, seen' = seen ++ new /\ q' = q ++ ((fun y => (y, S d)) <$> new) /\ NoDup seen' /\
      (forall y0, y0 ∈ new -> exists k0, (y0, k0) ∈ (y, k) :: nexts /\ kind_allowed kind k0 = true) /\
      (forall y0 k0, (y0, k0) ∈ (y, k) :: nexts -> kind_allowed kind k0 = true -> y0 ∈ seen')).
  { intros Hy H Hnd. destruct (IH _ _ H Hnd) as (new & -> & -> & Hnd' & Hnew & Hall). exists new. split_and!; [done..| |].
    - intros z (k0 & Hz & Hk)%Hnew. exists k0. split; [by right|done].
    - intros z k0 [[= -> ->]|Hz]%elem_of_cons Hk; [|by eapply Hall]. destruct Hy as [Hy|Hy]; [congruence|]. apply elem_of_app. by left. }
  destruct (kind_allowed kind k) eqn:Hk; simpl; [|apply Hskip; by left].
  case_bool_decide as Hin; [apply Hskip; by right|]. intros H Hnd.
  destruct (IH _ _ H) as (new & -> & -> & Hnd' & Hnew & Hall).
  { apply NoDup_app. split_and!; [done| |apply NoDup_singleton]. intros z Hz ->%list_elem_of_singleton. done. }
  exists (y :: new). rewrite <-!app_assoc in *. split_and!; [done..| |].
  - intros z [->|Hz]%elem_of_cons; [exists k; split; [by left|done]|]. destruct (Hnew z Hz) as (k0 & ? & ?). exists k0. split; [by right|done].
  - intros z k0 [[= -> ->]|Hz]%elem_of_cons Hk0; [|by eapply Hall]. apply elem_of_app. right. by left.
Qed.

Section Bfs.
Context (start : string) (adj : adjacency) (kind : option LineageKind) (max_depth : option nat).
Notation succ := (succ adj kind).
Notation walk := (walk adj kind start).

(** [found] lists every node with the depth it was found at, the start first. *)
Record bfs_inv (seen : list string) (q found : list (string * nat)) : Prop := {
  inv_seen : fst <$> found = seen;
  inv_nodup : NoDup seen;
  inv_queue p : p ∈ q -> p ∈ (start, 0%nat) :: found;
  inv_walk x d : (x, d) ∈ (start, 0%nat) :: found -> walk d x;
  inv_depth x d : (x, d) ∈ found -> (1 <= d)%nat /\ within max_depth d;
  inv_sorted : StronglySorted (fun p p' => (p.2 <= p'.2)%nat) q;
  inv_front x d q' p : q = (x, d) :: q' -> p ∈ (start, 0%nat) :: found -> (p.2 <= S d)%nat;
  inv_closed x d : (x, d) ∈ (start, 0%nat) :: found ->
    (x, d) ∈ q \/ deep_enough max_depth d = true \/ forall y, succ x y -> exists d', (y, d') ∈ found /\ (d' <= S d)%nat
}.

Lemma bfs_init : bfs_inv [] [(start, 0%nat)] [].
Proof.
  split; try done.
  - constructor.
  - intros x d [[= -> ->]|?%elem_of_nil]%elem_of_cons; [constructor|done].
  - intros x d ?%elem_of_nil. done.
  - repeat constructor.
  - intros x d q' p [= <- <- <-] ->%list_elem_of_singleton. simpl. lia.
  - intros x d H. by left.
Qed.

Lemma bfs_skip seen x d q found : bfs_inv seen ((x, d) :: q) found -> deep_enough max_depth d = true -> bfs_inv seen q found.
Proof.
  intros [H1 H2 H3 H4 H5 H6 H7 H8] Hd. apply StronglySorted_inv in H6 as [H6 H6']. rewrite Forall_forall in H6'. split; try done.
  - intros p Hp. apply H3. by right.
  - intros x' d' q' p -> Hp. pose proof (H7 x d _ p eq_refl Hp). specialize (H6' (x', d') ltac:(by left)). simpl in *. lia.
  - intros x' d' Hin. destruct (H8 x' d' Hin) as [[[= -> ->]|Hq]%elem_of_cons|[?|?]]; [right; by left|by left|right; by left|right; by right].
Qed.

Lemma bfs_expand seen x d q found seen' q' :
  bfs_inv seen ((x, d) :: q) found -> deep_enough max_depth d = false ->
  visit kind d (default [] (adj !! x)) seen q = (seen', q') ->
  exists new, seen' = seen ++ new /\ length q' = (length q + length new)%nat /\ (forall y, y ∈ new -> succ x y) /\
    bfs_inv seen' q' (found ++ ((fun y => (y, S d)) <$> new)).
Proof.
  intros [H1 H2 H3 H4 H5 H6 H7 H8] Hd Hv. destruct (visit_spec _ _ _ _ _ _ _ Hv H2) as (new & -> & -> & Hnd & Hnew & Hall).
  exists new. split; [done|]. rewrite length_app, length_fmap. split; [done|].
  assert (Hsucc : forall y, y ∈ new -> succ x y) by (intros y (k & ? & ?)%Hnew; by exists k). split; [done|].
  apply StronglySorted_inv in H6 as [H6 H6']. rewrite Forall_forall in H6'.
  assert (Hx : (x, d) ∈ (start, 0%nat) :: found) by (apply H3; by left).
  assert (Hnewin : forall y e, (y, e) ∈ (fun y => (y, S d)) <$> new -> y ∈ new /\ e = S d).
  { intros y e (z & [= -> ->] & Hz)%list_elem_of_fmap. done. }
  split.
  - rewrite fmap_app, H1. f_equal. rewrite <-list_fmap_compose. apply list_fmap_id.
  - done.
  - intros p [Hp|Hp]%elem_of_app; rewrite app_comm_cons; apply elem_of_app; [left; apply H3; by right|by right].
  - intros y e. rewrite app_comm_cons. intros [Hy|[Hy ->]%Hnewin]%elem_of_app; [by apply H4|]. econstructor; [by apply H4|by apply Hsucc].
  - intros y e [Hy|[Hy ->]%Hnewin]%elem_of_app; [by apply (H5 y)|]. split; [lia|by apply deep_enough_within].
  - assert (Hq : forall p, p ∈ q -> (p.2 <= S d)%nat) by (intros p Hp; apply (H7 x d q p eq_refl), H3; by right).
    clear -H6 Hq. induction H6 as [|p q _ IH Hp]; simpl.
    + clear Hq. induction new as [|y new IH]; simpl; constructor; [done|]. apply Forall_fmap, Forall_true. simpl. lia.
    + constructor; [apply IH; intros p' Hp'; apply Hq; by right|]. apply Forall_app. split; [done|]. apply Forall_fmap, Forall_true.
      intros y. simpl. apply Hq. by left.
  - intros x' d' q'' p Hq'. rewrite app_comm_cons. intros Hp.
    assert (Hd' : (d <= d')%nat).
    { destruct q as [|p0 q0]; simpl in Hq'.
      - destruct new as [|y new]; [done|]. injection Hq' as <- <- _. lia.
      - injection Hq' as -> _. specialize (H6' (x', d') ltac:(by left)). done. }
    apply elem_of_app in Hp as [Hp|Hp]; [pose proof (H7 x d q p eq_refl Hp); lia|]. destruct p as [y e]. apply Hnewin in Hp as [_ ->]. simpl. lia.
  - intros x' d'. rewrite app_comm_cons. intros [Hin|Hin]%elem_of_app; [|left; apply elem_of_app; by right].
    destruct (H8 x' d' Hin) as [[[= -> ->]|Hq]%elem_of_cons|[Hdeep|Hcl]].
    + right. right. intros y (k & Hy & Hk). pose proof (Hall y k Hy Hk) as Hs. apply elem_of_app in Hs as [Hs|Hs].
      * rewrite <-H1 in Hs. apply list_elem_of_fmap in Hs as ([y' e] & -> & Hs). exists e. split; [apply elem_of_app; by left|].
        apply (H7 x d q (y', e) eq_refl). by right.
      * exists (S d). split; [|lia]. apply elem_of_app. right. apply list_elem_of_fmap. by exists y.
    + left. apply elem_of_app. by left.
    + right. by left.
    + right. right. intros y Hy. destruct (Hcl y Hy) as (e & ? & ?). exists e. split; [apply elem_of_app; by left|done].
Qed.

(** When the queue is empty every walk has been followed. *)
Lemma bfs_complete seen found n y : bfs_inv seen [] found -> walk n y -> within max_depth n ->
  exists d, (y, d) ∈ (start, 0%nat) :: found /\ (d <= n)%nat /\ ((1 <= n)%nat -> y ∈ seen).
Proof.
  intros Hi. induction 1 as [|n y z Hw IH Hs]; intros Hn.
  - exists 0%nat. split; [by left|]. split; [done|lia].
  - destruct IH as (d & Hy & Hd & _); [destruct max_depth; simpl in *; [lia|done]|].
    destruct (inv_closed _ _ _ Hi y d Hy) as [?%elem_of_nil|[Hdeep|Hcl]]; [done| |].
    + exfalso. unfold deep_enough in Hdeep. destruct max_depth as [m|]; [|done]. apply Nat.leb_le in Hdeep. simpl in Hn. lia.
    + destruct (Hcl z Hs) as (e & He & Hle). exists e. split; [by right|]. split; [lia|]. intros _.
      rewrite <-(inv_seen _ _ _ Hi). apply list_elem_of_fmap. by exists (z, e).
Qed.

Lemma succ_target x y : succ x y -> y ∈ all_targets adj.
Proof.
  intros (k & Hy & _). unfold all_targets. apply list_elem_of_fmap. exists (y, k). split; [done|].
  destruct (adj !! x) as [l|] eqn:Hx; simpl in Hy; [|by apply elem_of_nil in Hy].
  apply list_elem_of_In, in_concat. exists l. split; [|by apply list_elem_of_In].
  apply list_elem_of_In, list_elem_of_fmap. exists (x, l). split; [done|]. by apply elem_of_map_to_list.
Qed.

Lemma bfs_go_exact fuel seen q found :
  bfs_inv seen q found -> seen ⊆ all_targets adj -> (length q + (adjacency_size adj - length seen) <= fuel)%nat ->
  exists res, bfs_go fuel adj kind max_depth seen q = Some res /\ NoDup res /\
    forall y, y ∈ res <-> exists n, (1 <= n)%nat /\ within max_depth n /\ walk n y.
Proof.
  revert seen q found. induction fuel as [|fuel IH]; intros seen q found Hi Hsub Hf.
  all: destruct q as [|[x d] q].
  1, 3: exists seen; split; [done|]; split; [apply Hi|]; intros y; split.
  1, 3: intros Hy; rewrite <-(inv_seen _ _ _ Hi) in Hy; apply list_elem_of_fmap in Hy as ([z d] & -> & Hz); exists d;
    destruct (inv_depth _ _ _ Hi z d Hz); split_and!; [done..|]; apply (inv_walk _ _ _ Hi); by right.
  1, 2: intros (n & Hn & Hw & Hwalk); destruct (bfs_complete _ _ _ _ Hi Hwalk Hw) as (_ & _ & _ & Hy); by apply Hy.
  - simpl in Hf. lia.
  - cbn [bfs_go]. destruct (deep_enough max_depth d) eqn:Hd.
    + eapply IH; [by eapply bfs_skip|done|]. simpl in Hf. lia.
    + destruct (visit kind d (default [] (adj !! x)) seen q) as [seen' q'] eqn:Hv.
      destruct (bfs_expand _ _ _ _ _ _ _ Hi Hd Hv) as (new & -> & Hlen & Hnew & Hi').
      assert (Hsub' : seen ++ new ⊆ all_targets adj).
      { intros y [Hy|Hy]%elem_of_app; [by apply Hsub|]. by eapply succ_target, Hnew. }
      eapply IH; [exact Hi'|done|].
      pose proof (submseteq_length _ _ (NoDup_submseteq _ _ (inv_nodup _ _ _ Hi') Hsub')) as Hle.
      unfold adjacency_size in *. rewrite length_app in *. simpl in Hf. lia.
Qed.

(** The search returns, without fuel to spare, exactly the nodes within reach. *)
Lemma bfs_reachable_exact :
  exists res, bfs_reachable start adj kind max_depth = Some res /\ NoDup res /\
    forall y, y ∈ res <-> exists n, (1 <= n)%nat /\ within max_depth n /\ walk n y.
Proof.
  apply (bfs_go_exact _ _ _ []); [apply bfs_init|by intros ? ?%elem_of_nil|]. simpl. lia.
Qed.
End Bfs.

(** ** Lineage in terms of edges *)

Definition edge_step (kind : option LineageKind) (edges : list LineageEdge) (x y : string) : Prop :=
  exists e, e ∈ edges /\ ed_source e = x /\ ed_target e = y /\ kind_allowed kind (ed_kind e) = true.

Lemma push_entry_lookup k v m x : default [] (push_entry k v m !! x) = default [] (m !! x) ++ (if decide (x = k) then [v] else []).
Proof.
  unfold push_entry. case_decide as H; [subst; by rewrite lookup_insert_eq|]. rewrite lookup_insert_ne by done. by rewrite app_nil_r.
Qed.

Lemma adjacency_go_spec edges d a d' a' x y k :
  adjacency_go edges d a = (d', a') ->
  ((y, k) ∈ default [] (d' !! x) <-> (y, k) ∈ default [] (d !! x) \/ exists e, e ∈ edges /\ ed_source e = x /\ ed_target e = y /\ ed_kind e = k) /\
  ((y, k) ∈ default [] (a' !! x) <-> (y, k) ∈ default [] (a !! x) \/ exists e, e ∈ edges /\ ed_source e = y /\ ed_target e = x /\ ed_kind e = k).
Proof.
  revert d a. induction edges as [|e edges IH]; intros d a; cbn [adjacency_go].
  - intros [= <- <-]. split; (split; [by left|intros [?|(e & ?%elem_of_nil & _)]; done]).
  - intros H. destruct (IH _ _ H) as [-> ->]. rewrite !push_entry_lookup, !elem_of_app. setoid_rewrite elem_of_cons.
    split; case_decide as Hx; rewrite ?list_elem_of_singleton, ?elem_of_nil.
    all: split; [intros [[?|Heq]|(e' & ? & ?)]|intros [?|(e' & [->|?] & ? & ? & ?)]]; try (by left; left); try (by eauto 10).
    all: try done. all: try (right; exists e; injection Heq as -> ->; by eauto). all: left; right; subst; done.
Qed.

Lemma succ_edges kind edges x y :
  (succ (build_lineage_adjacency edges).1 kind x y <-> edge_step kind edges x y) /\
  (succ (build_lineage_adjacency edges).2 kind x y <-> edge_step kind edges y x).
Proof.
  unfold succ, edge_step, build_lineage_adjacency. destruct (adjacency_go edges ∅ ∅) as [d a] eqn:H. simpl.
  assert (Hd : forall k, (y, k) ∈ default [] (d !! x) <-> exists e, e ∈ edges /\ ed_source e = x /\ ed_target e = y /\ ed_kind e = k).
  { intros k. destruct (adjacency_go_spec _ _ _ _ _ x y k H) as [-> _]. rewrite lookup_empty. simpl. rewrite elem_of_nil. tauto. }
  assert (Ha : forall k, (y, k) ∈ default [] (a !! x) <-> exists e, e ∈ edges /\ ed_source e = y /\ ed_target e = x /\ ed_kind e = k).
  { intros k. destruct (adjacency_go_spec _ _ _ _ _ x y k H) as [_ ->]. rewrite lookup_empty. simpl. rewrite elem_of_nil. tauto. }
  setoid_rewrite Hd. setoid_rewrite Ha.
  split; (split; [intros (k & (e & ? & ? & ? & <-) & ?); by exists e|intros (e & ? & ? & ? & ?); exists (ed_kind e); eauto 10]).
Qed.

Lemma walk_tc adj kind (R : relation string) x y :
  (forall x y, succ adj kind x y <-> R x y) -> (exists n, (1 <= n)%nat /\ walk adj kind x n y) <-> tc R x y.
Proof.
  intros HR. split.
  - intros (n & Hn & Hw). induction Hw as [|n y z Hw IH Hs]; [lia|]. apply HR in Hs. destruct n as [|n].
    + inversion Hw; subst. by apply tc_once.
    + eapply tc_r; [apply IH; lia|done].
  - assert (Hl : forall u v n w, succ adj kind u v -> walk adj kind v n w -> walk adj kind u (S n) w).
    { intros u v n w Hs. induction 1 as [|n w z Hw IH Hz]; [|by econstructor]. econstructor; [constructor|done]. }
    induction 1 as [u v Huv|u v w Huv _ (n & _ & Hn)].
    + exists 1%nat. split; [done|]. econstructor; [constructor|by apply HR].
    + exists (S n). split; [lia|]. eapply Hl; [by apply HR|done].
Qed.

(** What a lineage filter means. *)
Definition related (edges : list LineageEdge) (r : LineageRelation) (h : string) : Prop :=
  match r with
  | DescendantOf ancestor kind => tc (edge_step kind edges) ancestor h
  | AncestorOf descendant kind => tc (edge_step kind edges) h descendant
  end.

Lemma tc_flip {A} (R : relation A) x y : tc (flip R) x y <-> tc R y x.
Proof.
  assert (H : forall (S : relation A) x y, tc S x y -> tc (flip S) y x).
  { intros S x' y'. induction 1; [by apply tc_once|]. eapply tc_r; done. }
  split; [intros H1; by apply H in H1|apply H].
Qed.

Lemma relation_hashes_exact s r : NoDup (relation_hashes s r) /\ forall h, h ∈ relation_hashes s r <-> related (st_edges s) r h.
Proof.
  unfold relation_hashes. pose proof (succ_edges) as Hse. destruct (build_lineage_adjacency (st_edges s)) as [d a] eqn:Hb.
  destruct r as [ancestor kind|descendant kind]; simpl.
  - destruct (bfs_reachable_exact ancestor d kind None) as (res & -> & Hnd & Hres). split; [done|]. intros h. simpl. rewrite Hres.
    rewrite <-(walk_tc d kind (edge_step kind (st_edges s))).
    + unfold within. split; intros (n & Hn); exists n; tauto.
    + intros x y. pose proof (proj1 (Hse kind (st_edges s) x y)) as Hx. by rewrite Hb in Hx.
  - destruct (bfs_reachable_exact descendant a kind None) as (res & -> & Hnd & Hres). split; [done|]. intros h. simpl. rewrite Hres.
    rewrite <-(tc_flip (edge_step kind (st_edges s))), <-(walk_tc a kind (flip (edge_step kind (st_edges s)))).
    + unfold within. split; intros (n & Hn); exists n; tauto.
    + intros x y. pose proof (proj2 (Hse kind (st_edges s) x y)) as Hx. by rewrite Hb in Hx.
Qed.

(** Edges that go forward in the catalog never come back. *)
Lemma edge_forward_trans rows x y z : edge_forward rows x y -> edge_forward rows y z -> edge_forward rows x z.
Proof.
  intros (i & r & Hi & Hr & Hxy) (j & r' & Hj & Hr' & Hyz). exists i, r. split_and!; [done..|]. intros k r'' Hk Hr''.
  specialize (Hxy j r' Hj Hr'). specialize (Hyz k r'' Hk Hr''). lia.
Qed.

Lemma tc_forward kind edges rows x y :
  Forall (fun e => edge_forward rows (ed_source e) (ed_target e)) edges -> tc (edge_step kind edges) x y -> edge_forward rows x y.
Proof.
  intros HF. rewrite Forall_forall in HF.
  assert (Hone : forall u v, edge_step kind edges u v -> edge_forward rows u v) by (intros u v (e & He & <- & <- & _); by apply HF).
  induction 1 as [u v Huv|u v w Huv _ IH]; [by apply Hone|]. eapply edge_forward_trans; [by apply Hone|done].
Qed.

(** A lineage filter finds exactly the related entries and always returns:
    the search over the stored edges gives, once each, the hashes connected to
    the given one by edges of the asked kind; in every catalog the service can
    reach no entry is its own ancestor. *)
Theorem lineage_search_exact to_string sha256_hex new_v4 surfaces x r :
  reachable to_string sha256_hex new_v4 surfaces x ->
  (Z.of_nat (length (st_entries (sys_store x))) < u32_max)%Z ->
  NoDup (relation_hashes (sys_store x) r) /\
  (forall h, h ∈ relation_hashes (sys_store x) r <-> related (st_edges (sys_store x)) r h) /\
  match r with DescendantOf h _ | AncestorOf h _ => h ∉ relation_hashes (sys_store x) r end.
Proof.
  intros Hr Hb. destruct (relation_hashes_exact (sys_store x) r) as [Hnd He]. split; [done|]. split; [done|].
  assert (Hc : Forall (fun e => edge_forward (st_entries (sys_store x)) (ed_source e) (ed_target e)) (st_edges (sys_store x))).
  { apply (reachable_catalog _ _ _ _ _ Hr Hb). }
  destruct r as [h kind|h kind]; rewrite He; simpl; intros Ht; by apply (edge_forward_irreflexive (st_entries (sys_store x)) h), (tc_forward kind (st_edges (sys_store x))).
Qed.

(** A run with an iteration: the second version descends from the first. *)
Definition lineage_system : system :=
  exec sample_printer toy_sha toy_v4 false "0" [0; 0; 0; 0; 1; 1; 1; 1; 1]%nat
    (spawn [toy_cmd "one"; mkPublish "demo" (pc_source (toy_cmd "two")) "second" OIteration] (mkSystem empty_store [])).

Lemma lineage_search_exact_witness :
  let s := sys_store lineage_system in
  let first := default "" (row_hash <$> st_entries s !! 0%nat) in
  let second := default "" (row_hash <$> st_entries s !! 1%nat) in
  relation_hashes s (DescendantOf first (Some Fork)) = [second] /\
  first ∉ relation_hashes s (DescendantOf first (Some Fork)).
Proof.
  intros s first second. split; [vm_compute; reflexivity|].
  apply (lineage_search_exact sample_printer toy_sha toy_v4 false lineage_system (DescendantOf first (Some Fork))).
  - apply exec_reachable, spawn_reachable, reach_init.
  - vm_compute. reflexivity.
Defined.

(** ** What a search returns *)

Lemma results_spec {A B E} (f : A -> result B E) l bs :
  results f l = Ok bs -> forall b, b ∈ bs <-> exists a, a ∈ l /\ f a = Ok b.
Proof.
  revert bs. induction l as [|a l IH]; intros bs; cbn [results].
  - intros [= <-] b. split; [by intros ?%elem_of_nil|intros (a & ?%elem_of_nil & _); done].
  - destruct (f a) as [b0|] eqn:Hf; [|done]. simpl. destruct (results f l) as [bs0|]; [|done]. simpl. intros [= <-] b.
    rewrite elem_of_cons, (IH bs0 eq_refl). setoid_rewrite elem_of_cons. split.
    + intros [->|(a' & ? & ?)]; eauto.
    + intros (a' & [->|?] & ?); [left; congruence|eauto].
Qed.

Lemma results_Err {A B E} (f : A -> result B E) l a : a ∈ l -> is_ok (f a) = false -> is_ok (results f l) = false.
Proof.
  intros Hin Hf. induction l as [|b l IH]; [by apply elem_of_nil in Hin|]. cbn [results].
  apply elem_of_cons in Hin as [->|Hin]; [by destruct (f b)|].
  destruct (f b); [|done]. simpl. specialize (IH Hin). by destruct (results f l).
Qed.

Lemma apply_order_perm q hs : apply_order q hs ≡ₚ hs.
Proof. unfold apply_order. destruct (sq_order q); apply stable_sort_perm. Qed.

Lemma apply_order_sorted q hs :
  StronglySorted (fun a b => match sq_order q with Oldest => created_asc a b | _ => created_desc a b end = true) (apply_order q hs).
Proof.
  unfold apply_order, created_asc, created_desc.
  destruct (sq_order q); apply stable_sort_sorted; eauto using str_leb_trans; intros; apply String.leb_total.
Qed.

Lemma StronglySorted_take {A} (R : relation A) n l : StronglySorted R l -> StronglySorted R (take n l).
Proof.
  intros H. revert n. induction H as [|x l _ IH Hx]; intros [|n]; simpl; try constructor; [done|]. by apply Forall_take.
Qed.

(** A search returns exactly the entries that match: every result is the
    header of a stored row that satisfies the text and all the filters, without
    a limit all of them are returned, at most the limit otherwise, and they are
    in the requested order. *)
Theorem search_returns_matches s q hs :
  search s q = Ok hs ->
  (forall h, h ∈ hs -> exists r, r ∈ st_entries s /\ header_from_row s r = Ok h /\ text_matches q r = true /\ header_matches s q h = true) /\
  (sq_limit q = None -> forall r h, r ∈ st_entries s -> header_from_row s r = Ok h -> text_matches q r = true ->
     header_matches s q h = true -> h ∈ hs) /\
  (forall n, sq_limit q = Some n -> (length hs <= n)%nat) /\
  StronglySorted (fun a b => match sq_order q with Oldest => created_asc a b | _ => created_desc a b end = true) hs.
Proof.
  unfold search. destruct (results (header_from_row s) _) as [all|] eqn:Hr; [|done]. simpl. intros [= <-].
  pose proof (results_spec _ _ _ Hr) as Hall.
  assert (Hin : forall h, h ∈ apply_order q (List.filter (header_matches s q) all) <->
    exists r, r ∈ st_entries s /\ header_from_row s r = Ok h /\ text_matches q r = true /\ header_matches s q h = true).
  { intros h. rewrite apply_order_perm, list_elem_of_In, filter_In, <-list_elem_of_In, Hall.
    split; [intros ((r & [Hi Ht]%list_elem_of_In%filter_In & Hh) & Hm); exists r; by rewrite list_elem_of_In|].
    intros (r & Hi & Hh & Ht & Hm). split; [|done]. exists r. split; [|done]. apply list_elem_of_In, filter_In. by rewrite <-list_elem_of_In. }
  pose proof (apply_order_sorted q (List.filter (header_matches s q) all)) as Hs. unfold apply_limit. split_and!.
  - intros h. destruct (sq_limit q) as [n|]; [intros Hh; apply Hin; rewrite <-(take_drop n), elem_of_app; by left|apply Hin].
  - intros -> r h ????. apply Hin. eauto.
  - intros n ->. rewrite length_take. lia.
  - destruct (sq_limit q); [by apply StronglySorted_take|done].
Qed.

(** The newest entry only, among those that mention a word. *)
Definition newest_query : SearchQuery := mkQuery (Some "TWO") None [] [] [] (Some (Some 0, Some 3))%Z None (Some 1%nat) Newest.

Lemma search_returns_matches_witness :
  match search (sys_store lineage_system) newest_query with
  | Ok hs =>
      length hs = 1%nat /\
      (forall h, h ∈ hs -> exists r, r ∈ st_entries (sys_store lineage_system) /\ header_from_row (sys_store lineage_system) r = Ok h /\
         text_matches newest_query r = true /\ header_matches (sys_store lineage_system) newest_query h = true)
  | Err _ => False
  end.
Proof.
  destruct (search (sys_store lineage_system) newest_query) as [hs|e] eqn:Hs.
  - split; [|apply (search_returns_matches _ _ _ Hs)].
    assert (H : match search (sys_store lineage_system) newest_query with Ok l => length l | Err _ => 0%nat end = 1%nat) by (vm_compute; reflexivity).
    by rewrite Hs in H.
  - assert (H : is_ok (search (sys_store lineage_system) newest_query) = true) by (vm_compute; reflexivity). by rewrite Hs in H.
Defined.

(** A name the publish endpoint accepts without the checks of its type: every
    search without text fails from then on, whatever else is stored. *)
Lemma undecodable_row_blocks_search s q r :
  r ∈ st_entries s -> is_ok (header_from_row s r) = false -> sq_text q = None -> is_ok (search s q) = false.
Proof.
  intros Hr Hh Ht. unfold search.
  assert (He : is_ok (results (header_from_row s) (List.filter (text_matches q) (st_entries s))) = false).
  { eapply results_Err; [|done]. apply list_elem_of_In, filter_In. split; [by apply list_elem_of_In|]. unfold text_matches. by rewrite Ht. }
  by destruct (results _ _).
Qed.

Lemma blank_name_published_then_search_fails :
  let s := sys_store (exec sample_printer toy_sha toy_v4 true "0" [0; 0; 0; 0; 1; 1; 1; 1]%nat
             (spawn [mkPublish "" (pc_source (toy_cmd "one")) "first" OOriginal; toy_cmd "two"] (mkSystem empty_store []))) in
  length (st_entries s) = 2%nat /\ is_ok (search s (mkQuery None (Some "demo") [] [] [] None None None Newest)) = false.
Proof. vm_compute. split; reflexivity. Qed.
