(* ===== verification/ToolSnapshots.v ===== *)
(** * Snapshots of imported tools

    The registries of external tools and MCP servers beside the package
    repository ([baml-rt-repository/src/surreal_store.rs], [external_tool.rs],
    [mcp.rs], approvals of [baml-rt-tools/src/approval.rs]): every import is a
    version with an approval state, its content a blob under its digest.  Tables
    are lists of rows in the order of their creation; [UPSERT .. WHERE] changes
    the rows that match or creates one.  The JSON printers and parsers are
    parameters. *)

From stdpp Require Import base list strings sets.
From Stdlib Require Import ZArith Lia.
From S2P Require Import Prelude RustStr Json ContentHash Repository.

Open Scope string_scope.
Open Scope list_scope.

(** ** Approvals *)

Inductive ApprovalState := Pending | Approved | Rejected | Stale.
#[global] Instance ApprovalState_eq_dec : EqDecision ApprovalState.
Proof. solve_decision. Defined.

Record ApprovalRecord := mkApproval { ap_state : ApprovalState; ap_owner : option string; ap_reviewed_at : option string; ap_expires_at : option string }.

Definition mcp_approval_state_str (s : ApprovalState) : string :=
  match s with Pending => "pending" | Approved => "approved" | Rejected => "rejected" | Stale => "stale" end.

Definition parse_mcp_approval_state (s : string) : result ApprovalState RepositoryError :=
  if String.eqb s "pending" then Ok Pending
  else if String.eqb s "approved" then Ok Approved
  else if String.eqb s "rejected" then Ok Rejected
  else if String.eqb s "stale" then Ok Stale
  else Err (decode_err ("invalid MCP approval state: " +:+ s)).

(** ** Versioned rows *)

(** [SELECT version .. ORDER BY version DESC LIMIT 1], and the next one. *)
Definition max_version (versions : list Z) : option Z :=
  foldr (fun v m => Some (match m with Some w => Z.max v w | None => v end)) None versions.
Definition next_version (versions : list Z) : Z :=
  match max_version versions with Some v => wrap32 (wrap32 v + 1) | None => 1 end.

(** [UPSERT .. WHERE]: [new] is the row to create. *)
Definition upsert_where {A} (matches : A -> bool) (change : A -> A) (new : A) (rows : list A) : list A :=
  if existsb matches rows then (fun r => if matches r then change r else r) <$> rows else rows ++ [new].

Definition first_such {A} (p : A -> bool) (rows : list A) : option A := find p rows.

(** Rows by version, the highest first. *)
Definition by_version_desc {A} (version : A -> Z) : list A -> list A := stable_sort (fun a b => (version b <=? version a)%Z).

Lemma find_upsert_key {A} (name : A -> string) (d k : string) (x : A) l :
  name x = k ->
  find (fun r => String.eqb (name r) d) (upsert_where (fun r => String.eqb (name r) k) (fun _ => x) x l)
  = (if String.eqb d k then Some x else find (fun r => String.eqb (name r) d) l).
Proof.
  intros Hx. unfold upsert_where. destruct (existsb (fun r => String.eqb (name r) k) l) eqn:E.
  - induction l as [|y l IH]; [done|]. simpl in *. destruct (String.eqb_spec (name y) k) as [Ey|Ne]; simpl.
    + rewrite Hx. destruct (String.eqb_spec k d) as [->|Nd]; [by rewrite String.eqb_refl|]. rewrite Ey, (proj2 (String.eqb_neq k d)) by done.
      destruct (existsb (fun r => String.eqb (name r) k) l) eqn:E'; [by apply IH|].
      rewrite (proj2 (String.eqb_neq d k)) by congruence. clear -E'. induction l as [|z l IH]; [done|].
      simpl in *. apply orb_false_iff in E' as [E1 E2]. rewrite E1. simpl. by rewrite IH.
    + destruct (String.eqb_spec (name y) d) as [Ed|Nd]; [by rewrite (proj2 (String.eqb_neq d k)) by congruence|]. by apply IH.
  - induction l as [|y l IH]; simpl in *; [rewrite Hx, String.eqb_sym; by destruct (d =? k)%string|].
    apply orb_false_iff in E as [E1 E2]. destruct (String.eqb_spec (name y) d) as [Ed|Nd]; [by rewrite <- Ed, E1|]. by apply IH.
Qed.

Lemma upsert_names {A} (name : A -> string) k change new rows :
  (forall r, name (change r) = k) -> name new = k ->
  forall x, x ∈ name <$> upsert_where (fun r => String.eqb (name r) k) change new rows <-> x = k \/ x ∈ name <$> rows.
Proof.
  intros Hc Hn x. unfold upsert_where. destruct (existsb (fun r => String.eqb (name r) k) rows) eqn:E.
  - replace (name <$> _) with (name <$> rows).
    + apply existsb_exists in E as (r & Hr & Er). apply String.eqb_eq in Er. split; [by right|intros [->|H]; [|done]].
      rewrite <- Er. apply list_elem_of_fmap_2. by apply list_elem_of_In.
    + rewrite <- list_fmap_compose. apply list_fmap_ext. intros i r _. simpl. destruct (String.eqb_spec (name r) k) as [->|]; [by rewrite Hc|done].
  - rewrite fmap_app. set_solver.
Qed.

Lemma find_upsert {B} (d k : string) (x : B) l :
  find (fun b : string * B => String.eqb b.1 d) (upsert_where (fun b => String.eqb b.1 k) (fun _ => (k, x)) (k, x) l)
  = (if String.eqb d k then Some (k, x) else find (fun b => String.eqb b.1 d) l).
Proof. by apply (find_upsert_key fst). Qed.

(** The rows of one key are numbered from 1 in the order of their creation. *)
Section Numbered.
Context {A : Type} (key : A -> string) (version : A -> Z).

Definition rows_for (k : string) (rows : list A) : list A := List.filter (fun r => String.eqb (key r) k) rows.
Definition numbered (k : string) (rows : list A) : Prop := version <$> rows_for k rows = seqZ 1 (Z.of_nat (length (rows_for k rows))).

Lemma rows_for_app k rows r : rows_for k (rows ++ [r]) = rows_for k rows ++ (if String.eqb (key r) k then [r] else []).
Proof. unfold rows_for. rewrite List.filter_app. simpl. by destruct (key r =? k)%string. Qed.

Lemma rows_for_fmap k f rows : (forall r, key (f r) = key r) -> rows_for k (f <$> rows) = f <$> rows_for k rows.
Proof.
  intros Hk. induction rows as [|r rows IH]; [done|]. rewrite fmap_cons. unfold rows_for in *. simpl. rewrite Hk, IH. by destruct (key r =? k)%string.
Qed.

Lemma numbered_fmap k f rows : (forall r, key (f r) = key r) -> (forall r, version (f r) = version r) -> numbered k rows -> numbered k (f <$> rows).
Proof.
  intros Hk Hv. unfold numbered. rewrite rows_for_fmap, length_fmap by done. intros <-.
  rewrite <- list_fmap_compose. apply list_fmap_ext. intros; apply Hv.
Qed.

Lemma numbered_app k rows r :
  (key r = k -> version r = Z.of_nat (length (rows_for k rows)) + 1)%Z -> numbered k rows -> numbered k (rows ++ [r]).
Proof.
  unfold numbered. rewrite rows_for_app. destruct (String.eqb_spec (key r) k) as [E|E]; [|by rewrite app_nil_r].
  intros Hv Hn. rewrite fmap_app, Hn, length_app, Nat2Z.inj_add, seqZ_app by lia. simpl. f_equal. rewrite Hv by done. by rewrite Z.add_comm.
Qed.

Lemma numbered_nth k rows i r : numbered k rows -> rows_for k rows !! i = Some r -> version r = (Z.of_nat i + 1)%Z.
Proof.
  intros Hn Hi. assert (H : (version <$> rows_for k rows) !! i = Some (version r)) by (by rewrite list_lookup_fmap, Hi).
  rewrite Hn in H. apply lookup_seqZ in H. lia.
Qed.

Lemma numbered_find k rows v :
  numbered k rows -> find (fun r => String.eqb (key r) k && (version r =? v)%Z) rows = (if (0 <? v)%Z then rows_for k rows !! Z.to_nat (v - 1) else None).
Proof.
  intros Hn. transitivity (find (fun r => (version r =? v)%Z) (rows_for k rows)).
  { clear Hn. induction rows as [|r rows IH]; [done|]. unfold rows_for in *. simpl. rewrite IH. by destruct (key r =? k)%string. }
  unfold numbered in Hn. remember (rows_for k rows) as l eqn:E. clear E rows.
  assert (G : forall (l : list A) a, version <$> l = seqZ a (Z.of_nat (length l)) ->
            find (fun r => (version r =? v)%Z) l = (if (a <=? v)%Z then l !! Z.to_nat (v - a) else None)).
  { clear. induction l as [|r l IH]; intros a H; simpl; [by case_match|].
    simpl in H. rewrite seqZ_cons in H by lia. injection H as Hr Hl. replace (Z.pred _) with (Z.of_nat (length l)) in Hl by lia.
    rewrite (IH _ Hl), Hr. destruct (Z.eqb_spec a v) as [->|Ne]; [by rewrite Z.leb_refl, Z.sub_diag|].
    destruct (Z.leb_spec a v); destruct (Z.leb_spec (Z.succ a) v); try done; try lia.
    replace (Z.to_nat (v - a)) with (S (Z.to_nat (v - Z.succ a))) by lia. done. }
  rewrite (G l 1%Z Hn). by replace (1 <=? v)%Z with (0 <? v)%Z by lia.
Qed.

(** Changing the row of one version, and the entry it stands for. *)
Definition mark (name : string) (v : Z) (change : A -> A) (r : A) : A := if String.eqb (key r) name && (version r =? v)%Z then change r else r.

Lemma Forall2_mark {B} (R R' : A -> B -> Prop) k name v change upd rows (l : list B) :
  (forall r, key (change r) = key r) -> (forall r b, R r b -> R' r b) -> (forall r b, R r b -> R' (change r) (upd b)) ->
  numbered k rows -> Forall2 R (rows_for k rows) l ->
  Forall2 R' (rows_for k (mark name v change <$> rows)) (if String.eqb k name && (0 <? v)%Z then alter upd (Z.to_nat (v - 1)) l else l).
Proof.
  intros Hkey Hsame Hupd Hn Hf. rewrite rows_for_fmap by (intros r; unfold mark; by case_match). apply Forall2_lookup. intros i.
  rewrite list_lookup_fmap. pose proof (proj1 (Forall2_lookup _ _ _) Hf i) as Hi.
  assert (Hk : forall r, rows_for k rows !! i = Some r -> key r = k /\ version r = (Z.of_nat i + 1)%Z).
  { intros r Hr. split; [|by eapply numbered_nth]. apply list_elem_of_lookup_2, list_elem_of_In, filter_In in Hr as [_ Hr]. by apply String.eqb_eq. }
  destruct (rows_for k rows !! i) as [r|] eqn:Er; inversion Hi as [? b Hh Ea Eb|Ea Eb]; subst; simpl.
  - unfold mark. destruct (Hk r eq_refl) as [-> ->]. destruct (String.eqb_spec k name) as [->|Ne]; simpl; [|rewrite <- Eb; constructor; by apply Hsame].
    destruct (Z.ltb_spec 0 v); simpl; [|rewrite (proj2 (Z.eqb_neq _ _)), <- Eb by lia; constructor; by apply Hsame].
    destruct (Z.eqb_spec (Z.of_nat i + 1) v) as [<-|Nv]; rewrite list_lookup_alter.
    + replace (Z.to_nat (Z.of_nat i + 1 - 1)) with i by lia. rewrite decide_True, <- Eb by done. constructor. by apply Hupd.
    + case_decide; [lia|]. rewrite <- Eb. constructor. by apply Hsame.
  - destruct ((k =? name)%string && _); [|rewrite <- Eb; constructor].
    rewrite list_lookup_alter. case_decide as E; [rewrite E|]; rewrite <- Eb; constructor.
Qed.

Lemma numbered_mark k name v change rows :
  (forall r, key (change r) = key r) -> (forall r, version (change r) = version r) -> numbered k rows -> numbered k (mark name v change <$> rows).
Proof. intros Hk Hv. apply numbered_fmap; intros r; unfold mark; by case_match. Qed.
End Numbered.

Lemma max_version_snoc l v : Forall (fun w => (w <= v)%Z) l -> max_version (l ++ [v]) = Some v.
Proof. induction 1 as [|w l Hw _ IH]; [done|]. unfold max_version in *. simpl. rewrite IH. f_equal. lia. Qed.

(** The next version of a numbered list. *)
Lemma next_version_numbered n : (Z.of_nat n < u32_max)%Z -> next_version (seqZ 1 (Z.of_nat n)) = (Z.of_nat n + 1)%Z.
Proof.
  intros Hn. unfold next_version. destruct n as [|n]; [done|].
  replace (Z.of_nat (S n)) with (Z.of_nat n + 1)%Z in * by lia. rewrite seqZ_app by lia.
  rewrite (seqZ_cons (1 + Z.of_nat n)) by lia. rewrite (seqZ_nil _ (Z.pred 1)) by lia. rewrite max_version_snoc.
  - rewrite !wrap32_small; [lia|unfold is_u32, u32_max in *; lia|rewrite wrap32_small; unfold is_u32, u32_max in *; lia].
  - apply Forall_forall. intros w Hw. apply elem_of_seqZ in Hw. lia.
Qed.

Lemma filter_filter {A} (p q : A -> bool) l : List.filter (fun x => p x && q x) l = List.filter q (List.filter p l).
Proof. induction l as [|x l IH]; [done|]. simpl. destruct (p x); simpl; by rewrite IH. Qed.

(** The highest version among some rows of a key is that of the last of them. *)
Lemma max_version_last {A} key (version : A -> Z) p k rows :
  numbered key version k rows -> max_version (version <$> List.filter p (rows_for key k rows)) = version <$> last (List.filter p (rows_for key k rows)).
Proof.
  unfold numbered. generalize (rows_for key k rows). clear rows. intros rows. induction rows as [|r rows IH] using rev_ind; [done|].
  rewrite fmap_app, length_app, Nat2Z.inj_add, seqZ_app by lia. intros H. apply app_inj_1 in H as [H1 H2]; [|by rewrite length_fmap, length_seqZ; lia].
  rewrite List.filter_app. simpl. destruct (p r); [|by rewrite app_nil_r; apply IH]. rewrite fmap_app, last_snoc. simpl. apply max_version_snoc.
  apply Forall_fmap, Forall_forall. intros r' Hr'. apply list_elem_of_In, filter_In in Hr' as [Hr' _]. apply list_elem_of_In in Hr'.
  assert (E : version r' ∈ seqZ 1 (Z.of_nat (length rows))) by (rewrite <- H1; by apply list_elem_of_fmap_2).
  apply elem_of_seqZ in E. simpl in H2. injection H2 as H2. simpl. lia.
Qed.

Lemma Forall2_filter_last {A B} (R : A -> B -> Prop) l k p q :
  Forall2 R l k -> (forall a b, R a b -> p a = q b) -> option_Forall2 R (last (List.filter p l)) (last (List.filter q k)).
Proof.
  intros H Hpq. apply Forall2_last. induction H as [|a b l k Hab _ IH]; [constructor|]. simpl. rewrite (Hpq a b Hab).
  destruct (q b); [by constructor|done].
Qed.

Lemma last_Some_elem_of {A} (l : list A) x : last l = Some x -> x ∈ l.
Proof. intros H. apply last_Some in H as [l' ->]. set_solver. Qed.

(** ** External tools *)

(** The fields of a snapshot that have columns; [xs_rest] is everything else. *)
Record ExternalSnapshot := mkExternal {
  xs_digest : string;
  xs_tool_name : string;
  xs_manifest_digest : string;
  xs_schema_digest : string;
  xs_runtime_digest : string;
  xs_protocol_version : string;
  xs_runtime : json;
  xs_secrets : json;
  xs_capabilities : json;
  xs_rest : json;
  xs_approval : ApprovalRecord
}.

Record ext_tool_row := mkExtTool { et_name : string; et_created_at : string; et_latest : Z }.

Record ext_version_row := mkExtVersion {
  ev_tool : string;
  ev_version : Z;
  ev_digest : string;
  ev_manifest_digest : string;
  ev_schema_digest : string;
  ev_runtime_digest : string;
  ev_protocol : string;
  ev_runtime_json : string;
  ev_secrets_json : string;
  ev_capabilities_json : string;
  ev_state : string;
  ev_owner : option string;
  ev_reviewed_at : option string;
  ev_expires_at : option string;
  ev_created_at : string;
  ev_stale_at : option string
}.

Record ext_store := mkExtStore { xt_tools : list ext_tool_row; xt_versions : list ext_version_row; xt_blobs : list (string * string) }.
Definition ext_empty : ext_store := mkExtStore [] [] [].

(** [ExternalToolRegistryTool] and [ExternalToolRegistryToolVersion] *)
Record ExternalTool := mkTool { tl_name : string; tl_created_at : string; tl_latest : option Z }.
Record ExternalVersion := mkVersion {
  vr_tool : string; vr_version : Z; vr_digest : string; vr_manifest_digest : string; vr_schema_digest : string; vr_runtime_digest : string;
  vr_protocol : string; vr_runtime : json; vr_secrets : json; vr_capabilities : json; vr_approval : ApprovalRecord;
  vr_created_at : string; vr_stale_at : option string
}.

Definition stale_row (stale_at : string) (r : ext_version_row) : ext_version_row :=
  mkExtVersion (ev_tool r) (ev_version r) (ev_digest r) (ev_manifest_digest r) (ev_schema_digest r) (ev_runtime_digest r) (ev_protocol r)
    (ev_runtime_json r) (ev_secrets_json r) (ev_capabilities_json r) "stale" (ev_owner r) (ev_reviewed_at r) (ev_expires_at r) (ev_created_at r) (Some stale_at).

Definition with_approval (a : ApprovalRecord) (s : ExternalSnapshot) : ExternalSnapshot :=
  mkExternal (xs_digest s) (xs_tool_name s) (xs_manifest_digest s) (xs_schema_digest s) (xs_runtime_digest s) (xs_protocol_version s)
    (xs_runtime s) (xs_secrets s) (xs_capabilities s) (xs_rest s) a.

Section External.
Context (value_to_string : json -> string) (value_from_str : string -> result json string).
Context (snapshot_to_string : ExternalSnapshot -> string) (snapshot_from_str : string -> result ExternalSnapshot string).

Definition decode_value (s f : string) : result json RepositoryError :=
  map_err (fun e => decode_err ("invalid " +:+ f +:+ ": " +:+ e)) (value_from_str s).

Definition put_external_tool_snapshot (now : string) (s : ExternalSnapshot) (st : ext_store) : result ExternalVersion RepositoryError * ext_store :=
  let name := xs_tool_name s in
  let v := next_version (ev_version <$> List.filter (fun r => String.eqb (ev_tool r) name) (xt_versions st)) in
  let a := xs_approval s in
  let blob := (xs_digest s, snapshot_to_string s) in
  let blobs := upsert_where (fun b => String.eqb b.1 (xs_digest s)) (fun _ => blob) blob (xt_blobs st) in
  let tools := upsert_where (fun r => String.eqb (et_name r) name) (fun _ => mkExtTool name now v) (mkExtTool name now v) (xt_tools st) in
  let row := mkExtVersion name v (xs_digest s) (xs_manifest_digest s) (xs_schema_digest s) (xs_runtime_digest s) (xs_protocol_version s)
               (value_to_string (xs_runtime s)) (value_to_string (xs_secrets s)) (value_to_string (xs_capabilities s))
               (mcp_approval_state_str (ap_state a)) (ap_owner a) (ap_reviewed_at a) (ap_expires_at a) now None in
  (Ok (mkVersion name v (xs_digest s) (xs_manifest_digest s) (xs_schema_digest s) (xs_runtime_digest s) (xs_protocol_version s)
         (xs_runtime s) (xs_secrets s) (xs_capabilities s) a now None),
   mkExtStore tools (xt_versions st ++ [row]) blobs).

Definition load_external_snapshot_blob (st : ext_store) (digest : string) : result ExternalSnapshot RepositoryError :=
  match first_such (fun b => String.eqb b.1 digest) (xt_blobs st) with
  | None => Err (decode_err ("external tool snapshot blob missing for digest " +:+ digest))
  | Some (_, text) => map_err (fun e => decode_err ("invalid external_tool_snapshot: " +:+ e)) (snapshot_from_str text)
  end.

Definition get_external_tool_snapshot (st : ext_store) (name : string) (version : Z) : result (option ExternalSnapshot) RepositoryError :=
  match first_such (fun r => String.eqb (ev_tool r) name && (ev_version r =? version)%Z) (xt_versions st) with
  | None => Ok None
  | Some r =>
      let? s := load_external_snapshot_blob st (ev_digest r) in
      let? state := parse_mcp_approval_state (ev_state r) in
      Ok (Some (with_approval (mkApproval state (ev_owner r) (ev_reviewed_at r) (ev_expires_at r)) s))
  end.

Definition get_latest_external_tool_snapshot (st : ext_store) (name : string) : result (option ExternalSnapshot) RepositoryError :=
  match max_version (ev_version <$> List.filter (fun r => String.eqb (ev_tool r) name && String.eqb (ev_state r) "approved") (xt_versions st)) with
  | None => Ok None
  | Some v => get_external_tool_snapshot st name (wrap32 v)
  end.

Definition list_external_tools (st : ext_store) : list ExternalTool :=
  (fun r => mkTool (et_name r) (et_created_at r) (Some (wrap32 (et_latest r)))) <$> stable_sort (fun a b => String.leb (et_name a) (et_name b)) (xt_tools st).

Fixpoint approved_of (st : ext_store) (tools : list ExternalTool) : result (list ExternalSnapshot) RepositoryError :=
  match tools with
  | [] => Ok []
  | t :: rest =>
      let? o := get_latest_external_tool_snapshot st (tl_name t) in
      let? more := approved_of st rest in
      Ok (option_list o ++ more)
  end.

Definition list_approved_external_tool_snapshots (st : ext_store) : result (list ExternalSnapshot) RepositoryError :=
  approved_of st (list_external_tools st).

Definition row_to_ext_tool_version (r : ext_version_row) : result ExternalVersion RepositoryError :=
  let? runtime := decode_value (ev_runtime_json r) "runtime_json" in
  let? secrets := decode_value (ev_secrets_json r) "secrets_json" in
  let? capabilities := decode_value (ev_capabilities_json r) "capabilities_json" in
  let? state := parse_mcp_approval_state (ev_state r) in
  Ok (mkVersion (ev_tool r) (wrap32 (ev_version r)) (ev_digest r) (ev_manifest_digest r) (ev_schema_digest r) (ev_runtime_digest r) (ev_protocol r)
        runtime secrets capabilities (mkApproval state (ev_owner r) (ev_reviewed_at r) (ev_expires_at r)) (ev_created_at r) (ev_stale_at r)).

Definition list_external_tool_versions (st : ext_store) (name : string) : result (list ExternalVersion) RepositoryError :=
  results row_to_ext_tool_version (by_version_desc ev_version (List.filter (fun r => String.eqb (ev_tool r) name) (xt_versions st))).

Definition mark_external_tool_version_stale (now : string) (name : string) (version : Z) (st : ext_store) : ext_store :=
  mkExtStore (xt_tools st)
    (mark ev_tool ev_version name version (stale_row now) <$> xt_versions st) (xt_blobs st).

(** *** What the registry promises

    A tool has a list of snapshots, its versions in order; an import appends one
    and marking stale changes the approval of one. *)
Inductive ext_op := Import (now : string) (s : ExternalSnapshot) | MarkStale (now name : string) (version : Z).

Definition ext_step (st : ext_store) (o : ext_op) : ext_store :=
  match o with
  | Import now s => (put_external_tool_snapshot now s st).2
  | MarkStale now name v => mark_external_tool_version_stale now name v st
  end.
Definition ext_run (ops : list ext_op) : ext_store := foldl ext_step ext_empty ops.

Definition ext_registry := string -> list ExternalSnapshot.
Definition set_stale (s : ExternalSnapshot) : ExternalSnapshot :=
  let a := xs_approval s in with_approval (mkApproval Stale (ap_owner a) (ap_reviewed_at a) (ap_expires_at a)) s.
Definition spec_step (g : ext_registry) (o : ext_op) : ext_registry :=
  match o with
  | Import _ s => fun k => g k ++ (if String.eqb (xs_tool_name s) k then [s] else [])
  | MarkStale _ name v => fun k => if String.eqb k name && (0 <? v)%Z then alter set_stale (Z.to_nat (v - 1)) (g k) else g k
  end.
Definition spec_run (ops : list ext_op) : ext_registry := foldl spec_step (fun _ => []) ops.
Definition spec_get (g : ext_registry) (name : string) (v : Z) : option ExternalSnapshot :=
  if (0 <? v)%Z then g name !! Z.to_nat (v - 1) else None.
Definition is_approved (s : ExternalSnapshot) : bool := bool_decide (ap_state (xs_approval s) = Approved).
Definition spec_latest (g : ext_registry) (name : string) : option ExternalSnapshot := last (List.filter is_approved (g name)).

(** Equal digests mean equal content, approvals aside. *)
Context (P : ExternalSnapshot -> Prop).
Definition digests_identify : Prop := forall s s' a, P s -> P s' -> xs_digest s = xs_digest s' -> with_approval a s = with_approval a s'.
Definition snapshots_round_trip : Prop := forall s, P s -> snapshot_from_str (snapshot_to_string s) = Ok s.
Definition op_of (o : ext_op) : Prop := match o with Import _ s => P s | MarkStale _ _ _ => True end.

Definition row_approval (r : ext_version_row) (state : ApprovalState) : ApprovalRecord := mkApproval state (ev_owner r) (ev_reviewed_at r) (ev_expires_at r).
Definition row_holds (st : ext_store) (r : ext_version_row) (s : ExternalSnapshot) : Prop :=
  exists s0 state, load_external_snapshot_blob st (ev_digest r) = Ok s0 /\ xs_digest s0 = ev_digest r /\ P s0 /\
    parse_mcp_approval_state (ev_state r) = Ok state /\ s = with_approval (row_approval r state) s0.

Definition ext_rows (st : ext_store) (k : string) : list ext_version_row := rows_for ev_tool k (xt_versions st).
Definition implements (st : ext_store) (g : ext_registry) : Prop :=
  forall k, numbered ev_tool ev_version k (xt_versions st) /\ Forall2 (row_holds st) (ext_rows st k) (g k).

Lemma row_holds_det st r s s' : row_holds st r s -> row_holds st r s' -> s = s'.
Proof. intros (s0 & a & H1 & _ & _ & H2 & ->) (s1 & b & H3 & _ & _ & H4 & ->). congruence. Qed.

Lemma load_after_put st now s d :
  snapshots_round_trip -> P s ->
  load_external_snapshot_blob (put_external_tool_snapshot now s st).2 d = (if String.eqb d (xs_digest s) then Ok s else load_external_snapshot_blob st d).
Proof.
  intros Hrt Hs. unfold load_external_snapshot_blob, first_such, put_external_tool_snapshot. simpl. rewrite (find_upsert d).
  destruct (d =? xs_digest s)%string; [|done]. simpl. by rewrite Hrt.
Qed.

Lemma row_holds_kept st now s r s' :
  snapshots_round_trip -> digests_identify -> P s -> row_holds st r s' -> row_holds (put_external_tool_snapshot now s st).2 r s'.
Proof.
  intros Hrt Hd Hs (s0 & state & Hl & Hk & Hp & Hst & ->). unfold row_holds. rewrite load_after_put by done.
  destruct (String.eqb_spec (ev_digest r) (xs_digest s)) as [E|E]; [|by exists s0, state].
  exists s, state. repeat split; try done. apply Hd; congruence.
Qed.

Lemma implements_import st g now s :
  snapshots_round_trip -> digests_identify -> P s -> implements st g -> (Z.of_nat (length (g (xs_tool_name s))) < u32_max)%Z ->
  implements (ext_step st (Import now s)) (spec_step g (Import now s)).
Proof.
  intros Hrt Hd Hs Hi Hlen k. destruct (Hi k) as [Hn Hf]. destruct (Hi (xs_tool_name s)) as [Hn' Hf'].
  pose proof (Forall2_length _ _ _ Hf') as El. unfold ext_rows in El. split.
  - apply numbered_app; [|done]. simpl. intros <-. fold (rows_for ev_tool (xs_tool_name s) (xt_versions st)).
    rewrite Hn', El. by apply next_version_numbered.
  - unfold ext_rows in *. simpl. rewrite rows_for_app. simpl. apply Forall2_app.
    + eapply Forall2_impl; [exact Hf|]. intros r s'. by apply row_holds_kept.
    + destruct (xs_tool_name s =? k)%string; constructor; [|constructor].
      exists s, (ap_state (xs_approval s)). repeat split; try done.
      * change (load_external_snapshot_blob (put_external_tool_snapshot now s st).2 (xs_digest s) = Ok s).
        by rewrite load_after_put, String.eqb_refl.
      * simpl. by destruct (ap_state _).
      * by destruct s as [? ? ? ? ? ? ? ? ? ? []].
Qed.

Lemma row_holds_stale st now r s : row_holds st r s -> row_holds st (stale_row now r) (set_stale s).
Proof. intros (s0 & state & Hl & Hk & Hp & Hst & ->). by exists s0, Stale. Qed.

Lemma implements_stale st g now name v :
  implements st g -> implements (ext_step st (MarkStale now name v)) (spec_step g (MarkStale now name v)).
Proof.
  intros Hi k. destruct (Hi k) as [Hn Hf]. split; [by apply numbered_mark|].
  apply (Forall2_mark ev_tool ev_version (row_holds st)); try done. intros r s. exact (row_holds_stale st now r s).
Qed.

Lemma spec_length g o k : length (g k) <= length (spec_step g o k) <= S (length (g k)).
Proof.
  destruct o as [now s|now name v]; simpl.
  - rewrite length_app. case_match; simpl; lia.
  - case_match; [rewrite length_alter|]; lia.
Qed.

Lemma implements_run ops :
  snapshots_round_trip -> digests_identify -> Forall op_of ops -> (Z.of_nat (length ops) < u32_max)%Z ->
  implements (ext_run ops) (spec_run ops) /\ forall k, length (spec_run ops k) <= length ops.
Proof.
  intros Hrt Hd. induction ops as [|o ops IH] using rev_ind; intros Hok Hlen.
  { split; [|done]. intros k. by split; [|constructor]. }
  apply Forall_app in Hok as [Hok Ho]. apply Forall_cons in Ho as [Ho _]. rewrite length_app in *. simpl in *.
  destruct IH as [Hi Hl]; [done|lia|]. unfold ext_run, spec_run in *. rewrite !foldl_app. simpl. split.
  - destruct o as [now s|now name v]; [|by apply implements_stale]. apply implements_import; try done.
    specialize (Hl (xs_tool_name s)). lia.
  - intros k. specialize (Hl k). pose proof (spec_length (foldl spec_step (fun _ => []) ops) o k). lia.
Qed.

(** *** Reading through the abstraction *)
Lemma read_by_version st g name v : implements st g -> get_external_tool_snapshot st name v = Ok (spec_get g name v).
Proof.
  intros Hi. destruct (Hi name) as [Hn Hf]. unfold get_external_tool_snapshot, first_such, spec_get. rewrite numbered_find by done.
  destruct (0 <? v)%Z; [|done]. pose proof (proj1 (Forall2_lookup _ _ _) Hf (Z.to_nat (v - 1))) as H. unfold ext_rows in H.
  destruct (rows_for ev_tool name (xt_versions st) !! Z.to_nat (v - 1)) as [r|]; inversion H as [? s Hh Ea Eb|Ea Eb]; subst; [|done].
  destruct Hh as (s0 & state & Hl & _ & _ & Hst & ->). by rewrite Hl, Hst.
Qed.

Lemma approved_state r state : parse_mcp_approval_state r = Ok state -> String.eqb r "approved" = bool_decide (state = Approved).
Proof.
  unfold parse_mcp_approval_state. repeat case_match; intros [= <-];
    repeat match goal with H : String.eqb _ _ = true |- _ => apply String.eqb_eq in H; subst end; done.
Qed.

Definition row_approved (r : ext_version_row) : bool := String.eqb (ev_state r) "approved".

Lemma row_holds_approved st r s : row_holds st r s -> row_approved r = is_approved s.
Proof. intros (s0 & state & _ & _ & _ & Hst & ->). unfold row_approved. by rewrite (approved_state _ _ Hst). Qed.

Lemma latest_version st g name :
  implements st g -> (Z.of_nat (length (g name)) < u32_max)%Z ->
  get_latest_external_tool_snapshot st name = Ok (spec_latest g name).
Proof.
  intros Hi Hlen. destruct (Hi name) as [Hn Hf]. unfold get_latest_external_tool_snapshot.
  rewrite filter_filter. pose proof (max_version_last _ _ row_approved _ _ Hn) as Hm. unfold rows_for at 1, row_approved at 1 in Hm. rewrite Hm.
  pose proof (Forall2_filter_last _ _ _ row_approved is_approved Hf (row_holds_approved st)) as Hl. unfold ext_rows, spec_latest in *.
  destruct (last _) as [r|] eqn:El; inversion Hl as [? s Hh Ea Eb|Ea Eb]; subst; [|done]. simpl.
  apply last_Some_elem_of, list_elem_of_In, filter_In in El as [El _]. apply list_elem_of_In, list_elem_of_lookup in El as [i Hri].
  pose proof (numbered_nth _ _ _ _ _ _ Hn Hri) as Hv. pose proof (lookup_lt_Some _ _ _ Hri). apply Forall2_length in Hf as Hfl. unfold ext_rows in Hfl.
  rewrite Hv, wrap32_small by (unfold is_u32, u32_max in *; lia). rewrite (read_by_version _ _ _ _ Hi). do 2 f_equal.
  unfold spec_get. replace (0 <? _)%Z with true by lia. replace (Z.to_nat _) with i by lia.
  pose proof (proj1 (Forall2_lookup _ _ _) Hf i) as H'. unfold ext_rows in H'. rewrite Hri in H'. inversion H' as [? s' Hh' Ea' Eb'|]; subst.
  by rewrite (row_holds_det _ _ _ _ Hh Hh').
Qed.

(** The tools listed are the ones imported at least once. *)
Definition listed (st : ext_store) (g : ext_registry) : Prop := forall k, k ∈ et_name <$> xt_tools st <-> g k <> [].

Lemma listed_run ops : listed (ext_run ops) (spec_run ops).
Proof.
  induction ops as [|o ops IH] using rev_ind; intros k; [by split; [intros H; inversion H|]|].
  unfold ext_run, spec_run in *. rewrite !foldl_app. simpl. specialize (IH k). destruct o as [now s|now name v]; simpl.
  - rewrite (upsert_names et_name) by done. rewrite IH. destruct (String.eqb_spec (xs_tool_name s) k) as [->|Ne].
    + split; [|by left]. intros _ H. by destruct (app_cons_not_nil (foldl spec_step (fun _ => []) ops k) [] s).
    + rewrite app_nil_r. split; [intros [E|E]|intros E]; [congruence|done|by right].
  - rewrite IH. case_match; [|done]. split; intros Hne E; apply Hne; apply length_zero_iff_nil in E; apply length_zero_iff_nil;
      by rewrite length_alter in *.
Qed.

Lemma approved_of_latest st g tools :
  (forall k, get_latest_external_tool_snapshot st k = Ok (spec_latest g k)) ->
  approved_of st tools = Ok (omap (fun t => spec_latest g (tl_name t)) tools).
Proof.
  intros H. induction tools as [|t tools IH]; [done|]. simpl. rewrite H. simpl. rewrite IH. by destruct (spec_latest g (tl_name t)).
Qed.

Lemma list_names st k : k ∈ tl_name <$> list_external_tools st <-> k ∈ et_name <$> xt_tools st.
Proof.
  unfold list_external_tools. rewrite <- list_fmap_compose. by rewrite (stable_sort_perm (fun a b => String.leb (et_name a) (et_name b)) (xt_tools st)).
Qed.
End External.

(** C35: The registry of external tools implements its abstract contract.  After
    any sequence of imports and staleness marks, the snapshot of version [v] of
    a tool is the one of its [v]-th import with the approval it has now (stale
    once marked), the active snapshot is the newest import that is approved now,
    so neither a pending refresh nor a stale newest version takes an older
    approved one away, and the approved list has exactly the active snapshots of
    the tools imported at least once.  This holds as long as equal digests mean
    equal content and stored snapshots parse back. *)
Theorem external_registry_refines vts sts sfs P ops :
  snapshots_round_trip sts sfs P -> digests_identify P -> Forall (op_of P) ops -> (Z.of_nat (length ops) < u32_max)%Z ->
  let st := ext_run vts sts ops in
  let g := spec_run ops in
  (forall name v, get_external_tool_snapshot sfs st name v = Ok (spec_get g name v)) /\
  (forall name, get_latest_external_tool_snapshot sfs st name = Ok (spec_latest g name)) /\
  list_approved_external_tool_snapshots sfs st = Ok (omap (fun t => spec_latest g (tl_name t)) (list_external_tools st)) /\
  (forall name, name ∈ tl_name <$> list_external_tools st <-> g name <> []).
Proof.
  intros Hrt Hd Hok Hlen st g. destruct (implements_run vts sts sfs P ops) as [Hi Hl]; try done.
  assert (Hlast : forall name, get_latest_external_tool_snapshot sfs st name = Ok (spec_latest g name)).
  { intros name. eapply latest_version; [exact Hi|]. specialize (Hl name). fold g in Hl. lia. }
  split; [|split; [done|split]].
  - intros name v. by eapply read_by_version.
  - by apply approved_of_latest.
  - intros name. rewrite list_names. apply listed_run.
Qed.

Definition sample_snapshot (digest : string) (state : ApprovalState) : ExternalSnapshot :=
  mkExternal digest "search" "m" "s" "r" "1" JNull JNull JNull JNull (mkApproval state None None None).
Definition sample_ext_text (s : ExternalSnapshot) : string := xs_digest s +:+ mcp_approval_state_str (ap_state (xs_approval s)).
Definition sample_ext_parse (t : string) : result ExternalSnapshot string :=
  if String.eqb t "d1approved" then Ok (sample_snapshot "d1" Approved)
  else if String.eqb t "d2approved" then Ok (sample_snapshot "d2" Approved)
  else if String.eqb t "d1pending" then Ok (sample_snapshot "d1" Pending)
  else Err "no such text".
Definition sample_ext_ops : list ext_op :=
  [Import "t1" (sample_snapshot "d1" Approved); Import "t2" (sample_snapshot "d2" Approved); Import "t3" (sample_snapshot "d1" Pending); MarkStale "t4" "search" 2].

(** Two approved imports, a pending one with the content of the first, and the second marked stale: the first is active again. *)
Lemma external_registry_refines_witness :
  let st := ext_run (fun _ => "v") sample_ext_text sample_ext_ops in
  get_latest_external_tool_snapshot sample_ext_parse st "search" = Ok (Some (sample_snapshot "d1" Approved)) /\
  get_external_tool_snapshot sample_ext_parse st "search" 2 = Ok (Some (sample_snapshot "d2" Stale)) /\
  get_external_tool_snapshot sample_ext_parse st "search" 4 = Ok None.
Proof.
  intros st.
  destruct (external_registry_refines (fun _ => "v") sample_ext_text sample_ext_parse
              (fun s => s ∈ [sample_snapshot "d1" Approved; sample_snapshot "d2" Approved; sample_snapshot "d1" Pending]) sample_ext_ops)
    as (Hget & Hlast & _).
  - intros s Hs. repeat (apply elem_of_cons in Hs as [->|Hs]; [reflexivity|]). inversion Hs.
  - intros s s' a Hs Hs' E. repeat (apply elem_of_cons in Hs as [->|Hs]; [|]); try (by inversion Hs);
      repeat (apply elem_of_cons in Hs' as [->|Hs']; [|]); try (by inversion Hs'); try discriminate E; reflexivity.
  - repeat constructor; simpl; set_solver.
  - vm_compute. reflexivity.
  - split; [exact (Hlast "search")|split; [exact (Hget "search" 2%Z)|exact (Hget "search" 4%Z)]].
Defined.
