(* ===== verification/McpSnapshots.v ===== *)
(** * Snapshots of imported MCP servers

    The snapshot format and its digests ([baml-rt-tools/src/mcp_snapshot.rs]) and
    the registry of servers beside the package repository
    ([baml-rt-repository/src/surreal_store.rs], [mcp.rs]).  Unlike the registry of
    external tools, a version is read as it was imported, and only the newest
    version of a server can be its active one.  SHA-256, the canonical JSON
    printer and the serde codecs are parameters. *)

From stdpp Require Import base list strings sets.
From Stdlib Require Import ZArith Lia.
From S2P Require Import Prelude RustStr Json Semiotic Signature ContentHash Repository ToolSnapshots.

Open Scope string_scope.
Open Scope list_scope.

(** ** Digests *)

Inductive DigestParseError := MissingPrefix | InvalidLength (len : nat) | InvalidHex.

(** [Display] and [to_prefixed_hex]; the 32 bytes are a string of length 32. *)
Definition digest_display (bytes : string) : string := "sha256:" +:+ encode_hex bytes.

Definition digest_from_str (value : string) : result string DigestParseError :=
  match strip_prefix "sha256:" value with
  | None => Err MissingPrefix
  | Some hex =>
      if negb (String.length hex =? 64)%nat then Err (InvalidLength (String.length hex))
      else match decode_hex hex with Some bytes => Ok bytes | None => Err InvalidHex end
  end.

(** ** Snapshots *)

(** Transport, secret references and output modes by their serialised value. *)
Record McpImportedTool := mkMcpTool {
  mt_platform_name : string;
  mt_mcp_name : string;
  mt_description : option string;
  mt_input_schema : json;
  mt_input_schema_digest : string;
  mt_output_mode : json;
  mt_access : ToolAccess;
  mt_approval : ApprovalRecord;
  mt_opaque_reason : option string;
  mt_annotations : json
}.

Record McpServerSnapshot := mkMcpSnapshot {
  ms_schema_version : Z;
  ms_server_id : string;
  ms_transport : json;
  ms_protocol : string;
  ms_server_info : option json;
  ms_config_digest : string;
  ms_identity_digest : string;
  ms_tools_digest : string;
  ms_secret_refs : json;
  ms_approval : ApprovalRecord;
  ms_sandbox : option string;
  ms_tools : list McpImportedTool
}.

Definition is_approved_state (s : ApprovalState) : bool := match s with Approved => true | _ => false end.

Definition is_tool_projectable (s : McpServerSnapshot) (platform_tool_name : string) : bool :=
  if negb (is_approved_state (ap_state (ms_approval s))) then false
  else match find (fun t => String.eqb (mt_platform_name t) platform_tool_name) (ms_tools s) with
       | Some t => is_approved_state (ap_state (mt_approval t))
       | None => false
       end.

Definition approved_tools (s : McpServerSnapshot) : list McpImportedTool :=
  let server_approved := is_approved_state (ap_state (ms_approval s)) in
  List.filter (fun t => server_approved && is_approved_state (ap_state (mt_approval t))) (ms_tools s).

Section McpDigests.
Context (sha256 : string -> string) (to_jcs : json -> option string).

Definition canonical_digest (value : json) : string := digest_display (sha256 (default "null" (to_jcs value))).

Definition compute_server_identity_digest (capabilities server_info : json) : string :=
  let server_name := default JNull (jget "name" server_info) in
  canonical_digest (JObj [("capabilities", capabilities); ("server_info_name", server_name)]).

Definition compute_tools_digest_from_entries (entries : list (string * string)) : string :=
  let pairs := stable_sort (fun a b => String.leb a.1 b.1) entries in
  canonical_digest (JArr ((fun p => JObj [("name", JStr p.1); ("input_schema_digest", JStr p.2)]) <$> pairs)).

Definition compute_tools_digest (tools : list McpImportedTool) : string :=
  compute_tools_digest_from_entries ((fun t => (mt_mcp_name t, mt_input_schema_digest t)) <$> tools).

(** *** Digest lemmas *)

Lemma digest_display_parse bytes : String.length bytes = 32 -> digest_from_str (digest_display bytes) = Ok bytes.
Proof.
  intros H. unfold digest_from_str, digest_display. rewrite strip_prefix_app, hex_round_trip.
  assert (E : String.length (encode_hex bytes) = 2 * String.length bytes) by (clear H; induction bytes as [|b r IH]; [done|]; simpl in *; lia).
  by rewrite E, H.
Qed.

(** The order in which a server lists its tools does not matter, nor do their
    descriptions, annotations or approvals. *)
Lemma tools_digest_order ts ts' :
  NoDup (mt_mcp_name <$> ts) ->
  (fun t => (mt_mcp_name t, mt_input_schema_digest t)) <$> ts ≡ₚ (fun t => (mt_mcp_name t, mt_input_schema_digest t)) <$> ts' ->
  compute_tools_digest ts = compute_tools_digest ts'.
Proof.
  intros Hnd Hp. unfold compute_tools_digest, compute_tools_digest_from_entries. do 3 f_equal.
  apply stable_sort_unique; [intros x y z; apply str_leb_trans|intros; apply String.leb_total| |done].
  intros [n d] [n' d'] Hx Hy H1 H2. simpl in *. assert (n = n') as <- by (by apply String.leb_antisym). f_equal.
  apply list_elem_of_fmap in Hx as (t & [= -> ->] & Ht), Hy as (t' & [= En ->] & Ht').
  apply list_elem_of_lookup in Ht as [i Hi], Ht' as [j Hj].
  assert (i = j) as ->; [|congruence].
  eapply (NoDup_lookup (mt_mcp_name <$> ts)); [done|by rewrite list_lookup_fmap, Hi|by rewrite list_lookup_fmap, Hj; simpl; rewrite En].
Qed.
End McpDigests.

(** A tool is projectable exactly when it is among the approved ones, where platform names are not repeated. *)
Lemma projectable_iff_approved s n :
  NoDup (mt_platform_name <$> ms_tools s) -> is_tool_projectable s n = true <-> exists t, t ∈ approved_tools s /\ mt_platform_name t = n.
Proof.
  intros Hnd. unfold is_tool_projectable, approved_tools. destruct (is_approved_state (ap_state (ms_approval s))); simpl.
  2:{ split; [done|]. intros (t & Ht & _). apply list_elem_of_In, filter_In in Ht as [_ Ht]. done. }
  induction (ms_tools s) as [|t ts IH]; simpl; [split; [done|intros (t & Ht & _); inversion Ht]|].
  rewrite fmap_cons in Hnd. apply NoDup_cons in Hnd as [Hni Hnd]. destruct (String.eqb_spec (mt_platform_name t) n) as [E|E].
  - split; [intros Ha; rewrite Ha; exists t; split; [by constructor|done]|]. intros (t' & Ht' & En).
    destruct (is_approved_state (ap_state (mt_approval t))); [done|]. exfalso. apply Hni.
    apply list_elem_of_In, filter_In in Ht' as [Ht' _]. rewrite E, <- En. apply list_elem_of_fmap_2. by apply list_elem_of_In.
  - rewrite (IH Hnd). split; intros (t' & Ht' & En); exists t'; (split; [|done]).
    + destruct (is_approved_state (ap_state (mt_approval t))); [by constructor|done].
    + destruct (is_approved_state (ap_state (mt_approval t))); [|done]. apply elem_of_cons in Ht' as [->|]; [congruence|done].
Qed.

(** ** Rows *)

Record mcp_server_row := mkServerRow { sr_id : string; sr_created_at : string; sr_latest : Z }.

Record mcp_version_row := mkVersionRow {
  mv_server : string;
  mv_version : Z;
  mv_digest : string;
  mv_config_digest : string;
  mv_identity_digest : string;
  mv_tools_digest : string;
  mv_protocol : string;
  mv_transport_json : string;
  mv_secret_refs_json : string;
  mv_sandbox : option string;
  mv_state : string;
  mv_owner : option string;
  mv_reviewed_at : option string;
  mv_expires_at : option string;
  mv_created_at : string;
  mv_stale_at : option string
}.

Record mcp_tool_row := mkToolRow {
  tr_server : string;
  tr_server_version : Z;
  tr_platform_name : string;
  tr_mcp_name : string;
  tr_input_schema_digest : string;
  tr_output_mode_json : string;
  tr_access : string;
  tr_state : string;
  tr_owner : option string;
  tr_reviewed_at : option string;
  tr_opaque_reason : option string;
  tr_tool_json : string
}.

Record mcp_store := mkMcpStore {
  mp_servers : list mcp_server_row; mp_versions : list mcp_version_row; mp_tools : list mcp_tool_row; mp_blobs : list (string * string) }.
Definition mcp_empty : mcp_store := mkMcpStore [] [] [] [].

Record McpRegistryServer := mkRegServer { rs_id : string; rs_created_at : string; rs_latest : option Z }.
Record McpRegistryServerVersion := mkRegVersion {
  rv_server : string; rv_version : Z; rv_digest : string; rv_config_digest : string; rv_identity_digest : string; rv_tools_digest : string;
  rv_protocol : string; rv_transport : json; rv_secret_refs : json; rv_sandbox : option string; rv_approval : ApprovalRecord;
  rv_created_at : string; rv_stale_at : option string
}.
Record McpRegistryToolVersion := mkRegTool {
  rt_server : string; rt_server_version : Z; rt_platform_name : string; rt_mcp_name : string; rt_input_schema_digest : string;
  rt_output_mode : json; rt_access : ToolAccess; rt_state : ApprovalState; rt_owner : option string; rt_reviewed_at : option string;
  rt_opaque_reason : option string; rt_tool : json
}.

Definition tool_access_str (a : ToolAccess) : string := match a with AccRead => "read" | AccWrite => "write" | AccDelete => "delete" end.
Definition parse_tool_access (s : string) : result ToolAccess RepositoryError :=
  if String.eqb s "read" then Ok AccRead
  else if String.eqb s "write" then Ok AccWrite
  else if String.eqb s "delete" then Ok AccDelete
  else Err (decode_err ("invalid MCP tool access level: " +:+ s)).

Definition stale_version_row (now : string) (r : mcp_version_row) : mcp_version_row :=
  mkVersionRow (mv_server r) (mv_version r) (mv_digest r) (mv_config_digest r) (mv_identity_digest r) (mv_tools_digest r) (mv_protocol r)
    (mv_transport_json r) (mv_secret_refs_json r) (mv_sandbox r) "stale" (mv_owner r) (mv_reviewed_at r) (mv_expires_at r) (mv_created_at r) (Some now).
Definition stale_tool_row (r : mcp_tool_row) : mcp_tool_row :=
  mkToolRow (tr_server r) (tr_server_version r) (tr_platform_name r) (tr_mcp_name r) (tr_input_schema_digest r) (tr_output_mode_json r) (tr_access r)
    "stale" (tr_owner r) (tr_reviewed_at r) (tr_opaque_reason r) (tr_tool_json r).

Section Mcp.
Context (sha256 : string -> string) (to_jcs : json -> option string).
Context (value_to_string : json -> string) (value_from_str : string -> result json string).
Context (snapshot_value : McpServerSnapshot -> json) (tool_value : McpImportedTool -> json).
Context (mcp_to_string : McpServerSnapshot -> string) (mcp_from_str : string -> result McpServerSnapshot string).

Definition compute_snapshot_digest (s : McpServerSnapshot) : string := canonical_digest sha256 to_jcs (snapshot_value s).

Definition decode_json_column (s f : string) : result json RepositoryError :=
  map_err (fun e => decode_err ("invalid " +:+ f +:+ ": " +:+ e)) (value_from_str s).

Definition list_mcp_servers (st : mcp_store) : list McpRegistryServer :=
  (fun r => mkRegServer (sr_id r) (sr_created_at r) (Some (wrap32 (sr_latest r)))) <$> stable_sort (fun a b => String.leb (sr_id a) (sr_id b)) (mp_servers st).

Definition tool_row (server : string) (v : Z) (t : McpImportedTool) : mcp_tool_row :=
  mkToolRow server v (mt_platform_name t) (mt_mcp_name t) (mt_input_schema_digest t) (value_to_string (mt_output_mode t)) (tool_access_str (mt_access t))
    (mcp_approval_state_str (ap_state (mt_approval t))) (ap_owner (mt_approval t)) (ap_reviewed_at (mt_approval t)) (mt_opaque_reason t)
    (value_to_string (tool_value t)).

Definition put_mcp_snapshot (now : string) (s : McpServerSnapshot) (st : mcp_store) : result McpRegistryServerVersion RepositoryError * mcp_store :=
  let server := ms_server_id s in
  let v := next_version (mv_version <$> List.filter (fun r => String.eqb (mv_server r) server) (mp_versions st)) in
  let digest := compute_snapshot_digest s in
  let a := ms_approval s in
  let blobs := upsert_where (fun b => String.eqb b.1 digest) (fun _ => (digest, mcp_to_string s)) (digest, mcp_to_string s) (mp_blobs st) in
  let servers := upsert_where (fun r => String.eqb (sr_id r) server) (fun _ => mkServerRow server now v) (mkServerRow server now v) (mp_servers st) in
  let row := mkVersionRow server v digest (ms_config_digest s) (ms_identity_digest s) (ms_tools_digest s) (ms_protocol s)
               (value_to_string (ms_transport s)) (value_to_string (ms_secret_refs s)) (ms_sandbox s)
               (mcp_approval_state_str (ap_state a)) (ap_owner a) (ap_reviewed_at a) (ap_expires_at a) now None in
  (Ok (mkRegVersion server v digest (ms_config_digest s) (ms_identity_digest s) (ms_tools_digest s) (ms_protocol s)
         (ms_transport s) (ms_secret_refs s) (ms_sandbox s) a now None),
   mkMcpStore servers (mp_versions st ++ [row]) (mp_tools st ++ (tool_row server v <$> ms_tools s)) blobs).

Definition get_mcp_snapshot (st : mcp_store) (server : string) (version : Z) : result (option McpServerSnapshot) RepositoryError :=
  match first_such (fun r => String.eqb (mv_server r) server && (mv_version r =? version)%Z) (mp_versions st) with
  | None => Ok None
  | Some r =>
      match first_such (fun b => String.eqb b.1 (mv_digest r)) (mp_blobs st) with
      | None => Err (decode_err ("MCP snapshot blob missing for digest " +:+ mv_digest r))
      | Some (_, text) => let? s := map_err (fun e => decode_err ("invalid mcp_snapshot: " +:+ e)) (mcp_from_str text) in Ok (Some s)
      end
  end.

Definition get_latest_mcp_snapshot (st : mcp_store) (server : string) : result (option McpServerSnapshot) RepositoryError :=
  match first_such (fun r => String.eqb (sr_id r) server) (mp_servers st) with
  | None => Ok None
  | Some sr =>
      let version := wrap32 (sr_latest sr) in
      let approval_state := mv_state <$> first_such (fun r => String.eqb (mv_server r) server && (mv_version r =? version)%Z) (mp_versions st) in
      if bool_decide (approval_state = Some "approved") then get_mcp_snapshot st server version else Ok None
  end.

Definition row_to_mcp_server_version (r : mcp_version_row) : result McpRegistryServerVersion RepositoryError :=
  let? transport := decode_json_column (mv_transport_json r) "transport_json" in
  let? secret_refs := decode_json_column (mv_secret_refs_json r) "secret_refs_json" in
  let? state := parse_mcp_approval_state (mv_state r) in
  Ok (mkRegVersion (mv_server r) (wrap32 (mv_version r)) (mv_digest r) (mv_config_digest r) (mv_identity_digest r) (mv_tools_digest r) (mv_protocol r)
        transport secret_refs (mv_sandbox r) (mkApproval state (mv_owner r) (mv_reviewed_at r) (mv_expires_at r)) (mv_created_at r) (mv_stale_at r)).

Definition list_mcp_server_versions (st : mcp_store) (server : string) : result (list McpRegistryServerVersion) RepositoryError :=
  results row_to_mcp_server_version (by_version_desc mv_version (List.filter (fun r => String.eqb (mv_server r) server) (mp_versions st))).

Definition row_to_mcp_tool_version (r : mcp_tool_row) : result McpRegistryToolVersion RepositoryError :=
  let? output_mode := decode_json_column (tr_output_mode_json r) "output_mode_json" in
  let? access := parse_tool_access (tr_access r) in
  let? state := parse_mcp_approval_state (tr_state r) in
  let? tool := decode_json_column (tr_tool_json r) "tool_json" in
  Ok (mkRegTool (tr_server r) (wrap32 (tr_server_version r)) (tr_platform_name r) (tr_mcp_name r) (tr_input_schema_digest r)
        output_mode access state (tr_owner r) (tr_reviewed_at r) (tr_opaque_reason r) tool).

Definition find_mcp_tool (st : mcp_store) (platform_tool_name : string) : result (list McpRegistryToolVersion) RepositoryError :=
  results row_to_mcp_tool_version
    (by_version_desc tr_server_version (List.filter (fun r => String.eqb (tr_platform_name r) platform_tool_name) (mp_tools st))).

Definition mark_mcp_version_stale (now server : string) (version : Z) (st : mcp_store) : mcp_store :=
  mkMcpStore (mp_servers st)
    (mark mv_server mv_version server version (stale_version_row now) <$> mp_versions st)
    (mark tr_server tr_server_version server version stale_tool_row <$> mp_tools st)
    (mp_blobs st).

(** ** What the registry promises

    A server has its imports in order, each with the approval state it has now. *)
Inductive mcp_op := ImportServer (now : string) (s : McpServerSnapshot) | MarkServerStale (now server : string) (version : Z).

Definition mcp_step (st : mcp_store) (o : mcp_op) : mcp_store :=
  match o with
  | ImportServer now s => (put_mcp_snapshot now s st).2
  | MarkServerStale now server v => mark_mcp_version_stale now server v st
  end.
Definition mcp_run (ops : list mcp_op) : mcp_store := foldl mcp_step mcp_empty ops.

Definition mcp_registry := string -> list (McpServerSnapshot * ApprovalState).
Definition mcp_spec_step (g : mcp_registry) (o : mcp_op) : mcp_registry :=
  match o with
  | ImportServer _ s => fun k => g k ++ (if String.eqb (ms_server_id s) k then [(s, ap_state (ms_approval s))] else [])
  | MarkServerStale _ server v => fun k => if String.eqb k server && (0 <? v)%Z then alter (fun e => (e.1, Stale)) (Z.to_nat (v - 1)) (g k) else g k
  end.
Definition mcp_spec_run (ops : list mcp_op) : mcp_registry := foldl mcp_spec_step (fun _ => []) ops.
Definition mcp_spec_get (g : mcp_registry) (server : string) (v : Z) : option McpServerSnapshot :=
  if (0 <? v)%Z then fst <$> g server !! Z.to_nat (v - 1) else None.
Definition mcp_spec_latest (g : mcp_registry) (server : string) : option McpServerSnapshot :=
  match last (g server) with Some (s, Approved) => Some s | _ => None end.

Context (P : McpServerSnapshot -> Prop).
Definition mcp_digests_identify : Prop := forall s s', P s -> P s' -> compute_snapshot_digest s = compute_snapshot_digest s' -> s = s'.
Definition mcp_round_trip : Prop := forall s, P s -> mcp_from_str (mcp_to_string s) = Ok s.
Definition mcp_op_of (o : mcp_op) : Prop := match o with ImportServer _ s => P s | MarkServerStale _ _ _ => True end.

Definition mcp_row_holds (st : mcp_store) (r : mcp_version_row) (e : McpServerSnapshot * ApprovalState) : Prop :=
  P e.1 /\ mv_digest r = compute_snapshot_digest e.1 /\ mv_state r = mcp_approval_state_str e.2 /\
  find (fun b => String.eqb b.1 (mv_digest r)) (mp_blobs st) = Some (mv_digest r, mcp_to_string e.1).

Definition mcp_implements (st : mcp_store) (g : mcp_registry) : Prop :=
  forall k, numbered mv_server mv_version k (mp_versions st) /\
    Forall2 (mcp_row_holds st) (rows_for mv_server k (mp_versions st)) (g k) /\
    sr_latest <$> find (fun r => String.eqb (sr_id r) k) (mp_servers st) = (if bool_decide (g k = []) then None else Some (Z.of_nat (length (g k)))).

Lemma mcp_row_kept st now s r e : mcp_digests_identify -> P s -> mcp_row_holds st r e -> mcp_row_holds (put_mcp_snapshot now s st).2 r e.
Proof.
  intros Hd Hs (Hp & Hr & Hst & Hb). do 3 (split; [done|]). unfold put_mcp_snapshot. cbn [snd mp_blobs]. rewrite (find_upsert (mv_digest r)).
  destruct (String.eqb_spec (mv_digest r) (compute_snapshot_digest s)) as [E|E]; [|done].
  rewrite (Hd e.1 s Hp Hs); congruence.
Qed.

Lemma mcp_implements_import st g now s :
  mcp_digests_identify -> P s -> mcp_implements st g -> (Z.of_nat (length (g (ms_server_id s))) < u32_max)%Z ->
  mcp_implements (mcp_step st (ImportServer now s)) (mcp_spec_step g (ImportServer now s)).
Proof.
  intros Hd Hs Hi Hlen k. destruct (Hi k) as (Hn & Hf & Hl). destruct (Hi (ms_server_id s)) as (Hn' & Hf' & _).
  pose proof (Forall2_length _ _ _ Hf') as El.
  assert (Hv : next_version (mv_version <$> rows_for mv_server (ms_server_id s) (mp_versions st)) = (Z.of_nat (length (g (ms_server_id s))) + 1)%Z)
    by (rewrite Hn', El; by apply next_version_numbered).
  split; [|split].
  - apply numbered_app; [|done]. simpl. intros <-. rewrite El. exact Hv.
  - cbn [mcp_step mcp_spec_step]. unfold put_mcp_snapshot at 2. cbn [snd mp_versions]. rewrite rows_for_app. cbn [mv_server]. apply Forall2_app.
    + eapply Forall2_impl; [exact Hf|]. intros r e. by apply mcp_row_kept.
    + destruct (ms_server_id s =? k)%string; constructor; [|constructor]. do 3 (split; [done|]).
      unfold put_mcp_snapshot. cbn [snd mp_blobs mv_digest fst]. by rewrite (find_upsert (compute_snapshot_digest s)), String.eqb_refl.
  - cbn [mcp_step mcp_spec_step]. unfold put_mcp_snapshot. cbn [snd mp_servers]. rewrite find_upsert_key by done. rewrite String.eqb_sym.
    destruct (String.eqb_spec (ms_server_id s) k) as [<-|Ne]; [|by rewrite app_nil_r]. simpl.
    rewrite bool_decide_false by (intros E; by apply app_nil in E as [_ ?]). rewrite length_app. simpl.
    fold (rows_for mv_server (ms_server_id s) (mp_versions st)). rewrite Hv. f_equal. lia.
Qed.

Lemma mcp_implements_stale st g now server v :
  mcp_implements st g -> mcp_implements (mcp_step st (MarkServerStale now server v)) (mcp_spec_step g (MarkServerStale now server v)).
Proof.
  intros Hi k. destruct (Hi k) as (Hn & Hf & Hl). split; [|split].
  - by apply numbered_mark.
  - apply (Forall2_mark mv_server mv_version (mcp_row_holds st)); try done. intros r e (? & ? & ? & ?). by repeat split.
  - simpl. rewrite Hl. destruct ((k =? server)%string && (0 <? v)%Z); [|done]. rewrite length_alter.
    by rewrite (bool_decide_ext (alter _ _ (g k) = []) (g k = [])) by (rewrite <- !length_zero_iff_nil, length_alter; done).
Qed.

Lemma mcp_implements_run ops :
  mcp_digests_identify -> Forall mcp_op_of ops -> (Z.of_nat (length ops) < u32_max)%Z ->
  mcp_implements (mcp_run ops) (mcp_spec_run ops) /\ forall k, length (mcp_spec_run ops k) <= length ops.
Proof.
  intros Hd. induction ops as [|o ops IH] using rev_ind; intros Hok Hlen.
  { split; [|done]. intros k. split; [done|split; [constructor|done]]. }
  apply Forall_app in Hok as [Hok Ho]. apply Forall_cons in Ho as [Ho _]. rewrite length_app in *. simpl in *.
  destruct IH as [Hi Hl]; [done|lia|]. unfold mcp_run, mcp_spec_run in *. rewrite !foldl_app. simpl. split.
  - destruct o as [now s|now name v]; [|by apply mcp_implements_stale]. apply mcp_implements_import; try done.
    specialize (Hl (ms_server_id s)). lia.
  - intros k. specialize (Hl k). destruct o as [now s|now name v]; simpl.
    + rewrite length_app. case_match; simpl; lia.
    + case_match; [rewrite length_alter|]; lia.
Qed.

Lemma mcp_read st g server v : mcp_round_trip -> mcp_implements st g -> get_mcp_snapshot st server v = Ok (mcp_spec_get g server v).
Proof.
  intros Hrt Hi. destruct (Hi server) as (Hn & Hf & _). unfold get_mcp_snapshot, first_such, mcp_spec_get. rewrite numbered_find by done.
  destruct (0 <? v)%Z; [|done]. pose proof (proj1 (Forall2_lookup _ _ _) Hf (Z.to_nat (v - 1))) as H.
  destruct (rows_for mv_server server (mp_versions st) !! Z.to_nat (v - 1)) as [r|]; inversion H as [? e Hh Ea Eb|Ea Eb]; subst; [|done].
  destruct Hh as (Hp & _ & _ & Hb). by rewrite Hb, Hrt.
Qed.

Lemma mcp_read_latest st g server :
  mcp_round_trip -> mcp_implements st g -> (Z.of_nat (length (g server)) < u32_max)%Z ->
  get_latest_mcp_snapshot st server = Ok (mcp_spec_latest g server).
Proof.
  intros Hrt Hi Hlen. destruct (Hi server) as (Hn & Hf & Hl). unfold get_latest_mcp_snapshot, mcp_spec_latest, first_such.
  destruct (find (fun r => String.eqb (sr_id r) server) (mp_servers st)) as [sr|] eqn:Es; simpl in Hl.
  2:{ by destruct (g server). }
  destruct (list_eq_nil_dec (g server)) as [E|E]; [by rewrite E in Hl|]. rewrite bool_decide_false in Hl by done. injection Hl as ->.
  rewrite wrap32_small by (unfold is_u32, u32_max in *; lia). rewrite numbered_find by done.
  destruct (exists_last E) as (l & e & Eg). rewrite Eg in *. rewrite length_app in *. simpl in *.
  rewrite (proj2 (Z.ltb_lt 0 _)) by lia. replace (Z.to_nat _) with (length l) by lia. rewrite last_snoc.
  pose proof (proj1 (Forall2_lookup _ _ _) Hf (length l)) as H. rewrite list_lookup_middle in H by done.
  inversion H as [r ? Hh Ea Eb|]; subst. destruct Hh as (Hp & _ & Hst & _). simpl. rewrite Hst.
  destruct e as [s a]. simpl. destruct a; try done. simpl. rewrite (mcp_read st g) by done.
  unfold mcp_spec_get. rewrite Eg. rewrite (proj2 (Z.ltb_lt 0 _)) by lia. replace (Z.to_nat _) with (length l) by lia.
  by rewrite list_lookup_middle.
Qed.
End Mcp.

(** Marking a version stale marks every tool row of it, and no other. *)
Lemma stale_version_tools now server v st r :
  r ∈ mp_tools (mark_mcp_version_stale now server v st) ->
  (tr_server r = server -> tr_server_version r = v -> tr_state r = "stale") /\ (tr_server r <> server \/ tr_server_version r <> v -> r ∈ mp_tools st).
Proof.
  simpl. intros (r0 & -> & Hr0)%list_elem_of_fmap. unfold mark.
  destruct (String.eqb_spec (tr_server r0) server), (Z.eqb_spec (tr_server_version r0) v); simpl; split; intros; try done; tauto.
Qed.

(** The registry of MCP servers implements its abstract contract.  After any
    sequence of imports and staleness marks, version [v] of a server is its
    [v]-th import, exactly as it was imported; the latest snapshot is the newest
    import if that one is approved now and nothing otherwise, so a pending,
    rejected or stale newest version is never replaced by an older approved one.
    This holds as long as digests identify the imported snapshots and stored
    snapshots parse back. *)
Theorem mcp_registry_refines sha256 jcs vts sv tv mts mfs P ops :
  mcp_round_trip mts mfs P -> mcp_digests_identify sha256 jcs sv P -> Forall (mcp_op_of P) ops -> (Z.of_nat (length ops) < u32_max)%Z ->
  let st := mcp_run sha256 jcs vts sv tv mts ops in
  let g := mcp_spec_run ops in
  (forall server v, get_mcp_snapshot mfs st server v = Ok (mcp_spec_get g server v)) /\
  (forall server, get_latest_mcp_snapshot mfs st server = Ok (mcp_spec_latest g server)).
Proof.
  intros Hrt Hd Hok Hlen st g. destruct (mcp_implements_run sha256 jcs vts sv tv mts P ops) as [Hi Hl]; try done.
  split; intros server; [intros v; by eapply mcp_read|]. eapply mcp_read_latest; [done|exact Hi|]. specialize (Hl server). fold g in Hl. lia.
Qed.

Definition sample_server (protocol : string) (state : ApprovalState) : McpServerSnapshot :=
  mkMcpSnapshot 1 "grafana" JNull protocol None "c" "i" "t" JNull (mkApproval state None None None) None [].
Definition sample_server_text (s : McpServerSnapshot) : string := ms_protocol s +:+ mcp_approval_state_str (ap_state (ms_approval s)).
Definition sample_server_parse (t : string) : result McpServerSnapshot string :=
  if String.eqb t "1approved" then Ok (sample_server "1" Approved)
  else if String.eqb t "2pending" then Ok (sample_server "2" Pending) else Err "no such text".
Definition sample_mcp_ops : list mcp_op := [ImportServer "t1" (sample_server "1" Approved); ImportServer "t2" (sample_server "2" Pending)].

(** A pending refresh hides the approved import, which is still read by its number. *)
Lemma mcp_registry_refines_witness :
  let st := mcp_run (fun x => x) (fun v => as_str v) (fun _ => "v") (fun s => JStr (sample_server_text s)) (fun _ => JNull) sample_server_text sample_mcp_ops in
  get_latest_mcp_snapshot sample_server_parse st "grafana" = Ok None /\
  get_mcp_snapshot sample_server_parse st "grafana" 1 = Ok (Some (sample_server "1" Approved)).
Proof.
  intros st.
  destruct (mcp_registry_refines (fun x => x) (fun v => as_str v) (fun _ => "v") (fun s => JStr (sample_server_text s)) (fun _ => JNull)
              sample_server_text sample_server_parse (fun s => s ∈ [sample_server "1" Approved; sample_server "2" Pending]) sample_mcp_ops)
    as (Hget & Hlast).
  - intros s Hs. repeat (apply elem_of_cons in Hs as [->|Hs]; [reflexivity|]). inversion Hs.
  - intros s s' Hs Hs' E. repeat (apply elem_of_cons in Hs as [->|Hs]; [|]); try (by inversion Hs);
      repeat (apply elem_of_cons in Hs' as [->|Hs']; [|]); try (by inversion Hs'); try discriminate E; reflexivity.
  - repeat constructor; simpl; set_solver.
  - vm_compute. reflexivity.
  - split; [exact (Hlast "grafana")|exact (Hget "grafana" 1%Z)].
Defined.
