(* ===== verification/Deployment.v ===== *)
(** * Deployment

    Agents booted on a runner and their records
    ([baml-agent-runner/src/runner.rs], [agent_package.rs],
    [deployment_state.rs], [deployment_restore.rs], the restore loop of [lib.rs],
    [baml-rt-core/src/deployment.rs]).  Deploying and undeploying run on blocking
    threads of their own, so they are tasks that interleave over the runner's
    maps; a section under the locks or one database query is a step.  Repository,
    package loader and boot are the interface [RunnerEnv]. *)

From stdpp Require Import base gmap sets list strings sorting.
From Stdlib Require Import ZArith Lia.
From S2P Require Import Prelude RustStr Errors EventDelivery Signature ContentHash.

Open Scope string_scope.
Open Scope list_scope.

(** ** Records *)

Inductive DeploymentStatus := Active | Failed.
#[global] Instance DeploymentStatus_eq_dec : EqDecision DeploymentStatus.
Proof. solve_decision. Defined.

Record DeploymentRecord := mkRecord {
  dr_content_hash : string;
  dr_agent_name : string;
  dr_deployed_at : string;
  dr_status : DeploymentStatus;
  dr_last_error : option string;
  dr_last_attempt_at : option string;
  dr_failure_count : Z
}.
#[global] Instance DeploymentRecord_eq_dec : EqDecision DeploymentRecord.
Proof. solve_decision. Defined.

(** [DeploymentContentHash::from_str] *)
Definition deployment_hash_parse (s : string) : option string :=
  if (String.length s =? 64)%nat && all_bytes (fun c => is_ascii_digit c || byte_in 97 102 c) s then Some s else None.

(** ** Which record of an agent is restored *)

Definition str_gt (x y : string) : bool := negb (String.leb x y).

Definition better_for_restore (a b : DeploymentRecord) : bool :=
  match dr_status a, dr_status b with
  | Active, Failed => true
  | Failed, Active => false
  | _, _ =>
      if negb (String.eqb (dr_deployed_at a) (dr_deployed_at b)) then str_gt (dr_deployed_at a) (dr_deployed_at b)
      else str_gt (dr_content_hash a) (dr_content_hash b)
  end.

(** [Vec::swap_remove]; the index is in range where it is used. *)
Definition swap_remove {A} (i : nat) (l : list A) : list A :=
  match last l with Some x => take (length l - 1) (<[i := x]> l) | None => [] end.

Definition winner_index (group : list DeploymentRecord) : nat :=
  foldl (fun w i =>
    match group !! i, group !! w with
    | Some a, Some b => if better_for_restore a b then i else w
    | _, _ => w
    end) 0%nat (seq 1 (length group - 1)).

Definition split_group (group : list DeploymentRecord) : list DeploymentRecord * list string :=
  match group with
  | [r] => ([r], [])
  | _ => (option_list (group !! winner_index group), dr_content_hash <$> swap_remove (winner_index group) group)
  end.

Definition restore_le (a b : DeploymentRecord) : bool :=
  if String.eqb (dr_agent_name a) (dr_agent_name b) then String.leb (dr_content_hash a) (dr_content_hash b)
  else String.leb (dr_agent_name a) (dr_agent_name b).

Definition group_of (records : list DeploymentRecord) (name : string) : list DeploymentRecord :=
  List.filter (fun r => String.eqb (dr_agent_name r) name) records.

(** [order] is the order in which the hash map of groups is visited. *)
Definition dedupe_deployments_for_restore (order : list string) (records : list DeploymentRecord) : list DeploymentRecord * list string :=
  let parts := (fun n => split_group (group_of records n)) <$> order in
  (stable_sort restore_le (parts ≫= fst), parts ≫= snd).

(** *** Lemmas *)

Lemma str_gt_trans x y z : str_gt x y = true -> str_gt y z = true -> str_gt x z = true.
Proof.
  unfold str_gt. rewrite !negb_true_iff. intros H1 H2. destruct (String.leb x z) eqn:E; [|done]. exfalso.
  destruct (String.leb_total y x) as [Hyx|Hyx]; [|congruence]. by rewrite (str_leb_trans _ _ _ Hyx E) in H2.
Qed.
Lemma str_gt_irrefl x : str_gt x x = false.
Proof. unfold str_gt. destruct (String.leb_total x x) as [H|H]; by rewrite H. Qed.
Lemma str_gt_total x y : x <> y -> str_gt x y = true \/ str_gt y x = true.
Proof.
  intros Hne. unfold str_gt. rewrite !negb_true_iff. destruct (String.leb x y) eqn:E1; [|by left]. destruct (String.leb y x) eqn:E2; [|by right].
  by apply String.leb_antisym in E1.
Qed.

Lemma better_trans a b c : better_for_restore a b = true -> better_for_restore b c = true -> better_for_restore a c = true.
Proof.
  unfold better_for_restore. destruct (dr_status a), (dr_status b), (dr_status c); try done;
    destruct (String.eqb_spec (dr_deployed_at a) (dr_deployed_at b)) as [E1|E1], (String.eqb_spec (dr_deployed_at b) (dr_deployed_at c)) as [E2|E2],
      (String.eqb_spec (dr_deployed_at a) (dr_deployed_at c)) as [E3|E3]; simpl; try congruence; intros H1 H2;
    try (by eapply str_gt_trans); try (rewrite E1; done); try (rewrite <- E2; done);
    rewrite E3 in H1; pose proof (str_gt_trans _ _ _ H1 H2) as H; by rewrite str_gt_irrefl in H.
Qed.

Lemma better_irrefl a : better_for_restore a a = false.
Proof. unfold better_for_restore. rewrite String.eqb_refl. simpl. rewrite str_gt_irrefl. by destruct (dr_status a). Qed.

Lemma better_total a b : dr_content_hash a <> dr_content_hash b -> better_for_restore a b = true \/ better_for_restore b a = true.
Proof.
  intros Hne. unfold better_for_restore. rewrite (String.eqb_sym (dr_deployed_at b)).
  destruct (String.eqb_spec (dr_deployed_at a) (dr_deployed_at b)) as [E|E]; simpl; destruct (dr_status a), (dr_status b);
    auto using str_gt_total.
Qed.

Lemma swap_remove_permutes {A} i (l : list A) x : l !! i = Some x -> l ≡ₚ x :: swap_remove i l.
Proof.
  intros Hi. unfold swap_remove. destruct (last l) as [y|] eqn:Hl.
  2:{ by apply last_None in Hl as ->. }
  apply last_Some in Hl as [l' ->]. rewrite length_app. simpl. replace (length l' + 1 - 1)%nat with (length l') by lia.
  destruct (decide (i < length l')%nat) as [Hlt|Hge].
  - rewrite lookup_app_l in Hi by done. rewrite insert_app_l, take_app_length' by (try done; by rewrite length_insert).
    rewrite insert_take_drop by done. rewrite <- (take_drop_middle _ _ _ Hi) at 1. solve_Permutation.
  - apply lookup_lt_Some in Hi as Hb. rewrite length_app in Hb. simpl in Hb. assert (i = length l') as -> by lia.
    rewrite list_lookup_middle in Hi by done. injection Hi as ->. rewrite insert_app_r_alt by lia. rewrite take_app_length. by rewrite Permutation_app_comm.
Qed.

(** The winner beats every other record of its group. *)
Lemma winner_index_best group :
  NoDup (dr_content_hash <$> group) -> group <> [] ->
  exists w, group !! winner_index group = Some w /\ forall j r, group !! j = Some r -> j <> winner_index group -> better_for_restore w r = true.
Proof.
  intros Hnd Hne. set (n := (length group - 1)%nat).
  assert (G : forall k, (k <= n)%nat -> forall f, f = foldl (fun w i => match group !! i, group !! w with
              | Some a, Some b => if better_for_restore a b then i else w | _, _ => w end) 0%nat (seq 1 k) ->
            (f <= k)%nat /\ exists w, group !! f = Some w /\ forall j r, (j <= k)%nat -> group !! j = Some r -> j <> f -> better_for_restore w r = true).
  { induction k as [|k IH]; intros Hk f ->.
    - split; [done|]. destruct group as [|w g]; [done|]. exists w. split; [done|]. intros j r Hj _ Hj0. simpl in Hj0. lia.
    - rewrite seq_S, foldl_app. simpl. destruct (IH ltac:(lia) _ eq_refl) as (Hf & w & Hw & Hb).
      set (f := foldl _ 0%nat (seq 1 k)) in *. destruct (lookup_lt_is_Some_2 group (S k)) as [a Ha]; [lia|].
      simpl. rewrite Ha, Hw. destruct (better_for_restore a w) eqn:E.
      + split; [done|]. exists a. split; [done|]. intros j r Hj Hr Hjf. destruct (decide (j = f)) as [->|Hjf']; [congruence|].
        eapply better_trans; [exact E|]. apply (Hb j r); [lia|done|done].
      + split; [lia|]. exists w. split; [done|]. intros j r Hj Hr Hjf. destruct (decide (j = S k)) as [->|Hjk]; [|apply (Hb j r); [lia|done|done]].
        assert (r = a) as -> by congruence. destruct (better_total w a) as [H|H]; [|done|congruence].
        intros Eh. apply Hjf. eapply (NoDup_lookup (dr_content_hash <$> group)); [done| |]; rewrite list_lookup_fmap; [by rewrite Ha|by rewrite Hw; simpl; rewrite Eh]. }
  destruct (G n ltac:(lia) (winner_index group) eq_refl) as (_ & w & Hw & Hb). exists w. split; [done|].
  intros j r Hr Hj. apply (Hb j r); [|done|done]. apply lookup_lt_Some in Hr. lia.
Qed.

Lemma split_group_spec group :
  NoDup (dr_content_hash <$> group) -> group <> [] ->
  exists w losers, split_group group = ([w], dr_content_hash <$> losers) /\ group ≡ₚ w :: losers /\ Forall (fun r => better_for_restore w r = true) losers.
Proof.
  intros Hnd Hne. assert (Hgen : exists w losers, (option_list (group !! winner_index group), dr_content_hash <$> swap_remove (winner_index group) group) = ([w], dr_content_hash <$> losers)
            /\ group ≡ₚ w :: losers /\ Forall (fun r => better_for_restore w r = true) losers).
  { destruct (winner_index_best group Hnd Hne) as (w & Hw & Hb). exists w, (swap_remove (winner_index group) group).
    pose proof (swap_remove_permutes _ _ _ Hw) as Hp. split; [by rewrite Hw|]. split; [done|].
    apply Forall_forall. intros r Hr. assert (Hrg : r ∈ group) by (rewrite Hp; by constructor).
    apply list_elem_of_lookup in Hrg as [j Hj]. apply (Hb j r Hj). intros ->.
    assert (r = w) as -> by congruence. rewrite Hp in Hnd. rewrite fmap_cons in Hnd. apply NoDup_cons in Hnd as [Hni _].
    apply Hni. by apply list_elem_of_fmap_2. }
  destruct group as [|r [|r' g]]; [done| |exact Hgen]. exists r, []. by repeat split.
Qed.

Lemma group_of_In records n r : r ∈ group_of records n <-> r ∈ records /\ dr_agent_name r = n.
Proof. unfold group_of. rewrite !list_elem_of_In, filter_In, String.eqb_eq. done. Qed.

Lemma group_of_nodup records n : NoDup (dr_content_hash <$> records) -> NoDup (dr_content_hash <$> group_of records n).
Proof.
  unfold group_of. induction records as [|r rs IH]; [done|]. rewrite fmap_cons. intros [Hni Hnd]%NoDup_cons. simpl.
  case_match; [|by apply IH]. rewrite fmap_cons. apply NoDup_cons. split; [|by apply IH]. intros (r' & E & Hr')%list_elem_of_fmap. apply Hni.
  rewrite E. apply list_elem_of_fmap_2. by apply (group_of_In rs n r').
Qed.

Lemma groups_partition order records :
  NoDup order -> List.filter (fun r => bool_decide (dr_agent_name r ∈ order)) records ≡ₚ order ≫= group_of records.
Proof.
  induction order as [|n order IH]; intros Hnd; [simpl; by induction records|].
  apply NoDup_cons in Hnd as [Hni Hnd]. simpl. rewrite <- (IH Hnd). clear IH Hnd. unfold group_of.
  induction records as [|r rs IH]; [done|]. simpl. destruct (String.eqb_spec (dr_agent_name r) n) as [E|E].
  - rewrite bool_decide_true by (rewrite E; by constructor). rewrite bool_decide_false by congruence. simpl. by rewrite IH.
  - rewrite (bool_decide_ext (dr_agent_name r ∈ n :: order) (dr_agent_name r ∈ order)) by (rewrite elem_of_cons; naive_solver).
    case_bool_decide; rewrite IH; [by rewrite Permutation_middle|done].
Qed.

Definition best_of (records : list DeploymentRecord) (w : DeploymentRecord) : Prop :=
  w ∈ records /\ forall r, r ∈ records -> dr_agent_name r = dr_agent_name w -> r = w \/ better_for_restore w r = true.

Lemma parts_spec order records :
  NoDup (dr_content_hash <$> records) -> Forall (fun n => group_of records n <> []) order ->
  let parts := (fun n => split_group (group_of records n)) <$> order in
  exists ws losers, parts ≫= fst = ws /\ parts ≫= snd = dr_content_hash <$> losers /\ order ≫= group_of records ≡ₚ ws ++ losers /\
    dr_agent_name <$> ws = order /\ Forall (best_of records) ws.
Proof.
  intros Hnd Hall parts. subst parts. induction Hall as [|n order Hn _ (ws & losers & E1 & E2 & Hp & Hnm & Hb)]; [by exists [], []|].
  destruct (split_group_spec (group_of records n)) as (w & ls & Es & Hg & Hbest); [by apply group_of_nodup|done|].
  assert (Hw : w ∈ group_of records n) by (rewrite Hg; by constructor). pose proof (proj1 (group_of_In _ _ _) Hw) as [Hwr Hwn].
  exists (w :: ws), (ls ++ losers). rewrite !fmap_cons, !bind_cons, Es. simpl. rewrite E1, E2, fmap_app, Hnm, Hwn.
  repeat split; [by rewrite Hg, Hp; solve_Permutation|]. constructor; [|done]. split; [done|]. intros r Hr Hrn.
  assert (Hrg : r ∈ group_of records n) by (apply group_of_In; split; [done|congruence]). rewrite Hg in Hrg.
  apply elem_of_cons in Hrg as [->|Hrl]; [by left|right]. by eapply Forall_forall in Hbest.
Qed.

Lemma restore_le_trans a b c : restore_le a b = true -> restore_le b c = true -> restore_le a c = true.
Proof.
  unfold restore_le. destruct (String.eqb_spec (dr_agent_name a) (dr_agent_name b)) as [E1|E1], (String.eqb_spec (dr_agent_name b) (dr_agent_name c)) as [E2|E2],
    (String.eqb_spec (dr_agent_name a) (dr_agent_name c)) as [E3|E3]; try congruence; intros H1 H2;
    try (by eapply str_leb_trans); try (rewrite E1; done); try (rewrite <- E2; done).
  exfalso. apply E1. rewrite E3 in *. by apply String.leb_antisym.
Qed.
Lemma restore_le_total a b : restore_le a b = true \/ restore_le b a = true.
Proof. unfold restore_le. rewrite (String.eqb_sym (dr_agent_name b)). case_match; apply String.leb_total. Qed.

Lemma dedupe_spec order records :
  NoDup (dr_content_hash <$> records) -> NoDup order -> (forall n, n ∈ order <-> n ∈ dr_agent_name <$> records) ->
  let (restore, remove) := dedupe_deployments_for_restore order records in
  dr_agent_name <$> restore ≡ₚ order /\ Forall (best_of records) restore /\
  StronglySorted (fun a b => restore_le a b = true) restore /\
  dr_content_hash <$> records ≡ₚ (dr_content_hash <$> restore) ++ remove.
Proof.
  intros Hh Ho Hcover. unfold dedupe_deployments_for_restore.
  destruct (parts_spec order records Hh) as (ws & losers & -> & -> & Hp & Hnm & Hb).
  { apply Forall_forall. intros n Hn E. apply Hcover, list_elem_of_fmap in Hn as (r & -> & Hr).
    assert (Hr' : r ∈ group_of records (dr_agent_name r)) by (by apply group_of_In). rewrite E in Hr'. inversion Hr'. }
  pose proof (groups_partition order records Ho) as Hpart. rewrite Hp in Hpart.
  assert (Hall : List.filter (fun r => bool_decide (dr_agent_name r ∈ order)) records = records).
  { clear -Hcover. assert (H : forall r, r ∈ records -> dr_agent_name r ∈ order) by (intros r Hr; apply Hcover; by apply list_elem_of_fmap_2).
    clear Hcover. induction records as [|r rs IH]; [done|]. simpl. rewrite bool_decide_true by (apply H; constructor).
    f_equal. apply IH. intros r' Hr'. apply H. by constructor. }
  rewrite Hall in Hpart. pose proof (stable_sort_perm restore_le ws) as Hs. split; [|split; [|split]].
  - rewrite Hs. by rewrite Hnm.
  - by rewrite Hs.
  - apply stable_sort_sorted; eauto using restore_le_trans, restore_le_total.
  - rewrite Hs, <- fmap_app. by rewrite Hpart.
Qed.

(** A restart restores one record per agent.  Of the records the state store
    has for one agent, the one picked is active if any is, the latest deployed
    among those, the highest hash on a tie; the agents come back in the order of
    their names, every other record is removed, and none is both restored and
    removed, in whatever order the groups are visited. *)
Theorem restore_picks_best order records :
  NoDup (dr_content_hash <$> records) -> NoDup order -> (forall n, n ∈ order <-> n ∈ dr_agent_name <$> records) ->
  let (restore, remove) := dedupe_deployments_for_restore order records in
  dr_agent_name <$> restore ≡ₚ order /\ Forall (best_of records) restore /\
  StronglySorted (fun a b => restore_le a b = true) restore /\
  dr_content_hash <$> records ≡ₚ (dr_content_hash <$> restore) ++ remove.
Proof. apply dedupe_spec. Qed.

Definition sample_record (hash name at_ : string) (status : DeploymentStatus) : DeploymentRecord := mkRecord hash name at_ status None None 0.
Definition sample_records : list DeploymentRecord :=
  [sample_record "aa" "bot" "100" Active; sample_record "bb" "bot" "200" Active; sample_record "cc" "bot" "300" Failed; sample_record "dd" "ant" "50" Failed].

Lemma restore_picks_best_witness :
  dr_content_hash <$> (dedupe_deployments_for_restore ["bot"; "ant"] sample_records).1 = ["dd"; "bb"] /\
  dr_content_hash <$> sample_records ≡ₚ ["dd"; "bb"] ++ ["aa"; "cc"].
Proof.
  split; [vm_compute; reflexivity|].
  pose proof (restore_picks_best ["bot"; "ant"] sample_records) as Hspec.
  destruct Hspec as (_ & _ & _ & Hp); [by repeat constructor; set_solver|by repeat constructor; set_solver|intros n; simpl; set_solver|].
  rewrite Hp. vm_compute. apply perm_skip, perm_skip. apply perm_swap || reflexivity.
Defined.
