(* ===== verification/AgentRunner.v ===== *)
(** * The agents of a runner

    [deploy_by_hash] and [undeploy_by_hash] of
    [baml-agent-runner/src/runner.rs] as tasks over the runner's two maps, its
    deployment records and its cluster placements, and the route lookup of a
    request.  A task advances by one section under the locks, one query or one
    call of the repository at a time; a task that waits (for the agent's turns
    to drain, at most 30 s) is one that is not scheduled. *)

From stdpp Require Import base gmap sets list strings.
From Stdlib Require Import ZArith Lia.
From S2P Require Import Prelude RustStr Json Errors EventDelivery ContentHash Repository Deployment.

Open Scope string_scope.
Open Scope list_scope.

(** ** State *)

(** [BootedAgent]: the running agent by its number, the artifact it was booted
    from, and [DeploymentProvenance] ([None] is [Ephemeral]). *)
Record Booted := mkBooted {
  bt_agent : nat;
  bt_manifest_name : string;
  bt_provenance : option (string * Z);
  bt_artifact : string
}.

Definition booted_hash (b : Booted) : option string := fst <$> bt_provenance b.
Definition repository_version (b : Booted) : option Z := snd <$> bt_provenance b.

Definition default_instance : string := "default".
Abbreviation route := (string * string)%type.

(** [lifecycle] is shared by the clones of a booted agent: the set of agents
    that are draining. *)
Record runner := mkRunner {
  rn_agents : gmap string Booted;
  rn_routed : gmap route nat;
  rn_draining : gset nat;
  rn_rows : gmap string DeploymentRecord;
  rn_placed : gmap route string;
  rn_next : nat
}.
Definition empty_runner : runner := mkRunner ∅ ∅ ∅ ∅ ∅ 0.

Definition with_maps (a : gmap string Booted) (r : gmap route nat) (rn : runner) : runner :=
  mkRunner a r (rn_draining rn) (rn_rows rn) (rn_placed rn) (rn_next rn).
Definition with_rows (rows : gmap string DeploymentRecord) (rn : runner) : runner :=
  mkRunner (rn_agents rn) (rn_routed rn) (rn_draining rn) rows (rn_placed rn) (rn_next rn).
Definition with_placed (p : gmap route string) (rn : runner) : runner :=
  mkRunner (rn_agents rn) (rn_routed rn) (rn_draining rn) (rn_rows rn) p (rn_next rn).
Definition set_draining (agent : nat) (rn : runner) : runner :=
  mkRunner (rn_agents rn) (rn_routed rn) ({[agent]} ∪ rn_draining rn) (rn_rows rn) (rn_placed rn) (rn_next rn).
Definition next_agent (rn : runner) : runner :=
  mkRunner (rn_agents rn) (rn_routed rn) (rn_draining rn) (rn_rows rn) (rn_placed rn) (S (rn_next rn)).

(** What a task meets outside the runner; [t] is the task. *)
Class RunnerEnv := {
  env_version : nat -> string -> result (option Z) string;
  env_blob : nat -> string -> result string BamlRtError;
  env_bundle : string -> result SourceBundle string;
  env_package_name : string -> result string string;
  env_boot : nat -> string -> result string BamlRtError;
  env_save : nat -> result unit BamlRtError;
  env_delete : nat -> result unit BamlRtError;
  env_cluster : nat -> bool;
  env_now : nat -> string;
  env_json : json -> string;
  env_sha256 : string -> string
}.

Section Runner.
Context `{RunnerEnv}.

Definition verify_artifact_integrity (h bytes : string) (version : Z) : outcome (result unit BamlRtError) :=
  match env_bundle bytes with
  | Err e => Done (Err (InvalidArgument ("Failed to extract source bundle from artifact: " +:+ e)))
  | Ok source =>
      let! versioned := with_manifest_version source version in
      let! canonical := compute_hash env_json env_sha256 versioned in
      Done (if negb (String.eqb canonical h)
            then Err (InvalidArgument ("Artifact content hash mismatch: deployment requests " +:+ h +:+ ", but canonical hash from extracted bundle at repository version "
                   +:+ show_Z version +:+ " is " +:+ canonical))
            else Ok tt)
  end.

Definition hash_deployed (h : string) (rn : runner) : bool :=
  existsb (fun nb => bool_decide (booted_hash nb.2 = Some h)) (map_to_list (rn_agents rn)).

(** ** Undeploying *)

Inductive undeploy_at := UFind | UDrain (name : string) (b : Booted) | URemove (name : string) (b : Booted)
| UUnplace (name : string) (b : Booted) | UDelete (name : string) (b : Booted).

Definition undeploy_step (t : nat) (h : string) (at_ : undeploy_at) (rn : runner) : (undeploy_at + result bool BamlRtError) * runner :=
  match at_ with
  | UFind =>
      match find (fun nb => bool_decide (booted_hash nb.2 = Some h)) (map_to_list (rn_agents rn)) with
      | None => (inr (Ok false), rn)
      | Some (name, b) => (inl (UDrain name b), set_draining (bt_agent b) rn)
      end
  | UDrain name b => (inl (URemove name b), rn)
  | URemove name b =>
      let routed := match AgentPackageName_parse (bt_manifest_name b) with
                    | Some p => delete (p, default_instance) (rn_routed rn)
                    | None => rn_routed rn
                    end in
      (inl (UUnplace name b), with_maps (delete name (rn_agents rn)) routed rn)
  | UUnplace name b =>
      (inl (UDelete name b),
       match AgentPackageName_parse name with
       | Some p => if env_cluster t then with_placed (delete (p, default_instance) (rn_placed rn)) rn else rn
       | None => rn
       end)
  | UDelete name b =>
      match env_delete t with
      | Ok _ => (inr (Ok true), with_rows (delete h (rn_rows rn)) rn)
      | Err e => (inr (Err e), rn)
      end
  end.

(** ** Deploying *)

Inductive deploy_at :=
| DCheck
| DFetch
| DLookup (version : Z) (bytes package : string)
| DSupersede (version : Z) (bytes old : string) (u : undeploy_at)
| DBoot (version : Z) (bytes : string)
| DInsert (name : string) (b : Booted)
| DSave (name : string) (b : Booted)
| DRollback (name : string) (e : BamlRtError)
| DPlace (name : string).

Inductive task :=
| Deploy (h : string) (at_ : deploy_at)
| Undeploy (h : string) (at_ : undeploy_at)
| Finished (r : outcome (result bool BamlRtError)).

Definition no_entry (h : string) : BamlRtError :=
  InvalidArgument ("Repository has no entry for content hash " +:+ h +:+ " — cannot verify artifact against canonical hash").
Definition entry_unreadable (h e : string) : BamlRtError :=
  Io ("Failed to load repository entry for " +:+ h +:+ " (need version for canonical hash verification): " +:+ e).
Definition no_manifest (e : string) : BamlRtError := InvalidArgument ("Failed to read agent package manifest from artifact: " +:+ e).
Definition invalid_package (name : string) : BamlRtError :=
  InvalidArgument ("Agent package name '" +:+ name +:+ "' is invalid; allowed characters: [A-Za-z0-9_-]").
Definition changed_during_deploy (name : string) : BamlRtError :=
  Conflict ("Agent '" +:+ name +:+ "' changed during deploy (concurrent deployment); retry").

(** Entry, blob, integrity and manifest: nothing of the runner is touched. *)
Definition fetch_artifact (t : nat) (h : string) : outcome (result (Z * string * string) BamlRtError) :=
  match env_version t h with
  | Err e => Done (Err (entry_unreadable h e))
  | Ok None => Done (Err (no_entry h))
  | Ok (Some version) =>
      match env_blob t h with
      | Err e => Done (Err e)
      | Ok bytes =>
          let! checked := verify_artifact_integrity h bytes version in
          Done (let? _ := checked in
                let? package := map_err no_manifest (env_package_name bytes) in
                Ok (version, bytes, package))
      end
  end.

Definition deploy_step (t : nat) (h : string) (at_ : deploy_at) (rn : runner) : task * runner :=
  match at_ with
  | DCheck => (if hash_deployed h rn then Finished (Done (Ok true)) else Deploy h DFetch, rn)
  | DFetch =>
      (match fetch_artifact t h with
       | Panic => Finished Panic
       | Done (Err e) => Finished (Done (Err e))
       | Done (Ok (version, bytes, package)) => Deploy h (DLookup version bytes package)
       end, rn)
  | DLookup version bytes package =>
      (match rn_agents rn !! package ≫= booted_hash with
       | Some old => if String.eqb old h then Finished (Done (Ok true)) else Deploy h (DSupersede version bytes old UFind)
       | None => Deploy h (DBoot version bytes)
       end, rn)
  | DSupersede version bytes old u =>
      match undeploy_step t old u rn with
      | (inl u', rn') => (Deploy h (DSupersede version bytes old u'), rn')
      | (inr (Ok _), rn') => (Deploy h (DBoot version bytes), rn')
      | (inr (Err e), rn') => (Finished (Done (Err e)), rn')
      end
  | DBoot version bytes =>
      match env_boot t bytes with
      | Err e => (Finished (Done (Err e)), rn)
      | Ok name =>
          match AgentPackageName_parse name with
          | None => (Finished (Done (Err (invalid_package name))), rn)
          | Some _ => (Deploy h (DInsert name (mkBooted (rn_next rn) name (Some (h, version)) bytes)), next_agent rn)
          end
      end
  | DInsert name b =>
      if hash_deployed h rn then (Finished (Done (Ok true)), rn)
      else if (match rn_agents rn !! name with Some existing => negb (bool_decide (booted_hash existing = Some h)) | None => false end)
      then (Finished (Done (Err (changed_during_deploy name))), rn)
      else (Deploy h (DSave name b), with_maps (<[name := b]> (rn_agents rn)) (<[(name, default_instance) := bt_agent b]> (rn_routed rn)) rn)
  | DSave name b =>
      match env_save t with
      | Ok _ => (Deploy h (DPlace name), with_rows (<[h := mkRecord h name (env_now t) Active None (Some (env_now t)) 0]> (rn_rows rn)) rn)
      | Err e => (Deploy h (DRollback name e), rn)
      end
  | DRollback name e =>
      (Finished (Done (Err e)), with_maps (delete name (rn_agents rn)) (delete (name, default_instance) (rn_routed rn)) rn)
  | DPlace name =>
      (Finished (Done (Ok false)), if env_cluster t then with_placed (<[(name, default_instance) := h]> (rn_placed rn)) rn else rn)
  end.

Definition task_step (t : nat) (tk : task) (rn : runner) : task * runner :=
  match tk with
  | Deploy h at_ => deploy_step t h at_ rn
  | Undeploy h at_ =>
      match undeploy_step t h at_ rn with
      | (inl u, rn') => (Undeploy h u, rn')
      | (inr r, rn') => (Finished (Done r), rn')
      end
  | Finished _ => (tk, rn)
  end.

(** ** Requests *)

(** The local part of [handle_a2a_by_key] and [handle_dispatch_by_key]: both
    maps are read under their locks. *)
Definition resolve_route (rn : runner) (key : AgentRouteKey) : result nat BamlRtError :=
  let package : string := agent_package key in
  let instance : string := agent_instance_id key in
  match rn_agents rn !! package with
  | Some b => if bool_decide (bt_agent b ∈ rn_draining rn)
              then Err (AgentDraining ("Agent " +:+ package +:+ " is draining (undeploy in progress)"))
              else ok_or (rn_routed rn !! (package, instance)) (AgentNotFound ("Agent " +:+ package +:+ "/" +:+ agent_instance_id key +:+ " not found"))
  | None => ok_or (rn_routed rn !! (package, instance)) (AgentNotFound ("Agent " +:+ package +:+ "/" +:+ agent_instance_id key +:+ " not found"))
  end.

(** The other lookups, none of which asks whether the agent drains: [invoke] and
    the stdio loop read the agents by name, the internal router the routes. *)
Definition invoke_agent (rn : runner) (name : string) : result nat BamlRtError :=
  ok_or (bt_agent <$> rn_agents rn !! name) (AgentNotFound ("Agent '" +:+ name +:+ "' not found")).

Definition stdio_agent (rn : runner) (name : string) : option nat := bt_agent <$> rn_agents rn !! name.

Definition internal_agent (rn : runner) (key : AgentRouteKey) : option nat :=
  rn_routed rn !! (agent_package key : string, agent_instance_id key : string).

(** ** The runner and its tasks *)

Record sys := mkSys { sy_runner : runner; sy_tasks : gmap nat task }.

Definition start (r : runner) : sys := mkSys r ∅.

Inductive sys_step : sys -> sys -> Prop :=
| step_spawn s t tk : sy_tasks s !! t = None -> (exists h, tk = Deploy h DCheck \/ tk = Undeploy h UFind) ->
    sys_step s (mkSys (sy_runner s) (<[t := tk]> (sy_tasks s)))
| step_task s t tk tk' rn' : sy_tasks s !! t = Some tk -> task_step t tk (sy_runner s) = (tk', rn') ->
    sys_step s (mkSys rn' (<[t := tk']> (sy_tasks s))).

(** ** What holds in every interleaving *)

(** The artifact is the one its hash names, at the version it was published as. *)
Definition verified (b : Booted) : Prop :=
  match bt_provenance b with
  | Some (h, v) => verify_artifact_integrity h (bt_artifact b) v = Done (Ok tt)
  | None => True
  end.

Definition named (name : string) (b : Booted) : Prop := bt_manifest_name b = name /\ AgentPackageName_parse name = Some name.

Record runner_ok (rn : runner) : Prop := {
  ok_named : forall name b, rn_agents rn !! name = Some b -> named name b;
  ok_routed : forall name b, rn_agents rn !! name = Some b -> rn_routed rn !! (name, default_instance) = Some (bt_agent b);
  ok_mapped : forall k a, rn_routed rn !! k = Some a -> exists b, rn_agents rn !! k.1 = Some b /\ k.2 = default_instance /\ bt_agent b = a;
  ok_unique : forall n n' b b' h, rn_agents rn !! n = Some b -> rn_agents rn !! n' = Some b' -> booted_hash b = Some h -> booted_hash b' = Some h -> n = n';
  ok_verified : forall name b, rn_agents rn !! name = Some b -> verified b
}.

Definition undeploy_ok (u : undeploy_at) : Prop :=
  match u with UFind => True | UDrain n b | URemove n b | UUnplace n b | UDelete n b => named n b end.

Definition task_ok (tk : task) : Prop :=
  match tk with
  | Deploy h at_ =>
      match at_ with
      | DLookup v bytes _ | DBoot v bytes => verify_artifact_integrity h bytes v = Done (Ok tt)
      | DSupersede v bytes _ u => verify_artifact_integrity h bytes v = Done (Ok tt) /\ undeploy_ok u
      | DInsert name b => named name b /\ verified b /\ booted_hash b = Some h
      | DCheck | DFetch | DSave _ _ | DRollback _ _ | DPlace _ => True
      end
  | Undeploy _ u => undeploy_ok u
  | Finished _ => True
  end.

Definition sys_ok (s : sys) : Prop := runner_ok (sy_runner s) /\ map_Forall (fun _ tk => task_ok tk) (sy_tasks s).

(** *** Lemmas *)

Lemma package_parse_id name p : AgentPackageName_parse name = Some p -> p = name.
Proof. unfold AgentPackageName_parse, identifier_parse. case_match; [done|]. by intros [= <-]. Qed.

Lemma hash_deployed_false h rn n b : hash_deployed h rn = false -> rn_agents rn !! n = Some b -> booted_hash b <> Some h.
Proof.
  unfold hash_deployed. intros He Hn E. rewrite <- Bool.not_true_iff_false, existsb_exists in He. apply He.
  exists (n, b). split; [|by apply bool_decide_true]. by apply list_elem_of_In, elem_of_map_to_list.
Qed.

Lemma hash_deployed_true h rn : hash_deployed h rn = true <-> exists n b, rn_agents rn !! n = Some b /\ booted_hash b = Some h.
Proof.
  unfold hash_deployed. rewrite existsb_exists. split.
  - intros ([n b] & Hin & Hb). exists n, b. apply list_elem_of_In, elem_of_map_to_list in Hin. by apply bool_decide_eq_true in Hb.
  - intros (n & b & Hn & Hb). exists (n, b). split; [by apply list_elem_of_In, elem_of_map_to_list|by apply bool_decide_true].
Qed.

Lemma find_deployed h rn n b :
  find (fun nb => bool_decide (booted_hash nb.2 = Some h)) (map_to_list (rn_agents rn)) = Some (n, b) -> rn_agents rn !! n = Some b /\ booted_hash b = Some h.
Proof.
  intros [Hin Hb]%find_some. apply list_elem_of_In, elem_of_map_to_list in Hin. by apply bool_decide_eq_true in Hb.
Qed.

(** Only the maps matter to [runner_ok]. *)
Lemma runner_ok_same rn rn' : runner_ok rn -> rn_agents rn' = rn_agents rn -> rn_routed rn' = rn_routed rn -> runner_ok rn'.
Proof. intros [? ? ? ? ?] Ea Er. constructor; rewrite ?Ea, ?Er; done. Qed.

(** Removing an agent with its route. *)
Lemma runner_ok_remove rn name :
  runner_ok rn -> runner_ok (with_maps (delete name (rn_agents rn)) (delete (name, default_instance) (rn_routed rn)) rn).
Proof.
  intros [H1 H2 H3 H4 H5]. constructor; simpl.
  - intros n b [Hne Hn]%lookup_delete_Some. by apply H1.
  - intros n b [Hne Hn]%lookup_delete_Some. rewrite lookup_delete_ne by congruence. by apply H2.
  - intros [n i] a [Hne Hk]%lookup_delete_Some. destruct (H3 _ _ Hk) as (b & Hb & Hi & Ha). simpl in *.
    exists b. split; [|done]. rewrite lookup_delete_ne by congruence. done.
  - intros n n' b b' h [_ Hn]%lookup_delete_Some [_ Hn']%lookup_delete_Some. by apply H4.
  - intros n b [_ Hn]%lookup_delete_Some. by eapply H5.
Qed.

Lemma undeploy_step_ok t h u rn r rn' :
  undeploy_step t h u rn = (r, rn') -> runner_ok rn -> undeploy_ok u -> runner_ok rn' /\ match r with inl u' => undeploy_ok u' | inr _ => True end.
Proof.
  intros E Hr Hu. destruct u as [|n b|n b|n b|n b]; simpl in E.
  - destruct (find _ _) as [[n b]|] eqn:Ef; injection E as <- <-; [|done]. apply find_deployed in Ef as [Hn _].
    split; [by apply (runner_ok_same rn)|]. by apply (ok_named _ Hr).
  - injection E as <- <-. done.
  - injection E as <- <-. destruct Hu as [Hm Hp]. rewrite Hm, Hp. split; [by apply runner_ok_remove|done].
  - injection E as <- <-. split; [|done]. destruct (AgentPackageName_parse n); [|done]. destruct (env_cluster t); [by apply (runner_ok_same rn)|done].
  - destruct (env_delete t); injection E as <- <-; split; try done. by apply (runner_ok_same rn).
Qed.

Lemma fetch_artifact_verified t h v bytes p : fetch_artifact t h = Done (Ok (v, bytes, p)) -> verify_artifact_integrity h bytes v = Done (Ok tt).
Proof.
  unfold fetch_artifact. destruct (env_version t h) as [[w|]|]; [|done|done]. destruct (env_blob t h) as [x|]; [|done].
  destruct (verify_artifact_integrity h x w) as [[[]|e]|] eqn:E; simpl; [|done|done].
  destruct (env_package_name x) as [q|]; simpl; [|done]. by intros [= <- <- <-].
Qed.

Lemma runner_ok_insert rn h name b :
  runner_ok rn -> named name b -> verified b -> booted_hash b = Some h -> hash_deployed h rn = false -> rn_agents rn !! name = None ->
  runner_ok (with_maps (<[name := b]> (rn_agents rn)) (<[(name, default_instance) := bt_agent b]> (rn_routed rn)) rn).
Proof.
  intros [H1 H2 H3 H4 H5] Hnm Hv Hh Hd Hnone. constructor; simpl.
  - intros n b' [[<- <-]|[Hne Hn]]%lookup_insert_Some; [done|by apply H1].
  - intros n b' [[<- <-]|[Hne Hn]]%lookup_insert_Some; [by rewrite lookup_insert_eq|rewrite lookup_insert_ne by congruence; by apply H2].
  - intros [n i] a [[[= <- <-] <-]|[Hne Hk]]%lookup_insert_Some; [exists b; by rewrite lookup_insert_eq|].
    destruct (H3 _ _ Hk) as (b' & Hb' & Hi & Ha). simpl in *. exists b'. rewrite lookup_insert_ne by congruence. done.
  - intros n n' b1 b2 h' [[<- <-]|[Hne Hn]]%lookup_insert_Some [[<- <-]|[Hne' Hn']]%lookup_insert_Some Hb1 Hb2; [done| | |by eapply H4];
      exfalso; eapply hash_deployed_false; eauto; congruence.
  - intros n b' [[<- <-]|[Hne Hn]]%lookup_insert_Some; [done|by eapply H5].
Qed.

Lemma deploy_step_ok t h d rn tk rn' :
  deploy_step t h d rn = (tk, rn') -> runner_ok rn -> task_ok (Deploy h d) -> runner_ok rn' /\ task_ok tk.
Proof.
  intros E Hr Ht. destruct d as [| |v bytes p|v bytes old u|v bytes|n b|n b|n e|n]; cbn [deploy_step] in E; simpl in Ht.
  - injection E as <- <-. by case_match.
  - injection E as <- <-. split; [done|]. destruct (fetch_artifact t h) as [[[[v bytes] p]|e]|] eqn:Ef; try done. by apply fetch_artifact_verified in Ef.
  - injection E as <- <-. split; [done|]. destruct (rn_agents rn !! p ≫= booted_hash) as [old|]; [|done]. by destruct (old =? h)%string.
  - destruct Ht as [Hv Hu]. destruct (undeploy_step t old u rn) as [r rn1] eqn:Eu. apply undeploy_step_ok in Eu as [Hr1 Hu1]; [|done|done].
    destruct r as [u'|[b|e]]; injection E as <- <-; done.
  - destruct (env_boot t bytes) as [name|e]; [|by injection E as <- <-]. destruct (AgentPackageName_parse name) as [p|] eqn:Ep; [|by injection E as <- <-].
    injection E as <- <-. split; [by apply (runner_ok_same rn)|]. pose proof (package_parse_id _ _ Ep) as ->. done.
  - destruct Ht as (Hn & Hv & Hh). destruct (hash_deployed h rn) eqn:Ed; [by injection E as <- <-|].
    destruct (rn_agents rn !! n) as [ex|] eqn:En.
    + rewrite bool_decide_false in E by (by eapply hash_deployed_false). by injection E as <- <-.
    + injection E as <- <-. split; [|done]. by eapply runner_ok_insert.
  - destruct (env_save t); injection E as <- <-; split; try done. by apply (runner_ok_same rn).
  - injection E as <- <-. split; [|done]. by apply runner_ok_remove.
  - injection E as <- <-. split; [|done]. destruct (env_cluster t); [by apply (runner_ok_same rn)|done].
Qed.

Lemma runner_step_ok t tk rn tk' rn' : task_step t tk rn = (tk', rn') -> runner_ok rn -> task_ok tk -> runner_ok rn' /\ task_ok tk'.
Proof.
  destruct tk as [h d|h u|r]; simpl; [by apply deploy_step_ok| |by intros [= <- <-]].
  destruct (undeploy_step t h u rn) as [x rn1] eqn:Eu. intros E Hr Ht. apply undeploy_step_ok in Eu as [Hr1 Hu1]; [|done|done].
  by destruct x; injection E as <- <-.
Qed.

Lemma sys_step_ok s s' : sys_step s s' -> sys_ok s -> sys_ok s'.
Proof.
  intros [s0 t tk Ht (h & Hk)|s0 t tk tk' rn' Ht E] [Hr Hts].
  - split; [done|]. apply map_Forall_insert_2; [|done]. by destruct Hk as [-> | ->].
  - destruct (runner_step_ok _ _ _ _ _ E Hr (Hts _ _ Ht)) as [Hr' Ht']. split; [done|]. by apply map_Forall_insert_2.
Qed.

Lemma empty_runner_ok : runner_ok empty_runner.
Proof. constructor; intros *; simpl; rewrite ?lookup_empty; done. Qed.

Lemma reachable_ok s s' : sys_ok s -> rtc sys_step s s' -> sys_ok s'.
Proof. intros Hok Hs. induction Hs as [|x y z Hxy _ IH]; [done|]. apply IH. by eapply sys_step_ok. Qed.

Lemma start_ok : sys_ok (start empty_runner).
Proof. split; [apply empty_runner_ok|done]. Qed.

Lemma draining_kept t tk rn tk' rn' : task_step t tk rn = (tk', rn') -> rn_draining rn ⊆ rn_draining rn'.
Proof.
  assert (Hu : forall h u r rn1, undeploy_step t h u rn = (r, rn1) -> rn_draining rn ⊆ rn_draining rn1).
  { intros h u r rn1 E. destruct u; simpl in E; repeat case_match; simplify_eq; simpl; set_solver. }
  intros E. destruct tk as [h d|h u|r]; simpl in E; [|destruct (undeploy_step t h u rn) as [[]] eqn:Eu; simplify_eq; eauto|by simplify_eq].
  destruct d; simpl in E; repeat case_match; simplify_eq; simpl; try set_solver; eauto.
Qed.

Lemma draining_kept_run s s' : rtc sys_step s s' -> rn_draining (sy_runner s) ⊆ rn_draining (sy_runner s').
Proof.
  induction 1 as [|x y z Hxy _ IH]; [done|]. etransitivity; [|exact IH]. destruct Hxy as [s0 t tk _ _|s0 t tk tk' rn' _ E]; [done|].
  by eapply draining_kept in E.
Qed.

Lemma resolved_agent rn key a :
  runner_ok rn -> resolve_route rn key = Ok a ->
  exists b, rn_agents rn !! (agent_package key : string) = Some b /\ bt_agent b = a /\ a ∉ rn_draining rn /\ verified b /\ agent_instance_id key = default_instance.
Proof.
  intros Hok. unfold resolve_route. destruct (rn_agents rn !! (agent_package key : string)) as [b|] eqn:Eb.
  - case_bool_decide; [done|]. destruct (rn_routed rn !! _) as [a'|] eqn:Er; simpl; [|done]. intros [= <-].
    destruct (ok_mapped _ Hok _ _ Er) as (b' & Hb' & Hi & Ha). simpl in *. rewrite Eb in Hb'. injection Hb' as <-. subst a'.
    exists b. repeat split; try done. by eapply ok_verified.
  - destruct (rn_routed rn !! _) as [a'|] eqn:Er; simpl; [|done]. destruct (ok_mapped _ Hok _ _ Er) as (b' & Hb' & _). simpl in Hb'. by rewrite Eb in Hb'.
Qed.

Lemma internal_agent_ok rn key a :
  runner_ok rn -> internal_agent rn key = Some a ->
  exists b, rn_agents rn !! (agent_package key : string) = Some b /\ bt_agent b = a /\ verified b.
Proof.
  intros Hok Hr. destruct (ok_mapped _ Hok _ _ Hr) as (b & Hb & _ & Ha). exists b. split_and!; [done..|]. by eapply ok_verified.
Qed.

Lemma named_agent_ok rn name a :
  runner_ok rn -> invoke_agent rn name = Ok a \/ stdio_agent rn name = Some a ->
  exists b, rn_agents rn !! name = Some b /\ bt_agent b = a /\ verified b.
Proof.
  intros Hok Hr. unfold invoke_agent, stdio_agent in Hr. destruct (rn_agents rn !! name) as [b|] eqn:E; simpl in Hr; [|by destruct Hr].
  exists b. split_and!; [done|naive_solver|by eapply ok_verified].
Qed.
End Runner.

(** C30: Deploys and undeploys may interleave in any way: the two maps of a
    runner always hold the same agents under the same names, no content hash
    runs twice, and every agent was booted from an artifact whose canonical hash
    at its repository version is the hash it is deployed under.  A request by
    route key ([handle_a2a_by_key], [handle_dispatch_by_key]) is answered by such
    an agent of the package it names or not at all, and once an undeploy has
    marked an agent as draining no request by key reaches it again.  Requests of
    the internal router, of [invoke] and of the stdio loop also reach only such
    an agent of the name they give, but one that drains too
    ([draining_agent_reached]). *)
Theorem runner_safe `{RunnerEnv} s :
  rtc sys_step (start empty_runner) s ->
  let rn := sy_runner s in
  (forall name, option_map bt_agent (rn_agents rn !! name) = rn_routed rn !! (name, default_instance)) /\
  (forall n n' b b' h, rn_agents rn !! n = Some b -> rn_agents rn !! n' = Some b' -> booted_hash b = Some h -> booted_hash b' = Some h -> n = n') /\
  (forall name b, rn_agents rn !! name = Some b -> verified b) /\
  (forall s' key a, rtc sys_step s s' -> resolve_route (sy_runner s') key = Ok a ->
     a ∉ rn_draining rn /\ exists b, rn_agents (sy_runner s') !! (agent_package key : string) = Some b /\ bt_agent b = a /\ verified b) /\
  (forall key a, internal_agent rn key = Some a ->
     exists b, rn_agents rn !! (agent_package key : string) = Some b /\ bt_agent b = a /\ verified b) /\
  (forall name a, invoke_agent rn name = Ok a \/ stdio_agent rn name = Some a ->
     exists b, rn_agents rn !! name = Some b /\ bt_agent b = a /\ verified b).
Proof.
  intros Hs rn. subst rn. destruct (reachable_ok _ _ start_ok Hs) as [Hok Hts]. split; [|split; [|split; [|split; [|split]]]].
  - intros name. destruct (rn_agents (sy_runner s) !! name) as [b|] eqn:E; simpl; [symmetry; by apply (ok_routed _ Hok)|].
    destruct (rn_routed (sy_runner s) !! (name, default_instance)) as [a|] eqn:Er; [|done]. destruct (ok_mapped _ Hok _ _ Er) as (b & Hb & _). simpl in Hb. congruence.
  - apply (ok_unique _ Hok).
  - apply (ok_verified _ Hok).
  - intros s' key a Hs' Hr. destruct (reachable_ok _ _ (conj Hok Hts : sys_ok s) Hs') as [Hok' _].
    destruct (resolved_agent _ _ _ Hok' Hr) as (b & Hb & Ha & Hd & Hv & _). split; [|by exists b].
    intros Hin. apply Hd. by apply (draining_kept_run _ _ Hs').
  - intros key a. by apply internal_agent_ok.
  - intros name a. by apply named_agent_ok.
Qed.
