(* ===== verification/RunnerFacts.v ===== *)
(** * Deployment records and running agents

    Every deploy or undeploy ends after a bounded number of its own steps.  Run
    one after the other, they keep the records of the state store equal to the
    agents that run; interleaved, an undeploy can take down an agent it did not
    find.  The interleavings are concrete runs of [AgentRunner]. *)

From stdpp Require Import base gmap sets list strings.
From Stdlib Require Import ZArith Lia.
From S2P Require Import Prelude RustStr Json Errors EventDelivery ContentHash Repository Deployment AgentRunner.

Open Scope string_scope.
Open Scope list_scope.
Open Scope nat_scope.

(** ** One task alone *)

Section Alone.
Context `{RunnerEnv}.

(** A task run to its end with nothing in between; [None] is "not yet". *)
Fixpoint finish (fuel : nat) (t : nat) (tk : task) (rn : runner) : option (outcome (result bool BamlRtError) * runner) :=
  match tk with
  | Finished r => Some (r, rn)
  | _ => match fuel with
         | 0 => None
         | S fuel => let (tk', rn') := task_step t tk rn in finish fuel t tk' rn'
         end
  end.

Definition undeploy_rank (u : undeploy_at) : nat :=
  match u with UFind => 5 | UDrain _ _ => 4 | URemove _ _ => 3 | UUnplace _ _ => 2 | UDelete _ _ => 1 end.
Definition task_rank (tk : task) : nat :=
  match tk with
  | Deploy _ DCheck => 13
  | Deploy _ DFetch => 12
  | Deploy _ (DLookup _ _ _) => 11
  | Deploy _ (DSupersede _ _ _ u) => 5 + undeploy_rank u
  | Deploy _ (DBoot _ _) => 4
  | Deploy _ (DInsert _ _) => 3
  | Deploy _ (DSave _ _) => 2
  | Deploy _ (DRollback _ _) => 1
  | Deploy _ (DPlace _) => 1
  | Undeploy _ u => undeploy_rank u
  | Finished _ => 0
  end.

Lemma undeploy_step_rank t h u rn u' rn' : undeploy_step t h u rn = (inl u', rn') -> undeploy_rank u' < undeploy_rank u.
Proof. destruct u; simpl; repeat case_match; intros; simplify_eq; simpl; lia. Qed.

Lemma undeploy_rank_pos u : 0 < undeploy_rank u.
Proof. destruct u; simpl; lia. Qed.

Lemma task_step_rank t tk rn tk' rn' : task_step t tk rn = (tk', rn') -> task_rank tk = 0 \/ task_rank tk' < task_rank tk.
Proof.
  destruct tk as [h d|h u|r]; simpl; [|destruct (undeploy_step t h u rn) as [[u'|r] rn1] eqn:Eu; intros [= <- <-]; right|by left].
  - intros E. right. destruct d as [| |v bytes p|v bytes old u|v bytes|n b|n b|n e|n]; cbn [deploy_step] in E;
      try (destruct (undeploy_step t old u rn) as [[u'|[]] rn1] eqn:Eu; simplify_eq; simpl;
             [apply undeploy_step_rank in Eu; lia|pose proof (undeploy_rank_pos u); lia|lia]);
      repeat case_match; simplify_eq; simpl; lia.
  - by apply undeploy_step_rank in Eu.
  - apply undeploy_rank_pos.
Qed.

Lemma finish_total fuel t tk rn : task_rank tk <= fuel -> exists r rn', finish fuel t tk rn = Some (r, rn').
Proof.
  revert tk rn. induction fuel as [|fuel IH]; intros tk rn Hf.
  - destruct tk as [h []|h []|r]; simpl in *; try lia. by eexists _, _.
  - destruct tk as [h d|h u|r] eqn:Et; [| |by eexists _, _]; rewrite <- Et in *; replace (finish (S fuel) t tk rn) with
      (let (tk', rn') := task_step t tk rn in finish fuel t tk' rn') by (by subst);
      destruct (task_step t tk rn) as [tk' rn'] eqn:E; apply IH;
      destruct (task_step_rank _ _ _ _ _ E) as [E0|Hlt]; try lia; rewrite E0 in *; subst tk; simpl in E0; exfalso;
      [by destruct d; simpl in E0; pose proof undeploy_rank_pos; try lia|pose proof (undeploy_rank_pos u); lia].
Qed.

(** ** Records and agents *)

(** Every running agent has an active record of its name, every record an agent and its own key. *)
Definition coherent (agents : gmap string Booted) (rows : gmap string DeploymentRecord) : Prop :=
  (forall n b h, agents !! n = Some b -> booted_hash b = Some h -> exists r, rows !! h = Some r /\ dr_agent_name r = n /\ dr_status r = Active) /\
  (forall h r, rows !! h = Some r -> dr_content_hash r = h /\ exists b, agents !! dr_agent_name r = Some b /\ booted_hash b = Some h).

(** What one task leaves open half-way. *)
Definition undeploy_pending (h : string) (u : undeploy_at) (rn : runner) : Prop :=
  match u with
  | UFind => coherent (rn_agents rn) (rn_rows rn)
  | UDrain n b | URemove n b => coherent (rn_agents rn) (rn_rows rn) /\ rn_agents rn !! n = Some b /\ booted_hash b = Some h
  | UUnplace _ _ | UDelete _ _ => coherent (rn_agents rn) (delete h (rn_rows rn)) /\ hash_deployed h rn = false
  end.

Inductive request := Rdeploy (h : string) | Rundeploy (h : string).

Definition answered (q : request) (r : outcome (result bool BamlRtError)) (rn : runner) : Prop :=
  match q, r with
  | Rdeploy h, Done (Ok _) => hash_deployed h rn = true
  | Rundeploy h, Done (Ok _) => hash_deployed h rn = false
  | _, _ => True
  end.

Definition pending (q : request) (tk : task) (rn : runner) : Prop :=
  match tk with
  | Undeploy h u => q = Rundeploy h /\ undeploy_pending h u rn
  | Deploy h d =>
      q = Rdeploy h /\
      match d with
      | DSupersede _ _ old u => undeploy_pending old u rn
      | DSave n b => rn_agents rn !! n = Some b /\ booted_hash b = Some h /\ coherent (delete n (rn_agents rn)) (rn_rows rn)
      | DRollback n _ => coherent (delete n (rn_agents rn)) (rn_rows rn)
      | DPlace _ => coherent (rn_agents rn) (rn_rows rn) /\ hash_deployed h rn = true
      | _ => coherent (rn_agents rn) (rn_rows rn)
      end
  | Finished r => coherent (rn_agents rn) (rn_rows rn) /\ answered q r rn
  end.

Context (deletes_succeed : forall t, exists u, env_delete t = Ok u).

Lemma undeploy_pending_step t h u rn r rn' :
  undeploy_step t h u rn = (r, rn') -> runner_ok rn -> undeploy_pending h u rn ->
  match r with
  | inl u' => undeploy_pending h u' rn'
  | inr (Ok _) => coherent (rn_agents rn') (rn_rows rn') /\ hash_deployed h rn' = false
  | inr (Err _) => False
  end.
Proof.
  intros E Hok Hp. destruct u as [|n b|n b|n b|n b]; simpl in E, Hp.
  - destruct (find _ _) as [[n b]|] eqn:Ef; injection E as <- <-.
    + apply find_deployed in Ef as [Hn Hb]. done.
    + split; [done|]. apply Bool.not_true_iff_false. intros (n & b & Hn & Hb)%hash_deployed_true.
      assert (Hin : In (n, b) (map_to_list (rn_agents rn))) by (by apply list_elem_of_In, elem_of_map_to_list).
      pose proof (find_none _ _ Ef (n, b) Hin) as Hf. simpl in Hf. by rewrite bool_decide_true in Hf.
  - by injection E as <- <-.
  - injection E as <- <-. destruct Hp as ((H1 & H2) & Hn & Hb). simpl. split; [split|].
    + intros n' b' h' [Hne Hn']%lookup_delete_Some Hb'. destruct (H1 _ _ _ Hn' Hb') as (r & Hr & Hnm & Hst). exists r.
      rewrite lookup_delete_ne; [done|]. intros ->. apply Hne. by apply (ok_unique _ Hok _ _ _ _ _ Hn Hn' Hb Hb').
    + intros h' r [Hne Hr]%lookup_delete_Some. destruct (H2 _ _ Hr) as (Hk & b' & Hb' & Hh'). split; [done|]. exists b'.
      rewrite lookup_delete_ne; [done|]. intros ->. congruence.
    + apply Bool.not_true_iff_false. intros (n' & b' & Hn' & Hb')%hash_deployed_true. simpl in Hn'. apply lookup_delete_Some in Hn' as [Hne Hn']. apply Hne.
      by apply (ok_unique _ Hok _ _ _ _ _ Hn Hn' Hb Hb').
  - injection E as <- <-. simpl. destruct (AgentPackageName_parse n); [|done]. by destruct (env_cluster t).
  - destruct (deletes_succeed t) as [x Hx]. rewrite Hx in E. injection E as <- <-. done.
Qed.

Lemma coherent_save (agents : gmap string Booted) rows n b h now :
  agents !! n = Some b -> booted_hash b = Some h -> coherent (delete n agents) rows ->
  (forall n' b', agents !! n' = Some b' -> booted_hash b' = Some h -> n' = n) ->
  coherent agents (<[h := mkRecord h n now Active None (Some now) 0]> rows).
Proof.
  intros Hn Hb (H1 & H2) Hu. split.
  - intros n' b' h' Hn' Hb'. destruct (decide (h' = h)) as [->|Hne].
    + rewrite lookup_insert_eq. rewrite (Hu _ _ Hn' Hb'). by eexists.
    + rewrite lookup_insert_ne by done. apply (H1 _ b'); [|done]. rewrite lookup_delete_ne; [done|]. intros ->. congruence.
  - intros h' r [[<- <-]|[Hne Hr]]%lookup_insert_Some; [by split; [|exists b]|].
    destruct (H2 _ _ Hr) as (Hk & b' & [_ Hb']%lookup_delete_Some & Hh'). split; [done|]. by exists b'.
Qed.

Lemma pending_step q t tk rn tk' rn' : task_step t tk rn = (tk', rn') -> runner_ok rn -> task_ok tk -> pending q tk rn -> pending q tk' rn'.
Proof.
  intros E Hok Ht Hp. destruct tk as [h d|h u|r]; simpl in E; [| |by injection E as <- <-].
  2:{ destruct Hp as [-> Hp]. destruct (undeploy_step t h u rn) as [x rn1] eqn:Eu. apply undeploy_pending_step in Eu; [|done|done].
      by destruct x as [u'|[]]; injection E as <- <-. }
  destruct Hp as [-> Hp]. destruct d as [| |v bytes p|v bytes old u|v bytes|n b|n b|n e|n]; cbn [deploy_step] in E; simpl in Ht.
  - injection E as <- <-. destruct (hash_deployed h rn) eqn:Ed; by simpl.
  - injection E as <- <-. by destruct (fetch_artifact t h) as [[[[v bytes] p]|e]|].
  - injection E as <- <-. destruct (rn_agents rn !! p ≫= booted_hash) as [old|] eqn:El; [|done].
    destruct (String.eqb_spec old h) as [->|Hne]; [|done]. split; [done|]. apply bind_Some in El as (b & Hb & Hh). apply hash_deployed_true. eauto.
  - destruct (undeploy_step t old u rn) as [x rn1] eqn:Eu. apply undeploy_pending_step in Eu; [|done|done].
    destruct x as [u'|[]]; injection E as <- <-; [done| |done]. by destruct Eu.
  - repeat case_match; simplify_eq; done.
  - destruct Ht as (Hn & Hv & Hh). destruct (hash_deployed h rn) eqn:Ed; [by injection E as <- <-|]. destruct (rn_agents rn !! n) as [ex|] eqn:En.
    + rewrite bool_decide_false in E by (by eapply hash_deployed_false). by injection E as <- <-.
    + injection E as <- <-. simpl. split; [done|]. rewrite lookup_insert_eq. split; [done|split; [done|]]. by rewrite delete_insert_id.
  - destruct Hp as (Hn & Hb & Hc). destruct (env_save t); injection E as <- <-; simpl; [|done].
    split; [done|]. split; [|apply hash_deployed_true; simpl; eauto]. eapply coherent_save; try done.
    intros n' b' Hn' Hb'. by apply (ok_unique _ Hok _ _ _ _ _ Hn' Hn Hb' Hb).
  - injection E as <- <-. done.
  - injection E as <- <-. destruct Hp as [Hc Hd]. by destruct (env_cluster t).
Qed.

Lemma finish_pending fuel q t tk rn r rn' :
  finish fuel t tk rn = Some (r, rn') -> runner_ok rn -> task_ok tk -> pending q tk rn ->
  runner_ok rn' /\ coherent (rn_agents rn') (rn_rows rn') /\ answered q r rn'.
Proof.
  revert tk rn. induction fuel as [|fuel IH]; intros tk rn E Hok Ht Hp; destruct tk as [h d|h u|x]; try done; try (by simpl in E; injection E as <- <-);
    cbn [finish] in E; destruct (task_step t _ rn) as [tk1 rn1] eqn:Es; destruct (runner_step_ok _ _ _ _ _ Es Hok Ht) as [Hok1 Ht1];
    by apply (IH tk1 rn1); [done|done|done|eapply pending_step].
Qed.

Definition request_task (q : request) : task := match q with Rdeploy h => Deploy h DCheck | Rundeploy h => Undeploy h UFind end.

(** The requests one after the other, each a task of its own. *)
Fixpoint serve_all (t : nat) (qs : list request) (rn : runner) : option (list (outcome (result bool BamlRtError)) * runner) :=
  match qs with
  | [] => Some ([], rn)
  | q :: qs =>
      match finish 13 t (request_task q) rn with
      | Some (r, rn') => match serve_all (S t) qs rn' with Some (rs, rn'') => Some (r :: rs, rn'') | None => None end
      | None => None
      end
  end.

Lemma serve_all_ok qs t rn :
  runner_ok rn -> coherent (rn_agents rn) (rn_rows rn) ->
  exists rs rn', serve_all t qs rn = Some (rs, rn') /\ runner_ok rn' /\ coherent (rn_agents rn') (rn_rows rn').
Proof.
  revert t rn. induction qs as [|q qs IH]; intros t rn Hok Hc; cbn [serve_all]; [by eexists _, _|].
  destruct (finish_total 13 t (request_task q) rn) as (r & rn1 & E); [destruct q; simpl; lia|]. rewrite E.
  destruct (finish_pending _ q _ _ _ _ _ E) as (Hok1 & Hc1 & _); [done|by destruct q|by destruct q|].
  destruct (IH (S t) rn1 Hok1 Hc1) as (rs & rn2 & E2 & Hok2 & Hc2). rewrite E2. by eexists _, _.
Qed.
End Alone.

(** C31: Requests that are served one after the other, on a state store whose
    deletions of records succeed, keep the records equal to what runs.  Every
    deploy and undeploy ends, whatever the repository, the boot or the other
    calls of the state store answer; afterwards every running agent has an active
    record of its name and every record an agent that runs, and a further request
    that reports success leaves its hash running, or not running, as it asked.
    Both provisos are needed: see [failed_delete_leaves_record],
    [concurrent_deploys_leave_two_records] and [late_undeploy_removes_successor]. *)
Theorem records_match_agents `{RunnerEnv} t qs q :
  (forall t, exists u, env_delete t = Ok u) ->
  exists rs rn r rn', serve_all t qs empty_runner = Some (rs, rn) /\ finish 13 (t + length qs) (request_task q) rn = Some (r, rn') /\
    coherent (rn_agents rn) (rn_rows rn) /\ coherent (rn_agents rn') (rn_rows rn') /\ answered q r rn'.
Proof.
  intros Hd. destruct (serve_all_ok Hd qs t empty_runner) as (rs & rn & E & Hok & Hc); [apply empty_runner_ok|by split; intros *; simpl; rewrite lookup_empty|].
  destruct (finish_total 13 (t + length qs) (request_task q) rn) as (r & rn' & E'); [destruct q; simpl; lia|].
  destruct (finish_pending Hd _ q _ _ _ _ _ E') as (_ & Hc' & Ha); [done|by destruct q|by destruct q|].
  by exists rs, rn, r, rn'.
Qed.

(** ** Restarting *)

Section Restart.
Context `{RunnerEnv} (error_text : BamlRtError -> string).

(** A process that stops keeps its state store and the cluster's placements. *)
Definition stopped (rn : runner) : runner := mkRunner ∅ ∅ ∅ (rn_rows rn) (rn_placed rn) (rn_next rn).

(** The record of a deployment that could not be restored. *)
Definition failed_record (t : nat) (r : DeploymentRecord) (e : BamlRtError) : DeploymentRecord :=
  mkRecord (dr_content_hash r) (dr_agent_name r) (dr_deployed_at r) Failed (Some (error_text e)) (Some (env_now t)) (Z.min (dr_failure_count r + 1) u32_max).

Definition save_record (t : nat) (r : DeploymentRecord) (rn : runner) : runner :=
  match env_save t with Ok _ => with_rows (<[dr_content_hash r := r]> (rn_rows rn)) rn | Err _ => rn end.

Definition restore_one (t : nat) (r : DeploymentRecord) (rn : runner) : runner :=
  match finish 13 t (Deploy (dr_content_hash r) DCheck) rn with
  | Some (Done (Err e), rn') => save_record t (failed_record t r e) rn'
  | Some (_, rn') => rn'
  | None => rn
  end.

Fixpoint restore_all (t : nat) (rs : list DeploymentRecord) (rn : runner) : runner :=
  match rs with [] => rn | r :: rs => restore_all (S t) rs (restore_one t r rn) end.

Definition remove_records (t : nat) (hashes : list string) (rn : runner) : runner :=
  match env_delete t with Ok _ => with_rows (foldr delete (rn_rows rn) hashes) rn | Err _ => rn end.

Definition restart (t : nat) (order : list string) (rn : runner) : runner :=
  let (keep, superseded) := dedupe_deployments_for_restore order (snd <$> map_to_list (rn_rows rn)) in
  restore_all (S t) keep (remove_records t superseded (stopped rn)).

(** A deploy of a package that does not run, when everything outside succeeds. *)
Definition deployable (t : nat) (h name : string) : Prop :=
  (exists v bytes, fetch_artifact t h = Done (Ok (v, bytes, name)) /\ env_boot t bytes = Ok name) /\
  AgentPackageName_parse name = Some name /\ exists u, env_save t = Ok u.

Lemma deploy_fresh t h name rn :
  deployable t h name -> hash_deployed h rn = false -> rn_agents rn !! name = None ->
  exists b rn', finish 13 t (Deploy h DCheck) rn = Some (Done (Ok false), rn') /\ booted_hash b = Some h /\
    rn_agents rn' = <[name := b]> (rn_agents rn) /\ rn_rows rn' = <[h := mkRecord h name (env_now t) Active None (Some (env_now t)) 0]> (rn_rows rn).
Proof.
  intros ((v & bytes & Hf & Hb) & Hp & (u & Hs)) Hd Hn.
  assert (Hd' : hash_deployed h (next_agent rn) = false) by exact Hd.
  exists (mkBooted (rn_next rn) name (Some (h, v)) bytes). eexists. split.
  { cbn [finish task_step deploy_step]. rewrite Hd. cbn [finish task_step deploy_step]. rewrite Hf. cbn [finish task_step deploy_step].
    rewrite Hn. cbn [mbind option_bind finish task_step deploy_step]. rewrite Hb, Hp. cbn [finish task_step deploy_step].
    rewrite Hd'. cbn [rn_agents next_agent]. rewrite Hn. cbn [finish task_step deploy_step]. rewrite Hs. cbn [finish task_step deploy_step]. reflexivity. }
  split; [reflexivity|]. by destruct (env_cluster t).
Qed.

Lemma restore_all_fresh t rs rn :
  (forall i r, rs !! i = Some r -> deployable (t + i) (dr_content_hash r) (dr_agent_name r)) ->
  NoDup (dr_agent_name <$> rs) -> NoDup (dr_content_hash <$> rs) ->
  (forall r, r ∈ rs -> hash_deployed (dr_content_hash r) rn = false /\ rn_agents rn !! dr_agent_name r = None) ->
  forall n, rn_agents (restore_all t rs rn) !! n ≫= booted_hash
    = match find (fun r => String.eqb (dr_agent_name r) n) rs with Some r => Some (dr_content_hash r) | None => rn_agents rn !! n ≫= booted_hash end.
Proof.
  revert t rn. induction rs as [|r rs IH]; intros t rn Henv Hn Hh Hfresh n; [done|].
  rewrite fmap_cons in Hn, Hh. apply NoDup_cons in Hn as [Hnn Hn], Hh as [Hnh Hh].
  destruct (Hfresh r) as [Hd Hnone]; [by constructor|].
  destruct (deploy_fresh t (dr_content_hash r) (dr_agent_name r) rn) as (b & rn' & E & Hb & Ha & _); [|done|done|].
  { rewrite <- (Nat.add_0_r t). by apply Henv. }
  cbn [restore_all]. unfold restore_one at 1. rewrite E. rewrite IH; [|intros i x Hx; replace (S t + i) with (t + S i) by lia; by apply (Henv (S i))|done|done|].
  - simpl. destruct (String.eqb_spec (dr_agent_name r) n) as [En|En].
    + destruct (find _ rs) as [x|] eqn:Ef.
      * exfalso. apply find_some in Ef as [Hx Ex]. apply String.eqb_eq in Ex. apply Hnn. rewrite En, <- Ex. apply list_elem_of_fmap_2. by apply list_elem_of_In.
      * rewrite Ha, En, lookup_insert_eq. done.
    + by rewrite Ha, lookup_insert_ne.
  - intros x Hx. destruct (Hfresh x) as [Hdx Hnx]; [by constructor|]. split.
    + apply Bool.not_true_iff_false. intros (m & c & Hm & Hc)%hash_deployed_true. rewrite Ha in Hm. apply lookup_insert_Some in Hm as [[<- <-]|[_ Hm]].
      * apply Hnh. replace (dr_content_hash r) with (dr_content_hash x) by congruence. by apply list_elem_of_fmap_2.
      * by apply (hash_deployed_false _ _ _ _ Hdx Hm).
    + rewrite Ha, lookup_insert_ne; [done|]. intros Ex. apply Hnn. rewrite Ex. by apply list_elem_of_fmap_2.
Qed.

(** Records that match agents are one per name. *)
Lemma coherent_records_distinct agents (rows : gmap string DeploymentRecord) :
  coherent agents rows -> NoDup (dr_agent_name <$> (snd <$> map_to_list rows)).
Proof.
  intros [_ H2]. rewrite <- list_fmap_compose. apply NoDup_fmap_2_strong; [|apply NoDup_map_to_list].
  intros [h r] [h' r'] Hr Hr' E. apply elem_of_map_to_list in Hr, Hr'. simpl in E.
  destruct (H2 _ _ Hr) as (_ & b & Hb & Hh), (H2 _ _ Hr') as (_ & b' & Hb' & Hh'). rewrite E in Hb. assert (h = h') as <- by congruence. congruence.
Qed.

Lemma find_record (rs : list DeploymentRecord) n r :
  NoDup (dr_agent_name <$> rs) -> r ∈ rs -> dr_agent_name r = n -> find (fun r => String.eqb (dr_agent_name r) n) rs = Some r.
Proof.
  induction rs as [|x rs IH]; intros Hnd Hr Hn; [inversion Hr|]. rewrite fmap_cons in Hnd. apply NoDup_cons in Hnd as [Hni Hnd]. simpl.
  apply elem_of_cons in Hr as [<-|Hr]; [by rewrite (proj2 (String.eqb_eq _ _) Hn)|].
  rewrite (proj2 (String.eqb_neq _ _)); [by apply IH|]. intros E. apply Hni. rewrite E, <- Hn. by apply list_elem_of_fmap_2.
Qed.

Lemma restart_agents t order rn :
  runner_ok rn -> coherent (rn_agents rn) (rn_rows rn) ->
  NoDup order -> (forall n, n ∈ order <-> n ∈ dr_agent_name <$> (snd <$> map_to_list (rn_rows rn))) ->
  (forall t' h r, rn_rows rn !! h = Some r -> deployable t' h (dr_agent_name r)) ->
  forall n, rn_agents (restart t order rn) !! n ≫= booted_hash = rn_agents rn !! n ≫= booted_hash.
Proof.
  intros Hok Hc Ho Hcover Henv n. unfold restart.
  pose proof (coherent_records_distinct _ _ Hc) as Hnames. destruct Hc as [H1 H2].
  assert (Hkeys : dr_content_hash <$> (snd <$> map_to_list (rn_rows rn)) = fst <$> map_to_list (rn_rows rn)).
  { rewrite <- list_fmap_compose. apply list_fmap_ext. intros i [h r] Hi. apply list_elem_of_lookup_2, elem_of_map_to_list in Hi. by apply (H2 h r). }
  assert (Hh : NoDup (dr_content_hash <$> (snd <$> map_to_list (rn_rows rn)))) by (rewrite Hkeys; apply NoDup_fst_map_to_list).
  set (records := snd <$> map_to_list (rn_rows rn)) in *.
  assert (Hrow : forall r, r ∈ records <-> rn_rows rn !! dr_content_hash r = Some r).
  { intros r. unfold records. rewrite list_elem_of_fmap. split.
    - intros ([h r'] & -> & Hin). apply elem_of_map_to_list in Hin. simpl. by destruct (H2 _ _ Hin) as [-> _].
    - intros Hr. exists (dr_content_hash r, r). by rewrite elem_of_map_to_list. }
  pose proof (dedupe_spec order records Hh Ho Hcover) as Hspec. destruct (dedupe_deployments_for_restore order records) as [keep superseded].
  destruct Hspec as (Hn & Hbest & _ & Hp).
  assert (Hord : length order = length records).
  { rewrite <- (length_fmap dr_agent_name records). apply Permutation_length. by apply NoDup_Permutation. }
  assert (superseded = []) as ->.
  { apply length_zero_iff_nil. apply Permutation_length in Hp, Hn. rewrite length_app, !length_fmap in Hp. rewrite length_fmap in Hn. lia. }
  rewrite app_nil_r in Hp. assert (Hkn : NoDup (dr_agent_name <$> keep)) by (by rewrite Hn).
  rewrite restore_all_fresh; [| |done|by rewrite <- Hp|].
  - destruct (find _ keep) as [r|] eqn:Ef.
    + apply find_some in Ef as [Hr En]. apply String.eqb_eq in En. apply list_elem_of_In in Hr. eapply Forall_forall in Hbest as [Hrec _]; [|exact Hr].
      apply Hrow in Hrec. destruct (H2 _ _ Hrec) as (_ & b & Hb & Hhb). rewrite <- En. by rewrite Hb.
    + assert (rn_agents rn !! n ≫= booted_hash = None) as ->.
      * destruct (rn_agents rn !! n) as [b|] eqn:Eb; [|done]. simpl. destruct (booted_hash b) as [h|] eqn:Ehb; [|done]. exfalso.
        destruct (H1 _ _ _ Eb Ehb) as (r & Hr & Hrn & _). destruct (H2 _ _ Hr) as [Hk _]. rewrite <- Hk in Hr. apply Hrow in Hr.
        assert (Hin : n ∈ dr_agent_name <$> keep). { rewrite Hn. apply Hcover. rewrite <- Hrn. by apply list_elem_of_fmap_2. }
        apply list_elem_of_fmap in Hin as (r' & -> & Hr'). by rewrite (find_record keep _ r' Hkn Hr' eq_refl) in Ef.
      * unfold remove_records. simpl. by destruct (env_delete t).
  - intros i r Hr. apply list_elem_of_lookup_2 in Hr. eapply Forall_forall in Hbest as [Hrec _]; [|exact Hr]. apply Hrow in Hrec. by eapply Henv.
  - intros r Hr. unfold remove_records. destruct (env_delete t); done.
Qed.
End Restart.


(** ** Concrete runs *)

(** Every hash is its own artifact of the package "bot"; boots, saves and deletions succeed. *)
#[local] Instance sample_env : RunnerEnv := {|
  env_version := fun _ _ => Ok (Some 1%Z);
  env_blob := fun _ h => Ok h;
  env_bundle := fun bytes => Ok (mkBundle (JObj [("name", JStr bytes)]) [] []);
  env_package_name := fun _ => Ok "bot";
  env_boot := fun _ _ => Ok "bot";
  env_save := fun _ => Ok tt;
  env_delete := fun _ => Ok tt;
  env_cluster := fun _ => true;
  env_now := fun _ => "1700000000";
  env_json := fun v => default "" (jget "name" v ≫= as_str);
  env_sha256 := fun s => if contains_str "h1" s then "h1" else if contains_str "h2" s then "h2" else "other"
|}.

(** A schedule: requests that arrive, and the tasks that take a step. *)
Inductive act := Arrive (t : nat) (q : request) | Run (t : nat).

Definition exec `{RunnerEnv} (s : sys) (a : act) : sys :=
  match a with
  | Arrive t q => match sy_tasks s !! t with None => mkSys (sy_runner s) (<[t := request_task q]> (sy_tasks s)) | Some _ => s end
  | Run t => match sy_tasks s !! t with
             | Some tk => let (tk', rn') := task_step t tk (sy_runner s) in mkSys rn' (<[t := tk']> (sy_tasks s))
             | None => s
             end
  end.

Lemma schedule_reachable `{RunnerEnv} acts s : rtc sys_step s (foldl exec s acts).
Proof.
  revert s. induction acts as [|a acts IH]; intros s; [apply rtc_refl|]. simpl. transitivity (exec s a); [|apply IH].
  destruct a as [t q|t]; simpl.
  - destruct (sy_tasks s !! t) eqn:E; [apply rtc_refl|]. apply rtc_once. apply step_spawn; [done|]. destruct q as [h|h]; exists h; auto.
  - destruct (sy_tasks s !! t) as [tk|] eqn:E; [|apply rtc_refl]. destruct (task_step t tk (sy_runner s)) as [tk' rn'] eqn:Es. apply rtc_once. by eapply step_task.
Qed.

(** The first deploy replaced by a second, with its undeploy half-way done. *)
Definition sample_acts : list act :=
  [Arrive 0 (Rdeploy "h1")] ++ repeat (Run 0) 13 ++ [Arrive 1 (Rdeploy "h2")] ++ repeat (Run 1) 4.

Lemma runner_safe_witness :
  let s := foldl exec (start empty_runner) sample_acts in
  let key := mkRoute "bot" default_instance in
  rn_agents (sy_runner s) !! "bot" = Some (mkBooted 0 "bot" (Some ("h1", 1%Z)) "h1") /\
  rn_routed (sy_runner s) !! ("bot", default_instance) = Some 0 /\
  resolve_route (sy_runner s) key = Err (AgentDraining "Agent bot is draining (undeploy in progress)") /\
  resolve_route (sy_runner (foldl exec s (repeat (Run 1) 13))) key = Ok 1 /\
  1 ∉ rn_draining (sy_runner s).
Proof.
  intros s key. destruct (runner_safe s (schedule_reachable sample_acts _)) as (Hmaps & _ & _ & Hroute & _).
  split; [vm_compute; reflexivity|]. split; [rewrite <- (Hmaps "bot"); vm_compute; reflexivity|]. split; [vm_compute; reflexivity|].
  assert (Hr : resolve_route (sy_runner (foldl exec s (repeat (Run 1) 13))) key = Ok 1) by (vm_compute; reflexivity).
  split; [exact Hr|]. apply (Hroute _ key 1 (schedule_reachable _ _) Hr).
Defined.

(** An agent that drains refuses requests by key, but is still reached by the
    internal router, by [invoke] and by the stdio loop. *)
Lemma draining_agent_reached :
  let rn := sy_runner (foldl exec (start empty_runner) sample_acts) in
  let key := mkRoute "bot" default_instance in
  0 ∈ rn_draining rn /\
  resolve_route rn key = Err (AgentDraining "Agent bot is draining (undeploy in progress)") /\
  internal_agent rn key = Some 0 /\ invoke_agent rn "bot" = Ok 0 /\ stdio_agent rn "bot" = Some 0.
Proof. split_and!; [apply (bool_decide_unpack _); vm_compute; exact I|vm_compute; reflexivity..]. Qed.

(** The same runner on a state store that cannot delete: the agent is gone, its
    record stays active and would be restored. *)
Definition undeletable_env : RunnerEnv := {|
  env_version := @env_version sample_env; env_blob := @env_blob sample_env; env_bundle := @env_bundle sample_env;
  env_package_name := @env_package_name sample_env; env_boot := @env_boot sample_env; env_save := @env_save sample_env;
  env_delete := fun _ => Err (InvalidArgument "store down"); env_cluster := @env_cluster sample_env;
  env_now := @env_now sample_env; env_json := @env_json sample_env; env_sha256 := @env_sha256 sample_env
|}.

Lemma failed_delete_leaves_record :
  exists rs rn, @serve_all undeletable_env 0 [Rdeploy "h1"; Rundeploy "h1"] empty_runner = Some (rs, rn) /\
    rn_agents rn = ∅ /\ dr_status <$> rn_rows rn !! "h1" = Some Active.
Proof. eexists _, _. split; [vm_compute; reflexivity|]. split; reflexivity. Qed.

Lemma records_match_agents_witness :
  exists rs rn r rn', serve_all 0 [Rdeploy "h1"; Rdeploy "h2"; Rundeploy "h1"] empty_runner = Some (rs, rn) /\
    finish 13 3 (request_task (Rundeploy "h2")) rn = Some (r, rn') /\
    coherent (rn_agents rn) (rn_rows rn) /\ coherent (rn_agents rn') (rn_rows rn') /\ answered (Rundeploy "h2") r rn'.
Proof. apply (records_match_agents 0 [Rdeploy "h1"; Rdeploy "h2"; Rundeploy "h1"] (Rundeploy "h2")). intros t. by exists tt. Defined.


(** An undeploy that found the old revision and is late removes whatever runs
    under its name by then: a deploy that reported success, and whose record is
    active, does not run. *)
Lemma late_undeploy_removes_successor :
  exists s, rtc sys_step (start empty_runner) s /\
    sy_tasks s !! 1 = Some (Finished (Done (Ok false))) /\ sy_tasks s !! 2 = Some (Finished (Done (Ok true))) /\
    rn_agents (sy_runner s) = ∅ /\ (dr_status <$> rn_rows (sy_runner s) !! "h2") = Some Active.
Proof.
  exists (foldl exec (start empty_runner)
            ([Arrive 0 (Rdeploy "h1")] ++ repeat (Run 0) 13 ++ [Arrive 1 (Rdeploy "h2"); Arrive 2 (Rundeploy "h1"); Run 2] ++ repeat (Run 1) 13 ++ repeat (Run 2) 5)).
  split; [apply schedule_reachable|]. vm_compute. auto.
Qed.

(** Two deploys that supersede the same revision both succeed, and the agent of
    the first is gone: two active records, one agent. *)
Lemma concurrent_deploys_leave_two_records :
  exists s, rtc sys_step (start empty_runner) s /\
    sy_tasks s !! 1 = Some (Finished (Done (Ok false))) /\ sy_tasks s !! 2 = Some (Finished (Done (Ok false))) /\
    map_size (rn_agents (sy_runner s)) = 1 /\ map_size (rn_rows (sy_runner s)) = 2.
Proof.
  exists (foldl exec (start empty_runner)
            ([Arrive 0 (Rdeploy "h1")] ++ repeat (Run 0) 13 ++ [Arrive 1 (Rdeploy "h2"); Arrive 2 (Rdeploy "other")] ++ repeat (Run 2) 4 ++ repeat (Run 1) 13 ++ repeat (Run 2) 13)).
  split; [apply schedule_reachable|]. vm_compute. auto.
Qed.
