(* ===== verification/Cluster.v ===== *)
(** * Cluster registry

    Runners and the agents they host in the shared database
    ([baml-agent-runner/src/cluster.rs]), the health of a runner's heartbeat
    ([baml-rt-api/src/cluster_heartbeat.rs]) and the results of a deploy on all
    runners ([baml-rt-api/src/cluster_deploy.rs]).  [UPSERT] creates a record,
    [UPDATE] changes one only where it exists. *)

From stdpp Require Import base gmap sets list strings.
From Stdlib Require Import ZArith Lia.
From S2P Require Import Prelude RustStr Errors EventDelivery Signature ContentHash Deployment AgentRunner RunnerFacts.

Open Scope string_scope.
Open Scope list_scope.

(** ** Tables *)

Record RunnerRow := mkRunnerRow { rr_endpoint : string; rr_pod_name : option string; rr_service_instance_id : option string; rr_heartbeat_ms : Z }.

Record PlacementRow := mkPlacementRow {
  pl_package : string;
  pl_instance : string;
  pl_content_hash : string;
  pl_runner_id : string;
  pl_runner_endpoint : option string;
  pl_status : string;
  pl_updated_at_ms : Z
}.

(** Placements by their record key [package/instance/runner]. *)
Record cluster := mkCluster { cl_runners : gmap string RunnerRow; cl_placements : gmap (string * string * string) PlacementRow }.

Record RunnerIdentity := mkIdentity { id_runner : string; id_endpoint : string; id_service_instance : string }.

Record Placement := mkPlacement { pm_endpoint : string; pm_service_instance_id : string }.

Definition UNKNOWN_SERVICE_INSTANCE_ID : string := "unknown".

(** ** Writing *)

Definition sweep_stale_runners (now ttl : Z) (c : cluster) : cluster :=
  mkCluster (filter (fun kv => ~ (rr_heartbeat_ms kv.2 < now - ttl)%Z) (cl_runners c)) (cl_placements c).

Definition register_runner (now : Z) (hostname : string) (i : RunnerIdentity) (c : cluster) : cluster :=
  mkCluster (<[id_runner i := mkRunnerRow (id_endpoint i) (Some hostname) (Some (id_service_instance i)) now]> (cl_runners c)) (cl_placements c).

(** [ClusterManager::new] *)
Definition cluster_join (now ttl : Z) (hostname : string) (i : RunnerIdentity) (c : cluster) : cluster :=
  register_runner now hostname i (sweep_stale_runners now ttl c).

Definition record_placement (now : Z) (i : RunnerIdentity) (key : AgentRouteKey) (hash : string) (c : cluster) : cluster :=
  mkCluster (cl_runners c)
    (<[(agent_package key : string, agent_instance_id key : string, id_runner i)
       := mkPlacementRow (agent_package key) (agent_instance_id key) hash (id_runner i) (Some (id_endpoint i)) "active" now]> (cl_placements c)).

Definition remove_placement (i : RunnerIdentity) (key : AgentRouteKey) (c : cluster) : cluster :=
  mkCluster (cl_runners c)
    (filter (fun kv => ~ (pl_package kv.2 = agent_package key /\ pl_instance kv.2 = agent_instance_id key /\ pl_runner_id kv.2 = id_runner i)) (cl_placements c)).

Definition set_heartbeat (now : Z) (r : RunnerRow) : RunnerRow := mkRunnerRow (rr_endpoint r) (rr_pod_name r) (rr_service_instance_id r) now.

(** One tick of [spawn_heartbeat]: an [UPDATE] of the runner's own record. *)
Definition heartbeat (now : Z) (i : RunnerIdentity) (c : cluster) : cluster :=
  mkCluster (alter (set_heartbeat now) (id_runner i) (cl_runners c)) (cl_placements c).

(** ** Reading *)

Definition fresh (now ttl : Z) (c : cluster) (runner : string) : bool :=
  match cl_runners c !! runner with Some r => (now - ttl <? rr_heartbeat_ms r)%Z | None => false end.

Definition parse_service_instance_id (r : RunnerRow) : string :=
  match rr_service_instance_id r with Some sid => sid | None => default UNKNOWN_SERVICE_INSTANCE_ID (rr_pod_name r) end.

(** [ORDER BY updated_at_ms DESC, runner_endpoint ASC]; a missing endpoint sorts first. *)
Definition opt_leb (a b : option string) : bool :=
  match a, b with None, _ => true | Some _, None => false | Some x, Some y => String.leb x y end.
Definition placement_before (a b : PlacementRow) : bool :=
  if (pl_updated_at_ms a =? pl_updated_at_ms b)%Z then opt_leb (pl_runner_endpoint a) (pl_runner_endpoint b)
  else (pl_updated_at_ms b <? pl_updated_at_ms a)%Z.

Definition candidates (now ttl : Z) (c : cluster) (key : AgentRouteKey) : list PlacementRow :=
  List.filter (fun p => String.eqb (pl_package p) (agent_package key) && String.eqb (pl_instance p) (agent_instance_id key)
                        && String.eqb (pl_status p) "active" && fresh now ttl c (pl_runner_id p))
    (snd <$> map_to_list (cl_placements c)).

Definition resolve_placement (now ttl : Z) (local : string) (c : cluster) (key : AgentRouteKey) : result (option Placement) BamlRtError :=
  match stable_sort placement_before (candidates now ttl c key) with
  | [] => Ok None
  | p :: _ =>
      if String.eqb (pl_runner_id p) local then Ok None
      else match pl_runner_endpoint p with
           | None => Err (Io ("placement for " +:+ agent_package key +:+ "/" +:+ agent_instance_id key +:+ " on runner " +:+ pl_runner_id p
                             +:+ " missing runner_endpoint (data corruption)"))
           | Some endpoint =>
               Ok (Some (mkPlacement endpoint
                 (match cl_runners c !! pl_runner_id p with Some r => parse_service_instance_id r | None => UNKNOWN_SERVICE_INSTANCE_ID end)))
           end
  end.

Record ClusterRunnerInfo := mkRunnerInfo { ri_runner_id : string; ri_endpoint : string; ri_service_instance_id : string; ri_heartbeat_ms : Z }.

Definition list_runners (now ttl : Z) (c : cluster) : list ClusterRunnerInfo :=
  (fun kr => mkRunnerInfo kr.1 (rr_endpoint kr.2) (parse_service_instance_id kr.2) (rr_heartbeat_ms kr.2)) <$>
    List.filter (fun kr => (now - ttl <? rr_heartbeat_ms kr.2)%Z) (map_to_list (cl_runners c)).

Definition list_placements (c : cluster) : list PlacementRow :=
  List.filter (fun p => String.eqb (pl_status p) "active" && bool_decide (is_Some (pl_runner_endpoint p))) (snd <$> map_to_list (cl_placements c)).

(** Where a request goes ([handle_a2a_by_key]): a local agent first, then the
    runner the registry names. *)
Inductive target := Local (agent : nat) | Remote (p : Placement).

Definition handle_a2a_by_key (error_text : BamlRtError -> string) (now ttl : Z) (local : string) (rn : runner) (c : cluster) (key : AgentRouteKey) : result target BamlRtError :=
  match resolve_route rn key with
  | Ok agent => Ok (Local agent)
  | Err (AgentNotFound m) =>
      match resolve_placement now ttl local c key with
      | Ok (Some p) => Ok (Remote p)
      | Ok None => Err (AgentNotFound m)
      | Err e => Err (Io ("cluster placement lookup failed for " +:+ agent_package key +:+ "/" +:+ agent_instance_id key +:+ ": " +:+ error_text e))
      end
  | Err e => Err e
  end.

#[global] Instance AgentRouteKey_eq_dec : EqDecision AgentRouteKey.
Proof. intros [p i] [p' i']. unfold Decision. decide equality; apply String.string_dec. Defined.

(** [InternalA2aRouter::route_from] once the target is known: other instances and
    the caller itself are refused, the local agent is taken whether it drains or
    not. *)
Definition route_from (error_text : BamlRtError -> string) (now ttl : Z) (local : string) (rn : runner) (c : cluster)
    (caller key : AgentRouteKey) : result target BamlRtError :=
  if negb (String.eqb (agent_instance_id key) default_instance)
  then Err (InvalidArgument ("system/internal_a2a only supports agent_instance_id=default, got '" +:+ agent_instance_id key +:+ "'"))
  else if bool_decide (key = caller) then Err (InvalidArgument "system/internal_a2a self-routing is not allowed")
  else match internal_agent rn key with
  | Some agent => Ok (Local agent)
  | None =>
      match resolve_placement now ttl local c key with
      | Ok (Some p) => Ok (Remote p)
      | Err e => Err (Io ("cluster placement lookup failed for " +:+ agent_package key +:+ "/" +:+ agent_instance_id key +:+ ": " +:+ error_text e))
      | Ok None => Err (AgentNotFound ("Agent " +:+ agent_package key +:+ "/" +:+ agent_instance_id key +:+ " not found locally or in cluster"))
      end
  end.

(** ** Heartbeat health *)

Inductive HeartbeatErrorKind := KConnection | KQuery | KNotAllowed | KOther.
#[global] Instance HeartbeatErrorKind_eq_dec : EqDecision HeartbeatErrorKind.
Proof. solve_decision. Defined.

Inductive HeartbeatStatus := Starting | HbOk | Degraded.
#[global] Instance HeartbeatStatus_eq_dec : EqDecision HeartbeatStatus.
Proof. solve_decision. Defined.

Definition encode_kind (k : HeartbeatErrorKind) : Z := match k with KConnection => 0 | KQuery => 1 | KNotAllowed => 2 | KOther => 3 end%Z.
Definition decode_kind (raw : Z) : HeartbeatErrorKind :=
  if (raw =? 0)%Z then KConnection else if (raw =? 1)%Z then KQuery else if (raw =? 2)%Z then KNotAllowed else KOther.

(** The atomics of [ClusterHeartbeatHealth]; times are milliseconds since it was made. *)
Record health := mkHealth {
  hb_attempted : bool;
  hb_succeeded : bool;
  hb_last_ok_millis : Z;
  hb_last_attempt_ok : bool;
  hb_last_error_kind : Z
}.

Definition STALE_LAG_MULTIPLIER : Z := 2.
Definition health_new : health := mkHealth false false 0 false (encode_kind KOther).
Definition record_ok (now : Z) (h : health) : health := mkHealth true true now true (hb_last_error_kind h).
Definition record_error (k : HeartbeatErrorKind) (h : health) : health := mkHealth true (hb_succeeded h) (hb_last_ok_millis h) false (encode_kind k).

Definition lag_millis (now : Z) (h : health) : option Z :=
  if negb (hb_succeeded h) then None else Some (Z.max 0 (now - hb_last_ok_millis h)).

Definition last_error_kind (h : health) : option HeartbeatErrorKind :=
  if negb (hb_attempted h) then None else if hb_last_attempt_ok h then None else Some (decode_kind (hb_last_error_kind h)).

Definition heartbeat_status (interval now : Z) (h : health) : HeartbeatStatus :=
  if negb (hb_attempted h) then Starting
  else if negb (hb_last_attempt_ok h) then Degraded
  else match lag_millis now h with
       | Some lag => if (lag <=? wrap64 (STALE_LAG_MULTIPLIER * interval))%Z then HbOk else Degraded
       | None => Degraded
       end.

Definition is_within_readyz_threshold (interval now : Z) (h : health) : bool :=
  if negb (hb_succeeded h) then true else negb (bool_decide (heartbeat_status interval now h = Degraded)).

(** ** A deploy on every runner *)

Record ClusterDeployRunnerResult := mkDeployResult {
  cd_runner_id : string; cd_endpoint : string; cd_ok : bool; cd_already_deployed : option bool; cd_error : option string }.

Definition result_from_outcome (r : ClusterRunnerInfo) (o : result bool string) : ClusterDeployRunnerResult :=
  match o with
  | Ok already => mkDeployResult (ri_runner_id r) (ri_endpoint r) true (Some already) None
  | Err e => mkDeployResult (ri_runner_id r) (ri_endpoint r) false None (Some e)
  end.

(** [arrived] is the order in which the runners answer. *)
Definition fan_out_deploy (outcome_of : ClusterRunnerInfo -> result bool string) (arrived : list ClusterRunnerInfo) : list ClusterDeployRunnerResult * bool :=
  let results := stable_sort (fun a b => String.leb (cd_runner_id a) (cd_runner_id b)) ((fun r => result_from_outcome r (outcome_of r)) <$> arrived) in
  (results, forallb cd_ok results).

(** ** Lemmas *)

Lemma opt_leb_trans a b c : opt_leb a b = true -> opt_leb b c = true -> opt_leb a c = true.
Proof. destruct a, b, c; simpl; try done. apply str_leb_trans. Qed.
Lemma opt_leb_total a b : opt_leb a b = true \/ opt_leb b a = true.
Proof. destruct a, b; simpl; auto. apply String.leb_total. Qed.

Lemma placement_before_trans a b c : placement_before a b = true -> placement_before b c = true -> placement_before a c = true.
Proof.
  unfold placement_before. destruct (Z.eqb_spec (pl_updated_at_ms a) (pl_updated_at_ms b)), (Z.eqb_spec (pl_updated_at_ms b) (pl_updated_at_ms c)),
    (Z.eqb_spec (pl_updated_at_ms a) (pl_updated_at_ms c)); rewrite ?Z.ltb_lt; try lia. apply opt_leb_trans.
Qed.
Lemma placement_before_total a b : placement_before a b = true \/ placement_before b a = true.
Proof.
  unfold placement_before. rewrite (Z.eqb_sym (pl_updated_at_ms b)). destruct (Z.eqb_spec (pl_updated_at_ms a) (pl_updated_at_ms b)); [apply opt_leb_total|].
  rewrite !Z.ltb_lt. lia.
Qed.

Lemma stable_sort_head {A} (le : A -> A -> bool) l x r :
  (forall a b c, le a b = true -> le b c = true -> le a c = true) -> (forall a b, le a b = true \/ le b a = true) ->
  stable_sort le l = x :: r -> x ∈ l /\ forall y, y ∈ l -> y = x \/ le x y = true.
Proof.
  intros Ht Htot E. pose proof (stable_sort_sorted le Ht Htot l) as Hs. pose proof (stable_sort_perm le l) as Hp. rewrite E in Hs, Hp.
  inversion Hs as [|? ? _ Hf]; subst. split; [rewrite <- Hp; constructor|]. intros y Hy. rewrite <- Hp in Hy.
  apply elem_of_cons in Hy as [->|Hy]; [by left|right]. by eapply Forall_forall in Hf.
Qed.

Definition serves (now ttl : Z) (c : cluster) (key : AgentRouteKey) (p : PlacementRow) : Prop :=
  p ∈ (snd <$> map_to_list (cl_placements c)) /\ pl_package p = agent_package key /\ pl_instance p = agent_instance_id key /\ pl_status p = "active" /\
  exists r, cl_runners c !! pl_runner_id p = Some r /\ (now - ttl < rr_heartbeat_ms r)%Z.

Lemma candidates_serve now ttl c key p : p ∈ candidates now ttl c key <-> serves now ttl c key p.
Proof.
  unfold candidates, serves, fresh. rewrite list_elem_of_In, filter_In, <- list_elem_of_In, !andb_true_iff, !String.eqb_eq.
  split; [intros (Hp & ((Hk & Hi) & Hst) & Hf)|intros (Hp & Hk & Hi & Hst & r & Hr & Hf)]; repeat split; try done.
  - destruct (cl_runners c !! pl_runner_id p) as [r|]; [|done]. exists r. split; [done|lia].
  - rewrite Hr. lia.
Qed.

Lemma resolve_some now ttl local c key pm :
  resolve_placement now ttl local c key = Ok (Some pm) ->
  exists p, serves now ttl c key p /\ pl_runner_id p <> local /\ pl_runner_endpoint p = Some (pm_endpoint pm) /\
    forall q, serves now ttl c key q -> q = p \/ placement_before p q = true.
Proof.
  unfold resolve_placement. destruct (stable_sort _ _) as [|p ps] eqn:E; [done|]. apply stable_sort_head in E as [Hp Hmin]; [|exact placement_before_trans|exact placement_before_total].
  destruct (String.eqb_spec (pl_runner_id p) local) as [_|Hne]; [done|]. destruct (pl_runner_endpoint p) as [ep|] eqn:Ee; [|done]. intros [= <-].
  exists p. split; [by apply candidates_serve|]. split; [done|]. split; [done|]. intros q Hq. by apply Hmin, candidates_serve.
Qed.

(** C33: Where a request for an agent goes.  In every state of a runner whose
    deploys and undeploys interleave, and for any content of the cluster
    registry, a request by route key ([handle_a2a_by_key]) is answered here by a
    verified agent of the package it names that is not draining, or it is
    forwarded to another runner that has an active placement of exactly this
    agent and whose heartbeat is younger than the placements' lifetime; among all
    such placements, the local one included, it is the most recently written.  A
    draining agent's requests are refused, not forwarded.  A request an agent
    makes of another ([route_from]) is answered here by a verified agent of the
    package it names, which may be draining and is not the caller, or is
    forwarded by the same rule. *)
Theorem requests_reach_a_live_host `{RunnerEnv} error_text s now ttl local c key :
  rtc sys_step (start empty_runner) s ->
  let forwarded pm := exists p, serves now ttl c key p /\ pl_runner_id p <> local /\ pl_runner_endpoint p = Some (pm_endpoint pm) /\
        forall q, serves now ttl c key q -> q = p \/ placement_before p q = true in
  match handle_a2a_by_key error_text now ttl local (sy_runner s) c key with
  | Ok (Local a) => exists b, rn_agents (sy_runner s) !! (agent_package key : string) = Some b /\ bt_agent b = a /\ a ∉ rn_draining (sy_runner s) /\ verified b
  | Ok (Remote pm) =>
      rn_routed (sy_runner s) !! (agent_package key : string, agent_instance_id key : string) = None /\
      (forall b, rn_agents (sy_runner s) !! (agent_package key : string) = Some b -> bt_agent b ∉ rn_draining (sy_runner s)) /\
      forwarded pm
  | Err _ => True
  end /\
  forall caller,
  match route_from error_text now ttl local (sy_runner s) c caller key with
  | Ok (Local a) => key <> caller /\ exists b, rn_agents (sy_runner s) !! (agent_package key : string) = Some b /\ bt_agent b = a /\ verified b
  | Ok (Remote pm) =>
      rn_routed (sy_runner s) !! (agent_package key : string, agent_instance_id key : string) = None /\ forwarded pm
  | Err _ => True
  end.
Proof.
  intros Hs forwarded. destruct (reachable_ok _ _ start_ok Hs) as [Hok _]. split.
  - unfold handle_a2a_by_key. destruct (resolve_route (sy_runner s) key) as [a|e] eqn:Er.
    { destruct (resolved_agent _ _ _ Hok Er) as (b & Hb & Ha & Hd & Hv & _). by exists b. }
    destruct e; try done. destruct (resolve_placement now ttl local c key) as [[pm|]|] eqn:E; try done.
    unfold resolve_route in Er. split; [|split; [|by apply resolve_some]].
    + destruct (rn_agents (sy_runner s) !! (agent_package key : string)) as [b|]; [destruct (bool_decide _); [done|]|];
        by destruct (rn_routed (sy_runner s) !! _).
    + intros b Hb. rewrite Hb in Er. case_bool_decide; done.
  - intros caller. unfold route_from. destruct (negb _); [done|]. case_bool_decide as Hk; [done|].
    destruct (internal_agent (sy_runner s) key) as [a|] eqn:Ea; [split; [done|by apply internal_agent_ok]|].
    destruct (resolve_placement now ttl local c key) as [[pm|]|] eqn:E; try done. split; [done|by apply resolve_some].
Qed.

Definition sample_key : AgentRouteKey := mkRoute "bot" default_instance.
Definition sample_cluster : cluster :=
  let r1 := mkIdentity "r1" "http://r1:18080" "pod-1" in
  let r2 := mkIdentity "r2" "http://r2:18080" "pod-2" in
  record_placement 90 r2 sample_key "h2" (record_placement 80 r1 sample_key "h1" (cluster_join 50 30 "pod-2" r2 (cluster_join 40 30 "pod-1" r1 (mkCluster ∅ ∅)))).

(** A runner without the agent forwards to the one that placed it last. *)
Lemma requests_reach_a_live_host_witness :
  let s := start empty_runner in
  @handle_a2a_by_key (fun _ => "") 70 30 "r1" (sy_runner s) sample_cluster sample_key = Ok (Remote (mkPlacement "http://r2:18080" "pod-2")) /\
  exists p, serves 70 30 sample_cluster sample_key p /\ pl_runner_id p <> "r1" /\ pl_runner_endpoint p = Some "http://r2:18080" /\
    forall q, serves 70 30 sample_cluster sample_key q -> q = p \/ placement_before p q = true.
Proof.
  intros s. split; [vm_compute; reflexivity|].
  pose proof (@requests_reach_a_live_host sample_env (fun _ => "") s 70 30 "r1" sample_cluster sample_key (rtc_refl _ _)) as Hreq.
  replace (handle_a2a_by_key (fun _ => "") 70 30 "r1" (sy_runner s) sample_cluster sample_key)
    with (@Ok target BamlRtError (Remote (mkPlacement "http://r2:18080" "pod-2"))) in Hreq by (vm_compute; reflexivity).
  destruct Hreq as ((_ & _ & Hp) & _). exact Hp.
Defined.

(** *** A runner that was swept

    A row older than its lifetime is deleted when any runner joins; the runner's
    own heartbeats do not bring it back, so its agents stay unreachable for the
    others while its heartbeats succeed. *)
Inductive cluster_event := Beat (now : Z) (i : RunnerIdentity) | Place (now : Z) (i : RunnerIdentity) (key : AgentRouteKey) (hash : string)
| Unplace (i : RunnerIdentity) (key : AgentRouteKey) | Sweep (now ttl : Z).

Definition cluster_apply (c : cluster) (e : cluster_event) : cluster :=
  match e with
  | Beat now i => heartbeat now i c
  | Place now i key hash => record_placement now i key hash c
  | Unplace i key => remove_placement i key c
  | Sweep now ttl => sweep_stale_runners now ttl c
  end.

Lemma swept_runner_stays_hidden c id es now ttl key p :
  cl_runners c !! id = None -> serves now ttl (foldl cluster_apply c es) key p -> pl_runner_id p <> id.
Proof.
  intros Hc (_ & _ & _ & _ & r & Hr & _) <-. revert c Hc Hr. induction es as [|e es IH]; intros c Hc Hr; simpl in Hr; [congruence|].
  eapply IH; [|exact Hr]. destruct e as [t i|t i k h|i k|t tt]; simpl; try done.
  - rewrite lookup_alter. case_decide as Ei; [|done]. rewrite Ei, Hc. done.
  - by rewrite map_lookup_filter, Hc.
Qed.

(** *** Health *)

Inductive beat := BeatOk (at_ : Z) | BeatFailed (k : HeartbeatErrorKind).
Definition apply_beat (h : health) (b : beat) : health := match b with BeatOk t => record_ok t h | BeatFailed k => record_error k h end.

Lemma beats_state bs :
  let h := foldl apply_beat health_new bs in
  hb_attempted h = negb (bool_decide (bs = [])) /\ hb_succeeded h = existsb (fun b => match b with BeatOk _ => true | _ => false end) bs /\
  match last bs with
  | Some (BeatOk t) => hb_last_attempt_ok h = true /\ hb_last_ok_millis h = t
  | Some (BeatFailed k) => hb_last_attempt_ok h = false /\ hb_last_error_kind h = encode_kind k
  | None => True
  end.
Proof.
  induction bs as [|b bs IH] using rev_ind; [done|]. rewrite foldl_app, last_snoc, existsb_app. simpl. destruct IH as (_ & Hs & _).
  rewrite bool_decide_false by (by destruct bs). destruct b; simpl; rewrite ?Hs, ?orb_true_r, ?orb_false_r; done.
Qed.

(** The status tells the history apart: nothing yet, a last success within two
    intervals, or a failure; readiness is lost only after a first success, and
    the error shown is that of the last attempt. *)
Theorem heartbeat_reflects_history interval now bs :
  (0 <= interval)%Z -> is_u64 (2 * interval) -> (forall t, BeatOk t ∈ bs -> t <= now)%Z ->
  let h := foldl apply_beat health_new bs in
  (heartbeat_status interval now h = Starting <-> bs = []) /\
  (heartbeat_status interval now h = HbOk <-> exists t, last bs = Some (BeatOk t) /\ (now - t <= 2 * interval)%Z) /\
  (is_within_readyz_threshold interval now h = false <-> (exists t, BeatOk t ∈ bs) /\ heartbeat_status interval now h = Degraded) /\
  (forall k, last_error_kind h = Some k <-> last bs = Some (BeatFailed k)).
Proof.
  intros Hi Hw Ht h. destruct (beats_state bs) as (Ha & Hs & Hl). fold h in Ha, Hs, Hl.
  assert (Hok : hb_succeeded h = true <-> exists t, BeatOk t ∈ bs).
  { rewrite Hs, existsb_exists. split; [intros (b & Hb & E); destruct b; [|done]; eexists; by apply list_elem_of_In|intros (t & Hb); exists (BeatOk t); by rewrite <- list_elem_of_In]. }
  unfold is_within_readyz_threshold, heartbeat_status, last_error_kind, lag_millis, STALE_LAG_MULTIPLIER. rewrite Ha, wrap64_small by done.
  destruct (last bs) as [b|] eqn:El.
  2:{ apply last_None in El as ->. rewrite Hs. simpl. repeat split; try done; try naive_solver. }
  assert (bs <> []) by (by intros ->). rewrite bool_decide_false by done. simpl.
  destruct b as [t|k].
  - destruct Hl as [-> ->]. assert (Hin : BeatOk t ∈ bs). { apply last_Some in El as [l ->]. set_solver. }
    rewrite (proj2 Hok) by eauto. simpl. pose proof (Ht t Hin). replace (Z.max 0 (now - t)) with (now - t)%Z by lia.
    clear Ht Hok Hs Ha. destruct (Z.leb_spec (now - t) (2 * interval)); simpl; (split; [split; done|]); (split; [|split; [|split; congruence]]).
    + split; [intros _; by exists t|done].
    + split; [done|intros [_ E]; done].
    + split; [done|]. intros (t' & [= <-] & Hle). lia.
    + split; [intros _; split; [by exists t|done]|done].
  - destruct Hl as [-> ->]. clear Ht Hs Ha. simpl. split; [split; done|]. split; [split; [done|by intros (t & E & _)]|]. split.
    + destruct (hb_succeeded h); simpl; [|split; [done|intros [Hex _]; by apply Hok in Hex]]. split; [intros _; split; [by apply Hok|done]|done].
    + intros k'. destruct k; simpl; split; intros [= <-]; done.
Qed.

(** *** Deploying everywhere *)

Lemma result_runner_id r o : cd_runner_id (result_from_outcome r o) = ri_runner_id r.
Proof. by destruct o. Qed.

(** The answer does not depend on which runner answers first, and reports
    success exactly when every runner accepted. *)
Lemma fan_out_answer outcome_of arrived arrived' :
  NoDup (ri_runner_id <$> arrived) -> arrived ≡ₚ arrived' ->
  fan_out_deploy outcome_of arrived = fan_out_deploy outcome_of arrived' /\
  ((fan_out_deploy outcome_of arrived).2 = true <-> forall r, r ∈ arrived -> exists b, outcome_of r = Ok b).
Proof.
  intros Hnd Hp. set (le := fun a b => String.leb (cd_runner_id a) (cd_runner_id b)).
  set (f := fun r => result_from_outcome r (outcome_of r)). split.
  - unfold fan_out_deploy. fold f. fold le. rewrite (stable_sort_unique le) with (k := f <$> arrived'); [done| | | |by rewrite Hp].
    + intros a b c. apply str_leb_trans.
    + intros a b. apply String.leb_total.
    + intros x y (r & -> & Hr)%list_elem_of_fmap (r' & -> & Hr')%list_elem_of_fmap H1 H2. unfold le, f in *. rewrite !result_runner_id in *.
      pose proof (String.leb_antisym _ _ H1 H2) as E. apply list_elem_of_lookup in Hr as [i Hi], Hr' as [j Hj].
      assert (i = j) as ->; [|congruence]. eapply (NoDup_lookup (ri_runner_id <$> arrived)); [done| |]; rewrite list_lookup_fmap; [by rewrite Hi|by rewrite Hj; simpl; rewrite E].
  - unfold fan_out_deploy. simpl. fold f. fold le. rewrite forallb_forall. pose proof (stable_sort_perm le (f <$> arrived)) as Hs.
    split.
    + intros H r Hr. specialize (H (f r)). rewrite <- list_elem_of_In, Hs in H. specialize (H (list_elem_of_fmap_2 f _ _ Hr)).
      unfold f, result_from_outcome in H. destruct (outcome_of r) as [b|]; [by exists b|done].
    + intros H x. rewrite <- list_elem_of_In, Hs. intros (r & -> & Hr)%list_elem_of_fmap. destruct (H r Hr) as [b Hb]. unfold f, result_from_outcome. by rewrite Hb.
Qed.
