(* ===== verification/Retry.v ===== *)
(** * Retries and delays

    Exponential backoff and the [Retry-After] header
    ([baml-rt-core/src/backoff.rs], [retry_after.rs]) with a client that uses
    them ([integrations/slack-read/src/lib.rs]).  Durations are nanoseconds. *)

From stdpp Require Import base list strings.
From Stdlib Require Import ZArith Lia.
From S2P Require Import Prelude RustStr Json.

Open Scope string_scope.
Open Scope list_scope.
Open Scope Z_scope.

(** ** Backoff *)

Definition nanos_per_sec : Z := 1000000000.
(** [Duration::MAX] *)
Definition duration_max : Z := u64_max * nanos_per_sec + 999999999.
Definition from_millis (ms : Z) : Z := ms * 1000000.
Definition from_secs (s : Z) : Z := s * nanos_per_sec.
Definition saturating_mul (d n : Z) : Z := Z.min (d * n) duration_max.

Definition RATE_LIMIT_BASE_DELAY : Z := from_millis 500.
Definition RATE_LIMIT_MAX_DELAY : Z := from_secs 5.
Definition MAX_RATE_LIMIT_RETRIES : nat := 3.

Definition backoff_delay (base max attempt : Z) : Z :=
  let shift := Z.min attempt 16 in
  let delay := saturating_mul base (2 ^ shift) in
  Z.min delay max.

Definition rate_limit_backoff_delay (attempt : Z) : Z := backoff_delay RATE_LIMIT_BASE_DELAY RATE_LIMIT_MAX_DELAY attempt.

Record ExponentialBackoff := mkBackoff { eb_base : Z; eb_max : Z; eb_attempts : Z }.
Definition backoff_new (base max : Z) : ExponentialBackoff := mkBackoff base max 0.
Definition backoff_reset (b : ExponentialBackoff) : ExponentialBackoff := mkBackoff (eb_base b) (eb_max b) 0.
Definition next_delay (b : ExponentialBackoff) : Z * ExponentialBackoff :=
  (backoff_delay (eb_base b) (eb_max b) (eb_attempts b), mkBackoff (eb_base b) (eb_max b) (Z.min (eb_attempts b + 1) u32_max)).

(** ** Retry-After *)

Inductive RetryAfter := Seconds (s : Z) | Unknown (raw : string) | Missing.

Definition as_duration (r : RetryAfter) : option Z := match r with Seconds s => Some (from_secs s) | Unknown _ | Missing => None end.

Definition retry_after_display (r : RetryAfter) : string :=
  match r with Seconds s => show_Z s +:+ "s" | Unknown raw => "unknown(" +:+ raw +:+ ")" | Missing => "missing" end.

Definition parse_retry_after (value : option string) : RetryAfter :=
  match value with
  | None => Missing
  | Some bytes =>
      if negb (valid_utf8 bytes) then Unknown "invalid-utf8"
      else match parse_u64 (trim bytes) with Some s => Seconds s | None => Unknown bytes end
  end.

(** ** A client under a rate limit *)

Inductive SlackApiErrorClass := ClsConfiguration | ClsInvalidArgument | ClsToolExecution.

Inductive SlackReadError :=
| SlackHttp (source : string)
| Unauthorized (status : Z) (body : string)
| RateLimited (body : string) (retry_after : RetryAfter)
| SlackApi (status : Z) (body : string)
| ApiError (method error : string) (class : SlackApiErrorClass)
| UnexpectedShape (message : string).

(** A response: status, [retry-after] header, text, and the text as JSON. *)
Record response := mkResponse { rp_status : Z; rp_retry_after : option string; rp_body : string; rp_json : result json string }.

Definition is_auth_error_code (code : string) : bool :=
  bool_decide (code ∈ ["invalid_auth"; "not_authed"; "account_inactive"; "token_revoked"; "missing_scope"; "not_allowed_token_type"]).

Definition is_invalid_argument_error_code (code : string) : bool :=
  bool_decide (code ∈ ["channel_not_found"; "thread_not_found"; "user_not_found"; "message_not_found"; "messages_not_found"; "invalid_cursor";
    "invalid_ts_latest"; "invalid_ts_oldest"; "invalid_args"; "invalid_arguments"; "invalid_arg_name"; "invalid_array_arg"; "invalid_query"; "not_in_channel"]).

Definition map_slack_api_error (method error : string) : SlackReadError :=
  ApiError method error
    (if is_auth_error_code error then ClsConfiguration else if is_invalid_argument_error_code error then ClsInvalidArgument else ClsToolExecution).

Definition read_answer (method : string) (r : response) : result json SlackReadError :=
  if negb ((200 <=? rp_status r) && (rp_status r <? 300)) then
    Err (if (rp_status r =? 401) || (rp_status r =? 403) then Unauthorized (rp_status r) (rp_body r) else SlackApi (rp_status r) (rp_body r))
  else
    let? v := map_err SlackHttp (rp_json r) in
    match jget "ok" v ≫= as_bool with
    | Some true => Ok v
    | Some false => Err (map_slack_api_error method (default "unknown_error" (jget "error" v ≫= as_str)))
    | None => Err (UnexpectedShape ("missing 'ok' field for " +:+ method))
    end.

(** The loop of [send_request]: [remaining] retries are left, [server i] is what the
    [i]-th attempt meets.  The result comes with the delays slept. *)
Fixpoint send_loop (server : nat -> result response string) (method : string) (remaining retries : nat) : result json SlackReadError * list Z :=
  match server retries with
  | Err e => (Err (SlackHttp e), [])
  | Ok r =>
      if rp_status r =? 429 then
        let retry_after := parse_retry_after (rp_retry_after r) in
        match remaining with
        | O => (Err (RateLimited (rp_body r) retry_after), [])
        | S remaining =>
            let delay := match as_duration retry_after with Some d => d | None => rate_limit_backoff_delay (Z.of_nat retries) end in
            let (res, ds) := send_loop server method remaining (S retries) in (res, delay :: ds)
        end
      else (read_answer method r, [])
  end.

Definition send_request (server : nat -> result response string) (method : string) : result json SlackReadError * list Z :=
  send_loop server method MAX_RATE_LIMIT_RETRIES 0.

(** ** Lemmas *)

(** The [i]-th delay: doubled [min i 16] times, never above [max]. *)
Definition delay_spec (base max : Z) (i : nat) : Z := Z.min (base * 2 ^ Z.min (Z.of_nat i) 16) max.

Lemma backoff_delay_spec base max i : 0 <= base -> 0 <= max <= duration_max -> backoff_delay base max (Z.of_nat i) = delay_spec base max i.
Proof. intros Hb Hm. unfold backoff_delay, delay_spec, saturating_mul. lia. Qed.

Fixpoint delays (n : nat) (b : ExponentialBackoff) : list Z :=
  match n with O => [] | S n => let (d, b') := next_delay b in d :: delays n b' end.

Lemma delays_from n base max k :
  0 <= base -> 0 <= max <= duration_max -> Z.of_nat (k + n) <= u32_max ->
  delays n (mkBackoff base max (Z.of_nat k)) = (fun i => delay_spec base max (k + i)) <$> seq 0 n.
Proof.
  intros Hb Hm. revert k. induction n as [|n IH]; intros k Hk; [done|].
  cbn [delays next_delay eb_base eb_max eb_attempts]. rewrite backoff_delay_spec by done.
  replace (Z.min (Z.of_nat k + 1) u32_max) with (Z.of_nat (S k)) by lia. rewrite IH by lia. rewrite <- cons_seq, fmap_cons, Nat.add_0_r. f_equal.
  rewrite <- fmap_S_seq, <- list_fmap_compose. apply list_fmap_ext. intros i x _. simpl. f_equal. lia.
Qed.

Lemma delay_spec_mono base max i j : 0 <= base -> (i <= j)%nat -> delay_spec base max i <= delay_spec base max j <= max.
Proof.
  intros Hb Hij. unfold delay_spec. assert (2 ^ Z.min (Z.of_nat i) 16 <= 2 ^ Z.min (Z.of_nat j) 16) by (apply Z.pow_le_mono_r; lia). nia.
Qed.

(** The delay before a retry: the server's, or the schedule's. *)
Definition retry_delay (i : nat) (r : response) : Z :=
  match parse_retry_after (rp_retry_after r) with Seconds s => from_secs s | _ => delay_spec RATE_LIMIT_BASE_DELAY RATE_LIMIT_MAX_DELAY i end.

Lemma send_loop_spec server method n k res ds :
  send_loop server method n k = (res, ds) ->
  (length ds <= n)%nat /\
  (forall i d, ds !! i = Some d -> exists r, server (k + i)%nat = Ok r /\ rp_status r = 429 /\ d = retry_delay (k + i) r) /\
  match server (k + length ds)%nat with
  | Err e => res = Err (SlackHttp e)
  | Ok r => if rp_status r =? 429 then length ds = n /\ res = Err (RateLimited (rp_body r) (parse_retry_after (rp_retry_after r))) else res = read_answer method r
  end.
Proof.
  revert k res ds. induction n as [|n IH]; intros k res ds E; cbn [send_loop] in E; destruct (server k) as [r|e] eqn:Es;
    try (injection E as <- <-; simpl; rewrite Nat.add_0_r, Es; split; [lia|split; [done|done]]).
  - destruct (rp_status r =? 429) eqn:E4; injection E as <- <-; simpl; rewrite Nat.add_0_r, Es, E4; (split; [lia|split; [done|done]]).
  - destruct (rp_status r =? 429) eqn:E4; [|injection E as <- <-; simpl; rewrite Nat.add_0_r, Es, E4; (split; [lia|split; [done|done]])].
    destruct (send_loop server method n (S k)) as [res' ds'] eqn:El. injection E as <- <-. destruct (IH _ _ _ El) as (Hlen & Hall & Hlast).
    split; [simpl; lia|]. split.
    + intros [|i] d Hd; simpl in Hd.
      * injection Hd as <-. exists r. rewrite Nat.add_0_r. split; [done|]. split; [lia|]. unfold retry_delay.
        destruct (parse_retry_after (rp_retry_after r)); simpl; try done; unfold rate_limit_backoff_delay; apply backoff_delay_spec; vm_compute; intuition discriminate.
      * destruct (Hall i d Hd) as (r' & Hr' & H4 & ->). exists r'. by replace (k + S i)%nat with (S k + i)%nat by lia.
    + rewrite length_cons. replace (k + S (length ds'))%nat with (S k + length ds')%nat by lia.
      destruct (server (S k + length ds')%nat) as [r'|]; [|done]. destruct (rp_status r' =? 429); [|done]. destruct Hlast as [-> ->]. done.
Qed.

(** A backoff doubles its delay up to a cap, from the start and after a reset. *)
Theorem backoff_schedule n b :
  0 <= eb_base b -> 0 <= eb_max b <= duration_max -> Z.of_nat n <= u32_max ->
  delays n (backoff_reset b) = (fun i => delay_spec (eb_base b) (eb_max b) i) <$> seq 0 n.
Proof. intros Hb Hm Hn. apply (delays_from n (eb_base b) (eb_max b) 0); done. Qed.

(** A request under a rate limit is sent at most four times.  It is retried
    exactly while the answers are 429, each time after the seconds the server
    asked for or, where it named none, after 0.5, 1 and 2 seconds; the result is
    the meaning of the first other answer, or the rate limit if there is none. *)
Theorem rate_limited_request server method :
  let (res, ds) := send_request server method in
  (length ds <= 3)%nat /\
  (forall i d, ds !! i = Some d -> exists r, server i = Ok r /\ rp_status r = 429 /\
     d = match parse_retry_after (rp_retry_after r) with Seconds s => from_secs s | _ => from_millis (500 * 2 ^ Z.of_nat i) end) /\
  match server (length ds) with
  | Err e => res = Err (SlackHttp e)
  | Ok r => if rp_status r =? 429 then length ds = 3%nat /\ res = Err (RateLimited (rp_body r) (parse_retry_after (rp_retry_after r))) else res = read_answer method r
  end.
Proof.
  destruct (send_request server method) as [res ds] eqn:E. destruct (send_loop_spec _ _ _ _ _ _ E) as (Hlen & Hall & Hlast).
  split; [done|]. split; [|done]. intros i d Hd. destruct (Hall i d Hd) as (r & Hr & H4 & ->). exists r. split; [done|]. split; [done|].
  apply lookup_lt_Some in Hd. unfold retry_delay. assert (Hs : delay_spec RATE_LIMIT_BASE_DELAY RATE_LIMIT_MAX_DELAY (0 + i) = from_millis (500 * 2 ^ Z.of_nat i)).
  { unfold MAX_RATE_LIMIT_RETRIES in Hlen. destruct i as [|[|[|i]]]; [vm_compute; reflexivity..|lia]. }
  rewrite Hs. by destruct (parse_retry_after (rp_retry_after r)).
Qed.
