(* ===== verification/AutoStatus.v ===== *)
(** * Working notices

    What a tool call shows to the clients of a task: the effect subscriber that
    records a WORKING status ([baml-rt-a2a/src/auto_status.rs]) and the relay
    that pushes WORKING chunks into a live stream
    ([live_stream_working_relay.rs], [live_stream.rs]).  Effects come from
    [EffectBus], statuses go through the gate of [TaskStore]. *)

From stdpp Require Import base gmap sets list strings.
From Stdlib Require Import ZArith Lia Ascii.
From S2P Require Import Prelude RustStr Json Errors Ids A2aTypes Broadcaster TaskStore EffectBus ToolNames.

Open Scope string_scope.
Open Scope list_scope.
Open Scope agentium_scope.
Open Scope nat_scope.

(** ** The notice *)

Definition task_id_from_metadata (metadata : json) : option TaskId := jget "task_id" metadata ≫= as_str.

Definition working_status_metadata_tool (tool_name : string) : gmap string json :=
  <["toolName" := JStr tool_name]> {["kind" := JStr "tool"]}.

Definition status_message_id (context_id : ContextId) (counter : Z) : string := "a2a-host-status-" +:+ context_id +:+ "-" +:+ show_Z counter.

(** [counter] is what [STATUS_MESSAGE_COUNTER.fetch_add(1)] returned. *)
Definition make_working_status_event (counter : Z) (context_id : ContextId) (task_id : option TaskId) (text : string) (metadata : option (gmap string json))
    : TaskStatusUpdateEvent :=
  let message := mkMessage (mkMessageId (status_message_id context_id counter) Outgoing) Agent [text_part text] (Some context_id) task_id [] [] None ∅ in
  mkStatusUpdate (Some context_id) task_id (Some (mkTaskStatus (Some (StateString "TASK_STATE_WORKING")) (Some message) None ∅)) metadata ∅.

(** ** The subscriber that records *)

Section Auto.
Context {G : Type} `{TaskGraph G} (hash : TaskStreamKey -> Z).

(** The store, the counter, and what was sent to [update_tx]. *)
Record auto_state := mkAuto { au_store : Store G; au_counter : Z; au_sent : list TaskUpdateEvent }.

Definition emit_working (context_id : ContextId) (task_id : TaskId) (text : string) (metadata : option (gmap string json)) (a : auto_state) : auto_state :=
  let status_ev := make_working_status_event (au_counter a) context_id (Some task_id) text metadata in
  match su_status status_ev with
  | None => a
  | Some status =>
      let (s', r) := record_status_update hash task_id context_id status (au_store a) in
      mkAuto s' (wrap64 (au_counter a + 1)) (match r with Ok (Some ev) => au_sent a ++ [ev] | Ok None | Err _ => au_sent a end)
  end.

Definition on_effect (event : EffectEvent) (a : auto_state) : auto_state :=
  match event with
  | ToolStarted context_id metadata =>
      match task_id_from_metadata (tm_metadata metadata) with
      | None => a
      | Some task_id =>
          emit_working context_id task_id ("Invoking tool: " +:+ tm_tool_name metadata) (Some (working_status_metadata_tool (tm_tool_name metadata))) a
      end
  | _ => a
  end.
End Auto.

(** ** The relay into a live stream *)

Definition session_key_of_context (context_id : ContextId) : string := context_id.
Definition session_key (context_id : ContextId) (task_id : option TaskId) : string :=
  match task_id with Some t => context_id +:+ "::" +:+ t | None => session_key_of_context context_id end.

(** A relay channel: its capacity, what waits in it, and whether the receiver is there. *)
Record relay := mkRelay { rl_capacity : nat; rl_queue : list json; rl_open : bool }.

(** [LiveStreamSession] by key; [relay_tx] is set while the stream runs. *)
Abbreviation sessions := (gmap string (option relay)).

Definition try_send (chunk : json) (r : relay) : relay :=
  if rl_open r && (length (rl_queue r) <? rl_capacity r)%nat then mkRelay (rl_capacity r) (rl_queue r ++ [chunk]) (rl_open r) else r.

Definition relay_key (context_id : ContextId) (task_id : option TaskId) (ss : sessions) : option string :=
  match ss !! session_key context_id task_id with
  | Some (Some _) => Some (session_key context_id task_id)
  | _ => match ss !! session_key_of_context context_id with Some (Some _) => Some (session_key_of_context context_id) | _ => None end
  end.

Definition push_relay_chunk (context_id : ContextId) (task_id : option TaskId) (chunk : json) (ss : sessions) : sessions :=
  match relay_key context_id task_id ss with
  | Some k => alter (fmap (try_send chunk)) k ss
  | None => ss
  end.

(** [chunk_of] serialises the event; [payload] is the chunk of a [ToolStreamChunk]
    with the task it names. *)
Definition relay_on_effect (chunk_of : TaskStatusUpdateEvent -> json) (payload : option TaskId * json) (counter : Z) (event : EffectEvent) (ss : sessions) : sessions :=
  match event with
  | ToolStreamChunk context_id => push_relay_chunk context_id payload.1 payload.2 ss
  | ToolStarted context_id metadata =>
      let task_id := task_id_from_metadata (tm_metadata metadata) in
      push_relay_chunk context_id task_id
        (chunk_of (make_working_status_event counter context_id task_id ("Invoking tool: " +:+ tm_tool_name metadata)
                     (Some (working_status_metadata_tool (tm_tool_name metadata))))) ss
  | LlmStarted context_id metadata =>
      match task_id_from_metadata (lm_metadata metadata) with
      | None => ss
      | Some task_id =>
          push_relay_chunk context_id (Some task_id)
            (chunk_of (make_working_status_event counter context_id (Some task_id)
                         ("Calling model: " +:+ lm_model metadata +:+ " (" +:+ fid_base (fid_parse (lm_function_name metadata)) +:+ ")") None)) ss
      end
  | _ => ss
  end.

(** ** Lemmas *)

Definition working_status (counter : Z) (c : ContextId) (t : TaskId) (tool : string) : TaskStatus :=
  mkTaskStatus (Some (StateString "TASK_STATE_WORKING"))
    (Some (mkMessage (mkMessageId (status_message_id c counter) Outgoing) Agent [text_part ("Invoking tool: " +:+ tool)] (Some c) (Some t) [] [] None ∅)) None ∅.

Lemma working_kind counter c t tool : wire_status_to_kind (working_status counter c t tool) = Ok Working.
Proof. reflexivity. Qed.

(** What a client of the task can be told by one effect. *)
Definition notice (counter : Z) (c : ContextId) (t : TaskId) (tool : string) : TaskUpdateEvent :=
  UpdStatus (mkStatusUpdate (Some c) (Some t) (Some (working_status counter c t tool)) None ∅).

Section AutoFacts.
Context {G : Type} `{TaskGraphLaws G} (hash : TaskStreamKey -> Z).

Lemma on_effect_tool c m t (a : auto_state) :
  task_id_from_metadata (tm_metadata m) = Some t ->
  on_effect hash (ToolStarted c m) a =
    (let (s', r) := record_status_update hash t c (working_status (au_counter a) c t (tm_tool_name m)) (au_store a) in
     mkAuto s' (wrap64 (au_counter a + 1)) (match r with Ok (Some ev) => au_sent a ++ [ev] | Ok None | Err _ => au_sent a end)).
Proof. intros E. simpl. by rewrite E. Qed.

(** A recorded update is the notice, without the metadata it was built with. *)
Lemma recorded_notice t c st s s' ev :
  record_status_update hash t c st s = (s', Ok (Some ev)) -> ev = UpdStatus (mkStatusUpdate (Some c) (Some t) (Some st) None ∅).
Proof.
  unfold record_status_update, sm_bind, sm_lift. simpl. destruct (status_gate t c st (s_graph s)) as [[[k cur]|]|]; [|done|done].
  unfold status_commit, sm_bind, task_event, next_activity_anchor, sm_lift. simpl. destruct (replay_cursor _); [|done].
  unfold write_event. simpl. destruct (add_event _ _); [|done]. unfold mirror, sm_modify. simpl. destruct (writer _ _ _). simpl. by intros [= _ <-].
Qed.

Lemma on_effect_sent e (a : auto_state) :
  au_sent (on_effect hash e a) = au_sent a \/
  exists c m t, e = ToolStarted c m /\ task_id_from_metadata (tm_metadata m) = Some t /\
    au_sent (on_effect hash e a) = au_sent a ++ [notice (au_counter a) c t (tm_tool_name m)].
Proof.
  destruct e as [c m| | | | | | | | | | |]; try by left. destruct (task_id_from_metadata (tm_metadata m)) as [t|] eqn:Et; [|left; simpl; by rewrite Et].
  rewrite (on_effect_tool _ _ _ _ Et). destruct (record_status_update _ _ _ _ _) as [s' [[ev|]|e]] eqn:Er; simpl; [right|by left..].
  exists c, m, t. split; [done|split; [done|]]. by rewrite (recorded_notice _ _ _ _ _ _ Er).
Qed.

(** A tool call of a finished task records and sends nothing. *)
Lemma finished_task_gets_no_notice c m t (a : auto_state) p :
  task_id_from_metadata (tm_metadata m) = Some t -> head_state (s_graph (au_store a)) c t = Ok (Some p) -> kind_is_terminal (st_new_status p) = true ->
  au_store (on_effect hash (ToolStarted c m) a) = au_store a /\ au_sent (on_effect hash (ToolStarted c m) a) = au_sent a.
Proof.
  intros Hm Hp Ht. rewrite (on_effect_tool _ _ _ _ Hm). unfold record_status_update, sm_bind, sm_lift, status_gate. rewrite working_kind. simpl.
  rewrite Hp. simpl. rewrite kind_terminal_wire, Ht. done.
Qed.

(** Effects whose notices for [tid] carry its context. *)
Definition effect_in_scope (ctx : ContextId) (tid : TaskId) (e : EffectEvent) : Prop :=
  forall c m, e = ToolStarted c m -> task_id_from_metadata (tm_metadata m) = Some tid -> c = ctx.

Lemma on_effect_moves ctx tid e (a : auto_state) :
  effect_in_scope ctx tid e -> moves false false ctx tid (s_graph (au_store a)) (s_graph (au_store (on_effect hash e a))).
Proof.
  intros Hs. destruct e as [c m| | | | | | | | | | |]; try apply moves_refl. destruct (task_id_from_metadata (tm_metadata m)) as [t|] eqn:Et; [|simpl; rewrite Et; apply moves_refl].
  rewrite (on_effect_tool _ _ _ _ Et). pose proof (record_status_update_safe hash false false ctx tid t c (working_status (au_counter a) c t (tm_tool_name m))) as Hsafe.
  assert (Hsc : t <> tid \/ c = ctx \/ false = true) by (destruct (decide (t = tid)) as [->|]; [right; left; by eapply Hs|by left]).
  specialize (Hsafe Hsc (au_store a)). by destruct (record_status_update _ _ _ _ _).
Qed.
End AutoFacts.

(** A run of effects moves a task only along its lifecycle, and sends at most
    one notice per tool call, in order. *)
Theorem working_notices_respect_lifecycle {G} `{TaskGraphLaws G} hash ctx tid es (a : auto_state) :
  Forall (effect_in_scope ctx tid) es ->
  let a' := foldl (fun a e => on_effect hash e a) a es in
  moves false false ctx tid (s_graph (au_store a)) (s_graph (au_store a')) /\
  exists evs, au_sent a' = au_sent a ++ evs /\ length evs <= length (List.filter (fun e => match e with ToolStarted _ _ => true | _ => false end) es).
Proof.
  intros Hs. revert a. induction Hs as [|e es He _ IH]; intros a; simpl; [split; [apply moves_refl|exists []; by rewrite app_nil_r]|].
  destruct (IH (on_effect hash e a)) as (Hm & evs & Hev & Hlen). split; [eapply moves_trans; [by apply on_effect_moves|exact Hm]|].
  rewrite Hev. destruct (on_effect_sent hash e a) as [->|(c & m & t & -> & Ht & ->)].
  - exists evs. split; [done|]. case_match; simpl; lia.
  - exists (notice (au_counter a) c t (tm_tool_name m) :: evs). split; [by rewrite <- app_assoc|]. simpl. lia.
Qed.

(** *** Streams *)

Definition colon_free (s : string) : bool := all_bytes (fun c => negb (bool_decide (c = ":"%char))) s.

Lemma colon_free_split c c' x x' : colon_free c = true -> colon_free c' = true -> c +:+ String ":" x = c' +:+ String ":" x' -> c = c' /\ x = x'.
Proof.
  revert c'. induction c as [|a c IH]; intros [|a' c'] Hc Hc' E; simpl in *.
  - by injection E as ->.
  - injection E as <- E. discriminate Hc'.
  - injection E as -> E. discriminate Hc.
  - injection E as <- E. apply andb_true_iff in Hc as [_ Hc], Hc' as [_ Hc']. destruct (IH _ Hc Hc' E) as [-> ->]. done.
Qed.

Lemma colon_free_no_colon c c' x : colon_free c = true -> c <> c' +:+ String ":" x.
Proof.
  intros Hc ->. induction c' as [|a c' IH]; simpl in Hc; [discriminate Hc|]. apply andb_true_iff in Hc as [_ Hc]. by apply IH.
Qed.

(** Streams of different tasks have different keys (invariant LS1, LS2). *)
Lemma session_key_identifies c c' t t' :
  colon_free c = true -> colon_free c' = true -> session_key c t = session_key c' t' -> c = c' /\ t = t'.
Proof.
  intros Hc Hc'. destruct t as [t|], t' as [t'|]; simpl; intros E.
  - apply (colon_free_split c c') in E as [-> E]; [|done|done]. by injection E as ->.
  - exfalso. unfold session_key_of_context in E. symmetry in E. by apply (colon_free_no_colon c' c) in E.
  - exfalso. unfold session_key_of_context in E. by apply (colon_free_no_colon c c') in E.
  - by unfold session_key_of_context in E.
Qed.

(** A chunk is appended to the stream of its task, or else of its context, if
    that stream is open and has room; every other stream is as before. *)
Lemma push_relay_spec c t chunk (ss : sessions) k r :
  ss !! k = Some (Some r) -> length (rl_queue r) <= rl_capacity r ->
  exists r', push_relay_chunk c t chunk ss !! k = Some (Some r') /\ rl_capacity r' = rl_capacity r /\ length (rl_queue r') <= rl_capacity r' /\
    rl_queue r' = (if bool_decide (relay_key c t ss = Some k) && rl_open r && (length (rl_queue r) <? rl_capacity r)%nat then rl_queue r ++ [chunk] else rl_queue r).
Proof.
  intros Hk Hcap. unfold push_relay_chunk. destruct (relay_key c t ss) as [k'|] eqn:Ek; [|exists r; by rewrite bool_decide_false].
  destruct (decide (k' = k)) as [->|Hne].
  - rewrite lookup_alter_eq, Hk, bool_decide_true by done. eexists. split; [reflexivity|]. simpl. unfold try_send.
    destruct (rl_open r) eqn:Eo; simpl; [|done]. destruct (Nat.ltb_spec (length (rl_queue r)) (rl_capacity r)); simpl; [|done].
    rewrite length_app. simpl. repeat split; lia.
  - rewrite lookup_alter_ne by done. exists r. rewrite bool_decide_false by congruence. done.
Qed.
