(* ===== verification/StreamCollect.v ===== *)
(** * Collecting the yields of an agent

    [baml-rt-quickjs/src/a2a_stream.rs] (the collector that turns what the
    agent's [onChatMessage] yields into one stream of outputs, suspends it on
    INPUT_REQUIRED and ends it) and [baml-rt-core/src/stream_completion.rs].

    An iteration of the collector reads channels that others fill; what it finds
    in them is its argument [tick], and a run is a list of ticks.  The consumer
    of the outputs may go away: [hangup] is the number of outputs it still takes,
    [None] when it stays.  The parser of JSON text and the printing of errors are
    arguments. *)

From stdpp Require Import base list strings gmap.
From Stdlib Require Import ZArith Lia ssreflect.
From S2P Require Import Prelude RustStr Json Ids Errors Interceptor.

Open Scope string_scope.
Open Scope list_scope.
Open Scope Z_scope.

Inductive StreamCompletion := SemanticFinal | InputRequired | ChannelClosed | Timeout.

#[global] Instance StreamCompletion_eq_dec : EqDecision StreamCompletion.
Proof. solve_decision. Defined.

Definition is_wire_final (c : StreamCompletion) : bool :=
  match c with SemanticFinal | ChannelClosed | Timeout => true | InputRequired => false end.

Inductive StreamOutput :=
| Chunk (v : json)
| RelayChunk (v : json)
| Terminal (v : json) (c : StreamCompletion).

(** ** What a chunk says about its task *)

(** A chain of [get]s. *)
Fixpoint jpath (ks : list string) (v : json) : option json :=
  match ks with [] => Some v | k :: r => jget k v ≫= jpath r end.

Definition jstr (ks : list string) (v : json) : option string := jpath ks v ≫= as_str.

Section Chunks.
Context (parse : string -> option json).

Definition from_val (v : json) : option string := jstr ["status"; "state"] v.

Definition from_maybe_string (v : json) : option string :=
  from_val v ∪ ((as_str v ≫= parse) ≫= from_val).

Definition from_status_update_container (su : json) : option string :=
  from_maybe_string su ∪ ((jget "status_update" su ∪ jget "statusUpdate" su) ≫= from_maybe_string).

Definition chunk_state (chunk : json) : option string :=
  (jget "task" chunk ≫= from_maybe_string)
  ∪ (jget "statusUpdate" chunk ≫= from_status_update_container)
  ∪ (jget "status_update" chunk ≫= from_status_update_container).

Definition chunk_has_final_state (chunk : json) : bool :=
  if default false (jget "final" chunk ≫= as_bool) then true
  else match chunk_state chunk with
       | Some s => (s =? "TASK_STATE_COMPLETED")%string || (s =? "TASK_STATE_FAILED")%string
       | None => false
       end.

Definition chunk_has_input_required_state (chunk : json) : bool :=
  match chunk_state chunk with Some s => (s =? "TASK_STATE_INPUT_REQUIRED")%string | None => false end.

Definition state_is_terminal (s : option string) : bool :=
  match s with
  | Some s => (s =? "TASK_STATE_COMPLETED")%string || (s =? "TASK_STATE_FAILED")%string
              || (s =? "TASK_STATE_REJECTED")%string || (s =? "TASK_STATE_CANCELED")%string
  | None => false
  end.

Definition scope_task_text (scope : RuntimeScope) : string :=
  match scope_task_id_opt scope with Some t => t | None => "stream-" +:+ scope_context_id scope end.

Definition make_channel_closed_completion_chunk (last_chunk : option json) (scope : RuntimeScope)
    (completion : StreamCompletion) : json :=
  let tid := last_chunk ≫= fun c =>
    jstr ["task"; "id"] c ∪ jstr ["statusUpdate"; "status"; "taskId"] c in
  let cid := last_chunk ≫= jstr ["task"; "contextId"] in
  let status := match completion with
    | Timeout =>
        JObj [("state", JStr "TASK_STATE_FAILED");
              ("message", JObj [("parts", JArr [JObj [("text", JStr "Request timed out before the agent produced a terminal response.")]])]);
              ("error_reason", JStr "request_timed_out_before_agent_response")]
    | _ => JObj [("state", JStr "TASK_STATE_COMPLETED")]
    end in
  JObj [("task", JObj [("id", JStr (default (scope_task_text scope) tid));
                       ("contextId", JStr (default (scope_context_id scope) cid));
                       ("status", status)])].

(** ** The collector *)

Record collector := mkCollector {
  c_scope : RuntimeScope;
  c_resumable : bool;             (* [resume_rx] is there *)
  c_relayed : bool;               (* [relay_rx] is there *)
  c_idle_timeout_secs : Z;
  c_last_yield_at : Z;            (* milliseconds *)
  c_all : list json;
  c_finalized : bool;
  c_released : nat;               (* calls of [finalize_a2a_stream_invocation] *)
  c_delivered : list json;        (* resume inputs handed to the lane *)
  c_out : list StreamOutput;      (* sent on [tx] *)
  c_hangup : option nat
}.

Definition collector_start (scope : RuntimeScope) (resumable relayed : bool) (idle_secs now : Z) (hangup : option nat) : collector :=
  mkCollector scope resumable relayed idle_secs now [] false 0 [] [] hangup.

Definition with_out (c : collector) (out : list StreamOutput) (hangup : option nat) : collector :=
  mkCollector (c_scope c) (c_resumable c) (c_relayed c) (c_idle_timeout_secs c) (c_last_yield_at c) (c_all c)
    (c_finalized c) (c_released c) (c_delivered c) out hangup.

Definition push_all (c : collector) (v : json) : collector :=
  mkCollector (c_scope c) (c_resumable c) (c_relayed c) (c_idle_timeout_secs c) (c_last_yield_at c) (c_all c ++ [v])
    (c_finalized c) (c_released c) (c_delivered c) (c_out c) (c_hangup c).

Definition with_yield_at (c : collector) (t : Z) : collector :=
  mkCollector (c_scope c) (c_resumable c) (c_relayed c) (c_idle_timeout_secs c) t (c_all c)
    (c_finalized c) (c_released c) (c_delivered c) (c_out c) (c_hangup c).

Definition release (c : collector) : collector :=
  mkCollector (c_scope c) (c_resumable c) (c_relayed c) (c_idle_timeout_secs c) (c_last_yield_at c) (c_all c)
    true (S (c_released c)) (c_delivered c) (c_out c) (c_hangup c).

Definition deliver (c : collector) (m : json) : collector :=
  mkCollector (c_scope c) (c_resumable c) (c_relayed c) (c_idle_timeout_secs c) (c_last_yield_at c) (c_all c)
    (c_finalized c) (c_released c) (c_delivered c ++ [m]) (c_out c) (c_hangup c).

(** [tx.send]: [false] when the consumer is gone. *)
Definition emit (o : StreamOutput) (c : collector) : collector * bool :=
  match c_hangup c with
  | Some 0%nat => (c, false)
  | Some (S n) => (with_out c (c_out c ++ [o]) (Some n), true)
  | None => (with_out c (c_out c ++ [o]) None, true)
  end.

Definition finalize_once (completion : option StreamCompletion) (c : collector) : collector :=
  if c_finalized c then c
  else
    let c := release c in
    match completion with
    | None => c
    | Some completion =>
        let last_state := last (c_all c) ≫= chunk_state in
        let payload := match completion with
          | ChannelClosed | Timeout => make_channel_closed_completion_chunk (last (c_all c)) (c_scope c) completion
          | SemanticFinal =>
              if state_is_terminal last_state then JNull
              else make_channel_closed_completion_chunk (last (c_all c)) (c_scope c) completion
          | InputRequired => JNull
          end in
        (emit (Terminal payload completion) c).1
    end.

Inductive CollectIteration := Continue (had_chunks : bool) | Done.

(** What ends the wait for the user: a message (and how the lane took it), the
    sender gone, or an abort. *)
Inductive resume_event :=
| ResumeMessage (m : json) (delivered : result unit BamlRtError)
| ResumeClosed
| ResumeAborted.

Context (show : BamlRtError -> string).

Definition error_chunk (e : BamlRtError) : json := JObj [("error", JStr (show e))].

Definition handle_input_required_resume (ev : resume_event) (c : collector) : collector * CollectIteration :=
  if c_resumable c then
    let (c, sent) := emit (Terminal JNull InputRequired) c in
    if negb sent then (finalize_once None c, Done)
    else match ev with
         | ResumeClosed | ResumeAborted => (finalize_once (Some ChannelClosed) c, Done)
         | ResumeMessage m (Ok _) => (deliver c m, Continue true)
         | ResumeMessage m (Err e) =>
             let c := (emit (Terminal (error_chunk e) SemanticFinal) (deliver c m)).1 in
             (finalize_once (Some SemanticFinal) c, Done)
         end
  else (finalize_once (Some InputRequired) c, Done).

(** What one iteration finds: an abort, whether the pending jobs ran, the yields
    and whether their channel is closed, the relayed chunks before and after
    them, how a wait for input would end, and the clock. *)
Record tick := mkTick {
  tk_aborted : bool;
  tk_jobs : result unit BamlRtError;
  tk_yields : list json;
  tk_closed : bool;
  tk_relay_before : list json;
  tk_relay_after : list json;
  tk_resume : resume_event;
  tk_now : Z
}.

(** [while let Ok(value) = relay_rx.try_recv()]: the first refused send ends it. *)
Fixpoint relay_chunks (vs : list json) (c : collector) : collector :=
  match vs with
  | [] => c
  | v :: r => let (c, sent) := emit (RelayChunk v) c in if sent then relay_chunks r c else c
  end.

Definition relay (vs : list json) (c : collector) : collector := if c_relayed c then relay_chunks vs c else c.

Definition saw_relay (tk : tick) (c : collector) : bool :=
  c_relayed c && negb (bool_decide (length (tk_relay_before tk ++ tk_relay_after tk) = 0%nat)).

(** The loop over the yields of a batch: [Some] when it returns from the iteration. *)
Fixpoint forward_yields (ev : resume_event) (vs : list json) (c : collector) : collector * option CollectIteration :=
  match vs with
  | [] => (c, None)
  | v :: r =>
      let (c, sent) := emit (Chunk v) c in
      if negb sent then (finalize_once None c, Some Done)
      else
        let c := push_all c v in
        if chunk_has_input_required_state v then
          let (c, it) := handle_input_required_resume ev c in (c, Some it)
        else if chunk_has_final_state v then (finalize_once (Some SemanticFinal) c, Some Done)
        else forward_yields ev r c
  end.

Definition next_iteration (tk : tick) (c : collector) : collector * result CollectIteration BamlRtError :=
  if tk_aborted tk then (finalize_once (Some ChannelClosed) c, Ok Done)
  else match tk_jobs tk with
  | Err e => (c, Err e)
  | Ok _ =>
      let c := relay (tk_relay_before tk) c in
      let (c, returned) := forward_yields (tk_resume tk) (tk_yields tk) c in
      match returned with
      | Some it => (c, Ok it)
      | None =>
          let saw_yield := negb (bool_decide (length (tk_yields tk) = 0%nat)) in
          let c := if saw_yield then with_yield_at c (tk_now tk) else c in
          let c := relay (tk_relay_after tk) c in
          if tk_closed tk then (finalize_once (Some ChannelClosed) c, Ok Done)
          else if (0 <? c_idle_timeout_secs c) && (c_idle_timeout_secs c * 1000 <=? tk_now tk - c_last_yield_at c)
          then (finalize_once (Some Timeout) c, Ok Done)
          else (c, Ok (Continue (saw_yield || saw_relay tk c)))
      end
  end.

(** The loop: [None] while it goes on, [Some] with its result. *)
Fixpoint collect_into_channel (tks : list tick) (c : collector) : collector * option (result unit BamlRtError) :=
  match tks with
  | [] => (c, None)
  | tk :: r =>
      match next_iteration tk c with
      | (c, Ok (Continue _)) => collect_into_channel r c
      | (c, Ok Done) => (c, Some (Ok tt))
      | (c, Err e) => (c, Some (Err e))
      end
  end.

(** The collect phase of [run_stream_same_thread]: a failed run ends the stream
    with the error. *)
Definition collect_phase (tks : list tick) (c : collector) : collector * bool :=
  match collect_into_channel tks c with
  | (c, None) => (c, false)
  | (c, Some (Ok _)) => (c, true)
  | (c, Some (Err e)) => ((emit (Terminal (error_chunk e) SemanticFinal) c).1, true)
  end.
End Chunks.

(** ** What reaches the consumer *)

Definition chunks (out : list StreamOutput) : list json :=
  omap (fun o => match o with Chunk v => Some v | _ => None end) out.

Definition relayed (out : list StreamOutput) : list json :=
  omap (fun o => match o with RelayChunk v => Some v | _ => None end) out.

Definition is_final (o : StreamOutput) : bool := match o with Terminal _ c => is_wire_final c | _ => false end.

Definition is_suspension (o : StreamOutput) : bool := match o with Terminal _ InputRequired => true | _ => false end.

Definition finals (out : list StreamOutput) : nat := length (filter (fun o => is_final o = true) out).

Definition suspensions (out : list StreamOutput) : nat := length (filter (fun o => is_suspension o = true) out).

Section Facts.
Context (parse : string -> option json) (show : BamlRtError -> string).

Notation stops v := (chunk_has_input_required_state parse v || chunk_has_final_state parse v).
Notation asks v := (chunk_has_input_required_state parse v).

(** The yields of a batch that are forwarded: up to the first that asks for input
    or ends the run. *)
Fixpoint through_stop (vs : list json) : list json :=
  match vs with
  | [] => []
  | v :: r => v :: (if stops v then [] else through_stop r)
  end.

Definition consumed (tk : tick) : list json :=
  if tk_aborted tk then [] else match tk_jobs tk with Err _ => [] | Ok _ => through_stop (tk_yields tk) end.

Definition requests (vs : list json) : nat := length (filter (fun v => asks v = true) vs).

Lemma finals_app out o : finals (out ++ [o]) = (finals out + if is_final o then 1 else 0)%nat.
Proof. unfold finals. rewrite filter_app length_app filter_cons filter_nil. by destruct (is_final o); rewrite ?decide_True ?decide_False. Qed.

Lemma suspensions_app out o : suspensions (out ++ [o]) = (suspensions out + if is_suspension o then 1 else 0)%nat.
Proof. unfold suspensions. rewrite filter_app length_app filter_cons filter_nil. by destruct (is_suspension o); rewrite ?decide_True ?decide_False. Qed.

Lemma requests_cons v vs : requests (v :: vs) = ((if asks v then 1 else 0) + requests vs)%nat.
Proof. unfold requests. rewrite filter_cons. by destruct (asks v); rewrite ?decide_True ?decide_False. Qed.

Lemma requests_app vs ws : requests (vs ++ ws) = (requests vs + requests ws)%nat.
Proof. unfold requests. by rewrite filter_app length_app. Qed.

Lemma chunks_app out o : chunks (out ++ [o]) = chunks out ++ (match o with Chunk v => [v] | _ => [] end).
Proof. unfold chunks. rewrite omap_app. by destruct o. Qed.

Lemma relayed_app out o : relayed (out ++ [o]) = relayed out ++ (match o with RelayChunk v => [v] | _ => [] end).
Proof. unfold relayed. rewrite omap_app. by destruct o. Qed.

Lemma requests_one v : requests [v] = if asks v then 1%nat else 0%nat.
Proof. rewrite requests_cons. by destruct (asks v). Qed.

(** A collector that runs for a consumer that stays. *)
Record running (c : collector) (vs : list json) : Prop := mkRunning {
  run_consumer : c_hangup c = None;
  run_resumable : c_resumable c = true;
  run_finalized : c_finalized c = false;
  run_released : c_released c = 0%nat;
  run_finals : finals (c_out c) = 0%nat;
  run_chunks : chunks (c_out c) = vs;
  run_asked : suspensions (c_out c) = requests vs;
  run_all : c_all c = vs
}.

(** The lane refused the user's reply. *)
Definition refused (ev : resume_event) : bool := match ev with ResumeMessage _ (Err _) => true | _ => false end.

(** One that has ended: released once, and the consumer was told, twice if it
    was told of a refused reply before. *)
Record ended (c : collector) (vs : list json) (twice : bool) : Prop := mkEnded {
  end_released : c_released c = 1%nat;
  end_finalized : c_finalized c = true;
  end_finals : finals (c_out c) = if twice then 2%nat else 1%nat;
  end_told : exists o, last (c_out c) = Some o /\ is_final o = true;
  end_chunks : chunks (c_out c) = vs;
  end_asked : suspensions (c_out c) = requests vs
}.

Lemma emit_stays o c : c_hangup c = None -> emit o c = (with_out c (c_out c ++ [o]) None, true).
Proof. intros E. unfold emit. by rewrite E. Qed.

Lemma running_relay_chunks ws : forall c vs, running c vs -> running (relay_chunks ws c) vs.
Proof.
  induction ws as [|w ws IH]; intros c vs H; simpl; [done|].
  rewrite emit_stays; [by apply H|]. apply IH. destruct H.
  constructor; simpl; rewrite ?finals_app ?suspensions_app ?chunks_app ?app_nil_r; simpl; try done; lia.
Qed.

Lemma running_relay ws c vs : running c vs -> running (relay ws c) vs.
Proof. intros H. unfold relay. destruct (c_relayed c); [by apply running_relay_chunks|done]. Qed.

(** A run that may have sent an error before it is finalized. *)
Record closing (c : collector) (vs : list json) (told : bool) : Prop := mkClosing {
  cl_consumer : c_hangup c = None;
  cl_finalized : c_finalized c = false;
  cl_released : c_released c = 0%nat;
  cl_finals : finals (c_out c) = if told then 1%nat else 0%nat;
  cl_chunks : chunks (c_out c) = vs;
  cl_asked : suspensions (c_out c) = requests vs
}.

Lemma running_closing c vs : running c vs -> closing c vs false.
Proof. intros []. by constructor. Qed.

Lemma closing_finalize k c vs told :
  closing c vs told -> is_wire_final k = true -> ended (finalize_once parse (Some k) c) vs told.
Proof.
  intros [] Hk. unfold finalize_once. rewrite cl_finalized0. rewrite emit_stays; [done|]. simpl.
  constructor; simpl; rewrite ?finals_app ?suspensions_app ?chunks_app ?app_nil_r; simpl; try done.
  - by rewrite cl_released0.
  - rewrite Hk cl_finals0. by destruct told.
  - rewrite last_snoc. eauto.
  - destruct k; simpl; try done; lia.
Qed.

Lemma closing_error c vs v : running c vs -> closing (with_out c (c_out c ++ [Terminal v SemanticFinal]) None) vs true.
Proof.
  intros []. constructor; simpl; rewrite ?finals_app ?suspensions_app ?chunks_app ?app_nil_r; simpl; try done; lia.
Qed.

Lemma running_deliver c vs m : running c vs -> running (deliver c m) vs.
Proof. by intros []. Qed.

Lemma running_push c vs v : running c vs -> asks v = false -> running (push_all (with_out c (c_out c ++ [Chunk v]) None) v) (vs ++ [v]).
Proof.
  intros [] Ha. constructor; simpl; rewrite ?finals_app ?suspensions_app ?chunks_app ?requests_app ?requests_one ?Ha; simpl; try done; try congruence; lia.
Qed.

Lemma asked_suspends c vs v ev c' it :
  running c vs -> asks v = true ->
  handle_input_required_resume parse show ev (push_all (with_out c (c_out c ++ [Chunk v]) None) v) = (c', it) ->
  (it = Done /\ ended c' (vs ++ [v]) (refused ev)) \/ (it <> Done /\ running c' (vs ++ [v])).
Proof.
  intros [] Ha. unfold handle_input_required_resume. simpl. rewrite run_resumable0 /=.
  set (c1 := with_out (push_all _ _) _ None).
  assert (running c1 (vs ++ [v])) as H1.
  { constructor; simpl; rewrite ?finals_app ?suspensions_app ?chunks_app ?requests_app ?requests_one ?Ha ?app_nil_r; simpl; try done; try congruence; lia. }
  destruct ev as [m [[]|e]| |]; intros [= <- <-].
  - right. split; [done|]. by apply running_deliver.
  - left. split; [done|]. apply closing_finalize; [|done].
    by apply (closing_error (deliver c1 m)), running_deliver.
  - left. split; [done|]. apply closing_finalize; [|done]. by apply running_closing.
  - left. split; [done|]. apply closing_finalize; [|done]. by apply running_closing.
Qed.

Lemma forward_yields_spec ev ws : forall c vs c' r,
  running c vs -> forward_yields parse show ev ws c = (c', r) ->
  match r with
  | None => running c' (vs ++ ws) /\ through_stop ws = ws
  | Some Done => exists twice, ended c' (vs ++ through_stop ws) twice /\ (twice = true -> refused ev = true)
  | Some (Continue _) => running c' (vs ++ through_stop ws)
  end.
Proof.
  induction ws as [|w ws IH]; intros c vs c' r H; simpl.
  - intros [= <- <-]. by rewrite app_nil_r.
  - rewrite emit_stays; [by apply H|]. simpl. destruct (asks w) eqn:Ea; simpl.
    + destruct (handle_input_required_resume _ _ _ _) as [c1 it] eqn:E. intros [= <- <-].
      destruct (asked_suspends _ _ _ _ _ _ H Ea E) as [[-> He]|[Hn Hr]]; [by exists (refused ev)|by destruct it].
    + pose proof (running_push _ _ _ H Ea) as H1. destruct (chunk_has_final_state parse w); simpl.
      * intros [= <- <-]. exists false. split; [|done]. apply closing_finalize; [|done]. by apply running_closing.
      * intros E. apply (IH _ _ _ _ H1) in E. rewrite -!app_assoc in E. simpl in E.
        destruct r as [[b|]|]; [done|done|]. by destruct E as [E1 ->].
Qed.

Lemma running_yield_at c vs t : running c vs -> running (with_yield_at c t) vs.
Proof. by intros []. Qed.

Lemma next_iteration_spec tk c vs c' r :
  running c vs -> next_iteration parse show tk c = (c', r) ->
  match r with
  | Ok (Continue _) => running c' (vs ++ consumed tk)
  | Ok Done => exists twice, ended c' (vs ++ consumed tk) twice /\ (twice = true -> refused (tk_resume tk) = true)
  | Err _ => c' = c /\ consumed tk = []
  end.
Proof.
  intros H. unfold next_iteration, consumed.
  destruct (tk_aborted tk).
  { intros [= <- <-]. rewrite app_nil_r. exists false. split; [|done]. by apply closing_finalize; [apply running_closing|]. }
  destruct (tk_jobs tk) as [[]|e]; [|by intros [= <- <-]].
  destruct (forward_yields _ _ _ _ _) as [c1 ret] eqn:Ef.
  pose proof (forward_yields_spec _ _ _ _ _ _ (running_relay (tk_relay_before tk) _ _ H) Ef) as Hf.
  destruct ret as [it|]; [intros [= <- <-]; by destruct it|].
  destruct Hf as [Hf ->].
  set (c2 := if negb _ then _ else _).
  assert (running (relay (tk_relay_after tk) c2) (vs ++ tk_yields tk)) as H2.
  { apply running_relay. unfold c2. destruct (negb _); [by apply running_yield_at|done]. }
  destruct (tk_closed tk).
  { intros [= <- <-]. exists false. split; [|done]. by apply closing_finalize; [apply running_closing|]. }
  destruct (_ && _); intros [= <- <-]; [|done].
  exists false. split; [|done]. by apply closing_finalize; [apply running_closing|].
Qed.

Lemma next_iteration_err tk c c' e : next_iteration parse show tk c = (c', Err e) -> tk_jobs tk = Err e.
Proof.
  unfold next_iteration. destruct (tk_aborted tk); [done|]. destruct (tk_jobs tk) as [[]|e0]; [|by intros [= <- <-]].
  destruct (forward_yields _ _ _ _ _) as [c1 [it|]]; [done|]. destruct (tk_closed tk); [done|]. by destruct (_ && _).
Qed.

Lemma collect_spec tks : forall c vs c' e,
  running c vs -> collect_into_channel parse show tks c = (c', e) ->
  exists k, let ws := vs ++ concat (map consumed (take k tks)) in
  match e with
  | None => k = length tks /\ running c' ws
  | Some (Ok _) => exists j tk twice, k = S j /\ tks !! j = Some tk /\ ended c' ws twice /\
      (twice = true -> refused (tk_resume tk) = true)
  | Some (Err err) => running c' ws /\ exists tk, tks !! k = Some tk /\ tk_jobs tk = Err err
  end.
Proof.
  induction tks as [|tk tks IH]; intros c vs c' e H; simpl.
  - intros [= <- <-]. exists 0%nat. by rewrite app_nil_r.
  - destruct (next_iteration _ _ _ _) as [c1 r] eqn:En.
    pose proof (next_iteration_spec _ _ _ _ _ H En) as Hn. destruct r as [[b|]|err].
    + intros E. destruct (IH _ _ _ _ Hn E) as [k Hk]. exists (S k). simpl in *. rewrite app_assoc.
      destruct e as [[[]|]|]; [|done|by destruct Hk as [-> Hk]].
      destruct Hk as (j & tk' & twice & -> & Hl & Hk). by exists (S j), tk', twice.
    + intros [= <- <-]. destruct Hn as (twice & Hn & Ht). exists 1%nat. simpl. rewrite !app_nil_r.
      by exists 0%nat, tk, twice.
    + intros [= <- <-]. destruct Hn as [-> _]. exists 0%nat. rewrite /= app_nil_r. split; [done|]. exists tk.
      split; [done|]. exact (next_iteration_err _ _ _ _ En).
Qed.

Lemma start_running scope r idle now : running (collector_start scope true r idle now None) [].
Proof. by constructor. Qed.
End Facts.

(** C16: For a consumer that stays, the collector of a resumable stream, over the
    first [k] iterations it makes, forwards the agent's yields once and in the
    order they were made, up to the one that asks for input or ends the run in
    each batch; it tells the consumer that the stream is suspended as often as a
    forwarded yield asks for input.  While it runs it has neither ended the
    stream nor released the invocation.  When it ends by itself it has released
    the invocation exactly once and its last output is final, the only final one
    unless the user's last reply could not be delivered, when the consumer got
    the error as a final output before.  When the pending jobs of an iteration
    fail, the error is the one final output, and the last; the invocation is then
    not released. *)
Theorem collected_stream parse show scope with_relay idle now tks c done :
  collect_phase parse show tks (collector_start scope true with_relay idle now None) = (c, done) ->
  exists k, let vs := concat (map (consumed parse) (take k tks)) in
  chunks (c_out c) = vs /\
  suspensions (c_out c) = requests parse vs /\
  ((* still running *)
   (done = false /\ k = length tks /\ finals (c_out c) = 0%nat /\ c_released c = 0%nat) \/
   (* ended in iteration [k] *)
   (done = true /\ c_released c = 1%nat /\ (exists o, last (c_out c) = Some o /\ is_final o = true) /\
    exists j tk, k = S j /\ tks !! j = Some tk /\
      (finals (c_out c) = 1%nat \/ finals (c_out c) = 2%nat /\ refused (tk_resume tk) = true)) \/
   (* the jobs of the next iteration failed *)
   (done = true /\ c_released c = 0%nat /\ finals (c_out c) = 1%nat /\
    exists tk e, tks !! k = Some tk /\ tk_jobs tk = Err e /\ last (c_out c) = Some (Terminal (error_chunk show e) SemanticFinal))).
Proof.
  unfold collect_phase. destruct (collect_into_channel _ _ _ _) as [c1 e] eqn:E.
  destruct (collect_spec parse show tks _ [] _ _ (start_running _ _ _ _ _) E) as [k Hk]. simpl in Hk.
  destruct e as [[[]|err]|]; intros [= <- <-]; exists k; simpl.
  - destruct Hk as (j & tk & twice & -> & Htk & [] & Ht). split_and!; try done. right; left. split_and!; try done.
    exists j, tk. split_and!; try done. destruct twice; [right|left]; auto.
  - destruct Hk as ([] & tk & Htk & Hj). rewrite emit_stays //=. rewrite chunks_app suspensions_app finals_app app_nil_r last_snoc /=.
    split_and!; try done; try lia. right; right. split_and!; try done; [lia|]. exists tk, err. done.
  - destruct Hk as [-> []]. split_and!; try done. by left.
Qed.

(** *** Concrete runs *)

Definition state_chunk (s : string) : json := JObj [("task", JObj [("id", JStr "t1"); ("status", JObj [("state", JStr s)])])].

Definition quiet (now : Z) : tick := mkTick false (Ok tt) [] false [] [] ResumeClosed now.

Definition yields (vs : list json) (ev : resume_event) (now : Z) : tick := mkTick false (Ok tt) vs false [] [] ev now.

Definition no_parse (_ : string) : option json := None.
Definition no_show (_ : BamlRtError) : string := "error".

Definition user_reply : json := JObj [("text", JStr "go on")].

Lemma collected_stream_witness :
  exists c k,
  collect_phase no_parse no_show
    [yields [state_chunk "TASK_STATE_WORKING"; state_chunk "TASK_STATE_INPUT_REQUIRED"] (ResumeMessage user_reply (Ok tt)) 10;
     yields [state_chunk "TASK_STATE_COMPLETED"] ResumeClosed 20]
    (collector_start (TaskScope "c" "a" "m" "t1") true true 60 0 None) = (c, true) /\
  chunks (c_out c) = concat (map (consumed no_parse) (take k
    [yields [state_chunk "TASK_STATE_WORKING"; state_chunk "TASK_STATE_INPUT_REQUIRED"] (ResumeMessage user_reply (Ok tt)) 10;
     yields [state_chunk "TASK_STATE_COMPLETED"] ResumeClosed 20])) /\
  suspensions (c_out c) = 1%nat.
Proof.
  destruct (collected_stream no_parse no_show (TaskScope "c" "a" "m" "t1") true 60 0
    [yields [state_chunk "TASK_STATE_WORKING"; state_chunk "TASK_STATE_INPUT_REQUIRED"] (ResumeMessage user_reply (Ok tt)) 10;
     yields [state_chunk "TASK_STATE_COMPLETED"] ResumeClosed 20] _ true ltac:(vm_compute; reflexivity)) as (k & H & _).
  eexists _, k. split; [vm_compute; reflexivity|]. split; [exact H|reflexivity].
Defined.

(** A user who takes longer to answer than the idle timeout gets the stream back
    dead: the clock is not restarted when the answer is delivered, so that the
    next iteration without a yield times the run out. *)
Lemma slow_reply_times_out :
  let '(c, ended) := collect_phase no_parse no_show
    [yields [state_chunk "TASK_STATE_INPUT_REQUIRED"] (ResumeMessage user_reply (Ok tt)) 1000; quiet 61001]
    (collector_start (TaskScope "c" "a" "m" "t1") true true 60 0 None) in
  ended = true /\ c_delivered c = [user_reply] /\
  exists v, c_out c = [Chunk (state_chunk "TASK_STATE_INPUT_REQUIRED"); Terminal JNull InputRequired; Terminal v Timeout].
Proof. vm_compute. eauto. Qed.

(** What the agent yields in one batch after a request for input is lost. *)
Lemma yields_after_request_lost :
  let '(c, _) := collect_phase no_parse no_show
    [yields [state_chunk "TASK_STATE_INPUT_REQUIRED"; state_chunk "TASK_STATE_WORKING"] (ResumeMessage user_reply (Ok tt)) 10;
     yields [state_chunk "TASK_STATE_COMPLETED"] ResumeClosed 20]
    (collector_start (TaskScope "c" "a" "m" "t1") true true 60 0 None) in
  chunks (c_out c) = [state_chunk "TASK_STATE_INPUT_REQUIRED"; state_chunk "TASK_STATE_COMPLETED"].
Proof. by vm_compute. Qed.
