(* ===== verification/A2aResponses.v ===== *)
(** * Responses of the A2A transport

    The JSON-RPC responses of [baml-rt-a2a/src/a2a.rs] and [response.rs], and the
    mapping of errors to codes, classifiers and retry hints of
    [error_mapping.rs].  What [serde] derives for the structs involved is written
    out; the printing of errors is an argument. *)

From stdpp Require Import base list strings gmap.
From Stdlib Require Import ZArith Lia ssreflect.
From S2P Require Import Prelude RustStr Json Errors StreamCollect.

Open Scope string_scope.
Open Scope list_scope.
Open Scope Z_scope.

(** ** Envelopes *)

Inductive JSONRPCId := IdString (s : string) | IdInteger (n : Z) | IdNull.

Definition id_to_json (id : option JSONRPCId) : json :=
  match id with
  | Some (IdString s) => JStr s
  | Some (IdInteger n) => JNum (NInt n)
  | Some IdNull | None => JNull
  end.

Definition id_to_string (id : JSONRPCId) : string :=
  match id with IdString s => s | IdInteger n => show_Z n | IdNull => "null" end.

Definition JSONRPC_VERSION : string := "2.0".

Definition success_response (id : option JSONRPCId) (result : json) : json :=
  JObj [("jsonrpc", JStr JSONRPC_VERSION); ("result", result); ("id", id_to_json id)].

(** [code as i32]. *)
Definition as_i32 (z : Z) : Z := (z + 2147483648) mod 4294967296 - 2147483648.

Definition a2a_error_response (id : option JSONRPCId) (code : Z) (message : string) (data : option json) : json :=
  JObj [("jsonrpc", JStr JSONRPC_VERSION);
        ("error", JObj ([("code", JNum (NInt (as_i32 code))); ("message", JStr message)]
                        ++ match data with Some d => [("data", d)] | None => [] end));
        ("id", id_to_json id)].

Definition stream_chunk_response (id : option JSONRPCId) (chunk : json) (index : nat) (final : bool) : json :=
  success_response id
    (JObj [("stream", JBool true); ("index", JNum (NInt (Z.of_nat index))); ("final", JBool final); ("chunk", chunk)]).

Record StreamResult := mkStreamResult { sr_chunks : list json; sr_completion : StreamCompletion }.

Definition is_semantically_final (r : StreamResult) : bool :=
  match sr_completion r with SemanticFinal | ChannelClosed => true | InputRequired | Timeout => false end.

Definition failed_chunk (text : string) : json :=
  JObj [("task", JObj [("status", JObj [("state", JStr "TASK_STATE_FAILED");
    ("message", JObj [("parts", JArr [JObj [("text", JStr text)]])])])])].

Definition synthetic_terminal_chunk_for_empty_stream (completion : StreamCompletion) : option json :=
  match completion with
  | Timeout => Some (failed_chunk "Request timed out before the agent produced a terminal response.")
  | ChannelClosed => Some (failed_chunk "Stream closed before the agent produced a terminal response.")
  | SemanticFinal | InputRequired => None
  end.

Definition format_stream (id : option JSONRPCId) (r : StreamResult) : list json :=
  let total := length (sr_chunks r) in
  match sr_chunks r, synthetic_terminal_chunk_for_empty_stream (sr_completion r) with
  | [], Some chunk => [stream_chunk_response id chunk 0 true]
  | cs, _ => imap (fun idx chunk => stream_chunk_response id chunk idx (is_semantically_final r && (S idx =? total)%nat)) cs
  end.

(** ** Errors *)

Record A2aErrorMapping := mkMapping {
  em_code : Z;
  em_message : string;
  em_data : option json;
  em_classifier : string;
  em_retryable : Retryability
}.

Definition disposition_wire (d : ErrorDisposition) : string :=
  match d with
  | HostRetriable => "host_retriable"
  | LlmCorrectable => "llm_correctable"
  | InformAndContinue => "inform_and_continue"
  | Fatal => "fatal"
  end.

Definition is_retryable (r : Retryability) : bool := match r with Retryable => true | Permanent => false end.

Section Errors.
Context (show : BamlRtError -> string).

Definition data_with_retryability (err : BamlRtError) (base : option json) (classifier : string) (r : Retryability) : option json :=
  let fill m :=
    Some (JObj (map_insert "error_disposition" (JStr (disposition_wire (baml_error_disposition err)))
                 (map_insert "retryable" (JBool (is_retryable r))
                   (map_insert "classifier" (JStr classifier) (map_insert "error" (JStr (show err)) m))))) in
  match base with
  | Some (JObj m) => fill m
  | Some other => Some other
  | None => fill []
  end.

Definition mapping (err : BamlRtError) (code : Z) (message : string) (data : option json) (classifier : string) (r : Retryability)
    : A2aErrorMapping :=
  mkMapping code message (data_with_retryability err data classifier r) classifier r.

Definition recovery_to_json (r : StepPlanRecovery) : json :=
  JObj ([("code", JStr (violation_as_str (recovery_code r))); ("disposition", JStr (disposition_wire (recovery_disposition r)));
         ("mistake", JStr (recovery_mistake r)); ("invariant", JStr (recovery_invariant r))]
        ++ match recovery_fix_steps r with [] => [] | fs => [("fix_steps", JArr (map JStr fs))] end).

(** [serde] of [ClassifiedToolError] is third-party to this file: an argument. *)
Context (to_tool_error_json : ClassifiedToolError -> json).

Definition details (m : string) : option json := Some (JObj [("details", JStr m)]).
Definition layered (m layer : string) : option json := Some (JObj [("details", JStr m); ("layer", JStr layer)]).

Definition map_error (err : BamlRtError) : A2aErrorMapping :=
  let internal data classifier r := mapping err (-32603) "Internal error" data classifier r in
  let invalid data classifier r := mapping err (-32600) "Invalid request" data classifier r in
  let own := retryability_for_a2a err in
  match err with
  | StepPlanCorrectable recovery => invalid (Some (recovery_to_json recovery)) "step_plan_correctable" Permanent
  | AgentNotFound m => mapping err (-32601) "Agent not found" (details m) "agent_not_found" Permanent
  | InvalidArgument m => invalid (details m) "invalid_argument" Permanent
  | Conflict m => mapping err (-32009) "Conflict" (details m) "conflict" own
  | InvalidArgumentWithSource _ _ => invalid None "invalid_argument" Permanent
  | SessionLifecycle InvocationCancelled => internal None "invocation_cancelled" own
  | SessionLifecycle _ => invalid None "session_lifecycle" own
  | FunctionNotFound name => mapping err (-32601) "Method not found" (Some (JObj [("function", JStr name)])) "function_not_found" Permanent
  | JsonError source => mapping err (-32700) "Parse error" (details source) "json" Permanent
  | JsonWithRaw _ _ _ => mapping err (-32700) "Parse error" None "json" Permanent
  | QuickJsWithSource context _ => internal (Some (JObj [("context", JStr context)])) "quickjs" own
  | QuickJs _ => internal None "quickjs" own
  | ToolClassified c => internal (Some (JObj [("tool_error", to_tool_error_json c)])) "tool_classified" own
  | GateAuthorizationRequired prompt =>
      internal (Some (JObj [("gate_authorization", JBool true); ("prompt", JStr prompt)])) "gate_authorization" own
  | ToolExecution _ => internal None "tool_execution" own
  | ProvenanceContextRead source => internal (details source) "provenance" own
  | Io source => internal (layered source "io") "io" own
  | ExecutionFailed source => internal (layered source "execution") "execution_failed" own
  | RequestBuildFailed source => internal (layered source "request_build") "request_build_failed" own
  | InvalidOpenInput _ => invalid None "invalid_open_input" Permanent
  | ToolRegistration _ => internal None "tool_registration" Permanent
  | SchemaLoading _ => internal None "schema_loading" Permanent
  | Configuration _ => internal None "configuration" Permanent
  | Initialization _ => internal None "initialization" Permanent
  | RuntimeLoadFailed _ => internal None "runtime_load_failed" own
  | ClientRegistryBuild _ => internal None "client_registry_build" own
  | FunctionStreamCreation _ => internal None "function_stream_creation" own
  | BamlRuntime _ | TypeConversion _ => internal None "internal" Permanent
  | ParsedResultFailed _ => internal None "internal" own
  | ClusterHeartbeat _ _ => internal None "cluster_heartbeat" own
  | AgentDraining m => mapping err (-32009) "Agent draining" (details m) "agent_draining" own
  end.

Definition format_error (id : option JSONRPCId) (err : BamlRtError) : json :=
  let m := map_error err in a2a_error_response id (em_code m) (em_message m) (em_data m).

(** *** What a client can rely on *)

(** An object, or nothing: the base data of every mapping but that of a value that
    is none. *)
Definition base_ok (d : option json) : Prop := match d with Some (JObj _) | None => True | _ => False end.

Lemma data_fields err base classifier r d :
  base_ok base -> data_with_retryability err base classifier r = Some d ->
  jget "error" d = Some (JStr (show err)) /\ jget "classifier" d = Some (JStr classifier) /\
  jget "retryable" d = Some (JBool (is_retryable r)) /\
  jget "error_disposition" d = Some (JStr (disposition_wire (baml_error_disposition err))).
Proof.
  intros Hb. destruct base as [[]|]; try done; simpl; intros [= <-]; unfold jget; split_and!;
    repeat (rewrite field_map_insert_ne; [done|]); first [by rewrite field_map_insert|done].
Qed.

Lemma map_error_shape err : exists code m base classifier r,
  map_error err = mapping err code m base classifier r /\ base_ok base /\
  -2147483648 <= code <= 2147483647 /\
  r = match err with StepPlanCorrectable _ => Permanent | _ => retryability_for_a2a err end.
Proof.
  destruct err as [ | | | | | | | | |rec| | | | | | | | | | | | | | [] | | | | | | | ]; simpl;
    eexists _, _, _, _, _; (split; [reflexivity|]); (split; [exact I|]); (split; [lia|done]).
Qed.

(** Every error response of the transport, as a client reads it: the envelope of
    the request's id, and data that carries the text, the classifier, the
    disposition, and a retry hint that agrees with the disposition of the error
    (the recovery of a plan, which names a disposition of its own, is never
    retryable). *)
Theorem error_response_tells id err :
  exists d, jget "id" (format_error id err) = Some (id_to_json id) /\
  jpath ["error"; "data"] (format_error id err) = Some d /\
  jpath ["error"; "code"] (format_error id err) = Some (JNum (NInt (em_code (map_error err)))) /\
  jget "error" d = Some (JStr (show err)) /\
  jget "classifier" d = Some (JStr (em_classifier (map_error err))) /\
  jget "error_disposition" d = Some (JStr (disposition_wire (baml_error_disposition err))) /\
  jget "retryable" d = Some (JBool (match err with StepPlanCorrectable _ => false | _ => is_retryable (retryability_for_a2a err) end)).
Proof.
  destruct (map_error_shape err) as (code & m & base & cl & r & E & Hb & Hc & Hr).
  unfold format_error. rewrite E. simpl.
  destruct (data_with_retryability err base cl r) as [d|] eqn:Ed; [|by destruct base as [[]|]].
  destruct (data_fields _ _ _ _ _ Hb Ed) as (H1 & H2 & H3 & H4).
  exists d. split_and!; try done.
  - unfold as_i32. do 3 f_equal. rewrite Z.mod_small; lia.
  - rewrite H3 Hr. by destruct err.
Qed.
End Errors.
