(* ===== verification/ChatStream.v ===== *)
(** * The chat stream of an agent

    [JsChunkNormalizer] of [baml-rt-a2a/src/a2a.rs] (what an agent yields, brought
    into the shape of a stream chunk) and [stream_collector.rs] (the outputs of
    [StreamCollect] normalized, stored and forwarded).

    Reading a value as a [Message] or [Task] and writing it back, and the codec of
    [StreamResponse], are [serde] and arguments.  The pipeline that stores chunks
    is a function on a state [W] of its own.  As in [StreamCollect] the consumer
    may go away after a number of messages. *)

From stdpp Require Import base list strings gmap.
From Stdlib Require Import ZArith Lia ssreflect.
From S2P Require Import Prelude RustStr Json Ids Errors Interceptor A2aTypes StreamCollect A2aResponses.

Open Scope string_scope.
Open Scope list_scope.
Open Scope Z_scope.

(** ** Normalization *)

(** [map.entry(k).or_insert_with(..)]. *)
Definition or_insert (k : string) (v : json) (fs : list (string * json)) : list (string * json) :=
  if contains_key k fs then fs else map_insert k v fs.

Section Normalizer.
Context (context_id : ContextId) (task_id : TaskId).

Definition next_message_id (counter : Z) : Z * string :=
  let counter := wrap64 (counter + 1) in (counter, "js-msg-" +:+ context_id +:+ "-" +:+ show_Z counter).

(** [map.get_mut(k)] and the change of what is there. *)
Definition change (k : string) (f : Z -> json -> Z * json) (n : Z) (fs : list (string * json)) : Z * list (string * json) :=
  match field k fs with
  | None => (n, fs)
  | Some v => let (n, v) := f n v in (n, map_insert k v fs)
  end.

Definition ensure_message_fields (n : Z) (message : json) : Z * json :=
  match message with
  | JObj fs =>
      let (n, fs) := if contains_key "messageId" fs then (n, fs)
                     else let (n, id) := next_message_id n in (n, map_insert "messageId" (JStr id) fs) in
      (n, JObj (or_insert "taskId" (JStr task_id) (or_insert "contextId" (JStr context_id) (or_insert "role" (JStr "ROLE_AGENT") fs))))
  | v => (n, v)
  end.

Definition ensure_status_fields (n : Z) (status : json) : Z * json :=
  match status with
  | JObj fs => let (n, fs) := change "message" ensure_message_fields n fs in (n, JObj fs)
  | v => (n, v)
  end.

Fixpoint ensure_messages (n : Z) (ms : list json) : Z * list json :=
  match ms with
  | [] => (n, [])
  | m :: r => let (n, m) := ensure_message_fields n m in let (n, r) := ensure_messages n r in (n, m :: r)
  end.

Definition ensure_history (n : Z) (history : json) : Z * json :=
  match history with
  | JArr ms => let (n, ms) := ensure_messages n ms in (n, JArr ms)
  | v => (n, v)
  end.

Definition ensure_task_fields (n : Z) (task : json) : Z * json :=
  match task with
  | JObj fs =>
      let fs := or_insert "contextId" (JStr context_id) (or_insert "id" (JStr task_id) fs) in
      let (n, fs) := change "history" ensure_history n fs in
      let (n, fs) := change "status" ensure_status_fields n fs in
      (n, JObj fs)
  | v => (n, v)
  end.

Definition ensure_context_and_task_fields (fs : list (string * json)) : list (string * json) :=
  or_insert "taskId" (JStr task_id) (or_insert "contextId" (JStr context_id) fs).

Definition ensure_status_update_fields (n : Z) (su : json) : Z * json :=
  match su with
  | JObj fs => let (n, fs) := change "status" ensure_status_fields n (ensure_context_and_task_fields fs) in (n, JObj fs)
  | v => (n, v)
  end.

Definition ensure_artifact_update_fields (n : Z) (au : json) : Z * json :=
  match au with JObj fs => (n, JObj (ensure_context_and_task_fields fs)) | v => (n, v) end.

Definition is_update (fs : list (string * json)) : bool := contains_key "statusUpdate" fs || contains_key "artifactUpdate" fs.

(** The second half of [normalize_value]: the fields that follow from the scope. *)
Definition fill_scope (n : Z) (value : json) : Z * json :=
  match value with
  | JObj fs =>
      let (n, fs) :=
        if is_update fs && negb (contains_key "task" fs) then
          let (n, task) := ensure_task_fields n (JObj [("id", JStr task_id); ("contextId", JStr context_id)]) in
          (n, map_insert "task" task fs)
        else (n, fs) in
      let (n, fs) := change "message" ensure_message_fields n fs in
      let (n, fs) := change "task" ensure_task_fields n fs in
      let (n, fs) := change "statusUpdate" ensure_status_update_fields n fs in
      let (n, fs) := change "artifactUpdate" ensure_artifact_update_fields n fs in
      (n, JObj fs)
  | v => (n, v)
  end.

Definition is_wrapped (value : json) : bool :=
  match value with
  | JObj fs => contains_key "message" fs || contains_key "task" fs || is_update fs
  | _ => false
  end.

(** [as_message v]: [None] when [v] is no [Message], else what it is written back as. *)
Context (as_message as_task : json -> option (result json BamlRtError)).

Definition normalize_value (n : Z) (value : json) : Z * result json BamlRtError :=
  if is_wrapped value then let (n, v) := fill_scope n value in (n, Ok v)
  else match as_message value with
  | Some (Err e) => (n, Err e)
  | Some (Ok m) => let (n, v) := fill_scope n (JObj [("message", m)]) in (n, Ok v)
  | None =>
      match as_task value with
      | Some (Err e) => (n, Err e)
      | Some (Ok t) => let (n, v) := fill_scope n (JObj [("task", t)]) in (n, Ok v)
      | None =>
          match jget "parts" value with
          | Some _ => let (n, m) := ensure_message_fields n value in (n, Ok (JObj [("message", m)]))
          | None => let (n, v) := fill_scope n value in (n, Ok v)
          end
      end
  end.

(** *** A normalized chunk is left alone *)

(** What a pass leaves as it is, whatever the counter. *)
Definition settled (f : Z -> json -> Z * json) (v : json) : Prop := forall n, f n v = (n, v).

Definition settles (f : Z -> json -> Z * json) : Prop := forall n v n' v', f n v = (n', v') -> settled f v'.

Lemma contains_insert k k' v fs : contains_key k (map_insert k' v fs) = String.eqb k k' || contains_key k fs.
Proof.
  unfold contains_key. destruct (String.eqb_spec k k') as [->|Hn]; [by rewrite field_map_insert|].
  by rewrite field_map_insert_ne.
Qed.

Lemma contains_or_insert k k' v fs : contains_key k (or_insert k' v fs) = String.eqb k k' || contains_key k fs.
Proof.
  unfold or_insert. destruct (contains_key k' fs) eqn:E; [|apply contains_insert].
  destruct (String.eqb_spec k k') as [->|]; [by rewrite E|done].
Qed.

Lemma field_or_insert_other k k' v fs : k <> k' -> field k (or_insert k' v fs) = field k fs.
Proof. intros. unfold or_insert. destruct (contains_key k' fs); [done|by apply field_map_insert_ne]. Qed.

Lemma or_insert_there k v fs : contains_key k fs = true -> or_insert k v fs = fs.
Proof. unfold or_insert. by intros ->. Qed.

Lemma map_insert_same k v fs : field k fs = Some v -> map_insert k v fs = fs.
Proof.
  induction fs as [|[k' w] fs IH]; simpl; [done|].
  destruct (String.eqb k k'); [by intros [= ->]|intros E; by rewrite IH].
Qed.

Lemma change_settled k f n fs : (forall v, field k fs = Some v -> settled f v) -> change k f n fs = (n, fs).
Proof.
  intros H. unfold change. destruct (field k fs) as [v|] eqn:E; [|done].
  by rewrite (H v eq_refl n) (map_insert_same _ _ _ E).
Qed.

(** A change settles its own key and touches no other. *)
Lemma change_spec k f n fs n' fs' :
  settles f -> change k f n fs = (n', fs') ->
  (forall v, field k fs' = Some v -> settled f v) /\
  (forall k', k' <> k -> field k' fs' = field k' fs) /\ (forall k', contains_key k' fs' = contains_key k' fs).
Proof.
  intros Hf. unfold change. destruct (field k fs) as [v|] eqn:E; [|intros [= <- <-]; by rewrite E].
  destruct (f n v) as [m w] eqn:Ef. intros [= <- <-]. split_and!.
  - intros u. rewrite field_map_insert. intros [= <-]. by apply (Hf _ _ _ _ Ef).
  - intros k' Hk. by rewrite field_map_insert_ne.
  - intros k'. rewrite contains_insert. destruct (String.eqb_spec k' k) as [->|]; [|done].
    unfold contains_key. by rewrite E.
Qed.

Lemma message_filled fs :
  Forall (fun k => contains_key k fs = true) ["messageId"; "role"; "contextId"; "taskId"] ->
  settled ensure_message_fields (JObj fs).
Proof.
  intros H n. rewrite !Forall_cons in H. destruct H as (H1 & H2 & H3 & H4 & _). simpl.
  rewrite H1. by rewrite (or_insert_there "role") // (or_insert_there "contextId") // or_insert_there.
Qed.

Lemma message_settles : settles ensure_message_fields.
Proof.
  intros n v n' v'. destruct v as [| | | | |fs]; try (by intros [= <- <-]). simpl.
  destruct (contains_key "messageId" fs) eqn:Hid; simpl; intros [= <- <-]; apply message_filled;
    repeat constructor; rewrite !contains_or_insert ?contains_insert ?Hid /= ?orb_true_r //.
Qed.

Lemma status_settles : settles ensure_status_fields.
Proof.
  intros n v n' v'. destruct v as [| | | | |fs]; try (by intros [= <- <-]). simpl.
  destruct (change _ _ _ _) as [m gs] eqn:E. intros [= <- <-] p. simpl.
  by rewrite change_settled; [apply (change_spec _ _ _ _ _ _ message_settles E)|].
Qed.

Lemma messages_settle ms : forall n n' ms' m, ensure_messages n ms = (n', ms') -> ensure_messages m ms' = (m, ms').
Proof.
  induction ms as [|x ms IH]; intros n n' ms' m; simpl; [by intros [= <- <-]|].
  destruct (ensure_message_fields n x) as [n1 x'] eqn:E1. destruct (ensure_messages n1 ms) as [n2 r] eqn:E2.
  intros [= <- <-]. simpl. by rewrite (message_settles _ _ _ _ E1 m) (IH _ _ _ m E2).
Qed.

Lemma history_settles : settles ensure_history.
Proof.
  intros n v n' v'. destruct v as [| | | |ms|]; try (by intros [= <- <-]). simpl.
  destruct (ensure_messages n ms) as [m r] eqn:E. intros [= <- <-] p. simpl. by rewrite (messages_settle _ _ _ _ p E).
Qed.

Lemma task_settles : settles ensure_task_fields.
Proof.
  intros n v n' v'. destruct v as [| | | | |fs]; try (by intros [= <- <-]). simpl.
  set (gs := or_insert _ _ _). destruct (change "history" _ _ _) as [n1 g1] eqn:E1.
  destruct (change "status" _ _ _) as [n2 g2] eqn:E2. intros [= <- <-] p. simpl.
  destruct (change_spec _ _ _ _ _ _ history_settles E1) as (A1 & A2 & A3).
  destruct (change_spec _ _ _ _ _ _ status_settles E2) as (B1 & B2 & B3).
  assert (contains_key "id" g2 = true) as Hid by (rewrite B3 A3 /gs !contains_or_insert /= //).
  assert (contains_key "contextId" g2 = true) as Hctx by (rewrite B3 A3 /gs !contains_or_insert /= //).
  rewrite (or_insert_there "id") // or_insert_there //.
  rewrite (change_settled "history"); [|by rewrite change_settled].
  intros v. rewrite B2 //. apply A1.
Qed.

Lemma scope_ids_kept fs gs :
  (forall k, contains_key k gs = contains_key k (ensure_context_and_task_fields fs)) -> ensure_context_and_task_fields gs = gs.
Proof.
  intros H. unfold ensure_context_and_task_fields in *.
  rewrite (or_insert_there "contextId"); [by rewrite H !contains_or_insert|].
  by rewrite or_insert_there // H !contains_or_insert.
Qed.

Lemma status_update_settles : settles ensure_status_update_fields.
Proof.
  intros n v n' v'. destruct v as [| | | | |fs]; try (by intros [= <- <-]). simpl.
  destruct (change _ _ _ _) as [n1 g1] eqn:E1. intros [= <- <-] p. simpl.
  destruct (change_spec _ _ _ _ _ _ status_settles E1) as (A1 & _ & A3).
  rewrite (scope_ids_kept fs) //. by rewrite change_settled.
Qed.

Lemma artifact_update_settles : settles ensure_artifact_update_fields.
Proof.
  intros n v n' v'. destruct v as [| | | | |fs]; try (by intros [= <- <-]). simpl. intros [= <- <-] p. simpl.
  by rewrite (scope_ids_kept fs).
Qed.

(** What [fill_scope] makes of an object. *)
Lemma fill_scope_spec n fs n' v' :
  fill_scope n (JObj fs) = (n', v') ->
  exists gs, v' = JObj gs /\ settled fill_scope v' /\
  (is_update gs = true -> contains_key "task" gs = true) /\
  (forall k, contains_key k fs = true -> contains_key k gs = true).
Proof.
  unfold fill_scope.
  destruct (if is_update fs && _ then _ else _) as [n0 g0] eqn:E0.
  destruct (change "message" _ _ _) as [n1 g1] eqn:E1. destruct (change "task" _ _ _) as [n2 g2] eqn:E2.
  destruct (change "statusUpdate" _ _ _) as [n3 g3] eqn:E3. destruct (change "artifactUpdate" _ _ _) as [n4 g4] eqn:E4.
  intros [= <- <-]. exists g4.
  destruct (change_spec _ _ _ _ _ _ message_settles E1) as (A1 & A2 & A3).
  destruct (change_spec _ _ _ _ _ _ task_settles E2) as (B1 & B2 & B3).
  destruct (change_spec _ _ _ _ _ _ status_update_settles E3) as (C1 & C2 & C3).
  destruct (change_spec _ _ _ _ _ _ artifact_update_settles E4) as (D1 & D2 & D3).
  assert (forall k, contains_key k g4 = contains_key k g0) as Hk by (intros k; by rewrite D3 C3 B3 A3).
  assert (is_update g4 = true -> contains_key "task" g4 = true) as Ht.
  { unfold is_update. rewrite !Hk. intros Hu. revert E0. unfold is_update.
    destruct (contains_key "task" fs) eqn:Et; [rewrite andb_false_r; by intros [= <- <-]|].
    destruct (_ && _) eqn:Eu; [destruct (ensure_task_fields _ _); intros [= <- <-]; by rewrite contains_insert|].
    intros [= <- <-]. by rewrite Hu in Eu. }
  split_and!; [done| |exact Ht|].
  - intros p. assert (is_update g4 && negb (contains_key "task" g4) = false) as ->.
    { destruct (is_update g4); [|done]. by rewrite Ht. }
    rewrite (change_settled "message"); [intros v; rewrite D2 // C2 // B2 //; apply A1|].
    rewrite (change_settled "task"); [intros v; rewrite D2 // C2 //; apply B1|].
    rewrite (change_settled "statusUpdate"); [intros v; rewrite D2 //; apply C1|].
    by rewrite change_settled.
  - intros k Hfs. rewrite Hk. revert E0. destruct (_ && _); [|by intros [= <- <-]].
    destruct (ensure_task_fields _ _). intros [= <- <-]. by rewrite contains_insert Hfs orb_true_r.
Qed.

(** Settled and wrapped: a second pass changes nothing. *)
Lemma wrapped_again v : is_wrapped v = true -> settled fill_scope v -> forall m, normalize_value m v = (m, Ok v).
Proof. intros Hw H m. unfold normalize_value. by rewrite Hw H. Qed.

Lemma fill_wrapped n fs n' v' : is_wrapped (JObj fs) = true -> fill_scope n (JObj fs) = (n', v') -> is_wrapped v' = true.
Proof.
  intros Hw E. destruct (fill_scope_spec _ _ _ _ E) as (gs & -> & _ & _ & Hk). simpl in *.
  unfold is_update in *. rewrite !orb_true_iff in Hw |- *.
  destruct Hw as [[H|H]|[H|H]]; apply Hk in H; rewrite H; auto.
Qed.

Lemma filled_chunk n fs n' v' :
  is_wrapped (JObj fs) = true -> fill_scope n (JObj fs) = (n', v') ->
  (forall m, normalize_value m v' = (m, Ok v')) /\
  (forall gs, v' = JObj gs -> is_update gs = true -> contains_key "task" gs = true).
Proof.
  intros Hw E. destruct (fill_scope_spec _ _ _ _ E) as (gs & Hv & Hs & Ht & _). split.
  - apply wrapped_again; [by apply (fill_wrapped _ _ _ _ Hw E)|done].
  - intros gs'. rewrite Hv. by intros [= <-].
Qed.

Lemma unwrapped_untouched n v : is_wrapped v = false -> fill_scope n v = (n, v).
Proof.
  destruct v as [| | | | |fs]; try done. simpl. unfold is_update. rewrite !orb_false_iff. intros [[Hm Ht] [H1 H2]]. rewrite H1 H2 /=.
  unfold contains_key in *. unfold change.
  destruct (field "message" fs), (field "task" fs), (field "statusUpdate" fs), (field "artifactUpdate" fs); try done.
Qed.

Lemma message_alone u : settled ensure_message_fields u -> settled fill_scope (JObj [("message", u)]).
Proof.
  intros H p. unfold fill_scope. cbv beta iota zeta delta [is_update contains_key field String.eqb Ascii.eqb Bool.eqb is_some andb orb negb].
  unfold change at 1. cbv beta iota delta [field String.eqb Ascii.eqb Bool.eqb]. by rewrite H.
Qed.

(** A chunk an agent yields is brought into shape once: normalizing the result
    again changes nothing and draws no message id, and a chunk with a status or
    artifact update names its task, as the task store demands. *)
Theorem normalized_chunk n v n' w :
  normalize_value n v = (n', Ok w) ->
  (forall m, normalize_value m w = (m, Ok w)) /\
  (forall gs, w = JObj gs -> is_update gs = true -> contains_key "task" gs = true).
Proof.
  unfold normalize_value at 1. destruct (is_wrapped v) eqn:Hw.
  { destruct v as [| | | | |fs]; try done. destruct (fill_scope n _) as [m u] eqn:E. intros [= <- <-]. by apply (filled_chunk _ _ _ _ Hw E). }
  destruct (as_message v) as [[x|e]|] eqn:Em; [|done|].
  { destruct (fill_scope n _) as [m u] eqn:E. intros [= <- <-]. by apply (filled_chunk n [("message", x)] m u eq_refl E). }
  destruct (as_task v) as [[x|e]|] eqn:Et; [|done|].
  { destruct (fill_scope n _) as [m u] eqn:E. intros [= <- <-]. by apply (filled_chunk n [("task", x)] m u eq_refl E). }
  destruct (jget "parts" v) eqn:Ep.
  - destruct (ensure_message_fields n v) as [m u] eqn:E. intros [= <- <-]. split; [|by intros gs [= <-]].
    apply wrapped_again; [done|]. by apply message_alone, (message_settles _ _ _ _ E).
  - rewrite unwrapped_untouched //. intros [= <- <-]. split.
    + intros m. unfold normalize_value. by rewrite Hw Em Et Ep unwrapped_untouched.
    + intros gs -> Hu. simpl in Hw. by rewrite Hu orb_true_r in Hw.
Qed.
End Normalizer.

(** ** The stream to the transport *)

Abbreviation chat_message := (StreamResponse * nat * option StreamCompletion)%type.

(** What a stream does to the world: store a value, send a message, report the
    history settled ([ContextHistorySettled]). *)
Inductive chat_act :=
| Stored (v : json)
| Sent (m : chat_message)
| HistorySettled.

Definition StreamResponse_default : StreamResponse := mkStreamResponse None None None None ∅.

Definition task_id_from_chunk (value : json) : option string :=
  jstr ["task"; "id"] value ∪ (jstr ["statusUpdate"; "taskId"] value ∪ jstr ["message"; "taskId"] value).

(** The typed value of the static JSON in [make_submitted_chunk]. *)
Definition make_submitted_chunk (context_id task_id : string) : StreamResponse :=
  let status := mkTaskStatus (Some (StateString S_SUBMITTED)) None None ∅ in
  mkStreamResponse None
    (Some (mkTask (Some task_id) (Some context_id) [] [] (Some status) None ∅))
    (Some (mkStatusUpdate (Some context_id) (Some task_id) (Some status) None ∅))
    None ∅.

Lemma some_union {A} (x : A) (m : option A) : Some x ∪ m = Some x.
Proof. by destruct m. Qed.

Section ChatStream.
Context {W : Type} (store_result : W -> json -> W * result unit BamlRtError).
Context (sr_of : json -> option StreamResponse) (sr_wire : StreamResponse -> json).
Context (as_message as_task : json -> option (result json BamlRtError)) (show : BamlRtError -> string).
Context (scope : RuntimeScope) (fresh_task_id : TaskId) (inject_submitted : bool).

Notation ctx := (scope_context_id scope).

(** [JsChunkNormalizer::new]: the task of the scope, or one of the runtime's own. *)
Definition normalizer_task : TaskId := default fresh_task_id (scope_task_id_opt scope).

Definition normalize (n : Z) (v : json) : Z * result json BamlRtError :=
  normalize_value ctx normalizer_task as_message as_task n v.

Definition normalized_to_stream_response (v : json) : StreamResponse := default StreamResponse_default (sr_of v).

Record chat := mkChat {
  ch_counter : Z;                 (* of the normalizer *)
  ch_index : nat;
  ch_submitted : bool;
  ch_settled : bool;
  ch_trace : list chat_act;       (* what was done, in order *)
  ch_hangup : option nat;
  ch_world : W
}.

Definition chat_start (w : W) (hangup : option nat) : chat := mkChat 0 0 false false [] hangup w.

Definition chat_send (m : chat_message) (c : chat) : chat * bool :=
  let go h := (mkChat (ch_counter c) (ch_index c) (ch_submitted c) (ch_settled c) (ch_trace c ++ [Sent m]) h (ch_world c), true) in
  match ch_hangup c with
  | Some 0%nat => (c, false)
  | Some (S n) => go (Some n)
  | None => go None
  end.

Definition chat_store (v : json) (c : chat) : chat * result unit BamlRtError :=
  let (w, r) := store_result (ch_world c) v in
  (mkChat (ch_counter c) (ch_index c) (ch_submitted c) (ch_settled c) (ch_trace c ++ [Stored v]) (ch_hangup c) w, r).

Definition set_counter (n : Z) (c : chat) : chat :=
  mkChat n (ch_index c) (ch_submitted c) (ch_settled c) (ch_trace c) (ch_hangup c) (ch_world c).

Definition set_index (i : nat) (submitted : bool) (c : chat) : chat :=
  mkChat (ch_counter c) i submitted (ch_settled c) (ch_trace c) (ch_hangup c) (ch_world c).

(** [emit_chat_stream_history_settled], remembered. *)
Definition settle (c : chat) : chat :=
  mkChat (ch_counter c) (ch_index c) (ch_submitted c) true (ch_trace c ++ [HistorySettled]) (ch_hangup c) (ch_world c).

(** What the consumer got. *)
Definition ch_out (c : chat) : list chat_message := omap (fun a => match a with Sent m => Some m | _ => None end) (ch_trace c).

Definition read_output (o : StreamOutput) : json * option StreamCompletion * bool :=
  match o with
  | Chunk v => (v, None, false)
  | RelayChunk v => (v, None, true)
  | Terminal v c => (v, Some c, false)
  end.

Definition mark_relay (is_relay : bool) (v : json) : json :=
  match v with
  | JObj fs => if is_relay then JObj (map_insert "__toolStreamChunk" (JBool true) fs) else v
  | _ => v
  end.

(** The announcement of the task before the first chunk that lets its id be known. *)
Definition announce (normalized : json) (c : chat) : chat :=
  if inject_submitted && negb (ch_submitted c) then
    match scope_task_id_opt scope ∪ task_id_from_chunk normalized with
    | None => c
    | Some task_id =>
        let submitted := make_submitted_chunk ctx task_id in
        match chat_store (sr_wire submitted) c with
        | (c, Ok _) => let (c, sent) := chat_send (submitted, 0%nat, None) c in if sent then set_index 1 true c else c
        | (c, Err _) => c
        end
    end
  else c.

(** One output; [true] when the loop ends. *)
Definition on_output (o : StreamOutput) (c : chat) : chat * bool :=
  let '(raw, completion, is_relay) := read_output o in
  let (n, r) := normalize (ch_counter c) raw in
  let c := set_counter n c in
  match r with
  | Ok v =>
      let v := mark_relay is_relay v in
      let c := announce v c in
      let c := (chat_store v c).1 in
      let (c, sent) := chat_send (normalized_to_stream_response v, ch_index c, completion) c in
      if negb sent then (c, true)
      else
        let c := set_index (S (ch_index c)) (ch_submitted c) c in
        let c := match completion with Some _ => settle c | None => c end in
        (c, match completion with Some k => is_wire_final k | None => false end)
  | Err e =>
      let v := JObj [("error", JStr (show e))] in
      let c := (chat_store v c).1 in
      let c := (chat_send (normalized_to_stream_response v, ch_index c, Some SemanticFinal) c).1 in
      (settle c, true)
  end.

Fixpoint output_loop (os : list StreamOutput) (c : chat) : chat :=
  match os with
  | [] => c
  | o :: r => let (c, stop) := on_output o c in if stop then c else output_loop r c
  end.

Definition run_chat_stream_collector (os : list StreamOutput) (c : chat) : chat :=
  let c := output_loop os c in
  match ch_hangup c with
  | Some 0%nat => c
  | _ =>
      let (c, sent) := chat_send (StreamResponse_default, ch_index c, Some ChannelClosed) c in
      if sent && negb (ch_settled c) then settle c else c
  end.

(** *** What the transport receives *)

(** The outputs as they leave: normalized, up to the first that ends the stream. *)
Fixpoint shaped (n : Z) (os : list StreamOutput) : list (json * option StreamCompletion) :=
  match os with
  | [] => []
  | o :: r =>
      let '(raw, completion, is_relay) := read_output o in
      let (n, res) := normalize n raw in
      match res with
      | Ok v => (mark_relay is_relay v, completion)
                :: (if match completion with Some k => is_wire_final k | None => false end then [] else shaped n r)
      | Err _ => []
      end
  end.

(** What one output makes happen: it is stored, then sent under its number, and
    a completion settles the history. *)
Fixpoint forwarded (i : nat) (xs : list (json * option StreamCompletion)) : list chat_act :=
  match xs with
  | [] => []
  | (v, k) :: r =>
      [Stored v; Sent (normalized_to_stream_response v, i, k)]
      ++ (match k with Some _ => [HistorySettled] | None => [] end) ++ forwarded (S i) r
  end.

Definition completed (xs : list (json * option StreamCompletion)) : bool :=
  existsb (fun x => match x.2 with Some _ => true | None => false end) xs.

Definition stored (w : W) (vs : list json) : W := fold_left (fun w v => (store_result w v).1) vs w.

(** Writing a decoded value back never fails. *)
Context (write_back : forall v e, as_message v <> Some (Err e) /\ as_task v <> Some (Err e)).

Lemma normalize_total n v : exists n' w, normalize n v = (n', Ok w).
Proof.
  unfold normalize, normalize_value. destruct (write_back v (QuickJs "")) as [_ _].
  repeat case_match; simplify_eq; eauto;
    match goal with H : as_message _ = Some (Err ?e) |- _ => by destruct (write_back v e) | H : as_task _ = Some (Err ?e) |- _ => by destruct (write_back v e) end.
Qed.

Lemma chat_store_eq v c : (chat_store v c).1 =
  mkChat (ch_counter c) (ch_index c) (ch_submitted c) (ch_settled c) (ch_trace c ++ [Stored v]) (ch_hangup c) (store_result (ch_world c) v).1.
Proof. unfold chat_store. by destruct (store_result (ch_world c) v). Qed.

Notation ends k := (match k with Some k => is_wire_final k | None => false end).
Notation settles_on k := (match k with Some _ => [HistorySettled] | None => [] end).

(** One output, for a consumer that stays, once the task is announced or will not be. *)
Lemma on_output_stays o c n raw k is_relay w :
  read_output o = (raw, k, is_relay) -> normalize (ch_counter c) raw = (n, Ok w) ->
  let v := mark_relay is_relay w in let c0 := announce v (set_counter n c) in
  ch_hangup c0 = None ->
  on_output o c =
  (mkChat (ch_counter c0) (S (ch_index c0)) (ch_submitted c0) (match k with Some _ => true | None => ch_settled c0 end)
     (ch_trace c0 ++ [Stored v; Sent (normalized_to_stream_response v, ch_index c0, k)] ++ settles_on k)
     None (store_result (ch_world c0) v).1,
   ends k).
Proof.
  intros E1 E2 v c0 Hh. unfold on_output. rewrite E1 E2. fold v. fold c0. rewrite chat_store_eq.
  unfold chat_send. simpl. rewrite Hh. unfold settle, set_index. simpl. destruct k; simpl; by rewrite -!app_assoc.
Qed.

(** The loop once the task was announced or when none is to be. *)
Lemma output_loop_spec os : forall c,
  ch_hangup c = None -> inject_submitted && negb (ch_submitted c) = false ->
  let xs := shaped (ch_counter c) os in
  let c' := output_loop os c in
  ch_trace c' = ch_trace c ++ forwarded (ch_index c) xs /\
  ch_index c' = (ch_index c + length xs)%nat /\
  ch_hangup c' = None /\
  ch_settled c' = ch_settled c || completed xs /\
  ch_world c' = stored (ch_world c) (map fst xs).
Proof.
  induction os as [|o os IH]; intros c Hh Hs; simpl.
  { rewrite app_nil_r Nat.add_0_r orb_false_r. by repeat split; try lia. }
  destruct (read_output o) as [[raw k] is_relay] eqn:Er.
  destruct (normalize_total (ch_counter c) raw) as (n' & w & En). rewrite En.
  assert (announce (mark_relay is_relay w) (set_counter n' c) = set_counter n' c) as Ha
    by (unfold announce; simpl; by rewrite Hs).
  rewrite (on_output_stays _ _ _ _ _ _ _ Er En) Ha //=.
  set (c1 := mkChat _ _ _ _ _ _ _). destruct (ends k) eqn:Ek.
  - destruct k as [k|]; [|done]. simpl. split_and!; try done; try lia; by rewrite orb_true_r.
  - destruct (IH c1) as (A & B & C & E & F); [done|done|]. simpl in A, B, C, E, F.
    rewrite A B C E F -app_assoc /= -?app_assoc. split_and!; try done; destruct k; simpl; try lia; try done;
      by rewrite orb_true_r.
Qed.

End ChatStream.

(** *** Concrete runs *)

(** A codec that keeps the value, and stores that log what they get; [once_down]
    refuses the first value. *)
Definition raw_sr (v : json) : option StreamResponse := Some (mkStreamResponse None None None None {["raw" := v]}).
Definition raw_wire (r : StreamResponse) : json := default JNull (sr_extra r !! "raw").
Definition logging (w : list json) (v : json) : list json * result unit BamlRtError := (w ++ [v], Ok tt).
Definition once_down (w : list json) (v : json) : list json * result unit BamlRtError :=
  (w ++ [v], if (length w =? 0)%nat then Err (QuickJs "store down") else Ok tt).
Definition no_serde (_ : json) : option (result json BamlRtError) := None.

Definition hello : json := JObj [("parts", JArr [JObj [("text", JStr "hello")]])].

Lemma normalized_chunk_witness :
  exists n w, normalize_value "c" "t1" no_serde no_serde 0 hello = (n, Ok w) /\
  normalize_value "c" "t1" no_serde no_serde 7 w = (7, Ok w).
Proof.
  eexists _, _. split; [vm_compute; reflexivity|].
  exact (proj1 (normalized_chunk "c" "t1" no_serde no_serde 0 hello _ _ ltac:(vm_compute; reflexivity)) 7).
Defined.


(** When the announcement could not be stored it follows the chunk it was to
    precede, under a number that chunk already has. *)
Lemma late_announcement_repeats_index :
  let c := run_chat_stream_collector once_down raw_sr raw_wire no_serde no_serde no_show (TaskScope "c" "a" "m" "t1") "t0" true
    [Chunk hello; Chunk hello] (chat_start [] None) in
  map (fun m => (bool_decide (is_Some (sr_task_payload m.1.1)), m.1.2)) (ch_out c)
  = [(false, 0%nat); (true, 0%nat); (false, 1%nat); (false, 2%nat)].
Proof. by vm_compute. Qed.
