(* ===== verification/A2aRequests.v ===== *)
(** * Requests of the A2A transport and the answer of a turn

    [baml-rt-a2a/src/wire.rs] and [a2a.rs] (from a JSON-RPC value to a typed
    request and its scope), the request helpers of [a2a_transport.rs],
    [StreamChunkView] of [a2a_types.rs], and the drain of a turn in
    [run_live_stream_session]: the messages of the chat stream as the frames the
    client gets.

    What [serde] derives (decoding of envelopes and parameters, the codec of
    [StreamResponse]) and the JSON parser are arguments, and so is the context id
    the process would generate. *)

From stdpp Require Import base list strings gmap.
From Stdlib Require Import ZArith Lia ssreflect.
From S2P Require Import Prelude RustStr Json Ids Errors Interceptor A2aTypes StreamCollect A2aResponses ChatStream.

Open Scope string_scope.
Open Scope list_scope.
Open Scope Z_scope.

(** ** From the wire *)

Inductive InvocationKind := Invoke | Stream.
Inductive A2aMethod := MessageSendStream | TasksGet | TasksList | TasksSubscribe.

Definition A2aMethod_as_str (m : A2aMethod) : string :=
  match m with
  | MessageSendStream => "message.sendStream"
  | TasksGet => "tasks.get"
  | TasksList => "tasks.list"
  | TasksSubscribe => "tasks.subscribe"
  end.

Record JSONRPCRequest := mkRpc { rpc_jsonrpc : string; rpc_method : string; rpc_params : option json; rpc_id : option JSONRPCId }.

(** The fields of the parameters that this code reads. *)
Record SendMessageRequest := mkSend { sm_message : Message; sm_metadata : option (gmap string json) }.
Record SubscribeToTaskParams := mkSubscribe { sp_id : TaskId; sp_stream : option bool }.

Inductive A2aParams :=
| PSend (p : SendMessageRequest)
| PGet (id : TaskId) (history_length : option NumberOrString)
| PList (p : ListTasksRequest)
| PSubscribe (id : TaskId).

Definition params_method (p : A2aParams) : A2aMethod :=
  match p with PSend _ => MessageSendStream | PGet _ _ => TasksGet | PList _ => TasksList | PSubscribe _ => TasksSubscribe end.

Definition as_send_message (p : A2aParams) : option SendMessageRequest := match p with PSend p => Some p | _ => None end.

Inductive RequestScope :=
| MessageScoped (context_id : ContextId) (message_id : MessageId)
| TaskScoped (context_id : ContextId) (message_id : MessageId) (task_id : TaskId).

Definition rs_context_id (s : RequestScope) : ContextId := match s with MessageScoped c _ | TaskScoped c _ _ => c end.
Definition rs_message_id (s : RequestScope) : MessageId := match s with MessageScoped _ m | TaskScoped _ m _ => m end.
Definition rs_task_id_opt (s : RequestScope) : option TaskId := match s with MessageScoped _ _ => None | TaskScoped _ _ t => Some t end.

Record A2aRequest := mkA2aRequest {
  ar_id : option JSONRPCId;
  ar_params : A2aParams;
  ar_invocation : InvocationKind;
  ar_scope : RequestScope
}.

Inductive A2aWireMethod :=
| WMessageSendStream (p : SendMessageRequest)
| WTasksGet (id : TaskId) (history_length : option NumberOrString)
| WTasksList (p : ListTasksRequest)
| WTasksSubscribe (p : SubscribeToTaskParams).

Definition ListTasksParams_default : ListTasksRequest := mkListRequest None None None None None None.

Section FromValue.
Context (decode_rpc : json -> result JSONRPCRequest string).
Context (decode_send : json -> result SendMessageRequest string) (decode_get : json -> result (TaskId * option NumberOrString) string).
Context (decode_list : json -> result ListTasksRequest string) (decode_subscribe : json -> result SubscribeToTaskParams string).

Definition parse_params {A} (decode : json -> result A string) (v : json) : result A BamlRtError := map_err JsonError (decode v).

Definition parse_params_or_default {A} (dflt : A) (decode : json -> result A string) (v : json) : result A BamlRtError :=
  if is_null v then Ok dflt else parse_params decode v.

Definition try_from_raw (raw : JSONRPCRequest) : result (option JSONRPCId * A2aWireMethod) BamlRtError :=
  let params := default JNull (rpc_params raw) in
  let wire {A} (r : result A BamlRtError) (f : A -> A2aWireMethod) :=
    match r with Ok a => Ok (rpc_id raw, f a) | Err e => Err e end in
  if String.eqb (rpc_method raw) "message.sendStream" then wire (parse_params decode_send params) WMessageSendStream
  else if String.eqb (rpc_method raw) "message.send" then Err (InvalidArgument "Only message.sendStream is supported")
  else if String.eqb (rpc_method raw) "tasks.get" then wire (parse_params decode_get params) (fun p => WTasksGet p.1 p.2)
  else if String.eqb (rpc_method raw) "tasks.list" then wire (parse_params_or_default ListTasksParams_default decode_list params) WTasksList
  else if String.eqb (rpc_method raw) "tasks.subscribe" then wire (parse_params decode_subscribe params) WTasksSubscribe
  else Err (InvalidArgument "Unsupported A2A request method").

Definition with_context (c : ContextId) (m : Message) : Message :=
  mkMessage (m_message_id m) (m_role m) (m_parts m) (Some c) (m_task_id m) (m_reference_task_ids m) (m_extensions m) (m_metadata m) (m_extra m).

(** [generated] is the context id drawn if the request names none. *)
Definition request_of (generated : ContextId) (id : option JSONRPCId) (method : A2aWireMethod) : A2aRequest :=
  match method with
  | WMessageSendStream params =>
      let context_id := default generated (m_context_id (sm_message params)) in
      let message := with_context context_id (sm_message params) in
      let message_id := mid_id (m_message_id message) in
      mkA2aRequest id (PSend (mkSend message (sm_metadata params))) Stream
        (match m_task_id message with
         | Some task_id => TaskScoped context_id message_id task_id
         | None => MessageScoped context_id message_id
         end)
  | WTasksGet task_id h => mkA2aRequest id (PGet task_id h) Invoke (TaskScoped generated ("tasks.get-" +:+ task_id) task_id)
  | WTasksList p => mkA2aRequest id (PList p) Invoke (MessageScoped (default generated (lq_context_id p)) "tasks.list")
  | WTasksSubscribe p =>
      mkA2aRequest id (PSubscribe (sp_id p)) (if default false (sp_stream p) then Stream else Invoke)
        (TaskScoped generated ("tasks.subscribe-" +:+ sp_id p) (sp_id p))
  end.

Definition from_value (generated : ContextId) (value : json) : result A2aRequest BamlRtError :=
  match decode_rpc value with
  | Err e => Err (JsonError e)
  | Ok raw =>
      if negb (String.eqb (rpc_jsonrpc raw) JSONRPC_VERSION)
      then Err (InvalidArgument ("Unsupported jsonrpc version: " +:+ rpc_jsonrpc raw))
      else match try_from_raw raw with
           | Err e => Err e
           | Ok (id, method) => Ok (request_of generated id method)
           end
  end.

Definition extract_jsonrpc_id (value : json) : option JSONRPCId :=
  match decode_rpc value with Ok raw => rpc_id raw | Err _ => None end.

(** A request that is accepted names one of the four methods, and is a stream
    unless it reads tasks. *)
Lemma from_value_method generated v r :
  from_value generated v = Ok r ->
  exists raw, decode_rpc v = Ok raw /\ rpc_jsonrpc raw = "2.0" /\ ar_id r = rpc_id raw /\
  rpc_method raw = A2aMethod_as_str (params_method (ar_params r)) /\
  (params_method (ar_params r) = MessageSendStream -> ar_invocation r = Stream).
Proof.
  unfold from_value. destruct (decode_rpc v) as [raw|]; [|done].
  destruct (String.eqb_spec (rpc_jsonrpc raw) JSONRPC_VERSION) as [Hv|]; [|done]. simpl.
  unfold try_from_raw.
  destruct (String.eqb_spec (rpc_method raw) "message.sendStream") as [Hm|_].
  { destruct (parse_params decode_send _) as [p|]; [|done]. intros [= <-]. by exists raw. }
  destruct (String.eqb (rpc_method raw) "message.send"); [done|].
  destruct (String.eqb_spec (rpc_method raw) "tasks.get") as [Hm|_].
  { destruct (parse_params decode_get _) as [p|]; [|done]. intros [= <-]. by exists raw. }
  destruct (String.eqb_spec (rpc_method raw) "tasks.list") as [Hm|_].
  { destruct (parse_params_or_default _ decode_list _) as [p|]; [|done]. intros [= <-]. by exists raw. }
  destruct (String.eqb_spec (rpc_method raw) "tasks.subscribe") as [Hm|_]; [|done].
  destruct (parse_params decode_subscribe _) as [p|]; [|done]. intros [= <-]. by exists raw.
Qed.
End FromValue.

(** ** Scopes *)

Inductive OutcomeInvocationContext :=
| Standalone
| LiveSessionFirstTurn (context_id : ContextId)
| LiveSessionResume (context_id : ContextId) (task_id : TaskId).

Definition synthesized_live_task_id (context_id : ContextId) (message_id : MessageId) : TaskId :=
  "live-task:" +:+ context_id +:+ ":" +:+ message_id.

Definition resolve_scope_for_outcome (parsed : A2aRequest) (ctx : OutcomeInvocationContext) : RequestScope :=
  let message_id := rs_message_id (ar_scope parsed) in
  match ctx with
  | Standalone => ar_scope parsed
  | LiveSessionFirstTurn context_id =>
      TaskScoped context_id message_id (default (synthesized_live_task_id context_id message_id) (rs_task_id_opt (ar_scope parsed)))
  | LiveSessionResume context_id task_id => TaskScoped context_id message_id task_id
  end.

Definition strip_message_send_stream_task_id_from_wire (request : json) : json :=
  match request with
  | JObj fs =>
      match field "params" fs with
      | Some (JObj ps) =>
          match field "message" ps with
          | Some (JObj ms) => JObj (map_insert "params" (JObj (map_insert "message" (JObj (map_swap_remove "taskId" ms)) ps)) fs)
          | _ => request
          end
      | _ => request
      end
  | _ => request
  end.

Definition metadata_value_as_string (metadata : option (gmap string json)) (key : string) : option string :=
  match metadata with Some m => m !! key ≫= as_str | None => None end.

Definition should_preserve_wire_task_id (parsed : A2aRequest) : bool :=
  match as_send_message (ar_params parsed) with
  | Some p => bool_decide (metadata_value_as_string (sm_metadata p) "kind" = Some "agent-to-agent")
  | None => false
  end.

Definition compaction_function_name_from_request (request : A2aRequest) : option string :=
  match ar_params request with
  | PSend p =>
      let find k := metadata_value_as_string (sm_metadata p) k in
      let find_message k := metadata_value_as_string (m_metadata (sm_message p)) k in
      find "baml_function" ∪ (find "function_name" ∪ (find "bamlFunction"
        ∪ (find_message "baml_function" ∪ (find_message "function_name" ∪ find_message "bamlFunction"))))
  | _ => None
  end.

(** The first part with a text, if that text is not blank. *)
Definition resume_user_message_text (parsed : A2aRequest) : option string :=
  match ar_params parsed with
  | PSend p =>
      match omap p_text (m_parts (sm_message p)) with
      | t :: _ => if is_empty_str (trim t) then None else Some (trim t)
      | [] => None
      end
  | _ => None
  end.

(** ** Chunks as the transport sees them *)

Section View.
Context (parse : string -> option json).

Definition MAX_TASK_ID_PARSE_DEPTH : nat := 4.

(** [fuel] is [MAX_TASK_ID_PARSE_DEPTH + 1 - depth]. *)
Fixpoint extract_task_id_str_with_depth (fuel : nat) (v : json) : option string :=
  match fuel with
  | O => None
  | S fuel =>
      let again (o : option json) := o ≫= extract_task_id_str_with_depth fuel in
      match v with
      | JStr raw => again (parse raw)
      | _ =>
          let update := jget "statusUpdate" v ∪ jget "status_update" v in
          jstr ["task"; "id"] v
          ∪ (jstr ["id"] v
          ∪ (again (jstr ["task"] v ≫= parse)
          ∪ ((update ≫= fun su => (jget "taskId" su ∪ (jpath ["statusUpdate"; "taskId"] su ∪ jpath ["status_update"; "taskId"] su)) ≫= as_str)
          ∪ (again ((update ≫= as_str) ≫= parse)
          ∪ (jstr ["message"; "taskId"] v
          ∪ (jstr ["taskId"] v
          ∪ (((jget "chunks" v ≫= as_array) ≫= fun cs => head (omap (extract_task_id_str_with_depth fuel) cs))
          ∪ again (jget "chunk" v))))))))
      end
  end.

Definition view_task_id (v : json) : option TaskId := extract_task_id_str_with_depth (S MAX_TASK_ID_PARSE_DEPTH) v.

Definition view_is_null (v : json) : bool := match v with JNull => true | JObj [] => true | _ => false end.

(** ** The drain of a turn *)

Definition synthetic_input_required_json (task_id context_id : string) : json :=
  let prompt := JObj [("messageId", JStr ("a2a-synthetic-input-required-" +:+ task_id)); ("role", JStr "ROLE_AGENT");
                      ("parts", JArr [JObj [("text", JStr "Reply to continue the conversation.")]])] in
  let status := JObj [("state", JStr "TASK_STATE_INPUT_REQUIRED"); ("message", prompt)] in
  JObj [("task", JObj [("id", JStr task_id); ("contextId", JStr context_id); ("status", status)]);
        ("statusUpdate", JObj [("taskId", JStr task_id); ("contextId", JStr context_id); ("status", status)]);
        ("final", JBool false)].

Definition rx_closed_completion_json (task_id context_id : string) : json :=
  JObj [("task", JObj [("id", JStr task_id); ("contextId", JStr context_id);
                       ("status", JObj [("state", JStr "TASK_STATE_COMPLETED")]); ("final", JBool true)])].

(** [sr_of] decodes and [sr_wire] writes a [StreamResponse]; the chunks the
    transport makes itself go through both. *)
Context (sr_of : json -> option StreamResponse) (sr_wire : StreamResponse -> json).

Definition rewritten (v : json) : json := sr_wire (default StreamResponse_default (sr_of v)).

(** [format_stream_chunk], with the marker of a relayed chunk moved to the result. *)
Definition strip_marker (v : json) : json * bool :=
  match v with
  | JObj fs => (JObj (map_swap_remove "__toolStreamChunk" fs), bool_decide (field "__toolStreamChunk" fs ≫= as_bool = Some true))
  | _ => (v, false)
  end.

Definition frame (id : option JSONRPCId) (wire : json) (index : nat) (final : bool) : json :=
  let (chunk, is_tool_stream) := strip_marker wire in
  let result := [("stream", JBool true); ("index", JNum (NInt (Z.of_nat index))); ("final", JBool final); ("chunk", chunk)] in
  success_response id (JObj (if is_tool_stream then map_insert "toolStreamChunk" (JBool true) result else result)).

(** A turn as it is drained: the request's id, the session's context, the task it
    was resolved to, the last task a chunk named. *)
Record drain := mkDrain {
  dr_id : option JSONRPCId;
  dr_context : ContextId;
  dr_task : option string;
  dr_request_task : option string;
  dr_last : option string
}.

Definition named (t : option string) (d : drain) : drain :=
  mkDrain (dr_id d) (dr_context d) (dr_task d) (dr_request_task d) t.

Definition stream_task (d : drain) : string := "stream-" +:+ dr_context d.

(** What a message makes of the turn: the frame, what is stored, and how the turn
    stands when the frame was sent. *)
Definition drain_message (d : drain) (m : chat_message) : drain * json * list json * option StreamCompletion :=
  let '(chunk, index, comp) := m in
  let wire := sr_wire chunk in
  let null := view_is_null wire in
  let d := if null then d else match view_task_id wire with Some t => named (Some t) d | None => d end in
  let store := if null then [] else [if (strip_marker wire).2 then (strip_marker wire).1 else wire] in
  if bool_decide (comp = Some InputRequired) && null then
    let tid := default (stream_task d) (dr_last d ∪ dr_task d) in
    (d, stream_chunk_response (dr_id d) (rewritten (synthetic_input_required_json tid (dr_context d))) index false, store, comp)
  else (d, frame (dr_id d) wire index (match comp with Some k => is_wire_final k | None => false end), store, comp).

(** The stream closed without a completion. *)
Definition drain_closed (d : drain) : json * json :=
  let tid := default (stream_task d) (dr_last d ∪ (dr_task d ∪ dr_request_task d)) in
  let wire := rewritten (rx_closed_completion_json tid (dr_context d)) in
  (wire, stream_chunk_response (dr_id d) wire 0 true).

(** The whole drain, for a client that stays: the frames, what is stored, the
    completion and the messages left for the next turn. *)
Fixpoint drain_turn (d : drain) (ms : list chat_message) : list json * list json * StreamCompletion * list chat_message :=
  match ms with
  | [] => let (wire, f) := drain_closed d in ([f], [wire], ChannelClosed, [])
  | m :: r =>
      let '(d, f, store, comp) := drain_message d m in
      match comp with
      | Some k => ([f], store, k, r)
      | None => let '(fs, ss, k, rest) := drain_turn d r in (f :: fs, store ++ ss, k, rest)
      end
  end.

Definition frame_final (f : json) : option bool := jpath ["result"; "final"] f ≫= as_bool.
Definition frame_index (f : json) : option Z :=
  match jpath ["result"; "index"] f with Some (JNum (NInt z)) => Some z | _ => None end.

Lemma frame_fields id w i b : frame_final (frame id w i b) = Some b /\ frame_index (frame id w i b) = Some (Z.of_nat i) /\
  jget "id" (frame id w i b) = Some (id_to_json id).
Proof. unfold frame. destruct (strip_marker w) as [chunk []]; done. Qed.

Lemma drain_message_frame d m d' f store comp :
  drain_message d m = (d', f, store, comp) ->
  dr_id d' = dr_id d /\ comp = m.2 /\ frame_index f = Some (Z.of_nat m.1.2) /\ jget "id" f = Some (id_to_json (dr_id d)) /\
  frame_final f = Some (match comp with Some k => is_wire_final k | None => false end).
Proof.
  destruct m as [[chunk i] k]. unfold drain_message. simpl.
  set (d1 := if view_is_null _ then _ else _).
  assert (dr_id d1 = dr_id d) as Hd by (unfold d1; repeat case_match; done).
  destruct (bool_decide (k = Some InputRequired) && view_is_null (sr_wire chunk)) eqn:E.
  - intros [= <- <- <- <-]. apply andb_prop in E as [Ek _]. apply bool_decide_eq_true in Ek as ->. rewrite Hd. done.
  - intros [= <- <- <- <-]. rewrite Hd. destruct (frame_fields (dr_id d) (sr_wire chunk) i (match k with Some k => is_wire_final k | None => false end)) as (A & B & C).
    done.
Qed.

(** What precedes the first completion, and that message. *)
Fixpoint until_completion (ms : list chat_message) : list chat_message :=
  match ms with
  | [] => []
  | m :: r => m :: match m.2 with Some _ => [] | None => until_completion r end
  end.

(** C18: The client of a turn gets one frame per message of the stream, in order, under
    the id of its own request and the number of the message, up to the first
    completion; only the last frame is final, and it is unless the task waits for
    input; a stream that breaks off is completed by the transport.  The messages
    after the completion are left to the turn that resumes. *)
Theorem turn_frames d ms :
  let '(fs, _, k, rest) := drain_turn d ms in
  let us := until_completion ms in
  let closed := forallb (fun m => bool_decide (m.2 = None)) us in
  ms = us ++ rest /\
  map frame_index fs = map (fun m => Some (Z.of_nat m.1.2)) us ++ (if closed then [Some 0] else []) /\
  Forall (fun f => jget "id" f = Some (id_to_json (dr_id d))) fs /\
  (exists init f, fs = init ++ [f] /\ Forall (fun f => frame_final f = Some false) init /\ frame_final f = Some (is_wire_final k)) /\
  (closed = true -> k = ChannelClosed).
Proof.
  revert d. induction ms as [|m ms IH]; intros d; simpl.
  - split_and!; try done; [by repeat constructor|]. exists [], (drain_closed d).2. done.
  - destruct (drain_message d m) as [[[d' f] store] comp] eqn:E.
    destruct (drain_message_frame _ _ _ _ _ _ E) as (Hid & Hc & Hi & Hj & Hf).
    destruct comp as [k|].
    + simpl. rewrite -Hc bool_decide_false //= Hi. split_and!; try done; [by repeat constructor|].
      exists [], f. done.
    + specialize (IH d'). destruct (drain_turn d' ms) as [[[fs ss] k] rest]. destruct IH as (A & B & C & (init & g & D1 & D2 & D3) & F).
      simpl. rewrite -Hc bool_decide_true //= Hi. split_and!; [by rewrite {1}A|by rewrite B| | |done].
      * constructor; [done|]. by rewrite -Hid.
      * exists (f :: init), g. rewrite D1. split_and!; try done. constructor; done.
Qed.
End View.
