(* ===== verification/LiveTurns.v ===== *)
(** * Live stream sessions

    [handle_live_message_stream] and [run_live_stream_session] of
    [baml-rt-a2a/src/a2a_transport.rs] with the session map of [live_stream.rs]:
    requests of many clients against the sessions of an agent.

    A handler and a session are tasks; each section under the lock of the map,
    each send or receive on a channel and each call of store, router or collector
    is one step, and steps of all tasks interleave.  What the store, the router
    and the collector answer is chosen by the environment; a client may go away at
    any time.  The answers of a turn are what its client has received, in
    [turns]; its channel is open while the sender of the turn is somewhere. *)

From stdpp Require Import base list strings gmap.
From Stdlib Require Import ZArith Lia ssreflect.
From S2P Require Import Prelude RustStr Json Ids Errors Interceptor A2aTypes StreamCollect A2aResponses ChatStream A2aRequests AutoStatus SemioticGate.

Open Scope string_scope.
Open Scope list_scope.

(** ** State *)

Record TurnInput := mkTurn { ti_request : json; ti_turn : nat }.

(** [turn_tx] leads to the session task of that number. *)
Record LiveStreamSession := mkLiveSession { ls_turn_tx : nat; ls_relay : bool; ls_in_flight : bool }.

(** Where a session task stands. *)
Inductive phase :=
| Waiting                                          (* [turn_rx.recv()] *)
| Resuming (t : TurnInput)                         (* dequeued, with a suspended stream *)
| Answering (t : TurnInput)                        (* its message is stored; before [resume_tx.send] *)
| Opening (t : TurnInput)                          (* dequeued, no stream: before the relay is made *)
| Missing (t : TurnInput)                          (* the session was not in the map *)
| Invoking (t : TurnInput)                         (* [handle_a2a_outcome_inner] *)
| Draining (t : TurnInput) (resumable : bool) (d : drain)
| Suspending (t : TurnInput) (resumable : bool)    (* before [in_flight] falls *)
| Freed (t : TurnInput)                            (* after it, before [response_tx] is dropped *)
| Clearing (t : TurnInput)                         (* after an error, before the relay is cleared *)
| Leaving                                          (* before the session is removed *)
| Gone.

Record session_task := mkTask_ {
  st_key : string;
  st_context : ContextId;
  st_spawned : bool;
  st_queue : list TurnInput;
  st_phase : phase;
  st_task : option TaskId;          (* [session_task_id] *)
  st_suspended : bool               (* [suspended] holds a stream *)
}.

(** Where a handler stands. *)
Inductive handler :=
| HArrived (request : json) (parsed : A2aRequest)
| HSend (tx : nat) (key : string) (t : TurnInput) (spawn : bool)
| HSpawn (tx : nat) (t : TurnInput)
| HUnmark (key : string)
| HOpened (t : TurnInput)
| HRefused (e : BamlRtError).

Record turn_log := mkLog { tl_frames : list json; tl_open : bool; tl_client : bool }.

Record live := mkLive {
  lv_sessions : gmap string LiveStreamSession;
  lv_tasks : list session_task;
  lv_handlers : list handler;
  lv_turns : list turn_log;
  lv_gate : GateState
}.

Definition live_start (g : GateState) : live := mkLive ∅ [] [] [] g.

Definition set_phase (t : session_task) (p : phase) : session_task :=
  mkTask_ (st_key t) (st_context t) (st_spawned t) (st_queue t) p (st_task t) (st_suspended t).
Definition set_queue (t : session_task) (q : list TurnInput) : session_task :=
  mkTask_ (st_key t) (st_context t) (st_spawned t) q (st_phase t) (st_task t) (st_suspended t).
Definition set_spawned (t : session_task) : session_task :=
  mkTask_ (st_key t) (st_context t) true (st_queue t) (st_phase t) (st_task t) (st_suspended t).
Definition set_suspended (t : session_task) (b : bool) : session_task :=
  mkTask_ (st_key t) (st_context t) (st_spawned t) (st_queue t) (st_phase t) (st_task t) b.
Definition set_task_id (t : session_task) (id : option TaskId) : session_task :=
  mkTask_ (st_key t) (st_context t) (st_spawned t) (st_queue t) (st_phase t) id (st_suspended t).

Definition set_flight (l : LiveStreamSession) (b : bool) : LiveStreamSession := mkLiveSession (ls_turn_tx l) (ls_relay l) b.
Definition set_relay (l : LiveStreamSession) (b : bool) : LiveStreamSession := mkLiveSession (ls_turn_tx l) b (ls_in_flight l).

Definition with_task (s : live) (i : nat) (t : session_task) : live :=
  mkLive (lv_sessions s) (<[i := t]> (lv_tasks s)) (lv_handlers s) (lv_turns s) (lv_gate s).
Definition with_handler (s : live) (j : nat) (h : handler) : live :=
  mkLive (lv_sessions s) (lv_tasks s) (<[j := h]> (lv_handlers s)) (lv_turns s) (lv_gate s).
Definition with_sessions (s : live) (m : gmap string LiveStreamSession) : live :=
  mkLive m (lv_tasks s) (lv_handlers s) (lv_turns s) (lv_gate s).
Definition with_turns (s : live) (ts : list turn_log) : live :=
  mkLive (lv_sessions s) (lv_tasks s) (lv_handlers s) ts (lv_gate s).
Definition with_gate (s : live) (g : GateState) : live :=
  mkLive (lv_sessions s) (lv_tasks s) (lv_handlers s) (lv_turns s) g.

(** [response_tx.send]: [false] when the client is gone. *)
Definition reply (t : TurnInput) (f : json) (s : live) : live * bool :=
  match lv_turns s !! ti_turn t with
  | Some l => if tl_client l then (with_turns s (<[ti_turn t := mkLog (tl_frames l ++ [f]) (tl_open l) true]> (lv_turns s)), true)
              else (s, false)
  | None => (s, false)
  end.

(** [response_tx] is dropped. *)
Definition hang_up (t : TurnInput) (s : live) : live :=
  match lv_turns s !! ti_turn t with
  | Some l => with_turns s (<[ti_turn t := mkLog (tl_frames l) false (tl_client l)]> (lv_turns s))
  | None => s
  end.

Definition conflict (context_id : ContextId) (key : string) : BamlRtError :=
  Conflict ("Concurrent message.sendStream rejected for context " +:+ context_id +:+ " (session key " +:+ key +:+ ")").

(** ** A request arrives *)

(** The section under the lock: which session takes the turn, or that none does. *)
Inductive admission :=
| Attach (key : string) (l : LiveStreamSession)
| Refuse (e : BamlRtError)
| Create (key : string).

Definition admit_turn (m : gmap string LiveStreamSession) (parsed : A2aRequest) : admission :=
  let context_id := rs_context_id (ar_scope parsed) in
  let task_id := rs_task_id_opt (ar_scope parsed) in
  let requested := session_key context_id task_id in
  let context_key := session_key_of_context context_id in
  let attach key l := if ls_in_flight l then Refuse (conflict context_id key) else Attach key l in
  match m !! requested with
  | Some l => attach requested l
  | None =>
      match task_id, m !! context_key with
      | Some _, Some l => attach context_key l
      | _, _ => Create requested
      end
  end.

Definition has_in_flight_live_stream (m : gmap string LiveStreamSession) (context_id : ContextId) (task_id : option TaskId) : bool :=
  let flying key := match m !! key with Some l => ls_in_flight l | None => false end in
  flying (session_key context_id task_id) || (is_some task_id && flying (session_key_of_context context_id)).

Definition has_any_in_flight_live_stream (m : gmap string LiveStreamSession) : bool :=
  existsb (fun kv => ls_in_flight (snd kv)) (map_to_list m).

Section Live.
Context (parse : json -> option A2aRequest) (request_id : json -> option JSONRPCId).
Context (parse_text : string -> option json) (sr_of : json -> option StreamResponse) (sr_wire : StreamResponse -> json).
Context (show : BamlRtError -> string) (tool_error_json : ClassifiedToolError -> json) (agent : AgentId).

Notation error_frame r e := (format_error show tool_error_json r e).

(** *** The turn of a session *)

(** [invocation_ctx] and the task the turn is resolved to. *)
Definition turn_context (t : session_task) : OutcomeInvocationContext :=
  match st_task t with
  | None => LiveSessionFirstTurn (st_context t)
  | Some task_id => LiveSessionResume (st_context t) task_id
  end.

Definition request_task (request : json) : option TaskId := parse request ≫= fun p => rs_task_id_opt (ar_scope p).

Definition first_drain (t : session_task) (u : TurnInput) : drain :=
  mkDrain (request_id (ti_request u)) (st_context t)
    (parse (ti_request u) ≫= fun p => rs_task_id_opt (resolve_scope_for_outcome p (turn_context t))) (request_task (ti_request u)) None.

Definition resume_drain (t : session_task) (u : TurnInput) : drain :=
  mkDrain (request_id (ti_request u)) (st_context t) (st_task t ∪ request_task (ti_request u)) (request_task (ti_request u)) None.

(** The answer to a pending approval that a resumed turn brings. *)
Definition resume_answer (request : json) : string := default "approve" (parse request ≫= resume_user_message_text).

Definition answer_gate (t : session_task) (request : json) (g : GateState) : GateState :=
  match st_task t with
  | Some task_id => (resolve_on_resume (TaskScope (st_context t) agent "gate-auth-resume" task_id) (resume_answer request) g).1
  | None => g
  end.

(** The end of a drain: what the session remembers, and where it goes. *)
Definition drained (t : session_task) (u : TurnInput) (resumable : bool) (d : drain) (completion : StreamCompletion) : session_task :=
  let t := set_task_id t (dr_last d ∪ dr_task d) in
  set_phase t (match completion with InputRequired => Suspending u resumable | _ => Leaving end).

Inductive step : live -> live -> Prop :=
(* Handlers. *)
| step_arrive s request parsed :
    step s (mkLive (lv_sessions s) (lv_tasks s) (lv_handlers s ++ [HArrived request parsed]) (lv_turns s) (lv_gate s))
| step_refused s j request parsed e :
    lv_handlers s !! j = Some (HArrived request parsed) -> admit_turn (lv_sessions s) parsed = Refuse e ->
    step s (with_handler s j (HRefused e))
| step_attach s j request parsed key l :
    lv_handlers s !! j = Some (HArrived request parsed) -> admit_turn (lv_sessions s) parsed = Attach key l ->
    step s (mkLive (<[key := set_flight l true]> (lv_sessions s)) (lv_tasks s)
              (<[j := HSend (ls_turn_tx l) key (mkTurn request (length (lv_turns s))) false]> (lv_handlers s))
              (lv_turns s ++ [mkLog [] true true]) (lv_gate s))
| step_create s j request parsed key :
    lv_handlers s !! j = Some (HArrived request parsed) -> admit_turn (lv_sessions s) parsed = Create key ->
    step s (mkLive (<[key := mkLiveSession (length (lv_tasks s)) false true]> (lv_sessions s))
              (lv_tasks s ++ [mkTask_ key (rs_context_id (ar_scope parsed)) false [] Waiting None false])
              (<[j := HSend (length (lv_tasks s)) key (mkTurn request (length (lv_turns s))) true]> (lv_handlers s))
              (lv_turns s ++ [mkLog [] true true]) (lv_gate s))
| step_send s j tx key u spawn t :
    lv_handlers s !! j = Some (HSend tx key u spawn) -> lv_tasks s !! tx = Some t -> st_phase t <> Gone ->
    step s (with_task (with_handler s j (if spawn then HSpawn tx u else HOpened u)) tx (set_queue t (st_queue t ++ [u])))
| step_send_closed s j tx key u spawn t :
    lv_handlers s !! j = Some (HSend tx key u spawn) -> lv_tasks s !! tx = Some t -> st_phase t = Gone ->
    step s (hang_up u (with_handler s j (HUnmark key)))
| step_unmark s j key :
    lv_handlers s !! j = Some (HUnmark key) ->
    step s (with_handler (with_sessions s (alter (fun l => set_flight l false) key (lv_sessions s))) j
              (HRefused (InvalidArgument "Active stream session closed before input injection")))
| step_spawn s j tx u t :
    lv_handlers s !! j = Some (HSpawn tx u) -> lv_tasks s !! tx = Some t ->
    step s (with_task (with_handler s j (HOpened u)) tx (set_spawned t))
(* A turn is taken. *)
| step_recv s i t u q :
    lv_tasks s !! i = Some t -> st_spawned t = true -> st_phase t = Waiting -> st_queue t = u :: q ->
    step s (with_task s i (set_phase (set_suspended (set_queue t q) false) (if st_suspended t then Resuming u else Opening u)))
(* It resumes a stream. *)
| step_persist_failed s i t u e :
    lv_tasks s !! i = Some t -> st_phase t = Resuming u ->
    step s (with_task (hang_up u (reply u (error_frame (request_id (ti_request u)) e) s).1) i (set_phase t Leaving))
| step_persisted s i t u :
    lv_tasks s !! i = Some t -> st_phase t = Resuming u ->
    step s (with_task (with_gate s (answer_gate t (ti_request u) (lv_gate s))) i (set_phase t (Answering u)))
| step_collector_dropped s i t u :
    lv_tasks s !! i = Some t -> st_phase t = Answering u ->
    step s (with_task (hang_up u s) i (set_phase t Leaving))
| step_resumed s i t u :
    lv_tasks s !! i = Some t -> st_phase t = Answering u ->
    step s (with_task s i (set_phase t (Draining u true (resume_drain t u))))
(* Or it starts one. *)
| step_relay s i t u l :
    lv_tasks s !! i = Some t -> st_phase t = Opening u -> lv_sessions s !! st_key t = Some l ->
    step s (with_task (with_sessions s (<[st_key t := set_relay l true]> (lv_sessions s))) i (set_phase t (Invoking u)))
| step_missing s i t u :
    lv_tasks s !! i = Some t -> st_phase t = Opening u -> lv_sessions s !! st_key t = None ->
    step s (with_task s i (set_phase t (Missing u)))
| step_missing_told s i t u :
    lv_tasks s !! i = Some t -> st_phase t = Missing u ->
    step s (with_task (hang_up u (reply u (error_frame (request_id (ti_request u)) (InvalidArgument "live session missing")) s).1) i (set_phase t Leaving))
| step_invoke_failed s i t u e :
    lv_tasks s !! i = Some t -> st_phase t = Invoking u ->
    step s (with_task (reply u (error_frame (request_id (ti_request u)) e) s).1 i (set_phase t (Clearing u)))
| step_invoke_response s i t u v :
    lv_tasks s !! i = Some t -> st_phase t = Invoking u ->
    step s (with_task (hang_up u (reply u (success_response (request_id (ti_request u)) v) s).1) i (set_phase t Leaving))
| step_invoke_stream s i t u resumable :
    lv_tasks s !! i = Some t -> st_phase t = Invoking u ->
    step s (with_task s i (set_phase t (Draining u resumable (first_drain t u))))
| step_cleared s i t u :
    lv_tasks s !! i = Some t -> st_phase t = Clearing u ->
    step s (with_task (hang_up u (with_sessions s (alter (fun l => set_relay l false) (st_key t) (lv_sessions s)))) i (set_phase t Leaving))
(* A message of the stream, the client there or gone. *)
| step_message s i t u resumable d m d' f store comp s' :
    lv_tasks s !! i = Some t -> st_phase t = Draining u resumable d ->
    drain_message parse_text sr_of sr_wire d m = (d', f, store, comp) -> reply u f s = (s', true) ->
    step s (match comp with
            | None => with_task s' i (set_phase t (Draining u resumable d'))
            | Some InputRequired => with_task s' i (drained t u resumable d' InputRequired)
            | Some k => with_task (hang_up u s') i (drained t u resumable d' k)
            end)
| step_client_lost s i t u resumable d m d' f store comp :
    lv_tasks s !! i = Some t -> st_phase t = Draining u resumable d ->
    drain_message parse_text sr_of sr_wire d m = (d', f, store, comp) -> reply u f s = (s, false) ->
    step s (with_task (hang_up u s) i (drained t u resumable d' ChannelClosed))
| step_stream_closed s i t u resumable d :
    lv_tasks s !! i = Some t -> st_phase t = Draining u resumable d ->
    step s (with_task (hang_up u (reply u (drain_closed sr_of sr_wire d).2 s).1) i (drained t u resumable d ChannelClosed))
(* The end of a turn, and of the session. *)
| step_suspend s i t u resumable :
    lv_tasks s !! i = Some t -> st_phase t = Suspending u resumable ->
    step s (with_task (with_sessions s (alter (fun l => set_flight (set_relay l false) false) (st_key t) (lv_sessions s))) i
              (set_phase (set_suspended t resumable) (Freed u)))
| step_freed s i t u :
    lv_tasks s !! i = Some t -> st_phase t = Freed u ->
    step s (with_task (hang_up u s) i (set_phase t Waiting))
| step_leave s i t :
    lv_tasks s !! i = Some t -> st_phase t = Leaving ->
    step s (with_task (with_sessions s (delete (st_key t) (lv_sessions s))) i (set_phase t Gone))
(* A client goes away. *)
| step_client_gone s n l :
    lv_turns s !! n = Some l ->
    step s (with_turns s (<[n := mkLog (tl_frames l) (tl_open l) false]> (lv_turns s))).

Inductive reachable (g : GateState) : live -> Prop :=
| reach_start : reachable g (live_start g)
| reach_step s s' : reachable g s -> step s s' -> reachable g s'.
End Live.

(** ** Counting *)

Lemma sum_insert {A} (f : A -> nat) (l : list A) i x y :
  l !! i = Some x -> (sum_list_with f (<[i := y]> l) + f x = sum_list_with f l + f y)%nat.
Proof.
  revert i. induction l as [|z l IH]; intros [|i] E; simpl in *; simplify_eq; [lia|].
  specialize (IH i E). lia.
Qed.

Lemma sum_app1 {A} (f : A -> nat) (l : list A) x : sum_list_with f (l ++ [x]) = (sum_list_with f l + f x)%nat.
Proof. rewrite sum_list_with_app. simpl. lia. Qed.

Lemma sum_member {A} (f : A -> nat) (l : list A) i x : l !! i = Some x -> (f x <= sum_list_with f l)%nat.
Proof. revert i. induction l as [|z l IH]; intros [|i] E; simpl in *; simplify_eq; [lia|]. specialize (IH i E). lia. Qed.

Lemma sum_zero {A} (f : A -> nat) (l : list A) : (forall x, x ∈ l -> f x = 0%nat) -> sum_list_with f l = 0%nat.
Proof. induction l as [|z l IH]; intros H; simpl; [done|]. rewrite H; [set_solver|]. apply IH. set_solver. Qed.

Notation b2n b := (Nat.b2n b).

Definition sends (i : nat) (h : handler) : nat := match h with HSend tx _ _ _ => b2n (tx =? i)%nat | _ => 0%nat end.
Definition spawns (i : nat) (h : handler) : nat :=
  match h with HSend tx _ _ true | HSpawn tx _ => b2n (tx =? i)%nat | _ => 0%nat end.
Definition carries (n : nat) (h : handler) : nat := match h with HSend _ _ u _ => b2n (ti_turn u =? n)%nat | _ => 0%nat end.

Definition busy (p : phase) : nat := match p with Waiting | Freed _ | Gone => 0%nat | _ => 1%nat end.

Definition phase_turn (p : phase) : option nat :=
  match p with
  | Resuming u | Answering u | Opening u | Missing u | Invoking u | Draining u _ _ | Suspending u _ | Freed u | Clearing u => Some (ti_turn u)
  | Waiting | Leaving | Gone => None
  end.

Definition queued (n : nat) (q : list TurnInput) : nat := sum_list_with (fun u => b2n (ti_turn u =? n)%nat) q.
Definition serves_turn (n : nat) (p : phase) : nat := match phase_turn p with Some m => b2n (m =? n)%nat | None => 0%nat end.
Definition keeps (n : nat) (t : session_task) : nat := (queued n (st_queue t) + serves_turn n (st_phase t))%nat.

(** The turns that wait for or occupy a session. *)
Definition load (hs : list handler) (i : nat) (t : session_task) : nat :=
  (sum_list_with (sends i) hs + length (st_queue t) + busy (st_phase t))%nat.

(** How often a turn is under way. *)
Definition under_way (s : live) (n : nat) : nat :=
  (sum_list_with (carries n) (lv_handlers s) + sum_list_with (keeps n) (lv_tasks s))%nat.

Definition opens (ts : list turn_log) (n : nat) : nat := match ts !! n with Some l => b2n (tl_open l) | None => 0%nat end.

Lemma opens_reply u f s n : opens (lv_turns (reply u f s).1) n = opens (lv_turns s) n.
Proof.
  unfold reply. destruct (lv_turns s !! ti_turn u) as [l|] eqn:E; [|done]. destruct (tl_client l); [|done]. simpl.
  unfold opens. destruct (decide (n = ti_turn u)) as [->|Hn].
  - rewrite list_lookup_insert_eq ?E //. eapply lookup_lt_Some; eassumption.
  - rewrite list_lookup_insert_ne; [congruence|done].
Qed.

Lemma opens_hang_up u s n : opens (lv_turns (hang_up u s)) n = if (ti_turn u =? n)%nat then 0%nat else opens (lv_turns s) n.
Proof.
  unfold hang_up, opens. destruct (Nat.eqb_spec (ti_turn u) n) as [<-|Hn].
  - destruct (lv_turns s !! ti_turn u) as [l|] eqn:E; simpl; [|by rewrite E].
    rewrite list_lookup_insert_eq //. exact (lookup_lt_Some _ _ _ E).
  - destruct (lv_turns s !! ti_turn u) as [l|] eqn:E; simpl; [|done].
    rewrite list_lookup_insert_ne; [congruence|done].
Qed.

Lemma opens_app ts n : opens (ts ++ [mkLog [] true true]) n = (opens ts n + b2n (length ts =? n))%nat.
Proof.
  unfold opens. destruct (decide (n < length ts)%nat) as [Hl|Hl].
  - rewrite lookup_app_l //. replace (length ts =? n)%nat with false by (symmetry; apply Nat.eqb_neq; lia). simpl. lia.
  - rewrite (lookup_ge_None_2 ts); [lia|]. rewrite lookup_app_r; [lia|].
    destruct (Nat.eqb_spec (length ts) n) as [<-|]; [by rewrite Nat.sub_diag|].
    rewrite lookup_ge_None_2 //=. lia.
Qed.

(** ** The invariant *)

Definition refused_well (h : handler) : Prop :=
  match h with
  | HUnmark _ => False
  | HRefused e => exists c k, e = conflict c k
  | _ => True
  end.

Definition flight (l : LiveStreamSession) : nat * bool := (ls_turn_tx l, ls_in_flight l).

Record Inv (s : live) : Prop := mkInv {
  inv_map : forall k l, lv_sessions s !! k = Some l ->
    exists t, lv_tasks s !! ls_turn_tx l = Some t /\ st_key t = k /\ st_phase t <> Gone;
  inv_alive : forall i t, lv_tasks s !! i = Some t -> st_phase t <> Gone ->
    exists l, lv_sessions s !! st_key t = Some l /\ flight l = (i, negb (load (lv_handlers s) i t =? 0)%nat) /\ (load (lv_handlers s) i t <= 1)%nat;
  inv_gone : forall i t, lv_tasks s !! i = Some t -> st_phase t = Gone -> load (lv_handlers s) i t = 0%nat;
  inv_spawn : forall i t, lv_tasks s !! i = Some t ->
    sum_list_with (spawns i) (lv_handlers s) = b2n (negb (st_spawned t)) /\ (st_spawned t = false -> st_phase t = Waiting);
  inv_range : forall i, (length (lv_tasks s) <= i)%nat -> sum_list_with (sends i) (lv_handlers s) = 0%nat /\ sum_list_with (spawns i) (lv_handlers s) = 0%nat;
  inv_refused : forall j h, lv_handlers s !! j = Some h -> refused_well h;
  inv_turns : forall n, under_way s n = opens (lv_turns s) n;
  inv_present : forall i t u, lv_tasks s !! i = Some t -> st_phase t <> Missing u
}.

Lemma inv_at_start g : Inv (live_start g).
Proof. constructor; simpl; try done. Qed.

Lemma keys_unique s i t j t' :
  Inv s -> lv_tasks s !! i = Some t -> lv_tasks s !! j = Some t' -> st_phase t <> Gone -> st_phase t' <> Gone ->
  st_key t = st_key t' -> i = j.
Proof.
  intros H Hi Hj Pi Pj E. destruct (inv_alive s H i t Hi Pi) as (l & E1 & F1 & _).
  destruct (inv_alive s H j t' Hj Pj) as (l' & E2 & F2 & _). rewrite E in E1. rewrite E1 in E2. injection E2 as <-.
  unfold flight in *. congruence.
Qed.

(** A step of session [i] that leaves its load and, up to the relays, the map. *)
Lemma inv_session_step s i t t' m ts g :
  Inv s -> lv_tasks s !! i = Some t ->
  st_key t' = st_key t -> st_spawned t' = st_spawned t -> (st_spawned t = true \/ st_phase t' = Waiting) ->
  st_phase t <> Gone -> st_phase t' <> Gone -> (forall u, st_phase t' <> Missing u) ->
  (length (st_queue t') + busy (st_phase t') = length (st_queue t) + busy (st_phase t))%nat ->
  (forall k, flight <$> m !! k = flight <$> lv_sessions s !! k) ->
  (forall n, keeps n t' + opens (lv_turns s) n = keeps n t + opens ts n)%nat ->
  Inv (mkLive m (<[i := t']> (lv_tasks s)) (lv_handlers s) ts g).
Proof.
  intros H Hi Hk Hsp Hw Pg Pg' Pm Hload Hm Hts.
  assert (forall k l, m !! k = Some l -> exists l0, lv_sessions s !! k = Some l0 /\ flight l0 = flight l) as Hm1.
  { intros k l E. specialize (Hm k). rewrite E in Hm. destruct (lv_sessions s !! k) as [l0|]; [|done]. simpl in Hm. exists l0. split; [done|congruence]. }
  assert (forall k l, lv_sessions s !! k = Some l -> exists l0, m !! k = Some l0 /\ flight l0 = flight l) as Hm2.
  { intros k l E. specialize (Hm k). rewrite E in Hm. destruct (m !! k) as [l0|]; [|done]. simpl in Hm. exists l0. split; [done|congruence]. }
  constructor; simpl.
  - intros k l E. destruct (Hm1 _ _ E) as (l0 & E0 & F0). destruct (inv_map s H _ _ E0) as (t0 & T0 & K0 & P0).
    assert (ls_turn_tx l = ls_turn_tx l0) as Ex by (unfold flight in F0; congruence). rewrite Ex.
    destruct (decide (ls_turn_tx l0 = i)) as [Ei|Hn].
    + rewrite Ei list_lookup_insert_eq; [eapply lookup_lt_Some; eassumption|]. exists t'. split_and!; [done| |done]. congruence.
    + rewrite list_lookup_insert_ne; [congruence|]. by exists t0.
  - intros j u E Pu. destruct (decide (j = i)) as [->|Hn].
    + rewrite list_lookup_insert_eq in E; [eapply lookup_lt_Some; eassumption|]. injection E as <-.
      destruct (inv_alive s H i t Hi Pg) as (l & E & F & L). destruct (Hm2 _ _ E) as (l0 & E0 & F0).
      unfold load in *. exists l0. rewrite Hk F0 F.
      replace (sum_list_with (sends i) (lv_handlers s) + length (st_queue t') + busy (st_phase t'))%nat
        with (sum_list_with (sends i) (lv_handlers s) + length (st_queue t) + busy (st_phase t))%nat by lia. done.
    + rewrite list_lookup_insert_ne in E; [congruence|]. destruct (inv_alive s H j u E Pu) as (l & E1 & F & L).
      destruct (Hm2 _ _ E1) as (l0 & E0 & F0). exists l0. by rewrite F0.
  - intros j u E Pu. destruct (decide (j = i)) as [->|Hn].
    + rewrite list_lookup_insert_eq in E; [eapply lookup_lt_Some; eassumption|]. by injection E as <-.
    + rewrite list_lookup_insert_ne in E; [congruence|]. by apply (inv_gone s H).
  - intros j u E. destruct (decide (j = i)) as [->|Hn].
    + rewrite list_lookup_insert_eq in E; [eapply lookup_lt_Some; eassumption|]. injection E as <-. rewrite Hsp.
      destruct (inv_spawn s H i t Hi) as [A _]. split; [done|]. intros E. destruct Hw as [Hw|Hw]; [congruence|done].
    + rewrite list_lookup_insert_ne in E; [congruence|]. by apply (inv_spawn s H).
  - intros j. rewrite length_insert. apply (inv_range s H).
  - apply (inv_refused s H).
  - intros n. unfold under_way. simpl. pose proof (sum_insert (keeps n) _ i t t' Hi).
    pose proof (inv_turns s H n) as Hn. unfold under_way in Hn. specialize (Hts n). lia.
  - intros j u v E. destruct (decide (j = i)) as [->|Hn].
    + rewrite list_lookup_insert_eq in E; [eapply lookup_lt_Some; eassumption|]. by injection E as <-.
    + rewrite list_lookup_insert_ne in E; [congruence|]. by apply (inv_present s H j).
Qed.

Lemma opens_le ts n : (opens ts n <= 1)%nat.
Proof. unfold opens. destruct (ts !! n) as [l|]; [|lia]. by destruct (tl_open l); simpl; lia. Qed.

Lemma keeps_phase n t p : keeps n (set_phase t p) = (queued n (st_queue t) + serves_turn n p)%nat.
Proof. done. Qed.

(** The turn of a session ends, and with it the channel to its client. *)
Lemma turn_released s s' i t u p :
  Inv s -> lv_tasks s !! i = Some t -> phase_turn (st_phase t) = Some (ti_turn u) -> phase_turn p = None ->
  (forall n, opens (lv_turns s') n = opens (lv_turns s) n) ->
  forall n, (keeps n (set_phase t p) + opens (lv_turns s) n = keeps n t + opens (lv_turns (hang_up u s')) n)%nat.
Proof.
  intros H Hi Hp Hp' Hs n. rewrite keeps_phase opens_hang_up Hs. unfold serves_turn at 1. rewrite Hp'.
  unfold keeps, serves_turn. rewrite Hp. destruct (Nat.eqb_spec (ti_turn u) n) as [<-|Hn]; simpl; [|lia].
  pose proof (inv_turns s H (ti_turn u)) as Hu. unfold under_way in Hu.
  pose proof (sum_member (keeps (ti_turn u)) _ _ _ Hi) as Hm.
  pose proof (opens_le (lv_turns s) (ti_turn u)).
  assert (1 <= keeps (ti_turn u) t)%nat by (unfold keeps, serves_turn; rewrite Hp Nat.eqb_refl; simpl; lia). lia.
Qed.

Lemma spawned_unless_waiting s i t : Inv s -> lv_tasks s !! i = Some t -> st_phase t <> Waiting -> st_spawned t = true.
Proof. intros H Hi Hp. destruct (inv_spawn s H i t Hi) as [_ Hw]. destruct (st_spawned t); [done|]. by destruct (Hp (Hw eq_refl)). Qed.

(** The session goes on to another phase that occupies it. *)
Lemma inv_phase s i t p m ts g :
  Inv s -> lv_tasks s !! i = Some t -> busy (st_phase t) = 1%nat -> busy p = 1%nat -> (forall u, p <> Missing u) ->
  (forall k, flight <$> m !! k = flight <$> lv_sessions s !! k) ->
  forall t', t' = set_phase t p \/ (exists id, t' = set_phase (set_task_id t id) p) ->
  (forall n, keeps n (set_phase t p) + opens (lv_turns s) n = keeps n t + opens ts n)%nat ->
  Inv (mkLive m (<[i := t']> (lv_tasks s)) (lv_handlers s) ts g).
Proof.
  intros H Hi Hb Hb' Hp Hm t' Ht Hk.
  assert (st_spawned t = true) as Hs by (apply (spawned_unless_waiting s i t H Hi); intros E; by rewrite E in Hb).
  assert (st_phase t <> Gone) as Hg by (intros E; by rewrite E in Hb).
  assert (p <> Gone) as Hg' by (intros E; by rewrite E in Hb').
  destruct Ht as [->|[id ->]]; apply (inv_session_step s i t); simpl; auto; lia.
Qed.

Lemma flight_relay (m : gmap string LiveStreamSession) key b k : flight <$> alter (fun l => set_relay l b) key m !! k = flight <$> m !! k.
Proof. destruct (decide (key = k)) as [->|Hn]; [rewrite lookup_alter_eq; by destruct (m !! k)|by rewrite lookup_alter_ne]. Qed.

(** The turn of a session is over. *)
Lemma inv_end s s' i t u p m g :
  Inv s -> lv_tasks s !! i = Some t -> phase_turn (st_phase t) = Some (ti_turn u) -> busy (st_phase t) = 1%nat ->
  phase_turn p = None -> busy p = 1%nat ->
  (forall n, opens (lv_turns s') n = opens (lv_turns s) n) ->
  (forall k, flight <$> m !! k = flight <$> lv_sessions s !! k) ->
  forall t', t' = set_phase t p \/ (exists id, t' = set_phase (set_task_id t id) p) ->
  Inv (mkLive m (<[i := t']> (lv_tasks s)) (lv_handlers s) (lv_turns (hang_up u s')) g).
Proof.
  intros H Hi Ht Hb Hp Hb' Ho Hm t' Ht'. apply (inv_phase s i t p); try done.
  - by intros v ->.
  - by apply (turn_released s s' i).
Qed.

(** The session goes on with the same turn. *)
Lemma inv_on s i t p m ts g :
  Inv s -> lv_tasks s !! i = Some t -> busy (st_phase t) = 1%nat -> phase_turn p = phase_turn (st_phase t) -> busy p = 1%nat ->
  (forall u, p <> Missing u) ->
  (forall n, opens ts n = opens (lv_turns s) n) ->
  (forall k, flight <$> m !! k = flight <$> lv_sessions s !! k) ->
  forall t', t' = set_phase t p \/ (exists id, t' = set_phase (set_task_id t id) p) ->
  Inv (mkLive m (<[i := t']> (lv_tasks s)) (lv_handlers s) ts g).
Proof.
  intros H Hi Hb Hp Hb' Hm' Ho Hm t' Ht'. apply (inv_phase s i t p); try done.
  intros n. rewrite Ho keeps_phase. unfold keeps, serves_turn. rewrite Hp. lia.
Qed.

Lemma reply_parts u f s s' b : reply u f s = (s', b) ->
  lv_sessions s' = lv_sessions s /\ lv_tasks s' = lv_tasks s /\ lv_handlers s' = lv_handlers s /\ lv_gate s' = lv_gate s /\
  forall n, opens (lv_turns s') n = opens (lv_turns s) n.
Proof.
  intros E. split_and!; try (intros n; by rewrite -(opens_reply u f s n) E);
    revert E; unfold reply; repeat case_match; by intros [= <- <-].
Qed.

Lemma hang_up_parts u s : lv_sessions (hang_up u s) = lv_sessions s /\ lv_tasks (hang_up u s) = lv_tasks s /\
  lv_handlers (hang_up u s) = lv_handlers s /\ lv_gate (hang_up u s) = lv_gate s.
Proof. unfold hang_up. by case_match. Qed.

(** The parts of a state after a reply and the end of a turn. *)
Lemma hung_up s s' u i t' :
  lv_sessions s' = lv_sessions s -> lv_tasks s' = lv_tasks s -> lv_handlers s' = lv_handlers s ->
  with_task (hang_up u s') i t' = mkLive (lv_sessions s) (<[i := t']> (lv_tasks s)) (lv_handlers s) (lv_turns (hang_up u s')) (lv_gate s').
Proof. intros E1 E2 E3. unfold with_task. destruct (hang_up_parts u s') as (-> & -> & -> & ->). by rewrite E1 E2 E3. Qed.

Lemma inv_told s u f i t p :
  Inv s -> lv_tasks s !! i = Some t -> phase_turn (st_phase t) = Some (ti_turn u) -> busy (st_phase t) = 1%nat ->
  phase_turn p = None -> busy p = 1%nat ->
  forall t', t' = set_phase t p \/ (exists id, t' = set_phase (set_task_id t id) p) ->
  Inv (with_task (hang_up u (reply u f s).1) i t').
Proof.
  intros H Hi Hu Hb Hp Hb' t' Ht'. destruct (reply u f s) as [s' b] eqn:E.
  destruct (reply_parts _ _ _ _ _ E) as (E1 & E2 & E3 & E4 & E5). simpl.
  rewrite (hung_up s s') //. by apply (inv_end s s' i t u p).
Qed.

(** *** Handlers *)

Lemma admit_attach m parsed key l : admit_turn m parsed = Attach key l -> m !! key = Some l /\ ls_in_flight l = false.
Proof. unfold admit_turn. repeat case_match; intros [= <- <-]; done. Qed.

Lemma admit_create m parsed key : admit_turn m parsed = Create key -> m !! key = None.
Proof. unfold admit_turn. repeat case_match; intros [= <-]; done. Qed.

Lemma admit_refuse m parsed e : admit_turn m parsed = Refuse e ->
  (exists c k, e = conflict c k) /\ exists k l, m !! k = Some l /\ ls_in_flight l = true.
Proof. unfold admit_turn. repeat case_match; intros [= <-]; split; eauto. Qed.

Definition idle_handler (h : handler) : Prop := match h with HArrived _ _ | HOpened _ | HRefused _ => True | _ => False end.

Lemma idle_counts h : idle_handler h -> (forall i, sends i h = 0%nat) /\ (forall i, spawns i h = 0%nat) /\ (forall n, carries n h = 0%nat).
Proof. by destruct h. Qed.

(** The handlers count the same. *)
Lemma inv_handlers s hs :
  Inv s ->
  (forall i, sum_list_with (sends i) hs = sum_list_with (sends i) (lv_handlers s)) ->
  (forall i, sum_list_with (spawns i) hs = sum_list_with (spawns i) (lv_handlers s)) ->
  (forall n, sum_list_with (carries n) hs = sum_list_with (carries n) (lv_handlers s)) ->
  (forall j h, hs !! j = Some h -> refused_well h) ->
  Inv (mkLive (lv_sessions s) (lv_tasks s) hs (lv_turns s) (lv_gate s)).
Proof.
  intros H H1 H2 H3 H4. constructor; simpl; try apply H; try done.
  - intros i t Hi Hp. destruct (inv_alive s H i t Hi Hp) as (l & A & B & C). exists l. unfold load in *. by rewrite H1.
  - intros i t Hi Hp. unfold load. rewrite H1. by apply (inv_gone s H).
  - intros i t Hi. rewrite H2. by apply (inv_spawn s H).
  - intros i Hi. rewrite H1 H2. by apply (inv_range s H).
  - intros n. unfold under_way. simpl. rewrite H3. apply (inv_turns s H).
Qed.

Lemma inv_arrive s request parsed :
  Inv s -> Inv (mkLive (lv_sessions s) (lv_tasks s) (lv_handlers s ++ [HArrived request parsed]) (lv_turns s) (lv_gate s)).
Proof.
  intros H. apply inv_handlers; try done; try (intros i; rewrite sum_app1; simpl; lia).
  intros j h. rewrite lookup_app_Some. intros [E|[_ E]]; [by apply (inv_refused s H j)|].
  by apply list_lookup_singleton_Some in E as [_ <-].
Qed.

Lemma inv_swap s j h h' : Inv s -> lv_handlers s !! j = Some h -> idle_handler h -> idle_handler h' -> refused_well h' ->
  Inv (with_handler s j h').
Proof.
  intros H Hj I I' W. destruct (idle_counts h I) as (A & B & C). destruct (idle_counts h' I') as (A' & B' & C').
  apply inv_handlers; try done.
  - intros i. pose proof (sum_insert (sends i) _ j h h' Hj) as E. rewrite A A' in E. lia.
  - intros i. pose proof (sum_insert (spawns i) _ j h h' Hj) as E. rewrite B B' in E. lia.
  - intros n. pose proof (sum_insert (carries n) _ j h h' Hj) as E. rewrite C C' in E. lia.
  - intros k g E. apply list_lookup_insert_Some in E as [(_ & <- & _)|[_ E]]; [done|by apply (inv_refused s H k)].
Qed.

Lemma inv_attach s j request parsed key l :
  Inv s -> lv_handlers s !! j = Some (HArrived request parsed) -> admit_turn (lv_sessions s) parsed = Attach key l ->
  Inv (mkLive (<[key := set_flight l true]> (lv_sessions s)) (lv_tasks s)
         (<[j := HSend (ls_turn_tx l) key (mkTurn request (length (lv_turns s))) false]> (lv_handlers s))
         (lv_turns s ++ [mkLog [] true true]) (lv_gate s)).
Proof.
  intros H Hj Ha. destruct (admit_attach _ _ _ _ Ha) as [Hl Hf].
  destruct (inv_map s H _ _ Hl) as (t & Ht & Hk & Hp).
  set (h' := HSend _ _ _ _).
  pose proof (fun f => sum_insert f _ j _ h' Hj) as Hs.
  constructor; simpl.
  - intros k l' E. apply lookup_insert_Some in E as [[<- <-]|[_ E]]; [by exists t|by apply (inv_map s H)].
  - intros i u Hi Pu. specialize (Hs (sends i)). simpl in Hs.
    destruct (inv_alive s H i u Hi Pu) as (lu & A & B & C). unfold load in *.
    destruct (decide (i = ls_turn_tx l)) as [->|Hn].
    + assert (u = t) as -> by congruence. rewrite Hk lookup_insert_eq. rewrite Hk in A.
      assert (lu = l) as -> by congruence. rewrite Nat.eqb_refl in Hs. simpl in Hs. unfold flight in B. rewrite Hf in B. simplify_eq.
      eexists. split; [done|]. destruct (Nat.eqb_spec (sum_list_with (sends (ls_turn_tx l)) (lv_handlers s) + length (st_queue t) + busy (st_phase t)) 0); [|done].
      replace (sum_list_with (sends (ls_turn_tx l)) (<[j:=h']> (lv_handlers s)) + length (st_queue t) + busy (st_phase t))%nat with 1%nat by lia. done.
    + replace (ls_turn_tx l =? i)%nat with false in Hs by (symmetry; apply Nat.eqb_neq; congruence). simpl in Hs.
      exists lu. replace (sum_list_with (sends i) (<[j:=h']> (lv_handlers s))) with (sum_list_with (sends i) (lv_handlers s)) by lia.
      split; [|done]. rewrite lookup_insert_ne //. intros E. rewrite E in Hl. rewrite Hl in A. injection A as <-. unfold flight in B. congruence.
  - intros i u Hi Pu. pose proof (inv_gone s H i u Hi Pu) as Hg. unfold load in *. specialize (Hs (sends i)). simpl in Hs.
    destruct (Nat.eqb_spec (ls_turn_tx l) i) as [Ei|]; simpl in Hs; [|lia].
    rewrite Ei in Ht. congruence.
  - intros i u Hi. destruct (inv_spawn s H i u Hi) as [A B]. split; [|done]. specialize (Hs (spawns i)). simpl in Hs. lia.
  - intros i Hi. destruct (inv_range s H i Hi) as [A B]. pose proof (Hs (sends i)) as H1. pose proof (Hs (spawns i)) as H2. simpl in H1, H2.
    apply lookup_lt_Some in Ht. destruct (Nat.eqb_spec (ls_turn_tx l) i); [lia|]. simpl in H1. lia.
  - intros k g E. apply list_lookup_insert_Some in E as [(_ & <- & _)|[_ E]]; [done|by apply (inv_refused s H k)].
  - intros n. unfold under_way. simpl. rewrite opens_app -(inv_turns s H n). specialize (Hs (carries n)). simpl in Hs. unfold under_way. lia.
  - intros i u v Hi. by apply (inv_present s H i).
Qed.

Lemma inv_create s j request parsed key :
  Inv s -> lv_handlers s !! j = Some (HArrived request parsed) -> admit_turn (lv_sessions s) parsed = Create key ->
  Inv (mkLive (<[key := mkLiveSession (length (lv_tasks s)) false true]> (lv_sessions s))
         (lv_tasks s ++ [mkTask_ key (rs_context_id (ar_scope parsed)) false [] Waiting None false])
         (<[j := HSend (length (lv_tasks s)) key (mkTurn request (length (lv_turns s))) true]> (lv_handlers s))
         (lv_turns s ++ [mkLog [] true true]) (lv_gate s)).
Proof.
  intros H Hj Ha. apply admit_create in Ha.
  set (N := length (lv_tasks s)). set (h' := HSend _ _ _ _). set (t0 := mkTask_ _ _ _ _ _ _ _).
  pose proof (fun f => sum_insert f _ j _ h' Hj) as Hs.
  assert (forall i u, (lv_tasks s ++ [t0]) !! i = Some u -> (lv_tasks s !! i = Some u /\ i <> N) \/ (i = N /\ u = t0)) as Hcase.
  { intros i u E. apply lookup_app_Some in E as [E|[Hge E]]; [left; split; [done|apply lookup_lt_Some in E; unfold N; lia]|].
    right. apply list_lookup_singleton_Some in E as [E <-]. split; [unfold N; lia|done]. }
  destruct (inv_range s H N (le_n _)) as [R1 R2].
  constructor; simpl.
  - intros k l' E. apply lookup_insert_Some in E as [[<- <-]|[_ E]]; simpl.
    + exists t0. split; [|done]. rewrite lookup_app_r //. by rewrite /N Nat.sub_diag.
    + destruct (inv_map s H _ _ E) as (t & A & B). exists t. split; [|done]. rewrite lookup_app_l //. eapply lookup_lt_Some; eassumption.
  - intros i u Hi Pu. specialize (Hs (sends i)). simpl in Hs. unfold load.
    destruct (Hcase _ _ Hi) as [[Hi' Hn]|[-> ->]].
    + replace (N =? i)%nat with false in Hs by (symmetry; apply Nat.eqb_neq; congruence). simpl in Hs.
      destruct (inv_alive s H i u Hi' Pu) as (lu & A & B & C). unfold load in *. exists lu.
      replace (sum_list_with (sends i) (<[j:=h']> (lv_handlers s))) with (sum_list_with (sends i) (lv_handlers s)) by lia.
      split; [|done]. rewrite lookup_insert_ne //. intros E. congruence.
    + rewrite Nat.eqb_refl R1 in Hs. simpl in Hs. rewrite /= lookup_insert_eq. eexists. split; [done|].
      replace (sum_list_with (sends N) (<[j:=h']> (lv_handlers s))) with 1%nat by lia. done.
  - intros i u Hi Pu. destruct (Hcase _ _ Hi) as [[Hi' Hn]|[-> ->]]; [|done].
    pose proof (inv_gone s H i u Hi' Pu) as Hg. unfold load in *. specialize (Hs (sends i)). simpl in Hs.
    replace (N =? i)%nat with false in Hs by (symmetry; apply Nat.eqb_neq; congruence). simpl in Hs. lia.
  - intros i u Hi. specialize (Hs (spawns i)). simpl in Hs. destruct (Hcase _ _ Hi) as [[Hi' Hn]|[-> ->]].
    + replace (N =? i)%nat with false in Hs by (symmetry; apply Nat.eqb_neq; congruence). simpl in Hs.
      destruct (inv_spawn s H i u Hi') as [A B]. split; [lia|done].
    + rewrite Nat.eqb_refl in Hs. simpl in *. split; [lia|done].
  - intros i. rewrite length_app /=. intros Hi. destruct (inv_range s H i) as [A B]; [lia|].
    pose proof (Hs (sends i)) as H1. pose proof (Hs (spawns i)) as H2. simpl in H1, H2.
    destruct (Nat.eqb_spec N i); [unfold N in *; lia|]. simpl in *. lia.
  - intros k g E. apply list_lookup_insert_Some in E as [(_ & <- & _)|[_ E]]; [done|by apply (inv_refused s H k)].
  - intros n. unfold under_way. simpl. rewrite opens_app -(inv_turns s H n) sum_app1. specialize (Hs (carries n)). simpl in Hs.
    unfold under_way. replace (keeps n t0) with 0%nat by done. lia.
  - intros i u v Hi. destruct (Hcase _ _ Hi) as [[Hi' _]|[_ ->]]; [by apply (inv_present s H i)|done].
Qed.

Lemma queued_app n q u : queued n (q ++ [u]) = (queued n q + b2n (ti_turn u =? n))%nat.
Proof. unfold queued. by rewrite sum_app1. Qed.

Lemma inv_enqueue s j tx key u spawn t :
  Inv s -> lv_handlers s !! j = Some (HSend tx key u spawn) -> lv_tasks s !! tx = Some t -> st_phase t <> Gone ->
  Inv (with_task (with_handler s j (if spawn then HSpawn tx u else HOpened u)) tx (set_queue t (st_queue t ++ [u]))).
Proof.
  intros H Hj Ht Hp. set (h' := if spawn then _ else _). set (t' := set_queue _ _).
  pose proof (fun f => sum_insert f _ j _ h' Hj) as Hs.
  assert (forall i, sends i h' = 0%nat) as S0 by (intros i; by destruct spawn).
  assert (forall n, carries n h' = 0%nat) as C0 by (intros n; by destruct spawn).
  assert (forall i, spawns i h' = spawns i (HSend tx key u spawn)) as W0 by (intros i; by destruct spawn).
  assert (forall i v, <[tx := t']> (lv_tasks s) !! i = Some v -> (i = tx /\ v = t') \/ (i <> tx /\ lv_tasks s !! i = Some v)) as Hcase.
  { intros i v E. apply list_lookup_insert_Some in E as [(-> & <- & _)|[Hn E]]; [by left|right; split; [congruence|done]]. }
  constructor; simpl.
  - intros k l E. destruct (inv_map s H _ _ E) as (v & A & B & C). destruct (decide (ls_turn_tx l = tx)) as [Ei|Hn].
    + rewrite Ei list_lookup_insert_eq; [eapply lookup_lt_Some; eassumption|]. exists t'. split_and!; [done| |done]. simpl. congruence.
    + rewrite list_lookup_insert_ne; [congruence|]. by exists v.
  - intros i v Hi Pv. specialize (Hs (sends i)). rewrite S0 in Hs. simpl in Hs. unfold load.
    destruct (Hcase _ _ Hi) as [[-> ->]|[Hn Hi']].
    + destruct (inv_alive s H tx t Ht Hp) as (l & A & B & C). unfold load in *. exists l. simpl. rewrite length_app /=.
      rewrite Nat.eqb_refl in Hs. simpl in Hs.
      replace (sum_list_with (sends tx) (<[j:=h']> (lv_handlers s)) + (length (st_queue t) + 1) + busy (st_phase t))%nat
        with (sum_list_with (sends tx) (lv_handlers s) + length (st_queue t) + busy (st_phase t))%nat by lia. done.
    + replace (tx =? i)%nat with false in Hs by (symmetry; apply Nat.eqb_neq; congruence). simpl in Hs.
      replace (sum_list_with (sends i) (<[j:=h']> (lv_handlers s))) with (sum_list_with (sends i) (lv_handlers s)) by lia.
      by apply (inv_alive s H).
  - intros i v Hi Pv. destruct (Hcase _ _ Hi) as [[-> ->]|[Hn Hi']]; [done|].
    pose proof (inv_gone s H i v Hi' Pv) as Hg. unfold load in *. specialize (Hs (sends i)). rewrite S0 in Hs. simpl in Hs. lia.
  - intros i v Hi. specialize (Hs (spawns i)). rewrite W0 in Hs.
    replace (sum_list_with (spawns i) (<[j:=h']> (lv_handlers s))) with (sum_list_with (spawns i) (lv_handlers s)) by lia.
    destruct (Hcase _ _ Hi) as [[-> ->]|[Hn Hi']]; [exact (inv_spawn s H tx t Ht)|by apply (inv_spawn s H)].
  - intros i. rewrite length_insert. intros Hi. destruct (inv_range s H i Hi) as [A B].
    pose proof (Hs (sends i)) as H1. pose proof (Hs (spawns i)) as H2. rewrite S0 in H1. rewrite W0 in H2. lia.
  - intros k g E. apply list_lookup_insert_Some in E as [(_ & <- & _)|[_ E]]; [by destruct spawn|by apply (inv_refused s H k)].
  - intros n. pose proof (inv_turns s H n) as Hu. unfold under_way in *. simpl. specialize (Hs (carries n)). rewrite C0 in Hs. simpl in Hs.
    pose proof (sum_insert (keeps n) _ tx t t' Ht) as Hk.
    assert (keeps n t' = keeps n t + b2n (ti_turn u =? n))%nat as E by (unfold keeps; simpl; rewrite queued_app; lia). lia.
  - intros i v w Hi. destruct (Hcase _ _ Hi) as [[-> ->]|[Hn Hi']]; [apply (inv_present s H tx _ w Ht)|by apply (inv_present s H i)].
Qed.

Lemma inv_spawned s j tx u t :
  Inv s -> lv_handlers s !! j = Some (HSpawn tx u) -> lv_tasks s !! tx = Some t ->
  Inv (with_task (with_handler s j (HOpened u)) tx (set_spawned t)).
Proof.
  intros H Hj Ht. set (t' := set_spawned _).
  pose proof (fun f => sum_insert f _ j _ (HOpened u) Hj) as Hs.
  assert (forall i v, <[tx := t']> (lv_tasks s) !! i = Some v -> (i = tx /\ v = t') \/ (i <> tx /\ lv_tasks s !! i = Some v)) as Hcase.
  { intros i v E. apply list_lookup_insert_Some in E as [(-> & <- & _)|[Hn E]]; [by left|right; split; [congruence|done]]. }
  assert (forall i v, <[tx := t']> (lv_tasks s) !! i = Some v ->
    exists v0, lv_tasks s !! i = Some v0 /\ st_key v0 = st_key v /\ st_phase v0 = st_phase v /\ st_queue v0 = st_queue v) as Hold.
  { intros i v E. destruct (Hcase _ _ E) as [[-> ->]|[_ E']]; [by exists t|by exists v]. }
  assert (forall i, sum_list_with (sends i) (<[j := HOpened u]> (lv_handlers s)) = sum_list_with (sends i) (lv_handlers s)) as S0
    by (intros i; specialize (Hs (sends i)); simpl in Hs; lia).
  constructor; simpl.
  - intros k l E. destruct (inv_map s H _ _ E) as (v & A & B & C). destruct (decide (ls_turn_tx l = tx)) as [Ei|Hn].
    + rewrite Ei list_lookup_insert_eq; [eapply lookup_lt_Some; eassumption|]. exists t'. rewrite Ei in A. assert (v = t) as -> by congruence. done.
    + rewrite list_lookup_insert_ne; [congruence|]. by exists v.
  - intros i v Hi Pv. destruct (Hold _ _ Hi) as (v0 & A & B & C & D). unfold load. rewrite S0 -B -C -D.
    apply (inv_alive s H i v0 A). by rewrite C.
  - intros i v Hi Pv. destruct (Hold _ _ Hi) as (v0 & A & B & C & D). unfold load. rewrite S0 -C -D.
    apply (inv_gone s H i v0 A). by rewrite C.
  - intros i v Hi. specialize (Hs (spawns i)). simpl in Hs. destruct (Hcase _ _ Hi) as [[-> ->]|[Hn Hi']].
    + rewrite Nat.eqb_refl in Hs. simpl in Hs. destruct (inv_spawn s H tx t Ht) as [A B]. simpl. split; [|done].
      destruct (st_spawned t); simpl in A; lia.
    + replace (tx =? i)%nat with false in Hs by (symmetry; apply Nat.eqb_neq; congruence). simpl in Hs.
      replace (sum_list_with (spawns i) (<[j:=HOpened u]> (lv_handlers s))) with (sum_list_with (spawns i) (lv_handlers s)) by lia.
      by apply (inv_spawn s H).
  - intros i. rewrite length_insert. intros Hi. destruct (inv_range s H i Hi) as [A B]. specialize (Hs (spawns i)). simpl in Hs. rewrite S0. lia.
  - intros k g E. apply list_lookup_insert_Some in E as [(_ & <- & _)|[_ E]]; [done|by apply (inv_refused s H k)].
  - intros n. pose proof (inv_turns s H n) as Hu. unfold under_way in *. simpl. specialize (Hs (carries n)). simpl in Hs.
    pose proof (sum_insert (keeps n) _ tx t t' Ht) as Hk. assert (keeps n t' = keeps n t) as E by done. lia.
  - intros i v w Hi. destruct (Hold _ _ Hi) as (v0 & A & _ & <- & _). by apply (inv_present s H i).
Qed.

(** A session that was occupied is free or gone. *)
Lemma inv_drop_turn s i t t' m ts g :
  Inv s -> lv_tasks s !! i = Some t -> busy (st_phase t) = 1%nat ->
  st_key t' = st_key t -> st_spawned t' = st_spawned t -> st_queue t' = st_queue t -> busy (st_phase t') = 0%nat ->
  (forall k, k <> st_key t -> m !! k = lv_sessions s !! k) ->
  (st_phase t' = Gone /\ m !! st_key t = None \/
   st_phase t' <> Gone /\ exists l, m !! st_key t = Some l /\ flight l = (i, false)) ->
  (forall n, keeps n t' + opens (lv_turns s) n = keeps n t + opens ts n)%nat ->
  Inv (mkLive m (<[i := t']> (lv_tasks s)) (lv_handlers s) ts g).
Proof.
  intros H Hi Hb Hk Hsp Hq Hb' Hm Hown Hts.
  assert (st_phase t <> Gone) as Pg by (intros E; by rewrite E in Hb).
  assert (st_spawned t = true) as Hs by (apply (spawned_unless_waiting s i t H Hi); intros E; by rewrite E in Hb).
  destruct (inv_alive s H i t Hi Pg) as (l & A & B & C).
  assert (load (lv_handlers s) i t' = 0%nat) as L0 by (unfold load in *; rewrite Hq; lia).
  assert (forall j v, <[i := t']> (lv_tasks s) !! j = Some v -> (j = i /\ v = t') \/ (j <> i /\ lv_tasks s !! j = Some v)) as Hcase.
  { intros j v E. apply list_lookup_insert_Some in E as [(-> & <- & _)|[Hn E]]; [by left|right; split; [congruence|done]]. }
  assert (forall j v, j <> i -> lv_tasks s !! j = Some v -> st_phase v <> Gone -> m !! st_key v = lv_sessions s !! st_key v) as Hother.
  { intros j v Hn Hj Pv. apply Hm. intros E. apply Hn. by apply (keys_unique s j v i t). }
  constructor; simpl.
  - intros k l' E. destruct (decide (k = st_key t)) as [->|Hn].
    + destruct Hown as [[_ Hd]|[Pw (l0 & E0 & F0)]]; [congruence|]. assert (l' = l0) as -> by congruence.
      injection F0 as -> _. rewrite list_lookup_insert_eq; [eapply lookup_lt_Some; eassumption|]. by exists t'.
    + rewrite Hm // in E. destruct (inv_map s H _ _ E) as (v & V1 & V2 & V3).
      exists v. rewrite list_lookup_insert_ne; [|done]. intros Ei. rewrite -Ei in V1. congruence.
  - intros j v Hj Pv. destruct (Hcase _ _ Hj) as [[-> ->]|[Hn Hj']].
    + destruct Hown as [[? _]|[_ (l0 & E0 & F0)]]; [done|]. exists l0. rewrite Hk L0. split_and!; [done|done|lia].
    + rewrite (Hother j) //. by apply (inv_alive s H).
  - intros j v Hj Pv. destruct (Hcase _ _ Hj) as [[-> ->]|[Hn Hj']]; [done|by apply (inv_gone s H)].
  - intros j v Hj. destruct (Hcase _ _ Hj) as [[-> ->]|[Hn Hj']]; [|by apply (inv_spawn s H)].
    rewrite Hsp. split; [apply (inv_spawn s H i t Hi)|congruence].
  - intros j. rewrite length_insert. apply (inv_range s H).
  - apply (inv_refused s H).
  - intros n. unfold under_way. simpl. pose proof (sum_insert (keeps n) _ i t t' Hi).
    pose proof (inv_turns s H n) as Hn. unfold under_way in Hn. specialize (Hts n). lia.
  - intros j v w Hj. destruct (Hcase _ _ Hj) as [[-> ->]|[Hn Hj']]; [intros E; by rewrite E in Hb'|by apply (inv_present s H j)].
Qed.

Lemma inv_suspend s i t u resumable :
  Inv s -> lv_tasks s !! i = Some t -> st_phase t = Suspending u resumable ->
  Inv (with_task (with_sessions s (alter (fun l => set_flight (set_relay l false) false) (st_key t) (lv_sessions s))) i
         (set_phase (set_suspended t resumable) (Freed u))).
Proof.
  intros H Hi Hp. assert (st_phase t <> Gone) as Pg by by rewrite Hp.
  destruct (inv_alive s H i t Hi Pg) as (l & A & B & C).
  apply (inv_drop_turn s i t); try done; simpl.
  - by rewrite Hp.
  - intros k Hk. rewrite lookup_alter_ne; [congruence|done].
  - right. split; [done|]. rewrite lookup_alter_eq A /=. eexists. split; [done|]. unfold flight in *. simpl. congruence.
  - intros n. unfold keeps, serves_turn. by rewrite Hp.
Qed.

Lemma inv_freed s i t u :
  Inv s -> lv_tasks s !! i = Some t -> st_phase t = Freed u -> Inv (with_task (hang_up u s) i (set_phase t Waiting)).
Proof.
  intros H Hi Hp. rewrite (hung_up s s) //. apply (inv_session_step s i t); try done; simpl.
  - by right.
  - by rewrite Hp.
  - by rewrite Hp.
  - apply (turn_released s s i); try done. by rewrite Hp.
Qed.

Lemma inv_leave s i t :
  Inv s -> lv_tasks s !! i = Some t -> st_phase t = Leaving ->
  Inv (with_task (with_sessions s (delete (st_key t) (lv_sessions s))) i (set_phase t Gone)).
Proof.
  intros H Hi Hp. apply (inv_drop_turn s i t); try done; simpl.
  - by rewrite Hp.
  - intros k Hk. rewrite lookup_delete_ne; [congruence|done].
  - left. by rewrite lookup_delete_eq.
  - intros n. unfold keeps, serves_turn. by rewrite Hp.
Qed.

Lemma inv_recv s i t u q :
  Inv s -> lv_tasks s !! i = Some t -> st_spawned t = true -> st_phase t = Waiting -> st_queue t = u :: q ->
  Inv (with_task s i (set_phase (set_suspended (set_queue t q) false) (if st_suspended t then Resuming u else Opening u))).
Proof.
  intros H Hi Hs Hp Hq. apply (inv_session_step s i t); try done; simpl.
  - by left.
  - by rewrite Hp.
  - by destruct (st_suspended t).
  - intros v. by destruct (st_suspended t).
  - rewrite Hp Hq. destruct (st_suspended t); simpl; lia.
  - intros n. unfold keeps. simpl. rewrite Hp Hq. destruct (st_suspended t); unfold serves_turn, queued; simpl; lia.
Qed.

Lemma inv_client_gone s n l :
  Inv s -> lv_turns s !! n = Some l -> Inv (with_turns s (<[n := mkLog (tl_frames l) (tl_open l) false]> (lv_turns s))).
Proof.
  intros H Hn. destruct H. constructor; try done. intros k. simpl. rewrite -[RHS]/(opens _ k). unfold under_way in *. simpl. rewrite inv_turns0.
  unfold opens. destruct (decide (n = k)) as [<-|Hk].
  - rewrite Hn list_lookup_insert_eq //. exact (lookup_lt_Some _ _ _ Hn).
  - rewrite list_lookup_insert_ne //.
Qed.

Section Facts.
Context (parse : json -> option A2aRequest) (request_id : json -> option JSONRPCId).
Context (parse_text : string -> option json) (sr_of : json -> option StreamResponse) (sr_wire : StreamResponse -> json).
Context (show : BamlRtError -> string) (tool_error_json : ClassifiedToolError -> json) (agent : AgentId).

Notation step := (step parse request_id parse_text sr_of sr_wire show tool_error_json agent).
Notation reachable := (reachable parse request_id parse_text sr_of sr_wire show tool_error_json agent).

Lemma inv_message s i t u resumable d d' f comp s' :
  Inv s -> lv_tasks s !! i = Some t -> st_phase t = Draining u resumable d -> reply u f s = (s', true) ->
  Inv (match comp with
       | None => with_task s' i (set_phase t (Draining u resumable d'))
       | Some InputRequired => with_task s' i (drained t u resumable d' InputRequired)
       | Some k => with_task (hang_up u s') i (drained t u resumable d' k)
       end).
Proof.
  intros H Hi Hp E. pose proof (reply_parts _ _ _ _ _ E) as (E1 & E2 & E3 & E4 & E5).
  assert (busy (st_phase t) = 1%nat /\ phase_turn (st_phase t) = Some (ti_turn u)) as [Hb Hu] by by rewrite Hp.
  assert (forall t', with_task s' i t' = mkLive (lv_sessions s) (<[i := t']> (lv_tasks s)) (lv_handlers s) (lv_turns s') (lv_gate s')) as Hw
    by (intros t'; unfold with_task; by rewrite E1 E2 E3).
  assert (forall k, k <> InputRequired -> Inv (with_task (hang_up u s') i (drained t u resumable d' k))) as Hend.
  { intros k Hk. rewrite (hung_up s s') //. apply (inv_end s s' i t u Leaving); try done. right. eexists. unfold drained. by destruct k. }
  destruct comp as [[]|]; try (by apply Hend); rewrite Hw.
  - apply (inv_on s i t (Suspending u resumable)); try done. right. by eexists.
  - apply (inv_on s i t (Draining u resumable d')); try done. by left.
Qed.

Lemma inv_step s s' : Inv s -> step s s' -> Inv s'.
Proof.
  intros H Hs.
  destruct Hs as [s request parsed|s j request parsed e Hj Ha|s j request parsed key l Hj Ha|s j request parsed key Hj Ha
    |s j tx key u spawn t Hj Ht Hp|s j tx key u spawn t Hj Ht Hp|s j key Hj|s j tx u t Hj Ht
    |s i t u q Hi Hsp Hp Hq|s i t u e Hi Hp|s i t u Hi Hp|s i t u Hi Hp|s i t u Hi Hp
    |s i t u l Hi Hp Hl|s i t u Hi Hp Hl|s i t u Hi Hp|s i t u e Hi Hp|s i t u v Hi Hp|s i t u resumable Hi Hp|s i t u Hi Hp
    |s i t u resumable d m d' f store comp s' Hi Hp Hd Hr|s i t u resumable d m d' f store comp Hi Hp Hd Hr|s i t u resumable d Hi Hp
    |s i t u resumable Hi Hp|s i t u Hi Hp|s i t Hi Hp|s n l Hn].
  - by apply inv_arrive.
  - apply (inv_swap s j _ _ H Hj); try done. by destruct (admit_refuse _ _ _ Ha).
  - by apply (inv_attach s j request parsed).
  - by apply inv_create.
  - by apply (inv_enqueue s j tx key).
  - exfalso. pose proof (inv_gone s H tx t Ht Hp) as Hg. unfold load in Hg.
    pose proof (sum_member (sends tx) _ _ _ Hj) as Hm. simpl in Hm. rewrite Nat.eqb_refl in Hm. simpl in Hm. lia.
  - by destruct (inv_refused s H j _ Hj).
  - by apply inv_spawned.
  - by apply inv_recv.
  - apply (inv_told s u _ i t Leaving); try done; [by rewrite Hp|by rewrite Hp|by left].
  - apply (inv_on s i t (Answering u)); try done; [by rewrite Hp|by rewrite Hp|by left].
  - rewrite (hung_up s s) //. apply (inv_end s s i t u Leaving); try done; [by rewrite Hp|by rewrite Hp|by left].
  - apply (inv_on s i t (Draining u true (resume_drain parse request_id t u))); try done; [by rewrite Hp|by rewrite Hp|by left].
  - apply (inv_on s i t (Invoking u)); try done; [by rewrite Hp|by rewrite Hp| |by left].
    intros k. destruct (decide (k = st_key t)) as [->|Hk]; [by rewrite lookup_insert_eq Hl|rewrite lookup_insert_ne; [congruence|done]].
  - exfalso. destruct (inv_alive s H i t Hi) as (l & A & _); [by rewrite Hp|congruence].
  - by destruct (inv_present s H i t u Hi).
  - destruct (reply u _ s) as [s' b] eqn:E. destruct (reply_parts _ _ _ _ _ E) as (E1 & E2 & E3 & _ & E5). simpl. unfold with_task. rewrite E1 E2 E3.
    apply (inv_on s i t (Clearing u)); try done; [by rewrite Hp|by rewrite Hp|by left].
  - apply (inv_told s u _ i t Leaving); try done; [by rewrite Hp|by rewrite Hp|by left].
  - apply (inv_on s i t (Draining u resumable (first_drain parse request_id t u))); try done; [by rewrite Hp|by rewrite Hp|by left].
  - set (s1 := with_sessions _ _). rewrite (hung_up s1 s1) //.
    apply (inv_end s s1 i t u Leaving); try done; [by rewrite Hp|by rewrite Hp|intros k; apply flight_relay|by left].
  - by apply (inv_message s i t u resumable d d' f).
  - rewrite (hung_up s s) //. apply (inv_end s s i t u Leaving); try done; [by rewrite Hp|by rewrite Hp|right; by eexists].
  - apply (inv_told s u _ i t Leaving); try done; [by rewrite Hp|by rewrite Hp|right; by eexists].
  - by apply inv_suspend.
  - by apply inv_freed.
  - by apply inv_leave.
  - by apply inv_client_gone.
Qed.

Lemma reachable_live_inv g s : reachable g s -> Inv s.
Proof. induction 1 as [|s s' _ IH Hs]; [apply inv_at_start|by apply (inv_step s)]. Qed.

(** *** What clients can rely on *)

(** C14: In every interleaving of requests, sessions and departing clients: at most one
    session runs under a key, and at most one turn waits for or occupies it (one
    that suspended does no longer); the flag that refuses others is up exactly then; every turn whose client is still
    being answered is in exactly one place, and every other in none; and the only
    refusal is the conflict, never that a session closed under a request. *)
Theorem live_turns_safe g s :
  reachable g s ->
  (forall i t j t', lv_tasks s !! i = Some t -> lv_tasks s !! j = Some t' -> st_phase t <> Gone -> st_phase t' <> Gone ->
     st_key t = st_key t' -> i = j) /\
  (forall k l, lv_sessions s !! k = Some l -> exists t, lv_tasks s !! ls_turn_tx l = Some t /\ st_key t = k /\
     (load (lv_handlers s) (ls_turn_tx l) t <= 1)%nat /\
     ls_in_flight l = negb (load (lv_handlers s) (ls_turn_tx l) t =? 0)%nat) /\
  (forall n, under_way s n = opens (lv_turns s) n) /\
  (forall j e, lv_handlers s !! j = Some (HRefused e) -> exists c k, e = conflict c k).
Proof.
  intros Hr. pose proof (reachable_live_inv g s Hr) as H. split_and!.
  - intros i t j t' Hi Hj Pi Pj. by apply (keys_unique s).
  - intros k l E. destruct (inv_map s H k l E) as (t & A & B & C). exists t.
    destruct (inv_alive s H _ t A C) as (l' & A' & B' & C'). rewrite B E in A'. injection A' as <-. unfold flight in B'. split_and!; congruence.
  - apply (inv_turns s H).
  - intros j e Hj. apply (inv_refused s H j _ Hj).
Qed.

(** From every phase the turn it serves can end. *)
Lemma served_turn_ends s i t n :
  Inv s -> lv_tasks s !! i = Some t -> phase_turn (st_phase t) = Some n ->
  exists s', rtc step s s' /\ opens (lv_turns s') n = 0%nat.
Proof.
  intros H Hi Hn.
  assert (forall u s1 p, n = ti_turn u -> opens (lv_turns (with_task (hang_up u s1) i p)) n = 0%nat) as Hz.
  { intros u s1 p ->. simpl. by rewrite opens_hang_up Nat.eqb_refl. }
  assert (i < length (lv_tasks s))%nat as Hl by (eapply lookup_lt_Some; eassumption).
  destruct (st_phase t) as [|u|u|u|u|u|u r d|u r|u|u| |] eqn:Hp; try done; simpl in Hn; injection Hn as Hn.
  - eexists. split; [apply rtc_once, (step_persist_failed _ _ _ _ _ _ _ _ s i t u (QuickJs "") Hi Hp)|by apply Hz].
  - eexists. split; [apply rtc_once, (step_collector_dropped _ _ _ _ _ _ _ _ s i t u Hi Hp)|by apply Hz].
  - destruct (inv_alive s H i t Hi) as (l & A & _); [by rewrite Hp|].
    eexists. split; [eapply rtc_l; [apply (step_relay _ _ _ _ _ _ _ _ s i t u l Hi Hp A)|]|].
    + apply rtc_once. apply (step_invoke_response _ _ _ _ _ _ _ _ _ i (set_phase t (Invoking u)) u JNull); [|done]. simpl. by rewrite list_lookup_insert_eq.
    + by apply Hz.
  - by destruct (inv_present s H i t u Hi).
  - eexists. split; [apply rtc_once, (step_invoke_response _ _ _ _ _ _ _ _ s i t u JNull Hi Hp)|by apply Hz].
  - eexists. split; [apply rtc_once, (step_stream_closed _ _ _ _ _ _ _ _ s i t u r d Hi Hp)|by apply Hz].
  - eexists. split; [eapply rtc_l; [apply (step_suspend _ _ _ _ _ _ _ _ s i t u r Hi Hp)|]|].
    + apply rtc_once. apply (step_freed _ _ _ _ _ _ _ _ _ i (set_phase (set_suspended t r) (Freed u)) u); [|done]. simpl. by rewrite list_lookup_insert_eq.
    + by apply Hz.
  - eexists. split; [apply rtc_once, (step_freed _ _ _ _ _ _ _ _ s i t u Hi Hp)|by apply Hz].
  - eexists. split; [apply rtc_once, (step_cleared _ _ _ _ _ _ _ _ s i t u Hi Hp)|by apply Hz].
Qed.

(** A turn at the head of the queue of a session that is ready for it can end. *)
Lemma ready_turn_ends s i t u :
  Inv s -> lv_tasks s !! i = Some t -> st_spawned t = true -> st_phase t = Waiting -> st_queue t = [u] ->
  exists s', rtc step s s' /\ opens (lv_turns s') (ti_turn u) = 0%nat.
Proof.
  intros H Hi Hs Hw Eq.
  pose proof (step_recv parse request_id parse_text sr_of sr_wire show tool_error_json agent s i t u [] Hi Hs Hw Eq) as Hst.
  edestruct (served_turn_ends _ i (set_phase (set_suspended (set_queue t []) false) (if st_suspended t then Resuming u else Opening u)) (ti_turn u)
    (inv_step _ _ H Hst)) as (s' & R & O).
  - simpl. rewrite list_lookup_insert_eq //. eapply lookup_lt_Some; eassumption.
  - simpl. by destruct (st_suspended t).
  - exists s'. split; [eapply rtc_l; eassumption|done].
Qed.

Lemma queued_turn_ends s i t n :
  Inv s -> lv_tasks s !! i = Some t -> st_spawned t = true -> (0 < queued n (st_queue t))%nat ->
  exists s', rtc step s s' /\ opens (lv_turns s') n = 0%nat.
Proof.
  intros H Hi Hs Hq.
  assert (st_phase t <> Gone) as Pg.
  { intros Hp. pose proof (inv_gone s H i t Hi Hp) as Hg. unfold load in Hg.
    destruct (st_queue t) as [|u q]; simpl in Hq, Hg; lia. }
  destruct (inv_alive s H i t Hi Pg) as (l & _ & _ & C). unfold load in C.
  destruct (st_queue t) as [|u q] eqn:Eq; [simpl in Hq; lia|]. simpl in C. destruct q; [|simpl in C; lia].
  unfold queued in Hq. simpl in Hq. destruct (Nat.eqb_spec (ti_turn u) n) as [<-|]; [|simpl in Hq; lia].
  destruct (st_phase t) as [| | | | | | | |v| | |] eqn:Hw; try (simpl in C; lia); [by apply (ready_turn_ends s i t)| |done].
  pose proof (step_freed parse request_id parse_text sr_of sr_wire show tool_error_json agent s i t v Hi Hw) as Hst.
  destruct (ready_turn_ends _ i (set_phase t Waiting) u (inv_step _ _ H Hst)) as (s' & R & O); try done.
  - simpl. destruct (hang_up_parts v s) as (_ & -> & _). rewrite list_lookup_insert_eq //. eapply lookup_lt_Some; eassumption.
  - exists s'. split; [eapply rtc_l; eassumption|done].
Qed.

Lemma sum_positive {A} (f : A -> nat) (l : list A) : (0 < sum_list_with f l)%nat -> exists i x, l !! i = Some x /\ (0 < f x)%nat.
Proof.
  induction l as [|y l IH]; simpl; [lia|]. intros H. destruct (decide (0 < f y)%nat) as [Hy|Hy]; [by exists 0%nat, y|].
  destruct IH as (i & x & Hi & Hx); [lia|]. by exists (S i), x.
Qed.

(** A turn in a queue can end, also if its session was not spawned yet. *)
Lemma waiting_turn_ends s i t n :
  Inv s -> lv_tasks s !! i = Some t -> (0 < queued n (st_queue t))%nat ->
  exists s', rtc step s s' /\ opens (lv_turns s') n = 0%nat.
Proof.
  intros H Hi Hq. destruct (st_spawned t) eqn:Es; [by apply (queued_turn_ends s i t)|].
  destruct (inv_spawn s H i t Hi) as [Hw Hp]. rewrite Es in Hw, Hp. simpl in Hw.
  destruct (sum_positive (spawns i) (lv_handlers s)) as (j & h & Hj & Hs); [lia|].
  destruct (inv_alive s H i t Hi) as (l & _ & _ & C); [by rewrite Hp|].
  assert (0 < length (st_queue t))%nat as Hl by (destruct (st_queue t); simpl in *; lia).
  destruct h as [|tx key u spawn|tx u| | |]; simpl in Hs; try lia.
  - destruct spawn; [|lia]. exfalso. unfold load in C.
    pose proof (sum_member (sends i) _ _ _ Hj) as Hm. simpl in Hm. destruct (tx =? i)%nat; simpl in *; lia.
  - destruct (Nat.eqb_spec tx i) as [->|]; [|simpl in Hs; lia].
    pose proof (step_spawn parse request_id parse_text sr_of sr_wire show tool_error_json agent s j i u t Hj Hi) as Hst.
    destruct (queued_turn_ends _ i (set_spawned t) n (inv_step _ _ H Hst)) as (s' & R & O); try done.
    + simpl. rewrite list_lookup_insert_eq //. eapply lookup_lt_Some; eassumption.
    + exists s'. split; [eapply rtc_l; eassumption|done].
Qed.

(** C15: No client waits for ever on a turn nobody will take: whatever has happened,
    every turn whose client is being answered can still end. *)
Theorem open_turn_can_end g s n :
  reachable g s -> opens (lv_turns s) n = 1%nat -> exists s', rtc step s s' /\ opens (lv_turns s') n = 0%nat.
Proof.
  intros Hr Ho. pose proof (reachable_live_inv g s Hr) as H. pose proof (inv_turns s H n) as Hu. rewrite Ho in Hu. unfold under_way in Hu.
  destruct (decide (0 < sum_list_with (carries n) (lv_handlers s))%nat) as [Hc|Hc].
  - destruct (sum_positive _ _ Hc) as (j & h & Hj & Hh). destruct h as [|tx key u spawn| | | |]; simpl in Hh; try lia.
    destruct (Nat.eqb_spec (ti_turn u) n) as [En|]; [|simpl in Hh; lia].
    pose proof (sum_member (sends tx) _ _ _ Hj) as Hm. simpl in Hm. rewrite Nat.eqb_refl in Hm. simpl in Hm.
    destruct (lv_tasks s !! tx) as [t|] eqn:Ht.
    2: { apply lookup_ge_None in Ht. destruct (inv_range s H tx Ht). lia. }
    assert (st_phase t <> Gone) as Pg by (intros Hp; pose proof (inv_gone s H tx t Ht Hp) as Hg; unfold load in Hg; lia).
    pose proof (step_send parse request_id parse_text sr_of sr_wire show tool_error_json agent s j tx key u spawn t Hj Ht Pg) as Hst.
    destruct (waiting_turn_ends _ tx (set_queue t (st_queue t ++ [u])) n (inv_step _ _ H Hst)) as (s' & R & O).
    + simpl. rewrite list_lookup_insert_eq //. eapply lookup_lt_Some; eassumption.
    + simpl. rewrite queued_app En Nat.eqb_refl. simpl. lia.
    + exists s'. split; [eapply rtc_l; eassumption|done].
  - destruct (sum_positive (keeps n) (lv_tasks s)) as (i & t & Hi & Hk); [lia|].
    destruct (decide (0 < queued n (st_queue t))%nat) as [Hq|Hq]; [by apply (waiting_turn_ends s i t)|].
    unfold keeps, serves_turn in Hk. destruct (phase_turn (st_phase t)) as [m|] eqn:Hp; [|lia].
    destruct (Nat.eqb_spec m n) as [->|]; [by apply (served_turn_ends s i t)|simpl in Hk; lia].
Qed.
End Facts.

(** ** Errors, refusals and their limits *)

(** A session that leaves refuses its key, although the client of its last turn
    has been let go. *)
Lemma leaving_session_refuses s i t parsed :
  Inv s -> lv_tasks s !! i = Some t -> st_phase t = Leaving ->
  session_key (rs_context_id (ar_scope parsed)) (rs_task_id_opt (ar_scope parsed)) = st_key t ->
  admit_turn (lv_sessions s) parsed = Refuse (conflict (rs_context_id (ar_scope parsed)) (st_key t)).
Proof.
  intros H Hi Hp Hk. destruct (inv_alive s H i t Hi) as (l & A & B & C); [by rewrite Hp|].
  unfold admit_turn. rewrite Hk A. unfold flight in B. injection B as _ ->.
  unfold load. rewrite Hp Nat.add_comm. done.
Qed.

(** A message for any task of the context is handed to the session that was opened
    without one, whichever task that session has suspended. *)
Lemma other_task_attaches m c message_id task_id request l :
  ar_scope request = TaskScoped c message_id task_id -> m !! session_key c (Some task_id) = None ->
  m !! session_key_of_context c = Some l -> ls_in_flight l = false ->
  admit_turn m request = Attach (session_key_of_context c) l.
Proof. intros E H1 H2 H3. unfold admit_turn. by rewrite E /= H1 H2 H3. Qed.

(** A reply that carries no text counts as an approval of the pending call. *)
Lemma textless_reply_approves parse agent t task_id request g entry :
  st_task t = Some task_id -> parse request ≫= resume_user_message_text = None ->
  let key := scope_key (TaskScope (st_context t) agent "gate-auth-resume" task_id) in
  gs_pending_auth g !! key = Some entry ->
  gs_pending_auth (answer_gate parse agent t request g) !! key
  = Some (mkPendingAuth (pa_tool_name entry) (pa_args_fingerprint entry) true).
Proof.
  intros Ht Hp key Hk. unfold answer_gate. rewrite Ht. unfold resume_answer. rewrite Hp. unfold resolve_on_resume. fold key. rewrite Hk.
  simpl. by rewrite lookup_insert_eq.
Qed.

(** *** A concrete conversation *)

Definition ex_message (task : option TaskId) : Message :=
  mkMessage (mkMessageId "m1" Incoming) User [text_part "hello"] (Some "c") task [] [] None ∅.
Definition ex_request (task : option TaskId) : A2aRequest := request_of "gen" None (WMessageSendStream (mkSend (ex_message task) None)).
Definition ex_parse (v : json) : option A2aRequest := Some (ex_request None).
Definition ex_id (v : json) : option JSONRPCId := Some (IdInteger 1).
Definition ex_tool_error (c : ClassifiedToolError) : json := JNull.

Notation ex_step := (step ex_parse ex_id no_parse raw_sr raw_wire no_show ex_tool_error "a").
Notation ex_reachable := (reachable ex_parse ex_id no_parse raw_sr raw_wire no_show ex_tool_error "a" gs_empty).

Lemma reach_then s s' : ex_reachable s -> ex_step s s' -> ex_reachable s'.
Proof. apply reach_step. Qed.

(** One step further, with the state computed. *)
Tactic Notation "go" hyp(R) "by" uconstr(k) :=
  let R' := fresh "R" in let K := fresh "K" in
  match type of R with reachable _ _ _ _ _ _ _ _ _ ?s0 => eassert (ex_step s0 _) as K; [eapply k; first [reflexivity|done]|] end;
  pose proof (reach_then _ _ R K) as R';
  match type of R' with reachable _ _ _ _ _ _ _ _ _ ?s => let v := eval vm_compute in s in change (ex_reachable v) in R' end;
  clear K R; rename R' into R.

(** A first request is served; its stream asks for input and the session suspends;
    a second request resumes it.  The resumed turn runs without its relay: the
    chunks that tool calls push towards its client are dropped. *)
Lemma resumed_turn_unrelayed : exists s t u d l, ex_reachable s /\ lv_tasks s !! 0%nat = Some t /\ st_phase t = Draining u true d /\
  lv_sessions s !! st_key t = Some l /\ ls_in_flight l = true /\ ls_relay l = false /\ opens (lv_turns s) (ti_turn u) = 1%nat.
Proof.
  assert (ex_reachable (live_start gs_empty)) as R by apply reach_start.
  go R by (step_arrive _ _ _ _ _ _ _ _ _ JNull (ex_request None)).
  go R by (step_create _ _ _ _ _ _ _ _ _ 0%nat).
  go R by (step_send _ _ _ _ _ _ _ _ _ 0%nat).
  go R by (step_spawn _ _ _ _ _ _ _ _ _ 0%nat).
  go R by (step_recv _ _ _ _ _ _ _ _ _ 0%nat).
  go R by (step_relay _ _ _ _ _ _ _ _ _ 0%nat).
  go R by (step_invoke_stream _ _ _ _ _ _ _ _ _ 0%nat _ _ true).
  go R by (step_message _ _ _ _ _ _ _ _ _ 0%nat _ _ _ _ (StreamResponse_default, 1%nat, Some InputRequired)).
  go R by (step_suspend _ _ _ _ _ _ _ _ _ 0%nat).
  go R by (step_freed _ _ _ _ _ _ _ _ _ 0%nat).
  go R by (step_arrive _ _ _ _ _ _ _ _ _ JNull (ex_request None)).
  go R by (step_attach _ _ _ _ _ _ _ _ _ 1%nat).
  go R by (step_send _ _ _ _ _ _ _ _ _ 1%nat).
  go R by (step_recv _ _ _ _ _ _ _ _ _ 0%nat).
  go R by (step_persisted _ _ _ _ _ _ _ _ _ 0%nat).
  go R by (step_resumed _ _ _ _ _ _ _ _ _ 0%nat).
  eexists _, _, _, _, _. split; [exact R|]. split_and!; reflexivity.
Qed.

Lemma live_turns_safe_witness : exists s, ex_reachable s /\ exists n, under_way s n = 1%nat.
Proof.
  destruct resumed_turn_unrelayed as (s & t & u & d & l & R & _ & _ & _ & _ & _ & O). exists s. split; [exact R|]. exists (ti_turn u).
  rewrite (proj1 (proj2 (proj2 (live_turns_safe ex_parse ex_id no_parse raw_sr raw_wire no_show ex_tool_error "a" gs_empty s R))) (ti_turn u)).
  exact O.
Defined.

Lemma open_turn_can_end_witness : exists s n, ex_reachable s /\ opens (lv_turns s) n = 1%nat /\
  exists s', rtc ex_step s s' /\ opens (lv_turns s') n = 0%nat.
Proof.
  destruct resumed_turn_unrelayed as (s & t & u & d & l & R & _ & _ & _ & _ & _ & O). exists s, (ti_turn u).
  split; [exact R|]. split; [exact O|].
  exact (open_turn_can_end ex_parse ex_id no_parse raw_sr raw_wire no_show ex_tool_error "a" gs_empty s (ti_turn u) R O).
Defined.
