(* ===== verification/TaskUpdates.v ===== *)
(** * Results into the task store, updates out of it

    The way of a chunk into the store: [result_extractor.rs],
    [result_processor.rs], [result_pipeline.rs] and [result_deduplicator.rs] of
    [baml-rt-a2a].  The way of an update to a client: [task_update_drain.rs],
    the session of [task_update_session.rs] with its error paths, and the task
    requests of [handlers.rs].

    The serde codecs are arguments.  What a subscriber's channel brings
    (frames, its end, that it lagged and what the graph then replays) is a list;
    a list that runs out is a subscriber that waits. *)

From stdpp Require Import base list strings gmap sets.
From Stdlib Require Import ZArith Lia ssreflect.
From S2P Require Import Prelude RustStr Json Ids Errors StreamCollect ChatStream A2aTypes Broadcaster TaskStore.

Open Scope string_scope.
Open Scope list_scope.

(** ** Into the store *)

Record SendMessageResponse := mkSendResponse { smr_message : option Message; smr_task : option Task; smr_extra : gmap string json }.

Definition ValidatedTaskChunk_of_response (r : SendMessageResponse) : result StreamResponse InvalidArg :=
  ValidatedTaskChunk_try_from (mkStreamResponse (smr_message r) (smr_task r) None None (smr_extra r)).

Definition set_message_metadata (m : Message) (md : option (gmap string json)) : Message :=
  mkMessage (m_message_id m) (m_role m) (m_parts m) (m_context_id m) (m_task_id m) (m_reference_task_ids m) (m_extensions m) md (m_extra m).

(** The message with the agent its task names, unless it names one itself. *)
Definition message_with_agent (chunk : StreamResponse) : option Message :=
  match sr_message chunk with
  | None => None
  | Some msg =>
      let named := match m_metadata msg with Some m => is_some (m !! "agent_id") | None => false end in
      match (if named then None else (sr_task_payload chunk ≫= t_metadata) ≫= fun m : gmap string json => m !! "agent_id") with
      | Some agent_id => Some (set_message_metadata msg (Some (<["agent_id" := agent_id]> (default ∅ (m_metadata msg)))))
      | None => Some msg
      end
  end.

Definition set_chunk_message (chunk : StreamResponse) (m : option Message) : StreamResponse :=
  mkStreamResponse m (sr_task_payload chunk) (sr_status_update chunk) (sr_artifact_update chunk) (sr_extra chunk).

Section Pipeline.
Context {G : Type} `{TaskGraph G}.
Context (hash : TaskStreamKey -> Z) (hash_hex : TaskId -> string -> string).
Context (decode_stream : json -> option StreamResponse) (decode_send : json -> option SendMessageResponse) (decode_task : json -> option Task).

Definition validated (r : result StreamResponse InvalidArg) : SM G StreamResponse := sm_lift (fun _ => map_err InvalidArgument r).

(** The answer has the events that are emitted. *)
Definition process_validated_chunk (chunk : StreamResponse) : SM G (list TaskUpdateEvent) :=
  sm_bind (validated (ValidatedTaskChunk_try_from (set_chunk_message chunk (message_with_agent chunk)))) (fun chunk =>
  apply_task_chunk hash hash_hex chunk).

Definition process_stream_response (stream : StreamResponse) : SM G (list TaskUpdateEvent) :=
  sm_bind (validated (ValidatedTaskChunk_try_from stream)) process_validated_chunk.

Definition process_send_message_response (r : SendMessageResponse) : SM G (list TaskUpdateEvent) :=
  sm_bind (validated (ValidatedTaskChunk_of_response r)) process_validated_chunk.

Definition process_task (t : Task) : SM G (list TaskUpdateEvent) :=
  sm_bind (validated (ValidatedTaskChunk_try_from (mkStreamResponse None (Some t) None None ∅))) process_validated_chunk.

Definition store_result (value : json) : SM G (list TaskUpdateEvent) :=
  match decode_stream value with
  | Some stream => process_stream_response stream
  | None =>
      match decode_send value with
      | Some r => process_send_message_response r
      | None => match decode_task value with Some t => process_task t | None => sm_ret [] end
      end
  end.
End Pipeline.

(** *** Deduplication *)

Section Dedup.
Context {W E : Type} (hash_value : json -> Z) (inner : W -> json -> W * result unit E).

Definition should_process (v : json) (seen : gset Z) : bool := negb (bool_decide (hash_value v ∈ seen)).
Definition mark_processed (v : json) (seen : gset Z) : gset Z := {[hash_value v]} ∪ seen.

Definition dedup_store (v : json) (s : W * gset Z) : (W * gset Z) * result unit E :=
  if should_process v s.2 then
    match inner s.1 v with
    | (w, Ok _) => ((w, mark_processed v s.2), Ok tt)
    | (w, Err e) => ((w, s.2), Err e)
    end
  else (s, Ok tt).

End Dedup.

(** ** Out of the store *)

Definition frame_cursor (f : TaskUpdateFrame) : TaskReplayCursor :=
  match f with StatusTransition _ c | ArtifactGenerated _ c | MessageReceived _ c | MessageSent _ c => c end.

Definition cursor_le (a b : TaskReplayCursor) : bool :=
  (cur_event_order a <? cur_event_order b)%Z ||
  ((cur_event_order a =? cur_event_order b)%Z && String.leb (cur_anchor a) (cur_anchor b)).

Section Drain.
(** A fresh identifier, drawn for the prompt of a frame. *)
Context (uuid : TaskUpdateFrame -> string).

Definition prompt_to_message (id prompt : string) : Message :=
  mkMessage (mkMessageId ("input-required:" +:+ id) Incoming) Agent [text_part prompt] None None [] [] None ∅.

Definition status_props_to_event (id : string) (state : A2ATaskStateProps) : TaskStatusUpdateEvent :=
  let prompt_message := match st_new_status state with InputRequired prompt => Some (prompt_to_message id prompt) | _ => None end in
  let extra := match st_new_status state with Failed reason => {["error_reason" := JStr reason]} | _ => ∅ end in
  mkStatusUpdate None (Some (to_task_id (st_task state)))
    (Some (mkTaskStatus (Some (StateString (as_wire_str (st_new_status state)))) prompt_message
             (Some (show_Z (st_transitioned_at_ms state))) ∅)) None extra.

Definition artifact_ref_to_event (a : ArtifactRef) : TaskArtifactUpdateEvent :=
  mkArtifactUpdate None (Some (ar_task_id a)) None None
    (Some (mkArtifact (ar_artifact_id a) None None [] ((fun t => {["artifact_type" := JStr t]}) <$> ar_artifact_type a) [] ∅)) None ∅.

Definition frame_to_task_update_event (f : TaskUpdateFrame) : option TaskUpdateEvent :=
  match f with
  | StatusTransition state _ => Some (UpdStatus (status_props_to_event (uuid f) state))
  | ArtifactGenerated artifact _ => Some (UpdArtifact (artifact_ref_to_event artifact))
  | MessageReceived _ _ | MessageSent _ _ => None
  end.
End Drain.

(** *** The session of a subscriber *)

Definition ReplayError := string.
Definition replay_stream := list (result TaskUpdateFrame ReplayError).

Inductive recv :=
| RecvFrame (f : TaskUpdateFrame)
| RecvClosed
| RecvLagged (replay : result replay_stream ReplayError).

Inductive session_phase := Replaying (stream : replay_stream) | Live | Closed.

Record update_session := mkUpdates { us_phase : session_phase; us_last : option TaskReplayCursor; us_channel : list recv }.

Definition stale (last : option TaskReplayCursor) (f : TaskUpdateFrame) : bool :=
  match last with Some c => cursor_le (frame_cursor f) c | None => false end.

(** [next] in the live phase. *)
Fixpoint next_live (last : option TaskReplayCursor) (channel : list recv) : option (update_session * result (option TaskUpdateFrame) ReplayError) :=
  match channel with
  | [] => None
  | RecvFrame f :: rest =>
      if stale last f then next_live last rest else Some (mkUpdates Live (Some (frame_cursor f)) rest, Ok (Some f))
  | RecvClosed :: rest => Some (mkUpdates Closed last rest, Ok None)
  | RecvLagged (Err e) :: rest => Some (mkUpdates Live last rest, Err e)
  | RecvLagged (Ok (Ok f :: stream)) :: rest => Some (mkUpdates (Replaying stream) (Some (frame_cursor f)) rest, Ok (Some f))
  | RecvLagged (Ok (Err e :: stream)) :: rest => Some (mkUpdates (Replaying stream) last rest, Err e)
  | RecvLagged (Ok []) :: rest => next_live last rest
  end.

(** [None]: it waits for the channel. *)
Definition next (s : update_session) : option (update_session * result (option TaskUpdateFrame) ReplayError) :=
  match us_phase s with
  | Replaying (Ok f :: stream) => Some (mkUpdates (Replaying stream) (Some (frame_cursor f)) (us_channel s), Ok (Some f))
  | Replaying (Err e :: stream) => Some (mkUpdates (Replaying stream) (us_last s) (us_channel s), Err e)
  | Replaying [] | Live => next_live (us_last s) (us_channel s)
  | Closed => Some (s, Ok None)
  end.

Fixpoint drain_stream (stream : replay_stream) (last : option TaskReplayCursor) (channel : list recv)
    : update_session * result (list TaskUpdateFrame) ReplayError :=
  match stream with
  | [] => (mkUpdates Live last channel, Ok [])
  | Ok f :: stream =>
      let '(s, r) := drain_stream stream (Some (frame_cursor f)) channel in
      (s, match r with Ok fs => Ok (f :: fs) | Err e => Err e end)
  | Err e :: stream => (mkUpdates (Replaying stream) last channel, Err e)
  end.

Definition drain_replay (s : update_session) : update_session * result (list TaskUpdateFrame) ReplayError :=
  match us_phase s with Replaying stream => drain_stream stream (us_last s) (us_channel s) | _ => (s, Ok []) end.

(** ** Task requests *)

Inductive StreamChunk := ChunkTask (t : Task) | ChunkStatus (e : TaskStatusUpdateEvent) | ChunkArtifact (e : TaskArtifactUpdateEvent).

Definition from_task_current_status (t : Task) : option TaskStatusUpdateEvent :=
  (fun status => mkStatusUpdate (t_context_id t) (t_id t) (Some status) None ∅) <$> t_status t.

Definition task_is_terminal (t : Task) : bool :=
  match t_status t ≫= status_to_string with
  | Some s => existsb (String.eqb s) ["TASK_STATE_COMPLETED"; "TASK_STATE_FAILED"; "TASK_STATE_CANCELED"; "TASK_STATE_REJECTED"]
  | None => false
  end.

Definition update_chunk (u : TaskUpdateEvent) : StreamChunk :=
  match u with UpdStatus e => ChunkStatus e | UpdArtifact e => ChunkArtifact e end.

(** The sending side of a subscription; [sb_left] is how many sends are left
    before the receiver is dropped, if it will be. *)
Record subscriber := mkSubscriber { sb_index : nat; sb_left : option nat; sb_out : list chat_message }.

Definition sub_push (m : chat_message) (b : subscriber) : subscriber * bool :=
  match sb_left b with
  | Some O => (b, false)
  | Some (S n) => (mkSubscriber (sb_index b) (Some n) (sb_out b ++ [m]), true)
  | None => (mkSubscriber (sb_index b) None (sb_out b ++ [m]), true)
  end.

Section Subscribe.
Context (uuid : TaskUpdateFrame -> string).
Context (chunk_wire : StreamChunk -> option json) (sr_of : json -> option StreamResponse).

Definition send_subscribe_chunk (b : subscriber) (c : StreamChunk) : subscriber * bool :=
  match chunk_wire c with
  | None => (b, false)
  | Some value =>
      sub_push (default StreamResponse_default (sr_of value), sb_index b, None) (mkSubscriber (S (sb_index b)) (sb_left b) (sb_out b))
  end.

Fixpoint send_chunks (b : subscriber) (cs : list StreamChunk) : subscriber * bool :=
  match cs with
  | [] => (b, true)
  | c :: cs => let '(b', ok) := send_subscribe_chunk b c in if ok then send_chunks b' cs else (b', false)
  end.

Inductive leg := LegWaits | LegOver | LegGone.

(** The live loop; the fuel is the number of items the session can still read. *)
Fixpoint live_leg (fuel : nat) (s : update_session) (b : subscriber) : subscriber * leg :=
  match fuel with
  | O => (b, LegWaits)
  | S fuel =>
      match next s with
      | None => (b, LegWaits)
      | Some (s, Ok (Some f)) =>
          match frame_to_task_update_event uuid f with
          | None => live_leg fuel s b
          | Some u => let '(b, ok) := send_subscribe_chunk b (update_chunk u) in if ok then live_leg fuel s b else (b, LegGone)
          end
      | Some (_, Ok None) | Some (_, Err _) => (b, LegOver)
      end
  end.

Definition stream_weight (phase : session_phase) : nat := match phase with Replaying stream => length stream | _ => 0%nat end.
Definition recv_weight (r : recv) : nat := match r with RecvLagged (Ok stream) => S (length stream) | _ => 1%nat end.
Definition weight (s : update_session) : nat := S (stream_weight (us_phase s) + sum_list_with recv_weight (us_channel s)).

(** The task spawned for a subscription.  [true]: it has ended the stream. *)
Definition run_subscription (task : Task) (s : update_session) (b : subscriber) : subscriber * bool :=
  match send_chunks b (ChunkTask task :: option_to_list (ChunkStatus <$> from_task_current_status task)) with
  | (b, false) => (b, false)
  | (b, true) =>
      let '(s, drained) := drain_replay s in
      let updates := match drained with Ok fs => omap (frame_to_task_update_event uuid) fs | Err _ => [] end in
      match send_chunks b (map update_chunk updates) with
      | (b, false) => (b, false)
      | (b, true) =>
          let '(b, how) := if task_is_terminal task then (b, LegOver) else live_leg (weight s) s b in
          match how with
          | LegOver => sub_push (StreamResponse_default, sb_index b, Some StreamCollect.SemanticFinal) b
          | _ => (b, false)
          end
      end
  end.
End Subscribe.

Definition TASK_NOT_FOUND_MSG := "Task not found".

Inductive A2aOutcome :=
| Response (v : json)
| TaskStream (task : Task) (receiver : Receiver) (replay : replay_stream).

Section Handlers.
Context {G : Type} `{TaskGraph G}.
Context (hash : TaskStreamKey -> Z) (hash_hex : TaskId -> string -> string).
Context (task_json : Task -> result json Errors.BamlRtError) (list_json : ListTasksResponse -> result json Errors.BamlRtError).
Context (replay_since : G -> ScopedTaskRef -> result replay_stream ReplayError).

Definition found (t : option Task) : result Task Errors.BamlRtError := ok_or t (Errors.InvalidArgument TASK_NOT_FOUND_MSG).

Definition handle_get (g : G) (id : TaskId) (history_length : option NumberOrString) : result A2aOutcome Errors.BamlRtError :=
  let? task := found (get hash_hex g id (history_length ≫= as_usize)) in
  let? value := task_json task in
  Ok (Response value).

Definition handle_list (overflow_checks : bool) (g : G) (request : ListTasksRequest) : outcome (result A2aOutcome Errors.BamlRtError) :=
  outcome_bind (list_tasks hash_hex overflow_checks g request) (fun response =>
  Prelude.Done (let? value := list_json response in Ok (Response value))).

(** [tasks.subscribe] up to the snapshot it answers with. *)
Definition read_snapshot (g : G) (id : TaskId) : result (Task * json) Errors.BamlRtError :=
  let? task := found (get hash_hex g id None) in
  let? value := task_json task in
  Ok (task, value).

(** And from there, for a stream. *)
Definition open_stream (id : TaskId) (task : Task) (s : Store G) : Store G * result A2aOutcome Errors.BamlRtError :=
  match resolve_by_task_id (s_graph s) id with
  | Err source => (s, Err (Errors.InvalidArgumentWithSource ("failed to resolve task " +:+ id +:+ " for subscribe") source))
  | Ok None => (s, Err (Errors.InvalidArgument TASK_NOT_FOUND_MSG))
  | Ok (Some scoped) =>
      let key := mkKey (to_context_id (sr_ctx scoped)) (to_task_id (sr_task scoped)) in
      let '(bc, receiver) := subscribe hash (s_bcast s) key in
      let s := mkStore (s_graph s) (s_counter s) (s_now s) bc in
      match replay_since (s_graph s) scoped with
      | Err source => (s, Err (Errors.InvalidArgumentWithSource ("failed to open task update session for " +:+ id) source))
      | Ok stream => (s, Ok (TaskStream task receiver stream))
      end
  end.

Definition handle_subscribe (id : TaskId) (is_stream : bool) (s : Store G) : Store G * result A2aOutcome Errors.BamlRtError :=
  match read_snapshot (s_graph s) id with
  | Err e => (s, Err e)
  | Ok (task, value) => if is_stream then open_stream id task s else (s, Ok (Response value))
  end.
End Handlers.

(** ** What is stored *)

(** Through the deduplicating pipeline, over a store that takes everything: what
    reaches the store are some of the values in their order, none twice, and
    every value is among them, unless its hash is that of another. *)
Lemma dedup_once {W E} (hash_value : json -> Z) (inner : W -> json -> W * result unit E) vs w seen :
  (forall w v, exists w', inner w v = (w', Ok tt)) ->
  exists us, us `sublist_of` vs /\ NoDup (hash_value <$> us) /\ (forall v, v ∈ us -> hash_value v ∉ seen) /\
  (forall v, v ∈ vs -> hash_value v ∈ seen \/ hash_value v ∈ hash_value <$> us) /\
  (fold_left (fun s v => (dedup_store hash_value inner v s).1) vs (w, seen)).1 = fold_left (fun w v => (inner w v).1) us w.
Proof.
  intros Hi. revert w seen. induction vs as [|v vs IH]; intros w seen; simpl.
  - exists []. split_and!; [done|constructor|set_solver|set_solver|done].
  - unfold dedup_store at 2, should_process. simpl. case_bool_decide as Hs; simpl.
    + destruct (IH w seen) as (us & H1 & H2 & H3 & H4 & H5). exists us. split_and!; [by constructor|done|done| |done].
      intros v' [->|Hv]%elem_of_cons; [by left|by apply H4].
    + destruct (Hi w v) as [w' E1]. rewrite E1. destruct (IH w' (mark_processed hash_value v seen)) as (us & H1 & H2 & H3 & H4 & H5).
      unfold mark_processed in *. exists (v :: us). split_and!.
      * by constructor.
      * csimpl. constructor; [|done]. intros (v' & E2 & Hv)%list_elem_of_fmap. apply (H3 v' Hv). set_solver.
      * intros v' [->|Hv]%elem_of_cons; [done|]. specialize (H3 v' Hv). set_solver.
      * intros v' [->|Hv]%elem_of_cons; [right; csimpl; set_solver|]. destruct (H4 v' Hv); csimpl; set_solver.
      * simpl. by rewrite E1.
Qed.

(** A value that failed is tried again. *)
Lemma dedup_retries {W E} (hash_value : json -> Z) (inner : W -> json -> W * result unit E) v s w e :
  should_process hash_value v s.2 = true -> inner s.1 v = (w, Err e) ->
  dedup_store hash_value inner v s = ((w, s.2), Err e) /\ should_process hash_value v (dedup_store hash_value inner v s).1.2 = true.
Proof. intros H1 H2. unfold dedup_store. by rewrite H1 H2. Qed.

Section Stored.
Context {G : Type} `{TaskGraph G}.
Context (hash : TaskStreamKey -> Z) (hash_hex : TaskId -> string -> string).

(** A chunk is stored as it is, but for the agent of its message. *)
Lemma processed_chunk chunk (s : Store G) :
  process_stream_response hash hash_hex chunk s
  = match ValidatedTaskChunk_try_from chunk with
    | Ok _ => apply_task_chunk hash hash_hex (set_chunk_message chunk (message_with_agent chunk)) s
    | Err e => (s, Err (InvalidArgument e))
    end.
Proof.
  unfold process_stream_response, process_validated_chunk, validated, sm_bind, sm_lift, ValidatedTaskChunk_try_from. simpl.
  destruct (negb _ && _) eqn:E; simpl; [done|]. by rewrite E.
Qed.
End Stored.

(** ** What a subscriber is told *)

(** The status of an update. *)
Definition update_status (u : TaskUpdateEvent) : option TaskStatus := match u with UpdStatus e => su_status e | UpdArtifact _ => None end.

Lemma status_event_reads_back id state :
  kind_wf (st_new_status state) -> (forall r, st_new_status state <> Failed r) ->
  wire_status_to_kind (default (mkTaskStatus None None None ∅) (su_status (status_props_to_event id state))) = Ok (st_new_status state).
Proof.
  unfold status_props_to_event. simpl. destruct (st_new_status state) as [| |p| | |r| |] eqn:E; simpl; intros Hwf Hf; try done.
  - destruct Hwf as [Ht He]. unfold wire_status_to_kind. simpl. by rewrite (transcript_text_single p).
  - by destruct (Hf r).
Qed.

(** A failure cannot be read back: its reason is not in the status. *)
Lemma failed_update_unreadable id state r :
  st_new_status state = Failed r ->
  wire_status_to_kind (default (mkTaskStatus None None None ∅) (su_status (status_props_to_event id state))) = Err FailedNeedsReason.
Proof. intros E. unfold status_props_to_event. rewrite E. done. Qed.

(** *** The frames of a session *)

Definition advance (last : option TaskReplayCursor) (fs : list TaskUpdateFrame) : option TaskReplayCursor :=
  from_option (fun f => Some (frame_cursor f)) last (List.last (Some <$> fs) None).

(** The frames of a replay up to its first error, and what follows the error. *)
Fixpoint oks (stream : replay_stream) : list TaskUpdateFrame * option replay_stream :=
  match stream with
  | [] => ([], None)
  | Ok f :: stream => let r := oks stream in (f :: r.1, r.2)
  | Err _ :: stream => ([], Some stream)
  end.

(** What the channel brings: every frame that is later than the last one, with
    the replays asked for when frames were missed; and whether that was all. *)
Fixpoint channel_frames (last : option TaskReplayCursor) (channel : list recv) : list TaskUpdateFrame * bool :=
  match channel with
  | [] => ([], false)
  | RecvFrame f :: rest =>
      if stale last f then channel_frames last rest
      else let r := channel_frames (Some (frame_cursor f)) rest in (f :: r.1, r.2)
  | RecvClosed :: _ | RecvLagged (Err _) :: _ => ([], true)
  | RecvLagged (Ok stream) :: rest =>
      match oks stream with
      | (fs, Some _) => (fs, true)
      | (fs, None) => let r := channel_frames (advance last fs) rest in (fs ++ r.1, r.2)
      end
  end.

Definition session_frames (s : update_session) : list TaskUpdateFrame * bool :=
  match us_phase s with
  | Replaying stream =>
      match oks stream with
      | (fs, Some _) => (fs, true)
      | (fs, None) => let r := channel_frames (advance (us_last s) fs) (us_channel s) in (fs ++ r.1, r.2)
      end
  | Live => channel_frames (us_last s) (us_channel s)
  | Closed => ([], true)
  end.

Lemma advance_cons last f fs : advance last (f :: fs) = advance (Some (frame_cursor f)) fs.
Proof. unfold advance. destruct fs as [|g fs]; [done|]. csimpl. revert g. induction fs as [|h fs IH]; intros g; [done|]. csimpl. apply (IH h). Qed.

Lemma next_live_frames last channel :
  match next_live last channel with
  | None => channel_frames last channel = ([], false)
  | Some (s, Ok (Some f)) => channel_frames last channel = (f :: (session_frames s).1, (session_frames s).2)
      /\ (weight s <= sum_list_with recv_weight channel)%nat
  | Some (_, Ok None) | Some (_, Err _) => channel_frames last channel = ([], true)
  end.
Proof.
  revert last. induction channel as [|r channel IH]; intros last; simpl; [done|].
  destruct r as [f| |[[|[f|e] stream]|e]]; simpl; try done.
  - destruct (stale last f); [|split; [done|unfold weight; simpl; lia]].
    specialize (IH last). destruct (next_live last channel) as [[s' [[g|]|]]|]; try done. destruct IH as [-> ?]. split; [done|lia].
  - specialize (IH last). assert (advance last [] = last) as -> by done.
    destruct (channel_frames last channel) as [fs b]. simpl. destruct (next_live last channel) as [[s' [[g|]|]]|]; try done. destruct IH as [E ?]. split; [exact E|lia].
  - unfold session_frames. simpl. destruct (oks stream) as [fs [rest|]]; simpl; (split; [|unfold weight; simpl; lia]); [done|].
    by rewrite advance_cons.
Qed.

(** Reading on: [next] gives the first of the frames. *)
Lemma next_frames s :
  match next s with
  | None => session_frames s = ([], false)
  | Some (s', Ok (Some f)) => session_frames s = (f :: (session_frames s').1, (session_frames s').2) /\ (weight s' < weight s)%nat
  | Some (_, Ok None) | Some (_, Err _) => session_frames s = ([], true)
  end.
Proof.
  destruct s as [[[|[f|e] stream]| |] last channel]; unfold next; simpl.
  - pose proof (next_live_frames last channel) as H. unfold session_frames, weight at 2. simpl.
    assert (advance last [] = last) as -> by done. destruct (channel_frames last channel) as [fs b]. simpl.
    destruct (next_live last channel) as [[s' [[g|]|]]|]; try done. destruct H as [E ?]. split; [exact E|lia].
  - unfold session_frames. simpl. destruct (oks stream) as [fs [rest|]]; simpl; (split; [|unfold weight; simpl; lia]); [done|].
    by rewrite advance_cons.
  - done.
  - pose proof (next_live_frames last channel) as H. destruct (next_live last channel) as [[s' [[g|]|]]|]; try done.
    destruct H as [E ?]. split; [exact E|unfold weight at 2; simpl; lia].
  - done.
Qed.

Lemma drain_stream_spec stream last channel :
  drain_stream stream last channel
  = match oks stream with
    | (fs, None) => (mkUpdates Live (advance last fs) channel, Ok fs)
    | (fs, Some rest) => (mkUpdates (Replaying rest) (advance last fs) channel, (drain_stream stream last channel).2)
    end /\
  ((oks stream).2 <> None -> exists e, (drain_stream stream last channel).2 = Err e).
Proof.
  revert last. induction stream as [|[f|e] stream IH]; intros last; simpl.
  - done.
  - destruct (IH (Some (frame_cursor f))) as [E He]. rewrite E. destruct (oks stream) as [fs [rest|]]; simpl in *.
    + destruct (He ltac:(done)) as [e Ee]. rewrite Ee. rewrite advance_cons. split; [done|]. intros _. by exists e.
    + rewrite advance_cons. done.
  - split; [done|]. intros _. by exists e.
Qed.

(** *** The stream of a subscription *)

Section SubscriptionFacts.
Context (uuid : TaskUpdateFrame -> string).
Context (chunk_wire : StreamChunk -> option json) (sr_of : json -> option StreamResponse).

(** What a chunk is sent as. *)
Definition sent (c : StreamChunk) : StreamResponse := default StreamResponse_default (chunk_wire c ≫= sr_of).

Fixpoint numbered (n : nat) (cs : list StreamChunk) : list chat_message :=
  match cs with [] => [] | c :: cs => (sent c, n, None) :: numbered (S n) cs end.

Notation updates fs := (omap (frame_to_task_update_event uuid) fs).

Context (Hw : forall c, is_Some (chunk_wire c)).

Lemma send_one b c : sb_left b = None ->
  send_subscribe_chunk chunk_wire sr_of b c = (mkSubscriber (S (sb_index b)) None (sb_out b ++ numbered (sb_index b) [c]), true).
Proof.
  intros Hl. unfold send_subscribe_chunk, sub_push. destruct (Hw c) as [v E]. rewrite E. simpl. rewrite Hl. unfold sent. by rewrite E.
Qed.

Lemma numbered_chunks_app n cs ds : numbered n (cs ++ ds) = numbered n cs ++ numbered (n + length cs) ds.
Proof. revert n. induction cs as [|c cs IH]; intros n; simpl; [by rewrite Nat.add_0_r|]. rewrite IH. do 3 f_equal. lia. Qed.

Lemma send_all b cs : sb_left b = None ->
  send_chunks chunk_wire sr_of b cs = (mkSubscriber (sb_index b + length cs) None (sb_out b ++ numbered (sb_index b) cs), true).
Proof.
  revert b. induction cs as [|c cs IH]; intros b Hl.
  - simpl. rewrite Nat.add_0_r app_nil_r. destruct b. simpl in Hl. by subst.
  - simpl send_chunks. rewrite send_one //. simpl. rewrite IH //. simpl. rewrite -app_assoc. simpl. do 2 f_equal. lia.
Qed.

(** The fuel of the live loop is enough: it forwards the updates of every frame. *)
Lemma live_leg_frames fuel s b : sb_left b = None -> (weight s <= fuel)%nat ->
  let cs := map update_chunk (updates (session_frames s).1) in
  live_leg uuid chunk_wire sr_of fuel s b
  = (mkSubscriber (sb_index b + length cs) None (sb_out b ++ numbered (sb_index b) cs),
     if (session_frames s).2 then LegOver else LegWaits).
Proof.
  assert (forall b : subscriber, sb_left b = None -> mkSubscriber (sb_index b + 0) None (sb_out b ++ []) = b) as Hb.
  { intros [i l o]. simpl. intros ->. by rewrite Nat.add_0_r app_nil_r. }
  revert s b. induction fuel as [|fuel IH]; intros s b Hl Hf; [unfold weight in Hf; lia|]. simpl live_leg.
  pose proof (next_frames s) as Hn. destruct (next s) as [[s' [[f|]|e]]|]; try (rewrite Hn; csimpl; by rewrite Hb).
  destruct Hn as [-> Hlt]. csimpl. destruct (frame_to_task_update_event uuid f) as [u|]; [|apply IH; [done|lia]].
  rewrite send_one //. rewrite IH; [done|lia|]. csimpl. rewrite -app_assoc. simpl. do 2 f_equal. lia.
Qed.

(** The session after the replay. *)
Definition after_replay (stream : replay_stream) (channel : list recv) : update_session :=
  match oks stream with
  | (fs, None) => mkUpdates Live (advance None fs) channel
  | (fs, Some rest) => mkUpdates (Replaying rest) (advance None fs) channel
  end.

(** C12: For a subscriber that stays and chunks that serialise: it gets the task
    as it was found, its status, the updates of the opening replay if that
    replay has no error, and, unless the task had ended, those of every later
    frame the session reads, in order and numbered without a gap; messages are
    left out.  An error of the opening replay loses the updates read before it
    and does not end the stream: the live loop goes on with what follows the
    error ([failed_replay_loses_frames]).  The stream ends, with a final
    message, exactly when the task had ended when the subscription was made, or
    when the live loop finds the channel closed, cannot open the replay a lag
    asks for, or reads an error from a replay; otherwise it stays open. *)
Theorem subscription_stream task stream channel :
  let replayed := match oks stream with (fs, None) => fs | (_, Some _) => [] end in
  let later := if task_is_terminal task then ([], true) else session_frames (after_replay stream channel) in
  let cs := ChunkTask task :: option_to_list (ChunkStatus <$> from_task_current_status task)
            ++ map update_chunk (updates (replayed ++ later.1)) in
  run_subscription uuid chunk_wire sr_of task (mkUpdates (Replaying stream) None channel) (mkSubscriber 0 None [])
  = (mkSubscriber (length cs) None
       (numbered 0 cs ++ (if later.2 then [(StreamResponse_default, length cs, Some StreamCollect.SemanticFinal)] else [])),
     later.2).
Proof.
  intros replayed later cs. unfold run_subscription. rewrite send_all //. unfold drain_replay. simpl us_phase. cbn [us_last us_channel].
  destruct (drain_stream_spec stream None channel) as [Ed He].
  assert (drain_stream stream None channel = (after_replay stream channel, (drain_stream stream None channel).2)) as Ed'.
  { rewrite {1}Ed. unfold after_replay. destruct (oks stream) as [fs [rest|]]; [done|]. by rewrite Ed. }
  assert (match (drain_stream stream None channel).2 with Ok fs => updates fs | Err _ => [] end = updates replayed) as Er.
  { unfold replayed. destruct (oks stream) as [fs [rest|]]; [destruct (He ltac:(done)) as [e Ee]; by rewrite Ee|by rewrite Ed]. }
  rewrite Ed'. rewrite Er. set (hs := ChunkTask task :: option_to_list (ChunkStatus <$> from_task_current_status task)). rewrite send_all //. cbn [sb_index sb_out].
  set (b := mkSubscriber _ None _).
  assert (cs = hs ++ map update_chunk (updates replayed) ++ map update_chunk (updates later.1)) as Hcs.
  { unfold cs, hs. rewrite -map_app -omap_app. done. }
  assert ((if task_is_terminal task then (b, LegOver) else live_leg uuid chunk_wire sr_of (weight (after_replay stream channel)) (after_replay stream channel) b)
    = (mkSubscriber (length cs) None (numbered 0 cs), if later.2 then LegOver else LegWaits)) as ->.
  { rewrite Hcs. unfold later. destruct (task_is_terminal task); cbn [fst snd].
    - rewrite /= app_nil_r. unfold b. rewrite numbered_chunks_app length_app //=.
    - rewrite live_leg_frames //. unfold b. cbn [sb_index sb_out]. rewrite !numbered_chunks_app !length_app /= -app_assoc.
      do 2 f_equal. lia. }
  destruct later.2; [done|by rewrite app_nil_r].
Qed.
End SubscriptionFacts.

(** *** From a record to its subscribers *)

Section Mirrored.
Context {G : Type} `{TaskGraph G}.
Context (hash : TaskStreamKey -> Z) (hash_hex : TaskId -> string -> string).

(** A receiver that listens on the channel of a key. *)
Definition listening (bc : Broadcaster) (key : TaskStreamKey) (r : Receiver) : Prop :=
  channel_of hash bc key = Some (r_chan r) /\
  exists ch, b_channels bc !! r_chan r = Some ch /\ (0 < ch_receivers ch)%nat /\ (r_next r <= length (ch_log ch))%nat.

Lemma unread_drop_sender c bc r : unread (drop_sender c bc) r = unread bc r.
Proof.
  unfold unread, drop_sender. simpl. destruct (decide (c = r_chan r)) as [->|].
  - rewrite lookup_alter_eq. by destruct (b_channels bc !! r_chan r).
  - by rewrite lookup_alter_ne.
Qed.

Lemma unread_retire bc key r : unread (retire hash bc key) r = unread bc r.
Proof. unfold retire. destruct (_ !! key); [|done]. by rewrite unread_drop_sender. Qed.

Lemma mirror_unread key f retire_after (s : Store G) r :
  listening (s_bcast s) key r ->
  unread (s_bcast (mirror hash key f retire_after s).1) r = unread (s_bcast s) r ++ [f].
Proof.
  intros (Hc & ch & E & Hr & Hl). unfold mirror, sm_modify, writer, ensure_sender, channel_of in *. rewrite Hc. simpl.
  unfold send. simpl. rewrite lookup_alter_eq E. simpl. destruct (ch_receivers ch) as [|n]; [lia|]. cbn [fst s_bcast].
  transitivity (unread (set_channels (s_bcast s) (<[r_chan r := mkChannel (ch_log ch ++ [f]) (S n) (S (ch_senders ch))]> (b_channels (s_bcast s)))) r).
  - destruct retire_after; unfold retire_task, drop_writer; rewrite unread_drop_sender ?unread_retire;
      unfold unread; simpl; by rewrite !lookup_insert_eq.
  - unfold unread. simpl. rewrite lookup_insert_eq E. simpl. by rewrite drop_app_le.
Qed.

(** Reading one frame more from the ring. *)
Lemma ring_reads bc bc' r f :
  unread bc' r = unread bc r ++ [f] ->
  forall size, if (length (unread bc r) <? size)%nat
    then recvs size (S (length (unread bc r))) bc' r = GotFrame <$> (unread bc r ++ [f])
    else (Broadcaster.recv size bc' r).1 = GotLagged (S (length (unread bc r)) - size).
Proof.
  intros Hun size. pose proof (f_equal length Hun) as Hlen. rewrite length_app Nat.add_1_r in Hlen. rewrite -Hun -Hlen.
  destruct (Nat.ltb_spec (length (unread bc r)) size) as [Hsz|Hsz]; [apply recvs_unread|apply recv_lagged]; lia.
Qed.

(** C13: When a status is recorded, one frame more waits for every subscriber of
    the task's channel.  One that is not further behind than its ring reads it
    after those that waited before, one that is learns how many frames it
    missed.  Its session, reading the frame live, passes it on unless it has
    already returned a frame of the same or a later anchor.  The update it makes
    names the same task and the same state, and reads back as the status that
    was recorded (its prompt, if it asks for input, trimmed and not empty),
    failures apart, whose reason it does not carry in the status.  The anchor
    counter is a u64 and the recording returned an event. *)
Theorem recorded_status_reaches_subscriber uuid (s s' : Store G) tid cid status e r :
  is_u64 (s_counter s) ->
  record_status_update hash tid cid status s = (s', Ok (Some (UpdStatus e))) ->
  listening (s_bcast s) (mkKey cid tid) r ->
  exists k f u st, wire_status_to_kind status = Ok k /\
    unread (s_bcast s') r = unread (s_bcast s) r ++ [f] /\
    (forall size,
       if (length (unread (s_bcast s) r) <? size)%nat
       then recvs size (S (length (unread (s_bcast s) r))) (s_bcast s') r = GotFrame <$> (unread (s_bcast s) r ++ [f])
       else (Broadcaster.recv size (s_bcast s') r).1 = GotLagged (S (length (unread (s_bcast s) r)) - size)) /\
    (forall last channel, (forall c, last = Some c -> (cur_event_order c < s_counter s)%Z) ->
       next (mkUpdates Live last (RecvFrame f :: channel))
       = Some (mkUpdates Live (Some (frame_cursor f)) channel, Ok (Some f))) /\
    frame_to_task_update_event uuid f = Some (UpdStatus u) /\ su_task_id u = Some tid /\ su_task_id u = su_task_id e /\
    su_status u = Some st /\ status_to_string st = Some (as_wire_str k) /\
    (kind_wf k -> (forall why, k <> Failed why) -> wire_status_to_kind st = Ok k).
Proof.
  intros Hu64 Hrec Hr. revert Hrec. unfold record_status_update, sm_bind, sm_lift.
  unfold status_gate. destruct (wire_status_to_kind status) as [k|] eqn:Ek; [|done]. simpl.
  destruct (head_state _ _ _) as [current|]; [|done]. simpl.
  case_match eqn:Eg; [|done]. match type of Eg with (if ?b then _ else _) = _ => destruct b; [|done] end. injection Eg as <-.
  unfold status_commit, sm_bind, task_event, sm_bind, next_activity_anchor, sm_lift, write_event. simpl.
  unfold replay_cursor, TaskReplayCursor_from_anchor. simpl. rewrite monotonic_counter_from_counter //. simpl.
  destruct (add_event _ _) as [g'|]; [|done].
  set (s1 := mkStore g' _ _ _). set (f := StatusTransition _ _). set (ra := is_terminal_state _).
  intros [= <- <-]. pose proof (mirror_unread (mkKey cid tid) f ra s1 r Hr) as Hun.
  exists k, f. eexists _, _. split_and!; try reflexivity.
  - exact Hun.
  - exact (ring_reads _ _ r f Hun).
  - intros last channel Hlast. unfold next. simpl. destruct last as [c|]; [|done]. specialize (Hlast c eq_refl).
    assert (stale (Some c) f = false) as -> by
      (unfold stale, cursor_le; cbn [frame_cursor f cur_event_order];
       rewrite (proj2 (Z.ltb_ge _ _)) ?(proj2 (Z.eqb_neq _ _)) //; lia).
    done.
  - intros Hwf Hf. exact (status_event_reads_back (uuid f) (mkStateProps _ k _ _ _) Hwf Hf).
Qed.
End Mirrored.

(** ** Concrete runs *)

Definition ex_cursor (n : Z) : TaskReplayCursor := mkCursor n (ActivityAnchorId_from_counter n).
Definition ex_status (n : Z) (k : TaskStatusKind) : TaskUpdateFrame :=
  StatusTransition (mkStateProps "task:t" k None n (ActivityAnchorId_from_counter n)) (ex_cursor n).
Definition ex_task (k : TaskStatusKind) : Task := mkTask (Some "t") (Some "ctx-1-1") [] [] (Some (wire_status k)) None ∅.
Definition ex_wire (c : StreamChunk) : option json := Some JNull.
Definition ex_sr (v : json) : option StreamResponse := None.

Lemma ex_wire_total c : is_Some (ex_wire c).
Proof. by eexists. Qed.

Notation ex_subscribe k stream channel :=
  (run_subscription (fun _ => "u") ex_wire ex_sr (ex_task k) (mkUpdates (Replaying stream) None channel) (mkSubscriber 0 None [])).

Lemma subscription_stream_witness :
  exists b, ex_subscribe Working [Ok (ex_status 1 Submitted); Ok (ex_status 2 Working)]
              [RecvFrame (ex_status 2 Working); RecvFrame (ex_status 3 Completed); RecvClosed] = (b, true) /\
  map (fun m => (m.1.2, m.2)) (sb_out b)
  = [(0, None); (1, None); (2, None); (3, None); (4, None); (5, Some StreamCollect.SemanticFinal)]%nat.
Proof. eexists. split; [apply (subscription_stream (fun _ => "u") ex_wire ex_sr ex_wire_total)|reflexivity]. Defined.

(** A replay that breaks off: the frames before the failure are never sent, the
    loop goes on behind it. *)
Lemma failed_replay_loses_frames :
  session_frames (after_replay [Ok (ex_status 1 Submitted); Err "connection reset"; Ok (ex_status 2 Working)] [])
  = ([ex_status 2 Working], false) /\
  exists b, ex_subscribe Working [Ok (ex_status 1 Submitted); Err "connection reset"; Ok (ex_status 2 Working)] [] = (b, false) /\
            length (sb_out b) = 3%nat.
Proof. split; [reflexivity|]. eexists. split; vm_compute; reflexivity. Qed.

Definition ex_store : Store MemGraph := run_statuses [Submitted].
Definition ex_listener : Store MemGraph * Receiver :=
  let '(bc, r) := subscribe h0 (s_bcast ex_store) (mkKey "ctx-1-1" "t") in
  (mkStore (s_graph ex_store) (s_counter ex_store) (s_now ex_store) bc, r).

Lemma recorded_status_witness :
  exists s' e k f u st, record_status_update h0 "t" "ctx-1-1" (wire_status Working) ex_listener.1 = (s', Ok (Some (UpdStatus e))) /\
    wire_status_to_kind (wire_status Working) = Ok k /\
    unread (s_bcast s') ex_listener.2 = unread (s_bcast ex_listener.1) ex_listener.2 ++ [f] /\
    recvs 4 1 (s_bcast s') ex_listener.2 = [GotFrame f] /\
    frame_to_task_update_event (fun _ => "u") f = Some (UpdStatus u) /\ su_status u = Some st /\ status_to_string st = Some (as_wire_str k).
Proof.
  destruct (record_status_update h0 "t" "ctx-1-1" (wire_status Working) ex_listener.1) as [s' [[[e|]|]|]] eqn:E;
    try (vm_compute in E; discriminate E).
  assert (listening h0 (s_bcast ex_listener.1) (mkKey "ctx-1-1" "t") ex_listener.2) as Hl
    by (split; [vm_compute; reflexivity|eexists; split; [vm_compute; reflexivity|split; vm_compute; lia]]).
  destruct (recorded_status_reaches_subscriber h0 (fun _ => "u") ex_listener.1 s' "t" "ctx-1-1" (wire_status Working) e ex_listener.2
              ltac:(vm_compute; split; discriminate || reflexivity) E Hl)
    as (k & f & u & st & H1 & H2 & H6 & _ & H3 & _ & _ & H4 & H5 & _).
  exists s', e, k, f, u, st. split_and!; try (assumption || reflexivity). exact (H6 4%nat).
Defined.

(** A task that ends between the snapshot of a subscription and its channel: the
    channel was retired, the subscriber gets a new one, which nothing will close;
    its stream stays open for ever. *)
Lemma late_subscriber_waits :
  exists s1 s2 s3 task v r, s1 = run_statuses [Submitted; Working] /\
    read_snapshot hx0 (fun _ => Ok JNull) (s_graph s1) "t" = Ok (task, v) /\
    s2 = (record_status_update h0 "t" "ctx-1-1" (wire_status Completed) s1).1 /\
    open_stream h0 (fun _ _ => Ok []) "t" task s2 = (s3, Ok (TaskStream task r [])) /\
    head_kind s3 "ctx-1-1" = Some Completed /\ task_is_terminal task = false /\
    channel_of h0 (s_bcast s3) (mkKey "ctx-1-1" "t") = Some (r_chan r) /\ unread (s_bcast s3) r = [] /\
    (run_subscription (fun _ => "u") ex_wire ex_sr task (mkUpdates (Replaying [Ok (ex_status 1 Completed)]) None []) (mkSubscriber 0 None [])).2 = false.
Proof.
  do 6 eexists. split; [reflexivity|]. split; [vm_compute; reflexivity|]. split; [reflexivity|].
  split; [vm_compute; reflexivity|]. vm_compute. done.
Qed.

(** *** The two pipelines *)

Definition ex_chunk (k : TaskStatusKind) : StreamResponse := mkStreamResponse None (Some (ex_task k)) None None ∅.
Definition ex_decode (v : json) : option StreamResponse :=
  match v with
  | JStr "working" => Some (ex_chunk Working)
  | JStr "question" => Some (ex_chunk (InputRequired "which branch?"))
  | JStr "artifact" => Some (mkStreamResponse None (Some (mkTask (Some "t") (Some "ctx-1-1") [] [] None None ∅)) None
      (Some (mkArtifactUpdate (Some "ctx-1-1") (Some "t") None None (Some Artifact_default) None ∅)) ∅)
  | _ => None
  end.
Definition ex_pipeline (s : Store MemGraph) (v : json) : Store MemGraph * result unit BamlRtError :=
  match store_result h0 hx0 ex_decode (fun _ => None) (fun _ => None) v s with
  | (s, Ok _) => (s, Ok tt)
  | (s, Err e) => (s, Err e)
  end.
Definition ex_hash (v : json) : Z := match v with JStr s => Z.of_nat (String.length s) | _ => 0%Z end.
Definition ex_dedup (v : json) (s : Store MemGraph * gset Z) := dedup_store ex_hash ex_pipeline v s.

(** The chunk that sets a task to work again after a question is the one that set
    it to work before: the deduplicating pipeline drops it, the store itself
    would take it. *)
Lemma repeated_status_suppressed :
  let run vs := (fold_left (fun s v => (ex_dedup v s).1) vs (ex_store, ∅)).1 in
  let plain vs := fold_left (fun s v => (ex_pipeline s v).1) vs ex_store in
  let vs := [JStr "working"; JStr "question"; JStr "working"] in
  head_kind (run vs) "ctx-1-1" = Some (InputRequired "which branch?") /\ head_kind (plain vs) "ctx-1-1" = Some Working.
Proof. vm_compute. done. Qed.

(** A chunk of a live stream is stored by the collector and by the session of its
    client, through different pipelines: its artifact is recorded twice, and a
    subscriber is told twice. *)
Lemma live_artifact_recorded_twice :
  let s1 := (ex_dedup (JStr "artifact") (ex_listener.1, ∅)).1.1 in
  let s2 := (ex_pipeline s1 (JStr "artifact")).1 in
  length (mg_artifacts (s_graph s2)) = 2%nat /\ length (unread (s_bcast s2) ex_listener.2) = 2%nat.
Proof. vm_compute. done. Qed.
